(* ===== verification/_CoqProject ===== *)
-Q . S2P
Prelude.v
Paging.v
Idt.v
IntrEntry.v
Vbe.v
Multiboot.v
Display.v
Interrupts.v
Ctype.v
LuaStr.v
LuaMatch.v
LuaMatchSpec.v
LuaMatchErr.v
LuaFind.v
LuaZio.v
LuaDump.v
LuaLoad.v
LuaLex.v
LuaLexSpec.v
LuaQuote.v
LuaTokens.v
LuaOp.v
LuaTable.v
LuaHash.v
LuaTableWf.v
LuaRehash.v
LuaTableSpec.v
Terminal.v
LuaRef.v
LuaTab.v
LuaNumber.v
LuaCode.v
LuaLines.v
LuaVm.v
LuaParse.v
LuaStat.v
LuaScope.v
LuaScopeStat.v
LuaJump.v
LuaRun.v
LuaEmit.v
LuaDesc.v
LuaPlace.v
LuaReg.v
LuaOperand.v
LuaCond.v
LuaNot.v
LuaConcat.v
LuaStage.v
LuaOper.v
LuaLogic.v
LuaExpr.v
LuaExprSpec.v
LuaExprParse.v
LuaProgram.v
LuaChunk.v
LuaBit.v
FileSys.v
Syscall.v
Draw.v
Stdio.v
Keys.v
Sched.v
Buddy.v
Mem5.v
Mem5Lists.v
Mem5Spec.v
Mem5Heap.v
Mem5Init.v
Malloc.v
MallocClient.v
SqlVarint.v
MuslStr.v
Kernel.v
