(* ===== verification/Prelude.v ===== *)
(** * LuaKernel: a verification development (root file, shared prelude)

    LuaKernel is a small operating-system kernel for x86-64.  [src/src/init.S]
    enters long mode, [src/src/init.c] builds the page tables and the interrupt
    table, [src/src/luakernel.c] reads the boot information, gives the memory that
    is left to SQLite's allocator, starts a Lua interpreter on it and runs
    [src/src/luakernel.lua], which holds the scheduler, the terminal and the file
    system.  musl's libc reaches the kernel through [__syscall], which
    [handle_syscall] answers by calling Lua functions.

    ** Parts, files and what is proved

    - Boot: [Paging] ([setup_page_table]: four nested loops, 32-bit entries; the
      processor's walk of the tables is the reference; identity map of 4 GiB and
      frame), [Idt] ([setIDT], [setup_IDT], the packed gates as the processor reads
      them in memory, at the address the IDTR holds), [IntrEntry] (the stubs of [interrupt.S] and the common entry of
      [init.S] as instruction lists on registers and stack: an interrupt is
      transparent, except after an exception with an error code), [Vbe] and
      [Multiboot] ([get_multiboot_info] over the bytes of the block, against an
      abstract list of tags).
    - Devices: [Display] ([putpixel], [clear_screen], [swap_buffers]; refinement to
      a picture, bounds), [Interrupts] ([handle_interrupt], the PIC programming,
      the scancode queue; a step relation interleaves interrupts with the Lua
      reader, and no scancode is lost, duplicated or reordered).
    - The Lua side of the kernel: [Terminal] and [FileSys] (the functions [open],
      [lseek], [read], [write] of [luakernel.lua] on shared descriptor tables),
      [Draw] (the drawing functions as sequences of [putpixel] calls, and a frame
      of the display task against the picture it shows), [Keys] ([key_pressed] as a
      state machine: a typed line reaches [load]), [Sched] ([taskadd], [wait] and the
      scheduler loop for any task behaviour in which added tasks do not add tasks in
      an endless chain: what a round resumes, and no starvation).
    - System calls: [LuaRef] ([luaL_ref], [luaL_unref] against an interface of raw
      tables), [Syscall] ([handle_syscall], every case: invariant,
      create/writev/read round trip, the error paths), [Stdio] (musl's buffered
      [stdout] and Lua's [print] and [io.write] on top of [writev]).
    - Memory: [Buddy] (theory of power-of-two partitions), [Mem5] (SQLite's
      memsys5 with its free lists inside the free blocks), [Mem5Lists],
      [Mem5Spec], [Mem5Heap], [Mem5Init] (the invariant and the refinement to an
      abstract heap of disjoint blocks), [Malloc] (SQLite's malloc layer with its
      statistics and [l_alloc], against the contract Lua expects), [MallocClient]
      (programs that allocate through [l_alloc], as trees of calls and answers: every
      one that keeps Lua's rules runs, and leaves no fragmentation behind).
    - C library: [Ctype] and [MuslStr] (musl's character classes and string
      scanning, the word-at-a-time loops included).
    - Lua's tables ([ltable.c]): [LuaTable] (the array and hash parts, new keys,
      rehashing, length, traversal), [LuaHash] (the invariant of the chains),
      [LuaTableWf], [LuaRehash], [LuaTableSpec] (a table is a finite map, whatever
      collisions and rehashes happen).
    - Lua's libraries: [LuaStr], [LuaBit] (string basics and bit32), [LuaMatch],
      [LuaMatchSpec], [LuaMatchErr], [LuaFind] (the pattern matcher against a
      declarative relation and its errors against well-formed patterns, [find],
      [match], [gmatch], [gsub]), [LuaTab] ([insert], [remove], [concat], [unpack],
      [sort] over any raw table and any comparison), [LuaQuote] ([%q] of [format]).
    - Lua's front end: [LuaZio] (streams), [LuaLex], [LuaLexSpec], [LuaTokens] (the
      lexer: it ends on every input, and reads spelled tokens and quoted strings
      back), [LuaDump], [LuaLoad] (precompiled chunks: round trip, truncation, what
      a loaded prototype can hold), [LuaOp] (the instruction format).
    - Lua's compiler: [LuaNumber] (doubles behind a class of their operations, with
      IEEE doubles as the instance), [LuaCode] (all of [lcode.c]), [LuaParse] (the
      expressions of [lparser.c]) and [LuaStat] (its statements, blocks, labels,
      gotos and functions, up to [luaY_parser]); [LuaVm] has the instructions of
      expressions of [lvm.c].
      - Scopes: [LuaScope] and [LuaScopeStat] show by induction on the grammar that
        a text the parser accepts leaves nothing open, and that the upvalues of
        nested functions are variables or upvalues of the function around them.
      - Correctness of the code: [LuaJump] (the jump lists that run through the
        instructions), [LuaRun] (runs of code that is still being generated),
        [LuaEmit] (the invariant of a function under construction), [LuaDesc] (what
        a descriptor promises), [LuaPlace], [LuaReg], [LuaOperand] (values in
        registers and operands), [LuaCond], [LuaNot], [LuaLogic] (conditions,
        [not], [and], [or]), [LuaConcat], [LuaStage], [LuaOper] (operators),
        [LuaExpr] and [LuaExprSpec] (compiled expressions compute their values).
      - From text to value: [LuaLines] (line numbers do not influence code),
        [LuaExprParse] (the parser calls the code generator as the priorities of
        the operators say), [LuaProgram] (local declarations), [LuaChunk] (the
        text of a program of [local x = e] and [return e] is accepted, and running
        the prototype gives the value of the program or its error).
    - [SqlVarint]: the variable-length integers of SQLite's file format.
    - [Kernel]: the Lua bindings, the module loader with [require], and [main],
      whose theorem composes the boot block, the heap, the allocations of Lua's
      start-up and the display.

    ** How the code is represented

    C integers are [Z] with every wrap-around written out ([wrap], [swrap]);
    arithmetic the C standard leaves undefined, Lua errors, endless loops and
    exhausted fuel are the values of [fault], in the error monad [res].  Memory is
    a list or a finite map of bytes, structs are records (with their packed layout
    where the code or the processor reads them as bytes), tagged unions are
    inductive types.  Loops with a constant bound use [for_up]; loops that follow
    data take fuel, and their theorems state how much is enough (the number of
    tags for the boot block, the number of bytes for a string, a stream or a chunk,
    one more than the characters left for the lexer, the number of block sizes for
    the allocator, the length of the array for [sort], two for the nesting of
    rehashes), so they are statements of termination too.  In the compiler the fuel
    of a jump list is the number of instructions, that of the grammar the nesting
    and length of the text; the theorem on programs asks for more fuel than the size
    of the text's tree, for the registers and the calls it nests to stay within
    [MAXSTACK] and [LUAI_MAXCCALLS], and for the reach of a jump to exceed 64
    instructions for every node, more than any node needs.

    Code that is not in the repository's C or Lua files, or that is a language
    implementation (the Lua virtual machine's loading and running of chunks, the
    generated [lua-bundle.h]), is a parameter of the definitions that use it.  What
    Lua does with the heap while it starts is such a parameter too: any program over
    [l_alloc] that keeps the rules of [lua_Alloc].

    Metamethods are parameters of the virtual machine ([runtime]) that give a value
    or an error and do not change registers; its registers are a function from
    numbers to values.  The messages of Lua errors are not told apart.

    ** Not modelled

    - The switch to long mode before [main]: control registers and a far jump, whose
      meaning is the processor's mode and not the program's data.
    - The instructions of [lvm.c] that reach other objects (calls, tables, loops,
      closures, closing of upvalues), the collector, protected calls and the C API:
      they share a heap with the collector and unwind by [longjmp]; [LuaVm] takes
      them as the parameter [other].
    - The SQL engine and its Lua binding, a third-party program the kernel only
      links; its allocator and its integer encoding, which the kernel relies on, are
      modelled.
    - The conversions of numbers to text and back ([%.14g], [strtod]), the rest of
      [string.format], musl's copying functions, and the font, which is data. *)

From Stdlib Require Export ZArith Lia Zbitwise.
From stdpp Require Export base tactics list numbers gmap.

#[export] Set Default Goal Selector "!".
Global Open Scope Z_scope.

(** ** Machine integers

    A C integer of width [w] is a [Z]; every conversion or wrapping operation
    of the source is written out with one of the functions below. *)

Definition wrap (w z : Z) : Z := z mod 2 ^ w.

Definition swrap (w z : Z) : Z := (z + 2 ^ (w - 1)) mod 2 ^ w - 2 ^ (w - 1).

Declare Scope cint_scope.
Delimit Scope cint_scope with cint.
Abbreviation u8 := (wrap 8).
Abbreviation u16 := (wrap 16).
Abbreviation u32 := (wrap 32).
Abbreviation u64 := (wrap 64).
Abbreviation s32 := (swrap 32).
Abbreviation s64 := (swrap 64).
Infix "|||" := Z.lor (at level 50, left associativity) : cint_scope.
Infix "&&&" := Z.land (at level 40, left associativity) : cint_scope.
Global Open Scope cint_scope.

(** Membership of a value in an unsigned or signed range. *)
Definition in_u (w z : Z) : Prop := 0 <= z < 2 ^ w.
Definition in_s (w z : Z) : Prop := - 2 ^ (w - 1) <= z < 2 ^ (w - 1).

#[export] Instance in_u_dec w z : Decision (in_u w z).
Proof. unfold in_u. apply _. Defined.
#[export] Instance in_s_dec w z : Decision (in_s w z).
Proof. unfold in_s. apply _. Defined.

(** ** Faults and the error monad

    Where the source can leave the defined behaviour of C, raise a Lua error
    or loop for ever, the model returns a [fault] instead of a value. *)

Inductive fault : Type :=
| Undefined   (** behaviour the C standard leaves undefined *)
| LuaError    (** a Lua error is raised (a [longjmp] out of the C code) *)
| NoFuel      (** the fuel given to a loop of the model is used up *)
| Hang.       (** the code enters an explicit [while (1);] *)

#[export] Instance fault_eq_dec : EqDecision fault.
Proof. solve_decision. Defined.

Inductive res (A : Type) : Type :=
| Ok (a : A)
| Err (e : fault).
Arguments Ok {A} a.
Arguments Err {A} e.

#[export] Instance res_ret : MRet res := fun A a => Ok a.
#[export] Instance res_bind : MBind res := fun A B f m =>
  match m with Ok a => f a | Err e => Err e end.
#[export] Instance res_fmap : FMap res := fun A B f m =>
  match m with Ok a => Ok (f a) | Err e => Err e end.

(** A failed lookup is an access outside an object. *)
Definition of_option {A} (e : fault) (o : option A) : res A :=
  match o with Some a => Ok a | None => Err e end.

(** [assert_c b] is a side condition of the C standard. *)
Definition require_c (b : bool) (e : fault) : res unit :=
  if b then Ok () else Err e.

(** The result of signed arithmetic: outside the range of [int] it is undefined. *)
Definition c_int (z : Z) : res Z := if decide (in_s 32 z) then Ok z else Err Undefined.

(** ** Loops *)

(** [for (i = 0; i < n; ++i) body]: the body gets the loop counter. *)
Fixpoint for_up {S : Type} (n : nat) (body : Z -> S -> S) (s : S) : S :=
  match n with
  | O => s
  | S n' => body (Z.of_nat n') (for_up n' body s)
  end.

(** The same loop when the body can fault. *)
Fixpoint for_up_res {S : Type} (n : nat) (body : Z -> S -> res S) (s : S) : res S :=
  match n with
  | O => Ok s
  | S n' => s' ← for_up_res n' body s; body (Z.of_nat n') s'
  end.

(** ** Bytes and little-endian words *)

Fixpoint le_bytes (n : nat) (z : Z) : list Z :=
  match n with
  | O => []
  | S n' => z mod 256 :: le_bytes n' (z / 256)
  end.

Fixpoint le_value (bs : list Z) : Z :=
  match bs with
  | [] => 0
  | b :: bs' => b + 256 * le_value bs'
  end.

Definition is_byte (b : Z) : Prop := 0 <= b < 256.

(** [le_read n bs off]: an [n]-byte little-endian load at offset [off]. *)
Definition le_read (n : nat) (bs : list Z) (off : Z) : res Z :=
  if decide (0 <= off /\ off + Z.of_nat n <= Z.of_nat (length bs))
  then Ok (le_value (take n (drop (Z.to_nat off) bs)))
  else Err Undefined.

(** ** Byte-addressed memory

    A region of memory as a finite map from offsets to bytes; what was never
    stored reads as zero, and no theorem depends on that. *)

Definition read_byte (m : gmap Z Z) (off : Z) : Z := default 0 (m !! off).

Fixpoint read_bytes (m : gmap Z Z) (off : Z) (n : nat) : list Z :=
  match n with O => [] | S n' => read_byte m off :: read_bytes m (off + 1) n' end.

Fixpoint write_bytes (m : gmap Z Z) (off : Z) (bs : list Z) : gmap Z Z :=
  match bs with [] => m | b :: bs' => <[off := b]> (write_bytes m (off + 1) bs') end.

(** ** Tactics *)

(** Normalise closed powers of two, then call [lia]. *)
Ltac pow2 :=
  repeat match goal with
  | |- context [2 ^ ?n] =>
      let v := eval vm_compute in (2 ^ n) in
      lazymatch v with Zpos _ => change (2 ^ n) with v end
  | H : context [2 ^ ?n] |- _ =>
      let v := eval vm_compute in (2 ^ n) in
      lazymatch v with Zpos _ => change (2 ^ n) with v in H end
  end.

Ltac clia := unfold in_u, in_s, is_byte in *; pow2; lia.

(** The same for goals with division and remainder. *)
Ltac dlia :=
  unfold in_u, in_s, is_byte in *; pow2;
  zify; Z.to_euclidean_division_equations; lia.

(** Split an [Ok]/[Err] monadic hypothesis. *)
Ltac res_inv H :=
  repeat match type of H with
  | mbind ?f ?m = Ok _ =>
      let E := fresh "E" in destruct m eqn:E; cbn in H; [|discriminate H]
  | res_bind _ _ ?f ?m = Ok _ =>
      let E := fresh "E" in destruct m eqn:E; cbn in H; [|discriminate H]
  end.

Create HintDb cint.

Lemma ok_bind {A C} (a : A) (f : A -> res C) : (Ok a ≫= f) = f a.
Proof. done. Qed.

Lemma bind_Ok {A C} (m : res A) (f : A -> res C) c :
  (m ≫= f) = Ok c -> exists a, m = Ok a /\ f a = Ok c.
Proof. destruct m; [by eauto|done]. Qed.

(** ** Lemmas on machine integers *)

Lemma wrap_range w z : 0 <= w -> in_u w (wrap w z).
Proof. intros. apply Z.mod_pos_bound. lia. Qed.

Lemma wrap_small w z : in_u w z -> wrap w z = z.
Proof. intros H. apply Z.mod_small, H. Qed.

Lemma wrap_add_l w a b : wrap w (wrap w a + b) = wrap w (a + b).
Proof. apply Zplus_mod_idemp_l. Qed.

Lemma wrap_wrap w z : wrap w (wrap w z) = wrap w z.
Proof. apply Zmod_mod. Qed.

Lemma swrap_small w z : 0 < w -> in_s w z -> swrap w z = z.
Proof.
  intros Hw [H1 H2]. unfold swrap.
  assert (2 ^ w = 2 * 2 ^ (w - 1)) as ->
    by (rewrite <- Z.pow_succ_r; [f_equal|]; lia).
  rewrite Z.mod_small; lia.
Qed.

Lemma swrap_range w z : 0 < w -> in_s w (swrap w z).
Proof.
  intros Hw. unfold swrap, in_s.
  assert (2 ^ w = 2 * 2 ^ (w - 1)) as ->
    by (rewrite <- Z.pow_succ_r; [f_equal|]; lia).
  assert (0 < 2 ^ (w - 1)) by lia.
  pose proof (Z.mod_pos_bound (z + 2 ^ (w - 1)) (2 * 2 ^ (w - 1))). lia.
Qed.

Lemma c_int_ok z : in_s 32 z -> c_int z = Ok z.
Proof. intros. unfold c_int. by rewrite decide_True. Qed.

(** Or-ing a value below [2^n] into a multiple of [2^n] adds it. *)
Lemma lor_add_low n a b :
  0 <= n -> a mod 2 ^ n = 0 -> 0 <= b < 2 ^ n -> a ||| b = a + b.
Proof.
  intros Hn Ha Hb.
  assert (a &&& b = 0) as Hz; [|pose proof (Z.add_lor_land a b); lia].
  apply Z.bits_inj'. intros i Hi. rewrite Z.land_spec, Z.bits_0.
  destruct (decide (i < n)) as [Hlt|Hge].
  - rewrite <- (Z.mod_pow2_bits_low a n i) by lia. rewrite Ha, Z.bits_0. done.
  - rewrite andb_comm. rewrite <- (Z.mod_small b (2 ^ n)) by lia.
    rewrite Z.mod_pow2_bits_high by lia. done.
Qed.

(** ** Lemmas on bytes *)

Lemma length_le_bytes n z : length (le_bytes n z) = n.
Proof. revert z. induction n; intros; cbn; auto. Qed.

Lemma le_value_bytes n z : le_value (le_bytes n z) = z mod 256 ^ Z.of_nat n.
Proof.
  revert z. induction n as [|n IH]; intros z.
  { cbn. by rewrite Z.mod_1_r. }
  cbn [le_bytes le_value]. rewrite IH, Nat2Z.inj_succ, Z.pow_succ_r by lia.
  rewrite Z.rem_mul_r by lia. done.
Qed.

Lemma le_value_bytes_small n z :
  0 <= z < 256 ^ Z.of_nat n -> le_value (le_bytes n z) = z.
Proof. intros. rewrite le_value_bytes. by apply Z.mod_small. Qed.

Lemma le_bytes_bytes n z : Forall is_byte (le_bytes n z).
Proof.
  revert z. induction n; intros; cbn; constructor; [|done].
  apply Z.mod_pos_bound. lia.
Qed.

Lemma le_value_range bs :
  Forall is_byte bs -> 0 <= le_value bs < 256 ^ Z.of_nat (length bs).
Proof.
  induction 1 as [|b bs Hb _ IH]; cbn [le_value length]; [cbn; lia|].
  rewrite Nat2Z.inj_succ, Z.pow_succ_r by lia. unfold is_byte in Hb. lia.
Qed.

Lemma le_bytes_value bs :
  Forall is_byte bs -> le_bytes (length bs) (le_value bs) = bs.
Proof.
  induction 1 as [|b bs Hb _ IH]; cbn [le_value length le_bytes]; [done|].
  unfold is_byte in Hb.
  replace ((b + 256 * le_value bs) / 256) with (le_value bs) by dlia.
  rewrite IH. f_equal. dlia.
Qed.

(** A load that lies inside [mid] of [pre ++ mid ++ post]. *)
Lemma le_read_app n pre mid post off :
  off = Z.of_nat (length pre) -> length mid = n ->
  le_read n (pre ++ mid ++ post) off = Ok (le_value mid).
Proof.
  intros -> Hn. unfold le_read. rewrite decide_True.
  2: { rewrite !length_app. lia. }
  rewrite Nat2Z.id, drop_app_length, take_app_le, take_ge by lia. done.
Qed.

(** ** Lemmas on loops *)

(** Induction over a counted loop: an invariant indexed by the counter. *)
Lemma for_up_ind {S : Type} (P : nat -> S -> Prop) n body (s : S) :
  P O s ->
  (forall i s', (i < n)%nat -> P i s' -> P (Datatypes.S i) (body (Z.of_nat i) s')) ->
  P n (for_up n body s).
Proof.
  induction n as [|n IH]; intros H0 Hstep; [done|].
  apply Hstep; [lia|]. apply IH; [done|]. intros. apply Hstep; [lia|done].
Qed.

(** Loads past a prefix, and of the word at the front. *)
Lemma le_read_skip n pre rest k :
  0 <= k -> le_read n (pre ++ rest) (Z.of_nat (length pre) + k) = le_read n rest k.
Proof.
  intros Hk. unfold le_read. rewrite length_app.
  destruct (decide (0 <= k /\ k + Z.of_nat n <= Z.of_nat (length rest))).
  - rewrite decide_True by lia. do 2 f_equal.
    rewrite Z2Nat.inj_add, Nat2Z.id by lia. rewrite <- drop_drop, drop_app_length. done.
  - rewrite decide_False by lia. done.
Qed.

Lemma le_read_start n pre rest :
  le_read n (pre ++ rest) (Z.of_nat (length pre)) = le_read n rest 0.
Proof. rewrite <- (le_read_skip n pre rest 0) by lia. f_equal. lia. Qed.

Lemma le_read_here n v rest :
  0 <= v < 256 ^ Z.of_nat n -> le_read n (le_bytes n v ++ rest) 0 = Ok v.
Proof.
  intros Hv. rewrite (le_read_app n [] (le_bytes n v) rest) by
    (done || apply length_le_bytes). by rewrite le_value_bytes_small.
Qed.

(** The load of the next word of a packed sequence. *)
Lemma le_read_next n m v rest k :
  Z.of_nat m <= k ->
  le_read n (le_bytes m v ++ rest) k = le_read n rest (k - Z.of_nat m).
Proof.
  intros Hk. rewrite <- (le_read_skip n (le_bytes m v) rest (k - Z.of_nat m)) by lia.
  f_equal. rewrite length_le_bytes. lia.
Qed.

(** ** Lemmas on byte-addressed memory *)

Lemma read_byte_write m off bs a :
  read_byte (write_bytes m off bs) a =
  if decide (off <= a < off + Z.of_nat (length bs))
  then default 0 (bs !! Z.to_nat (a - off)) else read_byte m a.
Proof.
  revert off. induction bs as [|b bs IH]; intros off; cbn [write_bytes length].
  { rewrite decide_False by lia. done. }
  unfold read_byte in *. rewrite lookup_insert. case_decide as Ha.
  - subst a. rewrite decide_True by lia. rewrite Z.sub_diag. done.
  - rewrite IH. destruct (decide (off + 1 <= a < off + 1 + Z.of_nat (length bs))).
    + rewrite decide_True by lia. replace (Z.to_nat (a - off)) with (S (Z.to_nat (a - (off + 1)))) by lia.
      done.
    + rewrite decide_False by lia. done.
Qed.

Lemma length_read_bytes m off n : length (read_bytes m off n) = n.
Proof. revert off. induction n; intros; cbn; auto. Qed.

Lemma read_bytes_ext m m' off n :
  (forall a, off <= a < off + Z.of_nat n -> read_byte m a = read_byte m' a) ->
  read_bytes m off n = read_bytes m' off n.
Proof.
  revert off. induction n as [|n IH]; intros off H; [done|]. cbn. f_equal.
  - apply H. lia.
  - apply IH. intros. apply H. lia.
Qed.

Lemma lookup_read_bytes m off n j :
  (j < n)%nat -> read_bytes m off n !! j = Some (read_byte m (off + Z.of_nat j)).
Proof.
  revert off j. induction n as [|n IH]; intros off j Hj; [lia|].
  destruct j as [|j]; cbn [read_bytes lookup list_lookup].
  - rewrite Z.add_0_r. done.
  - change (read_bytes m (off + 1) n !! j = Some (read_byte m (off + Z.of_nat (S j)))).
    rewrite IH by lia. do 2 f_equal. lia.
Qed.

Lemma read_write_same m off bs : read_bytes (write_bytes m off bs) off (length bs) = bs.
Proof.
  apply list_eq. intros j. destruct (decide (j < length bs)%nat) as [Hj|Hj].
  - rewrite lookup_read_bytes by done. rewrite read_byte_write, decide_True by lia.
    replace (Z.to_nat (off + Z.of_nat j - off)) with j by lia.
    destruct (lookup_lt_is_Some_2 bs j Hj) as [b ->]. done.
  - rewrite !lookup_ge_None_2; [done|lia|rewrite length_read_bytes; lia].
Qed.

Lemma read_write_disjoint m off bs off' n :
  off + Z.of_nat (length bs) <= off' \/ off' + Z.of_nat n <= off ->
  read_bytes (write_bytes m off bs) off' n = read_bytes m off' n.
Proof.
  intros H. apply read_bytes_ext. intros a Ha. rewrite read_byte_write, decide_False by lia. done.
Qed.
