(* ===== verification/Paging.v ===== *)
(** * Boot page tables ([src/src/init.c], [setup_page_table])

    The kernel builds one static [struct PML4] holding every table of a
    four-level x86-64 page-table tree and fills it with nested loops over
    32-bit counters.  Memory is a map from the address of an 8-byte aligned
    quadword to its value; the address of the static object is the parameter
    [base].  The four-level walk of the processor ([translate]) reads the same
    memory, so the theorems say what the MMU does with what the loops wrote. *)

From S2P Require Import Prelude.

Abbreviation qmem := (gmap Z Z).

(** Unwritten quadwords of the zero-initialised object read as zero. *)
Definition load64 (m : qmem) (a : Z) : Z := default 0 (m !! a).

Definition store64 (m : qmem) (a v : Z) : qmem := <[a := v]> m.

(** ** The static tables

    [__attribute__((aligned(4096)))] puts each member table on a page boundary:
    the [ptr] array of a level comes first and the nested tables follow on the
    next page. *)

Definition NUM_PML4 : nat := 1.
Definition NUM_PDP : nat := 1.
Definition NUM_PD : nat := 4.
Definition NUM_PT : nat := 512.

(** [sizeof] of each struct and the offset of its nested array; the [addr]
    array of a [struct PT] has 512 entries. *)
Definition PT_ENTRIES : nat := 512.
Definition PAGE : Z := 4096.
Definition sizeof_PT : Z := 8 * Z.of_nat PT_ENTRIES.
Definition sizeof_PD : Z := PAGE + Z.of_nat NUM_PT * sizeof_PT.
Definition sizeof_PDP : Z := PAGE + Z.of_nat NUM_PD * sizeof_PD.
Definition sizeof_PML4 : Z := PAGE + Z.of_nat NUM_PDP * sizeof_PDP.

(** [&PD_->PT[n]], [&PDP_->PD[n]], [&PML4_->PDP[n]] and [&PML4[n]]. *)
Definition addr_PT (PD_ n : Z) : Z := PD_ + PAGE + n * sizeof_PT.
Definition addr_PD (PDP_ n : Z) : Z := PDP_ + PAGE + n * sizeof_PD.
Definition addr_PDP (PML4_ n : Z) : Z := PML4_ + PAGE + n * sizeof_PDP.
Definition addr_PML4 (base n : Z) : Z := base + n * sizeof_PML4.

(** ** [setup_page_table]: one definition per loop body

    The state is the running page counter [u32 addr] and the memory. *)

Definition pt_body (PT_ i : Z) (s : Z * qmem) : Z * qmem :=
  let '(addr, m) := s in
  (u32 (addr + 1), store64 m (PT_ + 8 * i) (u32 (addr * 4096) ||| 3)).

Definition pd_body (PD_ nPT : Z) (s : Z * qmem) : Z * qmem :=
  let '(addr, m) := s in
  let PT_ := addr_PT PD_ nPT in
  for_up PT_ENTRIES (pt_body PT_)
    (addr, store64 m (PD_ + 8 * nPT) (u32 PT_ ||| 3)).

Definition pdp_body (PDP_ nPD : Z) (s : Z * qmem) : Z * qmem :=
  let '(addr, m) := s in
  let PD_ := addr_PD PDP_ nPD in
  for_up NUM_PT (pd_body PD_)
    (addr, store64 m (PDP_ + 8 * nPD) (u32 PD_ ||| 3)).

Definition pml4_body (PML4_ nPDP : Z) (s : Z * qmem) : Z * qmem :=
  let '(addr, m) := s in
  let PDP_ := addr_PDP PML4_ nPDP in
  for_up NUM_PD (pdp_body PDP_)
    (addr, store64 m (PML4_ + 8 * nPDP) (u32 PDP_ ||| 3)).

(** The whole function: the new memory and the value loaded into CR3. *)
Definition setup_page_table (base : Z) (m : qmem) : qmem * Z :=
  (snd (for_up NUM_PML4
          (fun nPML4 => for_up NUM_PDP (pml4_body (addr_PML4 base nPML4)))
          (0, m)),
   base).

(** ** The processor's four-level walk (4-KiB, 2-MiB and 1-GiB pages) *)

Definition ADDR_MASK : Z := Z.ones 40 ≪ 12.
Definition pte_present (e : Z) : bool := Z.testbit e 0.
Definition pte_writable (e : Z) : bool := Z.testbit e 1.
Definition pte_large (e : Z) : bool := Z.testbit e 7.
Definition pte_base (e : Z) : Z := e &&& ADDR_MASK.

(** The entry for [va] in the table at [t] selected by bits [sh .. sh+8]. *)
Definition walk_entry (m : qmem) (t va sh : Z) : Z :=
  load64 m (t + 8 * ((va ≫ sh) mod 512)).

(** Physical address and "writable at every level", or [None] on a page fault. *)
Definition translate (m : qmem) (cr3 va : Z) : option (Z * bool) :=
  let e4 := walk_entry m (pte_base cr3) va 39 in
  if negb (pte_present e4) then None else
  let e3 := walk_entry m (pte_base e4) va 30 in
  if negb (pte_present e3) then None else
  let w3 := pte_writable e4 && pte_writable e3 in
  if pte_large e3 then Some (pte_base e3 + va mod 2 ^ 30, w3) else
  let e2 := walk_entry m (pte_base e3) va 21 in
  if negb (pte_present e2) then None else
  let w2 := w3 && pte_writable e2 in
  if pte_large e2 then Some (pte_base e2 + va mod 2 ^ 21, w2) else
  let e1 := walk_entry m (pte_base e2) va 12 in
  if negb (pte_present e1) then None else
  Some (pte_base e1 + va mod 2 ^ 12, w2 && pte_writable e1).

(** ** What the loops establish *)

Definition pt_ok (m : qmem) (PT_ addr n : Z) : Prop :=
  forall i, 0 <= i < n -> m !! (PT_ + 8 * i) = Some ((addr + i) * 4096 + 3).

Definition pd_ok (m : qmem) (PD_ addr n : Z) : Prop :=
  forall j, 0 <= j < n ->
    m !! (PD_ + 8 * j) = Some (addr_PT PD_ j + 3) /\
    pt_ok m (addr_PT PD_ j) (addr + 512 * j) 512.

Definition pdp_ok (m : qmem) (PDP_ addr n : Z) : Prop :=
  forall k, 0 <= k < n ->
    m !! (PDP_ + 8 * k) = Some (addr_PD PDP_ k + 3) /\
    pd_ok m (addr_PD PDP_ k) (addr + 262144 * k) 512.

(** [m'] is [m] outside the two ranges a level writes. *)
Definition frame (m m' : qmem) (lo1 hi1 lo2 hi2 : Z) : Prop :=
  forall a, ~ (lo1 <= a < hi1) -> ~ (lo2 <= a < hi2) -> m' !! a = m !! a.

(** The layout constants as numerals. *)
Lemma sizeof_PT_eq : sizeof_PT = 4096.
Proof. reflexivity. Qed.
Lemma sizeof_PD_eq : sizeof_PD = 2101248.
Proof. reflexivity. Qed.
Lemma sizeof_PDP_eq : sizeof_PDP = 8409088.
Proof. reflexivity. Qed.
Lemma sizeof_PML4_eq : sizeof_PML4 = 8413184.
Proof. reflexivity. Qed.
Lemma of_nat_NUM_PT : Z.of_nat NUM_PT = 512.
Proof. reflexivity. Qed.
Lemma of_nat_PT_ENTRIES : Z.of_nat PT_ENTRIES = 512.
Proof. reflexivity. Qed.

#[export] Hint Rewrite sizeof_PT_eq sizeof_PD_eq sizeof_PDP_eq sizeof_PML4_eq
  of_nat_NUM_PT of_nat_PT_ENTRIES : paging.

Ltac pg_unfold :=
  unfold addr_PT, addr_PD, addr_PDP, addr_PML4, PAGE in *;
  autorewrite with paging in *.

Lemma entry_value t : t mod 4096 = 0 -> in_u 32 t -> u32 t ||| 3 = t + 3.
Proof.
  intros Ht Hr. rewrite wrap_small by done.
  apply (lor_add_low 12); [lia|done|clia].
Qed.

(** Forget how the state after an inner loop was computed: only its
    specification [HS] is used afterwards. *)
Ltac abstract_loop HS :=
  cbn zeta in HS; revert HS;
  match goal with
  | |- context [for_up ?k ?b ?s] => generalize (for_up k b s)
  end;
  let ad := fresh "ad" in let m1 := fresh "m1" in
  intros [ad m1] HS; cbn [fst snd] in HS |- *.

Lemma pt_loop_spec n PT_ addr m :
  0 <= addr -> addr + Z.of_nat n <= 2 ^ 20 ->
  let s := for_up n (pt_body PT_) (addr, m) in
  s.1 = addr + Z.of_nat n /\
  pt_ok s.2 PT_ addr (Z.of_nat n) /\
  frame m s.2 PT_ (PT_ + 8 * Z.of_nat n) 0 0.
Proof.
  intros Ha. induction n as [|n IH]; intros Hn; cbn -[Z.of_nat].
  { split; [lia|]. split; [intros i Hi; lia|]. intros a _ _. done. }
  specialize (IH ltac:(lia)). cbn zeta in IH.
  destruct (for_up n (pt_body PT_) (addr, m)) as [ad m'] eqn:E.
  cbn [fst snd] in IH. destruct IH as (-> & Hok & Hfr). cbn [pt_body fst snd].
  split; [rewrite wrap_small; clia|]. unfold store64. split.
  - intros i Hi. destruct (decide (i = Z.of_nat n)) as [->|Hne].
    + rewrite lookup_insert_eq, wrap_small by clia. f_equal.
      apply (lor_add_low 12); [lia| |clia].
      change (2 ^ 12) with 4096. apply Z_mod_mult.
    + rewrite lookup_insert_ne by lia. apply Hok. lia.
  - intros a H1 H2. rewrite lookup_insert_ne by lia. apply Hfr; lia.
Qed.

Lemma pt_ok_frame m m' PT_ addr n lo1 hi1 lo2 hi2 :
  frame m m' lo1 hi1 lo2 hi2 ->
  (PT_ + 8 * n <= lo1 \/ hi1 <= PT_) -> (PT_ + 8 * n <= lo2 \/ hi2 <= PT_) ->
  pt_ok m PT_ addr n -> pt_ok m' PT_ addr n.
Proof. intros Hf H1 H2 Hok i Hi. rewrite Hf by lia. by apply Hok. Qed.

Lemma pd_ok_frame m m' PD_ addr n lo1 hi1 lo2 hi2 :
  frame m m' lo1 hi1 lo2 hi2 -> n <= 512 ->
  (PD_ + sizeof_PD <= lo1 \/ hi1 <= PD_) ->
  (PD_ + sizeof_PD <= lo2 \/ hi2 <= PD_) ->
  pd_ok m PD_ addr n -> pd_ok m' PD_ addr n.
Proof.
  intros Hf Hn H1 H2 Hok j Hj. destruct (Hok j Hj) as [He Ht]. pg_unfold. split.
  - rewrite Hf by lia. done.
  - eapply pt_ok_frame; [exact Hf|lia|lia|done].
Qed.

Lemma pd_loop_spec n PD_ addr m :
  0 <= addr -> addr + 512 * Z.of_nat n <= 2 ^ 20 -> (n <= 512)%nat ->
  0 <= PD_ -> PD_ mod 4096 = 0 -> PD_ + sizeof_PD <= 2 ^ 32 ->
  let s := for_up n (pd_body PD_) (addr, m) in
  s.1 = addr + 512 * Z.of_nat n /\
  pd_ok s.2 PD_ addr (Z.of_nat n) /\
  frame m s.2 PD_ (PD_ + 8 * Z.of_nat n)
    (PD_ + 4096) (PD_ + 4096 + 4096 * Z.of_nat n).
Proof.
  intros Ha Hmax Hn HPD Hal Hsz. revert Hmax Hn.
  induction n as [|n IH]; intros Hmax Hn; cbn -[Z.of_nat for_up].
  { split; [cbn; lia|]. split; [intros j Hj; lia|]. intros a _ _. done. }
  specialize (IH ltac:(lia) ltac:(lia)). cbn zeta in IH.
  change (for_up (S n) (pd_body PD_) (addr, m))
    with (pd_body PD_ (Z.of_nat n) (for_up n (pd_body PD_) (addr, m))).
  destruct (for_up n (pd_body PD_) (addr, m)) as [ad m'] eqn:E.
  cbn [fst snd] in IH. destruct IH as (-> & Hok & Hfr). unfold pd_body.
  pose proof (pt_loop_spec PT_ENTRIES (addr_PT PD_ (Z.of_nat n))
    (addr + 512 * Z.of_nat n) (store64 m' (PD_ + 8 * Z.of_nat n)
       (u32 (addr_PT PD_ (Z.of_nat n)) ||| 3)) ltac:(lia) ltac:(pg_unfold; lia)) as HS.
  abstract_loop HS. destruct HS as (-> & H2 & H3). split; [pg_unfold; lia|].
  assert (frame m' (store64 m' (PD_ + 8 * Z.of_nat n)
    (u32 (addr_PT PD_ (Z.of_nat n)) ||| 3))
    (PD_ + 8 * Z.of_nat n) (PD_ + 8 * Z.of_nat n + 8) 0 0) as Hst.
  { intros a Hx _. apply lookup_insert_ne. lia. }
  split.
  - intros j Hj. destruct (decide (j = Z.of_nat n)) as [->|Hne].
    + split; [|exact H2]. rewrite H3 by (pg_unfold; lia).
      unfold store64. rewrite lookup_insert_eq. f_equal.
      apply entry_value; [|clia || (pg_unfold; clia)].
      unfold addr_PT, PAGE. rewrite sizeof_PT_eq.
      rewrite Z.mod_add, Zplus_mod, Hal by lia. done.
    + destruct (Hok j ltac:(lia)) as [He Ht]. split.
      * rewrite H3, Hst by (pg_unfold; lia). done.
      * eapply pt_ok_frame; [exact H3|pg_unfold; lia|pg_unfold; lia|].
        eapply pt_ok_frame; [exact Hst|pg_unfold; lia|pg_unfold; lia|done].
  - intros a Hx Hy. rewrite H3, Hst by (pg_unfold; lia). apply Hfr; lia.
Qed.

Lemma pdp_loop_spec n PDP_ addr m :
  0 <= addr -> addr + 262144 * Z.of_nat n <= 2 ^ 20 -> (n <= 4)%nat ->
  0 <= PDP_ -> PDP_ mod 4096 = 0 -> PDP_ + sizeof_PDP <= 2 ^ 32 ->
  let s := for_up n (pdp_body PDP_) (addr, m) in
  s.1 = addr + 262144 * Z.of_nat n /\
  pdp_ok s.2 PDP_ addr (Z.of_nat n) /\
  frame m s.2 PDP_ (PDP_ + 8 * Z.of_nat n)
    (PDP_ + 4096) (PDP_ + 4096 + sizeof_PD * Z.of_nat n).
Proof.
  intros Ha Hmax Hn HP Hal Hsz. revert Hmax Hn.
  induction n as [|n IH]; intros Hmax Hn; cbn -[Z.of_nat for_up].
  { split; [cbn; lia|]. split; [intros j Hj; lia|]. intros a _ _. done. }
  specialize (IH ltac:(lia) ltac:(lia)). cbn zeta in IH.
  change (for_up (S n) (pdp_body PDP_) (addr, m))
    with (pdp_body PDP_ (Z.of_nat n) (for_up n (pdp_body PDP_) (addr, m))).
  destruct (for_up n (pdp_body PDP_) (addr, m)) as [ad m'] eqn:E.
  cbn [fst snd] in IH. destruct IH as (-> & Hok & Hfr). unfold pdp_body.
  assert (addr_PD PDP_ (Z.of_nat n) mod 4096 = 0) as Hal'.
  { unfold addr_PD, PAGE. rewrite sizeof_PD_eq. change 2101248 with (513 * 4096).
    rewrite Z.mul_assoc, Z.mod_add, Zplus_mod, Hal by lia. done. }
  pose proof (pd_loop_spec NUM_PT (addr_PD PDP_ (Z.of_nat n))
    (addr + 262144 * Z.of_nat n) (store64 m' (PDP_ + 8 * Z.of_nat n)
       (u32 (addr_PD PDP_ (Z.of_nat n)) ||| 3)) ltac:(lia) ltac:(pg_unfold; lia)
    ltac:(reflexivity) ltac:(pg_unfold; lia) Hal' ltac:(pg_unfold; lia)) as HS.
  abstract_loop HS. destruct HS as (-> & H2 & H3). split; [pg_unfold; lia|].
  assert (frame m' (store64 m' (PDP_ + 8 * Z.of_nat n)
    (u32 (addr_PD PDP_ (Z.of_nat n)) ||| 3))
    (PDP_ + 8 * Z.of_nat n) (PDP_ + 8 * Z.of_nat n + 8) 0 0) as Hst.
  { intros a Hx _. apply lookup_insert_ne. lia. }
  split.
  - intros j Hj. destruct (decide (j = Z.of_nat n)) as [->|Hne].
    + split; [|exact H2]. rewrite H3 by (pg_unfold; lia).
      unfold store64. rewrite lookup_insert_eq. f_equal.
      apply entry_value; [done|pg_unfold; clia].
    + destruct (Hok j ltac:(lia)) as [He Ht]. split.
      * rewrite H3, Hst by (pg_unfold; lia). done.
      * eapply pd_ok_frame; [exact H3|lia|pg_unfold; lia|pg_unfold; lia|].
        eapply pd_ok_frame; [exact Hst|lia|pg_unfold; lia|pg_unfold; lia|done].
  - intros a Hx Hy. rewrite H3, Hst by (pg_unfold; lia). apply Hfr; pg_unfold; lia.
Qed.

(** The static object lies in the first 4 GiB on a page boundary, all zero. *)
Record pml4_object (base : Z) (m : qmem) : Prop := {
  obj_low : 0 <= base;
  obj_aligned : base mod 4096 = 0;
  obj_high : base + sizeof_PML4 <= 2 ^ 32;
  obj_zero : forall a, base <= a < base + sizeof_PML4 -> load64 m a = 0;
}.

(** Everything [setup_page_table] does to memory. *)
Lemma setup_memory (base : Z) (m m' : qmem) :
  pml4_object base m -> (setup_page_table base m).1 = m' ->
  m' !! base = Some (base + 4096 + 3) /\
  pdp_ok m' (base + 4096) 0 4 /\
  (forall a, ~ (base <= a < base + 8) ->
     ~ (base + 4096 <= a < base + 4096 + 32) ->
     ~ (base + 8192 <= a < base + 8192 + 4 * sizeof_PD) ->
     m' !! a = m !! a).
Proof.
  intros [H0 Hal Hhi Hz] <-.
  assert ((base + 4096) mod 4096 = 0) as Hal'.
  { rewrite Zplus_mod, Hal. done. }
  assert ((setup_page_table base m).1 =
    (for_up NUM_PD (pdp_body (base + 4096)) (0, store64 m base (base + 4096 + 3))).2)
    as ->.
  { unfold setup_page_table, NUM_PML4, NUM_PDP, fst.
    cbn [for_up pml4_body]. change (Z.of_nat 0) with 0.
    replace (addr_PDP (addr_PML4 base 0) 0) with (base + 4096) by (pg_unfold; lia).
    rewrite entry_value by (done || (pg_unfold; clia)).
    replace (addr_PML4 base 0 + 8 * 0) with base by (pg_unfold; lia). reflexivity. }
  pose proof (pdp_loop_spec NUM_PD (base + 4096) 0
    (store64 m base (base + 4096 + 3)) ltac:(lia) ltac:(unfold NUM_PD; lia)
    ltac:(reflexivity) ltac:(lia) Hal' ltac:(pg_unfold; lia)) as HS.
  abstract_loop HS. destruct HS as (_ & H2 & H3).
  change (Z.of_nat NUM_PD) with 4 in H2, H3. cbn zeta in *. split_and!.
  - rewrite H3 by (pg_unfold; lia). apply lookup_insert_eq.
  - exact H2.
  - intros a Ha Hb Hc. rewrite H3 by (pg_unfold; lia).
    apply lookup_insert_ne. lia.
Qed.

Lemma setup_cr3 base m : (setup_page_table base m).2 = base.
Proof. unfold setup_page_table, snd at 1. reflexivity. Qed.

(** From here on only [setup_memory] and [setup_cr3] are used. *)
#[local] Opaque setup_page_table.

(** ** Decoding the entries the loops store *)

Lemma pte_base_spec e : pte_base e = (e / 4096) mod 2 ^ 40 * 4096.
Proof.
  unfold pte_base, ADDR_MASK.
  change 4096 with (2 ^ 12). rewrite <- (Z.shiftr_div_pow2 e), <- Z.land_ones,
    <- Z.shiftl_mul_pow2 by lia.
  apply Z.bits_inj'. intros i Hi.
  destruct (decide (i < 12)).
  - rewrite Z.land_spec, !Z.shiftl_spec_low by lia. apply andb_false_r.
  - rewrite Z.land_spec, !Z.shiftl_spec_high, Z.land_spec, Z.shiftr_spec by lia.
    do 2 f_equal; lia.
Qed.

Lemma testbit_div a n : 0 <= n -> Z.testbit a n = ((a / 2 ^ n) mod 2 =? 1).
Proof.
  intros Hn. apply eq_true_iff_eq. rewrite Z.testbit_true by done.
  symmetry. apply Z.eqb_eq.
Qed.

(** An entry [t | 3] for a page-aligned [t] is present, writable, not large. *)
Lemma entry_decode t :
  t mod 4096 = 0 -> 0 <= t < 2 ^ 32 ->
  pte_present (t + 3) = true /\ pte_writable (t + 3) = true /\
  pte_large (t + 3) = false /\ pte_base (t + 3) = t.
Proof.
  intros Ht Hr. unfold pte_present, pte_writable, pte_large.
  rewrite !testbit_div, pte_base_spec by lia. pow2. split_and!; dlia.
Qed.

Lemma load_entry m a t : m !! a = Some t -> load64 m a = t.
Proof. intros H. unfold load64. by rewrite H. Qed.

Section Walk.
Context (base : Z) (m : qmem) (Hobj : pml4_object base m).

Lemma tables_aligned k j :
  addr_PD (base + 4096) k mod 4096 = 0 /\
  addr_PT (addr_PD (base + 4096) k) j mod 4096 = 0.
Proof.
  destruct Hobj as [_ Hal _ _]. pg_unfold. dlia.
Qed.

(** The three upper levels of the walk below 4 GiB. *)
Lemma walk_low (va : Z) (m' : qmem) :
  0 <= va < 2 ^ 32 -> (setup_page_table base m).1 = m' ->
  let k := va / 2 ^ 30 in let j := (va / 2 ^ 21) mod 512 in
  walk_entry m' (pte_base base) va 39 = base + 4096 + 3 /\
  walk_entry m' (base + 4096) va 30 = addr_PD (base + 4096) k + 3 /\
  walk_entry m' (addr_PD (base + 4096) k) va 21
    = addr_PT (addr_PD (base + 4096) k) j + 3 /\
  walk_entry m' (addr_PT (addr_PD (base + 4096) k) j) va 12
    = va / 4096 * 4096 + 3.
Proof.
  intros Hva Hm'. pose proof (setup_memory base m m' Hobj Hm') as (Hb & Hp & _). clear Hm'.
  destruct Hobj as [H0 Hal Hhi _]. cbn zeta. unfold walk_entry.
  rewrite !Z.shiftr_div_pow2, pte_base_spec by lia. pow2.
  destruct (Hp (va / 1073741824) ltac:(dlia)) as [Hk Hpd].
  destruct (Hpd ((va / 2097152) mod 512) ltac:(dlia)) as [Hj Hpt].
  specialize (Hpt ((va / 4096) mod 512) ltac:(dlia)).
  rewrite sizeof_PML4_eq in Hhi.
  split_and!; apply load_entry.
  - replace (_ + 8 * _) with base by dlia. done.
  - replace ((va / 1073741824) mod 512) with (va / 1073741824) by dlia. done.
  - done.
  - rewrite Hpt. f_equal. dlia.
Qed.

Lemma walk_high (va : Z) (m' : qmem) :
  2 ^ 32 <= va < 2 ^ 48 -> (setup_page_table base m).1 = m' ->
  translate m' base va = None.
Proof.
  intros Hva Hm'. pose proof (setup_memory base m m' Hobj Hm') as (Hb & _ & Hf). clear Hm'.
  destruct Hobj as [H0 Hal Hhi Hz].
  assert (forall a, base <= a < base + 8192 -> ~ (base <= a < base + 8) ->
    ~ (base + 4096 <= a < base + 4096 + 32) -> load64 m' a = 0) as Hzero.
  { intros a Ha Hb' Hc. unfold load64. rewrite Hf by (pg_unfold; lia).
    apply Hz. pg_unfold. lia. }
  unfold translate, walk_entry. rewrite !Z.shiftr_div_pow2, (pte_base_spec base) by lia.
  pow2. rewrite sizeof_PML4_eq in Hhi.
  replace (base / 4096 mod 1099511627776 * 4096) with base by dlia.
  destruct (decide ((va / 549755813888) mod 512 = 0)) as [E|E].
  - rewrite E, Z.mul_0_r, Z.add_0_r, (load_entry _ _ _ Hb).
    destruct (entry_decode (base + 4096)) as (-> & _ & _ & ->); [dlia|clia|].
    cbn [negb]. rewrite Hzero by dlia. done.
  - rewrite (Hzero (base + _)) by dlia. done.
Qed.

End Walk.

(** C6. After [setup_page_table], for every 48-bit virtual address the
    processor's four-level walk from the CR3 value the function loads is the
    identity with write permission below 4 GiB, and a page fault above. *)
Theorem setup_page_table_identity (base va : Z) (m : qmem) :
  pml4_object base m -> 0 <= va < 2 ^ 48 ->
  let '(m', cr3) := setup_page_table base m in
  translate m' cr3 va = if va <? 2 ^ 32 then Some (va, true) else None.
Proof.
  intros Hobj Hva. destruct (setup_page_table base m) as [m' cr3] eqn:E.
  pose proof (setup_cr3 base m) as Hcr3. rewrite E in Hcr3. cbn [snd] in Hcr3.
  subst cr3. apply (f_equal fst) in E. cbn [fst] in E.
  destruct (Z.ltb_spec va (2 ^ 32)) as [Hlt|Hge].
  2: { apply (walk_high base m Hobj); [lia|done]. }
  destruct (walk_low base m Hobj va m' ltac:(lia) E) as (H4 & H3 & H2 & H1).
  clear E. cbn zeta in *.
  pose proof (tables_aligned base m Hobj (va / 2 ^ 30) ((va / 2 ^ 21) mod 512)) as [A1 A2].
  destruct Hobj as [H0 Hal Hhi _]. unfold translate. rewrite H4.
  rewrite sizeof_PML4_eq in Hhi.
  destruct (entry_decode (base + 4096)) as (-> & -> & _ & ->); [dlia|dlia|].
  rewrite H3. destruct (entry_decode _ A1) as (-> & -> & -> & ->); [pg_unfold; dlia|].
  cbn [negb andb]. rewrite H2.
  destruct (entry_decode _ A2) as (-> & -> & -> & ->); [pg_unfold; dlia|].
  cbn [negb andb]. rewrite H1.
  destruct (entry_decode (va / 4096 * 4096)) as (-> & -> & _ & ->); [dlia|dlia|].
  cbn [negb andb]. do 2 f_equal. dlia.
Qed.

(** Witness of C6: the tables at 2 MiB over zeroed memory, address 0xb8000. *)
Lemma setup_page_table_identity_witness :
  let '(m', cr3) := setup_page_table 0x200000 ∅ in
  translate m' cr3 0xb8000 = Some (0xb8000, true).
Proof.
  apply (setup_page_table_identity 0x200000 0xb8000 ∅); [|lia].
  split; [lia|reflexivity|rewrite sizeof_PML4_eq; lia|].
  intros a _. unfold load64. by rewrite lookup_empty.
Defined.

(** [setup_page_table] writes only inside the static [PML4] object: every
    quadword outside it keeps its value. *)
Theorem setup_page_table_frame (base a : Z) (m : qmem) :
  pml4_object base m -> ~ (base <= a < base + sizeof_PML4) ->
  (setup_page_table base m).1 !! a = m !! a.
Proof.
  intros Hobj Ha. pose proof (setup_memory base m _ Hobj eq_refl) as (_ & _ & Hf).
  apply Hf; pg_unfold; lia.
Qed.

(** Example: the quadword just below the tables. *)
Lemma setup_page_table_frame_witness :
  (setup_page_table 0x200000 {[ 0x1ffff8 := 7 ]}).1 !! 0x1ffff8
  = ({[ 0x1ffff8 := 7 ]} : qmem) !! 0x1ffff8.
Proof.
  apply (setup_page_table_frame 0x200000 0x1ffff8 {[ 0x1ffff8 := 7 ]}).
  - split; [lia|reflexivity|rewrite sizeof_PML4_eq; lia|].
    intros a Ha. unfold load64. rewrite lookup_singleton_ne by lia. done.
  - rewrite sizeof_PML4_eq. lia.
Defined.
