(* ===== verification/Idt.v ===== *)
(** * The interrupt descriptor table ([src/src/init.c], [setIDT], [setup_IDT])

    The table is the packed array [IDT[256]] of 16-byte gates.  The model keeps
    the seven fields of the C struct, gives the packed little-endian image of
    the array, and the decoding the processor applies to that image. *)

From S2P Require Import Prelude.

(** The fields of one element of the packed array. *)
Record gate := Gate {
  baseLow : Z;    (* u16 *)
  selector : Z;   (* u16 *)
  reserved0 : Z;  (* u8 *)
  flags : Z;      (* u8 *)
  baseMid : Z;    (* u16 *)
  baseHigh : Z;   (* u32 *)
  reserved1 : Z;  (* u32 *)
}.

Definition gate_zero : gate := Gate 0 0 0 0 0 0 0.

Definition IDT_LEN : nat := 256.
Definition IDT_init : list gate := replicate IDT_LEN gate_zero.

Record IDTR := Idtr { limit : Z; idtr_base : Z }.

(** The arguments are converted to the parameter types [u8], [u64], [u16],
    [u8]; the stores convert to the field types. *)
Definition setIDT (number base sel flg : Z) (idt : list gate) : list gate :=
  let number := u8 number in
  let base := u64 base in
  let g := Gate (u16 (base &&& 0xFFFF)) (u16 sel) 0 (u8 flg)
             (u16 ((base ≫ 16) &&& 0xFFFF))
             (u32 ((base ≫ 32) &&& 0xFFFFFFFF)) 0 in
  <[Z.to_nat number := g]> idt.

(** [setup_IDT]: [idt_addr] is the address of [IDT], [handler0] the address of
    [handle_interrupt_0]; both are cast to [u32]. *)
Definition setup_IDT (idt_addr handler0 : Z) (idt : list gate) : IDTR * list gate :=
  let idtr := Idtr (u16 (16 * Z.of_nat IDT_LEN - 1)) (u32 idt_addr) in
  let '(_, idt') :=
    for_up IDT_LEN
      (fun i s => (u32 (s.1 + 32), setIDT i s.1 0x08 0x8E s.2))
      (u32 handler0, idt) in
  (idtr, idt').

(** ** The memory image and the processor's view *)

Definition gate_bytes (g : gate) : list Z :=
  le_bytes 2 (baseLow g) ++ le_bytes 2 (selector g) ++ le_bytes 1 (reserved0 g) ++
  le_bytes 1 (flags g) ++ le_bytes 2 (baseMid g) ++ le_bytes 4 (baseHigh g) ++
  le_bytes 4 (reserved1 g).

Definition idt_image (idt : list gate) : list Z := idt ≫= gate_bytes.

(** A decoded 64-bit gate. *)
Record hw_gate := HwGate {
  hw_offset : Z; hw_selector : Z; hw_ist : Z; hw_type : Z; hw_dpl : Z;
  hw_present : bool;
}.

(** The memory of the machine, with the bytes [image] at address [addr]. *)
Definition place (addr : Z) (image : list Z) (mem : Z -> Z) : Z -> Z := fun a =>
  if decide (addr <= a) then default (mem a) (image !! Z.to_nat (a - addr)) else mem a.

(** Field of [n] bytes at offset [off] of the gate of vector [v] of the table at [base]. *)
Definition gate_field (mem : Z -> Z) (base v off : Z) (n : nat) : Z :=
  le_value (map (fun j => mem (base + 16 * v + off + Z.of_nat j)) (seq 0 n)).

(** The processor's load of vector [v] from memory, at the base in the register: a
    general-protection fault ([None]) when the 16 bytes are not below the limit. *)
Definition hw_load_gate (idtr : IDTR) (mem : Z -> Z) (v : Z) : option hw_gate :=
  if 16 * v + 15 <=? limit idtr then
    let fld := gate_field mem (idtr_base idtr) v in
    Some (HwGate (fld 0 2%nat + fld 6 2%nat * 2 ^ 16 + fld 8 4%nat * 2 ^ 32)
            (fld 2 2%nat) (fld 4 1%nat mod 8)
            (fld 5 1%nat mod 16) ((fld 5 1%nat / 32) mod 4)
            (Z.testbit (fld 5 1%nat) 7))
  else None.

(** ** Facts *)

Lemma length_gate_bytes g : length (gate_bytes g) = 16%nat.
Proof. unfold gate_bytes. rewrite !length_app, !length_le_bytes. done. Qed.

Lemma length_setIDT n b s f idt : length (setIDT n b s f idt) = length idt.
Proof. apply length_insert. Qed.

(** Vector [v] occupies bytes [16 v .. 16 v + 15] of the image. *)
Lemma idt_image_split idt (v : nat) g :
  idt !! v = Some g ->
  drop (16 * v) (idt_image idt) = gate_bytes g ++ idt_image (drop (S v) idt).
Proof.
  unfold idt_image. revert v. induction idt as [|h idt IH]; intros [|v]; intros Hl;
    cbn [lookup list_lookup] in Hl; [done|done| |].
  - injection Hl as ->. rewrite Nat.mul_0_r. done.
  - replace (16 * S v)%nat with (length (gate_bytes h) + 16 * v)%nat
      by (rewrite length_gate_bytes; lia).
    cbn [mbind list_bind]. rewrite <- drop_drop, drop_app_length. by apply IH.
Qed.

(** The bytes of a placed image. *)
Lemma place_bytes addr image mem off n :
  0 <= off -> off + Z.of_nat n <= Z.of_nat (length image) ->
  map (fun j => place addr image mem (addr + off + Z.of_nat j)) (seq 0 n) = take n (drop (Z.to_nat off) image).
Proof.
  intros H0 Hn. apply list_eq. intros j. rewrite list_lookup_fmap. destruct (decide (j < n)%nat) as [Hj|Hj].
  - rewrite lookup_seq_lt by done. rewrite lookup_take_lt, lookup_drop by done. cbn. unfold place. rewrite decide_True by lia.
    replace (Z.to_nat (addr + off + Z.of_nat j - addr)) with (Z.to_nat off + j)%nat by lia.
    destruct (lookup_lt_is_Some_2 image (Z.to_nat off + j)) as [b ->]; [lia|done].
  - rewrite lookup_seq_ge, lookup_take_ge by lia. done.
Qed.

Lemma length_idt_image idt : length (idt_image idt) = (16 * length idt)%nat.
Proof. unfold idt_image. induction idt as [|g idt IH]; [done|]. cbn [mbind list_bind]. rewrite length_app, length_gate_bytes, IH. cbn. lia. Qed.

Lemma gate_field_spec addr idt mem (v : nat) off n g :
  idt !! v = Some g -> 0 <= off -> off + Z.of_nat n <= 16 ->
  gate_field (place addr (idt_image idt) mem) addr (Z.of_nat v) off n =
  le_value (take n (drop (Z.to_nat off) (gate_bytes g))).
Proof.
  intros Hl H0 Hn. unfold gate_field. pose proof (lookup_lt_Some _ _ _ Hl) as Hv.
  rewrite (map_ext _ (fun j => place addr (idt_image idt) mem (addr + (16 * Z.of_nat v + off) + Z.of_nat j))) by (intros j; f_equal; lia).
  rewrite place_bytes by (rewrite ?length_idt_image; lia). f_equal.
  replace (Z.to_nat (16 * Z.of_nat v + off)) with (16 * v + Z.to_nat off)%nat by lia.
  rewrite <- drop_drop, (idt_image_split _ _ _ Hl).
  pose proof (length_gate_bytes g).
  rewrite drop_app_le, take_app_le by (rewrite ?length_drop; lia). done.
Qed.

(** The three stores of the handler address lose nothing. *)
Lemma base_parts b :
  in_u 64 b ->
  u16 (b &&& 0xFFFF) = b mod 2 ^ 16 /\
  u16 ((b ≫ 16) &&& 0xFFFF) = (b / 2 ^ 16) mod 2 ^ 16 /\
  u32 ((b ≫ 32) &&& 0xFFFFFFFF) = b / 2 ^ 32.
Proof.
  intros Hb. change 0xFFFF with (Z.ones 16). change 0xFFFFFFFF with (Z.ones 32).
  rewrite !Z.land_ones, !Z.shiftr_div_pow2 by lia. unfold wrap.
  rewrite !Zmod_mod. split_and!; [done..|]. apply Z.mod_small. dlia.
Qed.

(** What the processor reads from a table with gate [g] at vector [v]. *)
Lemma hw_load_gate_spec idtr idt mem (v : nat) g :
  idt !! v = Some g -> 16 * Z.of_nat v + 15 <= limit idtr ->
  in_u 16 (baseLow g) -> in_u 16 (selector g) -> in_u 8 (reserved0 g) ->
  in_u 8 (flags g) -> in_u 16 (baseMid g) -> in_u 32 (baseHigh g) ->
  hw_load_gate idtr (place (idtr_base idtr) (idt_image idt) mem) (Z.of_nat v) =
  Some (HwGate (baseLow g + baseMid g * 2 ^ 16 + baseHigh g * 2 ^ 32)
          (selector g) (reserved0 g mod 8) (flags g mod 16)
          ((flags g / 32) mod 4) (Z.testbit (flags g) 7)).
Proof.
  intros Hl Hlim H1 H2 H3 H4 H5 H6. unfold hw_load_gate.
  rewrite (proj2 (Z.leb_le _ _) Hlim).
  cbn zeta. rewrite !(gate_field_spec _ _ _ _ _ _ _ Hl) by lia. unfold gate_bytes.
  pose proof (le_value_bytes_small 2 (baseLow g) H1) as E1.
  pose proof (le_value_bytes_small 2 (selector g) H2) as E2.
  pose proof (le_value_bytes_small 1 (reserved0 g) H3) as E3.
  pose proof (le_value_bytes_small 1 (flags g) H4) as E4.
  pose proof (le_value_bytes_small 2 (baseMid g) H5) as E5.
  pose proof (le_value_bytes_small 4 (baseHigh g) H6) as E6.
  change (Z.to_nat 0) with 0%nat. change (Z.to_nat 2) with 2%nat.
  change (Z.to_nat 4) with 4%nat. change (Z.to_nat 5) with 5%nat.
  change (Z.to_nat 6) with 6%nat. change (Z.to_nat 8) with 8%nat.
  cbn [le_bytes app take drop] in *.
  rewrite E1, E2, E3, E4, E5, E6. done.
Qed.

(** The load of a vector depends on that gate only. *)
Lemma hw_load_gate_same idtr idt idt' mem (v : nat) g :
  idt !! v = Some g -> idt' !! v = Some g ->
  hw_load_gate idtr (place (idtr_base idtr) (idt_image idt) mem) (Z.of_nat v) =
  hw_load_gate idtr (place (idtr_base idtr) (idt_image idt') mem) (Z.of_nat v).
Proof.
  intros H1 H2. unfold hw_load_gate. case_match; [|done].
  cbn zeta. rewrite !(gate_field_spec _ _ _ _ _ _ _ H1), !(gate_field_spec _ _ _ _ _ _ _ H2) by lia.
  done.
Qed.

(** [setIDT] followed by the processor's load gives back the address. *)
Lemma setIDT_load idtr idt mem (v : nat) b sel flg :
  (v < 256)%nat -> length idt = IDT_LEN -> 16 * Z.of_nat v + 15 <= limit idtr ->
  in_u 64 b -> in_u 16 sel -> in_u 8 flg ->
  hw_load_gate idtr (place (idtr_base idtr) (idt_image (setIDT (Z.of_nat v) b sel flg idt)) mem) (Z.of_nat v) =
  Some (HwGate b sel 0 (flg mod 16) ((flg / 32) mod 4) (Z.testbit flg 7)).
Proof.
  intros Hv Hlen Hlim Hb Hs Hf. unfold setIDT.
  rewrite (wrap_small 64 b), (wrap_small 16 sel), (wrap_small 8 flg) by done.
  rewrite (wrap_small 8), Nat2Z.id by clia.
  destruct (base_parts b Hb) as (-> & -> & ->).
  erewrite hw_load_gate_spec;
    [|apply list_lookup_insert_eq; rewrite Hlen; unfold IDT_LEN; lia|done|
      cbn [baseLow selector reserved0 flags baseMid baseHigh]; clia || dlia..].
  cbn [baseLow selector reserved0 flags baseMid baseHigh]. do 2 f_equal; dlia.
Qed.

(** The loop of [setup_IDT]: after [n] iterations the first [n] vectors are
    set and the rest of the array is as before. *)
Lemma setup_loop handler0 idt n :
  in_u 32 handler0 -> handler0 + 32 * 256 <= 2 ^ 32 -> length idt = IDT_LEN ->
  (n <= 256)%nat ->
  let s := for_up n (fun i s => (u32 (s.1 + 32), setIDT i s.1 0x08 0x8E s.2))
             (handler0, idt) in
  ((n < 256)%nat -> s.1 = handler0 + 32 * Z.of_nat n) /\ length s.2 = IDT_LEN /\
  forall v, (v < n)%nat ->
    s.2 !! v = setIDT (Z.of_nat v) (handler0 + 32 * Z.of_nat v) 0x08 0x8E idt !! v.
Proof.
  intros Hh Hmax Hlen Hn. cbn zeta.
  set (P := fun n (s : Z * list gate) =>
    ((n < 256)%nat -> s.1 = handler0 + 32 * Z.of_nat n) /\ length s.2 = IDT_LEN /\
    forall v, (v < n)%nat ->
      s.2 !! v = setIDT (Z.of_nat v) (handler0 + 32 * Z.of_nat v) 0x08 0x8E idt !! v).
  apply (for_up_ind P); unfold P; clear P; cbn [fst snd].
  { split; [cbn; lia|]. split; [done|lia]. }
  intros i [ad t] Hi (Had & Ht & Hv). cbn [fst snd] in *.
  rewrite Had by lia. split; [intros; rewrite wrap_small; clia|].
  split; [by rewrite length_setIDT|]. intros v Hvi. unfold setIDT.
  destruct (decide (v = i)) as [->|Hne].
  - rewrite !(wrap_small 8), Nat2Z.id by clia.
    rewrite !list_lookup_insert_eq by (rewrite ?Ht, ?Hlen; unfold IDT_LEN; lia). done.
  - rewrite (wrap_small 8 (Z.of_nat i)), Nat2Z.id by clia.
    rewrite list_lookup_insert_ne by lia. rewrite Hv by lia. done.
Qed.

(** C14. After [setup_IDT], with the table [IDT] at its address in memory, loading
    any of the 256 vectors from where the IDTR points finds a present ring-0 64-bit interrupt gate in code segment 0x08 whose
    offset is the address of [handle_interrupt_0] plus 32 times the vector. *)
Theorem setup_IDT_vectors (idt_addr handler0 v : Z) (idt : list gate) (mem : Z -> Z) :
  0 <= v < 256 -> in_u 32 idt_addr -> 0 <= handler0 -> handler0 + 32 * 256 <= 2 ^ 32 ->
  length idt = IDT_LEN ->
  let '(idtr, idt') := setup_IDT idt_addr handler0 idt in
  hw_load_gate idtr (place idt_addr (idt_image idt') mem) v =
  Some (HwGate (handler0 + 32 * v) 0x08 0 14 0 true).
Proof.
  intros Hv Haddr Hh Hmax Hlen. unfold setup_IDT. rewrite (wrap_small 32 handler0) by clia.
  pose proof (setup_loop handler0 idt IDT_LEN ltac:(clia) Hmax Hlen ltac:(done)) as HS.
  cbn zeta in HS. destruct (for_up IDT_LEN _ _) as [ad idt'].
  destruct HS as (_ & Ht & Hg). cbn [fst snd] in *.
  specialize (Hg (Z.to_nat v) ltac:(unfold IDT_LEN; lia)).
  rewrite Z2Nat.id in Hg by lia. rewrite <- (Z2Nat.id v) at 1 by lia.
  destruct (lookup_lt_is_Some_2 idt' (Z.to_nat v)) as [g Hgv];
    [rewrite Ht; unfold IDT_LEN; lia|].
  rewrite (wrap_small 32 idt_addr) by done. set (idtr := Idtr _ idt_addr). change idt_addr with (idtr_base idtr) at 1.
  rewrite (hw_load_gate_same _ _ _ _ _ _ Hgv (eq_trans (eq_sym Hg) Hgv)).
  rewrite <- (Z2Nat.id v) at 1 2 by lia.
  rewrite setIDT_load; [|lia|done| |clia|clia|clia].
  - rewrite Z2Nat.id by lia. done.
  - unfold idtr. cbn [limit]. rewrite wrap_small; unfold IDT_LEN; clia.
Qed.

(** Witness of C14: handlers linked at 0x101000, the page-fault vector. *)
Lemma setup_IDT_vectors_witness :
  let '(idtr, idt') := setup_IDT 0x300000 0x101000 IDT_init in
  hw_load_gate idtr (place 0x300000 (idt_image idt') (fun _ => 0)) 14 =
  Some (HwGate (0x101000 + 32 * 14) 0x08 0 14 0 true).
Proof.
  apply (setup_IDT_vectors 0x300000 0x101000 14 IDT_init (fun _ => 0)); [lia|clia|lia|lia|].
  apply length_replicate.
Defined.
