(* ===== verification/IntrEntry.v ===== *)
(** * Interrupt entry code ([src/src/init.S], [src/src/interrupt.S])

    The assembly that runs between an interrupt gate and the C function
    [handle_interrupt]: 256 stubs that save [rdi] and load the vector number,
    the common body [handle_interrupt_] that saves the other registers, calls C
    and restores them, and the port routines [outb] and [inb].  A small machine
    with registers and a stack of quadwords runs the instructions. *)

From S2P Require Import Prelude.

Inductive reg :=
| RAX | RBX | RBP | RCX | RDX | RSI | RDI
| R8 | R9 | R10 | R11 | R12 | R13 | R14 | R15 | FS | GS.

#[export] Instance reg_eq_dec : EqDecision reg.
Proof. solve_decision. Defined.

Definition regs := reg -> Z.
Definition set_reg (r : regs) (x : reg) (v : Z) : regs :=
  fun y => if decide (x = y) then v else r y.

(** The instructions the entry code uses.  [CallC] is [call handle_interrupt]:
    the C code may change any register but balances the stack. *)
Inductive instr :=
| Push (x : reg) | Pop (x : reg) | MovImm (x : reg) (v : Z) | CallC | Iretq.

(** The frame [iretq] pops: RIP, CS, RFLAGS, RSP, SS. *)
Record iframe := Iframe { f_rip : Z; f_cs : Z; f_rflags : Z; f_rsp : Z; f_ss : Z }.

Definition frame_words (f : iframe) : list Z :=
  [f_rip f; f_cs f; f_rflags f; f_rsp f; f_ss f].

Record cpu := Cpu {
  c_regs : regs;
  c_stack : list Z;           (* top first *)
  c_args : list Z;            (* [rdi] at each call of the C handler *)
  c_iret : option iframe;     (* the frame the final [iretq] popped *)
}.

Section Entry.
(** What the C handler leaves in the registers. *)
Context (clobber : regs -> regs).

Definition step_instr (i : instr) (c : cpu) : option cpu :=
  match i, c_stack c with
  | Push x, st => Some (Cpu (c_regs c) (c_regs c x :: st) (c_args c) None)
  | Pop x, v :: st => Some (Cpu (set_reg (c_regs c) x v) st (c_args c) None)
  | Pop _, [] => None
  | MovImm x v, st => Some (Cpu (set_reg (c_regs c) x v) st (c_args c) None)
  | CallC, st => Some (Cpu (clobber (c_regs c)) st (c_args c ++ [c_regs c RDI]) None)
  | Iretq, a :: b :: d :: e :: f :: st =>
      Some (Cpu (c_regs c) st (c_args c) (Some (Iframe a b d e f)))
  | Iretq, _ => None
  end.

Definition run (code : list instr) (c : cpu) : option cpu :=
  foldl (fun oc i => oc ≫= step_instr i) (Some c) code.

(** [handle_interrupt_N]; the [jmp] continues with the common body. *)
Definition stub (n : Z) : list instr := [Push RDI; MovImm RDI n].

(** [handle_interrupt_]. *)
Definition common_body : list instr :=
  [Push RAX; Push RBX; Push RBP; Push RCX; Push RDX; Push RSI;
   Push R8; Push R9; Push R10; Push R11; Push R12; Push R13; Push R14; Push R15;
   Push FS; Push GS;
   CallC;
   Pop GS; Pop FS;
   Pop R15; Pop R14; Pop R13; Pop R12; Pop R11; Pop R10; Pop R9; Pop R8;
   Pop RSI; Pop RDX; Pop RCX; Pop RBP; Pop RBX; Pop RAX;
   Pop RDI; Iretq].

(** Delivery of vector [n]: the stack already holds what the processor
    pushed. *)
Definition deliver (n : Z) (r : regs) (st : list Z) : option cpu :=
  run (stub n ++ common_body) (Cpu r st [] None).

Lemma run_app c1 c2 c : run (c1 ++ c2) c = run c1 c ≫= run c2.
Proof.
  unfold run. rewrite foldl_app. destruct (foldl _ (Some c) c1); [done|].
  induction c2; done.
Qed.

Lemma run_cons i is' c : run (i :: is') c = step_instr i c ≫= run is'.
Proof. apply (run_app [i]). Qed.

(** Pushing a list of registers. *)
Lemma run_push xs r st args :
  run (Push <$> xs) (Cpu r st args None) =
  Some (Cpu r (reverse (r <$> xs) ++ st) args None).
Proof.
  revert st. induction xs as [|x xs IH]; intros st; [done|].
  rewrite fmap_cons, run_cons. cbn [step_instr c_stack c_regs c_args mbind option_bind].
  rewrite IH, fmap_cons, reverse_cons, <- app_assoc. done.
Qed.

(** Popping the values [r] has at [xs] makes the registers agree with [r]
    there, and changes no other register. *)
Lemma run_pop xs r r0 st args :
  exists r', run (Pop <$> xs) (Cpu r0 ((r <$> xs) ++ st) args None) =
    Some (Cpu r' st args None) /\
    (forall x, x ∈ xs \/ r0 x = r x -> r' x = r x).
Proof.
  revert r0. induction xs as [|x xs IH]; intros r0.
  { exists r0. split; [done|]. intros y [Hy|Hy]; [set_solver|done]. }
  destruct (IH (set_reg r0 x (r x))) as (r' & Hrun & Hr').
  exists r'. split; [exact Hrun|]. intros y Hy. apply Hr'. unfold set_reg.
  case_decide; [subst; by right|]. set_solver.
Qed.

(** The registers of the common body, in push order. *)
Definition saved : list reg :=
  [RAX; RBX; RBP; RCX; RDX; RSI; R8; R9; R10; R11; R12; R13; R14; R15; FS; GS].

Lemma common_body_shape :
  common_body = (Push <$> saved) ++ [CallC] ++ (Pop <$> reverse saved) ++ [Pop RDI; Iretq].
Proof. reflexivity. Qed.

(** The whole entry sequence pops exactly what it pushed. *)
Lemma deliver_spec n r a b d e f st :
  exists r', deliver n r (a :: b :: d :: e :: f :: st) =
    Some (Cpu r' st [n] (Some (Iframe a b d e f))) /\ forall x, r' x = r x.
Proof.
  unfold deliver. rewrite run_app.
  change (run (stub n) _) with
    (Some (Cpu (set_reg r RDI n) (r RDI :: a :: b :: d :: e :: f :: st) [] None)).
  cbn [mbind option_bind]. rewrite common_body_shape, run_app, run_push.
  cbn [mbind option_bind]. rewrite run_app.
  change (run [CallC] (Cpu ?g ?s ?l None)) with (Some (Cpu (clobber g) s (l ++ [g RDI]) None)).
  cbn [mbind option_bind]. rewrite run_app, <- fmap_reverse.
  destruct (run_pop (reverse saved) (set_reg r RDI n) (clobber (set_reg r RDI n))
    (r RDI :: a :: b :: d :: e :: f :: st) ([] ++ [set_reg r RDI n RDI]))
    as (r' & -> & Hr').
  exists (set_reg r' RDI (r RDI)). split; [reflexivity|].
  intros x. unfold set_reg at 1. case_decide; [by subst|].
  rewrite Hr'; [unfold set_reg; by rewrite decide_False|].
  left. destruct x; try done; repeat constructor.
Qed.
End Entry.

(** [outb]: the port and the byte written. *)
Definition outb_asm (rdi rsi : Z) : Z * Z := (u16 rdi, u8 rsi).

(** [inb]: only [al] is written, the other bits of [rax] are the caller's. *)
Definition inb_asm (rax byte : Z) : Z := rax - rax mod 256 + u8 byte.

(** C15. For a vector without an error code, whatever the C handler does to the
    registers, the entry code passes the vector number to [handle_interrupt]
    once, restores every saved register, and [iretq] pops exactly the frame the
    processor pushed, leaving the interrupted stack. *)
Theorem interrupt_entry_transparent (clobber : regs -> regs) (n : Z) (r : regs)
    (f : iframe) (st : list Z) :
  exists r', deliver clobber n r (frame_words f ++ st) =
    Some (Cpu r' st [n] (Some f)) /\ forall x, r' x = r x.
Proof. destruct f. apply deliver_spec. Qed.

(** For a vector with an error code the entry code does not drop that code:
    [iretq] takes the error code as the return address and leaves the saved
    stack segment on the stack (the [FIXME] of [handle_interrupt_]). *)
Theorem interrupt_entry_error_code (clobber : regs -> regs) (n err : Z) (r : regs)
    (f : iframe) (st : list Z) :
  exists r', deliver clobber n r (err :: frame_words f ++ st) =
    Some (Cpu r' (f_ss f :: st) [n]
            (Some (Iframe err (f_rip f) (f_cs f) (f_rflags f) (f_rsp f)))).
Proof.
  destruct f. destruct (deliver_spec clobber n r err f_rip0 f_cs0 f_rflags0 f_rsp0
    (f_ss0 :: st)) as (r' & H & _). by exists r'.
Qed.
