(* ===== verification/Vbe.v ===== *)
(** * The VBE mode information block ([src/src/vbe.h])

    The packed C struct [VBEModeInfoBlock] as a record, the load of the struct
    from memory bytes (the struct assignment of [get_multiboot_info]) and its
    packed image. *)

From S2P Require Import Prelude.

Record VBEModeInfoBlock := {
  ModeAttributes : Z; WinAAttributes : Z; WinBAttributes : Z;
  WinGranularity : Z; WinSize : Z; WinASegment : Z; WinBSegment : Z;
  WinFuncPtr : Z; BytesPerScanLine : Z;
  XResolution : Z; YResolution : Z; XCharSize : Z; YCharSize : Z;
  NumberOfPlanes : Z; BitsPerPixel : Z; NumberOfBanks : Z; MemoryModel : Z;
  BankSize : Z; NumberOfImagePages : Z; Reserved_page : Z;
  RedMaskSize : Z; RedFieldPosition : Z; GreenMaskSize : Z;
  GreenFieldPosition : Z; BlueMaskSize : Z; BlueFieldPosition : Z;
  RsvdMaskSize : Z; RsvdFieldPosition : Z; DirectColorModeInfo : Z;
  PhysBasePtr : Z; OffScreenMemOffset : Z; OffScreenMemSize : Z;
  LinBytesPerScanLine : Z; BnkNumberOfPages : Z; LinNumberOfPages : Z;
  LinRedMaskSize : Z; LinRedFieldPosition : Z; LinGreenMaskSize : Z;
  LinGreenFieldPosition : Z; LinBlueMaskSize : Z; LinBlueFieldPosition : Z;
  LinRsvdMaskSize : Z; LinRsvdFieldPosition : Z; MaxPixelClock : Z;
  Reserved : list Z;
}.

(** Widths in bytes of the scalar fields, in declaration order. *)
Definition vbe_widths : list nat :=
  [2; 1; 1; 2; 2; 2; 2; 4; 2;  2; 2; 1; 1; 1; 1; 1; 1; 1; 1; 1;
   1; 1; 1; 1; 1; 1; 1; 1; 1;  4; 4; 2;  2; 1; 1; 1; 1; 1; 1; 1; 1; 1; 1; 4]%nat.

Definition vbe_reserved : nat := 189.

(** [sizeof (struct VBEModeInfoBlock)]. *)
Definition sizeof_modeinfo : nat := sum_list vbe_widths + vbe_reserved.

(** The scalar fields in declaration order. *)
Definition vbe_scalars (b : VBEModeInfoBlock) : list Z :=
  [ModeAttributes b; WinAAttributes b; WinBAttributes b; WinGranularity b;
   WinSize b; WinASegment b; WinBSegment b; WinFuncPtr b; BytesPerScanLine b;
   XResolution b; YResolution b; XCharSize b; YCharSize b; NumberOfPlanes b;
   BitsPerPixel b; NumberOfBanks b; MemoryModel b; BankSize b;
   NumberOfImagePages b; Reserved_page b;
   RedMaskSize b; RedFieldPosition b; GreenMaskSize b; GreenFieldPosition b;
   BlueMaskSize b; BlueFieldPosition b; RsvdMaskSize b; RsvdFieldPosition b;
   DirectColorModeInfo b; PhysBasePtr b; OffScreenMemOffset b;
   OffScreenMemSize b; LinBytesPerScanLine b; BnkNumberOfPages b;
   LinNumberOfPages b; LinRedMaskSize b; LinRedFieldPosition b;
   LinGreenMaskSize b; LinGreenFieldPosition b; LinBlueMaskSize b;
   LinBlueFieldPosition b; LinRsvdMaskSize b; LinRsvdFieldPosition b;
   MaxPixelClock b].

(** A packed sequence of little-endian integers of the given widths. *)
Fixpoint pack_fields (ws : list nat) (vs : list Z) : list Z :=
  match ws, vs with
  | w :: ws', v :: vs' => le_bytes w v ++ pack_fields ws' vs'
  | _, _ => []
  end.

Fixpoint unpack_fields (ws : list nat) (bs : list Z) : list Z :=
  match ws with
  | [] => []
  | w :: ws' => le_value (take w bs) :: unpack_fields ws' (drop w bs)
  end.

(** The bytes of the struct in memory. *)
Definition modeinfo_bytes (b : VBEModeInfoBlock) : list Z :=
  pack_fields vbe_widths (vbe_scalars b) ++ Reserved b.

(** The struct read from memory bytes. *)
Definition load_modeinfo (bs : list Z) : VBEModeInfoBlock :=
  let v := unpack_fields vbe_widths bs in
  let f (i : nat) := default 0 (v !! i) in
  Build_VBEModeInfoBlock
    (f 0%nat) (f 1%nat) (f 2%nat) (f 3%nat) (f 4%nat) (f 5%nat) (f 6%nat) (f 7%nat)
    (f 8%nat) (f 9%nat) (f 10%nat) (f 11%nat) (f 12%nat) (f 13%nat) (f 14%nat)
    (f 15%nat) (f 16%nat) (f 17%nat) (f 18%nat) (f 19%nat) (f 20%nat) (f 21%nat)
    (f 22%nat) (f 23%nat) (f 24%nat) (f 25%nat) (f 26%nat) (f 27%nat) (f 28%nat)
    (f 29%nat) (f 30%nat) (f 31%nat) (f 32%nat) (f 33%nat) (f 34%nat) (f 35%nat)
    (f 36%nat) (f 37%nat) (f 38%nat) (f 39%nat) (f 40%nat) (f 41%nat) (f 42%nat)
    (f 43%nat)
    (take vbe_reserved (drop (sum_list vbe_widths) bs)).

(** Zero-initialised static storage. *)
Definition modeinfo_zero : VBEModeInfoBlock :=
  load_modeinfo (replicate sizeof_modeinfo 0).

(** Every field in the range of its C type. *)
Definition modeinfo_wf (b : VBEModeInfoBlock) : Prop :=
  Forall2 (fun w v => 0 <= v < 256 ^ Z.of_nat w) vbe_widths (vbe_scalars b) /\
  length (Reserved b) = vbe_reserved.

Lemma unpack_pack ws vs post :
  Forall2 (fun w v => 0 <= v < 256 ^ Z.of_nat w) ws vs ->
  unpack_fields ws (pack_fields ws vs ++ post) = vs.
Proof.
  induction 1 as [|w v ws vs Hv _ IH]; [done|]. cbn [pack_fields unpack_fields].
  rewrite <- app_assoc, take_app_length', drop_app_length' by (by rewrite length_le_bytes).
  rewrite IH, le_value_bytes_small by done. done.
Qed.

Lemma length_pack_fields ws vs :
  length ws = length vs -> length (pack_fields ws vs) = sum_list ws.
Proof.
  revert vs. induction ws as [|w ws IH]; intros [|v vs] H; try done.
  cbn. rewrite length_app, length_le_bytes, IH; [done|]. by injection H.
Qed.

Lemma length_modeinfo_bytes b :
  modeinfo_wf b -> length (modeinfo_bytes b) = sizeof_modeinfo.
Proof.
  intros [_ Hr]. unfold modeinfo_bytes.
  rewrite length_app, length_pack_fields, Hr by done. done.
Qed.

(** The struct image determines every field: loading what was stored gives the
    struct back, whatever follows it in memory. *)
Lemma load_modeinfo_bytes b post :
  modeinfo_wf b -> load_modeinfo (modeinfo_bytes b ++ post) = b.
Proof.
  intros [Hs Hr]. unfold load_modeinfo, modeinfo_bytes. rewrite <- app_assoc.
  rewrite unpack_pack by done.
  rewrite drop_app_length' by (by rewrite length_pack_fields).
  rewrite take_app_length' by done. by destruct b.
Qed.
