(* ===== verification/Multiboot.v ===== *)
(** * Multiboot2 information ([src/src/multiboot2.h], [get_multiboot_info])

    The boot loader hands the kernel a block of memory holding a sequence of
    8-byte aligned tags.  The model reads the block as a list of bytes at the
    offsets the C structs have; [get_multiboot_info] walks it and fills the
    globals [modeinfo], [fbmem] and [heap_end] of [luakernel.c]. *)

From S2P Require Import Prelude Vbe.

(** ** Constants of [multiboot2.h] *)

Inductive tag_type :=
| TAG_END | TAG_CMDLINE | TAG_BOOT_LOADER_NAME | TAG_MODULE | TAG_BASIC_MEMINFO
| TAG_BOOTDEV | TAG_MMAP | TAG_VBE | TAG_FRAMEBUFFER | TAG_ELF_SECTIONS | TAG_APM
| TAG_EFI32 | TAG_EFI64 | TAG_SMBIOS | TAG_ACPI_OLD | TAG_ACPI_NEW | TAG_NETWORK
| TAG_EFI_MMAP | TAG_EFI_BS.

(** The values of the [MULTIBOOT_TAG_TYPE_*] macros. *)
Definition tag_type_code (t : tag_type) : Z :=
  match t with
  | TAG_END => 0 | TAG_CMDLINE => 1 | TAG_BOOT_LOADER_NAME => 2 | TAG_MODULE => 3
  | TAG_BASIC_MEMINFO => 4 | TAG_BOOTDEV => 5 | TAG_MMAP => 6 | TAG_VBE => 7
  | TAG_FRAMEBUFFER => 8 | TAG_ELF_SECTIONS => 9 | TAG_APM => 10 | TAG_EFI32 => 11
  | TAG_EFI64 => 12 | TAG_SMBIOS => 13 | TAG_ACPI_OLD => 14 | TAG_ACPI_NEW => 15
  | TAG_NETWORK => 16 | TAG_EFI_MMAP => 17 | TAG_EFI_BS => 18
  end.

Definition MULTIBOOT_MEMORY_AVAILABLE : Z := 1.

(** Offsets of the members the kernel reads.  [struct multiboot_tag]: *)
Definition off_type : Z := 0.
Definition off_size : Z := 4.
(** [struct multiboot_tag_vbe]: two words, four half words, 512 bytes. *)
Definition off_vbe_mode_info : Z := 8 + 8 + 512.
(** [struct multiboot_tag_framebuffer_common]. *)
Definition off_framebuffer_addr : Z := 8.
(** [struct multiboot_tag_mmap]. *)
Definition off_entry_size : Z := 8.
Definition off_entries : Z := 16.

(** [struct multiboot_mmap_entry]. *)
Record mmap_entry := MmapEntry {
  me_addr : Z; me_len : Z; me_type : Z; me_zero : Z;
}.

(** ** The globals the walk fills *)

Record boot_globals := BootGlobals {
  modeinfo : VBEModeInfoBlock;
  fbmem : Z;
  heap_end : Z;
}.

Definition globals_init : boot_globals := BootGlobals modeinfo_zero 0 0.

(** The reads of one memory-map entry and the update of [heap_end]. *)
Definition mmap_visit (bs : list Z) (entry : Z) (g : boot_globals) : res boot_globals :=
  ty ← le_read 4 bs (entry + 16);
  if ty =? MULTIBOOT_MEMORY_AVAILABLE then
    addr ← le_read 8 bs entry;
    if addr =? 0x100000 then
      len ← le_read 8 bs (entry + 8);
      Ok (BootGlobals (modeinfo g) (fbmem g) (u64 (addr + len)))
    else Ok g
  else Ok g.

(** The [for] over the entries of the tag at [off]. *)
Fixpoint mmap_loop (fuel : nat) (bs : list Z) (off size entry : Z)
    (g : boot_globals) : res boot_globals :=
  match fuel with
  | O => Err NoFuel
  | S fuel' =>
      if entry <? off + size then
        g' ← mmap_visit bs entry g;
        entry_size ← le_read 4 bs (off + off_entry_size);
        mmap_loop fuel' bs off size (entry + entry_size) g'
      else Ok g
  end.

(** The [switch] on the tag type. *)
Definition tag_switch (fuel : nat) (bs : list Z) (off ty size : Z)
    (g : boot_globals) : res boot_globals :=
  if ty =? tag_type_code TAG_VBE then
    if decide (0 <= off /\ off + off_vbe_mode_info + Z.of_nat sizeof_modeinfo
                 <= Z.of_nat (length bs))
    then Ok (BootGlobals (load_modeinfo (drop (Z.to_nat (off + off_vbe_mode_info)) bs))
               (fbmem g) (heap_end g))
    else Err Undefined
  else if ty =? tag_type_code TAG_FRAMEBUFFER then
    if 0 <? XResolution (modeinfo g) then
      a ← le_read 8 bs (off + off_framebuffer_addr);
      Ok (BootGlobals (modeinfo g) a (heap_end g))
    else Ok g
  else if ty =? tag_type_code TAG_MMAP then
    mmap_loop fuel bs off size (off + off_entries) g
  else Ok g.

(** Tags are padded to 8 bytes. *)
Definition next_tag (off size : Z) : Z :=
  if size mod 8 =? 0 then off + size else off + size + (8 - size mod 8).

(** The [while] over the tags. *)
Fixpoint tag_loop (fuel : nat) (bs : list Z) (off : Z) (g : boot_globals)
    : res boot_globals :=
  match fuel with
  | O => Err NoFuel
  | S fuel' =>
      ty ← le_read 4 bs (off + off_type);
      if ty =? tag_type_code TAG_END then Ok g else
      size ← le_read 4 bs (off + off_size);
      g' ← tag_switch fuel' bs off ty size g;
      tag_loop fuel' bs (next_tag off size) g'
  end.

(** [ptr] is the value of [multiboot_boot_information]; a null pointer is only
    reported to the debugger and then dereferenced. *)
Definition get_multiboot_info (fuel : nat) (ptr : Z) (bs : list Z)
    (g : boot_globals) : res boot_globals :=
  if ptr =? 0 then Err Undefined else
  total_size ← le_read 4 bs 0;
  tag_loop fuel bs 8 g.

(** The 8-byte load of [multiboot_boot_information], which [init.S] declares
    as one [.long]: [next4] are the four bytes after it. *)
Definition mbi_pointer (ebx : Z) (next4 : list Z) : Z :=
  le_value (le_bytes 4 ebx ++ next4).

(** ** The information block as data: what a boot loader writes *)

Inductive btag :=
| BVbe (control : list Z) (mode : VBEModeInfoBlock)
| BFramebuffer (addr : Z) (rest : list Z)
| BMmap (version : Z) (entries : list mmap_entry)
| BOther (ty : Z) (payload : list Z).

Definition entry_bytes (e : mmap_entry) : list Z :=
  le_bytes 8 (me_addr e) ++ le_bytes 8 (me_len e) ++ le_bytes 4 (me_type e) ++
  le_bytes 4 (me_zero e).

Definition btag_type (t : btag) : Z :=
  match t with
  | BVbe _ _ => tag_type_code TAG_VBE
  | BFramebuffer _ _ => tag_type_code TAG_FRAMEBUFFER
  | BMmap _ _ => tag_type_code TAG_MMAP
  | BOther ty _ => ty
  end.

(** The 256-byte mode block of the tag holds the 255-byte struct. *)
Definition btag_payload (t : btag) : list Z :=
  match t with
  | BVbe control mode => control ++ modeinfo_bytes mode ++ [0]
  | BFramebuffer addr rest => le_bytes 8 addr ++ rest
  | BMmap version es => le_bytes 4 24 ++ le_bytes 4 version ++ (es ≫= entry_bytes)
  | BOther _ payload => payload
  end.

Definition tag_len (t : btag) : Z := 8 + Z.of_nat (length (btag_payload t)).

Definition padding (size : Z) : list Z := replicate (Z.to_nat ((- size) mod 8)) 0.

Definition btag_bytes (t : btag) : list Z :=
  le_bytes 4 (btag_type t) ++ le_bytes 4 (tag_len t) ++ btag_payload t ++
  padding (tag_len t).

Definition end_tag : list Z := le_bytes 4 0 ++ le_bytes 4 8.

Definition info_bytes (total : Z) (ts : list btag) (junk : list Z) : list Z :=
  le_bytes 4 total ++ le_bytes 4 0 ++ (ts ≫= btag_bytes) ++ end_tag ++ junk.

Definition entry_wf (e : mmap_entry) : Prop :=
  in_u 64 (me_addr e) /\ in_u 64 (me_len e) /\ in_u 32 (me_type e).

Definition btag_wf (t : btag) : Prop :=
  tag_len t < 2 ^ 32 /\
  match t with
  | BVbe control mode => length control = 520%nat /\ modeinfo_wf mode
  | BFramebuffer addr _ => in_u 64 addr
  | BMmap _ es => Forall entry_wf es
  | BOther ty _ =>
      in_u 32 ty /\ ty <> tag_type_code TAG_END /\ ty <> tag_type_code TAG_VBE /\
      ty <> tag_type_code TAG_FRAMEBUFFER /\ ty <> tag_type_code TAG_MMAP
  end.

(** ** The specification: one pass over the tags *)

Definition visit_entry (g : boot_globals) (e : mmap_entry) : boot_globals :=
  if (me_type e =? MULTIBOOT_MEMORY_AVAILABLE) && (me_addr e =? 0x100000)
  then BootGlobals (modeinfo g) (fbmem g) (u64 (me_addr e + me_len e)) else g.

Definition apply_tag (g : boot_globals) (t : btag) : boot_globals :=
  match t with
  | BVbe _ mode => BootGlobals mode (fbmem g) (heap_end g)
  | BFramebuffer addr _ =>
      if 0 <? XResolution (modeinfo g)
      then BootGlobals (modeinfo g) addr (heap_end g) else g
  | BMmap _ es => foldl visit_entry g es
  | BOther _ _ => g
  end.

(** Fuel that is enough for one tag. *)
Definition tag_fuel (t : btag) : nat :=
  match t with BMmap _ es => S (length es) | _ => O end.

(** ** The walk computes the specification *)

Lemma length_entry_bytes e : length (entry_bytes e) = 24%nat.
Proof. unfold entry_bytes. by rewrite !length_app, !length_le_bytes. Qed.

Lemma length_entries es : length (es ≫= entry_bytes) = (24 * length es)%nat.
Proof.
  induction es as [|e es IH]; [done|]. cbn [mbind list_bind] in *.
  rewrite length_app, length_entry_bytes, IH. cbn [length]. lia.
Qed.

Lemma mmap_visit_spec bs front e rest g :
  bs = front ++ entry_bytes e ++ rest -> entry_wf e ->
  mmap_visit bs (Z.of_nat (length front)) g = Ok (visit_entry g e).
Proof.
  intros -> (Ha & Hl & Ht). unfold mmap_visit, entry_bytes.
  rewrite (le_read_skip 4), <- !app_assoc by lia.
  rewrite !(le_read_next 4), (le_read_here 4) by (lia || exact Ht).
  cbn [mbind res_bind]. unfold visit_entry.
  destruct (me_type e =? MULTIBOOT_MEMORY_AVAILABLE); [|done].
  rewrite le_read_start, le_read_here by exact Ha. cbn [mbind res_bind andb].
  destruct (me_addr e =? 0x100000); [|done].
  rewrite le_read_skip, le_read_next, le_read_here by (lia || exact Hl). done.
Qed.

(** What a loop gives that needs more than [need] fuel. *)
Definition fuelled {A} (need fuel : nat) (a : A) : res A := if decide (need < fuel)%nat then Ok a else Err NoFuel.

Lemma fuelled_enough {A} need fuel (a : A) : (need < fuel)%nat -> fuelled need fuel a = Ok a.
Proof. intros H. unfold fuelled. by rewrite decide_True. Qed.

Lemma fuelled_S {A} need fuel (a : A) : fuelled (S need) (S fuel) a = fuelled need fuel a.
Proof. unfold fuelled. destruct (decide (need < fuel)%nat); [by rewrite decide_True by lia|by rewrite decide_False by lia]. Qed.

Lemma mmap_loop_spec es : forall fuel bs off size front rest g,
  bs = front ++ (es ≫= entry_bytes) ++ rest ->
  off + size = Z.of_nat (length front) + 24 * Z.of_nat (length es) ->
  le_read 4 bs (off + off_entry_size) = Ok 24 -> Forall entry_wf es ->
  mmap_loop fuel bs off size (Z.of_nat (length front)) g = fuelled (length es) fuel (foldl visit_entry g es).
Proof.
  induction es as [|e es IH]; intros [|fuel] bs off size front rest g Hbs Hsz H24 Hwf;
    cbn [length] in *; [done| |done|]; cbn [mmap_loop].
  - rewrite (proj2 (Z.ltb_ge _ _)) by lia. by rewrite fuelled_enough by lia.
  - rewrite (proj2 (Z.ltb_lt _ _)), fuelled_S by lia. inversion Hwf as [|?? He Hes]; subst.
    cbn [mbind list_bind] in *. rewrite <- app_assoc in *.
    erewrite mmap_visit_spec by done. cbn [mbind res_bind].
    rewrite H24. cbn [mbind res_bind].
    replace (Z.of_nat (length front) + 24) with (Z.of_nat (length (front ++ entry_bytes e)))
      by (rewrite length_app, length_entry_bytes; lia).
    rewrite app_assoc in *. apply (IH _ _ _ _ _ rest); [done| |done|done].
    rewrite length_app, length_entry_bytes. lia.
Qed.

(** The header of a tag at the end of [pre]. *)
Lemma tag_header pre t rest :
  btag_wf t ->
  let bs := pre ++ btag_bytes t ++ rest in
  let off := Z.of_nat (length pre) in
  le_read 4 bs (off + off_type) = Ok (btag_type t) /\
  le_read 4 bs (off + off_size) = Ok (tag_len t).
Proof.
  intros [Hlen Ht]. cbn zeta. unfold btag_bytes, off_type, off_size.
  rewrite !le_read_skip, <- !app_assoc by lia.
  split; [|rewrite le_read_next by lia]; apply le_read_here.
  - destruct t; cbn; try clia.
  - unfold tag_len in *. clia.
Qed.

Lemma tag_switch_spec fuel pre t rest g :
  btag_wf t ->
  tag_switch fuel (pre ++ btag_bytes t ++ rest) (Z.of_nat (length pre))
    (btag_type t) (tag_len t) g = fuelled (tag_fuel t) (S fuel) (apply_tag g t).
Proof.
  intros [Hlen Ht]. unfold tag_switch.
  destruct t as [control mode|addr rs|version es|ty payload]; cbn [btag_type tag_fuel];
    rewrite ?fuelled_S, ?(fuelled_enough O) by lia.
  - destruct Ht as [Hc Hm]. rewrite Z.eqb_refl. unfold btag_bytes.
    pose proof (length_modeinfo_bytes mode Hm) as Hb. cbn [btag_payload].
    rewrite decide_True.
    2: { unfold off_vbe_mode_info. rewrite !length_app, !length_le_bytes, Hc, Hb. lia. }
    cbn [apply_tag]. do 2 f_equal. set (n := tag_len _).
    replace (pre ++ _ ++ rest) with
      ((pre ++ le_bytes 4 (tag_type_code TAG_VBE) ++ le_bytes 4 n ++ control) ++
       modeinfo_bytes mode ++ [0] ++ padding n ++ rest) by (by rewrite <- !app_assoc).
    rewrite drop_app_length'; [by apply load_modeinfo_bytes|].
    unfold off_vbe_mode_info. rewrite !length_app, !length_le_bytes, Hc. lia.
  - cbn [tag_type_code]. change (8 =? 7) with false. rewrite Z.eqb_refl.
    cbn [apply_tag]. destruct (0 <? XResolution (modeinfo g)); [|done].
    unfold off_framebuffer_addr, btag_bytes. cbn [btag_payload].
    rewrite le_read_skip, <- !app_assoc by lia.
    rewrite !le_read_next, le_read_here by (lia || exact Ht). done.
  - cbn [tag_type_code]. change (6 =? 7) with false. change (6 =? 8) with false.
    rewrite Z.eqb_refl. cbn [apply_tag].
    unfold off_entries, btag_bytes. cbn [btag_payload].
    set (hd := le_bytes 4 6 ++ le_bytes 4 (tag_len (BMmap version es)) ++
      le_bytes 4 24 ++ le_bytes 4 version).
    assert (length hd = 16%nat) as Hhd.
    { unfold hd. by rewrite !length_app, !length_le_bytes. }
    replace (Z.of_nat (length pre) + 16) with (Z.of_nat (length (pre ++ hd)))
      by (rewrite length_app, Hhd; lia).
    apply (mmap_loop_spec _ _ _ _ _ _ (padding (tag_len (BMmap version es)) ++ rest)).
    + unfold hd. by rewrite <- !app_assoc.
    + unfold tag_len. cbn [btag_payload].
      rewrite !length_app, !length_le_bytes, length_entries, Hhd. lia.
    + unfold off_entry_size. rewrite le_read_skip, <- !app_assoc by lia.
      rewrite !le_read_next, le_read_here by lia. done.
    + exact Ht.
  - destruct Ht as (_ & _ & H7 & H8 & H6).
    rewrite !(proj2 (Z.eqb_neq _ _)) by done. done.
Qed.

Lemma next_tag_spec pre t :
  next_tag (Z.of_nat (length pre)) (tag_len t) =
  Z.of_nat (length (pre ++ btag_bytes t)).
Proof.
  unfold next_tag, btag_bytes, padding.
  rewrite !length_app, !length_le_bytes, length_replicate.
  assert (tag_len t = 8 + Z.of_nat (length (btag_payload t))) by done.
  destruct (Z.eqb_spec (tag_len t mod 8) 0); dlia.
Qed.

Lemma btag_type_not_end t : btag_wf t -> btag_type t <> tag_type_code TAG_END.
Proof. intros [_ Ht]. destruct t; try done. by destruct Ht as (_ & ? & _). Qed.

Lemma tag_loop_spec ts : forall fuel pre junk g,
  Forall btag_wf ts -> (length ts < fuel)%nat ->
  Forall (fun t => (tag_fuel t + length ts < fuel)%nat) ts ->
  tag_loop fuel (pre ++ (ts ≫= btag_bytes) ++ end_tag ++ junk)
    (Z.of_nat (length pre)) g = Ok (foldl apply_tag g ts).
Proof.
  induction ts as [|t ts IH]; intros [|fuel] pre junk g Hwf Hf Hff;
    cbn [length] in *; [lia| |lia|]; cbn [tag_loop].
  - unfold end_tag. cbn [mbind list_bind app]. unfold off_type.
    rewrite (le_read_skip 4 pre _ 0), <- app_assoc by lia.
    rewrite (le_read_here 4 0) by (change (256 ^ Z.of_nat 4) with (2 ^ 32); lia). done.
  - inversion Hwf as [|?? Ht Hts]; inversion Hff as [|?? Hft Hfts]; subst.
    cbn [mbind list_bind]. rewrite <- app_assoc.
    destruct (tag_header pre t (mbind btag_bytes ts ++ end_tag ++ junk) Ht) as [-> ->].
    cbn [mbind res_bind].
    rewrite (proj2 (Z.eqb_neq _ _)) by (by apply btag_type_not_end).
    rewrite tag_switch_spec, fuelled_enough by (done || lia). cbn [mbind res_bind].
    rewrite next_tag_spec, app_assoc. apply IH; [done|lia|].
    eapply Forall_impl; [exact Hfts|]. cbn. lia.
Qed.

(** C9. On every information block a boot loader can write from a list of
    well-formed tags (VBE, framebuffer, memory map, any other type), the walk
    of [get_multiboot_info] terminates, reads only inside the block, and leaves
    the globals that one pass over the tags gives, whatever follows the block. *)
Theorem get_multiboot_info_correct (ptr total : Z) (ts : list btag) (junk : list Z)
    (g : boot_globals) (fuel : nat) :
  ptr <> 0 -> in_u 32 total -> Forall btag_wf ts ->
  (length ts < fuel)%nat ->
  Forall (fun t => (tag_fuel t + length ts < fuel)%nat) ts ->
  get_multiboot_info fuel ptr (info_bytes total ts junk) g = Ok (foldl apply_tag g ts).
Proof.
  intros Hp Ht Hwf Hf Hff. unfold get_multiboot_info, info_bytes.
  rewrite (proj2 (Z.eqb_neq _ _) Hp).
  rewrite le_read_here by exact Ht. cbn [mbind res_bind].
  pose proof (tag_loop_spec ts fuel (le_bytes 4 total ++ le_bytes 4 0) junk g Hwf Hf Hff) as H.
  rewrite <- app_assoc in H. exact H.
Qed.

(** A boot information block for the example: VBE 1024x768x32, framebuffer,
    a memory map with low memory and the region at 1 MiB. *)
Definition example_modeinfo : VBEModeInfoBlock :=
  load_modeinfo (replicate 16 0 ++ le_bytes 2 4096 ++ le_bytes 2 1024 ++
    le_bytes 2 768 ++ [8; 16; 1; 32] ++ replicate 229 0).

Definition example_tags : list btag :=
  [BOther 2 [71; 82; 85; 66; 0];
   BVbe (replicate 520 0) example_modeinfo;
   BFramebuffer 0xfd000000 (replicate 16 0);
   BMmap 0 [MmapEntry 0 0x9f000 1 0; MmapEntry 0xfffc0000 0x40000 2 0;
            MmapEntry 0x100000 0x3fef0000 1 0]].

Lemma example_tags_wf : Forall btag_wf example_tags.
Proof.
  assert (modeinfo_wf example_modeinfo) as Hm.
  { split; [|vm_compute; reflexivity].
    repeat (constructor; [vm_compute; split; [discriminate|reflexivity]|]). constructor. }
  repeat constructor; try (vm_compute; done); try (vm_compute; split; [discriminate|reflexivity]);
    exact Hm || apply Hm.
Qed.

(** Witness of C9. *)
Lemma get_multiboot_info_correct_witness :
  get_multiboot_info 20 0x10000 (info_bytes 1024 example_tags []) globals_init =
  Ok (foldl apply_tag globals_init example_tags).
Proof.
  apply (get_multiboot_info_correct 0x10000 1024 example_tags [] globals_init 20);
    [lia|clia|exact example_tags_wf|cbn; lia|].
  repeat constructor; cbn; lia.
Defined.

(** Entries that are not the available region at 1 MiB change nothing. *)
Lemma visit_entries_keep g es :
  Forall (fun e => me_type e <> 1 \/ me_addr e <> 0x100000) es ->
  foldl visit_entry g es = g.
Proof.
  induction 1 as [|e es He _ IH]; [done|]. cbn [foldl].
  assert (visit_entry g e = g) as ->; [|done].
  unfold visit_entry, MULTIBOOT_MEMORY_AVAILABLE.
  destruct He as [He|He]; rewrite (proj2 (Z.eqb_neq _ _) He); [done|].
  by rewrite andb_false_r.
Qed.

(** A memory-map tag with exactly one available entry at 1 MiB. *)
Lemma apply_mmap_heap g version pre e post :
  Forall (fun e => me_type e <> 1 \/ me_addr e <> 0x100000) (pre ++ post) ->
  me_type e = 1 -> me_addr e = 0x100000 -> in_u 64 (me_addr e + me_len e) ->
  apply_tag g (BMmap version (pre ++ e :: post)) =
  BootGlobals (modeinfo g) (fbmem g) (0x100000 + me_len e).
Proof.
  intros Hne Ht Ha Hr. apply Forall_app in Hne as [H1 H2]. cbn [apply_tag].
  rewrite foldl_app, (visit_entries_keep g pre H1). cbn [foldl].
  rewrite visit_entries_keep by done. unfold visit_entry.
  rewrite Ht, Ha, wrap_small by (by rewrite <- Ha). done.
Qed.

(** The usual block: VBE mode, framebuffer, memory map. *)
Lemma get_multiboot_info_std (ptr total version : Z) (control : list Z)
    (mode : VBEModeInfoBlock) (fb : Z) (rest junk : list Z)
    (pre post : list mmap_entry) (e : mmap_entry) (g : boot_globals) (fuel : nat) :
  let ts := [BVbe control mode; BFramebuffer fb rest; BMmap version (pre ++ e :: post)] in
  ptr <> 0 -> in_u 32 total -> Forall btag_wf ts ->
  (S (S (S (S (length (pre ++ e :: post))))) < fuel)%nat ->
  Forall (fun e => me_type e <> 1 \/ me_addr e <> 0x100000) (pre ++ post) ->
  me_type e = 1 -> me_addr e = 0x100000 -> in_u 64 (me_addr e + me_len e) ->
  get_multiboot_info fuel ptr (info_bytes total ts junk) g =
  Ok (BootGlobals mode (if 0 <? XResolution mode then fb else fbmem g)
        (0x100000 + me_len e)).
Proof.
  intros ts Hp Ht Hwf Hf Hne Hty Ha Hr. unfold get_multiboot_info, info_bytes.
  rewrite (proj2 (Z.eqb_neq _ _) Hp), le_read_here by exact Ht. cbn [mbind res_bind].
  pose proof (tag_loop_spec ts fuel (le_bytes 4 total ++ le_bytes 4 0) junk g Hwf) as H.
  rewrite <- app_assoc in H. change (Z.of_nat _) with 8 in H.
  rewrite H; [|cbn; lia|repeat constructor; cbn [tag_fuel length ts]; lia].
  subst ts. cbn [foldl]. rewrite apply_mmap_heap by done.
  cbn [apply_tag modeinfo fbmem]. by destruct (0 <? XResolution mode).
Qed.

(** The heap ends where the memory map says: when the last tag is a memory
    map with exactly one available entry at 1 MiB, of length [len], the walk
    leaves [heap_end = 1 MiB + len], and [fbmem] is the address of a preceding
    framebuffer tag only if a VBE tag with a non-zero width came before it. *)
Theorem get_multiboot_info_heap (ptr total version : Z) (control : list Z)
    (mode : VBEModeInfoBlock) (fb : Z) (rest junk : list Z)
    (pre post : list mmap_entry) (e : mmap_entry) (g : boot_globals) (fuel : nat) :
  let ts := [BVbe control mode; BFramebuffer fb rest; BMmap version (pre ++ e :: post)] in
  ptr <> 0 -> in_u 32 total -> Forall btag_wf ts ->
  (S (S (S (S (length (pre ++ e :: post))))) < fuel)%nat ->
  Forall (fun e => me_type e <> 1 \/ me_addr e <> 0x100000) (pre ++ post) ->
  me_type e = 1 -> me_addr e = 0x100000 -> in_u 64 (me_addr e + me_len e) ->
  get_multiboot_info fuel ptr (info_bytes total ts junk) g =
  Ok (BootGlobals mode (if 0 <? XResolution mode then fb else fbmem g)
        (0x100000 + me_len e)).
Proof. apply get_multiboot_info_std. Qed.

(** Example. *)
Lemma get_multiboot_info_heap_witness :
  get_multiboot_info 20 0x10000
    (info_bytes 1024 [BVbe (replicate 520 0) example_modeinfo;
       BFramebuffer 0xfd000000 []; BMmap 0 ([MmapEntry 0 0x9f000 1 0] ++
       MmapEntry 0x100000 0x3fef0000 1 0 :: [])] []) globals_init =
  Ok (BootGlobals example_modeinfo 0xfd000000 0x3fff0000).
Proof.
  pose proof example_tags_wf as Hwf. unfold example_tags in Hwf.
  apply Forall_cons_1 in Hwf as [_ Hwf]. apply Forall_cons_1 in Hwf as [Hv _].
  apply (get_multiboot_info_heap 0x10000 1024 0 (replicate 520 0) example_modeinfo
    0xfd000000 [] [] [MmapEntry 0 0x9f000 1 0] [] (MmapEntry 0x100000 0x3fef0000 1 0)
    globals_init 20); [lia|clia| |cbn; lia| |done|done|cbn; clia].
  - constructor; [exact Hv|]. repeat constructor; cbn; try clia; vm_compute; done.
  - constructor; [right; cbn; lia|constructor].
Defined.

(** ** Tags of size zero *)

(** A walk that cannot end at the tag after [ts] cannot end before. *)
Lemma tag_loop_stuck ts tail : forall fuel pre g,
  Forall btag_wf ts ->
  (forall fuel pre g, tag_loop fuel (pre ++ tail) (Z.of_nat (length pre)) g = Err NoFuel) ->
  tag_loop fuel (pre ++ (ts ≫= btag_bytes) ++ tail) (Z.of_nat (length pre)) g = Err NoFuel.
Proof.
  induction ts as [|t ts IH]; intros fuel pre g Hwf Hstuck; [apply Hstuck|].
  destruct fuel as [|fuel]; [done|]. cbn [tag_loop]. apply Forall_cons_1 in Hwf as [Ht Hts].
  cbn [mbind list_bind]. rewrite <- app_assoc.
  destruct (tag_header pre t (mbind btag_bytes ts ++ tail) Ht) as [-> ->]. cbn [mbind res_bind].
  rewrite (proj2 (Z.eqb_neq _ _)) by (by apply btag_type_not_end). rewrite tag_switch_spec by done.
  unfold fuelled. case_decide; [|done]. cbn [mbind res_bind].
  rewrite next_tag_spec, app_assoc. by apply IH.
Qed.

(** The bytes of a struct after the header: enough for any of the three the walk
    reads. *)
Definition tag_room : Z := off_vbe_mode_info + Z.of_nat sizeof_modeinfo - 8.

(** A size of zero: no entry of a memory map is visited, and the two other structs
    are read inside the block. *)
Lemma tag_switch_zero fuel pre ty rest g :
  tag_room <= Z.of_nat (length rest) ->
  (exists g', tag_switch fuel (pre ++ le_bytes 4 ty ++ le_bytes 4 0 ++ rest) (Z.of_nat (length pre)) ty 0 g = Ok g') \/
  tag_switch fuel (pre ++ le_bytes 4 ty ++ le_bytes 4 0 ++ rest) (Z.of_nat (length pre)) ty 0 g = Err NoFuel.
Proof.
  intros Hroom. unfold tag_room, off_vbe_mode_info in Hroom. change (Z.of_nat sizeof_modeinfo) with 255 in Hroom. unfold tag_switch.
  destruct (ty =? tag_type_code TAG_VBE).
  { left. rewrite decide_True; [by eexists|]. unfold off_vbe_mode_info. change (Z.of_nat sizeof_modeinfo) with 255.
    rewrite !length_app, !length_le_bytes. lia. }
  destruct (ty =? tag_type_code TAG_FRAMEBUFFER).
  { left. destruct (0 <? XResolution (modeinfo g)); [|by eexists]. unfold le_read, off_framebuffer_addr.
    rewrite decide_True by (rewrite !length_app, !length_le_bytes; lia). by eexists. }
  destruct (ty =? tag_type_code TAG_MMAP); [|left; by eexists].
  destruct fuel as [|fuel]; [by right|]. left. cbn [mmap_loop]. unfold off_entries.
  rewrite (proj2 (Z.ltb_ge _ _)) by lia. by eexists.
Qed.

(** C35. The walk trusts the tag sizes: when any tag but the end tag, of whatever type
    and after any well-formed tags, has the size zero and the block is long enough for
    the struct of its type, the walk comes back to that tag for ever; no amount of fuel
    gives a result. *)
Theorem get_multiboot_info_zero_size (ptr total ty : Z) (ts : list btag) (rest : list Z)
    (g : boot_globals) (fuel : nat) :
  ptr <> 0 -> in_u 32 total -> Forall btag_wf ts ->
  in_u 32 ty -> ty <> tag_type_code TAG_END -> tag_room <= Z.of_nat (length rest) ->
  get_multiboot_info fuel ptr
    (le_bytes 4 total ++ le_bytes 4 0 ++ (ts ≫= btag_bytes) ++ le_bytes 4 ty ++ le_bytes 4 0 ++ rest) g
  = Err NoFuel.
Proof.
  intros Hp Ht Hwf Hty Hend Hroom. unfold get_multiboot_info.
  rewrite (proj2 (Z.eqb_neq _ _) Hp), le_read_here by exact Ht. cbn [mbind res_bind].
  rewrite app_assoc. change 8 with (Z.of_nat (length (le_bytes 4 total ++ le_bytes 4 0))).
  apply tag_loop_stuck; [done|]. clear fuel g. induction fuel as [|fuel IH]; intros pre g; [done|]. cbn [tag_loop].
  rewrite !le_read_skip by (unfold off_type, off_size; lia). unfold off_type, off_size.
  rewrite le_read_here by exact Hty. cbn [mbind res_bind]. rewrite (proj2 (Z.eqb_neq _ _) Hend).
  rewrite le_read_next, (le_read_here 4 0) by (lia || (change (256 ^ Z.of_nat 4) with (2 ^ 32); lia)).
  cbn [mbind res_bind]. destruct (tag_switch_zero fuel pre ty rest g Hroom) as [[g' ->]| ->]; [|done].
  cbn [mbind res_bind]. change (next_tag (Z.of_nat (length pre)) 0) with (Z.of_nat (length pre) + 0).
  rewrite Z.add_0_r. apply IH.
Qed.

(** Witness of C35: a memory map of size zero after a tag with a string. *)
Lemma get_multiboot_info_zero_size_witness :
  get_multiboot_info 1000 0x10000
    (le_bytes 4 64 ++ le_bytes 4 0 ++ ([BOther 2 [71; 82; 85; 66; 0]] ≫= btag_bytes) ++
     le_bytes 4 6 ++ le_bytes 4 0 ++ replicate 775 0) globals_init
  = Err NoFuel.
Proof.
  apply (get_multiboot_info_zero_size 0x10000 64 6 [BOther 2 [71; 82; 85; 66; 0]] (replicate 775 0) globals_init 1000);
    [lia|clia| |clia|done|vm_compute; discriminate].
  repeat constructor; vm_compute; done.
Defined.
