(* ===== verification/Display.v ===== *)
(** * The display ([src/src/luakernel.c]: [putpixel], [clear_screen],
      [swap_buffers])

    The back buffer and the frame buffer are byte arrays; [putpixel] computes
    a byte index with the 32-bit arithmetic of the source and stores four
    bytes.  A store outside the back buffer is [Err Undefined]. *)

From S2P Require Import Prelude Vbe.

Record display := Display {
  d_mode : VBEModeInfoBlock;    (* modeinfo *)
  d_buffer : list Z;            (* display_buffer *)
  d_len : Z;                    (* display_buffer_len *)
  d_fb : list Z;                (* the memory at fbmem *)
  d_traps : nat;                (* calls of trap() *)
}.

(** A Lua number argument converted to [u32]; the argument is the number
    truncated to an integer, and C leaves the conversion undefined outside the
    range of [u32]. *)
Definition tonumber_u32 (n : Z) : res Z :=
  if decide (in_u 32 n) then Ok n else Err Undefined.

(** Four consecutive byte stores at [i]. *)
Definition store4 (buf : list Z) (i b0 b1 b2 b3 : Z) : res (list Z) :=
  if decide (0 <= i /\ i + 4 <= Z.of_nat (length buf))
  then Ok (take (Z.to_nat i) buf ++ [b0; b1; b2; b3] ++ drop (Z.to_nat i + 4) buf)
  else Err Undefined.

(** [(y * BytesPerScanLine) + (x * bytes_per_pixel)] in [u32]. *)
Definition pixel_index (mode : VBEModeInfoBlock) (x y : Z) : Z :=
  let bytes_per_pixel := BitsPerPixel mode / 8 in
  u32 (u32 (y * BytesPerScanLine mode) + u32 (x * bytes_per_pixel)).

(** [YResolution * BytesPerScanLine], an [int] product of two [u16]. *)
Definition buffer_bytes (mode : VBEModeInfoBlock) : res Z :=
  let p := YResolution mode * BytesPerScanLine mode in
  if decide (in_s 32 p) then Ok p else Err Undefined.

Definition putpixel (x y r g b : Z) (d : display) : res display :=
  x ← tonumber_u32 x; y ← tonumber_u32 y;
  r ← tonumber_u32 r; g ← tonumber_u32 g; b ← tonumber_u32 b;
  let i := pixel_index (d_mode d) x y in
  e ← buffer_bytes (d_mode d);
  if i <? e then
    buf ← store4 (d_buffer d) i (u8 b) (u8 g) (u8 r) 0;
    Ok (Display (d_mode d) buf (d_len d) (d_fb d) (d_traps d))
  else Ok (Display (d_mode d) (d_buffer d) (d_len d) (d_fb d) (S (d_traps d))).

(** [memset(display_buffer, 0, display_buffer_len)]. *)
Definition clear_screen (d : display) : res display :=
  if decide (d_len d <= Z.of_nat (length (d_buffer d))) then
    Ok (Display (d_mode d)
          (replicate (Z.to_nat (d_len d)) 0 ++ drop (Z.to_nat (d_len d)) (d_buffer d))
          (d_len d) (d_fb d) (d_traps d))
  else Err Undefined.

(** [memcpy(fbmem, display_buffer, display_buffer_len)], then clear. *)
Definition swap_buffers (d : display) : res display :=
  if decide (d_len d <= Z.of_nat (length (d_buffer d)) /\
             d_len d <= Z.of_nat (length (d_fb d))) then
    clear_screen
      (Display (d_mode d) (d_buffer d) (d_len d)
         (take (Z.to_nat (d_len d)) (d_buffer d) ++ drop (Z.to_nat (d_len d)) (d_fb d))
         (d_traps d))
  else Err Undefined.

(** The display part of [main]: the length, the allocation of the buffer (its
    contents [fresh] are indeterminate) and the first clear. *)
Definition display_init (mode : VBEModeInfoBlock) (fresh fb : list Z) : res display :=
  p ← buffer_bytes mode;
  let len := u32 p in
  if decide (Z.of_nat (length fresh) = len)
  then clear_screen (Display mode fresh len fb 0)
  else Err Undefined.

(** ** Well-formed displays

    A linear 32-bit mode whose scan lines hold the visible pixels, and buffers
    of the size [main] and the boot loader give them. *)
Record mode32 (mode : VBEModeInfoBlock) : Prop := {
  m_bpp : BitsPerPixel mode = 32;
  m_pitch : 4 * XResolution mode <= BytesPerScanLine mode;
  m_align : BytesPerScanLine mode mod 4 = 0;
  m_x : 0 <= XResolution mode;
  m_y : 0 <= YResolution mode;
  m_size : YResolution mode * BytesPerScanLine mode < 2 ^ 31;
}.

Record display_wf (d : display) : Prop := {
  wf_mode : mode32 (d_mode d);
  wf_len : d_len d = YResolution (d_mode d) * BytesPerScanLine (d_mode d);
  wf_buffer : Z.of_nat (length (d_buffer d)) = d_len d;
  wf_fb : d_len d <= Z.of_nat (length (d_fb d));
}.

(** The colour shown at a visible pixel: blue, green, red in memory order. *)
Definition pixel_at (buf : list Z) (mode : VBEModeInfoBlock) (x y : Z) : list Z :=
  take 3 (drop (Z.to_nat (y * BytesPerScanLine mode + 4 * x)) buf).

Definition visible (mode : VBEModeInfoBlock) (x y : Z) : Prop :=
  0 <= x < XResolution mode /\ 0 <= y < YResolution mode.

(** ** Facts *)

Lemma tonumber_u32_ok n : in_u 32 n -> tonumber_u32 n = Ok n.
Proof. intros. unfold tonumber_u32. by rewrite decide_True. Qed.

Lemma store4_ok buf i b0 b1 b2 b3 :
  0 <= i -> i + 4 <= Z.of_nat (length buf) ->
  store4 buf i b0 b1 b2 b3 =
    Ok (take (Z.to_nat i) buf ++ [b0; b1; b2; b3] ++ drop (Z.to_nat i + 4) buf).
Proof. intros. unfold store4. by rewrite decide_True. Qed.

Lemma length_store4 buf i b0 b1 b2 b3 buf' :
  store4 buf i b0 b1 b2 b3 = Ok buf' -> length buf' = length buf.
Proof.
  unfold store4. case_decide; [|done]. intros [= <-].
  rewrite length_app, length_take. cbn [app length]. rewrite length_drop. lia.
Qed.

(** Reading [n] bytes at [j] after storing four at [i]. *)
Lemma store4_read_same buf i b0 b1 b2 b3 buf' :
  store4 buf i b0 b1 b2 b3 = Ok buf' ->
  take 4 (drop (Z.to_nat i) buf') = [b0; b1; b2; b3].
Proof.
  unfold store4. case_decide; [|done]. intros [= <-].
  rewrite drop_app_length' by (rewrite length_take; lia). done.
Qed.

Lemma store4_read_other buf i b0 b1 b2 b3 buf' j (n : nat) :
  store4 buf i b0 b1 b2 b3 = Ok buf' -> 0 <= j ->
  j + Z.of_nat n <= i \/ i + 4 <= j ->
  take n (drop (Z.to_nat j) buf') = take n (drop (Z.to_nat j) buf).
Proof.
  unfold store4. case_decide as Hd; [|done]. intros [= <-] Hj [Hlt|Hge].
  - rewrite drop_app_le, take_app_le by (rewrite ?length_drop, ?length_take; lia).
    replace (Z.to_nat i) with (Z.to_nat j + (Z.to_nat i - Z.to_nat j))%nat by lia.
    rewrite <- take_drop_commute, take_take. f_equal. lia.
  - rewrite drop_app_ge, length_take by (rewrite length_take; lia).
    replace (Z.to_nat j - Z.to_nat i `min` length buf)%nat
      with (4 + (Z.to_nat j - Z.to_nat i - 4))%nat by lia.
    cbn [app Nat.add drop]. rewrite drop_drop. do 2 f_equal. lia.
Qed.

Lemma buffer_bytes_ok mode :
  mode32 mode -> buffer_bytes mode = Ok (YResolution mode * BytesPerScanLine mode).
Proof.
  intros [??????]. unfold buffer_bytes. rewrite decide_True; [done|].
  unfold in_s. change (2 ^ (32 - 1)) with (2 ^ 31). nia.
Qed.

(** Indices of a 32-bit mode are multiples of 4. *)
Lemma pixel_index_mod4 mode x y : mode32 mode -> pixel_index mode x y mod 4 = 0.
Proof.
  intros [Hb _ Ha _ _ _]. unfold pixel_index, wrap. rewrite Hb.
  change (32 / 8) with 4. change (2 ^ 32) with (1073741824 * 4).
  assert (forall z, z mod (1073741824 * 4) mod 4 = z mod 4) as Hm by (intros; dlia).
  rewrite Hm, Zplus_mod, !Hm, Zmult_mod, Ha, Z.mul_0_r, Z_mod_mult. done.
Qed.

Lemma pixel_index_visible mode x y :
  mode32 mode -> visible mode x y ->
  pixel_index mode x y = y * BytesPerScanLine mode + 4 * x /\
  y * BytesPerScanLine mode + 4 * x + 4 <= YResolution mode * BytesPerScanLine mode /\
  0 <= y * BytesPerScanLine mode + 4 * x.
Proof.
  intros [Hb Hp Ha Hx Hy Hs] [Hvx Hvy]. unfold pixel_index. rewrite Hb.
  change (32 / 8) with 4.
  assert (0 <= y * BytesPerScanLine mode) by nia.
  assert (y * BytesPerScanLine mode + BytesPerScanLine mode
    <= YResolution mode * BytesPerScanLine mode) by nia.
  rewrite (wrap_small 32 (y * _)), (wrap_small 32 (x * 4)) by clia.
  rewrite wrap_small by clia. split_and!; lia.
Qed.

(** Two different visible pixels do not share a byte. *)
Lemma visible_disjoint mode x y x' y' :
  mode32 mode -> visible mode x y -> visible mode x' y' -> (x, y) <> (x', y') ->
  let p := BytesPerScanLine mode in
  y * p + 4 * x + 4 <= y' * p + 4 * x' \/ y' * p + 4 * x' + 4 <= y * p + 4 * x.
Proof.
  intros [_ Hp _ _ _ _] [Hx Hy] [Hx' Hy'] Hne. cbn zeta.
  destruct (Z.lt_trichotomy y y') as [Hlt|[->|Hgt]]; [nia| |nia].
  assert (x <> x') by congruence. lia.
Qed.

Lemma putpixel_unfold d x y r g b :
  display_wf d -> in_u 32 x -> in_u 32 y -> in_u 32 r -> in_u 32 g -> in_u 32 b ->
  let i := pixel_index (d_mode d) x y in
  putpixel x y r g b d =
  if i <? d_len d then
    buf ← store4 (d_buffer d) i (u8 b) (u8 g) (u8 r) 0;
    Ok (Display (d_mode d) buf (d_len d) (d_fb d) (d_traps d))
  else Ok (Display (d_mode d) (d_buffer d) (d_len d) (d_fb d) (S (d_traps d))).
Proof.
  intros [Hm Hl _ _] Hx Hy Hr Hg Hb. cbn zeta. unfold putpixel.
  rewrite !tonumber_u32_ok by done. cbn [mbind res_bind].
  rewrite buffer_bytes_ok by done. cbn [mbind res_bind]. by rewrite Hl.
Qed.

(** Coordinates on the screen are in the range of the C argument. *)
Lemma visible_u32 mode x y : mode32 mode -> visible mode x y -> in_u 32 x /\ in_u 32 y.
Proof.
  intros [_ Hp _ _ _ Hs] [Hx Hy]. unfold in_u. pow2.
  assert (4 <= BytesPerScanLine mode) by lia.
  split; [|nia]. assert (BytesPerScanLine mode <= YResolution mode * BytesPerScanLine mode) by nia. lia.
Qed.

(** [putpixel] of a visible pixel, with what it leaves alone. *)
Lemma putpixel_visible d x y r g b :
  display_wf d -> visible (d_mode d) x y -> in_u 32 r -> in_u 32 g -> in_u 32 b ->
  exists d', putpixel x y r g b d = Ok d' /\ display_wf d' /\
    d_mode d' = d_mode d /\ d_fb d' = d_fb d /\ d_traps d' = d_traps d /\
    forall x' y', visible (d_mode d) x' y' ->
      pixel_at (d_buffer d') (d_mode d') x' y' =
        if decide ((x, y) = (x', y')) then [u8 b; u8 g; u8 r]
        else pixel_at (d_buffer d) (d_mode d) x' y'.
Proof.
  intros Hwf Hv Hr Hg Hb. pose proof Hwf as [Hm Hl Hbuf Hfb].
  destruct (visible_u32 _ x y Hm Hv) as [Hx Hy]. rewrite putpixel_unfold by done.
  destruct (pixel_index_visible _ x y Hm Hv) as (-> & Hin & H0).
  rewrite (proj2 (Z.ltb_lt _ _)) by lia.
  destruct (store4 (d_buffer d) _ _ _ _ _) as [buf|] eqn:E.
  2: { rewrite store4_ok in E by lia. done. }
  cbn [mbind res_bind]. eexists. split; [done|].
  split; [split; cbn; [done|done|by rewrite (length_store4 _ _ _ _ _ _ _ E)|done]|].
  do 3 (split; [done|]). intros x' y' Hv'. destruct (pixel_index_visible _ x' y' Hm Hv') as (_ & _ & H0').
  cbn [d_buffer d_mode]. unfold pixel_at. case_decide as Hd.
  - injection Hd as <- <-. apply store4_read_same in E.
    assert (forall l : list Z, take 3 l = take 3 (take 4 l)) as Ht
      by (intros l; by rewrite take_take).
    by rewrite Ht, E.
  - eapply store4_read_other; [exact E|lia|].
    pose proof (visible_disjoint _ _ _ _ _ Hm Hv Hv' Hd). cbn zeta in *. lia.
Qed.

(** C30. What [putpixel] does with any integers, on a display in a linear 32-bit mode.
    With five [u32] arguments, on or off the screen, it has no undefined behaviour: it
    never stores outside the back buffer, keeps the display well formed, does not touch
    the frame buffer, and calls [trap] exactly when the byte index is past the end.  An
    argument that is negative or [2^32] or more has undefined behaviour: the source
    converts the [lua_Number] to [u32] by assignment. *)
Theorem putpixel_safe (d : display) (x y r g b : Z) :
  display_wf d ->
  (Forall (in_u 32) [x; y; r; g; b] ->
   exists d', putpixel x y r g b d = Ok d' /\ display_wf d' /\ d_fb d' = d_fb d /\
     d_traps d' = (if pixel_index (d_mode d) x y <? d_len d then d_traps d else S (d_traps d))) /\
  (~ Forall (in_u 32) [x; y; r; g; b] -> putpixel x y r g b d = Err Undefined).
Proof.
  intros Hwf. split.
  - intros Hall. rewrite !Forall_cons in Hall. destruct Hall as (Hx & Hy & Hr & Hg & Hb & _). rewrite putpixel_unfold by done.
    destruct Hwf as [Hm Hl Hbuf Hfb].
    destruct (Z.ltb_spec (pixel_index (d_mode d) x y) (d_len d)) as [Hlt|_].
    2: { eexists. split; [done|]. split; [|done]. split; done. }
    pose proof (pixel_index_mod4 _ x y Hm) as H4.
    assert (0 <= pixel_index (d_mode d) x y) by (apply wrap_range; lia).
    assert (d_len d mod 4 = 0) as Hl4.
    { rewrite Hl, Zmult_mod, (m_align _ Hm), Z.mul_0_r. done. }
    rewrite store4_ok by dlia. cbn [mbind res_bind]. eexists. split; [done|].
    split; [|done]. split; cbn [d_mode d_len d_buffer d_fb]; [done|done| |done].
    rewrite <- Hbuf. f_equal. eapply length_store4. apply store4_ok; dlia.
  - intros Hn. unfold putpixel, tonumber_u32. destruct (decide (in_u 32 x)); [|done]. destruct (decide (in_u 32 y)); [|done]. destruct (decide (in_u 32 r)); [|done]. destruct (decide (in_u 32 g)); [|done]. destruct (decide (in_u 32 b)); [|done]. destruct Hn. do 5 (constructor; [done|]). constructor.
Qed.

(** [putpixel] on a visible pixel changes exactly that pixel: its colour
    becomes the low bytes of the arguments, every other visible pixel keeps its
    colour, and no debugger trap is raised. *)
Theorem putpixel_refines (d : display) (x y r g b x' y' : Z) :
  display_wf d -> visible (d_mode d) x y -> visible (d_mode d) x' y' ->
  in_u 32 x -> in_u 32 y -> in_u 32 r -> in_u 32 g -> in_u 32 b ->
  exists d', putpixel x y r g b d = Ok d' /\ d_traps d' = d_traps d /\
    pixel_at (d_buffer d') (d_mode d') x' y' =
      if decide ((x, y) = (x', y')) then [u8 b; u8 g; u8 r]
      else pixel_at (d_buffer d) (d_mode d) x' y'.
Proof.
  intros Hwf Hv Hv' Hx Hy Hr Hg Hb.
  destruct (putpixel_visible d x y r g b Hwf Hv Hr Hg Hb) as (d' & E & _ & _ & _ & Ht & Hp).
  exists d'. split; [done|]. split; [done|]. by apply Hp.
Qed.

(** A tiny mode for the examples: [w] x [h] pixels, [bpp] bits, [pitch] bytes. *)
Definition tiny_mode (w h bpp pitch : Z) : VBEModeInfoBlock :=
  load_modeinfo (replicate 16 0 ++ le_bytes 2 pitch ++ le_bytes 2 w ++
    le_bytes 2 h ++ [8; 16; 1; bpp] ++ replicate 230 0).

Definition tiny_display : display :=
  Display (tiny_mode 2 2 32 8) (replicate 16 7) 16 (replicate 16 1) 0.

Lemma tiny_display_wf : display_wf tiny_display.
Proof. split; [split|..]; vm_compute; done. Qed.

(** Witness of C30: a pixel far outside the screen, and a negative coordinate. *)
Lemma putpixel_safe_witness :
  (exists d', putpixel 4294967295 4294967295 0 0 0 tiny_display = Ok d' /\ display_wf d' /\ d_fb d' = d_fb tiny_display /\ d_traps d' = 1%nat) /\
  putpixel (-1) 0 0 0 0 tiny_display = Err Undefined.
Proof.
  split.
  - apply (putpixel_safe tiny_display 4294967295 4294967295 0 0 0); [exact tiny_display_wf|]. repeat constructor; clia.
  - apply (putpixel_safe tiny_display (-1) 0 0 0 0); [exact tiny_display_wf|]. intros Hf. apply Forall_cons_1 in Hf as [[Hf _] _]. lia.
Defined.

(** Example: painting (1,0) and reading (0,1). *)
Lemma putpixel_refines_witness :
  exists d', putpixel 1 0 255 128 64 tiny_display = Ok d' /\
    d_traps d' = d_traps tiny_display /\
    pixel_at (d_buffer d') (d_mode d') 0 1 = [7; 7; 7].
Proof.
  apply (putpixel_refines tiny_display 1 0 255 128 64 0 1);
    [exact tiny_display_wf|split; vm_compute; done..|clia|clia|clia|clia|clia].
Defined.

(** [putpixel] does not clip: in a mode without padding at the end of a
    scan line, drawing one pixel right of the visible area of a line draws the
    first pixel of the next line. *)
Theorem putpixel_no_clipping (d : display) (y r g b : Z) :
  display_wf d -> BytesPerScanLine (d_mode d) = 4 * XResolution (d_mode d) ->
  0 <= y -> y + 1 < YResolution (d_mode d) -> YResolution (d_mode d) < 2 ^ 16 ->
  XResolution (d_mode d) < 2 ^ 16 ->
  putpixel (XResolution (d_mode d)) y r g b d = putpixel 0 (y + 1) r g b d.
Proof.
  intros [[Hb Hp _ Hx _ Hs] _ _ _] Hpitch Hy Hy' HY HX. unfold putpixel.
  rewrite !(tonumber_u32_ok (XResolution _)), !(tonumber_u32_ok y),
    !(tonumber_u32_ok 0), !(tonumber_u32_ok (y + 1)) by clia.
  cbn [mbind res_bind].
  assert (pixel_index (d_mode d) (XResolution (d_mode d)) y =
          pixel_index (d_mode d) 0 (y + 1)) as ->; [|done].
  unfold pixel_index. rewrite Hb. change (32 / 8) with 4. rewrite Hpitch in *.
  unfold wrap. rewrite <- !Zplus_mod. f_equal. lia.
Qed.

(** Example. *)
Lemma putpixel_no_clipping_witness :
  putpixel 2 0 9 9 9 tiny_display = putpixel 0 1 9 9 9 tiny_display.
Proof.
  apply (putpixel_no_clipping tiny_display 0 9 9 9);
    [exact tiny_display_wf|vm_compute; done..].
Defined.

(** In a packed 24-bit mode [putpixel] stores one byte too many: on the
    last pixel of the screen it writes past the end of the back buffer. *)
Theorem putpixel_24bit_overflow (d : display) (r g b : Z) :
  let m := d_mode d in
  BitsPerPixel m = 24 -> BytesPerScanLine m = 3 * XResolution m ->
  0 < XResolution m < 2 ^ 16 -> 0 < YResolution m < 2 ^ 16 ->
  YResolution m * BytesPerScanLine m < 2 ^ 31 ->
  Z.of_nat (length (d_buffer d)) = YResolution m * BytesPerScanLine m ->
  in_u 32 r -> in_u 32 g -> in_u 32 b ->
  putpixel (XResolution m - 1) (YResolution m - 1) r g b d = Err Undefined.
Proof.
  intros m Hbpp Hp Hx Hy Hs Hlen Hr Hg Hb. unfold putpixel. fold m.
  rewrite !tonumber_u32_ok by (done || clia). cbn [mbind res_bind].
  unfold buffer_bytes. rewrite decide_True by (unfold in_s; change (2 ^ (32 - 1)) with (2 ^ 31); nia).
  cbn [mbind res_bind].
  assert (pixel_index m (XResolution m - 1) (YResolution m - 1) =
    YResolution m * BytesPerScanLine m - 3) as ->.
  { unfold pixel_index. rewrite Hbpp. change (24 / 8) with 3. rewrite Hp in *.
    assert (0 <= (YResolution m - 1) * (3 * XResolution m)) by nia.
    rewrite (wrap_small 32 ((YResolution m - 1) * _)),
      (wrap_small 32 ((XResolution m - 1) * 3)) by clia.
    rewrite wrap_small by clia. lia. }
  rewrite (proj2 (Z.ltb_lt _ _)) by lia. unfold store4.
  rewrite decide_False by lia. done.
Qed.

(** Example. *)
Lemma putpixel_24bit_overflow_witness :
  putpixel 1 1 0 0 0 (Display (tiny_mode 2 2 24 6) (replicate 12 0) 12 [] 0) = Err Undefined.
Proof.
  apply (putpixel_24bit_overflow (Display (tiny_mode 2 2 24 6) (replicate 12 0) 12 [] 0) 0 0 0);
    vm_compute; (done || split; done).
Defined.

Lemma clear_screen_wf d :
  display_wf d ->
  clear_screen d =
    Ok (Display (d_mode d) (replicate (length (d_buffer d)) 0) (d_len d) (d_fb d) (d_traps d)).
Proof.
  intros [Hm Hl Hb Hf]. unfold clear_screen. rewrite decide_True by lia.
  rewrite drop_ge, app_nil_r by lia. do 3 f_equal. lia.
Qed.

Lemma swap_buffers_ok d :
  display_wf d ->
  exists d', swap_buffers d = Ok d' /\ display_wf d' /\ d_traps d' = d_traps d /\
    d_fb d' = d_buffer d ++ drop (length (d_buffer d)) (d_fb d) /\
    d_buffer d' = replicate (length (d_buffer d)) 0.
Proof.
  intros Hwf. pose proof Hwf as [Hm Hl Hb Hf]. unfold swap_buffers.
  rewrite decide_True by lia.
  replace (Z.to_nat (d_len d)) with (length (d_buffer d)) by lia.
  rewrite take_ge by lia. set (fb' := d_buffer d ++ _).
  assert (Z.of_nat (length fb') = Z.of_nat (length (d_fb d))) as Hfb'.
  { unfold fb'. rewrite length_app, length_drop. lia. }
  rewrite clear_screen_wf by (split; cbn; (done || lia)).
  eexists. split; [done|]. cbn. split; [|done].
  split; cbn; [done|done|rewrite length_replicate; lia|lia].
Qed.

(** [swap_buffers] shows the frame that was drawn: the frame buffer gets
    the back buffer byte for byte (and keeps what lies beyond it), the back
    buffer becomes all zero, and the display stays well formed. *)
Theorem swap_buffers_correct (d : display) :
  display_wf d ->
  exists d', swap_buffers d = Ok d' /\ display_wf d' /\
    d_fb d' = d_buffer d ++ drop (length (d_buffer d)) (d_fb d) /\
    d_buffer d' = replicate (length (d_buffer d)) 0.
Proof.
  intros Hwf. destruct (swap_buffers_ok d Hwf) as (d' & E & Hwf' & _ & Hfb & Hb). by exists d'.
Qed.

(** Example. *)
Lemma swap_buffers_correct_witness :
  exists d', swap_buffers tiny_display = Ok d' /\ display_wf d' /\
    d_fb d' = replicate 16 7 /\ d_buffer d' = replicate 16 0.
Proof. exact (swap_buffers_correct tiny_display tiny_display_wf). Defined.

(** [display_init] establishes the invariant of the other operations. *)
Lemma display_init_wf mode fresh fb :
  mode32 mode -> Z.of_nat (length fresh) = YResolution mode * BytesPerScanLine mode ->
  Z.of_nat (length fresh) <= Z.of_nat (length fb) ->
  exists d, display_init mode fresh fb = Ok d /\ display_wf d /\
    d_buffer d = replicate (length fresh) 0.
Proof.
  intros Hm Hlen Hfb. unfold display_init. rewrite buffer_bytes_ok by done.
  cbn [mbind res_bind]. pose proof Hm as [_ Hp _ Hx Hy Hs].
  rewrite wrap_small by clia. rewrite decide_True by done.
  rewrite clear_screen_wf by (split; cbn; (done || lia)).
  eexists. split; [done|]. cbn. split; [|done].
  split; cbn; [done|done|rewrite length_replicate; lia|lia].
Qed.
