(* ===== verification/Interrupts.v ===== *)
(** * Interrupt handling ([src/src/luakernel.c]: [handle_interrupt],
      [lua_get_timer_ticks], [lua_get_keyboard_interrupt]; the PIC set-up of
      [src/src/init.S])

    The interrupt handler and the Lua-callable readers share three globals: the
    tick counter and the scan-code array with its length.  The handler runs
    with interrupts disabled (the gates of [Idt] are interrupt gates); the
    reader is a sequence of machine steps between which an interrupt can arrive
    whenever the interrupt flag is set. *)

From S2P Require Import Prelude.

Inductive io_event :=
| Out (port value : Z)
| In (port value : Z).

Record irq_state := Irq {
  timer_ticks : Z;            (* u64 *)
  scancode_queue : list Z;    (* u32 keyboard_scancode_queue[8] *)
  queue_len : Z;              (* u32 keyboard_scancode_queue_len *)
  io_trace : list io_event;   (* port accesses, oldest first *)
  traps : nat;                (* calls of trap() *)
}.

Definition QUEUE_MAX : nat := 8.

Definition irq_init : irq_state := Irq 0 (replicate QUEUE_MAX 0) 0 [] 0.

Definition outb (port value : Z) (s : irq_state) : irq_state :=
  Irq (timer_ticks s) (scancode_queue s) (queue_len s)
    (io_trace s ++ [Out port value]) (traps s).

Definition inb (port value : Z) (s : irq_state) : irq_state :=
  Irq (timer_ticks s) (scancode_queue s) (queue_len s)
    (io_trace s ++ [In port value]) (traps s).

Definition trap (s : irq_state) : irq_state :=
  Irq (timer_ticks s) (scancode_queue s) (queue_len s) (io_trace s) (S (traps s)).

(** The body of the keyboard case between the [inb] and the [outb]. *)
Definition enqueue (scancode : Z) (s : irq_state) : irq_state :=
  if queue_len s <? Z.of_nat QUEUE_MAX then
    Irq (timer_ticks s) (<[Z.to_nat (queue_len s) := scancode]> (scancode_queue s))
      (u32 (queue_len s + 1)) (io_trace s) (traps s)
  else s.

(** [handle_interrupt(n)]; [dev] is the value [inb(0x60)] returns. *)
Definition handle_interrupt (n dev : Z) (s : irq_state) : res irq_state :=
  if n =? 13 then Ok (trap s)
  else if n =? 14 then Ok (trap s)
  else if n =? 32 then
    Ok (outb 0x20 0x20
          (Irq (u64 (timer_ticks s + 1)) (scancode_queue s) (queue_len s)
             (io_trace s) (traps s)))
  else if n =? 33 then
    let s := inb 0x60 dev s in
    Ok (outb 0x20 0x20 (enqueue dev s))
  else if n =? 44 then
    Ok (outb 0x20 0x20 (outb 0xa0 0x20 (inb 0x60 dev s)))
  else Err Hang.

(** [lua_get_timer_ticks]: [lua_Integer] is a signed 64-bit [ptrdiff_t]. *)
Definition get_timer_ticks (s : irq_state) : Z := s64 (timer_ticks s).

(** [lua_get_keyboard_interrupt] run without interruption: the Lua array it
    returns and the new state. *)
Fixpoint read_codes (n : nat) (s : irq_state) : list Z :=
  match n with
  | O => []
  | S n' => read_codes n' s ++ [default 0 (scancode_queue s !! n')]
  end.

Definition reset_len (s : irq_state) : irq_state :=
  Irq (timer_ticks s) (scancode_queue s) 0 (io_trace s) (traps s).

Definition get_keyboard_interrupt (s : irq_state) : list Z * irq_state :=
  (read_codes (Z.to_nat (queue_len s)) s, reset_len s).

(** ** The abstract queue: at most eight pending scan codes, new ones dropped *)

Definition irq_wf (s : irq_state) : Prop :=
  length (scancode_queue s) = QUEUE_MAX /\ 0 <= queue_len s <= Z.of_nat QUEUE_MAX /\
  in_u 64 (timer_ticks s).

Definition pending (s : irq_state) : list Z :=
  take (Z.to_nat (queue_len s)) (scancode_queue s).

Definition spec_push (c : Z) (q : list Z) : list Z :=
  if decide (length q < QUEUE_MAX)%nat then q ++ [c] else q.

Lemma pending_length s : irq_wf s -> length (pending s) = Z.to_nat (queue_len s).
Proof.
  intros (H1 & H2 & _). unfold pending. rewrite length_take, H1. lia.
Qed.

Lemma read_codes_take n s :
  (n <= length (scancode_queue s))%nat -> read_codes n s = take n (scancode_queue s).
Proof.
  induction n as [|n IH]; intros Hn; [done|]. cbn [read_codes].
  rewrite IH by lia. destruct (lookup_lt_is_Some_2 (scancode_queue s) n) as [c Hc]; [lia|].
  rewrite Hc. cbn [default]. symmetry. by apply take_S_r.
Qed.

Lemma enqueue_spec c s :
  irq_wf s -> irq_wf (enqueue c s) /\ pending (enqueue c s) = spec_push c (pending s).
Proof.
  intros Hwf. pose proof Hwf as (H1 & H2 & H3). pose proof (pending_length s Hwf) as Hp.
  unfold enqueue, spec_push. rewrite Hp.
  destruct (Z.ltb_spec (queue_len s) (Z.of_nat QUEUE_MAX)) as [Hlt|Hge].
  - rewrite decide_True by lia. unfold QUEUE_MAX in *.
    rewrite wrap_small by clia. split.
    + split; cbn; [by rewrite length_insert|]. split; [unfold QUEUE_MAX; lia|done].
    + unfold pending. cbn [queue_len scancode_queue].
      replace (Z.to_nat (queue_len s + 1)) with (S (Z.to_nat (queue_len s))) by lia.
      erewrite take_S_r; [|apply list_lookup_insert_eq; lia].
      by rewrite take_insert_ge by lia.
  - rewrite decide_False by lia. done.
Qed.

(** Port accesses and traps leave the queue and the counter alone. *)
Lemma outb_wf p v s : irq_wf s -> irq_wf (outb p v s).
Proof. done. Qed.
Lemma inb_wf p v s : irq_wf s -> irq_wf (inb p v s).
Proof. done. Qed.
Lemma trap_wf s : irq_wf s -> irq_wf (trap s).
Proof. done. Qed.

Create HintDb irq.
#[export] Hint Resolve outb_wf inb_wf trap_wf : irq.

(** What one interrupt does to the shared state. *)
Lemma handle_interrupt_spec n dev s s' :
  irq_wf s -> handle_interrupt n dev s = Ok s' ->
  irq_wf s' /\
  pending s' = (if n =? 33 then spec_push dev (pending s) else pending s) /\
  timer_ticks s' = (if n =? 32 then u64 (timer_ticks s + 1) else timer_ticks s).
Proof.
  intros Hwf. unfold handle_interrupt.
  destruct (Z.eqb_spec n 13) as [->|_]; [intros [= <-]; eauto with irq|].
  destruct (Z.eqb_spec n 14) as [->|_]; [intros [= <-]; eauto with irq|].
  destruct (Z.eqb_spec n 32) as [->|_].
  { intros [= <-]. pose proof Hwf as (H1 & H2 & H3).
    split; [|done]. split; [done|]. split; [done|]. apply wrap_range. lia. }
  destruct (Z.eqb_spec n 33) as [->|_].
  { intros [= <-]. destruct (enqueue_spec dev (inb 0x60 dev s)) as [Hw Hp]; [eauto with irq|].
    split; [eauto with irq|]. split; [exact Hp|].
    unfold enqueue. by case_match. }
  destruct (Z.eqb_spec n 44) as [->|_]; [intros [= <-]; eauto 10 with irq|done].
Qed.

(** The scan-code array behaves as a bounded queue: from a well-formed
    state a keyboard interrupt appends the code when fewer than eight are
    pending and drops it otherwise, and [lua_get_keyboard_interrupt] returns all
    pending codes in arrival order and leaves none. *)
Theorem keyboard_queue_refines (c : Z) (s : irq_state) :
  irq_wf s ->
  (exists s', handle_interrupt 33 c s = Ok s' /\ irq_wf s' /\
     pending s' = spec_push c (pending s)) /\
  (let '(codes, s') := get_keyboard_interrupt s in
   codes = pending s /\ pending s' = [] /\ irq_wf s').
Proof.
  intros Hwf. split.
  - eexists. split; [reflexivity|].
    destruct (handle_interrupt_spec 33 c s _ Hwf eq_refl) as (H1 & H2 & _). done.
  - cbn. destruct Hwf as (H1 & H2 & H3). split.
    + rewrite read_codes_take by (rewrite H1; lia). done.
    + split; [done|]. split; [done|]. cbn. split; [unfold QUEUE_MAX; lia|done].
Qed.

(** Example. *)
Lemma keyboard_queue_refines_witness :
  (exists s', handle_interrupt 33 0x1e irq_init = Ok s' /\ irq_wf s' /\
     pending s' = spec_push 0x1e (pending irq_init)) /\
  (let '(codes, s') := get_keyboard_interrupt irq_init in
   codes = pending irq_init /\ pending s' = [] /\ irq_wf s').
Proof.
  apply (keyboard_queue_refines 0x1e irq_init). split; [done|]. cbn. split; [lia|clia].
Defined.

(** ** Interleaving with the interrupt handler

    [lua_get_keyboard_interrupt] is [cli], create the table, the copying loop,
    reset of the length, [sti].  An interrupt is taken between two of these
    steps exactly when the interrupt flag is set. *)

Inductive pc :=
| PIdle                         (* outside the function *)
| PCreate                       (* after cli *)
| PLoop (i : Z) (acc : list Z)  (* in the loop, [acc] is the Lua array so far *)
| PReset (acc : list Z)         (* the loop is left *)
| PSti (acc : list Z).          (* the length is reset *)

Record machine := Machine {
  mc_irq : irq_state;
  mc_if : bool;                 (* the interrupt flag *)
  mc_pc : pc;
  mc_accepted : list Z;         (* history: codes stored by the handler *)
  mc_delivered : list Z;        (* history: codes returned to Lua *)
}.

Definition machine_init : machine := Machine irq_init true PIdle [] [].

(** One step of the reader. *)
Definition reader_step (m : machine) : machine :=
  match mc_pc m with
  | PIdle =>
      Machine (mc_irq m) false PCreate (mc_accepted m) (mc_delivered m)
  | PCreate =>
      Machine (mc_irq m) (mc_if m) (PLoop 0 []) (mc_accepted m) (mc_delivered m)
  | PLoop i acc =>
      if i <? queue_len (mc_irq m) then
        Machine (mc_irq m) (mc_if m)
          (PLoop (i + 1) (acc ++ [default 0 (scancode_queue (mc_irq m) !! Z.to_nat i)]))
          (mc_accepted m) (mc_delivered m)
      else Machine (mc_irq m) (mc_if m) (PReset acc) (mc_accepted m) (mc_delivered m)
  | PReset acc =>
      Machine (reset_len (mc_irq m)) (mc_if m) (PSti acc) (mc_accepted m) (mc_delivered m)
  | PSti acc =>
      Machine (mc_irq m) true PIdle (mc_accepted m) (mc_delivered m ++ acc)
  end.

(** The codes an interrupt adds to the array. *)
Definition accepted_by (n dev : Z) (s : irq_state) : list Z :=
  if (n =? 33) && (queue_len s <? Z.of_nat QUEUE_MAX) then [dev] else [].

Inductive machine_step : machine -> machine -> Prop :=
| ms_reader m : machine_step m (reader_step m)
| ms_interrupt m n dev s' :
    mc_if m = true ->
    handle_interrupt n dev (mc_irq m) = Ok s' ->
    machine_step m (Machine s' (mc_if m) (mc_pc m)
                      (mc_accepted m ++ accepted_by n dev (mc_irq m)) (mc_delivered m)).

(** The codes that are stored or on their way to Lua. *)
Definition in_flight (m : machine) : list Z :=
  match mc_pc m with
  | PSti acc => acc ++ pending (mc_irq m)
  | _ => pending (mc_irq m)
  end.

Definition machine_inv (m : machine) : Prop :=
  irq_wf (mc_irq m) /\
  mc_accepted m = mc_delivered m ++ in_flight m /\
  match mc_pc m with
  | PIdle => mc_if m = true
  | PCreate => mc_if m = false
  | PLoop i acc =>
      mc_if m = false /\ 0 <= i <= queue_len (mc_irq m) /\
      acc = take (Z.to_nat i) (scancode_queue (mc_irq m))
  | PReset acc => mc_if m = false /\ acc = pending (mc_irq m)
  | PSti acc => mc_if m = false /\ pending (mc_irq m) = []
  end.

Lemma machine_inv_init : machine_inv machine_init.
Proof.
  split; [|done]. split; [done|]. cbn. split; [unfold QUEUE_MAX; lia|clia].
Qed.

Lemma reader_step_inv m : machine_inv m -> machine_inv (reader_step m).
Proof.
  intros (Hwf & Hacc & Hpc). unfold reader_step, in_flight in *.
  destruct (mc_pc m) as [| |i acc|acc|acc] eqn:E; cbn.
  - split; [done|]. split; [exact Hacc|done].
  - split; [done|]. split; [exact Hacc|]. cbn. split; [done|]. destruct Hwf. split; [lia|done].
  - destruct Hpc as (Hif & Hi & ->).
    destruct (Z.ltb_spec i (queue_len (mc_irq m))) as [Hlt|Hge]; cbn.
    + split; [done|]. split; [exact Hacc|]. cbn. split; [done|]. split; [lia|].
      destruct Hwf as (H1 & H2 & _).
      destruct (lookup_lt_is_Some_2 (scancode_queue (mc_irq m)) (Z.to_nat i)) as [c Hc];
        [unfold QUEUE_MAX in *; lia|].
      rewrite Hc. replace (Z.to_nat (i + 1)) with (S (Z.to_nat i)) by lia.
      symmetry. by apply take_S_r.
    + split; [done|]. split; [exact Hacc|]. cbn. split; [done|].
      unfold pending. f_equal. lia.
  - destruct Hpc as [Hif ->]. destruct Hwf as (H1 & H2 & H3).
    split; [split; [done|]; cbn; unfold QUEUE_MAX in *; split; [lia|done]|].
    split; [|done]. cbn. rewrite Hacc. unfold pending at 3. cbn. by rewrite app_nil_r.
  - destruct Hpc as [Hif Hnil]. split; [done|]. split; [|done].
    cbn. rewrite Hacc, Hnil, app_nil_r, app_nil_r. done.
Qed.

Lemma interrupt_step_inv m n dev s' :
  mc_if m = true -> handle_interrupt n dev (mc_irq m) = Ok s' -> machine_inv m ->
  machine_inv (Machine s' (mc_if m) (mc_pc m)
    (mc_accepted m ++ accepted_by n dev (mc_irq m)) (mc_delivered m)).
Proof.
  intros Hif Hh (Hwf & Hacc & Hpc).
  destruct (handle_interrupt_spec _ _ _ _ Hwf Hh) as (Hwf' & Hp & _).
  unfold in_flight in *. destruct (mc_pc m) eqn:E; destruct_and?; try congruence.
  split; [done|]. split; [|done]. cbn. rewrite Hacc, Hp, <- app_assoc. f_equal.
  unfold accepted_by, spec_push. pose proof (pending_length _ Hwf) as Hl.
  destruct (n =? 33); cbn [andb]; [|apply app_nil_r].
  destruct Hwf as (_ & H2 & _). rewrite Hl. unfold QUEUE_MAX in *.
  destruct (Z.ltb_spec (queue_len (mc_irq m)) (Z.of_nat 8)).
  - by rewrite decide_True by lia.
  - rewrite decide_False by lia. apply app_nil_r.
Qed.

Lemma machine_inv_reachable m m' :
  rtc machine_step m m' -> machine_inv m -> machine_inv m'.
Proof.
  induction 1 as [|m1 m2 m3 H12 _ IH]; [done|]. intros Hinv. apply IH.
  destruct H12; [by apply reader_step_inv|by apply interrupt_step_inv].
Qed.

(** C7. No interleaving loses, duplicates or reorders a scan code: in every
    state reachable from boot by reader steps and interrupts in any order, the
    codes the handler stored are exactly those already returned to Lua followed
    by those still stored or being returned, and the array is well formed. *)
Theorem keyboard_no_loss (m : machine) :
  rtc machine_step machine_init m ->
  irq_wf (mc_irq m) /\ mc_accepted m = mc_delivered m ++ in_flight m.
Proof.
  intros Hr.
  destruct (machine_inv_reachable _ _ Hr machine_inv_init) as (H1 & H2 & _). done.
Qed.

(** Witness of C7: a key arrives, the reader starts. *)
Lemma keyboard_no_loss_witness :
  let m := reader_step (Machine (outb 0x20 0x20 (enqueue 0x1e (inb 0x60 0x1e irq_init)))
                          true PIdle [0x1e] []) in
  irq_wf (mc_irq m) /\ mc_accepted m = mc_delivered m ++ in_flight m.
Proof.
  apply keyboard_no_loss.
  eapply rtc_l; [exact (ms_interrupt machine_init 33 0x1e _ eq_refl eq_refl)|].
  eapply rtc_l; [apply ms_reader|]. apply rtc_refl.
Defined.

(** The reader run to completion without interrupts is the sequential
    function. *)
Lemma reader_loop_run m i acc (k : nat) :
  mc_pc m = PLoop i acc -> 0 <= i -> i + Z.of_nat k = queue_len (mc_irq m) ->
  acc = read_codes (Z.to_nat i) (mc_irq m) ->
  Nat.iter (S k) reader_step m =
  Machine (mc_irq m) (mc_if m)
    (PReset (read_codes (Z.to_nat (queue_len (mc_irq m))) (mc_irq m)))
    (mc_accepted m) (mc_delivered m).
Proof.
  revert m i acc. induction k as [|k IH]; intros m i acc Hpc Hi Hk ->.
  - cbn. unfold reader_step. rewrite Hpc. rewrite (proj2 (Z.ltb_ge _ _)) by lia.
    do 2 f_equal. f_equal. lia.
  - rewrite Nat.iter_succ_r.
    assert (reader_step m = Machine (mc_irq m) (mc_if m)
      (PLoop (i + 1) (read_codes (Z.to_nat (i + 1)) (mc_irq m)))
      (mc_accepted m) (mc_delivered m)) as ->.
    { unfold reader_step. rewrite Hpc, (proj2 (Z.ltb_lt _ _)) by lia.
      replace (Z.to_nat (i + 1)) with (S (Z.to_nat i)) by lia. done. }
    erewrite IH; [|reflexivity|lia|cbn; lia|reflexivity]. done.
Qed.

(** Run without interruption, the reader's machine steps terminate and
    compute [get_keyboard_interrupt]: they deliver its array, leave its state,
    and set the interrupt flag again. *)
Theorem reader_terminates (m : machine) :
  machine_inv m -> mc_pc m = PIdle ->
  let '(codes, s') := get_keyboard_interrupt (mc_irq m) in
  exists k, Nat.iter k reader_step m =
    Machine s' true PIdle (mc_accepted m) (mc_delivered m ++ codes).
Proof.
  intros (Hwf & _ & _) Hpc. cbn. destruct Hwf as (_ & Hl & _).
  set (m2 := Machine (mc_irq m) false (PLoop 0 []) (mc_accepted m) (mc_delivered m)).
  exists (2 + (S (Z.to_nat (queue_len (mc_irq m))) + 2))%nat.
  rewrite !Nat.iter_add.
  assert (Nat.iter 2 reader_step m = m2) as ->.
  { cbn. unfold reader_step at 2. rewrite Hpc. done. }
  rewrite (reader_loop_run m2 0 []) by (done || (cbn; lia)). done.
Qed.

(** Example. *)
Lemma reader_terminates_witness :
  let '(codes, s') := get_keyboard_interrupt (mc_irq machine_init) in
  exists k, Nat.iter k reader_step machine_init =
    Machine s' true PIdle (mc_accepted machine_init) (mc_delivered machine_init ++ codes).
Proof. apply (reader_terminates machine_init); [exact machine_inv_init|done]. Defined.

(** ** The interrupt controllers as [init.S] programs them

    A small model of the two 8259 controllers: a write with bit 4 to the command
    port starts the initialisation, the next three writes to the data port are
    ICW2 (vector base), ICW3 and ICW4, later data writes set the mask. *)

Record pic := Pic { pic_init : nat; pic_base : Z; pic_mask : Z }.

Definition pic_cmd (v : Z) (p : pic) : pic :=
  if Z.testbit v 4 then Pic 3 (pic_base p) 0 else p.

Definition pic_data (v : Z) (p : pic) : pic :=
  match pic_init p with
  | 3%nat => Pic 2 (v - v mod 8) (pic_mask p)
  | 2%nat => Pic 1 (pic_base p) (pic_mask p)
  | 1%nat => Pic 0 (pic_base p) (pic_mask p)
  | _ => Pic 0 (pic_base p) v
  end.

(** The writes of [init.S], in order. *)
Definition pic_setup : list (Z * Z) :=
  [(0x20, 0x11); (0xa0, 0x11);
   (0x21, 0x20); (0xa1, 0x28);
   (0x21, 4); (0xa1, 2);
   (0x21, 1); (0xa1, 1);
   (0x43, 0x36); (0x40, 0xa9); (0x40, 0x04);
   (0x21, 0xf8); (0xa1, 0xef)].

Definition pic_write (ps : pic * pic) (w : Z * Z) : pic * pic :=
  let '(port, v) := w in
  if port =? 0x20 then (pic_cmd v ps.1, ps.2)
  else if port =? 0x21 then (pic_data v ps.1, ps.2)
  else if port =? 0xa0 then (ps.1, pic_cmd v ps.2)
  else if port =? 0xa1 then (ps.1, pic_data v ps.2)
  else ps.

Definition pics_after_boot (ps : pic * pic) : pic * pic := foldl pic_write ps pic_setup.

(** The vector of hardware line [irq] (0 to 15) when it is not masked; line 2
    of the first controller is the cascade and raises nothing itself. *)
Definition irq_vector (ps : pic * pic) (irq : Z) : option Z :=
  if irq =? 2 then None
  else if irq <? 8 then
    if Z.testbit (pic_mask ps.1) irq then None else Some (pic_base ps.1 + irq)
  else if Z.testbit (pic_mask ps.2) (irq - 8) then None
  else Some (pic_base ps.2 + (irq - 8)).

Lemma pics_after_boot_eq ps :
  pics_after_boot ps = (Pic 0 0x20 0xf8, Pic 0 0x28 0xef).
Proof. destruct ps as [p1 p2]. reflexivity. Qed.

(** The programming of the interrupt controllers and the handler fit: after
    the boot writes, every hardware line that can raise an interrupt has a
    vector whose case in [handle_interrupt] returns (no [while (1)]) and ends by
    acknowledging the first controller, after the second one for its lines. *)
Theorem unmasked_irqs_handled (ps : pic * pic) (irq v dev : Z) (s : irq_state) :
  0 <= irq < 16 -> irq_vector (pics_after_boot ps) irq = Some v ->
  exists s' pre, handle_interrupt v dev s = Ok s' /\
    io_trace s' = pre ++ (if 8 <=? irq then [Out 0xa0 0x20] else []) ++ [Out 0x20 0x20].
Proof.
  intros Hirq. rewrite pics_after_boot_eq.
  assert (irq = 0 \/ irq = 1 \/ irq = 2 \/ irq = 3 \/ irq = 4 \/ irq = 5 \/ irq = 6 \/ irq = 7
    \/ irq = 8 \/ irq = 9 \/ irq = 10 \/ irq = 11 \/ irq = 12 \/ irq = 13 \/ irq = 14 \/ irq = 15)
    as Hc by lia.
  repeat destruct Hc as [Hc|Hc]; subst irq; cbn; intros [= <-].
  - eexists _, _. split; reflexivity.
  - eexists _, (io_trace s ++ [In 0x60 dev]). split; [reflexivity|].
    cbn. unfold enqueue. by case_match.
  - eexists _, (io_trace s ++ [In 0x60 dev]). split; [reflexivity|].
    cbn. by rewrite <- app_assoc.
Qed.

(** Example: the mouse line. *)
Lemma unmasked_irqs_handled_witness :
  exists s' pre, handle_interrupt 44 0 irq_init = Ok s' /\
    io_trace s' = pre ++ [Out 0xa0 0x20] ++ [Out 0x20 0x20].
Proof.
  apply (unmasked_irqs_handled (Pic 0 0 0, Pic 0 0 0) 12 44 0 irq_init); [lia|reflexivity].
Defined.

(** ** The tick counter *)

Definition run_interrupts (l : list (Z * Z)) (s : irq_state) : res irq_state :=
  foldl (fun r e => s ← r; handle_interrupt e.1 e.2 s) (Ok s) l.

Lemma run_interrupts_snoc l e s :
  run_interrupts (l ++ [e]) s = (s' ← run_interrupts l s; handle_interrupt e.1 e.2 s').
Proof. unfold run_interrupts. by rewrite foldl_app. Qed.

(** The tick counter counts timer interrupts modulo 2^64: after any
    sequence of interrupts that returns, it has advanced by the number of
    vector-32 interrupts in the sequence, and the queue invariant holds. *)
Theorem timer_ticks_count (l : list (Z * Z)) (s s' : irq_state) :
  irq_wf s -> run_interrupts l s = Ok s' ->
  irq_wf s' /\
  timer_ticks s' = u64 (timer_ticks s + Z.of_nat (length (filter (fun e => e.1 = 32) l))).
Proof.
  intros Hwf. revert s'. induction l as [|e l IH] using rev_ind; intros s' Hrun.
  - injection Hrun as <-. split; [done|]. cbn. rewrite Z.add_0_r.
    symmetry. apply wrap_small, Hwf.
  - rewrite run_interrupts_snoc in Hrun.
    destruct (run_interrupts l s) as [s1|] eqn:E; [|done]. cbn in Hrun.
    destruct (IH s1 eq_refl) as [Hwf1 Ht1].
    destruct (handle_interrupt_spec _ _ _ _ Hwf1 Hrun) as (Hwf' & _ & Ht).
    split; [done|]. rewrite Ht, Ht1, filter_app, length_app. cbn [filter list_filter].
    destruct (Z.eqb_spec e.1 32) as [He|He].
    + rewrite decide_True by done. cbn [length]. rewrite wrap_add_l. f_equal. lia.
    + rewrite decide_False by done. cbn [length]. f_equal. lia.
Qed.

(** Example. *)
Lemma timer_ticks_count_witness :
  exists s', run_interrupts [(32, 0); (33, 0x1e); (32, 0)] irq_init = Ok s' /\
  (irq_wf s' /\ timer_ticks s' = u64 (0 + 2)).
Proof.
  eexists. split; [reflexivity|].
  apply (timer_ticks_count [(32, 0); (33, 0x1e); (32, 0)] irq_init); [|reflexivity].
  apply machine_inv_init.
Defined.
