(* ===== verification/Ctype.v ===== *)
(** * Character classes ([src/dep/musl/src/ctype])

    The C library functions Lua's string library calls.  The argument is an
    [int]; the unsigned subtractions of the source are written with [u32]. *)

From S2P Require Import Prelude.

Definition isalpha (c : Z) : bool := u32 (Z.lor (u32 c) 32 - 97) <? 26.
Definition isdigit (c : Z) : bool := u32 (u32 c - 48) <? 10.
Definition isalnum (c : Z) : bool := isalpha c || isdigit c.
Definition iscntrl (c : Z) : bool := (u32 c <? 0x20) || (c =? 0x7f).
Definition isgraph (c : Z) : bool := u32 (u32 c - 0x21) <? 0x5e.
Definition islower (c : Z) : bool := u32 (u32 c - 97) <? 26.
Definition isupper (c : Z) : bool := u32 (u32 c - 65) <? 26.
Definition ispunct (c : Z) : bool := isgraph c && negb (isalnum c).
Definition isspace (c : Z) : bool := (c =? 32) || (u32 (u32 c - 9) <? 5).
Definition isxdigit (c : Z) : bool := isdigit c || (u32 (Z.lor (u32 c) 32 - 97) <? 6).
Definition isprint (c : Z) : bool := u32 (u32 c - 0x20) <? 0x5f.
Definition tolower (c : Z) : Z := if isupper c then Z.lor c 32 else c.
Definition toupper (c : Z) : Z := if islower c then Z.land c 0x5f else c.

(** A property of every byte, decided by evaluation. *)
Lemma byte_cases (P : Z -> bool) :
  forallb P (seqZ 0 256) = true -> forall c, is_byte c -> P c = true.
Proof.
  intros H c Hc. rewrite forallb_forall in H. apply H.
  apply list_elem_of_In, elem_of_seqZ. unfold is_byte in Hc. lia.
Qed.

Definition in_range (lo hi c : Z) : bool := (lo <=? c) && (c <=? hi).

(** On every byte the branch-free unsigned comparisons of the C library
    decide the ASCII classes they name, and [tolower]/[toupper] change exactly
    the letters of the other case. *)
Theorem ctype_correct (c : Z) :
  is_byte c ->
  isdigit c = in_range 48 57 c /\
  isupper c = in_range 65 90 c /\ islower c = in_range 97 122 c /\
  isalpha c = in_range 65 90 c || in_range 97 122 c /\
  isspace c = (c =? 32) || in_range 9 13 c /\
  isgraph c = in_range 33 126 c /\ iscntrl c = in_range 0 31 c || (c =? 127) /\
  isxdigit c = in_range 48 57 c || in_range 65 70 c || in_range 97 102 c /\
  tolower c = (if in_range 65 90 c then c + 32 else c) /\
  toupper c = (if in_range 97 122 c then c - 32 else c).
Proof.
  intros Hc.
  split_and!;
    match goal with
    | |- ?l = ?r :> bool =>
        let P := eval pattern c in (Bool.eqb l r) in
        lazymatch P with ?f c => apply Bool.eqb_prop, (byte_cases f); [|done] end
    | |- ?l = ?r :> Z =>
        let P := eval pattern c in (l =? r) in
        lazymatch P with ?f c => apply Z.eqb_eq, (byte_cases f); [|done] end
    end; vm_compute; reflexivity.
Qed.

(** Example. *)
Lemma ctype_correct_witness : toupper 97 = 65.
Proof. apply (ctype_correct 97). clia. Defined.
