(* ===== verification/LuaStr.v ===== *)
(** * Lua strings ([src/dep/lua-5.2.3/src/lstrlib.c], basic operations)

    A Lua string is a list of bytes.  Positions are [ptrdiff_t] (signed 64-bit)
    and lengths [size_t] (unsigned 64-bit), as in the C code. *)

From S2P Require Import Prelude Ctype.

Abbreviation bytes := (list Z).
Definition slen (s : bytes) : Z := Z.of_nat (length s).

Definition str_len (s : bytes) : Z := slen s.

(** Translate a relative string position: negative means back from the end. *)
Definition posrelat (pos len : Z) : Z :=
  if pos >=? 0 then pos
  else if u64 (0 - pos) >? len then 0
  else u64 (len - u64 (- pos) + 1).

(** [s + start - 1] for [end - start + 1] bytes. *)
Definition slice (s : bytes) (start stop : Z) : bytes :=
  take (Z.to_nat (stop - start + 1)) (drop (Z.to_nat (start - 1)) s).

Definition str_sub (s : bytes) (i j : Z) : bytes :=
  let l := slen s in
  let start := posrelat i l in
  let stop := posrelat j l in
  let start := if start <? 1 then 1 else start in
  let stop := if stop >? l then l else stop in
  if start <=? stop then slice s start stop else [].

(** [s:sub(i)]: the optional third argument defaults to -1. *)
Definition str_sub1 (s : bytes) (i : Z) : bytes := str_sub s i (-1).

(** [for (i = 0; i < l; i++) p[i] = s[l - i - 1]]. *)
Definition str_reverse (s : bytes) : bytes :=
  (fun i => default 0 (s !! (length s - i - 1)%nat)) <$> seq 0 (length s).

Definition str_lower (s : bytes) : bytes := (fun c => u8 (tolower (u8 c))) <$> s.
Definition str_upper (s : bytes) : bytes := (fun c => u8 (toupper (u8 c))) <$> s.

Definition MAXSIZE : Z := 2 ^ 64 / 2 - 1.

(** The copying loop of [str_rep]: [n] is decremented after the test. *)
Fixpoint rep_loop (n : nat) (s sep : bytes) : bytes :=
  match n with
  | S (S _ as n') => s ++ (if 0 <? slen sep then sep else []) ++ rep_loop n' s sep
  | _ => s
  end.

Definition str_rep (s : bytes) (n : Z) (sep : bytes) : res bytes :=
  let l := slen s in let lsep := slen sep in
  if n <=? 0 then Ok []
  else if (u64 (l + lsep) <? l) || (u64 (l + lsep) >=? MAXSIZE / n) then Err LuaError
  else Ok (rep_loop (Z.to_nat n) s sep).

Definition str_byte (s : bytes) (i j : Z) : res (list Z) :=
  let l := slen s in
  let posi := posrelat i l in
  let pose := posrelat j l in
  let posi := if posi <? 1 then 1 else posi in
  let pose := if pose >? l then l else pose in
  if posi >? pose then Ok []
  else
    let n := s32 (pose - posi + 1) in
    if u64 (posi + n) <=? pose then Err LuaError
    else Ok ((fun k => u8 (default 0 (s !! (Z.to_nat posi + k - 1)%nat))) <$> seq 0 (Z.to_nat n)).

(** Each argument must be a byte value. *)
Fixpoint str_char (args : list Z) : res bytes :=
  match args with
  | [] => Ok []
  | c :: args' =>
      if u8 c =? c then rest ← str_char args'; Ok (u8 c :: rest) else Err LuaError
  end.

(** ** The reference semantics of the manual

    Corrected positions: negative ones count from the end, then the interval is
    cut to the string. *)
Definition manual_sub (s : bytes) (i j : Z) : bytes :=
  let l := slen s in
  let i' := if i <? 0 then Z.max (l + i + 1) 1 else Z.max i 1 in
  let j' := Z.min (if j <? 0 then l + j + 1 else j) l in
  slice s i' j'.

(** A string that fits in memory. *)
Definition str_ok (s : bytes) : Prop := slen s < 2 ^ 63.

Lemma posrelat_spec pos len :
  in_s 64 pos -> 0 <= len < 2 ^ 63 ->
  posrelat pos len = if pos >=? 0 then pos else Z.max 0 (len + pos + 1).
Proof.
  intros Hp Hl. unfold posrelat. unfold in_s in Hp. change (2 ^ (64 - 1)) with (2 ^ 63) in Hp.
  rewrite Z.geb_leb, Z.gtb_ltb. destruct (Z.leb_spec 0 pos); [done|].
  rewrite (wrap_small 64 (0 - pos)), (wrap_small 64 (- pos)) by clia.
  destruct (Z.ltb_spec len (0 - pos)); [lia|]. rewrite wrap_small by clia. lia.
Qed.

Lemma slice_empty s i j : j < i -> slice s i j = [].
Proof. intros. unfold slice. by replace (Z.to_nat (j - i + 1)) with 0%nat by lia. Qed.

Lemma str_sub_manual s i j :
  str_ok s -> in_s 64 i -> in_s 64 j -> str_sub s i j = manual_sub s i j.
Proof.
  intros Hs Hi Hj. unfold str_sub, manual_sub, str_ok in *.
  assert (0 <= slen s) by (unfold slen; lia).
  rewrite !posrelat_spec by (done || lia). rewrite !Z.geb_leb, !Z.gtb_ltb.
  set (i' := if i <? 0 then _ else _). set (j' := Z.min _ _).
  assert ((if (if 0 <=? i then i else Z.max 0 (slen s + i + 1)) <? 1 then 1
           else if 0 <=? i then i else Z.max 0 (slen s + i + 1)) = i') as ->.
  { unfold i'. destruct (Z.leb_spec 0 i), (Z.ltb_spec i 0); try lia;
      case_match eqn:E; try apply Z.ltb_lt in E; try apply Z.ltb_ge in E; lia. }
  set (e := if 0 <=? j then j else _).
  assert ((if slen s <? e then slen s else e) = Z.max 0 j') as ->.
  { unfold j', e. destruct (Z.leb_spec 0 j), (Z.ltb_spec j 0); try lia;
      case_match eqn:E; try apply Z.ltb_lt in E; try apply Z.ltb_ge in E; lia. }
  assert (1 <= i') by (unfold i'; destruct (i <? 0); lia).
  destruct (Z.leb_spec i' (Z.max 0 j')) as [Hle|Hgt].
  - f_equal. lia.
  - rewrite slice_empty by lia. done.
Qed.

(** [string.sub] computes the substring the reference manual describes,
    for every string that fits in memory and every pair of 64-bit positions. *)
Theorem str_sub_correct (s : bytes) (i j : Z) :
  str_ok s -> in_s 64 i -> in_s 64 j -> str_sub s i j = manual_sub s i j.
Proof. apply str_sub_manual. Qed.

(** Example. *)
Lemma str_sub_correct_witness :
  str_sub [104; 101; 108; 108; 111] (-3) 4 = [108; 108].
Proof. apply (str_sub_correct [104; 101; 108; 108; 111] (-3) 4); [done|clia|clia]. Defined.

(** Cutting a string at a position. *)
Lemma str_sub_prefix s p :
  str_ok s -> in_s 64 p -> 0 <= p -> str_sub s 0 p = take (Z.to_nat p) s.
Proof.
  intros Hs Hp H0. rewrite str_sub_manual by (done || clia). unfold manual_sub, slice.
  rewrite (proj2 (Z.ltb_ge p 0)) by lia. cbn [Z.ltb Z.compare].
  change (Z.to_nat (Z.max 0 1 - 1)) with 0%nat. rewrite drop_0.
  destruct (decide (p <= slen s)).
  - f_equal. lia.
  - unfold slen in *. rewrite !take_ge by lia. done.
Qed.

Lemma str_sub_all s j :
  str_ok s -> in_s 64 j -> slen s <= j -> str_sub s 1 j = s.
Proof.
  intros Hs Hj Hl. rewrite str_sub_manual by (done || clia). unfold manual_sub, slice.
  assert (0 <= slen s) by (unfold slen; lia).
  rewrite (proj2 (Z.ltb_ge j 0)) by lia. cbn [Z.ltb Z.compare].
  change (Z.to_nat (Z.max 1 1 - 1)) with 0%nat. rewrite drop_0. apply take_ge.
  unfold slen in *. lia.
Qed.

Lemma str_sub_suffix s p :
  str_ok s -> in_s 64 (p + 1) -> 0 <= p -> str_sub1 s (p + 1) = drop (Z.to_nat p) s.
Proof.
  intros Hs Hp H0. unfold str_sub1. rewrite str_sub_manual by (done || clia).
  unfold manual_sub, slice. rewrite (proj2 (Z.ltb_ge (p + 1) 0)) by lia. cbn [Z.ltb Z.compare].
  replace (Z.to_nat (Z.max (p + 1) 1 - 1)) with (Z.to_nat p) by lia.
  apply take_ge. rewrite length_drop. unfold slen. lia.
Qed.

Lemma rep_loop_length n s sep :
  (0 < n)%nat ->
  slen (rep_loop n s sep) = Z.of_nat n * slen s + (Z.of_nat n - 1) * slen sep.
Proof.
  induction n as [|n IH]; [lia|]. intros _. destruct n as [|n].
  - cbn [rep_loop]. lia.
  - change (rep_loop (S (S n)) s sep)
      with (s ++ (if 0 <? slen sep then sep else []) ++ rep_loop (S n) s sep).
    unfold slen in *. rewrite !length_app.
    assert (length (if 0 <? Z.of_nat (length sep) then sep else []) = length sep) as Hl.
    { destruct (Z.ltb_spec 0 (Z.of_nat (length sep))); cbn; lia. }
    rewrite Hl. specialize (IH ltac:(lia)). lia.
Qed.

(** [string.rep] never builds a string of a wrong size: when it does not
    raise an error, the [totallen] it reserves, computed in wrapping [size_t]
    arithmetic, is exactly the length of the copies it writes. *)
Theorem str_rep_no_overflow (s sep r : bytes) (n : Z) :
  str_ok s -> str_ok sep -> 0 < n -> in_s 32 n -> str_rep s n sep = Ok r ->
  slen r = u64 (u64 (n * slen s) + u64 (u64 (n - 1) * slen sep)).
Proof.
  intros Hs Hsep Hn Hn32 Hr. unfold str_rep, str_ok in *.
  assert (0 <= slen s /\ 0 <= slen sep) as [H1 H2] by (unfold slen; lia).
  rewrite (proj2 (Z.leb_gt n 0)) in Hr by lia.
  rewrite (wrap_small 64 (slen s + slen sep)) in Hr by clia.
  destruct (Z.ltb_spec (slen s + slen sep) (slen s)); [lia|]. cbn [orb] in Hr.
  rewrite Z.geb_leb in Hr. destruct (Z.leb_spec (MAXSIZE / n) (slen s + slen sep)); [done|].
  injection Hr as <-. rewrite rep_loop_length by lia. rewrite Z2Nat.id by lia.
  assert (n * (slen s + slen sep) <= MAXSIZE) as Hmax.
  { pose proof (Z.mul_div_le MAXSIZE n Hn). nia. }
  change MAXSIZE with (2 ^ 63 - 1) in Hmax. unfold in_s in Hn32.
  rewrite (wrap_small 64 (n - 1)) by clia.
  rewrite (wrap_small 64 (n * slen s)), (wrap_small 64 ((n - 1) * slen sep)) by (unfold in_u; pow2; nia).
  rewrite wrap_small by (unfold in_u; pow2; nia). done.
Qed.

(** Example. *)
Lemma str_rep_no_overflow_witness :
  slen [97; 98; 44; 97; 98] = u64 (u64 (2 * 2) + u64 (u64 (2 - 1) * 1)).
Proof.
  apply (str_rep_no_overflow [97; 98] [44] [97; 98; 44; 97; 98] 2);
    [done|done|lia|clia|reflexivity].
Defined.

Lemma str_reverse_rev s : str_reverse s = reverse s.
Proof.
  unfold str_reverse. apply list_eq. intros k. rewrite list_lookup_fmap.
  destruct (decide (k < length s)%nat) as [Hk|Hk].
  - rewrite lookup_seq_lt by done. cbn. rewrite reverse_lookup by lia.
    replace (length s - S k)%nat with (length s - k - 1)%nat by lia.
    destruct (lookup_lt_is_Some_2 s (length s - k - 1)) as [c ->]; [lia|done].
  - rewrite lookup_seq_ge by lia. cbn. symmetry. apply lookup_ge_None.
    rewrite length_reverse. lia.
Qed.

(** [string.char] and [string.byte] are inverse: packing the byte values a
    full-range [string.byte] returns gives the string back. *)
Theorem str_char_byte (s : bytes) :
  Forall is_byte s -> slen s < 2 ^ 31 ->
  (bs ← str_byte s 1 (-1); str_char bs) = Ok s.
Proof.
  intros Hb Hl. unfold str_byte. assert (0 <= slen s) by (unfold slen; lia).
  rewrite !posrelat_spec by (clia || lia). rewrite !Z.geb_leb, !Z.gtb_ltb.
  cbn [Z.leb Z.ltb Z.compare Z.opp].
  replace (Z.max 0 (slen s + -1 + 1)) with (slen s) by lia.
  rewrite (Z.ltb_irrefl (slen s)), !Z.ltb_irrefl.
  destruct (Z.ltb_spec (slen s) 1) as [Hlt|Hge].
  { assert (s = []) as -> by (destruct s; [done|unfold slen in *; cbn in *; lia]). done. }
  rewrite swrap_small by (lia || clia). rewrite (wrap_small 64) by clia.
  rewrite (proj2 (Z.leb_gt _ _)) by lia. cbn [mbind res_bind].
  assert ((λ k, u8 (default 0 (s !! (Z.to_nat 1 + k - 1)%nat))) <$>
    seq 0 (Z.to_nat (slen s - 1 + 1)) = s) as ->.
  { apply list_eq. intros k. rewrite list_lookup_fmap.
    destruct (decide (k < length s)%nat) as [Hk|Hk].
    - rewrite lookup_seq_lt by (unfold slen; lia). cbn [fmap option_fmap option_map].
      replace (Z.to_nat 1 + (0 + k) - 1)%nat with k by lia.
      destruct (lookup_lt_is_Some_2 s k Hk) as [c Hc]. rewrite Hc. cbn.
      rewrite wrap_small; [done|]. by apply (Forall_lookup_1 _ _ _ _ Hb Hc).
    - rewrite lookup_seq_ge by (unfold slen; lia). symmetry. apply lookup_ge_None. lia. }
  clear -Hb. induction Hb as [|c s Hc _ IH]; [done|]. cbn [str_char].
  rewrite wrap_small, Z.eqb_refl by exact Hc. rewrite IH. done.
Qed.

(** Example. *)
Lemma str_char_byte_witness : (bs ← str_byte [72; 105] 1 (-1); str_char bs) = Ok [72; 105].
Proof. apply (str_char_byte [72; 105]); [repeat constructor; clia|vm_compute; done]. Defined.
