(* ===== verification/LuaMatch.v ===== *)
(** * Lua's pattern matcher ([src/dep/lua-5.2.3/src/lstrlib.c])

    The recursive matcher [match] with its helper functions.  Pointers into the
    subject and the pattern are indices; a read at the end of a string gives its
    terminating zero, and a read beyond it is [OutOfBounds].  The recursion of
    [match] is bounded by [matchdepth], as in the code; the other loops take fuel,
    and [LuaMatchSpec] shows that it is never used up. *)

From S2P Require Import Prelude Ctype LuaStr.

(** ** Errors *)

Inductive perror :=
| TooComplex             (* "pattern too complex" *)
| BadCaptureIndex (l : Z) (* "invalid capture index %l" *)
| BadCapture             (* "invalid pattern capture" *)
| EndsWithEsc            (* "malformed pattern (ends with '%')" *)
| MissingBracket         (* "malformed pattern (missing ']')" *)
| MissingBalance         (* "malformed pattern (missing arguments to '%b')" *)
| MissingFrontier        (* "missing '[' after '%f' in pattern" *)
| TooManyCaptures        (* "too many captures" *)
| Unfinished             (* "unfinished capture" *)
| BadReplacement         (* "invalid use of '%' in replacement string" *)
| BadValue               (* "invalid replacement value" *)
| OutOfBounds
| MatchFuel.

#[export] Instance perror_eq_dec : EqDecision perror.
Proof. solve_decision. Defined.

Inductive pres (A : Type) := POk (a : A) | PErr (e : perror).
Arguments POk {A} a.
Arguments PErr {A} e.

#[export] Instance pres_ret : MRet pres := fun A a => POk a.
#[export] Instance pres_bind : MBind pres := fun A B f m => match m with POk a => f a | PErr e => PErr e end.

Definition peek (l : bytes) (i : nat) : pres Z :=
  if (i <=? length l)%nat then POk (default 0 (l !! i)) else PErr OutOfBounds.

(** ** Characters *)

Definition L_ESC : Z := 37.
Definition LUA_MAXCAPTURES : nat := 32.
Definition MAXCCALLS : nat := 200.
Definition CAP_UNFINISHED : Z := -1.
Definition CAP_POSITION : Z := -2.

Definition match_class (c cl : Z) : bool :=
  let t := tolower cl in
  let res (b : bool) := if islower cl then b else negb b in
  if t =? 97 then res (isalpha c)
  else if t =? 99 then res (iscntrl c)
  else if t =? 100 then res (isdigit c)
  else if t =? 103 then res (isgraph c)
  else if t =? 108 then res (islower c)
  else if t =? 112 then res (ispunct c)
  else if t =? 115 then res (isspace c)
  else if t =? 117 then res (isupper c)
  else if t =? 119 then res (isalnum c)
  else if t =? 120 then res (isxdigit c)
  else if t =? 122 then res (c =? 0)
  else cl =? c.

(** A capture: its start and its length or one of the two marks. *)
Record capture := Capture { cap_init : nat; cap_len : Z }.

(** [capture[0 .. level - 1]]. *)
Abbreviation captures := (list capture).

Section Match.
Context (src pat : bytes).

Definition src_end : nat := length src.
Definition p_end : nat := length pat.

(** The argument is the character after [%]. *)
Definition check_capture (caps : captures) (l : Z) : pres nat :=
  let l := l - 49 in
  if l <? 0 then PErr (BadCaptureIndex (l + 1)) else
  match caps !! Z.to_nat l with
  | None => PErr (BadCaptureIndex (l + 1))
  | Some cap => if cap_len cap =? CAP_UNFINISHED then PErr (BadCaptureIndex (l + 1)) else POk (Z.to_nat l)
  end.

(** The loop goes down from [level]. *)
Fixpoint close_loop (caps : captures) (level : nat) : pres nat :=
  match level with
  | O => PErr BadCapture
  | S l => match caps !! l with
           | Some cap => if cap_len cap =? CAP_UNFINISHED then POk l else close_loop caps l
           | None => PErr OutOfBounds
           end
  end.

Definition capture_to_close (caps : captures) : pres nat := close_loop caps (length caps).

(** The [do] loop of [classend]. *)
Fixpoint class_loop (fuel : nat) (p : nat) : pres nat :=
  match fuel with
  | O => PErr MatchFuel
  | S fuel' =>
      if (p =? p_end)%nat then PErr MissingBracket else
      c ← peek pat p;
      let p := S p in
      let p := if (c =? L_ESC) && (p <? p_end)%nat then S p else p in
      c ← peek pat p;
      if negb (c =? 93) then class_loop fuel' p else POk (S p)
  end.

Definition classend (p : nat) : pres nat :=
  c ← peek pat p;
  let p := S p in
  if c =? L_ESC then (if (p =? p_end)%nat then PErr EndsWithEsc else POk (S p))
  else if c =? 91 then
    c ← peek pat p;
    let p := if c =? 94 then S p else p in
    class_loop (S p_end) p
  else POk p.

(** The [while] loop of [matchbracketclass]. *)
Fixpoint bracket_loop (fuel : nat) (c : Z) (sig : bool) (p ec : nat) : pres bool :=
  match fuel with
  | O => PErr MatchFuel
  | S fuel' =>
      let p := S p in
      if (p <? ec)%nat then
        x ← peek pat p;
        if x =? L_ESC then
          let p := S p in
          cl ← peek pat p;
          if match_class c cl then POk sig else bracket_loop fuel' c sig p ec
        else
          y ← peek pat (p + 1);
          if (y =? 45) && (p + 2 <? ec)%nat then
            let p := (p + 2)%nat in
            lo ← peek pat (p - 2);
            hi ← peek pat p;
            if (lo <=? c) && (c <=? hi) then POk sig else bracket_loop fuel' c sig p ec
          else if x =? c then POk sig
          else bracket_loop fuel' c sig p ec
      else POk (negb sig)
  end.

Definition matchbracketclass (c : Z) (p ec : nat) : pres bool :=
  x ← peek pat (p + 1);
  if x =? 94 then bracket_loop (S p_end) c false (S p) ec else bracket_loop (S p_end) c true p ec.

Definition singlematch (s p ep : nat) : pres bool :=
  if (src_end <=? s)%nat then POk false
  else
    c ← peek src s;
    x ← peek pat p;
    if x =? 46 then POk true
    else if x =? L_ESC then cl ← peek pat (p + 1); POk (match_class c cl)
    else if x =? 91 then matchbracketclass c p (ep - 1)
    else POk (x =? c).

(** The [while] loop of [matchbalance]. *)
Fixpoint balance_loop (fuel : nat) (s : nat) (b e cont : Z) : pres (option nat) :=
  match fuel with
  | O => PErr MatchFuel
  | S fuel' =>
      let s := S s in
      if (s <? src_end)%nat then
        c ← peek src s;
        if c =? e then
          if cont - 1 =? 0 then POk (Some (S s)) else balance_loop fuel' s b e (cont - 1)
        else if c =? b then balance_loop fuel' s b e (cont + 1)
        else balance_loop fuel' s b e cont
      else POk None
  end.

Definition matchbalance (s p : nat) : pres (option nat) :=
  if (p_end <=? p + 1)%nat then PErr MissingBalance
  else
    c ← peek src s;
    b ← peek pat p;
    if negb (c =? b) then POk None
    else
      e ← peek pat (p + 1);
      balance_loop (S src_end) s b e 1.

Definition match_capture (caps : captures) (s : nat) (l : Z) : pres (option nat) :=
  l ← check_capture caps l;
  match caps !! l with
  | None => PErr OutOfBounds
  | Some cap =>
      let len := u64 (cap_len cap) in
      if len <=? Z.of_nat (src_end - s) then
        if (src_end <? cap_init cap + Z.to_nat len)%nat then PErr OutOfBounds
        else if decide (take (Z.to_nat len) (drop (cap_init cap) src) = take (Z.to_nat len) (drop s src))
        then POk (Some (s + Z.to_nat len)%nat) else POk None
      else POk None
  end.

(** ** [match] *)

(** The result is the end of the match and the captures. *)
Definition mres : Type := pres (option nat * captures).

Section Calls.
(** The recursive calls of [match], one level down. *)
Context (match_ : captures -> nat -> nat -> mres).

(** The first [while] of [max_expand]. *)
Fixpoint count_loop (fuel : nat) (s i p ep : nat) : pres nat :=
  match fuel with
  | O => PErr MatchFuel
  | S fuel' =>
      b ← singlematch (s + i) p ep;
      if b : bool then count_loop fuel' s (S i) p ep else POk i
  end.

(** Its second [while]. *)
Fixpoint max_loop (i : nat) (caps : captures) (s ep : nat) : mres :=
  '(res, caps) ← match_ caps (s + i)%nat (ep + 1)%nat;
  match res with
  | Some e => POk (Some e, caps)
  | None => match i with O => POk (None, caps) | S i' => max_loop i' caps s ep end
  end.

Definition max_expand (caps : captures) (s p ep : nat) : mres :=
  i ← count_loop (S src_end) s 0 p ep;
  max_loop i caps s ep.

Fixpoint min_expand (fuel : nat) (caps : captures) (s p ep : nat) : mres :=
  match fuel with
  | O => PErr MatchFuel
  | S fuel' =>
      '(res, caps) ← match_ caps s (ep + 1)%nat;
      match res with
      | Some e => POk (Some e, caps)
      | None =>
          b ← singlematch s p ep;
          if b : bool then min_expand fuel' caps (S s) p ep else POk (None, caps)
      end
  end.

(** [ms->level--] drops the last capture. *)
Definition start_capture (caps : captures) (s p : nat) (what : Z) : mres :=
  if (LUA_MAXCAPTURES <=? length caps)%nat then PErr TooManyCaptures
  else
    '(res, caps) ← match_ (caps ++ [Capture s what]) s p;
    match res with
    | None => POk (None, take (length caps - 1) caps)
    | Some e => POk (Some e, caps)
    end.

Definition set_len (caps : captures) (l : nat) (len : Z) : captures :=
  match caps !! l with Some cap => <[l := Capture (cap_init cap) len]> caps | None => caps end.

Definition end_capture (caps : captures) (s p : nat) : mres :=
  l ← capture_to_close caps;
  match caps !! l with
  | None => PErr OutOfBounds
  | Some cap =>
      '(res, caps) ← match_ (set_len caps l (Z.of_nat s - Z.of_nat (cap_init cap))) s p;
      match res with
      | None => POk (None, set_len caps l CAP_UNFINISHED)
      | Some e => POk (Some e, caps)
      end
  end.

(** The case [dflt]: a single-character class with an optional suffix; [init]
    is the [goto]. *)
Definition dflt (init : captures -> nat -> nat -> mres) (caps : captures) (s p : nat) : mres :=
  ep ← classend p;
  b ← singlematch s p ep;
  x ← peek pat ep;
  if negb b then
    if (x =? 42) || (x =? 63) || (x =? 45) then init caps s (ep + 1)%nat
    else POk (None, caps)
  else if x =? 63 then
    '(res, caps) ← match_ caps (s + 1)%nat (ep + 1)%nat;
    match res with Some e => POk (Some e, caps) | None => init caps s (ep + 1)%nat end
  else if x =? 43 then max_expand caps (S s) p ep
  else if x =? 42 then max_expand caps s p ep
  else if x =? 45 then min_expand (S (S src_end)) caps s p ep
  else init caps (S s) ep.

(** The body after the label [init]. *)
Fixpoint init_loop (fuel : nat) (caps : captures) (s p : nat) : mres :=
  match fuel with
  | O => PErr MatchFuel
  | S fuel' =>
      if (p =? p_end)%nat then POk (Some s, caps) else
      c ← peek pat p;
      if c =? 40 then
        c1 ← peek pat (p + 1);
        if c1 =? 41 then start_capture caps s (p + 2) CAP_POSITION
        else start_capture caps s (p + 1) CAP_UNFINISHED
      else if c =? 41 then end_capture caps s (p + 1)
      else if (c =? 36) && (p + 1 =? p_end)%nat then
        POk (if (s =? src_end)%nat then Some s else None, caps)
      else if c =? L_ESC then
        c1 ← peek pat (p + 1);
        if c1 =? 98 then
          r ← matchbalance s (p + 2);
          match r with Some s => init_loop fuel' caps s (p + 4)%nat | None => POk (None, caps) end
        else if c1 =? 102 then
          let p := (p + 2)%nat in
          x ← peek pat p;
          if negb (x =? 91) then PErr MissingFrontier else
          ep ← classend p;
          previous ← (if (s =? 0)%nat then POk 0 else peek src (s - 1));
          b ← matchbracketclass previous p (ep - 1);
          b' ← (if b : bool then POk false else cs ← peek src s; matchbracketclass cs p (ep - 1));
          if b' : bool then init_loop fuel' caps s ep else POk (None, caps)
        else if isdigit c1 then
          r ← match_capture caps s c1;
          match r with Some s => init_loop fuel' caps s (p + 2)%nat | None => POk (None, caps) end
        else dflt (init_loop fuel') caps s p
      else dflt (init_loop fuel') caps s p
  end.
End Calls.

(** [d] is [matchdepth]; every turn of the [goto] moves forward in the pattern. *)
Fixpoint match_ (d : nat) (caps : captures) (s p : nat) : mres :=
  match d with
  | O => PErr TooComplex
  | S d' => init_loop (match_ d') (S p_end) caps s p
  end.
End Match.
