(* ===== verification/LuaMatchSpec.v ===== *)
(** * Correctness of Lua's pattern matcher

    A declarative relation [matches] says which parts of the subject a pattern
    matches, with which captures, without saying in which order alternatives are
    tried.  [match_spec] shows of the matcher of [LuaMatch], for every subject and
    pattern: it stays inside both strings and never runs out of fuel, what it
    finds is a match and lies inside the subject with its captures, and when it
    reports failure there is no match at all and the captures are as before. *)

From S2P Require Import Prelude Ctype LuaStr LuaMatch.

(** An error of the pattern, not of the matcher. *)
Definition user_error (e : perror) : Prop := e <> OutOfBounds /\ e <> MatchFuel.

(** A computation that fails only with user errors, and whose result satisfies [P]. *)
Definition yields {A} (m : pres A) (P : A -> Prop) : Prop :=
  match m with POk a => P a | PErr e => user_error e end.

Lemma yields_bind {A B} (m : pres A) (f : A -> pres B) P Q :
  yields m P -> (forall a, m = POk a -> P a -> yields (f a) Q) -> yields (m ≫= f) Q.
Proof. destruct m; cbn; auto. Qed.

Lemma yields_impl {A} (m : pres A) (P Q : A -> Prop) : yields m P -> (forall a, P a -> Q a) -> yields m Q.
Proof. destruct m; cbn; auto. Qed.

(** The character at an index, or the terminator. *)
Definition byte_at (l : bytes) (i : nat) : Z := default 0 (l !! i).

Lemma peek_ok l i : (i <= length l)%nat -> peek l i = POk (byte_at l i).
Proof. intros H. unfold peek. by rewrite (proj2 (Nat.leb_le _ _) H). Qed.

(** A character other than zero is inside the string. *)
Lemma char_inside (l : bytes) i c : c <> 0 -> byte_at l i = c -> (i < length l)%nat.
Proof. unfold byte_at. intros Hc H. destruct (l !! i) eqn:E; [by apply lookup_lt_Some in E|done]. Qed.

Section Spec.
Context (src pat : bytes).
Notation src_end := (src_end src).
Notation p_end := (p_end pat).
Notation ch := (byte_at pat).
Notation classend := (classend pat).
Notation singlematch := (singlematch src pat).
Notation matchbracketclass := (matchbracketclass pat).
Notation matchbalance := (matchbalance src pat).
Notation match_capture := (match_capture src).

(** ** Declarative semantics *)

(** What a pattern starts with at [p]. *)
Inductive shape := SEnd | SPosition | SOpen | SClose | SDollar | SBalance | SFrontier | SBack (c : Z) | SItem.

Definition shape_at (p : nat) : shape :=
  if decide (p = p_end) then SEnd
  else if decide (ch p = 40) then (if decide (ch (p + 1)%nat = 41) then SPosition else SOpen)
  else if decide (ch p = 41) then SClose
  else if decide (ch p = 36 /\ (p + 1)%nat = p_end) then SDollar
  else if decide (ch p = L_ESC) then
    (if decide (ch (p + 1)%nat = 98) then SBalance
     else if decide (ch (p + 1)%nat = 102) then SFrontier
     else if isdigit (ch (p + 1)%nat) then SBack (ch (p + 1)%nat) else SItem)
  else SItem.

(** [n] repetitions of the item between [p] and [ep]. *)
Definition repeats (s n p ep : nat) : Prop := forall i, (i < n)%nat -> singlematch (s + i) p ep = POk true.

(** The frontier test between the characters around [s]. *)
Definition frontier (s p ep : nat) : Prop :=
  matchbracketclass (if decide (s = 0%nat) then 0 else byte_at src (s - 1)) p (ep - 1) = POk false /\
  matchbracketclass (byte_at src s) p (ep - 1) = POk true.

(** [matches caps s p e caps']: the pattern from [p] matches from [s] to [e]. *)
Inductive matches : captures -> nat -> nat -> nat -> captures -> Prop :=
| M_end caps s p : shape_at p = SEnd -> matches caps s p s caps
| M_position caps s p e caps' :
    shape_at p = SPosition -> (length caps < LUA_MAXCAPTURES)%nat ->
    matches (caps ++ [Capture s CAP_POSITION]) s (p + 2) e caps' -> matches caps s p e caps'
| M_open caps s p e caps' :
    shape_at p = SOpen -> (length caps < LUA_MAXCAPTURES)%nat ->
    matches (caps ++ [Capture s CAP_UNFINISHED]) s (p + 1) e caps' -> matches caps s p e caps'
| M_close caps s p l cap e caps' :
    shape_at p = SClose -> capture_to_close caps = POk l -> caps !! l = Some cap ->
    matches (set_len caps l (Z.of_nat s - Z.of_nat (cap_init cap))) s (p + 1) e caps' -> matches caps s p e caps'
| M_dollar caps s p : shape_at p = SDollar -> s = src_end -> matches caps s p s caps
| M_balance caps s p s' e caps' :
    shape_at p = SBalance -> matchbalance s (p + 2) = POk (Some s') ->
    matches caps s' (p + 4) e caps' -> matches caps s p e caps'
| M_frontier caps s p ep e caps' :
    shape_at p = SFrontier -> ch (p + 2)%nat = 91 -> classend (p + 2) = POk ep -> frontier s (p + 2) ep ->
    matches caps s ep e caps' -> matches caps s p e caps'
| M_back caps s p c s' e caps' :
    shape_at p = SBack c -> match_capture caps s c = POk (Some s') ->
    matches caps s' (p + 2) e caps' -> matches caps s p e caps'
| M_one caps s p ep e caps' :
    shape_at p = SItem -> classend p = POk ep -> ch ep ∉ [42; 43; 45; 63] -> singlematch s p ep = POk true ->
    matches caps (S s) ep e caps' -> matches caps s p e caps'
| M_repeat caps s p ep n e caps' :
    shape_at p = SItem -> classend p = POk ep ->
    (ch ep = 42 \/ ch ep = 45 \/ ch ep = 43 /\ (1 <= n)%nat \/ ch ep = 63 /\ (n <= 1)%nat) ->
    repeats s n p ep -> matches caps (s + n) (ep + 1) e caps' -> matches caps s p e caps'.

(** ** Bounds of the helper functions *)

Lemma peek_pat p : (p <= p_end)%nat -> peek pat p = POk (ch p).
Proof. apply peek_ok. Qed.

Lemma peek_src s : (s <= src_end)%nat -> peek src s = POk (byte_at src s).
Proof. apply peek_ok. Qed.

Lemma ch_inside p c : c <> 0 -> ch p = c -> (p < p_end)%nat.
Proof. apply char_inside. Qed.

(** Perform the next read. *)
Ltac rd :=
  lazymatch goal with
  | |- yields (mbind _ (peek pat ?i)) _ => rewrite (peek_pat i) by lia
  | |- yields (mbind _ (peek src ?i)) _ => rewrite (peek_src i) by lia
  end; cbn [mbind pres_bind]; cbv zeta.

Lemma class_loop_spec fuel : forall p,
  (p <= p_end)%nat -> (p_end < p + fuel)%nat ->
  yields (class_loop pat fuel p) (fun ep => (p + 1 < ep <= p_end)%nat).
Proof.
  induction fuel as [|fuel IH]; intros p Hp Hf; [lia|]. cbn [class_loop].
  destruct (Nat.eqb_spec p p_end) as [->|Hne]; [done|].
  rd.
  set (p' := if (ch p =? L_ESC) && (S p <? p_end)%nat then S (S p) else S p).
  assert (p < p' <= p_end)%nat as Hp'.
  { unfold p'. destruct (ch p =? L_ESC), (Nat.ltb_spec (S p) p_end); cbn [andb]; lia. }
  clearbody p'. rd.
  destruct (Z.eqb_spec (ch p') 93) as [E|E]; cbn [negb].
  - apply ch_inside in E; [|lia]. cbn. lia.
  - eapply yields_impl; [apply IH; lia|]. cbn. lia.
Qed.

(** A class ends after it starts, inside the pattern. *)
Lemma classend_spec p :
  (p < p_end)%nat -> yields (classend p) (fun ep => (p < ep <= p_end)%nat /\ (ch p = 91 -> (p + 2 < ep)%nat)).
Proof.
  intros Hp. unfold LuaMatch.classend. rd.
  destruct (Z.eqb_spec (ch p) L_ESC) as [E|E].
  { destruct (Nat.eqb_spec (S p) p_end); [done|]. cbn. split; [lia|]. intros H. rewrite H in E. done. }
  destruct (Z.eqb_spec (ch p) 91) as [E'|E']; [|cbn; split; [lia|done]].
  rd.
  set (p' := if ch (S p) =? 94 then S (S p) else S p).
  assert (p < p' <= p_end)%nat as Hp'.
  { unfold p'. destruct (Z.eqb_spec (ch (S p)) 94) as [H|H]; [apply ch_inside in H; lia|lia]. }
  clearbody p'. eapply yields_impl; [apply class_loop_spec; lia|]. cbn. intros ep Hep. split; [lia|]. intros _. lia.
Qed.

Lemma bracket_loop_spec fuel c sig ec : forall p,
  (ec <= p_end)%nat -> (p < p_end)%nat -> (p_end < p + fuel)%nat ->
  yields (bracket_loop pat fuel c sig p ec) (fun _ => True).
Proof.
  induction fuel as [|fuel IH]; intros p Hec Hp Hf; [lia|]. cbn [bracket_loop].
  destruct (Nat.ltb_spec (S p) ec) as [Hlt|Hge]; [|done].
  rd.
  destruct (ch (S p) =? L_ESC).
  - rd. destruct (match_class _ _); [done|].
    destruct (Nat.ltb_spec (S (S p)) ec).
    + apply IH; lia.
    + (* an escape just before the closing bracket: the loop ends *)
      destruct fuel as [|fuel]; [lia|]. cbn [bracket_loop].
      rewrite (proj2 (Nat.ltb_ge _ _)) by lia. done.
  - rd.
    destruct ((ch (S p + 1) =? 45) && (S p + 2 <? ec)%nat) eqn:Er.
    + apply andb_true_iff in Er as [_ Er]. apply Nat.ltb_lt in Er.
      rd. rd. destruct (_ && _); [done|]. apply IH; lia.
    + destruct (_ =? c); [done|]. apply IH; lia.
Qed.

Lemma matchbracketclass_spec c p ec :
  (p + 1 < ec)%nat -> (ec < p_end)%nat -> yields (matchbracketclass c p ec) (fun _ => True).
Proof.
  intros Hp Hec. unfold LuaMatch.matchbracketclass. rd.
  destruct (ch (p + 1) =? 94); apply bracket_loop_spec; lia.
Qed.

(** Single characters are compared inside both strings. *)
Lemma singlematch_spec s p ep :
  (p < p_end)%nat -> classend p = POk ep ->
  yields (singlematch s p ep) (fun b => b = true -> (s < src_end)%nat).
Proof.
  intros Hp Hep. pose proof (classend_spec p Hp) as Hc. rewrite Hep in Hc. cbn in Hc.
  unfold LuaMatch.singlematch. destruct (Nat.leb_spec src_end s) as [Hs|Hs]; [done|].
  apply (yields_impl _ (fun _ => True)); [|by intros].
  rd. rd.
  destruct (ch p =? 46); [done|]. destruct (ch p =? L_ESC).
  { rd. done. }
  destruct (Z.eqb_spec (ch p) 91) as [E|E]; [|done].
  destruct Hc as [Hc1 Hc2]. specialize (Hc2 E). apply matchbracketclass_spec; lia.
Qed.

Lemma balance_loop_spec fuel b e : forall s cont,
  (s <= src_end)%nat -> (src_end < s + fuel)%nat ->
  yields (balance_loop src fuel s b e cont) (fun r => forall s', r = Some s' -> (s < s' <= src_end)%nat).
Proof.
  induction fuel as [|fuel IH]; intros s cont Hs Hf; [lia|].
  cbn [balance_loop]. destruct (Nat.ltb_spec (S s) src_end) as [Hlt|Hge]; [|done].
  rd.
  assert (forall cont', yields (balance_loop src fuel (S s) b e cont')
    (fun r => forall s', r = Some s' -> (s < s' <= src_end)%nat)) as Hrec.
  { intros cont'. eapply yields_impl; [apply IH; lia|]. cbn. intros r Hr s' E. specialize (Hr s' E). lia. }
  destruct (_ =? e); [destruct (_ =? 0)|destruct (_ =? b)]; try apply Hrec.
  intros s' [= <-]. lia.
Qed.

Lemma matchbalance_spec s p :
  (s <= src_end)%nat -> (p <= p_end)%nat ->
  yields (matchbalance s p) (fun r => (p + 2 <= p_end)%nat /\ forall s', r = Some s' -> (s <= s' <= src_end)%nat).
Proof.
  intros Hs Hp. unfold LuaMatch.matchbalance. destruct (Nat.leb_spec p_end (p + 1)); [done|].
  rd. rd. destruct (negb _); [cbn; split; [lia|done]|]. rd.
  eapply yields_impl; [apply balance_loop_spec; lia|]. cbn. intros r Hr. split; [lia|]. intros s' E. specialize (Hr s' E). lia.
Qed.

(** ** Captures *)

(** A capture lies between the start of the subject and [s]. *)
Definition cap_ok (s : nat) (cap : capture) : Prop :=
  (cap_init cap <= s)%nat /\
  (cap_len cap = CAP_UNFINISHED \/ cap_len cap = CAP_POSITION \/
   0 <= cap_len cap /\ Z.of_nat (cap_init cap) + cap_len cap <= Z.of_nat s).

Definition caps_ok (caps : captures) (s : nat) : Prop :=
  (length caps <= LUA_MAXCAPTURES)%nat /\ Forall (cap_ok s) caps.

Lemma caps_ok_mono caps s s' : caps_ok caps s -> (s <= s')%nat -> caps_ok caps s'.
Proof.
  intros [Hl Hc] Hs. split; [done|]. eapply Forall_impl; [exact Hc|]. intros cap [Hi Hlen]. split; [lia|].
  destruct Hlen as [H|[H|H]]; [by left|right; by left|right; right; lia].
Qed.

Lemma close_loop_spec caps level :
  (level <= length caps)%nat ->
  yields (close_loop caps level) (fun l => exists cap, caps !! l = Some cap /\ cap_len cap = CAP_UNFINISHED).
Proof.
  induction level as [|l IH]; intros Hl; [done|]. cbn [close_loop].
  destruct (lookup_lt_is_Some_2 caps l ltac:(lia)) as [cap E]. rewrite E.
  destruct (Z.eqb_spec (cap_len cap) CAP_UNFINISHED); [by exists cap|apply IH; lia].
Qed.

Lemma match_capture_spec caps s l :
  caps_ok caps s -> (s <= src_end)%nat -> Z.of_nat src_end < 2 ^ 63 ->
  yields (match_capture caps s l) (fun r => forall s', r = Some s' -> (s <= s' <= src_end)%nat).
Proof.
  intros [_ Hok] Hs Hsize. unfold LuaMatch.match_capture, check_capture.
  destruct (_ <? 0); [done|]. destruct (caps !! _) as [cap|] eqn:E; [|done].
  destruct (Z.eqb_spec (cap_len cap) CAP_UNFINISHED) as [|Hun]; [done|]. cbn [mbind pres_bind]. rewrite E.
  rewrite Forall_lookup in Hok. destruct (Hok _ _ E) as [Hi [H|[H|H]]]; [done| |].
  - rewrite H. change (u64 CAP_POSITION) with (2 ^ 64 - 2).
    destruct (Z.leb_spec (2 ^ 64 - 2) (Z.of_nat (src_end - s))); [exfalso; pow2; lia|done].
  - rewrite wrap_small by (unfold in_u; pow2; lia).
    destruct (Z.leb_spec (cap_len cap) (Z.of_nat (src_end - s))); [|done].
    destruct (Nat.ltb_spec src_end (cap_init cap + Z.to_nat (cap_len cap))); [lia|].
    destruct (decide _); [|done]. intros s' [= <-]. lia.
Qed.

(** ** The matcher *)

(** The specification of a call of [match]. *)
Definition mspec (caps : captures) (s p : nat) (r : mres) : Prop :=
  yields r (fun '(res, caps') =>
    match res with
    | Some e => (s <= e <= src_end)%nat /\ caps_ok caps' e /\ matches caps s p e caps'
    | None => caps' = caps /\ forall e c, ~ matches caps s p e c
    end).

(** Two calls with the same matches. *)
Lemma mspec_iff caps s p s' p' r :
  (s <= s')%nat -> (forall e c, matches caps s p e c <-> matches caps s' p' e c) ->
  mspec caps s' p' r -> mspec caps s p r.
Proof.
  intros Hs Hiff H. eapply yields_impl; [exact H|]. intros [[e|] caps'].
  - intros ((Hse & He) & Hc & Hm). split; [lia|]. split; [done|]. by apply Hiff.
  - intros (-> & Hno). split; [done|]. intros e c Hm. apply (Hno e c). by apply Hiff.
Qed.

(** A call that fails at once. *)
Lemma mspec_fail caps s p : (forall e c, ~ matches caps s p e c) -> mspec caps s p (POk (None, caps)).
Proof. intros H. split; [done|exact H]. Qed.

Ltac minv :=
  let H := fresh in intros H; inversion H; clear H; simplify_eq; try congruence;
  repeat match goal with
  | H1 : shape_at ?p = ?a, H2 : shape_at ?p = ?b |- _ => rewrite H1 in H2; simplify_eq
  | H1 : ?x = POk ?a, H2 : ?x = POk ?b |- _ => rewrite H1 in H2; injection H2 as H2
  end; simplify_eq.

Lemma matches_position caps s p e c :
  shape_at p = SPosition ->
  matches caps s p e c <->
  (length caps < LUA_MAXCAPTURES)%nat /\ matches (caps ++ [Capture s CAP_POSITION]) s (p + 2) e c.
Proof. intros Hsh. split; [minv; done|]. intros [Hl Hm]. by apply M_position. Qed.

Lemma matches_open caps s p e c :
  shape_at p = SOpen ->
  matches caps s p e c <->
  (length caps < LUA_MAXCAPTURES)%nat /\ matches (caps ++ [Capture s CAP_UNFINISHED]) s (p + 1) e c.
Proof. intros Hsh. split; [minv; done|]. intros [Hl Hm]. by apply M_open. Qed.

Lemma matches_close caps s p l cap e c :
  shape_at p = SClose -> capture_to_close caps = POk l -> caps !! l = Some cap ->
  matches caps s p e c <-> matches (set_len caps l (Z.of_nat s - Z.of_nat (cap_init cap))) s (p + 1) e c.
Proof. intros Hsh Hl Hc. split; [minv; done|]. by apply M_close. Qed.

Lemma matches_balance caps s p r e c :
  shape_at p = SBalance -> matchbalance s (p + 2) = POk r ->
  matches caps s p e c <-> exists s', r = Some s' /\ matches caps s' (p + 4) e c.
Proof. intros Hsh Hr. split; [minv; eauto|]. intros (s' & -> & Hm). by eapply M_balance. Qed.

Lemma matches_back caps s p x r e c :
  shape_at p = SBack x -> match_capture caps s x = POk r ->
  matches caps s p e c <-> exists s', r = Some s' /\ matches caps s' (p + 2) e c.
Proof. intros Hsh Hr. split; [minv; eauto|]. intros (s' & -> & Hm). by eapply M_back. Qed.

Lemma matches_frontier caps s p ep e c :
  shape_at p = SFrontier -> ch (p + 2) = 91 -> classend (p + 2) = POk ep ->
  matches caps s p e c <-> frontier s (p + 2) ep /\ matches caps s ep e c.
Proof. intros Hsh Hch Hep. split; [minv; eauto|]. intros (Hf & Hm). by eapply M_frontier. Qed.

(** How often an item with the suffix [x] may be repeated. *)
Definition times (x : Z) (n : nat) : Prop :=
  x = 42 \/ x = 45 \/ x = 43 /\ (1 <= n)%nat \/ x = 63 /\ (n <= 1)%nat.

Lemma matches_item caps s p ep e c :
  shape_at p = SItem -> classend p = POk ep ->
  matches caps s p e c <->
  (ch ep ∉ [42; 43; 45; 63] /\ singlematch s p ep = POk true /\ matches caps (S s) ep e c) \/
  exists n, times (ch ep) n /\ repeats s n p ep /\ matches caps (s + n) (ep + 1) e c.
Proof.
  intros Hsh Hep. split.
  - minv; [left; done|right]. eauto.
  - intros [(Hx & Hs & Hm)|(n & Ht & Hr & Hm)]; [by eapply M_one|by eapply M_repeat].
Qed.

Lemma repeats_0 s p ep : repeats s 0 p ep.
Proof. intros i Hi. lia. Qed.

Lemma repeats_S s n p ep : repeats s (S n) p ep <-> singlematch s p ep = POk true /\ repeats (S s) n p ep.
Proof.
  split.
  - intros H. split; [rewrite <- (Nat.add_0_r s); apply H; lia|]. intros i Hi.
    replace (S s + i)%nat with (s + S i)%nat by lia. apply H. lia.
  - intros [H0 H] [|i] Hi; [by rewrite Nat.add_0_r|]. replace (s + S i)%nat with (S s + i)%nat by lia. apply H. lia.
Qed.

Lemma repeats_stop s n m p ep : repeats s n p ep -> singlematch (s + m) p ep <> POk true -> (n <= m)%nat.
Proof. intros H Hm. destruct (decide (n <= m)%nat); [done|]. exfalso. apply Hm, H. lia. Qed.

Section Calls.
Context (rec : captures -> nat -> nat -> mres).
Context (rec_ok : forall caps s p, caps_ok caps s -> (s <= src_end)%nat -> (p <= p_end)%nat -> mspec caps s p (rec caps s p)).

(** What trying a range of repetitions gives. *)
Definition tries (caps : captures) (s ep : nat) (J : nat -> Prop) (r : mres) : Prop :=
  yields r (fun '(res, caps') =>
    match res with
    | Some e => caps_ok caps' e /\ (e <= src_end)%nat /\
        exists j, J j /\ (s + j <= e)%nat /\ matches caps (s + j) (ep + 1) e caps'
    | None => caps' = caps /\ forall j, J j -> forall e c, ~ matches caps (s + j) (ep + 1) e c
    end).

Lemma count_loop_spec fuel s p ep : forall i,
  (p < p_end)%nat -> classend p = POk ep -> (s + i <= src_end)%nat -> (src_end < s + i + fuel)%nat ->
  repeats s i p ep ->
  yields (count_loop src pat fuel s i p ep) (fun n => repeats s n p ep /\ (s + n <= src_end)%nat /\
    singlematch (s + n) p ep <> POk true).
Proof.
  induction fuel as [|fuel IH]; intros i Hp Hep Hi Hf Hr; [lia|]. cbn [count_loop].
  eapply yields_bind; [by apply singlematch_spec|]. intros [] Eb Hb; cbn.
  - specialize (Hb eq_refl). apply IH; [done|done|lia|lia|]. intros j Hj.
    destruct (decide (j = i)) as [->|]; [done|]. apply Hr. lia.
  - split; [done|]. split; [done|]. by rewrite Eb.
Qed.

Lemma max_loop_spec caps s ep : forall i,
  caps_ok caps s -> (s + i <= src_end)%nat -> (ep + 1 <= p_end)%nat ->
  tries caps s ep (fun j => (j <= i)%nat) (max_loop rec i caps s ep).
Proof using rec_ok.
  induction i as [|i IH]; intros Hc Hi Hep; cbn [max_loop].
  - eapply yields_bind; [apply rec_ok; [apply (caps_ok_mono caps s); [done|lia]|lia|lia]|].
    intros [[e|] caps'] _ H; cbn.
    + destruct H as (He & Hc' & Hm). split; [done|]. split; [lia|]. exists O. split; [lia|]. split; [lia|done].
    + destruct H as (-> & Hno). split; [done|]. intros j Hj. replace j with O by lia. apply Hno.
  - eapply yields_bind; [apply rec_ok; [apply (caps_ok_mono caps s); [done|lia]|lia|lia]|].
    intros [[e|] caps'] _ H; cbn.
    + destruct H as (He & Hc' & Hm). split; [done|]. split; [lia|]. exists (S i). split; [lia|]. split; [lia|done].
    + destruct H as (-> & Hno). eapply yields_impl; [apply IH; [done|lia|lia]|]. intros [[e|] caps''].
      * intros (Hc' & He & j & Hj & Hje & Hm). split; [done|]. split; [done|]. exists j. split; [lia|done].
      * intros [-> Hno']. split; [done|]. intros j Hj. destruct (decide (j = S i)) as [->|]; [apply Hno|apply Hno'; lia].
Qed.

Lemma max_expand_spec caps s p ep :
  caps_ok caps s -> (s <= src_end)%nat -> (p < p_end)%nat -> classend p = POk ep -> (ep + 1 <= p_end)%nat ->
  tries caps s ep (fun j => repeats s j p ep) (max_expand src pat rec caps s p ep).
Proof using rec_ok.
  intros Hc Hs Hp Hep He. unfold max_expand.
  eapply yields_bind; [apply count_loop_spec; [done|done|lia|lia|apply repeats_0]|].
  intros i _ (Hr & Hi & Hstop). eapply yields_impl; [by apply (max_loop_spec caps s ep i)|]. intros [[e|] caps'].
  - intros (Hc' & He' & j & Hj & Hm). split; [done|]. split; [done|]. exists j. split; [|done].
    intros k Hk. apply Hr. lia.
  - intros [-> Hno]. split; [done|]. intros j Hj. apply Hno. by eapply repeats_stop.
Qed.

Lemma min_expand_spec caps p ep fuel : forall s,
  caps_ok caps s -> (s <= src_end)%nat -> (p < p_end)%nat -> classend p = POk ep -> (ep + 1 <= p_end)%nat ->
  (src_end < s + fuel)%nat ->
  tries caps s ep (fun j => repeats s j p ep) (min_expand src pat rec fuel caps s p ep).
Proof using rec_ok.
  induction fuel as [|fuel IH]; intros s Hc Hs Hp Hep He Hf; [lia|]. cbn [min_expand].
  eapply yields_bind; [apply rec_ok; [done|lia|lia]|]. intros [[e|] caps'] _ H; cbn.
  { destruct H as (He' & Hc' & Hm). split; [done|]. split; [lia|]. exists O. rewrite Nat.add_0_r.
    split; [apply repeats_0|]. split; [lia|done]. }
  destruct H as (-> & Hno). eapply yields_bind; [by apply singlematch_spec|]. intros [] Eb Hb; cbn.
  - specialize (Hb eq_refl). eapply yields_impl; [apply IH; [apply (caps_ok_mono caps s); [done|lia]|lia|done|done|done|lia]|].
    intros [[e|] caps'].
    + intros (Hc' & He' & j & Hj & Hje & Hm). split; [done|]. split; [done|]. exists (S j).
      rewrite <- Nat.add_succ_comm. split; [by apply repeats_S|]. split; [lia|done].
    + intros [-> Hno']. split; [done|]. intros [|j] Hj; [rewrite Nat.add_0_r; apply Hno|].
      rewrite <- Nat.add_succ_comm. apply Hno'. by apply repeats_S in Hj as [_ Hj].
  - split; [done|]. intros [|j] Hj; [rewrite Nat.add_0_r; apply Hno|].
    apply repeats_S in Hj as [Hj _]. congruence.
Qed.

Lemma start_capture_spec caps s p p' what :
  caps_ok caps s -> (s <= src_end)%nat -> (p' <= p_end)%nat -> what = CAP_POSITION \/ what = CAP_UNFINISHED ->
  (forall e c, matches caps s p e c <->
     (length caps < LUA_MAXCAPTURES)%nat /\ matches (caps ++ [Capture s what]) s p' e c) ->
  mspec caps s p (start_capture rec caps s p' what).
Proof using rec_ok.
  intros [Hl Hc] Hs Hp Hw Hiff. unfold start_capture.
  destruct (Nat.leb_spec LUA_MAXCAPTURES (length caps)) as [|Hlt]; [done|].
  eapply yields_bind.
  { apply rec_ok; [|done|done]. split; [rewrite length_app; cbn; lia|].
    apply Forall_app. split; [done|]. apply Forall_singleton. split; cbn; [lia|]. destruct Hw; auto. }
  intros [[e|] caps'] _ H; cbn.
  - destruct H as (He & Hc' & Hm). split; [done|]. split; [done|]. by apply Hiff.
  - destruct H as (-> & Hno). split.
    + rewrite length_app. cbn. rewrite Nat.add_sub, take_app_length. done.
    + intros e c Hm. apply Hiff in Hm as [_ Hm]. by apply (Hno e c).
Qed.

Lemma set_len_ok caps s l cap :
  caps_ok caps s -> caps !! l = Some cap ->
  caps_ok (set_len caps l (Z.of_nat s - Z.of_nat (cap_init cap))) s.
Proof.
  intros [Hl Hc] E. unfold set_len. rewrite E. split; [by rewrite length_insert|].
  apply Forall_insert; [done|]. rewrite Forall_lookup in Hc. destruct (Hc _ _ E) as [Hi _].
  split; cbn; [done|]. right. right. lia.
Qed.

(** Undoing a closed capture restores it. *)
Lemma set_len_undo caps l cap x :
  caps !! l = Some cap -> cap_len cap = CAP_UNFINISHED -> set_len (set_len caps l x) l CAP_UNFINISHED = caps.
Proof.
  intros E Hun. unfold set_len. rewrite E. pose proof (lookup_lt_Some _ _ _ E).
  rewrite list_lookup_insert_eq by done. cbn. rewrite list_insert_insert_eq. apply list_insert_id. rewrite E.
  by destruct cap; cbn in *; subst.
Qed.

Lemma end_capture_spec caps s p :
  caps_ok caps s -> (s <= src_end)%nat -> (p < p_end)%nat -> shape_at p = SClose ->
  mspec caps s p (end_capture rec caps s (p + 1)).
Proof using rec_ok.
  intros Hc Hs Hp Hsh. unfold end_capture.
  eapply yields_bind; [apply close_loop_spec; done|]. intros l El (cap & E & Hun). rewrite E.
  eapply yields_bind; [apply rec_ok; [by apply set_len_ok|done|lia]|]. intros [[e|] caps'] _ H; cbn.
  - destruct H as (He & Hc' & Hm). split; [done|]. split; [done|]. by apply (matches_close caps s p l cap).
  - destruct H as (-> & Hno). split; [by apply (set_len_undo _ _ cap)|].
    intros e c Hm. apply (Hno e c). by apply (matches_close caps s p l cap).
Qed.

(** From the repetitions tried to the item. *)
Lemma tries_item caps s p ep k r :
  shape_at p = SItem -> classend p = POk ep -> ch ep ∈ [42; 43; 45; 63] ->
  tries caps (s + k) ep (fun j => repeats s (j + k) p ep /\ times (ch ep) (j + k)) r ->
  (forall n, times (ch ep) n -> repeats s n p ep -> (k <= n)%nat) ->
  mspec caps s p r.
Proof.
  intros Hsh Hep Hx Ht Hmin. eapply yields_impl; [exact Ht|]. intros [[e|] caps'].
  - intros (Hc & He & j & [Hj Htm] & Hje & Hm). split; [lia|]. split; [done|].
    apply (matches_item caps s p ep); [done|done|]. right. exists (j + k)%nat.
    split; [done|]. split; [done|]. replace (s + (j + k))%nat with (s + k + j)%nat by lia. done.
  - intros [-> Hno]. split; [done|]. intros e c Hm. apply (matches_item caps s p ep) in Hm; [|done|done].
    destruct Hm as [(Hn & _)|(n & Htm & Hr & Hm)]; [done|].
    specialize (Hmin n Htm Hr). apply (Hno (n - k)%nat) with (e := e) (c := c).
    + replace (n - k + k)%nat with n by lia. done.
    + replace (s + k + (n - k))%nat with (s + n)%nat by lia. done.
Qed.

Lemma tries_iff caps s ep (J J' : nat -> Prop) r :
  (forall j, J j <-> J' j) -> tries caps s ep J r -> tries caps s ep J' r.
Proof.
  intros Hiff H. eapply yields_impl; [exact H|]. intros [[e|] caps'].
  - intros (Hc & He & j & Hj & Hm). split; [done|]. split; [done|]. exists j. split; [by apply Hiff|done].
  - intros [-> Hno]. split; [done|]. intros j Hj. apply Hno. by apply Hiff.
Qed.

(** An item that does not match here. *)
Lemma matches_item_not caps s p ep e c :
  shape_at p = SItem -> classend p = POk ep -> singlematch s p ep = POk false ->
  matches caps s p e c <-> ch ep ∈ [42; 63; 45] /\ matches caps s (ep + 1) e c.
Proof.
  intros Hsh Hep Hs. rewrite (matches_item caps s p ep) by done. split.
  - intros [(_ & H & _)|(n & Ht & Hr & Hm)]; [congruence|].
    assert (n = O) as -> by (pose proof (repeats_stop s n 0 p ep Hr) as H; rewrite Nat.add_0_r, Hs in H; specialize (H ltac:(done)); lia).
    rewrite Nat.add_0_r in Hm. split; [|done]. destruct Ht as [->|[->|[[_ H]|[-> _]]]]; [set_solver|set_solver|lia|set_solver].
  - intros [Hx Hm]. right. exists O. rewrite Nat.add_0_r. split; [|split; [apply repeats_0|done]].
    unfold times. repeat (apply elem_of_cons in Hx as [Hx|Hx]; [lia|]). by apply not_elem_of_nil in Hx.
Qed.

(** An optional item that matches here. *)
Lemma matches_item_optional caps s p ep e c :
  shape_at p = SItem -> classend p = POk ep -> ch ep = 63 -> singlematch s p ep = POk true ->
  matches caps s p e c <-> matches caps (s + 1) (ep + 1) e c \/ matches caps s (ep + 1) e c.
Proof.
  intros Hsh Hep Hx Hs. rewrite (matches_item caps s p ep) by done. rewrite Hx. split.
  - intros [(Hn & _)|(n & Ht & Hr & Hm)]; [set_solver|]. destruct n as [|[|n]].
    + right. by rewrite Nat.add_0_r in Hm.
    + by left.
    + exfalso. unfold times in Ht. lia.
  - intros [Hm|Hm]; right.
    + exists 1%nat. split; [unfold times; lia|]. split; [|done]. apply repeats_S. split; [done|apply repeats_0].
    + exists O. rewrite Nat.add_0_r. split; [unfold times; lia|]. split; [apply repeats_0|done].
Qed.

Lemma eqb_elem x l : existsb (Z.eqb x) l = true <-> x ∈ l.
Proof. rewrite existsb_exists, list_elem_of_In. split; [intros (y & Hy & E); by apply Z.eqb_eq in E as ->|]. intros H. exists x. split; [done|apply Z.eqb_refl]. Qed.

Lemma dflt_spec (init : captures -> nat -> nat -> mres) caps s p :
  caps_ok caps s -> (s <= src_end)%nat -> (p < p_end)%nat -> shape_at p = SItem ->
  (forall s' p', (s <= s' <= src_end)%nat -> (p < p' <= p_end)%nat -> mspec caps s' p' (init caps s' p')) ->
  mspec caps s p (dflt src pat rec init caps s p).
Proof using rec_ok.
  intros Hc Hs Hp Hsh Hinit. unfold dflt.
  eapply yields_bind; [by apply classend_spec|]. intros ep Eep [Hep _].
  eapply yields_bind; [by apply singlematch_spec|]. intros b Eb Hb. rd.
  assert (forall x, x <> 0 -> ch ep = x -> (ep + 1 <= p_end)%nat) as Hin.
  { intros x Hx E. apply ch_inside in E; [lia|done]. }
  destruct b; cbn [negb].
  - specialize (Hb eq_refl).
    destruct (Z.eqb_spec (ch ep) 63) as [E|N63].
    { eapply yields_bind; [apply rec_ok; [apply (caps_ok_mono caps s); [done|lia]|lia|by apply (Hin 63)]|].
      intros [[e|] caps'] _ H; cbn.
      - destruct H as (He & Hc' & Hm). split; [lia|]. split; [done|].
        apply (matches_item_optional caps s p ep); [done..|]. by left.
      - destruct H as (-> & Hno). apply (mspec_iff caps s p s (ep + 1)); [done| |].
        + intros e c. rewrite (matches_item_optional caps s p ep) by done. split; [|by right].
          intros [Hm|Hm]; [by apply Hno in Hm|done].
        + apply Hinit; [lia|]. specialize (Hin 63 ltac:(lia) E). lia. }
    destruct (Z.eqb_spec (ch ep) 43) as [E|N43].
    { apply (tries_item caps s p ep 1); [done|done|rewrite E; set_solver| |].
      - rewrite Nat.add_1_r. eapply tries_iff; [|apply max_expand_spec; [apply (caps_ok_mono caps s); [done|lia]|lia|done|done|by apply (Hin 43)]].
        intros j. rewrite Nat.add_1_r, repeats_S, E. unfold times. split; [intros H; split; [done|lia]|intros [[_ H] _]; done].
      - intros n Ht _. rewrite E in Ht. unfold times in Ht. lia. }
    assert (forall r, ch ep = 42 \/ ch ep = 45 -> tries caps s ep (fun j => repeats s j p ep) r -> mspec caps s p r) as Hstar.
    { intros r Hx Ht. apply (tries_item caps s p ep 0); [done|done|destruct Hx as [->| ->]; set_solver| |lia].
      rewrite Nat.add_0_r. eapply tries_iff; [|exact Ht]. intros j. rewrite Nat.add_0_r. unfold times. split; [intros H; split; [done|lia]|by intros [H _]]. }
    destruct (Z.eqb_spec (ch ep) 42) as [E|N42].
    { apply Hstar; [by left|]. apply max_expand_spec; [done|done|done|done|by apply (Hin 42)]. }
    destruct (Z.eqb_spec (ch ep) 45) as [E|N45].
    { apply Hstar; [by right|]. apply min_expand_spec; [done|done|done|done|by apply (Hin 45)|lia]. }
    apply (mspec_iff caps s p (S s) ep); [lia| |apply Hinit; lia].
    intros e c. rewrite (matches_item caps s p ep) by done. split.
    + intros [(_ & _ & Hm)|(n & Ht & _)]; [done|]. unfold times in Ht. lia.
    + intros Hm. left. split; [set_solver|done].
  - destruct ((ch ep =? 42) || (ch ep =? 63) || (ch ep =? 45)) eqn:Ex.
    + assert (ch ep ∈ [42; 63; 45]) as Hx.
      { apply eqb_elem. cbn. rewrite orb_false_r, orb_assoc. done. }
      assert (ch ep <> 0) as H0 by (intros E0; rewrite E0 in Ex; done).
      apply (mspec_iff caps s p s (ep + 1)); [done| |apply Hinit; [lia|]].
      * intros e c. rewrite (matches_item_not caps s p ep) by done. naive_solver.
      * specialize (Hin _ H0 eq_refl). lia.
    + apply mspec_fail. intros e c. rewrite (matches_item_not caps s p ep) by done. intros [Hx _].
      apply eqb_elem in Hx. cbn in Hx. rewrite orb_false_r, orb_assoc in Hx. congruence.
Qed.

Context (Hsize : Z.of_nat src_end < 2 ^ 63).

(** [%f]: the frontier case. *)
Definition frontier_case (init : captures -> nat -> nat -> mres) (caps : captures) (s p : nat) : mres :=
  x ← peek pat p;
  if negb (x =? 91) then PErr MissingFrontier else
  ep ← classend p;
  previous ← (if (s =? 0)%nat then POk 0 else peek src (s - 1));
  b ← matchbracketclass previous p (ep - 1);
  b' ← (if b : bool then POk false else cs ← peek src s; matchbracketclass cs p (ep - 1));
  if b' : bool then init caps s ep else POk (None, caps).

Lemma frontier_case_spec (init : captures -> nat -> nat -> mres) caps s p :
  (s <= src_end)%nat -> (p + 2 <= p_end)%nat -> shape_at p = SFrontier ->
  (forall p', (p < p' <= p_end)%nat -> mspec caps s p' (init caps s p')) ->
  mspec caps s p (frontier_case init caps s (p + 2)).
Proof.
  intros Hs Hp Hsh Hinit. unfold frontier_case. unfold mspec. rd.
  destruct (Z.eqb_spec (ch (p + 2)) 91) as [E|E]; cbn [negb]; [|done].
  pose proof (ch_inside (p + 2) 91 ltac:(lia) E) as Hin.
  eapply yields_bind; [by apply classend_spec|]. intros ep Eep [Hep Hep']. specialize (Hep' E).
  eapply (yields_bind _ _ (fun c => c = if decide (s = 0%nat) then 0 else byte_at src (s - 1))).
  { destruct (Nat.eqb_spec s 0), (decide (s = 0%nat)); try done. by rewrite peek_src by lia. }
  intros previous _ ->.
  eapply yields_bind; [apply matchbracketclass_spec; lia|]. intros b Eb _.
  eapply (yields_bind _ _ (fun b' => b' = true <-> frontier s (p + 2) ep)).
  { unfold frontier. destruct b; cbn.
    { split; [done|]. intros [H _]. congruence. }
    rewrite peek_src by lia. cbn.
    pose proof (matchbracketclass_spec (byte_at src s) (p + 2) (ep - 1) ltac:(lia) ltac:(lia)) as Hy.
    destruct (matchbracketclass (byte_at src s) (p + 2) (ep - 1)) as [b'|] eqn:E'; [|done]. cbn.
    destruct b'; split; [done|done|done|]. intros [_ H]. congruence. }
  intros b' _ Hb'. pose proof (fun e c => matches_frontier caps s p ep e c Hsh E Eep) as Hm. destruct b'.
  - apply (mspec_iff caps s p s ep); [done| |apply Hinit; lia]. intros e c. rewrite Hm. naive_solver.
  - apply mspec_fail. intros e c. rewrite Hm. intros [Hf _]. apply Hb' in Hf. done.
Qed.

(** A step that moves both positions or fails. *)
Lemma moved_spec (init : captures -> nat -> nat -> mres) caps s p p' r :
  (forall s', r = Some s' -> (s <= s' <= src_end)%nat) ->
  (forall e c, matches caps s p e c <-> exists s', r = Some s' /\ matches caps s' p' e c) ->
  (forall s', (s <= s' <= src_end)%nat -> mspec caps s' p' (init caps s' p')) ->
  mspec caps s p (match r with Some s => init caps s p' | None => POk (None, caps) end).
Proof.
  intros Hr Hm Hinit. destruct r as [s'|].
  - specialize (Hr s' eq_refl). apply (mspec_iff caps s p s' p'); [lia| |by apply Hinit].
    intros e c. rewrite Hm. naive_solver.
  - apply mspec_fail. intros e c. rewrite Hm. naive_solver.
Qed.

Lemma match_loop_spec fuel : forall caps s p,
  caps_ok caps s -> (s <= src_end)%nat -> (p <= p_end)%nat -> (p_end < p + fuel)%nat ->
  mspec caps s p (init_loop src pat rec fuel caps s p).
Proof using rec_ok Hsize.
  induction fuel as [|fuel IH]; intros caps s p Hc Hs Hp Hf; [lia|].
  assert (forall s' p', (s <= s' <= src_end)%nat -> (p < p' <= p_end)%nat ->
    mspec caps s' p' (init_loop src pat rec fuel caps s' p')) as Hinit.
  { intros s' p' Hs' Hp'. apply IH; [apply (caps_ok_mono caps s); [done|lia]|lia|lia|lia]. }
  assert (shape_at p = shape_at p) as Hsh by done. unfold shape_at at 2 in Hsh. cbn [init_loop].
  destruct (Nat.eqb_spec p p_end) as [->|Hne].
  { rewrite decide_True in Hsh by done. split; [lia|]. split; [done|by apply M_end]. }
  rewrite (decide_False (P := p = p_end)) in Hsh by done.
  unfold mspec. rd. fold (mspec caps s p).
  destruct (Z.eqb_spec (ch p) 40) as [E40|N40].
  { rewrite decide_True in Hsh by done. rd.
    destruct (Z.eqb_spec (ch (p + 1)) 41) as [E41|N41].
    - pose proof (ch_inside (p + 1) 41 ltac:(lia) E41). rewrite decide_True in Hsh by done.
      apply start_capture_spec; [done|done|lia|by left|]. intros e c. by apply matches_position.
    - rewrite decide_False in Hsh by done.
      apply start_capture_spec; [done|done|lia|by right|]. intros e c. by apply matches_open. }
  rewrite (decide_False (P := ch p = 40)) in Hsh by done.
  destruct (Z.eqb_spec (ch p) 41) as [E41|N41].
  { rewrite decide_True in Hsh by done. apply end_capture_spec; [done|done|lia|done]. }
  rewrite (decide_False (P := ch p = 41)) in Hsh by done.
  destruct ((ch p =? 36) && (p + 1 =? p_end)%nat) eqn:E36.
  { apply andb_true_iff in E36 as [E1 E2]. apply Z.eqb_eq in E1. apply Nat.eqb_eq in E2.
    rewrite decide_True in Hsh by done. destruct (Nat.eqb_spec s src_end) as [Es|Es].
    - split; [lia|]. split; [done|by apply M_dollar].
    - apply mspec_fail. intros e c. minv. }
  rewrite (decide_False (P := _ /\ _)) in Hsh.
  2: { intros [E1 E2]. rewrite E1, E2, Nat.eqb_refl in E36. done. }
  destruct (Z.eqb_spec (ch p) L_ESC) as [EE|NE].
  2: { rewrite decide_False in Hsh by done. apply dflt_spec; [done|done|lia|done|exact Hinit]. }
  rewrite decide_True in Hsh by done. rd.
  destruct (Z.eqb_spec (ch (p + 1)) 98) as [E98|N98].
  { rewrite decide_True in Hsh by done. pose proof (ch_inside (p + 1) 98 ltac:(lia) E98).
    eapply yields_bind; [apply matchbalance_spec; lia|]. intros r Er [Hp4 Hr].
    apply (moved_spec _ caps s p (p + 4) r); [done|intros e c; by apply matches_balance|].
    intros s' Hs'. apply Hinit; lia. }
  rewrite (decide_False (P := ch (p + 1) = 98)) in Hsh by done.
  destruct (Z.eqb_spec (ch (p + 1)) 102) as [E102|N102].
  { rewrite decide_True in Hsh by done. pose proof (ch_inside (p + 1) 102 ltac:(lia) E102).
    apply (frontier_case_spec (init_loop src pat rec fuel)); [done|lia|done|]. intros p' Hp'. apply Hinit; lia. }
  rewrite (decide_False (P := ch (p + 1) = 102)) in Hsh by done.
  destruct (isdigit (ch (p + 1))) eqn:Ed.
  { assert (ch (p + 1) <> 0) as H0 by (intros E0; by rewrite E0 in Ed).
    pose proof (ch_inside (p + 1) _ H0 eq_refl).
    eapply yields_bind; [by apply match_capture_spec|]. intros r Er Hr.
    apply (moved_spec _ caps s p (p + 2) r); [done|intros e c; by eapply matches_back|].
    intros s' Hs'. apply Hinit; lia. }
  apply dflt_spec; [done|done|lia|done|exact Hinit].
Qed.
End Calls.

(** [match] at any depth. *)
Lemma match_spec (Hsize : Z.of_nat src_end < 2 ^ 63) d : forall caps s p,
  caps_ok caps s -> (s <= src_end)%nat -> (p <= p_end)%nat -> mspec caps s p (match_ src pat d caps s p).
Proof.
  induction d as [|d IH]; intros caps s p Hc Hs Hp; [done|]. cbn [match_].
  apply match_loop_spec; [exact IH|done|done|done|done|lia].
Qed.
End Spec.
