(* ===== verification/LuaMatchErr.v ===== *)
(** * When Lua's pattern matcher raises an error

    The errors of [match] are errors of the pattern.  [well_formed] says what the
    manual asks of a pattern: classes, [%b] and [%f] are complete, every closing
    parenthesis closes an open one, a back reference names a closed capture, there
    are at most 32 captures and all are closed in the end.  The captures that are open
    at a place depend on the pattern alone.  Every recursive call of [match] goes past
    a parenthesis or a suffix, so [calls] of these bound the depth: the only other
    error is "pattern too complex", and only for a pattern with 200 or more of them. *)

From S2P Require Import Prelude Ctype LuaStr LuaMatch LuaMatchSpec.

(** The characters of a pattern that cost a recursive call. *)
Definition calling : bytes := [40; 41; 42; 43; 45; 63].

(** The number of these from [p] on. *)
Definition calls (pat : bytes) (p : nat) : nat := length (filter (fun c => c ∈ calling) (drop p pat)).

(** Which captures are open. *)
Definition opens (caps : captures) : list bool := (fun cap => bool_decide (cap_len cap = CAP_UNFINISHED)) <$> caps.

Definition all_closed (st : list bool) : Prop := Forall (fun b => b = false) st.

(** [well_formed pat st p]: from [p] on, with the captures [st] before. *)
Inductive well_formed (pat : bytes) : list bool -> nat -> Prop :=
| W_end st p : shape_at pat p = SEnd -> all_closed st -> well_formed pat st p
| W_position st p :
    shape_at pat p = SPosition -> (length st < LUA_MAXCAPTURES)%nat ->
    well_formed pat (st ++ [false]) (p + 2) -> well_formed pat st p
| W_open st p :
    shape_at pat p = SOpen -> (length st < LUA_MAXCAPTURES)%nat ->
    well_formed pat (st ++ [true]) (p + 1) -> well_formed pat st p
| W_close st p l :
    shape_at pat p = SClose -> st !! l = Some true -> (forall k, (l < k)%nat -> st !! k <> Some true) ->
    well_formed pat (<[l := false]> st) (p + 1) -> well_formed pat st p
| W_dollar st p : shape_at pat p = SDollar -> all_closed st -> well_formed pat st p
| W_balance st p :
    shape_at pat p = SBalance -> (p + 4 <= length pat)%nat -> well_formed pat st (p + 4) -> well_formed pat st p
| W_frontier st p ep :
    shape_at pat p = SFrontier -> byte_at pat (p + 2) = 91 -> classend pat (p + 2) = POk ep ->
    well_formed pat st ep -> well_formed pat st p
| W_back st p c :
    shape_at pat p = SBack c -> 49 <= c -> st !! Z.to_nat (c - 49) = Some false ->
    well_formed pat st (p + 2) -> well_formed pat st p
| W_item st p ep :
    shape_at pat p = SItem -> classend pat p = POk ep ->
    well_formed pat st (if decide (byte_at pat ep ∈ [42; 43; 45; 63]) then (ep + 1)%nat else ep) -> well_formed pat st p.

(** ** Errors of the helper functions *)

(** The computation raises no error of the pattern. *)
Definition internal {A} (m : pres A) : Prop := match m with POk _ => True | PErr e => ~ user_error e end.

Lemma internal_bind {A B} (m : pres A) (f : A -> pres B) : internal m -> (forall a, internal (f a)) -> internal (m ≫= f).
Proof. destruct m; cbn; auto. Qed.

Lemma internal_peek l i : internal (peek l i).
Proof. unfold peek. destruct (_ <=? _)%nat; [done|]. by intros [H _]. Qed.

Lemma internal_fuel {A} : internal (PErr MatchFuel : pres A).
Proof. by intros [_ H]. Qed.

Lemma internal_ok {A} (m : pres A) P : internal m -> yields m P -> exists a, m = POk a /\ P a.
Proof. destruct m as [a|e]; [by exists a|done]. Qed.

(** Take the reads and tests of a function apart. *)
Ltac inside :=
  repeat first
    [ lazymatch goal with |- internal (mbind _ (peek _ _)) => apply internal_bind; [apply internal_peek|intros ?] end
    | progress cbv zeta
    | match goal with |- internal (if ?b then _ else _) => destruct b end
    | done ].

Section Errors.
Context (src pat : bytes).
Notation src_end := (src_end src).
Notation p_end := (p_end pat).
Notation ch := (byte_at pat).
Notation classend := (classend pat).
Notation singlematch := (singlematch src pat).
Notation calls := (calls pat).
Notation well_formed := (well_formed pat).

Lemma bracket_loop_internal fuel c sig ec : forall p, internal (bracket_loop pat fuel c sig p ec).
Proof. induction fuel as [|fuel IH]; intros p; [apply internal_fuel|]. cbn [bracket_loop]. inside; apply IH. Qed.

Lemma matchbracketclass_internal c p ec : internal (matchbracketclass pat c p ec).
Proof. unfold matchbracketclass. inside; apply bracket_loop_internal. Qed.

Lemma singlematch_internal s p ep : internal (singlematch s p ep).
Proof. unfold LuaMatch.singlematch. inside; apply matchbracketclass_internal. Qed.

Lemma balance_loop_internal fuel b e : forall s cont, internal (balance_loop src fuel s b e cont).
Proof. induction fuel as [|fuel IH]; intros s cont; [apply internal_fuel|]. cbn [balance_loop]. inside; apply IH. Qed.

(** Single characters never raise an error. *)
Lemma singlematch_ok s p ep :
  (p < p_end)%nat -> classend p = POk ep -> exists b, singlematch s p ep = POk b /\ (b = true -> (s < src_end)%nat).
Proof. intros Hp He. by apply internal_ok; [apply singlematch_internal|apply singlematch_spec]. Qed.

Lemma matchbracketclass_ok c p ec : (p + 1 < ec)%nat -> (ec < p_end)%nat -> exists b, matchbracketclass pat c p ec = POk b.
Proof.
  intros H1 H2. destruct (internal_ok (matchbracketclass pat c p ec) (fun _ => True)) as (b & Hb & _);
    [apply matchbracketclass_internal|by apply matchbracketclass_spec|by exists b].
Qed.

(** A class raises only its own errors. *)
Definition not_deep {A} (m : pres A) : Prop := m <> PErr TooComplex.

Lemma not_deep_peek {B} l i (f : Z -> pres B) : (forall c, not_deep (f c)) -> not_deep (peek l i ≫= f).
Proof. intros H. unfold peek. destruct (_ <=? _)%nat; cbn; [apply H|done]. Qed.

Lemma class_loop_not_deep fuel : forall p, not_deep (class_loop pat fuel p).
Proof.
  induction fuel as [|fuel IH]; intros p; [done|]. cbn [class_loop]. destruct (_ =? p_end)%nat; [done|].
  apply not_deep_peek. intros c. cbv zeta. apply not_deep_peek. intros c'. destruct (negb _); [apply IH|done].
Qed.

Lemma classend_not_deep p : not_deep (classend p).
Proof.
  unfold LuaMatch.classend. apply not_deep_peek. intros c. cbv zeta.
  destruct (_ =? L_ESC); [by destruct (_ =? p_end)%nat|]. destruct (_ =? 91); [|done].
  apply not_deep_peek. intros c'. apply class_loop_not_deep.
Qed.

(** ** Counting *)

Lemma calls_mono p p' : (p <= p')%nat -> (calls p' <= calls p)%nat.
Proof.
  intros H. unfold LuaMatchErr.calls. replace p' with (p + (p' - p))%nat by lia. rewrite <- drop_drop.
  rewrite <- (take_drop (p' - p) (drop p pat)) at 2. rewrite filter_app, length_app. lia.
Qed.

Lemma calls_pass p i p' : (p <= i < p')%nat -> (i < p_end)%nat -> ch i ∈ calling -> (S (calls p') <= calls p)%nat.
Proof.
  intros Hi Hp Hc. pose proof (calls_mono p i ltac:(lia)). pose proof (calls_mono (S i) p' ltac:(lia)).
  assert (calls i = S (calls (S i))); [|lia].
  unfold LuaMatchErr.calls. destruct (lookup_lt_is_Some_2 pat i Hp) as [c Ec]. rewrite (drop_S _ _ _ Ec).
  rewrite filter_cons_True; [done|]. unfold byte_at in Hc. by rewrite Ec in Hc.
Qed.

Lemma well_formed_item st p ep :
  shape_at pat p = SItem -> classend p = POk ep -> well_formed st p ->
  well_formed st (if decide (ch ep ∈ [42; 43; 45; 63]) then (ep + 1)%nat else ep).
Proof. intros Hsh Hep Hw. inversion Hw as [| | | | | | | |? ? ep' _ Hep']; subst; try congruence. by assert (ep' = ep) as <- by congruence. Qed.

(** [%b] raises an error only when its arguments are missing. *)
Lemma matchbalance_cases s p :
  (s <= src_end)%nat -> (p <= p_end)%nat ->
  (p_end <= p + 1)%nat /\ matchbalance src pat s p = PErr MissingBalance \/
  (p + 2 <= p_end)%nat /\ exists r, matchbalance src pat s p = POk r /\ forall s', r = Some s' -> (s <= s' <= src_end)%nat.
Proof.
  intros Hs Hp. pose proof (matchbalance_spec src pat s p Hs Hp) as Hy. unfold matchbalance in *.
  destruct (Nat.leb_spec p_end (p + 1)); [by left|]. right.
  match type of Hy with yields ?m _ => assert (internal m) as Hi by (inside; apply balance_loop_internal) end.
  destruct (internal_ok _ _ Hi Hy) as (r & -> & H1 & H2). split; [done|]. by exists r.
Qed.

(** A back reference raises an error only when it names no closed capture. *)
Lemma match_capture_cases caps s c :
  caps_ok caps s -> (s <= src_end)%nat -> Z.of_nat src_end < 2 ^ 63 ->
  (exists e, match_capture src caps s c = PErr e /\ e <> TooComplex /\
     ~ (49 <= c /\ opens caps !! Z.to_nat (c - 49) = Some false)) \/
  exists r, match_capture src caps s c = POk r /\ forall s', r = Some s' -> (s <= s' <= src_end)%nat.
Proof.
  intros Hc Hs Hsize. pose proof (match_capture_spec src caps s c Hc Hs Hsize) as Hy. unfold match_capture in *.
  unfold opens. rewrite list_lookup_fmap. unfold check_capture in *.
  destruct (Z.ltb_spec (c - 49) 0); [left; eexists; split; [done|]; split; [done|lia]|].
  destruct (caps !! Z.to_nat (c - 49)) as [cap|]; [|left; eexists; split; [done|]; split; [done|by intros [_ ?]]].
  destruct (Z.eqb_spec (cap_len cap) CAP_UNFINISHED) as [E|E].
  { left. eexists. split; [done|]. split; [done|]. cbn. rewrite bool_decide_eq_true_2 by done. by intros [_ ?]. }
  right. cbn [mbind pres_bind] in *. destruct (caps !! _); [|by destruct Hy]. cbv zeta in *.
  destruct (_ <=? _); [|by eexists]. destruct (_ <? _)%nat; [by destruct Hy|]. by destruct (decide _); eexists.
Qed.

(** ** The matcher *)

(** What an error of a call says: "too complex" that there are [d] calls ahead, any
    other error that the pattern is not well formed; a match leaves the captures of a
    well-formed pattern closed. *)
Definition blames (d : nat) (caps : captures) (p : nat) (r : mres) : Prop :=
  match r with
  | POk (Some _, caps') => well_formed (opens caps) p -> all_closed (opens caps')
  | POk (None, _) => True
  | PErr TooComplex => (d <= calls p)%nat
  | PErr _ => ~ well_formed (opens caps) p
  end.

Lemma blames_err d caps p e : e <> TooComplex -> ~ well_formed (opens caps) p -> blames d caps p (PErr e).
Proof. by destruct e. Qed.

(** From a later place in the pattern. *)
Lemma blames_later d d' caps caps' p p' r :
  (well_formed (opens caps) p -> well_formed (opens caps') p') -> (d + calls p' <= d' + calls p)%nat ->
  blames d' caps' p' r -> blames d caps p r.
Proof.
  intros Hw Hc. destruct r as [[[e|] c]|e]; cbn; [auto|done|]. destruct e; cbn; try (intros H1 H2; by apply H1, Hw). lia.
Qed.

(** A call of [match] whose result is looked at. *)
Lemma blames_bind d d' caps caps' p p' r (f : option nat * captures -> mres) :
  (well_formed (opens caps) p -> well_formed (opens caps') p') -> (d + calls p' <= d' + calls p)%nat ->
  blames d' caps' p' r -> (forall e c, f (Some e, c) = POk (Some e, c)) ->
  (forall c, r = POk (None, c) -> blames d caps p (f (None, c))) ->
  blames d caps p (r ≫= f).
Proof.
  intros Hw Hc Hr Hf Hn. pose proof (blames_later d d' _ _ _ _ _ Hw Hc Hr) as H.
  destruct r as [[[e|] c]|e]; cbn [mbind pres_bind]; [by rewrite Hf|by apply Hn|done].
Qed.

Section Calls.
Context (d : nat) (rec : captures -> nat -> nat -> mres).
Context (rec_ok : forall caps s p, caps_ok caps s -> (s <= src_end)%nat -> (p <= p_end)%nat -> mspec src pat caps s p (rec caps s p)).
Context (rec_err : forall caps s p, caps_ok caps s -> (s <= src_end)%nat -> (p <= p_end)%nat -> blames d caps p (rec caps s p)).

(** A failing call leaves the captures as they were. *)
Lemma rec_none caps s p c :
  caps_ok caps s -> (s <= src_end)%nat -> (p <= p_end)%nat -> rec caps s p = POk (None, c) -> c = caps.
Proof using rec_ok. intros Hc Hs Hp E. pose proof (rec_ok caps s p Hc Hs Hp) as H. rewrite E in H. apply H. Qed.

Lemma opens_app caps s what : opens (caps ++ [Capture s what]) = opens caps ++ [bool_decide (what = CAP_UNFINISHED)].
Proof. unfold opens. by rewrite fmap_app. Qed.

Lemma start_capture_blames caps s p p' what :
  caps_ok caps s -> (s <= src_end)%nat -> (p' <= p_end)%nat ->
  what = CAP_POSITION /\ shape_at pat p = SPosition /\ p' = (p + 2)%nat \/
  what = CAP_UNFINISHED /\ shape_at pat p = SOpen /\ p' = (p + 1)%nat ->
  (S (calls p') <= calls p)%nat -> blames (S d) caps p (start_capture rec caps s p' what).
Proof using rec_ok rec_err.
  intros Hc Hs Hp' Hcase Hcalls. unfold start_capture.
  assert (length (opens caps) = length caps) as Hl by apply length_fmap.
  destruct (Nat.leb_spec LUA_MAXCAPTURES (length caps)) as [Hmax|Hmax].
  { apply blames_err; [done|]. intros Hw. destruct Hcase as [(_ & Hsh & _)|(_ & Hsh & _)]; inversion Hw; subst; try congruence; lia. }
  eapply blames_bind; [| |apply rec_err; [|done|exact Hp']|done|done].
  - rewrite opens_app. destruct Hcase as [(-> & Hsh & ->)|(-> & Hsh & ->)]; intros Hw; inversion Hw; subst; congruence || done.
  - lia.
  - destruct Hc as [Hl1 Hc]. split; [rewrite length_app; cbn; lia|]. apply Forall_app. split; [done|].
    apply Forall_singleton. split; cbn; [lia|]. destruct Hcase as [(-> & _)|(-> & _)]; auto.
Qed.

Lemma opens_set_len caps l cap len :
  caps !! l = Some cap -> opens (set_len caps l len) = <[l := bool_decide (len = CAP_UNFINISHED)]> (opens caps).
Proof. intros E. unfold set_len, opens. rewrite E. by rewrite list_fmap_insert. Qed.

(** [capture_to_close] finds the last open capture. *)
Lemma close_loop_opens caps n :
  (n <= length caps)%nat ->
  match close_loop caps n with
  | POk l => opens caps !! l = Some true /\ forall k, (l < k < n)%nat -> opens caps !! k <> Some true
  | PErr e => e = BadCapture /\ forall k, (k < n)%nat -> opens caps !! k <> Some true
  end.
Proof.
  induction n as [|n IH]; intros Hn; cbn [close_loop]; [split; [done|lia]|].
  destruct (lookup_lt_is_Some_2 caps n ltac:(lia)) as [cap E]. rewrite E.
  assert (opens caps !! n = Some (bool_decide (cap_len cap = CAP_UNFINISHED))) as Eo by (unfold opens; by rewrite list_lookup_fmap, E).
  destruct (Z.eqb_spec (cap_len cap) CAP_UNFINISHED) as [Hu|Hu].
  - rewrite Eo, bool_decide_eq_true_2 by done. split; [done|lia].
  - rewrite bool_decide_eq_false_2 in Eo by done. specialize (IH ltac:(lia)). destruct (close_loop caps n) as [l|e].
    + destruct IH as [Hl Hk]. split; [done|]. intros k Hk'. destruct (decide (k = n)) as [->|]; [congruence|apply Hk; lia].
    + destruct IH as [-> Hk]. split; [done|]. intros k Hk'. destruct (decide (k = n)) as [->|]; [congruence|apply Hk; lia].
Qed.

Lemma opens_above caps k : opens caps !! k = Some true -> (k < length caps)%nat.
Proof. intros H%lookup_lt_Some. unfold opens in H. by rewrite length_fmap in H. Qed.

Lemma end_capture_blames caps s p :
  caps_ok caps s -> (s <= src_end)%nat -> (p < p_end)%nat -> shape_at pat p = SClose ->
  (S (calls (p + 1)) <= calls p)%nat -> blames (S d) caps p (end_capture rec caps s (p + 1)).
Proof using rec_err.
  intros Hc Hs Hp Hsh Hcalls. unfold end_capture, capture_to_close.
  pose proof (close_loop_opens caps (length caps) ltac:(done)) as Hcl.
  destruct (close_loop caps (length caps)) as [l|e]; cbn [mbind pres_bind].
  2: { destruct Hcl as [-> Hno]. apply blames_err; [done|]. intros Hw. inversion Hw; subst; try congruence.
       eapply Hno; [by eapply opens_above|done]. }
  destruct Hcl as [Hl Hno]. destruct (lookup_lt_is_Some_2 caps l (opens_above _ _ Hl)) as [cap E]. rewrite E.
  eapply blames_bind; [| |apply rec_err; [by apply set_len_ok|done|lia]|done|done].
  - rewrite (opens_set_len caps l cap) by done. rewrite bool_decide_eq_false_2.
    2: { destruct Hc as [_ Hc]. rewrite Forall_lookup in Hc. destruct (Hc _ _ E) as [Hi _]. unfold CAP_UNFINISHED. lia. }
    intros Hw. inversion Hw as [| | |st p0 l0 _ H1 H2 H3| | | | |]; subst; try congruence. assert (l0 = l) as <-; [|done].
    destruct (Nat.lt_trichotomy l0 l) as [Hlt|[->|Hlt]]; [by apply H2 in Hl|done|].
    exfalso. apply (Hno l0); [|done]. pose proof (opens_above _ _ H1). lia.
  - lia.
Qed.

(** The item at [p] and what it repeats. *)
Section Item.
Context (caps : captures) (p ep : nat) (Hp : (p < p_end)%nat) (Hep : classend p = POk ep).
Context (Hnext : well_formed (opens caps) p -> well_formed (opens caps) (ep + 1)) (He : (ep + 1 <= p_end)%nat)
  (Hcalls : (S (calls (ep + 1)) <= calls p)%nat).

Lemma max_loop_blames s i :
  caps_ok caps s -> (s + i <= src_end)%nat -> blames (S d) caps p (max_loop rec i caps s ep).
Proof using rec_ok rec_err Hp Hep Hnext He Hcalls.
  induction i as [|i IH]; intros Hc Hi; cbn [max_loop];
    (eapply (blames_bind _ d); [exact Hnext|lia|apply rec_err; [apply (caps_ok_mono caps s); [done|lia]|lia|done]|done|]); [done|].
  intros c E. apply rec_none in E as ->; [apply IH; [done|lia]|apply (caps_ok_mono caps s); [done|lia]|lia|done].
Qed.

Lemma count_loop_internal fuel s : forall i, internal (count_loop src pat fuel s i p ep).
Proof.
  induction fuel as [|fuel IH]; intros i; [apply internal_fuel|]. cbn [count_loop].
  apply internal_bind; [apply singlematch_internal|]. intros []; [apply IH|done].
Qed.

Lemma max_expand_blames s :
  caps_ok caps s -> (s <= src_end)%nat -> blames (S d) caps p (max_expand src pat rec caps s p ep).
Proof using rec_ok rec_err Hp Hep Hnext He Hcalls.
  intros Hc Hs. unfold max_expand.
  destruct (internal_ok _ _ (count_loop_internal (S src_end) s 0)
    (count_loop_spec src pat (S src_end) s p ep 0 Hp Hep ltac:(lia) ltac:(lia) (repeats_0 src pat s p ep))) as (i & -> & _ & Hi & _).
  cbn [mbind pres_bind]. by apply max_loop_blames.
Qed.

Lemma min_expand_blames fuel : forall s,
  caps_ok caps s -> (s <= src_end)%nat -> (src_end < s + fuel)%nat ->
  blames (S d) caps p (min_expand src pat rec fuel caps s p ep).
Proof using rec_ok rec_err Hp Hep Hnext He Hcalls.
  induction fuel as [|fuel IH]; intros s Hc Hs Hf; [lia|]. cbn [min_expand].
  eapply (blames_bind _ d); [exact Hnext|lia|by apply rec_err|done|]. intros c E. apply rec_none in E as ->; [|done..].
  destruct (singlematch_ok s p ep Hp Hep) as (b & -> & Hb). cbn [mbind pres_bind]. destruct b; [|done].
  specialize (Hb eq_refl). apply IH; [apply (caps_ok_mono caps s); [done|lia]|lia|lia].
Qed.
End Item.

Lemma dflt_blames (init : captures -> nat -> nat -> mres) caps s p :
  caps_ok caps s -> (s <= src_end)%nat -> (p < p_end)%nat -> shape_at pat p = SItem ->
  (forall s' p', (s <= s' <= src_end)%nat -> (p < p' <= p_end)%nat -> blames (S d) caps p' (init caps s' p')) ->
  blames (S d) caps p (dflt src pat rec init caps s p).
Proof using rec_ok rec_err.
  intros Hc Hs Hp Hsh Hinit. unfold dflt.
  pose proof (classend_spec pat p Hp) as Hce. pose proof (classend_not_deep p) as Hnd.
  destruct (classend p) as [ep|e] eqn:Eep; cbn [mbind pres_bind].
  2: { apply blames_err; [unfold not_deep in Hnd; congruence|]. intros Hw. inversion Hw; subst; congruence. }
  destruct Hce as [Hep _]. destruct (singlematch_ok s p ep Hp Eep) as (b & -> & Hb). cbn [mbind pres_bind].
  rewrite (peek_pat pat) by lia. cbn [mbind pres_bind].
  assert (ch ep ∈ [42; 43; 45; 63] ->
    (ep + 1 <= p_end)%nat /\ (S (calls (ep + 1)) <= calls p)%nat /\ (well_formed (opens caps) p -> well_formed (opens caps) (ep + 1))) as Hsuf.
  { intros Hx. assert (ep < p_end)%nat as Hin by (eapply char_inside; [|done]; intros E0; rewrite E0 in Hx; set_solver).
    split; [lia|]. split; [apply (calls_pass p ep); [lia|done|unfold calling; set_solver]|].
    intros Hw. pose proof (well_formed_item _ p ep Hsh Eep Hw) as H. by rewrite decide_True in H. }
  assert (forall s', (s <= s' <= src_end)%nat -> ch ep ∈ [42; 43; 45; 63] -> blames (S d) caps p (init caps s' (ep + 1)%nat)) as Hskip.
  { intros s' Hs' Hx. destruct (Hsuf Hx) as (H1 & H2 & H3). eapply blames_later; [exact H3| |apply Hinit; lia]. lia. }
  destruct b; cbn [negb].
  2: { destruct ((ch ep =? 42) || (ch ep =? 63) || (ch ep =? 45)) eqn:Ex; [|done]. apply Hskip; [lia|].
       apply orb_true_iff in Ex as [Ex|Ex]; [apply orb_true_iff in Ex as [Ex|Ex]|]; apply Z.eqb_eq in Ex as ->; set_solver. }
  specialize (Hb eq_refl). destruct (Z.eqb_spec (ch ep) 63) as [E|N63].
  { assert (ch ep ∈ [42; 43; 45; 63]) as Hx by (rewrite E; set_solver). destruct (Hsuf Hx) as (H1 & H2 & H3).
    assert (caps_ok caps (s + 1)) as Hc1 by (apply (caps_ok_mono caps s); [done|lia]).
    eapply blames_bind; [exact H3| |apply rec_err; [done|lia|lia]|done|]; [lia|]. intros c Ec.
    apply rec_none in Ec as ->; [|done|lia|lia]. apply Hskip; [lia|done]. }
  destruct (Z.eqb_spec (ch ep) 43) as [E|N43].
  { destruct (Hsuf ltac:(rewrite E; set_solver)) as (H1 & H2 & H3).
    apply max_expand_blames; [done..|apply (caps_ok_mono caps s); [done|lia]|lia]. }
  destruct (Z.eqb_spec (ch ep) 42) as [E|N42].
  { destruct (Hsuf ltac:(rewrite E; set_solver)) as (H1 & H2 & H3). by apply max_expand_blames. }
  destruct (Z.eqb_spec (ch ep) 45) as [E|N45].
  { destruct (Hsuf ltac:(rewrite E; set_solver)) as (H1 & H2 & H3). apply min_expand_blames; [done..|lia]. }
  eapply blames_later; [| |apply Hinit; lia]; [|pose proof (calls_mono p ep ltac:(lia)); lia].
  intros Hw. pose proof (well_formed_item _ p ep Hsh Eep Hw) as H. by rewrite decide_False in H by set_solver.
Qed.

Context (Hsize : Z.of_nat src_end < 2 ^ 63).

(** A turn of the [goto] after a test that can fail. *)
Lemma moved_blames (init : captures -> nat -> nat -> mres) caps p p' (r : option nat) :
  (well_formed (opens caps) p -> well_formed (opens caps) p') -> (p <= p')%nat ->
  (forall s', r = Some s' -> blames (S d) caps p' (init caps s' p')) ->
  blames (S d) caps p (match r with Some s => init caps s p' | None => POk (None, caps) end).
Proof.
  intros Hw Hp H. destruct r as [s'|]; [|done]. eapply blames_later; [exact Hw| |by apply H].
  pose proof (calls_mono p p' Hp). lia.
Qed.

Lemma frontier_case_blames (init : captures -> nat -> nat -> mres) caps s p :
  (s <= src_end)%nat -> (p + 2 <= p_end)%nat -> shape_at pat p = SFrontier ->
  (forall p', (p < p' <= p_end)%nat -> blames (S d) caps p' (init caps s p')) ->
  blames (S d) caps p (frontier_case src pat init caps s (p + 2)).
Proof.
  intros Hs Hp Hsh Hinit. unfold frontier_case. rewrite (peek_pat pat) by lia. cbn [mbind pres_bind].
  destruct (Z.eqb_spec (ch (p + 2)) 91) as [E|E]; cbn [negb].
  2: { apply blames_err; [done|]. intros Hw. inversion Hw; subst; congruence. }
  assert (p + 2 < p_end)%nat as Hin by (eapply char_inside; [|exact E]; lia).
  pose proof (classend_spec pat (p + 2) Hin) as Hce. pose proof (classend_not_deep (p + 2)) as Hnd.
  destruct (classend (p + 2)) as [ep|e] eqn:Eep; cbn [mbind pres_bind].
  2: { apply blames_err; [unfold not_deep in Hnd; congruence|]. intros Hw. inversion Hw; subst; congruence. }
  destruct Hce as [Hep Hep']. specialize (Hep' E).
  assert (exists c, (if (s =? 0)%nat then POk 0 else peek src (s - 1)) = POk c) as (c & ->).
  { destruct (s =? 0)%nat; [by eexists|]. rewrite (peek_src src) by lia. by eexists. }
  cbn [mbind pres_bind]. destruct (matchbracketclass_ok c (p + 2) (ep - 1) ltac:(lia) ltac:(lia)) as (b & ->). cbn [mbind pres_bind].
  rewrite (peek_src src) by lia. cbn [mbind pres_bind].
  destruct (matchbracketclass_ok (byte_at src s) (p + 2) (ep - 1) ltac:(lia) ltac:(lia)) as (b' & ->).
  assert (well_formed (opens caps) p -> well_formed (opens caps) ep) as Hw.
  { intros Hw. inversion Hw; subst; congruence. }
  assert (blames (S d) caps p (init caps s ep)) as Hi.
  { eapply blames_later; [exact Hw| |apply Hinit; lia]. pose proof (calls_mono p ep ltac:(lia)). lia. }
  by destruct b, b'.
Qed.

Lemma init_loop_blames fuel : forall caps s p,
  caps_ok caps s -> (s <= src_end)%nat -> (p <= p_end)%nat -> (p_end < p + fuel)%nat ->
  blames (S d) caps p (init_loop src pat rec fuel caps s p).
Proof using rec_ok rec_err Hsize.
  induction fuel as [|fuel IH]; intros caps s p Hc Hs Hp Hf; [lia|].
  assert (forall s' p', (s <= s' <= src_end)%nat -> (p < p' <= p_end)%nat ->
    blames (S d) caps p' (init_loop src pat rec fuel caps s' p')) as Hinit.
  { intros s' p' Hs' Hp'. apply IH; [apply (caps_ok_mono caps s); [done|lia]|lia|lia|lia]. }
  assert (shape_at pat p = shape_at pat p) as Hsh by done. unfold shape_at at 2 in Hsh. cbn [init_loop].
  destruct (Nat.eqb_spec p p_end) as [->|Hne].
  { rewrite decide_True in Hsh by done. cbn. intros Hw. inversion Hw; subst; congruence || done. }
  rewrite (decide_False (P := p = p_end)) in Hsh by done.
  assert (p < p_end)%nat as Hin by lia.
  rewrite (peek_pat pat p) by lia. cbn [mbind pres_bind].
  destruct (Z.eqb_spec (ch p) 40) as [E40|N40].
  { rewrite decide_True in Hsh by done. rewrite (peek_pat pat (p + 1)) by lia. cbn [mbind pres_bind].
    assert (forall q, (p < q)%nat -> (S (calls q) <= calls p)%nat) as Hcalls
      by (intros q Hq; apply (calls_pass p p); [lia|done|rewrite E40; unfold calling; set_solver]).
    destruct (Z.eqb_spec (ch (p + 1)) 41) as [E41|N41].
    - pose proof (char_inside pat (p + 1) 41 ltac:(lia) E41). rewrite decide_True in Hsh by done. unfold p_end in *.
      apply start_capture_blames; [done|done|unfold p_end; lia|by left|apply Hcalls; lia].
    - rewrite decide_False in Hsh by done.
      apply start_capture_blames; [done|done|lia|by right|apply Hcalls; lia]. }
  rewrite (decide_False (P := ch p = 40)) in Hsh by done.
  destruct (Z.eqb_spec (ch p) 41) as [E41|N41].
  { rewrite decide_True in Hsh by done. apply end_capture_blames; [done|done|lia|done|].
    apply (calls_pass p p); [lia|done|rewrite E41; unfold calling; set_solver]. }
  rewrite (decide_False (P := ch p = 41)) in Hsh by done.
  destruct ((ch p =? 36) && (p + 1 =? p_end)%nat) eqn:E36.
  { apply andb_true_iff in E36 as [E1 E2]. apply Z.eqb_eq in E1. apply Nat.eqb_eq in E2.
    rewrite decide_True in Hsh by done. destruct (s =? src_end)%nat; [|done]. cbn.
    intros Hw. inversion Hw; subst; congruence || done. }
  rewrite (decide_False (P := _ /\ _)) in Hsh.
  2: { intros [E1 E2]. rewrite E1, E2, Nat.eqb_refl in E36. done. }
  destruct (Z.eqb_spec (ch p) L_ESC) as [EE|NE].
  2: { rewrite decide_False in Hsh by done. apply dflt_blames; [done|done|lia|done|exact Hinit]. }
  rewrite decide_True in Hsh by done. rewrite (peek_pat pat (p + 1)) by lia. cbn [mbind pres_bind].
  destruct (Z.eqb_spec (ch (p + 1)) 98) as [E98|N98].
  { rewrite decide_True in Hsh by done. pose proof (char_inside pat (p + 1) 98 ltac:(lia) E98).
    destruct (matchbalance_cases s (p + 2)) as [[Hm ->]|(Hm & r & -> & Hr)]; [done|unfold p_end; lia|cbn [mbind pres_bind]..].
    - apply blames_err; [done|]. intros Hw. inversion Hw; subst; try congruence. unfold p_end in *. lia.
    - apply (moved_blames _ caps p (p + 4) r); [|lia|intros s' E; specialize (Hr s' E); apply Hinit; lia].
      intros Hw. inversion Hw; subst; congruence || done. }
  rewrite (decide_False (P := ch (p + 1) = 98)) in Hsh by done.
  destruct (Z.eqb_spec (ch (p + 1)) 102) as [E102|N102].
  { rewrite decide_True in Hsh by done. pose proof (char_inside pat (p + 1) 102 ltac:(lia) E102).
    apply (frontier_case_blames (init_loop src pat rec fuel)); [done|unfold p_end; lia|done|]. intros p' Hp'. apply Hinit; lia. }
  rewrite (decide_False (P := ch (p + 1) = 102)) in Hsh by done.
  destruct (isdigit (ch (p + 1))) eqn:Ed.
  { assert (ch (p + 1) <> 0) as H0 by (intros E0; by rewrite E0 in Ed).
    pose proof (char_inside pat (p + 1) _ H0 eq_refl).
    destruct (match_capture_cases caps s (ch (p + 1)) Hc Hs Hsize) as [(e & -> & He & Hno)|(r & -> & Hr)]; cbn [mbind pres_bind].
    - apply blames_err; [done|]. intros Hw. inversion Hw as [| | | | | | |st p0 c0 Hs0 H1 H2| ]; subst; try congruence.
      apply Hno. by assert (c0 = ch (p + 1)) as <- by congruence.
    - apply (moved_blames _ caps p (p + 2) r); [|lia|intros s' E; specialize (Hr s' E); apply Hinit; [lia|unfold p_end; lia]].
      intros Hw. inversion Hw; subst; congruence || done. }
  apply dflt_blames; [done|done|lia|done|exact Hinit].
Qed.
End Calls.

Lemma match_blames (Hsize : Z.of_nat src_end < 2 ^ 63) d : forall caps s p,
  caps_ok caps s -> (s <= src_end)%nat -> (p <= p_end)%nat -> blames d caps p (match_ src pat d caps s p).
Proof.
  induction d as [|d IH]; intros caps s p Hc Hs Hp; [cbn; lia|]. cbn [match_].
  apply init_loop_blames; [by intros; apply match_spec|exact IH|done|done|done|done|lia].
Qed.
End Errors.
