(* ===== verification/LuaFind.v ===== *)
(** * string.find, match, gmatch and gsub ([src/dep/lua-5.2.3/src/lstrlib.c])

    The library functions on top of the matcher.  [find] with a plain pattern is
    a substring search; the theorems relate it to the first occurrence, and
    [find]/[match] to the first position where the relation [matches] holds. *)

From S2P Require Import Prelude Ctype LuaStr LuaMatch LuaMatchSpec LuaMatchErr.

(** ** Plain search *)

(** The first index of [c]. *)
Fixpoint memchr_list (l : bytes) (c : Z) : option nat :=
  match l with
  | [] => None
  | x :: l' => if x =? c then Some O else S <$> memchr_list l' c
  end.

(** The [while] loop: [off] is [s1], [l1] what is left to search. *)
Fixpoint lmemfind_loop (fuel : nat) (s1 s2 : bytes) (off l1 l2 : nat) : pres (option nat) :=
  match fuel with
  | O => PErr MatchFuel
  | S fuel' =>
      if (l1 =? 0)%nat then POk None else
      match memchr_list (take l1 (drop off s1)) (default 0 (s2 !! 0%nat)) with
      | None => POk None
      | Some i =>
          let init := S (off + i) in
          if decide (take l2 (drop init s1) = take l2 (drop 1 s2)) then POk (Some (init - 1)%nat)
          else lmemfind_loop fuel' s1 s2 init (l1 - (init - off)) l2
      end
  end.

Definition lmemfind (s1 s2 : bytes) : pres (option nat) :=
  let l1 := length s1 in let l2 := length s2 in
  if (l2 =? 0)%nat then POk (Some O)
  else if (l1 <? l2)%nat then POk None
  else let l2 := (l2 - 1)%nat in lmemfind_loop (S l1) s1 s2 0 (l1 - l2) l2.

(** ** Captures as values *)

Inductive pvalue := PStr (s : bytes) | PInt (i : Z) | PNil.

Section Values.
Context (src : bytes).

Definition substring (i n : nat) : bytes := take n (drop i src).

(** [s] and [e] delimit the whole match; [None] is a null pointer. *)
Definition push_onecapture (caps : captures) (i : nat) (s e : nat) : pres pvalue :=
  match caps !! i with
  | None => if (i =? 0)%nat then POk (PStr (substring s (e - s))) else PErr (BadCaptureIndex (Z.of_nat i))
  | Some cap =>
      let l := cap_len cap in
      if l =? CAP_UNFINISHED then PErr Unfinished
      else if l =? CAP_POSITION then POk (PInt (Z.of_nat (cap_init cap) + 1))
      else if (length src <? cap_init cap + Z.to_nat l)%nat then PErr OutOfBounds
      else POk (PStr (substring (cap_init cap) (Z.to_nat l)))
  end.

(** [for (i = 0; i < n; i++) push_onecapture(ms, i, s, e)] from [i]. *)
Fixpoint push_loop (caps : captures) (i n : nat) (s e : nat) : pres (list pvalue) :=
  match n with
  | O => POk []
  | S n' => v ← push_onecapture caps i s e; vs ← push_loop caps (S i) n' s e; POk (v :: vs)
  end.

(** [find] passes a null pointer, so a match without captures pushes nothing. *)
Definition push_captures (caps : captures) (whole : option (nat * nat)) : pres (list pvalue) :=
  match whole with
  | Some (s, e) => push_loop caps 0 (if (length caps =? 0)%nat then 1 else length caps) s e
  | None => push_loop caps 0 (length caps) 0 0
  end.
End Values.

(** ** [str_find_aux] *)

Definition SPECIALS : bytes := [94; 36; 42; 43; 63; 46; 40; 91; 37; 45].

(** The string up to the next zero byte, as [strpbrk] and [strlen] see it. *)
Fixpoint cstr (l : bytes) : bytes :=
  match l with [] => [] | c :: l' => if c =? 0 then [] else c :: cstr l' end.

Definition is_special (c : Z) : bool := existsb (Z.eqb c) SPECIALS.

Fixpoint nospecials_loop (fuel : nat) (p : bytes) (upto : nat) : pres bool :=
  match fuel with
  | O => PErr MatchFuel
  | S fuel' =>
      let piece := cstr (drop upto p) in
      if existsb is_special piece then POk false else
      let upto := (upto + (length piece + 1))%nat in
      if (upto <=? length p)%nat then nospecials_loop fuel' p upto else POk true
  end.

Definition nospecials (p : bytes) : pres bool := nospecials_loop (S (length p)) p 0.

(** The [do] loop: the first position from [s1] on where the pattern matches. *)
Fixpoint find_loop (fuel : nat) (s p : bytes) (anchor : bool) (s1 : nat) : pres (option (nat * nat * captures)) :=
  match fuel with
  | O => PErr MatchFuel
  | S fuel' =>
      '(res, caps) ← match_ s p MAXCCALLS [] s1 0;
      match res with
      | Some e => POk (Some (s1, e, caps))
      | None => if (s1 <? length s)%nat && negb anchor then find_loop fuel' s p anchor (S s1) else POk None
      end
  end.

(** [p + 1] and [lp - 1] when the pattern is anchored. *)
Definition anchored (p : bytes) : bool := default 0 (p !! 0%nat) =? 94.
Definition skip_anchor (p : bytes) : bytes := if anchored p then drop 1 p else p.

Definition str_find_aux (find : bool) (s p : bytes) (init : Z) (plain : bool) : pres (list pvalue) :=
  let ls := slen s in
  let init := posrelat init ls in
  let init := if init <? 1 then 1 else init in
  if ls + 1 <? init then POk [PNil] else
  let i := Z.to_nat (init - 1) in
  b ← (if find then (if plain then POk true else nospecials p) else POk false);
  if b : bool then
    r ← lmemfind (drop i s) p;
    match r with
    | Some k => POk [PInt (Z.of_nat (i + k) + 1); PInt (Z.of_nat (i + k) + slen p)]
    | None => POk [PNil]
    end
  else
    r ← find_loop (length s - i + 1) s (skip_anchor p) (anchored p) i;
    match r with
    | Some (s1, e, caps) =>
        if find then
          vs ← push_captures s caps None;
          POk ([PInt (Z.of_nat s1 + 1); PInt (Z.of_nat e)] ++ vs)
        else push_captures s caps (Some (s1, e))
    | None => POk [PNil]
    end.

Definition str_find (s p : bytes) (init : Z) (plain : bool) : pres (list pvalue) := str_find_aux true s p init plain.
Definition str_match (s p : bytes) (init : Z) : pres (list pvalue) := str_find_aux false s p init false.

(** ** [gmatch] *)

(** The closure's third upvalue is the position to start from; an empty result is
    the end of the iteration. *)
Fixpoint gmatch_loop (fuel : nat) (s p : bytes) (src : nat) : pres (option (nat * nat * captures)) :=
  match fuel with
  | O => PErr MatchFuel
  | S fuel' =>
      if (src <=? length s)%nat then
        '(res, caps) ← match_ s p MAXCCALLS [] src 0;
        match res with
        | Some e => POk (Some (src, e, caps))
        | None => gmatch_loop fuel' s p (S src)
        end
      else POk None
  end.

Definition gmatch_aux (s p : bytes) (pos : nat) : pres (list pvalue * nat) :=
  r ← gmatch_loop (S (S (length s)) - pos) s p pos;
  match r with
  | Some (src, e, caps) =>
      let newstart := if (e =? src)%nat then S e else e in
      vs ← push_captures s caps (Some (src, e));
      POk (vs, newstart)
  | None => POk ([], pos)
  end.

(** ** [gsub] *)

(** Decimal digits, as positions are printed. *)
Fixpoint digits (fuel : nat) (n : Z) (acc : bytes) : bytes :=
  match fuel with
  | O => acc
  | S fuel' => let acc := 48 + n mod 10 :: acc in if n / 10 =? 0 then acc else digits fuel' (n / 10) acc
  end.

Definition addvalue (v : pvalue) : bytes :=
  match v with PStr s => s | PInt i => digits 20 i [] | PNil => [] end.

(** What a replacement function or table returns. *)
Inductive rvalue := RFalse | RValue (v : pvalue) | ROther.

Inductive replacement :=
| ReplString (news : bytes)
| ReplFunction (f : list pvalue -> rvalue)
| ReplTable (f : pvalue -> rvalue).

Section Gsub.
Context (src : bytes).

(** The [for] loop of [add_s]: the rest of the replacement string. *)
Fixpoint add_s (news : bytes) (caps : captures) (s e : nat) : pres bytes :=
  match news with
  | [] => POk []
  | c :: news' =>
      if negb (c =? L_ESC) then rest ← add_s news' caps s e; POk (c :: rest)
      else
        match news' with
        | [] => PErr BadReplacement
        | d :: news'' =>
            piece ← (if negb (isdigit d) then (if negb (d =? L_ESC) then PErr BadReplacement else POk [d])
                     else if d =? 48 then POk (substring src s (e - s))
                     else v ← push_onecapture src caps (Z.to_nat (d - 49)) s e; POk (addvalue v));
            rest ← add_s news'' caps s e;
            POk (piece ++ rest)
        end
  end.

(** The end of [add_value]: nil and false keep the original text. *)
Definition add_result (r : rvalue) (s e : nat) : pres bytes :=
  match r with
  | RFalse => POk (substring src s (e - s))
  | RValue v => POk (addvalue v)
  | ROther => PErr BadValue
  end.

Definition add_value (tr : replacement) (caps : captures) (s e : nat) : pres bytes :=
  match tr with
  | ReplFunction f => vs ← push_captures src caps (Some (s, e)); add_result (f vs) s e
  | ReplTable f => v ← push_onecapture src caps 0 s e; add_result (f v) s e
  | ReplString news => add_s news caps s e
  end.

(** The [while] loop: [n] substitutions so far, [b] the buffer, [s] the position. *)
Fixpoint gsub_loop (fuel : nat) (p : bytes) (tr : replacement) (anchor : bool) (max_s n : Z) (b : bytes) (s : nat)
    : pres (bytes * nat * Z) :=
  match fuel with
  | O => PErr MatchFuel
  | S fuel' =>
      if n <? max_s then
        '(res, caps) ← match_ src p MAXCCALLS [] s 0;
        '(n, b) ← match res with
                  | Some e => piece ← add_value tr caps s e; POk (n + 1, b ++ piece)
                  | None => POk (n, b)
                  end;
        match (match res with Some e => if (s <? e)%nat then Some e else None | None => None end) with
        | Some e => if anchor then POk (b, e, n) else gsub_loop fuel' p tr anchor max_s n b e
        | None =>
            if (s <? length src)%nat then
              let b := b ++ [default 0 (src !! s)] in
              if anchor then POk (b, S s, n) else gsub_loop fuel' p tr anchor max_s n b (S s)
            else POk (b, s, n)
        end
      else POk (b, s, n)
  end.

Definition str_gsub (p : bytes) (tr : replacement) (max_s : option Z) : pres (bytes * Z) :=
  let max_s := u64 (default (slen src + 1) max_s) in
  '(b, s, n) ← gsub_loop (S (S (length src))) (skip_anchor p) tr (anchored p) max_s 0 [] 0;
  POk (b ++ drop s src, n).
End Gsub.

(** ** Plain search finds the first occurrence *)

Definition occurs (s1 s2 : bytes) (k : nat) : Prop := s2 `prefix_of` drop k s1.

#[export] Instance occurs_dec s1 s2 k : Decision (occurs s1 s2 k).
Proof. unfold occurs. apply _. Defined.

(** [r] is the first index in [[lo, hi)] that satisfies [P], if any. *)
Definition first_in (P : nat -> Prop) (lo hi : nat) (r : option nat) : Prop :=
  match r with
  | Some k => (lo <= k < hi)%nat /\ P k /\ forall j, (lo <= j < k)%nat -> ~ P j
  | None => forall j, (lo <= j < hi)%nat -> ~ P j
  end.

Lemma first_in_unique P lo hi r r' : first_in P lo hi r -> first_in P lo hi r' -> r = r'.
Proof.
  destruct r as [k|], r' as [k'|]; cbn.
  - intros (H1 & H2 & H3) (H1' & H2' & H3'). f_equal. destruct (lt_eq_lt_dec k k') as [[H|H]|H]; [|done|].
    + exfalso. by apply (H3' k); [lia|].
    + exfalso. by apply (H3 k'); [lia|].
  - intros (H1 & H2 & _) H. exfalso. by apply (H k).
  - intros H (H1 & H2 & _). exfalso. by apply (H k').
  - done.
Qed.

Lemma memchr_list_spec l c : first_in (fun i => l !! i = Some c) 0 (length l) (memchr_list l c).
Proof.
  induction l as [|x l IH]; [intros j Hj; cbn in Hj; lia|]. cbn [memchr_list length].
  destruct (Z.eqb_spec x c) as [->|Hne].
  - split; [lia|]. split; [done|]. intros j Hj. lia.
  - destruct (memchr_list l c) as [k|]; cbn in *.
    + destruct IH as (Hk & Hc & Hno). split; [lia|]. split; [done|]. intros [|j] Hj; [cbn; congruence|].
      apply Hno. lia.
    + intros [|j] Hj; [cbn; congruence|]. apply IH. lia.
Qed.

Lemma occurs_head s1 s2 k c :
  s2 !! 0%nat = Some c -> occurs s1 s2 k <-> s1 !! k = Some c /\ take (length s2 - 1) (drop (S k) s1) = drop 1 s2.
Proof.
  destruct s2 as [|x s2]; [done|]. intros [= ->]. unfold occurs. cbn [length drop].
  replace (S (length s2) - 1)%nat with (length s2) by lia. rewrite drop_0.
  destruct (s1 !! k) as [y|] eqn:E.
  - rewrite (drop_S _ _ _ E). split.
    + intros [r Hr]. injection Hr as -> ->. split; [done|]. by rewrite take_app_length.
    + intros [[= ->] Ht]. exists (drop (length s2) (drop (S k) s1)). cbn. f_equal. rewrite <- Ht at 1.
      symmetry. apply take_drop.
  - split; [|by intros [? _]]. intros [r Hr]. rewrite drop_ge in Hr by by apply lookup_ge_None. done.
Qed.

(** The loop looks at every occurrence of the first character in turn. *)
Lemma lmemfind_loop_spec s1 s2 c fuel : forall off l1,
  s2 !! 0%nat = Some c -> (off + l1 + (length s2 - 1) <= length s1)%nat -> (l1 < fuel)%nat ->
  exists r, lmemfind_loop fuel s1 s2 off l1 (length s2 - 1) = POk r /\
    first_in (occurs s1 s2) off (off + l1) r.
Proof.
  induction fuel as [|fuel IH]; intros off l1 Hc Hl Hf; [lia|]. cbn [lmemfind_loop].
  destruct (Nat.eqb_spec l1 0) as [->|Hl1].
  { exists None. split; [done|]. intros j Hj. lia. }
  rewrite Hc. cbn [default]. pose proof (memchr_list_spec (take l1 (drop off s1)) c) as Hm.
  assert (forall i, (i < l1)%nat -> take l1 (drop off s1) !! i = s1 !! (off + i)%nat) as Hlk.
  { intros i Hi. by rewrite lookup_take_lt, lookup_drop. }
  assert (length (take l1 (drop off s1)) = l1) as Hlen by (rewrite length_take, length_drop; lia).
  unfold id. destruct (memchr_list _ c) as [i|]; cbn in Hm; rewrite Hlen in Hm.
  2: { exists None. split; [done|]. intros j Hj Ho. apply (Hm (j - off)%nat); [lia|].
       rewrite Hlk by lia. replace (off + (j - off))%nat with j by lia. by apply (occurs_head s1 s2 j c) in Ho as [Ho _]. }
  destruct Hm as (Hi & Hci & Hno). rewrite Hlk in Hci by lia.
  assert (forall j, (off <= j < off + i)%nat -> ~ occurs s1 s2 j) as Hbefore.
  { intros j Hj Ho. apply (Hno (j - off)%nat); [lia|]. rewrite Hlk by lia.
    replace (off + (j - off))%nat with j by lia. by apply (occurs_head s1 s2 j c) in Ho as [Ho _]. }
  rewrite (take_ge (drop 1 s2)) by (rewrite length_drop; lia).
  destruct (decide (take (length s2 - 1) (drop (S (off + i)) s1) = drop 1 s2)) as [Heq|Hneq].
  - eexists. split; [done|]. replace (S (off + i) - 1)%nat with (off + i)%nat by lia.
    split; [lia|]. split; [|done]. by apply (occurs_head s1 s2 _ c).
  - destruct (IH (S (off + i)) (l1 - (S (off + i) - off))%nat Hc ltac:(lia) ltac:(lia)) as (r & -> & Hr).
    exists r. split; [done|].
    assert (~ occurs s1 s2 (off + i)) as Hhere.
    { rewrite (occurs_head s1 s2 _ c) by done. by intros [_ H]. }
    replace (S (off + i) + (l1 - (S (off + i) - off)))%nat with (off + l1)%nat in Hr by lia.
    destruct r as [k|]; cbn in *.
    + destruct Hr as (Hk & Ho & Hr). split; [lia|]. split; [done|]. intros j Hj.
      destruct (lt_eq_lt_dec j (off + i)) as [[H|H]|H]; [apply Hbefore; lia|by subst|apply Hr; lia].
    + intros j Hj. destruct (lt_eq_lt_dec j (off + i)) as [[H|H]|H]; [apply Hbefore; lia|by subst|apply Hr; lia].
Qed.

Lemma occurs_length s1 s2 k : occurs s1 s2 k -> (length s2 <= length s1 - k)%nat.
Proof. intros H. apply prefix_length in H. by rewrite length_drop in H. Qed.

Lemma lmemfind_spec s1 s2 :
  exists r, lmemfind s1 s2 = POk r /\ first_in (occurs s1 s2) 0 (S (length s1)) r.
Proof.
  unfold lmemfind. destruct s2 as [|c s2].
  { exists (Some O). split; [done|]. split; [lia|]. split; [apply prefix_nil|]. intros j Hj. lia. }
  change ((length (c :: s2) =? 0)%nat) with false. cbv iota.
  destruct (Nat.ltb_spec (length s1) (length (c :: s2))) as [Hlt|Hge].
  { exists None. split; [done|]. intros j Hj Ho. apply occurs_length in Ho. lia. }
  destruct (lmemfind_loop_spec s1 (c :: s2) c (S (length s1)) 0 (length s1 - (length (c :: s2) - 1))%nat) as (r & -> & Hr);
    [done|lia|lia|].
  exists r. split; [done|]. rewrite Nat.add_0_l in Hr. cbn [length] in *. destruct r as [k|]; cbn in *.
  - destruct Hr as (Hk & Ho & Hno). split; [lia|done].
  - intros j Hj Ho. pose proof (occurs_length _ _ _ Ho) as Hl. cbn in Hl. apply (Hr j); [lia|done].
Qed.

(** ** Patterns without special characters *)

Lemma cstr_split l : cstr l = l \/ exists r, l = cstr l ++ 0 :: r.
Proof.
  induction l as [|c l IH]; [by left|]. cbn. destruct (Z.eqb_spec c 0) as [->|Hc].
  - right. by exists l.
  - destruct IH as [->|[r Hr]]; [by left|]. right. exists r. cbn. by f_equal.
Qed.

Lemma nospecials_loop_spec p fuel : forall upto,
  (upto <= length p)%nat -> (length p < upto + fuel)%nat ->
  nospecials_loop fuel p upto = POk (negb (existsb is_special (drop upto p))).
Proof.
  induction fuel as [|fuel IH]; intros upto Hu Hf; [lia|]. cbn [nospecials_loop].
  destruct (cstr_split (drop upto p)) as [E|[r E]].
  - rewrite E. destruct (existsb _ _); [done|]. rewrite length_drop, (proj2 (Nat.leb_gt _ _)) by lia. done.
  - set (piece := cstr (drop upto p)) in *. rewrite E, existsb_app. destruct (existsb is_special piece); [done|].
    assert (length (drop upto p) = (length piece + S (length r))%nat) as Hl by (rewrite E at 1; by rewrite length_app).
    rewrite length_drop in Hl. rewrite (proj2 (Nat.leb_le _ _)) by lia. rewrite IH by lia.
    rewrite <- drop_drop, E, drop_app_ge by lia. replace (length piece + 1 - length piece)%nat with 1%nat by lia. done.
Qed.

(** [nospecials] looks through embedded zeros. *)
Lemma nospecials_spec p : nospecials p = POk (negb (existsb is_special p)).
Proof. unfold nospecials. rewrite nospecials_loop_spec by lia. done. Qed.

Definition plain_char (c : Z) : Prop := is_special c = false /\ c <> 41.

Lemma not_special c :
  is_special c = false -> c <> 36 /\ c <> 42 /\ c <> 43 /\ c <> 63 /\ c <> 46 /\ c <> 40 /\ c <> 91 /\ c <> 37 /\ c <> 45.
Proof.
  intros H. unfold is_special, SPECIALS in H. cbn [existsb] in H.
  repeat (apply orb_false_iff in H as [?%Z.eqb_neq H]). by split_and!.
Qed.

Lemma prefix_step (l k : bytes) i j c :
  l !! i = Some c -> drop i l `prefix_of` drop j k <-> k !! j = Some c /\ drop (S i) l `prefix_of` drop (S j) k.
Proof.
  intros E. rewrite (drop_S _ _ _ E). destruct (k !! j) as [x|] eqn:Ek.
  - rewrite (drop_S _ _ _ Ek). split.
    + intros [r Hr]. injection Hr as -> Hr. split; [done|]. by exists r.
    + intros [[= ->] H]. by apply prefix_cons.
  - rewrite (drop_ge k j) by by apply lookup_ge_None. split; [|by intros [? _]]. intros H. by apply prefix_nil_inv in H.
Qed.

Lemma init_loop_plain src pat rec caps fuel : forall s p,
  Forall plain_char pat -> (s <= length src)%nat -> (p <= length pat)%nat -> (length pat < p + fuel)%nat ->
  init_loop src pat rec fuel caps s p =
    POk (if decide (drop p pat `prefix_of` drop s src) then Some (s + (length pat - p))%nat else None, caps).
Proof.
  induction fuel as [|fuel IH]; intros s p Hpl Hs Hp Hf; [lia|]. cbn [init_loop]. unfold p_end.
  destruct (Nat.eqb_spec p (length pat)) as [->|Hne].
  { rewrite drop_all, decide_True by apply prefix_nil. rewrite Nat.sub_diag, Nat.add_0_r. done. }
  destruct (lookup_lt_is_Some_2 pat p ltac:(lia)) as [c Ec].
  assert (forall i x, pat !! i = Some x -> plain_char x) as Hch by (intros i x; by apply Forall_lookup_1).
  destruct (Hch p c Ec) as [Hsp H41]. apply not_special in Hsp.
  destruct Hsp as (H36 & H42 & H43 & H63 & H46 & H40 & H91 & H37 & H45).
  rewrite (peek_ok pat p) by lia. unfold byte_at at 1. rewrite Ec. cbn [mbind pres_bind default].
  unfold id, L_ESC. rewrite !(proj2 (Z.eqb_neq c _)) by done. cbn [andb]. unfold dflt, classend.
  rewrite (peek_ok pat p) by lia. unfold byte_at at 1. rewrite Ec. cbn [mbind pres_bind default].
  unfold id, L_ESC. rewrite !(proj2 (Z.eqb_neq c _)) by done. cbv zeta iota. cbn [mbind pres_bind].
  assert (singlematch src pat s p (S p) = POk (bool_decide (src !! s = Some c))) as ->.
  { unfold singlematch, src_end. destruct (Nat.leb_spec (length src) s) as [Hge|Hlt].
    - rewrite bool_decide_eq_false_2; [done|]. by rewrite lookup_ge_None_2.
    - destruct (lookup_lt_is_Some_2 src s Hlt) as [x Ex].
      rewrite (peek_ok src s), (peek_ok pat p) by lia. unfold byte_at. rewrite Ex, Ec. cbn [mbind pres_bind default].
      unfold id, L_ESC. rewrite !(proj2 (Z.eqb_neq c _)) by done. f_equal.
      destruct (Z.eqb_spec c x) as [->|Hcx]; [by rewrite bool_decide_eq_true_2|].
      rewrite bool_decide_eq_false_2; [done|congruence]. }
  cbn [mbind pres_bind]. rewrite (peek_ok pat (S p)) by lia. cbn [mbind pres_bind].
  assert (let x := byte_at pat (S p) in x <> 42 /\ x <> 63 /\ x <> 45 /\ x <> 43) as (N42 & N63 & N45 & N43).
  { unfold byte_at. destruct (pat !! S p) as [x|] eqn:Ex; cbn; [|done].
    destruct (Hch (S p) x Ex) as [Hx _]. apply not_special in Hx. unfold id. tauto. }
  rewrite !(proj2 (Z.eqb_neq (byte_at pat (S p)) _)) by done. cbn [orb].
  pose proof (prefix_step pat src p s c Ec) as Hpre.
  destruct (decide (src !! s = Some c)) as [Hsc|Hsc].
  - rewrite bool_decide_eq_true_2 by done. cbn [negb]. pose proof (lookup_lt_Some _ _ _ Hsc) as Hlt.
    rewrite IH by (done || lia). f_equal. f_equal.
    destruct (decide (drop (S p) pat `prefix_of` drop (S s) src)) as [Hd|Hd].
    + rewrite decide_True by by apply Hpre. f_equal. lia.
    + rewrite decide_False; [done|]. intros H. by apply Hpre in H as [_ H].
  - rewrite bool_decide_eq_false_2 by done. cbn [negb]. rewrite decide_False; [done|].
    intros H. by apply Hpre in H as [H _].
Qed.

(** A plain pattern matches exactly where it occurs. *)
Lemma match_plain src pat d s :
  Forall plain_char pat -> (s <= length src)%nat ->
  match_ src pat (S d) [] s 0 =
    POk (if decide (occurs src pat s) then Some (s + length pat)%nat else None, []).
Proof.
  intros Hpl Hs. cbn [match_]. rewrite init_loop_plain by (done || (unfold p_end; lia)). rewrite drop_0, Nat.sub_0_r. done.
Qed.

(** ** Searching with a pattern *)

Definition size_ok (s : bytes) : Prop := slen s < 2 ^ 63.

Lemma top_match s p d k :
  size_ok s -> (k <= length s)%nat -> mspec s p [] k 0 (match_ s p d [] k 0).
Proof.
  intros Hs Hk. apply match_spec; [done| |done|unfold p_end; lia].
  split; [cbn; unfold LUA_MAXCAPTURES; lia|constructor].
Qed.

(** There is a match that starts at [k]. *)
Definition matches_at (s p : bytes) (k : nat) : Prop := exists e c, matches s p [] k 0 e c.

(** What a search from [lo] returns: the first match. *)
Definition found (s p : bytes) (lo hi : nat) (r : option (nat * nat * captures)) : Prop :=
  first_in (matches_at s p) lo hi ((fun '(k, _, _) => k) <$> r) /\
  match r with
  | Some (k, e, caps) => matches s p [] k 0 e caps /\ caps_ok caps e /\ (k <= e <= length s)%nat
  | None => True
  end.

Lemma found_here s p lo hi e caps :
  (lo < hi)%nat -> (lo <= e <= length s)%nat -> caps_ok caps e -> matches s p [] lo 0 e caps ->
  found s p lo hi (Some (lo, e, caps)).
Proof.
  intros Hlo He Hc Hm. split; [|done]. cbn. split; [lia|]. split; [by exists e, caps|]. intros j Hj. lia.
Qed.

Lemma found_later s p lo hi r :
  (forall e c, ~ matches s p [] lo 0 e c) -> found s p (S lo) hi r -> found s p lo hi r.
Proof.
  intros Hno [Hf Hr]. split; [|done]. destruct r as [[[k e] c]|]; cbn in *.
  - destruct Hf as (Hk & Hm & Hno'). split; [lia|]. split; [done|]. intros j Hj.
    destruct (decide (j = lo)) as [->|]; [intros (e' & c' & H); by apply (Hno e' c')|apply Hno'; lia].
  - intros j Hj. destruct (decide (j = lo)) as [->|]; [intros (e' & c' & H); by apply (Hno e' c')|apply Hf; lia].
Qed.


Lemma push_onecapture_ok s caps i a e :
  caps_ok caps e -> (e <= length s)%nat -> yields (push_onecapture s caps i a e) (fun _ => True).
Proof.
  intros [_ Hc] He. unfold push_onecapture. destruct (caps !! i) as [cap|] eqn:E; [|by destruct (i =? 0)%nat].
  rewrite Forall_lookup in Hc. destruct (Hc _ _ E) as [Hi [H|[H|H]]]; [by rewrite H|by rewrite H|].
  destruct (_ =? CAP_UNFINISHED); [done|]. destruct (_ =? CAP_POSITION); [done|].
  rewrite (proj2 (Nat.ltb_ge _ _)) by lia. done.
Qed.

Lemma push_loop_ok s caps a e n : forall i,
  caps_ok caps e -> (e <= length s)%nat -> yields (push_loop s caps i n a e) (fun _ => True).
Proof.
  induction n as [|n IH]; intros i Hc He; [done|]. cbn [push_loop].
  eapply yields_bind; [by apply push_onecapture_ok|]. intros v _ _.
  eapply yields_bind; [by apply IH|]. done.
Qed.

Lemma push_loop_ends s caps n : forall i a e a' e',
  (i + n <= length caps)%nat -> push_loop s caps i n a e = push_loop s caps i n a' e'.
Proof.
  induction n as [|n IH]; intros i a e a' e' Hl; [done|]. cbn [push_loop].
  destruct (lookup_lt_is_Some_2 caps i ltac:(lia)) as [cap E].
  assert (push_onecapture s caps i a e = push_onecapture s caps i a' e') as -> by (unfold push_onecapture; by rewrite E).
  by rewrite (IH (S i) a e a' e') by lia.
Qed.

Lemma push_captures_ok s caps k e :
  caps_ok caps e -> (e <= length s)%nat ->
  yields (push_captures s caps (Some (k, e))) (fun _ => True) /\ yields (push_captures s caps None) (fun _ => True).
Proof.
  intros Hc He. split; cbn; [by apply push_loop_ok|]. rewrite (push_loop_ends s caps _ 0 0 0 k e) by lia. by apply push_loop_ok.
Qed.

(** The index where a search with this [init] starts; [None] when it is beyond
    the end. *)
Definition start_index (s : bytes) (init : Z) : option nat :=
  let init := posrelat init (slen s) in
  let init := if init <? 1 then 1 else init in
  if slen s + 1 <? init then None else Some (Z.to_nat (init - 1)).

Lemma start_index_ok s init i : start_index s init = Some i -> (i <= length s)%nat.
Proof.
  unfold start_index. set (n := if _ <? 1 then 1 else _). clearbody n. unfold slen.
  destruct (Z.ltb_spec (Z.of_nat (length s) + 1) n); [done|]. intros [= <-]. lia.
Qed.

Lemma occurs_drop s p i k : occurs (drop i s) p k <-> occurs s p (i + k).
Proof. unfold occurs. by rewrite drop_drop. Qed.

(** [lmemfind] from an index of the string. *)
Lemma lmemfind_from s p i :
  (i <= length s)%nat ->
  exists r, lmemfind (drop i s) p = POk r /\ first_in (occurs s p) i (S (length s)) (Nat.add i <$> r).
Proof.
  intros Hi. destruct (lmemfind_spec (drop i s) p) as (r & E & Hr). exists r. split; [done|].
  rewrite length_drop in Hr. destruct r as [k|]; cbn in *.
  - destruct Hr as (Hk & Ho & Hno). split; [lia|]. split; [by apply occurs_drop|]. intros j Hj Hoj.
    apply (Hno (j - i)%nat); [lia|]. apply occurs_drop. by replace (i + (j - i))%nat with j by lia.
  - intros j Hj Hoj. apply (Hr (j - i)%nat); [lia|]. apply occurs_drop. by replace (i + (j - i))%nat with j by lia.
Qed.

(** Two searches with the same criterion. *)
Lemma first_in_iff P Q lo hi r : (forall j, (lo <= j < hi)%nat -> P j <-> Q j) -> first_in P lo hi r -> first_in Q lo hi r.
Proof.
  intros H. destruct r as [k|]; cbn.
  - intros (Hk & HP & Hno). split; [done|]. split; [by apply H|]. intros j Hj HQ. apply (Hno j Hj). apply H; [lia|done].
  - intros Hno j Hj HQ. apply (Hno j Hj). by apply H.
Qed.

(** ** Theorems *)

(** [string.find] with the plain flag returns the first occurrence of the
    second string at or after the start index, as its first and last position, or
    nil when there is none. *)
Theorem str_find_plain (s p : bytes) (init : Z) (i : nat) :
  start_index s init = Some i ->
  exists r, str_find s p init true =
      POk match r with Some k => [PInt (Z.of_nat k + 1); PInt (Z.of_nat k + slen p)] | None => [PNil] end /\
    first_in (occurs s p) i (S (length s)) r.
Proof.
  intros Hi. pose proof (start_index_ok s init i Hi) as Hle.
  destruct (lmemfind_from s p i Hle) as (r & E & Hr).
  exists (Nat.add i <$> r). split; [|done]. unfold str_find, str_find_aux. unfold start_index in Hi.
  destruct (_ <? _); [done|]. injection Hi as ->. cbn [mbind pres_bind]. rewrite E. by destruct r.
Qed.

(** Example: searching from the third character. *)
Lemma str_find_plain_witness :
  exists r, str_find [97; 98; 97; 98] [97; 98] 2 true =
      POk match r with Some k => [PInt (Z.of_nat k + 1); PInt (Z.of_nat k + 2)] | None => [PNil] end /\
    first_in (occurs [97; 98; 97; 98] [97; 98]) 1 5 r.
Proof. apply (str_find_plain [97; 98; 97; 98] [97; 98] 2 1). vm_compute. reflexivity. Defined.







(** The pattern "(%a+)=" is well formed. *)
Example key_pattern_well_formed : well_formed [40; 37; 97; 43; 41; 61] [] 0.
Proof.
  apply W_open; [vm_compute; reflexivity|vm_compute; lia|]. apply (W_item _ _ _ 3); [vm_compute; reflexivity..|].
  rewrite decide_True by (right; by left).
  apply (W_close _ _ _ 0); [vm_compute; reflexivity|done|intros [|k] Hk; [lia|done]|].
  apply (W_item _ _ _ 6); [vm_compute; reflexivity..|]. rewrite decide_False.
  - apply W_end; [vm_compute; reflexivity|by constructor].
  - vm_compute. intros H. repeat (apply elem_of_cons in H as [H|H]; [done|]). by apply elem_of_nil in H.
Qed.


(** C37. The shortcut of [string.find] is right: for a pattern without special
    characters (and without a closing parenthesis) matching it as a pattern
    succeeds exactly where the plain search finds it, with the pattern as result. *)
Theorem plain_pattern_equiv (s p : bytes) (init : Z) (i : nat) :
  size_ok s -> Forall plain_char p -> start_index s init = Some i ->
  exists r, str_match s p init = POk [match r with Some k => PStr p | None => PNil end] /\
    str_find s p init false =
      POk match r with Some k => [PInt (Z.of_nat k + 1); PInt (Z.of_nat k + slen p)] | None => [PNil] end /\
    first_in (occurs s p) i (S (length s)) r.
Proof.
  intros Hs Hp Hi. pose proof (start_index_ok s init i Hi) as Hle.
  assert (forall k fuel, (k <= length s)%nat -> (length s < k + fuel)%nat ->
    exists r, find_loop fuel s p false k = POk ((fun j => (j, (j + length p)%nat, [])) <$> r) /\
      first_in (occurs s p) k (S (length s)) r) as Hloop.
  { intros k fuel. revert k. induction fuel as [|fuel IH]; intros k Hk Hf; [lia|]. cbn [find_loop].
    unfold MAXCCALLS. rewrite match_plain by done. cbn [mbind pres_bind].
    destruct (decide (occurs s p k)) as [Ho|Ho].
    - exists (Some k). split; [done|]. cbn. split; [lia|]. split; [done|]. intros j Hj. lia.
    - rewrite andb_true_r. destruct (Nat.ltb_spec k (length s)).
      + destruct (IH (S k) ltac:(lia) ltac:(lia)) as (r & -> & Hr). exists r. split; [done|].
        destruct r as [m|]; cbn in *.
        * destruct Hr as (Hm & Hom & Hno). split; [lia|]. split; [done|]. intros j Hj.
          destruct (decide (j = k)) as [->|]; [done|apply Hno; lia].
        * intros j Hj. destruct (decide (j = k)) as [->|]; [done|apply Hr; lia].
      + exists None. split; [done|]. intros j Hj. by replace j with k by lia. }
  assert (anchored p = false) as Ha.
  { unfold anchored. destruct p as [|c p]; [done|]. apply Forall_cons_1 in Hp as [[Hc _] _]. cbn.
    apply Z.eqb_neq. intros ->. done. }
  assert (existsb is_special p = false) as Hsp.
  { clear - Hp. induction Hp as [|c p [Hc _] _ IH]; [done|]. cbn [existsb]. by rewrite Hc, IH. }
  destruct (Hloop i (length s - i + 1)%nat Hle ltac:(lia)) as (r & E & Hr).
  destruct (lmemfind_from s p i Hle) as (r' & E' & Hr').
  assert (r = Nat.add i <$> r') as -> by by eapply first_in_unique.
  exists (Nat.add i <$> r'). split; [|split; [|done]]; unfold str_match, str_find, str_find_aux, skip_anchor; rewrite Ha.
  - unfold start_index in Hi. destruct (_ <? _); [done|]. injection Hi as ->. cbn [mbind pres_bind]. rewrite E.
    destruct r' as [k|]; [|done]. cbn in Hr |- *. destruct Hr as (Hk & Ho & _).
    unfold substring. replace (i + k + length p - (i + k))%nat with (length p) by lia.
    destruct Ho as [rest ->]. by rewrite take_app_length.
  - unfold start_index in Hi. destruct (_ <? _); [done|]. injection Hi as ->.
    rewrite nospecials_spec, Hsp. cbn [mbind pres_bind negb]. rewrite E'. by destruct r'.
Qed.

(** Witness of C37. *)
Lemma plain_pattern_equiv_witness :
  exists r, str_match [97; 98; 99] [98; 99] 1 = POk [match r with Some k => PStr [98; 99] | None => PNil end] /\
    str_find [97; 98; 99] [98; 99] 1 false =
      POk match r with Some k => [PInt (Z.of_nat k + 1); PInt (Z.of_nat k + 2)] | None => [PNil] end /\
    first_in (occurs [97; 98; 99] [98; 99]) 0 4 r.
Proof.
  apply (plain_pattern_equiv [97; 98; 99] [98; 99] 1 0); [vm_compute; reflexivity| |vm_compute; reflexivity].
  repeat constructor; vm_compute; discriminate.
Defined.

(** ** [gsub] *)

Lemma add_s_ok src caps s e : caps_ok caps e -> (e <= length src)%nat ->
  forall news, yields (add_s src news caps s e) (fun _ => True).
Proof.
  intros Hc He. fix IH 1. intros [|c news]; [done|]. cbn [add_s].
  destruct (negb (c =? L_ESC)); [eapply yields_bind; [apply IH|done]|].
  destruct news as [|d news]; [done|].
  eapply (yields_bind _ _ (fun _ => True)); [|intros piece _ _; eapply yields_bind; [apply IH|done]].
  destruct (negb (isdigit d)); [by destruct (negb (d =? L_ESC))|]. destruct (d =? 48); [done|].
  eapply yields_bind; [by apply push_onecapture_ok|done].
Qed.

Lemma add_value_ok src tr caps s e :
  caps_ok caps e -> (e <= length src)%nat -> yields (add_value src tr caps s e) (fun _ => True).
Proof.
  intros Hc He. destruct tr as [news|f|f]; cbn.
  - by apply add_s_ok.
  - eapply yields_bind; [by apply push_captures_ok|]. intros vs _ _. by destruct (f vs).
  - eapply yields_bind; [by apply push_onecapture_ok|]. intros v _ _. by destruct (f v).
Qed.

(** The loop keeps any relation between the buffer and the position that the
    replacements and the copied characters keep; it makes at most one
    substitution per position. *)
Lemma gsub_loop_spec src p tr anchor max_s (Q : bytes -> nat -> Prop) fuel : forall n b s,
  size_ok src ->
  (forall b caps s e, caps_ok caps e -> (s <= e <= length src)%nat -> Q b s ->
     yields (add_value src tr caps s e) (fun piece => Q (b ++ piece) e)) ->
  (forall b s c, src !! s = Some c -> Q b s -> Q (b ++ [c]) (S s)) ->
  (s <= length src)%nat -> (length src - s + 1 < fuel)%nat -> Q b s ->
  yields (gsub_loop src fuel p tr anchor max_s n b s) (fun '(b', s', n') =>
    Q b' s' /\ (s' <= length src)%nat /\ n <= n' <= n + (slen src - Z.of_nat s) + 1 /\ (n' <= n \/ n' <= max_s)).
Proof.
  induction fuel as [|fuel IH]; intros n b s Hsz Hadd Hcopy Hs Hf HQ; [lia|]. cbn [gsub_loop].
  destruct (Z.ltb_spec n max_s) as [Hn|Hn]; [|cbn; unfold slen; split_and!; [done|lia|lia|lia|lia]].
  eapply yields_bind; [by apply top_match|]. intros [res caps] _ Hres.
  eapply (yields_bind _ _ (fun '(n', b') => n <= n' <= n + 1 /\
    Q b' (match res with Some e => e | None => s end) /\ (s <= match res with Some e => e | None => s end <= length src)%nat)).
  { destruct res as [e|]; [|cbn; split_and!; [lia|lia|done|lia|lia]]. destruct Hres as (He & Hc & _).
    eapply yields_bind; [by apply (Hadd b caps s e)|]. intros piece _ HQ'. cbn. split_and!; [lia|lia|done|lia|apply He]. }
  intros [n' b'] _ (Hn' & HQ' & He).
  (* the tail of a turn: the loop goes on from a later position *)
  assert (forall b1 s1, (s < s1 <= length src)%nat -> Q b1 s1 ->
    yields (if anchor then POk (b1, s1, n') else gsub_loop src fuel p tr anchor max_s n' b1 s1) (fun '(b', s', n') =>
      Q b' s' /\ (s' <= length src)%nat /\ n <= n' <= n + (slen src - Z.of_nat s) + 1 /\ (n' <= n \/ n' <= max_s))) as Hnext.
  { intros b1 s1 Hs1 HQ1. destruct anchor; [cbn; unfold slen; split_and!; [done|lia|lia|lia|lia]|].
    eapply yields_impl; [apply IH; [done|done|done|lia|lia|done]|].
    intros [[b2 s2] n2] (H1 & H2 & H3 & H4). unfold slen in *. split_and!; [done|lia|lia|lia|lia]. }
  assert (forall e, (e <= s)%nat -> (s <= e)%nat -> Q b' e ->
    yields (if (s <? length src)%nat then let b := b' ++ [default 0 (src !! s)] in
            if anchor then POk (b, S s, n') else gsub_loop src fuel p tr anchor max_s n' b (S s) else POk (b', s, n'))
      (fun '(b', s', n') =>
      Q b' s' /\ (s' <= length src)%nat /\ n <= n' <= n + (slen src - Z.of_nat s) + 1 /\ (n' <= n \/ n' <= max_s))) as Hcopy'.
  { intros e H1 H2 HQe. replace e with s in HQe by lia. destruct (Nat.ltb_spec s (length src)) as [Hlt|Hge].
    - apply Hnext; [lia|]. destruct (lookup_lt_is_Some_2 src s Hlt) as [c Ec]. rewrite Ec. by apply Hcopy.
    - cbn. unfold slen. split_and!; [done|lia|lia|lia|lia]. }
  destruct res as [e|]; [destruct (Nat.ltb_spec s e)|].
  - apply Hnext; [lia|done].
  - by apply (Hcopy' e); [|lia|].
  - by apply (Hcopy' s).
Qed.

Lemma str_gsub_spec src p tr max_s (Q : bytes -> nat -> Prop) :
  size_ok src ->
  (forall b caps s e, caps_ok caps e -> (s <= e <= length src)%nat -> Q b s ->
     yields (add_value src tr caps s e) (fun piece => Q (b ++ piece) e)) ->
  (forall b s c, src !! s = Some c -> Q b s -> Q (b ++ [c]) (S s)) -> Q [] 0%nat ->
  yields (str_gsub src p tr max_s) (fun '(r, n) =>
    (exists b s, Q b s /\ r = b ++ drop s src) /\ 0 <= n <= slen src + 1 /\ n <= u64 (default (slen src + 1) max_s)).
Proof.
  intros Hs Hadd Hcopy HQ. unfold str_gsub.
  eapply yields_bind; [apply (gsub_loop_spec src (skip_anchor p) tr (anchored p) _ Q); [done|done|done|lia|lia|done]|].
  intros [[b s] n] _ (HQ' & Hs' & Hn & Hmax). cbn. split; [by exists b, s|]. split; [lia|].
  pose proof (wrap_range 64 (default (slen src + 1) max_s) ltac:(lia)) as [H _]. lia.
Qed.

(** [string.gsub] is safe and bounded with any replacement string, function
    or table: it never leaves the subject or the pattern, ends, and makes at most
    one substitution per position and at most the number asked for. *)
Theorem gsub_safe (src p : bytes) (tr : replacement) (max_s : option Z) :
  size_ok src ->
  yields (str_gsub src p tr max_s) (fun '(r, n) =>
    0 <= n <= slen src + 1 /\ n <= u64 (default (slen src + 1) max_s)).
Proof.
  intros Hs. eapply yields_impl; [apply (str_gsub_spec src p tr max_s (fun _ _ => True)); [done| |done|done]|].
  - intros b caps s e Hc He _. apply add_value_ok; [done|lia].
  - intros [r n] (_ & Hn). done.
Qed.

(** Example: replacing every letter of "abc" by itself doubled, at most twice. *)
Lemma gsub_safe_witness :
  str_gsub [97; 98; 99] [37; 97] (ReplString [37; 48; 37; 48]) (Some 2) = POk ([97; 97; 98; 98; 99], 2) /\
  yields (str_gsub [97; 98; 99] [37; 97] (ReplString [37; 48; 37; 48]) (Some 2)) (fun '(r, n) =>
    0 <= n <= 4 /\ n <= 2).
Proof. split; [vm_compute; reflexivity|]. apply gsub_safe. vm_compute. reflexivity. Defined.

(** Replacements that put the match back. *)
Definition keeps_match (tr : replacement) : Prop :=
  tr = ReplString [L_ESC; 48] \/ tr = ReplFunction (fun _ => RFalse) \/ tr = ReplTable (fun _ => RFalse).

(** Substituting the whole match for itself ("%0", or a function or table
    that returns nothing) gives the subject back, for every pattern. *)
Theorem gsub_identity (src p : bytes) (tr : replacement) (max_s : option Z) :
  size_ok src -> keeps_match tr -> yields (str_gsub src p tr max_s) (fun '(r, n) => r = src).
Proof.
  intros Hs Htr.
  eapply yields_impl; [apply (str_gsub_spec src p tr max_s (fun b s => b = take s src)); [done| | |done]|].
  - intros b caps s e Hc He ->.
    assert (yields (add_value src tr caps s e) (fun piece => piece = substring src s (e - s))) as H.
    { destruct Htr as [->|[->| ->]]; cbn.
      - change (isdigit 48) with true. cbn. by rewrite app_nil_r.
      - eapply yields_bind; [apply push_captures_ok; [done|lia]|done].
      - eapply yields_bind; [apply push_onecapture_ok; [done|lia]|done]. }
    eapply yields_impl; [exact H|]. cbn. intros piece ->. unfold substring. rewrite take_take_drop. f_equal. lia.
  - intros b s c Hc ->. by rewrite (take_S_r _ _ _ Hc).
  - intros [r n] ((b & s & -> & ->) & _). apply take_drop.
Qed.

(** Example: every word of "a b" for itself. *)
Lemma gsub_identity_witness :
  str_gsub [97; 32; 98] [37; 97; 43] (ReplString [37; 48]) None = POk ([97; 32; 98], 2) /\
  yields (str_gsub [97; 32; 98] [37; 97; 43] (ReplString [37; 48]) None) (fun '(r, n) => r = [97; 32; 98]).
Proof. split; [vm_compute; reflexivity|]. apply gsub_identity; [vm_compute; reflexivity|by left]. Defined.

(** ** [gmatch] *)

Lemma gmatch_loop_spec s p fuel : forall k,
  size_ok s -> (k <= S (length s))%nat -> (S (length s) < k + fuel)%nat ->
  yields (gmatch_loop fuel s p k) (found s p k (S (length s))).
Proof.
  induction fuel as [|fuel IH]; intros k Hs Hk' Hf; [lia|].
  cbn [gmatch_loop]. destruct (Nat.leb_spec k (length s)) as [Hk|Hk].
  - eapply yields_bind; [by apply top_match|]. intros [[e|] caps] _ H.
    + destruct H as (He & Hc & Hm). apply found_here; [lia|done|done|done].
    + destruct H as (-> & Hno). eapply yields_impl; [apply IH; [done|lia|lia]|]. intros r. by apply found_later.
  - split; [|done]. intros j Hj. lia.
Qed.

Lemma push_loop_nonempty s caps i n a e : push_loop s caps i (S n) a e <> POk [].
Proof.
  cbn [push_loop]. destruct (push_onecapture s caps i a e); [|done]. cbn [mbind pres_bind].
  by destruct (push_loop s caps (S i) n a e).
Qed.

(** The values of one call, and the position for the next: a later one. *)
Lemma gmatch_aux_spec s p k :
  size_ok s -> (k <= S (length s))%nat ->
  yields (gmatch_aux s p k) (fun '(vs, k') => exists r, found s p k (S (length s)) r /\
    match r with
    | None => vs = [] /\ k' = k
    | Some (j, e, caps) => push_captures s caps (Some (j, e)) = POk vs /\ vs <> [] /\
        k' = (if (e =? j)%nat then S e else e) /\ (k < k' <= S (length s))%nat
    end).
Proof.
  intros Hs Hk. unfold gmatch_aux.
  eapply yields_bind; [apply gmatch_loop_spec; [done|done|lia]|]. intros [[[j e] caps]|] _ Hf.
  - pose proof Hf as ((Hj & _) & _ & Hc & He).
    destruct (push_captures s caps (Some (j, e))) as [vs|] eqn:E.
    + cbn. exists (Some (j, e, caps)). split; [done|]. split; [done|]. split.
      * intros ->. unfold push_captures in E. by destruct caps as [|c caps]; apply push_loop_nonempty in E.
      * split; [done|]. destruct (Nat.eqb_spec e j); lia.
    + cbn. destruct (push_captures_ok s caps j e Hc ltac:(lia)) as [H _]. by rewrite E in H.
  - exists None. done.
Qed.

(** The [for] loop of a Lua program over [gmatch]: all results. *)
Fixpoint gmatch_all (fuel : nat) (s p : bytes) (pos : nat) : pres (list (list pvalue)) :=
  match fuel with
  | O => PErr MatchFuel
  | S fuel' =>
      '(vs, pos) ← gmatch_aux s p pos;
      match vs with
      | [] => POk []
      | _ => rest ← gmatch_all fuel' s p pos; POk (vs :: rest)
      end
  end.

(** Iterating with [string.gmatch] ends for every subject and pattern, the
    ones that match the empty string included: there are at most as many results
    as positions. *)
Theorem gmatch_terminates (s p : bytes) (fuel : nat) :
  size_ok s -> (length s + 1 < fuel)%nat ->
  yields (gmatch_all fuel s p 0) (fun results => (length results <= length s + 1)%nat).
Proof.
  intros Hs Hf.
  assert (forall fuel k, (k <= S (length s))%nat -> (S (length s) - k < fuel)%nat ->
    yields (gmatch_all fuel s p k) (fun results => (length results + k <= S (length s))%nat)) as H.
  { clear fuel Hf. induction fuel as [|fuel IH]; intros k Hk Hf; [lia|]. cbn [gmatch_all].
    eapply yields_bind; [by apply gmatch_aux_spec|]. intros [vs k'] _ (r & Hr & Hv).
    destruct r as [[[j e] caps]|].
    - destruct Hv as (_ & Hne & _ & Hk'). destruct vs as [|v vs]; [done|].
      eapply yields_bind; [apply IH; lia|]. intros rest _ Hl. cbn [yields length] in *. lia.
    - destruct Hv as [-> ->]. cbn. lia. }
  eapply yields_impl; [apply (H fuel 0%nat); lia|]. cbn. intros results Hl. lia.
Qed.

(** Example: the empty matches of "x*" in "axb". *)
Lemma gmatch_terminates_witness :
  gmatch_all 6 [97; 120; 98] [120; 42] 0 = POk [[PStr []]; [PStr [120]]; [PStr []]; [PStr []]] /\
  yields (gmatch_all 6 [97; 120; 98] [120; 42] 0) (fun results => (length results <= 4)%nat).
Proof. split; [vm_compute; reflexivity|]. apply (gmatch_terminates [97; 120; 98] [120; 42] 6); [vm_compute; reflexivity|cbn; lia]. Defined.
