(* ===== verification/LuaZio.v ===== *)
(** * Lua's buffered input streams ([src/dep/lua-5.2.3/src/lzio.c])

    A [ZIO] reads blocks from a reader function and serves them as one stream of
    bytes.  The reader is represented by the list of its future results ([None]
    for a null pointer).  The lemma [luaZ_read_contents] shows that [luaZ_read]
    depends only on the bytes that are left, not on how the reader cuts them. *)

From S2P Require Import Prelude LuaStr.

(** [z_p] are the [z->n] unread bytes at [z->p]. *)
Record zio := ZIO { z_p : bytes; z_next : list (option bytes) }.

(** A call of the reader. *)
Definition call_reader (z : zio) : option bytes * zio :=
  match z_next z with
  | [] => (None, z)
  | b :: next => (b, ZIO (z_p z) next)
  end.

(** [None] is [EOZ]. *)
Definition luaZ_fill (z : zio) : option Z * zio :=
  let '(buff, z) := call_reader z in
  match buff with
  | None | Some [] => (None, z)
  | Some (c :: cs) => (Some c, ZIO cs (z_next z))
  end.

Definition luaZ_init (reader : list (option bytes)) : zio := ZIO [] reader.

(** To be called only while the stream goes on: at its end [z->n] wraps round. *)
Definition zgetc (z : zio) : option Z * zio :=
  match z_p z with
  | c :: cs => (Some c, ZIO cs (z_next z))
  | [] => luaZ_fill z
  end.

(** The loop of [luaZ_read]: [b] is what was stored so far; the result is the
    number of missing bytes, the bytes stored and the stream. *)
Fixpoint read_loop (fuel : nat) (z : zio) (b : bytes) (n : Z) : res (Z * bytes * zio) :=
  match fuel with
  | O => Err NoFuel
  | S fuel' =>
      if n =? 0 then Ok (0, b, z) else
      let '(eoz, z) :=
        if slen (z_p z) =? 0 then
          match luaZ_fill z with
          | (None, z) => (true, z)
          | (Some c, z) => (false, ZIO (c :: z_p z) (z_next z))
          end
        else (false, z) in
      if eoz : bool then Ok (n, b, z) else
      let m := if n <=? slen (z_p z) then n else slen (z_p z) in
      read_loop fuel' (ZIO (drop (Z.to_nat m) (z_p z)) (z_next z)) (b ++ take (Z.to_nat m) (z_p z)) (n - m)
  end.

(** Every turn but the last empties the buffer, so one turn per block is enough. *)
Definition luaZ_read (z : zio) (n : Z) : res (Z * bytes * zio) :=
  read_loop (S (S (length (z_next z)))) z [] n.

(** The size of an [Mbuffer] after [luaZ_openspace]. *)
Definition LUA_MINBUFFER : Z := 32.

Definition luaZ_openspace (buffsize n : Z) : Z :=
  if buffsize <? n then (if n <? LUA_MINBUFFER then LUA_MINBUFFER else n) else buffsize.

Lemma luaZ_openspace_enough buffsize n : n <= luaZ_openspace buffsize n.
Proof.
  unfold luaZ_openspace, LUA_MINBUFFER. destruct (Z.ltb_spec buffsize n); [|lia].
  destruct (Z.ltb_spec n 32); lia.
Qed.

(** ** The bytes of a stream *)

Fixpoint blocks (next : list (option bytes)) : bytes :=
  match next with
  | [] | None :: _ | Some [] :: _ => []
  | Some b :: next' => b ++ blocks next'
  end.

Definition contents (z : zio) : bytes := z_p z ++ blocks (z_next z).

Lemma luaZ_fill_contents z :
  z_p z = [] ->
  match luaZ_fill z with
  | (None, _) => contents z = []
  | (Some c, z') => contents z = c :: contents z' /\ S (length (z_next z')) = length (z_next z)
  end.
Proof.
  destruct z as [p next]. cbn. intros ->. unfold luaZ_fill, call_reader, contents. cbn.
  by destruct next as [|[[|c cs]|] next].
Qed.

Lemma zgetc_contents z c rest :
  contents z = c :: rest -> exists z', zgetc z = (Some c, z') /\ contents z' = rest.
Proof.
  intros Hc. unfold zgetc. destruct (z_p z) as [|d cs] eqn:Hp.
  - pose proof (luaZ_fill_contents z Hp) as H. destruct (luaZ_fill z) as [[d|] z'].
    + destruct H as [H _]. rewrite Hc in H. injection H as <- ->. by exists z'.
    + by rewrite Hc in H.
  - unfold contents in Hc. rewrite Hp in Hc. injection Hc as -> <-. by eexists.
Qed.

(** Turns that the loop needs. *)
Definition turns (z : zio) (n : Z) : nat :=
  if n =? 0 then 1 else length (z_next z) + if slen (z_p z) =? 0 then 1 else 2.

Lemma slen_nil p : slen p = 0 -> p = [].
Proof. intros H. apply nil_length_inv. unfold slen in H. lia. Qed.

(** What a turn of the loop finds in the buffer. *)
Lemma turn_contents z n b fuel :
  n <> 0 -> (turns z n <= S fuel)%nat ->
  (contents z = [] /\ exists z', read_loop (S fuel) z b n = Ok (n, b, z')) \/
  exists z1, let m := Z.min n (slen (z_p z1)) in
    contents z = contents z1 /\ 0 < slen (z_p z1) /\ (S (length (z_next z1)) <= fuel)%nat /\
    read_loop (S fuel) z b n =
      read_loop fuel (ZIO (drop (Z.to_nat m) (z_p z1)) (z_next z1)) (b ++ take (Z.to_nat m) (z_p z1)) (n - m).
Proof.
  intros Hn Hf. cbn [read_loop]. unfold turns in Hf. rewrite (proj2 (Z.eqb_neq n 0) Hn) in *.
  assert (forall p, (if n <=? slen p then n else slen p) = Z.min n (slen p)) as Hmin.
  { intros p. destruct (Z.leb_spec n (slen p)); lia. }
  destruct (Z.eqb_spec (slen (z_p z)) 0) as [Ep|Ep].
  - pose proof (luaZ_fill_contents z (slen_nil _ Ep)) as H. destruct (luaZ_fill z) as [[c|] z1].
    + destruct H as [Hc Hl]. right. exists (ZIO (c :: z_p z1) (z_next z1)). cbn [z_p z_next].
      rewrite Hmin. split; [done|]. split; [unfold slen; cbn; lia|]. split; [lia|done].
    + left. split; [done|]. by exists z1.
  - right. exists z. rewrite Hmin. split; [done|]. split; [unfold slen in *; lia|]. split; [lia|done].
Qed.

Lemma read_loop_contents fuel : forall z b n,
  (turns z n <= fuel)%nat -> 0 <= n ->
  exists z', read_loop fuel z b n =
    Ok (Z.max 0 (n - slen (contents z)), b ++ take (Z.to_nat n) (contents z), z') /\
    (n <= slen (contents z) -> contents z' = drop (Z.to_nat n) (contents z)).
Proof.
  induction fuel as [|fuel IH]; intros z b n Hf Hn.
  { exfalso. unfold turns in Hf. destruct (n =? 0); [lia|]. destruct (slen (z_p z) =? 0); lia. }
  destruct (decide (n = 0)) as [->|Hn0].
  { exists z. cbn. rewrite take_0, app_nil_r. split; [|done]. do 3 f_equal. unfold slen. lia. }
  destruct (turn_contents z n b fuel Hn0 Hf) as [[Hc [z' ->]]|(z1 & Hc & Hpos & Hl & ->)].
  { exists z'. rewrite Hc, take_nil, app_nil_r. split; [do 3 f_equal; change (slen []) with 0; lia|change (slen []) with 0; lia]. }
  set (m := Z.min n (slen (z_p z1))) in *.
  assert (drop (Z.to_nat m) (z_p z1) ++ blocks (z_next z1) = drop (Z.to_nat m) (contents z1)) as Hd.
  { unfold contents, m, slen. rewrite drop_app_le by lia. done. }
  assert (take (Z.to_nat m) (z_p z1) = take (Z.to_nat m) (contents z1)) as Ht.
  { unfold contents, m, slen. rewrite take_app_le by lia. done. }
  destruct (IH (ZIO (drop (Z.to_nat m) (z_p z1)) (z_next z1)) (b ++ take (Z.to_nat m) (z_p z1)) (n - m))
    as (z' & -> & Hrest); [|lia|].
  { unfold turns. cbn [z_p z_next]. destruct (Z.eqb_spec (n - m) 0); [lia|].
    destruct (Z.eqb_spec (slen (drop (Z.to_nat m) (z_p z1))) 0) as [|Hne]; [lia|].
    exfalso. apply Hne. unfold slen in *. rewrite length_drop. lia. }
  unfold contents in Hrest at 1 3. unfold contents at 1 2. cbn [z_p z_next] in *. rewrite Hd, Ht in *. rewrite Hc.
  assert (slen (drop (Z.to_nat m) (contents z1)) = slen (contents z1) - m) as Hlen.
  { unfold slen, contents in *. rewrite length_drop, length_app. lia. }
  exists z'. rewrite Hlen in *. split.
  - do 3 f_equal; [lia|]. rewrite <- app_assoc, take_take_drop. do 2 f_equal. lia.
  - intros Hle. rewrite Hrest by lia. rewrite drop_drop. f_equal. lia.
Qed.

(** [luaZ_read] returns the next [n] bytes and no missing ones, or what is left
    and how many bytes are missing. *)
Lemma luaZ_read_contents z n :
  0 <= n -> exists z', luaZ_read z n =
    Ok (Z.max 0 (n - slen (contents z)), take (Z.to_nat n) (contents z), z') /\
    (n <= slen (contents z) -> contents z' = drop (Z.to_nat n) (contents z)).
Proof.
  intros Hn. apply read_loop_contents; [|done]. unfold turns.
  destruct (n =? 0); [lia|]. destruct (slen (z_p z) =? 0); lia.
Qed.
