(* ===== verification/LuaDump.v ===== *)
(** * Precompiled Lua chunks ([ldump.c] and [lundump.c] of [src/dep/lua-5.2.3/src])

    [luaU_dump] writes a function prototype through a writer function and
    [luaU_undump] reads it back from a [ZIO]; [f_parser] of [ldo.c] chooses it by
    the first character.  The theorems: loading what was dumped gives the
    prototype again (without its debug information when it was stripped), however
    the reader cuts the bytes, and every proper prefix of a dump is refused as
    truncated.  A writer that fails is not called again.

    Allocation always succeeds here; strings and numbers are their bytes. *)

From S2P Require Import Prelude LuaStr LuaZio.

(** ** Prototypes *)

(** A [TString *]; [None] is the null pointer. *)
Abbreviation tstring := (option bytes).

(** Constants, by the tag [ttypenv]; a number is the 64-bit pattern of its double. *)
Inductive constant :=
| KNil
| KBoolean (b : Z)
| KNumber (bits : Z)
| KString (s : tstring).

Record Upvaldesc := MkUpvaldesc { name : tstring; instack : Z; idx : Z }.
Record LocVar := MkLocVar { varname : tstring; startpc : Z; endpc : Z }.

(** The sizes of the arrays are the lengths of the lists. *)
Inductive Proto := MkProto {
  linedefined : Z;
  lastlinedefined : Z;
  numparams : Z;
  is_vararg : Z;
  maxstacksize : Z;
  code : list Z;
  k : list constant;
  p : list Proto;
  upvalues : list Upvaldesc;
  source : tstring;
  lineinfo : list Z;
  locvars : list LocVar;
}.

Definition LUA_TNIL : Z := 0.
Definition LUA_TBOOLEAN : Z := 1.
Definition LUA_TNUMBER : Z := 3.
Definition LUA_TSTRING : Z := 4.

Definition LUA_SIGNATURE : bytes := [27; 76; 117; 97].
Definition LUAC_TAIL : bytes := [0x19; 0x93; 13; 10; 0x1a; 10].
Definition LUAC_HEADERSIZE : Z := slen LUA_SIGNATURE + 2 + 6 + slen LUAC_TAIL.
Definition VERSION : Z := 5 * 16 + 2.
Definition FORMAT : Z := 0.

(** [luaU_header]: the byte order of this machine, the sizes of its types. *)
Definition luaU_header : bytes :=
  LUA_SIGNATURE ++
  [u8 VERSION; u8 FORMAT; default 0 (le_bytes 4 1 !! 0%nat); 4; 8; 4; 8; 0] ++ LUAC_TAIL.

(** ** [ldump.c] *)

Section Dump.
(** The writer and its data. *)
Context {W : Type} (writer : W -> bytes -> Z * W).

Record DumpState := MkDumpState { d_data : W; strip : bool; status : Z }.

Definition DumpBlock (b : bytes) (D : DumpState) : DumpState :=
  if status D =? 0 then
    let '(st, data) := writer (d_data D) b in MkDumpState data (strip D) st
  else D.

Definition DumpChar (y : Z) (D : DumpState) : DumpState := DumpBlock [u8 y] D.
Definition DumpInt (x : Z) (D : DumpState) : DumpState := DumpBlock (le_bytes 4 x) D.
Definition DumpNumber (x : Z) (D : DumpState) : DumpState := DumpBlock (le_bytes 8 x) D.

(** [b] is the array, of [n] elements of four bytes. *)
Definition DumpVector (b : list Z) (D : DumpState) : DumpState :=
  let D := DumpInt (Z.of_nat (length b)) D in
  DumpBlock (b ≫= le_bytes 4) D.

Definition DumpString (s : tstring) (D : DumpState) : DumpState :=
  match s with
  | None => DumpBlock (le_bytes 8 0) D
  | Some s =>
      let size := slen s + 1 in
      let D := DumpBlock (le_bytes 8 size) D in
      DumpBlock (s ++ [0]) D
  end.

(** [for (i = 0; i < n; i++) body] over an array. *)
Definition DumpLoop {A} (body : A -> DumpState -> DumpState) (l : list A) (D : DumpState) : DumpState :=
  foldl (fun D x => body x D) D l.

Definition ttypenv (c : constant) : Z :=
  match c with
  | KNil => LUA_TNIL | KBoolean _ => LUA_TBOOLEAN | KNumber _ => LUA_TNUMBER | KString _ => LUA_TSTRING
  end.

Definition DumpConstant (o : constant) (D : DumpState) : DumpState :=
  let D := DumpChar (ttypenv o) D in
  match o with
  | KNil => D
  | KBoolean b => DumpChar b D
  | KNumber x => DumpNumber x D
  | KString s => DumpString s D
  end.

Definition DumpUpvalues (f : Proto) (D : DumpState) : DumpState :=
  let D := DumpInt (Z.of_nat (length (upvalues f))) D in
  DumpLoop (fun u D => DumpChar (idx u) (DumpChar (instack u) D)) (upvalues f) D.

Definition DumpDebug (f : Proto) (D : DumpState) : DumpState :=
  let D := DumpString (if strip D then None else source f) D in
  let D := DumpVector (if strip D then [] else lineinfo f) D in
  let vars := if strip D then [] else locvars f in
  let D := DumpInt (Z.of_nat (length vars)) D in
  let D := DumpLoop (fun v D => DumpInt (endpc v) (DumpInt (startpc v) (DumpString (varname v) D))) vars D in
  let ups := if strip D then [] else upvalues f in
  let D := DumpInt (Z.of_nat (length ups)) D in
  DumpLoop (fun u D => DumpString (name u) D) ups D.

(** [DumpConstants] calls [DumpFunction] for the nested functions. *)
Definition DumpConstants (DumpFunction : Proto -> DumpState -> DumpState) (f : Proto) (D : DumpState)
    : DumpState :=
  let D := DumpInt (Z.of_nat (length (k f))) D in
  let D := DumpLoop DumpConstant (k f) D in
  let D := DumpInt (Z.of_nat (length (p f))) D in
  DumpLoop DumpFunction (p f) D.

Fixpoint DumpFunction (f : Proto) (D : DumpState) : DumpState :=
  let D := DumpInt (linedefined f) D in
  let D := DumpInt (lastlinedefined f) D in
  let D := DumpChar (numparams f) D in
  let D := DumpChar (is_vararg f) D in
  let D := DumpChar (maxstacksize f) D in
  let D := DumpVector (code f) D in
  let D := DumpConstants DumpFunction f D in
  let D := DumpUpvalues f D in
  DumpDebug f D.

Definition DumpHeader (D : DumpState) : DumpState := DumpBlock luaU_header D.

Definition luaU_dump (f : Proto) (data : W) (strip : bool) : Z * W :=
  let D := MkDumpState data strip 0 in
  let D := DumpHeader D in
  let D := DumpFunction f D in
  (status D, d_data D).
End Dump.

(** ** [lundump.c] *)

Inductive why := truncated | corrupted | not_a | version_mismatch | incompatible.

(** [Syntax name why] is the error "name: why precompiled chunk"; [Mode] the one
    of [checkmode]; a store outside an array is [OutOfBounds]. *)
Inductive load_error :=
| Syntax (chunk : bytes) (w : why)
| Mode (x : bytes)
| OutOfBounds
| LoadFuel.

(** [LoadState]: the stream, the size of the buffer, the name. *)
Record LoadState := MkLoadState { S_Z : zio; S_b : Z; S_name : bytes }.

Definition loader (A : Type) : Type := LoadState -> load_error + A * LoadState.

#[export] Instance loader_ret : MRet loader := fun A a S => inr (a, S).
#[export] Instance loader_bind : MBind loader := fun A B f m S =>
  match m S with inr (a, S') => f a S' | inl e => inl e end.

Definition error {A} (w : why) : loader A := fun S => inl (Syntax (S_name S) w).
Definition fail {A} (e : load_error) : loader A := fun _ => inl e.

Definition LoadBlock (size : Z) : loader bytes := fun S =>
  match luaZ_read (S_Z S) size with
  | Ok (missing, b, z) =>
      if negb (missing =? 0) then error truncated S else inr (b, MkLoadState z (S_b S) (S_name S))
  | Err _ => inl LoadFuel
  end.

(** A [char] is signed. *)
Definition LoadChar : loader Z := b ← LoadBlock 1; mret (swrap 8 (le_value b)).
Definition LoadByte : loader Z := x ← LoadChar; mret (u8 x).
Definition LoadInt : loader Z :=
  b ← LoadBlock 4;
  let x := s32 (le_value b) in
  if x <? 0 then error corrupted else mret x.
Definition LoadNumber : loader Z := b ← LoadBlock 8; mret (le_value b).

Definition openspace (n : Z) : loader Z := fun S =>
  let size := luaZ_openspace (S_b S) n in inr (size, MkLoadState (S_Z S) size (S_name S)).

Definition LoadString : loader tstring :=
  b ← LoadBlock 8;
  let size := le_value b in
  if size =? 0 then mret None
  else
    space ← openspace size;
    if space <? size then fail OutOfBounds else
    s ← LoadBlock size;
    mret (Some (take (Z.to_nat (size - 1)) s)).

(** [n] words of four bytes. *)
Fixpoint words (n : nat) (b : bytes) : list Z :=
  match n with O => [] | S n' => le_value (take 4 b) :: words n' (drop 4 b) end.

Definition LoadVector (n : Z) : loader (list Z) :=
  b ← LoadBlock (n * 4); mret (words (Z.to_nat n) b).

Definition LoadCode : loader (list Z) := n ← LoadInt; LoadVector n.

(** [for (i = 0; i < n; i++) a[i] = body]. *)
Fixpoint LoadLoop {A} (n : nat) (body : loader A) : loader (list A) :=
  match n with
  | O => mret []
  | S n' => x ← body; xs ← LoadLoop n' body; mret (x :: xs)
  end.

(** A tag that is none of the four leaves the constant nil. *)
Definition LoadConstant : loader constant :=
  t ← LoadChar;
  if t =? LUA_TNIL then mret KNil
  else if t =? LUA_TBOOLEAN then b ← LoadChar; mret (KBoolean b)
  else if t =? LUA_TNUMBER then x ← LoadNumber; mret (KNumber x)
  else if t =? LUA_TSTRING then s ← LoadString; mret (KString s)
  else mret KNil.

Definition LoadConstants (LoadFunction : loader Proto) : loader (list constant * list Proto) :=
  n ← LoadInt;
  ks ← LoadLoop (Z.to_nat n) LoadConstant;
  n ← LoadInt;
  ps ← LoadLoop (Z.to_nat n) LoadFunction;
  mret (ks, ps).

Definition LoadUpvalues : loader (list Upvaldesc) :=
  n ← LoadInt;
  LoadLoop (Z.to_nat n) (i ← LoadByte; x ← LoadByte; mret (MkUpvaldesc None i x)).

(** [for (i = 0; i < n; i++) f->upvalues[i].name = LoadString(S);] *)
Fixpoint LoadNames (n i : nat) (ups : list Upvaldesc) : loader (list Upvaldesc) :=
  match n with
  | O => mret ups
  | S n' =>
      s ← LoadString;
      match ups !! i with
      | None => fail OutOfBounds
      | Some u => LoadNames n' (S i) (<[i := MkUpvaldesc s (instack u) (idx u)]> ups)
      end
  end.

Definition LoadDebug (ups : list Upvaldesc) : loader (tstring * list Z * list LocVar * list Upvaldesc) :=
  src ← LoadString;
  n ← LoadInt;
  lines ← LoadVector n;
  n ← LoadInt;
  vars ← LoadLoop (Z.to_nat n) (s ← LoadString; a ← LoadInt; b ← LoadInt; mret (MkLocVar s a b));
  n ← LoadInt;
  ups ← LoadNames (Z.to_nat n) 0 ups;
  mret (src, s32 <$> lines, vars, ups).

(** The fuel bounds the nesting of functions. *)
Fixpoint LoadFunction (fuel : nat) : loader Proto :=
  match fuel with
  | O => fail LoadFuel
  | S fuel' =>
      ld ← LoadInt;
      lld ← LoadInt;
      np ← LoadByte;
      va ← LoadByte;
      ms ← LoadByte;
      c ← LoadCode;
      '(ks, ps) ← LoadConstants (LoadFunction fuel');
      ups ← LoadUpvalues;
      '(src, lines, vars, ups) ← LoadDebug ups;
      mret (MkProto ld lld np va ms c ks ps ups src lines vars)
  end.

Definition N1 : nat := length LUA_SIGNATURE.
Definition N2 : nat := N1 + 2.
Definition N3 : nat := N2 + 6.

Definition LoadHeader : loader unit :=
  rest ← LoadBlock (LUAC_HEADERSIZE - 1);
  let h := luaU_header in
  let s := take 1 h ++ rest in                (* first char already read *)
  if decide (h = s) then mret ()
  else if decide (take N1 h <> take N1 s) then error not_a
  else if decide (take N2 h <> take N2 s) then error version_mismatch
  else if decide (take N3 h <> take N3 s) then error incompatible
  else error corrupted.

Definition binary_string : bytes := [98; 105; 110; 97; 114; 121; 32; 115; 116; 114; 105; 110; 103].

Definition chunk_name (name : bytes) : bytes :=
  match name with
  | c :: rest => if (c =? 64) || (c =? 61) then rest else if c =? 27 then binary_string else name
  | [] => name
  end.

(** The closure: its prototype and the number of its upvalues. *)
Definition luaU_undump (fuel : nat) (z : zio) (buffsize : Z) (name : bytes)
    : load_error + (Proto * Z) * LoadState :=
  (LoadHeader ≫= fun _ =>
   f ← LoadFunction fuel;
   mret (f, if negb (Z.of_nat (length (upvalues f)) =? 1) then Z.of_nat (length (upvalues f)) else 1))
  (MkLoadState z buffsize (chunk_name name)).

(** ** [f_parser] *)

Section Parser.
(** The parser of source text, with the first character it is given. *)
Context (luaY_parser : zio -> bytes -> option Z -> load_error + (Proto * Z)).

Definition checkmode (mode : option bytes) (x : bytes) : option load_error :=
  match mode with
  | Some m => if decide (default 0 (x !! 0%nat) ∈ m) then None else Some (Mode x)
  | None => None
  end.

Definition binary : bytes := [98; 105; 110; 97; 114; 121].
Definition text : bytes := [116; 101; 120; 116].

Definition f_parser (fuel : nat) (z : zio) (name : bytes) (mode : option bytes) : load_error + Proto * Z :=
  let '(c, z) := zgetc z in
  if decide (c = Some 27) then
    match checkmode mode binary with
    | Some e => inl e
    | None => match luaU_undump fuel z 0 name with inl e => inl e | inr (cl, _) => inr cl end
    end
  else
    match checkmode mode text with
    | Some e => inl e
    | None => luaY_parser z name c
    end.
End Parser.

(** ** The format of a dump *)

Definition string_bytes (s : tstring) : bytes :=
  match s with None => le_bytes 8 0 | Some s => le_bytes 8 (slen s + 1) ++ s ++ [0] end.

(** A counted array. *)
Definition array_bytes {A} (g : A -> bytes) (l : list A) : bytes :=
  le_bytes 4 (Z.of_nat (length l)) ++ (l ≫= g).

Definition constant_bytes (o : constant) : bytes :=
  u8 (ttypenv o) ::
  match o with
  | KNil => [] | KBoolean b => [u8 b] | KNumber x => le_bytes 8 x | KString s => string_bytes s
  end.

Definition locvar_bytes (v : LocVar) : bytes :=
  string_bytes (varname v) ++ le_bytes 4 (startpc v) ++ le_bytes 4 (endpc v).

(** What stripping leaves of the debug information. *)
Definition strip_list {A} (strip : bool) (l : list A) : list A := if strip then [] else l.
Definition strip_string (strip : bool) (s : tstring) : tstring := if strip then None else s.

Definition debug_bytes (strip : bool) (f : Proto) : bytes :=
  string_bytes (strip_string strip (source f)) ++
  array_bytes (le_bytes 4) (strip_list strip (lineinfo f)) ++
  array_bytes locvar_bytes (strip_list strip (locvars f)) ++
  array_bytes (fun u => string_bytes (name u)) (strip_list strip (upvalues f)).

Fixpoint proto_bytes (strip : bool) (f : Proto) : bytes :=
  le_bytes 4 (linedefined f) ++ le_bytes 4 (lastlinedefined f) ++
  [u8 (numparams f)] ++ [u8 (is_vararg f)] ++ [u8 (maxstacksize f)] ++
  array_bytes (le_bytes 4) (code f) ++
  array_bytes constant_bytes (k f) ++
  array_bytes (proto_bytes strip) (p f) ++
  array_bytes (fun u => [u8 (instack u); u8 (idx u)]) (upvalues f) ++
  debug_bytes strip f.

(** Induction over prototypes with the nested ones. *)
Definition Proto_nested_ind (P : Proto -> Prop)
    (H : forall ld lld np va ms c ks ps us s li lv, Forall P ps -> P (MkProto ld lld np va ms c ks ps us s li lv)) :
  forall f, P f :=
  fix go f := match f with
  | MkProto ld lld np va ms c ks ps us s li lv =>
      H ld lld np va ms c ks ps us s li lv
        ((fix gos l : Forall P l := match l with [] => List.Forall_nil P | q :: l => List.Forall_cons _ _ _ (go q) (gos l) end) ps)
  end.

(** *** Dumping writes the format *)

Definition append (w b : bytes) : Z * bytes := (0, w ++ b).

(** An operation that appends [bs]. *)
Definition writes (P : DumpState -> DumpState) (st : bool) (bs : bytes) : Prop :=
  forall w, P (MkDumpState w st 0) = MkDumpState (w ++ bs) st 0.

Lemma writes_block st b : writes (DumpBlock append b) st b.
Proof. done. Qed.

Lemma writes_seq P Q st b c : writes P st b -> writes Q st c -> writes (fun D => Q (P D)) st (b ++ c).
Proof. intros HP HQ w. rewrite HP, HQ, app_assoc. done. Qed.

Lemma writes_loop {A} (body : A -> DumpState -> DumpState) (g : A -> bytes) st l :
  Forall (fun x => writes (body x) st (g x)) l -> writes (DumpLoop body l) st (l ≫= g).
Proof.
  unfold DumpLoop. induction 1 as [|x l Hx _ IH]; intros w; cbn.
  - by rewrite app_nil_r.
  - rewrite Hx, IH, app_assoc. done.
Qed.

Lemma writes_loop_all {A} (body : A -> DumpState -> DumpState) (g : A -> bytes) st l :
  (forall x, writes (body x) st (g x)) -> writes (DumpLoop body l) st (l ≫= g).
Proof. intros H. apply writes_loop, Forall_true, H. Qed.

Lemma writes_string st s : writes (DumpString append s) st (string_bytes s).
Proof. destruct s as [s|]; [|done]. intros w. cbn. by rewrite <- app_assoc. Qed.

Lemma writes_constant st o : writes (DumpConstant append o) st (constant_bytes o).
Proof.
  intros w. destruct o as [|b|x|s]; unfold DumpConstant, DumpChar, DumpNumber; cbn [ttypenv];
    rewrite !writes_block, ?writes_string, <- ?app_assoc; done.
Qed.

Lemma writes_int st x : writes (DumpInt append x) st (le_bytes 4 x).
Proof. apply writes_block. Qed.

Lemma writes_char st x : writes (DumpChar append x) st [u8 x].
Proof. apply writes_block. Qed.

Lemma writes_vector st l : writes (DumpVector append l) st (array_bytes (le_bytes 4) l).
Proof. intros w. unfold DumpVector. rewrite writes_int, writes_block, <- app_assoc. done. Qed.

(** The common case of a counted loop. *)
Lemma writes_array {A} (body : A -> DumpState -> DumpState) (g : A -> bytes) st l w :
  Forall (fun x => writes (body x) st (g x)) l ->
  DumpLoop body l (DumpInt append (Z.of_nat (length l)) (MkDumpState w st 0)) =
  MkDumpState (w ++ array_bytes g l) st 0.
Proof. intros H. rewrite writes_int, (writes_loop body g) by done. unfold array_bytes. by rewrite <- app_assoc. Qed.

Lemma writes_debug st f : writes (DumpDebug append f) st (debug_bytes st f).
Proof.
  intros w. unfold DumpDebug. cbn [strip].
  rewrite writes_string. cbn [strip]. rewrite writes_vector. cbn [strip].
  rewrite (writes_array _ locvar_bytes).
  2: { apply Forall_true. intros v w'. rewrite writes_string, !writes_int, <- !app_assoc. done. }
  cbn [strip]. rewrite (writes_array _ (fun u => string_bytes (name u))).
  2: { apply Forall_true. intros v w'. apply writes_string. }
  unfold debug_bytes. rewrite <- !app_assoc. by destruct st.
Qed.

Lemma writes_function st f : writes (DumpFunction append f) st (proto_bytes st f).
Proof.
  induction f as [ld lld np va ms c ks ps us s li lv IH] using Proto_nested_ind.
  intros w. cbn [DumpFunction linedefined lastlinedefined numparams is_vararg maxstacksize code].
  rewrite !writes_int, !writes_char, writes_vector. unfold DumpConstants. cbn [k p].
  rewrite (writes_array _ constant_bytes) by (apply Forall_true, writes_constant).
  rewrite (writes_array _ (proto_bytes st)) by done.
  unfold DumpUpvalues. cbn [upvalues].
  rewrite (writes_array _ (fun u => [u8 (instack u); u8 (idx u)])).
  2: { apply Forall_true. intros u w'. rewrite !writes_char, <- app_assoc. done. }
  rewrite writes_debug. cbn [proto_bytes linedefined lastlinedefined numparams is_vararg maxstacksize code k p upvalues].
  rewrite <- !app_assoc. done.
Qed.

(** The whole dump. *)
Lemma luaU_dump_bytes f st : luaU_dump append f [] st = (0, luaU_header ++ proto_bytes st f).
Proof. unfold luaU_dump. cbn [DumpHeader]. unfold DumpHeader. rewrite writes_block, writes_function. done. Qed.

(** *** Loading reads the format *)

(** [P] reads exactly [cs] and returns [v]; a proper prefix of [cs] is truncated. *)
Record format {A} (P : loader A) (cs : bytes) (v : A) : Prop := Format {
  f_load : forall S rest, contents (S_Z S) = cs ++ rest ->
    exists S', P S = inr (v, S') /\ contents (S_Z S') = rest /\ S_name S' = S_name S;
  f_cut : forall S, contents (S_Z S) `prefix_of` cs -> contents (S_Z S) <> cs ->
    P S = inl (Syntax (S_name S) truncated);
}.

Lemma format_ret {A} (v : A) : format (mret v) [] v.
Proof.
  split.
  - intros S rest H. by exists S.
  - intros S H Hne. apply prefix_nil_inv in H. done.
Qed.

Lemma format_bind {A B} (P : loader A) (Q : A -> loader B) cs ds v w :
  format P cs v -> format (Q v) ds w -> format (P ≫= Q) (cs ++ ds) w.
Proof.
  intros [HP HPc] [HQ HQc]. split.
  - intros S rest H. rewrite <- app_assoc in H. destruct (HP S _ H) as (S1 & E1 & H1 & N1).
    destruct (HQ S1 _ H1) as (S2 & E2 & H2 & N2). exists S2.
    unfold mbind, loader_bind. rewrite E1, E2. split; [done|]. split; [done|congruence].
  - intros S [r Hr] Hne. unfold mbind, loader_bind.
    apply app_eq_inv in Hr as [(t & Hc & Hd)|(t & Hc & Hd)].
    + destruct (decide (t = [])) as [->|Ht].
      * rewrite app_nil_r in Hc.
        destruct (HP S [] ltac:(by rewrite app_nil_r)) as (S1 & -> & H1 & N1).
        rewrite HQc; [by rewrite N1|rewrite H1; apply prefix_nil|].
        rewrite H1. intros <-. by rewrite app_nil_r in Hne.
      * rewrite HPc; [done|by exists t|]. intros E. apply Ht. apply (app_inv_head cs). rewrite app_nil_r. congruence.
    + (* the input reaches beyond [cs] *)
      destruct (HP S t Hc) as (S1 & -> & H1 & N1). rewrite HQc; [by rewrite N1| |].
      * rewrite H1. by exists r.
      * rewrite H1. intros ->. by rewrite Hc in Hne.
Qed.

Lemma format_block cs : format (LoadBlock (slen cs)) cs cs.
Proof.
  split.
  - intros S rest H. unfold LoadBlock.
    destruct (luaZ_read_contents (S_Z S) (slen cs)) as (z' & -> & Hz); [unfold slen; lia|].
    rewrite H in *. unfold slen in *. rewrite length_app, Nat2Z.id in *.
    replace (Z.max 0 _) with 0 by lia. cbn [negb Z.eqb].
    rewrite take_app_length. eexists. split; [done|]. cbn. rewrite Hz, drop_app_length by lia. done.
  - intros S [r Hr] Hne. unfold LoadBlock.
    destruct (luaZ_read_contents (S_Z S) (slen cs)) as (z' & -> & _); [unfold slen; lia|].
    rewrite (proj2 (Z.eqb_neq _ 0)); [done|].
    destruct r as [|x r]; [by rewrite app_nil_r in Hr|]. rewrite Hr. unfold slen. rewrite length_app. cbn. lia.
Qed.

(** Loading a block and computing from it. *)
Lemma format_block_map {A} cs n (g : bytes -> A) v :
  slen cs = n -> g cs = v -> format (b ← LoadBlock n; mret (g b)) cs v.
Proof.
  intros <- <-. rewrite <- (app_nil_r cs) at 2.
  apply (format_bind _ (fun b => mret (g b)) cs [] cs); [apply format_block|apply format_ret].
Qed.

Lemma format_char x : in_s 8 x -> format LoadChar [u8 x] x.
Proof.
  intros Hx. apply format_block_map; [done|]. cbn [le_value]. unfold swrap, wrap.
  change (2 ^ (8 - 1)) with 128. change (2 ^ 8) with 256. dlia.
Qed.

Lemma format_byte x : is_byte x -> format LoadByte [u8 x] x.
Proof.
  intros Hx. rewrite <- (app_nil_r [u8 x]). unfold LoadByte.
  apply (format_bind _ _ _ _ (swrap 8 x)).
  - apply format_block_map; [done|]. cbn [le_value]. unfold swrap, wrap.
    change (2 ^ (8 - 1)) with 128. change (2 ^ 8) with 256. dlia.
  - assert (u8 (swrap 8 x) = x) as E.
    { unfold swrap, wrap. change (2 ^ (8 - 1)) with 128. change (2 ^ 8) with 256. dlia. }
    rewrite <- E at 2. apply format_ret.
Qed.

Lemma s32_le_bytes x : in_s 32 x -> s32 (le_value (le_bytes 4 x)) = x.
Proof.
  intros Hx. rewrite le_value_bytes. change (256 ^ Z.of_nat 4) with (2 ^ 32). unfold swrap.
  change (2 ^ (32 - 1)) with (2 ^ 31). dlia.
Qed.

Lemma format_int x : 0 <= x < 2 ^ 31 -> format LoadInt (le_bytes 4 x) x.
Proof.
  intros Hx. rewrite <- (app_nil_r (le_bytes 4 x)). unfold LoadInt.
  apply (format_bind _ _ _ _ (le_bytes 4 x)).
  - exact (format_block (le_bytes 4 x)).
  - rewrite s32_le_bytes by clia. rewrite (proj2 (Z.ltb_ge x 0)) by lia. apply format_ret.
Qed.

Lemma format_number x : in_u 64 x -> format LoadNumber (le_bytes 8 x) x.
Proof. intros Hx. apply format_block_map; [done|]. by rewrite le_value_bytes_small. Qed.

(** Binding at the end of a sequence. *)
Lemma format_map {A B} (P : loader A) (g : A -> B) cs v w :
  format P cs v -> g v = w -> format (x ← P; mret (g x)) cs w.
Proof.
  intros H <-. rewrite <- (app_nil_r cs). apply (format_bind P (fun x => mret (g x)) cs [] v); [done|apply format_ret].
Qed.

Definition string_ok (s : tstring) : Prop := match s with Some s => slen s + 1 < 2 ^ 64 | None => True end.

Lemma format_string s : string_ok s -> format LoadString (string_bytes s) s.
Proof.
  intros Hs. unfold LoadString. destruct s as [s|]; cbn [string_bytes string_ok] in *.
  - assert (0 <= slen s + 1 < 256 ^ Z.of_nat 8) as Hr by (change (256 ^ Z.of_nat 8) with (2 ^ 64); unfold slen in *; lia).
    eapply format_bind; [exact (format_block (le_bytes 8 (slen s + 1)))|].
    rewrite le_value_bytes_small by done. rewrite (proj2 (Z.eqb_neq _ 0)) by (unfold slen; lia).
    assert (format (b ← LoadBlock (slen s + 1); mret (Some (take (Z.to_nat (slen s + 1 - 1)) b)))
              (s ++ [0]) (Some s)) as [Hl Hc].
    { apply (format_block_map _ _ (fun b => Some (take (Z.to_nat (slen s + 1 - 1)) b))).
      - unfold slen. rewrite length_app. cbn. lia.
      - rewrite take_app_le, firstn_all2 by (unfold slen; lia). done. }
    split; intros S; unfold mbind, loader_bind at 1, openspace;
      rewrite (proj2 (Z.ltb_ge _ _)) by apply luaZ_openspace_enough.
    + intros rest H. exact (Hl (MkLoadState (S_Z S) _ (S_name S)) rest H).
    + intros H Hne. exact (Hc (MkLoadState (S_Z S) _ (S_name S)) H Hne).
  - rewrite <- (app_nil_r (le_bytes 8 0)).
    eapply format_bind; [exact (format_block (le_bytes 8 0))|]. apply format_ret.
Qed.

Lemma words_bytes l : words (length l) (l ≫= le_bytes 4) = u32 <$> l.
Proof.
  induction l as [|x l IH]; [done|]. cbn [length words].
  change ((x :: l) ≫= le_bytes 4) with (le_bytes 4 x ++ (l ≫= le_bytes 4)).
  rewrite take_app_le, take_ge, drop_app_ge, length_le_bytes by (rewrite length_le_bytes; lia).
  rewrite Nat.sub_diag, drop_0, IH, le_value_bytes. done.
Qed.

Lemma slen_words l : slen (l ≫= le_bytes 4) = Z.of_nat (length l) * 4.
Proof.
  induction l as [|x l IH]; [done|]. unfold slen in *. cbn [mbind list_bind] in *.
  change (list_bind _ _ (le_bytes 4) (x :: l)) with (le_bytes 4 x ++ (l ≫= le_bytes 4)).
  rewrite length_app, length_le_bytes. cbn [length]. rewrite Nat2Z.inj_add, IH. lia.
Qed.

Lemma format_vector l : format (LoadVector (Z.of_nat (length l))) (l ≫= le_bytes 4) (u32 <$> l).
Proof.
  unfold LoadVector. rewrite Nat2Z.id. apply (format_block_map _ _ (words (length l))).
  - apply slen_words.
  - apply words_bytes.
Qed.

Lemma u32_list l : Forall (in_u 32) l -> u32 <$> l = l.
Proof. intros H. induction H as [|x l Hx _ IH]; [done|]. cbn. rewrite IH, wrap_small by done. done. Qed.

Lemma s32_list l : Forall (in_s 32) l -> s32 <$> (u32 <$> l) = l.
Proof.
  intros H. induction H as [|x l Hx _ IH]; [done|]. cbn. rewrite IH. f_equal.
  unfold swrap, wrap. change (2 ^ (32 - 1)) with (2 ^ 31). dlia.
Qed.

Definition size_ok {A} (l : list A) : Prop := Z.of_nat (length l) < 2 ^ 31.

Lemma format_count {A} (l : list A) :
  size_ok l -> format LoadInt (le_bytes 4 (Z.of_nat (length l))) (Z.of_nat (length l)).
Proof. intros. apply format_int. unfold size_ok in *. lia. Qed.

Lemma format_loop {A} (body : loader A) (g : A -> bytes) (h : A -> A) l :
  Forall (fun x => format body (g x) (h x)) l -> format (LoadLoop (length l) body) (l ≫= g) (h <$> l).
Proof.
  induction 1 as [|x l Hx _ IH]; [apply format_ret|]. cbn [length LoadLoop].
  change ((x :: l) ≫= g) with (g x ++ (l ≫= g)).
  apply (format_bind _ _ (g x) (l ≫= g) (h x)); [done|]. by apply (format_map _ (cons (h x)) _ (h <$> l)).
Qed.

(** A counted loop, followed by the rest of the reader. *)
Lemma format_array {A B} (body : loader A) (g : A -> bytes) (h : A -> A) l (Q : list A -> loader B) ds v :
  size_ok l -> Forall (fun x => format body (g x) (h x)) l -> format (Q (h <$> l)) ds v ->
  format (n ← LoadInt; xs ← LoadLoop (Z.to_nat n) body; Q xs) (array_bytes g l ++ ds) v.
Proof.
  intros Hl Hb HQ. unfold array_bytes. rewrite <- app_assoc.
  eapply format_bind; [by apply format_count|]. rewrite Nat2Z.id.
  eapply format_bind; [by apply (format_loop _ g h)|done].
Qed.

Definition constant_ok (o : constant) : Prop :=
  match o with
  | KNil => True | KBoolean b => in_s 8 b | KNumber x => in_u 64 x | KString s => string_ok s
  end.

Lemma format_constant o : constant_ok o -> format LoadConstant (constant_bytes o) o.
Proof.
  intros Ho. unfold LoadConstant, constant_bytes.
  change (u8 (ttypenv o) :: ?l) with ([u8 (ttypenv o)] ++ l).
  eapply format_bind; [apply (format_char (ttypenv o)); destruct o; vm_compute; split; done|].
  destruct o as [|b|x|s]; cbn [ttypenv LUA_TNIL LUA_TBOOLEAN LUA_TNUMBER LUA_TSTRING Z.eqb Pos.eqb].
  - apply format_ret.
  - by eapply format_map; [apply format_char|].
  - by eapply format_map; [apply format_number|].
  - by eapply format_map; [apply format_string|].
Qed.

Definition locvar_ok (v : LocVar) : Prop :=
  string_ok (varname v) /\ 0 <= startpc v < 2 ^ 31 /\ 0 <= endpc v < 2 ^ 31.

Lemma format_locvar v :
  locvar_ok v ->
  format (s ← LoadString; a ← LoadInt; b ← LoadInt; mret (MkLocVar s a b)) (locvar_bytes v) v.
Proof.
  destruct v as [s a b]. intros (Hs & Ha & Hb). cbn in *.
  eapply format_bind; [by apply format_string|]. eapply format_bind; [by apply format_int|].
  by eapply format_map; [apply format_int|].
Qed.

Definition upval_ok (u : Upvaldesc) : Prop := string_ok (name u) /\ is_byte (instack u) /\ is_byte (idx u).
Definition no_name (u : Upvaldesc) : Upvaldesc := MkUpvaldesc None (instack u) (idx u).

Lemma format_upvalue u :
  upval_ok u ->
  format (i ← LoadByte; x ← LoadByte; mret (MkUpvaldesc None i x)) [u8 (instack u); u8 (idx u)] (no_name u).
Proof.
  intros (_ & Hi & Hx). apply (format_bind _ _ [u8 (instack u)] [u8 (idx u)] (instack u)); [by apply format_byte|].
  by eapply format_map; [apply format_byte|].
Qed.

(** The names are stored over the upvalues read before. *)
Lemma format_names l2 : forall l1,
  Forall upval_ok l2 ->
  format (LoadNames (length l2) (length l1) (l1 ++ (no_name <$> l2))) (l2 ≫= fun u => string_bytes (name u)) (l1 ++ l2).
Proof.
  induction l2 as [|u l2 IH]; intros l1 Hok; [apply format_ret|].
  apply Forall_cons_1 in Hok as [[Hs _] Hok]. cbn [length LoadNames fmap list_fmap].
  change ((u :: l2) ≫= ?f) with (f u ++ (l2 ≫= f)).
  apply (format_bind _ _ (string_bytes (name u)) (l2 ≫= fun u => string_bytes (name u)) (name u)); [by apply format_string|].
  rewrite list_lookup_middle by done. rewrite insert_app_r_alt, Nat.sub_diag by lia. cbn [insert list_insert].
  replace (MkUpvaldesc (name u) (instack (no_name u)) (idx (no_name u))) with u by by destruct u.
  specialize (IH (l1 ++ [u]) Hok). rewrite length_app in IH. cbn [length] in IH. rewrite Nat.add_1_r in IH.
  rewrite <- !app_assoc in IH. exact IH.
Qed.

Lemma format_array_end {A} (body : loader A) (g : A -> bytes) (h : A -> A) l :
  size_ok l -> Forall (fun x => format body (g x) (h x)) l ->
  format (n ← LoadInt; LoadLoop (Z.to_nat n) body) (array_bytes g l) (h <$> l).
Proof.
  intros Hl Hb. eapply format_bind; [by apply format_count|]. rewrite Nat2Z.id. by apply format_loop.
Qed.

Lemma size_strip {A} st (l : list A) : size_ok l -> size_ok (strip_list st l).
Proof. by destruct st. Qed.

Lemma Forall_strip {A} (P : A -> Prop) st l : Forall P l -> Forall P (strip_list st l).
Proof. destruct st; [constructor|done]. Qed.

(** Well-formed debug information, as the C types allow it. *)
Definition debug_ok (f : Proto) : Prop :=
  string_ok (source f) /\ size_ok (lineinfo f) /\ Forall (in_s 32) (lineinfo f) /\
  size_ok (locvars f) /\ Forall locvar_ok (locvars f) /\ size_ok (upvalues f) /\ Forall upval_ok (upvalues f).

(** The upvalues after loading. *)
Definition loaded_upvalues (st : bool) (us : list Upvaldesc) : list Upvaldesc := if st then no_name <$> us else us.

Lemma format_debug st f :
  debug_ok f ->
  format (LoadDebug (no_name <$> upvalues f)) (debug_bytes st f)
    (strip_string st (source f), strip_list st (lineinfo f), strip_list st (locvars f),
     loaded_upvalues st (upvalues f)).
Proof.
  intros (Hs & Hls & Hli & Hvs & Hv & Hus & Hu). unfold LoadDebug, debug_bytes.
  eapply format_bind; [apply format_string; by destruct st|].
  unfold array_bytes at 1. rewrite <- app_assoc.
  eapply format_bind; [by apply format_count, size_strip|]. eapply format_bind; [apply format_vector|].
  eapply (format_array _ locvar_bytes id); [by apply size_strip| |].
  { apply Forall_strip. eapply Forall_impl; [exact Hv|]. intros v. apply format_locvar. }
  eapply format_bind; [by apply format_count, size_strip|]. rewrite Nat2Z.id, list_fmap_id.
  rewrite s32_list by by apply Forall_strip. destruct st; cbn [strip_list strip_string loaded_upvalues].
  - eapply (format_map _ (fun ups => (_, _, _, ups))); [apply format_ret|done].
  - eapply (format_map _ (fun ups => (_, _, _, ups))); [by apply (format_names _ [])|done].
Qed.

Inductive proto_ok : Proto -> Prop :=
| Proto_ok f :
    0 <= linedefined f < 2 ^ 31 -> 0 <= lastlinedefined f < 2 ^ 31 ->
    is_byte (numparams f) -> is_byte (is_vararg f) -> is_byte (maxstacksize f) ->
    size_ok (code f) -> Forall (in_u 32) (code f) ->
    size_ok (k f) -> Forall constant_ok (k f) ->
    debug_ok f -> size_ok (p f) -> Forall proto_ok (p f) -> proto_ok f.

Fixpoint depth (f : Proto) : nat := S (foldr Nat.max O (depth <$> p f)).

(** What loading gives: the prototype, without debug information if stripped. *)
Fixpoint loaded_proto (st : bool) (f : Proto) : Proto :=
  MkProto (linedefined f) (lastlinedefined f) (numparams f) (is_vararg f) (maxstacksize f) (code f) (k f)
    (loaded_proto st <$> p f) (loaded_upvalues st (upvalues f)) (strip_string st (source f))
    (strip_list st (lineinfo f)) (strip_list st (locvars f)).

Lemma depth_nested f q : q ∈ p f -> (depth q < depth f)%nat.
Proof.
  destruct f as [ld lld np va ms c ks ps us s li lv]. cbn [p]. intros Hq.
  change (depth q < S (foldr Nat.max O (depth <$> ps)))%nat.
  induction ps as [|r ps IH]; [by apply not_elem_of_nil in Hq|].
  cbn [fmap list_fmap foldr]. apply elem_of_cons in Hq as [->|Hq]; [lia|]. specialize (IH Hq). lia.
Qed.

Lemma format_function st f : forall fuel,
  proto_ok f -> (depth f <= fuel)%nat -> format (LoadFunction fuel) (proto_bytes st f) (loaded_proto st f).
Proof.
  induction f as [ld lld np va ms c ks ps us s li lv IH] using Proto_nested_ind.
  intros fuel Hok Hd. destruct fuel as [|fuel]; [cbn in Hd; lia|].
  inversion_clear Hok as [? Hld Hlld Hnp Hva Hms Hcs Hc Hks Hk Hdeb Hps Hp].
  cbn [LoadFunction proto_bytes loaded_proto linedefined lastlinedefined numparams is_vararg maxstacksize
       code k p upvalues source lineinfo locvars] in *.
  eapply format_bind; [by apply format_int|]. eapply format_bind; [by apply format_int|].
  eapply format_bind; [by apply format_byte|]. eapply format_bind; [by apply format_byte|].
  eapply format_bind; [by apply format_byte|].
  eapply format_bind.
  { unfold LoadCode, array_bytes. eapply format_bind; [by apply format_count|]. apply format_vector. }
  rewrite u32_list by done. rewrite app_assoc.
  eapply format_bind.
  { unfold LoadConstants. eapply (format_array _ constant_bytes id); [done| |].
    { eapply Forall_impl; [exact Hk|]. intros o. apply format_constant. }
    rewrite <- (app_nil_r (array_bytes _ ps)).
    eapply (format_array _ _ (loaded_proto st)); [done| |apply format_ret].
    apply Forall_forall. intros q Hq. rewrite Forall_forall in IH, Hp. apply IH; [done|by apply Hp|].
    pose proof (depth_nested (MkProto ld lld np va ms c ks ps us s li lv) q Hq). lia. }
  rewrite list_fmap_id. eapply format_bind.
  { apply (format_array_end _ _ no_name); [apply Hdeb|]. eapply Forall_impl; [apply Hdeb|].
    intros u. apply format_upvalue. }
  rewrite <- (app_nil_r (debug_bytes _ _)).
  eapply format_bind; [by apply (format_debug st (MkProto ld lld np va ms c ks ps us s li lv))|].
  apply format_ret.
Qed.

Lemma loaded_proto_full f : loaded_proto false f = f.
Proof.
  induction f as [ld lld np va ms c ks ps us s li lv IH] using Proto_nested_ind. cbn. f_equal.
  induction IH as [|q ps Hq _ IH']; [done|]. cbn. by rewrite Hq, IH'.
Qed.

(** Loading and dumping keep the number of upvalues. *)
Lemma loaded_upvalues_length st f : length (upvalues (loaded_proto st f)) = length (upvalues f).
Proof. destruct f. cbn. destruct st; cbn; [apply length_fmap|done]. Qed.

Lemma format_undump st f fuel :
  proto_ok f -> (depth f <= fuel)%nat ->
  format (LoadHeader ≫= fun _ => f ← LoadFunction fuel;
    mret (f, if negb (Z.of_nat (length (upvalues f)) =? 1) then Z.of_nat (length (upvalues f)) else 1))
    (drop 1 luaU_header ++ proto_bytes st f) (loaded_proto st f, Z.of_nat (length (upvalues f))).
Proof.
  intros Hok Hd. eapply (format_bind _ _ _ _ tt).
  - unfold LoadHeader. rewrite <- (app_nil_r (drop 1 luaU_header)). eapply format_bind.
    + exact (format_block (drop 1 luaU_header)).
    + rewrite take_drop, decide_True by done. apply format_ret.
  - eapply (format_map _ (fun f => (f, _))); [by apply format_function|]. cbv beta.
    rewrite loaded_upvalues_length. f_equal. by destruct (Z.eqb_spec (Z.of_nat (length (upvalues f))) 1).
Qed.

(** *** Loading terminates *)

(** On at most [n] bytes, [P] gives an error other than lack of fuel or uses up
    at least [d] bytes. *)
Definition safe {A} (n d : nat) (P : loader A) : Prop :=
  forall S, Forall is_byte (contents (S_Z S)) -> (length (contents (S_Z S)) <= n)%nat ->
  match P S with
  | inl e => e <> LoadFuel
  | inr (_, S') => Forall is_byte (contents (S_Z S')) /\
      (length (contents (S_Z S')) + d <= length (contents (S_Z S)))%nat
  end.

Lemma safe_ret {A} n (v : A) : safe n 0 (mret v).
Proof. intros S Hb Hl. cbn. split; [done|lia]. Qed.

Lemma safe_error {A} n d w : safe n d (error (A := A) w).
Proof. by intros S Hb Hl. Qed.

Lemma safe_fail {A} n d e : e <> LoadFuel -> safe n d (fail (A := A) e).
Proof. by intros He S Hb Hl. Qed.

Lemma safe_bind {A B} n d1 d2 (P : loader A) (Q : A -> loader B) :
  safe n d1 P -> (forall v, safe (n - d1) d2 (Q v)) -> safe n (d1 + d2) (P ≫= Q).
Proof.
  intros HP HQ S Hb Hl. unfold mbind, loader_bind. specialize (HP S Hb Hl).
  destruct (P S) as [e|[v S1]]; [done|]. destruct HP as [Hb1 Hl1].
  specialize (HQ v S1 Hb1 ltac:(lia)). destruct (Q v S1) as [e|[w S2]]; [done|].
  destruct HQ as [Hb2 Hl2]. split; [done|lia].
Qed.

Lemma safe_weaken {A} n n' d d' (P : loader A) : (n' <= n)%nat -> (d' <= d)%nat -> safe n d P -> safe n' d' P.
Proof.
  intros Hn Hd H S Hb Hl. specialize (H S Hb ltac:(lia)). destruct (P S) as [e|[v S1]]; [done|].
  destruct H. split; [done|lia].
Qed.

(** Binding without counting. *)
Lemma safe_bind0 {A B} n (P : loader A) (Q : A -> loader B) :
  safe n 0 P -> (forall v, safe n 0 (Q v)) -> safe n 0 (P ≫= Q).
Proof. intros HP HQ. apply (safe_bind n 0 0); [done|]. intros v. by rewrite Nat.sub_0_r. Qed.

(** A block, whose bytes the continuation can use. *)
Lemma safe_block {B} n size (Q : bytes -> loader B) :
  0 <= size -> (forall b, Forall is_byte b -> safe n 0 (Q b)) ->
  safe n (Z.to_nat size) (LoadBlock size ≫= Q).
Proof.
  intros Hsize HQ S Hb Hl. unfold mbind, loader_bind, LoadBlock.
  destruct (luaZ_read_contents (S_Z S) size Hsize) as (z' & -> & Hz).
  destruct (Z.eqb_spec (Z.max 0 (size - slen (contents (S_Z S)))) 0) as [E|E]; cbn [negb]; [|done].
  unfold slen in *. assert (contents z' = drop (Z.to_nat size) (contents (S_Z S))) as Hz' by (apply Hz; lia).
  specialize (HQ (take (Z.to_nat size) (contents (S_Z S))) ltac:(by apply Forall_take)
    (MkLoadState z' (S_b S) (S_name S))).
  cbn [S_Z] in HQ. rewrite Hz', length_drop in HQ. specialize (HQ ltac:(by apply Forall_drop) ltac:(lia)).
  destruct (Q _ _) as [e|[v S1]]; [done|]. destruct HQ. split; [done|lia].
Qed.

Lemma safe_loop {A} n (P : loader A) m : safe n 0 P -> safe n 0 (LoadLoop m P).
Proof.
  intros HP. induction m as [|m IH]; [apply safe_ret|]. cbn [LoadLoop].
  apply safe_bind0; [done|]. intros v. apply safe_bind0; [done|]. intros vs. apply safe_ret.
Qed.

Lemma safe_char n : safe n 0 LoadChar.
Proof. eapply safe_weaken; [done| |apply safe_block; [lia|]; intros; apply safe_ret]. lia. Qed.

Lemma safe_byte n : safe n 0 LoadByte.
Proof. apply safe_bind0; [apply safe_char|]. intros. apply safe_ret. Qed.

Lemma safe_int_plain n : safe n 4 LoadInt.
Proof.
  apply (safe_block n 4); [lia|]. intros b _. cbv zeta. destruct (_ <? 0); [apply safe_error|apply safe_ret].
Qed.

Lemma safe_int {B} n (Q : Z -> loader B) : (forall x, 0 <= x -> safe n 0 (Q x)) -> safe n 4 (LoadInt ≫= Q).
Proof.
  intros HQ S Hb Hl.
  pose proof (safe_block n 4 (fun b => (let x := s32 (le_value b) in if x <? 0 then error corrupted else mret x) ≫= Q))
    as H. specialize (H ltac:(lia)).
  assert (forall x, safe n 0 ((if x <? 0 then error corrupted else mret x) ≫= Q)) as HQ'.
  { intros x. destruct (Z.ltb_spec x 0); [by intros|]. intros S' Hb' Hl'. cbn. by apply HQ. }
  specialize (H ltac:(intros; apply HQ') S Hb Hl). unfold LoadInt. unfold mbind, loader_bind in *.
  by destruct (LoadBlock 4 S) as [|[]].
Qed.

Lemma safe_int0 {B} n (Q : Z -> loader B) : (forall x, 0 <= x -> safe n 0 (Q x)) -> safe n 0 (LoadInt ≫= Q).
Proof. intros H. eapply safe_weaken; [done| |by apply safe_int]. lia. Qed.

Lemma safe_number n : safe n 0 LoadNumber.
Proof. eapply safe_weaken; [done| |apply safe_block; [lia|]; intros; apply safe_ret]. lia. Qed.

Lemma safe_string n : safe n 0 LoadString.
Proof.
  apply (safe_weaken n n 8 0); [done|lia|]. apply (safe_block n 8); [lia|]. intros b Hb. cbv zeta.
  pose proof (le_value_range b Hb) as Hr.
  destruct (Z.eqb_spec (le_value b) 0); [apply safe_ret|].
  apply safe_bind0; [intros S HbS Hl; cbn; split; [done|lia]|]. intros space.
  destruct (space <? le_value b); [by apply safe_fail|].
  eapply safe_weaken; [done| |apply safe_block; [lia|]; intros; apply safe_ret]. lia.
Qed.

Lemma safe_vector n m : 0 <= m -> safe n 0 (LoadVector m).
Proof. intros. eapply safe_weaken; [done| |apply safe_block; [lia|]; intros; apply safe_ret]. lia. Qed.
Lemma safe_names n m : forall i ups, safe n 0 (LoadNames m i ups).
Proof.
  induction m as [|m IH]; intros i ups; [apply safe_ret|]. cbn [LoadNames].
  apply safe_bind0; [apply safe_string|]. intros s. destruct (ups !! i); [apply IH|by apply safe_fail].
Qed.

Lemma safe_constant n : safe n 0 LoadConstant.
Proof.
  apply safe_bind0; [apply safe_char|]. intros t.
  destruct (t =? LUA_TNIL); [apply safe_ret|].
  destruct (t =? LUA_TBOOLEAN); [apply safe_bind0; [apply safe_char|intros; apply safe_ret]|].
  destruct (t =? LUA_TNUMBER); [apply safe_bind0; [apply safe_number|intros; apply safe_ret]|].
  destruct (t =? LUA_TSTRING); [apply safe_bind0; [apply safe_string|intros; apply safe_ret]|apply safe_ret].
Qed.

Lemma safe_constants n LF : safe n 0 LF -> safe n 0 (LoadConstants LF).
Proof.
  intros H. apply safe_int0. intros x _. apply safe_bind0; [apply safe_loop, safe_constant|]. intros ks.
  apply safe_int0. intros y _. apply safe_bind0; [by apply safe_loop|]. intros. apply safe_ret.
Qed.

Lemma safe_upvalues n : safe n 0 LoadUpvalues.
Proof.
  apply safe_int0. intros x _. apply safe_loop. apply safe_bind0; [apply safe_byte|]. intros a.
  apply safe_bind0; [apply safe_byte|]. intros. apply safe_ret.
Qed.

Lemma safe_debug n ups : safe n 0 (LoadDebug ups).
Proof.
  apply safe_bind0; [apply safe_string|]. intros src. apply safe_int0. intros x Hx.
  apply safe_bind0; [by apply safe_vector|]. intros lines. apply safe_int0. intros y _.
  apply safe_bind0.
  { apply safe_loop. apply safe_bind0; [apply safe_string|]. intros s. apply safe_int0. intros a _.
    apply safe_int0. intros. apply safe_ret. }
  intros vars. apply safe_int0. intros w _. apply safe_bind0; [apply safe_names|]. intros. apply safe_ret.
Qed.

(** A function uses four bytes before it loads a nested one. *)
Lemma safe_function fuel : safe fuel 0 (LoadFunction (S fuel)).
Proof.
  induction fuel as [|fuel IH].
  { intros S Hb Hl. cbn [LoadFunction]. unfold mbind, loader_bind at 1.
    assert (contents (S_Z S) = []) as Hnil by (apply nil_length_inv; lia).
    assert (LoadInt S = inl (Syntax (S_name S) truncated)) as ->; [|done].
    destruct (format_int 0 ltac:(lia)) as [_ Hc]. apply Hc; rewrite Hnil; [apply prefix_nil|done]. }
  change (LoadFunction (S (S fuel))) with
    (ld ← LoadInt; lld ← LoadInt; np ← LoadByte; va ← LoadByte; ms ← LoadByte; c ← LoadCode;
     '(ks, ps) ← LoadConstants (LoadFunction (S fuel));
     ups ← LoadUpvalues;
     '(src, lines, vars, ups) ← LoadDebug ups;
     mret (MkProto ld lld np va ms c ks ps ups src lines vars) : loader Proto).
  apply (safe_weaken (S fuel) (S fuel) 4 0); [done|lia|].
  apply (safe_bind (S fuel) 4 0).
  { apply safe_int_plain. }
  intros ld. apply (safe_weaken fuel _ 0 0); [lia|done|].
  apply safe_int0. intros lld _.
  apply safe_bind0; [apply safe_byte|]. intros np. apply safe_bind0; [apply safe_byte|]. intros va.
  apply safe_bind0; [apply safe_byte|]. intros ms.
  apply safe_bind0; [apply safe_int0; intros; by apply safe_vector|]. intros c.
  apply safe_bind0; [by apply safe_constants|]. intros [ks ps].
  apply safe_bind0; [apply safe_upvalues|]. intros ups.
  apply safe_bind0; [apply safe_debug|]. intros [[[src lines] vars] ups']. apply safe_ret.
Qed.

(** The loader does not run out of fuel. *)
Lemma undump_fuel (z : zio) (buffsize : Z) (name : bytes) (fuel : nat) :
  Forall is_byte (contents z) -> (length (contents z) < fuel)%nat ->
  luaU_undump fuel z buffsize name <> inl LoadFuel.
Proof.
  intros Hb Hl. unfold luaU_undump. destruct fuel as [|fuel]; [lia|].
  assert (safe fuel 0 (LoadHeader ≫= fun _ => f ← LoadFunction (S fuel);
    mret (f, if negb (Z.of_nat (length (upvalues f)) =? 1) then Z.of_nat (length (upvalues f)) else 1))) as H.
  { apply safe_bind0; [|intros _; apply safe_bind0; [apply safe_function|intros; apply safe_ret]].
    apply (safe_weaken fuel fuel (Z.to_nat (LUAC_HEADERSIZE - 1)) 0); [done|lia|].
    apply safe_block; [vm_compute; discriminate|]. intros b _. cbv zeta.
    repeat (destruct (decide _); [apply safe_error || apply safe_ret|]). apply safe_error. }
  specialize (H (MkLoadState z buffsize (chunk_name name)) Hb ltac:(cbn; lia)).
  intros E. rewrite E in H. done.
Qed.

(** ** Theorems *)

(** C38. Loading a dumped function gives the same prototype back, with the debug
    information removed when it was stripped: whatever blocks the reader cuts the
    dump into, and whatever follows it, provided binary chunks are allowed and
    the fuel covers the nesting of functions. *)
Theorem dump_undump (luaY_parser : zio -> bytes -> option Z -> load_error + Proto * Z)
    (f : Proto) (st : bool) (z : zio) (rest name : bytes) (mode : option bytes) (fuel : nat) :
  proto_ok f -> (depth f <= fuel)%nat -> checkmode mode binary = None ->
  contents z = snd (luaU_dump append f [] st) ++ rest ->
  f_parser luaY_parser fuel z name mode =
    inr (if st then loaded_proto true f else f, Z.of_nat (length (upvalues f))).
Proof.
  intros Hok Hd Hm Hc. rewrite luaU_dump_bytes in Hc. cbn [snd] in Hc.
  destruct (zgetc_contents z 27 (drop 1 luaU_header ++ proto_bytes st f ++ rest)) as (z' & E & Hc').
  { rewrite Hc, <- app_assoc. done. }
  unfold f_parser. rewrite E, decide_True, Hm by done. unfold luaU_undump.
  destruct (format_undump st f fuel Hok Hd) as [Hl _].
  destruct (Hl (MkLoadState z' 0 (chunk_name name)) rest) as (S' & -> & _).
  { cbn. rewrite Hc', app_assoc. done. }
  do 2 f_equal. destruct st; [done|]. apply loaded_proto_full.
Qed.

(** C39. A dump that is cut short is never accepted: every proper prefix that
    has its first byte is refused with the error "truncated precompiled chunk". *)
Theorem undump_truncated (luaY_parser : zio -> bytes -> option Z -> load_error + Proto * Z)
    (f : Proto) (st : bool) (z : zio) (name : bytes) (fuel n : nat) :
  proto_ok f -> (depth f <= fuel)%nat ->
  (0 < n < length (snd (luaU_dump append f [] st)))%nat ->
  contents z = take n (snd (luaU_dump append f [] st)) ->
  f_parser luaY_parser fuel z name None = inl (Syntax (chunk_name name) truncated).
Proof.
  intros Hok Hd Hn Hc. rewrite luaU_dump_bytes in Hc, Hn. cbn [snd] in Hc, Hn.
  set (cs := drop 1 luaU_header ++ proto_bytes st f).
  destruct n as [|n]; [lia|].
  destruct (zgetc_contents z 27 (take n cs)) as (z' & E & Hc'); [done|].
  unfold f_parser. rewrite E, decide_True by done. cbn [checkmode]. unfold luaU_undump.
  destruct (format_undump st f fuel Hok Hd) as [_ Hcut].
  rewrite (Hcut (MkLoadState z' 0 (chunk_name name))); [done| |]; cbn [S_Z]; rewrite Hc'.
  - exists (drop n cs). symmetry. apply take_drop.
  - intros Heq. assert (length (take n cs) = length cs) as Hlen by by rewrite Heq.
    rewrite length_take in Hlen. change (length (luaU_header ++ proto_bytes st f)) with (S (length cs)) in Hn. lia.
Qed.

(** Once the writer reports an error it is not called again: the rest of
    the function leaves the state unchanged and the status is returned. *)
Theorem dump_stops {W} (writer : W -> bytes -> Z * W) (f : Proto) (D : DumpState (W := W)) :
  status D <> 0 -> DumpFunction writer f D = D.
Proof.
  intros Hs.
  assert (forall b, DumpBlock writer b D = D) as HB.
  { intros b. unfold DumpBlock. by rewrite (proj2 (Z.eqb_neq _ _) Hs). }
  assert (forall s, DumpString writer s D = D) as HS by (intros [s|]; cbn; rewrite !HB; done).
  assert (forall A (body : A -> DumpState -> DumpState) l, Forall (fun x => body x D = D) l -> DumpLoop body l D = D) as HL.
  { intros A body l. unfold DumpLoop. induction 1 as [|x l Hx _ IH]; [done|]. cbn. by rewrite Hx. }
  assert (forall o, DumpConstant writer o D = D) as HK.
  { intros o. unfold DumpConstant, DumpChar, DumpNumber. destruct o; rewrite ?HB, ?HS; done. }
  induction f as [ld lld np va ms c ks ps us s li lv IH] using Proto_nested_ind.
  cbn [DumpFunction]. unfold DumpConstants, DumpUpvalues, DumpDebug, DumpVector, DumpInt, DumpChar. cbn [k p upvalues].
  repeat first [ rewrite HB | rewrite HS
    | rewrite HL by (exact IH || (apply Forall_true; intros; rewrite ?HK, ?HS, ?HB; done)) ]; done.
Qed.

(** A function with a nested one, constants of every kind and debug information. *)
Definition example_inner : Proto :=
  MkProto 2 3 1 0 4 [0x1f] [KBoolean 1; KNumber 0x4045000000000000] [] [MkUpvaldesc (Some [120]) 1 0]
    None [3] [MkLocVar (Some [97]) 0 1].

Definition example_proto : Proto :=
  MkProto 0 0 0 1 2 [0x26; 0x80001e] [KString (Some [104; 105]); KNil] [example_inner]
    [MkUpvaldesc (Some [95; 69; 78; 86]) 1 0] (Some [64; 116]) [1; 4] [].

Lemma example_proto_ok : proto_ok example_proto.
Proof.
  repeat (constructor || (unfold debug_ok, size_ok, string_ok, locvar_ok, upval_ok, constant_ok; cbn)
    || (split; [|]) || clia || done).
Qed.

Definition example_dump (st : bool) : bytes := snd (luaU_dump append example_proto [] st).

(** A reader that gives the dump in two blocks. *)
Definition example_stream (b : bytes) : zio := luaZ_init [Some (take 20 b); Some (drop 20 b)].

(** Witness of C38: the dump followed by other bytes. *)
Lemma dump_undump_witness :
  f_parser (fun _ _ _ => inl OutOfBounds) 2 (example_stream (example_dump false ++ [1; 2])) [61; 120] (Some [98; 116]) =
    inr (example_proto, 1).
Proof.
  apply (dump_undump (fun _ _ _ => inl OutOfBounds) example_proto false
    (example_stream (example_dump false ++ [1; 2])) [1; 2]).
  - exact example_proto_ok.
  - vm_compute. lia.
  - vm_compute. reflexivity.
  - vm_compute. reflexivity.
Defined.

(** Witness of C39: a stripped dump without its last byte. *)
Lemma undump_truncated_witness :
  f_parser (fun _ _ _ => inl OutOfBounds) 2 (example_stream (take 150 (example_dump true))) [61; 120] None =
    inl (Syntax [120] truncated).
Proof.
  apply (undump_truncated (fun _ _ _ => inl OutOfBounds) example_proto true
    (example_stream (take 150 (example_dump true))) [61; 120] 2 150).
  - exact example_proto_ok.
  - vm_compute. lia.
  - vm_compute. lia.
  - vm_compute. reflexivity.
Defined.

(** Example: a writer whose disk is full. *)
Lemma dump_stops_witness :
  DumpFunction (fun (w : nat) _ => (0, S w)) example_proto (MkDumpState 5%nat false 1) = MkDumpState 5%nat false 1.
Proof. apply (dump_stops (fun (w : nat) _ => (0, S w)) example_proto (MkDumpState 5%nat false 1)). done. Defined.

