(* ===== verification/LuaLoad.v ===== *)
(** * The types of loaded chunks ([lundump.c] of [src/dep/lua-5.2.3/src])

    Whatever bytes the loader of [LuaDump] is given, a prototype that it returns is
    one that the C types can hold and that [luaU_dump] can write again; the loader
    never runs out of fuel.  It trusts the counts in the chunk in one place: the
    names of the upvalues are stored without comparing their number with the
    number of upvalues. *)

From S2P Require Import Prelude LuaStr LuaZio LuaDump.

(** A reader whose results satisfy [Q], on any bytes. *)
Definition typed {A} (P : loader A) (Q : A -> Prop) : Prop :=
  forall S, Forall is_byte (contents (S_Z S)) ->
  match P S with
  | inr (a, S') => Q a /\ Forall is_byte (contents (S_Z S'))
  | inl _ => True
  end.

Lemma typed_ret {A} (a : A) (Q : A -> Prop) : Q a -> typed (mret a) Q.
Proof. by intros H S Hb. Qed.

Lemma typed_bind {A B} (P : loader A) (k : A -> loader B) Q R :
  typed P Q -> (forall a, Q a -> typed (k a) R) -> typed (P ≫= k) R.
Proof.
  intros HP Hk S Hb. specialize (HP S Hb). unfold mbind, loader_bind. destruct (P S) as [|[a S']]; [done|].
  destruct HP as [Ha Hb']. by apply Hk.
Qed.

Lemma typed_error {A} w (Q : A -> Prop) : typed (error w) Q.
Proof. done. Qed.

Lemma typed_fail {A} e (Q : A -> Prop) : typed (fail e) Q.
Proof. done. Qed.

(** A block has its length, and bytes. *)
Lemma typed_block n : 0 <= n -> typed (LoadBlock n) (fun b => slen b = n /\ Forall is_byte b).
Proof.
  intros Hn S Hb. unfold LoadBlock. destruct (luaZ_read_contents (S_Z S) n Hn) as (z' & -> & Hz).
  destruct (Z.eqb_spec (Z.max 0 (n - slen (contents (S_Z S)))) 0) as [E|]; cbn [negb]; [|done].
  cbn [S_Z]. rewrite Hz by lia. split; [split|].
  - unfold slen in *. rewrite length_take. lia.
  - by apply Forall_take.
  - by apply Forall_drop.
Qed.

Lemma typed_char : typed LoadChar (in_s 8).
Proof. eapply typed_bind; [apply typed_block; lia|]. intros b _. apply typed_ret, swrap_range. lia. Qed.

Lemma typed_byte : typed LoadByte is_byte.
Proof. eapply typed_bind; [apply typed_char|]. intros b _. apply typed_ret. apply wrap_range. lia. Qed.

Lemma typed_int : typed LoadInt (fun x => 0 <= x < 2 ^ 31).
Proof.
  eapply typed_bind; [apply typed_block; lia|]. intros b _. cbv zeta.
  destruct (Z.ltb_spec (s32 (le_value b)) 0); [apply typed_error|]. apply typed_ret.
  pose proof (swrap_range 32 (le_value b) ltac:(lia)) as [_ H2]. change (2 ^ (32 - 1)) with (2 ^ 31) in H2. lia.
Qed.

Lemma le_value_block b n : slen b = Z.of_nat n -> Forall is_byte b -> 0 <= le_value b < 256 ^ Z.of_nat n.
Proof. intros Hl Hb. pose proof (le_value_range b Hb). unfold slen in Hl. by rewrite Hl in *. Qed.

Lemma typed_number : typed LoadNumber (in_u 64).
Proof.
  eapply typed_bind; [apply typed_block; lia|]. intros b [Hl Hb]. apply typed_ret.
  exact (le_value_block b 8 Hl Hb).
Qed.

Lemma typed_string : typed LoadString string_ok.
Proof.
  eapply typed_bind; [apply typed_block; lia|]. intros b [Hl Hb]. cbv zeta.
  pose proof (le_value_block b 8 Hl Hb) as Hr. change (256 ^ Z.of_nat 8) with (2 ^ 64) in Hr.
  destruct (Z.eqb_spec (le_value b) 0); [by apply typed_ret|].
  apply (typed_bind _ _ (fun _ => True)); [by intros S HS|]. intros space _. destruct (space <? le_value b); [done|].
  eapply typed_bind; [apply typed_block; lia|]. intros s [Hs _]. apply typed_ret. cbn.
  unfold slen in *. rewrite length_take. lia.
Qed.

Lemma words_ok n : forall b, Forall is_byte b -> Forall (in_u 32) (words n b).
Proof.
  induction n as [|n IH]; intros b Hb; cbn [words]; [constructor|]. constructor.
  - pose proof (le_value_range (take 4 b) (Forall_take _ _ _ Hb)) as H. rewrite length_take in H.
    split; [apply H|]. eapply Z.lt_le_trans; [apply H|]. change (2 ^ 32) with (256 ^ Z.of_nat 4).
    apply Z.pow_le_mono_r; lia.
  - by apply IH, Forall_drop.
Qed.

Lemma length_words n : forall b, length (words n b) = n.
Proof. induction n as [|n IH]; intros b; cbn; [done|]. by rewrite IH. Qed.

Lemma typed_vector n :
  0 <= n < 2 ^ 31 -> typed (LoadVector n) (fun l => size_ok l /\ Forall (in_u 32) l).
Proof.
  intros Hn. eapply typed_bind; [apply typed_block; lia|]. intros b [_ Hb]. apply typed_ret. split.
  - unfold size_ok. rewrite length_words. lia.
  - by apply words_ok.
Qed.

Lemma typed_loop {A} n (body : loader A) Q :
  typed body Q -> typed (LoadLoop n body) (fun l => length l = n /\ Forall Q l).
Proof.
  intros Hb. induction n as [|n IH]; cbn [LoadLoop]; [by apply typed_ret|].
  eapply typed_bind; [done|]. intros x Hx. eapply typed_bind; [done|]. intros xs [Hl Hxs].
  apply typed_ret. split; [cbn; lia|by constructor].
Qed.

(** A counted loop. *)
Lemma typed_array {A B} (body : loader A) Q (k : list A -> loader B) R :
  typed body Q -> (forall l, size_ok l -> Forall Q l -> typed (k l) R) ->
  typed (n ← LoadInt; xs ← LoadLoop (Z.to_nat n) body; k xs) R.
Proof.
  intros Hb Hk. eapply typed_bind; [apply typed_int|]. intros n Hn.
  eapply typed_bind; [by apply typed_loop|]. intros l [Hl Hq]. cbv beta in Hn. apply Hk; [unfold size_ok; lia|done].
Qed.

Lemma typed_constant : typed LoadConstant constant_ok.
Proof.
  eapply typed_bind; [apply typed_char|]. intros t _.
  destruct (t =? LUA_TNIL); [by apply typed_ret|].
  destruct (t =? LUA_TBOOLEAN); [eapply typed_bind; [apply typed_char|]; intros; by apply typed_ret|].
  destruct (t =? LUA_TNUMBER); [eapply typed_bind; [apply typed_number|]; intros; by apply typed_ret|].
  destruct (t =? LUA_TSTRING); [eapply typed_bind; [apply typed_string|]; intros; by apply typed_ret|by apply typed_ret].
Qed.

Lemma typed_constants LF Q :
  typed LF Q -> typed (LoadConstants LF) (fun '(ks, ps) => (size_ok ks /\ Forall constant_ok ks) /\ size_ok ps /\ Forall Q ps).
Proof.
  intros H. eapply typed_array; [apply typed_constant|]. intros ks Hs Hk.
  eapply typed_array; [done|]. intros ps Hps Hp. by apply typed_ret.
Qed.

Lemma typed_upvalues : typed LoadUpvalues (fun us => size_ok us /\ Forall upval_ok us).
Proof.
  eapply typed_bind; [apply typed_int|]. intros n Hn. intros S Hb.
  assert (typed (LoadLoop (Z.to_nat n) (i ← LoadByte; x ← LoadByte; mret (MkUpvaldesc None i x)))
    (fun l => length l = Z.to_nat n /\ Forall upval_ok l)) as H.
  { apply typed_loop. eapply typed_bind; [apply typed_byte|]. intros i Hi. eapply typed_bind; [apply typed_byte|].
    intros x Hx. by apply typed_ret. }
  specialize (H S Hb). destruct (LoadLoop _ _ S) as [|[l S']]; [done|]. destruct H as [[Hl Hu] Hb'].
  cbv beta in Hn. split; [|done]. split; [unfold size_ok; lia|done].
Qed.

Lemma typed_names n : forall i us,
  size_ok us -> Forall upval_ok us -> typed (LoadNames n i us) (fun us' => size_ok us' /\ Forall upval_ok us').
Proof.
  induction n as [|n IH]; intros i us Hs Hu; cbn [LoadNames]; [by apply typed_ret|].
  eapply typed_bind; [apply typed_string|]. intros s Hok. destruct (us !! i) as [u|] eqn:E; [|done]. apply IH.
  - unfold size_ok. by rewrite length_insert.
  - apply Forall_insert; [done|]. destruct (Forall_lookup_1 _ _ _ _ Hu E) as (_ & Hi & Hx). done.
Qed.

Lemma typed_debug us :
  size_ok us -> Forall upval_ok us ->
  typed (LoadDebug us) (fun '(src, lines, vars, us') =>
    string_ok src /\ size_ok lines /\ Forall (in_s 32) lines /\ size_ok vars /\ Forall locvar_ok vars /\
    size_ok us' /\ Forall upval_ok us').
Proof.
  intros Hs Hu. eapply typed_bind; [apply typed_string|]. intros src Hsrc.
  eapply typed_bind; [apply typed_int|]. intros n Hn. eapply typed_bind; [by apply typed_vector|]. intros lines [Hls Hl].
  apply (typed_array _ locvar_ok).
  { eapply typed_bind; [apply typed_string|]. intros s Hss. eapply typed_bind; [apply typed_int|]. intros a Ha.
    eapply typed_bind; [apply typed_int|]. intros b Hb. by apply typed_ret. }
  intros vars Hvs Hv. eapply typed_bind; [apply typed_int|]. intros m _.
  eapply typed_bind; [by apply typed_names|]. intros us' [Hs' Hu']. apply typed_ret. split_and!; try done.
  - unfold size_ok. by rewrite length_fmap.
  - apply Forall_fmap, Forall_true. intros x. apply swrap_range. lia.
Qed.

Lemma typed_function fuel : typed (LoadFunction fuel) proto_ok.
Proof.
  induction fuel as [|fuel IH]; cbn [LoadFunction]; [done|].
  eapply typed_bind; [apply typed_int|]. intros ld Hld. eapply typed_bind; [apply typed_int|]. intros lld Hlld.
  eapply typed_bind; [apply typed_byte|]. intros np Hnp. eapply typed_bind; [apply typed_byte|]. intros va Hva.
  eapply typed_bind; [apply typed_byte|]. intros ms Hms.
  eapply typed_bind; [eapply typed_bind; [apply typed_int|]; intros n Hn; by apply typed_vector|]. intros c [Hcs Hc].
  eapply typed_bind; [by apply typed_constants|]. intros [ks ps] ([Hks Hk] & Hps & Hp).
  eapply typed_bind; [apply typed_upvalues|]. intros us [Hus Hu].
  eapply typed_bind; [by apply typed_debug|]. intros [[[src lines] vars] us'] (H1 & H2 & H3 & H4 & H5 & H6 & H7).
  apply typed_ret. by constructor.
Qed.

(** C28. The loader is type-safe in what it returns: on any bytes whatsoever, a
    prototype that [luaU_undump] accepts has every field, at every nesting level,
    within its C type (so it can be dumped again), and the closure has room for
    the upvalues of the prototype; with fuel for as many nested functions as
    there are bytes the loader does not run out of it. *)
Theorem undump_typed (z : zio) (buffsize : Z) (name : bytes) (fuel : nat) :
  Forall is_byte (contents z) -> (length (contents z) < fuel)%nat ->
  match luaU_undump fuel z buffsize name with
  | inr ((f, n), _) => proto_ok f /\ n = Z.of_nat (length (upvalues f))
  | inl e => e <> LoadFuel
  end.
Proof.
  intros Hb Hl. pose proof (undump_fuel z buffsize name fuel Hb Hl) as Hne.
  assert (typed (LoadHeader ≫= fun _ => f ← LoadFunction fuel;
    mret (f, if negb (Z.of_nat (length (upvalues f)) =? 1) then Z.of_nat (length (upvalues f)) else 1))
    (fun '(f, n) => proto_ok f /\ n = Z.of_nat (length (upvalues f)))) as H.
  { apply (typed_bind _ _ (fun _ => True)).
    - eapply typed_bind; [apply typed_block; vm_compute; discriminate|]. intros b _. cbv zeta.
      repeat (destruct (decide _); [by apply typed_ret || apply typed_error|]). apply typed_error.
    - intros _ _. eapply typed_bind; [apply typed_function|]. intros f Hf. apply typed_ret. split; [done|].
      destruct (Z.eqb_spec (Z.of_nat (length (upvalues f))) 1) as [->|]; done. }
  specialize (H (MkLoadState z buffsize (chunk_name name)) Hb).
  match type of H with match ?x with _ => _ end => change x with (luaU_undump fuel z buffsize name) in H end.
  destruct (luaU_undump fuel z buffsize name) as [e|[[f n] S']]; [congruence|]. apply H.
Qed.

(** Witness of C28: a dump of the function with a nested one, cut into two blocks. *)
Lemma undump_typed_witness :
  match luaU_undump 1000 (example_stream (drop 1 (example_dump false))) 0 [] with
  | inr ((f, n), _) => proto_ok f /\ n = Z.of_nat (length (upvalues f))
  | inl e => e <> LoadFuel
  end.
Proof.
  apply (undump_typed (example_stream (drop 1 (example_dump false))) 0 [] 1000).
  - vm_compute. repeat constructor; discriminate.
  - vm_compute. lia.
Defined.

(** A function without upvalues, followed by the name of one. *)
Definition one_name_too_many : bytes :=
  let f := MkProto 0 0 0 0 2 [] [] [] [] None [] [] in
  let b := luaU_header ++ proto_bytes false f in
  take (length b - 4) b ++ le_bytes 4 1 ++ string_bytes (Some [120]).

(** The chunk makes the loader store outside of the array of upvalues. *)
Lemma undump_names_unchecked :
  luaU_undump 2 (luaZ_init [Some (drop 1 one_name_too_many)]) 0 [] = inl OutOfBounds.
Proof. vm_compute. reflexivity. Qed.
