(* ===== verification/LuaLex.v ===== *)
(** * The Lua lexer ([llex.c] and [lctype.c] of [src/dep/lua-5.2.3/src])

    What the kernel's console gives to [load] is cut into tokens here.  The state has
    the current character, the stream it is read from, the buffer of the token and
    the line number; a lexical error is a value.  The conversion of a numeral to a
    double is a parameter; the text of error messages is left out.  Loops have fuel:
    one more than the number of characters left is enough. *)

From S2P Require Import Prelude LuaStr LuaZio.

(** ** Character classes ([lctype.c]) *)

(** The first entry is for the end of the stream; the rows of control characters and of
    the upper half are zero. *)
Definition luai_ctype_ : list Z :=
  [0x00;
  0x00; 0x00; 0x00; 0x00; 0x00; 0x00; 0x00; 0x00; 0x00; 0x08; 0x08; 0x08; 0x08; 0x08; 0x00; 0x00] ++ replicate 16 0x00 ++
  [0x0c; 0x04; 0x04; 0x04; 0x04; 0x04; 0x04; 0x04; 0x04; 0x04; 0x04; 0x04; 0x04; 0x04; 0x04; 0x04;
  0x16; 0x16; 0x16; 0x16; 0x16; 0x16; 0x16; 0x16; 0x16; 0x16; 0x04; 0x04; 0x04; 0x04; 0x04; 0x04;
  0x04; 0x15; 0x15; 0x15; 0x15; 0x15; 0x15; 0x05; 0x05; 0x05; 0x05; 0x05; 0x05; 0x05; 0x05; 0x05;
  0x05; 0x05; 0x05; 0x05; 0x05; 0x05; 0x05; 0x05; 0x05; 0x05; 0x05; 0x04; 0x04; 0x04; 0x04; 0x05;
  0x04; 0x15; 0x15; 0x15; 0x15; 0x15; 0x15; 0x05; 0x05; 0x05; 0x05; 0x05; 0x05; 0x05; 0x05; 0x05;
  0x05; 0x05; 0x05; 0x05; 0x05; 0x05; 0x05; 0x05; 0x05; 0x05; 0x05; 0x04; 0x04; 0x04; 0x04; 0x00] ++ replicate 128 0x00.

Definition ALPHABIT : Z := 0.
Definition DIGITBIT : Z := 1.
Definition SPACEBIT : Z := 3.
Definition XDIGITBIT : Z := 4.
Definition MASK (B : Z) : Z := 1 ≪ B.

(** A character, [None] for [EOZ]. *)
Abbreviation charint := (option Z).

Definition testprop (c : charint) (p : Z) : bool :=
  let i := match c with None => 0 | Some c => c + 1 end in
  negb (default 0 (luai_ctype_ !! Z.to_nat i) &&& p =? 0).

Definition lislalpha (c : charint) : bool := testprop c (MASK ALPHABIT).
Definition lislalnum (c : charint) : bool := testprop c (MASK ALPHABIT ||| MASK DIGITBIT).
Definition lisdigit (c : charint) : bool := testprop c (MASK DIGITBIT).
Definition lisspace (c : charint) : bool := testprop c (MASK SPACEBIT).
Definition lisxdigit (c : charint) : bool := testprop c (MASK XDIGITBIT).
Definition ltolower (c : Z) : Z := c ||| Z.lxor 65 97.

Definition luaO_hexavalue (c : Z) : Z := if lisdigit (Some c) then c - 48 else ltolower c - 97 + 10.

(** ** Tokens ([llex.h]) *)

Definition FIRST_RESERVED : Z := 257.
Definition TK_WHILE : Z := FIRST_RESERVED + 21.
Definition TK_CONCAT : Z := FIRST_RESERVED + 22.
Definition TK_DOTS : Z := FIRST_RESERVED + 23.
Definition TK_EQ : Z := FIRST_RESERVED + 24.
Definition TK_GE : Z := FIRST_RESERVED + 25.
Definition TK_LE : Z := FIRST_RESERVED + 26.
Definition TK_NE : Z := FIRST_RESERVED + 27.
Definition TK_DBCOLON : Z := FIRST_RESERVED + 28.
Definition TK_EOS : Z := FIRST_RESERVED + 29.
Definition TK_NUMBER : Z := FIRST_RESERVED + 30.
Definition TK_NAME : Z := FIRST_RESERVED + 31.
Definition TK_STRING : Z := FIRST_RESERVED + 32.

(** The reserved words, in the order of their tokens. *)
Definition reserved_words : list bytes :=
  [[97; 110; 100] (* and *);
   [98; 114; 101; 97; 107] (* break *);
   [100; 111] (* do *);
   [101; 108; 115; 101] (* else *);
   [101; 108; 115; 101; 105; 102] (* elseif *);
   [101; 110; 100] (* end *);
   [102; 97; 108; 115; 101] (* false *);
   [102; 111; 114] (* for *);
   [102; 117; 110; 99; 116; 105; 111; 110] (* function *);
   [103; 111; 116; 111] (* goto *);
   [105; 102] (* if *);
   [105; 110] (* in *);
   [108; 111; 99; 97; 108] (* local *);
   [110; 105; 108] (* nil *);
   [110; 111; 116] (* not *);
   [111; 114] (* or *);
   [114; 101; 112; 101; 97; 116] (* repeat *);
   [114; 101; 116; 117; 114; 110] (* return *);
   [116; 104; 101; 110] (* then *);
   [116; 114; 117; 101] (* true *);
   [117; 110; 116; 105; 108] (* until *);
   [119; 104; 105; 108; 101] (* while *)].

Definition NUM_RESERVED : Z := TK_WHILE - FIRST_RESERVED + 1.

(** [NoSem] for a token that has none, where the union keeps an old value. *)
Inductive SemInfo := NoSem | SemNumber (r : Z) | SemString (ts : bytes).

Record Token := MkToken { token : Z; seminfo : SemInfo }.

(** ** The state *)

Record LexState := MkLex {
  current : charint;
  linenumber : Z;
  lastline : Z;
  lt : Token;
  lookahead : Token;
  lz : zio;
  buff : bytes;
  buffsize : Z;
}.

Inductive lexmsg :=
| too_long | too_many_lines | malformed_number | unfinished_long_string | unfinished_long_comment
| hexadecimal_expected | decimal_too_large | unfinished_string | invalid_escape | invalid_delimiter.

(** A syntax error with its line; an access outside the token buffer or the stream; no fuel. *)
Inductive lexerr :=
| LexError (msg : lexmsg) (line : Z)
| LexUndefined
| LexFuel.

Definition lexer (A : Type) : Type := LexState -> lexerr + A * LexState.

#[export] Instance lexer_ret : MRet lexer := fun A a ls => inr (a, ls).
#[export] Instance lexer_bind : MBind lexer := fun A B f m ls =>
  match m ls with inr (a, ls') => f a ls' | inl e => inl e end.

Definition lexerror {A} (msg : lexmsg) : lexer A := fun ls => inl (LexError msg (linenumber ls)).
Definition lexfail {A} (e : lexerr) : lexer A := fun _ => inl e.
Definition get {A} (f : LexState -> A) : lexer A := fun ls => inr (f ls, ls).

Definition set_current (c : charint) (z : zio) (ls : LexState) : LexState :=
  MkLex c (linenumber ls) (lastline ls) (lt ls) (lookahead ls) z (buff ls) (buffsize ls).
Definition set_buff (b : bytes) (n : Z) (ls : LexState) : LexState :=
  MkLex (current ls) (linenumber ls) (lastline ls) (lt ls) (lookahead ls) (lz ls) b n.
Definition set_line (n : Z) (ls : LexState) : LexState :=
  MkLex (current ls) n (lastline ls) (lt ls) (lookahead ls) (lz ls) (buff ls) (buffsize ls).

Definition MAX_SIZET : Z := 2 ^ 64 - 1 - 2.
Definition MAX_LINES : Z := 2 ^ 31 - 1 - 2.

(** When the stream ended, [z->n] has wrapped round and [zgetc] would read behind the
    block. *)
Definition next : lexer unit := fun ls =>
  match current ls with
  | None => inl LexUndefined
  | Some _ => let '(c, z) := zgetc (lz ls) in inr ((), set_current c z ls)
  end.

Definition save (c : Z) : lexer unit := fun ls =>
  let n := slen (buff ls) in
  if n + 1 >? buffsize ls then
    if buffsize ls >=? MAX_SIZET / 2 then lexerror too_long ls
    else
      let newsize := buffsize ls * 2 in
      if n <? newsize then inr ((), set_buff (buff ls ++ [c]) newsize ls) else inl LexUndefined
  else inr ((), set_buff (buff ls ++ [c]) (buffsize ls) ls).

(** Saving [EOZ] does not happen: the callers look at the character first. *)
Definition save_current : lexer unit := fun ls =>
  match current ls with Some c => save c ls | None => inl LexUndefined end.

Definition save_and_next : lexer unit := _ ← save_current; next.

Definition resetbuffer : lexer unit := fun ls => inr ((), set_buff [] (buffsize ls) ls).

Definition currIsNewline (c : charint) : bool := bool_decide (c = Some 10) || bool_decide (c = Some 13).

(** [if (++ls->linenumber >= MAX_INT)]. *)
Definition count_line : lexer unit := fun ls =>
  let ls := set_line (linenumber ls + 1) ls in
  if linenumber ls >=? MAX_LINES then lexerror too_many_lines ls else inr ((), ls).

Definition inclinenumber : lexer unit :=
  old ← get current;
  _ ← next;
  c ← get current;
  _ ← (if currIsNewline c && negb (bool_decide (c = old)) then next else mret ());
  count_line.

Definition check_next (set : bytes) : lexer bool :=
  c ← get current;
  match c with
  | Some c => if (c =? 0) || negb (bool_decide (c ∈ set)) then mret false else _ ← save_and_next; mret true
  | None => mret false
  end.

Definition buffreplace (from to : Z) (b : bytes) : bytes := (fun c => if c =? from then to else c) <$> b.

(** The decimal point of the only locale. *)
Definition decpoint : Z := 46.

Section Lexer.
(** [luaO_str2d]: the double of a numeral, [None] for a malformed one. *)
Context (luaO_str2d : bytes -> option Z).

(** The buffer ends with a zero, which is not part of the numeral. *)
Definition buff2d (b : bytes) : option Z := luaO_str2d (removelast b).

Definition trydecpoint : lexer SemInfo := fun ls =>
  let b := buffreplace decpoint decpoint (buff ls) in
  match buff2d b with
  | Some r => inr (SemNumber r, set_buff b (buffsize ls) ls)
  | None => lexerror malformed_number (set_buff (buffreplace decpoint 46 b) (buffsize ls) ls)
  end.

(** The conversion, with the decimal point of the locale. *)
Definition convert_numeral : lexer SemInfo := fun ls =>
  let b := buffreplace 46 decpoint (buff ls) in
  match buff2d b with
  | Some r => inr (SemNumber r, set_buff b (buffsize ls) ls)
  | None => trydecpoint (set_buff b (buffsize ls) ls)
  end.

Fixpoint numeral_loop (fuel : nat) (expo : bytes) : lexer unit :=
  match fuel with
  | O => lexfail LexFuel
  | S fuel' =>
      e ← check_next expo;
      _ ← (if (e : bool) then check_next [43; 45] else mret false);
      c ← get current;
      if lisxdigit c || bool_decide (c = Some 46) then _ ← save_and_next; numeral_loop fuel' expo
      else mret ()
  end.

Definition read_numeral (fuel : nat) : lexer SemInfo :=
  first ← get current;
  _ ← save_and_next;
  hex ← (if bool_decide (first = Some 48) then check_next [88; 120] else mret false);
  _ ← numeral_loop fuel (if (hex : bool) then [80; 112] else [69; 101]);
  _ ← save 0;
  convert_numeral.

(** [count] is an [int]: it would take [2^31] equal signs to overflow it. *)
Fixpoint sep_loop (fuel : nat) (count : Z) : lexer Z :=
  match fuel with
  | O => lexfail LexFuel
  | S fuel' =>
      c ← get current;
      if decide (c = Some 61) then _ ← save_and_next; sep_loop fuel' (count + 1) else mret count
  end.

Definition skip_sep (fuel : nat) : lexer Z :=
  s ← get current;
  _ ← save_and_next;
  count ← sep_loop fuel 0;
  c ← get current;
  mret (if decide (c = s) then count else (- count) - 1).

(** [keep]: a string is read, not a comment. *)
Fixpoint long_loop (fuel : nat) (keep : bool) (sep : Z) : lexer unit :=
  match fuel with
  | O => lexfail LexFuel
  | S fuel' =>
      c ← get current;
      match c with
      | None => lexerror (if keep then unfinished_long_string else unfinished_long_comment)
      | Some c =>
          if c =? 93 then
            n ← skip_sep fuel';
            if n =? sep then save_and_next else long_loop fuel' keep sep
          else if (c =? 10) || (c =? 13) then
            _ ← save 10;
            _ ← inclinenumber;
            _ ← (if keep then mret () else resetbuffer);
            long_loop fuel' keep sep
          else
            _ ← (if keep then save_and_next else next);
            long_loop fuel' keep sep
      end
  end.

Definition read_long_string (fuel : nat) (keep : bool) (sep : Z) : lexer SemInfo :=
  _ ← save_and_next;
  c ← get current;
  _ ← (if currIsNewline c then inclinenumber else mret ());
  _ ← long_loop fuel keep sep;
  b ← get buff;
  mret (if keep then SemString (take (Z.to_nat (slen b - 2 * (2 + sep))) (drop (Z.to_nat (2 + sep)) b)) else NoSem).

(** The error of an escape sequence. *)
Definition escerror {A} (msg : lexmsg) : lexer A := _ ← resetbuffer; lexerror msg.

Fixpoint hexa_loop (n : nat) (r : Z) : lexer Z :=
  match n with
  | O => mret r
  | S n' =>
      _ ← next;
      c ← get current;
      match c with
      | Some d => if lisxdigit c then hexa_loop n' ((r ≪ 4) + luaO_hexavalue d) else escerror hexadecimal_expected
      | None => escerror hexadecimal_expected
      end
  end.

Definition readhexaesc : lexer Z := hexa_loop 2 0.

Fixpoint dec_loop (n : nat) (r : Z) : lexer Z :=
  match n with
  | O => mret r
  | S n' =>
      c ← get current;
      match c with
      | Some d => if lisdigit c then _ ← next; dec_loop n' (10 * r + d - 48) else mret r
      | None => mret r
      end
  end.

Definition readdecesc : lexer Z :=
  r ← dec_loop 3 0;
  if r >? 255 then escerror decimal_too_large else mret r.

(** The escapes of one character. *)
Definition simple_escape (c : Z) : option Z :=
  if c =? 97 then Some 7 else if c =? 98 then Some 8 else if c =? 102 then Some 12 else if c =? 110 then Some 10
  else if c =? 114 then Some 13 else if c =? 116 then Some 9 else if c =? 118 then Some 11
  else if (c =? 92) || (c =? 34) || (c =? 39) then Some c else None.

Definition read_save (c : Z) : lexer unit := _ ← next; save c.

(** [while (lisspace(ls->current))]. *)
Fixpoint zap_loop (fuel : nat) : lexer unit :=
  match fuel with
  | O => lexfail LexFuel
  | S fuel' =>
      c ← get current;
      if lisspace c then _ ← (if currIsNewline c then inclinenumber else next); zap_loop fuel' else mret ()
  end.

Definition read_escape (fuel : nat) : lexer unit :=
  _ ← next;
  cur ← get current;
  match cur with
  | None => mret ()
  | Some c =>
      match simple_escape c with
      | Some c' => read_save c'
      | None =>
          if c =? 120 then r ← readhexaesc; read_save r
          else if (c =? 10) || (c =? 13) then _ ← inclinenumber; save 10
          else if c =? 122 then _ ← next; zap_loop fuel
          else if negb (lisdigit cur) then escerror invalid_escape
          else r ← readdecesc; save r
      end
  end.

Fixpoint string_loop (fuel : nat) (del : Z) : lexer unit :=
  match fuel with
  | O => lexfail LexFuel
  | S fuel' =>
      cur ← get current;
      match cur with
      | None => lexerror unfinished_string
      | Some c =>
          if c =? del then mret ()
          else if (c =? 10) || (c =? 13) then lexerror unfinished_string
          else _ ← (if c =? 92 then read_escape fuel' else save_and_next); string_loop fuel' del
      end
  end.

Definition read_string (fuel : nat) (del : Z) : lexer SemInfo :=
  _ ← save_and_next;
  _ ← string_loop fuel del;
  _ ← save_and_next;
  b ← get buff;
  mret (SemString (take (Z.to_nat (slen b - 2)) (drop 1 b))).

(** [while (!currIsNewline(ls) && ls->current != EOZ)]. *)
Fixpoint comment_loop (fuel : nat) : lexer unit :=
  match fuel with
  | O => lexfail LexFuel
  | S fuel' =>
      c ← get current;
      if negb (currIsNewline c) && negb (bool_decide (c = None)) then _ ← next; comment_loop fuel' else mret ()
  end.

(** [do save_and_next(ls) while (lislalnum(ls->current))]. *)
Fixpoint name_loop (fuel : nat) : lexer unit :=
  match fuel with
  | O => lexfail LexFuel
  | S fuel' =>
      _ ← save_and_next;
      c ← get current;
      if lislalnum c then name_loop fuel' else mret ()
  end.

Definition simple_token (c : Z) : lexer (option Token) := mret (Some (MkToken c NoSem)).

(** [c], or [tk] when the character [c2] follows. *)
Definition one_or_two (c c2 tk : Z) : lexer (option Token) :=
  _ ← next;
  cur ← get current;
  if decide (cur = Some c2) then _ ← next; simple_token tk else simple_token c.

(** A comment, or the token ['-']. *)
Definition lex_minus (fuel : nat) : lexer (option Token) :=
  _ ← next;
  cur ← get current;
  if decide (cur <> Some 45) then simple_token 45 else
  _ ← next;
  cur ← get current;
  long ← (if decide (cur = Some 91) then
            sep ← skip_sep fuel;
            _ ← resetbuffer;
            if sep >=? 0 then _ ← read_long_string fuel false sep; _ ← resetbuffer; mret true else mret false
          else mret false);
  if (long : bool) then mret None else _ ← comment_loop fuel; mret None.

Definition lex_numeral (fuel : nat) : lexer (option Token) :=
  s ← read_numeral fuel; mret (Some (MkToken TK_NUMBER s)).

Definition lex_dot (fuel : nat) : lexer (option Token) :=
  _ ← save_and_next;
  d ← check_next [46];
  if (d : bool) then
    d ← check_next [46];
    simple_token (if (d : bool) then TK_DOTS else TK_CONCAT)
  else
    c ← get current;
    if negb (lisdigit c) then simple_token 46 else lex_numeral fuel.

Definition lex_bracket (fuel : nat) : lexer (option Token) :=
  sep ← skip_sep fuel;
  if sep >=? 0 then s ← read_long_string fuel true sep; mret (Some (MkToken TK_STRING s))
  else if sep =? -1 then simple_token 91
  else lexerror invalid_delimiter.

(** [ts->tsv.extra - 1 + FIRST_RESERVED] for a reserved word. *)
Definition word_token (ts : bytes) : Z :=
  match list_find (fun w => w = ts) reserved_words with
  | Some (i, _) => Z.of_nat i + FIRST_RESERVED
  | None => TK_NAME
  end.

Definition lex_word (fuel : nat) : lexer (option Token) :=
  _ ← name_loop fuel;
  ts ← get buff;
  mret (Some (MkToken (word_token ts) (SemString ts))).

(** One turn of the loop of [llex]; [None] when it goes on. *)
Definition llex_turn (fuel : nat) : lexer (option Token) :=
  cur ← get current;
  match cur with
  | None => simple_token TK_EOS
  | Some c =>
      if (c =? 10) || (c =? 13) then _ ← inclinenumber; mret None
      else if (c =? 32) || (c =? 12) || (c =? 9) || (c =? 11) then _ ← next; mret None
      else if c =? 45 then lex_minus fuel
      else if c =? 91 then lex_bracket fuel
      else if c =? 61 then one_or_two 61 61 TK_EQ
      else if c =? 60 then one_or_two 60 61 TK_LE
      else if c =? 62 then one_or_two 62 61 TK_GE
      else if c =? 126 then one_or_two 126 61 TK_NE
      else if c =? 58 then one_or_two 58 58 TK_DBCOLON
      else if (c =? 34) || (c =? 39) then s ← read_string fuel c; mret (Some (MkToken TK_STRING s))
      else if c =? 46 then lex_dot fuel
      else if (48 <=? c) && (c <=? 57) then lex_numeral fuel
      else if lislalpha cur then lex_word fuel
      else _ ← next; simple_token c
  end.

Fixpoint llex_loop (fuel : nat) : lexer Token :=
  match fuel with
  | O => lexfail LexFuel
  | S fuel' =>
      r ← llex_turn fuel';
      match r with Some t => mret t | None => llex_loop fuel' end
  end.

Definition llex (fuel : nat) : lexer Token := _ ← resetbuffer; llex_loop fuel.

Definition set_tokens (l : Z) (t la : Token) (ls : LexState) : LexState :=
  MkLex (current ls) (linenumber ls) l t la (lz ls) (buff ls) (buffsize ls).

Definition luaX_next (fuel : nat) : lexer unit := fun ls =>
  let ls := set_tokens (linenumber ls) (lt ls) (lookahead ls) ls in
  if negb (token (lookahead ls) =? TK_EOS) then
    inr ((), set_tokens (lastline ls) (lookahead ls) (MkToken TK_EOS (seminfo (lookahead ls))) ls)
  else
    match llex fuel ls with
    | inr (t, ls) => inr ((), set_tokens (lastline ls) t (lookahead ls) ls)
    | inl e => inl e
    end.

Definition luaX_lookahead (fuel : nat) : lexer Z := fun ls =>
  match llex fuel ls with
  | inr (t, ls) => inr (token t, set_tokens (lastline ls) (lt ls) t ls)
  | inl e => inl e
  end.
End Lexer.

Definition luaX_setinput (z : zio) (firstchar : charint) : LexState :=
  let eos := MkToken TK_EOS NoSem in
  MkLex firstchar 1 1 eos eos z [] LUA_MINBUFFER.
