(* ===== verification/LuaLexSpec.v ===== *)
(** * The Lua lexer: proof rules, termination

    A weakest-precondition predicate for lexer actions and its rules, and the
    theorem that [llex] ends on every input, makes progress and fails only with
    lexical errors. *)

From S2P Require Import Prelude LuaStr LuaZio LuaLex.

(** ** States *)

(** The characters that are left, the current one first. *)
Definition input (ls : LexState) : bytes :=
  match current ls with None => [] | Some c => c :: contents (lz ls) end.

(** The state has input [i], buffer [b] and line [n]. *)
Record at_ (i b : bytes) (n : Z) (la : Token) (ls : LexState) : Prop := {
  at_input : input ls = i;
  at_buff : buff ls = b;
  at_line : linenumber ls = n;
  at_lookahead : lookahead ls = la;
  at_size : slen b <= buffsize ls /\ 1 <= buffsize ls;
}.

Lemma at_current i b n la ls : at_ i b n la ls -> current ls = head i.
Proof. intros [<- _ _ _ _]. unfold input. by destruct (current ls). Qed.

(** ** Weakest preconditions; [E] says which errors are allowed *)

Definition wp {A} (E : lexerr -> Prop) (P : lexer A) (ls : LexState) (post : A -> LexState -> Prop) : Prop :=
  match P ls with inr (a, ls') => post a ls' | inl e => E e end.

Section Rules.
Context (E : lexerr -> Prop).

Lemma wp_ret {A} (a : A) ls (post : A -> LexState -> Prop) : post a ls -> wp E (mret a) ls post.
Proof. done. Qed.

Lemma wp_bind {A B} (P : lexer A) (k : A -> lexer B) ls post :
  wp E P ls (fun a ls' => wp E (k a) ls' post) -> wp E (P ≫= k) ls post.
Proof. unfold wp, mbind, lexer_bind. by destruct (P ls) as [|[a ls']]. Qed.

Lemma wp_mono {A} (P : lexer A) ls (post post' : A -> LexState -> Prop) :
  wp E P ls post -> (forall a ls', post a ls' -> post' a ls') -> wp E P ls post'.
Proof. unfold wp. destruct (P ls) as [|[a ls']]; auto. Qed.

Lemma wp_get {A} (f : LexState -> A) ls post : post (f ls) ls -> wp E (get f) ls post.
Proof. done. Qed.

Lemma wp_current i b n la ls post : at_ i b n la ls -> post (head i) ls -> wp E (get current) ls post.
Proof. intros Ha Hp. apply wp_get. by rewrite (at_current i b n la ls Ha). Qed.

Lemma wp_error {A} msg ls (post : A -> LexState -> Prop) : (forall n, E (LexError msg n)) -> wp E (lexerror msg) ls post.
Proof. intros H. apply H. Qed.

Lemma wp_next c i b n la ls (post : () -> LexState -> Prop) :
  at_ (c :: i) b n la ls -> (forall ls', at_ i b n la ls' -> post () ls') -> wp E next ls post.
Proof.
  intros [Hi Hb Hn Hla Hs] Hp. unfold wp, next. unfold input in Hi. destruct (current ls) as [d|]; [|done]. injection Hi as <- Hc.
  destruct i as [|c' i].
  - assert (fst (zgetc (lz ls)) = None) as Hz.
    { unfold contents in Hc. apply app_nil in Hc as [Hp1 Hp2]. unfold zgetc. rewrite Hp1.
      pose proof (luaZ_fill_contents (lz ls) Hp1) as Hf. destruct (luaZ_fill (lz ls)) as [[x|] z']; [|done].
      destruct Hf as [Hf _]. unfold contents in Hf. by rewrite Hp1, Hp2 in Hf. }
    destruct (zgetc (lz ls)) as [x z']. cbn in Hz. subst x. apply Hp. by split.
  - destruct (zgetc_contents (lz ls) c' i Hc) as (z' & -> & Hz). apply Hp. split; try done. unfold input. cbn. by rewrite Hz.
Qed.

Lemma wp_save c i b n la ls (post : () -> LexState -> Prop) :
  at_ i b n la ls -> (slen b < 2 ^ 62 \/ forall m, E (LexError too_long m)) ->
  (forall ls', at_ i (b ++ [c]) n la ls' -> post () ls') -> wp E (save c) ls post.
Proof.
  intros [Hi Hb Hn Hla [Hs1 Hs2]] Hlen Hp. unfold wp, save. rewrite Hb. rewrite Z.gtb_ltb.
  destruct (Z.ltb_spec (buffsize ls) (slen b + 1)) as [Hfull|Hfits].
  - rewrite Z.geb_leb. destruct (Z.leb_spec (MAX_SIZET / 2) (buffsize ls)) as [Hbig|Hsmall].
    + destruct Hlen as [Hlen|HE]; [|apply HE]. exfalso. unfold MAX_SIZET in Hbig. change ((2 ^ 64 - 1 - 2) / 2) with (2 ^ 63 - 2) in Hbig. lia.
    + rewrite (proj2 (Z.ltb_lt _ _)) by lia. apply Hp. split; try done. cbn. unfold slen in *. rewrite length_app. cbn. lia.
  - apply Hp. split; try done. cbn. unfold slen in *. rewrite length_app. cbn. lia.
Qed.

Lemma wp_save_and_next c i b n la ls (post : () -> LexState -> Prop) :
  at_ (c :: i) b n la ls -> (slen b < 2 ^ 62 \/ forall m, E (LexError too_long m)) ->
  (forall ls', at_ i (b ++ [c]) n la ls' -> post () ls') -> wp E save_and_next ls post.
Proof.
  intros Ha Hlen Hp. apply wp_bind. pose proof (at_current _ _ _ _ _ Ha) as Hc. unfold save_current.
  assert (forall (post : () -> LexState -> Prop), wp E (save c) ls post -> wp E (fun ls => match current ls with Some c => save c ls | None => inl LexUndefined end) ls post) as H.
  { intros q. unfold wp. by rewrite Hc. }
  apply H. eapply wp_save; [done|done|]. intros ls1 Ha1. eapply wp_next; [done|]. intros ls2 Ha2. by apply Hp.
Qed.

Lemma wp_resetbuffer i b n la ls (post : () -> LexState -> Prop) :
  at_ i b n la ls -> (forall ls', at_ i [] n la ls' -> post () ls') -> wp E resetbuffer ls post.
Proof. intros [Hi Hb Hn Hla [Hs1 Hs2]] Hp. apply Hp. split; try done. cbn. split; [change (slen []) with 0; lia|done]. Qed.

(** [inclinenumber] skips one or two characters. *)
Definition newline_rest (c : Z) (i : bytes) : bytes :=
  match i with
  | d :: i' => if currIsNewline (Some d) && negb (bool_decide (d = c)) then i' else i
  | [] => []
  end.

Lemma wp_inclinenumber c i b n la ls (post : () -> LexState -> Prop) :
  at_ (c :: i) b n la ls -> (n + 1 < MAX_LINES \/ forall m, E (LexError too_many_lines m)) ->
  (forall ls', at_ (newline_rest c i) b (n + 1) la ls' -> post () ls') -> wp E inclinenumber ls post.
Proof.
  intros Ha Hn Hp. unfold inclinenumber. apply wp_bind. eapply wp_current; [done|]. cbn [head].
  apply wp_bind. eapply wp_next; [done|]. intros ls1 Ha1. apply wp_bind. eapply wp_current; [done|].
  assert (forall ls2, at_ (newline_rest c i) b n la ls2 -> wp E count_line ls2 post) as Hcount.
  { intros ls2 [Hi2 Hb2 Hn2 Hla2 Hs2]. unfold wp, count_line. cbn [linenumber set_line]. rewrite Hn2, Z.geb_leb.
    destruct (Z.leb_spec MAX_LINES (n + 1)) as [Hbig|Hsmall].
    - destruct Hn as [Hn|HE]; [lia|apply HE].
    - apply Hp. by split. }
  apply wp_bind. destruct i as [|d i]; cbn [head newline_rest] in *.
  - apply wp_ret. by apply Hcount.
  - replace (bool_decide (Some d = Some c)) with (bool_decide (d = c)) by (apply bool_decide_ext; split; congruence).
    destruct (currIsNewline (Some d) && negb (bool_decide (d = c))).
    + eapply wp_next; [done|]. intros ls2 Ha2. by apply Hcount.
    + apply wp_ret. by apply Hcount.
Qed.

Lemma newline_rest_suffix c i : newline_rest c i `suffix_of` i.
Proof. destruct i as [|d i]; [done|]. cbn. destruct (_ && _); [by exists [d]|done]. Qed.

Lemma wp_check_next set i b n la ls (post : bool -> LexState -> Prop) :
  at_ i b n la ls -> (slen b < 2 ^ 62 \/ forall m, E (LexError too_long m)) ->
  (forall c i', i = c :: i' -> c <> 0 -> c ∈ set -> forall ls', at_ i' (b ++ [c]) n la ls' -> post true ls') ->
  ((forall c i', i = c :: i' -> c = 0 \/ c ∉ set) -> post false ls) ->
  wp E (check_next set) ls post.
Proof.
  intros Ha Hlen Ht Hf. unfold check_next. apply wp_bind. eapply wp_current; [done|]. destruct i as [|c i]; cbn [head].
  { apply wp_ret, Hf. done. }
  destruct (Z.eqb_spec c 0) as [->|Hc]; cbn [orb].
  { apply wp_ret, Hf. intros c' i' [= <- <-]. by left. }
  case_bool_decide as Hin; cbn [negb].
  - apply wp_bind. eapply wp_save_and_next; [done|done|]. intros ls' Ha'. apply wp_ret. by eapply Ht.
  - apply wp_ret, Hf. intros c' i' [= <- <-]. by right.
Qed.
End Rules.

(** ** Progress: what is left is an end of what there was *)

Definition lex_ok (ls : LexState) : Prop := slen (buff ls) <= buffsize ls /\ 1 <= buffsize ls.

Definition after (la : Token) (i : bytes) (ls : LexState) : Prop :=
  lex_ok ls /\ lookahead ls = la /\ input ls `suffix_of` i.

Definition syntax_error (e : lexerr) : Prop := exists msg n, e = LexError msg n.

Abbreviation wpe := (wp syntax_error).

Lemma syntax_error_any msg n : syntax_error (LexError msg n).
Proof. by exists msg, n. Qed.

Lemma after_refl ls : lex_ok ls -> after (lookahead ls) (input ls) ls.
Proof. by split. Qed.

Lemma after_here la i ls : after la i ls -> at_ (input ls) (buff ls) (linenumber ls) la ls.
Proof. intros (Hok & <- & _). by split. Qed.

Lemma after_head la i ls c : after la i ls -> current ls = Some c -> at_ (c :: tail (input ls)) (buff ls) (linenumber ls) la ls.
Proof. intros (Hok & <- & _) Hc. split; try done. unfold input. by rewrite Hc. Qed.

Lemma at_after la i i' b n ls : at_ i' b n la ls -> i' `suffix_of` i -> after la i ls.
Proof. intros [<- <- _ <- Hs] Hi. by split. Qed.

Lemma suffix_tail {A} (c : A) i j : c :: i `suffix_of` j -> i `suffix_of` j.
Proof. intros H. trans (c :: i); [by exists [c]|done]. Qed.

Lemma after_tail la i ls c j b n ls' :
  after la i ls -> current ls = Some c -> j `suffix_of` tail (input ls) -> at_ j b n la ls' ->
  after la i ls' /\ (length (input ls') < length (input ls))%nat.
Proof.
  intros (_ & _ & Hi) Hc Hj Ha. assert (input ls = c :: tail (input ls)) as Hin by (unfold input; by rewrite Hc). split.
  - eapply at_after; [done|]. etrans; [exact Hj|]. apply (suffix_tail c). by rewrite <- Hin.
  - rewrite Hin, (at_input _ _ _ _ _ Ha). apply suffix_length in Hj. cbn. lia.
Qed.

Lemma after_same la i ls b n ls' :
  after la i ls -> at_ (input ls) b n la ls' -> after la i ls' /\ (length (input ls') <= length (input ls))%nat.
Proof. intros (_ & _ & Hi) Ha. split; [by eapply at_after|]. by rewrite (at_input _ _ _ _ _ Ha). Qed.

#[local] Hint Resolve syntax_error_any : core.

Section Steps.
Context (la : Token) (i : bytes) (ls : LexState) (Hls : after la i ls).

Abbreviation weak post := (forall ls', after la i ls' -> (length (input ls') <= length (input ls))%nat -> post ls').
Abbreviation strict post := (forall ls', after la i ls' -> (length (input ls') < length (input ls))%nat -> post ls').

Lemma same_current b n ls' : at_ (input ls) b n la ls' -> current ls' = current ls.
Proof. intros Ha. by rewrite (at_current _ _ _ _ _ Ha), (at_current _ _ _ _ _ (after_here _ _ _ Hls)). Qed.

Lemma wpe_save c post :
  (forall ls', after la i ls' -> (length (input ls') <= length (input ls))%nat -> current ls' = current ls -> post () ls') ->
  wpe (save c) ls post.
Proof.
  intros Hp. eapply wp_save; [by eapply after_here|by right|]. intros ls' Ha. by apply Hp; [eapply after_same..|eapply same_current].
Qed.

Lemma wpe_resetbuffer post :
  (forall ls', after la i ls' -> (length (input ls') <= length (input ls))%nat -> current ls' = current ls -> post () ls') ->
  wpe resetbuffer ls post.
Proof.
  intros Hp. eapply wp_resetbuffer; [by eapply after_here|]. intros ls' Ha. by apply Hp; [eapply after_same..|eapply same_current].
Qed.

Lemma wpe_check_next set post : (forall b, weak (post b)) -> wpe (check_next set) ls post.
Proof.
  intros Hp. eapply wp_check_next; [by eapply after_here|by right| |].
  - intros c i' Hi _ _ ls' Ha. assert (current ls = Some c) as Hc.
    { rewrite (at_current _ _ _ _ _ (after_here _ _ _ Hls)). by rewrite Hi. }
    assert (i' `suffix_of` tail (input ls)) as Hs by by rewrite Hi.
    destruct (after_tail la i ls c i' _ _ ls' Hls Hc Hs Ha) as [Hi' Hl]. apply Hp; [done|lia].
  - intros _. by apply Hp.
Qed.

Context (c : Z) (Hc : current ls = Some c).

Lemma wpe_next post : strict (post ()) -> wpe next ls post.
Proof. intros Hp. eapply wp_next; [by eapply after_head|]. intros ls' Ha. by apply Hp; eapply after_tail. Qed.

Lemma wpe_save_and_next post : strict (post ()) -> wpe save_and_next ls post.
Proof. intros Hp. eapply wp_save_and_next; [by eapply after_head|by right|]. intros ls' Ha. by apply Hp; eapply after_tail. Qed.

Lemma wpe_inclinenumber post : strict (post ()) -> wpe inclinenumber ls post.
Proof.
  intros Hp. eapply wp_inclinenumber; [by eapply after_head|by right|]. intros ls' Ha.
  pose proof (newline_rest_suffix c (tail (input ls))). by apply Hp; eapply after_tail.
Qed.
End Steps.

Lemma wpe_escerror {A} msg ls (post : A -> LexState -> Prop) : wpe (escerror msg) ls post.
Proof. apply wp_bind. unfold wp, resetbuffer. apply wp_error. auto. Qed.

(** A test that [EOZ] fails. *)
Lemma current_some (f : charint -> bool) ls : f (current ls) = true -> f None = false -> exists c, current ls = Some c.
Proof. destruct (current ls) as [c|]; [by exists c|]. intros -> [=]. Qed.

Ltac known_current ls :=
  lazymatch goal with
  | C : current ls = Some _ |- _ => idtac
  | C : current ls = current ?ls0, C0 : current ?ls0 = Some _ |- _ => rewrite C0 in C
  | C : ?b = true |- _ =>
      lazymatch eval pattern (current ls) in b with
      | ?f _ => destruct (current_some f ls C eq_refl) as [? ?]
      end
  end.

(** Runs the actions that are not loops. *)
Ltac lexa :=
  repeat match goal with
  | |- wp _ (_ ≫= _) _ _ => apply wp_bind
  | |- wp _ (mret _) _ _ => apply wp_ret
  | |- wp _ (get _) _ _ => apply wp_get
  | |- wp _ (simple_token _) _ _ => apply wp_ret
  | |- wp _ (lexerror _) _ _ => apply wp_error; by auto
  | |- wp _ (escerror _) _ _ => apply wpe_escerror
  | H : after _ _ ?ls |- wp _ (save _) ?ls _ => apply (wpe_save _ _ ls H); intros
  | H : after _ _ ?ls |- wp _ resetbuffer ?ls _ => apply (wpe_resetbuffer _ _ ls H); intros
  | H : after _ _ ?ls |- wp _ (check_next _) ?ls _ => apply (wpe_check_next _ _ ls H); intros
  | H : after _ _ ?ls |- wp _ next ?ls _ => known_current ls; eapply (wpe_next _ _ ls H); [eassumption|]; intros
  | H : after _ _ ?ls |- wp _ save_and_next ?ls _ => known_current ls; eapply (wpe_save_and_next _ _ ls H); [eassumption|]; intros
  | H : after _ _ ?ls |- wp _ inclinenumber ?ls _ => known_current ls; eapply (wpe_inclinenumber _ _ ls H); [eassumption|]; intros
  | |- wp _ (match current ?ls with Some _ => _ | None => _ end) _ _ => let C := fresh "C" in destruct (current ls) eqn:C
  | |- wp _ (if ?b then _ else _) _ _ => let E := fresh "E" in destruct b eqn:E
  end.

Section Loops.
Context (luaO_str2d : bytes -> option Z) (la : Token) (i : bytes).

Abbreviation nearly fuel ls := (Nat.le (length (input ls)) fuel).
Abbreviation enough fuel ls := (Nat.lt (length (input ls)) fuel).
Abbreviation reads P ls := (wpe P ls (fun _ ls' => after la i ls' /\ (length (input ls') <= length (input ls))%nat)).

Lemma reads_then {A} (P : lexer A) ls (post : A -> LexState -> Prop) :
  reads P ls -> (forall a ls', after la i ls' -> (length (input ls') <= length (input ls))%nat -> post a ls') -> wpe P ls post.
Proof. intros H Hp. eapply wp_mono; [exact H|]. intros a ls' [? ?]. by apply Hp. Qed.

(** Ends a loop: by its induction hypothesis, or because it returns. *)
Ltac loop_end IH := first [ split; [done|lia] | eapply reads_then; [apply IH; [done|lia]|]; intros; split; [done|lia] ].

Lemma reads_numeral_loop fuel expo ls : after la i ls -> enough fuel ls -> reads (numeral_loop fuel expo) ls.
Proof. revert ls. induction fuel as [|fuel IH]; intros ls Ha Hf; [lia|]. cbn [numeral_loop]. lexa; loop_end IH. Qed.

Lemma reads_sep_loop fuel count ls : after la i ls -> enough fuel ls -> reads (sep_loop fuel count) ls.
Proof. revert count ls. induction fuel as [|fuel IH]; intros count ls Ha Hf; [lia|]. cbn [sep_loop]. lexa; loop_end IH. Qed.

Lemma reads_zap_loop fuel ls : after la i ls -> enough fuel ls -> reads (zap_loop fuel) ls.
Proof. revert ls. induction fuel as [|fuel IH]; intros ls Ha Hf; [lia|]. cbn [zap_loop]. lexa; loop_end IH. Qed.

Lemma reads_comment_loop fuel ls : after la i ls -> enough fuel ls -> reads (comment_loop fuel) ls.
Proof. revert ls. induction fuel as [|fuel IH]; intros ls Ha Hf; [lia|]. cbn [comment_loop]. lexa; loop_end IH. Qed.

Lemma reads_hexa_loop n r ls c : after la i ls -> current ls = Some c -> wpe (hexa_loop n r) ls (fun _ ls' => exists c, current ls' = Some c /\ after la i ls' /\ (length (input ls') <= length (input ls))%nat).
Proof.
  revert r ls c. induction n as [|n IH]; intros r ls c Ha Hc; cbn [hexa_loop]; lexa; [by eauto|].
  eapply wp_mono; [by eapply IH|]. intros a ls2 (c2 & ? & ? & ?). exists c2. split; [done|]. split; [done|lia].
Qed.

Lemma reads_dec_loop n r ls : after la i ls -> reads (dec_loop n r) ls.
Proof.
  revert r ls. induction n as [|n IH]; intros r ls Ha; cbn [dec_loop]; lexa; try (split; [done|lia]).
  eapply reads_then; [by apply IH|]. intros. split; [done|lia].
Qed.

Lemma reads_convert ls : after la i ls -> reads (convert_numeral luaO_str2d) ls.
Proof.
  intros ([Hs1 Hs2] & Hla & Hi). unfold wp, convert_numeral, trydecpoint, slen in *. cbn [buff set_buff buffsize].
  destruct (buff2d _ _); [|destruct (buff2d _ _); [|apply syntax_error_any]].
  all: split; [|done]; split; [|by split]; unfold lex_ok, slen, buffreplace; cbn [buff set_buff buffsize]; by rewrite !length_fmap.
Qed.

Lemma reads_numeral fuel ls c : after la i ls -> current ls = Some c -> nearly fuel ls ->
  wpe (read_numeral luaO_str2d fuel) ls (fun _ ls' => after la i ls' /\ (length (input ls') < length (input ls))%nat).
Proof.
  intros Ha Hc Hf. unfold read_numeral. lexa.
  all: eapply reads_then; [apply reads_numeral_loop; [done|lia]|]; intros; lexa.
  all: eapply reads_then; [by apply reads_convert|]; intros; split; [done|lia].
Qed.

(** The name is read only when its first character is there. *)
Lemma reads_name_loop fuel ls c : after la i ls -> current ls = Some c -> nearly fuel ls ->
  wpe (name_loop fuel) ls (fun _ ls' => after la i ls' /\ (length (input ls') < length (input ls))%nat).
Proof.
  revert ls c. induction fuel as [|fuel IH]; intros ls c Ha Hc Hf.
  { unfold input in Hf. rewrite Hc in Hf. cbn in Hf. lia. }
  cbn [name_loop]. lexa.
  - known_current ls'. eapply wp_mono; [eapply IH; [done|done|lia]|]. intros ? ? [? ?]. split; [done|lia].
  - split; [done|lia].
Qed.

Lemma sep_loop_counts fuel count ls : wp (fun _ => True) (sep_loop fuel count) ls (fun n _ => count <= n).
Proof.
  revert count ls. induction fuel as [|fuel IH]; intros count ls; [done|]. cbn [sep_loop]. apply wp_bind, wp_get.
  destruct (decide _); [|by apply wp_ret]. apply wp_bind. unfold wp at 1. destruct (save_and_next ls) as [|[u ls']]; [done|].
  eapply wp_mono; [apply IH|]. intros ? ? ?. cbn in *. lia.
Qed.

Lemma wp_both {A} E (P : lexer A) ls post post' :
  wp E P ls post -> wp (fun _ => True) P ls post' -> wp E P ls (fun a ls' => post a ls' /\ post' a ls').
Proof. unfold wp. by destruct (P ls) as [|[a ls']]. Qed.

Lemma reads_skip_sep fuel ls c : after la i ls -> current ls = Some c -> nearly fuel ls ->
  wpe (skip_sep fuel) ls (fun n ls' =>
    after la i ls' /\ (length (input ls') < length (input ls))%nat /\ (0 <= n -> current ls' = Some c)).
Proof.
  intros Ha Hc Hf. unfold skip_sep. lexa.
  eapply wp_mono; [apply wp_both; [apply reads_sep_loop; [done|lia]|apply sep_loop_counts]|]. intros n ls2 [[Ha2 Hl2] Hn]. cbn in Hn.
  lexa. split; [done|]. split; [lia|]. destruct (decide _) as [->|]; [done|lia].
Qed.

Lemma reads_long_loop fuel keep sep ls : after la i ls -> enough fuel ls -> 0 <= sep -> reads (long_loop fuel keep sep) ls.
Proof.
  intros Ha0 Hf0 Hsep. revert ls Ha0 Hf0. induction fuel as [|fuel IH]; intros ls Ha Hf; [lia|]. cbn [long_loop]. lexa; try loop_end IH.
  eapply wp_mono; [eapply reads_skip_sep; [done|done|lia]|]. intros n ls2 (Ha2 & Hl2 & Hn). lexa; [|loop_end IH].
  - match goal with H : (n =? sep) = true |- _ => apply Z.eqb_eq in H as -> end. specialize (Hn Hsep). lexa. split; [done|lia].
Qed.

Lemma reads_long_string fuel keep sep ls c : after la i ls -> current ls = Some c -> nearly fuel ls -> 0 <= sep ->
  wpe (read_long_string fuel keep sep) ls (fun _ ls' => after la i ls' /\ (length (input ls') < length (input ls))%nat).
Proof.
  intros Ha Hc Hf Hsep. unfold read_long_string. lexa.
  all: eapply reads_then; [apply reads_long_loop; [done|lia|done]|]; intros; lexa; split; [done|lia].
Qed.

Lemma reads_escape fuel ls c : after la i ls -> current ls = Some c -> nearly fuel ls -> 
  wpe (read_escape fuel) ls (fun _ ls' => after la i ls' /\ (length (input ls') < length (input ls))%nat).
Proof.
  intros Ha Hc Hf. unfold read_escape. lexa. 2: split; [done|lia].
  destruct (simple_escape z). { unfold read_save. lexa. split; [done|lia]. }
  lexa.
  - eapply wp_mono; [by eapply reads_hexa_loop|]. intros r ls2 (c2 & Hc2 & Ha2 & Hl2). unfold read_save. lexa. split; [done|lia].
  - split; [done|lia].
  - eapply reads_then; [apply reads_zap_loop; [done|lia]|]. intros. split; [done|lia].
  - unfold readdecesc. lexa. eapply reads_then; [by apply reads_dec_loop|]. intros. lexa. split; [done|lia].
Qed.

Lemma reads_string_loop fuel del ls : after la i ls -> enough fuel ls ->
  wpe (string_loop fuel del) ls (fun _ ls' => current ls' = Some del /\ after la i ls' /\ (length (input ls') <= length (input ls))%nat).
Proof.
  revert ls. induction fuel as [|fuel IH]; intros ls Ha Hf; [lia|]. cbn [string_loop]. lexa.
  - apply Z.eqb_eq in E as ->. done.
  - eapply wp_mono; [eapply reads_escape; [done|done|lia]|]. intros ? ls2 [Ha2 Hl2].
    eapply wp_mono; [apply IH; [done|lia]|]. intros ? ls3 (Hc3 & Ha3 & Hl3). split; [done|]. split; [done|lia].
  - eapply wp_mono; [apply IH; [done|lia]|]. intros ? ls3 (Hc3 & Ha3 & Hl3). split; [done|]. split; [done|lia].
Qed.

Lemma reads_string fuel del ls c : after la i ls -> current ls = Some c -> nearly fuel ls ->
  wpe (read_string fuel del) ls (fun _ ls' => after la i ls' /\ (length (input ls') < length (input ls))%nat).
Proof.
  intros Ha Hc Hf. unfold read_string. lexa.
  eapply wp_mono; [apply reads_string_loop; [done|lia]|]. intros ? ls2 (Hc2 & Ha2 & Hl2). lexa. split; [done|lia].
Qed.

Abbreviation advances P ls := (wpe P ls (fun _ ls' => after la i ls' /\ (length (input ls') < length (input ls))%nat)).

Ltac finish := split; [done|lia].

Lemma reads_one_or_two c c2 tk ls c0 : after la i ls -> current ls = Some c0 -> advances (one_or_two c c2 tk) ls.
Proof. intros Ha Hc. unfold one_or_two. lexa; finish. Qed.

Lemma reads_minus fuel ls c : after la i ls -> current ls = Some c -> nearly fuel ls -> advances (lex_minus fuel) ls.
Proof.
  intros Ha Hc Hf. unfold lex_minus. apply wp_bind, (wpe_next la i ls Ha c Hc). intros ls1 Ha1 Hl1. apply wp_bind, wp_get.
  destruct (decide (current ls1 <> Some 45)) as [|Hc1%dec_stable]; [lexa; finish|].
  lexa; [|eapply reads_then; [apply reads_comment_loop; [done|lia]|]; intros; lexa; finish].
  eapply wp_mono; [eapply reads_skip_sep; [done|done|lia]|]. intros n ls3 (Ha3 & Hl3 & Hn).
  apply wp_bind. apply (wpe_resetbuffer la i ls3 Ha3). intros ls4 Ha4 Hl4 Hc4.
  rewrite Z.geb_leb. destruct (Z.leb_spec 0 n) as [Hn0|]; lexa; [|eapply reads_then; [apply reads_comment_loop; [done|lia]|]; intros; lexa; finish].
  rewrite (Hn Hn0) in Hc4. eapply wp_mono; [eapply reads_long_string; [done|done|lia|done]|]. intros ? ls5 [Ha5 Hl5]. lexa. finish.
Qed.

Lemma reads_lex_numeral fuel ls c : after la i ls -> current ls = Some c -> nearly fuel ls -> advances (lex_numeral luaO_str2d fuel) ls.
Proof.
  intros Ha Hc Hf. unfold lex_numeral. lexa. eapply wp_mono; [by eapply reads_numeral|]. intros ? ls2 [Ha2 Hl2]. lexa. finish.
Qed.

Lemma reads_dot fuel ls c : after la i ls -> current ls = Some c -> nearly fuel ls -> advances (lex_dot luaO_str2d fuel) ls.
Proof.
  intros Ha Hc Hf. unfold lex_dot. lexa; try finish.
  match goal with H : negb _ = false |- wp _ _ ?ls' _ => apply negb_false_iff in H; known_current ls' end.
  eapply wp_mono; [eapply reads_lex_numeral; [done|done|lia]|]. intros ? ls4 [Ha4 Hl4]. finish.
Qed.

Lemma reads_bracket fuel ls c : after la i ls -> current ls = Some c -> nearly fuel ls -> advances (lex_bracket fuel) ls.
Proof.
  intros Ha Hc Hf. unfold lex_bracket. lexa. eapply wp_mono; [by eapply reads_skip_sep|]. intros n ls3 (Ha3 & Hl3 & Hn).
  rewrite Z.geb_leb. destruct (Z.leb_spec 0 n) as [Hn0|]; lexa; [|finish].
  eapply wp_mono; [eapply reads_long_string; [done|by apply Hn|lia|done]|]. intros ? ls5 [Ha5 Hl5]. lexa. finish.
Qed.

Lemma reads_word fuel ls c : after la i ls -> current ls = Some c -> nearly fuel ls -> advances (lex_word fuel) ls.
Proof. intros Ha Hc Hf. unfold lex_word. lexa. eapply wp_mono; [by eapply reads_name_loop|]. intros ? ls2 [Ha2 Hl2]. lexa. finish. Qed.

(** A turn consumes input, unless there is none. *)
Definition turned (ls : LexState) (r : option Token) (ls' : LexState) : Prop :=
  after la i ls' /\ ((length (input ls') < length (input ls))%nat \/ r = Some (MkToken TK_EOS NoSem) /\ input ls' = []).

Lemma advances_turned P ls : advances P ls -> wpe P ls (turned ls).
Proof. intros H. eapply wp_mono; [exact H|]. intros r ls' [Ha Hl]. by split; [|left]. Qed.

Lemma reads_turn fuel ls : after la i ls -> nearly fuel ls -> wpe (llex_turn luaO_str2d fuel) ls (turned ls).
Proof.
  intros Ha Hf. unfold llex_turn. apply wp_bind, wp_get. destruct (current ls) as [c|] eqn:Hc.
  2: { lexa. split; [done|right]. split; [done|]. unfold input. by rewrite Hc. }
  apply advances_turned.
  repeat match goal with |- wp _ (if ?b then _ else _) _ _ => destruct b eqn:? end; try (by eapply reads_one_or_two).
  - lexa. finish.
  - lexa. finish.
  - by eapply reads_minus.
  - by eapply reads_bracket.
  - lexa. eapply wp_mono; [by eapply reads_string|]. intros ? ls2 [Ha2 Hl2]. lexa. finish.
  - by eapply reads_dot.
  - by eapply reads_lex_numeral.
  - by eapply reads_word.
  - lexa. finish.
Qed.

Lemma reads_llex_loop fuel ls : after la i ls -> enough fuel ls -> wpe (llex_loop luaO_str2d fuel) ls (fun t => turned ls (Some t)).
Proof.
  revert ls. induction fuel as [|fuel IH]; intros ls Ha Hf; [lia|]. cbn [llex_loop]. lexa.
  eapply wp_mono; [apply reads_turn; [done|lia]|]. intros [t|] ls' Ht; lexa; [exact Ht|].
  destruct Ht as [Ha' [Hl|[[=] _]]]. eapply wp_mono; [apply IH; [done|lia]|].
  intros t ls2 [Ha2 Ht2]. split; [done|]. destruct Ht2 as [Hl2|Ht2]; [left; lia|by right].
Qed.
End Loops.

(** ** The whole input *)

Section Stream.
Context (luaO_str2d : bytes -> option Z).

Lemma llex_total fuel ls : lex_ok ls -> (length (input ls) < fuel)%nat ->
  wpe (llex luaO_str2d fuel) ls (fun t => turned (lookahead ls) (input ls) ls (Some t)).
Proof.
  intros Hok Hf. pose proof (after_refl ls Hok) as Ha. unfold llex. lexa.
  eapply wp_mono; [apply reads_llex_loop; [done|lia]|]. intros t ls2 [Ha2 Ht]. split; [done|].
  destruct Ht as [Hl|Ht]; [left; lia|by right].
Qed.

(** The tokens that [luaX_next] gives the parser, up to [TK_EOS]. *)
Fixpoint lex_tokens (calls fuel : nat) (ls : LexState) : lexerr + list Token :=
  match calls with
  | O => inl LexFuel
  | S calls' =>
      match luaX_next luaO_str2d fuel ls with
      | inl e => inl e
      | inr (_, ls') =>
          if token (lt ls') =? TK_EOS then inr [lt ls'] else
          match lex_tokens calls' fuel ls' with inl e => inl e | inr ts => inr (lt ls' :: ts) end
      end
  end.

Lemma luaX_next_total fuel ls : lex_ok ls -> (length (input ls) < fuel)%nat -> token (lookahead ls) = TK_EOS ->
  wpe (luaX_next luaO_str2d fuel) ls (fun _ ls' =>
    lex_ok ls' /\ token (lookahead ls') = TK_EOS /\ input ls' `suffix_of` input ls /\
    ((length (input ls') < length (input ls))%nat \/ token (lt ls') = TK_EOS)).
Proof.
  intros Hok Hf Hla. unfold wp, luaX_next. cbn [lookahead set_tokens]. rewrite Hla, Z.eqb_refl. cbn [negb].
  set (ls0 := set_tokens _ _ _ ls). pose proof (llex_total fuel ls0 Hok Hf) as H. unfold wp in H.
  destruct (llex luaO_str2d fuel ls0) as [e|[t ls']]; [done|]. destruct H as [(Hok' & Hla' & Hi) Hl].
  split; [done|]. split; [cbn; by rewrite Hla'|]. split; [done|]. destruct Hl as [Hl|[[= ->] _]]; [by left|by right].
Qed.

Lemma lex_tokens_total calls fuel ls :
  lex_ok ls -> token (lookahead ls) = TK_EOS -> (length (input ls) < fuel)%nat -> (length (input ls) < calls)%nat ->
  match lex_tokens calls fuel ls with
  | inl e => syntax_error e
  | inr ts => (length ts <= S (length (input ls)))%nat /\ token <$> last ts = Some TK_EOS
  end.
Proof.
  revert ls. induction calls as [|calls IH]; intros ls Hok Hla Hf Hc; [lia|]. cbn [lex_tokens].
  pose proof (luaX_next_total fuel ls Hok Hf Hla) as H. unfold wp in H.
  destruct (luaX_next luaO_str2d fuel ls) as [e|[[] ls']]; [done|]. destruct H as (Hok' & Hla' & Hi & Hl).
  apply suffix_length in Hi. destruct (Z.eqb_spec (token (lt ls')) TK_EOS) as [Heos|Hne].
  - cbn. rewrite Heos. split; [lia|done].
  - destruct Hl as [Hl|Heos]; [|done]. specialize (IH ls' Hok' Hla'). destruct (lex_tokens calls fuel ls') as [e|ts]; [by apply IH; lia|].
    destruct IH as [IH1 IH2]; [lia..|]. rewrite last_cons. destruct (last ts) as [t|]; [|done]. split; [cbn; lia|done].
Qed.

(** C26. Calling [luaX_next] from the first character until it gives [TK_EOS], as
    the parser does, ends on every stream, whatever the reader returns: no loop of the
    lexer runs for more turns than there are characters, every token but the last
    consumes input, no store leaves the token buffer, nothing is read from the stream
    behind its end, and the only failures are syntax errors. *)
Theorem lexing_terminates (z : zio) (c : charint) (calls fuel : nat) :
  (length (contents z) + 1 < calls)%nat -> (length (contents z) + 1 < fuel)%nat ->
  match lex_tokens calls fuel (luaX_setinput z c) with
  | inl e => exists msg line, e = LexError msg line
  | inr ts => (length ts <= length (contents z) + 2)%nat /\ token <$> last ts = Some TK_EOS
  end.
Proof.
  intros Hc Hf. assert (length (input (luaX_setinput z c)) <= length (contents z) + 1)%nat as Hl.
  { unfold input. cbn. destruct c; cbn; lia. }
  pose proof (lex_tokens_total calls fuel (luaX_setinput z c)) as H. cbn in H.
  destruct (lex_tokens calls fuel (luaX_setinput z c)) as [e|ts].
  - apply H; [done..|lia|lia].
  - destruct H as [H1 H2]; [done..|lia|lia|]. split; [lia|done].
Qed.
End Stream.

(** Witness of C26: a name, an equals sign and a quote that is not closed. *)
Lemma lexing_terminates_witness :
  lex_tokens (fun _ => None) 9 9 (luaX_setinput (ZIO [61; 34] []) (Some 120)) = inl (LexError unfinished_string 1) /\
  match lex_tokens (fun _ => None) 9 9 (luaX_setinput (ZIO [61; 34] []) (Some 120)) with
  | inl e => exists msg line, e = LexError msg line
  | inr ts => (length ts <= 4)%nat /\ token <$> last ts = Some TK_EOS
  end.
Proof. split; [by vm_compute|]. apply (lexing_terminates (fun _ => None) (ZIO [61; 34] [])); cbn; lia. Defined.
