(* ===== verification/LuaQuote.v ===== *)
(** * [string.format] with [%q] and the lexer ([addquoted] of [src/dep/lua-5.2.3/src/lstrlib.c])

    [addquoted] writes a string as a Lua literal; the main theorem reads it back with
    [llex]. *)

From S2P Require Import Prelude Ctype LuaStr LuaZio LuaLex LuaLexSpec.

(** [sprintf] with [%d] and [%03d], for a byte. *)
Definition sprintf_03d (c : Z) : bytes := [48 + c / 100; 48 + c / 10 mod 10; 48 + c mod 10].

Definition sprintf_d (c : Z) : bytes :=
  if c <? 10 then [48 + c] else if c <? 100 then [48 + c / 10; 48 + c mod 10] else sprintf_03d c.

(** What is added for the character [c]; [c1] is the one after it. *)
Definition addquoted_char (c c1 : Z) : bytes :=
  if (c =? 34) || (c =? 92) || (c =? 10) then [92; c]
  else if (c =? 0) || iscntrl c then 92 :: (if negb (isdigit c1) then sprintf_d c else sprintf_03d c)
  else [c].

(** The string ends with a zero. *)
Fixpoint addquoted_loop (s : bytes) : bytes :=
  match s with
  | [] => []
  | c :: s' => addquoted_char c (default 0 (head s')) ++ addquoted_loop s'
  end.

Definition addquoted (b s : bytes) : bytes := b ++ [34] ++ addquoted_loop s ++ [34].

(** ** Escapes are read back *)

Abbreviation wpf := (wp (fun _ => False)).

Lemma lisdigit_byte c : is_byte c -> lisdigit (Some c) = isdigit c.
Proof. intros Hc. apply Bool.eqb_prop, (byte_cases (fun c => Bool.eqb (lisdigit (Some c)) (isdigit c))); [by vm_compute|done]. Qed.

(** [dec_loop] takes at most [n] digits. *)
Lemma wp_dec_loop n r ds i b l la ls (post : Z -> LexState -> Prop) :
  at_ (ds ++ i) b l la ls -> Forall (fun d => lisdigit (Some d) = true) ds -> (length ds <= n)%nat ->
  (length ds = n \/ lisdigit (head i) = false) ->
  (forall ls', at_ i b l la ls' -> post (fold_left (fun r d => 10 * r + d - 48) ds r) ls') ->
  wpf (dec_loop n r) ls post.
Proof.
  revert n r ls. induction ds as [|d ds IH]; intros n r ls Ha Hd Hn Hend Hp.
  - destruct n as [|n]; cbn [dec_loop]; [apply wp_ret; by apply Hp|]. destruct Hend as [[=]|Hi]. apply wp_bind. eapply wp_current; [done|].
    cbn [app] in *. destruct (head i); [rewrite Hi|]; apply wp_ret; by apply Hp.
  - destruct n as [|n]; cbn in Hn; [lia|]. apply Forall_cons in Hd as [Hd Hds]. cbn [dec_loop]. apply wp_bind. eapply wp_current; [done|].
    cbn [app head]. rewrite Hd. apply wp_bind. eapply wp_next; [done|]. intros ls1 Ha1. eapply IH; [done|done|lia| |done].
    cbn in Hend. destruct Hend as [Hend|Hend]; [left; lia|by right].
Qed.

(** The digits of an escape: one to three, with the value [c]. *)
Definition escapes (c : Z) (ds : bytes) : bool :=
  forallb (in_range 48 57) ds && (fold_left (fun r d => 10 * r + d - 48) ds 0 =? c) &&
  (1 <=? length ds)%nat && (length ds <=? 3)%nat.

Lemma sprintf_escapes c : is_byte c -> escapes c (sprintf_d c) = true /\ escapes c (sprintf_03d c) = true.
Proof.
  intros Hc. apply andb_true_iff.
  apply (byte_cases (fun c => escapes c (sprintf_d c) && escapes c (sprintf_03d c))); [by vm_compute|done].
Qed.

Lemma digit_lisdigit d : in_range 48 57 d = true -> lisdigit (Some d) = true.
Proof.
  intros Hd. assert (is_byte d) by (unfold in_range, is_byte in *; lia). rewrite lisdigit_byte by done.
  revert Hd. apply implb_true_iff. by apply (byte_cases (fun c => implb (in_range 48 57 c) (isdigit c))); [vm_compute|].
Qed.

Lemma digit_not_escape d : in_range 48 57 d = true ->
  simple_escape d = None /\ (d =? 120) = false /\ (d =? 10) || (d =? 13) = false /\ (d =? 122) = false.
Proof. unfold in_range, simple_escape. intros Hd. repeat (case_match; try lia). split_and!; [done|lia..]. Qed.

Lemma wp_decimal_escape c ds i b l la ls fuel (post : () -> LexState -> Prop) :
  is_byte c -> escapes c ds = true -> length ds = 3%nat \/ lisdigit (head i) = false -> slen b < 2 ^ 62 ->
  at_ (92 :: ds ++ i) b l la ls -> (forall ls', at_ i (b ++ [c]) l la ls' -> post () ls') -> wpf (read_escape fuel) ls post.
Proof.
  intros Hc He Hend Hb Ha Hp. unfold escapes in He. rewrite !andb_true_iff in He. destruct He as [[[Hds Hval] Hl1] Hl3].
  apply Nat.leb_le in Hl1, Hl3. apply Z.eqb_eq in Hval. rewrite forallb_forall in Hds.
  destruct ds as [|d ds]; [cbn in Hl1; lia|]. assert (in_range 48 57 d = true) as Hd by (apply Hds; by left).
  unfold read_escape. apply wp_bind. eapply wp_next; [done|]. intros ls1 Ha1. apply wp_bind. eapply wp_current; [done|].
  cbn [app head]. destruct (digit_not_escape d Hd) as (-> & -> & -> & ->). rewrite (digit_lisdigit d Hd). cbn [negb].
  apply wp_bind. unfold readdecesc. apply wp_bind. eapply wp_dec_loop; [exact Ha1| |done|done|].
  { apply Forall_forall. intros x Hx. apply digit_lisdigit, Hds. by apply list_elem_of_In. }
  intros ls2 Ha2. rewrite Hval, Z.gtb_ltb, (proj2 (Z.ltb_ge _ _)) by clia. apply wp_ret.
  eapply wp_save; [done|by left|done].
Qed.

Lemma wp_simple_escape c i b l la ls fuel (post : () -> LexState -> Prop) :
  c = 34 \/ c = 92 -> slen b < 2 ^ 62 -> at_ (92 :: c :: i) b l la ls ->
  (forall ls', at_ i (b ++ [c]) l la ls' -> post () ls') -> wpf (read_escape fuel) ls post.
Proof.
  intros Hc Hb Ha Hp. unfold read_escape. apply wp_bind. eapply wp_next; [done|]. intros ls1 Ha1. apply wp_bind. eapply wp_current; [done|].
  cbn [head]. assert (simple_escape c = Some c) as -> by (by destruct Hc as [->| ->]).
  apply wp_bind. eapply wp_next; [done|]. intros ls2 Ha2. eapply wp_save; [done|by left|done].
Qed.

Lemma wp_newline_escape i b l la ls fuel (post : () -> LexState -> Prop) :
  head i <> Some 13 -> slen b < 2 ^ 62 -> l + 1 < MAX_LINES -> at_ (92 :: 10 :: i) b l la ls ->
  (forall ls', at_ i (b ++ [10]) (l + 1) la ls' -> post () ls') -> wpf (read_escape fuel) ls post.
Proof.
  intros Hi Hb Hl Ha Hp. unfold read_escape. apply wp_bind. eapply wp_next; [done|]. intros ls1 Ha1. apply wp_bind. eapply wp_current; [done|].
  cbn. apply wp_bind. eapply wp_inclinenumber; [done|by left|]. intros ls2 Ha2.
  assert (newline_rest 10 i = i) as Hrest.
  { destruct i as [|d i]; [done|]. unfold newline_rest, currIsNewline. repeat case_bool_decide; simplify_eq; done. }
  rewrite Hrest in Ha2. eapply wp_save; [done|by left|done].
Qed.

(** ** Strings are read back *)

Definition newlines (s : bytes) : Z := slen (filter (fun c => c = 10) s).

(** What [addquoted] writes for [s] starts with a digit only if [s] does, and never with
    a carriage return. *)
Lemma addquoted_head s i :
  Forall is_byte s ->
  (isdigit (default 0 (head s)) = false -> lisdigit (head (addquoted_loop s ++ 34 :: i)) = false) /\
  head (addquoted_loop s ++ 34 :: i) <> Some 13.
Proof.
  intros Hs. destruct s as [|c s]; [done|]. apply Forall_cons in Hs as [Hc _]. cbn [addquoted_loop head default].
  unfold addquoted_char. destruct (_ || _) eqn:E1; [done|]. destruct ((c =? 0) || iscntrl c) eqn:E2; [done|].
  cbn. rewrite lisdigit_byte by done. split; [done|]. intros [= ->]. done.
Qed.

Lemma wp_quoted_char c c1 i b l la ls fuel (post : () -> LexState -> Prop) :
  is_byte c -> slen b < 2 ^ 62 -> l + 1 < MAX_LINES -> (isdigit c1 = false -> lisdigit (head i) = false) -> head i <> Some 13 ->
  at_ (addquoted_char c c1 ++ i) b l la ls ->
  (forall ls', at_ i (b ++ [c]) (l + newlines [c]) la ls' -> wpf (string_loop fuel 34) ls' post) ->
  wpf (string_loop (S fuel) 34) ls post.
Proof.
  intros Hc Hb Hl Hd H13 Ha Hp. cbn [string_loop]. apply wp_bind. eapply wp_current; [done|]. unfold addquoted_char in *.
  assert (newlines [c] = if c =? 10 then 1 else 0) as Hnl by (unfold newlines; destruct (Z.eqb_spec c 10) as [->|]; [done|by rewrite filter_cons_False]).
  destruct ((c =? 34) || (c =? 92) || (c =? 10)) eqn:E1; [|destruct ((c =? 0) || iscntrl c) eqn:E2]; cbn [app head] in *.
  - apply wp_bind. destruct (Z.eqb_spec c 10) as [->|Hne].
    + eapply wp_newline_escape; [done..|]. intros ls' Ha'. apply Hp. by rewrite Hnl.
    + eapply wp_simple_escape; [|done..|]; [lia|]. intros ls' Ha'. apply Hp. by rewrite Hnl, Z.add_0_r.
  - apply wp_bind. destruct (sprintf_escapes c Hc) as [H1 H2]. rewrite (proj2 (Z.eqb_neq c 10)) in Hnl by lia.
    destruct (isdigit c1) eqn:Ec1; cbn [negb] in Ha.
    + eapply wp_decimal_escape; [done|exact H2|by left|done|exact Ha|]. intros ls' Ha'. apply Hp. by rewrite Hnl, Z.add_0_r.
    + eapply wp_decimal_escape; [done|exact H1|right; by apply Hd|done|exact Ha|]. intros ls' Ha'. apply Hp. by rewrite Hnl, Z.add_0_r.
  - rewrite (proj2 (Z.eqb_neq c 34)), (proj2 (Z.eqb_neq c 10)), (proj2 (Z.eqb_neq c 92)) by lia.
    rewrite (proj2 (Z.eqb_neq c 10)) in Hnl by lia.
    assert ((c =? 13) = false) as -> by (apply Z.eqb_neq; intros ->; done). cbn [orb].
    apply wp_bind. eapply wp_save_and_next; [done|by left|]. intros ls' Ha'. apply Hp. by rewrite Hnl, Z.add_0_r.
Qed.

Lemma wp_quoted_loop s i b l la ls fuel (post : () -> LexState -> Prop) :
  Forall is_byte s -> slen b + slen s < 2 ^ 62 -> l + newlines s + 1 < MAX_LINES -> (length s < fuel)%nat ->
  at_ (addquoted_loop s ++ 34 :: i) b l la ls ->
  (forall ls', at_ (34 :: i) (b ++ s) (l + newlines s) la ls' -> post () ls') ->
  wpf (string_loop fuel 34) ls post.
Proof.
  revert b l ls fuel. induction s as [|c s IH]; intros b l ls fuel Hs Hb Hl Hf Ha Hp; (destruct fuel as [|fuel]; [lia|]).
  - cbn [string_loop]. apply wp_bind. eapply wp_current; [done|]. cbn [addquoted_loop app head]. rewrite Z.eqb_refl.
    apply wp_ret, Hp. unfold newlines. by rewrite app_nil_r, Z.add_0_r.
  - apply Forall_cons in Hs as [Hc Hs]. cbn [addquoted_loop] in Ha. rewrite <- app_assoc in Ha.
    assert (newlines (c :: s) = newlines [c] + newlines s /\ 0 <= newlines s /\ 0 <= newlines [c]) as (Hn1 & Hn2 & Hn3).
    { unfold newlines, slen. change (c :: s) with ([c] ++ s). rewrite filter_app, length_app. split_and!; lia. }
    assert (slen (c :: s) = slen s + 1) as Hsl by (unfold slen; cbn; lia).
    eapply (wp_quoted_char c _ _ b l la); [done| |lia|apply (addquoted_head s i Hs)|apply (addquoted_head s i Hs)|exact Ha|].
    { unfold slen in *. lia. }
    intros ls' Ha'. eapply (IH (b ++ [c]) (l + newlines [c])); [done| |lia|cbn in Hf; lia|exact Ha'|].
    { unfold slen in *. rewrite length_app. cbn in *. lia. }
    intros ls2 Ha2. apply Hp. rewrite Hn1, Z.add_assoc. by rewrite <- (app_assoc b [c] s) in Ha2.
Qed.

Lemma newlines_bound s : 0 <= newlines s <= slen s.
Proof. unfold newlines, slen. pose proof (length_filter (fun c => c = 10) s). lia. Qed.

Lemma wp_quoted_turn luaO_str2d s rest n la ls fuel (post : option Token -> LexState -> Prop) :
  Forall is_byte s -> at_ (addquoted [] s ++ rest) [] n la ls -> slen s < 2 ^ 61 -> n + newlines s + 1 < MAX_LINES -> (length s < fuel)%nat ->
  (forall ls' b, at_ rest b (n + newlines s) la ls' -> post (Some (MkToken TK_STRING (SemString s))) ls') ->
  wpf (llex_turn luaO_str2d fuel) ls post.
Proof.
  intros Hs Ha1 Hlen Hl Hf Hp. unfold addquoted in Ha1. cbn [app] in Ha1. unfold llex_turn.
  apply wp_bind. eapply wp_current; [done|]. cbn [app head Z.eqb orb Pos.eqb]. apply wp_bind. unfold read_string.
  apply wp_bind. eapply wp_save_and_next; [done|left; unfold slen; cbn; clia|]. intros ls2 Ha2. rewrite <- app_assoc in Ha2.
  apply wp_bind. eapply (wp_quoted_loop s rest [34]); [done| |exact Hl|lia|exact Ha2|]; [unfold slen in *; cbn; clia|]. intros ls3 Ha3.
  apply wp_bind. eapply wp_save_and_next; [done|left; unfold slen in *; cbn; clia|]. intros ls4 Ha4.
  apply wp_bind, wp_get, wp_ret, wp_ret. rewrite (at_buff _ _ _ _ _ Ha4). cbn [app drop]. rewrite drop_0, take_app_length'.
  - by eapply Hp.
  - unfold slen. cbn [length]. rewrite length_app. cbn. lia.
Qed.

(** C27. A string written by [addquoted] is one token of the lexer: at any place of the
    source, [llex] skips nothing, gives [TK_STRING] with exactly the bytes of the string
    and stops behind the closing quote, with the line counter advanced by the newlines of
    the string.  Quotes, backslashes, zeros and control characters are all covered, and
    a control character before a digit too. *)
Theorem quoted_string_reads_back (luaO_str2d : bytes -> option Z) (s rest : bytes) (ls : LexState) (fuel : nat) :
  Forall is_byte s -> lex_ok ls -> input ls = addquoted [] s ++ rest ->
  slen s < 2 ^ 61 -> linenumber ls + newlines s + 1 < MAX_LINES -> (length s + 1 < fuel)%nat ->
  exists ls', llex luaO_str2d fuel ls = inr (MkToken TK_STRING (SemString s), ls') /\
    input ls' = rest /\ linenumber ls' = linenumber ls + newlines s /\ lookahead ls' = lookahead ls.
Proof.
  intros Hs Hok Hi Hlen Hl Hf.
  enough (wpf (llex luaO_str2d fuel) ls (fun t ls' =>
    t = MkToken TK_STRING (SemString s) /\ input ls' = rest /\ linenumber ls' = linenumber ls + newlines s /\ lookahead ls' = lookahead ls)) as H.
  { unfold wp in H. destruct (llex luaO_str2d fuel ls) as [|[t ls']]; [done|]. destruct H as [-> H]. by exists ls'. }
  destruct fuel as [|fuel]; [lia|]. unfold llex. apply wp_bind. eapply wp_resetbuffer; [by eapply after_here, after_refl|]. intros ls1 Ha1.
  rewrite Hi in Ha1. cbn [llex_loop]. apply wp_bind. eapply wp_quoted_turn; [done|exact Ha1|done|done|lia|].
  intros ls2 b [Hi2 _ Hl2 Hla2 _]. by apply wp_ret.
Qed.

(** Witness of C27: the string of a quote, a newline, a zero and a digit, followed by a space. *)
Lemma quoted_string_reads_back_witness :
  addquoted [] [34; 10; 0; 53] = [34; 92; 34; 92; 10; 92; 48; 48; 48; 53; 34] /\
  exists ls', llex (fun _ => None) 9 (luaX_setinput (ZIO (tail (addquoted [] [34; 10; 0; 53] ++ [32])) []) (Some 34)) =
    inr (MkToken TK_STRING (SemString [34; 10; 0; 53]), ls') /\ input ls' = [32] /\ linenumber ls' = 1 + 1 /\ lookahead ls' = MkToken TK_EOS NoSem.
Proof.
  split; [by vm_compute|].
  apply (quoted_string_reads_back (fun _ => None) [34; 10; 0; 53] [32]
    (luaX_setinput (ZIO (tail (addquoted [] [34; 10; 0; 53] ++ [32])) []) (Some 34)) 9).
  - repeat constructor; clia.
  - by split.
  - reflexivity.
  - unfold slen. cbn. clia.
  - reflexivity.
  - cbn. lia.
Defined.
