(* ===== verification/LuaTokens.v ===== *)
(** * Reading spelled tokens back ([llex.c])

    How names, reserved words, operators, decimal numerals and quoted strings are
    spelled, and the theorem that [luaX_next] reads any sequence of them, separated by
    spaces, back as the tokens it was written from. *)

From S2P Require Import Prelude Ctype LuaStr LuaZio LuaLex LuaLexSpec LuaQuote.

(** The operators and the characters that stand for themselves. *)
Definition operators : list (Z * bytes) :=
  [(TK_CONCAT, [46; 46]); (TK_DOTS, [46; 46; 46]); (TK_EQ, [61; 61]); (TK_GE, [62; 61]); (TK_LE, [60; 61]);
   (TK_NE, [126; 61]); (TK_DBCOLON, [58; 58])] ++
  ((fun c => (c, [c])) <$> [43; 45; 42; 47; 37; 94; 35; 60; 62; 61; 40; 41; 123; 125; 91; 93; 59; 58; 44; 46; 126]).

Section Tokens.
Context (luaO_str2d : bytes -> option Z).

Inductive spelled : Token -> bytes -> Prop :=
| spelled_word c w : Forall is_byte (c :: w) -> lislalpha (Some c) = true -> Forall (fun d => lislalnum (Some d) = true) w ->
    spelled (MkToken (word_token (c :: w)) (SemString (c :: w))) (c :: w)
| spelled_operator tk w : (tk, w) ∈ operators -> spelled (MkToken tk NoSem) w
| spelled_numeral d ds r : Forall (fun d => in_range 48 57 d = true) (d :: ds) -> luaO_str2d (d :: ds) = Some r ->
    spelled (MkToken TK_NUMBER (SemNumber r)) (d :: ds)
| spelled_string s : Forall is_byte s -> spelled (MkToken TK_STRING (SemString s)) (addquoted [] s).

(** A turn on a spelled token, followed by a space. *)
Definition reads_back (t : Token) (w : bytes) : Prop :=
  forall rest n la fuel ls, at_ (w ++ 32 :: rest) [] n la ls -> (length w <= fuel)%nat -> slen w < 2 ^ 61 -> n + slen w + 1 < MAX_LINES ->
  wpf (llex_turn luaO_str2d fuel) ls (fun r ls' => r = Some t /\ exists b n', n' <= n + slen w /\ at_ (32 :: rest) b n' la ls').

(** ** Words *)

Lemma alpha_range c : is_byte c -> lislalpha (Some c) = true -> 65 <= c <= 90 \/ c = 95 \/ 97 <= c <= 122.
Proof.
  intros Hc Ha. assert (implb (lislalpha (Some c)) (in_range 65 90 c || (c =? 95) || in_range 97 122 c) = true) as H.
  { by apply (byte_cases (fun c => implb (lislalpha (Some c)) (in_range 65 90 c || (c =? 95) || in_range 97 122 c))); [vm_compute|]. }
  rewrite Ha in H. unfold in_range in H. cbn in H. lia.
Qed.

Lemma wp_name_loop c w rest b n la fuel ls (post : () -> LexState -> Prop) :
  at_ (c :: w ++ rest) b n la ls -> Forall (fun d => lislalnum (Some d) = true) w -> lislalnum (head rest) = false ->
  slen b + slen w < 2 ^ 62 -> (length w < fuel)%nat ->
  (forall ls', at_ rest (b ++ c :: w) n la ls' -> post () ls') -> wpf (name_loop fuel) ls post.
Proof.
  revert c b fuel ls. induction w as [|d w IH]; intros c b fuel ls Ha Hw Hr Hb Hf Hp; (destruct fuel as [|fuel]; [lia|]); cbn [name_loop].
  - apply wp_bind. eapply wp_save_and_next; [exact Ha|left; unfold slen in *; cbn in *; lia|]. intros ls1 Ha1.
    apply wp_bind. eapply wp_current; [done|]. cbn [app] in *. rewrite Hr. apply wp_ret. by apply Hp.
  - apply Forall_cons in Hw as [Hd Hw]. apply wp_bind. eapply wp_save_and_next; [exact Ha|left; unfold slen in *; cbn in *; lia|]. intros ls1 Ha1.
    apply wp_bind. eapply wp_current; [done|]. cbn [app head] in *. rewrite Hd. eapply IH; [exact Ha1|done|done| |cbn in Hf; lia|].
    { unfold slen in *. rewrite length_app. cbn in *. lia. }
    intros ls2 Ha2. apply Hp. by rewrite <- app_assoc in Ha2.
Qed.

Lemma word_reads_back c w :
  Forall is_byte (c :: w) -> lislalpha (Some c) = true -> Forall (fun d => lislalnum (Some d) = true) w ->
  reads_back (MkToken (word_token (c :: w)) (SemString (c :: w))) (c :: w).
Proof.
  intros Hb Hc Hw rest n la fuel ls Ha Hf Hl Hn. apply Forall_cons in Hb as [Hbc _].
  pose proof (alpha_range c Hbc Hc) as Hr. unfold llex_turn. apply wp_bind. eapply wp_current; [done|]. cbn [app head] in *.
  repeat match goal with |- wp _ (if ?b then _ else _) _ _ =>
    lazymatch b with lislalpha _ => fail | _ => replace b with false by (symmetry; lia) end end.
  rewrite Hc. unfold lex_word. apply wp_bind. eapply wp_name_loop; [exact Ha|done|done|unfold slen in *; cbn in *; clia|cbn in Hf; lia|].
  intros ls' Ha'. apply wp_bind, wp_get, wp_ret. rewrite (at_buff _ _ _ _ _ Ha'). split; [done|].
  exists ([] ++ c :: w), n. split; [unfold slen; lia|done].
Qed.
(** ** Operators *)

Lemma wp_check_next_no c set i b n la ls (post : bool -> LexState -> Prop) :
  at_ (c :: i) b n la ls -> c ∉ set -> post false ls -> wpf (check_next set) ls post.
Proof.
  intros Ha Hc Hp. unfold check_next. apply wp_bind. eapply wp_current; [done|]. cbn [head].
  rewrite bool_decide_eq_false_2 by done. rewrite orb_true_r. by apply wp_ret.
Qed.

Lemma wp_check_next_yes c set i b n la ls (post : bool -> LexState -> Prop) :
  at_ (c :: i) b n la ls -> c ∈ set -> c <> 0 -> slen b < 2 ^ 62 -> (forall ls', at_ i (b ++ [c]) n la ls' -> post true ls') ->
  wpf (check_next set) ls post.
Proof.
  intros Ha Hc H0 Hb Hp. unfold check_next. apply wp_bind. eapply wp_current; [done|]. cbn [head].
  rewrite bool_decide_eq_true_2 by done. rewrite (proj2 (Z.eqb_neq c 0)) by done. cbn [negb orb]. apply wp_bind.
  eapply wp_save_and_next; [done|by left|]. intros ls' Ha'. apply wp_ret. by apply Hp.
Qed.

(** Runs actions on an input whose first characters are known. *)
Ltac run1 :=
  lazymatch goal with
  | |- wp _ (_ ≫= _) _ _ => apply wp_bind
  | |- wp _ (mret _) _ _ => apply wp_ret
  | |- wp _ (simple_token _) _ _ => apply wp_ret
  | |- wp _ (get current) _ _ => eapply wp_current; [eassumption|]; cbn [head app]
  | |- wp _ next _ _ => eapply wp_next; [eassumption|]; intros
  | |- wp _ save_and_next _ _ => eapply wp_save_and_next; [eassumption|left; unfold slen; cbn; clia|]; intros
  | |- wp _ (check_next _) _ _ =>
      first [ eapply wp_check_next_no; [eassumption|set_solver|]
            | eapply wp_check_next_yes; [eassumption|set_solver|done|unfold slen; cbn; clia|]; intros ]
  | |- wp _ (sep_loop (S _) _) _ _ => cbn [sep_loop]
  | |- wp _ (one_or_two _ _ _) _ _ => unfold one_or_two
  | |- wp _ (lex_minus _) _ _ => unfold lex_minus
  | |- wp _ (lex_bracket _) _ _ => unfold lex_bracket, skip_sep
  | |- wp _ (lex_dot _ _) _ _ => unfold lex_dot
  | |- wp _ (if ?b then _ else _) _ _ => let v := eval vm_compute in b in change b with v; cbv iota
  | |- wp _ (match Some _ with _ => _ end) _ _ => cbv iota
  end.

Lemma operator_reads_back tk w : (tk, w) ∈ operators -> reads_back (MkToken tk NoSem) w.
Proof.
  unfold operators. intros Hin rest n la fuel ls Ha Hf _ _. cbn in Hin.
  repeat (apply elem_of_cons in Hin as [Hin|Hin]; [injection Hin as -> ->|]); [..|by apply elem_of_nil in Hin].
  all: destruct fuel as [|fuel]; [cbn in Hf; lia|]; unfold llex_turn.
  all: cbn [app] in Ha; repeat run1.
  all: split; [done|]; eexists _, n; split; [unfold slen; lia|eassumption].
Qed.

(** ** Numerals *)

Lemma digit_facts d : in_range 48 57 d = true ->
  lisxdigit (Some d) = true /\ d ∉ [69; 101] /\ d ∉ [88; 120].
Proof.
  intros Hd. assert (implb (in_range 48 57 d) (lisxdigit (Some d)) = true) as H.
  { apply (byte_cases (fun d => implb (in_range 48 57 d) (lisxdigit (Some d)))); [by vm_compute|]. unfold in_range, is_byte in *. lia. }
  rewrite Hd in H. split; [done|]. unfold in_range in Hd. split; intros Hin; repeat (apply elem_of_cons in Hin as [->|Hin]; [done|]); by apply elem_of_nil in Hin.
Qed.

Lemma wp_numeral_loop ds rest b n la fuel ls (post : () -> LexState -> Prop) :
  at_ (ds ++ 32 :: rest) b n la ls -> Forall (fun d => in_range 48 57 d = true) ds -> slen b + slen ds < 2 ^ 62 -> (length ds < fuel)%nat ->
  (forall ls', at_ (32 :: rest) (b ++ ds) n la ls' -> post () ls') -> wpf (numeral_loop fuel [69; 101]) ls post.
Proof.
  revert b fuel ls. induction ds as [|d ds IH]; intros b fuel ls Ha Hds Hb Hf Hp; (destruct fuel as [|fuel]; [lia|]); cbn [numeral_loop].
  - do 6 run1. cbn. apply wp_ret. apply Hp. by rewrite app_nil_r.
  - apply Forall_cons in Hds as [Hd Hds]. destruct (digit_facts d Hd) as (Hx & He & _). apply wp_bind.
    eapply wp_check_next_no; [exact Ha|done|]. do 4 run1. rewrite Hx. cbn [orb]. apply wp_bind.
    eapply wp_save_and_next; [exact Ha|left; unfold slen in *; cbn in *; lia|]. intros ls1 Ha1.
    eapply IH; [exact Ha1|done| |cbn in Hf; lia|].
    { unfold slen in *. rewrite length_app. cbn in *. lia. }
    intros ls2 Ha2. apply Hp. by rewrite <- app_assoc in Ha2.
Qed.

Lemma buffreplace_same c b : buffreplace c c b = b.
Proof. unfold buffreplace. rewrite <- (list_fmap_id b) at 2. apply list_fmap_ext. intros _ x _. by destruct (Z.eqb_spec x c) as [->|]. Qed.

Lemma numeral_reads_back d ds r :
  Forall (fun d => in_range 48 57 d = true) (d :: ds) -> luaO_str2d (d :: ds) = Some r ->
  reads_back (MkToken TK_NUMBER (SemNumber r)) (d :: ds).
Proof.
  intros Hds Hr rest n la fuel ls Ha Hf Hl Hn. apply Forall_cons in Hds as [Hd Hds].
  assert (48 <= d <= 57) as Hrange by (unfold in_range in Hd; lia). destruct fuel as [|fuel]; [cbn in Hf; lia|].
  unfold llex_turn. do 2 run1. cbn [app head] in *.
  repeat match goal with |- wp _ (if ?b then _ else _) _ _ =>
    lazymatch b with (48 <=? _) && _ => fail | _ => replace b with false by (symmetry; lia) end end.
  replace ((48 <=? d) && (d <=? 57)) with true by (symmetry; lia). unfold lex_numeral, read_numeral. do 3 run1.
  do 2 run1. apply wp_bind.
  match goal with Ha1 : at_ (ds ++ _) _ _ _ ?ls1 |- wp _ _ ?ls1 _ => assert (forall post : bool -> LexState -> Prop, post false ls1 ->
    wpf (if bool_decide (Some d = Some 48) then check_next [88; 120] else mret false) ls1 post) as Hx; [|apply Hx] end.
  { intros post Hp. destruct (bool_decide _); [|by apply wp_ret]. destruct ds as [|d2 ds]; eapply wp_check_next_no; [eassumption| |done|eassumption| |done].
    - set_solver.
    - by apply Forall_cons in Hds as [(_ & _ & ?)%digit_facts _]. }
  apply wp_bind. eapply wp_numeral_loop; [eassumption|done| |cbn in Hf; lia|]. { unfold slen in *. cbn in *. clia. }
  intros ls2 Ha2. apply wp_bind. eapply wp_save; [exact Ha2|left; unfold slen in *; cbn in *; clia|]. intros ls3 Ha3.
  unfold wp, convert_numeral. rewrite (at_buff _ _ _ _ _ Ha3), buffreplace_same. unfold buff2d. rewrite removelast_last.
  cbn [app]. rewrite Hr. split; [done|]. eexists _, n. split; [unfold slen; lia|].
  destruct Ha3 as [Hi3 Hb3 Hn3 Hla3 Hs3]. split; [exact Hi3|reflexivity|exact Hn3|exact Hla3|exact Hs3].
Qed.

Lemma spelled_reads_back t w : spelled t w -> reads_back t w.
Proof.
  destruct 1 as [c w Hb Hc Hw|tk w Hin|d ds r Hd Hr|s Hs].
  - by apply word_reads_back.
  - by apply operator_reads_back.
  - by apply numeral_reads_back.
  - intros rest n la fuel ls Ha Hf Hl Hn. pose proof (newlines_bound s).
    assert (slen s + 2 <= slen (addquoted [] s)) as Hlen.
    { unfold slen, addquoted. rewrite !length_app. cbn.
      enough (length s <= length (addquoted_loop s))%nat by lia. clear. induction s as [|c s IH]; [done|]. cbn [addquoted_loop length].
      rewrite length_app. enough (1 <= length (addquoted_char c (default 0%Z (head s))))%nat by lia.
      unfold addquoted_char. repeat case_match; cbn; lia. }
    eapply wp_quoted_turn; [done|exact Ha|lia|lia|unfold slen in *; lia|]. intros ls' b Ha'. split; [done|].
    exists b, (n + newlines s). split; [lia|done].
Qed.

(** ** Sequences of tokens *)

(** A space before every token, and one behind the last. *)
Definition spell (ws : list bytes) : bytes := concat ((fun w => 32 :: w) <$> ws) ++ [32].

Lemma wp_space i b n la ls fuel (post : Token -> LexState -> Prop) :
  at_ (32 :: i) b n la ls -> (forall ls', at_ i b n la ls' -> wpf (llex_loop luaO_str2d fuel) ls' post) ->
  wpf (llex_loop luaO_str2d (S fuel)) ls post.
Proof. intros Ha Hp. cbn [llex_loop]. unfold llex_turn. do 8 run1. by apply Hp. Qed.

Lemma word_token_range ts : word_token ts < TK_EOS \/ word_token ts = TK_NAME.
Proof.
  unfold word_token. destruct (list_find _ _) as [[i w]|] eqn:Hf; [left|by right].
  apply list_find_Some in Hf as [Hi _]. apply lookup_lt_Some in Hi. change (length reserved_words) with 22%nat in Hi.
  change TK_EOS with (FIRST_RESERVED + 29). lia.
Qed.

Lemma spelled_not_eos t w : spelled t w -> token t <> TK_EOS.
Proof.
  destruct 1 as [c w Hb Hc Hw|tk w Hin| |]; [..|done|done]; cbn [token].
  - destruct (word_token_range (c :: w)) as [Hr|Hr]; [lia|]. by rewrite Hr.
  - assert (forallb (fun p => negb (fst p =? TK_EOS)) operators = true) as H by (by vm_compute).
    rewrite forallb_forall in H. specialize (H (tk, w)). cbn in H. apply list_elem_of_In, H in Hin. lia.
Qed.

(** One call on a state whose look-ahead token is empty. *)
Lemma luaX_next_wp fuel ls (post : LexState -> Prop) :
  token (lookahead ls) = TK_EOS -> lex_ok ls ->
  (forall ls1, at_ (input ls) [] (linenumber ls) (lookahead ls) ls1 ->
    wpf (llex_loop luaO_str2d fuel) ls1 (fun t ls' => post (set_tokens (lastline ls') t (lookahead ls') ls'))) ->
  wpf (luaX_next luaO_str2d fuel) ls (fun _ => post).
Proof.
  intros Hla Hok Hp. unfold wp, luaX_next. cbn [lookahead set_tokens]. rewrite Hla, Z.eqb_refl. cbn [negb].
  set (ls0 := set_tokens _ _ _ ls).
  assert (wpf (llex luaO_str2d fuel) ls0 (fun t ls' => post (set_tokens (lastline ls') t (lookahead ls') ls'))) as H.
  { unfold llex. apply wp_bind. eapply wp_resetbuffer; [by eapply after_here, after_refl|]. intros ls1 Ha1. by apply Hp. }
  unfold wp in H. by destruct (llex luaO_str2d fuel ls0) as [|[t ls']].
Qed.

Lemma lex_tokens_spelled ts ws :
  Forall2 spelled ts ws -> forall ls calls fuel,
  lex_ok ls -> lookahead ls = MkToken TK_EOS NoSem -> input ls = spell ws -> slen (spell ws) < 2 ^ 61 ->
  linenumber ls + slen (spell ws) + 1 < MAX_LINES -> (length (spell ws) < fuel)%nat -> (length ts < calls)%nat ->
  lex_tokens luaO_str2d calls fuel ls = inr (ts ++ [MkToken TK_EOS NoSem]).
Proof.
  induction 1 as [|t w ts ws Ht Hts IH]; intros ls calls fuel Hok Hla Hi Hl Hn Hf Hc; (destruct calls as [|calls]; [cbn in Hc; lia|]); cbn [lex_tokens].
  - assert (wpf (luaX_next luaO_str2d fuel) ls (fun _ ls' => lt ls' = MkToken TK_EOS NoSem)) as H.
    { apply luaX_next_wp; [by rewrite Hla|done|]. intros ls1 Ha1. rewrite Hi in Ha1. cbn in Ha1, Hf. do 2 (destruct fuel as [|fuel]; [lia|]).
      eapply wp_space; [done|]. intros ls2 Ha2. cbn [llex_loop]. unfold llex_turn. do 2 run1. by do 2 run1. }
    unfold wp in H. destruct (luaX_next luaO_str2d fuel ls) as [|[[] ls']]; [done|]. by rewrite H.
  - assert (spell (w :: ws) = 32 :: w ++ spell ws) as Hsp by (unfold spell; cbn; by rewrite <- app_assoc).
    assert (exists rest, spell ws = 32 :: rest) as [rest Hrest] by (unfold spell; destruct ws; cbn; eauto).
    assert (slen (spell (w :: ws)) = 1 + slen w + slen (spell ws)) as Hsl by (rewrite Hsp; unfold slen; cbn; rewrite length_app; lia).
    assert (0 <= slen w) as Hw0 by (unfold slen; lia).
    assert (wpf (luaX_next luaO_str2d fuel) ls (fun _ ls' => lt ls' = t /\ lex_ok ls' /\ lookahead ls' = MkToken TK_EOS NoSem /\
      input ls' = spell ws /\ linenumber ls' <= linenumber ls + slen w)) as H.
    { apply luaX_next_wp; [by rewrite Hla|done|]. intros ls1 Ha1. rewrite Hi, Hsp, Hla in Ha1. unfold slen in *. do 2 (destruct fuel as [|fuel]; [lia|]).
      eapply wp_space; [done|]. intros ls2 Ha2. rewrite Hrest in Ha2. cbn [llex_loop]. apply wp_bind.
      eapply wp_mono; [eapply (spelled_reads_back t w Ht); [exact Ha2|lia|unfold slen in *; lia|unfold slen in *; lia]|].
      intros r ls3 (-> & b & n' & Hn' & [Hi3 Hb3 Hl3 Hla3 Hs3]). apply wp_ret. cbn. rewrite <- Hb3 in Hs3. split_and!; try done; [apply Hs3..|by rewrite Hrest|].
      rewrite Hl3. exact Hn'. }
    unfold wp in H. destruct (luaX_next luaO_str2d fuel ls) as [|[[] ls']]; [done|]. destruct H as (-> & Hok' & Hla' & Hi' & Hn').
    rewrite (proj2 (Z.eqb_neq _ _)) by (by eapply spelled_not_eos). rewrite IH; [done|done|done|done|lia|lia|unfold slen in *; lia|cbn in Hc; lia].
Qed.

(** C25. Lexing is the inverse of writing tokens: a sequence of names, reserved
    words, operators, decimal numerals and strings quoted by [addquoted], with spaces
    between them, is given back token by token by [luaX_next], each with its value, and
    [TK_EOS] follows. *)
Theorem spelled_tokens_read_back (ts : list Token) (ws : list bytes) (ls : LexState) (calls fuel : nat) :
  Forall2 spelled ts ws ->
  lex_ok ls -> lookahead ls = MkToken TK_EOS NoSem -> input ls = spell ws ->
  slen (spell ws) < 2 ^ 61 -> linenumber ls + slen (spell ws) + 1 < MAX_LINES ->
  (length (spell ws) < fuel)%nat -> (length ts < calls)%nat ->
  lex_tokens luaO_str2d calls fuel ls = inr (ts ++ [MkToken TK_EOS NoSem]).
Proof. intros. by eapply lex_tokens_spelled. Qed.
End Tokens.

(** Witness of C25: the loop header [while x1 ~= 12 do]. *)
Lemma spelled_tokens_read_back_witness :
  let str2d := fun s : bytes => if decide (s = [49; 50]) then Some 12 else None in
  let ws := [[119; 104; 105; 108; 101]; [120; 49]; [126; 61]; [49; 50]; [100; 111]] in
  lex_tokens str2d 9 99 (luaX_setinput (ZIO (tail (spell ws)) []) (Some 32)) =
  inr ([MkToken TK_WHILE (SemString [119; 104; 105; 108; 101]); MkToken TK_NAME (SemString [120; 49]); MkToken TK_NE NoSem;
        MkToken TK_NUMBER (SemNumber 12); MkToken (FIRST_RESERVED + 2) (SemString [100; 111])] ++ [MkToken TK_EOS NoSem]).
Proof.
  intros str2d ws. apply (spelled_tokens_read_back str2d _ ws); [|by split|done|done| | |cbn; lia|cbn; lia].
  - repeat (apply Forall2_cons_2; [|]); [..|apply Forall2_nil_2].
    + apply (spelled_word str2d 119 [104; 105; 108; 101]); repeat (apply Forall_nil_2 || apply Forall_cons_2; [clia || done|]); done.
    + apply (spelled_word str2d 120 [49]); repeat (apply Forall_nil_2 || apply Forall_cons_2; [clia || done|]); done.
    + apply spelled_operator. repeat (apply list_elem_of_here || apply list_elem_of_further).
    + apply (spelled_numeral str2d 49 [50]); repeat (apply Forall_nil_2 || apply Forall_cons_2; [done|]); done.
    + apply (spelled_word str2d 100 [111]); repeat (apply Forall_nil_2 || apply Forall_cons_2; [clia || done|]); done.
  - unfold slen. cbn. clia.
  - reflexivity.
Defined.
