(* ===== verification/LuaOp.v ===== *)
(** * Lua's instruction format ([lopcodes.h] and [lopcodes.c] of [src/dep/lua-5.2.3/src])

    A virtual-machine instruction packs an opcode and its arguments into 32 bits,
    with one of four formats that the table [luaP_opmodes] gives for the opcode.
    The theorems: the field macros read back what they write and leave disjoint
    fields alone, and encoding and decoding are inverse to each other. *)

From S2P Require Import Prelude.
From stdpp Require Import strings.
Open Scope Z_scope.

Inductive OpMode := iABC | iABx | iAsBx | iAx.
Inductive OpArgMask := OpArgN | OpArgU | OpArgR | OpArgK.

Inductive OpCode :=
| OP_MOVE | OP_LOADK | OP_LOADKX | OP_LOADBOOL | OP_LOADNIL
| OP_GETUPVAL | OP_GETTABUP | OP_GETTABLE | OP_SETTABUP | OP_SETUPVAL
| OP_SETTABLE | OP_NEWTABLE | OP_SELF | OP_ADD | OP_SUB
| OP_MUL | OP_DIV | OP_MOD | OP_POW | OP_UNM
| OP_NOT | OP_LEN | OP_CONCAT | OP_JMP | OP_EQ
| OP_LT | OP_LE | OP_TEST | OP_TESTSET | OP_CALL
| OP_TAILCALL | OP_RETURN | OP_FORLOOP | OP_FORPREP | OP_TFORCALL
| OP_TFORLOOP | OP_SETLIST | OP_CLOSURE | OP_VARARG | OP_EXTRAARG.

#[export] Instance OpMode_eq_dec : EqDecision OpMode.
Proof. solve_decision. Defined.
#[export] Instance OpArgMask_eq_dec : EqDecision OpArgMask.
Proof. solve_decision. Defined.

(** The opcodes in the order of the enumeration. *)
Definition opcodes : list OpCode :=
  [OP_MOVE; OP_LOADK; OP_LOADKX; OP_LOADBOOL; OP_LOADNIL; OP_GETUPVAL;
   OP_GETTABUP; OP_GETTABLE; OP_SETTABUP; OP_SETUPVAL; OP_SETTABLE; OP_NEWTABLE;
   OP_SELF; OP_ADD; OP_SUB; OP_MUL; OP_DIV; OP_MOD;
   OP_POW; OP_UNM; OP_NOT; OP_LEN; OP_CONCAT; OP_JMP;
   OP_EQ; OP_LT; OP_LE; OP_TEST; OP_TESTSET; OP_CALL;
   OP_TAILCALL; OP_RETURN; OP_FORLOOP; OP_FORPREP; OP_TFORCALL; OP_TFORLOOP;
   OP_SETLIST; OP_CLOSURE; OP_VARARG; OP_EXTRAARG].

Definition opcode_Z (o : OpCode) : Z :=
  match o with
  | OP_MOVE => 0 | OP_LOADK => 1 | OP_LOADKX => 2 | OP_LOADBOOL => 3 | OP_LOADNIL => 4
  | OP_GETUPVAL => 5 | OP_GETTABUP => 6 | OP_GETTABLE => 7 | OP_SETTABUP => 8 | OP_SETUPVAL => 9
  | OP_SETTABLE => 10 | OP_NEWTABLE => 11 | OP_SELF => 12 | OP_ADD => 13 | OP_SUB => 14
  | OP_MUL => 15 | OP_DIV => 16 | OP_MOD => 17 | OP_POW => 18 | OP_UNM => 19
  | OP_NOT => 20 | OP_LEN => 21 | OP_CONCAT => 22 | OP_JMP => 23 | OP_EQ => 24
  | OP_LT => 25 | OP_LE => 26 | OP_TEST => 27 | OP_TESTSET => 28 | OP_CALL => 29
  | OP_TAILCALL => 30 | OP_RETURN => 31 | OP_FORLOOP => 32 | OP_FORPREP => 33 | OP_TFORCALL => 34
  | OP_TFORLOOP => 35 | OP_SETLIST => 36 | OP_CLOSURE => 37 | OP_VARARG => 38 | OP_EXTRAARG => 39
  end.

Definition NUM_OPCODES : Z := opcode_Z OP_EXTRAARG + 1.

Definition luaP_opnames : list string :=
  ["MOVE"; "LOADK"; "LOADKX"; "LOADBOOL"; "LOADNIL"; "GETUPVAL"; "GETTABUP"; "GETTABLE";
   "SETTABUP"; "SETUPVAL"; "SETTABLE"; "NEWTABLE"; "SELF"; "ADD"; "SUB"; "MUL";
   "DIV"; "MOD"; "POW"; "UNM"; "NOT"; "LEN"; "CONCAT"; "JMP";
   "EQ"; "LT"; "LE"; "TEST"; "TESTSET"; "CALL"; "TAILCALL"; "RETURN";
   "FORLOOP"; "FORPREP"; "TFORCALL"; "TFORLOOP"; "SETLIST"; "CLOSURE"; "VARARG"; "EXTRAARG"]%string.

Definition mode_Z (m : OpMode) : Z := match m with iABC => 0 | iABx => 1 | iAsBx => 2 | iAx => 3 end.
Definition mask_Z (m : OpArgMask) : Z := match m with OpArgN => 0 | OpArgU => 1 | OpArgR => 2 | OpArgK => 3 end.

Definition opmode (t a : Z) (b c : OpArgMask) (m : OpMode) : Z :=
  (t ≪ 7) ||| (a ≪ 6) ||| (mask_Z b ≪ 4) ||| (mask_Z c ≪ 2) ||| mode_Z m.

Definition luaP_opmodes : list Z :=
  [opmode 0 1 OpArgR OpArgN iABC;
   opmode 0 1 OpArgK OpArgN iABx;
   opmode 0 1 OpArgN OpArgN iABx;
   opmode 0 1 OpArgU OpArgU iABC;
   opmode 0 1 OpArgU OpArgN iABC;
   opmode 0 1 OpArgU OpArgN iABC;
   opmode 0 1 OpArgU OpArgK iABC;
   opmode 0 1 OpArgR OpArgK iABC;
   opmode 0 0 OpArgK OpArgK iABC;
   opmode 0 0 OpArgU OpArgN iABC;
   opmode 0 0 OpArgK OpArgK iABC;
   opmode 0 1 OpArgU OpArgU iABC;
   opmode 0 1 OpArgR OpArgK iABC;
   opmode 0 1 OpArgK OpArgK iABC;
   opmode 0 1 OpArgK OpArgK iABC;
   opmode 0 1 OpArgK OpArgK iABC;
   opmode 0 1 OpArgK OpArgK iABC;
   opmode 0 1 OpArgK OpArgK iABC;
   opmode 0 1 OpArgK OpArgK iABC;
   opmode 0 1 OpArgR OpArgN iABC;
   opmode 0 1 OpArgR OpArgN iABC;
   opmode 0 1 OpArgR OpArgN iABC;
   opmode 0 1 OpArgR OpArgR iABC;
   opmode 0 0 OpArgR OpArgN iAsBx;
   opmode 1 0 OpArgK OpArgK iABC;
   opmode 1 0 OpArgK OpArgK iABC;
   opmode 1 0 OpArgK OpArgK iABC;
   opmode 1 0 OpArgN OpArgU iABC;
   opmode 1 1 OpArgR OpArgU iABC;
   opmode 0 1 OpArgU OpArgU iABC;
   opmode 0 1 OpArgU OpArgU iABC;
   opmode 0 0 OpArgU OpArgN iABC;
   opmode 0 1 OpArgR OpArgN iAsBx;
   opmode 0 1 OpArgR OpArgN iAsBx;
   opmode 0 0 OpArgN OpArgU iABC;
   opmode 0 1 OpArgR OpArgN iAsBx;
   opmode 0 0 OpArgU OpArgU iABC;
   opmode 0 1 OpArgU OpArgN iABx;
   opmode 0 1 OpArgU OpArgN iABC;
   opmode 0 0 OpArgU OpArgU iAx].

Definition opmodes_at (m : Z) : Z := default 0 (luaP_opmodes !! Z.to_nat m).

(** Conversions of an enumeration from its number. *)
Definition Z_mode (z : Z) : OpMode := if z =? 0 then iABC else if z =? 1 then iABx else if z =? 2 then iAsBx else iAx.
Definition Z_mask (z : Z) : OpArgMask :=
  if z =? 0 then OpArgN else if z =? 1 then OpArgU else if z =? 2 then OpArgR else OpArgK.

Definition getOpMode (m : Z) : OpMode := Z_mode (opmodes_at m &&& 3).
Definition getBMode (m : Z) : OpArgMask := Z_mask ((opmodes_at m ≫ 4) &&& 3).
Definition getCMode (m : Z) : OpArgMask := Z_mask ((opmodes_at m ≫ 2) &&& 3).
Definition testAMode (m : Z) : bool := negb (opmodes_at m &&& (1 ≪ 6) =? 0).
Definition testTMode (m : Z) : bool := negb (opmodes_at m &&& (1 ≪ 7) =? 0).

(** ** Fields *)

Definition SIZE_C : Z := 9.
Definition SIZE_B : Z := 9.
Definition SIZE_Bx : Z := SIZE_C + SIZE_B.
Definition SIZE_A : Z := 8.
Definition SIZE_Ax : Z := SIZE_C + SIZE_B + SIZE_A.
Definition SIZE_OP : Z := 6.
Definition POS_OP : Z := 0.
Definition POS_A : Z := POS_OP + SIZE_OP.
Definition POS_C : Z := POS_A + SIZE_A.
Definition POS_B : Z := POS_C + SIZE_C.
Definition POS_Bx : Z := POS_C.
Definition POS_Ax : Z := POS_A.

Definition MAXARG_Bx : Z := (1 ≪ SIZE_Bx) - 1.
Definition MAXARG_sBx : Z := MAXARG_Bx ≫ 1.
Definition MAXARG_Ax : Z := (1 ≪ SIZE_Ax) - 1.
Definition MAXARG_A : Z := (1 ≪ SIZE_A) - 1.
Definition MAXARG_B : Z := (1 ≪ SIZE_B) - 1.
Definition MAXARG_C : Z := (1 ≪ SIZE_C) - 1.

Definition MASK1 (n p : Z) : Z := u32 (u32 (Z.lnot (u32 (u32 (Z.lnot 0) ≪ n))) ≪ p).
Definition MASK0 (n p : Z) : Z := u32 (Z.lnot (MASK1 n p)).

Definition GET_OPCODE (i : Z) : Z := (i ≫ POS_OP) &&& MASK1 SIZE_OP 0.
Definition SET_OPCODE (i o : Z) : Z :=
  (i &&& MASK0 SIZE_OP POS_OP) ||| (u32 (u32 o ≪ POS_OP) &&& MASK1 SIZE_OP POS_OP).

Definition getarg (i pos size : Z) : Z := s32 ((i ≫ pos) &&& MASK1 size 0).
Definition setarg (i v pos size : Z) : Z :=
  (i &&& MASK0 size pos) ||| (u32 (u32 v ≪ pos) &&& MASK1 size pos).

Definition GETARG_A (i : Z) : Z := getarg i POS_A SIZE_A.
Definition SETARG_A (i v : Z) : Z := setarg i v POS_A SIZE_A.
Definition GETARG_B (i : Z) : Z := getarg i POS_B SIZE_B.
Definition SETARG_B (i v : Z) : Z := setarg i v POS_B SIZE_B.
Definition GETARG_C (i : Z) : Z := getarg i POS_C SIZE_C.
Definition SETARG_C (i v : Z) : Z := setarg i v POS_C SIZE_C.
Definition GETARG_Bx (i : Z) : Z := getarg i POS_Bx SIZE_Bx.
Definition SETARG_Bx (i v : Z) : Z := setarg i v POS_Bx SIZE_Bx.
Definition GETARG_Ax (i : Z) : Z := getarg i POS_Ax SIZE_Ax.
Definition SETARG_Ax (i v : Z) : Z := setarg i v POS_Ax SIZE_Ax.
Definition GETARG_sBx (i : Z) : Z := GETARG_Bx i - MAXARG_sBx.
Definition SETARG_sBx (i b : Z) : Z := SETARG_Bx i (u32 (b + MAXARG_sBx)).

Definition CREATE_ABC (o a b c : Z) : Z :=
  u32 (u32 o ≪ POS_OP) ||| u32 (u32 a ≪ POS_A) ||| u32 (u32 b ≪ POS_B) ||| u32 (u32 c ≪ POS_C).
Definition CREATE_ABx (o a bc : Z) : Z :=
  u32 (u32 o ≪ POS_OP) ||| u32 (u32 a ≪ POS_A) ||| u32 (u32 bc ≪ POS_Bx).
Definition CREATE_Ax (o a : Z) : Z := u32 (u32 o ≪ POS_OP) ||| u32 (u32 a ≪ POS_Ax).

(** RK operands: a register or a constant. *)
Definition BITRK : Z := 1 ≪ (SIZE_B - 1).
Definition ISK (x : Z) : bool := negb (x &&& BITRK =? 0).
Definition INDEXK (r : Z) : Z := r &&& Z.lnot BITRK.
Definition MAXINDEXRK : Z := BITRK - 1.
Definition RKASK (x : Z) : Z := x ||| BITRK.
Definition NO_REG : Z := MAXARG_A.

(** ** The fields as arithmetic *)

(** A field is [size] bits at [pos]. *)
Definition field (i pos size : Z) : Z := (i / 2 ^ pos) mod 2 ^ size.

Lemma lnot0 : u32 (Z.lnot 0) = 2 ^ 32 - 1.
Proof. reflexivity. Qed.

Lemma MASK1_bit n p j :
  0 <= n -> 0 <= p -> n + p <= 32 -> 0 <= j -> Z.testbit (MASK1 n p) j = bool_decide (p <= j < p + n).
Proof.
  intros Hn Hp Hnp Hj. unfold MASK1, wrap.
  destruct (decide (j < 32)) as [Hj32|Hj32].
  2: { rewrite Z.mod_pow2_bits_high by lia. rewrite bool_decide_eq_false_2 by lia. done. }
  rewrite Z.mod_pow2_bits_low by lia. rewrite Z.shiftl_spec by lia.
  destruct (decide (j < p)) as [Hjp|Hjp].
  { rewrite Z.testbit_neg_r by lia. rewrite bool_decide_eq_false_2 by lia. done. }
  rewrite Z.mod_pow2_bits_low by lia. rewrite Z.lnot_spec by lia. rewrite Z.mod_pow2_bits_low by lia.
  rewrite Z.shiftl_spec by lia.
  destruct (decide (j - p < n)) as [Hjn|Hjn].
  - rewrite Z.testbit_neg_r by lia. rewrite bool_decide_eq_true_2 by lia. done.
  - rewrite Z.mod_pow2_bits_low by lia. rewrite Z.lnot_spec, Z.bits_0 by lia.
    rewrite bool_decide_eq_false_2 by lia. done.
Qed.

Lemma MASK0_bit n p j :
  0 <= n -> 0 <= p -> n + p <= 32 -> 0 <= j ->
  Z.testbit (MASK0 n p) j = bool_decide (j < 32 /\ ~ (p <= j < p + n)).
Proof.
  intros Hn Hp Hnp Hj. unfold MASK0, wrap.
  destruct (decide (j < 32)).
  - rewrite Z.mod_pow2_bits_low, Z.lnot_spec, MASK1_bit by lia.
    destruct (decide (p <= j < p + n)).
    + rewrite bool_decide_eq_true_2 by done. rewrite bool_decide_eq_false_2 by lia. done.
    + rewrite bool_decide_eq_false_2 by done. rewrite bool_decide_eq_true_2 by lia. done.
  - rewrite Z.mod_pow2_bits_high, bool_decide_eq_false_2 by lia. done.
Qed.

Lemma field_bit i pos size j :
  0 <= pos -> 0 <= size -> 0 <= j ->
  Z.testbit (field i pos size) j = bool_decide (j < size) && Z.testbit i (j + pos).
Proof.
  intros Hp Hs Hj. unfold field. destruct (decide (j < size)).
  - rewrite Z.mod_pow2_bits_low, Z.div_pow2_bits, bool_decide_eq_true_2 by lia. done.
  - rewrite Z.mod_pow2_bits_high, bool_decide_eq_false_2 by lia. done.
Qed.

(** A field that the format has. *)
Definition field_ok (pos size : Z) : Prop := 0 <= pos /\ 0 < size < 32 /\ pos + size <= 32.

Lemma getarg_field i pos size : field_ok pos size -> getarg i pos size = field i pos size.
Proof.
  intros (Hp & Hs & Hps). unfold getarg.
  assert ((i ≫ pos) &&& MASK1 size 0 = field i pos size) as ->.
  { apply Z.bits_inj'. intros j Hj. rewrite Z.land_spec, MASK1_bit, field_bit, Z.shiftr_spec by lia.
    rewrite andb_comm. f_equal. apply bool_decide_ext. lia. }
  apply swrap_small; [lia|]. unfold in_s, field.
  pose proof (Z.mod_pos_bound (i / 2 ^ pos) (2 ^ size) ltac:(lia)).
  assert (2 ^ size <= 2 ^ (32 - 1)) by (apply Z.pow_le_mono_r; lia). lia.
Qed.

Lemma setarg_bit i v pos size j :
  field_ok pos size -> in_u 32 i -> 0 <= j ->
  Z.testbit (setarg i v pos size) j =
    if decide (pos <= j < pos + size) then Z.testbit v (j - pos) else Z.testbit i j.
Proof.
  intros (Hp & Hs & Hps) Hi Hj. unfold setarg.
  rewrite Z.lor_spec, !Z.land_spec, MASK0_bit, MASK1_bit by lia.
  destruct (decide (pos <= j < pos + size)) as [Hin|Hout].
  - rewrite (bool_decide_eq_false_2 (j < 32 /\ _)), (bool_decide_eq_true_2 (pos <= j < pos + size)) by lia.
    rewrite andb_false_r, andb_true_r. cbn [orb]. unfold wrap.
    rewrite Z.mod_pow2_bits_low, Z.shiftl_spec, Z.mod_pow2_bits_low by lia. done.
  - rewrite (bool_decide_eq_false_2 (pos <= j < pos + size)), andb_false_r, orb_false_r by done.
    destruct (decide (j < 32)).
    + rewrite bool_decide_eq_true_2, andb_true_r by done. done.
    + rewrite bool_decide_eq_false_2, andb_false_r by lia.
      rewrite <- (wrap_small 32 i Hi). unfold wrap. rewrite Z.mod_pow2_bits_high by lia. done.
Qed.

(** [lopcodes.h] writes each field by shifting; disjoint fields add up. *)
Lemma lor_shift x y n : 0 <= n -> 0 <= x < 2 ^ n -> x ||| (y ≪ n) = x + y * 2 ^ n.
Proof.
  intros Hn Hx. rewrite Z.lor_comm, Z.shiftl_mul_pow2 by done.
  rewrite (lor_add_low n) by (done || apply Z.mod_mul; lia). lia.
Qed.

Lemma u32_shift v n : 0 <= n -> 0 <= v < 2 ^ (32 - n) -> n <= 32 -> u32 (u32 v ≪ n) = v ≪ n.
Proof.
  intros Hn Hv Hn32. assert (2 ^ (32 - n) <= 2 ^ 32) by (apply Z.pow_le_mono_r; lia).
  rewrite (wrap_small 32 v) by (unfold in_u; lia). apply wrap_small.
  rewrite Z.shiftl_mul_pow2 by done. unfold in_u.
  replace (2 ^ 32) with (2 ^ (32 - n) * 2 ^ n) by (rewrite <- Z.pow_add_r by lia; f_equal; lia).
  split; [lia|]. apply Z.mul_lt_mono_pos_r; lia.
Qed.

(** ** Instructions *)

Inductive instruction :=
| IABC (o : OpCode) (a b c : Z)
| IABx (o : OpCode) (a bx : Z)
| IAsBx (o : OpCode) (a sbx : Z)
| IAx (o : OpCode) (ax : Z).

Definition encode (ins : instruction) : Z :=
  match ins with
  | IABC o a b c => CREATE_ABC (opcode_Z o) a b c
  | IABx o a bx => CREATE_ABx (opcode_Z o) a bx
  | IAsBx o a sbx => CREATE_ABx (opcode_Z o) a (u32 (sbx + MAXARG_sBx))
  | IAx o ax => CREATE_Ax (opcode_Z o) ax
  end.

Definition decode (i : Z) : option instruction :=
  let m := GET_OPCODE i in
  o ← opcodes !! Z.to_nat m;
  Some match getOpMode m with
       | iABC => IABC o (GETARG_A i) (GETARG_B i) (GETARG_C i)
       | iABx => IABx o (GETARG_A i) (GETARG_Bx i)
       | iAsBx => IAsBx o (GETARG_A i) (GETARG_sBx i)
       | iAx => IAx o (GETARG_Ax i)
       end.

(** The arguments fit and the opcode has the format. *)
Definition instruction_ok (ins : instruction) : Prop :=
  match ins with
  | IABC o a b c => getOpMode (opcode_Z o) = iABC /\ 0 <= a <= MAXARG_A /\ 0 <= b <= MAXARG_B /\ 0 <= c <= MAXARG_C
  | IABx o a bx => getOpMode (opcode_Z o) = iABx /\ 0 <= a <= MAXARG_A /\ 0 <= bx <= MAXARG_Bx
  | IAsBx o a sbx => getOpMode (opcode_Z o) = iAsBx /\ 0 <= a <= MAXARG_A /\ - MAXARG_sBx <= sbx <= MAXARG_sBx + 1
  | IAx o ax => getOpMode (opcode_Z o) = iAx /\ 0 <= ax <= MAXARG_Ax
  end.

Lemma opcode_range o : 0 <= opcode_Z o < 40.
Proof. destruct o; cbn; lia. Qed.

Lemma opcodes_lookup o : opcodes !! Z.to_nat (opcode_Z o) = Some o.
Proof. by destruct o. Qed.

Lemma opcodes_inv n o : opcodes !! n = Some o -> opcode_Z o = Z.of_nat n.
Proof.
  intros H. pose proof (lookup_lt_Some _ _ _ H) as Hn. cbn in Hn.
  do 40 (destruct n as [|n]; [by injection H as <-|]). lia.
Qed.

Lemma GET_OPCODE_field i : GET_OPCODE i = i mod 64.
Proof.
  unfold GET_OPCODE. rewrite Z.shiftr_0_r. change (MASK1 SIZE_OP 0) with (Z.ones 6).
  rewrite Z.land_ones by lia. done.
Qed.

Lemma GETARG_A_field i : GETARG_A i = (i / 2 ^ 6) mod 2 ^ 8.
Proof. apply getarg_field. vm_compute. repeat split; discriminate. Qed.
Lemma GETARG_B_field i : GETARG_B i = (i / 2 ^ 23) mod 2 ^ 9.
Proof. apply getarg_field. vm_compute. repeat split; discriminate. Qed.
Lemma GETARG_C_field i : GETARG_C i = (i / 2 ^ 14) mod 2 ^ 9.
Proof. apply getarg_field. vm_compute. repeat split; discriminate. Qed.
Lemma GETARG_Bx_field i : GETARG_Bx i = (i / 2 ^ 14) mod 2 ^ 18.
Proof. apply getarg_field. vm_compute. repeat split; discriminate. Qed.
Lemma GETARG_Ax_field i : GETARG_Ax i = (i / 2 ^ 6) mod 2 ^ 26.
Proof. apply getarg_field. vm_compute. repeat split; discriminate. Qed.

Lemma CREATE_ABC_sum o a b c :
  0 <= o < 64 -> 0 <= a < 256 -> 0 <= b < 512 -> 0 <= c < 512 ->
  CREATE_ABC o a b c = o + a * 2 ^ 6 + c * 2 ^ 14 + b * 2 ^ 23.
Proof.
  intros Ho Ha Hb Hc. unfold CREATE_ABC. change POS_OP with 0. change POS_A with 6. change POS_B with 23. change POS_C with 14.
  rewrite !u32_shift by (pow2; lia). rewrite Z.shiftl_0_r, (lor_shift o a 6) by (pow2; lia).
  rewrite <- Z.lor_assoc, (Z.lor_comm (b ≪ 23)), Z.lor_assoc.
  rewrite (lor_shift _ c 14), (lor_shift _ b 23) by (pow2; lia). done.
Qed.

Lemma CREATE_ABx_sum o a bx :
  0 <= o < 64 -> 0 <= a < 256 -> 0 <= bx < 2 ^ 18 -> CREATE_ABx o a bx = o + a * 2 ^ 6 + bx * 2 ^ 14.
Proof.
  intros Ho Ha Hb. unfold CREATE_ABx. change POS_OP with 0. change POS_A with 6. change POS_Bx with 14.
  rewrite !u32_shift by (pow2; lia). rewrite Z.shiftl_0_r, (lor_shift o a 6), (lor_shift _ bx 14) by (pow2; lia). done.
Qed.

Lemma CREATE_Ax_sum o ax : 0 <= o < 64 -> 0 <= ax < 2 ^ 26 -> CREATE_Ax o ax = o + ax * 2 ^ 6.
Proof.
  intros Ho Ha. unfold CREATE_Ax. change POS_OP with 0. change POS_Ax with 6.
  rewrite !u32_shift by (pow2; lia). rewrite Z.shiftl_0_r, !lor_shift by (pow2; lia). done.
Qed.

Lemma decode_sum o r :
  0 <= r ->
  decode (opcode_Z o + r * 2 ^ 6) = let i := opcode_Z o + r * 2 ^ 6 in
    Some match getOpMode (opcode_Z o) with
         | iABC => IABC o (GETARG_A i) (GETARG_B i) (GETARG_C i)
         | iABx => IABx o (GETARG_A i) (GETARG_Bx i)
         | iAsBx => IAsBx o (GETARG_A i) (GETARG_sBx i)
         | iAx => IAx o (GETARG_Ax i)
         end.
Proof.
  intros Hr. pose proof (opcode_range o) as Ho. unfold decode.
  assert (GET_OPCODE (opcode_Z o + r * 2 ^ 6) = opcode_Z o) as ->.
  { rewrite GET_OPCODE_field. change (2 ^ 6) with 64. rewrite Z.mod_add, Z.mod_small by lia. done. }
  rewrite opcodes_lookup. done.
Qed.

(** ** Theorems *)

(** Encoding an instruction and decoding it gives it back, for every opcode
    and all arguments in the range of its format. *)
Theorem encode_decode (ins : instruction) : instruction_ok ins -> decode (encode ins) = Some ins.
Proof.
  destruct ins as [o a b c|o a bx|o a sbx|o ax]; cbn [instruction_ok encode]; intros Hok;
    pose proof (opcode_range o) as Ho.
  - destruct Hok as (Hm & Ha & Hb & Hc). change MAXARG_A with 255 in *. change MAXARG_B with 511 in *. change MAXARG_C with 511 in *.
    rewrite CREATE_ABC_sum by lia.
    replace (opcode_Z o + _ + _ + _) with (opcode_Z o + (a + c * 2 ^ 8 + b * 2 ^ 17) * 2 ^ 6) by lia.
    rewrite decode_sum, Hm by lia. cbv zeta. rewrite GETARG_A_field, GETARG_B_field, GETARG_C_field.
    clear Hm. do 2 f_equal; dlia.
  - destruct Hok as (Hm & Ha & Hb). change MAXARG_A with 255 in *. change MAXARG_Bx with (2 ^ 18 - 1) in *.
    rewrite CREATE_ABx_sum by lia.
    replace (opcode_Z o + _ + _) with (opcode_Z o + (a + bx * 2 ^ 8) * 2 ^ 6) by lia.
    rewrite decode_sum, Hm by lia. cbv zeta. rewrite GETARG_A_field, GETARG_Bx_field. clear Hm. do 2 f_equal; dlia.
  - destruct Hok as (Hm & Ha & Hb). change MAXARG_A with 255 in *. unfold GETARG_sBx in *. change MAXARG_sBx with (2 ^ 17 - 1) in *.
    rewrite (wrap_small 32) by clia. rewrite CREATE_ABx_sum by (pow2; lia).
    replace (opcode_Z o + _ + _) with (opcode_Z o + (a + (sbx + (2 ^ 17 - 1)) * 2 ^ 8) * 2 ^ 6) by lia.
    rewrite decode_sum, Hm by (pow2; lia). cbv zeta. unfold GETARG_sBx. change MAXARG_sBx with (2 ^ 17 - 1).
    rewrite GETARG_A_field, GETARG_Bx_field. clear Hm. do 2 f_equal; dlia.
  - destruct Hok as (Hm & Ha). change MAXARG_Ax with (2 ^ 26 - 1) in *.
    rewrite CREATE_Ax_sum, decode_sum, Hm by lia. cbv zeta. rewrite GETARG_Ax_field. clear Hm. do 2 f_equal; dlia.
Qed.

(** Conversely every 32-bit word with a valid opcode is the encoding of the
    instruction it decodes to. *)
Theorem decode_encode (i : Z) (ins : instruction) : in_u 32 i -> decode i = Some ins -> encode ins = i.
Proof.
  intros Hi. unfold decode. rewrite GET_OPCODE_field.
  destruct (opcodes !! Z.to_nat (i mod 64)) as [o|] eqn:Eo; cbn; [|done].
  apply opcodes_inv in Eo. rewrite Z2Nat.id in Eo by dlia.
  intros [= <-]. destruct (getOpMode (i mod 64)); cbn [encode];
    rewrite ?Eo; unfold GETARG_sBx; rewrite ?GETARG_A_field, ?GETARG_B_field, ?GETARG_C_field, ?GETARG_Bx_field, ?GETARG_Ax_field.
  - rewrite CREATE_ABC_sum by dlia. dlia.
  - rewrite CREATE_ABx_sum by dlia. dlia.
  - rewrite Z.sub_add, (wrap_small 32) by dlia. rewrite CREATE_ABx_sum by dlia. dlia.
  - rewrite CREATE_Ax_sum by dlia. dlia.
Qed.

(** Example: a conditional jump backwards. *)
Lemma encode_decode_witness : decode (encode (IAsBx OP_JMP 0 (-3))) = Some (IAsBx OP_JMP 0 (-3)).
Proof. apply encode_decode. vm_compute. repeat split; discriminate. Defined.

(** Example: [RETURN 0 1]. *)
Lemma decode_encode_witness : encode (IABC OP_RETURN 0 1 0) = 0x80001f.
Proof. apply (decode_encode 0x80001f); [clia|vm_compute; reflexivity]. Defined.

(** Setting a field of an instruction stores the low bits of the value there,
    keeps the instruction within 32 bits and leaves every disjoint field as it was. *)
Theorem setarg_getarg (i v pos size pos' size' : Z) :
  field_ok pos size -> field_ok pos' size' -> in_u 32 i ->
  getarg (setarg i v pos size) pos size = v mod 2 ^ size /\ in_u 32 (setarg i v pos size) /\
  (pos' + size' <= pos \/ pos + size <= pos' -> getarg (setarg i v pos size) pos' size' = getarg i pos' size').
Proof.
  intros Hf Hf' Hi. pose proof Hf as (Hp & Hs & Hps). pose proof Hf' as (Hp' & Hs' & Hps').
  rewrite !getarg_field by done. split; [|split].
  - apply Z.bits_inj'. intros j Hj. rewrite field_bit, setarg_bit by (done || lia).
    destruct (decide (j < size)).
    + rewrite bool_decide_eq_true_2, decide_True, Z.mod_pow2_bits_low by lia. cbn. f_equal. lia.
    + rewrite bool_decide_eq_false_2, Z.mod_pow2_bits_high by lia. done.
  - assert (setarg i v pos size = u32 (setarg i v pos size)) as E; [|rewrite E; by apply wrap_range].
    apply Z.bits_inj'. intros j Hj. unfold wrap. destruct (decide (j < 32)).
    + by rewrite Z.mod_pow2_bits_low by lia.
    + rewrite Z.mod_pow2_bits_high, setarg_bit, decide_False by (done || lia).
      rewrite <- (wrap_small 32 i Hi). unfold wrap. by rewrite Z.mod_pow2_bits_high by lia.
  - intros Hd. apply Z.bits_inj'. intros j Hj. rewrite !field_bit, setarg_bit by (done || lia).
    destruct (decide (j < size')); [|by rewrite bool_decide_eq_false_2 by lia].
    rewrite decide_False by lia. done.
Qed.

(** Example: setting A does not touch B. *)
Lemma setarg_getarg_witness :
  GETARG_A (SETARG_A 0x80001f 300) = 44 /\ GETARG_B (SETARG_A 0x80001f 300) = GETARG_B 0x80001f.
Proof.
  destruct (setarg_getarg 0x80001f 300 POS_A SIZE_A POS_B SIZE_B) as (H1 & _ & H2);
    [vm_compute; repeat split; discriminate|vm_compute; repeat split; discriminate|clia|].
  split; [exact H1|]. apply H2. vm_compute. right. discriminate.
Defined.

(** The table: an instruction whose successor must be a jump is a comparison or a
    test, and every format mask is what the opcode's row declares. *)
Lemma test_opcodes o :
  testTMode (opcode_Z o) = true <-> o = OP_EQ \/ o = OP_LT \/ o = OP_LE \/ o = OP_TEST \/ o = OP_TESTSET.
Proof. destruct o; vm_compute; naive_solver. Qed.

(** Constant operands. *)
Lemma rk_constant x : 0 <= x <= MAXINDEXRK -> ISK (RKASK x) = true /\ INDEXK (RKASK x) = x /\ RKASK x <= MAXARG_B.
Proof.
  intros Hx. change MAXINDEXRK with 255 in Hx.
  assert (RKASK x = x + 256) as Er.
  { unfold RKASK. change BITRK with (1 ≪ 8). rewrite lor_shift by (pow2; lia). done. }
  split; [|split; [|rewrite Er; change MAXARG_B with 511; lia]].
  - unfold ISK. assert (RKASK x &&& BITRK = BITRK) as ->; [|done].
    unfold RKASK. apply Z.bits_inj'. intros j Hj. rewrite Z.land_spec, Z.lor_spec. by destruct (Z.testbit x j), (Z.testbit BITRK j).
  - unfold INDEXK, RKASK. apply Z.bits_inj'. intros j Hj. rewrite Z.land_spec, Z.lor_spec, Z.lnot_spec by done.
    change BITRK with (2 ^ 8). rewrite Z.pow2_bits_eqb by lia. destruct (Z.eqb_spec 8 j) as [<-|Hne].
    + rewrite andb_false_r. symmetry. rewrite <- (wrap_small 8 x) by clia. apply Z.mod_pow2_bits_high. lia.
    + by rewrite orb_false_r, andb_true_r.
Qed.
