(* ===== verification/LuaTable.v ===== *)
(** * Lua tables ([src/dep/lua-5.2.3/src/ltable.c])

    A table has an array part for the keys [1..sizearray] and a hash part: nodes
    chained through [gnext], with a pointer [lastfree] above which no node is free.
    A new key whose main position is taken goes to a free node, or moves the
    colliding node there if that one is out of its own main position; when no node
    is free the table is rehashed.  A pointer to a node is its index, a pointer to
    a value is a [slot].

    Numbers are integers here (what the kernel stores); a double that is no
    integer, NaN and dead keys of the collector are left out, and allocation
    succeeds.  The functions that call each other through [luaH_newkey] take it as
    an argument, and [luaH_newkey] has fuel for the nesting of rehashes. *)

From S2P Require Import Prelude LuaStr.

(** ** Values *)

Inductive TValue :=
| TNil
| TBoolean (b : bool)
| TLightUserdata (p : Z)
| TNumber (n : Z)
| TString (s : bytes)
| TLCF (p : Z)             (* a light C function *)
| TObject (tag p : Z).     (* any other object, at address [p] *)

#[export] Instance TValue_eq_dec : EqDecision TValue.
Proof. solve_decision. Defined.

Definition ttisnil (v : TValue) : bool := match v with TNil => true | _ => false end.

Definition LUAI_MAXSHORTLEN : Z := 40.
Definition LUAI_HASHLIMIT : Z := 5.
Definition MAXBITS : Z := 30.
Definition MAXASIZE : Z := 1 ≪ MAXBITS.
Definition MAX_INT : Z := 2 ^ 31 - 1 - 2.

(** [twoto]. *)
Definition twoto (x : Z) : Z := 1 ≪ x.

(** [lmod(s, size)]. *)
Definition lmod (s size : Z) : Z := s &&& (size - 1).

(** ** Hash functions *)

(** The pattern of the double nearest to an integer, ties to even. *)
Definition round_even (a s : Z) : Z :=
  let q := a / 2 ^ s in
  let r := a mod 2 ^ s in
  if (2 ^ s <? 2 * r) || ((2 ^ s =? 2 * r) && Z.odd q) then q + 1 else q.

Definition double_bits (v : Z) : Z :=
  let a := Z.abs v in
  if a =? 0 then 0 else
  let e := Z.log2 a in
  let '(e, m) :=
    if e <=? 52 then (e, a * 2 ^ (52 - e))
    else let q := round_even a (e - 52) in if q =? 2 ^ 53 then (e + 1, 2 ^ 52) else (e, q) in
  (if v <? 0 then 2 ^ 63 else 0) + (e + 1023) * 2 ^ 52 + (m - 2 ^ 52).

(** [luai_hashnum]: the sum of the two halves of [n + 1.0]. *)
Definition luai_hashnum (n : Z) : Z :=
  let u := double_bits (n + 1) in
  s32 (s32 u + s32 (u ≫ 32)).

(** [hashpow2] and [hashmod], as the index of the node. *)
Definition hashpow2 (sizenode n : Z) : Z := lmod n sizenode.
Definition hashmod (sizenode n : Z) : Z := n mod ((sizenode - 1) ||| 1).

Definition hashnum (sizenode n : Z) : Z :=
  let i := luai_hashnum n in
  let i := if i <? 0 then - (if u32 i =? u32 (0 - u32 i) then 0 else i) else i in
  hashmod sizenode i.

(** [IntPoint]. *)
Definition IntPoint (p : Z) : Z := u32 p.
Definition hashpointer (sizenode p : Z) : Z := hashmod sizenode (IntPoint p).

(** [for (l1 = l; l1 >= step; l1 -= step)]: a turn per byte is enough. *)
Fixpoint hash_loop (fuel : nat) (str : bytes) (l1 step h : Z) : Z :=
  match fuel with
  | O => h
  | S fuel' =>
      if l1 >=? step then
        let c := default 0 (str !! Z.to_nat (l1 - 1)) in
        let h := Z.lxor h (u32 (u32 (h ≪ 5) + (h ≫ 2) + u8 c)) in
        hash_loop fuel' str (l1 - step) step h
      else h
  end.

Definition luaS_hash (str : bytes) (seed : Z) : Z :=
  let l := slen str in
  let h := Z.lxor seed (u32 l) in
  let step := (l ≫ LUAI_HASHLIMIT) + 1 in
  hash_loop (length str) str l step h.

(** [luaO_ceillog2]. *)
Definition log_2 : list Z :=
  [0; 1] ++ replicate 2 2 ++ replicate 4 3 ++ replicate 8 4 ++ replicate 16 5 ++
  replicate 32 6 ++ replicate 64 7 ++ replicate 128 8.

Fixpoint log_loop (fuel : nat) (l x : Z) : Z * Z :=
  match fuel with
  | O => (l, x)
  | S fuel' => if x >=? 256 then log_loop fuel' (l + 8) (x ≫ 8) else (l, x)
  end.

Definition luaO_ceillog2 (x : Z) : Z :=
  let '(l, x) := log_loop 4 0 (u32 (x - 1)) in
  l + default 0 (log_2 !! Z.to_nat x).

(** ** Tables *)

Record Node := MkNode { i_val : TValue; i_key : TValue; gnext : option nat }.

Definition dummynode_ : Node := MkNode TNil TNil None.

(** [isdummy]: the node vector is [dummynode]; [lastfree] is an index. *)
Record Table := MkTable {
  lsizenode : Z;
  array : list TValue;
  node : list Node;
  isdummy : bool;
  lastfree : nat;
}.

Definition sizenode (t : Table) : Z := twoto (lsizenode t).
Definition sizearray (t : Table) : Z := Z.of_nat (length (array t)).

Definition set_array (t : Table) (a : list TValue) : Table :=
  MkTable (lsizenode t) a (node t) (isdummy t) (lastfree t).
Definition set_node (t : Table) (ns : list Node) : Table :=
  MkTable (lsizenode t) (array t) ns (isdummy t) (lastfree t).
Definition set_lastfree (t : Table) (i : nat) : Table :=
  MkTable (lsizenode t) (array t) (node t) (isdummy t) i.

Definition gnode (t : Table) (i : nat) : res Node := of_option Undefined (node t !! i).

Definition upd_node (t : Table) (i : nat) (f : Node -> Node) : res Table :=
  nd ← gnode t i; Ok (set_node t (<[i := f nd]> (node t))).

Definition with_val (v : TValue) (nd : Node) : Node := MkNode v (i_key nd) (gnext nd).
Definition with_key (k : TValue) (nd : Node) : Node := MkNode (i_val nd) k (gnext nd).
Definition with_next (n : option nat) (nd : Node) : Node := MkNode (i_val nd) (i_key nd) n.

(** A pointer to a value of the table. *)
Inductive slot := SArray (i : nat) | SNode (i : nat).

Definition read_slot (t : Table) (s : slot) : res TValue :=
  match s with
  | SArray i => of_option Undefined (array t !! i)
  | SNode i => nd ← gnode t i; Ok (i_val nd)
  end.

Definition write_slot (t : Table) (s : slot) (v : TValue) : res Table :=
  match s with
  | SArray i => _ ← of_option Undefined (array t !! i); Ok (set_array t (<[i := v]> (array t)))
  | SNode i => upd_node t i (with_val v)
  end.

Section Table.
(** The seed of the string hashes. *)
Context (seed : Z).

(** Long strings get the same hash as short ones, when they are first used. *)
Definition mainposition (sizenode : Z) (key : TValue) : nat :=
  Z.to_nat
    match key with
    | TNumber n => hashnum sizenode n
    | TString s => hashpow2 sizenode (luaS_hash s seed)
    | TBoolean b => hashpow2 sizenode (if b then 1 else 0)
    | TLightUserdata p => hashpointer sizenode p
    | TLCF p => hashpointer sizenode p
    | TObject _ p => hashpointer sizenode p
    | TNil => 0
    end.

Definition arrayindex (key : TValue) : Z :=
  match key with
  | TNumber n => let k := s32 n in if k =? n then k else -1
  | _ => -1
  end.

(** *** Searching *)

(** The loop along a chain, from the node [n]; a chain has at most every node. *)
Fixpoint find_chain (fuel : nat) (t : Table) (same : TValue -> bool) (n : nat) : res (option slot) :=
  match fuel with
  | O => Err NoFuel
  | S fuel' =>
      nd ← gnode t n;
      if same (i_key nd) then Ok (Some (SNode n))
      else match gnext nd with
           | Some n' => find_chain fuel' t same n'
           | None => Ok None
           end
  end.

Definition search (t : Table) (same : TValue -> bool) (n : nat) : res (option slot) :=
  find_chain (length (node t)) t same n.

(** [None] is [luaO_nilobject]. *)
Definition luaH_getint (t : Table) (key : Z) : res (option slot) :=
  if u32 (key - 1) <? u32 (sizearray t) then Ok (Some (SArray (Z.to_nat (key - 1))))
  else search t (fun k => bool_decide (k = TNumber key)) (Z.to_nat (hashnum (sizenode t) key)).

Definition luaH_getstr (t : Table) (key : bytes) : res (option slot) :=
  search t (fun k => bool_decide (k = TString key)) (Z.to_nat (hashpow2 (sizenode t) (luaS_hash key seed))).

Definition get_any (t : Table) (key : TValue) : res (option slot) :=
  search t (fun k => bool_decide (k = key)) (mainposition (sizenode t) key).

Definition luaH_get (t : Table) (key : TValue) : res (option slot) :=
  match key with
  | TNil => Ok None
  | TString s => if slen s <=? LUAI_MAXSHORTLEN then luaH_getstr t s else get_any t key
  | TNumber n => let k := s32 n in if k =? n then luaH_getint t k else get_any t key
  | _ => get_any t key
  end.

Definition value_of (t : Table) (p : option slot) : res TValue :=
  match p with Some s => read_slot t s | None => Ok TNil end.

(** The value of a key. *)
Definition luaH_getvalue (t : Table) (key : TValue) : res TValue :=
  p ← luaH_get t key; value_of t p.

Definition getint_value (t : Table) (key : Z) : res TValue :=
  p ← luaH_getint t key; value_of t p.

(** *** Traversal *)

Definition findindex (t : Table) (key : TValue) : res Z :=
  if ttisnil key then Ok (-1) else
  let i := arrayindex key in
  if (0 <? i) && (i <=? sizearray t) then Ok (i - 1) else
  p ← get_any t key;
  match p with
  | Some (SNode n) => Ok (Z.of_nat n + sizearray t)
  | _ => Err LuaError
  end.

(** The first value that is not nil, from index [i]. *)
Fixpoint next_array (i : Z) (vs : list TValue) : option (TValue * TValue) :=
  match vs with
  | [] => None
  | v :: vs' => if negb (ttisnil v) then Some (TNumber (i + 1), v) else next_array (i + 1) vs'
  end.

Fixpoint next_node (ns : list Node) : option (TValue * TValue) :=
  match ns with
  | [] => None
  | nd :: ns' => if negb (ttisnil (i_val nd)) then Some (i_key nd, i_val nd) else next_node ns'
  end.

(** The next key and value; [None] at the end. *)
Definition luaH_next (t : Table) (key : TValue) : res (option (TValue * TValue)) :=
  i ← findindex t key;
  let i := i + 1 in
  match next_array i (drop (Z.to_nat i) (array t)) with
  | Some r => Ok (Some r)
  | None => Ok (next_node (drop (Z.to_nat (Z.max i (sizearray t) - sizearray t)) (node t)))
  end.

(** *** Sizes of the parts *)

(** [nums[i]]. *)
Definition nums_get (nums : list Z) (i : Z) : res Z := of_option Undefined (nums !! Z.to_nat i).
Definition nums_add (nums : list Z) (i x : Z) : res (list Z) :=
  y ← nums_get nums i; Ok (<[Z.to_nat i := y + x]> nums).

(** The result is the number of elements for the array part and its size. *)
Fixpoint computesizes_loop (fuel : nat) (nums : list Z) (narray i twotoi a na n : Z) : res (Z * Z) :=
  match fuel with
  | O => Err NoFuel
  | S fuel' =>
      if twotoi / 2 <? narray then
        x ← nums_get nums i;
        let a := if 0 <? x then a + x else a in
        let '(n, na) := if (0 <? x) && (twotoi / 2 <? a) then (twotoi, a) else (n, na) in
        if a =? narray then Ok (na, n)
        else computesizes_loop fuel' nums narray (i + 1) (twotoi * 2) a na n
      else Ok (na, n)
  end.

Definition computesizes (nums : list Z) (narray : Z) : res (Z * Z) :=
  computesizes_loop 32 nums narray 0 1 0 0 0.

Definition countint (key : TValue) (nums : list Z) : res (Z * list Z) :=
  let k := arrayindex key in
  if (0 <? k) && (k <=? MAXASIZE) then
    nums ← nums_add nums (luaO_ceillog2 k) 1; Ok (1, nums)
  else Ok (0, nums).

(** [for (; i <= lim; i++)], [n] times. *)
Fixpoint count_slice (n : nat) (t : Table) (i lc : Z) : res Z :=
  match n with
  | O => Ok lc
  | S n' =>
      v ← of_option Undefined (array t !! Z.to_nat (i - 1));
      count_slice n' t (i + 1) (if negb (ttisnil v) then lc + 1 else lc)
  end.

(** [for (lg=0, ttlg=1; lg<=MAXBITS; lg++, ttlg*=2)], [n] turns left. *)
Fixpoint numusearray_loop (n : nat) (t : Table) (lg ttlg i ause : Z) (nums : list Z) : res (Z * list Z) :=
  match n with
  | O => Ok (ause, nums)
  | S n' =>
      let lim := if sizearray t <? ttlg then sizearray t else ttlg in
      if (sizearray t <? ttlg) && (lim <? i) then Ok (ause, nums) else
      lc ← count_slice (Z.to_nat (lim - i + 1)) t i 0;
      nums ← nums_add nums lg lc;
      numusearray_loop n' t (lg + 1) (ttlg * 2) (Z.max i (lim + 1)) (ause + lc) nums
  end.

Definition numusearray (t : Table) (nums : list Z) : res (Z * list Z) :=
  numusearray_loop (Z.to_nat (MAXBITS + 1)) t 0 1 1 0 nums.

(** The nodes from the last one. *)
Fixpoint numusehash_loop (ns : list Node) (totaluse ause : Z) (nums : list Z) : res (Z * Z * list Z) :=
  match ns with
  | [] => Ok (totaluse, ause, nums)
  | nd :: ns' =>
      if negb (ttisnil (i_val nd)) then
        '(c, nums) ← countint (i_key nd) nums;
        numusehash_loop ns' (totaluse + 1) (ause + c) nums
      else numusehash_loop ns' totaluse ause nums
  end.

Definition numusehash (t : Table) (nums : list Z) (pnasize : Z) : res (Z * Z * list Z) :=
  '(totaluse, ause, nums) ← numusehash_loop (reverse (node t)) 0 0 nums;
  Ok (totaluse, pnasize + ause, nums).

(** *** Resizing *)

Definition setarrayvector (t : Table) (size : Z) : Table :=
  set_array t (resize (Z.to_nat size) TNil (array t)).

Definition setnodevector (t : Table) (size : Z) : res Table :=
  if size =? 0 then Ok (MkTable 0 (array t) [dummynode_] true 0) else
  let lsize := luaO_ceillog2 size in
  if lsize >? MAXBITS then Err LuaError else
  let size := Z.to_nat (twoto lsize) in
  Ok (MkTable lsize (array t) (replicate size (MkNode TNil TNil None)) false size).

Section Resize.
(** [luaH_newkey]. *)
Context (newkey : Table -> TValue -> res (Table * slot)).

Definition luaH_set (t : Table) (key : TValue) : res (Table * slot) :=
  p ← luaH_get t key;
  match p with Some s => Ok (t, s) | None => newkey t key end.

Definition luaH_setint (t : Table) (key : Z) (value : TValue) : res Table :=
  p ← luaH_getint t key;
  '(t, cell) ← match p with Some s => Ok (t, s) | None => newkey t (TNumber key) end;
  write_slot t cell value.

(** The elements [vs] of the vanishing slice, the first at index [i]. *)
Fixpoint reinsert_array (i : Z) (vs : list TValue) (t : Table) : res Table :=
  match vs with
  | [] => Ok t
  | v :: vs' =>
      t ← (if negb (ttisnil v) then luaH_setint t (i + 1) v else Ok t);
      reinsert_array (i + 1) vs' t
  end.

(** The nodes of the old hash part, in the order of the loop. *)
Fixpoint reinsert_nodes (ns : list Node) (t : Table) : res Table :=
  match ns with
  | [] => Ok t
  | old :: ns' =>
      t ← (if negb (ttisnil (i_val old)) then
             '(t, cell) ← luaH_set t (i_key old); write_slot t cell (i_val old)
           else Ok t);
      reinsert_nodes ns' t
  end.

Definition luaH_resize (t : Table) (nasize nhsize : Z) : res Table :=
  let oldasize := sizearray t in
  let nold := node t in
  let t := if oldasize <? nasize then setarrayvector t nasize else t in
  t ← setnodevector t nhsize;
  t ← (if nasize <? oldasize then
         let vanishing := drop (Z.to_nat nasize) (array t) in
         reinsert_array nasize vanishing (set_array t (take (Z.to_nat nasize) (array t)))
       else Ok t);
  reinsert_nodes (reverse nold) t.

Definition rehash (t : Table) (ek : TValue) : res Table :=
  let nums := replicate (Z.to_nat (MAXBITS + 1)) 0 in
  '(nasize, nums) ← numusearray t nums;
  let totaluse := nasize in
  '(n, nasize, nums) ← numusehash t nums nasize;
  let totaluse := totaluse + n in
  '(c, nums) ← countint ek nums;
  let nasize := nasize + c in
  let totaluse := totaluse + 1 in
  '(na, nasize) ← computesizes nums nasize;
  luaH_resize t nasize (totaluse - na).
End Resize.

Definition luaH_resizearray (newkey : Table -> TValue -> res (Table * slot)) (t : Table) (nasize : Z) : res Table :=
  luaH_resize newkey t nasize (if isdummy t then 0 else sizenode t).

Definition luaH_new : Table := MkTable 0 [] [dummynode_] true 0.

(** *** New keys *)

Fixpoint free_loop (ns : list Node) (lastfree : nat) : nat * option nat :=
  match lastfree with
  | O => (O, None)
  | S i =>
      match ns !! i with
      | Some nd => if ttisnil (i_key nd) then (i, Some i) else free_loop ns i
      | None => free_loop ns i
      end
  end.

Definition getfreepos (t : Table) : Table * option nat :=
  let '(i, n) := free_loop (node t) (lastfree t) in (set_lastfree t i, n).

(** [while (gnext(othern) != mp) othern = gnext(othern)]. *)
Fixpoint find_previous (fuel : nat) (t : Table) (othern mp : nat) : res nat :=
  match fuel with
  | O => Err NoFuel
  | S fuel' =>
      nd ← gnode t othern;
      match gnext nd with
      | None => Err Undefined
      | Some n => if decide (n = mp) then Ok othern else find_previous fuel' t n mp
      end
  end.

(** The colliding node [mp] goes to the free node [n]. *)
Definition move_colliding (t : Table) (othern mp n : nat) : res Table :=
  othern ← find_previous (length (node t)) t othern mp;
  t ← upd_node t othern (with_next (Some n));
  nd ← gnode t mp;
  t ← upd_node t n (fun _ => nd);
  t ← upd_node t mp (with_next None);
  upd_node t mp (with_val TNil).

(** The free node [n] is chained after [mp]. *)
Definition chain_free (t : Table) (mp n : nat) : res Table :=
  nd ← gnode t mp;
  t ← upd_node t n (with_next (gnext nd));
  upd_node t mp (with_next (Some n)).

Fixpoint luaH_newkey (fuel : nat) (t : Table) (key : TValue) : res (Table * slot) :=
  match fuel with
  | O => Err NoFuel
  | S fuel' =>
      if ttisnil key then Err LuaError else
      let mp := mainposition (sizenode t) key in
      nd ← gnode t mp;
      if negb (ttisnil (i_val nd)) || isdummy t then
        let '(t, n) := getfreepos t in
        match n with
        | None =>
            t ← rehash (luaH_newkey fuel') t key;
            luaH_set (luaH_newkey fuel') t key
        | Some n =>
            let othern := mainposition (sizenode t) (i_key nd) in
            if decide (othern <> mp) then
              t ← move_colliding t othern mp n;
              t ← upd_node t mp (with_key key); Ok (t, SNode mp)
            else
              t ← chain_free t mp n;
              t ← upd_node t n (with_key key); Ok (t, SNode n)
        end
      else
        t ← upd_node t mp (with_key key); Ok (t, SNode mp)
  end.

(** Storing a value under a key: [setobj2t(L, luaH_set(L, t, key), value)]. *)
Definition luaH_put (fuel : nat) (t : Table) (key value : TValue) : res Table :=
  '(t, cell) ← luaH_set (luaH_newkey fuel) t key;
  write_slot t cell value.

(** *** The length *)

Fixpoint linear_search (fuel : nat) (t : Table) (i : Z) : res Z :=
  match fuel with
  | O => Err NoFuel
  | S fuel' =>
      v ← getint_value t (s32 i);
      if negb (ttisnil v) then linear_search fuel' t (u32 (i + 1)) else Ok (u32 (i - 1))
  end.

(** [while (j - i > 1)], with the values of the indices [get]. *)
Fixpoint binary_search (fuel : nat) (get : Z -> res TValue) (i j : Z) : res Z :=
  match fuel with
  | O => Err NoFuel
  | S fuel' =>
      if u32 (j - i) >? 1 then
        let m := u32 (i + j) / 2 in
        v ← get m;
        if ttisnil v then binary_search fuel' get i m else binary_search fuel' get m j
      else Ok i
  end.

(** The doubling loop; [inl] is the result of the linear search. *)
Fixpoint double_search (fuel : nat) (t : Table) (i j : Z) : res (Z + Z * Z) :=
  match fuel with
  | O => Err NoFuel
  | S fuel' =>
      v ← getint_value t (s32 j);
      if negb (ttisnil v) then
        let i := j in
        let j := u32 (j * 2) in
        if j >? MAX_INT then
          r ← linear_search (S (length (array t) + length (node t))) t 1; Ok (inl r)
        else double_search fuel' t i j
      else Ok (inr (i, j))
  end.

Definition unbound_search (t : Table) (j : Z) : res Z :=
  r ← double_search 33 t j (u32 (j + 1));
  match r with
  | inl n => Ok n
  | inr (i, j) => binary_search 33 (fun m => getint_value t (s32 m)) i j
  end.

Definition luaH_getn (t : Table) : res Z :=
  let j := sizearray t in
  let last := default TNil (array t !! Z.to_nat (j - 1)) in
  if (0 <? j) && ttisnil last then
    binary_search 33 (fun m => of_option Undefined (array t !! Z.to_nat (m - 1))) 0 j
  else if isdummy t then Ok j
  else unbound_search t j.
End Table.
