(* ===== verification/LuaHash.v ===== *)
(** * The hash part of a Lua table

    The invariant of the node vector of [LuaTable] (Brent's variation of chained
    scatter): chains are acyclic and disjoint at their ends, every key is reachable
    from its main position, and a node used by a foreign key is the main position of
    no key.  The three ways [luaH_newkey] adds a key without a rehash keep it, and a
    search along a chain finds exactly the keys that are stored. *)

From stdpp Require Import relations.
From S2P Require Import Prelude LuaStr LuaTable.

(** ** Node vectors *)

Definition nd (ns : list Node) (i : nat) : Node := default dummynode_ (ns !! i).
Abbreviation key ns i := (i_key (nd ns i)).
Abbreviation val ns i := (i_val (nd ns i)).
Abbreviation nxt ns i := (gnext (nd ns i)).

Lemma nd_insert ns i x j :
  (i < length ns)%nat -> nd (<[i := x]> ns) j = if decide (j = i) then x else nd ns j.
Proof.
  intros Hi. unfold nd. destruct (decide (j = i)) as [->|Hne].
  - by rewrite list_lookup_insert_eq.
  - by rewrite list_lookup_insert_ne by done.
Qed.

Lemma nd_out ns i : (length ns <= i)%nat -> nd ns i = dummynode_.
Proof. intros H. unfold nd. by rewrite lookup_ge_None_2. Qed.

Lemma key_lt ns i : key ns i <> TNil -> (i < length ns)%nat.
Proof. intros H. destruct (decide (i < length ns)%nat); [done|]. by rewrite nd_out in H by lia. Qed.

Lemma next_lt ns i j : nxt ns i = Some j -> (i < length ns)%nat.
Proof. intros H. destruct (decide (i < length ns)%nat); [done|]. by rewrite nd_out in H by lia. Qed.

Lemma lookup_nd ns i : (i < length ns)%nat -> ns !! i = Some (nd ns i).
Proof. intros Hi. unfold nd. by destruct (lookup_lt_is_Some_2 _ _ Hi) as [x ->]. Qed.

(** One step along a chain. *)
Definition step (ns : list Node) (i j : nat) : Prop := nxt ns i = Some j.

(** ** The invariant *)

Section Hash.
Context (main : TValue -> nat).

Record hash_wf (ns : list Node) : Prop := {
  hw_main : forall k, (main k < length ns)%nat;
  hw_next : forall i j, nxt ns i = Some j -> key ns j <> TNil;
  hw_free : forall i, key ns i = TNil -> nxt ns i = None /\ val ns i = TNil;
  hw_inj : forall i j x, nxt ns i = Some x -> nxt ns j = Some x -> i = j;
  hw_rank : exists r : nat -> Z, forall i j, nxt ns i = Some j -> r j < r i;
  hw_reach : forall i, key ns i <> TNil -> rtc (step ns) (main (key ns i)) i;
  hw_home : forall i j, key ns i <> TNil -> main (key ns i) <> i -> key ns j <> TNil -> main (key ns j) <> i;
  hw_uniq : forall i j, key ns i <> TNil -> key ns i = key ns j -> i = j;
}.

(** No node has the key. *)
Definition fresh (ns : list Node) (k : TValue) : Prop := forall i, key ns i <> k.

Section Facts.
Context (ns : list Node) (W : hash_wf ns).

Lemma step_neq i j : nxt ns i = Some j -> i <> j.
Proof using W. intros H ->. destruct (hw_rank ns W) as [r Hr]. specialize (Hr _ _ H). lia. Qed.

(** A node that is not used has no predecessor and is the main position of no key. *)
Lemma free_unreachable n : key ns n = TNil -> forall i, nxt ns i <> Some n.
Proof using W. intros Hn i H. by apply (hw_next ns W i n). Qed.

Lemma free_not_main n j : key ns n = TNil -> key ns j <> TNil -> main (key ns j) <> n.
Proof using W.
  intros Hn Hj E. pose proof (hw_reach ns W j Hj) as H. rewrite E in H.
  apply rtc_inv in H as [->|(y & Hs & _)]; [done|]. unfold step in Hs. destruct (hw_free ns W n Hn). congruence.
Qed.
End Facts.

Section Insert.
Context (ns : list Node) (W : hash_wf ns) (k : TValue) (Hk : k <> TNil) (F : fresh ns k).
Context (mp : nat) (Hmain : main k = mp).

(** *** The main position has no value: the key takes the node *)

Lemma take_node_wf :
  val ns mp = TNil -> hash_wf (<[mp := with_key k (nd ns mp)]> ns).
Proof using W Hk F Hmain.
  intros Hv. pose proof (hw_main ns W k) as Hmp. rewrite Hmain in Hmp.
  assert (forall j, nxt (<[mp := with_key k (nd ns mp)]> ns) j = nxt ns j) as Hnxt.
  { intros j. rewrite nd_insert by done. by destruct (decide (j = mp)) as [->|]. }
  assert (forall j, key (<[mp := with_key k (nd ns mp)]> ns) j = if decide (j = mp) then k else key ns j) as Hkey.
  { intros j. rewrite nd_insert by done. by destruct (decide (j = mp)) as [->|]. }
  assert (forall j, val (<[mp := with_key k (nd ns mp)]> ns) j = val ns j) as Hval.
  { intros j. rewrite nd_insert by done. by destruct (decide (j = mp)) as [->|]. }
  assert (forall x y, rtc (step ns) x y -> rtc (step (<[mp := with_key k (nd ns mp)]> ns)) x y) as Hrtc.
  { intros x y. apply rtc_subrel. intros a b Hab. unfold step in *. by rewrite Hnxt. }
  split.
  - intros k'. rewrite length_insert. apply W.
  - intros i j. rewrite Hnxt, Hkey. intros H. destruct (decide (j = mp)); [done|]. by eapply hw_next.
  - intros i. rewrite Hnxt, Hkey, Hval. destruct (decide (i = mp)); [done|]. by apply W.
  - intros i j x. rewrite !Hnxt. by apply W.
  - destruct (hw_rank ns W) as [r Hr]. exists r. intros i j. rewrite Hnxt. apply Hr.
  - intros i. rewrite Hkey. destruct (decide (i = mp)) as [->|]; [intros _; rewrite Hmain; apply rtc_refl|]. intros H. by apply Hrtc, W.
  - intros i j. rewrite !Hkey. destruct (decide (i = mp)) as [->|Hi]; [done|].
    destruct (decide (j = mp)); [rewrite Hmain; congruence|]. by apply W.
  - intros i j. rewrite !Hkey. destruct (decide (i = mp)) as [->|], (decide (j = mp)) as [->|]; try done.
    + intros _ E. by destruct (F j).
    + intros _ E. by destruct (F i).
    + by apply W.
Qed.

(** *** The colliding node is at home: the key goes to a free node after it *)

Section Chain.
Context (n : nat) (Hn : (n < length ns)%nat) (Hfree : key ns n = TNil) (Hused : key ns mp <> TNil).

Definition chained : list Node :=
  let ns1 := <[n := with_next (nxt ns mp) (nd ns n)]> ns in
  let ns2 := <[mp := with_next (Some n) (nd ns1 mp)]> ns1 in
  <[n := with_key k (nd ns2 n)]> ns2.

Lemma chained_nd j :
  nd chained j =
  if decide (j = n) then MkNode TNil k (nxt ns mp)
  else if decide (j = mp) then MkNode (val ns mp) (key ns mp) (Some n) else nd ns j.
Proof using W Hmain Hn Hfree Hused.
  assert (mp <> n) as Hne by congruence. pose proof (key_lt ns mp Hused) as Hmp.
  destruct (hw_free ns W n Hfree) as [_ Hv].
  unfold chained. cbv zeta. rewrite nd_insert by (rewrite !length_insert; lia).
  destruct (decide (j = n)) as [->|].
  - rewrite nd_insert by (rewrite !length_insert; lia). rewrite decide_False by congruence.
    rewrite nd_insert, decide_True by done. unfold with_key, with_next. cbn. by rewrite Hv.
  - rewrite nd_insert by (rewrite !length_insert; lia). destruct (decide (j = mp)) as [->|].
    + rewrite nd_insert, decide_False by done. done.
    + by rewrite nd_insert, decide_False by done.
Qed.

Lemma chained_key j : key chained j = if decide (j = n) then k else key ns j.
Proof using W Hmain Hn Hfree Hused. rewrite chained_nd. destruct (decide (j = n)); [done|]. by destruct (decide (j = mp)) as [->|]. Qed.

Lemma chained_val j : val chained j = val ns j.
Proof using W Hmain Hn Hfree Hused.
  rewrite chained_nd. destruct (decide (j = n)) as [->|]; [by rewrite (proj2 (hw_free ns W n Hfree))|].
  by destruct (decide (j = mp)) as [->|].
Qed.

Lemma chained_nxt j : nxt chained j = if decide (j = n) then nxt ns mp else if decide (j = mp) then Some n else nxt ns j.
Proof using W Hmain Hn Hfree Hused. rewrite chained_nd. destruct (decide (j = n)); [done|]. by destruct (decide (j = mp)) as [->|]. Qed.

Lemma chained_rtc x y : rtc (step ns) x y -> rtc (step chained) x y.
Proof using W Hmain Hn Hfree Hused.
  intros H. induction H as [|x y z Hs _ IH]; [apply rtc_refl|]. etransitivity; [|exact IH]. unfold step in Hs.
  assert (x <> n) as Hxn by (intros ->; destruct (hw_free ns W n Hfree); congruence).
  destruct (decide (x = mp)) as [->|Hx].
  - apply rtc_l with n; [|apply rtc_once]; unfold step; rewrite chained_nxt.
    + by rewrite decide_False, decide_True by done.
    + by rewrite decide_True.
  - apply rtc_once. unfold step. by rewrite chained_nxt, !decide_False.
Qed.

Lemma chained_inj i j x : nxt chained i = Some x -> nxt chained j = Some x -> i = j.
Proof using W Hmain Hn Hfree Hused.
  rewrite !chained_nxt. pose proof (free_unreachable ns W n Hfree) as Hun. destruct (decide (x = n)) as [->|Hx].
  - assert (forall i, (if decide (i = n) then nxt ns mp else if decide (i = mp) then Some n else nxt ns i) = Some n -> i = mp) as H.
    { intros a. destruct (decide (a = n)); [by intros ?%Hun|]. destruct (decide (a = mp)); [done|]. by intros ?%Hun. }
    intros ->%H ->%H. done.
  - assert (forall i, (if decide (i = n) then nxt ns mp else if decide (i = mp) then Some n else nxt ns i) = Some x ->
      i <> mp /\ nxt ns (if decide (i = n) then mp else i) = Some x) as H.
    { intros a. destruct (decide (a = n)) as [->|]; [split; [congruence|done]|]. destruct (decide (a = mp)); [congruence|done]. }
    intros [Hi Ei]%H [Hj Ej]%H. pose proof (hw_inj ns W _ _ x Ei Ej) as E.
    destruct (decide (i = n)), (decide (j = n)); congruence.
Qed.

Lemma chained_wf : main (key ns mp) = mp -> hash_wf chained.
Proof using W Hk F Hmain Hn Hfree Hused.
  intros Hhome. assert (mp <> n) as Hne by congruence.
  split.
  - intros k'. unfold chained. rewrite !length_insert. apply W.
  - intros i j. rewrite chained_nxt, chained_key. destruct (decide (j = n)); [done|].
    destruct (decide (i = n)); [apply W|]. destruct (decide (i = mp)); [congruence|]. apply W.
  - intros i. rewrite chained_nxt, chained_key, chained_val. destruct (decide (i = n)); [done|].
    destruct (decide (i = mp)) as [->|]; [done|]. apply W.
  - intros i j x. apply chained_inj.
  - destruct (hw_rank ns W) as [r Hr]. exists (fun i => if decide (i = n) then 2 * r mp - 1 else 2 * r i).
    intros i j. rewrite chained_nxt. destruct (decide (i = n)) as [->|].
    + intros H. rewrite decide_False by (intros ->; by apply (free_unreachable ns W n Hfree mp)). specialize (Hr _ _ H). lia.
    + destruct (decide (i = mp)) as [->|].
      * intros [= <-]. rewrite decide_True by done. lia.
      * intros H. rewrite decide_False by (intros ->; by apply (free_unreachable ns W n Hfree i)). specialize (Hr _ _ H). lia.
  - intros i. rewrite chained_key. destruct (decide (i = n)) as [->|]; [|intros H; by apply chained_rtc, W].
    intros _. apply rtc_once. unfold step. rewrite Hmain. by rewrite chained_nxt, decide_False, decide_True by done.
  - intros i j. rewrite !chained_key. destruct (decide (i = n)) as [->|Hi].
    + intros _ _. destruct (decide (j = n)) as [->|]; [rewrite Hmain; congruence|]. intros. by apply (free_not_main ns W).
    + intros H1 H2. destruct (decide (j = n)) as [->|]; [rewrite Hmain; congruence|]. by apply W.
  - intros i j. rewrite !chained_key. destruct (decide (i = n)) as [->|], (decide (j = n)) as [->|]; try done.
    + intros _ E. by destruct (F j).
    + intros _ E. by destruct (F i).
    + apply W.
Qed.
End Chain.

(** *** The colliding node is not at home: it moves to the free node *)

Section Move.
Context (n : nat) (Hn : (n < length ns)%nat) (Hfree : key ns n = TNil).
Context (prev : nat) (Hprev : nxt ns prev = Some mp).

Definition moved : list Node :=
  let ns1 := <[prev := with_next (Some n) (nd ns prev)]> ns in
  let ns2 := <[n := nd ns1 mp]> ns1 in
  let ns3 := <[mp := with_next None (nd ns2 mp)]> ns2 in
  let ns4 := <[mp := with_val TNil (nd ns3 mp)]> ns3 in
  <[mp := with_key k (nd ns4 mp)]> ns4.

Lemma move_distinct : key ns mp <> TNil /\ mp <> n /\ prev <> mp /\ prev <> n.
Proof using W Hprev Hfree.
  pose proof (hw_next ns W _ _ Hprev) as Hu. split_and!; [done|congruence|by apply (step_neq ns W)|].
  intros ->. destruct (hw_free ns W n Hfree). congruence.
Qed.

Lemma moved_nd j :
  nd moved j =
  if decide (j = mp) then MkNode TNil k None
  else if decide (j = n) then nd ns mp
  else if decide (j = prev) then MkNode (val ns prev) (key ns prev) (Some n) else nd ns j.
Proof using W Hmain Hn Hfree Hprev.
  destruct move_distinct as (Hu & Hmn & Hpm & Hpn). pose proof (key_lt ns mp Hu). pose proof (next_lt ns prev mp Hprev).
  unfold moved. cbv zeta. rewrite nd_insert by (rewrite !length_insert; lia).
  rewrite (nd_insert _ mp _ mp) by (rewrite !length_insert; lia). rewrite (decide_True (P := mp = mp)) by done.
  rewrite (nd_insert _ mp _ mp) by (rewrite !length_insert; lia). rewrite (decide_True (P := mp = mp)) by done.
  destruct (decide (j = mp)) as [->|Hj]; [done|].
  do 2 (rewrite nd_insert, decide_False by (done || rewrite !length_insert; lia)).
  rewrite nd_insert by (rewrite !length_insert; lia). destruct (decide (j = n)).
  - rewrite nd_insert by done. by rewrite decide_False.
  - rewrite nd_insert by done. by destruct (decide (j = prev)) as [->|].
Qed.

Lemma moved_key j : key moved j = if decide (j = mp) then k else if decide (j = n) then key ns mp else key ns j.
Proof using W Hmain Hn Hfree Hprev.
  rewrite moved_nd. destruct (decide (j = mp)); [done|]. destruct (decide (j = n)); [done|].
  by destruct (decide (j = prev)) as [->|].
Qed.

Lemma moved_val j : val moved j = if decide (j = mp) then TNil else if decide (j = n) then val ns mp else val ns j.
Proof using W Hmain Hn Hfree Hprev.
  rewrite moved_nd. destruct (decide (j = mp)); [done|]. destruct (decide (j = n)); [done|].
  by destruct (decide (j = prev)) as [->|].
Qed.

Lemma moved_nxt j :
  nxt moved j = if decide (j = mp) then None else if decide (j = n) then nxt ns mp
                else if decide (j = prev) then Some n else nxt ns j.
Proof using W Hmain Hn Hfree Hprev.
  rewrite moved_nd. destruct (decide (j = mp)); [done|]. destruct (decide (j = n)); [done|].
  by destruct (decide (j = prev)) as [->|].
Qed.

(** Where a node is after the move. *)
Definition ren (x : nat) : nat := if decide (x = mp) then n else x.

Lemma moved_step x y : x <> n -> step ns x y -> step moved (ren x) (ren y).
Proof using W Hmain Hn Hfree Hprev.
  destruct move_distinct as (Hu & Hmn & Hpm & Hpn). intros Hx Hs. unfold step in *. rewrite moved_nxt. unfold ren.
  destruct (decide (x = mp)) as [->|Hxm].
  - rewrite decide_False, decide_True by done. rewrite decide_False by (intros ->; by apply (step_neq ns W mp mp)). done.
  - rewrite (decide_False (P := x = mp)), (decide_False (P := x = n)) by done. destruct (decide (x = prev)) as [->|Hxp].
    + rewrite Hprev in Hs. injection Hs as <-. by rewrite decide_True.
    + rewrite decide_False by (intros ->; by apply Hxp, (hw_inj ns W _ _ mp)). done.
Qed.

Lemma moved_rtc x y : x <> n -> rtc (step ns) x y -> rtc (step moved) (ren x) (ren y).
Proof using W Hmain Hn Hfree Hprev.
  intros Hx H. induction H as [|x y z Hs _ IH]; [apply rtc_refl|].
  eapply rtc_l; [by apply moved_step|]. apply IH. intros ->. by apply (free_unreachable ns W n Hfree x).
Qed.

Lemma moved_inj i j x : nxt moved i = Some x -> nxt moved j = Some x -> i = j.
Proof using W Hmain Hn Hfree Hprev.
  destruct move_distinct as (Hu & Hmn & Hpm & Hpn). pose proof (free_unreachable ns W n Hfree) as Hun.
  assert (forall i, nxt moved i = Some x ->
    if decide (x = n) then i = prev else i <> mp /\ nxt ns (if decide (i = n) then mp else i) = Some x) as H.
  { intros a. rewrite moved_nxt. destruct (decide (a = mp)) as [->|]; [done|]. destruct (decide (a = n)) as [->|].
    - intros E. rewrite decide_False by (intros ->; by apply Hun in E). done.
    - destruct (decide (a = prev)) as [->|]; [intros [= <-]; by rewrite decide_True|].
      intros E. by rewrite decide_False by (intros ->; by apply Hun in E). }
  intros Hi%H Hj%H. destruct (decide (x = n)); [congruence|]. destruct Hi as [Hi Ei], Hj as [Hj Ej].
  pose proof (hw_inj ns W _ _ x Ei Ej). destruct (decide (i = n)), (decide (j = n)); congruence.
Qed.

Lemma moved_wf : main (key ns mp) <> mp -> hash_wf moved.
Proof using W Hk F Hmain Hn Hfree Hprev.
  destruct move_distinct as (Hu & Hmn & Hpm & Hpn). intros Hforeign.
  pose proof (free_unreachable ns W n Hfree) as Hun.
  split.
  - intros k'. unfold moved. rewrite !length_insert. apply W.
  - intros i j. rewrite moved_nxt, moved_key. destruct (decide (j = mp)); [done|]. destruct (decide (j = n)) as [->|]; [done|].
    destruct (decide (i = mp)); [done|]. destruct (decide (i = n)); [apply W|]. destruct (decide (i = prev)); [congruence|apply W].
  - intros i. rewrite moved_nxt, moved_key, moved_val. destruct (decide (i = mp)); [done|]. destruct (decide (i = n)); [done|].
    destruct (decide (i = prev)) as [->|]; [|apply W]. intros E. destruct (hw_free ns W prev E). congruence.
  - intros i j x. apply moved_inj.
  - destruct (hw_rank ns W) as [r Hr]. exists (fun i => if decide (i = n) then r mp else r i).
    intros i j. rewrite moved_nxt. destruct (decide (i = mp)); [done|]. destruct (decide (i = n)) as [->|].
    + intros H. rewrite decide_False by (intros ->; by apply Hun in H). by apply Hr.
    + destruct (decide (i = prev)) as [->|].
      * intros [= <-]. rewrite decide_True by done. by apply Hr.
      * intros H. rewrite decide_False by (intros ->; by apply Hun in H). by apply Hr.
  - intros i. rewrite moved_key. destruct (decide (i = mp)) as [->|Him]; [intros _; rewrite Hmain; apply rtc_refl|].
    assert (forall a, key ns a <> TNil -> rtc (step moved) (main (key ns a)) (ren a)) as Hr.
    { intros a Ha. pose proof (moved_rtc _ _ (free_not_main ns W n a Hfree Ha) (hw_reach ns W a Ha)) as H.
      unfold ren at 1 in H. by rewrite decide_False in H by (by apply (hw_home ns W mp a)). }
    destruct (decide (i = n)) as [->|Hin]; intros Hi; specialize (Hr _ Hi); unfold ren in Hr.
    + by rewrite decide_True in Hr.
    + by rewrite decide_False in Hr.
  - intros i j. rewrite !moved_key. destruct (decide (i = mp)) as [->|Him]; [done|].
    intros Hi Hm Hj. destruct (decide (j = mp)) as [->|]; [rewrite Hmain; congruence|].
    destruct (decide (i = n)) as [->|].
    + by destruct (decide (j = n)); apply (free_not_main ns W).
    + by destruct (decide (j = n)); apply (hw_home ns W).
  - intros i j. rewrite !moved_key. intros Hi E.
    destruct (decide (i = mp)) as [->|], (decide (j = mp)) as [->|]; [done| | |].
    + by destruct (decide (j = n)); edestruct F.
    + by destruct (decide (i = n)); edestruct F.
    + destruct (decide (i = n)) as [->|], (decide (j = n)) as [->|]; [done| | |]; pose proof (hw_uniq ns W _ _ Hi E); congruence.
Qed.
End Move.
End Insert.

(** ** Chains end *)

Fixpoint chain_ends (fuel : nat) (ns : list Node) (n : nat) : Prop :=
  match fuel with
  | O => False
  | S fuel' => match nxt ns n with None => True | Some n' => chain_ends fuel' ns n' end
  end.

Lemma NoDup_bounded (l : list nat) N : NoDup l -> (forall x, x ∈ l -> (x < N)%nat) -> (length l <= N)%nat.
Proof.
  intros Hd Hl. rewrite <- (length_seq N 0). apply submseteq_length, NoDup_submseteq; [done|].
  intros x Hx. apply elem_of_seq. specialize (Hl x Hx). lia.
Qed.

Lemma chain_ends_from ns (r : nat -> Z) fuel : forall n visited,
  hash_wf ns -> (forall i j, nxt ns i = Some j -> r j < r i) ->
  NoDup visited -> (forall x, x ∈ visited -> (x < length ns)%nat /\ r n < r x) -> (n < length ns)%nat ->
  (length ns <= fuel + length visited)%nat -> chain_ends fuel ns n.
Proof.
  induction fuel as [|fuel IH]; intros n visited W Hr Hd Hv Hn Hf.
  - assert (length (n :: visited) <= length ns)%nat as Hl; [|cbn in Hl; lia].
    apply NoDup_bounded.
    + constructor; [|done]. intros Hin. destruct (Hv n Hin). lia.
    + intros x [->|Hx]%elem_of_cons; [done|]. by apply Hv.
  - cbn. destruct (nxt ns n) as [n'|] eqn:E; [|done]. apply (IH n' (n :: visited)); try done.
    + constructor; [|done]. intros Hin. destruct (Hv n Hin). lia.
    + intros x [->|Hx]%elem_of_cons; [split; [done|by apply Hr]|]. destruct (Hv x Hx). specialize (Hr _ _ E). split; [done|lia].
    + by eapply key_lt, hw_next.
    + cbn. lia.
Qed.

Lemma chain_ends_all ns n : hash_wf ns -> (n < length ns)%nat -> chain_ends (length ns) ns n.
Proof.
  intros W Hn. destruct (hw_rank ns W) as [r Hr]. apply (chain_ends_from ns r _ n []); try done.
  - constructor.
  - by intros x ?%elem_of_nil.
  - cbn. lia.
Qed.

Lemma find_chain_spec t same fuel : forall n,
  hash_wf (node t) -> (n < length (node t))%nat -> chain_ends fuel (node t) n ->
  match find_chain fuel t same n with
  | Ok (Some (SNode i)) => same (key (node t) i) = true /\ (i < length (node t))%nat
  | Ok (Some (SArray _)) => False
  | Ok None => forall i, rtc (step (node t)) n i -> same (key (node t) i) = false
  | Err _ => False
  end.
Proof.
  induction fuel as [|fuel IH]; intros n W Hn He; [done|]. cbn [find_chain chain_ends] in *. unfold gnode.
  rewrite (lookup_nd _ _ Hn). cbn [of_option mbind res_bind]. destruct (same (key (node t) n)) eqn:Es; [done|].
  destruct (nxt (node t) n) as [n'|] eqn:E.
  - assert (n' < length (node t))%nat as Hn' by (by eapply key_lt, hw_next). specialize (IH n' W Hn' He).
    destruct (find_chain fuel t same n') as [[[]|]|]; try done. intros i Hi.
    apply rtc_inv in Hi as [->|(y & Hs & Hi)]; [done|]. unfold step in Hs. apply IH. congruence.
  - intros i Hi. apply rtc_inv in Hi as [->|(y & Hs & Hi)]; [done|]. unfold step in Hs. congruence.
Qed.

(** The search for a key from its main position. *)
Lemma search_spec t k :
  hash_wf (node t) -> k <> TNil ->
  (exists i, search t (fun k' => bool_decide (k' = k)) (main k) = Ok (Some (SNode i)) /\ key (node t) i = k) \/
  (search t (fun k' => bool_decide (k' = k)) (main k) = Ok None /\ fresh (node t) k).
Proof.
  intros W Hk. pose proof (hw_main _ W k) as Hm. unfold search.
  pose proof (find_chain_spec t (fun k' => bool_decide (k' = k)) (length (node t)) (main k) W Hm (chain_ends_all _ _ W Hm)) as H.
  destruct (find_chain _ _ _ _) as [[[|i]|]|]; try done.
  - destruct H as [H%bool_decide_eq_true Hi]. left. by exists i.
  - right. split; [done|]. intros i Hi. specialize (H i). rewrite Hi, bool_decide_eq_false in H. apply H; [|done].
    rewrite <- Hi. apply (hw_reach _ W). congruence.
Qed.

Lemma find_previous_spec t mp fuel : forall n,
  hash_wf (node t) -> chain_ends fuel (node t) n -> rtc (step (node t)) n mp -> n <> mp ->
  exists prev, find_previous fuel t n mp = Ok prev /\ nxt (node t) prev = Some mp.
Proof.
  induction fuel as [|fuel IH]; intros n W He Hr Hne; [done|]. cbn [find_previous chain_ends] in *. unfold gnode.
  apply rtc_inv in Hr as [->|(y & Hs & Hr)]; [done|]. unfold step in Hs.
  rewrite (lookup_nd _ _ (next_lt _ _ _ Hs)). cbn [of_option mbind res_bind]. rewrite Hs in *.
  destruct (decide (y = mp)) as [->|Hy]; [by exists n|]. by apply IH.
Qed.

(** The search for a free node. *)
Lemma free_loop_spec ns lf :
  (lf <= length ns)%nat ->
  match free_loop ns lf with
  | (i, Some n) => i = n /\ (n < lf)%nat /\ key ns n = TNil /\ forall j, (n < j < lf)%nat -> key ns j <> TNil
  | (i, None) => forall j, (j < lf)%nat -> key ns j <> TNil
  end.
Proof.
  induction lf as [|lf IH]; intros Hl; cbn [free_loop]; [lia|]. rewrite (lookup_nd ns lf) by lia.
  destruct (ttisnil (key ns lf)) eqn:E.
  - split_and!; [done|lia|by destruct (key ns lf)|lia].
  - specialize (IH ltac:(lia)). assert (key ns lf <> TNil) as Hk by (by destruct (key ns lf)).
    destruct (free_loop ns lf) as [i [n|]].
    + destruct IH as (-> & Hn & Hf & Hu). split_and!; [done|lia|done|]. intros j Hj. destruct (decide (j = lf)) as [->|]; [done|].
      apply Hu. lia.
    + intros j Hj. destruct (decide (j = lf)) as [->|]; [done|]. apply IH. lia.
Qed.
End Hash.
