(* ===== verification/LuaTableWf.v ===== *)
(** * Lua tables as finite maps: searching, storing and new keys

    The invariant [table_wf] of a table, its contents [view] as a function from keys
    to values, and the operations that do not resize it: a search gives the slot of
    the key, a store changes the value of that key only, and [luaH_newkey] adds a key
    without a rehash as long as a node is free. *)

From stdpp Require Import relations.
From S2P Require Import Prelude LuaStr LuaTable LuaHash.

(** ** Main positions *)

Lemma twoto_pow x : 0 <= x -> twoto x = 2 ^ x.
Proof. intros. unfold twoto. by rewrite Z.shiftl_1_l. Qed.

Lemma lor_1_bound x : 0 <= x -> 0 < x ||| 1 <= x + 1.
Proof.
  intros Hx. pose proof (Z.add_lor_land x 1) as H.
  assert (0 <= x &&& 1) by (apply Z.land_nonneg; lia). split; [|lia].
  assert (0 <= x ||| 1) by (apply Z.lor_nonneg; lia).
  assert (x ||| 1 <> 0); [|lia]. intros [_ E]%Z.lor_eq_0_iff. done.
Qed.

Lemma hashmod_range N n : 1 <= N -> 0 <= hashmod N n < N.
Proof. intros HN. unfold hashmod. pose proof (lor_1_bound (N - 1)). pose proof (Z.mod_pos_bound n ((N - 1) ||| 1)). lia. Qed.

Lemma hashpow2_range ls n : 0 <= ls -> 0 <= hashpow2 (2 ^ ls) n < 2 ^ ls.
Proof.
  intros Hls. unfold hashpow2, lmod. rewrite Z.sub_1_r, <- Z.ones_equiv.
  rewrite Z.land_ones by done. apply Z.mod_pos_bound. lia.
Qed.

Lemma mainposition_range seed ls k : 0 <= ls -> (mainposition seed (2 ^ ls) k < Z.to_nat (2 ^ ls))%nat.
Proof.
  intros Hls. assert (1 <= 2 ^ ls) as H1 by lia. unfold mainposition.
  apply Z2Nat.inj_lt; [|lia|]; destruct k; try lia; unfold hashnum, hashpointer;
    first [apply hashmod_range; lia | apply hashpow2_range; lia].
Qed.

(** ** The contents of a node vector *)

Definition hview (ns : list Node) (k : TValue) : TValue :=
  match list_find (fun x => i_key x = k) ns with Some (_, x) => i_val x | None => TNil end.

Lemma hview_cases ns k :
  (exists i, key ns i = k /\ hview ns k = val ns i /\ (i < length ns)%nat) \/ (hview ns k = TNil /\ forall i, (i < length ns)%nat -> key ns i <> k).
Proof.
  unfold hview. destruct (list_find _ ns) as [[i x]|] eqn:E.
  - apply list_find_Some in E as (Hx & Hk & _). left. exists i. unfold nd. rewrite Hx. split_and!; try done. by eapply lookup_lt_Some.
  - apply list_find_None in E. right. split; [done|]. intros i Hi Hk.
    apply (Forall_lookup_1 _ _ i (nd ns i) E); [by apply lookup_nd|done].
Qed.

Section Table.
Context (seed : Z).

Abbreviation main t := (mainposition seed (sizenode t)).

Section View.
Context {mainp : TValue -> nat}.

Lemma hview_found ns i k : hash_wf mainp ns -> key ns i = k -> k <> TNil -> hview ns k = val ns i.
Proof.
  intros W Hi Hk. destruct (hview_cases ns k) as [(j & Hj & -> & _)|[_ H]].
  - by rewrite (hw_uniq _ _ W i j) by congruence.
  - exfalso. apply (H i); [|done]. apply key_lt. congruence.
Qed.

Lemma hview_fresh ns k : fresh ns k -> hview ns k = TNil.
Proof. intros F. destruct (hview_cases ns k) as [(j & Hj & _)|[? _]]; [by destruct (F j)|done]. Qed.

(** Two vectors with the same values under the same keys. *)
Lemma hview_ext ns ns' k :
  hash_wf mainp ns -> hash_wf mainp ns' -> k <> TNil ->
  (forall i, val ns i <> TNil -> exists j, key ns' j = key ns i /\ val ns' j = val ns i) ->
  (forall i, val ns' i <> TNil -> exists j, key ns j = key ns' i /\ val ns j = val ns' i) ->
  hview ns' k = hview ns k.
Proof.
  intros W W' Hk H1 H2. destruct (decide (hview ns k = TNil)) as [E|E].
  - destruct (decide (hview ns' k = TNil)) as [E'|E']; [congruence|].
    destruct (hview_cases ns' k) as [(i & Hi & Ev & _)|[? _]]; [|done]. rewrite Ev in *.
    destruct (H2 i E') as (j & Hj & Hv). rewrite <- Hv. symmetry. apply (hview_found ns j k W); congruence.
  - destruct (hview_cases ns k) as [(i & Hi & Ev & _)|[? _]]; [|done]. rewrite Ev in *.
    destruct (H1 i E) as (j & Hj & Hv). rewrite <- Hv. apply (hview_found ns' j k W'); congruence.
Qed.

(** A new value in a node that has a key. *)
Lemma set_val_wf ns i v : hash_wf mainp ns -> key ns i <> TNil -> hash_wf mainp (<[i := with_val v (nd ns i)]> ns).
Proof.
  intros W Hi. pose proof (key_lt ns i Hi) as Hl.
  assert (forall j, key (<[i := with_val v (nd ns i)]> ns) j = key ns j) as Ek.
  { intros j. rewrite nd_insert by done. by destruct (decide (j = i)) as [->|]. }
  assert (forall j, nxt (<[i := with_val v (nd ns i)]> ns) j = nxt ns j) as En.
  { intros j. rewrite nd_insert by done. by destruct (decide (j = i)) as [->|]. }
  split.
  - intros k. rewrite length_insert. apply W.
  - intros a b. rewrite En, Ek. apply W.
  - intros a. rewrite En, Ek. rewrite nd_insert by done. destruct (decide (a = i)) as [->|]; [done|]. apply W.
  - intros a b x. rewrite !En. apply W.
  - destruct (hw_rank _ _ W) as [r Hr]. exists r. intros a b. rewrite En. apply Hr.
  - intros a. rewrite Ek. intros Ha. eapply rtc_subrel; [|by apply W]. intros x y Hs. unfold step in *. by rewrite En.
  - intros a b. rewrite !Ek. apply W.
  - intros a b. rewrite !Ek. apply W.
Qed.

Lemma hview_set_val ns i v k :
  hash_wf mainp ns -> key ns i <> TNil -> k <> TNil ->
  hview (<[i := with_val v (nd ns i)]> ns) k = if decide (k = key ns i) then v else hview ns k.
Proof.
  intros W Hi Hk. pose proof (set_val_wf ns i v W Hi) as W'. pose proof (key_lt ns i Hi) as Hl.
  assert (forall j, key (<[i := with_val v (nd ns i)]> ns) j = key ns j) as Ek.
  { intros j. rewrite nd_insert by done. by destruct (decide (j = i)) as [->|]. }
  destruct (decide (k = key ns i)) as [->|Hne].
  - rewrite (hview_found _ i (key ns i) W') by (rewrite ?Ek; done). by rewrite nd_insert, decide_True by done.
  - destruct (hview_cases ns k) as [(j & Hj & -> & _)|[-> H]].
    + rewrite (hview_found _ j k W') by (rewrite ?Ek; done). by rewrite nd_insert, decide_False by (done || congruence).
    + apply hview_fresh. intros j. rewrite Ek. intros Hj. apply (H j); [|done]. apply key_lt. congruence.
Qed.
End View.

(** ** The number of used nodes *)

Definition used1 (x : Node) : nat := if ttisnil (i_key x) then 0 else 1.
Fixpoint used (ns : list Node) : nat := match ns with [] => 0 | x :: ns' => used1 x + used ns' end.

Lemma used_le ns : (used ns <= length ns)%nat.
Proof. induction ns as [|x ns IH]; cbn; [lia|]. unfold used1. destruct (ttisnil _); lia. Qed.

Lemma used1_ext x y : ttisnil (i_key x) = ttisnil (i_key y) -> used1 x = used1 y.
Proof. unfold used1. by intros ->. Qed.

Lemma used_ext ns : forall ns',
  length ns' = length ns -> (forall j, ttisnil (key ns' j) = ttisnil (key ns j)) -> used ns' = used ns.
Proof.
  induction ns as [|x ns IH]; intros [|y ns'] Hl H; try done. cbn. injection Hl as Hl.
  rewrite (used1_ext y x (H 0%nat)). f_equal. apply IH; [done|]. intros j. apply (H (S j)).
Qed.

(** Filling one more node at most. *)
Lemma used_fill ns : forall ns' n,
  length ns' = length ns -> (forall j, j <> n -> ttisnil (key ns' j) = ttisnil (key ns j)) -> (used ns' <= used ns + 1)%nat.
Proof.
  induction ns as [|x ns IH]; intros [|y ns'] n Hl H; try done; cbn; [lia|]. injection Hl as Hl. destruct n as [|n].
  - rewrite (used_ext ns ns' Hl) by (intros j; by apply (H (S j))). unfold used1.
    destruct (ttisnil (i_key y)), (ttisnil (i_key x)); lia.
  - rewrite (used1_ext y x) by (by apply (H 0%nat)). specialize (IH ns' n Hl).
    assert (used ns' <= used ns + 1)%nat; [|lia]. apply IH. intros j Hj. apply (H (S j)). lia.
Qed.

Lemma used_full ns : (forall j, (j < length ns)%nat -> key ns j <> TNil) -> used ns = length ns.
Proof.
  induction ns as [|x ns IH]; intros H; [done|]. cbn. pose proof (H 0%nat ltac:(cbn; lia)) as H0. cbn in H0.
  rewrite IH by (intros j Hj; apply (H (S j)); cbn; lia). unfold used1. by destruct (i_key x).
Qed.

(** ** The invariant *)

Definition in_array (t : Table) (k : TValue) : Prop := exists n, k = TNumber n /\ 1 <= n <= sizearray t.

#[export] Instance in_array_dec t k : Decision (in_array t k).
Proof.
  unfold in_array. destruct k as [| | |n| | |]; try (right; by intros (? & [=] & _)).
  destruct (decide (1 <= n <= sizearray t)) as [H|H].
  - left. by exists n.
  - right. by intros (? & [= <-] & ?).
Defined.

Record table_wf (t : Table) : Prop := {
  tw_hash : hash_wf (main t) (node t);
  tw_lsize : 0 <= lsizenode t <= MAXBITS;
  tw_len : Z.of_nat (length (node t)) = sizenode t;
  tw_array : sizearray t <= 2 ^ MAXBITS;
  tw_keys : forall i, ~ in_array t (key (node t) i);
  tw_dummy : isdummy t = true -> node t = [dummynode_] /\ lastfree t = 0%nat;
  tw_last : isdummy t = false ->
    (lastfree t <= length (node t))%nat /\
    forall i, (lastfree t <= i < length (node t))%nat -> key (node t) i <> TNil;
}.

(** The value of a key. *)
Definition view (t : Table) (k : TValue) : TValue :=
  match k with
  | TNumber n =>
      if decide (1 <= n <= sizearray t) then default TNil (array t !! Z.to_nat (n - 1)) else hview (node t) k
  | TNil => TNil
  | _ => hview (node t) k
  end.

Lemma view_hash t k : k <> TNil -> ~ in_array t k -> view t k = hview (node t) k.
Proof.
  intros Hk Ha. destruct k as [| | |n| | |]; try done. cbn. rewrite decide_False; [done|]. intros H. apply Ha. by exists n.
Qed.

Lemma view_array t i v : array t !! i = Some v -> view t (TNumber (Z.of_nat i + 1)) = v.
Proof.
  intros Hi. pose proof (lookup_lt_Some _ _ _ Hi). cbn. rewrite decide_True by (unfold sizearray; lia).
  replace (Z.to_nat (Z.of_nat i + 1 - 1)) with i by lia. by rewrite Hi.
Qed.

(** The slot of a key. *)
Definition slot_is (t : Table) (k : TValue) (s : slot) : Prop :=
  match s with
  | SArray i => k = TNumber (Z.of_nat i + 1) /\ (i < length (array t))%nat
  | SNode i => key (node t) i = k /\ k <> TNil
  end.

Definition absent (t : Table) (k : TValue) : Prop := ~ in_array t k /\ fresh (node t) k.

(** *** Searching *)

Lemma get_any_spec t k :
  table_wf t -> k <> TNil ->
  (exists s, get_any seed t k = Ok (Some s) /\ slot_is t k s) \/ (get_any seed t k = Ok None /\ fresh (node t) k).
Proof.
  intros W Hk. destruct (search_spec _ t k (tw_hash t W) Hk) as [(i & E & Hi)|[E F]].
  - left. exists (SNode i). by split.
  - right. by split.
Qed.

Lemma main_number N n : mainposition seed N (TNumber n) = Z.to_nat (hashnum N n).
Proof. unfold mainposition. reflexivity. Qed.

Lemma main_string N s : mainposition seed N (TString s) = Z.to_nat (hashpow2 N (luaS_hash s seed)).
Proof. unfold mainposition. reflexivity. Qed.

Lemma getint_spec t n :
  table_wf t -> in_s 32 n ->
  (exists s, luaH_getint t n = Ok (Some s) /\ slot_is t (TNumber n) s) \/
  (luaH_getint t n = Ok None /\ absent t (TNumber n)).
Proof.
  intros W Hn. pose proof (tw_array t W) as Ha. unfold luaH_getint.
  assert ((u32 (n - 1) <? u32 (sizearray t)) = bool_decide (1 <= n <= sizearray t)) as ->.
  { rewrite (wrap_small 32 (sizearray t)) by (unfold sizearray, MAXBITS in *; clia). unfold wrap.
    destruct (decide (1 <= n)) as [Hp|Hp].
    - rewrite Z.mod_small by clia. destruct (Z.ltb_spec (n - 1) (sizearray t)); symmetry; [apply bool_decide_eq_true|apply bool_decide_eq_false]; lia.
    - replace ((n - 1) mod 2 ^ 32) with (n - 1 + 2 ^ 32).
      + destruct (Z.ltb_spec (n - 1 + 2 ^ 32) (sizearray t)); symmetry; [unfold MAXBITS in *; clia|]. apply bool_decide_eq_false. lia.
      + symmetry. rewrite <- (Z.mod_add _ 1) by clia. rewrite Z.mod_small; clia. }
  rewrite <- (main_number (sizenode t) n).
  case_bool_decide as Hin.
  - left. eexists. split; [done|]. cbn. unfold sizearray in *. split; [f_equal; lia|lia].
  - destruct (search_spec _ t (TNumber n) (tw_hash t W)) as [(i & E & Hi)|[E F]]; [done| |].
    + left. exists (SNode i). rewrite E. by split.
    + right. rewrite E. split; [done|]. split; [|done]. by intros (m & [= <-] & Hm).
Qed.

Lemma get_spec t k :
  table_wf t -> k <> TNil ->
  (exists s, luaH_get seed t k = Ok (Some s) /\ slot_is t k s) \/ (luaH_get seed t k = Ok None /\ absent t k).
Proof.
  intros W Hk. assert (~ in_array t k -> (exists s, get_any seed t k = Ok (Some s) /\ slot_is t k s) \/
    (get_any seed t k = Ok None /\ absent t k)) as Hany.
  { intros Ha. destruct (get_any_spec t k W Hk) as [?|[E F]]; [by left|by right]. }
  destruct k as [|b|p|n|s|p|tag p]; try done; try (apply Hany; by intros (? & [=] & _)).
  - cbn. destruct (Z.eqb_spec (s32 n) n) as [E|E].
    + rewrite E. apply getint_spec; [done|]. rewrite <- E. apply swrap_range. lia.
    + apply Hany. intros (m & [= <-] & Hm). apply E. apply swrap_small; [lia|].
      pose proof (tw_array t W). unfold MAXBITS in *. clia.
  - cbn. destruct (slen s <=? LUAI_MAXSHORTLEN); [|apply Hany; by intros (? & [=] & _)].
    unfold luaH_getstr. rewrite <- main_string. apply Hany. by intros (? & [=] & _).
Qed.

(** *** Reading and writing a slot *)

Lemma slot_view t k s : table_wf t -> slot_is t k s -> read_slot t s = Ok (view t k).
Proof.
  intros W. destruct s as [i|i]; cbn.
  - intros [-> Hi]. destruct (lookup_lt_is_Some_2 _ _ Hi) as [v Hv]. rewrite Hv. cbn. f_equal. symmetry. by apply (view_array t i v).
  - intros [Hi Hk]. pose proof (tw_keys t W i) as Ha. rewrite Hi in Ha. unfold gnode.
    rewrite (lookup_nd _ i) by (apply key_lt; congruence). cbn. by rewrite view_hash, (hview_found _ i k (tw_hash t W)).
Qed.

Lemma absent_view t k : k <> TNil -> absent t k -> view t k = TNil.
Proof. intros Hk [Ha F]. rewrite view_hash by done. by apply hview_fresh. Qed.

Lemma getvalue_spec t k : table_wf t -> luaH_getvalue seed t k = Ok (view t k).
Proof.
  intros W. unfold luaH_getvalue. destruct (decide (k = TNil)) as [->|Hk]; [done|].
  destruct (get_spec t k W Hk) as [(s & -> & Hs)|[-> Ha]]; cbn [mbind res_bind value_of].
  - by apply slot_view.
  - by rewrite absent_view.
Qed.

Lemma getint_value_spec t n : table_wf t -> in_s 32 n -> getint_value t n = Ok (view t (TNumber n)).
Proof.
  intros W Hn. unfold getint_value. destruct (getint_spec t n W Hn) as [(s & -> & Hs)|[-> Ha]]; cbn [mbind res_bind value_of].
  - by apply slot_view.
  - by rewrite absent_view.
Qed.

(** The length of the node vector is kept, so the main positions are. *)
Lemma set_node_wf t ns :
  table_wf t -> length ns = length (node t) -> isdummy t = false -> hash_wf (main t) ns ->
  (forall i, ~ in_array t (key ns i)) ->
  (forall i, (lastfree t <= i < length ns)%nat -> key ns i <> TNil) ->
  table_wf (set_node t ns).
Proof.
  intros W Hl Hd Hh Ha Hu. split; try done.
  - apply W.
  - cbn. rewrite Hl. apply W.
  - apply W.
  - cbn. congruence.
  - intros _. cbn. split; [rewrite Hl; by apply W|done].
Qed.

Lemma dummy_no_key t i : table_wf t -> isdummy t = true -> key (node t) i = TNil.
Proof. intros W Hd. destruct (tw_dummy t W Hd) as [-> _]. by destruct i as [|[|i]]. Qed.

Lemma write_slot_spec t k s v :
  table_wf t -> slot_is t k s ->
  exists t', write_slot t s v = Ok t' /\ table_wf t' /\
    (forall k', view t' k' = if decide (k' = k) then v else view t k') /\
    sizearray t' = sizearray t /\ isdummy t' = isdummy t /\ length (node t') = length (node t) /\ used (node t') = used (node t).
Proof.
  intros W. destruct s as [i|i]; cbn [slot_is write_slot].
  - intros [-> Hi]. destruct (lookup_lt_is_Some_2 _ _ Hi) as [w Hw]. rewrite Hw. cbn [of_option mbind res_bind].
    assert (sizearray (set_array t (<[i := v]> (array t))) = sizearray t) as Hs by (unfold sizearray; cbn; by rewrite length_insert).
    eexists. split; [done|]. split; [|split; [|done]].
    + assert (forall k, in_array (set_array t (<[i := v]> (array t))) k <-> in_array t k) as Hin by (intros k; unfold in_array; by rewrite Hs).
      split; try apply W. * by rewrite Hs; apply W. * intros j. rewrite Hin. apply W.
    + intros k'. destruct k' as [| | |n| | |]; try done. cbn [view]. rewrite Hs. cbn.
      destruct (decide (1 <= n <= sizearray t)) as [Hn|Hn].
      * destruct (decide (TNumber n = TNumber (Z.of_nat i + 1))) as [[= ->]|Hne].
        -- replace (Z.to_nat (Z.of_nat i + 1 - 1)) with i by lia. by rewrite list_lookup_insert_eq.
        -- rewrite list_lookup_insert_ne; [done|]. intros ->. apply Hne. f_equal. lia.
      * rewrite decide_False; [done|]. intros [= ->]. unfold sizearray in *. lia.
  - intros [Hi Hk]. assert (i < length (node t))%nat as Hl by (apply key_lt; congruence).
    unfold upd_node, gnode. rewrite (lookup_nd _ _ Hl). cbn [of_option mbind res_bind].
    assert (isdummy t = false) as Hd.
    { destruct (isdummy t) eqn:E; [|done]. by rewrite (dummy_no_key t i W E) in Hi. }
    assert (forall j, key (<[i := with_val v (nd (node t) i)]> (node t)) j = key (node t) j) as Ek.
    { intros j. rewrite nd_insert by done. by destruct (decide (j = i)) as [->|]. }
    eexists. split; [done|]. split_and!; try done.
    + apply set_node_wf; [done|by rewrite length_insert|done| | |].
      * apply set_val_wf; [apply W|congruence].
      * intros j. rewrite Ek. apply W.
      * intros j. rewrite Ek, length_insert. by apply (tw_last t W Hd).
    + intros k'. destruct (decide (k' = TNil)) as [->|Hk']; [by rewrite decide_False|].
      destruct (decide (in_array t k')) as [Ha|Ha].
      * rewrite decide_False by (intros ->; rewrite <- Hi in Ha; by apply (tw_keys t W i)).
        destruct Ha as (n & -> & Hn). cbn. unfold sizearray in *. cbn. by rewrite !decide_True.
      * rewrite !view_hash by done. cbn. rewrite (hview_set_val _ i v k' (tw_hash t W)) by congruence. by rewrite Hi.
    + cbn. by rewrite length_insert.
    + cbn. apply used_ext; [by rewrite length_insert|]. intros j. by rewrite Ek.
Qed.

(** ** New keys *)

(** The free nodes. *)
Definition room (t : Table) : nat := if isdummy t then 0 else length (node t) - used (node t).

Lemma upd_node_ok t i f :
  (i < length (node t))%nat -> upd_node t i f = Ok (set_node t (<[i := f (nd (node t) i)]> (node t))).
Proof. intros Hi. unfold upd_node, gnode. by rewrite (lookup_nd _ _ Hi). Qed.

(** What a new key leaves: the contents, with a slot for the key. *)
Record newkey_post (t : Table) (k : TValue) (t' : Table) (s : slot) : Prop := {
  np_wf : table_wf t';
  np_slot : slot_is t' k s;
  np_view : forall k', view t' k' = view t k';
  np_array : sizearray t' = sizearray t;
  np_dummy : isdummy t' = isdummy t;
  np_len : length (node t') = length (node t);
  np_used : (used (node t') <= used (node t) + 1)%nat;
}.

(** The three cases share this: the node vector [ns] has the key in node [i], and
    the node [n] in use. *)
Lemma newkey_nodes t k ns i n lf :
  table_wf t -> k <> TNil -> absent t k -> isdummy t = false -> hash_wf (main t) ns ->
  length ns = length (node t) -> key ns i = k -> val ns i = TNil ->
  (forall j, key ns j = k \/ exists j', key ns j = key (node t) j') ->
  (forall j, val (node t) j <> TNil -> exists j', key ns j' = key (node t) j /\ val ns j' = val (node t) j) ->
  (forall j, val ns j <> TNil -> exists j', key (node t) j' = key ns j /\ val (node t) j' = val ns j) ->
  (forall j, j <> n -> ttisnil (key ns j) = ttisnil (key (node t) j)) ->
  (lf <= length ns)%nat -> (forall j, (lf <= j < length ns)%nat -> key ns j <> TNil) ->
  newkey_post t k (set_node (set_lastfree t lf) ns) (SNode i).
Proof.
  intros W Hk [Ha F] Hd Hh Hl Hi Hv Hks H1 H2 Hn Hlf Hu.
  assert (forall j, ~ in_array t (key ns j)) as Hin.
  { intros j. destruct (Hks j) as [->|[j' ->]]; [done|apply W]. }
  split; try done.
  - split; try done.
    + apply W.
    + cbn. rewrite Hl. apply W.
    + apply W.
    + cbn. congruence.
  - intros k'. destruct (decide (k' = TNil)) as [->|Hk']; [done|]. destruct (decide (in_array t k')) as [(m & -> & Hm)|Ha'].
    + cbn. unfold sizearray in *. cbn. by rewrite !decide_True.
    + rewrite !view_hash by done. cbn. by apply (hview_ext (mainp := main t)); [apply W|..].
  - cbn. by apply (used_fill _ _ n).
Qed.

Lemma take_node_case t k :
  table_wf t -> k <> TNil -> absent t k -> isdummy t = false -> val (node t) (main t k) = TNil ->
  newkey_post t k (set_node t (<[main t k := with_key k (nd (node t) (main t k))]> (node t))) (SNode (main t k)).
Proof.
  intros W Hk Hab Hd Hv. pose proof (hw_main _ _ (tw_hash t W) k) as Hmp. destruct Hab as [Ha F].
  destruct (tw_last t W Hd) as [Hlf Hu].
  assert (forall j, nd (<[main t k := with_key k (nd (node t) (main t k))]> (node t)) j =
    if decide (j = main t k) then with_key k (nd (node t) (main t k)) else nd (node t) j) as E by (intros j; by apply nd_insert).
  replace (set_node t _) with (set_node (set_lastfree t (lastfree t)) (<[main t k := with_key k (nd (node t) (main t k))]> (node t)))
    by by destruct t.
  apply (newkey_nodes t k _ _ (main t k)); try done.
  - apply (take_node_wf (main t)); [apply W|done|done|done|done].
  - by rewrite length_insert.
  - by rewrite E, decide_True.
  - by rewrite E, decide_True.
  - intros j. rewrite E. destruct (decide (j = main t k)); [by left|]. right. by exists j.
  - intros j Hj. exists j. rewrite E. by rewrite decide_False by (intros ->; congruence).
  - intros j. rewrite E. destruct (decide (j = main t k)) as [->|]; [done|]. intros _. by exists j.
  - intros j Hj. by rewrite E, decide_False.
  - by rewrite length_insert.
  - intros j. rewrite length_insert, E. intros Hj. destruct (decide (j = main t k)); [done|]. by apply Hu.
Qed.

(** The free node that was found. *)
Definition free_at (t : Table) (n : nat) : Prop :=
  (n < lastfree t)%nat /\ key (node t) n = TNil /\ forall j, (n < j < lastfree t)%nat -> key (node t) j <> TNil.

Lemma free_at_used t n j :
  table_wf t -> isdummy t = false -> free_at t n -> (n < j < length (node t))%nat -> key (node t) j <> TNil.
Proof.
  intros W Hd (Hn & _ & Hf) Hj. destruct (tw_last t W Hd) as [_ Hu].
  destruct (decide (j < lastfree t)%nat); [apply Hf; lia|apply Hu; lia].
Qed.

Lemma chained_case t k n :
  table_wf t -> k <> TNil -> absent t k -> isdummy t = false -> free_at t n ->
  key (node t) (main t k) <> TNil -> main t (key (node t) (main t k)) = main t k ->
  newkey_post t k (set_node (set_lastfree t n) (chained (node t) k (main t k) n)) (SNode n).
Proof.
  intros W Hk Hab Hd Hf Hu Hhome. pose proof Hf as (Hn & Hfree & _). pose proof Hab as [Ha F].
  assert (n < length (node t))%nat as Hl by (destruct (tw_last t W Hd); lia). pose proof (tw_hash t W) as Wh.
  pose proof (chained_key _ _ Wh k _ eq_refl n Hl Hfree Hu) as Ek. pose proof (chained_val _ _ Wh k _ eq_refl n Hl Hfree Hu) as Ev.
  destruct (hw_free _ _ Wh n Hfree) as [_ Hvn].
  apply (newkey_nodes t k _ _ n); try done.
  - by apply chained_wf.
  - unfold chained. by rewrite !length_insert.
  - by rewrite Ek, decide_True.
  - by rewrite Ev.
  - intros j. rewrite Ek. destruct (decide (j = n)); [by left|]. right. by exists j.
  - intros j Hj. exists j. rewrite Ek, Ev. by rewrite decide_False by congruence.
  - intros j. rewrite Ek, Ev. intros Hj. exists j. by rewrite decide_False by congruence.
  - intros j Hj. by rewrite Ek, decide_False.
  - unfold chained. rewrite !length_insert. lia.
  - intros j. unfold chained at 1. rewrite !length_insert, Ek. intros Hj. destruct (decide (j = n)); [done|].
    apply (free_at_used t n); [done|done|done|lia].
Qed.

Lemma moved_case t k n prev :
  table_wf t -> k <> TNil -> absent t k -> isdummy t = false -> free_at t n ->
  nxt (node t) prev = Some (main t k) -> main t (key (node t) (main t k)) <> main t k ->
  newkey_post t k (set_node (set_lastfree t n) (moved (node t) k (main t k) n prev)) (SNode (main t k)).
Proof.
  intros W Hk Hab Hd Hf Hp Hforeign. pose proof Hf as (Hn & Hfree & _). pose proof Hab as [Ha F].
  assert (n < length (node t))%nat as Hl by (destruct (tw_last t W Hd); lia). pose proof (tw_hash t W) as Wh.
  pose proof (moved_key _ _ Wh k _ eq_refl n Hl Hfree prev Hp) as Ek. pose proof (moved_val _ _ Wh k _ eq_refl n Hl Hfree prev Hp) as Ev.
  destruct (move_distinct _ _ Wh _ n Hfree prev Hp) as (Hu & Hmn & _).
  destruct (hw_free _ _ Wh n Hfree) as [_ Hvn].
  apply (newkey_nodes t k _ _ n); try done.
  - by apply moved_wf.
  - unfold moved. by rewrite !length_insert.
  - by rewrite Ek, decide_True.
  - by rewrite Ev, decide_True.
  - intros j. rewrite Ek. destruct (decide (j = main t k)); [by left|]. right. destruct (decide (j = n)); by eexists.
  - intros j Hj. destruct (decide (j = main t k)) as [->|Hjm].
    + exists n. rewrite Ek, Ev. by rewrite !(decide_False (P := n = main t k)), !decide_True by done.
    + exists j. rewrite Ek, Ev. by rewrite !decide_False by (done || congruence).
  - intros j. rewrite Ek, Ev. destruct (decide (j = main t k)); [done|]. intros Hj. destruct (decide (j = n)); by eexists.
  - intros j Hj. rewrite Ek. destruct (decide (j = main t k)) as [->|].
    + by destruct k, (key (node t) _).
    + by rewrite decide_False.
  - unfold moved. rewrite !length_insert. lia.
  - intros j. unfold moved at 1. rewrite !length_insert, Ek. intros Hj. destruct (decide (j = main t k)); [done|].
    destruct (decide (j = n)); [done|]. apply (free_at_used t n); [done|done|done|lia].
Qed.

Lemma getfreepos_spec t :
  table_wf t -> isdummy t = false ->
  match getfreepos t with
  | (t', Some n) => t' = set_lastfree t n /\ free_at t n
  | (t', None) => room t = 0%nat
  end.
Proof.
  intros W Hd. destruct (tw_last t W Hd) as [Hl Hu]. unfold getfreepos.
  pose proof (free_loop_spec (node t) (lastfree t) Hl) as H. destruct (free_loop (node t) (lastfree t)) as [i [n|]].
  - by destruct H as (-> & ? & ? & ?).
  - unfold room. rewrite Hd, used_full; [lia|]. intros j Hj. destruct (decide (j < lastfree t)%nat); [by apply H|apply Hu; lia].
Qed.

Lemma room_full t : table_wf t -> isdummy t = false -> room t = 0%nat -> forall j, (j < length (node t))%nat -> key (node t) j <> TNil.
Proof.
  intros _ Hd. unfold room. rewrite Hd. generalize (node t). clear. intros ns. induction ns as [|x ns IH]; cbn [length]; [lia|].
  intros H j Hj. pose proof (used_le ns) as Hle. cbn [used] in H. unfold used1 in H. destruct (ttisnil (i_key x)) eqn:E; [lia|].
  destruct j as [|j]; [cbn; by destruct (i_key x)|]. apply IH; lia.
Qed.

Lemma free_loop_le ns lf : ((free_loop ns lf).1 <= lf)%nat.
Proof.
  induction lf as [|lf IH]; cbn [free_loop]; [done|]. destruct (ns !! lf) as [x|]; [|lia]. destruct (ttisnil _); cbn; lia.
Qed.

(** The rehash is only needed when no node is free. *)
Lemma newkey_cases fuel t k :
  table_wf t -> k <> TNil -> absent t k ->
  (exists t' s, luaH_newkey seed (S fuel) t k = Ok (t', s) /\ newkey_post t k t' s) \/
  (room t = 0%nat /\ exists lf, table_wf (set_lastfree t lf) /\ luaH_newkey seed (S fuel) t k =
     (t ← rehash seed (luaH_newkey seed fuel) (set_lastfree t lf) k; luaH_set seed (luaH_newkey seed fuel) t k)).
Proof.
  intros W Hk Hab. pose proof (tw_hash t W) as Wh. pose proof (hw_main _ _ Wh k) as Hmp. cbn [luaH_newkey].
  assert (ttisnil k = false) as -> by by destruct k. unfold gnode. rewrite (lookup_nd _ _ Hmp). cbn [of_option mbind res_bind].
  destruct (isdummy t) eqn:Hd.
  { rewrite orb_true_r. destruct (tw_dummy t W Hd) as [_ Hlf]. unfold getfreepos. rewrite Hlf. cbn [free_loop].
    right. split; [unfold room; by rewrite Hd|]. exists 0%nat. split; [|done]. replace (set_lastfree t 0) with t; [done|].
    destruct t. cbn in Hlf. by subst. }
  rewrite orb_false_r. destruct (ttisnil (val (node t) (main t k))) eqn:Ev; cbn [negb].
  { left. rewrite upd_node_ok by done. cbn [mbind res_bind]. do 2 eexists. split; [done|]. apply take_node_case; try done.
    by destruct (val _ _). }
  assert (key (node t) (main t k) <> TNil) as Hused.
  { intros E. destruct (hw_free _ _ Wh _ E) as [_ E']. by rewrite E' in Ev. }
  pose proof (getfreepos_spec t W Hd) as Hfree. destruct (getfreepos t) as [t1 [n|]] eqn:Eg.
  2: { right. split; [done|]. unfold getfreepos in Eg. destruct (free_loop (node t) (lastfree t)) as [i o] eqn:Ef. injection Eg as <- ->.
       exists i. split; [|done]. split; try apply W; [cbn; congruence|]. intros _. cbn. split.
       - pose proof (free_loop_le (node t) (lastfree t)) as Hle. rewrite Ef in Hle. destruct (tw_last t W Hd). cbn in Hle. lia.
       - intros j Hj. apply (room_full t W Hd Hfree). lia. }
  destruct Hfree as [-> Hf]. pose proof Hf as (Hn & Hfn & _). left.
  assert (n < length (node t))%nat as Hl by (destruct (tw_last t W Hd); lia).
  change (sizenode (set_lastfree t n)) with (sizenode t). destruct (decide (main t (key (node t) (main t k)) <> main t k)) as [Hne|He].
  - pose proof (hw_main _ _ Wh (key (node t) (main t k))) as Ho.
    destruct (find_previous_spec (main t) (set_lastfree t n) (main t k) (length (node t)) (main t (key (node t) (main t k))))
      as (prev & Eprev & Hprev); [done|by apply (chain_ends_all (main t))|by apply (hw_reach _ _ Wh)|done|]. cbn [node set_lastfree] in Hprev.
    pose proof (next_lt _ _ _ Hprev) as Hpl. unfold move_colliding. cbn [node set_lastfree]. rewrite Eprev. cbn [mbind res_bind].
    rewrite upd_node_ok by done. cbn [mbind res_bind node set_node set_lastfree]. unfold gnode. cbn [node set_node set_lastfree].
    rewrite (lookup_nd _ (main t k)) by (by rewrite length_insert). cbn [of_option mbind res_bind].
    do 4 (rewrite upd_node_ok by (cbn [node set_node set_lastfree]; by rewrite !length_insert); cbn [mbind res_bind node set_node set_lastfree]).
    do 2 eexists. split; [done|]. by apply moved_case.
  - apply dec_stable in He. unfold chain_free, gnode. cbn [node set_lastfree]. rewrite (lookup_nd _ _ Hmp). cbn [of_option mbind res_bind].
    do 3 (rewrite upd_node_ok by (cbn [node set_node set_lastfree]; by rewrite ?length_insert); cbn [mbind res_bind node set_node set_lastfree]).
    do 2 eexists. split; [done|]. by apply chained_case.
Qed.

Lemma newkey_room fuel t k :
  table_wf t -> k <> TNil -> absent t k -> (0 < room t)%nat ->
  exists t' s, luaH_newkey seed (S fuel) t k = Ok (t', s) /\ newkey_post t k t' s.
Proof. intros W Hk Hab Hr. destruct (newkey_cases fuel t k W Hk Hab) as [?|[E _]]; [done|lia]. Qed.
End Table.
