(* ===== verification/LuaRehash.v ===== *)
(** * Lua tables: resizing and rehashing

    A table that is resized to an array part of [nasize] and a hash part with room
    for its other keys keeps its contents, and no rehash happens while the elements
    are inserted again.  [rehash] counts the integer keys per power of two and
    chooses sizes with room for the key that is about to be added; so the insertion
    that caused it needs no second rehash. *)

From stdpp Require Import relations.
From S2P Require Import Prelude LuaStr LuaTable LuaHash LuaTableWf.

(** ** The entries of a table *)

Fixpoint array_entries (i : Z) (vs : list TValue) : list (TValue * TValue) :=
  match vs with
  | [] => []
  | v :: vs' => (if ttisnil v then [] else [(TNumber (i + 1), v)]) ++ array_entries (i + 1) vs'
  end.

Fixpoint node_entries (ns : list Node) : list (TValue * TValue) :=
  match ns with
  | [] => []
  | x :: ns' => (if ttisnil (i_val x) then [] else [(i_key x, i_val x)]) ++ node_entries ns'
  end.

Definition entries (t : Table) : list (TValue * TValue) := array_entries 0 (array t) ++ node_entries (node t).

Lemma ttisnil_true v : ttisnil v = true <-> v = TNil.
Proof. by destruct v. Qed.
Lemma ttisnil_false v : ttisnil v = false <-> v <> TNil.
Proof. by destruct v. Qed.

Lemma elem_of_array_entries vs : forall i k v,
  (k, v) ∈ array_entries i vs <-> v <> TNil /\ exists j : nat, k = TNumber (i + Z.of_nat j + 1) /\ vs !! j = Some v.
Proof.
  induction vs as [|w vs IH]; intros i k v; cbn [array_entries].
  { rewrite elem_of_nil. split; [done|]. intros (_ & j & _ & Hj). by rewrite lookup_nil in Hj. }
  rewrite elem_of_app, IH. split.
  - intros [H|(Hv & j & -> & Hj)].
    + destruct (ttisnil w) eqn:E; [by apply elem_of_nil in H|]. apply list_elem_of_singleton in H as [= -> ->].
      apply ttisnil_false in E. split; [done|]. exists 0%nat. split; [f_equal; lia|done].
    + split; [done|]. exists (S j). split; [f_equal; lia|done].
  - intros (Hv & [|j] & -> & Hj).
    + left. injection Hj as ->. rewrite (proj2 (ttisnil_false v) Hv). apply list_elem_of_singleton. do 2 f_equal. lia.
    + right. split; [done|]. exists j. split; [f_equal; lia|done].
Qed.

Lemma elem_of_node_entries ns k v :
  (k, v) ∈ node_entries ns <-> v <> TNil /\ exists i, (i < length ns)%nat /\ key ns i = k /\ val ns i = v.
Proof.
  induction ns as [|x ns IH]; cbn [node_entries].
  { rewrite elem_of_nil. split; [done|]. intros (_ & i & Hi & _). cbn in Hi. lia. }
  rewrite elem_of_app, IH. split.
  - intros [H|(Hv & j & Hj & Hk & Hjv)].
    + destruct (ttisnil (i_val x)) eqn:E; [by apply elem_of_nil in H|]. apply list_elem_of_singleton in H as [= -> ->].
      apply ttisnil_false in E. split; [done|]. exists 0%nat. split; [cbn; lia|done].
    + split; [done|]. exists (S j). split; [cbn; lia|done].
  - intros (Hv & [|j] & Hj & Hk & Hjv).
    + left. cbn in Hk, Hjv. subst. rewrite (proj2 (ttisnil_false _) Hv). by apply list_elem_of_singleton.
    + right. split; [done|]. exists j. cbn in *. split; [lia|done].
Qed.

Lemma array_entries_NoDup vs : forall i, NoDup (array_entries i vs).*1.
Proof.
  induction vs as [|w vs IH]; intros i; cbn [array_entries]; [constructor|]. rewrite fmap_app. destruct (ttisnil w); [apply IH|].
  cbn. constructor; [|apply IH]. intros ([k v] & Hk & Hin)%list_elem_of_fmap.
  apply elem_of_array_entries in Hin as (_ & j & -> & _). cbn in Hk. injection Hk as Hk. lia.
Qed.

Lemma node_entries_NoDup mainp ns : hash_wf mainp ns -> NoDup (node_entries ns).*1.
Proof.
  intros W. pose proof (hw_uniq _ _ W) as Hu. pose proof (hw_free _ _ W) as Hf. clear W.
  induction ns as [|x ns IH]; cbn [node_entries]; [constructor|].
  assert (NoDup (node_entries ns).*1) as Hn.
  { apply IH.
    - intros i j Hi E. by injection (Hu (S i) (S j) Hi E).
    - intros i. apply (Hf (S i)). }
  rewrite fmap_app. destruct (ttisnil (i_val x)) eqn:Ev; [done|]. cbn. constructor; [|done].
  intros ([k v] & Hk & Hin)%list_elem_of_fmap. cbn in Hk. subst k. apply elem_of_node_entries in Hin as (Hv & i & Hi & Hk & _).
  assert (key (x :: ns) 0 <> TNil) as Hx by (intros E; destruct (Hf 0%nat E) as [_ E']; cbn in E'; by rewrite E' in Ev).
  by discriminate (Hu 0%nat (S i) Hx (eq_sym Hk)).
Qed.

Lemma elem_of_entries seed t k v :
  table_wf seed t -> (k, v) ∈ entries t <-> v <> TNil /\ view t k = v.
Proof.
  intros W. unfold entries. rewrite elem_of_app, elem_of_array_entries, elem_of_node_entries. pose proof (tw_hash _ _ W) as Wh. split.
  - intros [(Hv & j & -> & Hj)|(Hv & i & Hi & Hk & Hiv)]; (split; [done|]).
    + rewrite Z.add_0_l. by apply view_array.
    + assert (k <> TNil) as Hkn by (intros ->; destruct (hw_free _ _ Wh _ Hk); congruence).
      pose proof (tw_keys _ _ W i) as Ha. rewrite Hk in Ha. rewrite view_hash by done. by rewrite (hview_found _ i k Wh).
  - intros [Hv E]. destruct (decide (in_array t k)) as [(n & -> & Hn)|Ha].
    + left. split; [done|]. exists (Z.to_nat (n - 1)). split; [f_equal; lia|]. cbn in E. rewrite decide_True in E by done.
      by destruct (array t !! Z.to_nat (n - 1)); cbn in E; [congruence|].
    + right. split; [done|]. destruct (decide (k = TNil)) as [->|Hk]; [by rewrite <- E in Hv|]. rewrite view_hash in E by done.
      destruct (hview_cases (node t) k) as [(i & Hi & Ei & Hl)|[E' _]]; [|congruence]. exists i. by rewrite <- Ei.
Qed.

Lemma entries_NoDup seed t : table_wf seed t -> NoDup (entries t).*1.
Proof.
  intros W. unfold entries. rewrite fmap_app. apply NoDup_app. split_and!.
  - apply array_entries_NoDup.
  - intros k ([k1 v] & -> & H1)%list_elem_of_fmap ([k2 w] & E & H2)%list_elem_of_fmap. cbn in E. subst k2.
    apply elem_of_array_entries in H1 as (_ & j & -> & Hj). apply elem_of_node_entries in H2 as (_ & i & _ & Hk & _).
    apply (tw_keys _ _ W i). cbn in Hk. exists (Z.of_nat j + 1). rewrite Hk. pose proof (lookup_lt_Some _ _ _ Hj).
    split; [f_equal; lia|unfold sizearray; lia].
  - by eapply node_entries_NoDup, W.
Qed.

(** ** Counting keys *)

Fixpoint count (p : TValue -> bool) (ks : list TValue) : Z :=
  match ks with [] => 0 | k :: ks' => (if p k then 1 else 0) + count p ks' end.

Lemma count_app p l1 l2 : count p (l1 ++ l2) = count p l1 + count p l2.
Proof. induction l1 as [|k l1 IH]; cbn; lia. Qed.

Lemma count_range p l : 0 <= count p l <= Z.of_nat (length l).
Proof. induction l as [|k l IH]; cbn; [lia|]. destruct (p k); lia. Qed.

Lemma count_negb p l : count (fun k => negb (p k)) l = Z.of_nat (length l) - count p l.
Proof. induction l as [|k l IH]; cbn; [lia|]. destruct (p k); cbn; lia. Qed.

Lemma count_ext p q l : (forall k, p k = q k) -> count p l = count q l.
Proof. intros H. induction l as [|k l IH]; cbn; [done|]. by rewrite H, IH. Qed.

#[export] Instance count_proper p : Proper ((≡ₚ) ==> (=)) (count p).
Proof. intros l l' H. induction H; cbn; lia. Qed.

(** The keys that an array part of size [a] holds, and the others. *)
Definition inb (a : Z) (k : TValue) : bool :=
  match k with TNumber n => (1 <=? n) && (n <=? a) | _ => false end.
Definition outb (a : Z) (k : TValue) : bool := negb (inb a k).

Lemma inb_in_array t k : inb (sizearray t) k = true <-> in_array t k.
Proof.
  unfold in_array. destruct k as [| | |n| | |]; cbn; try (split; [done|by intros (? & [=] & _)]).
  rewrite andb_true_iff, !Z.leb_le. split; [intros H; by exists n|by intros (? & [= <-] & ?)].
Qed.

Lemma outb_array t k : outb (sizearray t) k = false <-> in_array t k.
Proof. unfold outb. rewrite negb_false_iff. apply inb_in_array. Qed.

Section Resize.
Context (seed : Z) (newkey : Table -> TValue -> res (Table * slot)).

(** What [luaH_newkey] does while nodes are free. *)
Hypothesis newkey_ok : forall t k,
  table_wf seed t -> k <> TNil -> absent t k -> (0 < room t)%nat ->
  exists t' s, newkey t k = Ok (t', s) /\ newkey_post seed t k t' s.

Abbreviation wf := (table_wf seed).

Definition put (t : Table) (k v : TValue) : res Table :=
  '(t, cell) ← luaH_set seed newkey t k; write_slot t cell v.

Record put_post (t : Table) (k v : TValue) (t' : Table) : Prop := {
  pp_wf : wf t';
  pp_view : forall k', view t' k' = if decide (k' = k) then v else view t k';
  pp_array : sizearray t' = sizearray t;
}.

(** Writing through a slot that was found or made. *)
Lemma put_slot t k v s :
  wf t -> slot_is t k s ->
  exists t', write_slot t s v = Ok t' /\ put_post t k v t' /\ room t' = room t.
Proof.
  intros W Hs. destruct (write_slot_spec seed t k s v W Hs) as (t' & E & W' & Hv & Ha & Hd & Hl & Hu).
  exists t'. split; [done|]. split; [done|]. unfold room. by rewrite Hd, Hl, Hu.
Qed.

Lemma newkey_slot t k v t1 s :
  newkey_post seed t k t1 s ->
  exists t', write_slot t1 s v = Ok t' /\ put_post t k v t' /\ (room t <= room t' + 1)%nat.
Proof.
  intros [W1 Hs1 Hv1 Ha1 Hd1 Hl1 Hu1]. destruct (put_slot t1 k v s W1 Hs1) as (t' & E & [W' Hv' Ha'] & Hr).
  exists t'. split; [done|]. split; [|rewrite Hr; unfold room; rewrite Hd1, Hl1; destruct (isdummy t); lia].
  split; [done| |congruence]. intros k'. rewrite Hv'. by destruct (decide (k' = k)).
Qed.

Lemma put_spec t k v :
  wf t -> k <> TNil -> (in_array t k \/ 0 < room t)%nat ->
  exists t', put t k v = Ok t' /\ put_post t k v t' /\
    Z.of_nat (room t) <= Z.of_nat (room t') + (if outb (sizearray t) k then 1 else 0).
Proof using newkey_ok.
  intros W Hk Hroom. unfold put, luaH_set. destruct (get_spec seed t k W Hk) as [(s & -> & Hs)|[-> Hab]]; cbn [mbind res_bind].
  - destruct (put_slot t k v s W Hs) as (t' & E & Hp & Hr). exists t'. split; [done|]. split; [done|].
    rewrite Hr. destruct (outb _ _); lia.
  - destruct Hroom as [Hin|Hroom]; [by destruct Hab|]. destruct (newkey_ok t k W Hk Hab Hroom) as (t1 & s & -> & Hn).
    destruct (newkey_slot t k v t1 s Hn) as (t' & E & Hp & Hr). exists t'. split; [done|]. split; [done|].
    destruct (outb (sizearray t) k) eqn:Eo; [lia|]. apply outb_array in Eo. by destruct Hab.
Qed.

(** *** Inserting a list of entries *)

Fixpoint put_all (es : list (TValue * TValue)) (t : Table) : res Table :=
  match es with
  | [] => Ok t
  | (k, v) :: es' => t ← put t k v; put_all es' t
  end.

Lemma put_all_spec es : forall t,
  wf t -> NoDup es.*1 -> (forall k v, (k, v) ∈ es -> k <> TNil) -> count (outb (sizearray t)) es.*1 <= Z.of_nat (room t) ->
  exists t', put_all es t = Ok t' /\ wf t' /\ sizearray t' = sizearray t /\
    (forall k v, (k, v) ∈ es -> view t' k = v) /\ (forall k, k ∉ es.*1 -> view t' k = view t k) /\
    Z.of_nat (room t) - count (outb (sizearray t)) es.*1 <= Z.of_nat (room t').
Proof using newkey_ok.
  induction es as [|[k v] es IH]; intros t W Hd Hk Hc; cbn [put_all].
  { exists t. split_and!; try done; [by intros ? ? ?%elem_of_nil|cbn; lia]. }
  cbn in Hd, Hc. apply NoDup_cons in Hd as [Hnin Hd]. pose proof (count_range (outb (sizearray t)) es.*1) as Hr.
  destruct (put_spec t k v W) as (t1 & -> & [W1 Hv1 Ha1] & Hr1).
  { apply (Hk k v). by left. }
  { destruct (outb (sizearray t) k) eqn:E; [right; lia|]. left. by apply outb_array. }
  cbn [mbind res_bind]. destruct (IH t1 W1 Hd) as (t' & E & W' & Ha' & Hin & Hout & Hr').
  { intros k' v' Hin. apply (Hk k' v'). by right. }
  { rewrite Ha1. lia. }
  exists t'. rewrite Ha1 in *. split_and!; try done.
  - intros k' v' [[= -> ->]|Hin']%elem_of_cons; [|by apply Hin]. rewrite Hout by done. by rewrite Hv1, decide_True.
  - intros k' [Hne Hn']%not_elem_of_cons. rewrite Hout by done. by rewrite Hv1, decide_False.
  - cbn. lia.
Qed.

(** The loops of [luaH_resize] insert the entries. *)
Lemma reinsert_nodes_entries ns : forall t, reinsert_nodes seed newkey ns t = put_all (node_entries ns) t.
Proof.
  induction ns as [|x ns IH]; intros t; cbn [reinsert_nodes node_entries]; [done|].
  destruct (ttisnil (i_val x)); cbn; [apply IH|]. unfold put. destruct (luaH_set seed newkey t (i_key x)) as [[t1 s]|]; [|done].
  cbn. destruct (write_slot t1 s (i_val x)); [|done]. apply IH.
Qed.

Lemma reinsert_array_entries vs : forall i t,
  0 <= i -> i + Z.of_nat (length vs) < 2 ^ 31 -> reinsert_array newkey i vs t = put_all (array_entries i vs) t.
Proof.
  induction vs as [|v vs IH]; intros i t Hi Hl; cbn [reinsert_array array_entries length] in *; [done|].
  destruct (ttisnil v); cbn [negb mbind res_bind app put_all]; [apply IH; lia|].
  assert (luaH_setint newkey t (i + 1) v = put t (TNumber (i + 1)) v) as ->.
  { unfold luaH_setint, put, luaH_set. cbn [luaH_get]. rewrite swrap_small by (lia || clia). rewrite Z.eqb_refl.
    by destruct (luaH_getint t (i + 1)) as [[s|]|]. }
  destruct (put t (TNumber (i + 1)) v); [|done]. apply IH; lia.
Qed.
End Resize.

(** ** [luaO_ceillog2] *)

(** The number of bits. *)
Definition nbits (x : Z) : Z := if x =? 0 then 0 else Z.log2 x + 1.

Lemma nbits_bound x : 0 <= x -> x < 2 ^ nbits x /\ (0 < x -> 2 ^ (nbits x - 1) <= x) /\ 0 <= nbits x.
Proof.
  intros Hx. unfold nbits. destruct (Z.eqb_spec x 0) as [->|]; [lia|]. pose proof (Z.log2_spec x ltac:(lia)) as [H1 H2].
  pose proof (Z.log2_nonneg x). rewrite <- Z.add_1_r in H2. split_and!; [done| |lia]. intros _. by replace (Z.log2 x + 1 - 1) with (Z.log2 x) by lia.
Qed.

Lemma log_2_table x : 0 <= x < 256 -> default 0 (log_2 !! Z.to_nat x) = nbits x.
Proof.
  intros Hx. assert (forallb (fun n => default 0 (log_2 !! n) =? nbits (Z.of_nat n)) (seq 0 256) = true) as H by (vm_compute; reflexivity).
  rewrite forallb_forall in H. specialize (H (Z.to_nat x)). rewrite Z2Nat.id in H by lia. apply Z.eqb_eq, H.
  apply list_elem_of_In, elem_of_seq. lia.
Qed.

Lemma nbits_shift x : 256 <= x -> nbits (x ≫ 8) + 8 = nbits x.
Proof.
  intros Hx. assert (Z.log2 (x ≫ 8) = Z.log2 x - 8) as E.
  { rewrite Z.log2_shiftr by lia. apply Z.max_r. pose proof (Z.log2_le_mono 256 x ltac:(lia)). change (Z.log2 256) with 8 in *. lia. }
  unfold nbits. rewrite (proj2 (Z.eqb_neq x 0)) by lia. rewrite Z.shiftr_div_pow2 in * by lia. rewrite (proj2 (Z.eqb_neq _ 0)); [lia|].
  intros H. apply Z.div_small_iff in H; [|done]. change (2 ^ 8) with 256 in H. lia.
Qed.

Lemma log_loop_bits fuel : forall l x, 0 <= x < 256 ^ Z.of_nat (S fuel) ->
  let '(l', x') := log_loop fuel l x in 0 <= x' < 256 /\ l' + nbits x' = l + nbits x.
Proof.
  induction fuel as [|fuel IH]; intros l x Hx; cbn [log_loop]; [change (256 ^ Z.of_nat 1) with 256 in Hx; lia|].
  rewrite Z.geb_leb. destruct (Z.leb_spec 256 x) as [H|H]; [|lia].
  specialize (IH (l + 8) (x ≫ 8)). destruct (log_loop fuel (l + 8) (x ≫ 8)) as [l' x'].
  destruct IH as [? E].
  - rewrite Z.shiftr_div_pow2 by lia. split; [apply Z.div_pos; lia|]. apply Z.div_lt_upper_bound; [lia|].
    rewrite (Nat2Z.inj_succ (S fuel)), Z.pow_succ_r in Hx by lia. exact (proj2 Hx).
  - split; [done|]. rewrite E. pose proof (nbits_shift x H). lia.
Qed.

Lemma ceillog2_spec x :
  1 <= x <= 2 ^ 32 -> let l := luaO_ceillog2 x in 0 <= l /\ x <= 2 ^ l /\ (l = 0 \/ 2 ^ (l - 1) < x).
Proof.
  intros Hx. cbv zeta. unfold luaO_ceillog2. rewrite wrap_small by clia.
  pose proof (log_loop_bits 4 0 (x - 1)) as H. change (256 ^ Z.of_nat 5) with (2 ^ 40) in H. specialize (H ltac:(clia)).
  destruct (log_loop 4 0 (x - 1)) as [l' x']. destruct H as [Hx' E]. rewrite log_2_table by done. rewrite E, Z.add_0_l.
  destruct (nbits_bound (x - 1)) as (H1 & H2 & H3); [lia|]. split; [done|]. split; [lia|].
  destruct (decide (x = 1)) as [->|]; [by left|]. right. specialize (H2 ltac:(lia)). lia.
Qed.

(** The logarithm is determined by its bounds. *)
Lemma log_le x l i : 0 <= i -> x <= 2 ^ i -> (l = 0 \/ 2 ^ (l - 1) < x) -> l <= i.
Proof.
  intros Hi Hx [->|Hl]; [done|]. destruct (decide (l <= i)); [done|]. assert (2 ^ i <= 2 ^ (l - 1)) by (apply Z.pow_le_mono_r; lia). lia.
Qed.

Lemma ceillog2_unique x i :
  0 <= i -> 1 <= x <= 2 ^ 32 -> x <= 2 ^ i -> (i = 0 \/ 2 ^ (i - 1) < x) -> luaO_ceillog2 x = i.
Proof. intros Hi Hx H1 H2. destruct (ceillog2_spec x Hx) as (H3 & H4 & H5). apply Z.le_antisymm; by eapply log_le. Qed.

Lemma ceillog2_max x : 1 <= x <= 2 ^ 30 -> 0 <= luaO_ceillog2 x <= 30.
Proof. intros Hx. destruct (ceillog2_spec x ltac:(clia)) as (H1 & _ & H2). split; [done|]. by apply (log_le x); [lia|lia|]. Qed.

(** ** A fresh node vector *)

Definition nil_node : Node := MkNode TNil TNil None.

Lemma nd_replicate N i : nd (replicate N nil_node) i = nil_node.
Proof.
  unfold nd. destruct (decide (i < N)%nat).
  - by rewrite lookup_replicate_2.
  - by rewrite lookup_ge_None_2 by (rewrite length_replicate; lia).
Qed.

Lemma hash_wf_fresh mainp N : (forall k, mainp k < N)%nat -> hash_wf mainp (replicate N nil_node).
Proof.
  intros Hm. split; intros *; rewrite ?nd_replicate; try done.
  - by rewrite length_replicate.
  - exists (fun _ => 0). intros i j. by rewrite nd_replicate.
Qed.

Lemma used_replicate N : used (replicate N nil_node) = 0%nat.
Proof. induction N; cbn; [done|]. lia. Qed.

Lemma setnodevector_spec seed size :
  0 <= size <= 2 ^ MAXBITS ->
  exists ls N d lf, (forall t, setnodevector t size = Ok (MkTable ls (array t) (replicate N nil_node) d lf)) /\
    forall a, Z.of_nat (length a) <= 2 ^ MAXBITS ->
      table_wf seed (MkTable ls a (replicate N nil_node) d lf) /\
      size <= Z.of_nat (room (MkTable ls a (replicate N nil_node) d lf)).
Proof.
  intros Hs. unfold setnodevector. destruct (Z.eqb_spec size 0) as [->|Hne].
  - exists 0, 1%nat, true, 0%nat. split; [done|]. intros a Ha. split; [|done]. split; try done.
    + apply hash_wf_fresh. intros k. exact (mainposition_range seed 0 k ltac:(lia)).
    + cbn [node]. intros i. rewrite nd_replicate. by intros (? & [=] & _).
  - unfold MAXBITS in *. pose proof (ceillog2_max size ltac:(lia)) as Hl. destruct (ceillog2_spec size ltac:(clia)) as (H0 & H1 & _).
    rewrite Z.gtb_ltb, (proj2 (Z.ltb_ge _ _)) by lia. rewrite twoto_pow by done. set (ls := luaO_ceillog2 size) in *.
    exists ls, (Z.to_nat (2 ^ ls)), false, (Z.to_nat (2 ^ ls)). split; [done|]. intros a Ha. split.
    + split; try done; cbn [node lsizenode sizenode lastfree isdummy].
      * apply hash_wf_fresh. intros k. unfold sizenode. cbn [lsizenode]. rewrite twoto_pow by done. by apply mainposition_range.
      * rewrite length_replicate. unfold sizenode. cbn [lsizenode]. rewrite twoto_pow by done. lia.
      * intros i. rewrite nd_replicate. by intros (? & [=] & _).
      * intros _. rewrite length_replicate. split; [lia|]. intros i Hi. lia.
    + unfold room. cbn [isdummy node]. rewrite used_replicate, length_replicate. lia.
Qed.

(** ** [luaH_resize] *)

Lemma array_entries_app a : forall i b,
  array_entries i (a ++ b) = array_entries i a ++ array_entries (i + Z.of_nat (length a)) b.
Proof.
  induction a as [|v a IH]; intros i b; cbn [app array_entries length]; [by rewrite Z.add_0_r|].
  rewrite IH, <- app_assoc. do 3 f_equal. lia.
Qed.

Lemma node_entries_reverse ns : node_entries (reverse ns) ≡ₚ node_entries ns.
Proof.
  assert (forall a b, node_entries (a ++ b) = node_entries a ++ node_entries b) as Happ.
  { intros a b. induction a as [|x a IH]; cbn [app node_entries]; [done|]. by rewrite IH, app_assoc. }
  induction ns as [|x ns IH]; [done|]. rewrite reverse_cons, Happ, IH. cbn [node_entries]. rewrite app_nil_r. apply Permutation_app_comm.
Qed.

(** The entries that are inserted again. *)
Definition moved_entries (t : Table) (nasize : Z) : list (TValue * TValue) :=
  array_entries nasize (drop (Z.to_nat nasize) (array t)) ++ node_entries (reverse (node t)).

Lemma entries_split t nasize :
  0 <= nasize -> entries t ≡ₚ array_entries 0 (take (Z.to_nat nasize) (array t)) ++ moved_entries t nasize.
Proof.
  intros Hn. unfold entries, moved_entries. rewrite node_entries_reverse, app_assoc. apply Permutation_app_tail.
  destruct (decide (Z.to_nat nasize <= length (array t))%nat).
  - rewrite <- (take_drop (Z.to_nat nasize) (array t)) at 1. rewrite array_entries_app, length_take, Nat.min_l by done.
    by rewrite Z.add_0_l, Z2Nat.id by done.
  - rewrite take_ge, drop_ge by lia. by rewrite app_nil_r.
Qed.

Lemma count_array_in n vs : Z.of_nat (length vs) <= n -> count (outb n) (array_entries 0 vs).*1 = 0.
Proof.
  intros Hn. assert (forall k, k ∈ (array_entries 0 vs).*1 -> outb n k = false) as H.
  { intros k ([k' v] & -> & Hin)%list_elem_of_fmap. apply elem_of_array_entries in Hin as (_ & j & -> & Hj). cbn.
    pose proof (lookup_lt_Some _ _ _ Hj). unfold outb. cbn. rewrite !(proj2 (Z.leb_le _ _)) by lia. done. }
  induction (array_entries 0 vs).*1 as [|k l IH]; [done|]. cbn. rewrite (H k) by by left. rewrite IH; [done|]. intros. apply H. by right.
Qed.

(** The table before the insertions: the array part cut or extended, no node used. *)
Lemma resized_view seed t ls N d lf nasize k :
  table_wf seed t -> 0 <= nasize ->
  let t0 := MkTable ls (resize (Z.to_nat nasize) TNil (array t)) (replicate N nil_node) d lf in
  (view t0 k = TNil /\ k ∉ (array_entries 0 (take (Z.to_nat nasize) (array t))).*1) \/
  (view t0 k = view t k /\ view t k <> TNil).
Proof.
  intros W Hn t0. assert (sizearray t0 = nasize) as Hs by (unfold sizearray; cbn; rewrite length_resize; lia).
  assert (forall v j, take (Z.to_nat nasize) (array t) !! j = Some v -> view t0 (TNumber (Z.of_nat j + 1)) = v /\ array t !! j = Some v) as Hview.
  { intros v j Hj. apply lookup_take_Some in Hj as [Hj Hlt]. split; [|done]. apply view_array. cbn. rewrite lookup_resize; [done|lia|].
    by eapply lookup_lt_Some. }
  destruct (decide (view t0 k = TNil)) as [E|E].
  - left. split; [done|]. intros ([k' v] & -> & Hin)%list_elem_of_fmap. apply elem_of_array_entries in Hin as (Hv & j & -> & Hj).
    destruct (Hview v j Hj) as [Ev _]. cbn [fst] in *. rewrite Z.add_0_l in *. congruence.
  - right. assert (hview (replicate N nil_node) k = TNil) as Hh.
    { destruct (hview_cases (replicate N nil_node) k) as [(i & _ & -> & _)|[-> _]]; [|done]. by rewrite nd_replicate. }
    assert (exists n, k = TNumber n /\ 1 <= n <= nasize) as (n & -> & Hin).
    { destruct (decide (in_array t0 k)) as [(n & -> & H)|Ha]; [exists n; by rewrite Hs in H|].
      exfalso. apply E. destruct (decide (k = TNil)) as [->|]; [done|]. by rewrite view_hash. }
    assert (n = Z.of_nat (Z.to_nat (n - 1)) + 1) as En by lia.
    destruct (take (Z.to_nat nasize) (array t) !! Z.to_nat (n - 1)) as [v|] eqn:Et.
    + destruct (Hview v _ Et) as [Ev Ea]. rewrite <- En in Ev. pose proof (view_array t _ v Ea) as Ev'. rewrite <- En in Ev'.
      split; congruence.
    + exfalso. apply E. cbn. rewrite Hs, decide_True by done. apply lookup_ge_None_1 in Et. rewrite length_take in Et.
      rewrite lookup_resize_new by lia. done.
Qed.

Section ResizeSpec.
Context (seed : Z) (newkey : Table -> TValue -> res (Table * slot)).
Hypothesis newkey_ok : forall t k,
  table_wf seed t -> k <> TNil -> absent t k -> (0 < room t)%nat ->
  exists t' s, newkey t k = Ok (t', s) /\ newkey_post seed t k t' s.

Lemma resize_unfold t nasize nhsize ls N d lf :
  0 <= nasize -> sizearray t < 2 ^ 31 ->
  (forall a, setnodevector (set_array t a) nhsize = Ok (MkTable ls a (replicate N nil_node) d lf)) ->
  luaH_resize seed newkey t nasize nhsize =
  put_all seed newkey (moved_entries t nasize)
    (MkTable ls (resize (Z.to_nat nasize) TNil (array t)) (replicate N nil_node) d lf).
Proof.
  intros Hn Hlt Hset. unfold luaH_resize, moved_entries, setarrayvector.
  assert (forall es1 es2 u, put_all seed newkey (es1 ++ es2) u = (u ← put_all seed newkey es1 u; put_all seed newkey es2 u)) as Happ.
  { induction es1 as [|[k v] es1 IH]; intros es2 u; cbn [app put_all]; [done|]. destruct (put seed newkey u k v); [|done]. apply IH. }
  rewrite Happ. unfold sizearray in *. destruct (Z.ltb_spec (Z.of_nat (length (array t))) nasize).
  - rewrite Hset. cbn [mbind res_bind]. rewrite (proj2 (Z.ltb_ge _ _)) by lia. rewrite drop_ge by lia. cbn [array_entries put_all mbind res_bind].
    apply reinsert_nodes_entries.
  - replace t with (set_array t (array t)) at 1 by by destruct t. rewrite Hset. cbn [mbind res_bind array].
    destruct (Z.ltb_spec nasize (Z.of_nat (length (array t)))).
    + rewrite reinsert_array_entries with (seed := seed) by (rewrite ?length_drop; lia). unfold set_array. cbn [lsizenode node isdummy lastfree].
      rewrite resize_le by lia. destruct (put_all _ _ _ _); [|done]. cbn. apply reinsert_nodes_entries.
    + rewrite drop_ge, resize_all_alt by lia. cbn [array_entries put_all mbind res_bind]. apply reinsert_nodes_entries.
Qed.

Lemma resize_spec t nasize nhsize :
  table_wf seed t -> 0 <= nasize <= 2 ^ MAXBITS -> 0 <= nhsize <= 2 ^ MAXBITS ->
  count (outb nasize) (entries t).*1 <= nhsize ->
  exists t', luaH_resize seed newkey t nasize nhsize = Ok t' /\ table_wf seed t' /\ sizearray t' = nasize /\
    (forall k, view t' k = view t k) /\ nhsize - count (outb nasize) (entries t).*1 <= Z.of_nat (room t').
Proof using newkey_ok.
  intros W Hna Hnh Hc. destruct (setnodevector_spec seed nhsize Hnh) as (ls & N & d & lf & Eset & Hset).
  rewrite (resize_unfold t nasize nhsize ls N d lf); [|lia|pose proof (tw_array _ _ W); unfold MAXBITS in *; clia|intros a; apply Eset].
  set (t0 := MkTable ls _ _ d lf). destruct (Hset (resize (Z.to_nat nasize) TNil (array t))) as [W0 Hr0]; [rewrite length_resize; lia|].
  fold t0 in W0, Hr0. assert (sizearray t0 = nasize) as Hs by (unfold sizearray; cbn; rewrite length_resize; lia).
  pose proof (entries_split t nasize ltac:(lia)) as Hsplit. set (es := moved_entries t nasize) in *.
  set (kept := array_entries 0 (take (Z.to_nat nasize) (array t))) in *.
  pose proof (entries_NoDup _ _ W) as Hnd. rewrite Hsplit, fmap_app, NoDup_app in Hnd. destruct Hnd as (_ & Hdis & Hnd).
  assert (count (outb nasize) (entries t).*1 = count (outb nasize) es.*1) as Hcount.
  { rewrite Hsplit, fmap_app, count_app. unfold kept. rewrite count_array_in by (rewrite length_take; lia). lia. }
  assert (forall k v, (k, v) ∈ es -> v <> TNil /\ view t k = v) as Hes.
  { intros k v Hin. apply (elem_of_entries _ _ _ _ W). rewrite Hsplit. apply elem_of_app. by right. }
  destruct (put_all_spec seed newkey newkey_ok es t0 W0 Hnd) as (t' & E & W' & Hs' & Hin & Hout & Hr').
  { intros k v Hkv ->. destruct (Hes _ _ Hkv) as [Hv E]. cbn in E. congruence. }
  { rewrite Hs. lia. }
  exists t'. rewrite Hs in *. split_and!; try done; [|lia]. intros k.
  destruct (decide (k ∈ es.*1)) as [([k' v] & -> & Hkv)%list_elem_of_fmap|Hk].
  - cbn [fst]. rewrite (Hin k' v Hkv). symmetry. by apply Hes.
  - rewrite Hout by done. destruct (resized_view seed t ls N d lf nasize k W ltac:(lia)) as [[E0 Hnk]|[E0 _]]; fold t0 in E0; [|done].
    rewrite E0. destruct (decide (view t k = TNil)) as [?|Hv]; [done|]. exfalso.
    assert ((k, view t k) ∈ entries t) as He by (by apply (elem_of_entries _ _ _ _ W)). rewrite Hsplit in He.
    apply elem_of_app in He as [He|He]; [apply Hnk|apply Hk]; apply list_elem_of_fmap; by exists (k, view t k).
Qed.
End ResizeSpec.

(** ** Counting the keys per power of two *)

(** The keys counted in [nums[i]]. *)
Definition sliceb (i : Z) (k : TValue) : bool :=
  match k with TNumber z => (1 <=? z) && (z <=? 2 ^ i) && ((i =? 0) || (2 ^ (i - 1) <? z)) | _ => false end.

Record nums_ok (nums : list Z) (ks : list TValue) : Prop := {
  no_len : length nums = 31%nat;
  no_get : forall i, 0 <= i <= 30 -> nums !! Z.to_nat i = Some (count (sliceb i) ks);
}.

#[export] Instance nums_ok_proper nums : Proper ((≡ₚ) ==> iff) (nums_ok nums).
Proof.
  assert (forall l l', l ≡ₚ l' -> nums_ok nums l -> nums_ok nums l') as H.
  { intros l l' Hp [H1 H2]. split; [done|]. intros i Hi. rewrite <- Hp. by apply H2. }
  intros l l' Hp. split; by apply H.
Qed.

(** Adding keys of one slice. *)
Lemma nums_add_spec nums ks i new :
  nums_ok nums ks -> 0 <= i <= 30 -> (forall j, 0 <= j <= 30 -> count (sliceb j) new = if decide (j = i) then Z.of_nat (length new) else 0) ->
  exists nums', nums_add nums i (Z.of_nat (length new)) = Ok nums' /\ nums_ok nums' (new ++ ks).
Proof.
  intros [Hl Hg] Hi Hnew. unfold nums_add, nums_get. rewrite Hg by done. cbn [of_option mbind res_bind].
  eexists. split; [done|]. split; [by rewrite length_insert|]. intros j Hj. rewrite count_app, Hnew by done. destruct (decide (j = i)) as [->|Hne].
  - rewrite list_lookup_insert_eq by lia. f_equal. lia.
  - rewrite list_lookup_insert_ne by lia. rewrite Hg by done. done.
Qed.

Lemma sliceb_number i z : 0 <= i <= 30 -> 1 <= z <= 2 ^ 30 -> sliceb i (TNumber z) = bool_decide (luaO_ceillog2 z = i).
Proof.
  intros Hi Hz. cbn. rewrite (proj2 (Z.leb_le 1 z)) by lia. cbn [andb]. destruct (ceillog2_spec z ltac:(clia)) as (H0 & H1 & H2).
  case_bool_decide as E.
  - subst i. rewrite (proj2 (Z.leb_le _ _)) by lia. destruct H2 as [->|H2]; [done|]. rewrite (proj2 (Z.ltb_lt _ _)) by lia. apply orb_true_r.
  - apply not_true_iff_false. rewrite andb_true_iff, orb_true_iff, Z.leb_le, Z.eqb_eq, Z.ltb_lt. intros [H3 H4].
    exact (E (ceillog2_unique z i ltac:(lia) ltac:(lia) H3 H4)).
Qed.

Lemma sliceb_out i k : 0 <= i <= 30 -> inb MAXASIZE k = false -> sliceb i k = false.
Proof.
  intros Hi Hk. destruct k as [| | |z| | |]; try done. cbn in *. change MAXASIZE with (2 ^ 30) in Hk. apply not_true_iff_false.
  rewrite !andb_true_iff, !Z.leb_le. intros [[H1 H2] _]. apply andb_false_iff in Hk as [Hk|Hk]; apply Z.leb_gt in Hk; [lia|].
  assert (2 ^ i <= 2 ^ 30) by (apply Z.pow_le_mono_r; lia). lia.
Qed.

Lemma arrayindex_inb k : (0 <? arrayindex k) && (arrayindex k <=? MAXASIZE) = inb MAXASIZE k.
Proof.
  destruct k as [| | |z| | |]; try done. cbn. change MAXASIZE with (2 ^ 30). destruct (Z.eqb_spec (s32 z) z) as [->|Hne].
  - f_equal. destruct (Z.ltb_spec 0 z), (Z.leb_spec 1 z); lia || done.
  - symmetry. apply not_true_iff_false. rewrite andb_true_iff, !Z.leb_le. intros [H1 H2]. apply Hne, swrap_small; [lia|clia].
Qed.

Lemma countint_spec k nums ks :
  nums_ok nums ks ->
  exists nums', countint k nums = Ok (if inb MAXASIZE k then 1 else 0, nums') /\ nums_ok nums' (k :: ks).
Proof.
  intros Hok. unfold countint. rewrite arrayindex_inb. destruct (inb MAXASIZE k) eqn:E.
  - destruct k as [| | |z| | |]; try done. assert (1 <= z <= 2 ^ 30) as Hz.
    { cbn in E. apply andb_true_iff in E as [?%Z.leb_le ?%Z.leb_le]. done. }
    unfold arrayindex. rewrite swrap_small by (lia || clia). rewrite Z.eqb_refl. pose proof (ceillog2_max z Hz) as Hl.
    destruct (nums_add_spec nums ks (luaO_ceillog2 z) [TNumber z] Hok Hl) as (nums' & E' & Hok').
    { intros j Hj. cbn [count length]. rewrite sliceb_number by done. case_bool_decide as Ej; [rewrite decide_True by done; lia|].
      by rewrite decide_False by congruence. }
    change (Z.of_nat (length [TNumber z])) with 1 in E'. rewrite E'. cbn [mbind res_bind]. by exists nums'.
  - exists nums. split; [done|]. destruct Hok as [Hl Hg]. split; [done|]. intros i Hi. cbn [count]. rewrite sliceb_out by done. by apply Hg.
Qed.

Lemma numusehash_loop_spec ns : forall totaluse ause nums ks,
  nums_ok nums ks ->
  exists nums', numusehash_loop ns totaluse ause nums =
      Ok (totaluse + Z.of_nat (length (node_entries ns)), ause + count (inb MAXASIZE) (node_entries ns).*1, nums') /\
    nums_ok nums' ((node_entries ns).*1 ++ ks).
Proof.
  induction ns as [|x ns IH]; intros totaluse ause nums ks Hok; cbn [numusehash_loop node_entries].
  { exists nums. split; [|done]. cbn. do 2 f_equal. f_equal; lia. }
  destruct (ttisnil (i_val x)); cbn [negb app]; [by apply IH|].
  destruct (countint_spec (i_key x) nums ks Hok) as (nums1 & -> & Hok1). cbn [mbind res_bind].
  destruct (IH (totaluse + 1) (ause + if inb MAXASIZE (i_key x) then 1 else 0) nums1 _ Hok1) as (nums' & E & Hok').
  exists nums'. split.
  - rewrite E. cbn [length fmap list_fmap count]. do 2 f_equal. f_equal; [lia|]. cbn. destruct (inb _ _); lia.
  - cbn. rewrite Permutation_middle. done.
Qed.

(** *** The array part *)

Lemma count_slice_spec t n : forall i lc,
  1 <= i -> (Z.to_nat (i - 1) + n <= length (array t))%nat ->
  count_slice n t i lc = Ok (lc + Z.of_nat (length (array_entries (i - 1) (take n (drop (Z.to_nat (i - 1)) (array t)))))).
Proof.
  induction n as [|n IH]; intros i lc Hi Hn; cbn [count_slice]; [rewrite take_0; cbn; f_equal; lia|].
  destruct (lookup_lt_is_Some_2 (array t) (Z.to_nat (i - 1)) ltac:(lia)) as [v Hv]. rewrite Hv. cbn [of_option mbind res_bind].
  rewrite IH by lia. rewrite (drop_S _ v _ Hv). cbn [take array_entries]. rewrite length_app.
  replace (Z.to_nat (i + 1 - 1)) with (S (Z.to_nat (i - 1))) by lia. replace (i + 1 - 1) with (i - 1 + 1) by lia.
  destruct (ttisnil v); cbn [negb length]; f_equal; lia.
Qed.

(** The keys of a part of the array that lies in one slice. *)
Lemma slice_keys (lg : Z) p vs j :
  0 <= lg <= 30 -> 0 <= j <= 30 -> 0 <= p -> (lg = 0 /\ p = 0 \/ 2 ^ (lg - 1) <= p) -> p + Z.of_nat (length vs) <= 2 ^ lg ->
  count (sliceb j) (array_entries p vs).*1 = if decide (j = lg) then Z.of_nat (length (array_entries p vs).*1) else 0.
Proof.
  intros Hlg Hj Hp Hlow Hhigh. assert (2 ^ lg <= 2 ^ 30) as Hmax by (apply Z.pow_le_mono_r; lia).
  assert (forall k, k ∈ (array_entries p vs).*1 -> sliceb j k = bool_decide (lg = j)) as H.
  { intros k ([k' v] & -> & Hin)%list_elem_of_fmap. apply elem_of_array_entries in Hin as (_ & m & -> & Hm).
    pose proof (lookup_lt_Some _ _ _ Hm). cbn [fst]. rewrite sliceb_number by lia. f_equal.
    rewrite (ceillog2_unique _ lg); [done|lia|lia|lia|lia]. }
  induction (array_entries p vs).*1 as [|k l IH]; cbn [count length]; [by destruct (decide _)|].
  rewrite IH by (intros; apply H; by right). rewrite (H k) by by left.
  destruct (decide (j = lg)) as [->|Hne]; [rewrite bool_decide_eq_true_2 by done; lia|]. by rewrite bool_decide_eq_false_2.
Qed.

(** How far the slices before [lg] reach. *)
Definition slice_start (lg : Z) : Z := if lg =? 0 then 0 else 2 ^ (lg - 1).

Lemma slice_start_succ lg : 0 <= lg -> slice_start (lg + 1) = 2 ^ lg.
Proof. intros H. unfold slice_start. rewrite (proj2 (Z.eqb_neq _ 0)) by lia. f_equal. lia. Qed.

Lemma numusearray_loop_spec t n : forall lg nums ause,
  0 <= lg -> lg + Z.of_nat n = 31 -> sizearray t <= 2 ^ 30 ->
  let p := Z.min (slice_start lg) (sizearray t) in
  nums_ok nums (array_entries 0 (take (Z.to_nat p) (array t))).*1 ->
  ause = Z.of_nat (length (array_entries 0 (take (Z.to_nat p) (array t)))) ->
  exists nums', numusearray_loop n t lg (2 ^ lg) (p + 1) ause nums = Ok (Z.of_nat (length (array_entries 0 (array t))), nums') /\
    nums_ok nums' (array_entries 0 (array t)).*1.
Proof.
  induction n as [|n IH]; intros lg nums ause Hlg Hn Hsz p Hok Ha; cbn [numusearray_loop].
  { assert (lg = 31) as -> by lia. unfold p in *. change (slice_start 31) with (2 ^ 30) in *. rewrite Z.min_r in * by lia.
    unfold sizearray in *. rewrite Nat2Z.id, firstn_all in *. exists nums. by rewrite Ha. }
  assert (0 <= slice_start lg <= 2 ^ lg) as Hst.
  { unfold slice_start. destruct (Z.eqb_spec lg 0) as [->|]; [lia|]. split; [lia|apply Z.pow_le_mono_r; lia]. }
  assert (0 <= sizearray t) as Hs0 by (unfold sizearray; lia).
  assert ((if sizearray t <? 2 ^ lg then sizearray t else 2 ^ lg) = Z.min (2 ^ lg) (sizearray t)) as ->.
  { destruct (Z.ltb_spec (sizearray t) (2 ^ lg)); lia. }
  set (lim := Z.min (2 ^ lg) (sizearray t)). destruct ((sizearray t <? 2 ^ lg) && (lim <? p + 1)) eqn:Estop.
  { apply andb_true_iff in Estop as [H1%Z.ltb_lt H2%Z.ltb_lt]. assert (p = sizearray t) as Ep by lia. rewrite Ep in *. unfold sizearray in *.
    rewrite Nat2Z.id, firstn_all in *. exists nums. by rewrite Ha. }
  assert (p <= lim) as Hpl by lia. replace (lim - (p + 1) + 1) with (lim - p) by lia.
  rewrite count_slice_spec by (unfold sizearray in *; lia). cbn [mbind res_bind]. replace (p + 1 - 1) with p by lia. rewrite Z.add_0_l.
  set (new := take (Z.to_nat (lim - p)) (drop (Z.to_nat p) (array t))).
  assert (Z.of_nat (length new) = lim - p) as Hnl by (unfold new, sizearray in *; rewrite length_take, length_drop; lia).
  assert (take (Z.to_nat lim) (array t) = take (Z.to_nat p) (array t) ++ new) as Htake.
  { unfold new. rewrite take_take_drop. f_equal. lia. }
  assert (array_entries 0 (take (Z.to_nat lim) (array t)) = array_entries 0 (take (Z.to_nat p) (array t)) ++ array_entries p new) as Hent.
  { rewrite Htake, array_entries_app. do 2 f_equal. unfold sizearray in *. rewrite length_take. lia. }
  destruct (nums_add_spec nums _ lg (array_entries p new).*1 Hok) as (nums1 & E1 & Hok1); [lia| |].
  { intros j Hj. apply slice_keys; [lia|done|lia| |lia]. unfold slice_start in *. destruct (Z.eqb_spec lg 0); [left|right]; lia. }
  rewrite length_fmap in E1. rewrite E1. cbn [mbind res_bind].
  destruct (IH (lg + 1) nums1 (ause + Z.of_nat (length (array_entries p new)))) as (nums' & E' & Hok').
  { lia. }
  { lia. }
  { done. }
  { rewrite slice_start_succ by done. fold lim. rewrite Hent, fmap_app, Permutation_app_comm. done. }
  { rewrite slice_start_succ by done. fold lim. rewrite Hent, length_app, Ha. lia. }
  rewrite slice_start_succ in E' by done. fold lim in E'. rewrite Z.pow_add_r in E' by lia. rewrite Z.max_r by lia.
  change (2 ^ 1) with 2 in E'. rewrite E'. by exists nums'.
Qed.

Lemma numusearray_spec t nums :
  sizearray t <= 2 ^ 30 -> nums_ok nums [] ->
  exists nums', numusearray t nums = Ok (Z.of_nat (length (array_entries 0 (array t))), nums') /\ nums_ok nums' (array_entries 0 (array t)).*1.
Proof.
  intros Hs Hok. pose proof (numusearray_loop_spec t 31 0 nums 0 ltac:(lia) ltac:(lia) Hs) as H. cbv zeta in H.
  change (slice_start 0) with 0 in H. rewrite Z.min_l in H by (unfold sizearray; lia). exact (H Hok eq_refl).
Qed.

(** *** The size of the array part *)

Lemma count_pointwise (p q r : TValue -> bool) ks : (forall k, (if p k then 1 else 0) = (if q k then 1 else 0) + (if r k then 1 else 0)) ->
  count p ks = count q ks + count r ks.
Proof. intros H. induction ks as [|k ks IH]; cbn; [done|]. rewrite H. lia. Qed.

Lemma count_slice_split i ks :
  0 <= i -> count (inb (2 ^ i)) ks = count (inb (slice_start i)) ks + count (sliceb i) ks.
Proof.
  intros Hi. apply count_pointwise. intros [| | |z| | |]; try done. cbn. unfold slice_start.
  destruct (Z.eqb_spec i 0) as [->|]; cbn [orb].
  - rewrite andb_true_r. change (2 ^ 0) with 1. destruct (Z.leb_spec 1 z), (Z.leb_spec z 0), (Z.leb_spec z 1); lia || done.
  - assert (2 ^ (i - 1) <= 2 ^ i) by (apply Z.pow_le_mono_r; lia).
    destruct (Z.leb_spec 1 z), (Z.leb_spec z (2 ^ i)), (Z.leb_spec z (2 ^ (i - 1))), (Z.ltb_spec (2 ^ (i - 1)) z); lia || done.
Qed.

(** The sizes: [na] keys fit in the array part of [n], which is more than half full. *)
Definition sizes_ok (ks : list TValue) (na n : Z) : Prop :=
  0 <= n <= 2 ^ 30 /\ na = count (inb n) ks /\ (n = 0 \/ n < 2 * na).

Lemma computesizes_loop_spec nums ks narray fuel : forall i a na n,
  nums_ok nums ks -> narray = count (inb (2 ^ 30)) ks ->
  0 <= i <= 30 -> (31 <= Z.of_nat fuel + i) -> a = count (inb (slice_start i)) ks -> sizes_ok ks na n ->
  exists na' n', computesizes_loop fuel nums narray i (2 ^ i) a na n = Ok (na', n') /\ sizes_ok ks na' n'.
Proof.
  induction fuel as [|fuel IH]; intros i a na n Hok Hnar Hi Hf Ha Hsz; [lia|]. cbn [computesizes_loop].
  destruct (2 ^ i / 2 <? narray); [|by exists na, n].
  unfold nums_get. rewrite (no_get _ _ Hok) by done. cbn [of_option mbind res_bind].
  pose proof (count_slice_split i ks ltac:(lia)) as Hsplit. pose proof (count_range (sliceb i) ks) as [Hx _].
  assert ((if 0 <? count (sliceb i) ks then a + count (sliceb i) ks else a) = count (inb (2 ^ i)) ks) as ->.
  { destruct (Z.ltb_spec 0 (count (sliceb i) ks)); lia. }
  set (a' := count (inb (2 ^ i)) ks) in *.
  assert (sizes_ok ks (if (0 <? count (sliceb i) ks) && (2 ^ i / 2 <? a') then a' else na)
                      (if (0 <? count (sliceb i) ks) && (2 ^ i / 2 <? a') then 2 ^ i else n)) as Hsz'.
  { destruct ((0 <? count (sliceb i) ks) && (2 ^ i / 2 <? a')) eqn:E; [|done]. apply andb_true_iff in E as [_ E%Z.ltb_lt].
    split; [split; [lia|apply Z.pow_le_mono_r; lia]|]. split; [done|]. right. dlia. }
  destruct ((0 <? count (sliceb i) ks) && (2 ^ i / 2 <? a')).
  all: destruct (Z.eqb_spec a' narray) as [?|Hne]; [by do 2 eexists|].
  all: assert (i <> 30) by (intros ->; by apply Hne).
  all: replace (2 ^ i * 2) with (2 ^ (i + 1)) by (rewrite Z.pow_add_r by lia; lia).
  all: apply IH; try done; try lia; unfold a'; by rewrite slice_start_succ by lia.
Qed.

Lemma count_none ks : count (inb 0) ks = 0.
Proof.
  induction ks as [|[| | |z| | |] ks IH]; cbn [count inb]; try lia.
  destruct (Z.leb_spec 1 z), (Z.leb_spec z 0); cbn [andb]; lia.
Qed.

Lemma computesizes_spec nums ks :
  nums_ok nums ks ->
  exists na n, computesizes nums (count (inb MAXASIZE) ks) = Ok (na, n) /\ sizes_ok ks na n.
Proof.
  intros Hok. apply (computesizes_loop_spec nums ks (count (inb MAXASIZE) ks) 32 0); try done.
  - change (slice_start 0) with 0. by rewrite count_none.
  - split; [lia|]. split; [by rewrite count_none|by left].
Qed.

(** ** [rehash] *)

(** The counts that [rehash] adds up: the candidates for the array part, and the
    keys for the hash part. *)
Lemma rehash_nasize t k :
  sizearray t <= 2 ^ 30 ->
  Z.of_nat (length (array_entries 0 (array t))) + (0 + count (inb MAXASIZE) (node_entries (reverse (node t))).*1) +
    (if inb MAXASIZE k then 1 else 0) = count (inb MAXASIZE) (k :: (entries t).*1).
Proof.
  intros Ha. cbn [count]. unfold entries. rewrite fmap_app, count_app, node_entries_reverse.
  pose proof (count_negb (inb MAXASIZE) (array_entries 0 (array t)).*1) as Hneg. rewrite length_fmap in Hneg.
  pose proof (count_array_in MAXASIZE (array t) Ha) as H0.
  rewrite (count_ext (outb MAXASIZE) (fun k => negb (inb MAXASIZE k))) in H0 by done. lia.
Qed.

Lemma rehash_nhsize t k na n :
  na = count (inb n) (k :: (entries t).*1) ->
  Z.of_nat (length (array_entries 0 (array t))) + (0 + Z.of_nat (length (node_entries (reverse (node t))))) + 1 - na =
    count (outb n) (k :: (entries t).*1).
Proof.
  intros Hna. rewrite (count_ext (outb n) (fun k => negb (inb n k))) by done. rewrite count_negb, <- Hna.
  cbn [length]. rewrite length_fmap. unfold entries. rewrite length_app, node_entries_reverse. lia.
Qed.

Section RehashSpec.
Context (seed : Z) (newkey : Table -> TValue -> res (Table * slot)).
Hypothesis newkey_ok : forall t k,
  table_wf seed t -> k <> TNil -> absent t k -> (0 < room t)%nat ->
  exists t' s, newkey t k = Ok (t', s) /\ newkey_post seed t k t' s.

(** The sizes it computes: the hash part gets all keys that the array part does not
    hold, the new one included. *)
Lemma rehash_sizes t k :
  sizearray t <= 2 ^ 30 ->
  exists n, rehash seed newkey t k = luaH_resize seed newkey t n (count (outb n) (k :: (entries t).*1)) /\ 0 <= n <= 2 ^ 30.
Proof.
  intros Ha. assert (nums_ok (replicate (Z.to_nat (MAXBITS + 1)) 0) []) as Hok0.
  { split; [done|]. intros i Hi. rewrite lookup_replicate_2; [done|]. unfold MAXBITS. lia. }
  unfold rehash. set (nums0 := replicate (Z.to_nat (MAXBITS + 1)) 0) in *. clearbody nums0.
  destruct (numusearray_spec t _ Ha Hok0) as (nums1 & E1 & Hok1). rewrite E1, ok_bind. cbv beta iota zeta. unfold numusehash.
  destruct (numusehash_loop_spec (reverse (node t)) 0 0 nums1 _ Hok1) as (nums2 & E2 & Hok2). rewrite E2, !ok_bind. cbv beta iota zeta.
  destruct (countint_spec k nums2 _ Hok2) as (nums3 & E3 & Hok3). rewrite E3, ok_bind. cbv beta iota zeta.
  assert (k :: (node_entries (reverse (node t))).*1 ++ (array_entries 0 (array t)).*1 ≡ₚ k :: (entries t).*1) as Hp.
  { constructor. rewrite node_entries_reverse, Permutation_app_comm. unfold entries. by rewrite fmap_app. }
  rewrite Hp in Hok3. destruct (computesizes_spec nums3 _ Hok3) as (na & n & E & Hn & Hna & _).
  rewrite (rehash_nasize t k Ha), E, ok_bind. exists n. split; [|done].
  f_equal. by apply rehash_nhsize.
Qed.

(** The contents are kept, and the key has a place: an element of the array part or
    a free node. *)
Lemma rehash_spec t k :
  table_wf seed t -> Z.of_nat (length (entries t)) < 2 ^ MAXBITS ->
  exists t', rehash seed newkey t k = Ok t' /\ table_wf seed t' /\ (forall k', view t' k' = view t k') /\
    (in_array t' k \/ (0 < room t')%nat).
Proof using newkey_ok.
  intros W Hsize. destruct (rehash_sizes t k (tw_array _ _ W)) as (n & -> & Hn).
  pose proof (count_range (outb n) (k :: (entries t).*1)) as Hr. cbn [length] in Hr. rewrite length_fmap in Hr.
  destruct (resize_spec seed newkey newkey_ok t n (count (outb n) (k :: (entries t).*1)) W Hn) as (t' & E' & W' & Hs' & Hv' & Hroom).
  { lia. }
  { cbn [count]. destruct (outb n k); lia. }
  exists t'. split; [done|]. split; [done|]. split; [done|]. cbn [count] in Hroom.
  destruct (outb n k) eqn:Eo; [right; lia|]. left. apply outb_array. by rewrite Hs'.
Qed.
End RehashSpec.
