(* ===== verification/LuaTableSpec.v ===== *)
(** * Lua tables are finite maps

    The contract of [ltable.c]: starting from [luaH_new], stores and reads behave as
    on a function from keys to values whatever rehashes happen on the way, a store
    never rehashes more than once, [luaH_getn] returns a border, and [luaH_next]
    enumerates every entry exactly once. *)

From stdpp Require Import relations.
From S2P Require Import Prelude LuaStr LuaTable LuaHash LuaTableWf LuaRehash.

Section Spec.
Context (seed : Z).

Abbreviation wf := (table_wf seed).

(** ** Storing *)

Lemma newkey_ok fuel t k :
  wf t -> k <> TNil -> absent t k -> (0 < room t)%nat ->
  exists t' s, luaH_newkey seed (S fuel) t k = Ok (t', s) /\ newkey_post seed t k t' s.
Proof. apply newkey_room. Qed.

Lemma put_correct fuel t k v :
  wf t -> k <> TNil -> Z.of_nat (length (entries t)) < 2 ^ MAXBITS ->
  exists t', luaH_put seed (S (S fuel)) t k v = Ok t' /\ wf t' /\
    forall k', view t' k' = if decide (k' = k) then v else view t k'.
Proof.
  intros W Hk Hsz. unfold luaH_put, luaH_set. destruct (get_spec seed t k W Hk) as [(s & -> & Hs)|[-> Hab]].
  { rewrite !ok_bind. destruct (put_slot seed t k v s W Hs) as (t' & -> & [W' Hv' _] & _). by exists t'. }
  rewrite !ok_bind. destruct (newkey_cases seed (S fuel) t k W Hk Hab) as [(t1 & s & -> & Hn)|(_ & lf & Wl & ->)].
  { rewrite ok_bind. destruct (newkey_slot seed t k v t1 s Hn) as (t' & -> & [W' Hv' _] & _). by exists t'. }
  destruct (rehash_spec seed _ (newkey_ok fuel) (set_lastfree t lf) k Wl Hsz) as (t1 & -> & W1 & Hv1 & Hroom). rewrite ok_bind.
  destruct (put_spec seed _ (newkey_ok fuel) t1 k v W1 Hk Hroom) as (t' & E & [W' Hv' _] & _).
  exists t'. split; [exact E|]. split; [done|]. intros k'. rewrite Hv', Hv1. done.
Qed.

Lemma luaH_new_wf : wf luaH_new.
Proof.
  destruct (setnodevector_spec seed 0 ltac:(done)) as (ls & N & d & lf & E & H). specialize (E luaH_new).
  cbn in E. injection E as <- HN <- <-. destruct (H []) as [W _]; [done|]. by rewrite <- HN in W.
Qed.

Lemma view_new k : view luaH_new k = TNil.
Proof.
  assert (hview [dummynode_] k = TNil) as H.
  { destruct (hview_cases [dummynode_] k) as [(i & _ & -> & Hi)|[-> _]]; [|done]. by destruct i as [|[|]]. }
  destruct k as [| | |n| | |]; try done. cbn. rewrite decide_False; [done|]. unfold sizearray. cbn. lia.
Qed.

(** A store adds one entry at most. *)
Lemma entries_put t t' k v :
  wf t -> wf t' -> (forall k', view t' k' = if decide (k' = k) then v else view t k') ->
  (length (entries t') <= S (length (entries t)))%nat.
Proof.
  intros W W' Hv. rewrite <- (length_fmap fst (entries t')), <- (length_fmap fst (entries t)). change (S (length (entries t).*1)) with (length (k :: (entries t).*1)).
  apply submseteq_length, NoDup_submseteq; [by eapply entries_NoDup|].
  intros k' ([k1 v1] & -> & Hin)%list_elem_of_fmap. apply (elem_of_entries _ _ _ _ W') in Hin as [Hne Hv1]. cbn [fst].
  rewrite Hv in Hv1. destruct (decide (k1 = k)) as [->|]; [by left|]. right. apply list_elem_of_fmap. exists (k1, v1). split; [done|].
  by apply (elem_of_entries _ _ _ _ W).
Qed.

(** Any sequence of stores. *)
Fixpoint puts (ops : list (TValue * TValue)) (t : Table) : res Table :=
  match ops with
  | [] => Ok t
  | (k, v) :: ops' => t ← luaH_put seed 2 t k v; puts ops' t
  end.

(** The value stored last. *)
Definition last_stored (ops : list (TValue * TValue)) (k old : TValue) : TValue :=
  foldl (fun x '(k', v) => if decide (k = k') then v else x) old ops.

Lemma puts_spec ops : forall t,
  wf t -> Forall (fun '(k, _) => k <> TNil) ops -> Z.of_nat (length (entries t) + length ops) <= 2 ^ MAXBITS ->
  exists t', puts ops t = Ok t' /\ wf t' /\ (forall k, view t' k = last_stored ops k (view t k)) /\
    (length (entries t') <= length (entries t) + length ops)%nat.
Proof.
  induction ops as [|[k v] ops IH]; intros t W Hk Hsz; cbn [puts].
  { exists t. split_and!; try done. cbn. lia. }
  apply Forall_cons_1 in Hk as [Hk Hks]. cbn [length] in Hsz.
  destruct (put_correct 0 t k v W Hk ltac:(lia)) as (t1 & -> & W1 & Hv1). rewrite ok_bind.
  pose proof (entries_put t t1 k v W W1 Hv1) as Hl. destruct (IH t1 W1 Hks ltac:(lia)) as (t' & E & W' & Hv' & Hl').
  exists t'. split; [done|]. split; [done|]. split; [|cbn [length]; lia]. intros k'. rewrite Hv', Hv1. done.
Qed.

(** ** The length *)

Definition border (f : Z -> TValue) (n : Z) : Prop := 0 <= n /\ (n = 0 \/ f n <> TNil) /\ f (n + 1) = TNil.

Lemma binary_search_S fuel get i j :
  binary_search (S fuel) get i j =
  if u32 (j - i) >? 1 then
    v ← get (u32 (i + j) / 2);
    if ttisnil v then binary_search fuel get i (u32 (i + j) / 2) else binary_search fuel get (u32 (i + j) / 2) j
  else Ok i.
Proof. done. Qed.

(** The halving loop keeps a value below and nil above. *)
Lemma binary_search_spec (f : Z -> TValue) get fuel : forall i j,
  (forall m, i < m < j -> get m = Ok (f m)) -> 0 <= i < j -> j < 2 ^ 31 ->
  (i = 0 \/ f i <> TNil) -> f j = TNil -> j - i <= 2 ^ Z.of_nat fuel ->
  exists n, binary_search (S fuel) get i j = Ok n /\ border f n.
Proof.
  induction fuel as [|fuel IH]; intros i j Hget Hij Hj Hi Hn Hf; rewrite binary_search_S;
    rewrite wrap_small by clia; rewrite Z.gtb_ltb; destruct (Z.ltb_spec 1 (j - i)) as [Hd|Hd].
  - change (2 ^ Z.of_nat 0) with 1 in Hf. lia.
  - exists i. split; [done|]. split; [lia|]. split; [done|]. by replace (i + 1) with j by lia.
  - rewrite wrap_small by clia. assert (i < (i + j) / 2 < j) as Hm by dlia. rewrite Hget by done. rewrite ok_bind.
    rewrite Nat2Z.inj_succ, Z.pow_succ_r in Hf by lia. destruct (ttisnil (f ((i + j) / 2))) eqn:E.
    + apply ttisnil_true in E. apply IH; try done; [intros; apply Hget; lia|lia|lia|]. Z.to_euclidean_division_equations; lia.
    + apply ttisnil_false in E. apply IH; try done; [intros; apply Hget; lia|lia|by right|]. Z.to_euclidean_division_equations; lia.
  - exists i. split; [done|]. split; [lia|]. split; [done|]. by replace (i + 1) with j by lia.
Qed.

Abbreviation number_view t := (fun n => view t (TNumber n)).

(** As many keys as a prefix of the integers has are in the table. *)
Lemma entries_prefix t n :
  wf t -> (forall j, 1 <= j <= n -> view t (TNumber j) <> TNil) -> n <= Z.of_nat (length (entries t)).
Proof.
  intros W H. destruct (decide (0 <= n)); [|lia].
  assert (length (TNumber <$> seqZ 1 n) <= length (entries t).*1)%nat as Hl.
  { apply submseteq_length, NoDup_submseteq; [apply NoDup_fmap_2; [by intros ? ? [=]|apply NoDup_seqZ]|].
    intros k (j & -> & Hj%elem_of_seqZ)%list_elem_of_fmap. apply list_elem_of_fmap. exists (TNumber j, view t (TNumber j)).
    split; [done|]. apply (elem_of_entries _ _ _ _ W). split; [apply H; lia|done]. }
  rewrite !length_fmap, length_seqZ in Hl. lia.
Qed.

Lemma entries_bound t : (length (entries t) <= length (array t) + length (node t))%nat.
Proof.
  assert (forall vs i, length (array_entries i vs) <= length vs)%nat as H1.
  { induction vs as [|v vs IH]; intros i; cbn; [lia|]. specialize (IH (i + 1)). destruct (ttisnil v); cbn; lia. }
  assert (forall ns, length (node_entries ns) <= length ns)%nat as H2.
  { induction ns as [|x ns IH]; cbn; [lia|]. destruct (ttisnil _); cbn; lia. }
  unfold entries. rewrite length_app. specialize (H1 (array t) 0). specialize (H2 (node t)). lia.
Qed.

Lemma linear_search_spec t fuel : forall i,
  wf t -> Z.of_nat (length (entries t)) < 2 ^ 31 - 1 -> 1 <= i -> (forall j, 1 <= j < i -> view t (TNumber j) <> TNil) ->
  Z.of_nat (length (entries t)) < Z.of_nat fuel + i - 1 ->
  exists n, linear_search fuel t i = Ok n /\ border (number_view t) n.
Proof.
  induction fuel as [|fuel IH]; intros i W Hsz Hi Hall Hf.
  - pose proof (entries_prefix t (i - 1) W ltac:(intros; apply Hall; lia)). lia.
  - pose proof (entries_prefix t (i - 1) W ltac:(intros; apply Hall; lia)) as Hp. cbn [linear_search].
    rewrite swrap_small by (lia || clia). rewrite (getint_value_spec seed) by (done || clia). rewrite ok_bind.
    destruct (ttisnil (view t (TNumber i))) eqn:E; cbn [negb].
    + apply ttisnil_true in E. rewrite wrap_small by clia. exists (i - 1). split; [done|]. split; [lia|]. split.
      * destruct (decide (i = 1)) as [->|]; [by left|]. right. apply Hall. lia.
      * by replace (i - 1 + 1) with i by lia.
    + apply ttisnil_false in E. rewrite wrap_small by clia. apply IH; try done; [lia| |lia].
      intros j Hj. destruct (decide (j = i)) as [->|]; [done|]. apply Hall. lia.
Qed.

Lemma double_search_spec t fuel : forall i j,
  wf t -> Z.of_nat (length (entries t)) < 2 ^ 31 - 1 -> 0 <= i < j -> j < 2 ^ 31 ->
  (i = 0 \/ view t (TNumber i) <> TNil) -> 2 ^ 32 <= j * 2 ^ Z.of_nat fuel ->
  exists r, double_search fuel t i j = Ok r /\
    match r with
    | inl n => border (number_view t) n
    | inr (i, j) => 0 <= i < j /\ j < 2 ^ 31 /\ (i = 0 \/ view t (TNumber i) <> TNil) /\ view t (TNumber j) = TNil
    end.
Proof.
  induction fuel as [|fuel IH]; intros i j W Hsz Hij Hj Hi Hf; [change (2 ^ Z.of_nat 0) with 1 in Hf; lia|].
  cbn [double_search]. rewrite swrap_small by (lia || clia). rewrite (getint_value_spec seed) by (done || clia). rewrite ok_bind.
  destruct (ttisnil (view t (TNumber j))) eqn:E; cbn [negb].
  - apply ttisnil_true in E. eexists. by split.
  - apply ttisnil_false in E. rewrite wrap_small by clia. rewrite Z.gtb_ltb. unfold MAX_INT.
    destruct (Z.ltb_spec (2 ^ 31 - 1 - 2) (j * 2)) as [Hbig|Hsmall].
    + destruct (linear_search_spec t (S (length (array t) + length (node t))) 1 W Hsz) as (n & -> & Hb).
      { lia. } { intros; lia. } { pose proof (entries_bound t). lia. }
      rewrite ok_bind. by eexists.
    + apply IH; try done; [lia|lia|by right|]. rewrite Nat2Z.inj_succ, Z.pow_succ_r in Hf by lia. lia.
Qed.

Lemma dummy_view t k : wf t -> isdummy t = true -> ~ in_array t k -> view t k = TNil.
Proof.
  intros W Hd Ha. destruct (decide (k = TNil)) as [->|Hk]; [done|]. rewrite view_hash by done. apply hview_fresh.
  intros i. by rewrite (dummy_no_key seed t i W Hd).
Qed.

Lemma unbound_border t :
  wf t -> Z.of_nat (length (entries t)) < 2 ^ 31 - 1 -> (sizearray t = 0 \/ view t (TNumber (sizearray t)) <> TNil) ->
  exists n, unbound_search t (sizearray t) = Ok n /\ border (number_view t) n.
Proof.
  intros W Hsz Hlast. pose proof (tw_array _ _ W) as Ha. unfold MAXBITS in Ha. unfold unbound_search.
  assert (0 <= sizearray t) as H0 by (unfold sizearray; lia). rewrite wrap_small by clia.
  destruct (double_search_spec t 33 (sizearray t) (sizearray t + 1) W Hsz) as (r & -> & Hr).
  { lia. } { clia. } { done. } { change (2 ^ Z.of_nat 33) with (2 ^ 33). clia. }
  rewrite ok_bind. destruct r as [n|[i j]]; [by exists n|]. destruct Hr as (H1 & H2 & H3 & H4).
  apply (binary_search_spec (number_view t)); try done; [|change (2 ^ Z.of_nat 32) with (2 ^ 32); clia].
  intros m Hm. rewrite swrap_small by (lia || clia). apply (getint_value_spec seed); [done|clia].
Qed.

Lemma getn_border t :
  wf t -> Z.of_nat (length (entries t)) < 2 ^ 31 - 1 -> exists n, luaH_getn t = Ok n /\ border (number_view t) n.
Proof.
  intros W Hsz. pose proof (tw_array _ _ W) as Ha. unfold MAXBITS in Ha. unfold luaH_getn.
  assert (0 <= sizearray t) as H0 by (unfold sizearray; lia).
  assert (forall m, 1 <= m <= sizearray t -> array t !! Z.to_nat (m - 1) = Some (view t (TNumber m))) as Hget.
  { intros m Hm. cbn. rewrite decide_True by done. by destruct (lookup_lt_is_Some_2 (array t) (Z.to_nat (m - 1))) as [v ->]; [unfold sizearray in *; lia|]. }
  destruct (Z.ltb_spec 0 (sizearray t)) as [Hpos|Hz]; cbn [andb].
  - rewrite (Hget (sizearray t)) by lia. cbn [default from_option id]. destruct (ttisnil (view t (TNumber (sizearray t)))) eqn:E.
    + apply ttisnil_true in E. apply (binary_search_spec (number_view t)); try done; [|clia|by left|change (2 ^ Z.of_nat 32) with (2 ^ 32); clia].
      intros m Hm. by rewrite Hget by lia.
    + apply ttisnil_false in E. destruct (isdummy t) eqn:Hd.
      * exists (sizearray t). split; [done|]. split; [done|]. split; [by right|]. apply (dummy_view t _ W Hd). intros (? & [= <-] & ?). lia.
      * apply unbound_border; [done|done|by right].
  - assert (sizearray t = 0) as E by lia. rewrite E. destruct (isdummy t) eqn:Hd.
    + exists 0. split; [done|]. split; [done|]. split; [by left|]. apply (dummy_view t _ W Hd). intros (? & [= <-] & ?). lia.
    + rewrite <- E. apply unbound_border; [done|done|by left].
Qed.

(** ** Traversal *)

(** The entries from index [i]: array elements first, then nodes. *)
Definition rest (t : Table) (i : nat) : list (TValue * TValue) :=
  array_entries (Z.of_nat i) (drop i (array t)) ++ node_entries (drop (i - length (array t)) (node t)).

Lemma next_array_head vs : forall i, next_array i vs = head (array_entries i vs).
Proof. induction vs as [|v vs IH]; intros i; cbn; [done|]. rewrite IH. by destruct (ttisnil v). Qed.

Lemma next_node_head ns : next_node ns = head (node_entries ns).
Proof. induction ns as [|x ns IH]; cbn; [done|]. rewrite IH. by destruct (ttisnil (i_val x)). Qed.

Lemma next_head t k i :
  findindex seed t k = Ok (Z.of_nat i - 1) -> luaH_next seed t k = Ok (head (rest t i)).
Proof.
  intros E. unfold luaH_next. rewrite E, ok_bind. replace (Z.of_nat i - 1 + 1) with (Z.of_nat i) by lia.
  rewrite next_array_head, next_node_head, Nat2Z.id. unfold rest, sizearray.
  replace (Z.to_nat (Z.max (Z.of_nat i) (Z.of_nat (length (array t))) - Z.of_nat (length (array t)))) with (i - length (array t))%nat by lia.
  by destruct (array_entries _ _).
Qed.

(** The first entry of a suffix, its index and the suffix after it. *)
Lemma array_rest vs : forall i, array_entries i vs = [] \/
  exists j v, array_entries i vs = (TNumber (i + Z.of_nat j + 1), v) :: array_entries (i + Z.of_nat (S j)) (drop (S j) vs) /\ vs !! j = Some v.
Proof.
  induction vs as [|v vs IH]; intros i; [by left|]. cbn [array_entries]. destruct (ttisnil v); cbn [app].
  - destruct (IH (i + 1)) as [->|(j & w & E & Hj)]; [by left|]. right. exists (S j), w. rewrite E. split; [|done]. cbn [drop].
    f_equal; [do 2 f_equal; lia|f_equal; lia].
  - right. exists 0%nat, v. split; [|done]. cbn [drop]. f_equal. do 2 f_equal. lia.
Qed.

Lemma node_rest ns : node_entries ns = [] \/
  exists j, (j < length ns)%nat /\ node_entries ns = (key ns j, val ns j) :: node_entries (drop (S j) ns) /\ val ns j <> TNil.
Proof.
  induction ns as [|x ns IH]; [by left|]. cbn [node_entries]. destruct (ttisnil (i_val x)) eqn:E; cbn [app].
  - destruct IH as [->|(j & Hj & Ej & Hv)]; [by left|]. right. exists (S j). split; [cbn; lia|]. by rewrite Ej.
  - right. exists 0%nat. split; [cbn; lia|]. split; [done|]. by apply ttisnil_false.
Qed.

Lemma rest_step t i :
  wf t -> (i <= length (array t) + length (node t))%nat ->
  rest t i = [] \/ exists k v i', rest t i = (k, v) :: rest t i' /\ (i < i' <= length (array t) + length (node t))%nat /\
    findindex seed t k = Ok (Z.of_nat i' - 1).
Proof.
  intros W Hi. unfold rest. destruct (array_rest (drop i (array t)) (Z.of_nat i)) as [->|(j & v & -> & Hj)].
  - cbn [app]. destruct (node_rest (drop (i - length (array t)) (node t))) as [->|(j & Hj & -> & Hv)]; [by left|]. right.
    rewrite length_drop in Hj. set (a := (i - length (array t))%nat) in *.
    assert (forall m, nd (drop a (node t)) m = nd (node t) (a + m)) as Hnd by (intros m; unfold nd; by rewrite lookup_drop).
    rewrite Hnd in *. set (n := (a + j)%nat) in *. assert (n < length (node t))%nat as Hn by lia.
    exists (key (node t) n), (val (node t) n), (S (length (array t) + n)). rewrite drop_drop. split_and!.
    + rewrite (drop_ge (array t)) by lia. cbn [array_entries app]. do 3 f_equal. lia.
    + lia.
    + lia.
    + assert (key (node t) n <> TNil) as Hk by (intros E; destruct (hw_free _ _ (tw_hash _ _ W) n E); congruence).
      pose proof (tw_keys _ _ W n) as Ha. unfold findindex. assert (ttisnil (key (node t) n) = false) as -> by (by apply ttisnil_false).
      assert ((0 <? arrayindex (key (node t) n)) && (arrayindex (key (node t) n) <=? sizearray t) = false) as ->.
      { apply not_true_iff_false. rewrite andb_true_iff, Z.ltb_lt, Z.leb_le. intros [H1 H2]. apply Ha.
        destruct (key (node t) n) as [| | |z| | |] eqn:Ek; cbn in H1, H2; try lia. destruct (Z.eqb_spec (s32 z) z) as [Ez|]; [|lia].
        exists z. split; [done|lia]. }
      destruct (get_any_spec seed t (key (node t) n) W Hk) as [([m|m] & -> & Hs)|[_ F]]; [| |by destruct (F n)].
      * destruct Hs as [E Hm]. exfalso. apply Ha. exists (Z.of_nat m + 1). unfold sizearray. split; [done|lia].
      * rewrite ok_bind. destruct Hs as [Hm _]. rewrite (hw_uniq _ _ (tw_hash _ _ W) m n) by congruence. unfold sizearray. f_equal. lia.
  - right. rewrite lookup_drop in Hj. pose proof (lookup_lt_Some _ _ _ Hj) as Hl.
    exists (TNumber (Z.of_nat i + Z.of_nat j + 1)), v, (S (i + j)). split_and!; [|lia|lia|].
    + cbn [app]. f_equal. rewrite drop_drop. replace (i + S j)%nat with (S (i + j)) by lia. replace (Z.of_nat i + Z.of_nat (S j)) with (Z.of_nat (S (i + j))) by lia.
      f_equal. do 2 f_equal. lia.
    + pose proof (tw_array _ _ W) as Ha. unfold sizearray, MAXBITS in Ha. unfold findindex. cbn [ttisnil arrayindex].
      rewrite swrap_small by (lia || clia). rewrite Z.eqb_refl. unfold sizearray.
      rewrite (proj2 (Z.ltb_lt _ _)), (proj2 (Z.leb_le _ _)) by lia. cbn [andb]. f_equal. lia.
Qed.

(** The keys and values that repeated calls give, from the key [k]. *)
Fixpoint traverse (fuel : nat) (t : Table) (k : TValue) : res (list (TValue * TValue)) :=
  match fuel with
  | O => Err NoFuel
  | S fuel' =>
      r ← luaH_next seed t k;
      match r with
      | None => Ok []
      | Some (k', v) => es ← traverse fuel' t k'; Ok ((k', v) :: es)
      end
  end.

Lemma traverse_rest t fuel : forall k i,
  wf t -> (i <= length (array t) + length (node t))%nat -> findindex seed t k = Ok (Z.of_nat i - 1) ->
  (length (rest t i) < fuel)%nat -> traverse fuel t k = Ok (rest t i).
Proof.
  induction fuel as [|fuel IH]; intros k i W Hi E Hf; [lia|]. cbn [traverse]. rewrite (next_head t k i E), ok_bind.
  destruct (rest_step t i W Hi) as [->|(k' & v & i' & Er & Hi' & E')]; [done|]. rewrite Er in *. cbn [head length] in *.
  rewrite (IH k' i') by (done || lia). done.
Qed.
End Spec.

(** ** The contract *)

(** C10. Lua tables are finite maps: after any sequence of at most [2^30] stores into a
    new table, with keys of any kind and nil values for removals, reading a key gives the
    value stored last under it, or nil; no store fails or rehashes more than once,
    whatever collisions, moves of nodes and rehashes happen on the way. *)
Theorem table_last_stored (seed : Z) (ops : list (TValue * TValue)) :
  Forall (fun '(k, _) => k <> TNil) ops -> Z.of_nat (length ops) <= 2 ^ MAXBITS ->
  exists t, puts seed ops luaH_new = Ok t /\ forall k, luaH_getvalue seed t k = Ok (last_stored ops k TNil).
Proof.
  intros Hk Hl. destruct (puts_spec seed ops luaH_new (luaH_new_wf seed) Hk Hl) as (t & E & W & Hv & _).
  exists t. split; [done|]. intros k. rewrite (getvalue_spec seed t k W), Hv. by rewrite view_new.
Qed.

(** A store keeps the invariant of the table and changes the value of its key
    only; the key can be absent, present, in the array part or in need of a rehash. *)
Theorem luaH_put_correct (seed : Z) (t : Table) (k v : TValue) (fuel : nat) :
  table_wf seed t -> k <> TNil -> Z.of_nat (length (entries t)) < 2 ^ MAXBITS -> (2 <= fuel)%nat ->
  exists t', luaH_put seed fuel t k v = Ok t' /\ table_wf seed t' /\
    forall k', luaH_getvalue seed t' k' = if decide (k' = k) then Ok v else luaH_getvalue seed t k'.
Proof.
  intros W Hk Hsz Hf. destruct fuel as [|[|fuel]]; [lia|lia|].
  destruct (put_correct seed fuel t k v W Hk Hsz) as (t' & E & W' & Hv). exists t'. split; [done|]. split; [done|].
  intros k'. rewrite !(getvalue_spec seed) by done. rewrite Hv. by destruct (decide (k' = k)).
Qed.

(** The length of a table is a border: [luaH_getn] ends, also when it has to fall
    back to the linear search, and returns an [n] such that [t[n]] is not nil (or [n]
    is 0) and [t[n+1]] is nil. *)
Theorem luaH_getn_border (seed : Z) (t : Table) :
  table_wf seed t -> Z.of_nat (length (entries t)) < 2 ^ 31 - 1 ->
  exists n, luaH_getn t = Ok n /\ 0 <= n /\ (n = 0 \/ luaH_getvalue seed t (TNumber n) <> Ok TNil) /\
    luaH_getvalue seed t (TNumber (n + 1)) = Ok TNil.
Proof.
  intros W Hsz. destruct (getn_border seed t W Hsz) as (n & E & Hn & Hlast & Hnext). exists n.
  rewrite !(getvalue_spec seed) by done. split_and!; try done; [|by rewrite Hnext]. destruct Hlast; [by left|right; congruence].
Qed.

(** C11. [luaH_next] enumerates the table: called with nil and then with each key it
    returned, it visits every key that has a value exactly once and ends. *)
Theorem luaH_next_enumerates (seed : Z) (t : Table) (fuel : nat) :
  table_wf seed t -> (length (array t) + length (node t) < fuel)%nat ->
  exists es, traverse seed fuel t TNil = Ok es /\ NoDup es.*1 /\
    forall k v, (k, v) ∈ es <-> v <> TNil /\ luaH_getvalue seed t k = Ok v.
Proof.
  intros W Hf. assert (rest t 0 = entries t) as E0 by (unfold rest, entries; by rewrite !drop_0).
  pose proof (entries_bound t) as Hl. exists (entries t). split_and!.
  - rewrite <- E0. apply traverse_rest; [done|lia|done|rewrite E0; lia].
  - by eapply entries_NoDup.
  - intros k v. rewrite (elem_of_entries seed) by done. rewrite (getvalue_spec seed) by done. split; intros [H1 H2]; (split; [done|congruence]).
Qed.

(** Integers, strings, a negative number, a removal and a boolean. *)
Definition example_ops : list (TValue * TValue) :=
  [(TNumber 1, TNumber 10); (TString [97], TNumber 20); (TNumber 3, TNumber 30); (TNumber 2, TNumber 40);
   (TNumber 1000000, TNumber 50); (TNumber (-5), TNumber 60); (TString [97], TNil); (TBoolean true, TNumber 70);
   (TObject 5 4096, TNumber 80); (TNumber 4, TNumber 90)].

Lemma example_keys : Forall (fun '(k, _) => k <> TNil) example_ops.
Proof. repeat constructor; discriminate. Qed.

Lemma example_table : exists t, puts 0 example_ops luaH_new = Ok t /\ table_wf 0 t /\ Z.of_nat (length (entries t)) <= 10.
Proof.
  destruct (puts_spec 0 example_ops luaH_new (luaH_new_wf 0) example_keys) as (t & E & W & _ & Hl); [done|].
  exists t. split; [done|]. split; [done|]. cbn in Hl. lia.
Qed.

(** Witness of C10: ten stores with a removal and several rehashes. *)
Lemma table_last_stored_witness :
  exists t, puts 0 example_ops luaH_new = Ok t /\ forall k, luaH_getvalue 0 t k = Ok (last_stored example_ops k TNil).
Proof.
  apply (table_last_stored 0 example_ops).
  - exact example_keys.
  - done.
Defined.

(** Example: one more key in that table. *)
Lemma luaH_put_correct_witness :
  exists t, puts 0 example_ops luaH_new = Ok t /\
  exists t', luaH_put 0 2 t (TNumber 5) (TNumber 1) = Ok t' /\ table_wf 0 t' /\
    forall k', luaH_getvalue 0 t' k' = if decide (k' = TNumber 5) then Ok (TNumber 1) else luaH_getvalue 0 t k'.
Proof.
  destruct example_table as (t & E & W & Hl). exists t. split; [exact E|].
  apply (luaH_put_correct 0 t (TNumber 5) (TNumber 1) 2); [exact W|discriminate|unfold MAXBITS; lia|lia].
Defined.

(** Example: its length. *)
Lemma luaH_getn_border_witness :
  exists t, puts 0 example_ops luaH_new = Ok t /\
  exists n, luaH_getn t = Ok n /\ 0 <= n /\ (n = 0 \/ luaH_getvalue 0 t (TNumber n) <> Ok TNil) /\
    luaH_getvalue 0 t (TNumber (n + 1)) = Ok TNil.
Proof.
  destruct example_table as (t & E & W & Hl). exists t. split; [exact E|].
  apply (luaH_getn_border 0 t W). lia.
Defined.

(** Witness of C11: its entries. *)
Lemma luaH_next_enumerates_witness :
  exists t fuel, puts 0 example_ops luaH_new = Ok t /\
  exists es, traverse 0 fuel t TNil = Ok es /\ NoDup es.*1 /\
    forall k v, (k, v) ∈ es <-> v <> TNil /\ luaH_getvalue 0 t k = Ok v.
Proof.
  destruct example_table as (t & E & W & Hl). exists t, (S (length (array t) + length (node t))). split; [exact E|].
  apply (luaH_next_enumerates 0 t _ W). lia.
Defined.

