(* ===== verification/Terminal.v ===== *)
(** * The text terminal ([src/src/luakernel.lua]: [write] to standard output)

    The terminal is the Lua array [terminal_lines] of lines, each an array of
    one-character strings; here a list of byte lists.  [WRAP_X] and [CLEAR_Y]
    are quotients of Lua numbers, so the comparisons of the source are written
    with the products they mean. *)

From S2P Require Import Prelude LuaStr.

Section Terminal.
(** [DISPLAY_WIDTH] and [DISPLAY_HEIGHT]. *)
Context (W H : Z).

Definition newline : Z := 10.

(** [#line >= WRAP_X] with [WRAP_X = DISPLAY_WIDTH / 9]. *)
Definition wraps (line : bytes) : bool := W <=? 9 * slen line.

(** [#terminal_lines >= CLEAR_Y] with [CLEAR_Y = DISPLAY_HEIGHT / 15 - 1]. *)
Definition clears (lines : list bytes) : bool :=
  H <=? 15 * (Z.of_nat (length lines) + 1).

(** The initial value, and the value after a clear. *)
Definition terminal_init : list bytes := [[]].

(** Append [c] to the last line ([terminal_lines[#terminal_lines]]). *)
Definition put_last (lines : list bytes) (c : Z) : list bytes :=
  match last lines with
  | Some line => take (length lines - 1) lines ++ [line ++ [c]]
  | None => lines
  end.

(** One iteration of the loop over the characters; an empty array of lines
    would make [table.insert(line, c)] fail. *)
Definition write_char (lines : list bytes) (c : Z) : res (list bytes) :=
  match last lines with
  | None => Err LuaError
  | Some line =>
      let line' := line ++ [c] in
      let lines := put_last lines c in
      let lines := if (c =? newline) || wraps line' then lines ++ [[]] else lines in
      Ok (if clears lines then terminal_init else lines)
  end.

(** [write(1, buf)]: the new terminal and [#buf]. *)
Definition write_stdout (lines : list bytes) (buf : bytes) : res (list bytes * Z) :=
  lines' ← foldl (fun r c => l ← r; write_char l c) (Ok lines) buf;
  Ok (lines', slen buf).

(** ** Invariant

    There is a last line to write to, no line is longer than the wrap width
    allows, and the screen is not full. *)
Definition line_ok (line : bytes) : Prop := 9 * (slen line - 1) < W.

Definition terminal_wf (lines : list bytes) : Prop :=
  lines <> [] /\ Forall line_ok lines /\
  (exists init line, lines = init ++ [line] /\ wraps line = false) /\
  (clears lines = false \/ lines = terminal_init).

Hypothesis width_pos : 0 < W.

Lemma terminal_init_wf : terminal_wf terminal_init.
Proof.
  split; [done|]. split; [|split; [|by right]].
  - constructor; [|done]. unfold line_ok, slen. cbn. lia.
  - exists [], []. split; [done|]. apply Z.leb_gt. unfold slen. cbn. lia.
Qed.

Lemma last_snoc_put init line c :
  put_last (init ++ [line]) c = init ++ [line ++ [c]].
Proof.
  unfold put_last. rewrite last_snoc, length_app. cbn [length].
  rewrite take_app_length' by lia. done.
Qed.

(** One character: it is appended to the text on screen, unless the screen
    was full, which empties it. *)
Lemma write_char_spec lines c :
  terminal_wf lines ->
  exists lines', write_char lines c = Ok lines' /\ terminal_wf lines' /\
    (concat lines' = concat lines ++ [c] \/ lines' = terminal_init).
Proof.
  intros (_ & Hok & (init & line & -> & Hw) & _). unfold write_char.
  rewrite last_snoc, last_snoc_put. cbn zeta.
  set (lines1 := if (c =? newline) || wraps (line ++ [c])
    then (init ++ [line ++ [c]]) ++ [[]] else init ++ [line ++ [c]]).
  eexists. split; [done|]. destruct (clears lines1) eqn:Ec.
  { split; [exact terminal_init_wf|by right]. }
  apply Forall_app in Hok as [Hi Hl]. apply Forall_singleton in Hl.
  assert (line_ok (line ++ [c])) as Hl'.
  { unfold line_ok, wraps, slen in *. apply Z.leb_gt in Hw.
    rewrite length_app. cbn [length]. lia. }
  unfold lines1 in *. destruct ((c =? newline) || wraps (line ++ [c])) eqn:E.
  - split; [|left; rewrite !concat_app; cbn; by rewrite !app_nil_r, app_assoc].
    split; [intros [_ [=]]%app_eq_nil|].
    split; [rewrite !Forall_app, !Forall_singleton; unfold line_ok at 3, slen; cbn; split; [done|lia]|].
    split; [|by left]. exists (init ++ [line ++ [c]]), []. split; [done|].
    apply Z.leb_gt. unfold slen. cbn. lia.
  - split; [|left; rewrite !concat_app; cbn; by rewrite !app_nil_r, app_assoc].
    split; [intros [_ [=]]%app_eq_nil|].
    split; [apply Forall_app; split; [done|by apply Forall_singleton]|].
    split; [|by left]. exists init, (line ++ [c]). split; [done|].
    by apply orb_false_iff in E as [_ ?].
Qed.

Lemma write_stdout_spec lines buf :
  terminal_wf lines ->
  exists lines', write_stdout lines buf = Ok (lines', slen buf) /\
    terminal_wf lines' /\
    exists kept, concat lines ++ buf = kept ++ concat lines'.
Proof.
  intros Hwf. unfold write_stdout.
  assert (exists lines', foldl (fun r c => l ← r; write_char l c) (Ok lines) buf = Ok lines' /\
    terminal_wf lines' /\ exists kept, concat lines ++ buf = kept ++ concat lines')
    as (lines' & -> & Hwf' & Hk).
  { induction buf as [|c buf IH] using rev_ind.
    - exists lines. split; [done|]. split; [done|]. exists []. apply app_nil_r.
    - destruct IH as (l1 & Hl1 & Hwf1 & kept & Hk). rewrite foldl_app, Hl1. cbn.
      destruct (write_char_spec l1 c Hwf1) as (l2 & -> & Hwf2 & Hc).
      exists l2. split; [done|]. split; [done|].
      destruct Hc as [Hc| ->].
      + exists kept. by rewrite Hc, !app_assoc, Hk.
      + exists (concat lines ++ buf ++ [c]). cbn. by rewrite app_nil_r. }
  exists lines'. done.
Qed.
End Terminal.

(** Writing any bytes to the terminal succeeds, returns their number and
    keeps the terminal well formed (a last line exists, every line fits the
    width, the screen is below the clear limit or just cleared); the text shown
    afterwards is a suffix of the text shown before followed by the bytes. *)
Theorem write_stdout_correct (W H : Z) (lines : list bytes) (buf : bytes) :
  0 < W -> terminal_wf W H lines ->
  exists lines', write_stdout W H lines buf = Ok (lines', slen buf) /\
    terminal_wf W H lines' /\
    exists gone, concat lines ++ buf = gone ++ concat lines'.
Proof. intros HW Hwf. by apply write_stdout_spec. Qed.

(** Example: the boot terminal of an 800x600 screen. *)
Lemma write_stdout_correct_witness :
  exists lines', write_stdout 800 600 terminal_init [104; 105; 10] = Ok (lines', 3) /\
    terminal_wf 800 600 lines' /\
    exists gone, concat terminal_init ++ [104; 105; 10] = gone ++ concat lines'.
Proof.
  apply (write_stdout_correct 800 600 terminal_init [104; 105; 10]); [lia|].
  apply terminal_init_wf. lia.
Defined.
