(* ===== verification/LuaRef.v ===== *)
(** * Lua values, raw tables and the reference system
      ([src/dep/lua-5.2.3/src/lauxlib.c]: [luaL_ref], [luaL_unref])

    [RawTable] is the interface the reference system uses of a Lua table with
    integer keys: raw get, raw set and raw length, with the laws the manual
    gives.  The kernel keeps its open files in the registry through
    [luaL_ref]. *)

From S2P Require Import Prelude LuaStr.

(** The values the kernel's C code stores in or reads from Lua. *)
Inductive lval :=
| VNil
| VNum (z : Z)
| VStr (s : bytes)
| VTable (id : nat)     (* a file descriptor table of the kernel *)
| VOther (id : nat).    (* any other object: the main thread, the globals, ... *)

#[export] Instance lval_eq_dec : EqDecision lval.
Proof. solve_decision. Defined.

(** [lua_tointeger]: values that are not numbers give 0. *)
Definition tointeger (v : lval) : Z := match v with VNum z => z | _ => 0 end.

(** ** The interface of a raw table *)

Class RawTable (T : Type) := {
  rawgeti : T -> Z -> lval;
  rawseti : T -> Z -> lval -> T;
  rawlen : T -> Z;
}.

(** The laws: a set is seen by the get of that key only, and the raw length is
    a border. *)
Class RawTableLaws (T : Type) {RT : RawTable T} := {
  geti_seti : forall t k v j, rawgeti (rawseti t k v) j = if decide (j = k) then v else rawgeti t j;
  len_nonneg : forall t, 0 <= rawlen t;
  len_last : forall t, rawlen t = 0 \/ rawgeti t (rawlen t) <> VNil;
  len_next : forall t, rawgeti t (rawlen t + 1) = VNil;
}.

(** ** The reference system *)

Definition freelist : Z := 0.
Definition LUA_REFNIL : Z := -1.
Definition LUA_NOREF : Z := -2.

(** Registry keys of the main thread and the globals. *)
Definition LUA_RIDX_MAINTHREAD : Z := 1.
Definition LUA_RIDX_GLOBALS : Z := 2.

Section Ref.
Context {T : Type} {RT : RawTable T}.

Definition luaL_ref (t : T) (v : lval) : T * Z :=
  if decide (v = VNil) then (t, LUA_REFNIL) else
  let ref := s32 (tointeger (rawgeti t freelist)) in
  let '(t, ref) :=
    if ref =? 0 then (t, s32 (rawlen t) + 1)
    else (rawseti t freelist (rawgeti t ref), ref) in
  (rawseti t ref v, ref).

Definition luaL_unref (t : T) (ref : Z) : T :=
  if ref >=? 0 then
    let t := rawseti t ref (rawgeti t freelist) in
    rawseti t freelist (VNum ref)
  else t.

(** ** Invariant

    Keys [1..n] are handed out; [frees] is the chain of released keys, headed
    by the value at [freelist] and linked through the released slots; every
    other key up to [n] holds a value and every key above [n] is nil. *)
Fixpoint chain (t : T) (v : lval) (frees : list Z) : Prop :=
  match frees with
  | [] => v = VNil
  | f :: frees' => v = VNum f /\ chain t (rawgeti t f) frees'
  end.

Record ref_inv (t : T) (n : Z) (frees : list Z) : Prop := {
  ri_n : 0 <= n < 2 ^ 31 - 1;
  ri_chain : chain t (rawgeti t freelist) frees;
  ri_nodup : NoDup frees;
  ri_range : Forall (fun f => 1 <= f <= n) frees;
  ri_used : forall k, 1 <= k <= n -> k ∉ frees -> rawgeti t k <> VNil;
  ri_above : forall k, n < k -> rawgeti t k = VNil;
}.

Context {L : RawTableLaws T}.

(** A chain does not depend on slots outside it. *)
Lemma chain_frame t k w v frees :
  k ∉ frees -> chain t v frees -> chain (rawseti t k w) v frees.
Proof.
  revert v. induction frees as [|f frees IH]; intros v Hk; [done|].
  intros [-> Hc]. split; [done|]. rewrite geti_seti, decide_False by set_solver.
  apply IH; [set_solver|done].
Qed.

(** With no released keys the border is [n]. *)
Lemma rawlen_full t n : ref_inv t n [] -> rawlen t = n.
Proof.
  intros [Hn _ _ _ Hu Ha].
  destruct (Z.lt_trichotomy (rawlen t) n) as [Hlt|[Heq|Hgt]]; [|done|].
  - exfalso. apply (Hu (rawlen t + 1)); [pose proof (len_nonneg t); lia|set_solver|].
    apply len_next.
  - exfalso. destruct (len_last t) as [Hz|Hl]; [lia|]. apply Hl, Ha, Hgt.
Qed.

Lemma chain_head_range t n frees :
  ref_inv t n frees ->
  s32 (tointeger (rawgeti t freelist)) =
    match frees with [] => 0 | f :: _ => f end.
Proof.
  intros [Hn Hc _ Hr _ _]. destruct frees as [|f frees]; cbn in Hc.
  - rewrite Hc. done.
  - destruct Hc as [-> _]. cbn. apply Forall_cons in Hr as [Hf _].
    apply swrap_small; [lia|clia].
Qed.

(** What one [luaL_ref] of a non-nil value does. *)
Lemma luaL_ref_spec t n frees v :
  ref_inv t n frees -> v <> VNil -> n + 1 < 2 ^ 31 - 1 ->
  let '(t', ref) := luaL_ref t v in
  exists n' frees', ref_inv t' n' frees' /\
    1 <= ref <= n' /\ ref ∉ frees' /\
    (n < ref \/ ref ∈ frees) /\
    rawgeti t' ref = v /\
    (forall k, 1 <= k -> k <> ref -> rawgeti t' k = rawgeti t k) /\
    n <= n' <= n + 1 /\
    (frees = [] -> ref = n + 1) /\
    (forall f, f ∈ frees' -> f ∈ frees) /\ (forall f, f ∈ frees -> f = ref \/ f ∈ frees').
Proof.
  intros Hinv Hv Hmax. pose proof Hinv as [Hn Hc Hnd Hr Hu Ha].
  unfold luaL_ref. rewrite decide_False by done.
  rewrite (chain_head_range t n frees Hinv).
  destruct frees as [|f frees].
  - cbn [Z.eqb]. rewrite (rawlen_full t n Hinv), swrap_small by (lia || clia).
    exists (n + 1), []. split.
    { split; [lia| |done|done| |].
      - cbn in *. rewrite geti_seti, decide_False by (unfold freelist; lia). done.
      - intros k Hk _. rewrite geti_seti. case_decide; [done|].
        apply Hu; [lia|set_solver].
      - intros k Hk. rewrite geti_seti, decide_False by lia. apply Ha. lia. }
    rewrite geti_seti, decide_True by done.
    split_and!; try (done || lia || set_solver).
    intros k _ Hk. rewrite geti_seti, decide_False by done. done.
  - apply Forall_cons in Hr as [Hf Hr]. apply NoDup_cons in Hnd as [Hnf Hnd].
    destruct Hc as [Hh Hc]. rewrite (proj2 (Z.eqb_neq f 0)) by lia.
    assert (freelist <> f) by (unfold freelist; lia).
    assert (freelist ∉ frees) as Hfl.
    { intros Hin. rewrite Forall_forall in Hr. specialize (Hr _ Hin). unfold freelist in Hr. lia. }
    exists n, frees. split.
    { split; [done| |done|done| |].
      - rewrite !geti_seti, decide_False, decide_True by done.
        apply chain_frame; [done|]. by apply chain_frame.
      - intros k Hk Hkf. rewrite geti_seti. case_decide; [done|].
        rewrite geti_seti, decide_False by (unfold freelist; lia).
        apply Hu; [done|set_solver].
      - intros k Hk. rewrite !geti_seti, !decide_False by (unfold freelist; lia).
        apply Ha. lia. }
    rewrite geti_seti, decide_True by done.
    split; [done|]. split; [done|]. split; [right; by left|]. split; [done|].
    split.
    { intros k Hk1 Hk. rewrite !geti_seti, !decide_False by (unfold freelist; lia || done).
      done. }
    split; [lia|]. split; [done|]. split; [intros g; by right|].
    intros g Hg. by apply elem_of_cons in Hg.
Qed.

Lemma luaL_unref_spec t n frees ref :
  ref_inv t n frees -> 1 <= ref <= n -> ref ∉ frees ->
  ref_inv (luaL_unref t ref) n (ref :: frees).
Proof.
  intros [Hn Hc Hnd Hr Hu Ha] Href Hnf. unfold luaL_unref.
  rewrite Z.geb_leb, (proj2 (Z.leb_le 0 ref)) by lia.
  assert (freelist ∉ frees) as Hfl.
  { intros Hin. rewrite Forall_forall in Hr. specialize (Hr _ Hin). unfold freelist in Hr. lia. }
  assert (ref <> freelist) by (unfold freelist; lia).
  split; [done| |by apply NoDup_cons|by apply Forall_cons| |].
  - rewrite geti_seti, decide_True by done. split; [done|].
    rewrite geti_seti, decide_False, geti_seti, decide_True by done.
    apply chain_frame; [done|]. by apply chain_frame.
  - intros k Hk Hkf. rewrite !geti_seti, !decide_False by (set_solver || (unfold freelist; lia)).
    apply Hu; [done|set_solver].
  - intros k Hk. rewrite !geti_seti, !decide_False by (unfold freelist; lia). by apply Ha.
Qed.
End Ref.

(** ** A reference implementation of the interface: finite maps

    Nil entries are absent; the length counts from 1. *)
Definition map_geti (t : gmap Z lval) (k : Z) : lval := default VNil (t !! k).
Definition map_seti (t : gmap Z lval) (k : Z) (v : lval) : gmap Z lval :=
  match v with VNil => delete k t | _ => <[k := v]> t end.

Fixpoint border_from (fuel : nat) (t : gmap Z lval) (k : Z) : Z :=
  match fuel with
  | O => k
  | S fuel' => if decide (map_geti t (k + 1) = VNil) then k else border_from fuel' t (k + 1)
  end.

Definition map_len (t : gmap Z lval) : Z := border_from (size t) t 0.

#[export] Instance map_table : RawTable (gmap Z lval) := {
  rawgeti := map_geti; rawseti := map_seti; rawlen := map_len;
}.

Lemma border_from_spec t fuel : forall k,
  0 <= k -> (forall j, 1 <= j <= k -> map_geti t j <> VNil) ->
  (size t <= fuel + Z.to_nat k)%nat ->
  let n := border_from fuel t k in
  k <= n /\ (forall j, 1 <= j <= n -> map_geti t j <> VNil) /\ map_geti t (n + 1) = VNil.
Proof.
  induction fuel as [|fuel IH]; intros k Hk Hall Hsz; cbn.
  - split; [lia|]. split; [done|]. unfold map_geti. destruct (t !! (k + 1)) as [v|] eqn:E; [|done].
    exfalso. assert (list_to_set (seqZ 1 (k + 1)) ⊆ dom t) as Hsub.
    { intros j Hj. apply elem_of_list_to_set, elem_of_seqZ in Hj. apply elem_of_dom.
      destruct (decide (j = k + 1)) as [->|]; [done|].
      specialize (Hall j ltac:(lia)). unfold map_geti in Hall. by destruct (t !! j). }
    apply subseteq_size in Hsub.
    rewrite size_list_to_set, length_seqZ, size_dom in Hsub by apply NoDup_seqZ. lia.
  - case_decide as Hd; [split; [lia|done]|].
    destruct (IH (k + 1)) as (H1 & H2 & H3); [lia| |lia|split; [lia|done]].
    intros j Hj. destruct (decide (j = k + 1)) as [->|]; [done|]. apply Hall. lia.
Qed.

#[export] Instance map_table_laws : RawTableLaws (gmap Z lval).
Proof.
  split; cbn.
  - intros t k v j. unfold map_geti, map_seti.
    destruct v; rewrite ?lookup_insert, ?lookup_delete;
      repeat case_decide; subst; done.
  - intros t. destruct (border_from_spec t (size t) 0) as (? & _ & _); [lia|lia|lia|done].
  - intros t. destruct (border_from_spec t (size t) 0) as (H1 & H2 & _); [lia|lia|lia|].
    fold (map_len t) in *. destruct (decide (map_len t = 0)); [by left|]. right. apply H2. lia.
  - intros t. destruct (border_from_spec t (size t) 0) as (_ & _ & ?); [lia|lia|lia|done].
Qed.

(** The registry of a fresh Lua state: the main thread and the globals. *)
Definition registry_init : gmap Z lval :=
  {[ LUA_RIDX_MAINTHREAD := VOther 0; LUA_RIDX_GLOBALS := VOther 1 ]}.

Lemma registry_init_inv : ref_inv registry_init 2 [].
Proof.
  split; [lia|done|constructor|constructor| |].
  - intros k Hk _. assert (k = 1 \/ k = 2) as [->| ->] by lia; done.
  - intros k Hk. cbn. unfold map_geti, registry_init, LUA_RIDX_MAINTHREAD, LUA_RIDX_GLOBALS.
    by rewrite !lookup_insert_ne, lookup_empty by lia.
Qed.

(** C16. For any implementation of raw tables, [luaL_ref] hands out a key that
    is not in use and stores the value there without changing any other slot,
    and [luaL_unref] of a key in use makes exactly that key available again: the
    free-list invariant holds after both. *)
Theorem luaL_ref_fresh (T : Type) (RT : RawTable T) (L : RawTableLaws T)
    (t : T) (n : Z) (frees : list Z) (v : lval) :
  ref_inv t n frees -> v <> VNil -> n + 1 < 2 ^ 31 - 1 ->
  let '(t', ref) := luaL_ref t v in
  (n < ref \/ ref ∈ frees) /\ rawgeti t' ref = v /\
  (forall k, 1 <= k -> k <> ref -> rawgeti t' k = rawgeti t k) /\
  exists n' frees', ref_inv t' n' frees' /\
    ref_inv (luaL_unref t' ref) n' (ref :: frees').
Proof.
  intros Hinv Hv Hmax. pose proof (luaL_ref_spec t n frees v Hinv Hv Hmax) as H.
  destruct (luaL_ref t v) as [t' ref].
  destruct H as (n' & frees' & Hinv' & Hr & Hnf & Hfresh & Hv' & Hk & _).
  split; [done|]. split; [done|]. split; [done|].
  exists n', frees'. split; [done|]. by apply luaL_unref_spec.
Qed.

(** Witness of C16: the first reference in a fresh registry. *)
Lemma luaL_ref_fresh_witness :
  let '(t', ref) := luaL_ref registry_init (VTable 7) in
  (2 < ref \/ ref ∈ @nil Z) /\ rawgeti t' ref = VTable 7 /\
  (forall k, 1 <= k -> k <> ref -> rawgeti t' k = rawgeti registry_init k) /\
  exists n' frees', ref_inv t' n' frees' /\ ref_inv (luaL_unref t' ref) n' (ref :: frees').
Proof.
  apply (luaL_ref_fresh (gmap Z lval) map_table map_table_laws registry_init 2 [] (VTable 7));
    [exact registry_init_inv|done|lia].
Defined.
