(* ===== verification/LuaTab.v ===== *)
(** * The Lua table library ([src/dep/lua-5.2.3/src/ltablib.c])

    [table.insert], [table.remove], [table.concat], [table.pack], [table.unpack]
    and [table.sort] over any implementation of raw tables.  The kernel keeps its
    tasks, its open files and the lines of the terminal in such tables.  An index
    is a C [int]; the comparison of [sort] is a parameter, a pure function that can
    raise a Lua error, and the default comparison is the one of the virtual
    machine. *)

From S2P Require Import Prelude LuaStr LuaRef.

Section Table.
Context {T : Type} {RT : RawTable T}.

(** [aux_getn]: the length, converted to [int] by [luaL_len]. *)
Definition aux_getn (t : T) : Z := s32 (rawlen t).

(** [luaL_argcheck]. *)
Definition argcheck (b : bool) : res unit := require_c b LuaError.

(** [for (i = e; i > pos; i--) t[i] = t[i-1]], [n] times. *)
Fixpoint move_up (n : nat) (i : Z) (t : T) : T :=
  match n with
  | O => t
  | S n' => move_up n' (i - 1) (rawseti t i (rawgeti t (i - 1)))
  end.

(** [pos] is [None] when the function is called with two arguments. *)
Definition tinsert (t : T) (pos : option Z) (v : lval) : res T :=
  e ← c_int (aux_getn t + 1);
  match pos with
  | None => Ok (rawseti t e v)
  | Some pos =>
      _ ← argcheck ((1 <=? pos) && (pos <=? e));
      let t := move_up (Z.to_nat (e - pos)) e t in
      Ok (rawseti t pos v)
  end.

(** [for ( ; pos < size; pos++) t[pos] = t[pos+1]], [n] times. *)
Fixpoint move_down (n : nat) (pos : Z) (t : T) : T :=
  match n with
  | O => t
  | S n' => move_down n' (pos + 1) (rawseti t pos (rawgeti t (pos + 1)))
  end.

(** The table and the removed value. *)
Definition tremove (t : T) (pos : option Z) : res (T * lval) :=
  let size := aux_getn t in
  let pos := default size pos in
  _ ← (if negb (pos =? size) then argcheck ((1 <=? pos) && (pos <=? size + 1)) else Ok ());
  let result := rawgeti t pos in
  let t := move_down (Z.to_nat (size - pos)) pos t in
  Ok (rawseti t (Z.max pos size) VNil, result).

Section Concat.
(** The conversion of a number to a string is the C library's. *)
Context (number2str : Z -> bytes).

Definition addfield (t : T) (i : Z) (b : bytes) : res bytes :=
  match rawgeti t i with
  | VStr s => Ok (b ++ s)
  | VNum z => Ok (b ++ number2str z)
  | _ => Err LuaError
  end.

(** [for (; i < last; i++)], [n] times. *)
Fixpoint concat_loop (n : nat) (t : T) (i : Z) (sep b : bytes) : res bytes :=
  match n with
  | O => Ok b
  | S n' => b ← addfield t i b; concat_loop n' t (i + 1) sep (b ++ sep)
  end.

Definition tconcat (t : T) (sep : option bytes) (i last : option Z) : res bytes :=
  let sep := default [] sep in
  let i := default 1 i in
  let last := match last with Some last => last | None => aux_getn t end in
  b ← concat_loop (Z.to_nat (last - i)) t i sep [];
  let i := Z.max i last in
  if i =? last then addfield t i b else Ok b.

End Concat.

(** [for (i = n; i >= 2; i--) t[i] = the value on top]. *)
Fixpoint pack_loop (t : T) (i : Z) (vs : list lval) : T :=
  match vs with
  | [] => t
  | v :: vs' => pack_loop (rawseti t i v) (i - 1) vs'
  end.

(** The elements of the table; the field ["n"] is the number. *)
Definition pack (empty : T) (args : list lval) : T * Z :=
  let n := Z.of_nat (length args) in
  let t := match args with
    | [] => empty
    | v :: args' => pack_loop (rawseti empty 1 v) n (reverse args')
    end in
  (t, n).

Definition unpack (t : T) (stack_room : Z) (i e : option Z) : res (list lval) :=
  let i := default 1 i in
  let e := match e with Some e => e | None => aux_getn t end in
  if i >? e then Ok [] else
  let n := s32 (s32 (e - i) + 1) in
  if (n <=? 0) || (stack_room <? n) then Err LuaError else
  Ok (rawgeti t i :: (rawgeti t <$> seqZ (i + 1) (e - i))).

(** ** Sorting *)

(** [sort_comp]. *)
Context (lt : lval -> lval -> res bool).

(** [set2(L, i, j)] with the two values on the stack, the top first. *)
Definition set2 (t : T) (i j : Z) (top below : lval) : T :=
  rawseti (rawseti t i top) j below.

(** [while (lua_rawgeti(L, 1, ++i), sort_comp(L, -1, -2))]. *)
Fixpoint up_loop (fuel : nat) (t : T) (p : lval) (u i : Z) : res Z :=
  match fuel with
  | O => Err NoFuel
  | S fuel' =>
      let i := i + 1 in
      b ← lt (rawgeti t i) p;
      if (b : bool) then (if i >=? u then Err LuaError else up_loop fuel' t p u i) else Ok i
  end.

(** [while (lua_rawgeti(L, 1, --j), sort_comp(L, -3, -1))]. *)
Fixpoint down_loop (fuel : nat) (t : T) (p : lval) (l j : Z) : res Z :=
  match fuel with
  | O => Err NoFuel
  | S fuel' =>
      let j := j - 1 in
      b ← lt p (rawgeti t j);
      if (b : bool) then (if j <=? l then Err LuaError else down_loop fuel' t p l j) else Ok j
  end.

(** The sort writes into the caller's table, so an error leaves the table as it
    is at that moment: [Raised t e] is the error [e] with the table [t]. *)
Inductive writing (A : Type) :=
  | Finished (a : A)
  | Raised (t : T) (e : fault).
Arguments Finished {A} a.
Arguments Raised {A} t e.

#[local] Instance writing_ret : MRet writing := fun A a => Finished a.
#[local] Instance writing_bind : MBind writing :=
  fun A B k m => match m with Finished a => k a | Raised t e => Raised t e end.

(** A call that does not write: its error leaves the table [t]. *)
Definition raising {A} (t : T) (r : res A) : writing A :=
  match r with Ok a => Finished a | Err e => Raised t e end.

(** The loop around the pivot [p]. *)
Fixpoint part_loop (fuel : nat) (t : T) (p : lval) (l u i j : Z) : writing (T * Z) :=
  match fuel with
  | O => Raised t NoFuel
  | S fuel' =>
      i ← raising t (up_loop (Z.to_nat (u - i)) t p u i);
      j ← raising t (down_loop (Z.to_nat (j - l)) t p l j);
      if j <? i then Finished (t, i)
      else part_loop fuel' (set2 t i j (rawgeti t j) (rawgeti t i)) p l u i j
  end.

(** The median of three: [a[l]], [a[i]] and [a[u]] are put in order, in the order
    of the comparisons of the source; [None] when the range is done. *)
Definition median (t : T) (l u : Z) : writing (T * option Z) :=
  let al := rawgeti t l in let au := rawgeti t u in
  b ← raising t (lt au al);
  let t := if (b : bool) then set2 t l u au al else t in
  if u - l =? 1 then Finished (t, None) else
  s ← raising t (c_int (l + u));
  let i := s / 2 in
  let ai := rawgeti t i in let al := rawgeti t l in
  b ← raising t (lt ai al);
  t ← (if (b : bool) then Finished (set2 t i l al ai)
       else
         let au := rawgeti t u in
         b ← raising t (lt au ai);
         Finished (if (b : bool) then set2 t i u au ai else t));
  Finished (t, if u - l =? 2 then None else Some i).

(** The partition: the pivot goes to [u-1], the loop runs, and the pivot is put
    between the two parts. *)
Definition partition (t : T) (l u i : Z) : writing (T * Z) :=
  let p := rawgeti t i in
  let t := set2 t i (u - 1) (rawgeti t (u - 1)) p in
  '(t, i) ← part_loop (Z.to_nat (u - l)) t p l u l (u - 1);
  Finished (set2 t (u - 1) i (rawgeti t i) (rawgeti t (u - 1)), i).

(** The smaller part first; the [while] loop goes on with the other. *)
Fixpoint auxsort (fuel : nat) (t : T) (l u : Z) : writing T :=
  match fuel with
  | O => Raised t NoFuel
  | S fuel' =>
      if negb (l <? u) then Finished t else
      '(t, m) ← median t l u;
      match m with
      | None => Finished t
      | Some i =>
          '(t, i) ← partition t l u i;
          let '(j, i, l, u) :=
            if i - l <? u - i then (l, i - 1, i + 1, u) else (i + 1, u, l, i - 1) in
          t ← auxsort fuel' t j i;
          auxsort fuel' t l u
      end
  end.

Definition sort_run (fuel : nat) (t : T) : writing T :=
  auxsort fuel t 1 (aux_getn t).

(** The caller's view: the sorted table or the error. *)
Definition sort (fuel : nat) (t : T) : res T :=
  match sort_run fuel t with Finished t => Ok t | Raised _ e => Err e end.

(** ** Ranges of a table *)

Context {L : RawTableLaws T}.

(** The elements from [l] to [u]. *)
Definition arr (t : T) (l u : Z) : list lval := rawgeti t <$> seqZ l (u - l + 1).

Lemma set2_get t i j x y k :
  rawgeti (set2 t i j x y) k = if decide (k = j) then y else if decide (k = i) then x else rawgeti t k.
Proof. unfold set2. by rewrite !geti_seti. Qed.

(** [t'] is [t] with the elements from [l] to [u] permuted. *)
Definition perm_range (l u : Z) (t t' : T) : Prop :=
  arr t' l u ≡ₚ arr t l u /\ forall k, k < l \/ u < k -> rawgeti t' k = rawgeti t k.

Lemma perm_refl l u t : perm_range l u t t.
Proof. done. Qed.

Lemma perm_sym l u t1 t2 : perm_range l u t1 t2 -> perm_range l u t2 t1.
Proof. intros [H F]. split; [by rewrite H|]. intros k Hk. by rewrite F. Qed.

Lemma perm_trans l u t1 t2 t3 : perm_range l u t1 t2 -> perm_range l u t2 t3 -> perm_range l u t1 t3.
Proof. intros [H1 F1] [H2 F2]. split; [by rewrite H2|]. intros k Hk. by rewrite F2, F1. Qed.

Lemma arr_split t l m u : l <= m + 1 -> m <= u -> arr t l u = arr t l m ++ arr t (m + 1) u.
Proof.
  intros H1 H2. unfold arr. rewrite <- fmap_app. f_equal.
  replace (u - l + 1) with ((m - l + 1) + (u - (m + 1) + 1)) by lia. rewrite seqZ_app by lia. do 2 f_equal. lia.
Qed.

Lemma arr_ext t t' l u : (forall k, l <= k <= u -> rawgeti t' k = rawgeti t k) -> arr t' l u = arr t l u.
Proof. intros H. unfold arr. apply list_fmap_ext. intros i k Hk%list_elem_of_lookup_2. apply H. apply elem_of_seqZ in Hk. lia. Qed.

Lemma perm_widen l u l' u' t t' :
  l <= l' -> u' <= u -> l' <= u' + 1 -> perm_range l' u' t t' -> perm_range l u t t'.
Proof.
  intros H1 H2 H3 [Hp Hf]. split; [|intros k Hk; apply Hf; lia].
  rewrite (arr_split t' l (l' - 1) u), (arr_split t l (l' - 1) u) by lia. rewrite Z.sub_add.
  rewrite (arr_split t' l' u' u), (arr_split t l' u' u) by lia.
  rewrite (arr_ext t t' l (l' - 1)), (arr_ext t t' (u' + 1) u) by (intros; apply Hf; lia). by rewrite Hp.
Qed.

Lemma elem_of_arr t l u v : v ∈ arr t l u <-> exists k, l <= k <= u /\ rawgeti t k = v.
Proof.
  unfold arr. rewrite list_elem_of_fmap. setoid_rewrite elem_of_seqZ. split.
  - intros (k & -> & Hk). exists k. split; [lia|done].
  - intros (k & Hk & <-). exists k. split; [done|lia].
Qed.

(** What holds of all elements still does. *)
Lemma perm_all l u t t' (Q : lval -> Prop) :
  perm_range l u t t' -> (forall k, l <= k <= u -> Q (rawgeti t k)) -> forall k, l <= k <= u -> Q (rawgeti t' k).
Proof.
  intros [Hp _] H k Hk. assert (rawgeti t' k ∈ arr t l u) as Hin.
  { rewrite <- Hp. apply elem_of_arr. by exists k. }
  apply elem_of_arr in Hin as (k' & Hk' & <-). by apply H.
Qed.

(** The transposition of two indices. *)
Definition transp (i j k : Z) : Z := if decide (k = j) then i else if decide (k = i) then j else k.

Lemma transp_invol i j k : transp i j (transp i j k) = k.
Proof. unfold transp. repeat destruct (decide _); congruence. Qed.

Lemma swap_perm l u i j t :
  l <= i <= u -> l <= j <= u -> perm_range l u t (set2 t i j (rawgeti t j) (rawgeti t i)).
Proof.
  intros Hi Hj. split.
  - assert (arr (set2 t i j (rawgeti t j) (rawgeti t i)) l u = rawgeti t <$> (transp i j <$> seqZ l (u - l + 1))) as ->.
    { unfold arr. rewrite <- list_fmap_compose. apply list_fmap_ext. intros ? k _. cbn. rewrite set2_get. unfold transp.
      by repeat destruct (decide _). }
    apply fmap_Permutation, NoDup_Permutation.
    + apply NoDup_fmap_2; [|apply NoDup_seqZ]. intros x y E. rewrite <- (transp_invol i j x), E. apply transp_invol.
    + apply NoDup_seqZ.
    + intros k. rewrite list_elem_of_fmap. setoid_rewrite elem_of_seqZ. split.
      * intros (x & -> & Hx). unfold transp. repeat destruct (decide _); lia.
      * intros Hk. exists (transp i j k). split; [by rewrite transp_invol|]. unfold transp. repeat destruct (decide _); lia.
  - intros k Hk. rewrite set2_get, !decide_False by lia. done.
Qed.

(** ** The loops of the partition *)

(** The comparison fails only with a Lua error. *)
Hypothesis lt_err : forall a b e, lt a b = Err e -> e = LuaError.

Definition compares (a b : lval) : Prop := exists r, lt a b = Ok r.

Lemma up_spec n : forall t p u i,
  n = Z.to_nat (u - i) -> i < u ->
  match up_loop n t p u i with
  | Ok i' => i < i' <= u /\ (forall k, i < k < i' -> lt (rawgeti t k) p = Ok true) /\ lt (rawgeti t i') p = Ok false
  | Err e => e = LuaError /\
      ~ exists s, i < s <= u /\ lt (rawgeti t s) p = Ok false /\ forall k, i < k <= u -> compares (rawgeti t k) p
  end.
Proof using lt_err.
  induction n as [|n IH]; intros t p u i Hn Hi; [lia|]. cbn [up_loop].
  destruct (lt (rawgeti t (i + 1)) p) as [b|e] eqn:E; cbn [mbind res_bind].
  2: { split; [by eapply lt_err|]. intros (s & Hs & _ & Hall). destruct (Hall (i + 1) ltac:(lia)) as [r Hr]. congruence. }
  destruct b.
  - rewrite Z.geb_leb. destruct (Z.leb_spec u (i + 1)) as [Hu|Hu].
    + split; [done|]. intros (s & Hs & Hf & _). assert (s = i + 1) as -> by lia. congruence.
    + specialize (IH t p u (i + 1) ltac:(lia) ltac:(lia)). destruct (up_loop n t p u (i + 1)) as [i'|e].
      * destruct IH as (H1 & H2 & H3). split; [lia|]. split; [|done]. intros k Hk.
        destruct (decide (k = i + 1)) as [->|]; [done|]. apply H2. lia.
      * destruct IH as [He Hno]. split; [done|]. intros (s & Hs & Hf & Hall). apply Hno.
        exists s. split; [destruct (decide (s = i + 1)) as [->|]; [congruence|lia]|]. split; [done|]. intros k Hk. apply Hall. lia.
  - split; [lia|]. split; [lia|done].
Qed.

Lemma down_spec n : forall t p l j,
  n = Z.to_nat (j - l) -> l < j ->
  match down_loop n t p l j with
  | Ok j' => l <= j' < j /\ (forall k, j' < k < j -> lt p (rawgeti t k) = Ok true) /\ lt p (rawgeti t j') = Ok false
  | Err e => e = LuaError /\
      ~ exists s, l <= s < j /\ lt p (rawgeti t s) = Ok false /\ forall k, l <= k < j -> compares p (rawgeti t k)
  end.
Proof using lt_err.
  induction n as [|n IH]; intros t p l j Hn Hj; [lia|]. cbn [down_loop].
  destruct (lt p (rawgeti t (j - 1))) as [b|e] eqn:E; cbn [mbind res_bind].
  2: { split; [by eapply lt_err|]. intros (s & Hs & _ & Hall). destruct (Hall (j - 1) ltac:(lia)) as [r Hr]. congruence. }
  destruct b.
  - destruct (Z.leb_spec (j - 1) l) as [Hu|Hu].
    + split; [done|]. intros (s & Hs & Hf & _). assert (s = j - 1) as -> by lia. congruence.
    + specialize (IH t p l (j - 1) ltac:(lia) ltac:(lia)). destruct (down_loop n t p l (j - 1)) as [j'|e].
      * destruct IH as (H1 & H2 & H3). split; [lia|]. split; [|done]. intros k Hk.
        destruct (decide (k = j - 1)) as [->|]; [done|]. apply H2. lia.
      * destruct IH as [He Hno]. split; [done|]. intros (s & Hs & Hf & Hall). apply Hno.
        exists s. split; [destruct (decide (s = j - 1)) as [->|]; [congruence|lia]|]. split; [done|]. intros k Hk. apply Hall. lia.
  - split; [lia|]. split; [lia|done].
Qed.

(** ** Orders

    A strict weak order on a set [D] of values; [le a b] is "not [b < a]". *)
Definition le (a b : lval) : Prop := lt b a = Ok false.

Record weak_order (D : lval -> Prop) : Prop := {
  wo_total : forall a b, D a -> D b -> compares a b;
  wo_asym : forall a b, D a -> D b -> lt a b = Ok true -> le a b;
  wo_trans : forall a b c, D a -> D b -> D c -> le a b -> le b c -> le a c;
}.

Context (D : lval -> Prop).

(** The comparison orders the elements from [l] to [u]. *)
Definition ordered_by (t : T) (l u : Z) : Prop := weak_order D /\ forall k, l <= k <= u -> D (rawgeti t k).

Lemma ordered_perm t t' l u : perm_range l u t t' -> ordered_by t l u -> ordered_by t' l u.
Proof. intros Hp [Ho Hd]. split; [done|]. by eapply perm_all. Qed.

Lemma wo_refl : weak_order D -> forall a, D a -> le a a.
Proof.
  intros Ho a Ha. destruct (wo_total _ Ho a a Ha Ha) as [[] E]; [|done].
  pose proof (wo_asym _ Ho a a Ha Ha E) as E'. unfold le in E'. congruence.
Qed.

(** A result that is right, or a Lua error that a good order of the elements from
    [l] to [u] of [t] excludes and that leaves these elements permuted. *)
Definition right_or_error {A} (t : T) (l u : Z) (r : writing A) (Q : A -> Prop) : Prop :=
  match r with
  | Finished x => Q x
  | Raised t' e => e = LuaError /\ ~ ordered_by t l u /\ perm_range l u t t'
  end.

Lemma right_bind {A B} t l u (r : writing A) (k : A -> writing B) Q R :
  right_or_error t l u r Q -> (forall x, Q x -> right_or_error t l u (k x) R) -> right_or_error t l u (r ≫= k) R.
Proof. destruct r; cbn; auto. Qed.

(** The same for a later state of the table. *)
Lemma right_later {A} t t1 l u (r : writing A) Q :
  perm_range l u t t1 -> right_or_error t1 l u r Q -> right_or_error t l u r Q.
Proof.
  intros Hp. destruct r as [x|t' e]; cbn; [done|]. intros (-> & Hno & Ht). split; [done|].
  split; [|by eapply perm_trans]. intros Ho. apply Hno. by eapply ordered_perm.
Qed.

(** The same of a part of the range. *)
Lemma right_part {A} t l u l' u' (r : writing A) Q :
  l <= l' -> u' <= u -> l' <= u' + 1 -> right_or_error t l' u' r Q -> right_or_error t l u r Q.
Proof.
  intros H1 H2 H3. destruct r as [x|t' e]; cbn; [done|]. intros (-> & Hno & Ht). split; [done|].
  split; [|by eapply perm_widen]. intros [Hwo Hd]. apply Hno. split; [done|]. intros k Hk. apply Hd. lia.
Qed.

(** The invariant of the partition loop. *)
Record part_inv (t : T) (p : lval) (l u i j : Z) : Prop := {
  pi_range : l <= i <= j /\ j <= u - 1;
  pi_meet : i = j -> l < i /\ j < u - 1;
  pi_pivot : rawgeti t (u - 1) = p;
  pi_low : forall k, l <= k <= i -> ordered_by t l u -> le (rawgeti t k) p;
  pi_high : forall k, j <= k <= u -> ordered_by t l u -> le p (rawgeti t k);
}.

(** What the loop leaves: the pivot in [u-1], the split at [i]. *)
Definition part_post (l u : Z) (t : T) (p : lval) (r : T * Z) : Prop :=
  let '(t', i) := r in
  perm_range l u t t' /\ l < i <= u /\ (ordered_by t l u -> i <= u - 1) /\ rawgeti t' (u - 1) = p /\
  (ordered_by t l u -> (forall k, l <= k < i -> le (rawgeti t' k) p) /\ (forall k, i <= k <= u -> le p (rawgeti t' k))).

Lemma part_loop_spec fuel : forall t p l u i j,
  part_inv t p l u i j -> (Z.to_nat (j - i) < fuel)%nat ->
  right_or_error t l u (part_loop fuel t p l u i j) (part_post l u t p).
Proof using lt_err L.
  induction fuel as [|fuel IH]; intros t p l u i j [Hr Hm Hp Hlo Hhi] Hf; [lia|]. cbn [part_loop].
  assert (ordered_by t l u -> D p) as HDp by (intros [_ Hd]; rewrite <- Hp; apply Hd; lia).
  assert (exists s, i < s <= u - 1 /\ j <= s) as (s & Hs & Hjs).
  { destruct (decide (i = j)) as [E|]; [exists (j + 1); specialize (Hm E); lia|exists j; lia]. }
  assert (exists s, l <= s < j /\ s <= i) as (s' & Hs' & His').
  { destruct (decide (i = j)) as [E|]; [exists (i - 1); specialize (Hm E); lia|exists i; lia]. }
  pose proof (up_spec (Z.to_nat (u - i)) t p u i eq_refl ltac:(lia)) as Hup.
  destruct (up_loop (Z.to_nat (u - i)) t p u i) as [i'|e]; cbn [raising mbind writing_bind].
  2: { destruct Hup as [-> Hno]. split; [done|]. split; [|apply perm_refl]. intros Ho. pose proof Ho as [Hwo Hd]. apply Hno. exists s.
       split; [lia|]. split; [apply Hhi; [lia|done]|]. intros k Hk. apply (wo_total _ Hwo); [apply Hd; lia|by apply HDp]. }
  destruct Hup as (Ri & Fi & Ei).
  assert (ordered_by t l u -> i' <= s) as His.
  { intros Ho. destruct (decide (i' <= s)); [done|]. specialize (Fi s ltac:(lia)). specialize (Hhi s ltac:(lia) Ho). unfold le in Hhi. congruence. }
  pose proof (down_spec (Z.to_nat (j - l)) t p l j eq_refl ltac:(lia)) as Hdn.
  destruct (down_loop (Z.to_nat (j - l)) t p l j) as [j'|e]; cbn [raising mbind writing_bind].
  2: { destruct Hdn as [-> Hno]. split; [done|]. split; [|apply perm_refl]. intros Ho. pose proof Ho as [Hwo Hd]. apply Hno. exists s'.
       split; [lia|]. split; [apply Hlo; [lia|done]|]. intros k Hk. apply (wo_total _ Hwo); [by apply HDp|apply Hd; lia]. }
  destruct Hdn as (Rj & Fj & Ej).
  assert (forall k, l <= k < i' -> ordered_by t l u -> le (rawgeti t k) p) as Hlow'.
  { intros k Hk Ho. destruct (decide (k <= i)); [apply Hlo; [lia|done]|]. pose proof Ho as [Hwo Hd].
    apply (wo_asym _ Hwo); [apply Hd; lia|by apply HDp|apply Fi; lia]. }
  assert (forall k, j' < k <= u -> ordered_by t l u -> le p (rawgeti t k)) as Hhigh'.
  { intros k Hk Ho. destruct (decide (j <= k)); [apply Hhi; [lia|done]|]. pose proof Ho as [Hwo Hd].
    apply (wo_asym _ Hwo); [by apply HDp|apply Hd; lia|apply Fj; lia]. }
  destruct (Z.ltb_spec j' i') as [Hlt|Hge].
  - cbn [right_or_error part_post]. split; [apply perm_refl|]. split; [lia|]. split; [intros Ho; specialize (His Ho); lia|].
    split; [done|]. intros Ho. split; [intros k Hk; by apply Hlow'|]. intros k Hk. apply Hhigh'; [lia|done].
  - assert (perm_range l u t (set2 t i' j' (rawgeti t j') (rawgeti t i'))) as Hperm by (apply swap_perm; lia).
    assert (part_inv (set2 t i' j' (rawgeti t j') (rawgeti t i')) p l u i' j') as Hinv.
    { split; [lia|lia| | |].
      - rewrite set2_get, !decide_False by lia. done.
      - intros k Hk Ho. assert (ordered_by t l u) as Ho0 by (eapply ordered_perm; [by apply perm_sym|exact Ho]).
        rewrite set2_get. destruct (decide (k = j')) as [->|].
        + assert (i' = j') as E' by lia. rewrite E'. exact Ej.
        + destruct (decide (k = i')); [exact Ej|]. apply Hlow'; [lia|done].
      - intros k Hk Ho. assert (ordered_by t l u) as Ho0 by (eapply ordered_perm; [by apply perm_sym|exact Ho]).
        rewrite set2_get. destruct (decide (k = j')); [exact Ei|].
        rewrite decide_False by lia. apply Hhigh'; [lia|done]. }
    specialize (IH _ p l u i' j' Hinv ltac:(lia)). apply (right_later _ _ _ _ _ _ Hperm) in IH.
    destruct (part_loop fuel _ p l u i' j') as [[t2 m]|t2 e]; cbn [right_or_error part_post] in *; [|done].
    destruct IH as (P1 & P2 & P3 & P4 & P5). split; [by eapply perm_trans|]. split; [done|].
    split; [intros Ho; apply P3; by eapply ordered_perm|]. split; [done|]. intros Ho. apply P5. by eapply ordered_perm.
Qed.

(** ** One range *)

Definition sorted_range (t : T) (l u : Z) : Prop :=
  forall x y, l <= x <= y -> y <= u -> le (rawgeti t x) (rawgeti t y).

(** The first exchange puts [a[l]] and [a[u]] in order. *)
Definition median_post (l u : Z) (t : T) (r : T * option Z) : Prop :=
  let '(t', m) := r in
  perm_range l u t t' /\
  match m with
  | None => ordered_by t l u -> sorted_range t' l u
  | Some i => 3 <= u - l /\ l < i < u - 1 /\
      (ordered_by t l u -> le (rawgeti t' l) (rawgeti t' i) /\ le (rawgeti t' i) (rawgeti t' u))
  end.

(** An exchange guarded by a comparison. *)
Lemma exchange_spec t l u x y :
  l <= x <= u -> l <= y <= u -> x <> y ->
  right_or_error t l u (raising t (lt (rawgeti t y) (rawgeti t x))) (fun b =>
    let t' := if (b : bool) then set2 t x y (rawgeti t y) (rawgeti t x) else t in
    perm_range l u t t' /\ (ordered_by t l u -> le (rawgeti t' x) (rawgeti t' y)) /\
    (forall k, k <> x -> k <> y -> rawgeti t' k = rawgeti t k) /\
    (rawgeti t' x = rawgeti t x /\ rawgeti t' y = rawgeti t y \/ rawgeti t' x = rawgeti t y /\ rawgeti t' y = rawgeti t x)).
Proof using lt_err L.
  intros Hx Hy Hne. destruct (lt (rawgeti t y) (rawgeti t x)) as [b|e] eqn:E; cbn [raising right_or_error].
  2: { split; [by eapply lt_err|]. split; [|apply perm_refl]. intros [Hwo Hd]. destruct (wo_total _ Hwo (rawgeti t y) (rawgeti t x)) as [r Hr]; [by apply Hd..|]. congruence. }
  destruct b; cbv zeta.
  - split; [by apply swap_perm|]. rewrite !set2_get, (decide_False (P := x = y)), !decide_True by done.
    split; [intros [Hwo Hd]; by apply (wo_asym _ Hwo); [apply Hd..|]|]. split; [|by right].
    intros k Hk1 Hk2. by rewrite set2_get, !decide_False.
  - split; [apply perm_refl|]. split; [by intros _|]. split; [done|by left].
Qed.

Lemma median_spec t l u :
  1 <= l < u -> u < 2 ^ 30 -> right_or_error t l u (median t l u) (median_post l u t).
Proof using lt_err L.
  intros Hl Hu. unfold median. eapply right_bind; [apply (exchange_spec t l u l u); lia|].
  intros b0. cbv zeta. cbv beta. generalize (if b0 then set2 t l u (rawgeti t u) (rawgeti t l) else t).
  intros t1 (P1 & O1 & _ & _).
  destruct (Z.eqb_spec (u - l) 1) as [E1|E1].
  { cbn. split; [done|]. intros Ho x y Hx Hy. destruct (decide (x = y)) as [->|].
    - destruct (ordered_perm _ _ _ _ P1 Ho) as [Hwo Hd]. apply wo_refl; [done|apply Hd; lia].
    - assert (x = l) as -> by lia. assert (y = u) as -> by lia. by apply O1. }
  rewrite c_int_ok by clia. cbn [raising mbind writing_bind]. set (i := (l + u) / 2).
  assert (l < i < u) as Hi by (unfold i; dlia). assert (3 <= u - l -> i < u - 1) as Hi3 by (unfold i; dlia).
  assert (forall Q, right_or_error t l u Q (fun t2 =>
      perm_range l u t1 t2 /\ (ordered_by t l u -> le (rawgeti t2 l) (rawgeti t2 i) /\ le (rawgeti t2 i) (rawgeti t2 u))) ->
    right_or_error t l u (t2 ← Q; Finished (t2, if u - l =? 2 then None else Some i)) (median_post l u t)) as Hend.
  { intros Q HQ. eapply right_bind; [exact HQ|]. intros t2 [P2 O2]. cbn. split; [by eapply perm_trans|].
    destruct (Z.eqb_spec (u - l) 2) as [E2|E2].
    - intros Ho x y Hx Hy. destruct (O2 Ho) as [A B]. assert (i = l + 1) as Ei by (unfold i; dlia).
      destruct (ordered_perm _ _ _ _ (perm_trans _ _ _ _ _ P1 P2) Ho) as [Hwo Hd].
      destruct (decide (x = y)) as [->|]; [apply wo_refl; [done|apply Hd; lia]|].
      assert (x = l /\ y = i \/ x = i /\ y = u \/ x = l /\ y = u) as [[-> ->]|[[-> ->]|[-> ->]]] by lia; [done|done|].
      apply (wo_trans _ Hwo _ (rawgeti t2 i)); [apply Hd; lia..|done|done].
    - split; [lia|]. split; [lia|done]. }
  eapply right_bind.
  { apply (right_later _ t1); [done|]. apply (exchange_spec t1 l u l i); lia. }
  intros b. cbv zeta. intros (P2 & O2 & F2 & V2). apply Hend. destruct b.
  - (* the smallest was in the middle *)
    cbn [right_or_error]. assert (perm_range l u t1 (set2 t1 i l (rawgeti t1 l) (rawgeti t1 i))) as P2' by (apply swap_perm; lia).
    split; [done|]. intros Ho. pose proof (ordered_perm _ _ _ _ P1 Ho) as Ho1.
    specialize (O2 Ho1). rewrite !set2_get in O2. rewrite !set2_get.
    repeat first [rewrite decide_True in O2 by lia|rewrite decide_False in O2 by lia].
    repeat first [rewrite decide_True by lia|rewrite decide_False by lia].
    split; [exact O2|]. by apply O1.
  - eapply right_bind.
    { apply (right_later _ t1); [done|]. apply (exchange_spec t1 l u i u); lia. }
    intros b; destruct b; cbv zeta iota; intros (P3 & O3 & F3 & V3); cbn [right_or_error]; (split; [exact P3|]);
      intros Ho; pose proof (ordered_perm _ _ _ _ P1 Ho) as Ho1; (split; [|by apply O3]); [|by apply O2].
    rewrite F3 by lia. destruct V3 as [[E3 _]|[E3 _]]; rewrite E3; [by apply O2|by apply O1].
Qed.

Definition partition_post (l u : Z) (t : T) (r : T * Z) : Prop :=
  let '(t', m) := r in
  perm_range l u t t' /\ l < m <= u /\
  (ordered_by t l u -> m <= u - 1 /\
     (forall k, l <= k < m -> le (rawgeti t' k) (rawgeti t' m)) /\
     (forall k, m < k <= u -> le (rawgeti t' m) (rawgeti t' k))).

Lemma partition_spec t l u i :
  3 <= u - l -> l < i < u - 1 ->
  (ordered_by t l u -> le (rawgeti t l) (rawgeti t i) /\ le (rawgeti t i) (rawgeti t u)) ->
  right_or_error t l u (partition t l u i) (partition_post l u t).
Proof using lt_err L.
  intros Hu Hi Hm. unfold partition. set (p := rawgeti t i).
  assert (perm_range l u t (set2 t i (u - 1) (rawgeti t (u - 1)) p)) as P1 by (apply swap_perm; lia).
  set (t1 := set2 t i (u - 1) (rawgeti t (u - 1)) p) in *.
  assert (forall k, rawgeti t1 k = if decide (k = u - 1) then p else if decide (k = i) then rawgeti t (u - 1) else rawgeti t k) as G1
    by (intros; apply set2_get).
  assert (ordered_by t1 l u -> ordered_by t l u) as Hback by (apply ordered_perm; by apply perm_sym).
  assert (part_inv t1 p l u l (u - 1)) as Hinv.
  { split; [lia|lia|by rewrite G1, decide_True| |].
    - intros k Hk Ho. assert (k = l) as -> by lia. rewrite G1, !decide_False by lia. by apply Hm, Hback.
    - intros k Hk Ho. apply Hback in Ho. rewrite G1. destruct (decide (k = u - 1)) as [->|].
      + destruct Ho as [Hwo Hd]. apply wo_refl; [done|apply Hd; lia].
      + assert (k = u) as -> by lia. rewrite decide_False by lia. by apply Hm. }
  pose proof (part_loop_spec (Z.to_nat (u - l)) t1 p l u l (u - 1) Hinv ltac:(lia)) as Hl.
  apply (right_later _ _ _ _ _ _ P1) in Hl.
  destruct (part_loop _ t1 p l u l (u - 1)) as [[t2 m]|t2 e]; cbn [mbind writing_bind right_or_error part_post] in *; [|done].
  destruct Hl as (P2 & Rm & Rm' & Ep & Hparts).
  assert (perm_range l u t2 (set2 t2 (u - 1) m (rawgeti t2 m) (rawgeti t2 (u - 1)))) as P3 by (apply swap_perm; lia).
  split; [eapply perm_trans; [exact P1|]; by eapply perm_trans|]. split; [done|].
  intros Ho. pose proof (ordered_perm _ _ _ _ P1 Ho) as Ho1. specialize (Rm' Ho1). destruct (Hparts Ho1) as [Hlow Hhigh].
  split; [done|]. rewrite set2_get, decide_True, Ep by done. split.
  - intros k Hk. rewrite set2_get, !decide_False by lia. by apply Hlow.
  - intros k Hk. rewrite set2_get, decide_False by lia. destruct (decide (k = u - 1)); apply Hhigh; lia.
Qed.

(** Sorted parts on both sides of an element between them. *)
Lemma sorted_join t l u m :
  ordered_by t l u -> l <= m <= u -> sorted_range t l (m - 1) -> sorted_range t (m + 1) u ->
  (forall k, l <= k < m -> le (rawgeti t k) (rawgeti t m)) ->
  (forall k, m < k <= u -> le (rawgeti t m) (rawgeti t k)) -> sorted_range t l u.
Proof.
  intros [Hwo Hd] Hm H1 H2 H3 H4 x y Hx Hy. assert (forall k, l <= k <= u -> D (rawgeti t k)) as Hd' by done.
  destruct (Z.lt_trichotomy x m) as [Hxm|[->|Hxm]].
  - destruct (Z.lt_trichotomy y m) as [Hym|[->|Hym]].
    + apply H1; lia.
    + apply H3; lia.
    + apply (wo_trans _ Hwo _ (rawgeti t m)); [apply Hd'; lia..|apply H3; lia|apply H4; lia].
  - destruct (decide (y = m)) as [->|]; [apply wo_refl; [done|by apply Hd']|]. apply H4. lia.
  - apply H2; lia.
Qed.

(** The two parts of a partition of [t2], sorted one after the other in either
    order: from [a] to [b] first, then from [a'] to [b']. *)
Definition parts (l u m a b a' b' : Z) : Prop :=
  a = l /\ b = m - 1 /\ a' = m + 1 /\ b' = u \/ a = m + 1 /\ b = u /\ a' = l /\ b' = m - 1.

(** What holds of a part of [t2] holds of it after both sorts. *)
Lemma parts_all l u m a b a' b' t2 t3 t4 (Q : lval -> Prop) :
  parts l u m a b a' b' -> perm_range a b t2 t3 -> perm_range a' b' t3 t4 ->
  forall x y, x = a /\ y = b \/ x = a' /\ y = b' ->
  (forall k, x <= k <= y -> Q (rawgeti t2 k)) -> forall k, x <= k <= y -> Q (rawgeti t4 k).
Proof.
  intros Hp Q1 Q2 x y Hxy H. destruct Hxy as [[-> ->]|[-> ->]].
  - intros k Hk. rewrite (proj2 Q2) by (destruct Hp; lia). revert k Hk. by apply (perm_all _ _ t2).
  - apply (perm_all _ _ t3); [done|]. intros k Hk. rewrite (proj2 Q1) by (destruct Hp; lia). by apply H.
Qed.

Lemma parts_sorted l u m a b a' b' t2 t3 t4 :
  l <= m <= u -> parts l u m a b a' b' -> ordered_by t2 l u ->
  (forall k, l <= k < m -> le (rawgeti t2 k) (rawgeti t2 m)) ->
  (forall k, m < k <= u -> le (rawgeti t2 m) (rawgeti t2 k)) ->
  perm_range a b t2 t3 -> sorted_range t3 a b -> perm_range a' b' t3 t4 -> sorted_range t4 a' b' ->
  perm_range l u t2 t4 /\ sorted_range t4 l u.
Proof.
  intros Hm Hp Ho Hlow Hhigh Q1 S1 Q2 S2.
  assert (perm_range l u t2 t4) as W.
  { eapply perm_trans; [eapply (perm_widen l u a b)|eapply (perm_widen l u a' b')]; try eassumption; destruct Hp; lia. }
  split; [done|]. assert (rawgeti t4 m = rawgeti t2 m) as Em by (rewrite (proj2 Q2), (proj2 Q1) by (destruct Hp; lia); done).
  assert (sorted_range t4 a b) as S1'.
  { intros x y Hx Hy. rewrite !(proj2 Q2) by (destruct Hp; lia). by apply S1. }
  pose proof (parts_all l u m a b a' b' t2 t3 t4) as Hall.
  apply (sorted_join t4 l u m); [by eapply ordered_perm|lia| | | |].
  - destruct Hp as [(-> & -> & -> & ->)|(-> & -> & -> & ->)]; done.
  - destruct Hp as [(-> & -> & -> & ->)|(-> & -> & -> & ->)]; done.
  - intros k Hk. rewrite Em. apply (Hall (fun v => le v (rawgeti t2 m)) Hp Q1 Q2 l (m - 1)); [destruct Hp; lia| |lia].
    intros; apply Hlow; lia.
  - intros k Hk. rewrite Em. apply (Hall (fun v => le (rawgeti t2 m) v) Hp Q1 Q2 (m + 1) u); [destruct Hp; lia| |lia].
    intros; apply Hhigh; lia.
Qed.

(** Sorting a part keeps its bounds. *)
Lemma auxsort_spec fuel : forall t l u,
  1 <= l -> u < 2 ^ 30 -> (Z.to_nat (u - l) < fuel)%nat ->
  right_or_error t l u (auxsort fuel t l u) (fun t' =>
    perm_range l u t t' /\ (ordered_by t l u -> sorted_range t' l u)).
Proof using lt_err L.
  induction fuel as [|fuel IH]; intros t l u Hl Hu Hf; [lia|]. cbn [auxsort].
  destruct (Z.ltb_spec l u) as [Hlu|Hlu]; cbn [negb].
  2: { cbn. split; [apply perm_refl|]. intros [Hwo Hd] x y Hx Hy. assert (x = y) as -> by lia. apply wo_refl; [done|apply Hd; lia]. }
  eapply right_bind; [apply median_spec; lia|]. intros [t1 [i|]]; cbn [median_post].
  2: { intros [P1 S1]. by split. }
  intros (P1 & Hu3 & Hi & Hmed). eapply right_bind.
  { apply (right_later _ t1); [done|]. apply (partition_spec t1 l u i Hu3 Hi).
    intros Ho. apply Hmed. eapply ordered_perm; [by apply perm_sym|done]. }
  intros [t2 m] (P2 & Rm & Hparts). pose proof (perm_trans _ _ _ _ _ P1 P2) as P12.
  assert (forall t' a b, l <= a -> b <= u -> a <= b + 1 -> b - a < u - l -> perm_range l u t t' ->
    right_or_error t l u (auxsort fuel t' a b) (fun t'' =>
      perm_range a b t' t'' /\ (ordered_by t l u -> sorted_range t'' a b))) as Hrec.
  { intros t' a b Ha Hb Hab1 Hab Pt. specialize (IH t' a b ltac:(lia) ltac:(lia) ltac:(lia)).
    pose proof (right_later _ _ _ _ _ _ Pt (right_part _ l u _ _ _ _ Ha Hb Hab1 IH)) as Herr.
    assert (ordered_by t l u -> ordered_by t' a b) as Hto.
    { intros Ho. destruct (ordered_perm _ _ _ _ Pt Ho) as [Hwo Hd]. split; [done|]. intros k Hk. apply Hd. lia. }
    destruct (auxsort fuel t' a b) as [t''|t'' e]; cbn [right_or_error] in *; [|done].
    destruct IH as [Q1 Q2]. split; [done|]. intros Ho. by apply Q2, Hto. }
  assert (forall a b a' b', parts l u m a b a' b' ->
    right_or_error t l u (t3 ← auxsort fuel t2 a b; auxsort fuel t3 a' b') (fun t' =>
      perm_range l u t t' /\ (ordered_by t l u -> sorted_range t' l u))) as Hboth.
  { intros a b a' b' Hp. eapply right_bind; [apply (Hrec t2 a b); [destruct Hp; lia..|done]|]. intros t3 [Q1 S1].
    assert (perm_range l u t2 t3) as W1 by (eapply (perm_widen l u a b); [..|exact Q1]; destruct Hp; lia).
    pose proof (Hrec t3 a' b' ltac:(destruct Hp; lia) ltac:(destruct Hp; lia) ltac:(destruct Hp; lia) ltac:(destruct Hp; lia) (perm_trans _ _ _ _ _ P12 W1)) as H2.
    destruct (auxsort fuel t3 a' b') as [t4|t4 e]; cbn [right_or_error] in *; [|done]. destruct H2 as [Q2 S2]. split.
    - eapply perm_trans; [exact P12|]. eapply perm_trans; [exact W1|]. eapply (perm_widen l u a' b'); [..|exact Q2]; destruct Hp; lia.
    - intros Ho. destruct (Hparts (ordered_perm _ _ _ _ P1 Ho)) as (Hmu & Hlow & Hhigh).
      apply (parts_sorted l u m a b a' b' t2 t3 t4); try done; [lia|by eapply ordered_perm|by apply S1|by apply S2]. }
  destruct (m - l <? u - m); apply Hboth; [left|right]; done.
Qed.
End Table.
Arguments Finished {T A} a.
Arguments Raised {T A} t e.

(** ** The default comparison ([src/dep/lua-5.2.3/src/lvm.c])

    [l_strcmp] compares strings with embedded zeros piece by piece with [strcoll],
    which in musl is [strcmp].  A string has a zero after its last byte. *)

(** [strcmp] of the C strings at the start of two Lua strings. *)
Fixpoint str_cmp (l r : bytes) : Z :=
  match l, r with
  | [], [] => 0
  | [], d :: _ => - d
  | c :: _, [] => c
  | c :: l', d :: r' => if (c =? d) && negb (c =? 0) then str_cmp l' r' else c - d
  end.

(** [strlen]. *)
Fixpoint cstr_len (l : bytes) : nat :=
  match l with
  | [] => O
  | c :: l' => if c =? 0 then O else S (cstr_len l')
  end.

Fixpoint l_strcmp_loop (fuel : nat) (l r : bytes) : res Z :=
  match fuel with
  | O => Err NoFuel
  | S fuel' =>
      let temp := str_cmp l r in
      if negb (temp =? 0) then Ok temp
      else
        let len := cstr_len l in
        if decide (len = length r) then Ok (if decide (len = length l) then 0 else 1)
        else if decide (len = length l) then Ok (-1)
        else l_strcmp_loop fuel' (drop (S len) l) (drop (S len) r)
  end.

Definition l_strcmp (l r : bytes) : res Z := l_strcmp_loop (S (length l)) l r.

(** Without metamethods; a number is compared as a number. *)
Definition luaV_lessthan (a b : lval) : res bool :=
  match a, b with
  | VNum x, VNum y => Ok (x <? y)
  | VStr s, VStr t => c ← l_strcmp s t; Ok (c <? 0)
  | _, _ => Err LuaError
  end.

(** The order of byte strings. *)
Fixpoint lex (l r : bytes) : comparison :=
  match l, r with
  | [], [] => Eq
  | [], _ :: _ => Lt
  | _ :: _, [] => Gt
  | c :: l', d :: r' => match c ?= d with Eq => lex l' r' | x => x end
  end.

Lemma lex_common x l r : lex (x ++ l) (x ++ r) = lex l r.
Proof. induction x as [|c x IH]; [done|]. cbn. by rewrite Z.compare_refl. Qed.

(** The end of a C string: the end of the Lua string or a zero. *)
Definition at_end (l : bytes) : Prop := l = [] \/ exists l', l = 0 :: l'.

Lemma str_cmp_spec l : forall r,
  Forall is_byte l -> Forall is_byte r ->
  (str_cmp l r <> 0 /\ lex l r = (str_cmp l r ?= 0)) \/
  (str_cmp l r = 0 /\ exists x l' r', l = x ++ l' /\ r = x ++ r' /\ at_end l' /\ at_end r' /\ cstr_len l = length x).
Proof.
  unfold at_end. induction l as [|c l IH]; intros [|d r] Hl Hr; cbn [str_cmp lex cstr_len].
  - right. split; [done|]. exists [], [], []. split_and!; try done; by left.
  - apply Forall_cons_1 in Hr as [Hd _]. unfold is_byte in Hd. destruct (decide (d = 0)) as [->|].
    + right. split; [done|]. exists [], [], (0 :: r). split_and!; try done; [by left|right; by exists r].
    + left. split; [lia|]. symmetry. apply Z.compare_lt_iff. lia.
  - apply Forall_cons_1 in Hl as [Hc _]. unfold is_byte in Hc. destruct (decide (c = 0)) as [->|].
    + right. split; [done|]. exists [], (0 :: l), []. split_and!; try done; [right; by exists l|by left].
    + left. split; [lia|]. symmetry. apply Z.compare_gt_iff. lia.
  - apply Forall_cons_1 in Hl as [Hc Hl]. apply Forall_cons_1 in Hr as [Hd Hr].
    destruct (Z.eqb_spec c d) as [->|Hne]; cbn [andb].
    + rewrite Z.compare_refl. destruct (Z.eqb_spec d 0) as [->|H0]; cbn [negb].
      * right. split; [done|]. exists [], (0 :: l), (0 :: r). split_and!; try done; right; [by exists l|by exists r].
      * destruct (IH r Hl Hr) as [H|(E & x & l' & r' & -> & -> & Al & Ar & El)]; [by left|]. right. split; [done|].
        exists (d :: x), l', r'. cbn [app length]. by rewrite El.
    + left. split; [lia|]. destruct (Z.compare_spec c d) as [|Hlt|Hgt]; [lia| |]; symmetry.
      * apply Z.compare_lt_iff. lia.
      * apply Z.compare_gt_iff. lia.
Qed.

Lemma l_strcmp_lex fuel : forall l r,
  Forall is_byte l -> Forall is_byte r -> (length l < fuel)%nat ->
  exists z, l_strcmp_loop fuel l r = Ok z /\ lex l r = (z ?= 0).
Proof.
  induction fuel as [|fuel IH]; intros l r Hl Hr Hf; [lia|]. cbn [l_strcmp_loop].
  destruct (str_cmp_spec l r Hl Hr) as [[Hne Hlex]|(E & x & l' & r' & -> & -> & Al & Ar & El)].
  - rewrite (proj2 (Z.eqb_neq _ _) Hne). cbn. by eexists.
  - rewrite E. cbn [negb Z.eqb]. rewrite El, lex_common, !length_app.
    apply Forall_app in Hl as [_ Hl]. apply Forall_app in Hr as [_ Hr]. rewrite length_app in Hf.
    destruct Ar as [->|(r2 & ->)]; destruct Al as [->|(l2 & ->)]; cbn [length].
    + rewrite !decide_True by lia. by eexists.
    + rewrite decide_True, decide_False by lia. by eexists.
    + rewrite decide_False, decide_True by lia. by eexists.
    + rewrite !decide_False by lia. apply Forall_cons_1 in Hl as [_ Hl]. apply Forall_cons_1 in Hr as [_ Hr].
      rewrite !drop_app_ge by lia. replace (S (length x) - length x)%nat with 1%nat by lia. cbn [length] in Hf. cbn [drop lex].
      destruct (IH l2 r2 Hl Hr ltac:(lia)) as (z & Ez & Hz). exists z. by rewrite Z.compare_refl.
Qed.

Lemma lex_sym l : forall r, lex r l = CompOpp (lex l r).
Proof.
  induction l as [|c l IH]; intros [|d r]; cbn; try done. rewrite (Z.compare_antisym c d).
  destruct (c ?= d); cbn; [apply IH|done|done].
Qed.

Lemma lex_ge_trans l : forall r q, lex r l <> Lt -> lex q r <> Lt -> lex q l <> Lt.
Proof.
  induction l as [|c l IH]; intros [|d r] [|e q]; cbn; try done.
  destruct (Z.compare_spec d c), (Z.compare_spec e d); subst; try done.
  - rewrite Z.compare_refl. apply IH.
  - intros _ _. by rewrite (proj2 (Z.compare_gt_iff _ _)) by lia.
  - intros _ _. by rewrite (proj2 (Z.compare_gt_iff _ _)) by lia.
  - intros _ _. by rewrite (proj2 (Z.compare_gt_iff _ _)) by lia.
Qed.

Lemma cstr_len_le l : (cstr_len l <= length l)%nat.
Proof. induction l as [|c l IH]; cbn; [lia|]. destruct (c =? 0); lia. Qed.

(** The loop ends: each turn drops a byte at least. *)
Lemma l_strcmp_ends fuel : forall l r e, (length l < fuel)%nat -> l_strcmp_loop fuel l r <> Err e.
Proof.
  induction fuel as [|fuel IH]; intros l r e Hf; [lia|]. cbn [l_strcmp_loop]. destruct (negb _); [done|].
  destruct (decide _); [done|]. destruct (decide _) as [|Hne]; [done|]. apply IH.
  rewrite length_drop. pose proof (cstr_len_le l). lia.
Qed.

Lemma luaV_lessthan_err a b e : luaV_lessthan a b = Err e -> e = LuaError.
Proof.
  destruct a as [| |s| |], b as [| |t| |]; unfold luaV_lessthan; intros E; try (by injection E as <-); try done.
  unfold l_strcmp in E. destruct (l_strcmp_loop (S (length s)) s t) as [z|e'] eqn:Es; [done|].
  by apply l_strcmp_ends in Es; [|lia].
Qed.

(** Numbers, and strings of bytes. *)
Definition is_num (v : lval) : Prop := exists z, v = VNum z.
Definition is_str (v : lval) : Prop := exists s, v = VStr s /\ Forall is_byte s.

Lemma lessthan_str s t :
  Forall is_byte s -> Forall is_byte t ->
  luaV_lessthan (VStr s) (VStr t) = Ok (match lex s t with Lt => true | _ => false end).
Proof.
  intros Hs Ht. unfold luaV_lessthan, l_strcmp. destruct (l_strcmp_lex (S (length s)) s t Hs Ht ltac:(lia)) as (z & -> & ->).
  by destruct z.
Qed.

Lemma numbers_ordered : weak_order luaV_lessthan is_num.
Proof.
  split.
  - intros a b [x ->] [y ->]. by eexists.
  - intros a b [x ->] [y ->]. unfold le. cbn. intros [= E%Z.ltb_lt]. f_equal. apply Z.ltb_ge. lia.
  - intros a b c [x ->] [y ->] [z ->]. unfold le. cbn. intros [= E1%Z.ltb_ge] [= E2%Z.ltb_ge]. f_equal. apply Z.ltb_ge. lia.
Qed.

Lemma strings_ordered : weak_order luaV_lessthan is_str.
Proof.
  split.
  - intros a b (x & -> & Hx) (y & -> & Hy). unfold compares. rewrite lessthan_str by done. by eexists.
  - intros a b (x & -> & Hx) (y & -> & Hy). unfold le. rewrite !lessthan_str by done. rewrite (lex_sym x y). by destruct (lex x y).
  - intros a b c (x & -> & Hx) (y & -> & Hy) (z & -> & Hz). unfold le. rewrite !lessthan_str by done.
    intros E1 E2. pose proof (lex_ge_trans x y z) as H.
    destruct (lex y x); [|done|]; (destruct (lex z y); [|done|]); destruct (lex z x); done || (exfalso; by apply H).
Qed.

(** ** Sequences

    A table whose positive keys hold the list [vs], without nils. *)
Section Sequences.
Context {T : Type} {RT : RawTable T} {L : RawTableLaws T}.

Definition is_seq (t : T) (vs : list lval) : Prop :=
  (forall k : nat, rawgeti t (Z.of_nat k + 1) = default VNil (vs !! k)) /\ VNil ∉ vs.

Lemma seq_get t vs k : is_seq t vs -> 1 <= k -> rawgeti t k = default VNil (vs !! Z.to_nat (k - 1)).
Proof. intros [H _] Hk. rewrite <- H. f_equal. lia. Qed.

Lemma seq_len t vs : is_seq t vs -> rawlen t = Z.of_nat (length vs).
Proof using L.
  intros Hs. pose proof Hs as [_ Hn]. pose proof (len_nonneg t) as H0.
  destruct (Z.lt_trichotomy (rawlen t) (Z.of_nat (length vs))) as [Hlt|[?|Hgt]]; [|done|].
  - pose proof (len_next t) as E. rewrite (seq_get t vs) in E by (done || lia).
    destruct (vs !! Z.to_nat (rawlen t + 1 - 1)) as [v|] eqn:Ev.
    + cbn in E. subst v. by apply list_elem_of_lookup_2 in Ev.
    + apply lookup_ge_None_1 in Ev. lia.
  - destruct (len_last t) as [E|E]; [lia|]. exfalso. apply E. rewrite (seq_get t vs) by (done || lia).
    rewrite lookup_ge_None_2 by lia. done.
Qed.

Lemma seq_getn t vs : is_seq t vs -> Z.of_nat (length vs) < 2 ^ 31 - 1 -> aux_getn t = Z.of_nat (length vs).
Proof using L. intros Hs Hl. unfold aux_getn. rewrite (seq_len t vs Hs). apply swrap_small; [lia|clia]. Qed.

Lemma move_up_get n : forall i t k,
  rawgeti (move_up n i t) k = if decide (i - Z.of_nat n < k <= i) then rawgeti t (k - 1) else rawgeti t k.
Proof using L.
  induction n as [|n IH]; intros i t k; cbn [move_up]; [by rewrite decide_False by lia|].
  rewrite IH, !geti_seti. destruct (decide (i - 1 - Z.of_nat n < k <= i - 1)).
  - by rewrite decide_False, decide_True by lia.
  - destruct (decide (k = i)) as [->|].
    + by rewrite decide_True by lia.
    + by rewrite decide_False by lia.
Qed.

Lemma move_down_get n : forall pos t k,
  rawgeti (move_down n pos t) k = if decide (pos <= k < pos + Z.of_nat n) then rawgeti t (k + 1) else rawgeti t k.
Proof using L.
  induction n as [|n IH]; intros pos t k; cbn [move_down]; [by rewrite decide_False by lia|].
  rewrite IH, !geti_seti. destruct (decide (pos + 1 <= k < pos + 1 + Z.of_nat n)).
  - by rewrite decide_False, decide_True by lia.
  - destruct (decide (k = pos)) as [->|].
    + by rewrite decide_True by lia.
    + by rewrite decide_False by lia.
Qed.

(** The list with [v] put at index [p]. *)
Definition list_put (p : nat) (v : lval) (vs : list lval) : list lval := take p vs ++ v :: drop p vs.

Lemma lookup_list_put p v vs k :
  (p <= length vs)%nat -> list_put p v vs !! k = if decide (k = p) then Some v else if decide (k < p)%nat then vs !! k else vs !! (k - 1)%nat.
Proof.
  intros Hp. unfold list_put. destruct (decide (k < p)%nat) as [Hlt|Hge].
  - rewrite decide_False by lia. rewrite lookup_app_l by (rewrite length_take; lia). by rewrite lookup_take_lt.
  - rewrite lookup_app_r by (rewrite length_take; lia). rewrite length_take, Nat.min_l by lia.
    destruct (decide (k = p)) as [->|]; [by rewrite Nat.sub_diag|].
    replace (k - p)%nat with (S (k - p - 1)) by lia. rewrite <- lookup_tail. cbn [tail]. rewrite lookup_drop. f_equal. lia.
Qed.

Lemma insert_seq t vs p v :
  is_seq t vs -> v <> VNil -> (p <= length vs)%nat -> Z.of_nat (length vs) < 2 ^ 31 - 1 ->
  exists t', tinsert t (Some (Z.of_nat p + 1)) v = Ok t' /\ is_seq t' (list_put p v vs).
Proof using L.
  intros Hs Hv Hp Hl. unfold tinsert. rewrite (seq_getn t vs) by done.
  rewrite c_int_ok by clia. cbn [mbind res_bind].
  rewrite (proj2 (Z.leb_le 1 _)), (proj2 (Z.leb_le _ _)) by lia. cbn [andb argcheck require_c mbind res_bind].
  eexists. split; [done|]. split.
  - intros k. rewrite geti_seti, move_up_get, lookup_list_put by done. destruct (decide (k = p)) as [->|]; [by rewrite decide_True by lia|].
    rewrite decide_False by lia. destruct (decide (k < p)%nat).
    + rewrite decide_False by lia. apply Hs.
    + destruct (decide (k <= length vs)%nat).
      * rewrite decide_True by lia. rewrite (seq_get t vs) by (done || lia). do 2 f_equal. lia.
      * rewrite decide_False by lia. rewrite (seq_get t vs) by (done || lia). rewrite !lookup_ge_None_2 by lia. done.
  - destruct Hs as [_ Hn]. unfold list_put. rewrite not_elem_of_app, not_elem_of_cons. split_and!; [|done|].
    + intros Hin. apply Hn. rewrite <- (take_drop p vs), elem_of_app. by left.
    + intros Hin. apply Hn. rewrite <- (take_drop p vs), elem_of_app. by right.
Qed.

(** Called with two arguments, the end of the sequence. *)
Lemma append_seq t vs v :
  is_seq t vs -> v <> VNil -> Z.of_nat (length vs) < 2 ^ 31 - 1 ->
  exists t', tinsert t None v = Ok t' /\ is_seq t' (vs ++ [v]).
Proof using L.
  intros Hs Hv Hl. destruct (insert_seq t vs (length vs) v Hs Hv (Nat.le_refl _) Hl) as (t' & E & Hs').
  unfold list_put in Hs'. rewrite take_ge, drop_ge in Hs' by lia. exists t'. split; [|done]. rewrite <- E.
  unfold tinsert. rewrite (seq_getn t vs) by done. rewrite c_int_ok by clia. cbn [mbind res_bind].
  rewrite (proj2 (Z.leb_le 1 _)), Z.leb_refl, Z.sub_diag by lia. done.
Qed.

Lemma remove_seq t vs p v :
  is_seq t vs -> vs !! p = Some v -> Z.of_nat (length vs) < 2 ^ 31 - 1 ->
  exists t', tremove t (Some (Z.of_nat p + 1)) = Ok (t', v) /\ is_seq t' (delete p vs).
Proof using L.
  intros Hs Hp Hl. pose proof (lookup_lt_Some _ _ _ Hp) as Hlt. unfold tremove. rewrite (seq_getn t vs) by done. cbn [default from_option id].
  assert ((if negb (Z.of_nat p + 1 =? Z.of_nat (length vs)) then argcheck ((1 <=? Z.of_nat p + 1) && (Z.of_nat p + 1 <=? Z.of_nat (length vs) + 1)) else Ok ()) = Ok ()) as Ec.
  { destruct (negb _); [|done]. by rewrite (proj2 (Z.leb_le 1 _)), (proj2 (Z.leb_le _ _)) by lia. }
  change (default (Z.of_nat (length vs)) (Some (Z.of_nat p + 1))) with (Z.of_nat p + 1). rewrite Ec. cbn [mbind res_bind].
  pose proof (proj1 Hs p) as Hv. rewrite Hp in Hv. cbn in Hv. rewrite Hv. eexists. split; [done|]. split.
  - intros k. rewrite geti_seti, move_down_get. rewrite Z.max_r by lia. destruct (decide (Z.of_nat k + 1 = Z.of_nat (length vs))).
    + rewrite lookup_ge_None_2; [done|]. pose proof (length_delete vs p ltac:(by eexists)). lia.
    + destruct (decide (k < p)%nat).
      * rewrite decide_False by lia. rewrite list_lookup_delete_lt by done. apply Hs.
      * rewrite list_lookup_delete_ge by lia. destruct (decide (k < length vs)%nat).
        -- rewrite decide_True by lia. rewrite (seq_get t vs) by (done || lia). do 2 f_equal. lia.
        -- rewrite decide_False by lia. rewrite (seq_get t vs) by (done || lia). rewrite !lookup_ge_None_2 by lia. done.
  - intros Hin. apply Hs. by eapply list_elem_of_delete_inv, Hin.
Qed.

(** A permuted range of a sequence is a sequence. *)
Lemma seq_arr t vs : is_seq t vs -> arr t 1 (Z.of_nat (length vs)) = vs.
Proof.
  intros [Hs _]. apply list_eq. intros k. unfold arr. rewrite list_lookup_fmap.
  destruct (decide (k < length vs)%nat) as [Hk|Hk].
  - rewrite lookup_seqZ_lt by lia. cbn. rewrite Z.add_comm, Hs. by destruct (lookup_lt_is_Some_2 _ _ Hk) as [v ->].
  - rewrite lookup_seqZ_ge by lia. by rewrite lookup_ge_None_2 by lia.
Qed.

Lemma perm_seq t t' vs :
  is_seq t vs -> perm_range 1 (Z.of_nat (length vs)) t t' ->
  is_seq t' (arr t' 1 (Z.of_nat (length vs))) /\ arr t' 1 (Z.of_nat (length vs)) ≡ₚ vs.
Proof.
  intros Hs [Hp Hf]. rewrite (seq_arr t vs Hs) in Hp. split; [|done]. split; [|rewrite Hp; apply Hs].
  intros k. unfold arr. rewrite list_lookup_fmap. destruct (decide (k < length vs)%nat).
  - rewrite lookup_seqZ_lt by lia. cbn. f_equal. lia.
  - rewrite lookup_seqZ_ge by lia. cbn. rewrite Hf by lia. rewrite (proj1 Hs), lookup_ge_None_2 by lia. done.
Qed.

(** Every index outside the sequence has the value it had. *)
Definition outside_kept (t t' : T) (vs : list lval) : Prop :=
  forall k, k < 1 \/ Z.of_nat (length vs) < k -> rawgeti t' k = rawgeti t k.

(** No element is less than one before it. *)
Definition list_sorted (lt : lval -> lval -> res bool) (vs : list lval) : Prop :=
  forall i j a b, vs !! i = Some a -> vs !! j = Some b -> (i < j)%nat -> le lt a b.

Lemma sorted_arr lt t n :
  sorted_range lt t 1 (Z.of_nat n) -> list_sorted lt (arr t 1 (Z.of_nat n)).
Proof.
  intros Hs i j a b Hi Hj Hij. unfold arr in Hi, Hj.
  apply list_lookup_fmap_Some in Hi as (x & -> & [-> Hx]%lookup_seqZ).
  apply list_lookup_fmap_Some in Hj as (y & -> & [-> Hy]%lookup_seqZ). apply Hs; lia.
Qed.

(** The two ends of a sort: both leave a permutation of the elements and every
    other index as it was; it is sorted when the comparison is a strict weak order of
    the elements, and there is no error then. *)
Lemma sort_seq lt D t vs :
  (forall a b e, lt a b = Err e -> e = LuaError) -> is_seq t vs -> Z.of_nat (length vs) < 2 ^ 30 ->
  match sort_run lt (S (length vs)) t with
  | Finished t' =>
      exists ws, is_seq t' ws /\ ws ≡ₚ vs /\ outside_kept t t' vs /\ (weak_order lt D -> Forall D vs -> list_sorted lt ws)
  | Raised t' e =>
      e = LuaError /\ ~ (weak_order lt D /\ Forall D vs) /\ exists ws, is_seq t' ws /\ ws ≡ₚ vs /\ outside_kept t t' vs
  end.
Proof using L.
  intros He Hs Hl. unfold sort_run. rewrite (seq_getn t vs) by (done || lia).
  assert (weak_order lt D -> Forall D vs -> ordered_by lt D t 1 (Z.of_nat (length vs))) as Hord.
  { intros Hw Hd. split; [done|]. intros k Hk. rewrite (seq_get t vs) by (done || lia).
    destruct (lookup_lt_is_Some_2 vs (Z.to_nat (k - 1)) ltac:(lia)) as [v Hv]. rewrite Hv. by eapply Forall_lookup_1. }
  pose proof (auxsort_spec lt He D (S (length vs)) t 1 (Z.of_nat (length vs)) ltac:(lia) Hl ltac:(lia)) as Hsort.
  destruct (auxsort lt (S (length vs)) t 1 (Z.of_nat (length vs))) as [t'|t' e]; cbn [right_or_error] in Hsort.
  - destruct Hsort as [Hp Hso]. destruct (perm_seq t t' vs Hs Hp) as [Hs' Hp']. eexists. split; [done|]. split; [done|].
    split; [exact (proj2 Hp)|]. intros Hw Hd. apply sorted_arr, Hso. by apply Hord.
  - destruct Hsort as (-> & Hno & Hp). destruct (perm_seq t t' vs Hs Hp) as [Hs' Hp'].
    split; [done|]. split; [intros [Hw Hd]; by apply Hno, Hord|]. eexists. split; [done|]. split; [done|exact (proj2 Hp)].
Qed.
End Sequences.

(** ** Concatenation and packing *)

Section Strings.
Context {T : Type} {RT : RawTable T} {L : RawTableLaws T}.
Context (number2str : Z -> bytes).

(** The text of a value that [concat] accepts. *)
Definition text (v : lval) : option bytes :=
  match v with VStr s => Some s | VNum z => Some (number2str z) | _ => None end.

(** The texts with the separator between them. *)
Fixpoint join (sep : bytes) (ts : list bytes) : bytes :=
  match ts with
  | [] => []
  | [s] => s
  | s :: ts' => s ++ sep ++ join sep ts'
  end.

Lemma addfield_text t i b s : text (rawgeti t i) = Some s -> addfield number2str t i b = Ok (b ++ s).
Proof. unfold addfield. destruct (rawgeti t i); cbn; congruence. Qed.

Lemma addfield_bad t i b : text (rawgeti t i) = None -> addfield number2str t i b = Err LuaError.
Proof. unfold addfield. by destruct (rawgeti t i). Qed.

(** From index [i], where the rest of the sequence is [v :: vs]. *)
Lemma concat_rest t sep vs : forall v i b,
  (forall k : nat, rawgeti t (i + Z.of_nat k) = default VNil ((v :: vs) !! k)) ->
  (b' ← concat_loop number2str (length vs) t i sep b; addfield number2str t (i + Z.of_nat (length vs)) b') =
  match mapM text (v :: vs) with Some ts => Ok (b ++ join sep ts) | None => Err LuaError end.
Proof.
  induction vs as [|w vs IH]; intros v i b Hget; cbn [concat_loop length mbind res_bind].
  - pose proof (Hget 0%nat) as H0. cbn in H0. cbn [mapM]. rewrite <- H0.
    destruct (text (rawgeti t (i + Z.of_nat 0))) as [s|] eqn:Et; cbn; [by apply addfield_text|by apply addfield_bad].
  - pose proof (Hget 0%nat) as H0. cbn in H0. rewrite Z.add_0_r in H0. cbn [mapM].
    destruct (text v) as [s|] eqn:Et.
    + rewrite (addfield_text t i b s) by congruence. cbn [mbind res_bind option_bind].
      specialize (IH w (i + 1) ((b ++ s) ++ sep)). replace (i + Z.of_nat (S (length vs))) with (i + 1 + Z.of_nat (length vs)) by lia.
      rewrite IH by (intros k; replace (i + 1 + Z.of_nat k) with (i + Z.of_nat (S k)) by lia; by rewrite Hget).
      cbn [mapM mbind option_bind]. destruct (text w) as [s2|]; cbn; [|done]. destruct (mapM text vs); cbn; [|done].
      by rewrite <- !app_assoc.
    + rewrite addfield_bad by congruence. done.
Qed.

Lemma concat_seq t vs sep :
  is_seq t vs -> Z.of_nat (length vs) < 2 ^ 31 - 1 ->
  tconcat number2str t (Some sep) None None =
  match mapM text vs with Some ts => Ok (join sep ts) | None => Err LuaError end.
Proof using L.
  intros Hs Hl. unfold tconcat. cbn [default from_option id]. change (default 1 (@None Z)) with 1. change (default [] (Some sep)) with sep.
  rewrite (seq_getn t vs) by done. destruct vs as [|v vs]; [done|]. cbn [length] in *.
  replace (Z.to_nat (Z.of_nat (S (length vs)) - 1)) with (length vs) by lia. rewrite Z.max_r, Z.eqb_refl by lia.
  replace (Z.of_nat (S (length vs))) with (1 + Z.of_nat (length vs)) by lia.
  rewrite (concat_rest t sep vs v 1 []); [done|]. intros k. rewrite Z.add_comm. apply Hs.
Qed.
End Strings.

Section Packing.
Context {T : Type} {RT : RawTable T} {L : RawTableLaws T}.

(** The loop puts its values below [i], the first one highest. *)
Lemma pack_loop_get vs : forall t i k,
  rawgeti (pack_loop t i vs) k =
  if decide (i - Z.of_nat (length vs) < k <= i) then default VNil (vs !! Z.to_nat (i - k)) else rawgeti t k.
Proof using L.
  induction vs as [|v vs IH]; intros t i k; cbn [pack_loop length]; [by rewrite decide_False by lia|].
  rewrite IH, geti_seti. destruct (decide (k = i)) as [->|].
  - rewrite decide_False, decide_True by lia. by rewrite Z.sub_diag.
  - destruct (decide (i - 1 - Z.of_nat (length vs) < k <= i - 1)).
    + rewrite decide_True by lia. by replace (Z.to_nat (i - k)) with (S (Z.to_nat (i - 1 - k))) by lia.
    + by rewrite decide_False by lia.
Qed.

Lemma pack_get empty args k :
  (k < length args)%nat -> rawgeti (pack empty args).1 (Z.of_nat k + 1) = default VNil (args !! k).
Proof using L.
  intros Hk. destruct args as [|v args]; [cbn in Hk; lia|]. cbn [pack fst length] in *. rewrite pack_loop_get, length_reverse.
  destruct (decide (k = 0%nat)) as [->|].
  - rewrite decide_False by lia. rewrite geti_seti. by rewrite decide_True by lia.
  - rewrite decide_True by lia. destruct k as [|k]; [done|]. cbn [lookup list_lookup].
    rewrite reverse_lookup by lia. do 2 f_equal. lia.
Qed.

Lemma unpack_packed empty args room :
  Z.of_nat (length args) <= room -> room < 2 ^ 31 ->
  let '(t, n) := pack empty args in unpack t room (Some 1) (Some n) = Ok args.
Proof using L.
  intros Hr Hm. pose proof (pack_get empty args) as Hget. unfold pack in *. cbn [fst] in Hget. cbv zeta in *.
  destruct args as [|v args]; [done|]. set (t := pack_loop _ _ _) in *. clearbody t. cbn [length] in *.
  unfold unpack. change (default 1 (Some 1)) with 1. rewrite Z.gtb_ltb, (proj2 (Z.ltb_ge _ _)) by lia.
  rewrite (swrap_small 32 (Z.of_nat (S (length args)) - 1)), swrap_small by (lia || clia).
  rewrite (proj2 (Z.leb_gt _ _)), (proj2 (Z.ltb_ge _ _)) by lia. cbn [orb]. f_equal.
  f_equal; [exact (Hget 0%nat ltac:(lia))|].
  apply list_eq. intros k. rewrite list_lookup_fmap. destruct (decide (k < length args)%nat) as [Hk|Hk].
  - rewrite lookup_seqZ_lt by lia. replace (1 + 1 + Z.of_nat k) with (Z.of_nat (S k) + 1) by lia. cbn [fmap option_fmap option_map].
    rewrite (Hget (S k)) by lia. rewrite <- lookup_tail. cbn [tail]. by destruct (lookup_lt_is_Some_2 _ _ Hk) as [w ->].
  - rewrite lookup_seqZ_ge, lookup_ge_None_2 by lia. done.
Qed.
End Packing.

(** A table with the elements of a list, as a finite map. *)
Fixpoint table_from (i : Z) (vs : list lval) : gmap Z lval :=
  match vs with
  | [] => ∅
  | v :: vs' => <[i := v]> (table_from (i + 1) vs')
  end.

Lemma table_from_lookup vs : forall i (k : nat), table_from i vs !! (i + Z.of_nat k) = vs !! k.
Proof.
  induction vs as [|v vs IH]; intros i k; cbn [table_from]; [by rewrite lookup_empty, lookup_nil|].
  destruct k as [|k]; [rewrite Z.add_0_r; apply lookup_insert_eq|].
  rewrite lookup_insert_ne by lia. rewrite <- lookup_tail. cbn [tail]. rewrite <- (IH (i + 1)). f_equal. lia.
Qed.

Lemma table_from_seq vs : VNil ∉ vs -> is_seq (table_from 1 vs) vs.
Proof. intros Hn. split; [|done]. intros k. cbn. unfold map_geti. by rewrite Z.add_comm, table_from_lookup. Qed.

(** ** The library *)

(** C23. [table.sort] sorts: for a comparison that is a strict weak order of the
    elements of a sequence, and raises nothing but Lua errors, it ends without an
    error and leaves a permutation of the elements in which none is less than one
    before it.  The recursion needs no more fuel than there are elements. *)
Theorem sort_correct {T} {RT : RawTable T} {L : RawTableLaws T} lt D (t : T) vs :
  (forall a b e, lt a b = Err e -> e = LuaError) ->
  weak_order lt D -> Forall D vs -> is_seq t vs -> Z.of_nat (length vs) < 2 ^ 30 ->
  exists t' ws, sort lt (S (length vs)) t = Ok t' /\ is_seq t' ws /\ ws ≡ₚ vs /\ list_sorted lt ws.
Proof.
  intros He Hw Hd Hs Hl. pose proof (sort_seq lt D t vs He Hs Hl) as H.
  unfold sort. destruct (sort_run lt (S (length vs)) t) as [t'|t' e]; [|by destruct H as (_ & [] & _)].
  destruct H as (ws & Hs' & Hp & _ & Hso). exists t', ws. by eauto.
Qed.

(** C24. [table.sort] is safe for every comparison that is a function of the two
    values and raises nothing but Lua errors, also one that is no order: it ends, and
    whether it returns or raises an error it leaves the elements of the sequence permuted
    and every index outside the sequence with the value it had.  The error is a Lua error,
    and a comparison that is a strict weak order of the elements excludes it. *)
Theorem sort_safe {T} {RT : RawTable T} {L : RawTableLaws T} lt (t : T) vs :
  (forall a b e, lt a b = Err e -> e = LuaError) -> is_seq t vs -> Z.of_nat (length vs) < 2 ^ 30 ->
  exists t' ws, is_seq t' ws /\ ws ≡ₚ vs /\ (forall k, k < 1 \/ Z.of_nat (length vs) < k -> rawgeti t' k = rawgeti t k) /\
    (sort_run lt (S (length vs)) t = Finished t' \/
     sort_run lt (S (length vs)) t = Raised t' LuaError /\ forall D, ~ (weak_order lt D /\ Forall D vs)).
Proof.
  intros He Hs Hl. pose proof (fun D => sort_seq lt D t vs He Hs Hl) as H.
  destruct (sort_run lt (S (length vs)) t) as [t'|t' e].
  - destruct (H (fun _ => True)) as (ws & Hs' & Hp & Ho & _). exists t', ws. by auto.
  - destruct (H (fun _ => True)) as (-> & _ & ws & Hs' & Hp & Ho). exists t', ws.
    split; [done|]. split; [done|]. split; [done|]. right. split; [done|]. intros D. apply H.
Qed.

(** [table.insert] shifts the elements up and [table.remove] at the same
    position gives the value back and the sequence as it was. *)
Theorem insert_remove {T} {RT : RawTable T} {L : RawTableLaws T} (t : T) vs p v :
  is_seq t vs -> v <> VNil -> (p <= length vs)%nat -> Z.of_nat (length vs) < 2 ^ 31 - 2 ->
  exists t1 t2, tinsert t (Some (Z.of_nat p + 1)) v = Ok t1 /\ is_seq t1 (take p vs ++ v :: drop p vs) /\
                tremove t1 (Some (Z.of_nat p + 1)) = Ok (t2, v) /\ is_seq t2 vs.
Proof.
  intros Hs Hv Hp Hl. destruct (insert_seq t vs p v Hs Hv Hp ltac:(lia)) as (t1 & E1 & Hs1).
  assert (list_put p v vs !! p = Some v) as Hlp by (rewrite lookup_list_put by done; by rewrite decide_True).
  destruct (remove_seq t1 _ p v Hs1 Hlp) as (t2 & E2 & Hs2).
  { unfold list_put. rewrite length_app, length_take. cbn [length]. rewrite length_drop. lia. }
  exists t1, t2. split; [done|]. split; [done|]. split; [done|]. unfold list_put in Hs2.
  pose proof (delete_middle (take p vs) (drop p vs) v) as Hdel.
  rewrite length_take, Nat.min_l, take_drop in Hdel by done. by rewrite Hdel in Hs2.
Qed.

(** Witness of C23: three strings; the bytes decide, then the length. *)
Lemma sort_correct_witness :
  let vs := [VStr [98]; VStr [97; 99]; VStr [97]] in
  let t : gmap Z lval := table_from 1 vs in
  exists t' ws, sort luaV_lessthan 4 t = Ok t' /\ is_seq t' ws /\ ws ≡ₚ vs /\ list_sorted luaV_lessthan ws.
Proof.
  intros vs t. apply (sort_correct luaV_lessthan is_str t vs).
  - exact luaV_lessthan_err.
  - exact strings_ordered.
  - repeat constructor; eexists; (split; [reflexivity|repeat constructor; done]).
  - apply table_from_seq. by apply (bool_decide_unpack _).
  - done.
Defined.

(** Witness of C24: a comparison that says yes to everything makes it raise the error
    "invalid order function for sorting", and the six elements are still there. *)
Lemma sort_safe_witness :
  let vs := VNum <$> [1; 2; 3; 4; 5; 6] in
  let lt := fun _ _ : lval => Ok true in
  let t : gmap Z lval := table_from 1 vs in
  (exists t', sort_run lt 7 t = Raised t' LuaError) /\
  exists t' ws, is_seq t' ws /\ ws ≡ₚ vs /\ (forall k, k < 1 \/ Z.of_nat (length vs) < k -> rawgeti t' k = rawgeti t k) /\
    (sort_run lt 7 t = Finished t' \/ sort_run lt 7 t = Raised t' LuaError /\ forall D, ~ (weak_order lt D /\ Forall D vs)).
Proof.
  intros vs lt t. split; [eexists; vm_compute; reflexivity|]. apply (sort_safe lt t vs); [done| |done].
  apply table_from_seq. by apply (bool_decide_unpack _).
Defined.

(** Example: a value put before the first of two elements. *)
Lemma insert_remove_witness :
  let t : gmap Z lval := table_from 1 [VNum 10; VNum 20] in
  exists t1 t2, tinsert t (Some 1) (VNum 5) = Ok t1 /\ is_seq t1 [VNum 5; VNum 10; VNum 20] /\
                tremove t1 (Some 1) = Ok (t2, VNum 5) /\ is_seq t2 [VNum 10; VNum 20].
Proof.
  intros t. apply (insert_remove t [VNum 10; VNum 20] 0 (VNum 5)); [|done|cbn; lia|done].
  apply table_from_seq. by apply (bool_decide_unpack _).
Defined.
