(* ===== verification/LuaNumber.v ===== *)
(** * Lua numbers: doubles ([luaconf.h], [lobject.c] of [src/dep/lua-5.2.3/src])

    A [lua_Number] is a C double, represented by its 64 bits.  The class [LuaNumber]
    has the [luai_num*] macros; [double_number] is the instance for IEEE doubles (with
    the [pow] of the C library as an argument), and [double_laws] the facts on them that
    the code generator relies on. *)

From Stdlib Require Import SpecFloat.
From S2P Require Import Prelude.

Class LuaNumber := {
  luai_numadd : Z -> Z -> Z;
  luai_numsub : Z -> Z -> Z;
  luai_nummul : Z -> Z -> Z;
  luai_numdiv : Z -> Z -> Z;
  luai_nummod : Z -> Z -> Z;
  luai_numpow : Z -> Z -> Z;
  luai_numunm : Z -> Z;
  luai_numeq : Z -> Z -> bool;
  luai_numlt : Z -> Z -> bool;
  luai_numle : Z -> Z -> bool;
  cast_num : Z -> Z;
}.

Definition luai_numisnan `{LuaNumber} (a : Z) : bool := negb (luai_numeq a a).

Definition LUA_OPADD : Z := 0.
Definition LUA_OPUNM : Z := 6.

Definition luaO_arith `{LuaNumber} (op v1 v2 : Z) : Z :=
  if op =? 0 then luai_numadd v1 v2
  else if op =? 1 then luai_numsub v1 v2
  else if op =? 2 then luai_nummul v1 v2
  else if op =? 3 then luai_numdiv v1 v2
  else if op =? 4 then luai_nummod v1 v2
  else if op =? 5 then luai_numpow v1 v2
  else if op =? LUA_OPUNM then luai_numunm v1
  else 0.

(** Results are doubles, and different doubles that compare equal are the zeros. *)
Class LuaNumberLaws `{LuaNumber} := {
  luaO_arith_range op a b : in_u 64 (luaO_arith op a b);
  luai_numunm_range a : in_u 64 (luai_numunm a);
  luai_numeq_exact a b : in_u 64 a -> in_u 64 b -> luai_numeq a b = true -> a = b \/ (luai_numeq a 0 = true /\ luai_numeq b 0 = true);
}.

(** ** IEEE doubles *)

Definition prec : Z := 53.
Definition emax : Z := 1024.

Definition of_bits (b : Z) : spec_float :=
  let s := Z.testbit b 63 in
  let e := (b ≫ 52) &&& 0x7ff in
  let m := b &&& (2 ^ 52 - 1) in
  if e =? 2047 then (if m =? 0 then S754_infinity s else S754_nan)
  else if e =? 0 then match m with Zpos p => S754_finite s p (-1074) | _ => S754_zero s end
  else match m + 2 ^ 52 with Zpos p => S754_finite s p (e - 1075) | _ => S754_nan end.

Definition to_bits (f : spec_float) : Z :=
  let sign (s : bool) := if s then 2 ^ 63 else 0 in
  u64 match f with
  | S754_zero s => sign s
  | S754_infinity s => sign s + 2047 * 2 ^ 52
  | S754_nan => 2047 * 2 ^ 52 + 2 ^ 51
  | S754_finite s m e => if Zpos m <? 2 ^ 52 then sign s + Zpos m else sign s + (e + 1075) * 2 ^ 52 + (Zpos m - 2 ^ 52)
  end.

Definition of_int (z : Z) (s : bool) : spec_float := binary_normalize prec emax z 0 s.

(** [floor]. *)
Definition SFfloor (f : spec_float) : spec_float :=
  match f with
  | S754_finite s m e => if e <? 0 then of_int ((if s then Zneg m else Zpos m) / 2 ^ (- e)) false else f
  | _ => f
  end.

Definition lift2 (op : spec_float -> spec_float -> spec_float) (a b : Z) : Z := to_bits (op (of_bits a) (of_bits b)).

Section Double.
Context (pow : Z -> Z -> Z).

#[local] Instance double_number : LuaNumber := {
  luai_numadd := lift2 (SFadd prec emax);
  luai_numsub := lift2 (SFsub prec emax);
  luai_nummul := lift2 (SFmul prec emax);
  luai_numdiv := lift2 (SFdiv prec emax);
  luai_nummod := lift2 (fun a b => SFsub prec emax a (SFmul prec emax (SFfloor (SFdiv prec emax a b)) b));
  luai_numpow a b := u64 (pow a b);
  luai_numunm a := to_bits (SFopp (of_bits a));
  luai_numeq a b := SFeqb (of_bits a) (of_bits b);
  luai_numlt a b := SFltb (of_bits a) (of_bits b);
  luai_numle a b := SFleb (of_bits a) (of_bits b);
  cast_num z := to_bits (of_int z false);
}.

(** The fields of the bits. *)
Lemma bits_fields b : in_u 64 b ->
  b = (if Z.testbit b 63 then 2 ^ 63 else 0) + ((b ≫ 52) &&& 0x7ff) * 2 ^ 52 + (b &&& (2 ^ 52 - 1)) /\
  0 <= (b ≫ 52) &&& 0x7ff < 2 ^ 11 /\ 0 <= b &&& (2 ^ 52 - 1) < 2 ^ 52.
Proof.
  intros Hb. change 0x7ff with (Z.ones 11). change (2 ^ 52 - 1) with (Z.ones 52).
  rewrite !Z.land_ones, Z.shiftr_div_pow2 by lia.
  assert (Z.testbit b 63 = (2 ^ 63 <=? b)) as ->.
  { rewrite Z.testbit_eqb by lia. unfold in_u in Hb.
    destruct (Z.leb_spec (2 ^ 63) b) as [Hle|Hlt].
    - replace (b / 2 ^ 63) with 1; [done|]. apply (Z.div_unique b (2 ^ 63) 1 (b - 2 ^ 63)); pow2; lia.
    - rewrite Z.div_small by lia. done. }
  unfold in_u in Hb. pow2. split; [|split; apply Z.mod_pos_bound; lia].
  destruct (Z.leb_spec 9223372036854775808 b) as [Hle|Hlt]; pow2; Z.div_mod_to_equations; lia.
Qed.

(** Every double but a NaN is the encoding of what it decodes to. *)
Lemma to_of_bits b : in_u 64 b -> of_bits b = S754_nan \/ to_bits (of_bits b) = b.
Proof.
  intros Hb. destruct (bits_fields b Hb) as (Eb & He & Hm). rewrite <- (wrap_small 64 b Hb) at 3. unfold of_bits, to_bits. revert Eb He Hm.
  generalize (Z.testbit b 63) ((b ≫ 52) &&& 0x7ff) (b &&& (2 ^ 52 - 1)). intros s e m Eb He Hm.
  destruct (Z.eqb_spec e 2047) as [->|Hne]; [destruct (Z.eqb_spec m 0) as [->|]; [|by left]|].
  { right. f_equal. lia. }
  right. destruct (Z.eqb_spec e 0) as [->|Hne0].
  - destruct m as [|m|m]; [|rewrite (proj2 (Z.ltb_lt _ _)) by lia|lia]; f_equal; lia.
  - destruct (m + 2 ^ 52) as [|p|p] eqn:Ep; [lia| |lia]. rewrite (proj2 (Z.ltb_ge _ _)) by lia. f_equal. lia.
Qed.

Lemma SFeqb_cases x y : SFeqb x y = true -> x <> S754_nan /\ (x = y \/ (exists s s', x = S754_zero s /\ y = S754_zero s')).
Proof.
  unfold SFeqb, SFcompare. destruct x as [s| s| |s m e], y as [s'|s'| |s' m' e']; try destruct s; try destruct s'; intros H; simplify_eq; split; try done; eauto.
  all: left; change (Pos.compare_cont Eq m m') with (m ?= m')%positive in *.
  all: destruct (Z.compare_spec e e') as [->| |]; [|done..]; destruct (Pos.compare_spec m m') as [->| |]; done.
Qed.

Lemma numeq_exact a b : in_u 64 a -> in_u 64 b -> SFeqb (of_bits a) (of_bits b) = true ->
  a = b \/ (SFeqb (of_bits a) (of_bits 0) = true /\ SFeqb (of_bits b) (of_bits 0) = true).
Proof.
  intros Ha Hb [Hn [E|(s & s' & -> & ->)]]%SFeqb_cases; [left|by right].
  destruct (to_of_bits a Ha) as [|Ea]; [done|]. destruct (to_of_bits b Hb) as [Eb|Eb]; [congruence|]. congruence.
Qed.

#[local] Instance double_laws : LuaNumberLaws.
Proof.
  split.
  - intros op a b. unfold luaO_arith. repeat case_match; try (by apply wrap_range); clia.
  - intros a. by apply wrap_range.
  - apply numeq_exact.
Qed.
End Double.
