(* ===== verification/LuaCode.v ===== *)
(** * Lua's code generator ([lcode.c] of [src/dep/lua-5.2.3/src])

    The parser describes an expression by an [expdesc] and lets these functions emit
    instructions for it as late as possible.  A list of jumps to be patched is linked
    through the jump instructions themselves.  [fs->pc] is the length of [code] and
    [fs->nk] the length of [k]; a function that changes the descriptor it points to
    returns it.  [fs->h], the table that finds constants again, is an association list
    (a Lua table is a finite map).  Growing a vector succeeds below its limit.  Loops
    along a jump list have fuel for every instruction. *)

From S2P Require Import Prelude LuaStr LuaOp LuaNumber.

(** ** Values, descriptors and the state of a function *)

Inductive TValue := LNil | LBool (b : bool) | LNumber (r : Z) | LString (s : bytes) | LObject (o : Z).

#[export] Instance TValue_eq_dec : EqDecision TValue.
Proof. solve_decision. Defined.

(** Where the table of an indexed variable is. *)
Inductive tablekind := InRegister | InUpvalue.

Inductive expkind :=
| VVOID
| VNIL
| VTRUE
| VFALSE
| VK (info : Z)
| VKNUM (nval : Z)
| VNONRELOC (info : Z)
| VLOCAL (info : Z)
| VUPVAL (info : Z)
| VINDEXED (idx t : Z) (vt : tablekind)
| VJMP (info : Z)
| VRELOCABLE (info : Z)
| VCALL (info : Z)
| VVARARG (info : Z).

#[export] Instance tablekind_eq_dec : EqDecision tablekind.
Proof. solve_decision. Defined.
#[export] Instance expkind_eq_dec : EqDecision expkind.
Proof. solve_decision. Defined.

Definition NO_JUMP : Z := -1.

Record expdesc := MkExp { ek : expkind; et : Z; ef : Z }.

Definition init_exp (k : expkind) : expdesc := MkExp k NO_JUMP NO_JUMP.
Definition with_kind (e : expdesc) (k : expkind) : expdesc := MkExp k (et e) (ef e).
Definition with_t (e : expdesc) (t : Z) : expdesc := MkExp (ek e) t (ef e).
Definition with_f (e : expdesc) (f : Z) : expdesc := MkExp (ek e) (et e) f.

(** [e->u.info]. *)
Definition info (e : expdesc) : Z :=
  match ek e with
  | VK i | VNONRELOC i | VLOCAL i | VUPVAL i | VJMP i | VRELOCABLE i | VCALL i | VVARARG i => i
  | _ => 0
  end.

Inductive BinOpr :=
| OPR_ADD | OPR_SUB | OPR_MUL | OPR_DIV | OPR_MOD | OPR_POW
| OPR_CONCAT
| OPR_EQ | OPR_LT | OPR_LE
| OPR_NE | OPR_GT | OPR_GE
| OPR_AND | OPR_OR.

Inductive UnOpr := OPR_MINUS | OPR_NOT | OPR_LEN.

(** Keys of [fs->h]; [KTable] is the table itself, which stands for nil. *)
Inductive kkey := KString (s : bytes) | KNumber (r : Z) | KBool (b : bool) | KTable.

#[export] Instance kkey_eq_dec : EqDecision kkey.
Proof. solve_decision. Defined.

(** [lastline] is [fs->ls->lastline]. *)
Record FuncState := MkFunc {
  code : list Z;
  lineinfo : list Z;
  k : list TValue;
  h : list (kkey * Z);
  maxstacksize : Z;
  lasttarget : Z;
  jpc : Z;
  nactvar : Z;
  freereg : Z;
  lastline : Z;
}.

Definition pc (fs : FuncState) : Z := Z.of_nat (length (code fs)).
Definition nk (fs : FuncState) : Z := Z.of_nat (length (k fs)).

(** A function of the code generator: it can raise a syntax error. *)
Definition coder (A : Type) : Type := FuncState -> res (A * FuncState).

#[export] Instance coder_ret : MRet coder := fun A a fs => Ok (a, fs).
#[export] Instance coder_bind : MBind coder := fun A B f m fs =>
  match m fs with Ok (a, fs') => f a fs' | Err e => Err e end.

Definition getfs {A} (f : FuncState -> A) : coder A := fun fs => Ok (f fs, fs).
Definition putfs (f : FuncState -> FuncState) : coder unit := fun fs => Ok ((), f fs).
Definition fail {A} (e : fault) : coder A := fun _ => Err e.

Definition set_code (c : list Z) (fs : FuncState) : FuncState :=
  MkFunc c (lineinfo fs) (k fs) (h fs) (maxstacksize fs) (lasttarget fs) (jpc fs) (nactvar fs) (freereg fs) (lastline fs).
Definition set_lineinfo (l : list Z) (fs : FuncState) : FuncState :=
  MkFunc (code fs) l (k fs) (h fs) (maxstacksize fs) (lasttarget fs) (jpc fs) (nactvar fs) (freereg fs) (lastline fs).
Definition set_k (ks : list TValue) (hs : list (kkey * Z)) (fs : FuncState) : FuncState :=
  MkFunc (code fs) (lineinfo fs) ks hs (maxstacksize fs) (lasttarget fs) (jpc fs) (nactvar fs) (freereg fs) (lastline fs).
Definition set_maxstack (n : Z) (fs : FuncState) : FuncState :=
  MkFunc (code fs) (lineinfo fs) (k fs) (h fs) n (lasttarget fs) (jpc fs) (nactvar fs) (freereg fs) (lastline fs).
Definition set_target (n : Z) (fs : FuncState) : FuncState :=
  MkFunc (code fs) (lineinfo fs) (k fs) (h fs) (maxstacksize fs) n (jpc fs) (nactvar fs) (freereg fs) (lastline fs).
Definition set_jpc (n : Z) (fs : FuncState) : FuncState :=
  MkFunc (code fs) (lineinfo fs) (k fs) (h fs) (maxstacksize fs) (lasttarget fs) n (nactvar fs) (freereg fs) (lastline fs).
Definition set_freereg (n : Z) (fs : FuncState) : FuncState :=
  MkFunc (code fs) (lineinfo fs) (k fs) (h fs) (maxstacksize fs) (lasttarget fs) (jpc fs) (nactvar fs) n (lastline fs).
Definition set_nactvar (n : Z) (fs : FuncState) : FuncState :=
  MkFunc (code fs) (lineinfo fs) (k fs) (h fs) (maxstacksize fs) (lasttarget fs) (jpc fs) n (freereg fs) (lastline fs).

(** [fs->f->code[pc]]: an access outside the vector is undefined. *)
Definition getinstr (p : Z) : coder Z := fun fs =>
  if p <? 0 then Err Undefined else
  match code fs !! Z.to_nat p with Some i => Ok (i, fs) | None => Err Undefined end.

Definition setinstr (p i : Z) : coder unit := fun fs =>
  if (p <? 0) || (pc fs <=? p) then Err Undefined else Ok ((), set_code (<[Z.to_nat p := i]> (code fs)) fs).

Definition MAX_INT : Z := 2 ^ 31 - 1 - 2.
Definition MAXSTACK : Z := 250.
Definition LFIELDS_PER_FLUSH : Z := 50.
Definition LUA_MULTRET : Z := -1.

Definition isop (i : Z) (o : OpCode) : bool := GET_OPCODE i =? opcode_Z o.

(** ** Jump lists *)

Definition hasjumps (e : expdesc) : bool := negb (et e =? ef e).

Definition isnumeral (e : expdesc) : bool :=
  match ek e with VKNUM _ => (et e =? NO_JUMP) && (ef e =? NO_JUMP) | _ => false end.

Definition fixjump (p dest : Z) : coder unit :=
  jmp ← getinstr p;
  let offset := dest - (p + 1) in
  if Z.abs offset >? MAXARG_sBx then fail LuaError else setinstr p (SETARG_sBx jmp offset).

Definition luaK_getlabel : coder Z := fun fs => Ok (pc fs, set_target (pc fs) fs).

Definition getjump (p : Z) : coder Z :=
  i ← getinstr p;
  let offset := GETARG_sBx i in
  mret (if offset =? NO_JUMP then NO_JUMP else (p + 1) + offset).

(** The address of the instruction that controls a jump. *)
Definition getjumpcontrol (p : Z) : coder Z :=
  if p >=? 1 then
    i ← getinstr (p - 1);
    mret (if testTMode (GET_OPCODE i) then p - 1 else p)
  else mret p.

Fixpoint need_value (fuel : nat) (list : Z) : coder bool :=
  match fuel with
  | O => fail NoFuel
  | S fuel' =>
      if list =? NO_JUMP then mret false else
      p ← getjumpcontrol list;
      i ← getinstr p;
      if negb (isop i OP_TESTSET) then mret true else
      next ← getjump list;
      need_value fuel' next
  end.

Definition patchtestreg (node reg : Z) : coder bool :=
  p ← getjumpcontrol node;
  i ← getinstr p;
  if negb (isop i OP_TESTSET) then mret false else
  _ ← (if negb (reg =? NO_REG) && negb (reg =? GETARG_B i) then setinstr p (SETARG_A i reg)
       else setinstr p (CREATE_ABC (opcode_Z OP_TEST) (GETARG_B i) 0 (GETARG_C i)));
  mret true.

Fixpoint removevalues (fuel : nat) (list : Z) : coder unit :=
  match fuel with
  | O => fail NoFuel
  | S fuel' =>
      if list =? NO_JUMP then mret () else
      _ ← patchtestreg list NO_REG;
      next ← getjump list;
      removevalues fuel' next
  end.

Fixpoint patchlistaux (fuel : nat) (list vtarget reg dtarget : Z) : coder unit :=
  match fuel with
  | O => fail NoFuel
  | S fuel' =>
      if list =? NO_JUMP then mret () else
      next ← getjump list;
      v ← patchtestreg list reg;
      _ ← fixjump list (if (v : bool) then vtarget else dtarget);
      patchlistaux fuel' next vtarget reg dtarget
  end.

(** Enough turns for every list of jumps. *)
Definition jumps_fuel : coder nat := getfs (fun fs => S (length (code fs))).

Definition dischargejpc : coder unit :=
  fuel ← jumps_fuel;
  list ← getfs jpc;
  here ← getfs pc;
  _ ← patchlistaux fuel list here NO_REG here;
  putfs (set_jpc NO_JUMP).

(** [while ((next = getjump(fs, list)) != NO_JUMP) list = next]. *)
Fixpoint last_jump (fuel : nat) (list : Z) : coder Z :=
  match fuel with
  | O => fail NoFuel
  | S fuel' =>
      next ← getjump list;
      if next =? NO_JUMP then mret list else last_jump fuel' next
  end.

Definition luaK_concat (l1 l2 : Z) : coder Z :=
  if l2 =? NO_JUMP then mret l1
  else if l1 =? NO_JUMP then mret l2
  else
    fuel ← jumps_fuel;
    list ← last_jump fuel l1;
    _ ← fixjump list l2;
    mret l1.

Definition luaK_patchtohere (list : Z) : coder unit :=
  _ ← luaK_getlabel;
  here ← getfs jpc;
  l ← luaK_concat here list;
  putfs (set_jpc l).

Definition luaK_patchlist (list target : Z) : coder unit :=
  here ← getfs pc;
  if target =? here then luaK_patchtohere list
  else fuel ← jumps_fuel; patchlistaux fuel list target NO_REG target.

Fixpoint patchclose_loop (fuel : nat) (list level : Z) : coder unit :=
  match fuel with
  | O => fail NoFuel
  | S fuel' =>
      if list =? NO_JUMP then mret () else
      next ← getjump list;
      i ← getinstr list;
      _ ← setinstr list (SETARG_A i level);
      patchclose_loop fuel' next level
  end.

Definition luaK_patchclose (list level : Z) : coder unit :=
  fuel ← jumps_fuel; patchclose_loop fuel list (level + 1).

(** ** Emitting instructions *)

Definition luaK_code (i : Z) : coder Z :=
  _ ← dischargejpc;
  here ← getfs pc;
  if here >=? MAX_INT then fail LuaError else
  _ ← putfs (fun fs => set_code (code fs ++ [i]) fs);
  _ ← putfs (fun fs => set_lineinfo (lineinfo fs ++ [lastline fs]) fs);
  mret here.

Definition luaK_codeABC (o : OpCode) (a b c : Z) : coder Z := luaK_code (CREATE_ABC (opcode_Z o) a b c).
Definition luaK_codeABx (o : OpCode) (a bc : Z) : coder Z := luaK_code (CREATE_ABx (opcode_Z o) a bc).
Definition luaK_codeAsBx (o : OpCode) (a sbx : Z) : coder Z := luaK_codeABx o a (sbx + MAXARG_sBx).
Definition codeextraarg (a : Z) : coder Z := luaK_code (CREATE_Ax (opcode_Z OP_EXTRAARG) a).

Definition luaK_codek (reg kk : Z) : coder Z :=
  if kk <=? MAXARG_Bx then luaK_codeABx OP_LOADK reg kk
  else
    p ← luaK_codeABx OP_LOADKX reg 0;
    _ ← codeextraarg kk;
    mret p.

Definition luaK_nil (from n : Z) : coder unit :=
  let l := from + n - 1 in
  here ← getfs pc;
  target ← getfs lasttarget;
  let emit := _ ← luaK_codeABC OP_LOADNIL from (n - 1) 0; mret () in
  if here >? target then
    previous ← getinstr (here - 1);
    if isop previous OP_LOADNIL then
      let pfrom := GETARG_A previous in
      let pl := pfrom + GETARG_B previous in
      if ((pfrom <=? from) && (from <=? pl + 1)) || ((from <=? pfrom) && (pfrom <=? l + 1)) then
        let from := if pfrom <? from then pfrom else from in
        let l := if pl >? l then pl else l in
        setinstr (here - 1) (SETARG_B (SETARG_A previous from) (l - from))
      else emit
    else emit
  else emit.

Definition luaK_jump : coder Z :=
  j0 ← getfs jpc;
  _ ← putfs (set_jpc NO_JUMP);
  j ← luaK_codeAsBx OP_JMP 0 NO_JUMP;
  luaK_concat j j0.

Definition luaK_ret (first nret : Z) : coder unit := _ ← luaK_codeABC OP_RETURN first (nret + 1) 0; mret ().

Definition condjump (o : OpCode) (a b c : Z) : coder Z := _ ← luaK_codeABC o a b c; luaK_jump.

Definition luaK_fixline (line : Z) : coder unit :=
  putfs (fun fs => set_lineinfo (<[pred (length (code fs)) := line]> (lineinfo fs)) fs).

(** ** Registers *)

Definition luaK_checkstack (n : Z) : coder unit := fun fs =>
  let newstack := freereg fs + n in
  if newstack >? maxstacksize fs then
    if newstack >=? MAXSTACK then Err LuaError else Ok ((), set_maxstack (u8 newstack) fs)
  else Ok ((), fs).

Definition luaK_reserveregs (n : Z) : coder unit :=
  _ ← luaK_checkstack n;
  putfs (fun fs => set_freereg (u8 (freereg fs + n)) fs).

Definition free_reg (reg : Z) : coder unit := fun fs =>
  if negb (ISK reg) && (reg >=? nactvar fs) then Ok ((), set_freereg (u8 (freereg fs - 1)) fs) else Ok ((), fs).

Definition freeexp (e : expdesc) : coder unit :=
  match ek e with VNONRELOC r => free_reg r | _ => mret () end.

(** ** Constants *)

Section Numbers.
Context `{LuaNumber}.

(** [luaV_rawequalobj], for constants. *)
Definition rawequalobj (v w : TValue) : bool :=
  match v, w with
  | LNil, LNil => true
  | LNumber a, LNumber b => luai_numeq a b
  | LBool a, LBool b => Bool.eqb a b
  | LString a, LString b => bool_decide (a = b)
  | LObject a, LObject b => a =? b
  | _, _ => false
  end.

Fixpoint h_find (key : kkey) (l : list (kkey * Z)) : option Z :=
  match l with
  | [] => None
  | (key', n) :: l' => if decide (key = key') then Some n else h_find key l'
  end.

Definition addk (key : kkey) (v : TValue) : coder Z := fun fs =>
  let found :=
    match h_find key (h fs) with
    | Some n =>
        match k fs !! Z.to_nat n with
        | Some w => if rawequalobj w v then Ok (Some n) else Ok None
        | None => Err Undefined
        end
    | None => Ok None
    end in
  match found with
  | Err e => Err e
  | Ok (Some n) => Ok (n, fs)
  | Ok None => if nk fs >=? MAXARG_Ax then Err LuaError else Ok (nk fs, set_k (k fs ++ [v]) ((key, nk fs) :: h fs) fs)
  end.

Definition luaK_stringK (s : bytes) : coder Z := addk (KString s) (LString s).

(** The raw bytes of a double are the key of zeros and NaNs. *)
Definition luaK_numberK (r : Z) : coder Z :=
  if luai_numeq r 0 || luai_numisnan r then addk (KString (le_bytes 8 r)) (LNumber r) else addk (KNumber r) (LNumber r).

Definition boolK (b : bool) : coder Z := addk (KBool b) (LBool b).
Definition nilK : coder Z := addk KTable LNil.

(** ** Discharging expressions *)

Definition luaK_setreturns (e : expdesc) (nresults : Z) : coder unit :=
  match ek e with
  | VCALL p => i ← getinstr p; setinstr p (SETARG_C i (nresults + 1))
  | VVARARG p =>
      i ← getinstr p;
      r ← getfs freereg;
      _ ← setinstr p (SETARG_A (SETARG_B i (nresults + 1)) r);
      luaK_reserveregs 1
  | _ => mret ()
  end.

Definition luaK_setmultret (e : expdesc) : coder unit := luaK_setreturns e LUA_MULTRET.

Definition luaK_setoneret (e : expdesc) : coder expdesc :=
  match ek e with
  | VCALL p => i ← getinstr p; mret (with_kind e (VNONRELOC (GETARG_A i)))
  | VVARARG p => i ← getinstr p; _ ← setinstr p (SETARG_B i 2); mret (with_kind e (VRELOCABLE p))
  | _ => mret e
  end.

Definition luaK_dischargevars (e : expdesc) : coder expdesc :=
  match ek e with
  | VLOCAL r => mret (with_kind e (VNONRELOC r))
  | VUPVAL u => p ← luaK_codeABC OP_GETUPVAL 0 u 0; mret (with_kind e (VRELOCABLE p))
  | VINDEXED idx t vt =>
      _ ← free_reg idx;
      o ← (match vt with
           | InRegister => _ ← free_reg t; mret OP_GETTABLE
           | InUpvalue => mret OP_GETTABUP
           end);
      p ← luaK_codeABC o 0 t idx;
      mret (with_kind e (VRELOCABLE p))
  | VVARARG _ | VCALL _ => luaK_setoneret e
  | _ => mret e
  end.

Definition code_label (a b jump : Z) : coder Z := _ ← luaK_getlabel; luaK_codeABC OP_LOADBOOL a b jump.

Definition discharge2reg (e : expdesc) (reg : Z) : coder expdesc :=
  e ← luaK_dischargevars e;
  let done := mret (with_kind e (VNONRELOC reg)) in
  match ek e with
  | VNIL => _ ← luaK_nil reg 1; done
  | VFALSE => _ ← luaK_codeABC OP_LOADBOOL reg 0 0; done
  | VTRUE => _ ← luaK_codeABC OP_LOADBOOL reg 1 0; done
  | VK i => _ ← luaK_codek reg i; done
  | VKNUM r => i ← luaK_numberK r; _ ← luaK_codek reg i; done
  | VRELOCABLE p => i ← getinstr p; _ ← setinstr p (SETARG_A i reg); done
  | VNONRELOC r => if negb (reg =? r) then _ ← luaK_codeABC OP_MOVE reg r 0; done else done
  | _ => mret e
  end.

Definition discharge2anyreg (e : expdesc) : coder expdesc :=
  match ek e with
  | VNONRELOC _ => mret e
  | _ => _ ← luaK_reserveregs 1; r ← getfs freereg; discharge2reg e (r - 1)
  end.

Definition is_jmp (e : expdesc) : bool := match ek e with VJMP _ => true | _ => false end.

Definition exp2reg (e : expdesc) (reg : Z) : coder expdesc :=
  e ← discharge2reg e reg;
  e ← (match ek e with VJMP j => t ← luaK_concat (et e) j; mret (with_t e t) | _ => mret e end);
  _ ← (if hasjumps e then
         fuel ← jumps_fuel;
         nt ← need_value fuel (et e);
         nv ← (if (nt : bool) then mret true else need_value fuel (ef e));
         '(p_f, p_t) ← (if (nv : bool) then
                          fj ← (if is_jmp e then mret NO_JUMP else luaK_jump);
                          p_f ← code_label reg 0 1;
                          p_t ← code_label reg 1 0;
                          _ ← luaK_patchtohere fj;
                          mret (p_f, p_t)
                        else mret (NO_JUMP, NO_JUMP));
         final ← luaK_getlabel;
         fuel ← jumps_fuel;
         _ ← patchlistaux fuel (ef e) final reg p_f;
         patchlistaux fuel (et e) final reg p_t
       else mret ());
  mret (init_exp (VNONRELOC reg)).

Definition luaK_exp2nextreg (e : expdesc) : coder expdesc :=
  e ← luaK_dischargevars e;
  _ ← freeexp e;
  _ ← luaK_reserveregs 1;
  r ← getfs freereg;
  exp2reg e (r - 1).

Definition luaK_exp2anyreg (e : expdesc) : coder expdesc :=
  e ← luaK_dischargevars e;
  n ← getfs nactvar;
  match ek e with
  | VNONRELOC r =>
      if negb (hasjumps e) then mret e
      else if r >=? n then exp2reg e r
      else luaK_exp2nextreg e
  | _ => luaK_exp2nextreg e
  end.

Definition luaK_exp2anyregup (e : expdesc) : coder expdesc :=
  match ek e with
  | VUPVAL _ => if hasjumps e then luaK_exp2anyreg e else mret e
  | _ => luaK_exp2anyreg e
  end.

Definition luaK_exp2val (e : expdesc) : coder expdesc :=
  if hasjumps e then luaK_exp2anyreg e else luaK_dischargevars e.

(** The RK operand and the descriptor. *)
Definition luaK_exp2RK (e : expdesc) : coder (Z * expdesc) :=
  e ← luaK_exp2val e;
  n ← getfs nk;
  let inreg e := e ← luaK_exp2anyreg e; mret (info e, e) in
  let constant e i := if i <=? MAXINDEXRK then mret (RKASK i, with_kind e (VK i)) else inreg (with_kind e (VK i)) in
  match ek e with
  | VTRUE => if n <=? MAXINDEXRK then i ← boolK true; mret (RKASK i, with_kind e (VK i)) else inreg e
  | VFALSE => if n <=? MAXINDEXRK then i ← boolK false; mret (RKASK i, with_kind e (VK i)) else inreg e
  | VNIL => if n <=? MAXINDEXRK then i ← nilK; mret (RKASK i, with_kind e (VK i)) else inreg e
  | VKNUM r => i ← luaK_numberK r; constant e i
  | VK i => constant e i
  | _ => inreg e
  end.

Definition luaK_storevar (var ex : expdesc) : coder unit :=
  match ek var with
  | VLOCAL r => _ ← freeexp ex; _ ← exp2reg ex r; mret ()
  | VUPVAL u => ex ← luaK_exp2anyreg ex; _ ← luaK_codeABC OP_SETUPVAL (info ex) u 0; freeexp ex
  | VINDEXED idx t vt =>
      let o := match vt with InRegister => OP_SETTABLE | InUpvalue => OP_SETTABUP end in
      '(rk, ex) ← luaK_exp2RK ex;
      _ ← luaK_codeABC o t idx rk;
      freeexp ex
  | _ => freeexp ex
  end.

Definition luaK_self (e key : expdesc) : coder expdesc :=
  e ← luaK_exp2anyreg e;
  let ereg := info e in
  _ ← freeexp e;
  base ← getfs freereg;
  _ ← luaK_reserveregs 2;
  '(rk, key) ← luaK_exp2RK key;
  _ ← luaK_codeABC OP_SELF base ereg rk;
  _ ← freeexp key;
  mret (with_kind e (VNONRELOC base)).

(** ** Conditions *)

Definition invertjump (j : Z) : coder unit :=
  p ← getjumpcontrol j;
  i ← getinstr p;
  setinstr p (SETARG_A i (if GETARG_A i =? 0 then 1 else 0)).

(** [fs->pc--]: the last instruction is forgotten. *)
Definition drop_instr : coder unit :=
  putfs (fun fs => set_lineinfo (removelast (lineinfo fs)) (set_code (removelast (code fs)) fs)).

Definition jumponcond (e : expdesc) (cond : bool) : coder (Z * expdesc) :=
  let testset e :=
    e ← discharge2anyreg e;
    _ ← freeexp e;
    j ← condjump OP_TESTSET NO_REG (info e) (if cond then 1 else 0);
    mret (j, e) in
  match ek e with
  | VRELOCABLE p =>
      ie ← getinstr p;
      if isop ie OP_NOT then
        _ ← drop_instr;
        j ← condjump OP_TEST (GETARG_B ie) 0 (if cond then 0 else 1);
        mret (j, e)
      else testset e
  | _ => testset e
  end.

Definition luaK_goiftrue (e : expdesc) : coder expdesc :=
  e ← luaK_dischargevars e;
  '(j, e) ← (match ek e with
             | VJMP p => _ ← invertjump p; mret (p, e)
             | VK _ | VKNUM _ | VTRUE => mret (NO_JUMP, e)
             | _ => jumponcond e false
             end);
  f ← luaK_concat (ef e) j;
  _ ← luaK_patchtohere (et e);
  mret (MkExp (ek e) NO_JUMP f).

Definition luaK_goiffalse (e : expdesc) : coder expdesc :=
  e ← luaK_dischargevars e;
  '(j, e) ← (match ek e with
             | VJMP p => mret (p, e)
             | VNIL | VFALSE => mret (NO_JUMP, e)
             | _ => jumponcond e true
             end);
  t ← luaK_concat (et e) j;
  _ ← luaK_patchtohere (ef e);
  mret (MkExp (ek e) t NO_JUMP).

Definition codenot (e : expdesc) : coder expdesc :=
  e ← luaK_dischargevars e;
  e ← (match ek e with
       | VNIL | VFALSE => mret (with_kind e VTRUE)
       | VK _ | VKNUM _ | VTRUE => mret (with_kind e VFALSE)
       | VJMP j => _ ← invertjump j; mret e
       | VRELOCABLE _ | VNONRELOC _ =>
           e ← discharge2anyreg e;
           _ ← freeexp e;
           p ← luaK_codeABC OP_NOT 0 (info e) 0;
           mret (with_kind e (VRELOCABLE p))
       | _ => mret e
       end);
  let e := MkExp (ek e) (ef e) (et e) in
  fuel ← jumps_fuel;
  _ ← removevalues fuel (ef e);
  _ ← removevalues fuel (et e);
  mret e.

Definition luaK_indexed (t key : expdesc) : coder expdesc :=
  let vt := match ek t with VUPVAL _ => InUpvalue | _ => InRegister end in
  '(idx, _) ← luaK_exp2RK key;
  mret (with_kind t (VINDEXED idx (info t) vt)).

(** ** Operators *)

Definition constfolding (o : OpCode) (e1 e2 : expdesc) : option expdesc :=
  match ek e1, ek e2 with
  | VKNUM a, VKNUM b =>
      if negb (isnumeral e1) || negb (isnumeral e2) then None
      else if match o with OP_DIV | OP_MOD => luai_numeq b 0 | _ => false end then None
      else Some (with_kind e1 (VKNUM (luaO_arith (opcode_Z o - opcode_Z OP_ADD + LUA_OPADD) a b)))
  | _, _ => None
  end.

Definition codearith (o : OpCode) (e1 e2 : expdesc) (line : Z) : coder expdesc :=
  match constfolding o e1 e2 with
  | Some e => mret e
  | None =>
      '(o2, e2) ← (match o with OP_UNM | OP_LEN => mret (0, e2) | _ => luaK_exp2RK e2 end);
      '(o1, e1) ← luaK_exp2RK e1;
      _ ← (if o1 >? o2 then _ ← freeexp e1; freeexp e2 else _ ← freeexp e2; freeexp e1);
      p ← luaK_codeABC o 0 o1 o2;
      _ ← luaK_fixline line;
      mret (with_kind e1 (VRELOCABLE p))
  end.

Definition codecomp (o : OpCode) (cond : bool) (e1 e2 : expdesc) : coder expdesc :=
  '(o1, e1) ← luaK_exp2RK e1;
  '(o2, e2) ← luaK_exp2RK e2;
  _ ← freeexp e2;
  _ ← freeexp e1;
  j ← (if negb cond && negb (opcode_Z o =? opcode_Z OP_EQ) then condjump o 1 o2 o1
       else condjump o (if cond then 1 else 0) o1 o2);
  mret (with_kind e1 (VJMP j)).

Definition luaK_prefix (op : UnOpr) (e : expdesc) (line : Z) : coder expdesc :=
  let e2 := init_exp (VKNUM 0) in
  match op with
  | OPR_MINUS =>
      match ek e with
      | VKNUM r => if isnumeral e then mret (with_kind e (VKNUM (luai_numunm r)))
                   else e ← luaK_exp2anyreg e; codearith OP_UNM e e2 line
      | _ => e ← luaK_exp2anyreg e; codearith OP_UNM e e2 line
      end
  | OPR_NOT => codenot e
  | OPR_LEN => e ← luaK_exp2anyreg e; codearith OP_LEN e e2 line
  end.

Definition luaK_infix (op : BinOpr) (v : expdesc) : coder expdesc :=
  match op with
  | OPR_AND => luaK_goiftrue v
  | OPR_OR => luaK_goiffalse v
  | OPR_CONCAT => luaK_exp2nextreg v
  | OPR_ADD | OPR_SUB | OPR_MUL | OPR_DIV | OPR_MOD | OPR_POW =>
      if isnumeral v then mret v else '(_, v) ← luaK_exp2RK v; mret v
  | _ => '(_, v) ← luaK_exp2RK v; mret v
  end.

(** The opcode of an arithmetic or comparison operator ([ORDER OP]). *)
Definition arith_op (op : BinOpr) : OpCode :=
  match op with
  | OPR_ADD => OP_ADD | OPR_SUB => OP_SUB | OPR_MUL => OP_MUL | OPR_DIV => OP_DIV | OPR_MOD => OP_MOD | OPR_POW => OP_POW
  | OPR_EQ | OPR_NE => OP_EQ | OPR_LT | OPR_GT => OP_LT | _ => OP_LE
  end.

Definition luaK_posfix (op : BinOpr) (e1 e2 : expdesc) (line : Z) : coder expdesc :=
  match op with
  | OPR_AND => e2 ← luaK_dischargevars e2; f ← luaK_concat (ef e2) (ef e1); mret (with_f e2 f)
  | OPR_OR => e2 ← luaK_dischargevars e2; t ← luaK_concat (et e2) (et e1); mret (with_t e2 t)
  | OPR_CONCAT =>
      e2 ← luaK_exp2val e2;
      let two := e2 ← luaK_exp2nextreg e2; codearith OP_CONCAT e1 e2 line in
      match ek e2 with
      | VRELOCABLE p =>
          i ← getinstr p;
          if isop i OP_CONCAT then
            _ ← freeexp e1;
            _ ← setinstr p (SETARG_B i (info e1));
            mret (with_kind e1 (VRELOCABLE p))
          else two
      | _ => two
      end
  | OPR_ADD | OPR_SUB | OPR_MUL | OPR_DIV | OPR_MOD | OPR_POW => codearith (arith_op op) e1 e2 line
  | OPR_EQ | OPR_LT | OPR_LE => codecomp (arith_op op) true e1 e2
  | OPR_NE | OPR_GT | OPR_GE => codecomp (arith_op op) false e1 e2
  end.

Definition luaK_setlist (base nelems tostore : Z) : coder unit :=
  let c := (nelems - 1) / LFIELDS_PER_FLUSH + 1 in
  let b := if tostore =? LUA_MULTRET then 0 else tostore in
  _ ← (if c <=? MAXARG_C then luaK_codeABC OP_SETLIST base b c
       else if c <=? MAXARG_Ax then _ ← luaK_codeABC OP_SETLIST base b 0; codeextraarg c
       else fail LuaError);
  putfs (set_freereg (u8 (base + 1))).
End Numbers.
