(* ===== verification/LuaLines.v ===== *)
(** * Line numbers do not influence code

    The lines of tokens reach the code generator through [lastline] and [luaK_fixline] and
    end up in [lineinfo] only.  [eqv] relates states that differ in these two fields; every
    function of lcode.c that expressions use respects it, so that a parser and a
    compiler that see different lines emit the same code. *)

From S2P Require Import Prelude LuaStr LuaRef LuaTab LuaOp LuaNumber LuaCode.

(** A constant of a function: never an object. *)
Definition is_constant (v : TValue) : bool := match v with LObject _ => false | _ => true end.

(** Both functions have [n] active variables, which no code of an expression changes, and
    their constants are constants. *)
Record eqv (n : Z) (f g : FuncState) : Prop := {
  eq_code : code f = code g;
  eq_k : k f = k g;
  eq_h : h f = h g;
  eq_max : maxstacksize f = maxstacksize g;
  eq_target : lasttarget f = lasttarget g;
  eq_jpc : jpc f = jpc g;
  eq_free : freereg f = freereg g;
  eq_nact : nactvar f = n;
  eq_nact' : nactvar g = n;
  eq_const : Forall (fun v => is_constant v = true) (k g);
}.

#[export] Instance eqv_per n : RelationClasses.PER (eqv n).
Proof.
  split.
  - intros f g []. split; congruence.
  - intros f g e [] []. split; try done; by etrans.
Qed.

(** The same result and equivalent states, or the same error. *)
Definition agree {A} (n : Z) (x y : res (A * FuncState)) : Prop :=
  match x, y with
  | Ok (a, f), Ok (b, g) => a = b /\ eqv n f g
  | Err e, Err e' => e = e'
  | _, _ => False
  end.

(** Two computations that differ in lines only. *)
Definition lineless2 {A} (m m' : coder A) : Prop := forall n, (eqv n ==> agree n)%signature m m'.

Abbreviation lineless m := (lineless2 m m).

(** A run of a sequence. *)
Lemma bind_inv {A B} (m : coder A) (f : A -> coder B) fs r : (m ≫= f) fs = Ok r -> exists a fs1, m fs = Ok (a, fs1) /\ f a fs1 = Ok r.
Proof. unfold mbind, coder_bind. destruct (m fs) as [[a fs1]|]; [by eauto|done]. Qed.

Create HintDb lines.

Section Combinators.
Context {A B : Type}.

Lemma ll_ret (a : A) : lineless (mret a : coder A).
Proof. intros n f g Hfg. done. Qed.

Lemma ll_fail e : lineless (fail e : coder A).
Proof. intros n f g _. done. Qed.

Lemma ll_bind (m m' : coder A) (f f' : A -> coder B) : lineless2 m m' -> (forall a, lineless2 (f a) (f' a)) -> lineless2 (m ≫= f) (m' ≫= f').
Proof.
  intros Hm Hf n s t Hst. specialize (Hm n s t Hst). unfold mbind, coder_bind. unfold agree in Hm. destruct (m s) as [[a s']|e], (m' t) as [[b t']|e']; try done.
  destruct Hm as [-> Hs']. by apply Hf.
Qed.

Lemma ll_getfs (f : FuncState -> A) : (forall n s t, eqv n s t -> f s = f t) -> lineless (getfs f).
Proof. intros Hf n s t Hst. split; [by eapply Hf|done]. Qed.
End Combinators.

Lemma ll_putfs f f' : (forall n s t, eqv n s t -> eqv n (f s) (f' t)) -> lineless2 (putfs f) (putfs f').
Proof. intros Hf n s t Hst. split; [done|by apply Hf]. Qed.

(** Fields of equivalent states. *)
Ltac same_fields := let s := fresh in let t := fresh in intros ? s t; destruct s, t; intros []; cbn in *; subst; try done.

Ltac lines_step :=
  first
    [ apply ll_ret
    | apply ll_fail
    | solve [eauto with lines]
    | apply ll_bind; [|intros ?]
    | apply ll_getfs; solve [same_fields]
    | apply ll_putfs; solve [same_fields]
    | match goal with
      | |- lineless2 (match ?x with _ => _ end) _ => destruct x
      end ].

Ltac lines := cbv zeta; repeat lines_step.

(** ** The functions *)

Lemma ll_getinstr p : lineless (getinstr p).
Proof. unfold getinstr. same_fields. destruct (p <? 0); [done|]. by destruct (_ !! _). Qed.
#[export] Hint Resolve ll_getinstr : lines.

Lemma ll_setinstr p i : lineless (setinstr p i).
Proof. unfold setinstr, pc. same_fields. by destruct (_ || _). Qed.
#[export] Hint Resolve ll_setinstr : lines.

Lemma ll_getlabel : lineless luaK_getlabel.
Proof. unfold luaK_getlabel, pc. same_fields. Qed.
#[export] Hint Resolve ll_getlabel : lines.

Lemma ll_fixjump p dest : lineless (fixjump p dest).
Proof. unfold fixjump. lines. Qed.
Lemma ll_getjump p : lineless (getjump p).
Proof. unfold getjump. lines. Qed.
Lemma ll_getjumpcontrol p : lineless (getjumpcontrol p).
Proof. unfold getjumpcontrol. lines. Qed.
#[export] Hint Resolve ll_fixjump ll_getjump ll_getjumpcontrol : lines.

Lemma ll_need_value n l : lineless (need_value n l).
Proof. revert l. induction n as [|n IH]; intros l; cbn [need_value]; lines. Qed.
Lemma ll_patchtestreg n r : lineless (patchtestreg n r).
Proof. unfold patchtestreg. lines. Qed.
#[export] Hint Resolve ll_need_value ll_patchtestreg : lines.

Lemma ll_removevalues n l : lineless (removevalues n l).
Proof. revert l. induction n as [|n IH]; intros l; cbn [removevalues]; lines. Qed.
Lemma ll_patchlistaux n l v r d : lineless (patchlistaux n l v r d).
Proof. revert l. induction n as [|n IH]; intros l; cbn [patchlistaux]; lines. Qed.
Lemma ll_last_jump n l : lineless (last_jump n l).
Proof. revert l. induction n as [|n IH]; intros l; cbn [last_jump]; lines. Qed.
Lemma ll_jumps_fuel : lineless jumps_fuel.
Proof. unfold jumps_fuel. lines. Qed.
#[export] Hint Resolve ll_removevalues ll_patchlistaux ll_last_jump ll_jumps_fuel : lines.

Lemma ll_dischargejpc : lineless dischargejpc.
Proof. unfold dischargejpc, pc. lines. Qed.
Lemma ll_concat l1 l2 : lineless (luaK_concat l1 l2).
Proof. unfold luaK_concat. lines. Qed.
#[export] Hint Resolve ll_dischargejpc ll_concat : lines.

Lemma ll_patchtohere l : lineless (luaK_patchtohere l).
Proof. unfold luaK_patchtohere. lines. Qed.
Lemma ll_code i : lineless (luaK_code i).
Proof. unfold luaK_code, pc. lines. Qed.
#[export] Hint Resolve ll_patchtohere ll_code : lines.

Lemma ll_codeABC o a b c : lineless (luaK_codeABC o a b c).
Proof. unfold luaK_codeABC. lines. Qed.
Lemma ll_codek r n : lineless (luaK_codek r n).
Proof. unfold luaK_codek, luaK_codeABx, codeextraarg. lines. Qed.
Lemma ll_jump : lineless luaK_jump.
Proof. unfold luaK_jump, luaK_codeAsBx, luaK_codeABx. lines. Qed.
Lemma ll_fixline n n' : lineless2 (luaK_fixline n) (luaK_fixline n').
Proof. unfold luaK_fixline. lines. Qed.
#[export] Hint Resolve ll_codeABC ll_codek ll_jump ll_fixline : lines.

Lemma ll_nil a n : lineless (luaK_nil a n).
Proof. unfold luaK_nil, pc. lines. Qed.
Lemma ll_ret_code a n : lineless (luaK_ret a n).
Proof. unfold luaK_ret. lines. Qed.
Lemma ll_condjump o a b c : lineless (condjump o a b c).
Proof. unfold condjump. lines. Qed.
Lemma ll_checkstack n : lineless (luaK_checkstack n).
Proof. unfold luaK_checkstack. same_fields. by repeat case_match. Qed.
#[export] Hint Resolve ll_nil ll_ret_code ll_condjump ll_checkstack : lines.

Lemma ll_reserveregs n : lineless (luaK_reserveregs n).
Proof. unfold luaK_reserveregs. lines. Qed.
Lemma ll_free_reg r : lineless (free_reg r).
Proof. unfold free_reg. same_fields. by repeat case_match. Qed.
#[export] Hint Resolve ll_reserveregs ll_free_reg : lines.

Lemma ll_freeexp e : lineless (freeexp e).
Proof. unfold freeexp. lines. Qed.
#[export] Hint Resolve ll_freeexp : lines.

Section Numbers.
Context `{LuaNumber}.

Lemma ll_addk key v : is_constant v = true -> lineless (addk key v).
Proof.
  intros Hv. unfold addk, nk. same_fields. cbn. assert (forall l, Forall (fun v => is_constant v = true) l -> Forall (fun v => is_constant v = true) (l ++ [v])) as Ha by (intros l Hl; apply Forall_app; by auto).
  repeat case_match; try done; split; try done; split; cbn; auto.
Qed.
Hint Resolve ll_addk : lines.
Hint Extern 1 (is_constant _ = true) => reflexivity : lines.

Lemma ll_stringK s : lineless (luaK_stringK s).
Proof. unfold luaK_stringK. lines. Qed.
Lemma ll_numberK r : lineless (luaK_numberK r).
Proof. unfold luaK_numberK. lines. Qed.
Lemma ll_boolK b : lineless (boolK b).
Proof. unfold boolK. lines. Qed.
Lemma ll_nilK : lineless nilK.
Proof. unfold nilK. lines. Qed.
Hint Resolve ll_stringK ll_numberK ll_boolK ll_nilK : lines.

Lemma ll_setoneret e : lineless (luaK_setoneret e).
Proof. unfold luaK_setoneret. lines. Qed.
Hint Resolve ll_setoneret : lines.

Lemma ll_dischargevars e : lineless (luaK_dischargevars e).
Proof. unfold luaK_dischargevars. lines. Qed.
Lemma ll_code_label a b j : lineless (code_label a b j).
Proof. unfold code_label. lines. Qed.
Hint Resolve ll_dischargevars ll_code_label : lines.

Lemma ll_discharge2reg e r : lineless (discharge2reg e r).
Proof. unfold discharge2reg. lines. Qed.
Hint Resolve ll_discharge2reg : lines.

Lemma ll_discharge2anyreg e : lineless (discharge2anyreg e).
Proof. unfold discharge2anyreg. lines. Qed.
Lemma ll_exp2reg e r : lineless (exp2reg e r).
Proof. unfold exp2reg. lines. Qed.
Hint Resolve ll_discharge2anyreg ll_exp2reg : lines.

Lemma ll_exp2nextreg e : lineless (luaK_exp2nextreg e).
Proof. unfold luaK_exp2nextreg. lines. Qed.
Hint Resolve ll_exp2nextreg : lines.

Lemma ll_exp2anyreg e : lineless (luaK_exp2anyreg e).
Proof. unfold luaK_exp2anyreg. lines. Qed.
Hint Resolve ll_exp2anyreg : lines.

Lemma ll_exp2val e : lineless (luaK_exp2val e).
Proof. unfold luaK_exp2val. lines. Qed.
Hint Resolve ll_exp2val : lines.

Lemma ll_exp2RK e : lineless (luaK_exp2RK e).
Proof. unfold luaK_exp2RK, nk. lines. Qed.
Hint Resolve ll_exp2RK : lines.

Lemma ll_invertjump j : lineless (invertjump j).
Proof. unfold invertjump. lines. Qed.
Lemma ll_drop_instr : lineless drop_instr.
Proof. unfold drop_instr. lines. Qed.
Hint Resolve ll_invertjump ll_drop_instr : lines.

Lemma ll_jumponcond e c : lineless (jumponcond e c).
Proof. unfold jumponcond. lines. Qed.
Hint Resolve ll_jumponcond : lines.

Lemma ll_goiftrue e : lineless (luaK_goiftrue e).
Proof. unfold luaK_goiftrue. lines. Qed.
Lemma ll_goiffalse e : lineless (luaK_goiffalse e).
Proof. unfold luaK_goiffalse. lines. Qed.
Lemma ll_codenot e : lineless (codenot e).
Proof. unfold codenot. lines. Qed.
Lemma ll_codearith o e1 e2 n n' : lineless2 (codearith o e1 e2 n) (codearith o e1 e2 n').
Proof. unfold codearith. lines. Qed.
Lemma ll_codecomp o c e1 e2 : lineless (codecomp o c e1 e2).
Proof. unfold codecomp. lines. Qed.
Hint Resolve ll_goiftrue ll_goiffalse ll_codenot ll_codearith ll_codecomp : lines.

(** The line of an operator reaches [lineinfo] only. *)
Lemma ll_prefix op e n n' : lineless2 (luaK_prefix op e n) (luaK_prefix op e n').
Proof. unfold luaK_prefix. lines. Qed.
Lemma ll_infix op e : lineless (luaK_infix op e).
Proof. unfold luaK_infix. lines. Qed.
Lemma ll_posfix op e1 e2 n n' : lineless2 (luaK_posfix op e1 e2 n) (luaK_posfix op e1 e2 n').
Proof. unfold luaK_posfix. lines. Qed.
Lemma ll_codeABx o a bc : lineless (luaK_codeABx o a bc).
Proof. unfold luaK_codeABx. lines. Qed.
Lemma ll_codeextraarg a : lineless (codeextraarg a).
Proof. unfold codeextraarg. lines. Qed.
Hint Resolve ll_codeABx ll_codeextraarg : lines.

Lemma ll_codeAsBx o a b : lineless (luaK_codeAsBx o a b).
Proof. unfold luaK_codeAsBx. lines. Qed.
Lemma ll_patchlist l t : lineless (luaK_patchlist l t).
Proof. unfold luaK_patchlist. lines. Qed.
Lemma ll_patchclose_loop n l v : lineless (patchclose_loop n l v).
Proof. revert l. induction n as [|n IH]; intros l; cbn [patchclose_loop]; lines. Qed.
Hint Resolve ll_patchclose_loop : lines.

Lemma ll_patchclose l v : lineless (luaK_patchclose l v).
Proof. unfold luaK_patchclose. lines. Qed.
Lemma ll_setreturns e n : lineless (luaK_setreturns e n).
Proof. unfold luaK_setreturns. lines. Qed.
Hint Resolve ll_setreturns : lines.

Lemma ll_setmultret e : lineless (luaK_setmultret e).
Proof. unfold luaK_setmultret. lines. Qed.
Lemma ll_exp2anyregup e : lineless (luaK_exp2anyregup e).
Proof. unfold luaK_exp2anyregup. lines. Qed.
Lemma ll_indexed t key : lineless (luaK_indexed t key).
Proof. unfold luaK_indexed. lines. Qed.
Lemma ll_self e key : lineless (luaK_self e key).
Proof. unfold luaK_self. lines. Qed.
Lemma ll_storevar var e : lineless (luaK_storevar var e).
Proof. unfold luaK_storevar. lines. Qed.
Lemma ll_setlist b n t : lineless (luaK_setlist b n t).
Proof. unfold luaK_setlist. lines. Qed.
End Numbers.

#[export] Hint Resolve ll_stringK ll_dischargevars ll_exp2anyreg ll_exp2nextreg ll_prefix ll_infix ll_posfix ll_codeABx ll_codeAsBx ll_patchlist ll_patchclose ll_setreturns ll_setmultret ll_exp2anyregup ll_indexed ll_self ll_storevar ll_setlist ll_exp2RK ll_exp2val ll_goiftrue ll_goiffalse ll_numberK ll_setoneret : lines.
