(* ===== verification/LuaVm.v ===== *)
(** * Lua's virtual machine: the instructions of expressions ([lvm.c] of [src/dep/lua-5.2.3/src])

    One step of [luaV_execute] on the registers of a function.  The instructions that
    move, compute, compare and jump are modelled; those that reach other objects
    (tables, calls, closures, the assignment of upvalues) are the parameter [other].
    A metamethod runs Lua or C code, so [call_binTM] and its like are parameters too:
    they give the result, or [None] when there is no metamethod. *)

From S2P Require Import Prelude LuaStr LuaRef LuaTab LuaOp LuaNumber LuaCode.

(** The events of metamethods ([ltm.h]) that operators use. *)
Inductive TMS :=
| TM_LEN | TM_EQ | TM_ADD | TM_SUB | TM_MUL | TM_DIV | TM_MOD | TM_POW | TM_UNM | TM_LT | TM_LE | TM_CONCAT.

(** [op - TM_ADD + LUA_OPADD]. *)
Definition tm_arith (tm : TMS) : Z :=
  match tm with
  | TM_ADD => 0 | TM_SUB => 1 | TM_MUL => 2 | TM_DIV => 3 | TM_MOD => 4 | TM_POW => 5 | TM_UNM => 6 | _ => 7
  end.

(** What the machine calls outside the modelled part. *)
Record runtime := {
  luaO_str2d : bytes -> option Z;
  number2str : Z -> bytes;
  call_binTM : TMS -> TValue -> TValue -> option (res TValue);
  equalTM : Z -> Z -> option (res TValue);
  objlen : TValue -> res TValue;
}.

Definition l_isfalse (v : TValue) : bool := match v with LNil | LBool false => true | _ => false end.

Section Machine.
Context `{LuaNumber} (rt : runtime).

(** ** Operations on values *)

Definition luaV_tonumber (v : TValue) : option Z :=
  match v with LNumber r => Some r | LString s => luaO_str2d rt s | _ => None end.

Definition luaV_arith (b c : TValue) (tm : TMS) : res TValue :=
  match luaV_tonumber b, luaV_tonumber c with
  | Some x, Some y => Ok (LNumber (luaO_arith (tm_arith tm) x y))
  | _, _ => match call_binTM rt tm b c with Some r => r | None => Err LuaError end
  end.

(** The macro [arith_op]. *)
Definition vm_arith (op : Z -> Z -> Z) (tm : TMS) (b c : TValue) : res TValue :=
  match b, c with LNumber x, LNumber y => Ok (LNumber (op x y)) | _, _ => luaV_arith b c tm end.

Definition vm_unm (b : TValue) : res TValue :=
  match b with LNumber x => Ok (LNumber (luai_numunm x)) | _ => luaV_arith b b TM_UNM end.

Definition luaV_objlen (b : TValue) : res TValue :=
  match b with LString s => Ok (LNumber (cast_num (slen s))) | _ => objlen rt b end.

(** [equalobj]. *)
Definition equalobj (b c : TValue) : res bool :=
  match b, c with
  | LObject x, LObject y =>
      if x =? y then Ok true
      else match equalTM rt x y with Some r => v ← r; Ok (negb (l_isfalse v)) | None => Ok false end
  | _, _ => Ok (rawequalobj b c)
  end.

(** [None] is the result -1. *)
Definition call_orderTM (b c : TValue) (tm : TMS) : res (option bool) :=
  match call_binTM rt tm b c with
  | None => Ok None
  | Some r => v ← r; Ok (Some (negb (l_isfalse v)))
  end.

Definition lessthan (b c : TValue) : res bool :=
  match b, c with
  | LNumber x, LNumber y => Ok (luai_numlt x y)
  | LString s, LString t => r ← l_strcmp s t; Ok (r <? 0)
  | _, _ =>
      o ← call_orderTM b c TM_LT;
      match o with Some r => Ok r | None => Err LuaError end
  end.

Definition lessequal (b c : TValue) : res bool :=
  match b, c with
  | LNumber x, LNumber y => Ok (luai_numle x y)
  | LString s, LString t => r ← l_strcmp s t; Ok (r <=? 0)
  | _, _ =>
      o ← call_orderTM b c TM_LE;
      match o with
      | Some r => Ok r
      | None =>
          o ← call_orderTM c b TM_LT;
          match o with Some r => Ok (negb r) | None => Err LuaError end
      end
  end.

(** [tostring]: the string of a string or a number. *)
Definition tostring (v : TValue) : option bytes :=
  match v with LString s => Some s | LNumber r => Some (number2str rt r) | _ => None end.

Definition regs : Type := Z -> TValue.
Definition setreg (R : regs) (r : Z) (v : TValue) : regs := fun x => if x =? r then v else R x.

Definition MAX_SIZET : Z := 2 ^ 64 - 1 - 2.

(** [for (i = 1; i < total && tostring(L, top-i-1); i++)]: the values are converted in
    their places; the results are the number of strings, their concatenation and the
    registers. *)
Fixpoint collect (fuel : nat) (R : regs) (top total i : Z) (acc : bytes) : res (Z * bytes * regs) :=
  match fuel with
  | O => Err NoFuel
  | S fuel' =>
      if i <? total then
        match tostring (R (top - i - 1)) with
        | Some s =>
            if slen s >=? MAX_SIZET - slen acc then Err LuaError
            else collect fuel' (setreg R (top - i - 1) (LString s)) top total (i + 1) (s ++ acc)
        | None => Ok (i, acc, R)
        end
      else Ok (i, acc, R)
  end.

(** One turn of the loop: the number of values it handles, and the registers. *)
Definition concat_turn (R : regs) (top total : Z) : res (Z * regs) :=
  let a := R (top - 2) in
  let b := R (top - 1) in
  match tostring a, tostring b with
  | Some sa, Some sb =>
      let R := setreg R (top - 1) (LString sb) in
      if slen sb =? 0 then Ok (2, setreg R (top - 2) (LString sa))
      else if match a with LString s => slen s =? 0 | _ => false end then Ok (2, setreg R (top - 2) (LString sb))
      else
        '(n, s, R) ← collect (S (Z.to_nat total)) R top total 1 sb;
        Ok (n, setreg R (top - n) (LString s))
  | _, _ =>
      match call_binTM rt TM_CONCAT a b with
      | Some r => v ← r; Ok (2, setreg R (top - 2) v)
      | None => Err LuaError
      end
  end.

Fixpoint concat_loop (fuel : nat) (R : regs) (top total : Z) : res regs :=
  match fuel with
  | O => Err NoFuel
  | S fuel' =>
      '(n, R) ← concat_turn R top total;
      let total := total - (n - 1) in
      if total >? 1 then concat_loop fuel' R (top - (n - 1)) total else Ok R
  end.

Definition luaV_concat (R : regs) (top total : Z) : res regs := concat_loop (Z.to_nat total) R top total.

(** ** One instruction *)

Context (code : list Z) (ks : list TValue) (upvals : list TValue) (other : Z -> Z -> regs -> res (Z * regs)).

Definition fetch (p : Z) : res Z := if p <? 0 then Err Undefined else of_option Undefined (code !! Z.to_nat p).
Definition constant (n : Z) : res TValue := of_option Undefined (ks !! Z.to_nat n).

Definition RK (R : regs) (x : Z) : res TValue := if ISK x then constant (INDEXK x) else Ok (R x).

(** [do { setnilvalue(ra++); } while (b--)]. *)
Fixpoint setnils (n : nat) (R : regs) (r : Z) : regs :=
  match n with O => R | S n' => setnils n' (setreg R r LNil) (r + 1) end.

(** [dojump(ci, i, e)], closing no upvalue or some: the registers stay. *)
Definition dojump (p i e : Z) : Z := p + GETARG_sBx i + e.

(** After a comparison: the next instruction is a jump. *)
Definition cond_jump (p : Z) (R : regs) (taken : bool) : res (Z * regs) :=
  if taken then i ← fetch p; Ok (dojump p i 1, R) else Ok (p + 1, R).

Definition arith_of (o : OpCode) : option ((Z -> Z -> Z) * TMS) :=
  match o with
  | OP_ADD => Some (luai_numadd, TM_ADD)
  | OP_SUB => Some (luai_numsub, TM_SUB)
  | OP_MUL => Some (luai_nummul, TM_MUL)
  | OP_DIV => Some (luai_numdiv, TM_DIV)
  | OP_MOD => Some (luai_nummod, TM_MOD)
  | OP_POW => Some (luai_numpow, TM_POW)
  | _ => None
  end.

Definition b2z (b : bool) : Z := if b then 1 else 0.

(** [p] is the address of the instruction, [savedpc] is behind it. *)
Definition execute1 (p : Z) (R : regs) : res (Z * regs) :=
  i ← fetch p;
  let savedpc := p + 1 in
  let ra := GETARG_A i in
  let rb := GETARG_B i in
  let rc := GETARG_C i in
  match opcodes !! Z.to_nat (GET_OPCODE i) with
  | None => Err Undefined
  | Some o =>
      match o with
      | OP_MOVE => Ok (savedpc, setreg R ra (R rb))
      | OP_LOADK => v ← constant (GETARG_Bx i); Ok (savedpc, setreg R ra v)
      | OP_LOADKX => x ← fetch savedpc; v ← constant (GETARG_Ax x); Ok (savedpc + 1, setreg R ra v)
      | OP_LOADBOOL => Ok (if rc =? 0 then savedpc else savedpc + 1, setreg R ra (LBool (negb (rb =? 0))))
      | OP_LOADNIL => Ok (savedpc, setnils (S (Z.to_nat rb)) R ra)
      | OP_GETUPVAL => v ← of_option Undefined (upvals !! Z.to_nat rb); Ok (savedpc, setreg R ra v)
      | OP_ADD | OP_SUB | OP_MUL | OP_DIV | OP_MOD | OP_POW =>
          match arith_of o with
          | Some (op, tm) => b ← RK R rb; c ← RK R rc; v ← vm_arith op tm b c; Ok (savedpc, setreg R ra v)
          | None => Err Undefined
          end
      | OP_UNM => v ← vm_unm (R rb); Ok (savedpc, setreg R ra v)
      | OP_NOT => Ok (savedpc, setreg R ra (LBool (l_isfalse (R rb))))
      | OP_LEN => v ← luaV_objlen (R rb); Ok (savedpc, setreg R ra v)
      | OP_CONCAT => R ← luaV_concat R (rc + 1) (rc - rb + 1); Ok (savedpc, setreg R ra (R rb))
      | OP_JMP => Ok (dojump savedpc i 0, R)
      | OP_EQ => b ← RK R rb; c ← RK R rc; r ← equalobj b c; cond_jump savedpc R (b2z r =? ra)
      | OP_LT => b ← RK R rb; c ← RK R rc; r ← lessthan b c; cond_jump savedpc R (b2z r =? ra)
      | OP_LE => b ← RK R rb; c ← RK R rc; r ← lessequal b c; cond_jump savedpc R (b2z r =? ra)
      | OP_TEST => cond_jump savedpc R (negb (if rc =? 0 then negb (l_isfalse (R ra)) else l_isfalse (R ra)))
      | OP_TESTSET =>
          if (if rc =? 0 then negb (l_isfalse (R rb)) else l_isfalse (R rb)) then Ok (savedpc + 1, R)
          else cond_jump savedpc (setreg R ra (R rb)) true
      | _ => other i p R
      end
  end.

(** Executes instructions until the address [stop]. *)
Fixpoint execute (fuel : nat) (stop p : Z) (R : regs) : res regs :=
  match fuel with
  | O => Err NoFuel
  | S fuel' => if p =? stop then Ok R else '(p, R) ← execute1 p R; execute fuel' stop p R
  end.
End Machine.
