(* ===== verification/LuaParse.v ===== *)
(** * Lua's parser: expressions ([lparser.c] of [src/dep/lua-5.2.3/src])

    The recursive-descent parser for expressions: operators with their priorities,
    simple expressions, variables (locals, upvalues and globals), indexing, calls and
    table constructors.  It reads tokens with the lexer of [LuaLex] and emits code with
    [LuaCode]; the functions under construction form a stack, the innermost first.
    [body], which parses a function with its block, is a parameter here; [LuaStat] gives
    it with the statements.  A syntax error is [LuaError], whatever its message. *)

From S2P Require Import Prelude LuaStr LuaZio LuaDump LuaLex LuaOp LuaNumber LuaCode.

Definition TK_AND : Z := FIRST_RESERVED.
Definition TK_FALSE : Z := FIRST_RESERVED + 6.
Definition TK_FUNCTION : Z := FIRST_RESERVED + 8.
Definition TK_NIL : Z := FIRST_RESERVED + 13.
Definition TK_NOT : Z := FIRST_RESERVED + 14.
Definition TK_OR : Z := FIRST_RESERVED + 15.
Definition TK_TRUE : Z := FIRST_RESERVED + 19.

(** ** The state *)

(** [isloop] and [upval] are flags; the chain of blocks is a list, the innermost first. *)
Record BlockCnt := MkBlock { bl_firstlabel : Z; bl_firstgoto : Z; bl_nactvar : Z; bl_upval : bool; bl_isloop : bool }.

(** Labels and pending gotos. *)
Record Labeldesc := MkLabel { lb_name : bytes; lb_pc : Z; lb_line : Z; lb_nactvar : Z }.

(** The part of [FuncState] and its prototype that the code generator does not use.  [np]
    counts the prototype of a function that is still open; [protos] has the closed ones. *)
Record PFunc := MkPFunc {
  pf : FuncState;
  locvars : list LocVar;
  upvalues : list Upvaldesc;
  firstlocal : Z;
  bl : list BlockCnt;
  is_vararg : bool;
  numparams : Z;
  linedefined : Z;
  lastlinedefined : Z;
  np : Z;
  protos : list Proto;
}.

(** The lexer, the functions, and [Dyndata]: [actvar], [gt] and [label]. *)
Record PState := MkP {
  ls : LexState;
  funcs : list PFunc;
  actvar : list Z;
  gt : list Labeldesc;
  label : list Labeldesc;
  envn : bytes;
  nCcalls : Z;
}.

Definition parser (A : Type) : Type := PState -> res (A * PState).

#[export] Instance parser_ret : MRet parser := fun A a s => Ok (a, s).
#[export] Instance parser_bind : MBind parser := fun A B f m s =>
  match m s with Ok (a, s') => f a s' | Err e => Err e end.

Definition getp {A} (f : PState -> A) : parser A := fun s => Ok (f s, s).
Definition failp {A} (e : fault) : parser A := fun _ => Err e.

Definition set_ls (l : LexState) (s : PState) : PState := MkP l (funcs s) (actvar s) (gt s) (label s) (envn s) (nCcalls s).
Definition set_funcs (fs : list PFunc) (s : PState) : PState := MkP (ls s) fs (actvar s) (gt s) (label s) (envn s) (nCcalls s).
Definition set_ccalls (n : Z) (s : PState) : PState := MkP (ls s) (funcs s) (actvar s) (gt s) (label s) (envn s) n.

Definition with_pf (f : PFunc) (c : FuncState) : PFunc :=
  MkPFunc c (locvars f) (upvalues f) (firstlocal f) (bl f) (is_vararg f) (numparams f) (linedefined f) (lastlinedefined f) (np f) (protos f).
Definition with_upvalues (f : PFunc) (u : list Upvaldesc) : PFunc :=
  MkPFunc (pf f) (locvars f) u (firstlocal f) (bl f) (is_vararg f) (numparams f) (linedefined f) (lastlinedefined f) (np f) (protos f).
Definition with_blocks (f : PFunc) (b : list BlockCnt) : PFunc :=
  MkPFunc (pf f) (locvars f) (upvalues f) (firstlocal f) b (is_vararg f) (numparams f) (linedefined f) (lastlinedefined f) (np f) (protos f).

Definition set_lastline (n : Z) (fs : FuncState) : FuncState :=
  MkFunc (code fs) (lineinfo fs) (k fs) (h fs) (maxstacksize fs) (lasttarget fs) (jpc fs) (nactvar fs) (freereg fs) n.

(** A call of the code generator, for the current function. *)
Definition emit {A} (m : coder A) : parser A := fun s =>
  match funcs s with
  | [] => Err Undefined
  | f :: outer =>
      match m (set_lastline (LuaLex.lastline (ls s)) (pf f)) with
      | Ok (a, c) => Ok (a, set_funcs (with_pf f c :: outer) s)
      | Err e => Err e
      end
  end.

Definition lex_fault (e : lexerr) : fault :=
  match e with LexError _ _ => LuaError | LexUndefined => Undefined | LexFuel => NoFuel end.

Definition lexer_call {A} (m : lexer A) : parser A := fun s =>
  match m (ls s) with inr (a, l) => Ok (a, set_ls l s) | inl e => Err (lex_fault e) end.

(** The current token, its value and the line. *)
Definition tok : parser Z := getp (fun s => token (lt (ls s))).
Definition sem : parser SemInfo := getp (fun s => seminfo (lt (ls s))).
Definition line : parser Z := getp (fun s => linenumber (ls s)).

(** A string value of the current token. *)
Definition sem_string : parser bytes :=
  v ← sem; match v with SemString ts => mret ts | _ => failp Undefined end.

(** ** Variables *)

(** [getlocvar(fs, i)->varname]. *)
Definition locname (av : list Z) (f : PFunc) (i : Z) : option bytes :=
  idx ← av !! Z.to_nat (firstlocal f + i); v ← locvars f !! Z.to_nat idx; varname v.

(** [for (i = nactvar - 1; i >= 0; i--)]: [n] is [i + 1]. *)
Fixpoint searchvar_loop (av : list Z) (f : PFunc) (n : nat) (name : bytes) : option Z :=
  match n with
  | O => None
  | S i => if decide (locname av f (Z.of_nat i) = Some name) then Some (Z.of_nat i) else searchvar_loop av f i name
  end.

Definition searchvar (av : list Z) (f : PFunc) (name : bytes) : option Z :=
  searchvar_loop av f (Z.to_nat (nactvar (pf f))) name.

Definition searchupvalue (f : PFunc) (name : bytes) : option Z :=
  match list_find (fun u => LuaDump.name u = Some name) (upvalues f) with Some (i, _) => Some (Z.of_nat i) | None => None end.

Definition MAXUPVAL : Z := 255.
Definition LUAI_MAXCCALLS : Z := 200.

(** [v] is a local or an upvalue of the enclosing function. *)
Definition newupvalue (f : PFunc) (name : bytes) (v : expkind) : res (Z * PFunc) :=
  let nups := Z.of_nat (length (upvalues f)) in
  if nups + 1 >? MAXUPVAL then Err LuaError else
  let instack := match v with VLOCAL _ => 1 | _ => 0 end in
  Ok (nups, with_upvalues f (upvalues f ++ [MkUpvaldesc (Some name) instack (u8 (info (init_exp v)))])).

Fixpoint markupval (blocks : list BlockCnt) (level : Z) : list BlockCnt :=
  match blocks with
  | [] => []
  | b :: bs => if bl_nactvar b >? level then b :: markupval bs level else MkBlock (bl_firstlabel b) (bl_firstgoto b) (bl_nactvar b) true (bl_isloop b) :: bs
  end.

(** [VVOID] when there is no such variable; the other results are [VLOCAL] and
    [VUPVAL]. *)
Fixpoint singlevaraux (av : list Z) (fs : list PFunc) (n : bytes) (base : bool) : res (expkind * list PFunc) :=
  match fs with
  | [] => Ok (VVOID, [])
  | f :: outer =>
      match searchvar av f n with
      | Some v => Ok (VLOCAL v, (if base then f else with_blocks f (markupval (bl f) v)) :: outer)
      | None =>
          match searchupvalue f n with
          | Some idx => Ok (VUPVAL idx, f :: outer)
          | None =>
              '(v, outer) ← singlevaraux av outer n false;
              match v with
              | VVOID => Ok (VVOID, f :: outer)
              | _ => '(idx, f) ← newupvalue f n v; Ok (VUPVAL idx, f :: outer)
              end
          end
      end
  end.

Definition find_variable (n : bytes) : parser expkind := fun s =>
  '(v, fs) ← singlevaraux (actvar s) (funcs s) n true; Ok (v, set_funcs fs s).

(** ** Operators *)

Definition getunopr (op : Z) : option UnOpr :=
  if op =? TK_NOT then Some OPR_NOT else if op =? 45 then Some OPR_MINUS else if op =? 35 then Some OPR_LEN else None.

Definition getbinopr (op : Z) : option BinOpr :=
  if op =? 43 then Some OPR_ADD else if op =? 45 then Some OPR_SUB else if op =? 42 then Some OPR_MUL
  else if op =? 47 then Some OPR_DIV else if op =? 37 then Some OPR_MOD else if op =? 94 then Some OPR_POW
  else if op =? TK_CONCAT then Some OPR_CONCAT else if op =? TK_NE then Some OPR_NE else if op =? TK_EQ then Some OPR_EQ
  else if op =? 60 then Some OPR_LT else if op =? TK_LE then Some OPR_LE else if op =? 62 then Some OPR_GT
  else if op =? TK_GE then Some OPR_GE else if op =? TK_AND then Some OPR_AND else if op =? TK_OR then Some OPR_OR else None.

(** The left and right priorities. *)
Definition priority (op : BinOpr) : Z * Z :=
  match op with
  | OPR_ADD | OPR_SUB => (6, 6)
  | OPR_MUL | OPR_DIV | OPR_MOD => (7, 7)
  | OPR_POW => (10, 9)
  | OPR_CONCAT => (5, 4)
  | OPR_EQ | OPR_LT | OPR_LE | OPR_NE | OPR_GT | OPR_GE => (3, 3)
  | OPR_AND => (2, 2)
  | OPR_OR => (1, 1)
  end.

Definition UNARY_PRIORITY : Z := 8.

(** [luaO_int2fb]: a size as a "floating-point byte". *)
Fixpoint int2fb_loop (fuel : nat) (x e : Z) : Z * Z :=
  match fuel with
  | O => (x, e)
  | S fuel' => if x >=? 0x10 then int2fb_loop fuel' (u32 (x + 1) ≫ 1) (e + 1) else (x, e)
  end.

Definition luaO_int2fb (x : Z) : Z :=
  if x <? 8 then x else let '(x, e) := int2fb_loop 32 x 0 in ((e + 1) ≪ 3) ||| (x - 8).

(** ** The grammar *)

Section Grammar.
Context `{LuaNumber} (luaO_str2d : bytes -> option Z) (lexfuel : nat).

Definition nexttoken : parser unit := lexer_call (luaX_next luaO_str2d lexfuel).

Definition testnext (c : Z) : parser bool :=
  t ← tok; if t =? c then _ ← nexttoken; mret true else mret false.

Definition check (c : Z) : parser unit := t ← tok; if t =? c then mret () else failp LuaError.

Definition checknext (c : Z) : parser unit := _ ← check c; nexttoken.

(** The two messages of the error are not told apart. *)
Definition check_match (what : Z) : parser unit := b ← testnext what; if (b : bool) then mret () else failp LuaError.

Definition str_checkname : parser bytes := _ ← check TK_NAME; ts ← sem_string; _ ← nexttoken; mret ts.

Definition codestring (s : bytes) : parser expdesc := i ← emit (luaK_stringK s); mret (init_exp (VK i)).

Definition checkname : parser expdesc := n ← str_checkname; codestring n.

Definition singlevar : parser expdesc :=
  varname ← str_checkname;
  v ← find_variable varname;
  match v with
  | VVOID =>
      env ← getp envn;
      var ← find_variable env;
      key ← codestring varname;
      emit (luaK_indexed (init_exp var) key)
  | _ => mret (init_exp v)
  end.

Definition enterlevel : parser unit := fun s =>
  let n := nCcalls s + 1 in
  if n >? LUAI_MAXCCALLS then Err LuaError else Ok ((), set_ccalls n s).

Definition leavelevel : parser unit := fun s => Ok ((), set_ccalls (nCcalls s - 1) s).

Definition hasmultret (e : expdesc) : bool := match ek e with VCALL _ | VVARARG _ => true | _ => false end.
Definition isvoid (e : expdesc) : bool := match ek e with VVOID => true | _ => false end.

Section Rules.
(** [subexpr] for the nested expressions, and [body]. *)
Context (subexpr : Z -> parser (expdesc * option BinOpr)) (body : bool -> Z -> parser expdesc) (fuel : nat).

Definition expr : parser expdesc := '(v, _) ← subexpr 0; mret v.

Definition fieldsel (v : expdesc) : parser expdesc :=
  v ← emit (luaK_exp2anyregup v);
  _ ← nexttoken;
  key ← checkname;
  emit (luaK_indexed v key).

Definition yindex : parser expdesc :=
  _ ← nexttoken;
  v ← expr;
  v ← emit (luaK_exp2val v);
  _ ← checknext 93;
  mret v.

(** [struct ConsControl]; the table is in register [cc_t]. *)
Record ConsControl := MkCons { cc_v : expdesc; cc_t : Z; cc_nh : Z; cc_na : Z; cc_tostore : Z }.

Definition recfield (cc : ConsControl) : parser ConsControl :=
  reg ← emit (getfs freereg);
  t ← tok;
  key ← (if t =? TK_NAME then
           if cc_nh cc >? MAX_INT then failp LuaError else checkname
         else yindex);
  _ ← checknext 61;
  '(rkkey, _) ← emit (luaK_exp2RK key);
  val ← expr;
  '(rkval, _) ← emit (luaK_exp2RK val);
  _ ← emit (luaK_codeABC OP_SETTABLE (cc_t cc) rkkey rkval);
  _ ← emit (putfs (set_freereg reg));
  mret (MkCons (cc_v cc) (cc_t cc) (cc_nh cc + 1) (cc_na cc) (cc_tostore cc)).

Definition closelistfield (cc : ConsControl) : parser ConsControl :=
  if isvoid (cc_v cc) then mret cc else
  _ ← emit (luaK_exp2nextreg (cc_v cc));
  if cc_tostore cc =? LFIELDS_PER_FLUSH then
    _ ← emit (luaK_setlist (cc_t cc) (cc_na cc) (cc_tostore cc));
    mret (MkCons (init_exp VVOID) (cc_t cc) (cc_nh cc) (cc_na cc) 0)
  else mret (MkCons (init_exp VVOID) (cc_t cc) (cc_nh cc) (cc_na cc) (cc_tostore cc)).

Definition lastlistfield (cc : ConsControl) : parser ConsControl :=
  if cc_tostore cc =? 0 then mret cc
  else if hasmultret (cc_v cc) then
    _ ← emit (luaK_setmultret (cc_v cc));
    _ ← emit (luaK_setlist (cc_t cc) (cc_na cc) LUA_MULTRET);
    mret (MkCons (cc_v cc) (cc_t cc) (cc_nh cc) (cc_na cc - 1) (cc_tostore cc))
  else
    _ ← (if isvoid (cc_v cc) then mret () else _ ← emit (luaK_exp2nextreg (cc_v cc)); mret ());
    _ ← emit (luaK_setlist (cc_t cc) (cc_na cc) (cc_tostore cc));
    mret cc.

Definition listfield (cc : ConsControl) : parser ConsControl :=
  v ← expr;
  if cc_na cc >? MAX_INT then failp LuaError
  else mret (MkCons v (cc_t cc) (cc_nh cc) (cc_na cc + 1) (cc_tostore cc + 1)).

Definition field (cc : ConsControl) : parser ConsControl :=
  t ← tok;
  if t =? TK_NAME then
    t ← lexer_call (luaX_lookahead luaO_str2d lexfuel);
    if negb (t =? 61) then listfield cc else recfield cc
  else if t =? 91 then recfield cc
  else listfield cc.

Fixpoint fields_loop (n : nat) (cc : ConsControl) : parser ConsControl :=
  match n with
  | O => failp NoFuel
  | S n' =>
      t ← tok;
      if t =? 125 then mret cc else
      cc ← closelistfield cc;
      cc ← field cc;
      b ← testnext 44;
      b ← (if (b : bool) then mret true else testnext 59);
      if (b : bool) then fields_loop n' cc else mret cc
  end.

Definition constructor : parser expdesc :=
  p ← emit (luaK_codeABC OP_NEWTABLE 0 0 0);
  t ← emit (luaK_exp2nextreg (init_exp (VRELOCABLE p)));
  _ ← checknext 123;
  cc ← fields_loop fuel (MkCons (init_exp VVOID) (info t) 0 0 0);
  _ ← check_match 125;
  cc ← lastlistfield cc;
  i ← emit (getinstr p);
  _ ← emit (setinstr p (SETARG_C (SETARG_B i (luaO_int2fb (cc_na cc))) (luaO_int2fb (cc_nh cc))));
  mret t.

Fixpoint explist_loop (n : nat) (v : expdesc) (nexps : Z) : parser (Z * expdesc) :=
  match n with
  | O => failp NoFuel
  | S n' =>
      b ← testnext 44;
      if (b : bool) then
        _ ← emit (luaK_exp2nextreg v);
        v ← expr;
        explist_loop n' v (nexps + 1)
      else mret (nexps, v)
  end.

(** The number of expressions and the last one. *)
Definition explist : parser (Z * expdesc) := v ← expr; explist_loop fuel v 1.

Definition funcargs (f : expdesc) (ln : Z) : parser expdesc :=
  t ← tok;
  args ← (if t =? 40 then
            _ ← nexttoken;
            t ← tok;
            args ← (if t =? 41 then mret (init_exp VVOID) else '(_, args) ← explist; _ ← emit (luaK_setmultret args); mret args);
            _ ← check_match 41;
            mret args
          else if t =? 123 then constructor
          else if t =? TK_STRING then s ← sem_string; args ← codestring s; _ ← nexttoken; mret args
          else failp LuaError);
  let base := info f in
  nparams ← (if hasmultret args then mret LUA_MULTRET
             else
               _ ← (if isvoid args then mret () else _ ← emit (luaK_exp2nextreg args); mret ());
               r ← emit (getfs freereg);
               mret (r - (base + 1)));
  p ← emit (luaK_codeABC OP_CALL base (nparams + 1) 2);
  _ ← emit (luaK_fixline ln);
  _ ← emit (putfs (set_freereg (u8 (base + 1))));
  mret (init_exp (VCALL p)).

Definition primaryexp : parser expdesc :=
  t ← tok;
  if t =? 40 then
    _ ← nexttoken;
    v ← expr;
    _ ← check_match 41;
    emit (luaK_dischargevars v)
  else if t =? TK_NAME then singlevar
  else failp LuaError.

Fixpoint suffix_loop (n : nat) (ln : Z) (v : expdesc) : parser expdesc :=
  match n with
  | O => failp NoFuel
  | S n' =>
      t ← tok;
      if t =? 46 then v ← fieldsel v; suffix_loop n' ln v
      else if t =? 91 then
        v ← emit (luaK_exp2anyregup v);
        key ← yindex;
        v ← emit (luaK_indexed v key);
        suffix_loop n' ln v
      else if t =? 58 then
        _ ← nexttoken;
        key ← checkname;
        v ← emit (luaK_self v key);
        v ← funcargs v ln;
        suffix_loop n' ln v
      else if (t =? 40) || (t =? TK_STRING) || (t =? 123) then
        v ← emit (luaK_exp2nextreg v);
        v ← funcargs v ln;
        suffix_loop n' ln v
      else mret v
  end.

Definition suffixedexp : parser expdesc := ln ← line; v ← primaryexp; suffix_loop fuel ln v.

Definition simpleexp : parser expdesc :=
  t ← tok;
  if t =? TK_NUMBER then
    s ← sem;
    match s with SemNumber r => _ ← nexttoken; mret (init_exp (VKNUM r)) | _ => failp Undefined end
  else if t =? TK_STRING then s ← sem_string; v ← codestring s; _ ← nexttoken; mret v
  else if t =? TK_NIL then _ ← nexttoken; mret (init_exp VNIL)
  else if t =? TK_TRUE then _ ← nexttoken; mret (init_exp VTRUE)
  else if t =? TK_FALSE then _ ← nexttoken; mret (init_exp VFALSE)
  else if t =? TK_DOTS then
    va ← getp (fun s => match funcs s with f :: _ => is_vararg f | [] => false end);
    if (va : bool) then
      p ← emit (luaK_codeABC OP_VARARG 0 1 0);
      _ ← nexttoken;
      mret (init_exp (VVARARG p))
    else failp LuaError
  else if t =? 123 then constructor
  else if t =? TK_FUNCTION then _ ← nexttoken; ln ← line; body false ln
  else suffixedexp.

(** [while (op != OPR_NOBINOPR && priority[op].left > limit)]. *)
Fixpoint binop_loop (n : nat) (limit : Z) (v : expdesc) (op : option BinOpr) : parser (expdesc * option BinOpr) :=
  match op with
  | Some op =>
      if fst (priority op) >? limit then
        match n with
        | O => failp NoFuel
        | S n' =>
            ln ← line;
            _ ← nexttoken;
            v ← emit (luaK_infix op v);
            '(v2, nextop) ← subexpr (snd (priority op));
            v ← emit (luaK_posfix op v v2 ln);
            binop_loop n' limit v nextop
        end
      else mret (v, Some op)
  | None => mret (v, None)
  end.

Definition operand : parser expdesc :=
  t ← tok;
  match getunopr t with
  | Some uop =>
      ln ← line;
      _ ← nexttoken;
      '(v, _) ← subexpr UNARY_PRIORITY;
      emit (luaK_prefix uop v ln)
  | None => simpleexp
  end.

Definition subexpr_rule (limit : Z) : parser (expdesc * option BinOpr) :=
  _ ← enterlevel;
  v ← operand;
  t ← tok;
  r ← binop_loop fuel limit v (getbinopr t);
  _ ← leavelevel;
  mret r.
End Rules.

Context (body : bool -> Z -> parser expdesc).

Fixpoint subexpr (fuel : nat) (limit : Z) : parser (expdesc * option BinOpr) :=
  match fuel with
  | O => failp NoFuel
  | S fuel' => subexpr_rule (subexpr fuel') body fuel' limit
  end.
End Grammar.
