(* ===== verification/LuaStat.v ===== *)
(** * Lua's parser: statements and functions ([lparser.c] of [src/dep/lua-5.2.3/src])

    Local variables, blocks, labels and gotos, functions, and every statement, up to
    [luaY_parser], which turns a source text into the prototype of the main function.
    The order of the calls is that of the code.  Growing a vector succeeds below its
    limit; a LocVar has 0 where the code has not stored a position yet; the objects
    the collector needs to see (anchors, barriers) are left out. *)

From S2P Require Import Prelude LuaStr LuaZio LuaDump LuaLex LuaOp LuaNumber LuaCode LuaParse.

Definition TK_BREAK : Z := FIRST_RESERVED + 1.
Definition TK_DO : Z := FIRST_RESERVED + 2.
Definition TK_ELSE : Z := FIRST_RESERVED + 3.
Definition TK_ELSEIF : Z := FIRST_RESERVED + 4.
Definition TK_END : Z := FIRST_RESERVED + 5.
Definition TK_FOR : Z := FIRST_RESERVED + 7.
Definition TK_GOTO : Z := FIRST_RESERVED + 9.
Definition TK_IF : Z := FIRST_RESERVED + 10.
Definition TK_IN : Z := FIRST_RESERVED + 11.
Definition TK_LOCAL : Z := FIRST_RESERVED + 12.
Definition TK_REPEAT : Z := FIRST_RESERVED + 16.
Definition TK_RETURN : Z := FIRST_RESERVED + 17.
Definition TK_THEN : Z := FIRST_RESERVED + 18.
Definition TK_UNTIL : Z := FIRST_RESERVED + 20.

Definition MAXVARS : Z := 200.
Definition SHRT_MAX : Z := 32767.

(** ** State *)

Definition set_actvar (a : list Z) (s : PState) : PState := MkP (ls s) (funcs s) a (gt s) (label s) (envn s) (nCcalls s).
Definition set_gt (g : list Labeldesc) (s : PState) : PState := MkP (ls s) (funcs s) (actvar s) g (label s) (envn s) (nCcalls s).
Definition set_label (l : list Labeldesc) (s : PState) : PState := MkP (ls s) (funcs s) (actvar s) (gt s) l (envn s) (nCcalls s).

Definition with_locvars (f : PFunc) (v : list LocVar) : PFunc :=
  MkPFunc (pf f) v (upvalues f) (firstlocal f) (bl f) (is_vararg f) (numparams f) (linedefined f) (lastlinedefined f) (np f) (protos f).
Definition with_vararg (f : PFunc) (b : bool) : PFunc :=
  MkPFunc (pf f) (locvars f) (upvalues f) (firstlocal f) (bl f) b (numparams f) (linedefined f) (lastlinedefined f) (np f) (protos f).
Definition with_numparams (f : PFunc) (n : Z) : PFunc :=
  MkPFunc (pf f) (locvars f) (upvalues f) (firstlocal f) (bl f) (is_vararg f) n (linedefined f) (lastlinedefined f) (np f) (protos f).
Definition with_lastline (f : PFunc) (n : Z) : PFunc :=
  MkPFunc (pf f) (locvars f) (upvalues f) (firstlocal f) (bl f) (is_vararg f) (numparams f) (linedefined f) n (np f) (protos f).
Definition with_protos (f : PFunc) (n : Z) (ps : list Proto) : PFunc :=
  MkPFunc (pf f) (locvars f) (upvalues f) (firstlocal f) (bl f) (is_vararg f) (numparams f) (linedefined f) (lastlinedefined f) n ps.

Definition putp (f : PState -> PState) : parser unit := fun s => Ok ((), f s).

(** The current function, [ls->fs]. *)
Definition getfunc {A} (f : PFunc -> A) : parser A := fun s =>
  match funcs s with [] => Err Undefined | g :: _ => Ok (f g, s) end.

Definition putfunc (f : PFunc -> PFunc) : parser unit := fun s =>
  match funcs s with [] => Err Undefined | g :: outer => Ok ((), set_funcs (f g :: outer) s) end.

(** The current block, [fs->bl]. *)
Definition current_block : parser BlockCnt :=
  bs ← getfunc bl; match bs with b :: _ => mret b | [] => failp Undefined end.

(** A function of the code generator, called for [fs->prev]. *)
Definition emit_prev {A} (m : coder A) : parser A := fun s =>
  match funcs s with
  | f :: g :: outer =>
      match m (set_lastline (LuaLex.lastline (ls s)) (pf g)) with
      | Ok (a, c) => Ok (a, set_funcs (f :: with_pf g c :: outer) s)
      | Err e => Err e
      end
  | _ => Err Undefined
  end.

(** ** Local variables *)

Definition registerlocalvar (name : bytes) : parser Z :=
  vs ← getfunc locvars;
  let nlocvars := Z.of_nat (length vs) in
  if nlocvars >=? SHRT_MAX then failp LuaError else
  _ ← putfunc (fun f => with_locvars f (vs ++ [MkLocVar (Some name) 0 0]));
  mret nlocvars.

Definition new_localvar (name : bytes) : parser unit :=
  reg ← registerlocalvar name;
  first ← getfunc firstlocal;
  av ← getp actvar;
  if Z.of_nat (length av) + 1 - first >? MAXVARS then failp LuaError
  else putp (set_actvar (av ++ [reg])).

(** [getlocvar(fs, i)], to be changed. *)
Definition change_locvar (av : list Z) (i : Z) (g : LocVar -> LocVar) : parser unit :=
  f ← getfunc id;
  match av !! Z.to_nat (firstlocal f + i) with
  | None => failp Undefined
  | Some idx =>
      match locvars f !! Z.to_nat idx with
      | None => failp Undefined
      | Some v => putfunc (fun f => with_locvars f (<[Z.to_nat idx := g v]> (locvars f)))
      end
  end.

Definition set_startpc (n : Z) (v : LocVar) : LocVar := MkLocVar (varname v) n (endpc v).
Definition set_endpc (n : Z) (v : LocVar) : LocVar := MkLocVar (varname v) (startpc v) n.

(** [for (; nvars; nvars--)]. *)
Fixpoint adjust_loop (nvars : nat) : parser unit :=
  match nvars with
  | O => mret ()
  | S n =>
      nact ← emit (getfs nactvar);
      here ← emit (getfs pc);
      av ← getp actvar;
      _ ← change_locvar av (nact - Z.of_nat nvars) (set_startpc here);
      adjust_loop n
  end.

Definition adjustlocalvars (nvars : Z) : parser unit :=
  _ ← emit (putfs (fun fs => set_nactvar (u8 (nactvar fs + nvars)) fs));
  adjust_loop (Z.to_nat nvars).

(** [while (fs->nactvar > tolevel)]; [av] is the array before its length was reduced. *)
Fixpoint remove_loop (n : nat) (av : list Z) : parser unit :=
  match n with
  | O => mret ()
  | S n =>
      _ ← emit (putfs (fun fs => set_nactvar (nactvar fs - 1) fs));
      nact ← emit (getfs nactvar);
      here ← emit (getfs pc);
      _ ← change_locvar av nact (set_endpc here);
      remove_loop n av
  end.

Definition removevars (tolevel : Z) : parser unit :=
  nact ← emit (getfs nactvar);
  av ← getp actvar;
  _ ← putp (set_actvar (take (Z.to_nat (Z.of_nat (length av) - (nact - tolevel))) av));
  remove_loop (Z.to_nat (nact - tolevel)) av.

Section Grammar.
Context `{LuaNumber}.

Definition adjust_assign (nvars nexps : Z) (e : expdesc) : parser unit :=
  let extra := nvars - nexps in
  if hasmultret e then
    let extra := Z.max 0 (extra + 1) in
    _ ← emit (luaK_setreturns e extra);
    if extra >? 1 then emit (luaK_reserveregs (extra - 1)) else mret ()
  else
    _ ← (if isvoid e then mret () else _ ← emit (luaK_exp2nextreg e); mret ());
    if extra >? 0 then
      reg ← emit (getfs freereg);
      _ ← emit (luaK_reserveregs extra);
      emit (luaK_nil reg extra)
    else mret ().

(** ** Labels and gotos *)

Definition set_lnactvar (n : Z) (l : Labeldesc) : Labeldesc := MkLabel (lb_name l) (lb_pc l) (lb_line l) n.

Definition get_goto (g : nat) : parser Labeldesc :=
  gl ← getp gt; match gl !! g with Some l => mret l | None => failp Undefined end.

Definition closegoto (g : nat) (lb : Labeldesc) : parser unit :=
  t ← get_goto g;
  if lb_nactvar t <? lb_nactvar lb then failp LuaError else
  _ ← emit (luaK_patchlist (lb_pc t) (lb_pc lb));
  gl ← getp gt;
  putp (set_gt (take g gl ++ drop (S g) gl)).

(** The first label of the list with the name. *)
Definition find_name (name : bytes) (l : list Labeldesc) : option Labeldesc :=
  snd <$> list_find (fun lb => lb_name lb = name) l.

Definition findlabel (g : nat) : parser bool :=
  b ← current_block;
  labels ← getp label;
  t ← get_goto g;
  match find_name (lb_name t) (drop (Z.to_nat (bl_firstlabel b)) labels) with
  | Some lb =>
      _ ← (if (lb_nactvar t >? lb_nactvar lb) && (bl_upval b || (Z.of_nat (length labels) >? bl_firstlabel b))
           then emit (luaK_patchclose (lb_pc t) (lb_nactvar lb)) else mret ());
      _ ← closegoto g lb;
      mret true
  | None => mret false
  end.

(** An entry for the list of labels or of gotos, which has [n] entries. *)
Definition newlabelentry (n : nat) (name : bytes) (line pc : Z) : parser Labeldesc :=
  if Z.of_nat n >=? SHRT_MAX then failp LuaError else
  nact ← emit (getfs nactvar);
  mret (MkLabel name pc line nact).

(** [while (i < gl->n)], with a turn for every goto from [i] on. *)
Fixpoint findgotos_loop (turns i : nat) (lb : Labeldesc) : parser unit :=
  match turns with
  | O => mret ()
  | S turns' =>
      t ← get_goto i;
      if decide (lb_name t = lb_name lb) then _ ← closegoto i lb; findgotos_loop turns' i lb
      else findgotos_loop turns' (S i) lb
  end.

Definition findgotos (lb : Labeldesc) : parser unit :=
  b ← current_block;
  gl ← getp gt;
  let i := Z.to_nat (bl_firstgoto b) in
  findgotos_loop (length gl - i) i lb.

Fixpoint movegotos_loop (turns i : nat) (b : BlockCnt) : parser unit :=
  match turns with
  | O => mret ()
  | S turns' =>
      t ← get_goto i;
      _ ← (if lb_nactvar t >? bl_nactvar b then
             _ ← (if bl_upval b then emit (luaK_patchclose (lb_pc t) (bl_nactvar b)) else mret ());
             putp (fun s => set_gt (alter (set_lnactvar (bl_nactvar b)) i (gt s)) s)
           else mret ());
      found ← findlabel i;
      movegotos_loop turns' (if found : bool then i else S i) b
  end.

Definition movegotosout (b : BlockCnt) : parser unit :=
  gl ← getp gt;
  let i := Z.to_nat (bl_firstgoto b) in
  movegotos_loop (length gl - i) i b.

(** ** Blocks *)

Definition enterblock (isloop : bool) : parser unit :=
  nact ← emit (getfs nactvar);
  labels ← getp label;
  gl ← getp gt;
  putfunc (fun f => with_blocks f (MkBlock (Z.of_nat (length labels)) (Z.of_nat (length gl)) nact false isloop :: bl f)).

Definition s_break : bytes := [98; 114; 101; 97; 107].

Definition breaklabel : parser unit :=
  labels ← getp label;
  here ← emit (getfs pc);
  lb ← newlabelentry (length labels) s_break 0 here;
  _ ← putp (set_label (labels ++ [lb]));
  findgotos lb.

Definition leaveblock : parser unit :=
  b ← current_block;
  bs ← getfunc bl;
  let previous := tail bs in
  let inner := negb (length previous =? 0)%nat in
  _ ← (if inner && bl_upval b then
         j ← emit luaK_jump;
         _ ← emit (luaK_patchclose j (bl_nactvar b));
         emit (luaK_patchtohere j)
       else mret ());
  _ ← (if bl_isloop b then breaklabel else mret ());
  _ ← putfunc (fun f => with_blocks f previous);
  _ ← removevars (bl_nactvar b);
  _ ← emit (putfs (fun fs => set_freereg (nactvar fs) fs));
  _ ← putp (fun s => set_label (take (Z.to_nat (bl_firstlabel b)) (label s)) s);
  if inner then movegotosout b
  else
    gl ← getp gt;
    if bl_firstgoto b <? Z.of_nat (length gl) then failp LuaError else mret ().

(** ** Functions *)

Definition addprototype : parser unit :=
  n ← getfunc np;
  if n >=? MAXARG_Bx then failp LuaError else putfunc (fun f => with_protos f (n + 1) (protos f)).

Definition codeclosure : parser expdesc := fun s =>
  match funcs s with
  | _ :: g :: _ =>
      (i ← emit_prev (luaK_codeABx OP_CLOSURE 0 (np g - 1));
       emit_prev (luaK_exp2nextreg (init_exp (VRELOCABLE i)))) s
  | _ => Err Undefined
  end.

(** [fs->f] is a new prototype, of a function that starts at [line]. *)
Definition open_func (line : Z) : parser unit :=
  av ← getp actvar;
  _ ← putp (fun s => set_funcs (MkPFunc (MkFunc [] [] [] [] 2 0 NO_JUMP 0 0 0) [] [] (Z.of_nat (length av)) [] false 0 line 0 0 [] :: funcs s) s);
  enterblock false.

(** Constants are never objects. *)
Definition proto_constant (v : TValue) : option constant :=
  match v with
  | LNil => Some KNil
  | LBool b => Some (KBoolean (if b then 1 else 0))
  | LNumber r => Some (LuaDump.KNumber r)
  | LString s => Some (LuaDump.KString (Some s))
  | LObject _ => None
  end.

(** The prototype with its vectors cut to their lengths. *)
Definition close_proto (source : bytes) (f : PFunc) : option Proto :=
  ks ← mapM proto_constant (k (pf f));
  Some (MkProto (linedefined f) (lastlinedefined f) (numparams f) (if is_vararg f then 1 else 0) (maxstacksize (pf f))
    (code (pf f)) ks (protos f) (upvalues f) (Some source) (lineinfo (pf f)) (locvars f)).

(** Leaves the function; the result is its prototype. *)
Definition close_func (source : bytes) : parser Proto :=
  _ ← emit (luaK_ret 0 0);
  _ ← leaveblock;
  f ← getfunc id;
  match close_proto source f with
  | Some pr => _ ← putp (fun s => set_funcs (tail (funcs s)) s); mret pr
  | None => failp Undefined
  end.

(** ** Grammar *)

Context (luaO_str2d : bytes -> option Z) (lexfuel : nat) (source : bytes).

Abbreviation nexttoken := (nexttoken luaO_str2d lexfuel).
Abbreviation testnext := (testnext luaO_str2d lexfuel).
Abbreviation checknext := (checknext luaO_str2d lexfuel).
Abbreviation check_match := (check_match luaO_str2d lexfuel).
Abbreviation str_checkname := (str_checkname luaO_str2d lexfuel).

Definition block_follow (withuntil : bool) : parser bool :=
  t ← tok;
  mret (if (t =? TK_ELSE) || (t =? TK_ELSEIF) || (t =? TK_END) || (t =? TK_EOS) then true
        else if t =? TK_UNTIL then withuntil else false).

Fixpoint parlist_loop (n : nat) (nparams : Z) : parser Z :=
  match n with
  | O => failp NoFuel
  | S n' =>
      t ← tok;
      nparams ← (if t =? TK_NAME then name ← str_checkname; _ ← new_localvar name; mret (nparams + 1)
                 else if t =? TK_DOTS then _ ← nexttoken; _ ← putfunc (fun f => with_vararg f true); mret nparams
                 else failp LuaError);
      va ← getfunc is_vararg;
      if va : bool then mret nparams else
      b ← testnext 44;
      if (b : bool) then parlist_loop n' nparams else mret nparams
  end.

Definition parlist (fuel : nat) : parser unit :=
  _ ← putfunc (fun f => with_vararg f false);
  t ← tok;
  nparams ← (if negb (t =? 41) then parlist_loop fuel 0 else mret 0);
  _ ← adjustlocalvars nparams;
  nact ← emit (getfs nactvar);
  _ ← putfunc (fun f => with_numparams f (u8 nact));
  emit (luaK_reserveregs nact).

Definition s_self : bytes := [115; 101; 108; 102].

Section Rules.
(** [statement] for the statements inside, and the turns of a loop. *)
Context (statement : parser unit) (fuel : nat).

(** A [return] is the last statement. *)
Fixpoint statlist_loop (n : nat) : parser unit :=
  match n with
  | O => failp NoFuel
  | S n' =>
      b ← block_follow true;
      if (b : bool) then mret () else
      t ← tok;
      if t =? TK_RETURN then statement else _ ← statement; statlist_loop n'
  end.

Definition statlist : parser unit := statlist_loop fuel.

Definition body (ismethod : bool) (ln : Z) : parser expdesc :=
  _ ← addprototype;
  _ ← open_func ln;
  _ ← checknext 40;
  _ ← (if ismethod then _ ← new_localvar s_self; adjustlocalvars 1 else mret ());
  _ ← parlist fuel;
  _ ← checknext 41;
  _ ← statlist;
  last ← line;
  _ ← putfunc (fun f => with_lastline f last);
  _ ← check_match TK_END;
  e ← codeclosure;
  pr ← close_func source;
  _ ← putfunc (fun f => with_protos f (np f) (protos f ++ [pr]));
  mret e.

Abbreviation subexpr := (subexpr luaO_str2d lexfuel body fuel).
Abbreviation expr := (expr subexpr).
Abbreviation explist := (explist luaO_str2d lexfuel subexpr fuel).
Abbreviation suffixedexp := (suffixedexp luaO_str2d lexfuel subexpr fuel).
Abbreviation fieldsel := (fieldsel luaO_str2d lexfuel).
Abbreviation singlevar := (singlevar luaO_str2d lexfuel).

Definition block : parser unit := _ ← enterblock false; _ ← statlist; leaveblock.

(** *** Assignments *)

Definition vkisvar (e : expdesc) : bool := match ek e with VLOCAL _ | VUPVAL _ | VINDEXED _ _ _ => true | _ => false end.
Definition is_indexed (e : expdesc) : bool := match ek e with VINDEXED _ _ _ => true | _ => false end.

(** A previous target that uses the variable [v] uses the copy in [extra] instead. *)
Definition safe_copy (extra : Z) (v lh : expdesc) : bool * expdesc :=
  match ek lh with
  | VINDEXED idx t vt =>
      let c1 := match vt, ek v with InRegister, VLOCAL r => t =? r | InUpvalue, VUPVAL u => t =? u | _, _ => false end in
      let '(t, vt) := if c1 then (extra, InRegister) else (t, vt) in
      let c2 := match ek v with VLOCAL r => idx =? r | _ => false end in
      let idx := if c2 then extra else idx in
      (c1 || c2, with_kind lh (VINDEXED idx t vt))
  | _ => (false, lh)
  end.

Definition check_conflict (lh : list expdesc) (v : expdesc) : parser (list expdesc) :=
  extra ← emit (getfs freereg);
  let copies := safe_copy extra v <$> lh in
  if existsb fst copies then
    let op := match ek v with VLOCAL _ => OP_MOVE | _ => OP_GETUPVAL end in
    _ ← emit (luaK_codeABC op extra (info v) 0);
    _ ← emit (luaK_reserveregs 1);
    mret (snd <$> copies)
  else mret (snd <$> copies).

Definition store_default (lh : expdesc) : parser unit :=
  r ← emit (getfs freereg);
  emit (luaK_storevar lh (init_exp (VNONRELOC (r - 1)))).

(** [lh] is the last target read and [prev] those before it, the last first; the result is
    [prev] as later targets changed it. *)
Fixpoint assignment (n : nat) (lh : expdesc) (prev : list expdesc) (nvars : Z) : parser (list expdesc) :=
  match n with
  | O => failp NoFuel
  | S n' =>
      if negb (vkisvar lh) then failp LuaError else
      b ← testnext 44;
      if (b : bool) then
        nv ← suffixedexp;
        chain ← (if negb (is_indexed nv) then check_conflict (lh :: prev) nv else mret (lh :: prev));
        cc ← getp nCcalls;
        if nvars + cc >? LUAI_MAXCCALLS then failp LuaError else
        chain ← assignment n' nv chain (nvars + 1);
        match chain with
        | lh :: prev => _ ← store_default lh; mret prev
        | [] => failp Undefined
        end
      else
        _ ← checknext 61;
        '(nexps, e) ← explist;
        if negb (nexps =? nvars) then
          _ ← adjust_assign nvars nexps e;
          _ ← (if nexps >? nvars then emit (putfs (fun fs => set_freereg (u8 (freereg fs - (nexps - nvars))) fs)) else mret ());
          _ ← store_default lh;
          mret prev
        else
          e ← emit (luaK_setoneret e);
          _ ← emit (luaK_storevar lh e);
          mret prev
  end.

(** *** Gotos and labels *)

Definition cond : parser Z :=
  v ← expr;
  let v := match ek v with VNIL => with_kind v VFALSE | _ => v end in
  v ← emit (luaK_goiftrue v);
  mret (ef v).

Definition gotostat (pc : Z) : parser unit :=
  ln ← line;
  b ← testnext TK_GOTO;
  name ← (if (b : bool) then str_checkname else _ ← nexttoken; mret s_break);
  gl ← getp gt;
  t ← newlabelentry (length gl) name ln pc;
  _ ← putp (set_gt (gl ++ [t]));
  _ ← findlabel (length gl);
  mret ().

Definition checkrepeated (name : bytes) : parser unit :=
  b ← current_block;
  labels ← getp label;
  match find_name name (drop (Z.to_nat (bl_firstlabel b)) labels) with Some _ => failp LuaError | None => mret () end.

Fixpoint skipnoop_loop (n : nat) : parser unit :=
  match n with
  | O => failp NoFuel
  | S n' =>
      t ← tok;
      if (t =? 59) || (t =? TK_DBCOLON) then _ ← statement; skipnoop_loop n' else mret ()
  end.

Definition skipnoopstat : parser unit := skipnoop_loop fuel.

Definition labelstat (name : bytes) (ln : Z) : parser unit :=
  _ ← checkrepeated name;
  _ ← checknext TK_DBCOLON;
  labels ← getp label;
  let l := length labels in
  here ← emit (getfs pc);
  lb ← newlabelentry l name ln here;
  _ ← putp (set_label (labels ++ [lb]));
  _ ← skipnoopstat;
  b ← block_follow false;
  _ ← (if (b : bool) then blk ← current_block; putp (fun s => set_label (alter (set_lnactvar (bl_nactvar blk)) l (label s)) s) else mret ());
  labels ← getp label;
  match labels !! l with Some lb => findgotos lb | None => failp Undefined end.

(** *** Loops *)

Definition luaK_jumpto (t : Z) : coder unit := j ← luaK_jump; luaK_patchlist j t.

Definition whilestat : parser unit :=
  _ ← nexttoken;
  whileinit ← emit luaK_getlabel;
  condexit ← cond;
  _ ← enterblock true;
  _ ← checknext TK_DO;
  _ ← block;
  _ ← emit (luaK_jumpto whileinit);
  _ ← check_match TK_END;
  _ ← leaveblock;
  emit (luaK_patchtohere condexit).

Definition repeatstat : parser unit :=
  repeat_init ← emit luaK_getlabel;
  _ ← enterblock true;
  _ ← enterblock false;
  _ ← nexttoken;
  _ ← statlist;
  _ ← check_match TK_UNTIL;
  condexit ← cond;
  bl2 ← current_block;
  _ ← (if bl_upval bl2 then emit (luaK_patchclose condexit (bl_nactvar bl2)) else mret ());
  _ ← leaveblock;
  _ ← emit (luaK_patchlist condexit repeat_init);
  leaveblock.

Definition exp1 : parser Z := e ← expr; e ← emit (luaK_exp2nextreg e); mret (info e).

Definition forbody (base ln nvars : Z) (isnum : bool) : parser unit :=
  _ ← adjustlocalvars 3;
  _ ← checknext TK_DO;
  prep ← (if isnum then emit (luaK_codeAsBx OP_FORPREP base NO_JUMP) else emit luaK_jump);
  _ ← enterblock false;
  _ ← adjustlocalvars nvars;
  _ ← emit (luaK_reserveregs nvars);
  _ ← block;
  _ ← leaveblock;
  _ ← emit (luaK_patchtohere prep);
  endfor ← (if isnum then emit (luaK_codeAsBx OP_FORLOOP base NO_JUMP)
            else
              _ ← emit (luaK_codeABC OP_TFORCALL base 0 nvars);
              _ ← emit (luaK_fixline ln);
              emit (luaK_codeAsBx OP_TFORLOOP (base + 2) NO_JUMP));
  _ ← emit (luaK_patchlist endfor (prep + 1));
  emit (luaK_fixline ln).

(** "(for index)", "(for limit)", "(for step)", "(for generator)", "(for state)" and
    "(for control)". *)
Definition for_index : bytes := [40; 102; 111; 114; 32; 105; 110; 100; 101; 120; 41].
Definition for_limit : bytes := [40; 102; 111; 114; 32; 108; 105; 109; 105; 116; 41].
Definition for_step : bytes := [40; 102; 111; 114; 32; 115; 116; 101; 112; 41].
Definition for_generator : bytes := [40; 102; 111; 114; 32; 103; 101; 110; 101; 114; 97; 116; 111; 114; 41].
Definition for_state : bytes := [40; 102; 111; 114; 32; 115; 116; 97; 116; 101; 41].
Definition for_control : bytes := [40; 102; 111; 114; 32; 99; 111; 110; 116; 114; 111; 108; 41].

Definition fornum (name : bytes) (ln : Z) : parser unit :=
  base ← emit (getfs freereg);
  _ ← new_localvar for_index;
  _ ← new_localvar for_limit;
  _ ← new_localvar for_step;
  _ ← new_localvar name;
  _ ← checknext 61;
  _ ← exp1;
  _ ← checknext 44;
  _ ← exp1;
  b ← testnext 44;
  _ ← (if (b : bool) then _ ← exp1; mret ()
       else
         r ← emit (getfs freereg);
         i ← emit (luaK_numberK (cast_num 1));
         _ ← emit (luaK_codek r i);
         emit (luaK_reserveregs 1));
  forbody base ln 1 true.

Fixpoint names_loop (n : nat) (nvars : Z) : parser Z :=
  match n with
  | O => failp NoFuel
  | S n' =>
      b ← testnext 44;
      if (b : bool) then name ← str_checkname; _ ← new_localvar name; names_loop n' (nvars + 1) else mret nvars
  end.

Definition forlist (indexname : bytes) : parser unit :=
  base ← emit (getfs freereg);
  _ ← new_localvar for_generator;
  _ ← new_localvar for_state;
  _ ← new_localvar for_control;
  _ ← new_localvar indexname;
  nvars ← names_loop fuel 4;
  _ ← checknext TK_IN;
  ln ← line;
  '(nexps, e) ← explist;
  _ ← adjust_assign 3 nexps e;
  _ ← emit (luaK_checkstack 3);
  forbody base ln (nvars - 3) false.

Definition forstat (ln : Z) : parser unit :=
  _ ← enterblock true;
  _ ← nexttoken;
  varname ← str_checkname;
  t ← tok;
  _ ← (if t =? 61 then fornum varname ln else if (t =? 44) || (t =? TK_IN) then forlist varname else failp LuaError);
  _ ← check_match TK_END;
  leaveblock.

(** *** Conditionals *)

Definition then_part (escapelist jf : Z) : parser Z :=
  _ ← statlist;
  _ ← leaveblock;
  t ← tok;
  escapelist ← (if (t =? TK_ELSE) || (t =? TK_ELSEIF) then emit (j ← luaK_jump; luaK_concat escapelist j) else mret escapelist);
  _ ← emit (luaK_patchtohere jf);
  mret escapelist.

(** The result is the new [escapelist]. *)
Definition test_then_block (escapelist : Z) : parser Z :=
  _ ← nexttoken;
  v ← expr;
  _ ← checknext TK_THEN;
  t ← tok;
  if (t =? TK_GOTO) || (t =? TK_BREAK) then
    v ← emit (luaK_goiffalse v);
    _ ← enterblock false;
    _ ← gotostat (et v);
    _ ← skipnoopstat;
    b ← block_follow false;
    if (b : bool) then _ ← leaveblock; mret escapelist
    else jf ← emit luaK_jump; then_part escapelist jf
  else
    v ← emit (luaK_goiftrue v);
    _ ← enterblock false;
    then_part escapelist (ef v).

Fixpoint elseif_loop (n : nat) (escapelist : Z) : parser Z :=
  match n with
  | O => failp NoFuel
  | S n' =>
      t ← tok;
      if t =? TK_ELSEIF then escapelist ← test_then_block escapelist; elseif_loop n' escapelist else mret escapelist
  end.

Definition ifstat : parser unit :=
  escapelist ← test_then_block NO_JUMP;
  escapelist ← elseif_loop fuel escapelist;
  b ← testnext TK_ELSE;
  _ ← (if (b : bool) then block else mret ());
  _ ← check_match TK_END;
  emit (luaK_patchtohere escapelist).

(** *** Definitions *)

Definition localfunc : parser unit :=
  name ← str_checkname;
  _ ← new_localvar name;
  _ ← adjustlocalvars 1;
  ln ← line;
  b ← body false ln;
  here ← emit (getfs pc);
  av ← getp actvar;
  change_locvar av (info b) (set_startpc here).

Definition localstat : parser unit :=
  name ← str_checkname;
  _ ← new_localvar name;
  nvars ← names_loop fuel 1;
  b ← testnext 61;
  '(nexps, e) ← (if (b : bool) then explist else mret (0, init_exp VVOID));
  _ ← adjust_assign nvars nexps e;
  adjustlocalvars nvars.

Fixpoint funcname_loop (n : nat) (v : expdesc) : parser expdesc :=
  match n with
  | O => failp NoFuel
  | S n' => t ← tok; if t =? 46 then v ← fieldsel v; funcname_loop n' v else mret v
  end.

Definition funcname : parser (bool * expdesc) :=
  v ← singlevar;
  v ← funcname_loop fuel v;
  t ← tok;
  if t =? 58 then v ← fieldsel v; mret (true, v) else mret (false, v).

Definition funcstat (ln : Z) : parser unit :=
  _ ← nexttoken;
  '(ismethod, v) ← funcname;
  b ← body ismethod ln;
  _ ← emit (luaK_storevar v b);
  emit (luaK_fixline ln).

(** *** Statements *)

Definition exprstat : parser unit :=
  v ← suffixedexp;
  t ← tok;
  if (t =? 61) || (t =? 44) then _ ← assignment fuel v [] 1; mret ()
  else
    match ek v with
    | VCALL p => i ← emit (getinstr p); emit (setinstr p (SETARG_C i 1))
    | _ => failp LuaError
    end.

(** The first register and the number of the values. *)
Definition return_values : parser (Z * Z) :=
  '(nret, e) ← explist;
  if hasmultret e then
    _ ← emit (luaK_setmultret e);
    _ ← (match ek e with
         | VCALL p => if nret =? 1 then i ← emit (getinstr p); emit (setinstr p (SET_OPCODE i (opcode_Z OP_TAILCALL))) else mret ()
         | _ => mret ()
         end);
    first ← emit (getfs nactvar);
    mret (first, LUA_MULTRET)
  else if nret =? 1 then
    e ← emit (luaK_exp2anyreg e);
    mret (info e, nret)
  else
    _ ← emit (luaK_exp2nextreg e);
    first ← emit (getfs nactvar);
    mret (first, nret).

Definition retstat : parser unit :=
  b ← block_follow true;
  t ← tok;
  '(first, nret) ← (if b || (t =? 59) then mret (0, 0) else return_values);
  _ ← emit (luaK_ret first nret);
  _ ← testnext 59;
  mret ().

Definition statement_rule : parser unit :=
  ln ← line;
  _ ← enterlevel;
  t ← tok;
  _ ← (if t =? 59 then nexttoken
       else if t =? TK_IF then ifstat
       else if t =? TK_WHILE then whilestat
       else if t =? TK_DO then _ ← nexttoken; _ ← block; check_match TK_END
       else if t =? TK_FOR then forstat ln
       else if t =? TK_REPEAT then repeatstat
       else if t =? TK_FUNCTION then funcstat ln
       else if t =? TK_LOCAL then
         _ ← nexttoken;
         b ← testnext TK_FUNCTION;
         if (b : bool) then localfunc else localstat
       else if t =? TK_DBCOLON then _ ← nexttoken; name ← str_checkname; labelstat name ln
       else if t =? TK_RETURN then _ ← nexttoken; retstat
       else if (t =? TK_BREAK) || (t =? TK_GOTO) then j ← emit luaK_jump; gotostat j
       else exprstat);
  _ ← emit (putfs (fun fs => set_freereg (nactvar fs) fs));
  leavelevel.
End Rules.

Fixpoint statement (fuel : nat) : parser unit :=
  match fuel with
  | O => failp NoFuel
  | S fuel' => statement_rule (statement fuel') fuel'
  end.

(** [init_exp(&v, VLOCAL, 0)]: [_ENV] is an upvalue as if it were the first local of the
    enclosing function. *)
Definition mainfunc (fuel : nat) : parser Proto :=
  _ ← open_func 0;
  _ ← putfunc (fun f => with_vararg f true);
  env ← getp envn;
  f ← getfunc id;
  _ ← (match newupvalue f env (VLOCAL 0) with Ok (_, f) => putfunc (fun _ => f) | Err e => failp e end);
  _ ← nexttoken;
  _ ← statlist (statement fuel) fuel;
  _ ← check TK_EOS;
  close_func source.
End Grammar.

(** "_ENV". *)
Definition LUA_ENV : bytes := [95; 69; 78; 86].

(** The prototype of the main closure, which has one upvalue; [ccalls] is [L->nCcalls]. *)
Definition luaY_parser `{LuaNumber} (luaO_str2d : bytes -> option Z) (lexfuel fuel : nat) (ccalls : Z) (z : zio) (name : bytes) (firstchar : charint) : res (Proto * Z) :=
  '(pr, _) ← mainfunc luaO_str2d lexfuel name fuel (MkP (luaX_setinput z firstchar) [] [] [] [] LUA_ENV ccalls);
  Ok (pr, 1).
