(* ===== verification/LuaScope.v ===== *)
(** * Scopes of the parser

    What the parser of lparser.c keeps while it reads a text: an expression leaves the
    variables, gotos, labels and blocks of the open functions as they were; a statement adds
    variables and labels of its block only; a function gives back everything it opened.
    Upvalues refer to variables or upvalues of the enclosing function.  The theorem at the
    end is what [luaY_parser] asserts. *)

From S2P Require Import Prelude LuaStr LuaZio LuaDump LuaLex LuaOp LuaNumber LuaCode LuaLines LuaParse LuaStat.

(** ** Functions *)

(** An upvalue is one of the [l] local variables of the enclosing function or one of its [n]
    upvalues. *)
Definition upvalue_in (l n : nat) (u : Upvaldesc) : Prop :=
  (instack u = 1 /\ 0 <= idx u < Z.of_nat l) \/ (instack u = 0 /\ 0 <= idx u < Z.of_nat n).

(** A prototype inside a function with [l] local variables and [n] upvalues. *)
Inductive closed_proto (l n : nat) (pr : Proto) : Prop :=
  closed_proto_intro : Forall (upvalue_in l n) (LuaDump.upvalues pr) -> Forall (closed_proto (length (LuaDump.locvars pr)) (length (LuaDump.upvalues pr))) (p pr) -> closed_proto l n pr.

Lemma upvalue_in_mono l n l' n' u : (l <= l')%nat -> (n <= n')%nat -> upvalue_in l n u -> upvalue_in l' n' u.
Proof. unfold upvalue_in. lia. Qed.

Lemma closed_proto_mono l n l' n' pr : (l <= l')%nat -> (n <= n')%nat -> closed_proto l n pr -> closed_proto l' n' pr.
Proof. intros Hl Hn [Hu Hp]. split; [|done]. eapply Forall_impl; [exact Hu|]. intros u. by apply upvalue_in_mono. Qed.

(** There is a variable for every active one. *)
Definition enough_locals (f : PFunc) : Prop := 0 <= nactvar (pf f) <= MAXVARS /\ nactvar (pf f) <= Z.of_nat (length (locvars f)).

Definition consts (c : FuncState) : Prop := Forall (fun v => is_constant v = true) (k c).

(** The open functions, the innermost first. *)
Fixpoint linked (fs : list PFunc) : Prop :=
  match fs with
  | [] => True
  | f :: outer =>
      consts (pf f) /\ Forall (closed_proto (length (locvars f)) (length (upvalues f))) (protos f) /\ ((length (upvalues f) <= 255)%nat /\ enough_locals f) /\
      match outer with g :: _ => Forall (upvalue_in (length (locvars g)) (length (upvalues g))) (upvalues f) | [] => True end /\ linked outer
  end.

(** A block, up to the flag for upvalues. *)
Definition strip (b : BlockCnt) : BlockCnt := MkBlock (bl_firstlabel b) (bl_firstgoto b) (bl_nactvar b) false (bl_isloop b).

(** The same function with more code and upvalues. *)
Record alike (f f' : PFunc) : Prop := {
  al_first : firstlocal f' = firstlocal f;
  al_nact : nactvar (pf f') = nactvar (pf f);
  al_bl : strip <$> bl f' = strip <$> bl f;
  al_ups : upvalues f `prefix_of` upvalues f';
  al_locs : (length (locvars f) <= length (locvars f'))%nat;
}.

#[export] Instance alike_preorder : PreOrder alike.
Proof.
  split.
  - by intros f.
  - intros f g h [A1 A2 A3 A4 A5] [B1 B2 B3 B4 B5]. split; [congruence..|by etrans|lia].
Qed.

(** The outermost function gets no upvalues. *)
Definition outermost_ups (fs : list PFunc) : option (list Upvaldesc) := upvalues <$> last fs.

Record same_funcs (fs fs' : list PFunc) : Prop := {
  sf_alike : Forall2 alike fs fs';
  sf_last : outermost_ups fs' = outermost_ups fs;
}.

#[export] Instance same_funcs_preorder : PreOrder same_funcs.
Proof.
  split.
  - intros fs. by split.
  - intros fs gs hs [A1 A2] [B1 B2]. split; [by etrans|congruence].
Qed.

(** ** Expressions *)

(** Nothing but code and upvalues changed. *)
Record steady (s s' : PState) : Prop := {
  sd_funcs : same_funcs (funcs s) (funcs s');
  sd_actvar : actvar s' = actvar s;
  sd_gt : gt s' = gt s;
  sd_label : label s' = label s;
  sd_calls : nCcalls s' = nCcalls s;
}.

#[export] Instance steady_preorder : PreOrder steady.
Proof.
  split.
  - intros s. by split.
  - intros s t u [A1 A2 A3 A4 A5] [B1 B2 B3 B4 B5]. split; [by etrans|congruence..].
Qed.

Definition keeps {A} (m : parser A) : Prop :=
  forall s a s', linked (funcs s) -> m s = Ok (a, s') -> linked (funcs s') /\ steady s s'.

Create HintDb scope.

Section Rules.
Context {A B : Type}.

Lemma keeps_ret (a : A) : keeps (mret a : parser A).
Proof. intros s b s' Hl [= <- <-]. done. Qed.

Lemma keeps_fail e : keeps (failp e : parser A).
Proof. done. Qed.

Lemma keeps_getp (f : PState -> A) : keeps (getp f).
Proof. intros s b s' Hl [= <- <-]. done. Qed.

Lemma keeps_bind (m : parser A) (f : A -> parser B) : keeps m -> (forall a, keeps (f a)) -> keeps (m ≫= f).
Proof.
  intros Hm Hf s b s' Hl. unfold mbind, parser_bind. destruct (m s) as [[a s1]|] eqn:Em; [|done]. intros E. destruct (Hm _ _ _ Hl Em) as [Hl1 Hs1]. destruct (Hf a _ _ _ Hl1 E) as [Hl2 Hs2]. split; [done|by etrans].
Qed.

Lemma keeps_lexer (m : lexer A) : keeps (lexer_call m).
Proof. intros s b s' Hl. unfold lexer_call. destruct (m (ls s)) as [|[a l]]; [done|]. intros [= <- <-]. done. Qed.
End Rules.

Lemma last_head {C D} (g : C -> D) x y (l : list C) : g x = g y -> g <$> last (x :: l) = g <$> last (y :: l).
Proof. intros E. destruct l; [cbn; by rewrite E|done]. Qed.

(** A change of the innermost function. *)
Lemma steady_head f f' outer s : funcs s = f :: outer -> alike f f' -> upvalues f' = upvalues f -> steady s (set_funcs (f' :: outer) s).
Proof. intros Hf Ha Hu. split; try done. cbn. rewrite Hf. split; [by constructor|]. unfold outermost_ups. by apply last_head. Qed.

Lemma linked_first f f' outer :
  linked (f :: outer) -> upvalues f' = upvalues f -> protos f' = protos f -> consts (pf f') -> (length (locvars f) <= length (locvars f'))%nat -> enough_locals f' -> linked (f' :: outer).
Proof.
  cbn. intros (H1 & H2 & [H3 _] & H4 & H5) -> -> Hc Hv He. split_and!; try done. eapply Forall_impl; [exact H2|]. intros pr. by apply closed_proto_mono.
Qed.

(** The same variables are active. *)
Lemma linked_unchanged f f' outer :
  linked (f :: outer) -> upvalues f' = upvalues f -> protos f' = protos f -> consts (pf f') -> (length (locvars f) <= length (locvars f'))%nat -> nactvar (pf f') = nactvar (pf f) -> linked (f' :: outer).
Proof. intros Hl Hu Hp Hc Hv Hn. apply (linked_first f); try done. destruct Hl as (_ & _ & [_ [H1 H2]] & _). unfold enough_locals. rewrite Hn. lia. Qed.

Lemma lineless_keeps {C} (m : coder C) c a c' : lineless m -> consts c -> m c = Ok (a, c') -> nactvar c' = nactvar c /\ consts c'.
Proof.
  intros Hm Hc E. assert (eqv (nactvar c) c c) as He by (by split). specialize (Hm _ _ _ He). rewrite E in Hm. destruct Hm as [_ [E1 E2 E3 E4 E5 E6 E7 E8 E9 E10]]. done.
Qed.

Lemma keeps_emit {C} (m : coder C) : lineless m -> keeps (emit m).
Proof.
  intros Hm s a s' Hl. unfold emit. destruct (funcs s) as [|f outer] eqn:Hf; [done|]. destruct (m _) as [[b c]|] eqn:E; [|done]. intros [= <- <-].
  assert (consts (set_lastline (LuaLex.lastline (ls s)) (pf f))) as Hc by apply Hl. destruct (lineless_keeps _ _ _ _ Hm Hc E) as [Hn Hc']. split; [by eapply linked_unchanged|]. by eapply steady_head.
Qed.
#[export] Hint Resolve keeps_ret keeps_fail keeps_getp keeps_lexer : scope.
#[export] Hint Extern 5 (lineless2 _ _) => solve [lines] : scope.
#[export] Hint Resolve keeps_emit : scope.

Ltac scope_step :=
  first
    [ solve [eauto with scope lines]
    | apply keeps_bind; [|intros ?]
    | match goal with
      | |- keeps (match ?x with _ => _ end) => destruct x
      | |- keeps (emit _) => apply keeps_emit; solve [lines]
      end ].
Ltac scope := cbv zeta; repeat scope_step.

(** ** Variables *)

(** The value of a look-up: a local or an upvalue there is. *)
Definition found (fs : list PFunc) (v : expkind) : Prop :=
  match v with
  | VVOID => True
  | VLOCAL r => match fs with f :: _ => 0 <= r < nactvar (pf f) | [] => False end
  | VUPVAL u => match fs with f :: _ => 0 <= u < Z.of_nat (length (upvalues f)) | [] => False end
  | _ => False
  end.

Lemma markupval_strip bs level : strip <$> markupval bs level = strip <$> bs.
Proof. induction bs as [|b bs IH]; [done|]. cbn. destruct (_ >? _); cbn; [by rewrite IH|done]. Qed.

Lemma searchupvalue_range f n u : searchupvalue f n = Some u -> 0 <= u < Z.of_nat (length (upvalues f)).
Proof. unfold searchupvalue. destruct (list_find _ _) as [[i d]|] eqn:E; [|done]. intros [= <-]. apply list_find_Some in E as [Hi _]. apply lookup_lt_Some in Hi. lia. Qed.

Lemma searchvar_range av f n r : searchvar av f n = Some r -> 0 <= r < nactvar (pf f).
Proof.
  unfold searchvar. assert (forall m, searchvar_loop av f m n = Some r -> 0 <= r < Z.of_nat m) as Hm; [|intros E; apply Hm in E; lia].
  induction m as [|m IH]; cbn [searchvar_loop]; [done|]. case_decide; [intros [= <-]; lia|]. intros E. apply IH in E. lia.
Qed.

Lemma last_cons_some {C} (x y : C) l : last (x :: y :: l) = last (y :: l).
Proof. done. Qed.

Lemma newupvalue_spec f g outer n v i f' :
  linked (f :: g :: outer) -> found (g :: outer) v -> v <> VVOID -> newupvalue f n v = Ok (i, f') ->
  linked (f' :: g :: outer) /\ alike f f' /\ 0 <= i < Z.of_nat (length (upvalues f')).
Proof.
  intros (H1 & H2 & [H3 He] & H4 & H5) Hfd Hv. unfold newupvalue. rewrite Z.gtb_ltb. destruct (Z.ltb_spec MAXUPVAL (Z.of_nat (length (upvalues f)) + 1)) as [|Hlim]; [done|]. intros [= <- <-]. change MAXUPVAL with 255 in Hlim.
  cbn [linked upvalues with_upvalues pf protos locvars] in *. rewrite length_app. cbn [length]. split_and!; try done; try lia; try (by apply H5).
  - eapply Forall_impl; [exact H2|]. intros pr. apply closed_proto_mono; lia.
  - apply Forall_app. split; [done|]. constructor; [|done]. unfold upvalue_in. destruct H5 as (_ & _ & [Hg [Hm Hn]] & _). change MAXVARS with 200 in Hm. destruct v; try done; cbn in Hfd |- *; [left|right]; (split; [done|]); unfold u8; rewrite Z.mod_small; lia.
  - split; try done. by apply prefix_app_r.
Qed.

Lemma singlevaraux_spec av n fs base v fs' :
  linked fs -> singlevaraux av fs n base = Ok (v, fs') -> linked fs' /\ same_funcs fs fs' /\ found fs' v.
Proof.
  revert base v fs'. induction fs as [|f outer IH]; intros base v fs' Hl; cbn [singlevaraux]; [by intros [= <- <-]|].
  destruct (searchvar av f n) as [r|] eqn:Er.
  { intros [= <- <-]. assert (alike f (if base then f else with_blocks f (markupval (bl f) r))) as Ha by (destruct base; [done|split; try done; cbn; apply markupval_strip]). split_and!; [by destruct base| |apply searchvar_range in Er; by destruct base].
    split; [by constructor|]. apply last_head. by destruct base. }
  destruct (searchupvalue f n) as [u|] eqn:Eu; [intros [= <- <-]; split_and!; [done|done|by eapply searchupvalue_range]|].
  assert (linked outer) as Hlo by apply Hl. destruct (singlevaraux av outer n false) as [[w outer']|] eqn:Es; [|done]. destruct (IH _ _ _ Hlo Es) as (Hlo' & Hsame & Hfd). cbn [mbind res_bind].
  assert (linked (f :: outer')) as Hlf.
  { destruct Hl as (H1 & H2 & H3 & H4 & H5). do 3 (split; [done|]). split; [|done]. destruct Hsame as [Hal _]. destruct Hal as [|g g' r r' Hg Hr]; [done|]. eapply Forall_impl; [exact H4|]. intros u'. apply upvalue_in_mono; [apply Hg|]. by apply prefix_length, Hg. }
  assert (same_funcs (f :: outer) (f :: outer')) as Hsf.
  { destruct Hsame as [Hal Hla]. split; [by constructor|]. unfold outermost_ups in *. destruct Hal as [|g g' r r' Hg Hr]; [done|]. by rewrite !last_cons_some. }
  destruct w; try done; [by intros [= <- <-]|..].
  all: destruct outer' as [|g' r']; [done|].
  all: destruct (newupvalue f n _) as [[i f']|] eqn:En; [|done]; intros [= <- <-]; destruct (newupvalue_spec f g' r' n _ i f' Hlf Hfd ltac:(done) En) as (H1 & H2 & H3); split_and!; [done| |done].
  all: etrans; [exact Hsf|]; split; [by constructor|]; unfold outermost_ups; by rewrite !last_cons_some.
Qed.

Lemma keeps_find_variable n : keeps (find_variable n).
Proof.
  intros s v s' Hl. unfold find_variable. destruct (singlevaraux _ _ _ _) as [[w fs']|] eqn:E; [|done]. intros [= <- <-]. destruct (singlevaraux_spec _ _ _ _ _ _ Hl E) as (Hl' & Hs & _). split; [done|]. by split.
Qed.
#[export] Hint Resolve keeps_find_variable : scope.

(** ** The grammar of expressions *)

Section Expressions.
Context `{LuaNumber} (luaO_str2d : bytes -> option Z) (lexfuel : nat).

Lemma keeps_next : keeps (nexttoken luaO_str2d lexfuel).
Proof. unfold nexttoken. scope. Qed.
Hint Resolve keeps_next : scope.

Lemma keeps_testnext c : keeps (testnext luaO_str2d lexfuel c).
Proof. unfold testnext. scope. Qed.
Lemma keeps_check c : keeps (check c).
Proof. unfold check. scope. Qed.
Hint Resolve keeps_testnext keeps_check : scope.
Lemma keeps_checknext c : keeps (checknext luaO_str2d lexfuel c).
Proof. unfold checknext. scope. Qed.
Lemma keeps_check_match c : keeps (check_match luaO_str2d lexfuel c).
Proof. unfold check_match. scope. Qed.
Lemma keeps_sem_string : keeps sem_string.
Proof. unfold sem_string. scope. Qed.
Hint Resolve keeps_checknext keeps_check_match keeps_sem_string : scope.
Lemma keeps_str_checkname : keeps (str_checkname luaO_str2d lexfuel).
Proof. unfold str_checkname. scope. Qed.
Lemma keeps_codestring x : keeps (codestring x).
Proof. unfold codestring. scope. Qed.
Hint Resolve keeps_str_checkname keeps_codestring : scope.
Lemma keeps_checkname : keeps (checkname luaO_str2d lexfuel).
Proof. unfold checkname. scope. Qed.
Hint Resolve keeps_checkname : scope.
Lemma keeps_singlevar : keeps (singlevar luaO_str2d lexfuel).
Proof. unfold singlevar. scope. Qed.
Lemma keeps_fieldsel v : keeps (fieldsel luaO_str2d lexfuel v).
Proof. unfold fieldsel. scope. Qed.
Hint Resolve keeps_singlevar keeps_fieldsel : scope.

Section Nested.
Context (subexpr : Z -> parser (expdesc * option BinOpr)) (body : bool -> Z -> parser expdesc) (fuel : nat).
Hypothesis keeps_sub : forall lim, keeps (subexpr lim).

Lemma keeps_expr : keeps (expr subexpr).
Proof. unfold expr. scope. Qed.
Hint Resolve keeps_expr : scope.
Lemma keeps_yindex : keeps (yindex luaO_str2d lexfuel subexpr).
Proof. unfold yindex. scope. Qed.
Hint Resolve keeps_yindex : scope.
Lemma keeps_recfield cc : keeps (recfield luaO_str2d lexfuel subexpr cc).
Proof. unfold recfield. scope. Qed.
Lemma keeps_closelistfield cc : keeps (closelistfield cc).
Proof. unfold closelistfield. scope. Qed.
Lemma keeps_lastlistfield cc : keeps (lastlistfield cc).
Proof. unfold lastlistfield. scope. Qed.
Lemma keeps_listfield cc : keeps (listfield subexpr cc).
Proof. unfold listfield. scope. Qed.
Hint Resolve keeps_recfield keeps_closelistfield keeps_lastlistfield keeps_listfield : scope.
Lemma keeps_field cc : keeps (field luaO_str2d lexfuel subexpr cc).
Proof. unfold field. scope. Qed.
Hint Resolve keeps_field : scope.
Lemma keeps_fields_loop n cc : keeps (fields_loop luaO_str2d lexfuel subexpr n cc).
Proof. revert cc. induction n as [|n IH]; intros cc; cbn [fields_loop]; scope. Qed.
Hint Resolve keeps_fields_loop : scope.
Lemma keeps_constructor : keeps (constructor luaO_str2d lexfuel subexpr fuel).
Proof. unfold constructor. scope. Qed.
Lemma keeps_explist_loop n v m : keeps (explist_loop luaO_str2d lexfuel subexpr n v m).
Proof. revert v m. induction n as [|n IH]; intros v m; cbn [explist_loop]; scope. Qed.
Hint Resolve keeps_constructor keeps_explist_loop : scope.
Lemma keeps_explist : keeps (explist luaO_str2d lexfuel subexpr fuel).
Proof. unfold explist. scope. Qed.
Hint Resolve keeps_explist : scope.
Lemma keeps_funcargs f ln : keeps (funcargs luaO_str2d lexfuel subexpr fuel f ln).
Proof. unfold funcargs. scope. Qed.
Lemma keeps_primaryexp : keeps (primaryexp luaO_str2d lexfuel subexpr).
Proof. unfold primaryexp. scope. Qed.
Hint Resolve keeps_funcargs keeps_primaryexp : scope.
Lemma keeps_suffix_loop n ln v : keeps (suffix_loop luaO_str2d lexfuel subexpr fuel n ln v).
Proof. revert v. induction n as [|n IH]; intros v; cbn [suffix_loop]; scope. Qed.
Hint Resolve keeps_suffix_loop : scope.
Lemma keeps_suffixedexp : keeps (suffixedexp luaO_str2d lexfuel subexpr fuel).
Proof. unfold suffixedexp. scope. Qed.
Hint Resolve keeps_suffixedexp : scope.
Lemma keeps_binop_loop n lim v op : keeps (binop_loop luaO_str2d lexfuel subexpr n lim v op).
Proof. revert v op. induction n as [|n IH]; intros v op; cbn [binop_loop]; scope. Qed.

Hypothesis keeps_body : forall b ln, keeps (body b ln).

Lemma keeps_simpleexp : keeps (simpleexp luaO_str2d lexfuel subexpr body fuel).
Proof. unfold simpleexp. scope. Qed.
Hint Resolve keeps_simpleexp keeps_binop_loop : scope.
Lemma keeps_operand : keeps (operand luaO_str2d lexfuel subexpr body fuel).
Proof. unfold operand. scope. Qed.
Hint Resolve keeps_operand : scope.

Lemma parser_bind_inv {A B} (m : parser A) (f : A -> parser B) s b s' : (m ≫= f) s = Ok (b, s') -> exists a s1, m s = Ok (a, s1) /\ f a s1 = Ok (b, s').
Proof. unfold mbind, parser_bind. destruct (m s) as [[a s1]|]; [by eauto|done]. Qed.

(** Counted calls. *)
Lemma enterlevel_inv s s' : enterlevel s = Ok ((), s') -> s' = set_ccalls (nCcalls s + 1) s.
Proof. unfold enterlevel. destruct (_ >? _); [done|]. by intros [= <-]. Qed.

Lemma keeps_level {A} (m : parser A) s a s' :
  keeps m -> linked (funcs s) -> m (set_ccalls (nCcalls s + 1) s) = Ok (a, s') -> linked (funcs s') /\ steady s (set_ccalls (nCcalls s' - 1) s').
Proof. intros Hm Hl E. destruct (Hm (set_ccalls (nCcalls s + 1) s) _ _ Hl E) as [Hl' [S1 S2 S3 S4 S5]]. split; [done|]. split; try done. cbn in *. lia. Qed.

Lemma keeps_subexpr_rule lim : keeps (subexpr_rule luaO_str2d lexfuel subexpr body fuel lim).
Proof.
  intros s r s' Hl E. apply parser_bind_inv in E as ([] & s1 & E1 & E). apply enterlevel_inv in E1 as ->.
  assert (exists s2, (v ← operand luaO_str2d lexfuel subexpr body fuel; t ← tok; binop_loop luaO_str2d lexfuel subexpr fuel lim v (getbinopr t)) (set_ccalls (nCcalls s + 1) s) = Ok (r, s2) /\ s' = set_ccalls (nCcalls s2 - 1) s2) as (s2 & E2 & ->).
  { apply parser_bind_inv in E as (v & s2 & E2 & E). apply parser_bind_inv in E as (t & s3 & E3 & E). apply parser_bind_inv in E as (r' & s4 & E4 & E). injection E as <- <-. exists s4. split; [|done].
    unfold mbind, parser_bind. by rewrite E2, E3. }
  eapply keeps_level in E2; [done|scope|done].
Qed.
End Nested.

Lemma keeps_subexpr body fuel lim : (forall b ln, keeps (body b ln)) -> keeps (subexpr luaO_str2d lexfuel body fuel lim).
Proof. intros Hb. revert lim. induction fuel as [|fuel IH]; intros lim; cbn [subexpr]; [done|]. by apply keeps_subexpr_rule. Qed.
End Expressions.

(** ** Statements *)

(** Where the gotos and labels of the current block begin. *)
Definition floor (g : BlockCnt -> Z) (s : PState) : Z :=
  match funcs s with f :: _ => match bl f with b :: _ => g b | [] => 0 end | [] => 0 end.

(** The blocks opened since, the innermost first, with the variables, labels and gotos at
    their beginning. *)
Fixpoint nested (na fl fg : Z) (ds : list BlockCnt) (na' fl' fg' : Z) : Prop :=
  match ds with
  | [] => na <= na' /\ fl <= fl' /\ fg <= fg'
  | d :: ds => bl_nactvar d <= na' /\ bl_firstlabel d <= fl' /\ bl_firstgoto d <= fg' /\ nested na fl fg ds (bl_nactvar d) (bl_firstlabel d) (bl_firstgoto d)
  end.

Definition zlen {A} (l : list A) : Z := Z.of_nat (length l).
Definition upto {A} (n : Z) (l : list A) : list A := take (Z.to_nat n) l.

(** Between [s0] and [s] the blocks [ds] were opened in the current function; [kk] variables
    are declared that are not active yet. *)
Record frame (s0 : PState) (f0 : PFunc) (o0 : list PFunc) (ds : list BlockCnt) (kk : Z) (s : PState) (f : PFunc) (o : list PFunc) : Prop := {
  fm_start : funcs s0 = f0 :: o0;
  fm_now : funcs s = f :: o;
  fm_block : bl f0 <> [];
  fm_blocks : strip <$> bl f = ds ++ (strip <$> bl f0);
  fm_first : firstlocal f = firstlocal f0 /\ 0 <= firstlocal f0 /\ 0 <= nactvar (pf f0);
  fm_ups : upvalues f0 `prefix_of` upvalues f;
  fm_outer : Forall2 alike o0 o;
  fm_last : outermost_ups (funcs s) = outermost_ups (funcs s0);
  fm_nested : nested (nactvar (pf f0)) (floor bl_firstlabel s0) (floor bl_firstgoto s0) ds (nactvar (pf f)) (zlen (label s)) (zlen (gt s));
  fm_floor : 0 <= floor bl_firstlabel s0 /\ 0 <= floor bl_firstgoto s0;
  fm_count : zlen (actvar s) = firstlocal f0 + nactvar (pf f) + kk;
  fm_pending : 0 <= kk /\ nactvar (pf f) + kk <= MAXVARS;
  fm_actvar : upto (firstlocal f0 + nactvar (pf f0)) (actvar s) = upto (firstlocal f0 + nactvar (pf f0)) (actvar s0);
  fm_label : upto (floor bl_firstlabel s0) (label s) = upto (floor bl_firstlabel s0) (label s0);
  fm_gt : upto (floor bl_firstgoto s0) (gt s) = upto (floor bl_firstgoto s0) (gt s0);
  fm_calls : nCcalls s = nCcalls s0;
  fm_locs : nactvar (pf f) + kk <= Z.of_nat (length (locvars f));
}.

Definition inside (s0 : PState) (n : nat) (kk : Z) (s : PState) : Prop :=
  exists f0 o0 ds f o, length ds = n /\ frame s0 f0 o0 ds kk s f o.

(** A part of a statement: it opens and closes blocks and declares variables. *)
Definition part {A} (n : nat) (kk : Z) (m : parser A) (n' : nat) (K : A -> Z) : Prop :=
  forall s0 s a s', linked (funcs s) -> inside s0 n kk s -> m s = Ok (a, s') -> linked (funcs s') /\ inside s0 n' (K a) s'.

Section Parts.
Context {A B : Type}.

Lemma part_bind n kk (m : parser A) n1 K (f : A -> parser B) n2 K2 :
  part n kk m n1 K -> (forall a, part n1 (K a) (f a) n2 K2) -> part n kk (m ≫= f) n2 K2.
Proof.
  intros Hm Hf s0 s b s' Hl Hi E. unfold mbind, parser_bind in E. destruct (m s) as [[a s1]|] eqn:Em; [|done]. destruct (Hm _ _ _ _ Hl Hi Em) as [Hl1 Hi1]. by eapply Hf.
Qed.

Lemma part_fail n kk e n' K : part n kk (failp e : parser A) n' K.
Proof. done. Qed.

Lemma part_ret n kk (a : A) K : K a = kk -> part n kk (mret a : parser A) n K.
Proof. intros E s0 s b s' Hl Hi [= <- <-]. by rewrite E. Qed.
End Parts.

Lemma strip_fields bs bs' (g : BlockCnt -> Z) : (forall b, g (strip b) = g b) -> strip <$> bs = strip <$> bs' -> match bs with b :: _ => g b | [] => 0 end = match bs' with b :: _ => g b | [] => 0 end.
Proof. intros Hg E. destruct bs as [|b bs], bs' as [|b' bs']; try done. cbn [fmap list_fmap] in E. assert (strip b = strip b') as Eb by congruence. by rewrite <- (Hg b), <- (Hg b'), Eb. Qed.

Lemma keeps_part {A} n kk (m : parser A) : keeps m -> part n kk m n (fun _ => kk).
Proof.
  intros Hm s0 s a s' Hl (f0 & o0 & ds & f & o & Hn & F) E. destruct (Hm _ _ _ Hl E) as [Hl' [[Sa Sl] S2 S3 S4 S5]]. split; [done|]. destruct F as [F1 F2 F3 F4 F5 F6 F7 F8 F9 F10 F11 F12 F13 F14 F15 F16 F17].
  rewrite F2 in Sa. destruct (funcs s') as [|f' o'] eqn:Ef'; [by inversion Sa|]. apply Forall2_cons in Sa as [[A1 A2 A3 A4 A5] Ho]. exists f0, o0, ds, f', o'. split; [done|]. split; rewrite ?Ef', ?A1, ?A2, ?S2, ?S3, ?S4; try done; try congruence; try lia; by etrans.
Qed.

Lemma nested_le na fl fg ds na' fl' fg' : nested na fl fg ds na' fl' fg' -> na <= na' /\ fl <= fl' /\ fg <= fg'.
Proof. revert na' fl' fg'. induction ds as [|d ds IH]; intros na' fl' fg'; cbn [nested]; [done|]. intros (H1 & H2 & H3 & H4). apply IH in H4. lia. Qed.

Lemma nested_top na fl fg ds na' fl' fg' na2 fl2 fg2 :
  nested na fl fg ds na' fl' fg' -> match ds with d :: _ => bl_nactvar d <= na2 /\ bl_firstlabel d <= fl2 /\ bl_firstgoto d <= fg2 | [] => na <= na2 /\ fl <= fl2 /\ fg <= fg2 end -> nested na fl fg ds na2 fl2 fg2.
Proof. destruct ds as [|d ds]; cbn [nested]; [done|]. intros (H1 & H2 & H3 & H4) (H5 & H6 & H7). done. Qed.

Lemma upto_le {A} n m (l l' : list A) : 0 <= n <= m -> upto m l' = upto m l -> upto n l' = upto n l.
Proof. unfold upto. intros Hn E. replace (Z.to_nat n) with (Z.to_nat n `min` Z.to_nat m)%nat by lia. by rewrite <- !take_take, E. Qed.

Lemma upto_upto {A} n m (l : list A) : 0 <= n <= m -> upto n (upto m l) = upto n l.
Proof. unfold upto. intros Hn. rewrite take_take. f_equal. lia. Qed.

Lemma zlen_upto {A} n (l : list A) : 0 <= n <= zlen l -> zlen (upto n l) = n.
Proof. unfold upto, zlen. intros Hn. rewrite length_take. lia. Qed.

Section Frames.
Context (s0 : PState) (f0 : PFunc) (o0 : list PFunc) (ds : list BlockCnt) (kk : Z) (s : PState) (f : PFunc) (o : list PFunc) (F : frame s0 f0 o0 ds kk s f o).

Lemma frame_floor (g : BlockCnt -> Z) : (forall b, g (strip b) = g b) -> floor g s = match ds with d :: _ => g d | [] => floor g s0 end.
Proof.
  intros Hg. unfold floor. rewrite (fm_now _ _ _ _ _ _ _ _ F), (fm_start _ _ _ _ _ _ _ _ F). pose proof (fm_blocks _ _ _ _ _ _ _ _ F) as Hb. destruct ds as [|d ds']; [by apply strip_fields|].
  destruct (bl f) as [|b bs]; [done|]. cbn [fmap list_fmap app] in Hb. assert (strip b = d) as <- by congruence. by rewrite Hg.
Qed.

Lemma frame_block : bl f <> [].
Proof. intros E. pose proof (fm_blocks _ _ _ _ _ _ _ _ F) as Hb. rewrite E in Hb. destruct ds; [|done]. pose proof (fm_block _ _ _ _ _ _ _ _ F). by destruct (bl f0). Qed.

Lemma frame_bounds :
  floor bl_firstlabel s0 <= floor bl_firstlabel s <= zlen (label s) /\ floor bl_firstgoto s0 <= floor bl_firstgoto s <= zlen (gt s) /\ nactvar (pf f0) <= nactvar (pf f).
Proof.
  pose proof (fm_nested _ _ _ _ _ _ _ _ F) as Hn. pose proof (nested_le _ _ _ _ _ _ _ Hn). rewrite !frame_floor by done. destruct ds as [|d ds']; [lia|]. cbn [nested] in Hn. destruct Hn as (H1 & H2 & H3 & H4). apply nested_le in H4. lia.
Qed.

(** The state is the beginning of what follows. *)
Lemma frame_start : kk = 0 -> frame s f o [] 0 s f o.
Proof.
  intros Hk. pose proof frame_bounds as (H1 & H2 & H3). pose proof F as [F1 F2 F3 F4 F5 F6 F7 F8 F9 F10 F11 F12 F13 F14 F15 F16 F17]. destruct F5 as (E5 & Hf & Hn). rewrite Hk in F11, F12. split; try done; try lia.
  - by apply frame_block.
  - cbn [nested]. lia.
Qed.

(** A statement inside. *)
Lemma frame_trans s' f' o' kk' : frame s f o [] kk' s' f' o' -> frame s0 f0 o0 ds kk' s' f' o'.
Proof.
  intros G. pose proof frame_bounds as (H1 & H2 & H3). pose proof (frame_floor bl_firstlabel ltac:(done)) as Hfl. pose proof (frame_floor bl_firstgoto ltac:(done)) as Hfg.
  pose proof F as [F1 F2 F3 F4 F5 F6 F7 F8 F9 F10 F11 F12 F13 F14 F15 F16 F17]. destruct G as [G1 G2 G3 G4 G5 G6 G7 G8 G9 G10 G11 G12 G13 G14 G15 G16 G17]. destruct F5 as (E5 & Hf & Hn). destruct G5 as (E5' & _ & _). cbn [nested] in G9.
  split; try done; try lia; try (by etrans); try congruence.
  - eapply nested_top; [exact F9|]. destruct ds as [|d ds']; [lia|]. cbn [nested] in F9. lia.
  - etrans; [|exact F13]. eapply upto_le; [|exact G13]. lia.
  - etrans; [|exact F14]. eapply upto_le; [|exact G14]. lia.
  - etrans; [|exact F15]. eapply upto_le; [|exact G15]. lia.
Qed.
End Frames.

(** A complete statement. *)
Definition whole {A} (m : parser A) : Prop :=
  forall s a s', linked (funcs s) -> inside s 0 0 s -> m s = Ok (a, s') -> linked (funcs s') /\ inside s 0 0 s'.

Lemma whole_part {A} n (m : parser A) : whole m -> part n 0 m n (fun _ => 0).
Proof.
  intros Hm s0 s a s' Hl (f0 & o0 & ds & f & o & Hn & F) E. assert (inside s 0 0 s) as Hi by (exists f, o, [], f, o; split; [done|by eapply frame_start]).
  destruct (Hm _ _ _ Hl Hi E) as [Hl' (f1 & o1 & ds1 & f' & o' & Hn1 & G)]. split; [done|]. apply nil_length_inv in Hn1 as ->. pose proof (fm_start _ _ _ _ _ _ _ _ G) as E1. rewrite (fm_now _ _ _ _ _ _ _ _ F) in E1. injection E1 as <- <-.
  exists f0, o0, ds, f', o'. split; [done|]. by eapply frame_trans.
Qed.

Lemma part_whole {A} (m : parser A) : part 0 0 m 0 (fun _ => 0) -> whole m.
Proof. intros Hm s a s' Hl Hi E. by eapply Hm. Qed.

(** ** Changes of the current function *)

Lemma keeps_getfunc {A} (g : PFunc -> A) : keeps (getfunc g).
Proof. intros s a s' Hl. unfold getfunc. destruct (funcs s) eqn:Ef; [done|]. intros [= <- <-]. by rewrite Ef. Qed.

Lemma keeps_putfunc g : (forall f, alike f (g f) /\ upvalues (g f) = upvalues f /\ protos (g f) = protos f /\ pf (g f) = pf f) -> keeps (putfunc g).
Proof.
  intros Hg s a s' Hl. unfold putfunc. destruct (funcs s) as [|f o] eqn:Ef; [done|]. intros [= <- <-]. destruct (Hg f) as (H1 & H2 & H3 & H4). split; [|exact (steady_head f (g f) o s Ef H1 H2)].
  apply (linked_unchanged f); [done..|rewrite H4; apply Hl|apply H1|by rewrite H4].
Qed.
#[export] Hint Resolve keeps_getfunc : scope.
#[export] Hint Extern 2 (keeps (putfunc _)) => apply keeps_putfunc; intros ?; (split; [split; try done; cbn; rewrite ?length_insert; done|done]) : scope.

Lemma keeps_change_locvar av i g : keeps (change_locvar av i g).
Proof. unfold change_locvar. scope. Qed.
#[export] Hint Resolve keeps_change_locvar : scope.

Lemma keeps_adjust_loop n : keeps (adjust_loop n).
Proof. induction n as [|n IH]; cbn [adjust_loop]; scope. Qed.
#[export] Hint Resolve keeps_adjust_loop : scope.

(** A variable is one more of the function and one more pending. *)
Lemma part_new_localvar n kk x : part n kk (new_localvar x) n (fun _ => kk + 1).
Proof.
  intros s0 s a s' Hl (f0 & o0 & ds & f & o & Hn & F) E. unfold new_localvar, registerlocalvar, mbind, parser_bind, getfunc, putfunc, getp, putp in E. pose proof F as [F1 F2 F3 F4 F5 F6 F7 F8 F9 F10 F11 F12 F13 F14 F15 F16 F17].
  rewrite F2 in E, Hl. cbv beta iota in E. destruct (_ >=? SHRT_MAX); [done|]. rewrite F2 in E. unfold mret, parser_ret in E. cbn [funcs set_funcs firstlocal with_locvars actvar] in E. destruct (_ >? MAXVARS) eqn:Ev; [done|]. injection E as _ <-. rewrite Z.gtb_ltb in Ev. apply Z.ltb_ge in Ev.
  pose proof (frame_bounds _ _ _ _ _ _ _ _ F) as (_ & _ & Hna). unfold zlen in F11. split.
  { apply (linked_unchanged f); [done..|apply Hl|cbn; rewrite length_app; lia|done]. }
  exists f0, o0, ds. eexists _, o. split; [done|]. split; try done; cbn [actvar set_actvar set_funcs funcs pf with_locvars locvars].
  - rewrite <- F8, F2. by apply last_head.
  - unfold zlen. rewrite length_app. cbn [length]. lia.
  - destruct F5 as (E5 & _). lia.
  - rewrite <- F13. unfold upto. rewrite take_app_le; [done|]. lia.
  - rewrite length_app. cbn [length]. lia.
Qed.

Lemma part_adjust n kk j : 0 <= j <= kk -> part n kk (adjustlocalvars j) n (fun _ => kk - j).
Proof.
  intros Hj. eapply (part_bind _ _ _ _ (fun _ => kk - j)); [|intros _; apply keeps_part; scope]. intros s0 s a s' Hl (f0 & o0 & ds & f & o & Hn & F) E. pose proof F as [F1 F2 F3 F4 F5 F6 F7 F8 F9 F10 F11 F12 F13 F14 F15 F16 F17].
  unfold emit in E. rewrite F2 in E. cbn [putfs] in E. injection E as _ <-. pose proof (frame_bounds _ _ _ _ _ _ _ _ F) as (_ & _ & Hna). change MAXVARS with 200 in *.
  assert (u8 (nactvar (pf f) + j) = nactvar (pf f) + j) as Hu by (unfold u8; apply Z.mod_small; lia). cbn [nactvar set_lastline] in *. rewrite Hu. rewrite F2 in Hl. split; [apply (linked_first f); [done..|apply Hl|done|]; unfold enough_locals; cbn; change MAXVARS with 200; lia|].
  exists f0, o0, ds, (with_pf f (set_nactvar (nactvar (pf f) + j) (set_lastline (LuaLex.lastline (ls s)) (pf f)))), o. split; [done|]. split; try done; cbn [pf with_pf nactvar set_nactvar actvar set_funcs label gt].
  - rewrite <- F8, F2. apply last_head. done.
  - eapply nested_top; [exact F9|]. destruct ds as [|d ds']; cbn [nested] in F9; lia.
  - lia.
  - change MAXVARS with 200. lia.
  - cbn. lia.
Qed.

Lemma part_enterblock n kk isloop : part n kk (enterblock isloop) (S n) (fun _ => kk).
Proof.
  intros s0 s a s' Hl (f0 & o0 & ds & f & o & Hn & F) E. pose proof F as [F1 F2 F3 F4 F5 F6 F7 F8 F9 F10 F11 F12 F13 F14 F15 F16 F17].
  unfold enterblock, mbind, parser_bind, emit, getp, putfunc in E. rewrite F2 in E. cbn [getfs funcs set_funcs pf with_pf label gt] in E. injection E as _ <-. cbn [nactvar set_lastline]. rewrite F2 in Hl. split; [apply (linked_unchanged f); [done..|apply Hl|done|done]|].
  set (b := MkBlock (Z.of_nat (length (label s))) (Z.of_nat (length (gt s))) (nactvar (pf f)) false isloop). exists f0, o0, (b :: ds). eexists _, o. split; [cbn; by rewrite Hn|]. split; try done; cbn [funcs set_funcs].
  - cbn [bl with_blocks with_pf fmap list_fmap app]. by rewrite F4.
  - rewrite <- F8, F2. apply last_head. done.
Qed.

(** ** Gotos *)

(** Gotos from [lo] on may have changed. *)
Record regot (lo : Z) (s s' : PState) : Prop := {
  rg_funcs : same_funcs (funcs s) (funcs s');
  rg_actvar : actvar s' = actvar s;
  rg_label : label s' = label s;
  rg_calls : nCcalls s' = nCcalls s;
  rg_gt : upto lo (gt s') = upto lo (gt s) /\ lo <= zlen (gt s');
}.

Lemma regot_trans lo s t u : regot lo s t -> regot lo t u -> regot lo s u.
Proof. intros [A1 A2 A3 A4 A5] [B1 B2 B3 B4 B5]. split; [by etrans|congruence..|]. split; [|lia]. destruct A5, B5. congruence. Qed.

Lemma steady_regot lo s s' : steady s s' -> lo <= zlen (gt s) -> regot lo s s'.
Proof. intros [S1 S2 S3 S4 S5] Hlo. split; try done. by rewrite S3. Qed.

(** [m] changes gotos from [lo] on only. *)
Definition regots {A} (lo : Z) (m : parser A) : Prop :=
  forall s a s', linked (funcs s) -> lo <= zlen (gt s) -> m s = Ok (a, s') -> linked (funcs s') /\ regot lo s s'.

Lemma regots_keeps {A} lo (m : parser A) : keeps m -> regots lo m.
Proof. intros Hm s a s' Hl Hlo E. destruct (Hm _ _ _ Hl E). split; [done|by apply steady_regot]. Qed.

Lemma regots_bind {A B} lo (m : parser A) (f : A -> parser B) : regots lo m -> (forall a, regots lo (f a)) -> regots lo (m ≫= f).
Proof.
  intros Hm Hf s b s' Hl Hlo E. apply parser_bind_inv in E as (a & s1 & E1 & E2). destruct (Hm _ _ _ Hl Hlo E1) as [Hl1 R1]. destruct (Hf a _ _ _ Hl1 (proj2 (rg_gt _ _ _ R1)) E2) as [Hl2 R2]. split; [done|by eapply regot_trans].
Qed.

Lemma get_goto_inv g s t s' : get_goto g s = Ok (t, s') -> s' = s /\ (g < length (gt s))%nat.
Proof. unfold get_goto, mbind, parser_bind, getp. destruct (gt s !! g) as [l|] eqn:E; [|done]. intros [= <- <-]. split; [done|]. by eapply lookup_lt_Some. Qed.

Lemma keeps_get_goto g : keeps (get_goto g).
Proof. unfold get_goto. scope. Qed.
#[export] Hint Resolve keeps_get_goto : scope.

Lemma regots_closegoto lo g lb : lo <= Z.of_nat g -> regots lo (closegoto g lb).
Proof.
  intros Hlo s a s' Hl Hg E. apply parser_bind_inv in E as (t & s1 & E1 & E). apply get_goto_inv in E1 as [-> Hgt]. destruct (_ <? _); [done|]. apply parser_bind_inv in E as ([] & s2 & E2 & E).
  destruct (keeps_emit _ (ll_patchlist _ _) _ _ _ Hl E2) as [Hl2 S2]. cbn in E. injection E as _ <-. split; [done|]. pose proof (sd_gt _ _ S2) as Egt. destruct S2 as [T1 T2 T3 T4 T5]. split; try done. cbn [gt set_gt]. rewrite Egt. unfold upto, zlen. split.
  - rewrite take_app_le by (rewrite length_take; lia). rewrite take_take. f_equal. lia.
  - rewrite length_app, length_take, length_drop. lia.
Qed.

Lemma regots_findlabel lo g : lo <= Z.of_nat g -> regots lo (findlabel g).
Proof.
  intros Hlo. unfold findlabel, current_block. apply regots_bind; [apply regots_keeps; scope|]. intros b. apply regots_bind; [apply regots_keeps; scope|]. intros ll. apply regots_bind; [apply regots_keeps; scope|]. intros t.
  destruct (find_name _ _) as [lb|]; [|apply regots_keeps; scope]. apply regots_bind; [apply regots_keeps; scope|]. intros _. apply regots_bind; [by apply regots_closegoto|]. intros _. apply regots_keeps. scope.
Qed.

Lemma regots_findgotos_loop lo turns i lb : lo <= Z.of_nat i -> regots lo (findgotos_loop turns i lb).
Proof.
  revert i. induction turns as [|turns IH]; intros i Hi; cbn [findgotos_loop]; [apply regots_keeps; scope|]. apply regots_bind; [apply regots_keeps; scope|]. intros t. case_decide; [|apply IH; lia].
  apply regots_bind; [by apply regots_closegoto|]. intros _. by apply IH.
Qed.

Lemma regots_set_goto lo i g : lo <= Z.of_nat i -> regots lo (putp (fun s => set_gt (alter g i (gt s)) s)).
Proof.
  intros Hi s a s' Hl Hlo E. injection E as _ <-. split; [done|]. split; try done. cbn [gt set_gt]. unfold upto, zlen in *. rewrite length_alter. split; [|done]. apply list_eq. intros j. destruct (decide (j < Z.to_nat lo)%nat) as [Hj|Hj].
  - rewrite !lookup_take_lt by done. rewrite list_lookup_alter_ne; [done|]. lia.
  - by rewrite !lookup_take_ge by lia.
Qed.

Lemma regots_movegotos_loop lo turns i b : lo <= Z.of_nat i -> regots lo (movegotos_loop turns i b).
Proof.
  revert i. induction turns as [|turns IH]; intros i Hi; cbn [movegotos_loop]; [apply regots_keeps; scope|]. apply regots_bind; [apply regots_keeps; scope|]. intros t. apply regots_bind.
  - destruct (_ >? _); [|apply regots_keeps; scope]. apply regots_bind; [apply regots_keeps; scope|]. intros _. by apply regots_set_goto.
  - intros _. apply regots_bind; [by apply regots_findlabel|]. intros [|]; apply IH; lia.
Qed.

(** Inside a statement. *)
Lemma regot_inside s0 n kk s s' : inside s0 n kk s -> regot (floor bl_firstgoto s) s s' -> inside s0 n kk s'.
Proof.
  intros (f0 & o0 & ds & f & o & Hn & F) [[Sa Sl] R2 R3 R4 [R5 R6]]. pose proof (frame_bounds _ _ _ _ _ _ _ _ F) as (B1 & B2 & B3). pose proof (frame_floor _ _ _ _ _ _ _ _ F bl_firstgoto ltac:(done)) as Hfg.
  destruct F as [F1 F2 F3 F4 F5 F6 F7 F8 F9 F10 F11 F12 F13 F14 F15 F16 F17]. rewrite F2 in Sa. destruct (funcs s') as [|f' o'] eqn:Ef'; [by inversion Sa|]. apply Forall2_cons in Sa as [[A1 A2 A3 A4 A5] Ho].
  exists f0, o0, ds, f', o'. split; [done|]. split; rewrite ?Ef', ?A1, ?A2, ?R2, ?R3; try done; try congruence; try (by etrans); try lia.
  - eapply nested_top; [exact F9|]. destruct ds as [|d ds']; [cbn [nested] in F9; lia|]. cbn [nested] in F9. lia.
  - etrans; [|exact F15]. eapply upto_le; [|exact R5]. lia.
Qed.

Lemma regots_part {A} n kk (m : parser A) : (forall s a s', linked (funcs s) -> floor bl_firstgoto s <= zlen (gt s) -> m s = Ok (a, s') -> linked (funcs s') /\ regot (floor bl_firstgoto s) s s') -> part n kk m n (fun _ => kk).
Proof.
  intros Hm s0 s a s' Hl Hi E. assert (floor bl_firstgoto s <= zlen (gt s)) as Hb by (destruct Hi as (f0 & o0 & ds & f & o & _ & F); apply (frame_bounds _ _ _ _ _ _ _ _ F)).
  destruct (Hm _ _ _ Hl Hb E) as [Hl' R]. split; [done|]. by eapply regot_inside.
Qed.

Lemma current_block_inv s b s' : current_block s = Ok (b, s') -> s' = s /\ (forall g, floor g s = g b) /\ exists f o bs, funcs s = f :: o /\ bl f = b :: bs.
Proof.
  unfold current_block, mbind, parser_bind, getfunc, floor. destruct (funcs s) as [|f o] eqn:Ef; [done|]. destruct (bl f) as [|b' bs] eqn:Eb; [done|]. intros [= <- <-]. split_and!; [done|done|]. by exists f, o, bs.
Qed.

Lemma findgotos_regot lb s a s' : linked (funcs s) -> floor bl_firstgoto s <= zlen (gt s) -> findgotos lb s = Ok (a, s') -> linked (funcs s') /\ regot (floor bl_firstgoto s) s s'.
Proof.
  intros Hl Hb E. apply parser_bind_inv in E as (b & s1 & E1 & E). apply current_block_inv in E1 as (-> & Hfl & _). apply parser_bind_inv in E as (gl & s2 & E2 & E). injection E2 as <- <-.
  rewrite (Hfl bl_firstgoto) in *. eapply regots_findgotos_loop; [|done|done|exact E]. lia.
Qed.

Lemma part_findgotos n kk lb : part n kk (findgotos lb) n (fun _ => kk).
Proof. apply regots_part, findgotos_regot. Qed.

(** ** Labels and blocks *)

Lemma inside_label s0 n kk s l :
  inside s0 n kk s -> upto (floor bl_firstlabel s) l = upto (floor bl_firstlabel s) (label s) -> floor bl_firstlabel s <= zlen l -> inside s0 n kk (set_label l s).
Proof.
  intros (f0 & o0 & ds & f & o & Hn & F) R5 R6. pose proof (frame_bounds _ _ _ _ _ _ _ _ F) as (B1 & B2 & B3). pose proof (frame_floor _ _ _ _ _ _ _ _ F bl_firstlabel ltac:(done)) as Hfl.
  destruct F as [F1 F2 F3 F4 F5 F6 F7 F8 F9 F10 F11 F12 F13 F14 F15 F16 F17]. exists f0, o0, ds, f, o. split; [done|]. split; try done; cbn [label set_label gt].
  - eapply nested_top; [exact F9|]. destruct ds as [|d ds']; cbn [nested] in F9; lia.
  - etrans; [|exact F14]. eapply upto_le; [|exact R5]. lia.
Qed.

Lemma upto_app {A} n (l l' : list A) : n <= zlen l -> upto n (l ++ l') = upto n l /\ n <= zlen (l ++ l').
Proof. unfold upto, zlen. intros Hn. rewrite length_app. split; [|lia]. rewrite take_app_le; [done|lia]. Qed.

Lemma inside_bounds s0 n kk s : inside s0 n kk s -> 0 <= floor bl_firstlabel s <= zlen (label s) /\ 0 <= floor bl_firstgoto s <= zlen (gt s).
Proof. intros (f0 & o0 & ds & f & o & Hn & F). pose proof (frame_bounds _ _ _ _ _ _ _ _ F). pose proof (fm_floor _ _ _ _ _ _ _ _ F). lia. Qed.

Lemma keeps_newlabelentry n x ln p : keeps (newlabelentry n x ln p).
Proof. unfold newlabelentry. scope. Qed.
#[export] Hint Resolve keeps_newlabelentry : scope.

(** A new label at the end of the list. *)
Lemma append_label s0 n kk s1 s2 lb :
  steady s1 s2 -> inside s0 n kk s2 -> inside s0 n kk (set_label (label s1 ++ [lb]) s2).
Proof.
  intros S Hi. pose proof (inside_bounds _ _ _ _ Hi) as [Hb _]. rewrite <- (sd_label _ _ S). destruct (upto_app (floor bl_firstlabel s2) (label s2) [lb]) as [H1 H2]; [lia|]. by apply inside_label.
Qed.

Lemma breaklabel_inside s0 n kk s a s' :
  linked (funcs s) -> inside s0 n kk s -> breaklabel s = Ok (a, s') -> linked (funcs s') /\ inside s0 n kk s' /\ same_funcs (funcs s) (funcs s').
Proof.
  intros Hl Hi E. apply parser_bind_inv in E as (labels & s1 & E1 & E). injection E1 as <- <-.
  assert (forall x, keeps (here ← emit (getfs pc); newlabelentry x s_break 0 here)) as Hk by (intros x; scope). apply parser_bind_inv in E as (here & s1 & E1 & E). apply parser_bind_inv in E as (lb & s2 & E2 & E).
  assert ((here ← emit (getfs pc); newlabelentry (length (label s)) s_break 0 here) s = Ok (lb, s2)) as E3 by (unfold mbind, parser_bind; by rewrite E1). destruct (Hk _ _ _ _ Hl E3) as [Hl2 S2].
  assert (inside s0 n kk s2) as Hi2 by (eapply keeps_part in E3; [|apply Hk|exact Hl|exact Hi]; apply E3). apply parser_bind_inv in E as ([] & s3 & E4 & E). injection E4 as <-.
  assert (inside s0 n kk (set_label (label s ++ [lb]) s2)) as Hi3 by (eapply append_label; [exact S2|exact Hi2]). pose proof (inside_bounds _ _ _ _ Hi3) as [_ Hb3]. destruct (findgotos_regot lb (set_label (label s ++ [lb]) s2) _ _ Hl2 (proj2 Hb3) E) as [Hl4 R4]. split_and!; [done|by eapply regot_inside|].
  etrans; [apply S2|apply R4].
Qed.

(** The variables of a block go. *)
Record removed (tolevel : Z) (s : PState) (f : PFunc) (o : list PFunc) (s' : PState) (f' : PFunc) : Prop := {
  rm_funcs : funcs s' = f' :: o;
  rm_ups : upvalues f' = upvalues f;
  rm_bl : bl f' = bl f;
  rm_first : firstlocal f' = firstlocal f;
  rm_protos : protos f' = protos f;
  rm_consts : consts (pf f) -> consts (pf f');
  rm_nact : nactvar (pf f') = tolevel;
  rm_locs : length (locvars f') = length (locvars f);
  rm_rest : gt s' = gt s /\ label s' = label s /\ nCcalls s' = nCcalls s;
}.

(** The current function of a state that has one. *)
Definition head_func (s : PState) : PFunc :=
  match funcs s with f :: _ => f | [] => MkPFunc (MkFunc [] [] [] [] 0 0 0 0 0 0) [] [] 0 [] false 0 0 0 0 [] end.

Lemma change_locvar_inv av i g s s' f o : funcs s = f :: o -> change_locvar av i g s = Ok ((), s') -> exists vs, length vs = length (locvars f) /\ s' = set_funcs (with_locvars f vs :: o) s.
Proof.
  intros Hf E. apply parser_bind_inv in E as (f' & s1 & E1 & E). unfold getfunc in E1. rewrite Hf in E1. injection E1 as <- <-. cbn [id] in E. destruct (av !! _) as [idx|]; [|done]. destruct (locvars f !! _) as [v|]; [|done].
  unfold putfunc in E. rewrite Hf in E. injection E as <-. eexists. split; [|reflexivity]. apply length_insert.
Qed.

Lemma remove_loop_inv n av s s' f o :
  funcs s = f :: o -> remove_loop n av s = Ok ((), s') -> exists f', removed (nactvar (pf f) - Z.of_nat n) s f o s' f' /\ actvar s' = actvar s.
Proof.
  revert s f. induction n as [|n IH]; intros s f Hf E; cbn [remove_loop] in E.
  { injection E as <-. exists f. split; [|done]. split; try done. lia. }
  apply parser_bind_inv in E as ([] & s1 & E1 & E). unfold emit in E1. rewrite Hf in E1. cbn [putfs] in E1. injection E1 as <-. apply parser_bind_inv in E as (na & s2 & E2 & E). cbn in E2. injection E2 as <- <-.
  apply parser_bind_inv in E as (here & s2 & E2 & E). cbn in E2. injection E2 as <- <-. apply parser_bind_inv in E as ([] & s3 & E3 & E). match type of E3 with change_locvar _ _ _ ?st = _ => destruct (change_locvar_inv _ _ _ st _ (head_func st) o eq_refl E3) as (vs & Hvs & ->) end.
  match type of E with remove_loop _ _ ?st = _ => destruct (IH st (head_func st) eq_refl E) as (f' & [R1 R2 R3 R4 R5 R6 R7 RL R8] & Ra) end. exists f'. split; [|exact Ra]. split; try done; [|by rewrite RL]. cbn in R7 |- *. lia.
Qed.

Lemma removevars_inv tolevel s s' f o :
  funcs s = f :: o -> tolevel <= nactvar (pf f) -> removevars tolevel s = Ok ((), s') ->
  exists f', removed tolevel s f o s' f' /\ actvar s' = take (Z.to_nat (zlen (actvar s) - (nactvar (pf f) - tolevel))) (actvar s).
Proof.
  intros Hf Hle E. apply parser_bind_inv in E as (na & s1 & E1 & E). unfold emit in E1. rewrite Hf in E1. cbn in E1. injection E1 as <- <-. apply parser_bind_inv in E as (av & s2 & E2 & E). cbn in E2. injection E2 as <- <-.
  apply parser_bind_inv in E as ([] & s3 & E3 & E). cbn in E3. injection E3 as <-. match type of E with remove_loop _ _ ?st = _ => destruct (remove_loop_inv _ _ st _ (head_func st) o eq_refl E) as (f' & [R1 R2 R3 R4 R5 R6 R7 RL R8] & Ra) end. exists f'. split; [|exact Ra]. split; try done. cbn in R7. lia.
Qed.

(** Leaving the current block [b]: its variables and labels go. *)
Lemma leave_scope s s' f o b previous :
  funcs s = f :: o -> linked (funcs s) -> 0 <= bl_nactvar b <= nactvar (pf f) ->
  (_ ← putfunc (fun f => with_blocks f previous); _ ← removevars (bl_nactvar b); _ ← emit (putfs (fun fs => set_freereg (nactvar fs) fs));
   putp (fun s => set_label (upto (bl_firstlabel b) (label s)) s)) s = Ok ((), s') ->
  exists f', funcs s' = f' :: o /\ linked (funcs s') /\ upvalues f' = upvalues f /\ bl f' = previous /\ firstlocal f' = firstlocal f /\ nactvar (pf f') = bl_nactvar b /\
    actvar s' = upto (zlen (actvar s) - (nactvar (pf f) - bl_nactvar b)) (actvar s) /\ gt s' = gt s /\ label s' = upto (bl_firstlabel b) (label s) /\ nCcalls s' = nCcalls s.
Proof.
  intros Hf Hl [Hge Hle] E. rewrite Hf in Hl. apply parser_bind_inv in E as ([] & s1 & E1 & E). unfold putfunc in E1. rewrite Hf in E1. injection E1 as <-. apply parser_bind_inv in E as ([] & s2 & E2 & E).
  destruct (removevars_inv (bl_nactvar b) (set_funcs (with_blocks f previous :: o) s) s2 (with_blocks f previous) o eq_refl Hle E2) as (f2 & [R1 R2 R3 R4 R5 R6 R7 RL (R8 & R9 & R10)] & Ra).
  apply parser_bind_inv in E as ([] & s3 & E3 & E). unfold emit in E3. rewrite R1 in E3. cbn [putfs] in E3. injection E3 as <-. injection E as <-. eexists. cbn [funcs set_label set_funcs actvar gt label nCcalls]. split; [reflexivity|]. split.
  { apply (linked_first f); [exact Hl|exact R2|exact R5|apply R6; apply Hl|cbn in *; lia|]. destruct Hl as (_ & _ & [_ [He1 He2]] & _). unfold enough_locals. cbn [pf with_pf locvars set_freereg nactvar set_lastline] in *. rewrite R7, RL. cbn in *. lia. }
  split_and!; try done. by rewrite R9.
Qed.

Lemma part_leaveblock n : part (S n) 0 leaveblock n (fun _ => 0).
Proof.
  intros s0 s a s' Hl Hi E. unfold leaveblock in E. apply parser_bind_inv in E as (b & s1 & E1 & E). apply current_block_inv in E1 as (-> & _ & f1 & o1 & bs1 & Hf1 & Hb1). apply parser_bind_inv in E as (bs & s1 & E1 & E). unfold getfunc in E1. rewrite Hf1 in E1. injection E1 as <- <-.
  rewrite Hb1 in E. cbn [tail] in E. cbv zeta in E. destruct Hi as (f0 & o0 & ds & f & o & Hn & F). destruct ds as [|d ds]; [done|]. pose proof (fm_blocks _ _ _ _ _ _ _ _ F) as Hblk. pose proof (fm_now _ _ _ _ _ _ _ _ F) as Hnow. rewrite Hf1 in Hnow. injection Hnow as -> ->.
  rewrite Hb1 in Hblk. cbn [fmap list_fmap app] in Hblk. assert (strip b = d) as Hd by congruence. assert (strip <$> bs1 = ds ++ (strip <$> bl f0)) as Hbs by congruence.
  assert (length bs1 =? 0 = false)%nat as Hin by (apply Nat.eqb_neq; destruct bs1; [|done]; pose proof (fm_block _ _ _ _ _ _ _ _ F); destruct ds, (bl f0); done). rewrite Hin in E. cbn [negb andb] in E.
  assert (inside s0 (S n) 0 s) as Hi by (by exists f0, o0, (d :: ds), f, o). apply parser_bind_inv in E as ([] & s1 & E1 & E).
  match type of E1 with ?m s = _ => assert (keeps m) as Hk by scope end. destruct (Hk _ _ _ Hl E1) as [Hl1 S1]. destruct (keeps_part (S n) 0 _ Hk _ _ _ _ Hl Hi E1) as [_ Hi1].
  apply parser_bind_inv in E as ([] & s2 & E2 & E). assert (linked (funcs s2) /\ inside s0 (S n) 0 s2 /\ same_funcs (funcs s1) (funcs s2)) as (Hl2 & Hi2 & S2) by (destruct (bl_isloop b); [by eapply breaklabel_inside|by injection E2 as <-]).
  assert (same_funcs (funcs s) (funcs s2)) as [S12 _] by (etrans; [apply S1|exact S2]). clear S1 S2 Hk E1 E2 Hl Hi Hl1 Hi1. pose proof (fm_start _ _ _ _ _ _ _ _ F) as Hs0.
  destruct Hi2 as (f0' & o0' & ds' & f2 & o2 & Hn2 & G). pose proof (fm_start _ _ _ _ _ _ _ _ G) as Hs0'. rewrite Hs0 in Hs0'. injection Hs0' as <- <-. pose proof (fm_now _ _ _ _ _ _ _ _ G) as Hf2. rewrite Hf1, Hf2 in S12. apply Forall2_cons in S12 as [S12 _].
  assert (ds' = d :: ds) as ->. { pose proof (fm_blocks _ _ _ _ _ _ _ _ G) as Hg. rewrite (al_bl _ _ S12), Hb1 in Hg. cbn [fmap list_fmap] in Hg. rewrite Hblk in Hg. change (d :: ds ++ (strip <$> bl f0)) with ((d :: ds) ++ (strip <$> bl f0)) in Hg. by apply app_inv_tail in Hg. }
  clear F Hf1 Hb1 Hblk S12. pose proof G as [G1 G2 G3 G4 G5 G6 G7 G8 G9 G10 G11 G12 G13 G14 G15 G16 G17]. cbn [nested] in G9. destruct G9 as (N1 & N2 & N3 & N4). pose proof (nested_le _ _ _ _ _ _ _ N4) as N5.
  assert (bl_nactvar b = bl_nactvar d /\ bl_firstlabel b = bl_firstlabel d /\ bl_firstgoto b = bl_firstgoto d) as (D1 & D2 & D3) by (by subst d).
  apply parser_bind_inv in E as ([] & s3 & E3 & E). apply parser_bind_inv in E as ([] & s4 & E4 & E). apply parser_bind_inv in E as ([] & s5 & E5 & E). apply parser_bind_inv in E as ([] & s6 & E6 & E).
  destruct (leave_scope s2 s6 f2 o2 b bs1 Hf2 Hl2 ltac:(lia)) as (f6 & Hf6 & Hl6 & U1 & U2 & U3 & U4 & U5 & U6 & U7 & U8).
  { unfold mbind, parser_bind. by rewrite E3, E4, E5. }
  assert (frame s0 f0 o0 ds 0 s6 f6 o2) as F6.
  { assert (0 <= bl_firstlabel d <= zlen (label s2)) as Hfl by lia. assert (zlen (actvar s2) - (nactvar (pf f2) - bl_nactvar b) = firstlocal f0 + bl_nactvar d) as Hcut by lia. rewrite Hcut in U5. split; try done; try congruence.
    - rewrite <- G8, Hf6, Hf2. by apply last_head.
    - rewrite U4, U6, U7, D1, D2, zlen_upto by lia. eapply nested_top; [exact N4|]. destruct ds as [|d2 ds2]; cbn [nested] in N4; lia.
    - rewrite U4, U5, D1, zlen_upto by lia. lia.
    - rewrite U4. lia.
    - rewrite U5, upto_upto by lia. exact G13.
    - rewrite U7, D2, upto_upto by lia. exact G14.
    - rewrite Hf6 in Hl6. destruct Hl6 as (_ & _ & [_ [_ He]] & _). lia. }
  assert (inside s0 n 0 s6) as Hi6 by (exists f0, o0, ds, f6, o2; split; [by injection Hn|exact F6]). pose proof (frame_bounds _ _ _ _ _ _ _ _ F6) as (_ & B6 & _). pose proof (frame_floor _ _ _ _ _ _ _ _ F6 bl_firstgoto ltac:(done)) as Hfg.
  apply parser_bind_inv in E as (gl & s7 & E7 & E). injection E7 as <- <-. assert (floor bl_firstgoto s6 <= bl_firstgoto d) as Hlow by (rewrite Hfg; destruct ds as [|d2 ds2]; cbn [nested] in N4; lia).
  destruct (regots_movegotos_loop (floor bl_firstgoto s6) _ (Z.to_nat (bl_firstgoto b)) b ltac:(lia) _ _ _ Hl6 (proj2 B6) E) as [Hl7 R7]. split; [done|]. by eapply regot_inside.
Qed.

(** ** Functions *)

(** A function that was just opened: its block begins with the lists as they are. *)
Record opened (s : PState) (g : PFunc) (o : list PFunc) (b : BlockCnt) : Prop := {
  op_funcs : funcs s = g :: o;
  op_bl : bl g = [b];
  op_loop : bl_isloop b = false;
  op_nact : bl_nactvar b = 0 /\ nactvar (pf g) = 0;
  op_label : bl_firstlabel b = zlen (label s);
  op_gt : bl_firstgoto b = zlen (gt s);
  op_first : firstlocal g = zlen (actvar s);
}.

Lemma opened_inside s g o b : opened s g o b -> inside s 0 0 s.
Proof.
  intros [O1 O2 O3 [O4 O5] O6 O7 O8]. exists g, o, [], g, o. split; [done|]. assert (floor bl_firstlabel s = zlen (label s) /\ floor bl_firstgoto s = zlen (gt s)) as [Ef Eg] by (unfold floor; by rewrite O1, O2).
  split; try done; rewrite ?Ef, ?Eg, ?O2; unfold zlen in *; try done; cbn [nested]; change MAXVARS with 200; lia.
Qed.

(** The end of a function gives back all it declared. *)
Record given_back (s : PState) (g : PFunc) (o : list PFunc) (s' : PState) (f : PFunc) (o' : list PFunc) : Prop := {
  gb_funcs : funcs s' = f :: o';
  gb_linked : linked (f :: o');
  gb_outer : Forall2 alike o o';
  gb_last : outermost_ups (f :: o') = outermost_ups (g :: o);
  gb_actvar : actvar s' = actvar s;
  gb_gt : gt s' = gt s;
  gb_label : label s' = label s;
  gb_calls : nCcalls s' = nCcalls s;
}.

Lemma upto_all {A} (l : list A) : upto (zlen l) l = l.
Proof. unfold upto, zlen. by rewrite Nat2Z.id, firstn_all. Qed.

Lemma upto_eq {A} n (l l' : list A) : zlen l = n -> zlen l' = n -> upto n l = upto n l' -> l = l'.
Proof. intros <- E. rewrite upto_all. rewrite <- E at 1. by rewrite upto_all. Qed.

Lemma leaveblock_function s2 g o b s s' :
  opened s2 g o b -> inside s2 0 0 s -> linked (funcs s) -> leaveblock s = Ok ((), s') -> exists f o', given_back s2 g o s' f o'.
Proof.
  intros [O1 O2 O3 [O4 O5] O6 O7 O8] (g' & o2 & ds & f & o' & Hn & F) Hl E. apply nil_length_inv in Hn as ->. pose proof (fm_start _ _ _ _ _ _ _ _ F) as Hst. rewrite O1 in Hst. injection Hst as <- <-.
  assert (floor bl_firstlabel s2 = zlen (label s2) /\ floor bl_firstgoto s2 = zlen (gt s2)) as [Ef Eg] by (unfold floor; by rewrite O1, O2). pose proof F as [F1 F2 F3 F4 F5 F6 F7 F8 F9 F10 F11 F12 F13 F14 F15 F16 F17]. rewrite Ef, Eg in *. cbn [nested] in F9.
  unfold leaveblock in E. apply parser_bind_inv in E as (b' & s1 & E1 & E). apply current_block_inv in E1 as (-> & _ & f1 & o1 & bs1 & Hf1 & Hb1). rewrite F2 in Hf1. injection Hf1 as <- <-. rewrite Hb1, O2 in F4. cbn [fmap list_fmap app] in F4.
  destruct bs1 as [|? ?]; [|done]. assert (strip b' = strip b) as Hs by congruence. assert (bl_isloop b' = false /\ bl_nactvar b' = 0 /\ bl_firstlabel b' = zlen (label s2) /\ bl_firstgoto b' = zlen (gt s2)) as (D0 & D1 & D2 & D3).
  { split_and!; [rewrite <- O3; exact (f_equal bl_isloop Hs)|rewrite <- O4; exact (f_equal bl_nactvar Hs)|rewrite <- O6; exact (f_equal bl_firstlabel Hs)|rewrite <- O7; exact (f_equal bl_firstgoto Hs)]. }
  apply parser_bind_inv in E as (bs & s1 & E1 & E). unfold getfunc in E1. rewrite F2 in E1. injection E1 as <- <-. rewrite Hb1 in E. cbn [tail length Nat.eqb negb andb] in E. cbv zeta in E. apply parser_bind_inv in E as ([] & s3 & E3 & E). injection E3 as <-.
  rewrite D0 in E. apply parser_bind_inv in E as ([] & s3 & E3 & E). injection E3 as <-. apply parser_bind_inv in E as ([] & s3 & E3 & E). apply parser_bind_inv in E as ([] & s4 & E4 & E). apply parser_bind_inv in E as ([] & s5 & E5 & E). apply parser_bind_inv in E as ([] & s6 & E6 & E).
  destruct (leave_scope s s6 f o' b' [] F2 Hl ltac:(lia)) as (f6 & Hf6 & Hl6 & U1 & U2 & U3 & U4 & U5 & U6 & U7 & U8).
  { unfold mbind, parser_bind. by rewrite E3, E4, E5. }
  apply parser_bind_inv in E as (gl & s7 & E7 & E). injection E7 as <- <-. rewrite U6, D3 in E. fold (zlen (gt s)) in E. destruct (Z.ltb_spec (zlen (gt s2)) (zlen (gt s))) as [|Hge]; [done|]. injection E as <-. rewrite Hf6 in Hl6.
  assert (0 <= zlen (actvar s2)) by (unfold zlen; lia). assert (0 <= zlen (label s2)) by (unfold zlen; lia). replace (zlen (actvar s) - (nactvar (pf f) - bl_nactvar b')) with (zlen (actvar s2)) in U5 by lia.
  exists f6, o'. split; try done; try congruence.
  - rewrite <- O1, <- F8, F2. by apply last_head.
  - rewrite U5. rewrite O5, Z.add_0_r, O8 in F13. by rewrite F13, upto_all.
  - rewrite U6. apply (upto_eq (zlen (gt s2))); [lia|done|exact F15].
  - rewrite U7, D2, F14. by rewrite upto_all.
Qed.

Section Bodies.
Context `{LuaNumber}.

Lemma keeps_emit_prev {A} (m : coder A) : lineless m -> keeps (emit_prev m).
Proof.
  intros Hm s a s' Hl. unfold emit_prev. destruct (funcs s) as [|f [|g o]] eqn:Hf; [done|done|]. destruct (m _) as [[b c]|] eqn:E; [|done]. intros [= <- <-]. cbn [linked] in Hl. destruct Hl as (L1 & L2 & L3 & L4 & Lg).
  assert (consts (set_lastline (LuaLex.lastline (ls s)) (pf g))) as Hc by apply Lg. destruct (lineless_keeps _ _ _ _ Hm Hc E) as [Hn Hc']. split.
  - cbn [funcs set_funcs]. do 4 (split; [done|]). by apply (linked_unchanged g).
  - split; try done. cbn [funcs set_funcs]. rewrite Hf. split; [constructor; [done|]; constructor; [by split|done]|]. unfold outermost_ups. rewrite !last_cons_some. by apply last_head.
Qed.

Lemma keeps_codeclosure : keeps codeclosure.
Proof.
  intros s a s' Hl E. unfold codeclosure in E. destruct (funcs s) as [|f [|g o]] eqn:Hf; [done|done|]. rewrite <- Hf in Hl. revert Hl E. generalize (np g - 1). intros n.
  assert (keeps (i ← emit_prev (luaK_codeABx OP_CLOSURE 0 n); emit_prev (luaK_exp2nextreg (init_exp (VRELOCABLE i))))) as Hk by (apply keeps_bind; [apply keeps_emit_prev, ll_codeABx|intros i; apply keeps_emit_prev, ll_exp2nextreg]).
  by apply Hk.
Qed.

Lemma codeclosure_outer s a s' : codeclosure s = Ok (a, s') -> exists f g o, funcs s = f :: g :: o.
Proof. unfold codeclosure. destruct (funcs s) as [|f [|g o]]; try done. intros _. by exists f, g, o. Qed.

(** The prototype of a closed function, and the state around it. *)
Lemma close_func_spec source s2 g o b s pr s' :
  opened s2 g o b -> inside s2 0 0 s -> linked (funcs s) -> close_func source s = Ok (pr, s') ->
  exists f o' s1, given_back s2 g o s1 f o' /\ s' = set_funcs o' s1 /\ LuaDump.upvalues pr = upvalues f /\ p pr = protos f /\ LuaDump.locvars pr = locvars f.
Proof.
  intros Ho Hi Hl E. unfold close_func in E. apply parser_bind_inv in E as ([] & s1 & E1 & E). eapply keeps_part in E1 as [Hl1 Hi1]; [|apply keeps_emit, ll_ret_code|exact Hl|exact Hi].
  apply parser_bind_inv in E as ([] & s3 & E3 & E). destruct (leaveblock_function _ _ _ _ _ _ Ho Hi1 Hl1 E3) as (f & o' & G). apply parser_bind_inv in E as (f' & s4 & E4 & E). unfold getfunc in E4. rewrite (gb_funcs _ _ _ _ _ _ G) in E4. injection E4 as <- <-.
  change (id f) with f in E. destruct (close_proto source f) as [pr'|] eqn:Ec; [|done]. cbn in E. injection E as -> <-. exists f, o', s3. split; [exact G|]. split; [by rewrite (gb_funcs _ _ _ _ _ _ G)|].
  unfold close_proto in Ec. destruct (mapM _ _); [|done]. cbn in Ec. by injection Ec as <-.
Qed.

Lemma open_func_opened ln s s' : linked (funcs s) -> open_func ln s = Ok ((), s') ->
  exists g b, opened s' g (funcs s) b /\ linked (funcs s') /\ upvalues g = [] /\ actvar s' = actvar s /\ gt s' = gt s /\ label s' = label s /\ nCcalls s' = nCcalls s /\ envn s' = envn s.
Proof.
  intros Hl E. unfold open_func, enterblock, mbind, parser_bind in E. cbn in E. injection E as <-. do 2 eexists. cbn [funcs set_funcs linked]. split; [by split|]. split_and!; try done; cbn; try (by constructor); try lia. destruct (funcs s); [done|constructor].
Qed.
End Bodies.
#[export] Hint Resolve keeps_next keeps_testnext keeps_check keeps_checknext keeps_check_match keeps_str_checkname keeps_singlevar keeps_fieldsel keeps_expr keeps_explist keeps_suffixedexp keeps_subexpr : scope.
