(* ===== verification/LuaScopeStat.v ===== *)
(** * Scopes of the parser: statements

    Every statement of lparser.c leaves the scopes as [LuaScope] says: it gives back the
    blocks it opened, all variables it declared are active, and the lists of labels and
    gotos are as before up to the beginning of its block.  A function gives back everything,
    and the whole text leaves nothing open. *)

From S2P Require Import Prelude LuaStr LuaZio LuaDump LuaLex LuaOp LuaNumber LuaCode LuaLines LuaParse LuaStat LuaScope.

(** ** Rules *)

Lemma part_eq {A} n kk kk' (m : parser A) n' K K' : part n kk m n' K -> kk' = kk -> (forall a, K' a = K a) -> part n kk' m n' K'.
Proof. intros Hm -> HK s0 s a s' Hl Hi E. rewrite HK. by eapply Hm. Qed.

(** The number of pending variables is not negative. *)
Lemma part_pending {A} n kk (m : parser A) n' K : (0 <= kk -> part n kk m n' K) -> part n kk m n' K.
Proof. intros Hm s0 s a s' Hl Hi E. assert (0 <= kk) as Hk by (destruct Hi as (? & ? & ? & ? & ? & _ & F); apply (fm_pending _ _ _ _ _ _ _ _ F)). by eapply Hm. Qed.

(** With what is known of the result of the first part. *)
Lemma part_bind_post {A B} (Q : A -> Prop) n kk (m : parser A) n1 K (f : A -> parser B) n2 K2 :
  part n kk m n1 K -> (forall s a s', m s = Ok (a, s') -> Q a) -> (forall a, Q a -> part n1 (K a) (f a) n2 K2) -> part n kk (m ≫= f) n2 K2.
Proof. intros Hm HQ Hf s0 s b s' Hl Hi E. apply parser_bind_inv in E as (a & s1 & E1 & E). destruct (Hm _ _ _ _ Hl Hi E1) as [Hl1 Hi1]. eapply Hf; eauto. Qed.

Create HintDb parts.
#[export] Hint Resolve part_new_localvar part_enterblock part_leaveblock part_findgotos : parts.
#[export] Hint Extern 3 (part _ _ (adjustlocalvars _) _ _) => apply part_adjust; lia : parts.

Ltac part_one := first [apply keeps_part; solve [scope] | solve [eauto with parts] | apply whole_part; solve [eauto with parts]].
Ltac parts_step :=
  match goal with
  | |- part _ _ (_ ≫= _) _ _ => eapply part_bind; [part_one|intros ?; cbv beta]
  | |- part _ _ (match ?x with _ => _ end) _ _ => destruct x
  | |- part _ _ (failp _) _ _ => apply part_fail
  end.
Ltac parts := cbv zeta beta; repeat parts_step; try part_one; try (apply part_ret; lia).

Lemma keeps_block_follow b : keeps (block_follow b).
Proof. unfold block_follow. scope. Qed.
Lemma keeps_current_block : keeps current_block.
Proof. unfold current_block. scope. Qed.
#[export] Hint Resolve keeps_block_follow keeps_current_block : scope.
Lemma keeps_checkrepeated x : keeps (checkrepeated x).
Proof. unfold checkrepeated. scope. Qed.
Lemma keeps_check_conflict lh v : keeps (check_conflict lh v).
Proof. unfold check_conflict. scope. Qed.
#[export] Hint Resolve keeps_checkrepeated keeps_check_conflict : scope.

Section Simple.
Context `{LuaNumber} (luaO_str2d : bytes -> option Z) (lexfuel : nat).

Lemma keeps_adjust_assign nvars nexps e : keeps (adjust_assign nvars nexps e).
Proof. unfold adjust_assign. scope. Qed.
Lemma keeps_store_default lh : keeps (store_default lh).
Proof. unfold store_default. scope. Qed.
Lemma keeps_funcname_loop n v : keeps (funcname_loop luaO_str2d lexfuel n v).
Proof. revert v. induction n as [|n IH]; intros v; cbn [funcname_loop]; scope. Qed.
Hint Resolve keeps_funcname_loop : scope.
Lemma keeps_funcname n : keeps (funcname luaO_str2d lexfuel n).
Proof. unfold funcname. scope. Qed.

(** The variables of a list are pending. *)
Lemma part_names_loop n kk f m : part n kk (names_loop luaO_str2d lexfuel f m) n (fun a => kk + (a - m)).
Proof.
  revert kk m. induction f as [|f IH]; intros kk m; cbn [names_loop]; [apply part_fail|]. eapply part_bind; [part_one|]. intros [|]; cbv beta; [|apply part_ret; lia].
  eapply part_bind; [part_one|]. intros x. eapply part_bind; [part_one|]. intros ?. eapply part_eq; [apply IH|done|]. cbv beta. lia.
Qed.

Lemma names_loop_ge f m s a s' : names_loop luaO_str2d lexfuel f m s = Ok (a, s') -> m <= a.
Proof.
  revert m s. induction f as [|f IH]; intros m s E; cbn [names_loop] in E; [done|]. apply parser_bind_inv in E as ([|] & s1 & _ & E); [|injection E as <- _; lia].
  apply parser_bind_inv in E as (x & s2 & _ & E). apply parser_bind_inv in E as (y & s3 & _ & E). apply IH in E. lia.
Qed.

Lemma part_parlist_loop n f m : part n m (parlist_loop luaO_str2d lexfuel f m) n (fun a => a).
Proof.
  revert m. induction f as [|f IH]; intros m; cbn [parlist_loop]; [apply part_fail|]. eapply part_bind; [part_one|]. intros t. cbv beta. eapply (part_bind _ _ _ n (fun a => a)).
  - parts.
  - intros nparams. parts.
Qed.
Hint Resolve part_parlist_loop : parts.

Lemma part_parlist n f : part n 0 (parlist luaO_str2d lexfuel f) n (fun _ => 0).
Proof.
  unfold parlist. do 2 (eapply part_bind; [part_one|]; intros ?; cbv beta). eapply (part_bind _ _ _ n (fun a => a)).
  - parts.
  - intros nparams. apply part_pending. intros Hp. eapply part_eq; [|done|]; [parts|]. cbn. lia.
Qed.
End Simple.
#[export] Hint Resolve keeps_adjust_assign keeps_store_default keeps_funcname : scope.
#[export] Hint Resolve part_names_loop part_parlist : parts.

(** ** Functions *)

Lemma keeps_addprototype : keeps addprototype.
Proof. unfold addprototype. scope. Qed.

(** The prototype of a function goes to the enclosing function. *)
Lemma linked_proto f g o n pr : linked (f :: g :: o) -> LuaDump.upvalues pr = upvalues f /\ p pr = protos f /\ LuaDump.locvars pr = locvars f -> linked (with_protos g n (protos g ++ [pr]) :: o).
Proof.
  intros (L1 & L2 & L3 & L4 & M1 & M2 & M3 & M4 & M5) (Hu & Hp & Hv). cbn [linked pf upvalues locvars protos with_protos]. split; [done|]. split; [|done]. apply Forall_app. split; [done|]. constructor; [|done]. split; by rewrite ?Hu, ?Hp, ?Hv.
Qed.

Ltac run E Hl Hi :=
  let a := fresh "a" in let s1 := fresh "r" in let E1 := fresh "Er" in let Hp := fresh "Hp" in let Hl1 := fresh "Hl" in let Hi1 := fresh "Hi" in
  apply parser_bind_inv in E as (a & s1 & E1 & E);
  match type of E1 with ?m ?s = _ => assert (part 0 0 m 0 (fun _ => 0)) as Hp by parts; destruct (Hp _ _ _ _ Hl Hi E1) as [Hl1 Hi1]; clear Hp E1 Hl Hi; rename Hl1 into Hl; rename Hi1 into Hi end.

Section Statements.
Context `{LuaNumber} (luaO_str2d : bytes -> option Z) (lexfuel : nat) (source : bytes) (statement : parser unit) (fuel : nat).
Hypothesis whole_statement : whole statement.
Hint Resolve whole_statement : parts.

Lemma whole_statlist_loop n : whole (statlist_loop statement n).
Proof. apply part_whole. induction n as [|n IH]; cbn [statlist_loop]; [apply part_fail|]. parts. Qed.
Lemma whole_statlist : whole (statlist statement fuel).
Proof. apply whole_statlist_loop. Qed.
Hint Resolve whole_statlist : parts.
Hint Resolve keeps_codeclosure : scope.

Lemma keeps_body ismethod ln : keeps (body luaO_str2d lexfuel source statement fuel ismethod ln).
Proof.
  intros s e s' Hl E. unfold body in E. apply parser_bind_inv in E as ([] & s1 & E1 & E). destruct (keeps_addprototype _ _ _ Hl E1) as [Hl1 S1]. apply parser_bind_inv in E as ([] & s2 & E2 & E).
  destruct (open_func_opened _ _ _ Hl1 E2) as (g & b & Ho & Hl2 & Hu & Ha & Hg & Hb & Hc & _). pose proof (opened_inside _ _ _ _ Ho) as Hi2. clear E1 E2 Hl. do 9 (run E Hl2 Hi2).
  apply parser_bind_inv in E as (pr & s3 & E3 & E). destruct (close_func_spec source _ _ _ _ _ _ _ Ho Hi2 Hl2 E3) as (f & o' & s4 & [G1 G2 G3 G4 G5 G6 G7 G8] & -> & Hpr).
  apply parser_bind_inv in E as ([] & s5 & E5 & E). injection E as _ <-. unfold putfunc in E5. cbn [funcs set_funcs] in E5. destruct o' as [|h o']; [done|]. injection E5 as <-. split; [by eapply linked_proto|].
  etrans; [exact S1|]. split; cbn [funcs set_funcs actvar gt label nCcalls]; try congruence. inversion G3 as [|x y l1 l2 Hxy Hrest E1]; subst. split; [constructor; [by etrans|done]|].
  unfold outermost_ups in *. rewrite <- E1 in G4. rewrite !last_cons_some in G4. rewrite <- G4. by apply last_head.
Qed.
Hint Resolve keeps_body : scope.

Abbreviation subexpr := (subexpr luaO_str2d lexfuel (body luaO_str2d lexfuel source statement fuel) fuel).

Lemma keeps_sub lim : keeps (subexpr lim).
Proof. apply keeps_subexpr. intros. apply keeps_body. Qed.
Hint Resolve keeps_sub : scope.

Lemma keeps_assignment n lh prev nvars : keeps (assignment luaO_str2d lexfuel source statement fuel n lh prev nvars).
Proof. revert lh prev nvars. induction n as [|n IH]; intros lh prev nvars; cbn [assignment]; scope. Qed.
Lemma keeps_cond : keeps (cond luaO_str2d lexfuel source statement fuel).
Proof. unfold cond. scope. Qed.
Lemma keeps_exp1 : keeps (exp1 luaO_str2d lexfuel source statement fuel).
Proof. unfold exp1. scope. Qed.
Lemma keeps_return_values : keeps (return_values luaO_str2d lexfuel source statement fuel).
Proof. unfold return_values. scope. Qed.
Hint Resolve keeps_assignment keeps_cond keeps_exp1 keeps_return_values : scope.
Lemma keeps_exprstat : keeps (exprstat luaO_str2d lexfuel source statement fuel).
Proof. unfold exprstat. scope. Qed.
Lemma keeps_retstat : keeps (retstat luaO_str2d lexfuel source statement fuel).
Proof. unfold retstat. scope. Qed.
Lemma keeps_funcstat ln : keeps (funcstat luaO_str2d lexfuel source statement fuel ln).
Proof. unfold funcstat. scope. Qed.
Hint Resolve keeps_exprstat keeps_retstat keeps_funcstat : scope.

(** *** Gotos and labels *)

(** A goto at the end of the list. *)
Lemma part_new_goto n name ln pc :
  part n 0 (gl ← getp gt; t ← newlabelentry (length gl) name ln pc; _ ← putp (set_gt (gl ++ [t])); _ ← findlabel (length gl); mret ()) n (fun _ => 0).
Proof.
  apply regots_part. intros s a s' Hl Hb E. apply parser_bind_inv in E as (gl & s1 & E1 & E). injection E1 as <- <-. apply parser_bind_inv in E as (t & s1 & E1 & E). destruct (keeps_newlabelentry _ _ _ _ _ _ _ Hl E1) as [Hl1 [S1 S2 S3 S4 S5]].
  apply parser_bind_inv in E as ([] & s2 & E2 & E). injection E2 as <-. destruct (upto_app (floor bl_firstgoto s) (gt s) [t] Hb) as [U1 U2]. assert (regot (floor bl_firstgoto s) s (set_gt (gt s ++ [t]) s1)) as R by (by split).
  apply parser_bind_inv in E as (b & s3 & E3 & E). injection E as _ <-. eapply regots_findlabel in E3 as [Hl3 R3]; [|exact Hb|exact Hl1|exact U2]. split; [done|by eapply regot_trans].
Qed.

Lemma part_gotostat n pc : part n 0 (gotostat luaO_str2d lexfuel pc) n (fun _ => 0).
Proof. unfold gotostat. do 3 (eapply part_bind; [part_one|]; intros ?; cbv beta). apply part_new_goto. Qed.
Hint Resolve part_gotostat : parts.

Lemma whole_skipnoopstat : whole (skipnoopstat statement fuel).
Proof. apply part_whole. unfold skipnoopstat. generalize fuel. intros n. induction n as [|n IH]; cbn [skipnoop_loop]; [apply part_fail|]. parts. Qed.
Hint Resolve whole_skipnoopstat : parts.

Lemma inside_floor g s kk s' : (forall b, g (strip b) = g b) -> inside s 0 kk s' -> floor g s' = floor g s.
Proof. intros Hg (f0 & o0 & ds & f & o & Hn & F). apply nil_length_inv in Hn as ->. by rewrite (frame_floor _ _ _ _ _ _ _ _ F). Qed.

Lemma upto_alter {A} m (g : A -> A) i (l : list A) : m <= Z.of_nat i -> upto m (alter g i l) = upto m l.
Proof.
  intros Hi. unfold upto. apply list_eq. intros j. destruct (decide (j < Z.to_nat m)%nat) as [Hj|Hj]; [|by rewrite !lookup_take_ge by lia]. rewrite !lookup_take_lt by done. rewrite list_lookup_alter_ne; [done|lia].
Qed.

(** The label gets the level of the block when nothing follows it. *)
Lemma whole_labelstat name ln : whole (labelstat luaO_str2d lexfuel statement fuel name ln).
Proof.
  apply part_whole. unfold labelstat. do 2 (eapply part_bind; [part_one|]; intros ?; cbv beta). apply whole_part. intros s a2 s' Hl Hi E. apply parser_bind_inv in E as (labels & s1 & E1 & E). injection E1 as <- <-. cbv zeta in E. pose proof (inside_bounds _ _ _ _ Hi) as [Hb _].
  assert (forall x, keeps (here ← emit (getfs pc); newlabelentry x name ln here)) as Hk by (intros x; scope). apply parser_bind_inv in E as (here & s1 & E1 & E). apply parser_bind_inv in E as (lb & s2 & E2 & E).
  assert ((here ← emit (getfs pc); newlabelentry (length (label s)) name ln here) s = Ok (lb, s2)) as E3 by (unfold mbind, parser_bind; by rewrite E1). destruct (Hk _ _ _ _ Hl E3) as [Hl2 S2]. eapply keeps_part in E3 as [_ Hi2]; [|apply Hk|exact Hl|exact Hi].
  apply parser_bind_inv in E as ([] & s3 & E4 & E). injection E4 as <-. eapply append_label in Hi2; [|exact S2]. change (linked (funcs (set_label (label s ++ [lb]) s2))) in Hl2. do 2 (run E Hl2 Hi2). apply parser_bind_inv in E as ([] & s4 & E4 & E).
  assert (linked (funcs s4) /\ inside s 0 0 s4) as [Hl4 Hi4].
  { match type of E4 with context [if ?x then _ else _] => destruct x end; [|by injection E4 as <-]. apply parser_bind_inv in E4 as (b & s5 & E5 & E4). apply current_block_inv in E5 as (-> & _). injection E4 as <-. split; [done|]. pose proof (inside_bounds _ _ _ _ Hi2) as [Hb2 _]. assert (floor bl_firstlabel r0 = floor bl_firstlabel s) as Hfl by (by eapply inside_floor).
    apply inside_label; [done|apply upto_alter; unfold zlen in Hb; lia|]. unfold zlen in *. rewrite length_alter. lia. }
  apply parser_bind_inv in E as (labels & s5 & E5 & E). injection E5 as <- <-. destruct (label s4 !! _) as [lb'|]; [|done]. eapply part_findgotos in E; [|exact Hl4|exact Hi4]. exact E.
Qed.
Hint Resolve whole_labelstat : parts.

(** *** Blocks and loops *)

Lemma part_block n : part n 0 (block statement fuel) n (fun _ => 0).
Proof. unfold block. parts. Qed.
Hint Resolve part_block : parts.

Lemma keeps_jumpto t : keeps (emit (luaK_jumpto t)).
Proof. unfold luaK_jumpto. scope. Qed.
Hint Resolve keeps_jumpto : scope.

Lemma part_whilestat n : part n 0 (whilestat luaO_str2d lexfuel source statement fuel) n (fun _ => 0).
Proof. unfold whilestat. parts. Qed.

Lemma part_repeatstat n : part n 0 (repeatstat luaO_str2d lexfuel source statement fuel) n (fun _ => 0).
Proof. unfold repeatstat. parts. Qed.

(** The three control variables and the [nvars] declared ones are pending. *)
Lemma part_forbody n base ln nvars isnum kk : 0 <= nvars -> kk = 3 + nvars -> part n kk (forbody luaO_str2d lexfuel statement fuel base ln nvars isnum) n (fun _ => 0).
Proof.
  intros Hn ->. unfold forbody. do 5 (eapply part_bind; [part_one|]; intros ?; cbv beta). replace (3 + nvars - 3 - nvars) with 0 by lia. parts.
Qed.

Lemma part_fornum n name ln : part n 0 (fornum luaO_str2d lexfuel source statement fuel name ln) n (fun _ => 0).
Proof. unfold fornum. do 11 (eapply part_bind; [part_one|]; intros ?; cbv beta). by apply part_forbody. Qed.

Lemma part_forlist n name : part n 0 (forlist luaO_str2d lexfuel source statement fuel name) n (fun _ => 0).
Proof.
  unfold forlist. do 5 (eapply part_bind; [part_one|]; intros ?; cbv beta). eapply (part_bind_post (fun a => 4 <= a)); [apply part_names_loop|by apply names_loop_ge|]. intros nvars Hn. cbv beta.
  do 2 (eapply part_bind; [part_one|]; intros ?; cbv beta). eapply part_bind; [part_one|]. intros [nexps e]. do 2 (eapply part_bind; [part_one|]; intros ?; cbv beta). apply part_forbody; lia.
Qed.
Hint Resolve part_fornum part_forlist : parts.

Lemma part_forstat n ln : part n 0 (forstat luaO_str2d lexfuel source statement fuel ln) n (fun _ => 0).
Proof.
  unfold forstat. do 4 (eapply part_bind; [part_one|]; intros ?; cbv beta). eapply (part_bind _ _ _ (S n) (fun _ => 0)); [parts|]. intros ?. parts.
Qed.

(** *** Conditionals *)

Lemma part_then_part n esc jf : part (S n) 0 (then_part statement fuel esc jf) n (fun _ => 0).
Proof. unfold then_part. parts. Qed.
Hint Resolve part_then_part : parts.

Lemma part_test_then_block n esc : part n 0 (test_then_block luaO_str2d lexfuel source statement fuel esc) n (fun _ => 0).
Proof. unfold test_then_block. parts. Qed.
Hint Resolve part_test_then_block : parts.

Lemma part_elseif_loop n f esc : part n 0 (elseif_loop luaO_str2d lexfuel source statement fuel f esc) n (fun _ => 0).
Proof. revert esc. induction f as [|f IH]; intros esc; cbn [elseif_loop]; [apply part_fail|]. parts. Qed.
Hint Resolve part_elseif_loop : parts.

Lemma part_ifstat n : part n 0 (ifstat luaO_str2d lexfuel source statement fuel) n (fun _ => 0).
Proof.
  unfold ifstat. do 3 (eapply part_bind; [part_one|]; intros ?; cbv beta). eapply (part_bind _ _ _ n (fun _ => 0)); [parts|]. intros ?. parts.
Qed.

(** *** Definitions *)

Lemma part_localfunc n : part n 0 (localfunc luaO_str2d lexfuel source statement fuel) n (fun _ => 0).
Proof. unfold localfunc. parts. Qed.

Lemma part_localstat n : part n 0 (localstat luaO_str2d lexfuel source statement fuel) n (fun _ => 0).
Proof.
  unfold localstat. do 2 (eapply part_bind; [part_one|]; intros ?; cbv beta). eapply part_bind; [apply part_names_loop|]. intros nvars. apply part_pending. cbv beta. intros Hn.
  do 2 (eapply part_bind; [part_one|]; intros ?; cbv beta). match goal with |- part _ _ (match ?x with _ => _ end) _ _ => destruct x as [nexps e] end. eapply part_bind; [part_one|]. intros ?. cbv beta. eapply part_eq; [apply part_adjust|done|]; [|cbv beta]; lia.
Qed.
Hint Resolve part_whilestat part_repeatstat part_forstat part_ifstat part_localfunc part_localstat : parts.

(** *** All statements *)

Lemma inside_calls s n kk s' c c' : inside (set_ccalls c s) n kk s' -> nCcalls s = c' -> inside s n kk (set_ccalls c' s').
Proof. intros (f0 & o0 & ds & f & o & Hn & [F1 F2 F3 F4 F5 F6 F7 F8 F9 F10 F11 F12 F13 F14 F15 F16 F17]) Hc. exists f0, o0, ds, f, o. split; [done|]. by split. Qed.

Lemma inside_start s c : inside s 0 0 s -> inside (set_ccalls c s) 0 0 (set_ccalls c s).
Proof. intros (f0 & o0 & ds & f & o & Hn & [F1 F2 F3 F4 F5 F6 F7 F8 F9 F10 F11 F12 F13 F14 F15 F16 F17]). exists f0, o0, ds, f, o. split; [done|]. by split. Qed.

Lemma inside_ccalls s n kk s' : inside s n kk s' -> nCcalls s' = nCcalls s.
Proof. intros (f0 & o0 & ds & f & o & Hn & F). apply (fm_calls _ _ _ _ _ _ _ _ F). Qed.

Lemma whole_statement_rule : whole (statement_rule luaO_str2d lexfuel source statement fuel).
Proof.
  intros s a s' Hl Hi E. unfold statement_rule in E. apply parser_bind_inv in E as (ln & s1 & E1 & E). injection E1 as <- <-. apply parser_bind_inv in E as ([] & s1 & E1 & E). apply enterlevel_inv in E1 as ->.
  pose proof (inside_start s (nCcalls s + 1) Hi) as Hi1. change (linked (funcs (set_ccalls (nCcalls s + 1) s))) in Hl. do 3 (run E Hl Hi1). injection E as _ <-. pose proof (inside_ccalls _ _ _ _ Hi1) as Hc. split; [done|]. eapply inside_calls; [exact Hi1|]. cbn in Hc. lia.
Qed.
End Statements.

Section Programs.
Context `{LuaNumber} (luaO_str2d : bytes -> option Z) (lexfuel : nat) (source : bytes).

Lemma statement_whole fuel : whole (statement luaO_str2d lexfuel source fuel).
Proof. induction fuel as [|fuel IH]; cbn [statement]; [done|]. by apply whole_statement_rule. Qed.

(** The scopes of a text when it was read: no function, variable, label or goto is left, the
    counted calls are as before; the main function has the upvalue [env] only and the
    functions in it refer to what their enclosing functions have. *)
Record all_closed (env : bytes) (ccalls : Z) (pr : Proto) (s : PState) : Prop := {
  ac_funcs : funcs s = [];
  ac_actvar : actvar s = [];
  ac_gt : gt s = [];
  ac_label : label s = [];
  ac_calls : nCcalls s = ccalls;
  ac_upvalues : LuaDump.upvalues pr = [MkUpvaldesc (Some env) 1 0];
  ac_protos : Forall (closed_proto (length (LuaDump.locvars pr)) 1) (p pr);
}.

Lemma mainfunc_closed fuel ls env ccalls pr s' :
  mainfunc luaO_str2d lexfuel source fuel (MkP ls [] [] [] [] env ccalls) = Ok (pr, s') -> all_closed env ccalls pr s'.
Proof.
  intros E. unfold mainfunc in E. apply parser_bind_inv in E as ([] & s1 & E1 & E). injection E1 as <-. do 4 (apply parser_bind_inv in E as (? & ? & E1 & E); injection E1 as <- <-).
  match type of E with _ ?st = _ => assert (opened st (head_func st) [] (MkBlock 0 0 0 false false)) as Ho by (by split); assert (linked (funcs st)) as Hl by (cbn; split_and!; try (by constructor); cbn; lia) end.
  pose proof (opened_inside _ _ _ _ Ho) as Hi. pose proof (statement_whole fuel) as Hst. pose proof (whole_statlist _ fuel Hst) as Hsl. do 3 (run E Hl Hi).
  destruct (close_func_spec source _ _ _ _ _ _ _ Ho Hi Hl E) as (f & o' & s4 & [G1 G2 G3 G4 G5 G6 G7 G8] & -> & Hpr). apply Forall2_nil_inv_l in G3 as ->. injection G4 as G4. destruct G2 as (_ & G2 & _). destruct Hpr as (Hup & Hpp & Hlv). rewrite G4 in G2, Hup. split; try done. by rewrite Hpp, Hlv.
Qed.

(** C3. A text that [luaY_parser] accepts leaves nothing open: what the code asserts at its end
    (no open function, all scopes finished) holds, the calls it counted were given back, the
    main function has one upvalue, [_ENV], and every upvalue of a function nested in it, at
    any depth, is one of the local variables or one of the upvalues of the function around
    it. *)
Theorem luaY_parser_closed fuel ccalls z firstchar pr n :
  luaY_parser luaO_str2d lexfuel fuel ccalls z source firstchar = Ok (pr, n) ->
  exists s, mainfunc luaO_str2d lexfuel source fuel (MkP (luaX_setinput z firstchar) [] [] [] [] LUA_ENV ccalls) = Ok (pr, s) /\
    all_closed LUA_ENV ccalls pr s /\ n = zlen (LuaDump.upvalues pr).
Proof.
  unfold luaY_parser. destruct (mainfunc _ _ _ _ _) as [[pr' s]|] eqn:E; [|done]. intros [= <- <-]. exists s. pose proof (mainfunc_closed _ _ _ _ _ _ E) as Hc. split_and!; [done|done|]. by rewrite (ac_upvalues _ _ _ _ Hc).
Qed.
End Programs.

(** "local t=1 function f(a) local function g() return t+a end while a do if t==a then goto z end a=g() end ::z:: for k in p do t=k end return g end", without its first letter. *)
Definition sample : bytes :=
  [111; 99; 97; 108; 32; 116; 61; 49; 32; 102; 117; 110; 99; 116; 105; 111; 110; 32; 102; 40; 97; 41; 32; 108; 111; 99; 97; 108; 32; 102; 117; 110;
   99; 116; 105; 111; 110; 32; 103; 40; 41; 32; 114; 101; 116; 117; 114; 110; 32; 116; 43; 97; 32; 101; 110; 100; 32; 119; 104; 105; 108; 101; 32; 97;
   32; 100; 111; 32; 105; 102; 32; 116; 61; 61; 97; 32; 116; 104; 101; 110; 32; 103; 111; 116; 111; 32; 122; 32; 101; 110; 100; 32; 97; 61; 103; 40; 41;
   32; 101; 110; 100; 32; 58; 58; 122; 58; 58; 32; 102; 111; 114; 32; 107; 32; 105; 110; 32; 112; 32; 100; 111; 32; 116; 61; 107; 32; 101; 110; 100; 32;
   114; 101; 116; 117; 114; 110; 32; 103; 32; 101; 110; 100].

Definition sample_numeral (s : bytes) : option Z := if decide (s = [49]) then Some 0x3ff0000000000000 else None.

(** Witness of C3: the text is accepted; its function [f] has the upvalue [t], a local of the main
    function, and [_ENV]; [g] has [t], the first upvalue of [f], and [a], a local of [f]. *)
Lemma luaY_parser_closed_witness :
  exists pr f g, @luaY_parser (double_number (fun x _ => x)) sample_numeral 300 30 0 (ZIO sample []) [61; 120] (Some 108) = Ok (pr, 1) /\
    p pr = [f] /\ p f = [g] /\
    (fun u => (name u, instack u, idx u)) <$> LuaDump.upvalues f = [(Some [116], 1, 0); (Some LUA_ENV, 0, 0)] /\
    (fun u => (name u, instack u, idx u)) <$> LuaDump.upvalues g = [(Some [116], 0, 0); (Some [97], 1, 0)] /\
    exists s, @mainfunc (double_number (fun x _ => x)) sample_numeral 300 [61; 120] 30 (MkP (luaX_setinput (ZIO sample []) (Some 108)) [] [] [] [] LUA_ENV 0) = Ok (pr, s) /\
      all_closed LUA_ENV 0 pr s /\ 1 = zlen (LuaDump.upvalues pr).
Proof.
  do 3 eexists. split; [vm_compute; reflexivity|]. do 4 (split; [vm_compute; reflexivity|]). apply (@luaY_parser_closed (double_number (fun x _ => x)) sample_numeral 300 [61; 120]). vm_compute. reflexivity.
Defined.
