(* ===== verification/LuaJump.v ===== *)
(** * Jump lists of the code generator

    Proof rules for [coder], the fields of instructions that are built or changed by the
    macros of [lopcodes.h], and the lists of jumps that [lcode.c] links through the jumps
    themselves: [luaK_concat] joins two lists, [patchlistaux] gives every jump of a list
    its target, [removevalues] and [need_value] visit the instructions that control the
    jumps. *)

From S2P Require Import Prelude LuaStr LuaOp LuaNumber LuaCode.

(** ** Total correctness of [coder] *)

Definition wpc {A} (m : coder A) (fs : FuncState) (Q : A -> FuncState -> Prop) : Prop :=
  match m fs with Ok (a, fs') => Q a fs' | Err _ => False end.

Lemma wpc_ret {A} (a : A) fs (Q : A -> FuncState -> Prop) : Q a fs -> wpc (mret a) fs Q.
Proof. done. Qed.

Lemma wpc_bind {A B} (m : coder A) (f : A -> coder B) fs Q :
  wpc m fs (fun a fs' => wpc (f a) fs' Q) -> wpc (m ≫= f) fs Q.
Proof. unfold wpc, mbind, coder_bind. by destruct (m fs) as [[a fs']|]. Qed.

Lemma wpc_mono {A} (m : coder A) fs (Q Q' : A -> FuncState -> Prop) :
  wpc m fs Q -> (forall a fs', Q a fs' -> Q' a fs') -> wpc m fs Q'.
Proof. unfold wpc. destruct (m fs) as [[a fs']|]; auto. Qed.

Lemma wpc_getfs {A} (f : FuncState -> A) fs (Q : A -> FuncState -> Prop) : Q (f fs) fs -> wpc (getfs f) fs Q.
Proof. done. Qed.

Lemma wpc_putfs f fs (Q : () -> FuncState -> Prop) : Q () (f fs) -> wpc (putfs f) fs Q.
Proof. done. Qed.

(** ** Fields of instructions *)

Definition abc_ok (a b c : Z) : Prop := 0 <= a < 256 /\ 0 <= b < 512 /\ 0 <= c < 512.

(** An instruction with three operands, and a jump by an offset. *)
Abbreviation ABC o a b c := (CREATE_ABC (opcode_Z o) a b c).
Definition JMP (a offset : Z) : Z := CREATE_ABx (opcode_Z OP_JMP) a (offset + MAXARG_sBx).

Definition sbx_ok (offset : Z) : Prop := - MAXARG_sBx <= offset <= MAXARG_sBx.

Lemma ABC_fields o a b c : abc_ok a b c ->
  GET_OPCODE (ABC o a b c) = opcode_Z o /\ GETARG_A (ABC o a b c) = a /\ GETARG_B (ABC o a b c) = b /\
  GETARG_C (ABC o a b c) = c /\ in_u 32 (ABC o a b c).
Proof.
  intros (Ha & Hb & Hc). pose proof (opcode_range o) as Ho.
  rewrite GET_OPCODE_field, GETARG_A_field, GETARG_B_field, GETARG_C_field, CREATE_ABC_sum by lia. unfold in_u. pow2.
  split_and!; Z.div_mod_to_equations; lia.
Qed.

Lemma ABx_fields o a bx : 0 <= a < 256 -> 0 <= bx < 2 ^ 18 ->
  GET_OPCODE (CREATE_ABx (opcode_Z o) a bx) = opcode_Z o /\ GETARG_A (CREATE_ABx (opcode_Z o) a bx) = a /\
  GETARG_Bx (CREATE_ABx (opcode_Z o) a bx) = bx /\ in_u 32 (CREATE_ABx (opcode_Z o) a bx).
Proof.
  intros Ha Hb. pose proof (opcode_range o) as Ho.
  rewrite GET_OPCODE_field, GETARG_A_field, GETARG_Bx_field, CREATE_ABx_sum by lia. unfold in_u. pow2.
  split_and!; Z.div_mod_to_equations; lia.
Qed.

Lemma Ax_fields o ax : 0 <= ax < 2 ^ 26 ->
  GET_OPCODE (CREATE_Ax (opcode_Z o) ax) = opcode_Z o /\ GETARG_Ax (CREATE_Ax (opcode_Z o) ax) = ax /\ in_u 32 (CREATE_Ax (opcode_Z o) ax).
Proof.
  intros Ha. pose proof (opcode_range o) as Ho. rewrite GET_OPCODE_field, GETARG_Ax_field, CREATE_Ax_sum by lia. unfold in_u. pow2.
  split_and!; Z.div_mod_to_equations; lia.
Qed.

Lemma JMP_fields a offset : 0 <= a < 256 -> sbx_ok offset ->
  GET_OPCODE (JMP a offset) = opcode_Z OP_JMP /\ GETARG_A (JMP a offset) = a /\ GETARG_sBx (JMP a offset) = offset /\ in_u 32 (JMP a offset).
Proof.
  intros Ha Hs. unfold sbx_ok in Hs. change MAXARG_sBx with 131071 in *. destruct (ABx_fields OP_JMP a (offset + 131071)) as (H1 & H2 & H3 & H4); [done|pow2; lia|].
  unfold JMP, GETARG_sBx. change MAXARG_sBx with 131071. rewrite H3. split_and!; try done. lia.
Qed.

(** Words are determined by their fields. *)
Lemma word_fields i j : in_u 32 i -> in_u 32 j -> GET_OPCODE i = GET_OPCODE j -> GETARG_A i = GETARG_A j -> GETARG_Bx i = GETARG_Bx j -> i = j.
Proof. rewrite !GET_OPCODE_field, !GETARG_A_field, !GETARG_Bx_field. unfold in_u. pow2. intros. Z.div_mod_to_equations; lia. Qed.

Lemma Bx_BC i : in_u 32 i -> GETARG_Bx i = GETARG_C i + GETARG_B i * 2 ^ 9.
Proof. rewrite GETARG_Bx_field, GETARG_B_field, GETARG_C_field. unfold in_u. pow2. intros. Z.div_mod_to_equations; lia. Qed.

Ltac field_ok := vm_compute; repeat split; discriminate.

(** A disjoint field of a changed instruction, and the opcode. *)
Lemma setarg_opcode i v pos size : field_ok pos size -> 6 <= pos -> in_u 32 i -> GET_OPCODE (setarg i v pos size) = GET_OPCODE i.
Proof.
  intros Hf Hp Hi. assert (forall x, GET_OPCODE x = getarg x 0 6) as E.
  { intros x. rewrite GET_OPCODE_field, getarg_field by field_ok. unfold field. by rewrite Z.div_1_r. }
  rewrite !E. apply (setarg_getarg i v pos size 0 6); [done|field_ok|done|lia].
Qed.

(** The three argument fields after one of them is set. *)
Lemma setarg_fields i v pos size pos1 size1 :
  field_ok pos size -> field_ok pos1 size1 -> in_u 32 i -> 0 <= v < 2 ^ size ->
  getarg (setarg i v pos size) pos1 size1 =
  (if decide (pos1 = pos /\ size1 = size) then v else getarg (setarg i v pos size) pos1 size1) /\
  (pos1 + size1 <= pos \/ pos + size <= pos1 -> getarg (setarg i v pos size) pos1 size1 = getarg i pos1 size1) /\
  in_u 32 (setarg i v pos size).
Proof.
  intros Hf Hf1 Hi Hv. destruct (setarg_getarg i v pos size pos1 size1 Hf Hf1 Hi) as (G1 & G2 & G3). split; [|done].
  destruct (decide _) as [[-> ->]|]; [|done]. by rewrite G1, Z.mod_small.
Qed.

Lemma SETARG_A_ABC o a b c a' : abc_ok a b c -> 0 <= a' < 256 -> SETARG_A (ABC o a b c) a' = ABC o a' b c.
Proof.
  intros Hok Ha'. destruct (ABC_fields o a b c Hok) as (E1 & E2 & E3 & E4 & Hu).
  assert (abc_ok a' b c) as Hok' by (unfold abc_ok in *; lia). destruct (ABC_fields o a' b c Hok') as (F1 & F2 & F3 & F4 & Hu').
  destruct (setarg_fields (ABC o a b c) a' POS_A SIZE_A POS_A SIZE_A) as (G1 & _ & G2); [field_ok|field_ok|done|done|].
  destruct (setarg_fields (ABC o a b c) a' POS_A SIZE_A POS_Bx SIZE_Bx) as (_ & G3 & _); [field_ok|field_ok|done|done|].
  unfold GETARG_A in *. apply word_fields; [exact G2|done| | |].
  - unfold SETARG_A. rewrite setarg_opcode, E1, F1; [done|field_ok|vm_compute; discriminate|done].
  - unfold SETARG_A, GETARG_A. by rewrite G1, F2.
  - transitivity (GETARG_Bx (ABC o a b c)); [apply G3; right; vm_compute; discriminate|]. by rewrite !Bx_BC, E3, E4, F3, F4 by done.
Qed.

Lemma SETARG_B_ABC o a b c b' : abc_ok a b c -> 0 <= b' < 512 -> SETARG_B (ABC o a b c) b' = ABC o a b' c.
Proof.
  intros Hok Hb'. destruct (ABC_fields o a b c Hok) as (E1 & E2 & E3 & E4 & Hu).
  assert (abc_ok a b' c) as Hok' by (unfold abc_ok in *; lia). destruct (ABC_fields o a b' c Hok') as (F1 & F2 & F3 & F4 & Hu').
  destruct (setarg_fields (ABC o a b c) b' POS_B SIZE_B POS_B SIZE_B) as (G1 & _ & G2); [field_ok|field_ok|done|done|].
  destruct (setarg_fields (ABC o a b c) b' POS_B SIZE_B POS_A SIZE_A) as (_ & G3 & _); [field_ok|field_ok|done|done|].
  destruct (setarg_fields (ABC o a b c) b' POS_B SIZE_B POS_C SIZE_C) as (_ & G4 & _); [field_ok|field_ok|done|done|].
  apply word_fields; [exact G2|done| | |].
  - unfold SETARG_B. rewrite setarg_opcode, E1, F1; [done|field_ok|vm_compute; discriminate|done].
  - transitivity (GETARG_A (ABC o a b c)); [apply G3; left; vm_compute; discriminate|]. by rewrite E2, F2.
  - rewrite !Bx_BC by done. rewrite F3, F4. f_equal; [|by unfold SETARG_B, GETARG_B; rewrite G1].
    transitivity (GETARG_C (ABC o a b c)); [apply G4; left; vm_compute; discriminate|done].
Qed.

Lemma SETARG_sBx_JMP a offset offset' : 0 <= a < 256 -> sbx_ok offset -> sbx_ok offset' -> SETARG_sBx (JMP a offset) offset' = JMP a offset'.
Proof.
  intros Ha Ho Ho'. destruct (JMP_fields a offset Ha Ho) as (E1 & E2 & E3 & Hu). destruct (JMP_fields a offset' Ha Ho') as (F1 & F2 & F3 & Hu').
  unfold sbx_ok in *. change MAXARG_sBx with 131071 in *. unfold SETARG_sBx, SETARG_Bx. change MAXARG_sBx with 131071.
  rewrite (wrap_small 32) by clia.
  destruct (setarg_fields (JMP a offset) (offset' + 131071) POS_Bx SIZE_Bx POS_Bx SIZE_Bx) as (G1 & _ & G2);
    [field_ok|field_ok|done|change SIZE_Bx with 18; pow2; lia|].
  destruct (setarg_fields (JMP a offset) (offset' + 131071) POS_Bx SIZE_Bx POS_A SIZE_A) as (_ & G3 & _);
    [field_ok|field_ok|done|change SIZE_Bx with 18; pow2; lia|].
  apply word_fields; [exact G2|done| | |].
  - rewrite setarg_opcode, E1, F1; [done|field_ok|vm_compute; discriminate|done].
  - transitivity (GETARG_A (JMP a offset)); [apply G3; left; vm_compute; discriminate|]. by rewrite E2, F2.
  - rewrite decide_True in G1 by done. unfold GETARG_Bx at 1. rewrite G1. unfold GETARG_sBx in F3. change MAXARG_sBx with 131071 in F3. lia.
Qed.

(** ** Code as a partial function *)

Definition instr_at (c : list Z) (x : Z) : option Z := if x <? 0 then None else c !! Z.to_nat x.

Definition upd (c : list Z) (x i : Z) : list Z := <[Z.to_nat x := i]> c.

Definition len (c : list Z) : Z := Z.of_nat (length c).

Lemma instr_at_range c x i : instr_at c x = Some i -> 0 <= x < len c.
Proof. unfold instr_at, len. destruct (Z.ltb_spec x 0); [done|]. intros Hx%lookup_lt_Some. lia. Qed.

Lemma instr_at_is_Some c x : 0 <= x < len c -> exists i, instr_at c x = Some i.
Proof. unfold instr_at, len. intros Hx. rewrite (proj2 (Z.ltb_ge x 0)) by lia. apply lookup_lt_is_Some. lia. Qed.

Lemma len_upd c x i : len (upd c x i) = len c.
Proof. unfold len, upd. by rewrite length_insert. Qed.

Lemma instr_at_upd c x i y : 0 <= x < len c -> instr_at (upd c x i) y = if decide (y = x) then Some i else instr_at c y.
Proof.
  unfold instr_at, upd, len. intros Hx. destruct (Z.ltb_spec y 0); [by rewrite decide_False by lia|].
  destruct (decide (y = x)) as [->|Hne]; [by rewrite list_lookup_insert_eq by lia|]. by rewrite list_lookup_insert_ne by lia.
Qed.

Lemma instr_at_app c i x : instr_at (c ++ [i]) x = if decide (x = len c) then Some i else instr_at c x.
Proof.
  unfold instr_at, len. destruct (Z.ltb_spec x 0); [by rewrite decide_False by lia|]. destruct (decide (x = Z.of_nat (length c))) as [->|Hne].
  - rewrite Nat2Z.id. by rewrite list_lookup_middle.
  - destruct (decide (Z.to_nat x < length c)%nat); [by rewrite lookup_app_l|]. rewrite (lookup_ge_None_2 c) by lia. apply lookup_ge_None_2. rewrite length_app. cbn. lia.
Qed.

Lemma wpc_getinstr p i fs (Q : Z -> FuncState -> Prop) : instr_at (code fs) p = Some i -> Q i fs -> wpc (getinstr p) fs Q.
Proof. unfold wpc, getinstr, instr_at. destruct (p <? 0); [done|]. by intros ->. Qed.

Lemma wpc_setinstr p i0 i fs (Q : () -> FuncState -> Prop) :
  instr_at (code fs) p = Some i0 -> Q () (set_code (upd (code fs) p i) fs) -> wpc (setinstr p i) fs Q.
Proof.
  intros Hi HQ. apply instr_at_range in Hi. unfold wpc, setinstr, pc. fold (len (code fs)).
  rewrite (proj2 (Z.ltb_ge p 0)), (proj2 (Z.leb_gt _ _)) by lia. exact HQ.
Qed.

(** ** Lists of jumps *)

(** The offset that links jump [j] to [l]. *)
Definition link (j l : Z) : Z := if l =? NO_JUMP then NO_JUMP else l - (j + 1).

Fixpoint chain (c : list Z) (l : Z) (js : list Z) : Prop :=
  match js with
  | [] => l = NO_JUMP
  | j :: js' => l = j /\ exists l', instr_at c j = Some (JMP 0 (link j l')) /\ sbx_ok (link j l') /\ l' <> j /\ chain c l' js'
  end.

Lemma chain_jump c l js j : chain c l js -> j ∈ js -> exists o, instr_at c j = Some (JMP 0 o) /\ sbx_ok o.
Proof.
  revert l. induction js as [|j0 js IH]; intros l Hc Hj; [by apply elem_of_nil in Hj|]. destruct Hc as (-> & l' & Hi & Hs & _ & Hc).
  apply elem_of_cons in Hj as [->|Hj]; [by eauto|by eapply IH].
Qed.

Lemma chain_range c l js j : chain c l js -> j ∈ js -> 0 <= j < len c.
Proof. intros Hc Hj. destruct (chain_jump c l js j Hc Hj) as (o & Hi & _). by eapply instr_at_range. Qed.

Lemma chain_ext c c' l js : (forall j, j ∈ js -> instr_at c' j = instr_at c j) -> chain c l js -> chain c' l js.
Proof.
  revert l. induction js as [|j js IH]; intros l H Hc; [done|]. destruct Hc as (-> & l' & Hi & Hs & Hne & Hc). split; [done|]. exists l'.
  rewrite H by set_solver. split_and!; try done. apply IH; [|done]. intros. apply H. set_solver.
Qed.

Lemma chain_nil c l : chain c l [] <-> l = NO_JUMP.
Proof. done. Qed.

Lemma chain_NO_JUMP c js : chain c NO_JUMP js -> js = [].
Proof. destruct js as [|j js]; [done|]. intros (E & l' & Hi & _). apply instr_at_range in Hi. unfold NO_JUMP in E. lia. Qed.

Lemma JMP_not_test a o : 0 <= a < 256 -> sbx_ok o -> testTMode (GET_OPCODE (JMP a o)) = false /\ isop (JMP a o) OP_TESTSET = false.
Proof. intros Ha Hs. unfold isop. destruct (JMP_fields a o Ha Hs) as (-> & _). done. Qed.

Lemma JMP_not_testset o : sbx_ok o -> isop (JMP 0 o) OP_TESTSET = false.
Proof. intros Hs. by apply JMP_not_test. Qed.

Lemma wpc_getjump j l' fs (Q : Z -> FuncState -> Prop) :
  instr_at (code fs) j = Some (JMP 0 (link j l')) -> sbx_ok (link j l') -> l' <> j -> Q l' fs -> wpc (getjump j) fs Q.
Proof.
  intros Hi Hs Hne HQ. apply wpc_bind. eapply wpc_getinstr; [done|]. apply wpc_ret. destruct (JMP_fields 0 (link j l')) as (_ & _ & -> & _); [lia|done|].
  unfold link, NO_JUMP in *. destruct (Z.eqb_spec l' (-1)) as [->|Hl]; [exact HQ|]. rewrite (proj2 (Z.eqb_neq _ _)) by lia.
  replace (j + 1 + (l' - (j + 1))) with l' by lia. exact HQ.
Qed.

(** The instruction that controls a jump sets a register. *)
Definition testset_at (c : list Z) (x : Z) : bool := match instr_at c x with Some i => isop i OP_TESTSET | None => false end.

Definition control (c : list Z) (j : Z) : Z :=
  match instr_at c (j - 1) with Some i => if testTMode (GET_OPCODE i) then j - 1 else j | None => j end.

Lemma wpc_getjumpcontrol j fs (Q : Z -> FuncState -> Prop) :
  0 <= j < len (code fs) -> Q (control (code fs) j) fs -> wpc (getjumpcontrol j) fs Q.
Proof.
  intros Hj HQ. unfold getjumpcontrol, control in *. rewrite Z.geb_leb. destruct (Z.leb_spec 1 j) as [H1|H1].
  - destruct (instr_at_is_Some (code fs) (j - 1)) as [i Hi]; [lia|]. apply wpc_bind. eapply wpc_getinstr; [done|]. apply wpc_ret. by rewrite Hi in HQ.
  - apply wpc_ret. unfold instr_at in HQ. rewrite (proj2 (Z.ltb_lt (j - 1) 0)) in HQ by lia. exact HQ.
Qed.

(** The control is a [TESTSET] exactly when there is one before the jump. *)
Lemma control_testset c j o : instr_at c j = Some (JMP 0 o) -> sbx_ok o ->
  match instr_at c (control c j) with Some i => isop i OP_TESTSET | None => false end = testset_at c (j - 1) /\
  (testset_at c (j - 1) = true -> control c j = j - 1).
Proof.
  intros Hj Hs. unfold control, testset_at. destruct (instr_at c (j - 1)) as [i|] eqn:Hi.
  - destruct (testTMode (GET_OPCODE i)) eqn:Et; [by rewrite Hi|]. rewrite Hj. destruct (JMP_not_test 0 o) as [_ ->]; [lia|done|].
    assert (isop i OP_TESTSET = false) as ->; [|done]. unfold isop. apply Z.eqb_neq. intros E. rewrite E in Et. done.
  - rewrite Hj. destruct (JMP_not_test 0 o) as [_ ->]; [lia|done|]. done.
Qed.

Lemma wpc_fixjump j o dest fs (Q : () -> FuncState -> Prop) :
  instr_at (code fs) j = Some (JMP 0 o) -> sbx_ok o -> sbx_ok (dest - (j + 1)) ->
  Q () (set_code (upd (code fs) j (JMP 0 (dest - (j + 1)))) fs) -> wpc (fixjump j dest) fs Q.
Proof.
  intros Hi Ho Hd HQ. apply wpc_bind. eapply wpc_getinstr; [done|]. cbv zeta. rewrite Z.gtb_ltb, (proj2 (Z.ltb_ge _ _)) by (unfold sbx_ok in Hd; lia).
  rewrite SETARG_sBx_JMP by (done || lia). by eapply wpc_setinstr.
Qed.

(** What becomes of a [TESTSET] whose value goes to [reg]. *)
Definition patch_test (i reg : Z) : Z :=
  if negb (reg =? NO_REG) && negb (reg =? GETARG_B i) then SETARG_A i reg else ABC OP_TEST (GETARG_B i) 0 (GETARG_C i).

Lemma wpc_patchtestreg j o reg fs (Q : bool -> FuncState -> Prop) :
  instr_at (code fs) j = Some (JMP 0 o) -> sbx_ok o ->
  (forall i, instr_at (code fs) (j - 1) = Some i -> isop i OP_TESTSET = true ->
    Q true (set_code (upd (code fs) (j - 1) (patch_test i reg)) fs)) ->
  (testset_at (code fs) (j - 1) = false -> Q false fs) -> wpc (patchtestreg j reg) fs Q.
Proof.
  intros Hj Ho Ht Hf. pose proof (instr_at_range _ _ _ Hj) as Hr. apply wpc_bind. apply wpc_getjumpcontrol; [done|].
  destruct (control_testset (code fs) j o Hj Ho) as [E1 E2].
  assert (exists i, instr_at (code fs) (control (code fs) j) = Some i) as [i Hi].
  { unfold control. destruct (instr_at (code fs) (j - 1)) eqn:E; [|by eauto]. destruct (testTMode _); eauto. }
  apply wpc_bind. eapply wpc_getinstr; [done|]. rewrite Hi in E1. rewrite E1. destruct (testset_at (code fs) (j - 1)) eqn:Et; cbn [negb].
  - rewrite E2 in * by done. apply wpc_bind. unfold patch_test in Ht. specialize (Ht i Hi E1).
    destruct (negb (reg =? NO_REG) && negb (reg =? GETARG_B i)); (eapply wpc_setinstr; [done|]); by apply wpc_ret.
  - apply wpc_ret. by apply Hf.
Qed.

(** The code after every jump of [js] got its target. *)
Definition patched (c c' : list Z) (js : list Z) (vt reg dt : Z) : Prop :=
  len c' = len c /\ forall x, instr_at c' x =
    if decide (x ∈ js) then Some (JMP 0 ((if testset_at c (x - 1) then vt else dt) - (x + 1)))
    else match instr_at c x with
         | Some i => Some (if bool_decide (x + 1 ∈ js) && isop i OP_TESTSET then patch_test i reg else i)
         | None => None
         end.

(** A jump of the list can reach its target. *)
Definition reachable (c : list Z) (j vt dt : Z) : Prop := sbx_ok ((if testset_at c (j - 1) then vt else dt) - (j + 1)).

Lemma patched_nil c vt reg dt : patched c c [] vt reg dt.
Proof.
  split; [done|]. intros x. rewrite decide_False by set_solver. destruct (instr_at c x); [|done].
  rewrite bool_decide_eq_false_2 by set_solver. done.
Qed.

Lemma patch_test_opcode i reg : in_u 32 i -> isop i OP_TESTSET = true -> 0 <= GETARG_B i < 256 -> isop (patch_test i reg) OP_TESTSET = true \/ isop (patch_test i reg) OP_TEST = true.
Proof.
  intros Hu Hi Hb. unfold patch_test. destruct (_ && _).
  - left. unfold isop, SETARG_A in *. by rewrite setarg_opcode by (done || field_ok || (vm_compute; discriminate)).
  - right. unfold isop. assert (0 <= GETARG_C i < 512) by (rewrite GETARG_C_field; pow2; apply Z.mod_pos_bound; lia).
    destruct (ABC_fields OP_TEST (GETARG_B i) 0 (GETARG_C i)) as (-> & _); [unfold abc_ok; lia|]. done.
Qed.

(** One jump patched, then the others. *)
Lemma patched_cons c c1 c' j js o vt reg dt :
  instr_at c j = Some (JMP 0 o) -> sbx_ok o -> j ∉ js -> (forall x, x ∈ js -> exists o, instr_at c x = Some (JMP 0 o) /\ sbx_ok o) ->
  len c1 = len c ->
  (forall x, instr_at c1 x =
    if decide (x = j) then Some (JMP 0 ((if testset_at c (j - 1) then vt else dt) - (j + 1)))
    else if decide (x = j - 1 /\ testset_at c (j - 1) = true) then (fun i => patch_test i reg) <$> instr_at c x else instr_at c x) ->
  patched c1 c' js vt reg dt -> sbx_ok ((if testset_at c (j - 1) then vt else dt) - (j + 1)) -> patched c c' (j :: js) vt reg dt.
Proof.
  intros Hj Ho Hnin Hjs Hlen H1 [Hlen' H'] Hd. split; [congruence|]. intros x. rewrite H'.
  assert (isop (JMP 0 o) OP_TESTSET = false) as Hnt by (by apply JMP_not_test).
  destruct (decide (x ∈ js)) as [Hx|Hx].
  - rewrite decide_True by set_solver. do 3 f_equal. destruct (Hjs x Hx) as (ox & Hxi & Hox).
    assert (testset_at c1 (x - 1) = testset_at c (x - 1)) as ->; [|done]. unfold testset_at at 1. rewrite H1.
    destruct (decide (x - 1 = j)) as [->|Hne].
    + unfold testset_at at 2. rewrite Hj, Hnt. apply JMP_not_test; [lia|done].
    + rewrite decide_False; [done|]. intros [E _]. assert (x = j) as -> by lia. done.
  - destruct (decide (x = j)) as [->|Hne].
    + rewrite decide_True by set_solver. rewrite H1, decide_True by done.
      assert (isop (JMP 0 ((if testset_at c (j - 1) then vt else dt) - (j + 1))) OP_TESTSET = false) as -> by (apply JMP_not_test; [lia|done]). by rewrite andb_false_r.
    + rewrite decide_False by set_solver. rewrite H1, decide_False by done. destruct (decide (x = j - 1 /\ _)) as [[-> Ht]|Hn].
      * unfold testset_at in Ht. destruct (instr_at c (j - 1)) as [i|] eqn:Hi; [|done]. cbn.
        rewrite (bool_decide_eq_true_2 (j - 1 + 1 ∈ j :: js)) by (replace (j - 1 + 1) with j by lia; set_solver). rewrite Ht. cbn [andb].
        rewrite bool_decide_eq_false_2; [done|]. by replace (j - 1 + 1) with j by lia.
      * destruct (instr_at c x) as [i|] eqn:Hi; [|done]. f_equal.
        destruct (decide (x + 1 = j)) as [E|Hne2].
        -- assert (x = j - 1) as -> by lia. assert (isop i OP_TESTSET = false) as ->.
           { apply not_true_is_false. intros Ht. apply Hn. split; [done|]. unfold testset_at. by rewrite Hi. }
           by rewrite !andb_false_r.
        -- replace (bool_decide (x + 1 ∈ j :: js)) with (bool_decide (x + 1 ∈ js)); [done|]. apply bool_decide_ext. set_solver.
Qed.

Lemma wpc_patchlistaux fuel l js vt reg dt fs (Q : () -> FuncState -> Prop) :
  chain (code fs) l js -> NoDup js -> (length js < fuel)%nat -> (forall j, j ∈ js -> reachable (code fs) j vt dt) ->
  (forall c', patched (code fs) c' js vt reg dt -> Q () (set_code c' fs)) -> wpc (patchlistaux fuel l vt reg dt) fs Q.
Proof.
  revert l js fs Q. induction fuel as [|fuel IH]; intros l js fs Q Hc Hnd Hf Hr HQ; [lia|]. cbn [patchlistaux]. destruct js as [|j js].
  { rewrite Hc, Z.eqb_refl. apply wpc_ret. destruct fs. apply HQ, patched_nil. }
  destruct Hc as (-> & l' & Hi & Hs & Hne & Hc). pose proof (instr_at_range _ _ _ Hi) as Hrg.
  rewrite (proj2 (Z.eqb_neq j NO_JUMP)) by (unfold NO_JUMP; lia). apply NoDup_cons in Hnd as [Hnin Hnd].
  apply wpc_bind. eapply wpc_getjump; [done..|]. apply wpc_bind.
  assert (forall x, x ∈ js -> exists o, instr_at (code fs) x = Some (JMP 0 o) /\ sbx_ok o) as Hjs by (intros x Hx; by eapply chain_jump).
  assert (Hreach : reachable (code fs) j vt dt) by (apply Hr; set_solver). unfold reachable in Hreach.
  assert (forall c1, len c1 = len (code fs) ->
    (forall x, instr_at c1 x =
      if decide (x = j) then Some (JMP 0 ((if testset_at (code fs) (j - 1) then vt else dt) - (j + 1)))
      else if decide (x = j - 1 /\ testset_at (code fs) (j - 1) = true) then (fun i => patch_test i reg) <$> instr_at (code fs) x else instr_at (code fs) x) ->
    wpc (patchlistaux fuel l' vt reg dt) (set_code c1 fs) Q) as Hrest.
  { intros c1 Hlen H1.
    assert (forall x, x ∈ js -> instr_at c1 x = instr_at (code fs) x) as Hsame.
    { intros x Hx. rewrite H1. rewrite decide_False by (intros ->; done). rewrite decide_False; [done|]. intros [-> Ht].
      destruct (Hjs _ Hx) as (o & Ho & Hso). unfold testset_at in Ht. rewrite Ho in Ht. destruct (JMP_not_test 0 o) as [_ E]; [lia|done|]. congruence. }
    apply (IH l' js); [by eapply chain_ext|done|cbn in Hf; lia| |].
    - intros x Hx. unfold reachable. cbn [code set_code].
      assert (testset_at c1 (x - 1) = testset_at (code fs) (x - 1)) as ->; [|apply Hr; set_solver]. unfold testset_at at 1. rewrite H1.
      destruct (decide (x - 1 = j)) as [->|Hn].
      + unfold testset_at. rewrite Hi, !JMP_not_testset by done. done.
      + rewrite decide_False; [done|]. intros [E _]. assert (x = j) as -> by lia. done.
    - intros c' Hp. cbn [code set_code] in Hp. change (set_code c' (set_code c1 fs)) with (set_code c' fs). apply HQ.
      by eapply patched_cons. }
  eapply wpc_patchtestreg; [done|done| |].
  - intros i Hi1 Ht. assert (testset_at (code fs) (j - 1) = true) as Htt by (unfold testset_at; by rewrite Hi1). rewrite Htt in *.
    pose proof (instr_at_range _ _ _ Hi1) as Hr1. apply wpc_bind. apply (wpc_fixjump j (link j l')); [|done|done|].
    { cbn [code set_code]. rewrite instr_at_upd by done. rewrite decide_False by lia. exact Hi. }
    apply Hrest; cbn [code set_code]; [by rewrite !len_upd|]. intros x. rewrite instr_at_upd by (rewrite len_upd; lia).
    destruct (decide (x = j)); [done|]. rewrite instr_at_upd by lia. destruct (decide (x = j - 1)) as [->|Hx].
    + rewrite decide_True by done. by rewrite Hi1.
    + rewrite decide_False; [done|]. intros [E _]. done.
  - intros Ht. rewrite Ht in *. apply wpc_bind. eapply wpc_fixjump; [done|done|done|].
    apply Hrest; [by rewrite len_upd|]. intros x. rewrite instr_at_upd by lia. destruct (decide (x = j)); [done|]. rewrite decide_False; [done|]. intros [_ E]. done.
Qed.

(** [removevalues] is patching without new targets. *)
Definition unvalued (c c' : list Z) (js : list Z) : Prop :=
  len c' = len c /\ forall x, instr_at c' x =
    match instr_at c x with
    | Some i => Some (if bool_decide (x + 1 ∈ js) && isop i OP_TESTSET then patch_test i NO_REG else i)
    | None => None
    end.

Lemma unvalued_cons c c1 c' j js :
  j ∉ js -> len c1 = len c ->
  (forall x, instr_at c1 x = if decide (x = j - 1 /\ testset_at c (j - 1) = true) then (fun i => patch_test i NO_REG) <$> instr_at c x else instr_at c x) ->
  unvalued c1 c' js -> unvalued c c' (j :: js).
Proof.
  intros Hnin Hlen H1 [Hlen' H']. split; [congruence|]. intros x. rewrite H', H1. destruct (decide _) as [[-> Ht]|Hn].
  - unfold testset_at in Ht. destruct (instr_at c (j - 1)) as [i|]; [|done]. cbn. replace (j - 1 + 1) with j by lia.
    rewrite (bool_decide_eq_false_2 (j ∈ js)), (bool_decide_eq_true_2 (j ∈ j :: js)) by set_solver. by rewrite Ht.
  - destruct (instr_at c x) as [i|] eqn:Hi; [|done]. f_equal. destruct (decide (x + 1 = j)) as [E|Hne].
    + assert (x = j - 1) as -> by lia. assert (isop i OP_TESTSET = false) as ->; [|by rewrite !andb_false_r].
      apply not_true_is_false. intros Ht. apply Hn. split; [done|]. unfold testset_at. by rewrite Hi.
    + replace (bool_decide (x + 1 ∈ j :: js)) with (bool_decide (x + 1 ∈ js)); [done|]. apply bool_decide_ext. set_solver.
Qed.

Lemma wpc_removevalues fuel l js fs (Q : () -> FuncState -> Prop) :
  chain (code fs) l js -> NoDup js -> (length js < fuel)%nat ->
  (forall c', unvalued (code fs) c' js -> Q () (set_code c' fs)) -> wpc (removevalues fuel l) fs Q.
Proof.
  revert l js fs Q. induction fuel as [|fuel IH]; intros l js fs Q Hc Hnd Hf HQ; [lia|]. cbn [removevalues]. destruct js as [|j js].
  { rewrite Hc, Z.eqb_refl. apply wpc_ret. destruct fs. apply HQ. split; [done|]. intros x. destruct (instr_at _ x); [|done].
    by rewrite bool_decide_eq_false_2 by set_solver. }
  pose proof Hc as (-> & l' & Hi & Hs & Hne & Hc'). pose proof (instr_at_range _ _ _ Hi) as Hrg.
  rewrite (proj2 (Z.eqb_neq j NO_JUMP)) by (unfold NO_JUMP; lia). apply NoDup_cons in Hnd as [Hnin Hnd]. apply wpc_bind.
  assert (forall c1, len c1 = len (code fs) ->
    (forall x, instr_at c1 x = if decide (x = j - 1 /\ testset_at (code fs) (j - 1) = true) then (fun i => patch_test i NO_REG) <$> instr_at (code fs) x else instr_at (code fs) x) ->
    wpc (getjump j ≫= (fun next => removevalues fuel next)) (set_code c1 fs) Q) as Hrest.
  { intros c1 Hlen H1.
    assert (forall x, x ∈ j :: js -> instr_at c1 x = instr_at (code fs) x) as Hsame.
    { intros x Hx. rewrite H1. rewrite decide_False; [done|]. intros [-> Ht]. destruct (chain_jump _ _ _ _ Hc Hx) as (o & Ho & Hso).
      unfold testset_at in Ht. rewrite Ho, JMP_not_testset in Ht by done. done. }
    apply wpc_bind. eapply wpc_getjump; [cbn [code set_code]; rewrite Hsame by set_solver; done|done|done|].
    apply (IH l' js); [eapply chain_ext; [|done]; intros; apply Hsame; set_solver|done|cbn in Hf; lia|].
    intros c' Hu. change (set_code c' (set_code c1 fs)) with (set_code c' fs). apply HQ. by eapply unvalued_cons. }
  eapply wpc_patchtestreg; [done|done| |].
  - intros i Hi1 Ht. pose proof (instr_at_range _ _ _ Hi1) as Hr1. apply Hrest; [by rewrite len_upd|]. intros x. rewrite instr_at_upd by done.
    destruct (decide (x = j - 1)) as [->|Hx]; [|rewrite decide_False; [done|]; by intros [E _]].
    rewrite decide_True; [by rewrite Hi1|]. split; [done|]. unfold testset_at. by rewrite Hi1.
  - intros Ht. destruct fs. apply Hrest; [done|]. intros x. rewrite decide_False; [done|]. intros [_ E]. cbn in *. congruence.
Qed.

(** [need_value] finds a jump that is not controlled by a [TESTSET]. *)
Lemma wpc_need_value fuel l js fs (Q : bool -> FuncState -> Prop) :
  chain (code fs) l js -> (length js < fuel)%nat ->
  Q (existsb (fun j => negb (testset_at (code fs) (j - 1))) js) fs -> wpc (need_value fuel l) fs Q.
Proof.
  revert l js. induction fuel as [|fuel IH]; intros l js Hc Hf HQ; [lia|]. cbn [need_value]. destruct js as [|j js].
  { rewrite Hc, Z.eqb_refl. by apply wpc_ret. }
  destruct Hc as (-> & l' & Hi & Hs & Hne & Hc). pose proof (instr_at_range _ _ _ Hi) as Hrg.
  rewrite (proj2 (Z.eqb_neq j NO_JUMP)) by (unfold NO_JUMP; lia). apply wpc_bind, wpc_getjumpcontrol; [done|].
  destruct (control_testset (code fs) j _ Hi Hs) as [E _].
  assert (exists i, instr_at (code fs) (control (code fs) j) = Some i) as [i Hi'].
  { unfold control. destruct (instr_at (code fs) (j - 1)) eqn:E1; [|by eauto]. destruct (testTMode _); eauto. }
  apply wpc_bind. eapply wpc_getinstr; [done|]. rewrite Hi' in E. rewrite E. cbn [existsb] in HQ.
  destruct (testset_at (code fs) (j - 1)); cbn [negb orb] in *.
  - apply wpc_bind. eapply wpc_getjump; [done..|]. eapply IH; [done|cbn in Hf; lia|done].
  - by apply wpc_ret.
Qed.

(** ** Joining lists *)

Lemma last_shift (j j' : Z) js : List.last (j' :: js) j = List.last js j'.
Proof. revert j j'. induction js as [|x js IH]; intros j j'; [done|]. change (List.last (j' :: x :: js) j) with (List.last (x :: js) j). by rewrite !IH. Qed.

Lemma wpc_last_jump fuel j js fs (Q : Z -> FuncState -> Prop) :
  chain (code fs) j (j :: js) -> (length js < fuel)%nat -> Q (List.last js j) fs -> wpc (last_jump fuel j) fs Q.
Proof.
  revert j js. induction fuel as [|fuel IH]; intros j js (_ & l' & Hi & Hs & Hne & Hc) Hf HQ; [lia|]. cbn [last_jump].
  apply wpc_bind. eapply wpc_getjump; [done..|]. destruct js as [|j' js].
  - rewrite Hc. by apply wpc_ret.
  - pose proof Hc as (-> & l2 & Hi2 & _). apply instr_at_range in Hi2. rewrite (proj2 (Z.eqb_neq j' NO_JUMP)) by (unfold NO_JUMP; lia).
    eapply IH; [exact Hc|cbn in Hf; lia|]. by rewrite last_shift in HQ.
Qed.

Lemma last_in (j : Z) js : List.last js j ∈ j :: js.
Proof. revert j. induction js as [|x js IH]; intros j; [set_solver|]. rewrite last_shift. apply list_elem_of_further, IH. Qed.

(** Linking the last jump of a list to another list appends that list. *)
Lemma chain_join c l1 l2 j js1 js2 :
  chain c l1 (j :: js1) -> chain c l2 js2 -> NoDup ((j :: js1) ++ js2) -> js2 <> [] ->
  sbx_ok (l2 - (List.last js1 j + 1)) -> chain (upd c (List.last js1 j) (JMP 0 (l2 - (List.last js1 j + 1)))) l1 ((j :: js1) ++ js2).
Proof.
  revert l1 j. induction js1 as [|j' js1 IH]; intros l1 j Hc1 Hc2 Hnd Hne Hs; destruct Hc1 as (-> & l' & Hi & Hs' & Hne' & Hc1); pose proof (instr_at_range _ _ _ Hi) as Hr.
  - cbn [List.last app] in *. split; [done|]. exists l2.
    assert (l2 ∈ js2 /\ 0 <= l2) as [Hin H0].
    { destruct js2 as [|j2 js2]; [done|]. destruct Hc2 as (-> & l3 & Hi2 & _). split; [set_solver|]. apply instr_at_range in Hi2. lia. }
    apply NoDup_cons in Hnd as [Hnin _]. unfold link. rewrite (proj2 (Z.eqb_neq l2 NO_JUMP)) by (unfold NO_JUMP; lia).
    split_and!; [by rewrite instr_at_upd, decide_True by done|done|intros ->; done|].
    eapply chain_ext; [|done]. intros x Hx. rewrite instr_at_upd by done. rewrite decide_False; [done|]. by intros ->.
  - rewrite last_shift in *. cbn [app] in *. apply NoDup_cons in Hnd as [Hnin Hnd]. split; [done|]. exists l'.
    pose proof (last_in j' js1) as Hl. pose proof (chain_range _ _ _ _ Hc1 Hl).
    rewrite instr_at_upd by done. rewrite decide_False by (intros ->; set_solver). split_and!; try done.
    assert (l' = j') as -> by apply Hc1. by apply IH.
Qed.

Lemma chain_length c l js : chain c l js -> NoDup js -> (length js <= length c)%nat.
Proof.
  intros Hc Hnd. rewrite <- (length_fmap Z.to_nat js).
  assert (NoDup (Z.to_nat <$> js)) as Hnd1.
  { apply NoDup_fmap_2_strong; [|done]. intros x y Hx Hy E. apply (chain_range _ _ _ _ Hc) in Hx, Hy. lia. }
  transitivity (length (seq 0 (length c))); [|by rewrite length_seq]. apply submseteq_length, NoDup_submseteq; [done|].
  intros x (y & -> & Hy)%list_elem_of_fmap. apply elem_of_seq. apply (chain_range _ _ _ _ Hc) in Hy. unfold len in Hy. lia.
Qed.

(** After [luaK_concat] the lists are one; only the last jump of the first changed. *)
Lemma wpc_concat l1 l2 js1 js2 fs (Q : Z -> FuncState -> Prop) :
  chain (code fs) l1 js1 -> chain (code fs) l2 js2 -> NoDup (js1 ++ js2) -> len (code fs) <= MAXARG_sBx ->
  (forall l c', chain c' l (js1 ++ js2) -> len c' = len (code fs) ->
    (forall x, x ∉ js1 -> instr_at c' x = instr_at (code fs) x) ->
    (forall x, x ∈ js1 -> exists o, instr_at c' x = Some (JMP 0 o) /\ sbx_ok o) -> Q l (set_code c' fs)) ->
  wpc (luaK_concat l1 l2) fs Q.
Proof.
  intros Hc1 Hc2 Hnd Hlen HQ. unfold luaK_concat. destruct js2 as [|j2 js2].
  { rewrite Hc2, Z.eqb_refl. apply wpc_ret. destruct fs. apply HQ; rewrite ?app_nil_r; try done. intros x Hx. exact (chain_jump _ _ _ _ Hc1 Hx). }
  pose proof Hc2 as (-> & l3 & Hi2 & _). apply instr_at_range in Hi2. rewrite (proj2 (Z.eqb_neq j2 NO_JUMP)) by (unfold NO_JUMP; lia).
  destruct js1 as [|j1 js1].
  { rewrite Hc1, Z.eqb_refl. apply wpc_ret. destruct fs. apply HQ; try done. intros x Hx. by apply elem_of_nil in Hx. }
  pose proof Hc1 as (-> & l3' & Hi1 & _). apply instr_at_range in Hi1. rewrite (proj2 (Z.eqb_neq j1 NO_JUMP)) by (unfold NO_JUMP; lia).
  pose proof (last_in j1 js1) as Hl. pose proof (chain_range _ _ _ _ Hc1 Hl) as Hlr.
  destruct (chain_jump _ _ _ _ Hc1 Hl) as (o & Ho & Hso). assert (sbx_ok (j2 - (List.last js1 j1 + 1))) as Hs by (unfold sbx_ok; lia).
  apply wpc_bind, wpc_getfs, wpc_bind. eapply wpc_last_jump; [exact Hc1| |].
  { apply NoDup_app in Hnd as (Hnd1 & _). pose proof (chain_length _ _ _ Hc1 Hnd1). cbn in *. lia. }
  apply wpc_bind. eapply wpc_fixjump; [done|done|done|]. apply wpc_ret. apply HQ.
  - by apply chain_join.
  - by rewrite len_upd.
  - intros x Hx. rewrite instr_at_upd by done. rewrite decide_False; [done|]. by intros ->.
  - intros x Hx. rewrite instr_at_upd by done. destruct (decide _); [by eauto|]. exact (chain_jump _ _ _ _ Hc1 Hx).
Qed.
