(* ===== verification/LuaRun.v ===== *)
(** * Runs of generated code

    The effect of single instructions, by their operands, and what is known of a run of
    code that is still being generated: a fact about an unfinished function holds for
    every final code that agrees with it outside the positions that are still pending
    (jumps without a target, instructions without a register). *)

From S2P Require Import Prelude LuaStr LuaRef LuaTab LuaOp LuaNumber LuaCode LuaVm LuaJump.

Lemma isop_ABC o a b c o' : abc_ok a b c -> isop (ABC o a b c) o' = (opcode_Z o =? opcode_Z o').
Proof. intros Hok. unfold isop. by destruct (ABC_fields o a b c Hok) as (-> & _). Qed.

Lemma opcode_Z_inj o o' : opcode_Z o = opcode_Z o' -> o = o'.
Proof. intros E. pose proof (opcodes_lookup o) as H1. rewrite E, opcodes_lookup in H1. congruence. Qed.

Lemma ABC_inj o a b c o' a' b' c' : abc_ok a b c -> abc_ok a' b' c' -> ABC o a b c = ABC o' a' b' c' -> o = o' /\ a = a' /\ b = b' /\ c = c'.
Proof.
  intros H1 H2 E. destruct (ABC_fields o a b c H1) as (E1 & E2 & E3 & E4 & _). destruct (ABC_fields o' a' b' c' H2) as (F1 & F2 & F3 & F4 & _).
  rewrite E in E1, E2, E3, E4. split_and!; try congruence. apply opcode_Z_inj. congruence.
Qed.

#[export] Instance OpCode_eq_dec : EqDecision OpCode.
Proof. solve_decision. Defined.

Lemma fetch_at C p i : instr_at C p = Some i -> fetch C p = Ok i.
Proof. unfold instr_at, fetch. destruct (p <? 0); [done|]. by intros ->. Qed.

(** ** Unfinished code *)

(** A [TESTSET] that waits for its register, and what may become of it. *)
Definition open_test (i : Z) : Prop := exists b c, i = ABC OP_TESTSET NO_REG b c /\ 0 <= b < 256 /\ 0 <= c < 512.

Definition becomes (i i' : Z) : Prop :=
  exists b c, i = ABC OP_TESTSET NO_REG b c /\ 0 <= b < 256 /\ 0 <= c < 512 /\
    (i' = ABC OP_TEST b 0 c \/ exists r, 0 <= r < 256 /\ i' = ABC OP_TESTSET r b c).

Lemma becomes_refl i : open_test i -> becomes i i.
Proof. intros (b & c & -> & Hb & Hc). exists b, c. split_and!; try done; try lia. right. by exists NO_REG. Qed.

(** The final code [C] and constants [K] agree with [fs] outside the pending positions. *)
Definition agrees (C : list Z) (K : list TValue) (fs : FuncState) (P : Z -> Prop) : Prop :=
  k fs `prefix_of` K /\
  forall x i, instr_at (code fs) x = Some i ->
    (~ P x -> instr_at C x = Some i) /\ (open_test i -> exists i', instr_at C x = Some i' /\ becomes i i').

(** Only the positions [O] (and new ones) changed, and [O'] are pending now. *)
Definition fr (O : Z -> Prop) (fs : FuncState) (O' : Z -> Prop) (fs' : FuncState) : Prop :=
  k fs `prefix_of` k fs' /\ pc fs <= pc fs' /\
  forall x, 0 <= x < pc fs ->
    (~ O x -> instr_at (code fs') x = instr_at (code fs) x /\ ~ O' x) /\
    (forall i, instr_at (code fs) x = Some i -> open_test i ->
      exists i', instr_at (code fs') x = Some i' /\ becomes i i' /\ (i' = i \/ ~ O' x)).

Lemma fr_refl O fs : fr O fs O fs.
Proof. split_and!; [done|lia|]. intros x Hx. split; [done|]. intros i Hi Ho. exists i. split_and!; [done|by apply becomes_refl|by left]. Qed.

Lemma fr_trans O1 fs1 O2 fs2 O3 fs3 : fr O1 fs1 O2 fs2 -> fr O2 fs2 O3 fs3 -> fr O1 fs1 O3 fs3.
Proof.
  intros (K1 & L1 & F1) (K2 & L2 & F2). split_and!; [by etrans|lia|]. intros x Hx. destruct (F1 x Hx) as [A1 B1]. destruct (F2 x) as [A2 B2]; [lia|]. split.
  - intros [E1 N1]%A1. destruct (A2 N1) as [E2 N2]. split; [congruence|done].
  - intros i Hi Ho. destruct (B1 i Hi Ho) as (i' & Hi' & Hb & [->|Hn]); [by apply B2|].
    destruct (A2 Hn) as [E2 N2]. exists i'. rewrite E2. split_and!; try done. by right.
Qed.

(** Rest of the function: what others keep pending. *)
Lemma fr_frame (H0 O : Z -> Prop) fs O' fs' :
  (forall x, H0 x -> ~ O x) -> fr O fs O' fs' -> fr (fun x => H0 x \/ O x) fs (fun x => H0 x \/ O' x) fs'.
Proof.
  intros Ha (K1 & L1 & F1). split_and!; [done|done|]. intros x Hx. destruct (F1 x Hx) as [A1 B1]. split.
  - intros Hn. destruct A1 as [E N]; [naive_solver|]. split; [done|naive_solver].
  - intros i Hi Ho. destruct (B1 i Hi Ho) as (i' & Hi' & Hb & Hn). exists i'. split_and!; try done. destruct Hn as [->|Hn]; [by left|].
    destruct (decide (i' = i)) as [->|Hne]; [by left|]. right. intros [Hh|Hp]; [|done]. destruct A1 as [E _]; [by apply Ha|]. congruence.
Qed.

Lemma fr_weaken (O1 O1' O2 O2' : Z -> Prop) fs fs' :
  fr O1 fs O2 fs' -> (forall x, 0 <= x < pc fs -> O1 x -> O1' x) ->
  (forall x, 0 <= x < pc fs -> O2' x -> O2 x \/ (O1' x /\ instr_at (code fs') x = instr_at (code fs) x)) -> fr O1' fs O2' fs'.
Proof.
  intros (K1 & L1 & F1) H1 H2. split_and!; [done|done|]. intros x Hx. destruct (F1 x Hx) as [A1 B1]. split.
  - intros Hn. destruct A1 as [E N]; [by intros ?%H1|]. split; [done|]. intros Ho. by destruct (H2 x Hx Ho) as [|[]].
  - intros i Hi Ho. destruct (B1 i Hi Ho) as (i' & Hi' & Hb & Hn). exists i'. split_and!; try done. destruct Hn as [->|Hn]; [by left|].
    destruct (decide (i' = i)) as [->|Hne]; [by left|]. right. intros Ho2. destruct (H2 x Hx Ho2) as [|[_ E]]; [done|]. congruence.
Qed.

Lemma agrees_fr O fs O' fs' C K : fr O fs O' fs' -> agrees C K fs' O' -> agrees C K fs O.
Proof.
  intros (K1 & L1 & F1) [HK HC]. split; [by etrans|]. intros x i Hi. pose proof (instr_at_range _ _ _ Hi) as Hr.
  destruct (F1 x Hr) as [A1 B1]. split.
  - intros Hn. destruct (A1 Hn) as [E N]. apply HC; [congruence|done].
  - intros Ho. destruct (B1 i Hi Ho) as (i' & Hi' & Hb & [->|Hn]); [by apply (HC x)|]. exists i'. split; [by apply HC|done].
Qed.

Lemma agrees_at C K fs O x i : agrees C K fs O -> instr_at (code fs) x = Some i -> ~ O x -> instr_at C x = Some i.
Proof. intros [_ HC] Hi Hn. by apply HC. Qed.

Lemma agrees_mono C K fs (O O' : Z -> Prop) : (forall x, O' x -> O x) -> agrees C K fs O' -> agrees C K fs O.
Proof. intros HO [HK HC]. split; [done|]. intros x i Hi. destruct (HC x i Hi) as [H1 H2]. split; [|done]. intros Hn. apply H1. by intros ?%HO. Qed.

Section Run.
Context `{LuaNumber} (rt : runtime) (U : list TValue) (other : Z -> Z -> regs -> res (Z * regs)).

(** ** Instructions by their operands *)

(** Instructions that put a value into register [A], which they do not read. *)
Definition is_value (o : OpCode) : bool :=
  match o with
  | OP_GETUPVAL | OP_ADD | OP_SUB | OP_MUL | OP_DIV | OP_MOD | OP_POW | OP_UNM | OP_NOT | OP_LEN | OP_CONCAT => true
  | _ => false
  end.

Definition run_value (K : list TValue) (o : OpCode) (b c : Z) (R : regs) : res (TValue * regs) :=
  match o with
  | OP_GETUPVAL => v ← of_option Undefined (U !! Z.to_nat b); Ok (v, R)
  | OP_UNM => v ← vm_unm rt (R b); Ok (v, R)
  | OP_NOT => Ok (LBool (l_isfalse (R b)), R)
  | OP_LEN => v ← luaV_objlen rt (R b); Ok (v, R)
  | OP_CONCAT => R' ← luaV_concat rt R (c + 1) (c - b + 1); Ok (R' b, R')
  | _ =>
      match arith_of o with
      | Some (op, tm) => x ← RK K R b; y ← RK K R c; v ← vm_arith rt op tm x y; Ok (v, R)
      | None => Err Undefined
      end
  end.

(** Instructions that decide whether the jump behind them is taken. *)
Definition is_test (o : OpCode) : bool :=
  match o with OP_EQ | OP_LT | OP_LE | OP_TEST | OP_TESTSET => true | _ => false end.

Definition compare (o : OpCode) (x y : TValue) : res bool :=
  match o with OP_EQ => equalobj rt x y | OP_LT => lessthan rt x y | _ => lessequal rt x y end.

Definition run_test (K : list TValue) (o : OpCode) (a b c : Z) (R : regs) : res bool :=
  match o with
  | OP_TEST => Ok (Bool.eqb (l_isfalse (R a)) (c =? 0))
  | OP_TESTSET => Ok (Bool.eqb (l_isfalse (R b)) (c =? 0))
  | _ => x ← RK K R b; y ← RK K R c; r ← compare o x y; Ok (b2z r =? a)
  end.

(** The registers after a taken jump. *)
Definition test_effect (o : OpCode) (a b : Z) (R : regs) : regs :=
  match o with OP_TESTSET => setreg R a (R b) | _ => R end.

Section Instructions.
Context (C : list Z) (K : list TValue) (p : Z) (R : regs).

Abbreviation exec := (execute1 rt C K U other).

Lemma exec_move a b : instr_at C p = Some (ABC OP_MOVE a b 0) -> abc_ok a b 0 -> exec p R = Ok (p + 1, setreg R a (R b)).
Proof.
  intros Hi Hok. unfold execute1. rewrite (fetch_at _ _ _ Hi), ok_bind. cbv zeta.
  destruct (ABC_fields OP_MOVE a b 0 Hok) as (-> & -> & -> & -> & _). by rewrite opcodes_lookup.
Qed.

Lemma exec_loadbool a b c : instr_at C p = Some (ABC OP_LOADBOOL a b c) -> abc_ok a b c ->
  exec p R = Ok (if c =? 0 then p + 1 else p + 1 + 1, setreg R a (LBool (negb (b =? 0)))).
Proof.
  intros Hi Hok. unfold execute1. rewrite (fetch_at _ _ _ Hi), ok_bind. cbv zeta.
  destruct (ABC_fields OP_LOADBOOL a b c Hok) as (-> & -> & -> & -> & _). by rewrite opcodes_lookup.
Qed.

Lemma exec_loadnil a b : instr_at C p = Some (ABC OP_LOADNIL a b 0) -> abc_ok a b 0 -> exec p R = Ok (p + 1, setnils (S (Z.to_nat b)) R a).
Proof.
  intros Hi Hok. unfold execute1. rewrite (fetch_at _ _ _ Hi), ok_bind. cbv zeta.
  destruct (ABC_fields OP_LOADNIL a b 0 Hok) as (-> & -> & -> & -> & _). by rewrite opcodes_lookup.
Qed.

Lemma exec_value o a b c : is_value o = true -> instr_at C p = Some (ABC o a b c) -> abc_ok a b c ->
  exec p R = '(v, R') ← run_value K o b c R; Ok (p + 1, setreg R' a v).
Proof.
  intros Ho Hi Hok. unfold execute1. rewrite (fetch_at _ _ _ Hi), ok_bind. cbv zeta.
  destruct (ABC_fields o a b c Hok) as (-> & -> & -> & -> & _). rewrite opcodes_lookup.
  destruct o; try discriminate Ho; cbn [run_value arith_of]; unfold mbind, res_bind.
  all: repeat match goal with |- context [match ?x with Ok _ => _ | Err _ => _ end] => destruct x eqn:? end; simplify_eq; try done.
Qed.

Lemma exec_test o a b c offset : is_test o = true -> instr_at C p = Some (ABC o a b c) -> abc_ok a b c ->
  instr_at C (p + 1) = Some (JMP 0 offset) -> sbx_ok offset ->
  exec p R = t ← run_test K o a b c R; Ok (if (t : bool) then (p + 2 + offset, test_effect o a b R) else (p + 2, R)).
Proof.
  intros Ho Hi Hok Hj Hs. unfold execute1. rewrite (fetch_at _ _ _ Hi), ok_bind. cbv zeta.
  destruct (ABC_fields o a b c Hok) as (-> & -> & -> & -> & _). rewrite opcodes_lookup. unfold cond_jump. rewrite (fetch_at _ _ _ Hj), !ok_bind.
  unfold dojump. destruct (JMP_fields 0 offset) as (_ & _ & -> & _); [lia|done|].
  replace (p + 1 + 1) with (p + 2) by lia. replace (p + 1 + offset + 1) with (p + 2 + offset) by lia.
  destruct o; try discriminate Ho; cbn [run_test compare test_effect]; unfold mbind, res_bind.
  1-3: repeat match goal with |- context [match ?x with Ok _ => _ | Err _ => _ end] => destruct x eqn:? end; simplify_eq; try done; by case_match.
  - destruct (l_isfalse (R a)), (c =? 0); done.
  - destruct (l_isfalse (R b)), (c =? 0); done.
Qed.

(** A test that does not jump needs no jump behind it. *)
Lemma exec_test_skip o a b c : is_test o = true -> instr_at C p = Some (ABC o a b c) -> abc_ok a b c ->
  run_test K o a b c R <> Ok true -> exec p R = t ← run_test K o a b c R; Ok (p + 2, R).
Proof.
  intros Ho Hi Hok. unfold execute1. rewrite (fetch_at _ _ _ Hi), ok_bind. cbv zeta.
  destruct (ABC_fields o a b c Hok) as (-> & -> & -> & -> & _). rewrite opcodes_lookup. unfold cond_jump. replace (p + 1 + 1) with (p + 2) by lia.
  destruct o; try discriminate Ho; cbn [run_test compare]; unfold mbind, res_bind.
  1-3: repeat match goal with |- context [match ?x with Ok _ => _ | Err _ => _ end] => destruct x eqn:? end; simplify_eq; try done; by case_match.
  - destruct (l_isfalse (R a)), (c =? 0); done.
  - destruct (l_isfalse (R b)), (c =? 0); done.
Qed.

Lemma exec_jmp offset : instr_at C p = Some (JMP 0 offset) -> sbx_ok offset -> exec p R = Ok (p + 1 + offset, R).
Proof.
  intros Hi Hs. unfold execute1. rewrite (fetch_at _ _ _ Hi), ok_bind. cbv zeta. unfold dojump.
  destruct (JMP_fields 0 offset) as (-> & _ & -> & _); [lia|done|]. rewrite opcodes_lookup. by rewrite Z.add_0_r.
Qed.

Lemma exec_loadk a n v : instr_at C p = Some (CREATE_ABx (opcode_Z OP_LOADK) a n) -> 0 <= a < 256 -> 0 <= n < 2 ^ 18 ->
  K !! Z.to_nat n = Some v -> exec p R = Ok (p + 1, setreg R a v).
Proof.
  intros Hi Ha Hn Hv. unfold execute1. rewrite (fetch_at _ _ _ Hi), ok_bind. cbv zeta.
  destruct (ABx_fields OP_LOADK a n Ha Hn) as (-> & -> & -> & _). rewrite opcodes_lookup. unfold constant. by rewrite Hv.
Qed.

Lemma exec_loadkx a n v : instr_at C p = Some (CREATE_ABx (opcode_Z OP_LOADKX) a 0) -> 0 <= a < 256 ->
  instr_at C (p + 1) = Some (CREATE_Ax (opcode_Z OP_EXTRAARG) n) -> 0 <= n < 2 ^ 26 -> K !! Z.to_nat n = Some v ->
  exec p R = Ok (p + 2, setreg R a v).
Proof.
  intros Hi Ha Hx Hn Hv. unfold execute1. rewrite (fetch_at _ _ _ Hi), ok_bind. cbv zeta.
  destruct (ABx_fields OP_LOADKX a 0) as (-> & -> & _); [done|lia|]. rewrite opcodes_lookup, (fetch_at _ _ _ Hx), ok_bind.
  destruct (Ax_fields OP_EXTRAARG n Hn) as (_ & -> & _). unfold constant. rewrite Hv. cbn. by replace (p + 1 + 1) with (p + 2) by lia.
Qed.
End Instructions.

(** ** Constants of an unfinished function stay *)

Lemma RK_prefix K K' R x v : K `prefix_of` K' -> RK K R x = Ok v -> RK K' R x = Ok v.
Proof.
  intros HK. unfold RK. destruct (ISK x); [|done]. unfold constant. destruct (K !! _) as [w|] eqn:E; [|done].
  by rewrite (prefix_lookup_Some _ _ _ _ E HK).
Qed.

(** Operands that are registers or constants in range. *)
Definition rk_ok (K : list TValue) (x : Z) : Prop := 0 <= x < 512 /\ (ISK x = true -> (Z.to_nat (INDEXK x) < length K)%nat).

Lemma RK_ok K K' R x : K `prefix_of` K' -> rk_ok K x -> RK K' R x = RK K R x /\ exists v, RK K R x = Ok v.
Proof.
  intros HK [_ Hx]. assert (exists v, RK K R x = Ok v) as [v Hv].
  { unfold RK. destruct (ISK x); [|by eauto]. unfold constant. destruct (lookup_lt_is_Some_2 K (Z.to_nat (INDEXK x))) as [v ->]; [by apply Hx|]. by exists v. }
  rewrite Hv. split; [by eapply RK_prefix|by eauto].
Qed.

(** The operands an instruction reads as constants are in range. *)
Definition reads_ok (K : list TValue) (o : OpCode) (b c : Z) : Prop :=
  match o with
  | OP_ADD | OP_SUB | OP_MUL | OP_DIV | OP_MOD | OP_POW | OP_EQ | OP_LT | OP_LE => rk_ok K b /\ rk_ok K c
  | _ => True
  end.

Lemma run_value_prefix K K' o b c R : K `prefix_of` K' -> reads_ok K o b c -> run_value K' o b c R = run_value K o b c R.
Proof.
  intros HK Hr. destruct o; try done; cbn [run_value arith_of]; destruct Hr as [Hb Hc].
  all: by rewrite (proj1 (RK_ok K K' R b HK Hb)), (proj1 (RK_ok K K' R c HK Hc)).
Qed.

Lemma run_test_prefix K K' o a b c R : is_test o = true -> K `prefix_of` K' -> reads_ok K o b c -> run_test K' o a b c R = run_test K o a b c R.
Proof.
  intros Ho HK Hr. destruct o; try done; cbn [run_test]; destruct Hr as [Hb Hc].
  all: by rewrite (proj1 (RK_ok K K' R b HK Hb)), (proj1 (RK_ok K K' R c HK Hc)).
Qed.

Lemma rk_ok_prefix K K' x : K `prefix_of` K' -> rk_ok K x -> rk_ok K' x.
Proof. intros HK%prefix_length [H1 H2]. split; [done|]. intros Hk%H2. lia. Qed.

Lemma reads_ok_prefix K K' o b c : K `prefix_of` K' -> reads_ok K o b c -> reads_ok K' o b c.
Proof. intros HK. destruct o; try done; intros [Hb Hc]; split; by eapply rk_ok_prefix. Qed.

(** ** Facts about the run of unfinished code *)

Definition vm_step (C : list Z) (K : list TValue) (s s' : Z * regs) : Prop := execute1 rt C K U other (fst s) (snd s) = Ok s'.

Section Start.
Context (S0 : Z * regs).

(** Every final code runs from [S0] to address [p] with registers [R], or to an
    instruction that fails. *)
Definition At (P : Z -> Prop) (fs : FuncState) (p : Z) (R : regs) : Prop :=
  forall C K, agrees C K fs P -> rtc (vm_step C K) S0 (p, R).

Definition Dead (P : Z -> Prop) (fs : FuncState) (e : fault) : Prop :=
  forall C K, agrees C K fs P -> exists p R, rtc (vm_step C K) S0 (p, R) /\ execute1 rt C K U other p R = Err e.

Lemma At_fr O fs O' fs' p R : fr O fs O' fs' -> At O fs p R -> At O' fs' p R.
Proof. intros Hf HA C K HC. by eapply HA, agrees_fr. Qed.

Lemma Dead_fr O fs O' fs' e : fr O fs O' fs' -> Dead O fs e -> Dead O' fs' e.
Proof. intros Hf HA C K HC. by eapply HA, agrees_fr. Qed.

(** One more instruction, of which the final code is known. *)
Lemma At_step O fs p R p' R' :
  At O fs p R -> (forall C K, agrees C K fs O -> execute1 rt C K U other p R = Ok (p', R')) -> At O fs p' R'.
Proof. intros HA Hs C K HC. eapply rtc_r; [by apply HA|]. by apply Hs. Qed.

(** Fewer open positions. *)
Lemma At_mono (O O' : Z -> Prop) fs p R : (forall x, O' x -> O x) -> At O fs p R -> At O' fs p R.
Proof. intros HO HA C K HC. by eapply HA, agrees_mono. Qed.

Lemma Dead_mono (O O' : Z -> Prop) fs e : (forall x, O' x -> O x) -> Dead O fs e -> Dead O' fs e.
Proof. intros HO HA C K HC. by eapply HA, agrees_mono. Qed.

Lemma At_eq O fs p R p' : p = p' -> At O fs p R -> At O fs p' R.
Proof. by intros ->. Qed.

Lemma At_dead O fs p R e :
  At O fs p R -> (forall C K, agrees C K fs O -> execute1 rt C K U other p R = Err e) -> Dead O fs e.
Proof. intros HA Hs C K HC. exists p, R. split; [by apply HA|by apply Hs]. Qed.

End Start.
End Run.

Arguments fr_trans {_ _ _ _ _ _}.
