(* ===== verification/LuaEmit.v ===== *)
(** * Emitting code: where the run is

    The invariant [wf] of a function under construction, the positions that are still
    open ([pend]: jumps without a target and the tests before them; [own0]: those of
    [fs->jpc] and a [LOADNIL] that can still be widened), and [Here]: the run of the code
    so far arrives at the place where the next instruction goes, directly or by a jump
    that is waiting for it.  Emitting an instruction completes what was open. *)

From S2P Require Import Prelude LuaStr LuaRef LuaTab LuaOp LuaNumber LuaCode LuaVm LuaJump LuaRun.

Definition testmode_at (c : list Z) (x : Z) : bool :=
  match instr_at c x with Some i => testTMode (GET_OPCODE i) | None => false end.

(** Jumps of a list, and the [TESTSET]s that control them. *)
Definition pend (c : list Z) (js : list Z) (x : Z) : Prop := x ∈ js \/ (x + 1 ∈ js /\ testset_at c x = true).

(** The last instruction is a [LOADNIL] that [luaK_nil] may widen. *)
Definition mergeable (fs : FuncState) : bool :=
  (lasttarget fs <? pc fs) && match instr_at (code fs) (pc fs - 1) with Some i => isop i OP_LOADNIL | None => false end.

Definition own0 (fs : FuncState) (J : list Z) (x : Z) : Prop :=
  pend (code fs) J x \/ (x = pc fs - 1 /\ mergeable fs = true).

(** A test before a jump of a list. *)
Definition cond_at (fs : FuncState) (j : Z) : Prop :=
  exists o a b c, instr_at (code fs) (j - 1) = Some (ABC o a b c) /\ abc_ok a b c /\ is_test o = true /\
    (o = OP_TESTSET -> a = NO_REG /\ b < 256) /\ reads_ok (k fs) o b c.

(** What an entry of [fs->h] says about a constant. *)
Definition key_of (key : kkey) (v : TValue) : Prop :=
  match v with
  | LNil => key = KTable
  | LBool b => key = KBool b
  | LString s => key = KString s
  | LNumber r => in_u 64 r /\ (key = KNumber r \/ key = KString (le_bytes 8 r))
  | LObject _ => False
  end.

Definition h_ok (fs : FuncState) : Prop :=
  Forall (fun '(key, n) => 0 <= n /\ exists v, k fs !! Z.to_nat n = Some v /\ key_of key v) (h fs).

Record wf (fs : FuncState) (J : list Z) : Prop := {
  wf_jpc : chain (code fs) (jpc fs) J;
  wf_cond : forall j, j ∈ J -> cond_at fs j \/ testmode_at (code fs) (j - 1) = false;
  wf_nodup : NoDup J;
  wf_label : J <> [] -> lasttarget fs = pc fs;
  wf_target : 0 <= lasttarget fs <= pc fs;
  wf_regs : 0 <= nactvar fs <= freereg fs /\ freereg fs < MAXSTACK;
  wf_nil : mergeable fs = true ->
    exists a b, instr_at (code fs) (pc fs - 1) = Some (ABC OP_LOADNIL a b 0) /\ 0 <= a /\ 0 <= b /\ a + b < 256;
  wf_h : h_ok fs;
}.

(** ** Tests *)

Lemma testTMode_op o : testTMode (opcode_Z o) = is_test o.
Proof. by destruct o. Qed.

Lemma testmode_ABC c x o a b cc : instr_at c x = Some (ABC o a b cc) -> abc_ok a b cc -> testmode_at c x = is_test o.
Proof. intros Hi Hok. unfold testmode_at. rewrite Hi. destruct (ABC_fields o a b cc Hok) as (-> & _). apply testTMode_op. Qed.

Lemma testmode_JMP c x o : instr_at c x = Some (JMP 0 o) -> sbx_ok o -> testmode_at c x = false.
Proof. intros Hi Hs. unfold testmode_at. rewrite Hi. by apply JMP_not_test. Qed.

Lemma testset_JMP c x o : instr_at c x = Some (JMP 0 o) -> sbx_ok o -> testset_at c x = false.
Proof. intros Hi Hs. unfold testset_at. rewrite Hi. by apply JMP_not_test. Qed.

Lemma isop_TESTSET o a b c : abc_ok a b c -> isop (ABC o a b c) OP_TESTSET = true -> o = OP_TESTSET.
Proof. intros Hok. rewrite isop_ABC by done. intros E%Z.eqb_eq. by apply opcode_Z_inj. Qed.

Lemma testset_test c x : testset_at c x = true -> testmode_at c x = true.
Proof. unfold testset_at, testmode_at. destruct (instr_at c x); [|done]. unfold isop. by intros ->%Z.eqb_eq. Qed.

Lemma patch_test_ABC b c reg : abc_ok NO_REG b c -> 0 <= reg < 256 -> 0 <= b < 256 ->
  patch_test (ABC OP_TESTSET NO_REG b c) reg =
  if decide (reg = NO_REG \/ reg = b) then ABC OP_TEST b 0 c else ABC OP_TESTSET reg b c.
Proof.
  intros Hok Hr Hb. destruct (ABC_fields OP_TESTSET NO_REG b c Hok) as (_ & _ & EB & EC & _). unfold patch_test. rewrite EB, EC.
  destruct (decide _) as [Hd|Hd].
  - destruct (Z.eqb_spec reg NO_REG), (Z.eqb_spec reg b); cbn [negb andb]; try done. naive_solver.
  - rewrite (proj2 (Z.eqb_neq _ _)), (proj2 (Z.eqb_neq _ _)) by naive_solver. cbn [negb andb]. by rewrite SETARG_A_ABC.
Qed.

(** A list of jumps that are jumps. *)
Definition jumps_in (c : list Z) (js : list Z) : Prop := forall j, j ∈ js -> exists o, instr_at c j = Some (JMP 0 o) /\ sbx_ok o.

Lemma chain_jumps c l js : chain c l js -> jumps_in c js.
Proof. intros Hc j Hj. by eapply chain_jump. Qed.

Lemma pend_range c js x : jumps_in c js -> pend c js x -> 0 <= x < len c.
Proof.
  intros Hj [Hx|[Hx Ht]]; [destruct (Hj x Hx) as (o & Hi & _); by eapply instr_at_range|]. unfold testset_at in Ht.
  destruct (instr_at c x) eqn:E; [|done]. by eapply instr_at_range.
Qed.

(** Different jumps have different tests. *)
Lemma pend_disjoint c js js' x : jumps_in c js -> jumps_in c js' -> (forall j, j ∈ js -> j ∉ js') -> pend c js x -> ~ pend c js' x.
Proof.
  intros H1 H2 Hd [Hx|[Hx Ht]] [Hx'|[Hx' Ht']].
  - by apply (Hd x).
  - destruct (H1 x Hx) as (o & Hi & Hs). by rewrite (testset_JMP _ _ _ Hi Hs) in Ht'.
  - destruct (H2 x Hx') as (o & Hi & Hs). by rewrite (testset_JMP _ _ _ Hi Hs) in Ht.
  - by apply (Hd (x + 1)).
Qed.

Lemma pend_nil c x : ~ pend c [] x.
Proof. unfold pend. set_solver. Qed.

Lemma pend_app c js js' x : pend c (js ++ js') x <-> pend c js x \/ pend c js' x.
Proof. unfold pend. set_solver. Qed.

(** The test of a jump is no jump. *)
Lemma test_not_jump fs js j : jumps_in (code fs) js -> cond_at fs j -> j - 1 ∉ js.
Proof.
  intros Hj (o & a & b & c & Hi & Hok & Ht & _) Hx. destruct (Hj _ Hx) as (o' & Hi' & Hs).
  pose proof (testmode_ABC _ _ _ _ _ _ Hi Hok) as E. rewrite (testmode_JMP _ _ _ Hi' Hs), Ht in E. done.
Qed.

(** The test of a jump is not open for another list. *)
Lemma test_not_pend fs js j : jumps_in (code fs) js -> cond_at fs j -> j ∉ js -> ~ pend (code fs) js (j - 1).
Proof. intros Hj Hc Hn [Hx|[Hx _]]; [by eapply test_not_jump|]. by replace (j - 1 + 1) with j in Hx by lia. Qed.

(** Other instructions are not open. *)
Lemma plain_not_pend c js x o a b cc :
  jumps_in c js -> instr_at c x = Some (ABC o a b cc) -> abc_ok a b cc -> o <> OP_JMP -> o <> OP_TESTSET -> ~ pend c js x.
Proof.
  intros Hj Hi Hok H1 H2 [Hx|[_ Ht]].
  - destruct (Hj x Hx) as (off & Hi' & Hs). assert (ABC o a b cc = JMP 0 off) as E by congruence. destruct (JMP_fields 0 off) as (E2 & _); [lia|done|].
    rewrite <- E, (proj1 (ABC_fields o a b cc Hok)) in E2. by apply opcode_Z_inj in E2.
  - unfold testset_at in Ht. rewrite Hi in Ht. by apply isop_TESTSET in Ht.
Qed.

(** Patching changes open positions only, and no test into something else. *)
Lemma patched_same c c' js vt reg dt x : patched c c' js vt reg dt -> ~ pend c js x -> instr_at c' x = instr_at c x.
Proof.
  intros [_ Hp] Hn. rewrite Hp. rewrite decide_False by (intros Hx; apply Hn; by left). destruct (instr_at c x) as [i|] eqn:Hi; [|done].
  destruct (isop i OP_TESTSET) eqn:Et; [|by rewrite andb_false_r]. rewrite bool_decide_eq_false_2; [done|]. intros Hx. apply Hn. right. split; [done|].
  unfold testset_at. by rewrite Hi.
Qed.

Lemma patched_testmode c c' js vt reg dt x :
  patched c c' js vt reg dt -> jumps_in c js -> (forall j, j ∈ js -> reachable c j vt dt) ->
  0 <= reg < 256 ->
  (forall j, j ∈ js -> testset_at c (j - 1) = true -> exists b cc, instr_at c (j - 1) = Some (ABC OP_TESTSET NO_REG b cc) /\ abc_ok NO_REG b cc /\ 0 <= b < 256) ->
  testmode_at c' x = testmode_at c x.
Proof.
  intros [Hl Hp] Hj Hreach Hreg Hts. unfold testmode_at at 1. rewrite Hp. destruct (decide (x ∈ js)) as [Hx|Hx].
  - destruct (Hj x Hx) as (o & Hi & Hs). rewrite (testmode_JMP _ _ _ Hi Hs). apply JMP_not_test; [lia|]. by apply Hreach.
  - unfold testmode_at. destruct (instr_at c x) as [i|] eqn:Hi; [|done]. destruct (bool_decide _ && _) eqn:E; [|done].
    apply andb_true_iff in E as [E1%bool_decide_eq_true E2]. destruct (Hts (x + 1)) as (b & cc & Hi' & Hok & Hb); [done| |].
    { replace (x + 1 - 1) with x by lia. unfold testset_at. by rewrite Hi. }
    replace (x + 1 - 1) with x in Hi' by lia. rewrite Hi in Hi'. simplify_eq. rewrite patch_test_ABC by done.
    destruct (ABC_fields OP_TESTSET _ _ _ Hok) as (-> & _). unfold abc_ok in Hok. destruct (decide _).
    + destruct (ABC_fields OP_TEST b 0 cc) as (-> & _); [unfold abc_ok; lia|]. done.
    + destruct (ABC_fields OP_TESTSET reg b cc) as (-> & _); [unfold abc_ok; lia|]. done.
Qed.

(** A [LOADNIL] at the end is no jump and controls none. *)
Lemma mergeable_apart fs J : wf fs J -> mergeable fs = true -> ~ pend (code fs) J (pc fs - 1).
Proof.
  intros Hwf Hm [Hx|[Hx _]].
  - destruct (chain_jump _ _ _ _ (wf_jpc _ _ Hwf) Hx) as (o & Ho & Hs). unfold mergeable in Hm. rewrite Ho in Hm.
    unfold isop in Hm. destruct (JMP_fields 0 o) as (E & _); [lia|done|]. rewrite E in Hm. by rewrite andb_false_r in Hm.
  - pose proof (chain_range _ _ _ _ (wf_jpc _ _ Hwf) Hx) as Hr'. change (len (code fs)) with (pc fs) in Hr'. lia.
Qed.

(** ** Emitting one instruction *)

(** [fs'] after [luaK_code i]. *)
Record emitted (fs : FuncState) (J : list Z) (i : Z) (fs' : FuncState) : Prop := {
  em_code : exists c', patched (code fs) c' J (pc fs) NO_REG (pc fs) /\ code fs' = c' ++ [i];
  em_k : k fs' = k fs;
  em_h : h fs' = h fs;
  em_max : maxstacksize fs' = maxstacksize fs;
  em_target : lasttarget fs' = lasttarget fs;
  em_jpc : jpc fs' = NO_JUMP;
  em_nact : nactvar fs' = nactvar fs;
  em_free : freereg fs' = freereg fs;
}.

Lemma wf_reachable fs J j : wf fs J -> pc fs <= MAXARG_sBx -> j ∈ J -> reachable (code fs) j (pc fs) (pc fs).
Proof.
  intros Hwf Hpc Hj. pose proof (chain_range _ _ _ _ (wf_jpc _ _ Hwf) Hj) as Hr. unfold reachable, sbx_ok. change (len (code fs)) with (pc fs) in Hr.
  destruct (testset_at _ _); lia.
Qed.

Lemma wpc_code i fs J (Q : Z -> FuncState -> Prop) :
  wf fs J -> pc fs <= MAXARG_sBx -> (forall fs', emitted fs J i fs' -> Q (pc fs) fs') -> wpc (luaK_code i) fs Q.
Proof.
  intros Hwf Hpc HQ. pose proof (wf_jpc _ _ Hwf) as Hc. pose proof (wf_nodup _ _ Hwf) as Hnd.
  unfold luaK_code. apply wpc_bind. unfold dischargejpc. apply wpc_bind, wpc_getfs, wpc_bind, wpc_getfs, wpc_bind, wpc_getfs, wpc_bind.
  eapply wpc_patchlistaux; [exact Hc|done| | |].
  { pose proof (chain_length _ _ _ Hc Hnd). lia. }
  { intros j Hj. by eapply wf_reachable. }
  intros c' Hp. apply wpc_putfs. apply wpc_bind, wpc_getfs.
  assert (pc (set_jpc NO_JUMP (set_code c' fs)) = pc fs) as -> by (unfold pc; destruct Hp as [Hl _]; unfold len in Hl; cbn; lia).
  rewrite Z.geb_leb, (proj2 (Z.leb_gt _ _)) by (change MAX_INT with 2147483645; change MAXARG_sBx with 131071 in Hpc; lia).
  apply wpc_bind, wpc_putfs, wpc_bind, wpc_putfs, wpc_ret. apply HQ. split; try done. eexists. split; [exact Hp|done].
Qed.

Section Emitted.
Context `{LuaNumber} (rt : runtime) (U : list TValue) (other : Z -> Z -> regs -> res (Z * regs)) (S0 : Z * regs).

Abbreviation At := (At rt U other S0).
Abbreviation Dead := (Dead rt U other S0).

(** A run that is about to take jump [j]. *)
Definition fires (fs : FuncState) (j : Z) (R : regs) : Prop :=
  exists o a b c, instr_at (code fs) (j - 1) = Some (ABC o a b c) /\ abc_ok a b c /\ is_test o = true /\
    (o = OP_TESTSET -> a = NO_REG /\ b < 256) /\ reads_ok (k fs) o b c /\ run_test rt (k fs) o a b c R = Ok true.

Definition Parked (P : Z -> Prop) (fs : FuncState) (j : Z) (R : regs) : Prop :=
  (fires fs j R /\ At P fs (j - 1) R) \/ (testmode_at (code fs) (j - 1) = false /\ At P fs j R).

(** What others own is below and apart from what is owned here. *)
Definition apart (H0 : Z -> Prop) (fs : FuncState) (O : Z -> Prop) : Prop :=
  forall x, H0 x -> 0 <= x < pc fs /\ ~ O x /\ exists i, instr_at (code fs) x = Some i /\ (isop i OP_JMP = true \/ isop i OP_TESTSET = true).

Definition Here (H0 : Z -> Prop) (fs : FuncState) (J : list Z) (R : regs) : Prop :=
  (mergeable fs = false /\ At (fun x => H0 x \/ own0 fs J x) fs (pc fs) R) \/
  (exists a b R', mergeable fs = true /\ instr_at (code fs) (pc fs - 1) = Some (ABC OP_LOADNIL a b 0) /\ (0 <= a /\ 0 <= b /\ a + b < 256) /\
    R = setnils (S (Z.to_nat b)) R' a /\ At (fun x => H0 x \/ own0 fs J x) fs (pc fs - 1) R') \/
  (exists j, j ∈ J /\ Parked (fun x => H0 x \/ own0 fs J x) fs j R).

Lemma apart_disjoint H0 fs O : apart H0 fs O -> forall x, H0 x -> ~ O x.
Proof. intros Ha x Hx. by apply (Ha x Hx). Qed.

Lemma plain_apart H0 fs O x o a b c :
  apart H0 fs O -> instr_at (code fs) x = Some (ABC o a b c) -> abc_ok a b c -> o <> OP_JMP -> o <> OP_TESTSET -> ~ H0 x.
Proof.
  intros Ha Hi Hok H1 H2 Hx. destruct (Ha x Hx) as (_ & _ & i & Hi' & Ho). assert (i = ABC o a b c) as -> by congruence. rewrite !isop_ABC in Ho by done.
  by destruct Ho as [E|E]; apply Z.eqb_eq, opcode_Z_inj in E.
Qed.

Lemma apart_fr H0 O fs O' fs' : apart H0 fs O -> fr O fs O' fs' -> apart H0 fs' O'.
Proof.
  intros Ha (_ & Hl & Hf) x Hx. destruct (Ha x Hx) as (Hr & Hn & Hi). destruct (proj1 (Hf x Hr) Hn) as [-> Hn']. split; [lia|done].
Qed.

Section Instruction.
Context (fs fs' : FuncState) (J : list Z) (i : Z) (Hwf : wf fs J) (Hpc : pc fs <= MAXARG_sBx) (Hem : emitted fs J i fs').

Lemma em_pc : pc fs' = pc fs + 1.
Proof. destruct (em_code _ _ _ _ Hem) as (c' & [Hl _] & E). unfold pc, len in *. rewrite E, length_app. cbn. lia. Qed.

Lemma em_new : instr_at (code fs') (pc fs) = Some i.
Proof.
  destruct (em_code _ _ _ _ Hem) as (c' & [Hl _] & ->). rewrite instr_at_app, decide_True; [done|]. by rewrite Hl.
Qed.

Lemma em_old x : x <> pc fs -> exists c', patched (code fs) c' J (pc fs) NO_REG (pc fs) /\ instr_at (code fs') x = instr_at c' x.
Proof.
  intros Hx. destruct (em_code _ _ _ _ Hem) as (c' & Hp & ->). exists c'. split; [done|]. rewrite instr_at_app, decide_False; [done|].
  destruct Hp as [-> _]. done.
Qed.

Lemma em_same x : x < pc fs -> ~ pend (code fs) J x -> instr_at (code fs') x = instr_at (code fs) x.
Proof. intros Hx Hn. destruct (em_old x) as (c' & Hp & ->); [lia|]. by eapply patched_same. Qed.

(** The open positions are complete; only the new one is open. *)
Lemma em_fr : fr (own0 fs J) fs (fun x => x = pc fs) fs'.
Proof.
  split_and!; [by rewrite (em_k _ _ _ _ Hem)|rewrite em_pc; lia|]. intros x Hx. split.
  - intros Hn. split; [|lia]. apply em_same; [lia|]. intros Hp. apply Hn. by left.
  - intros i0 Hi0 Hopen. destruct (em_old x) as (c' & [_ Hp] & ->); [lia|]. rewrite Hp, Hi0.
    destruct Hopen as (b & c & -> & Hb & Hc). assert (abc_ok NO_REG b c) as Hok by (unfold abc_ok; change NO_REG with 255; lia). rewrite decide_False.
    2: { intros Hx0. destruct (chain_jump _ _ _ _ (wf_jpc _ _ Hwf) Hx0) as (o & Hi & Hs). assert (JMP 0 o = ABC OP_TESTSET NO_REG b c) as E by congruence.
         pose proof (isop_ABC OP_TESTSET NO_REG b c OP_TESTSET Hok) as E2. rewrite <- E, JMP_not_testset in E2 by done. done. }
    destruct (_ && _); eexists; (split; [done|]).
    + rewrite patch_test_ABC by (done || lia). rewrite decide_True by (by left). split; [|right; lia]. exists b, c. split_and!; try done; try lia; by left.
    + split; [|by left]. apply becomes_refl. exists b, c. done.
Qed.

(** The jumps of [fs->jpc] lead to the new instruction. *)
Lemma em_jump j : j ∈ J -> instr_at (code fs') j = Some (JMP 0 (pc fs - (j + 1))) /\ sbx_ok (pc fs - (j + 1)).
Proof.
  intros Hj. pose proof (chain_range _ _ _ _ (wf_jpc _ _ Hwf) Hj) as Hr. change (len (code fs)) with (pc fs) in Hr.
  destruct (em_old j) as (c' & [_ Hp] & ->); [lia|]. rewrite Hp, decide_True by done. split; [by case_match|].
  pose proof (wf_reachable _ _ _ Hwf Hpc Hj) as Hre. unfold reachable in Hre. by destruct (testset_at _ _).
Qed.

Lemma em_test j o a b c : j ∈ J -> instr_at (code fs) (j - 1) = Some (ABC o a b c) -> abc_ok a b c -> is_test o = true ->
  instr_at (code fs') (j - 1) = Some (if decide (o = OP_TESTSET) then ABC OP_TEST b 0 c else ABC o a b c).
Proof.
  intros Hj Hi Hok Ht. pose proof (instr_at_range _ _ _ Hi) as Hr. change (len (code fs)) with (pc fs) in Hr.
  destruct (em_old (j - 1)) as (c' & [_ Hp] & ->); [lia|]. rewrite Hp. rewrite decide_False.
  2: { intros Hin. destruct (chain_jump _ _ _ _ (wf_jpc _ _ Hwf) Hin) as (o' & Hi' & Hs).
       pose proof (testmode_ABC _ _ _ _ _ _ Hi Hok) as E. rewrite (testmode_JMP _ _ _ Hi' Hs), Ht in E. done. }
  rewrite Hi, bool_decide_eq_true_2 by (replace (j - 1 + 1) with j by lia; done). rewrite isop_ABC by done. cbn [andb].
  destruct (decide (o = OP_TESTSET)) as [->|Hne].
  - rewrite Z.eqb_refl. unfold patch_test. rewrite Z.eqb_refl. cbn [negb andb]. by destruct (ABC_fields OP_TESTSET _ _ _ Hok) as (_ & _ & -> & -> & _).
  - rewrite (proj2 (Z.eqb_neq _ _)); [done|]. intros E. by apply Hne, opcode_Z_inj.
Qed.

(** A taken test leads to the target of its jump. *)
Lemma fires_step f f' P j R offset :
  fires f j R -> k f `prefix_of` k f' ->
  (forall o a b c, instr_at (code f) (j - 1) = Some (ABC o a b c) -> abc_ok a b c -> is_test o = true ->
    instr_at (code f') (j - 1) = Some (if decide (o = OP_TESTSET) then ABC OP_TEST b 0 c else ABC o a b c)) ->
  instr_at (code f') j = Some (JMP 0 offset) -> sbx_ok offset -> ~ P j -> ~ P (j - 1) ->
  At P f' (j - 1) R -> At P f' (j + 1 + offset) R.
Proof.
  intros (o & a & b & c & Hi & Hok & Ht & Hts & Hrd & Hrun) HK Hi' Hj Hs Hn1 Hn2 HA. specialize (Hi' _ _ _ _ Hi Hok Ht).
  eapply At_step; [exact HA|]. intros C K HC. pose proof (agrees_at _ _ _ _ _ _ HC Hi' Hn2) as Ci. pose proof (agrees_at _ _ _ _ _ _ HC Hj Hn1) as Cj.
  assert (k f `prefix_of` K) as HK' by (etrans; [exact HK|apply HC]). replace j with (j - 1 + 1) in Cj by lia.
  rewrite <- (run_test_prefix rt _ K) in Hrun by done. unfold abc_ok in Hok. destruct (decide (o = OP_TESTSET)) as [->|Hne].
  - destruct (Hts eq_refl) as [-> Hb]. rewrite (exec_test rt U other C K (j - 1) R OP_TEST b 0 c offset); [|done|done|unfold abc_ok; lia|done|done].
    cbn [run_test] in Hrun |- *. rewrite Hrun. cbn. do 2 f_equal; lia.
  - rewrite (exec_test rt U other C K (j - 1) R o a b c offset) by done. rewrite Hrun. cbn. do 2 f_equal; [lia|]. by destruct o.
Qed.

(** Wherever the run was, it arrives at the new instruction. *)
Lemma em_arrive H0 R : apart H0 fs (own0 fs J) -> Here H0 fs J R -> At (fun x => H0 x \/ x = pc fs) fs' (pc fs) R.
Proof.
  intros Hap Hh. assert (forall x, H0 x -> ~ own0 fs J x) as Hd by (intros x Hx; apply (Hap x Hx)).
  pose proof (fr_frame H0 _ _ _ _ Hd em_fr) as Hfr.
  assert (forall x, 0 <= x < pc fs -> own0 fs J x -> ~ (H0 x \/ x = pc fs)) as Hfree.
  { intros x Hx Ho [Hh0| ->]; [|lia]. by apply (Hap x Hh0). }
  destruct Hh as [[_ HA]|[(a & b & R' & Hm & Hi & Hab & -> & HA)|(j & Hj & Hp)]].
  - by eapply At_fr.
  - pose proof (At_fr _ _ _ _ _ _ _ _ _ _ Hfr HA) as HA'. pose proof (instr_at_range _ _ _ Hi) as Hr. change (len (code fs)) with (pc fs) in Hr.
    assert (Hsame : instr_at (code fs') (pc fs - 1) = Some (ABC OP_LOADNIL a b 0)) by (rewrite em_same; [done|lia|by apply mergeable_apart]).
    apply (At_eq _ _ _ _ _ _ (pc fs - 1 + 1)); [lia|]. eapply At_step; [exact HA'|]. intros C K HC. apply exec_loadnil; [|unfold abc_ok; lia].
    eapply agrees_at; [exact HC|exact Hsame|]. apply Hfree; [lia|]. by right.
  - pose proof (chain_range _ _ _ _ (wf_jpc _ _ Hwf) Hj) as Hr. change (len (code fs)) with (pc fs) in Hr. destruct (em_jump j Hj) as [Ej Es].
    assert (pend (code fs) J j) as Hpj by (by left). assert (~ (H0 j \/ j = pc fs)) as Hnj by (apply Hfree; [lia|by left]).
    apply (At_eq _ _ _ _ _ _ (j + 1 + (pc fs - (j + 1)))); [lia|]. destruct Hp as [[Hf HA]|[Hn HA]].
    + eapply fires_step; [exact Hf|by rewrite (em_k _ _ _ _ Hem)| |exact Ej|done|done| |by eapply At_fr].
      * intros. by apply em_test.
      * destruct Hf as (o & a & b & c & Hi & Hok & Ht & _). pose proof (instr_at_range _ _ _ Hi) as Hr1. change (len (code fs)) with (pc fs) in Hr1.
        intros [Hx|Hx]; [|lia]. destruct (decide (o = OP_TESTSET)) as [->|Hne].
        -- apply (Hd _ Hx). left. right. replace (j - 1 + 1) with j by lia. split; [done|]. unfold testset_at. by rewrite Hi, isop_ABC.
        -- destruct (Hap _ Hx) as (_ & _ & i' & Hi' & Hop). rewrite Hi in Hi'. injection Hi' as <-. rewrite !isop_ABC in Hop by done.
           destruct Hop as [E|E]; apply Z.eqb_eq, opcode_Z_inj in E; subst o; done.
    + eapply At_step; [by eapply At_fr|]. intros C K HC. apply exec_jmp; [|done]. by eapply agrees_at.
Qed.

Lemma em_mergeable : mergeable fs' = isop i OP_LOADNIL.
Proof.
  unfold mergeable. rewrite (em_target _ _ _ _ Hem), em_pc. replace (pc fs + 1 - 1) with (pc fs) by lia. rewrite em_new.
  pose proof (wf_target _ _ Hwf). by rewrite (proj2 (Z.ltb_lt _ _)) by lia.
Qed.

Lemma em_own0 x : own0 fs' [] x -> x = pc fs /\ isop i OP_LOADNIL = true.
Proof. intros [Hx|[E Hm]]; [by apply pend_nil in Hx|]. pose proof em_pc. rewrite em_mergeable in Hm. split; [lia|done]. Qed.

Lemma em_wf : (isop i OP_LOADNIL = true -> exists a b, i = ABC OP_LOADNIL a b 0 /\ 0 <= a /\ 0 <= b /\ a + b < 256) -> wf fs' [].
Proof.
  intros Hnil. pose proof Hwf as []. split.
  - by rewrite (em_jpc _ _ _ _ Hem).
  - intros j Hj. by apply elem_of_nil in Hj.
  - constructor.
  - done.
  - rewrite (em_target _ _ _ _ Hem), em_pc. lia.
  - by rewrite (em_nact _ _ _ _ Hem), (em_free _ _ _ _ Hem).
  - rewrite em_mergeable. intros (a & b & E & Hr)%Hnil. exists a, b. rewrite <- E, em_pc. replace (pc fs + 1 - 1) with (pc fs) by lia. by rewrite em_new.
  - unfold h_ok. by rewrite (em_k _ _ _ _ Hem), (em_h _ _ _ _ Hem).
Qed.

(** Emitting an instruction that is final. *)
Lemma em_fr' : fr (own0 fs J) fs (own0 fs' []) fs'.
Proof. eapply fr_weaken; [exact em_fr|done|]. intros x Hx [-> _]%em_own0. lia. Qed.

(** The test modes of old instructions. *)
Lemma em_testmode x : x < pc fs -> testmode_at (code fs') x = testmode_at (code fs) x.
Proof.
  intros Hx. assert (exists c', patched (code fs) c' J (pc fs) NO_REG (pc fs) /\ instr_at (code fs') x = instr_at c' x) as (c' & Hp & E) by (apply em_old; lia).
  unfold testmode_at at 1. rewrite E. fold (testmode_at c' x). eapply patched_testmode; [exact Hp| | |done|].
  - eapply chain_jumps, Hwf.
  - intros j Hj. by eapply wf_reachable.
  - intros j Hj Ht. destruct (wf_cond _ _ Hwf j Hj) as [(o & a & b & c & Hi & Hok & Ho & Hts & _)|Hn].
    + unfold testset_at in Ht. rewrite Hi in Ht. apply isop_TESTSET in Ht as ->; [|done]. destruct (Hts eq_refl) as [-> Hb]. unfold abc_ok in Hok. exists b, c. split_and!; try done; lia.
    + by rewrite (testset_test _ _ Ht) in Hn.
Qed.
End Instruction.

(** ** Changes that leave the code alone *)

Record ext (fs fs' : FuncState) : Prop := {
  ext_code : code fs' = code fs;
  ext_target : lasttarget fs' = lasttarget fs;
  ext_jpc : jpc fs' = jpc fs;
  ext_nact : nactvar fs' = nactvar fs;
  ext_k : k fs `prefix_of` k fs';
}.

Section Ext.
Context (fs fs' : FuncState) (Hext : ext fs fs').

Lemma ext_pc : pc fs' = pc fs.
Proof. unfold pc. by rewrite (ext_code _ _ Hext). Qed.

Lemma ext_mergeable : mergeable fs' = mergeable fs.
Proof. unfold mergeable. by rewrite (ext_target _ _ Hext), ext_pc, (ext_code _ _ Hext). Qed.

Lemma ext_own0 J x : own0 fs' J x <-> own0 fs J x.
Proof. unfold own0. by rewrite ext_mergeable, ext_pc, (ext_code _ _ Hext). Qed.

Lemma ext_fr (O O' : Z -> Prop) : (forall x, O' x -> O x) -> fr O fs O' fs'.
Proof.
  intros HO. split_and!; [apply Hext|rewrite ext_pc; lia|]. intros x _. rewrite (ext_code _ _ Hext). split; [by auto|].
  intros i Hi Ho. exists i. split_and!; [done|by apply becomes_refl|by left].
Qed.

Lemma ext_cond j : cond_at fs j -> cond_at fs' j.
Proof.
  intros (o & a & b & c & Hi & Hok & Ht & Hts & Hr). exists o, a, b, c. rewrite (ext_code _ _ Hext). split_and!; try done.
  eapply reads_ok_prefix; [apply Hext|done].
Qed.

Lemma ext_fires j R : fires fs j R -> fires fs' j R.
Proof.
  intros (o & a & b & c & Hi & Hok & Ht & Hts & Hr & Hrun). exists o, a, b, c. rewrite (ext_code _ _ Hext). split_and!; try done.
  - eapply reads_ok_prefix; [apply Hext|done].
  - rewrite (run_test_prefix rt (k fs)); [done|done|apply Hext|done].
Qed.

Lemma ext_At (O O' : Z -> Prop) p R : (forall x, O' x -> O x) -> At O fs p R -> At O' fs' p R.
Proof. intros HO. apply At_fr. by apply ext_fr. Qed.

Lemma ext_Here H0 J R : Here H0 fs J R -> Here H0 fs' J R.
Proof.
  assert (forall x, H0 x \/ own0 fs' J x -> H0 x \/ own0 fs J x) as HO by (intros x; rewrite ext_own0; tauto).
  unfold Here. rewrite ext_mergeable, ext_pc, (ext_code _ _ Hext).
  intros [[Hm HA]|[(a & b & R' & Hm & Hi & Hab & -> & HA)|(j & Hj & Hp)]].
  - left. split; [done|]. exact (ext_At _ _ _ _ HO HA).
  - right. left. exists a, b, R'. split_and!; try done; try lia. exact (ext_At _ _ _ _ HO HA).
  - right. right. exists j. split; [done|]. destruct Hp as [[Hf HA]|[Ht HA]]; [left|right].
    + split; [by apply ext_fires|exact (ext_At _ _ _ _ HO HA)].
    + rewrite (ext_code _ _ Hext). split; [done|exact (ext_At _ _ _ _ HO HA)].
Qed.

Lemma ext_wf J : wf fs J -> h_ok fs' -> 0 <= nactvar fs <= freereg fs' /\ freereg fs' < MAXSTACK -> wf fs' J.
Proof.
  intros [] Hh Hr. split; try done.
  - by rewrite (ext_code _ _ Hext), (ext_jpc _ _ Hext).
  - intros j Hj. destruct (wf_cond0 j Hj); [left; by apply ext_cond|right; by rewrite (ext_code _ _ Hext)].
  - by rewrite (ext_target _ _ Hext), ext_pc.
  - by rewrite (ext_target _ _ Hext), ext_pc.
  - by rewrite (ext_nact _ _ Hext).
  - by rewrite ext_mergeable, ext_pc, (ext_code _ _ Hext).
Qed.
End Ext.
End Emitted.
