(* ===== verification/LuaDesc.v ===== *)
(** * Descriptors of expressions

    [wfe] is the invariant of an [expdesc] in a function under construction; [T] and [F]
    are its lists of jumps on true and on false, [J] the list [fs->jpc] and [base] the
    first free register before the expression.  [Out] says what a descriptor promises of
    the run: it failed as the expression fails, or it left through a jump of [T] or [F]
    with a value of that truth, or it is where the kind of the descriptor says and the
    value is there. *)

From S2P Require Import Prelude LuaStr LuaRef LuaTab LuaOp LuaNumber LuaCode LuaVm LuaJump LuaRun LuaEmit.

(** Registers below [n] are the same. *)
Definition same (n : Z) (R R' : regs) : Prop := forall r, r < n -> R' r = R r.

Lemma same_refl n R : same n R R.
Proof. by intros r. Qed.
Lemma same_trans n n' R1 R2 R3 : n <= n' -> same n R1 R2 -> same n' R2 R3 -> same n R1 R3.
Proof. intros Hn H1 H2 r Hr. rewrite H2, H1 by lia. done. Qed.
Lemma same_setreg n R r v : n <= r -> same n R (setreg R r v).
Proof. intros Hr x Hx. unfold setreg. by rewrite (proj2 (Z.eqb_neq _ _)) by lia. Qed.
Lemma setreg_eq R r v : setreg R r v r = v.
Proof. unfold setreg. by rewrite Z.eqb_refl. Qed.
Lemma setreg_ne R r v x : x <> r -> setreg R r v x = R x.
Proof. intros Hx. unfold setreg. by rewrite (proj2 (Z.eqb_neq _ _)) by lia. Qed.

(** Positions that wait for the kind of the descriptor. *)
Definition own_kind (kk : expkind) (x : Z) : Prop :=
  match kk with VRELOCABLE p => x = p | VJMP j => x = j \/ x = j - 1 | _ => False end.

Definition own (fs : FuncState) (J : list Z) (kk : expkind) (L : list Z) (x : Z) : Prop :=
  own0 fs J x \/ pend (code fs) L x \/ own_kind kk x.

(** Kinds whose value is loaded by code that is not emitted yet. *)
Definition simple (kk : expkind) : Prop := match kk with VRELOCABLE _ | VJMP _ => False | _ => True end.

Lemma kind_cases kk : simple kk \/ (exists p, kk = VRELOCABLE p) \/ (exists j, kk = VJMP j).
Proof. destruct kk; cbn; eauto. Qed.

Definition kind_ok (base : Z) (fs : FuncState) (J L : list Z) (kk : expkind) : Prop :=
  match kk with
  | VNIL | VTRUE | VFALSE => True
  | VK i => 0 <= i < nk fs
  | VKNUM r => in_u 64 r
  | VNONRELOC r => 0 <= r < nactvar fs \/ r = base
  | VLOCAL r => 0 <= r < nactvar fs
  | VUPVAL u => 0 <= u < 256
  | VRELOCABLE p =>
      p = pc fs - 1 /\ J = [] /\ exists o b c, instr_at (code fs) p = Some (ABC o 0 b c) /\ abc_ok 0 b c /\ is_value o = true /\
        reads_ok (k fs) o b c /\ (o = OP_CONCAT -> b = base /\ b < c < 256) /\ (o = OP_NOT -> b < 256)
  | VJMP j =>
      j = pc fs - 1 /\ J = [] /\ instr_at (code fs) j = Some (JMP 0 NO_JUMP) /\ j ∉ L /\
      exists o a b c, instr_at (code fs) (j - 1) = Some (ABC o a b c) /\ abc_ok a b c /\
        (o = OP_EQ \/ o = OP_LT \/ o = OP_LE) /\ (a = 0 \/ a = 1) /\ reads_ok (k fs) o b c
  | _ => False
  end.

Record wfe (base : Z) (fs : FuncState) (J : list Z) (e : expdesc) (T F : list Z) : Prop := {
  we_wf : wf fs J;
  we_T : chain (code fs) (et e) T;
  we_F : chain (code fs) (ef e) F;
  we_cond : forall j, j ∈ T ++ F -> cond_at fs j;
  we_nodup : NoDup ((T ++ F) ++ J);
  we_kind : kind_ok base fs J (T ++ F) (ek e);
  we_base : 0 <= base < MAXSTACK;
}.

(** ** Ownership *)

Section Shape.
Context (base : Z) (fs : FuncState) (J : list Z) (e : expdesc) (T F : list Z) (Hwe : wfe base fs J e T F).

Lemma we_jumps : jumps_in (code fs) (T ++ F).
Proof. intros j [Hj|Hj]%elem_of_app; [exact (chain_jumps _ _ _ (we_T _ _ _ _ _ _ Hwe) j Hj)|exact (chain_jumps _ _ _ (we_F _ _ _ _ _ _ Hwe) j Hj)]. Qed.

Lemma we_below j : j ∈ T ++ F -> j < pc fs.
Proof. intros Hj. destruct (we_jumps j Hj) as (o & Hi & _). apply instr_at_range in Hi. change (len (code fs)) with (pc fs) in Hi. lia. Qed.

Lemma we_disjoint j : j ∈ T ++ F -> j ∉ J.
Proof. pose proof (we_nodup _ _ _ _ _ _ Hwe) as (_ & Hd & _)%NoDup_app. apply Hd. Qed.

(** The lists of the descriptor and [fs->jpc] have no position in common. *)
Lemma we_lists x : pend (code fs) (T ++ F) x -> 0 <= x < pc fs /\ ~ own0 fs J x.
Proof.
  intros Hx. split; [by eapply pend_range; [exact we_jumps|]|]. intros [Hj|[-> Hm]].
  - revert Hj. eapply pend_disjoint; [exact we_jumps|eapply chain_jumps, (wf_jpc _ _ (we_wf _ _ _ _ _ _ Hwe))|exact we_disjoint|done].
  - unfold mergeable in Hm. apply andb_true_iff in Hm as [_ Hm]. destruct Hx as [Hx|[Hx Ht]].
    + destruct (we_jumps _ Hx) as (o & Hi & Hs). rewrite Hi in Hm. unfold isop in Hm. by destruct (JMP_fields 0 o) as (E & _); [lia|done|rewrite E in Hm].
    + destruct (we_jumps _ Hx) as (o & Hi & _). apply instr_at_range in Hi. change (len (code fs)) with (pc fs) in Hi. lia.
Qed.

Lemma we_apart H0 : apart H0 fs (own fs J (ek e) (T ++ F)) -> apart (fun x => H0 x \/ pend (code fs) (T ++ F) x) fs (own0 fs J).
Proof.
  intros Ha x [Hx|Hx].
  - destruct (Ha x Hx) as (Hr & Hn & Hi). split_and!; [lia|lia| |done]. intros Ho. apply Hn. by left.
  - destruct (we_lists x Hx) as [Hr Hn]. split_and!; [lia|lia|done|]. destruct Hx as [Hx|[_ Ht]].
    + destruct (we_jumps x Hx) as (o & Hi & Hs). exists (JMP 0 o). split; [done|]. left. unfold isop. by destruct (JMP_fields 0 o) as (-> & _); [lia|done|].
    + unfold testset_at in Ht. destruct (instr_at (code fs) x) as [i|]; [|done]. eauto.
Qed.

(** Before an emission the jumps stay as they are. *)
Section Emission.
Context (i : Z) (fs' : FuncState) (Hem : emitted fs J i fs') (Hpc : pc fs <= MAXARG_sBx).

Lemma we_em_same x : pend (code fs) (T ++ F) x -> instr_at (code fs') x = instr_at (code fs) x.
Proof.
  intros [Hr Hn]%we_lists. eapply em_same; [exact Hem|lia|]. intros Hp. apply Hn. by left.
Qed.

Lemma we_em_jump j : j ∈ T ++ F -> instr_at (code fs') j = instr_at (code fs) j /\ instr_at (code fs') (j - 1) = instr_at (code fs) (j - 1).
Proof.
  intros Hj. split; [apply we_em_same; by left|]. pose proof (we_below j Hj). eapply em_same; [exact Hem|lia|].
  apply test_not_pend; [eapply chain_jumps, (wf_jpc _ _ (we_wf _ _ _ _ _ _ Hwe))|by apply Hwe|by apply we_disjoint].
Qed.

Lemma we_em_pend x : x <> pc fs -> pend (code fs') (T ++ F) x <-> pend (code fs) (T ++ F) x.
Proof.
  intros Hx. unfold pend. assert (x + 1 ∈ T ++ F -> testset_at (code fs') x = testset_at (code fs) x) as Ht; [|naive_solver congruence].
  intros Hj. unfold testset_at. destruct (we_em_jump _ Hj) as [_ E]. replace (x + 1 - 1) with x in E by lia. by rewrite E.
Qed.

Lemma we_em_pend_new : ~ pend (code fs') (T ++ F) (pc fs).
Proof.
  pose proof we_below as Hb.
  intros [Hy|[Hy _]]; apply Hb in Hy; lia.
Qed.

Lemma we_em_cond j : j ∈ T ++ F -> cond_at fs' j.
Proof.
  intros Hj. destruct (we_cond _ _ _ _ _ _ Hwe j Hj) as (o & a & b & c & Hi & Hrest). exists o, a, b, c.
  rewrite (proj2 (we_em_jump j Hj)), (em_k _ _ _ _ Hem). done.
Qed.

(** The descriptor after an emission that gives it a new kind. *)
Lemma we_em kk :
  simple (ek e) -> (forall x, own_kind kk x -> x = pc fs) ->
  (isop i OP_LOADNIL = true -> exists a b, i = ABC OP_LOADNIL a b 0 /\ 0 <= a /\ 0 <= b /\ a + b < 256) ->
  kind_ok base fs' [] (T ++ F) kk ->
  wfe base fs' [] (with_kind e kk) T F /\ fr (own fs J (ek e) (T ++ F)) fs (own fs' [] kk (T ++ F)) fs' /\
  (forall j, j ∈ T ++ F -> instr_at (code fs') (j - 1) = instr_at (code fs) (j - 1)).
Proof.
  intros Hs Hk Hnil Hkind. pose proof (we_wf _ _ _ _ _ _ Hwe) as Hwf. split_and!.
  - split; try done.
    + by eapply em_wf.
    + eapply chain_ext; [|apply Hwe]. intros j Hj. apply we_em_jump. set_solver.
    + eapply chain_ext; [|apply (we_F _ _ _ _ _ _ Hwe)]. intros j Hj. apply we_em_jump. set_solver.
    + exact we_em_cond.
    + pose proof (we_nodup _ _ _ _ _ _ Hwe) as (Hn & _ & _)%NoDup_app. by rewrite app_nil_r.
    + apply Hwe.
  - eapply fr_weaken; [exact (em_fr' _ _ _ _ Hwf Hem)| |].
    + intros x _ Hx. by left.
    + intros x Hx [Ho|[Hp|Hkx]]; [by left| |apply Hk in Hkx; lia]. right.
      apply we_em_pend in Hp; [|lia]. split; [by right; left|by apply we_em_same].
  - intros j Hj. by apply we_em_jump.
Qed.
End Emission.
End Shape.
Lemma hasjumps_false base fs J e T F : wfe base fs J e T F -> hasjumps e = false -> T = [] /\ F = [] /\ et e = NO_JUMP /\ ef e = NO_JUMP.
Proof.
  intros [_ HT HF _ Hnd _ _] Hh. unfold hasjumps in Hh. apply negb_false_iff, Z.eqb_eq in Hh. destruct T as [|j T].
  - cbn in HT. rewrite <- Hh, HT in HF. pose proof (chain_NO_JUMP _ _ HF) as ->. split_and!; try done. congruence.
  - pose proof HT as (Ej & _). destruct F as [|j' F]; [|pose proof HF as (Ej' & _)].
    + cbn in HF. rewrite Hh, HF in HT. by apply chain_NO_JUMP in HT.
    + exfalso. cbn in Hnd. apply NoDup_cons in Hnd as [Hn _]. apply Hn. assert (j = j') as -> by congruence. set_solver.
Qed.

(** A changed instruction that is not listed. *)
Lemma we_upd base fs e T F x i kk :
  wfe base fs [] e T F -> 0 <= x < pc fs -> x ∉ T ++ F -> x + 1 ∉ T ++ F -> testset_at (code fs) x = false ->
  own fs [] (ek e) (T ++ F) x ->
  let fs' := set_code (upd (code fs) x i) fs in
  (mergeable fs' = true -> own fs [] (ek e) (T ++ F) (pc fs - 1) /\
    exists a b, instr_at (code fs') (pc fs - 1) = Some (ABC OP_LOADNIL a b 0) /\ 0 <= a /\ 0 <= b /\ a + b < 256) ->
  (forall y, own_kind kk y -> own fs [] (ek e) (T ++ F) y) -> kind_ok base fs' [] (T ++ F) kk ->
  wfe base fs' [] (with_kind e kk) T F /\ fr (own fs [] (ek e) (T ++ F)) fs (own fs' [] kk (T ++ F)) fs' /\
  (forall y, pend (code fs') (T ++ F) y <-> pend (code fs) (T ++ F) y) /\
  (forall j, j ∈ T ++ F -> instr_at (code fs') (j - 1) = instr_at (code fs) (j - 1)).
Proof.
  intros Hwe Hx Hn1 Hn2 Ht Hox fs' Hnil Hkk Hkind. assert (pc fs' = pc fs) as Epc by (apply (len_upd (code fs) x i)).
  assert (forall y, y <> x -> instr_at (code fs') y = instr_at (code fs) y) as Hsame by (intros y Hy; unfold fs'; cbn; by rewrite instr_at_upd, decide_False).
  assert (forall j, j ∈ T ++ F -> instr_at (code fs') j = instr_at (code fs) j /\ instr_at (code fs') (j - 1) = instr_at (code fs) (j - 1)) as Hj.
  { intros j Hj. split; apply Hsame; intros <-; [done|]. by replace (j - 1 + 1) with j in Hn2 by lia. }
  assert (forall y, pend (code fs') (T ++ F) y <-> pend (code fs) (T ++ F) y) as Hp.
  { intros y. assert (y + 1 ∈ T ++ F -> testset_at (code fs') y = testset_at (code fs) y) as E; [|unfold pend; naive_solver congruence].
    intros Hy. unfold testset_at. rewrite Hsame; [done|]. by intros ->. }
  pose proof Hwe as [[Wj Wc Wn Wl Wt Wr Wni Wh] HT HF Hc Hnd Hk Hb]. split_and!.
  - split; [split|..]; try done.
    + intros j Hjj. by apply elem_of_nil in Hjj.
    + by rewrite Epc.
    + intros Hm. rewrite Epc. by destruct (Hnil Hm) as [_ ?].
    + eapply chain_ext; [|exact HT]. intros j Hjj. apply Hj. set_solver.
    + eapply chain_ext; [|exact HF]. intros j Hjj. apply Hj. set_solver.
    + intros j Hjj. destruct (Hc j Hjj) as (o & a & b & c & Hi & Hrest). exists o, a, b, c. by rewrite (proj2 (Hj j Hjj)).
  - split_and!; [done|lia|]. intros y Hy. split.
    + intros Hno. split; [apply Hsame; intros ->; done|]. intros [[Ho|[Ey Hm]]|[Ho|Ho]].
      * by apply pend_nil in Ho.
      * apply Hno. rewrite Epc in Ey. subst y. by apply Hnil.
      * apply Hno. right. left. by apply Hp.
      * by apply Hno, Hkk.
    + intros i0 Hi0 Hopen. exists i0. split_and!; [|by apply becomes_refl|by left]. rewrite Hsame; [done|]. intros ->.
      destruct Hopen as (b & c & -> & Hb2 & Hc2). unfold testset_at in Ht. rewrite Hi0, isop_ABC in Ht; [done|]. unfold abc_ok. change NO_REG with 255. lia.
  - done.
  - intros j Hjj. by apply Hj.
Qed.

(** ** Changes beside the code *)

Lemma kind_ok_ext base fs fs' J L kk : ext fs fs' -> kind_ok base fs J L kk -> kind_ok base fs' J L kk.
Proof.
  intros Hx. pose proof (prefix_length _ _ (ext_k _ _ Hx)) as Hl. destruct kk as [| | | |i|n|r|r|u| |j|p| |]; cbn; rewrite ?(ext_pc _ _ Hx), ?(ext_code _ _ Hx), ?(ext_nact _ _ Hx); try done.
  - unfold nk. lia.
  - intros (-> & -> & Hj & Hn & o & a & b & c & Hi & Hok & Ho & Ha & Hr). split_and!; try done. exists o, a, b, c. split_and!; try done.
    eapply reads_ok_prefix; [apply Hx|done].
  - intros (-> & -> & o & b & c & Hi & Hok & Hv & Hr & Hrest). split_and!; try done. exists o, b, c. split_and!; try done.
    + eapply reads_ok_prefix; [apply Hx|done].
    + apply Hrest.
    + apply Hrest.
Qed.

Lemma wfe_ext base fs fs' J e T F :
  wfe base fs J e T F -> ext fs fs' -> h_ok fs' -> 0 <= nactvar fs <= freereg fs' /\ freereg fs' < MAXSTACK -> wfe base fs' J e T F.
Proof.
  intros [W HT HF Hc Hn Hk Hb] Hx Hh Hr. split; try done.
  - by apply (ext_wf fs).
  - by rewrite (ext_code _ _ Hx).
  - by rewrite (ext_code _ _ Hx).
  - intros j Hj. apply (ext_cond fs); [done|]. by apply Hc.
  - by apply (kind_ok_ext base fs).
Qed.

Lemma own_ext fs fs' J kk L x : ext fs fs' -> own fs' J kk L x <-> own fs J kk L x.
Proof. intros Hx. unfold own. by rewrite (ext_own0 fs fs' Hx), (ext_code _ _ Hx). Qed.

(** ** What a descriptor promises *)

Section Descriptors.
Context `{LuaNumber} (rt : runtime) (U : list TValue) (other : Z -> Z -> regs -> res (Z * regs)) (S0 : Z * regs).

Abbreviation At := (At rt U other S0).
Abbreviation Dead := (Dead rt U other S0).
Abbreviation Here := (Here rt U other S0).
Abbreviation fires := (fires rt).

Definition kval (fs : FuncState) (kk : expkind) (R : regs) : res TValue :=
  match kk with
  | VNIL => Ok LNil
  | VTRUE => Ok (LBool true)
  | VFALSE => Ok (LBool false)
  | VK i => of_option Undefined (k fs !! Z.to_nat i)
  | VKNUM r => Ok (LNumber r)
  | VNONRELOC r | VLOCAL r => Ok (R r)
  | VUPVAL u => of_option Undefined (U !! Z.to_nat u)
  | _ => Err Undefined
  end.

Definition Main (base : Z) (H0 : Z -> Prop) (fs : FuncState) (J : list Z) (kk : expkind) (L : list Z) (R : regs) (rv : res TValue) : Prop :=
  match kk with
  | VRELOCABLE p =>
      At (fun x => H0 x \/ own fs J kk L x) fs p R /\
      exists o b c, instr_at (code fs) p = Some (ABC o 0 b c) /\ abc_ok 0 b c /\ rv = fst <$> run_value rt U (k fs) o b c R /\
        forall v R', run_value rt U (k fs) o b c R = Ok (v, R') -> same base R R'
  | VJMP j =>
      At (fun x => H0 x \/ own fs J kk L x) fs (j - 1) R /\
      exists o a b c, instr_at (code fs) (j - 1) = Some (ABC o a b c) /\ abc_ok a b c /\ rv = LBool <$> run_test rt (k fs) o a b c R
  | _ => Here (fun x => H0 x \/ pend (code fs) L x) fs J R /\ rv = kval fs kk R
  end.

(** The test before jump [j] lets the run go, with value [v] of truth [t]. *)
Definition leaves (fs : FuncState) (j : Z) (R : regs) (t : bool) (v : TValue) : Prop :=
  fires fs j R /\ l_isfalse v = negb t /\
  forall o a b c, instr_at (code fs) (j - 1) = Some (ABC o a b c) -> abc_ok a b c ->
    v = if decide (o = OP_TESTSET) then R b else LBool t.

Definition Exit (H0 : Z -> Prop) (fs : FuncState) (O : Z -> Prop) (j : Z) (R : regs) (t : bool) (v : TValue) : Prop :=
  leaves fs j R t v /\ At (fun x => H0 x \/ O x) fs (j - 1) R.

Definition Out (base : Z) (H0 : Z -> Prop) (fs : FuncState) (J : list Z) (kk : expkind) (T F : list Z) (R : regs) (rv : res TValue) : Prop :=
  (exists er, rv = Err er /\ Dead (fun x => H0 x \/ own fs J kk (T ++ F) x) fs er) \/
  (exists R1, same base R R1 /\ Main base H0 fs J kk (T ++ F) R1 rv) \/
  (exists R1 t j v, same base R R1 /\ rv = Ok v /\ j ∈ (if (t : bool) then T else F) /\ Exit H0 fs (own fs J kk (T ++ F)) j R1 t v).

(** ** Transport *)

Lemma Main_simple base H0 fs J kk L R rv :
  simple kk -> Main base H0 fs J kk L R rv <-> Here (fun x => H0 x \/ pend (code fs) L x) fs J R /\ rv = kval fs kk R.
Proof. by destruct kk. Qed.


Lemma leaves_ext fs fs' j R t v :
  instr_at (code fs') (j - 1) = instr_at (code fs) (j - 1) -> k fs `prefix_of` k fs' -> leaves fs j R t v -> leaves fs' j R t v.
Proof.
  intros Ei HK ((o & a & b & c & Hi & Hok & Ht & Hts & Hr & Hrun) & Hv & Hval). split_and!; [|done|by rewrite Ei].
  exists o, a, b, c. rewrite Ei. split_and!; try done; [by eapply reads_ok_prefix|]. by rewrite (run_test_prefix rt (k fs)).
Qed.

Lemma Out_carry base H0 fs J kk T F fs' J' kk' T' F' R rv :
  apart H0 fs (own fs J kk (T ++ F)) -> fr (own fs J kk (T ++ F)) fs (own fs' J' kk' (T' ++ F')) fs' ->
  (forall j, j ∈ T -> j ∈ T') -> (forall j, j ∈ F -> j ∈ F') ->
  (forall j, j ∈ T ++ F -> instr_at (code fs') (j - 1) = instr_at (code fs) (j - 1)) ->
  (forall R1, same base R R1 -> Main base H0 fs J kk (T ++ F) R1 rv -> Out base H0 fs' J' kk' T' F' R rv) ->
  Out base H0 fs J kk T F R rv -> Out base H0 fs' J' kk' T' F' R rv.
Proof.
  intros Hap Hfr HT HF Hi HM. pose proof (fr_frame H0 _ _ _ _ (apart_disjoint _ _ _ Hap) Hfr) as Hfr'.
  intros [(er & -> & HD)|[(R1 & Hs & Hm)|(R1 & t & j & v & Hs & -> & Hj & Hl & HA)]].
  - left. exists er. split; [done|]. by eapply Dead_fr.
  - by apply (HM R1).
  - right. right. exists R1, t, j, v. split_and!; try done; [destruct t; auto|]. split.
    + eapply leaves_ext; [|apply Hfr|exact Hl]. apply Hi. destruct t; set_solver.
    + by eapply At_fr.
Qed.

End Descriptors.
