(* ===== verification/LuaPlace.v ===== *)
(** * Loading values into registers

    The constants of a function, the allocation of registers, and [discharge2reg], which
    emits the code that loads the value of a descriptor into a register. *)

From S2P Require Import Prelude LuaStr LuaRef LuaTab LuaOp LuaNumber LuaCode LuaVm LuaJump LuaRun LuaEmit LuaDesc.

(** ** Resources *)

Definition room (n : Z) (fs : FuncState) : Prop := pc fs + n <= MAXARG_sBx /\ nk fs + n <= MAXARG_Ax.

Definition cost (n : Z) (fs fs' : FuncState) : Prop := pc fs' <= pc fs + n /\ nk fs' <= nk fs + n.

Lemma cost_refl n fs : 0 <= n -> cost n fs fs.
Proof. unfold cost. lia. Qed.

Lemma cost_trans n m fs fs1 fs2 : cost n fs fs1 -> cost m fs1 fs2 -> cost (n + m) fs fs2.
Proof. unfold cost. lia. Qed.

Lemma room_cost n m fs fs' : room (n + m) fs -> cost n fs fs' -> room m fs'.
Proof. unfold room, cost. lia. Qed.

Lemma room_le n m fs : room n fs -> m <= n -> room m fs.
Proof. unfold room. lia. Qed.

Lemma cost_le n m fs fs' : cost n fs fs' -> n <= m -> cost m fs fs'.
Proof. unfold cost. lia. Qed.

(** ** Constants *)

Section Constants.
Context `{LuaNumber}.

Lemma h_find_Some key l n : h_find key l = Some n -> (key, n) ∈ l.
Proof.
  induction l as [|[key' n'] l IH]; [done|]. cbn [h_find]. destruct (decide (key = key')) as [->|]; [intros [= ->]; set_solver|].
  intros E%IH. set_solver.
Qed.

Lemma le_bytes_inj r r' : in_u 64 r -> in_u 64 r' -> le_bytes 8 r = le_bytes 8 r' -> r = r'.
Proof.
  intros Hr Hr' E. apply (f_equal le_value) in E. rewrite !le_value_bytes in E. unfold in_u in *.
  change (256 ^ Z.of_nat 8) with (2 ^ 64) in E. by rewrite !Z.mod_small in E.
Qed.

(** A constant found under a key and equal to the wanted one is the wanted one. *)
Lemma key_exact key v w : key_of key v -> key_of key w -> rawequalobj w v = true -> w = v.
Proof.
  intros Hv Hw He. destruct v as [|b|r|s|o], w as [|b'|r'|s'|o']; cbn [key_of rawequalobj] in *; try done.
  - congruence.
  - f_equal. destruct Hv as [Hr [->| ->]], Hw as [Hr' [E|E]]; try discriminate E; [congruence|]. assert (le_bytes 8 r = le_bytes 8 r') as E' by congruence.
    symmetry. by apply le_bytes_inj.
  - congruence.
Qed.

(** The constant is in the table of constants, under a valid index. *)
Definition has_k (fs fs' : FuncState) (v : TValue) (n : Z) : Prop :=
  0 <= n < nk fs' /\ n <= nk fs /\ k fs' !! Z.to_nat n = Some v /\ ext fs fs' /\ h_ok fs' /\ freereg fs' = freereg fs /\ nk fs' <= nk fs + 1.

Lemma wpc_addk key v fs (Q : Z -> FuncState -> Prop) :
  h_ok fs -> key_of key v -> nk fs < MAXARG_Ax -> (forall n fs', has_k fs fs' v n -> Q n fs') -> wpc (addk key v) fs Q.
Proof.
  intros Hh Hk Hn HQ.
  assert (Hnew : Q (nk fs) (set_k (k fs ++ [v]) ((key, nk fs) :: h fs) fs)).
  { apply HQ. unfold has_k, nk. cbn [k set_k freereg]. rewrite length_app. cbn [length]. split_and!; try lia; try done.
    - rewrite Nat2Z.id. by apply list_lookup_middle.
    - split; try done. by apply prefix_app_r.
    - unfold h_ok. cbn [h set_k k]. apply Forall_cons. split.
      + split; [lia|]. exists v. rewrite Nat2Z.id. split; [by apply list_lookup_middle|done].
      + eapply Forall_impl; [exact Hh|]. intros [key' n'] (Hn' & w & Hw & Hkw). split; [done|]. exists w. split; [by apply lookup_app_l_Some|done]. }
  unfold wpc, addk. assert ((nk fs >=? MAXARG_Ax) = false) as E by (rewrite Z.geb_leb; apply Z.leb_gt; lia).
  destruct (h_find key (h fs)) as [n|] eqn:Ef; [|rewrite E; exact Hnew].
  apply h_find_Some in Ef. destruct (proj1 (Forall_forall _ _) Hh _ Ef) as (Hn0 & w & Hw & Hkw). rewrite Hw.
  destruct (rawequalobj w v) eqn:Er; [|rewrite E; exact Hnew]. apply (key_exact key) in Er as ->; [|done|done]. apply HQ.
  apply lookup_lt_Some in Hw as Hl. unfold has_k, nk. split_and!; try lia; try done.
Qed.

Lemma wpc_numberK r fs (Q : Z -> FuncState -> Prop) :
  h_ok fs -> in_u 64 r -> nk fs < MAXARG_Ax -> (forall n fs', has_k fs fs' (LNumber r) n -> Q n fs') -> wpc (luaK_numberK r) fs Q.
Proof. intros Hh Hr Hn HQ. unfold luaK_numberK. destruct (_ || _); apply wpc_addk; try done; cbn; auto. Qed.
End Constants.

(** ** Registers *)

Lemma wpc_reserveregs n fs (Q : () -> FuncState -> Prop) :
  0 <= freereg fs -> 0 <= n -> freereg fs + n < MAXSTACK ->
  (forall fs', ext fs fs' -> h fs' = h fs -> k fs' = k fs -> freereg fs' = freereg fs + n -> Q () fs') -> wpc (luaK_reserveregs n) fs Q.
Proof.
  intros Hf Hn Hlt HQ. change MAXSTACK with 250 in Hlt. apply wpc_bind. unfold wpc, luaK_checkstack.
  rewrite (Z.geb_leb _ MAXSTACK), (proj2 (Z.leb_gt MAXSTACK _)) by (change MAXSTACK with 250; lia).
  destruct (_ >? _); apply wpc_putfs, HQ; try done; cbn [freereg set_freereg set_maxstack]; rewrite wrap_small by clia; done.
Qed.

Lemma ISK_small r : 0 <= r < 256 -> ISK r = false.
Proof.
  intros Hr. unfold ISK. assert (r &&& BITRK = 0) as ->; [|done]. change BITRK with (2 ^ 8). apply Z.bits_inj'. intros n Hn.
  rewrite Z.land_spec, Z.pow2_bits_eqb, Z.bits_0 by lia. destruct (Z.eqb_spec 8 n) as [<-|]; [|by rewrite andb_false_r].
  rewrite andb_true_r. apply Z.testbit_false; [lia|]. rewrite Z.div_small; [done|]. pow2. lia.
Qed.

(** A temporary at the top is released, a variable is not. *)
Lemma wpc_freeexp e fs (Q : () -> FuncState -> Prop) :
  (forall r, ek e = VNONRELOC r -> 0 <= r < 256) -> 0 <= freereg fs < 256 -> nactvar fs < freereg fs \/ (forall r, ek e = VNONRELOC r -> r < nactvar fs) ->
  0 <= nactvar fs ->
  (forall fs', ext fs fs' -> h fs' = h fs -> k fs' = k fs ->
    freereg fs' = freereg fs - (match ek e with VNONRELOC r => if decide (nactvar fs <= r) then 1 else 0 | _ => 0 end) -> Q () fs') ->
  wpc (freeexp e) fs Q.
Proof.
  intros Hr Hf Ht Hna HQ.
  assert (Hsame : freereg fs = freereg fs - match ek e with VNONRELOC r => if decide (nactvar fs <= r) then 1 else 0 | _ => 0 end -> Q () fs) by (intros E; by apply HQ).
  unfold freeexp, free_reg. destruct (ek e) as [| | | | | |r| | | | | | |] eqn:Ek; try (apply Hsame; lia).
  unfold wpc. rewrite ISK_small by (by apply Hr). cbn [negb andb]. rewrite Z.geb_leb. destruct (Z.leb_spec (nactvar fs) r) as [Hle|Hgt].
  - destruct Ht as [Ht|Ht]; [|specialize (Ht r eq_refl); lia]. apply HQ; try done. rewrite decide_True by done. cbn. apply wrap_small. clia.
  - apply Hsame. rewrite decide_False by lia. lia.
Qed.

(** ** From one descriptor to another *)

Section Load.
Context `{LuaNumber} (rt : runtime) (U : list TValue) (other : Z -> Z -> regs -> res (Z * regs)) (S0 : Z * regs).

Abbreviation At := (At rt U other S0).
Abbreviation Here := (Here rt U other S0).
Abbreviation Main := (Main rt U other S0).
Abbreviation Out := (Out rt U other S0).

(** The operation keeps the invariant, changes what it owns only, and keeps the promise
    of the descriptor. *)
Record trans (base n : Z) (fs : FuncState) (J : list Z) (e : expdesc) (T F : list Z)
  (fs' : FuncState) (J' : list Z) (e' : expdesc) (T' F' : list Z) : Prop := {
  tr_we : wfe base fs' J' e' T' F';
  tr_fr : fr (own fs J (ek e) (T ++ F)) fs (own fs' J' (ek e') (T' ++ F')) fs';
  tr_nact : nactvar fs' = nactvar fs;
  tr_cost : cost n fs fs';
  tr_out H0 R rv : apart H0 fs (own fs J (ek e) (T ++ F)) -> Out base H0 fs J (ek e) T F R rv -> Out base H0 fs' J' (ek e') T' F' R rv;
}.

Lemma trans_trans base n m fs J e T F fs1 J1 e1 T1 F1 fs2 J2 e2 T2 F2 :
  trans base n fs J e T F fs1 J1 e1 T1 F1 -> trans base m fs1 J1 e1 T1 F1 fs2 J2 e2 T2 F2 -> trans base (n + m) fs J e T F fs2 J2 e2 T2 F2.
Proof.
  intros [W1 F1' N1 C1 O1] [W2 F2' N2 C2 O2]. split; [done|by eapply fr_trans|congruence|by eapply cost_trans|].
  intros H0 R rv Ha HO. apply (O2 H0 R rv); [by eapply apart_fr|]. by apply (O1 H0 R rv).
Qed.

Lemma trans_refl base n fs J e T F : 0 <= n -> wfe base fs J e T F -> trans base n fs J e T F fs J e T F.
Proof. intros Hn Hwe. split; [done|apply fr_refl|done|by apply cost_refl|done]. Qed.

Lemma trans_le base n m fs J e T F fs1 J1 e1 T1 F1 : trans base n fs J e T F fs1 J1 e1 T1 F1 -> n <= m -> trans base m fs J e T F fs1 J1 e1 T1 F1.
Proof. intros [W1 F1' N1 C1 O1] Hle. split; try done. by eapply cost_le. Qed.

(** The kind changes, the code does not. *)
Lemma trans_kind base fs J e T F kk :
  wfe base fs J e T F -> kind_ok base fs J (T ++ F) kk -> simple (ek e) -> simple kk ->
  (forall R, kval U fs kk R = kval U fs (ek e) R) -> trans base 0 fs J e T F fs J (with_kind e kk) T F.
Proof.
  intros Hwe Hk Hs Hs' Hv. assert (forall x, own fs J kk (T ++ F) x <-> own fs J (ek e) (T ++ F) x) as Ho.
  { intros x. unfold own. destruct kk; try done; destruct (ek e); done. }
  assert (fr (own fs J (ek e) (T ++ F)) fs (own fs J kk (T ++ F)) fs) as Hfr.
  { eapply fr_weaken; [apply (fr_refl (own fs J (ek e) (T ++ F)))|done|]. intros x _ Hx%Ho. by left. }
  destruct Hwe. split; [by split|exact Hfr|done|by apply cost_refl|]. intros H0 R rv Ha HO.
  eapply Out_carry; [exact Ha|exact Hfr|done|done|done| |exact HO]. intros R1 Hsm HM. right. left. exists R1. split; [done|].
  apply Main_simple in HM as [HH ->]; [|done]. apply Main_simple; [done|]. by rewrite Hv.
Qed.

(** The run arrives at an instruction emitted for a descriptor. *)
Lemma we_arrive base fs J e T F i fs' H0 R rv :
  wfe base fs J e T F -> simple (ek e) -> emitted fs J i fs' -> pc fs <= MAXARG_sBx -> apart H0 fs (own fs J (ek e) (T ++ F)) ->
  Main base H0 fs J (ek e) (T ++ F) R rv ->
  At (fun x => H0 x \/ pend (code fs') (T ++ F) x \/ x = pc fs) fs' (pc fs) R /\ rv = kval U fs (ek e) R.
Proof.
  intros Hwe Hs Hem Hpc Ha [HH ->]%Main_simple; [|done].
  split; [|done]. pose proof (em_arrive rt U other S0 fs fs' J i (we_wf _ _ _ _ _ _ Hwe) Hpc Hem _ R (we_apart _ _ _ _ _ _ Hwe _ Ha) HH) as HA.
  eapply At_mono; [|exact HA]. intros x [Hx0|[Hx0| ->]]; [by left; left| |by right].
  destruct (decide (x = pc fs)) as [->|Hne]; [by right|]. left. right. by apply (we_em_pend _ _ _ _ _ _ Hwe i fs' Hem).
Qed.

(** An emission that leaves the value to the new instruction. *)
Lemma emit_value base fs J e T F o b c fs' :
  wfe base fs J e T F -> simple (ek e) -> emitted fs J (ABC o 0 b c) fs' -> room 1 fs -> abc_ok 0 b c -> is_value o = true ->
  reads_ok (k fs) o b c -> (o = OP_CONCAT -> b = base /\ b < c < 256) -> (o = OP_NOT -> b < 256) ->
  (forall R v R', run_value rt U (k fs) o b c R = Ok (v, R') -> same base R R') ->
  wfe base fs' [] (with_kind e (VRELOCABLE (pc fs))) T F /\
  fr (own fs J (ek e) (T ++ F)) fs (own fs' [] (VRELOCABLE (pc fs)) (T ++ F)) fs' /\
  (forall j, j ∈ T ++ F -> instr_at (code fs') (j - 1) = instr_at (code fs) (j - 1)) /\ cost 1 fs fs' /\
  (forall H0 R rv, apart H0 fs (own fs J (ek e) (T ++ F)) -> Main base H0 fs J (ek e) (T ++ F) R rv ->
    Main base H0 fs' [] (VRELOCABLE (pc fs)) (T ++ F) R (fst <$> run_value rt U (k fs) o b c R)).
Proof.
  intros Hwe Hs Hem [Hroom _] Hok Hv Hr Hcc Hnot Hsame. assert (pc fs <= MAXARG_sBx) as Hpc by lia. pose proof (we_wf _ _ _ _ _ _ Hwe) as Hwf.
  pose proof (em_pc _ _ _ _ Hem) as Epc.
  destruct (we_em _ _ _ _ _ _ Hwe _ _ Hem Hpc (VRELOCABLE (pc fs))) as (W & Hfr & Hj); [done|done| | |].
  { rewrite isop_ABC by done. intros E%Z.eqb_eq%opcode_Z_inj. by subst o. }
  { split_and!; [lia|done|]. exists o, b, c. rewrite (em_new _ _ _ _ Hem), (em_k _ _ _ _ Hem). done. }
  split_and!; [done|exact Hfr|exact Hj|unfold cost, nk; rewrite Epc, (em_k _ _ _ _ Hem); lia|].
  intros H0 R rv Ha HM. destruct (we_arrive _ _ _ _ _ _ _ _ _ _ _ Hwe Hs Hem Hpc Ha HM) as [HA ->]. split.
  - eapply At_mono; [|exact HA]. intros x [Hx0|[Ho|[Hp| ->]]]; [by left| |by right; left|by right; right].
    apply (em_own0 _ _ _ _ Hwf Hem) in Ho as [-> _]. by right; right.
  - exists o, b, c. rewrite (em_new _ _ _ _ Hem), (em_k _ _ _ _ Hem). split_and!; try done. by apply Hsame.
Qed.

(** An emission that loads the value into register [base]. *)
Lemma emit_load base fs J e T F i fs' :
  wfe base fs J e T F -> simple (ek e) -> emitted fs J i fs' -> room 1 fs -> isop i OP_LOADNIL = false ->
  (forall C K R v, kval U fs (ek e) R = Ok v -> instr_at C (pc fs) = Some i -> k fs `prefix_of` K ->
    execute1 rt C K U other (pc fs) R = Ok (pc fs + 1, setreg R base v)) ->
  (forall R, exists v, kval U fs (ek e) R = Ok v) ->
  trans base 1 fs J e T F fs' [] (with_kind e (VNONRELOC base)) T F.
Proof.
  intros Hwe Hs Hem [Hroom _] Hnil Hex Hval. assert (pc fs <= MAXARG_sBx) as Hpc by lia. pose proof (we_wf _ _ _ _ _ _ Hwe) as Hwf.
  pose proof (em_pc _ _ _ _ Hem) as Epc.
  destruct (we_em _ _ _ _ _ _ Hwe _ _ Hem Hpc (VNONRELOC base)) as (W & Hfr & Hj); [done|done|by rewrite Hnil|by right|].
  split; [done|exact Hfr|by rewrite (em_nact _ _ _ _ Hem)|unfold cost, nk; rewrite Epc, (em_k _ _ _ _ Hem); lia|].
  intros H0 R rv Ha HO. eapply Out_carry; [exact Ha|exact Hfr|done|done|exact Hj| |exact HO]. intros R1 Hsm HM.
  destruct (we_arrive _ _ _ _ _ _ _ _ _ _ _ Hwe Hs Hem Hpc Ha HM) as [HA ->]. destruct (Hval R1) as [v Hv]. right. left. exists (setreg R1 base v).
  split; [eapply same_trans; [|exact Hsm|by apply same_setreg]; lia|]. apply Main_simple; [done|]. rewrite Hv. cbn. rewrite setreg_eq. split; [|done].
  left. rewrite (em_mergeable _ _ _ _ Hwf Hem). split; [done|]. rewrite Epc. eapply At_step.
  - eapply At_mono; [|exact HA]. intros x [[Hx|Hx]|Ho]; [by left|by right; left|]. apply (em_own0 _ _ _ _ Hwf Hem) in Ho as [_ E]. congruence.
  - intros C K HC. apply Hex; [done| |rewrite <- (em_k _ _ _ _ Hem); apply HC]. eapply agrees_at; [exact HC|exact (em_new _ _ _ _ Hem)|].
    intros [[Hx|Hx]|Ho].
    + destruct (Ha _ Hx). lia.
    + by eapply (we_em_pend_new _ _ _ _ _ _ Hwe).
    + apply (em_own0 _ _ _ _ Hwf Hem) in Ho as [_ E]. congruence.
Qed.

(** A constant beyond the range of [LOADK] takes two words. *)
Lemma emit_loadkx base fs J e T F fs1 fs2 n :
  wfe base fs J e T F -> ek e = VK n -> n <= MAXARG_Ax -> room 2 fs ->
  emitted fs J (CREATE_ABx (opcode_Z OP_LOADKX) base 0) fs1 -> emitted fs1 [] (CREATE_Ax (opcode_Z OP_EXTRAARG) n) fs2 ->
  trans base 2 fs J e T F fs2 [] (with_kind e (VNONRELOC base)) T F.
Proof.
  intros Hwe Ek Hn [Hroom _] Hem1 Hem2. assert (pc fs <= MAXARG_sBx) as Hpc by lia. pose proof (we_wf _ _ _ _ _ _ Hwe) as Hwf.
  pose proof (we_kind _ _ _ _ _ _ Hwe) as Hk. rewrite Ek in Hk. cbn in Hk. pose proof (we_base _ _ _ _ _ _ Hwe) as Hb. change MAXSTACK with 250 in Hb.
  pose proof (em_pc _ _ _ _ Hem1) as Epc1. pose proof (em_pc _ _ _ _ Hem2) as Epc2. assert (0 <= n < 2 ^ 26) as Hn26 by (change MAXARG_Ax with 67108863 in Hn; pow2; lia).
  assert (isop (CREATE_ABx (opcode_Z OP_LOADKX) base 0) OP_LOADNIL = false) as N1 by (unfold isop; by destruct (ABx_fields OP_LOADKX base 0) as (-> & _); [lia|lia|]).
  assert (isop (CREATE_Ax (opcode_Z OP_EXTRAARG) n) OP_LOADNIL = false) as N2 by (unfold isop; by destruct (Ax_fields OP_EXTRAARG n) as (-> & _)).
  destruct (we_em _ _ _ _ _ _ Hwe _ _ Hem1 Hpc (VK n)) as (W1 & Hfr1 & Hj1); [by rewrite Ek|done|by rewrite N1|cbn; unfold nk; by rewrite (em_k _ _ _ _ Hem1)|].
  assert (pc fs1 <= MAXARG_sBx) as Hpc1 by lia. pose proof (we_wf _ _ _ _ _ _ W1) as Hwf1.
  destruct (we_em _ _ _ _ _ _ W1 _ _ Hem2 Hpc1 (VNONRELOC base)) as (W2 & Hfr2 & Hj2); [done|done|by rewrite N2|by right|].
  pose proof (fr_trans Hfr1 Hfr2) as Hfr.
  split; [exact W2|exact Hfr|by rewrite (em_nact _ _ _ _ Hem2), (em_nact _ _ _ _ Hem1)|unfold cost, nk; rewrite (em_k _ _ _ _ Hem2), (em_k _ _ _ _ Hem1); lia|].
  intros H0 R rv Ha HO. eapply Out_carry; [exact Ha|exact Hfr|done|done|intros j Hj; by rewrite Hj2, Hj1| |exact HO]. intros R1 Hsm HM.
  destruct (we_arrive _ _ _ _ _ _ _ _ _ _ _ Hwe ltac:(by rewrite Ek) Hem1 Hpc Ha HM) as [HA ->]. rewrite Ek. cbn [kval].
  destruct (lookup_lt_is_Some_2 (k fs) (Z.to_nat n)) as [v Hv]; [unfold nk in Hk; lia|]. rewrite Hv. cbn [of_option].
  assert (At (fun x => H0 x \/ own fs2 [] (VNONRELOC base) (T ++ F) x) fs2 (pc fs) R1) as HA2.
  { eapply At_fr; [exact (fr_frame H0 _ _ _ _ (apart_disjoint _ _ _ (apart_fr _ _ _ _ _ Ha Hfr1)) Hfr2)|]. eapply At_mono; [|exact HA]. intros x [Hx|[Hx|[Hx|Hx]]]; [by left| |by right; left|done].
    apply (em_own0 _ _ _ _ Hwf Hem1) in Hx as [_ E]. congruence. }
  right. left. exists (setreg R1 base v). split; [eapply same_trans; [|exact Hsm|by apply same_setreg]; lia|].
  apply Main_simple; [done|]. cbn [kval ek with_kind]. rewrite setreg_eq. split; [|done].
  left. rewrite (em_mergeable _ _ _ _ Hwf1 Hem2). split; [done|]. rewrite Epc2, Epc1. apply (At_eq _ _ _ _ _ _ (pc fs + 2)); [lia|]. eapply At_step.
  - eapply At_mono; [|exact HA2]. intros x [[Hx|Hx]|Ho]; [by left|by right; right; left|by right; left].
  - intros C K HC. assert (forall x, x = pc fs \/ x = pc fs1 -> ~ ((H0 x \/ pend (code fs2) (T ++ F) x) \/ own0 fs2 [] x)) as Hfree.
    { intros x Hx [[Hx0|Hx0]|Ho].
      - destruct (Ha _ Hx0). lia.
      - destruct Hx as [->| ->].
        + apply (we_em_pend _ _ _ _ _ _ W1 _ _ Hem2) in Hx0; [|lia]. by eapply (we_em_pend_new _ _ _ _ _ _ Hwe).
        + by eapply (we_em_pend_new _ _ _ _ _ _ W1).
      - apply (em_own0 _ _ _ _ Hwf1 Hem2) in Ho as [_ E]. congruence. }
    apply (exec_loadkx _ _ _ _ _ _ _ _ n).
    + eapply agrees_at; [exact HC| |by apply Hfree; left]. rewrite (em_same _ _ _ _ Hem2); [exact (em_new _ _ _ _ Hem1)|lia|by apply pend_nil].
    + lia.
    + rewrite <- Epc1. eapply agrees_at; [exact HC|exact (em_new _ _ _ _ Hem2)|by apply Hfree; right].
    + done.
    + eapply prefix_lookup_Some; [|apply HC]. by rewrite (em_k _ _ _ _ Hem2), (em_k _ _ _ _ Hem1).
Qed.

(** ** Nil *)

Lemma setnils_lookup n R r x : setnils n R r x = if decide (r <= x < r + Z.of_nat n) then LNil else R x.
Proof.
  revert R r. induction n as [|n IH]; intros R r; cbn [setnils]; [by rewrite decide_False by lia|]. rewrite IH.
  destruct (decide (r + 1 <= x < r + 1 + Z.of_nat n)); [by rewrite decide_True by lia|]. destruct (decide (x = r)) as [->|].
  - by rewrite setreg_eq, decide_True by lia.
  - rewrite setreg_ne, decide_False by lia. done.
Qed.

(** Two ranges of nils that touch are one. *)
Lemma setnils_merge R a b base x :
  0 <= b -> (a <= base <= a + b + 1 \/ base <= a <= base + 1) ->
  setnils (S (Z.to_nat (Z.max (a + b) base - Z.min a base))) R (Z.min a base) x =
  if decide (x = base) then LNil else setnils (S (Z.to_nat b)) R a x.
Proof.
  intros Hb Ht. rewrite !setnils_lookup. destruct (decide (x = base)) as [->|]; [by rewrite decide_True by lia|].
  destruct (decide (a <= x < a + Z.of_nat (S (Z.to_nat b)))); [rewrite decide_True by lia|rewrite decide_False by lia]; done.
Qed.

Lemma emit_nil base fs J e T F fs' :
  wfe base fs J e T F -> ek e = VNIL -> emitted fs J (ABC OP_LOADNIL base 0 0) fs' -> room 1 fs ->
  trans base 1 fs J e T F fs' [] (with_kind e (VNONRELOC base)) T F.
Proof.
  intros Hwe Ek Hem [Hroom _]. assert (pc fs <= MAXARG_sBx) as Hpc by lia. pose proof (we_wf _ _ _ _ _ _ Hwe) as Hwf.
  pose proof (em_pc _ _ _ _ Hem) as Epc. pose proof (we_base _ _ _ _ _ _ Hwe) as Hb. change MAXSTACK with 250 in Hb.
  assert (abc_ok base 0 0) as Hok by (unfold abc_ok; lia).
  destruct (we_em _ _ _ _ _ _ Hwe _ _ Hem Hpc (VNONRELOC base)) as (W & Hfr & Hj); [by rewrite Ek|done| |by right|].
  { intros _. exists base, 0. split_and!; try done; lia. }
  split; [done|exact Hfr|by rewrite (em_nact _ _ _ _ Hem)|unfold cost, nk; rewrite Epc, (em_k _ _ _ _ Hem); lia|].
  intros H0 R rv Ha HO. eapply Out_carry; [exact Ha|exact Hfr|done|done|exact Hj| |exact HO]. intros R1 Hsm HM.
  destruct (we_arrive _ _ _ _ _ _ _ _ _ _ _ Hwe ltac:(by rewrite Ek) Hem Hpc Ha HM) as [HA ->]. right. left. exists (setnils 1 R1 base).
  split; [eapply same_trans; [|exact Hsm|by apply same_setreg]; lia|]. apply Main_simple; [done|]. rewrite Ek. cbn [kval ek with_kind setnils]. rewrite setreg_eq. split; [|done].
  right. left. exists base, 0, R1. rewrite (em_mergeable _ _ _ _ Hwf Hem), Epc. replace (pc fs + 1 - 1) with (pc fs) by lia. rewrite isop_ABC, (em_new _ _ _ _ Hem) by done.
  split_and!; try done; try lia. eapply At_mono; [|exact HA]. intros x [[Hx|Hx]|Ho]; [by left|by right; left|].
  apply (em_own0 _ _ _ _ Hwf Hem) in Ho as [-> _]. by right; right.
Qed.

(** The last instruction is widened instead. *)
Lemma widen_nil base fs J e T F a b :
  wfe base fs J e T F -> ek e = VNIL -> mergeable fs = true -> instr_at (code fs) (pc fs - 1) = Some (ABC OP_LOADNIL a b 0) ->
  0 <= a -> 0 <= b -> a + b < 256 -> (a <= base <= a + b + 1 \/ base <= a <= base + 1) ->
  trans base 0 fs J e T F
    (set_code (upd (code fs) (pc fs - 1) (ABC OP_LOADNIL (Z.min a base) (Z.max (a + b) base - Z.min a base) 0)) fs) [] (with_kind e (VNONRELOC base)) T F.
Proof.
  intros Hwe Ek Hm Hi Ha0 Hb Hab Ht. pose proof (we_base _ _ _ _ _ _ Hwe) as Hbase. change MAXSTACK with 250 in Hbase.
  pose proof (we_wf _ _ _ _ _ _ Hwe) as Hwf. pose proof (instr_at_range _ _ _ Hi) as Hr. change (len (code fs)) with (pc fs) in Hr.
  assert (J = []) as ->.
  { destruct J as [|j J]; [done|]. unfold mergeable in Hm. rewrite (wf_label _ _ Hwf), Z.ltb_irrefl in Hm by done. done. }
  set (a' := Z.min a base). set (b' := Z.max (a + b) base - Z.min a base). assert (abc_ok a' b' 0) as Hok by (unfold abc_ok; lia).
  assert (abc_ok a b 0) as Hok0 by (unfold abc_ok; lia).
  assert (own fs [] (ek e) (T ++ F) (pc fs - 1)) as Hox by (left; right; done).
  assert (instr_at (upd (code fs) (pc fs - 1) (ABC OP_LOADNIL a' b' 0)) (pc fs - 1) = Some (ABC OP_LOADNIL a' b' 0)) as Hi' by (by rewrite instr_at_upd, decide_True).
  destruct (we_upd base fs e T F (pc fs - 1) (ABC OP_LOADNIL a' b' 0) (VNONRELOC base)) as (W & Hfr & Hp & Hj); [done|done| | | |done| |done|by right|].
  { intros Hx. destruct (we_lists _ _ _ _ _ _ Hwe (pc fs - 1)) as [_ Hn]; [by left|]. apply Hn. by right. }
  { intros Hx%(we_below _ _ _ _ _ _ Hwe). lia. }
  { unfold testset_at. by rewrite Hi, isop_ABC. }
  { intros _. split; [done|]. exists a', b'. split_and!; try done; lia. }
  set (fs' := set_code _ fs) in *. assert (pc fs' = pc fs) as Epc by apply len_upd.
  assert (mergeable fs' = true) as Hm'.
  { unfold mergeable in Hm |- *. rewrite Epc. cbn [lasttarget fs' set_code code]. rewrite Hi', isop_ABC by done. rewrite Hi, isop_ABC in Hm by done. done. }
  split; [exact W|exact Hfr|done|unfold cost, nk; rewrite Epc; cbn; lia|].
  intros H0 R rv Ha HO. eapply Out_carry; [exact Ha|exact Hfr|done|done|exact Hj| |exact HO]. intros R1 Hsm HM. rewrite Ek in HM. cbn in HM.
  destruct HM as [[[Hm2 _]|[(a2 & b2 & R' & _ & Hi2 & Hab2 & -> & HA)|(j & Hjj & _)]] ->]; [congruence| |by apply elem_of_nil in Hjj].
  assert (a2 = a /\ b2 = b) as [-> ->].
  { destruct (ABC_inj OP_LOADNIL a2 b2 0 OP_LOADNIL a b 0) as (_ & ? & ? & _); [unfold abc_ok; lia|done|congruence|done]. }
  right. left. exists (setnils (S (Z.to_nat b')) R' a'). split.
  { intros r Hlt. unfold a', b'. rewrite setnils_merge, decide_False by lia. by apply Hsm. }
  apply Main_simple; [done|]. cbn [kval ek with_kind]. split; [|unfold a', b'; by rewrite setnils_merge, decide_True by lia].
  right. left. exists a', b', R'. rewrite Epc. split_and!; try done; try lia. eapply At_fr; [|exact HA].
  eapply fr_weaken; [exact (fr_frame H0 _ _ _ _ (apart_disjoint _ _ _ Ha) Hfr)| |].
  - intros x Hx [Hx0|[Ho|[Hpx|Hk]]]; [by left; left|by right|by left; right|by rewrite Ek in Hk].
  - intros x Hx [[Hx0|Hpx]|Ho]; [by left; left|by left; right; right; left|by left; right; left].
Qed.

Definition quiet (fs : FuncState) : Prop := testmode_at (code fs) (pc fs - 1) = false.

Lemma quiet_ABC fs o a b c : instr_at (code fs) (pc fs - 1) = Some (ABC o a b c) -> abc_ok a b c -> is_test o = false -> quiet fs.
Proof. intros Hi Hok Ho. unfold quiet. by rewrite (testmode_ABC _ _ _ _ _ _ Hi Hok). Qed.

Lemma em_quiet fs J i fs' : emitted fs J i fs' -> testTMode (GET_OPCODE i) = false -> quiet fs'.
Proof. intros Hem Ht. unfold quiet, testmode_at. rewrite (em_pc _ _ _ _ Hem). replace (pc fs + 1 - 1) with (pc fs) by lia. by rewrite (em_new _ _ _ _ Hem). Qed.

Lemma wpc_nil base fs J e T F (Q : () -> FuncState -> Prop) :
  wfe base fs J e T F -> ek e = VNIL -> room 1 fs ->
  (forall fs', trans base 1 fs J e T F fs' [] (with_kind e (VNONRELOC base)) T F -> freereg fs' = freereg fs -> quiet fs' -> Q () fs') ->
  wpc (luaK_nil base 1) fs Q.
Proof.
  intros Hwe Ek Hroom HQ. pose proof (we_wf _ _ _ _ _ _ Hwe) as Hwf. pose proof (we_base _ _ _ _ _ _ Hwe) as Hbase. change MAXSTACK with 250 in Hbase.
  assert (Hemit : wpc (luaK_codeABC OP_LOADNIL base (1 - 1) 0 ≫= (fun _ => mret ())) fs Q).
  { apply wpc_bind. eapply wpc_code; [done|unfold room in Hroom; lia|]. intros fs' Hem. apply wpc_ret, HQ; [by apply emit_nil|apply Hem|].
    eapply em_quiet; [exact Hem|]. destruct (ABC_fields OP_LOADNIL base (1 - 1) 0) as (-> & _); [unfold abc_ok; lia|done]. }
  unfold luaK_nil. apply wpc_bind, wpc_getfs, wpc_bind, wpc_getfs. destruct (pc fs >? lasttarget fs) eqn:Et; [|exact Hemit].
  pose proof (wf_target _ _ Hwf) as Htg. apply Z.gtb_lt in Et. destruct (instr_at_is_Some (code fs) (pc fs - 1)) as [prev Hprev]; [change (len (code fs)) with (pc fs); lia|].
  apply wpc_bind. eapply wpc_getinstr; [done|]. destruct (isop prev OP_LOADNIL) eqn:Eo; [|exact Hemit].
  assert (mergeable fs = true) as Hm by (unfold mergeable; rewrite Hprev, Eo, (proj2 (Z.ltb_lt _ _)) by done; done).
  destruct (wf_nil _ _ Hwf Hm) as (a & b & Hi & Ha & Hb & Hab). assert (prev = ABC OP_LOADNIL a b 0) as -> by congruence.
  assert (abc_ok a b 0) as Hok by (unfold abc_ok; lia). destruct (ABC_fields OP_LOADNIL a b 0 Hok) as (_ & EA & EB & _). rewrite EA, EB. cbv zeta.
  destruct (_ || _) eqn:Eor; [|exact Hemit].
  assert (a <= base <= a + b + 1 \/ base <= a <= base + 1) as Ht by lia.
  eapply wpc_setinstr; [exact Hprev|].
  assert ((if a <? base then a else base) = Z.min a base) as -> by (destruct (Z.ltb_spec a base); lia).
  assert ((if a + b >? base + 1 - 1 then a + b else base + 1 - 1) = Z.max (a + b) base) as -> by (rewrite Z.gtb_ltb; destruct (Z.ltb_spec (base + 1 - 1) (a + b)); lia).
  rewrite SETARG_A_ABC, SETARG_B_ABC by (unfold abc_ok; lia). pose proof (widen_nil base fs J e T F a b Hwe Ek Hm Hi Ha Hb Hab Ht) as Htr.
  apply HQ; [eapply trans_le; [exact Htr|lia]|done|]. eapply (quiet_ABC _ OP_LOADNIL (Z.min a base) (Z.max (a + b) base - Z.min a base) 0); [|unfold abc_ok; lia|done].
  pose proof (instr_at_range _ _ _ Hi) as Hr. replace (pc (set_code _ fs)) with (pc fs) by (symmetry; apply len_upd). cbn [code set_code]. by rewrite instr_at_upd, decide_True.
Qed.

(** ** Variables and pending instructions *)

Definition discharged (kk : expkind) : Prop := match kk with VLOCAL _ | VUPVAL _ => False | _ => True end.

(** The register of the value, if any, is a variable's. *)
Definition nontemp (fs : FuncState) (kk : expkind) : Prop := match kk with VNONRELOC r => r < nactvar fs | _ => True end.

Definition jump_of (kk : expkind) : option Z := match kk with VJMP j => Some j | _ => None end.

(** Values that are in a register or about to be. *)
Definition located (kk : expkind) : Prop := match kk with VNONRELOC _ | VRELOCABLE _ => True | _ => False end.

Lemma wpc_dischargevars base fs J e T F (Q : expdesc -> FuncState -> Prop) :
  wfe base fs J e T F -> room 1 fs ->
  (forall e' fs' J', trans base 1 fs J e T F fs' J' e' T F -> discharged (ek e') -> freereg fs' = freereg fs ->
    (nontemp fs (ek e) -> nontemp fs' (ek e')) -> et e' = et e -> ef e' = ef e -> (discharged (ek e) /\ e' = e /\ fs' = fs \/ ~ discharged (ek e) /\ located (ek e')) -> Q e' fs') ->
  wpc (luaK_dischargevars e) fs Q.
Proof.
  intros Hwe Hroom HQ. pose proof (we_kind _ _ _ _ _ _ Hwe) as Hk. unfold luaK_dischargevars.
  assert (Hid : discharged (ek e) -> Q e fs) by (intros Hd; eapply HQ; try done; [by apply trans_refl|by left]).
  destruct (ek e) as [| | | | | |r|r|u| |j|p| |] eqn:Ek; try done; try (apply wpc_ret, Hid; done).
  - cbn in Hk. apply wpc_ret. eapply HQ; try done; [|intros _; cbn; lia|by right; split; [intros []|]].
    eapply trans_le; [apply trans_kind; try done; rewrite ?Ek; try done; left; exact Hk|lia].
  - cbn in Hk. assert (abc_ok 0 u 0) as Hok by (unfold abc_ok; lia).
    apply wpc_bind. eapply wpc_code; [apply Hwe|unfold room in Hroom; lia|]. intros fs' Hem. apply wpc_ret. eapply HQ; try done; [|apply Hem|by right; split; [intros []|]].
    destruct (emit_value base fs J e T F OP_GETUPVAL u 0 fs') as (W & Hfr & Hj & Hc & HM); try done; [by rewrite Ek| |].
    { cbn. intros R v R'. destruct (U !! Z.to_nat u); [|done]. intros [= <- <-]. apply same_refl. }
    split; [exact W|exact Hfr|apply Hem|exact Hc|]. intros H0 R rv Ha HO. eapply Out_carry; [exact Ha|exact Hfr|done|done|exact Hj| |exact HO].
    intros R1 Hs Hm. right. left. exists R1. split; [done|]. specialize (HM H0 R1 rv Ha Hm).
    apply Main_simple in Hm as [_ ->]; [|by rewrite Ek]. rewrite Ek. cbn [kval]. cbn [run_value] in HM. by destruct (U !! Z.to_nat u).
Qed.

(** A pending instruction gets its register. *)
Lemma place_value base fs J e T F p i :
  wfe base fs J e T F -> ek e = VRELOCABLE p -> instr_at (code fs) p = Some i ->
  trans base 0 fs J e T F (set_code (upd (code fs) p (SETARG_A i base)) fs) [] (with_kind e (VNONRELOC base)) T F /\
  quiet (set_code (upd (code fs) p (SETARG_A i base)) fs).
Proof.
  intros Hwe Ek Hi. pose proof (we_kind _ _ _ _ _ _ Hwe) as Hk. rewrite Ek in Hk. destruct Hk as (Ep & -> & o & b & c & Hi' & Hok & Hv & Hrd & _).
  assert (i = ABC o 0 b c) as -> by congruence. pose proof (we_base _ _ _ _ _ _ Hwe) as Hb. change MAXSTACK with 250 in Hb.
  rewrite SETARG_A_ABC by (done || lia). assert (abc_ok base b c) as Hok' by (unfold abc_ok in *; lia).
  pose proof (instr_at_range _ _ _ Hi) as Hr. change (len (code fs)) with (pc fs) in Hr. assert (is_test o = false) as Hnt by (by destruct o).
  assert (isop (ABC o base b c) OP_LOADNIL = false) as Hnl. { rewrite isop_ABC by done. apply Z.eqb_neq. intros E%opcode_Z_inj. by subst o. }
  set (i' := ABC o base b c) in *. set (fs' := set_code (upd (code fs) p i') fs).
  assert (instr_at (code fs') p = Some i') as Hip by (cbn [code set_code fs']; by rewrite instr_at_upd, decide_True).
  assert (pc fs' = pc fs) as Epc by apply len_upd.
  assert (mergeable fs' = false) as Hm'. { unfold mergeable. rewrite Epc, <- Ep, Hip, Hnl. apply andb_false_r. }
  assert (p + 1 ∉ T ++ F) as Hnp1 by (intros Hx%(we_below _ _ _ _ _ _ Hwe); lia).
  assert (p ∉ T ++ F) as Hnp0.
  { intros Hx. destruct (we_jumps _ _ _ _ _ _ Hwe p Hx) as (o' & Ho & Hs).
    assert (GET_OPCODE (ABC o 0 b c) = opcode_Z OP_JMP) as E by (rewrite Hi in Ho; injection Ho as ->; by apply JMP_fields).
    rewrite (proj1 (ABC_fields o 0 b c Hok)) in E. apply opcode_Z_inj in E. by subst o. }
  destruct (we_upd base fs e T F p i' (VNONRELOC base)) as (W & Hfr & Hp & Hj); try done.
  { unfold testset_at. rewrite Hi, isop_ABC by done. apply Z.eqb_neq. intros E%opcode_Z_inj. by subst o. }
  { right. right. rewrite Ek. done. }
  { fold fs'. congruence. }
  { by right. }
  fold fs' in W, Hfr, Hp, Hj. split; [|eapply quiet_ABC; [rewrite Epc, <- Ep; exact Hip|done|done]].
  split; [exact W|exact Hfr|done|unfold cost, nk; rewrite Epc; cbn; lia|].
  intros H0 R rv Ha HO. eapply Out_carry; [exact Ha|exact Hfr|done|done|exact Hj| |exact HO]. intros R1 Hsm HM. rewrite Ek in HM.
  destruct HM as (HA & o2 & b2 & c2 & Hi2 & Hok2 & -> & Hsame).
  assert (o2 = o /\ b2 = b /\ c2 = c) as (-> & -> & ->).
  { destruct (ABC_inj o2 0 b2 c2 o 0 b c) as (? & _ & ? & ?); [done|done|congruence|done]. }
  rewrite <- Ek in HA. pose proof (At_fr _ _ _ _ _ _ _ _ _ _ (fr_frame H0 _ _ _ _ (apart_disjoint _ _ _ Ha) Hfr) HA) as HA'.
  assert (forall C K, agrees C K fs' (fun x => H0 x \/ own fs' [] (VNONRELOC base) (T ++ F) x) ->
    execute1 rt C K U other p R1 = '(v, R') ← run_value rt U (k fs) o b c R1; Ok (p + 1, setreg R' base v)) as Hex.
  { intros C K HC. rewrite (exec_value rt U other C K p R1 o base b c); [|done| |done].
    - rewrite (run_value_prefix rt U (k fs)); [done|apply HC|done].
    - eapply agrees_at; [exact HC|exact Hip|]. intros [Hx|Hx].
      + destruct (Ha p Hx) as [_ Hn]. apply Hn. right. right. by rewrite Ek.
      + destruct Hx as [[Hx|[_ Hx]]|[Hx|Hx]]; [by apply pend_nil in Hx|congruence|apply Hp in Hx as [Hx|[Hx _]]; done|done]. }
  destruct (run_value rt U (k fs) o b c R1) as [[v R2]|er] eqn:Erun.
  - right. left. exists (setreg R2 base v). split; [eapply same_trans; [|eapply same_trans; [|exact Hsm|by apply (Hsame v)]|by apply same_setreg]; lia|].
    apply Main_simple; [done|]. cbn [kval ek with_kind fmap res_fmap fst]. rewrite setreg_eq. split; [|done]. left. split; [done|].
    eapply At_mono; [|eapply At_step; [exact HA'|]].
    + intros x [[Hx|Hx]|Hx]; [by left|by right; right; left|by right; left].
    + intros C K HC. rewrite Hex by done. cbn. do 2 f_equal. lia.
  - left. exists er. split; [done|]. eapply At_dead; [exact HA'|]. intros C K HC. by rewrite Hex.
Qed.

(** ** Changes beside the code *)

Lemma trans_ext base n fs fs' J e T F :
  wfe base fs J e T F -> ext fs fs' -> h_ok fs' -> 0 <= nactvar fs <= freereg fs' /\ freereg fs' < MAXSTACK -> nk fs' <= nk fs + n -> 0 <= n ->
  trans base n fs J e T F fs' J e T F.
Proof.
  intros Hwe Hx Hh Hr Hnk Hn. assert (fr (own fs J (ek e) (T ++ F)) fs (own fs' J (ek e) (T ++ F)) fs') as Hfr.
  { apply ext_fr; [done|]. intros x. by rewrite (own_ext fs fs'). }
  split; [by apply (wfe_ext base fs)|exact Hfr|apply Hx|unfold cost; rewrite (ext_pc _ _ Hx); lia|].
  intros H0 R rv Ha HO. eapply Out_carry; [exact Ha|exact Hfr|done|done|by rewrite (ext_code _ _ Hx)| |exact HO].
  intros R1 Hs HM. right. left. exists R1. split; [done|]. pose proof (we_kind _ _ _ _ _ _ Hwe) as Hk.
  assert (forall p R', At (fun x => H0 x \/ own fs J (ek e) (T ++ F) x) fs p R' -> At (fun x => H0 x \/ own fs' J (ek e) (T ++ F) x) fs' p R') as HAt.
  { intros p R' HA. eapply At_fr; [exact (fr_frame H0 _ _ _ _ (apart_disjoint _ _ _ Ha) Hfr)|exact HA]. }
  destruct (kind_cases (ek e)) as [Hsi|[[p Ek]|[j Ek]]].
  - apply Main_simple in HM as [HH ->]; [|done]. apply Main_simple; [done|]. rewrite (ext_code _ _ Hx). split; [by apply (ext_Here rt U other S0 fs)|].
    destruct (ek e) as [| | | |i| | | | | | | | |]; try done. cbn [kind_ok kval] in Hk |- *. destruct (lookup_lt_is_Some_2 (k fs) (Z.to_nat i)) as [v Hv]; [unfold nk in Hk; lia|].
    by rewrite (prefix_lookup_Some _ _ _ _ Hv (ext_k _ _ Hx)), Hv.
  - rewrite Ek in *. destruct HM as (HA & o & b & c & Hi & Hok & -> & Hsm). destruct Hk as (_ & _ & o2 & b2 & c2 & Hi2 & Hok2 & _ & Hrd & _).
    destruct (ABC_inj o 0 b c o2 0 b2 c2) as (<- & _ & <- & <-); [done|done|congruence|]. split; [by apply HAt|]. exists o, b, c. rewrite (ext_code _ _ Hx).
    rewrite (run_value_prefix rt U (k fs) (k fs')); [done|apply Hx|done].
  - rewrite Ek in *. destruct HM as (HA & o & a & b & c & Hi & Hok & ->). destruct Hk as (_ & _ & _ & _ & o2 & a2 & b2 & c2 & Hi2 & Hok2 & Ho & _ & Hrd).
    destruct (ABC_inj o a b c o2 a2 b2 c2) as (<- & <- & <- & <-); [done|done|congruence|]. split; [by apply HAt|]. exists o, a, b, c. rewrite (ext_code _ _ Hx).
    rewrite (run_test_prefix rt (k fs) (k fs')); [done|by destruct Ho as [->|[->| ->]]|apply Hx|done].
Qed.

(** ** [discharge2reg] *)

Definition placed (base n : Z) (fs : FuncState) (J : list Z) (e : expdesc) (T F : list Z) (fs' : FuncState) (e' : expdesc) : Prop :=
  trans base n fs J e T F fs' [] e' T F /\ freereg fs' = freereg fs /\ ek e' = VNONRELOC base /\ et e' = et e /\ ef e' = ef e /\ quiet fs'.

Lemma wpc_codek base fs J e T F n (Q : Z -> FuncState -> Prop) :
  wfe base fs J e T F -> ek e = VK n -> room 2 fs ->
  (forall p fs', placed base 2 fs J e T F fs' (with_kind e (VNONRELOC base)) -> Q p fs') -> wpc (luaK_codek base n) fs Q.
Proof.
  intros Hwe Ek Hroom HQ. pose proof (we_kind _ _ _ _ _ _ Hwe) as Hk. rewrite Ek in Hk. cbn in Hk. pose proof (we_wf _ _ _ _ _ _ Hwe) as Hwf.
  pose proof (we_base _ _ _ _ _ _ Hwe) as Hb. change MAXSTACK with 250 in Hb. unfold luaK_codek.
  assert (pc fs <= MAXARG_sBx) as Hpc by (unfold room in Hroom; lia). destruct (Z.leb_spec n MAXARG_Bx) as [Hle|Hgt].
  - change MAXARG_Bx with 262143 in Hle. assert (0 <= n < 2 ^ 18) as Hn by (pow2; lia). destruct (ABx_fields OP_LOADK base n ltac:(lia) Hn) as (Eo & _).
    eapply wpc_code; [done|done|]. intros fs' Hem. apply HQ. split_and!; try done; [|apply Hem|eapply em_quiet; [exact Hem|by rewrite Eo]].
    eapply trans_le; [eapply emit_load; [done|by rewrite Ek|exact Hem|by eapply room_le|unfold isop; by rewrite Eo| |]|lia].
    + intros C K R v Hv Hi HK. rewrite Ek in Hv. cbn [kval] in Hv. apply (exec_loadk rt U other C K (pc fs) R base n v); [done|lia|done|].
      destruct (k fs !! Z.to_nat n) as [w|] eqn:E; [|done]. injection Hv as ->. by eapply prefix_lookup_Some.
    + intros R. rewrite Ek. cbn [kval]. destruct (lookup_lt_is_Some_2 (k fs) (Z.to_nat n)) as [v Hv]; [unfold nk in Hk; lia|]. exists v. by rewrite Hv.
  - unfold room in Hroom. assert (0 <= n < 2 ^ 26) as Hn26 by (change MAXARG_Ax with 67108863 in Hroom; pow2; lia).
    apply wpc_bind. eapply wpc_code; [done|done|]. intros fs1 Hem1.
    assert (wf fs1 []) as Hwf1. { eapply em_wf; [exact Hwf|exact Hem1|]. unfold isop. by destruct (ABx_fields OP_LOADKX base 0) as (-> & _); [lia|lia|]. }
    apply wpc_bind. eapply wpc_code; [done|rewrite (em_pc _ _ _ _ Hem1); lia|]. intros fs2 Hem2. apply wpc_ret, HQ. split_and!; try done.
    + eapply emit_loadkx; [done|done|lia|exact Hroom|exact Hem1|exact Hem2].
    + by rewrite (em_free _ _ _ _ Hem2), (em_free _ _ _ _ Hem1).
    + eapply em_quiet; [exact Hem2|]. by destruct (Ax_fields OP_EXTRAARG n) as (-> & _).
Qed.

Lemma placed_trans base n m fs J e T F fs1 J1 e1 fs' e' :
  trans base n fs J e T F fs1 J1 e1 T F -> freereg fs1 = freereg fs -> et e1 = et e -> ef e1 = ef e ->
  placed base m fs1 J1 e1 T F fs' e' -> placed base (n + m) fs J e T F fs' e'.
Proof. intros Ht Hf E1 E2 (Ht' & Hf' & Ek & E1' & E2' & Hq). split_and!; try congruence; try done. by eapply trans_trans. Qed.

Lemma placed_le base n m fs J e T F fs' e' : placed base n fs J e T F fs' e' -> n <= m -> placed base m fs J e T F fs' e'.
Proof. intros (Ht' & Hrest) Hle. split; [by eapply trans_le|done]. Qed.

(** A number becomes a constant. *)
Lemma wpc_numberK_trans base fs J e T F r (Q : Z -> FuncState -> Prop) :
  wfe base fs J e T F -> ek e = VKNUM r -> room 1 fs ->
  (forall n fs', trans base 1 fs J e T F fs' J (with_kind e (VK n)) T F -> freereg fs' = freereg fs -> 0 <= n < nk fs' -> ext fs fs' ->
    k fs' !! Z.to_nat n = Some (LNumber r) -> Q n fs') -> wpc (luaK_numberK r) fs Q.
Proof.
  intros Hwe Ek Hroom HQ. pose proof (we_kind _ _ _ _ _ _ Hwe) as Hk. rewrite Ek in Hk. pose proof (we_wf _ _ _ _ _ _ Hwe) as Hwf.
  apply wpc_numberK; [apply Hwf|done|unfold room in Hroom; lia|]. intros n fs' (Hn & Hn' & Hv & Hx & Hh & Hf & Hnk).
  assert (trans base 1 fs J e T F fs' J e T F) as Ht.
  { apply trans_ext; try done. rewrite Hf. apply Hwf. }
  apply HQ; try done. replace 1 with (1 + 0) by done. eapply trans_trans; [exact Ht|]. apply trans_kind; [apply Ht|done|by rewrite Ek|done|].
  intros R. rewrite Ek. cbn [kval]. by rewrite Hv.
Qed.

Lemma wpc_discharge2reg base fs J e T F (Q : expdesc -> FuncState -> Prop) :
  wfe base fs J e T F -> nontemp fs (ek e) -> nactvar fs <= base -> room 4 fs ->
  (forall e' fs', placed base 4 fs J e T F fs' e' -> Q e' fs') ->
  (forall j, ek e = VJMP j -> Q e fs) -> wpc (discharge2reg e base) fs Q.
Proof.
  intros Hwe Hnt Hna Hroom HQ HJ. unfold discharge2reg. apply wpc_bind. eapply wpc_dischargevars; [exact Hwe|by eapply room_le|].
  intros e1 fs1 J1 Htr Hd Hfree Hnt1 Et Ef Hid. specialize (Hnt1 Hnt). pose proof (tr_we _ _ _ _ _ _ _ _ _ _ _ _ Htr) as Hwe1. cbv zeta.
  assert (room 3 fs1) as Hroom1 by (eapply (room_cost 1 3); [exact Hroom|apply Htr]).
  assert (pc fs1 <= MAXARG_sBx) as Hpc1 by (unfold room in Hroom1; lia).
  pose proof (we_wf _ _ _ _ _ _ Hwe1) as Hwf1. pose proof (we_base _ _ _ _ _ _ Hwe1) as Hb. change MAXSTACK with 250 in Hb.
  assert (Hdone : forall fs' e', placed base 3 fs1 J1 e1 T F fs' e' -> Q e' fs').
  { intros fs' e' Hp. apply HQ. by eapply (placed_trans base 1 3). }
  assert (Hload : forall i fs', emitted fs1 J1 i fs' -> simple (ek e1) -> testTMode (GET_OPCODE i) = false -> isop i OP_LOADNIL = false ->
    (forall C K R v, kval U fs1 (ek e1) R = Ok v -> instr_at C (pc fs1) = Some i -> k fs1 `prefix_of` K ->
      execute1 rt C K U other (pc fs1) R = Ok (pc fs1 + 1, setreg R base v)) ->
    (forall R, exists v, kval U fs1 (ek e1) R = Ok v) -> Q (with_kind e1 (VNONRELOC base)) fs').
  { intros i fs' Hem Hs Ht Hnl Hex Hval. apply Hdone. split_and!; try done; [|apply Hem|by eapply em_quiet].
    eapply trans_le; [eapply emit_load; [done|done|exact Hem|by eapply room_le|done|done|done]|lia]. }
  pose proof (we_kind _ _ _ _ _ _ Hwe1) as Hk. destruct (ek e1) as [| | | |i|r|r| | | |j|p| |] eqn:Ek; try done.
  - apply wpc_bind. eapply wpc_nil; [exact Hwe1|done|by eapply room_le|]. intros fs' Ht Hf Hq. apply wpc_ret, Hdone. split_and!; try done.
    eapply trans_le; [exact Ht|lia].
  - assert (abc_ok base 1 0) as Hok by (unfold abc_ok; lia). destruct (ABC_fields OP_LOADBOOL base 1 0 Hok) as (Eo & _).
    apply wpc_bind. eapply wpc_code; [done|done|]. intros fs' Hem. apply wpc_ret. eapply Hload; [exact Hem|done|by rewrite Eo|unfold isop; by rewrite Eo| |by eauto].
    intros C K R v [= <-] Hi _. by rewrite (exec_loadbool rt U other C K (pc fs1) R base 1 0).
  - assert (abc_ok base 0 0) as Hok by (unfold abc_ok; lia). destruct (ABC_fields OP_LOADBOOL base 0 0 Hok) as (Eo & _).
    apply wpc_bind. eapply wpc_code; [done|done|]. intros fs' Hem. apply wpc_ret. eapply Hload; [exact Hem|done|by rewrite Eo|unfold isop; by rewrite Eo| |by eauto].
    intros C K R v [= <-] Hi _. by rewrite (exec_loadbool rt U other C K (pc fs1) R base 0 0).
  - apply wpc_bind. eapply wpc_codek; [exact Hwe1|done|by eapply room_le|]. intros p fs' Hp. apply wpc_ret, Hdone. eapply placed_le; [exact Hp|lia].
  - apply wpc_bind. eapply wpc_numberK_trans; [exact Hwe1|done|by eapply room_le|]. intros n fs2 Ht2 Hf2 Hn2 Hx2 Hv2.
    apply wpc_bind. eapply wpc_codek; [apply Ht2|done|eapply (room_cost 1 2); [exact Hroom1|apply Ht2]|]. intros p fs' Hp. apply wpc_ret, Hdone.
    by eapply (placed_trans base 1 2).
  - cbn in Hk, Hnt1. rewrite (tr_nact _ _ _ _ _ _ _ _ _ _ _ _ Htr) in Hk, Hnt1. destruct (Z.eqb_spec base r) as [->|Hne]; [lia|]. cbn [negb].
    pose proof (wf_regs _ _ Hwf1) as Hwr. assert (abc_ok base r 0) as Hok by (unfold abc_ok; lia). destruct (ABC_fields OP_MOVE base r 0 Hok) as (Eo & _).
    apply wpc_bind. eapply wpc_code; [done|done|]. intros fs' Hem. apply wpc_ret. eapply Hload; [exact Hem|done|by rewrite Eo|unfold isop; by rewrite Eo| |by eauto].
    intros C K R v [= <-] Hi _. by rewrite (exec_move rt U other C K (pc fs1) R base r).
  - apply wpc_ret. destruct Hid as [(_ & -> & ->)|[_ Hn]]; [by eapply HJ|done].
  - destruct Hk as (_ & _ & o & b & c & Hi & _). destruct (place_value base fs1 J1 e1 T F p _ Hwe1 Ek Hi) as [Ht Hq].
    apply wpc_bind. eapply wpc_getinstr; [exact Hi|]. apply wpc_bind. eapply wpc_setinstr; [exact Hi|]. apply wpc_ret, Hdone. split_and!; try done.
    eapply trans_le; [exact Ht|lia].
Qed.
End Load.
