(* ===== verification/LuaReg.v ===== *)
(** * Expressions in registers

    [exp2reg] brings the value of a descriptor with jumps into a register: the lists of
    jumps get their targets, with [LOADBOOL]s where a jump carries no value.  The other
    conversions ([luaK_exp2nextreg], [luaK_exp2anyreg], [luaK_exp2RK]) follow. *)

From S2P Require Import Prelude LuaStr LuaRef LuaTab LuaOp LuaNumber LuaCode LuaVm LuaJump LuaRun LuaEmit LuaDesc LuaPlace.

Section Registers.
Context `{LuaNumber} (rt : runtime) (U : list TValue) (other : Z -> Z -> regs -> res (Z * regs)) (S0 : Z * regs).

Abbreviation At := (At rt U other S0).
Abbreviation Here := (Here rt U other S0).
Abbreviation Main := (Main rt U other S0).
Abbreviation Out := (Out rt U other S0).
Abbreviation Exit := (Exit rt U other S0).
Abbreviation trans := (trans rt U other S0).

(** ** All jumps get their targets *)

Section Finish.
Context (base : Z) (fs : FuncState) (J : list Z) (e : expdesc) (T F : list Z) (pf pt : Z).
Hypothesis Hwe : wfe base fs J e T F.
Hypothesis Hek : ek e = VNONRELOC base.
Hypothesis Hlabel : lasttarget fs = pc fs.
Hypothesis Hpc : pc fs < MAXARG_sBx.
Hypothesis Hpf : -1 <= pf <= pc fs.
Hypothesis Hpt : -1 <= pt <= pc fs.

(** The targets of the lists. *)
Definition target (t : bool) : Z := if t then pt else pf.

Record finished (fs' : FuncState) : Prop := {
  fi_fields : exists c, fs' = set_code c fs /\ len c = pc fs;
  fi_same x : ~ pend (code fs) (T ++ F) x -> instr_at (code fs') x = instr_at (code fs) x;
  fi_jump (t : bool) j : j ∈ (if t then T else F) ->
    instr_at (code fs') j = Some (JMP 0 ((if testset_at (code fs) (j - 1) then pc fs else target t) - (j + 1))) /\
    sbx_ok ((if testset_at (code fs) (j - 1) then pc fs else target t) - (j + 1));
  fi_test j i : j ∈ T ++ F -> instr_at (code fs) (j - 1) = Some i ->
    instr_at (code fs') (j - 1) = Some (if isop i OP_TESTSET then patch_test i base else i);
}.

Lemma in_lists (t : bool) j : j ∈ (if t then T else F) -> j ∈ T ++ F.
Proof. destruct t; set_solver. Qed.

Lemma finish_reach c t j : len c = pc fs -> j ∈ (if (t : bool) then T else F) -> reachable c j (pc fs) (target t).
Proof.
  intros Hl Hj%in_lists. pose proof (we_below _ _ _ _ _ _ Hwe j Hj). destruct (we_jumps _ _ _ _ _ _ Hwe j Hj) as (o & Hi & _). apply instr_at_range in Hi.
  unfold reachable, sbx_ok, target. change MAXARG_sBx with 131071 in *. repeat case_match; lia.
Qed.

Lemma wpc_finish fuel (Q : () -> FuncState -> Prop) :
  (length (code fs) < fuel)%nat -> (forall fs', finished fs' -> Q () fs') ->
  wpc (patchlistaux fuel (ef e) (pc fs) base pf ≫= (fun _ => patchlistaux fuel (et e) (pc fs) base pt)) fs Q.
Proof.
  intros Hf HQ. pose proof Hwe as [Hwf HT HF Hc Hnd Hk Hb]. rewrite NoDup_app in Hnd. destruct Hnd as (HndL & HndJ & _).
  apply NoDup_app in HndL as (HndT & HTF & HndF). pose proof (chain_jumps _ _ _ HT) as HjT. pose proof (chain_jumps _ _ _ HF) as HjF.
  apply wpc_bind. eapply wpc_patchlistaux; [exact HF|done| | |].
  { pose proof (chain_length _ _ _ HF HndF). lia. }
  { intros j Hj. by apply (finish_reach (code fs) false). }
  intros c1 Hp1. assert (forall x, pend (code fs) T x -> instr_at c1 x = instr_at (code fs) x) as HsT.
  { intros x Hx. eapply patched_same; [exact Hp1|]. exact (pend_disjoint _ _ _ _ HjT HjF HTF Hx). }
  assert (forall j, j ∈ T -> instr_at c1 (j - 1) = instr_at (code fs) (j - 1)) as HsT1.
  { intros j Hj. eapply patched_same; [exact Hp1|]. apply test_not_pend; [done| |by apply HTF]. apply Hc. set_solver. }
  eapply wpc_patchlistaux; [cbn [code set_code]; eapply chain_ext; [|exact HT]; intros j Hj; apply HsT; by left|done| | |].
  { pose proof (chain_length _ _ _ HT HndT). lia. }
  { intros j Hj. apply (finish_reach c1 true); [apply Hp1|done]. }
  intros c2 Hp2. change (set_code c2 (set_code c1 fs)) with (set_code c2 fs). apply HQ. cbn [code set_code] in Hp2.
  assert (forall j, j ∈ T -> testset_at c1 (j - 1) = testset_at (code fs) (j - 1)) as Hts by (intros j Hj; unfold testset_at; by rewrite HsT1).
  assert (forall j, j ∈ F -> ~ pend c1 T j /\ ~ pend c1 T (j - 1)) as HnF.
  { intros j Hj. assert (j ∉ T) as HjT' by (intros Hx; by eapply HTF). split.
    - intros [Hx|[Hx Ht]]; [done|]. destruct Hp1 as [_ Hp1]. unfold testset_at in Ht. rewrite Hp1, decide_True in Ht by done.
      rewrite JMP_not_testset in Ht; [done|]. by apply (finish_reach (code fs) false).
    - intros [Hx|[Hx _]]; [|by replace (j - 1 + 1) with j in Hx by lia].
      revert Hx. apply (test_not_jump fs); [done|]. apply Hc. set_solver. }
  split.
  - exists c2. split; [done|]. destruct Hp1 as [L1 _], Hp2 as [L2 _]. by rewrite L2, L1.
  - intros x Hx. rewrite pend_app in Hx. cbn [code set_code]. rewrite (patched_same _ _ _ _ _ _ _ Hp2); [apply (patched_same _ _ _ _ _ _ _ Hp1); tauto|].
    intros [Hx'|[Hx' Ht]]; apply Hx; left; [by left|]. right. split; [done|]. pose proof (Hts (x + 1) Hx') as E. replace (x + 1 - 1) with x in E by lia. congruence.
  - intros t j Hj. split; [|by apply (finish_reach (code fs) t)]. cbn [code set_code]. destruct t.
    + destruct Hp2 as [_ Hp2]. rewrite Hp2, decide_True, Hts by done. done.
    + rewrite (patched_same _ _ _ _ _ _ _ Hp2) by (by apply HnF). destruct Hp1 as [_ Hp1]. by rewrite Hp1, decide_True by done.
  - intros j i Hj Hi. cbn [code set_code]. apply elem_of_app in Hj as [Hj|Hj].
    + destruct Hp2 as [_ Hp2]. rewrite Hp2, decide_False, HsT1, Hi by (done || (apply (test_not_jump fs); [done|apply Hc; set_solver])).
      rewrite bool_decide_eq_true_2; [done|]. by replace (j - 1 + 1) with j by lia.
    + rewrite (patched_same _ _ _ _ _ _ _ Hp2) by (by apply HnF). destruct Hp1 as [_ Hp1].
      rewrite Hp1, decide_False, Hi by (apply (test_not_jump fs); [done|apply Hc; set_solver]).
      rewrite bool_decide_eq_true_2; [done|]. by replace (j - 1 + 1) with j by lia.
Qed.

Hypothesis Hlf : forall j, j ∈ F -> testset_at (code fs) (j - 1) = false -> instr_at (code fs) pf = Some (ABC OP_LOADBOOL base 0 1) /\ pf + 2 = pc fs.
Hypothesis Hlt : forall j, j ∈ T -> testset_at (code fs) (j - 1) = false -> instr_at (code fs) pt = Some (ABC OP_LOADBOOL base 1 0) /\ pt + 1 = pc fs.

Section Finished.
Context (fs' : FuncState) (Hfi : finished fs').

Lemma fi_pc : pc fs' = pc fs.
Proof. destruct (fi_fields _ Hfi) as (c & -> & Hl). exact Hl. Qed.

Lemma fi_k : k fs' = k fs.
Proof. by destruct (fi_fields _ Hfi) as (c & -> & _). Qed.

Lemma unmergeable : mergeable fs = false.
Proof. unfold mergeable. by rewrite Hlabel, Z.ltb_irrefl. Qed.

Lemma fi_mergeable : mergeable fs' = false.
Proof. pose proof fi_pc as E. destruct (fi_fields _ Hfi) as (c & -> & Hl). unfold mergeable in *. cbn [lasttarget set_code]. by rewrite E, Hlabel, Z.ltb_irrefl. Qed.

Lemma fi_J j : j ∈ J -> instr_at (code fs') j = instr_at (code fs) j.
Proof.
  intros Hx. apply (fi_same _ Hfi). intros [Hp|[_ Ht]]; [by apply (we_disjoint _ _ _ _ _ _ Hwe j)|].
  destruct (chain_jump _ _ _ _ (wf_jpc _ _ (we_wf _ _ _ _ _ _ Hwe)) Hx) as (o & Hi & Hs). by rewrite (testset_JMP _ _ _ Hi Hs) in Ht.
Qed.

Lemma fi_cond j : j ∈ J -> cond_at fs j -> instr_at (code fs') (j - 1) = instr_at (code fs) (j - 1).
Proof.
  intros Hx Hc. apply (fi_same _ Hfi). apply test_not_pend; [exact (we_jumps _ _ _ _ _ _ Hwe)|done|]. intros Hp. by apply (we_disjoint _ _ _ _ _ _ Hwe j).
Qed.

(** Open tests of the lists become closed ones. *)
Lemma fi_open x i : x + 1 ∈ T ++ F -> instr_at (code fs) x = Some i -> isop i OP_TESTSET = true ->
  exists b c, i = ABC OP_TESTSET NO_REG b c /\ 0 <= b < 256 /\ 0 <= c < 512 /\
    instr_at (code fs') x = Some (if decide (base = b) then ABC OP_TEST b 0 c else ABC OP_TESTSET base b c).
Proof.
  intros Hx Hi Ht. destruct (we_cond _ _ _ _ _ _ Hwe _ Hx) as (o & a & b & c & Hi' & Hok & _ & Hts & _). pose proof (we_base _ _ _ _ _ _ Hwe) as Hb.
  replace (x + 1 - 1) with x in Hi' by lia. assert (i = ABC o a b c) as -> by congruence. apply isop_TESTSET in Ht as ->; [|done].
  destruct (Hts eq_refl) as [-> Hb2]. pose proof Hok as Hok'. unfold abc_ok in Hok'. exists b, c. split_and!; try done; try lia.
  pose proof (fi_test _ Hfi (x + 1)) as E. specialize (E (ABC OP_TESTSET NO_REG b c) Hx). replace (x + 1 - 1) with x in E by lia. rewrite (E Hi), isop_ABC by done. cbn [opcode_Z]. rewrite Z.eqb_refl.
  change MAXSTACK with 250 in Hb. rewrite patch_test_ABC by (done || lia). destruct (decide (base = b)) as [->|Hne]; [by rewrite decide_True by (by right)|].
  rewrite decide_False; [done|]. change NO_REG with 255. lia.
Qed.

Lemma fi_testmode x : testmode_at (code fs') x = testmode_at (code fs) x.
Proof.
  destruct (decide (x ∈ T ++ F)) as [Hx|Hx].
  - destruct (we_jumps _ _ _ _ _ _ Hwe x Hx) as (o & Hi & Hs). rewrite (testmode_JMP _ _ _ Hi Hs).
    assert (exists t : bool, x ∈ (if t then T else F)) as [t Hxt] by (apply elem_of_app in Hx as [Hx|Hx]; [by exists true|by exists false]).
    destruct (fi_jump _ Hfi t x Hxt) as [Hi' Hs']. exact (testmode_JMP _ _ _ Hi' Hs').
  - destruct (decide (x + 1 ∈ T ++ F)) as [Hx1|Hx1]; [destruct (instr_at (code fs) x) as [i|] eqn:Hi; [destruct (isop i OP_TESTSET) eqn:Ht|]|].
    + destruct (fi_open x i Hx1 Hi Ht) as (b & c & -> & Hb & Hc & E). pose proof (we_base _ _ _ _ _ _ Hwe) as Hba. change MAXSTACK with 250 in Hba.
      rewrite (testmode_ABC _ _ _ _ _ _ Hi) by (unfold abc_ok; change NO_REG with 255; lia).
      destruct (decide (base = b)); by rewrite (testmode_ABC _ _ _ _ _ _ E) by (unfold abc_ok; lia).
    + unfold testmode_at. rewrite (fi_same _ Hfi); [done|]. intros [?|[_ E]]; [done|]. unfold testset_at in E. by rewrite Hi, Ht in E.
    + unfold testmode_at. rewrite (fi_same _ Hfi); [done|]. intros [?|[_ E]]; [done|]. unfold testset_at in E. by rewrite Hi in E.
    + unfold testmode_at. rewrite (fi_same _ Hfi); [done|]. by intros [?|[? _]].
Qed.

Lemma fi_wf : wf fs' J.
Proof.
  pose proof fi_pc as Epc. pose proof fi_mergeable as Hm. pose proof fi_k as Hk. pose proof (we_wf _ _ _ _ _ _ Hwe) as []. split.
  - assert (jpc fs' = jpc fs) as -> by (by destruct (fi_fields _ Hfi) as (c & -> & _)). eapply chain_ext; [|done]. exact fi_J.
  - intros j Hj. rewrite fi_testmode. destruct (wf_cond j Hj) as [Hc|Hn]; [left|by right]. pose proof (fi_cond j Hj Hc) as E.
    destruct Hc as (o & a & b & c & Hrest). exists o, a, b, c. by rewrite E, Hk.
  - done.
  - intros _. rewrite Epc, <- Hlabel. by destruct (fi_fields _ Hfi) as (c & -> & _).
  - rewrite Epc. by destruct (fi_fields _ Hfi) as (c & -> & _).
  - by destruct (fi_fields _ Hfi) as (c & -> & _).
  - congruence.
  - by destruct (fi_fields _ Hfi) as (c & -> & _).
Qed.

Lemma fi_own0 x : own0 fs' J x <-> pend (code fs) J x.
Proof.
  unfold own0. rewrite fi_mergeable. assert (pend (code fs') J x <-> pend (code fs) J x) as ->; [|by intuition].
  unfold pend. assert (x + 1 ∈ J -> testset_at (code fs') x = testset_at (code fs) x) as E; [|naive_solver congruence]. intros Hx.
  destruct (wf_cond _ _ (we_wf _ _ _ _ _ _ Hwe) _ Hx) as [Hc|Hn].
  - pose proof (fi_cond _ Hx Hc) as E. replace (x + 1 - 1) with x in E by lia. unfold testset_at. by rewrite E.
  - replace (x + 1 - 1) with x in Hn by lia. destruct (testset_at (code fs') x) eqn:E1; [apply testset_test in E1; rewrite fi_testmode in E1; congruence|].
    destruct (testset_at (code fs) x) eqn:E2; [apply testset_test in E2; congruence|done].
Qed.

Lemma fi_fr : fr (own fs J (ek e) (T ++ F)) fs (own fs' J (VNONRELOC base) []) fs'.
Proof.
  split_and!; [by rewrite fi_k|rewrite fi_pc; lia|]. intros x Hx.
  assert (own fs' J (VNONRELOC base) [] x -> pend (code fs) J x) as Hown.
  { intros [Ho|[Ho|Ho]]; [by apply fi_own0|by apply pend_nil in Ho|done]. }
  split.
  - intros Hn. split; [apply (fi_same _ Hfi); intros Hp; apply Hn; by right; left|]. intros Ho%Hown. apply Hn. left. by left.
  - intros i Hi Hopen. destruct (decide (x + 1 ∈ T ++ F)) as [Hx1|Hx1].
    + destruct (fi_open x i Hx1 Hi) as (b & c & -> & Hb & Hc & E). { destruct Hopen as (b & c & -> & ? & ?). rewrite isop_ABC; [done|]. unfold abc_ok. change NO_REG with 255. lia. }
      eexists. split; [exact E|]. pose proof (we_base _ _ _ _ _ _ Hwe) as Hba. change MAXSTACK with 250 in Hba. split.
      * exists b, c. split_and!; try done; try lia. destruct (decide (base = b)); [by left|right; exists base; split; [lia|done]].
      * right. intros Ho%Hown. revert Ho. replace x with (x + 1 - 1) by lia.
        apply test_not_pend; [eapply chain_jumps, (wf_jpc _ _ (we_wf _ _ _ _ _ _ Hwe))|by apply Hwe|by apply (we_disjoint _ _ _ _ _ _ Hwe)].
    + exists i. split_and!; [|by apply becomes_refl|by left]. rewrite (fi_same _ Hfi); [done|]. intros [Hp|[Hp _]]; [|done].
      destruct (we_jumps _ _ _ _ _ _ Hwe x Hp) as (o & Hi' & Hs). destruct Hopen as (b & c & -> & Hb & Hc).
      assert (testset_at (code fs) x = true) as Ht by (unfold testset_at; rewrite Hi, isop_ABC; [done|unfold abc_ok; change NO_REG with 255; lia]).
      by rewrite (testset_JMP _ _ _ Hi' Hs) in Ht.
Qed.

Section Exits.
Context (H0 : Z -> Prop) (Ha : apart H0 fs (own fs J (ek e) (T ++ F))).

Abbreviation P' := (fun x => H0 x \/ own fs' J (VNONRELOC base) [] x).

Lemma fi_closed x : P' x -> H0 x \/ pend (code fs) J x.
Proof. intros [Hx|[Hx|[Hx|Hx]]]; [by left|right; by apply fi_own0|by apply pend_nil in Hx|done]. Qed.

Lemma fi_jump_closed j : j ∈ T ++ F -> ~ P' j.
Proof.
  intros Hj [Hx|Hx]%fi_closed.
  - destruct (Ha j Hx) as (_ & Hn & _). apply Hn. right. left. by left.
  - destruct (we_lists _ _ _ _ _ _ Hwe j) as [_ Hn]; [by left|]. apply Hn. by left.
Qed.

Lemma fi_test_closed j : j ∈ T ++ F -> ~ P' (j - 1).
Proof.
  intros Hj Hx%fi_closed. pose proof (we_cond _ _ _ _ _ _ Hwe j Hj) as Hc. destruct Hx as [Hx|Hx].
  - destruct Hc as (o & a & b & c & Hi & Hok & Ht & _). destruct (decide (o = OP_TESTSET)) as [->|Hne].
    + destruct (Ha _ Hx) as (_ & Hn & _). apply Hn. right. left. right. replace (j - 1 + 1) with j by lia. split; [done|].
      unfold testset_at. by rewrite Hi, isop_ABC.
    + revert Hx. apply (plain_apart _ _ _ _ _ _ _ _ Ha Hi Hok); [by intros ->|done].
  - revert Hx. apply test_not_pend; [eapply chain_jumps, (wf_jpc _ _ (we_wf _ _ _ _ _ _ Hwe))|done|by apply (we_disjoint _ _ _ _ _ _ Hwe)].
Qed.

(** The [LOADBOOL] of a list. *)
Lemma fi_loadbool t j R : j ∈ (if (t : bool) then T else F) -> testset_at (code fs) (j - 1) = false ->
  At P' fs' (target t) R -> At P' fs' (pc fs') (setreg R base (LBool t)).
Proof.
  intros Hj Ht HA. pose proof (we_base _ _ _ _ _ _ Hwe) as Hba. change MAXSTACK with 250 in Hba. rewrite fi_pc.
  assert (exists b c, instr_at (code fs) (target t) = Some (ABC OP_LOADBOOL base b c) /\ abc_ok base b c /\ negb (b =? 0) = t /\
    (if c =? 0 then target t + 1 else target t + 1 + 1) = pc fs) as (b & c & Hi & Hok & Eb & Ep).
  { destruct t; cbn [target].
    - destruct (Hlt j Hj Ht) as [Hi Hp]. exists 1, 0. split_and!; try done; try (unfold abc_ok; lia); cbn; lia.
    - destruct (Hlf j Hj Ht) as [Hi Hp]. exists 0, 1. split_and!; try done; try (unfold abc_ok; lia); cbn; lia. }
  assert (~ pend (code fs) (T ++ F) (target t)) as Hn1 by (by eapply plain_not_pend; [exact (we_jumps _ _ _ _ _ _ Hwe)|..]).
  eapply At_step; [exact HA|]. intros C K HC. rewrite (exec_loadbool rt U other C K (target t) R base b c); [by rewrite Ep, Eb| |done].
  eapply agrees_at; [exact HC|by rewrite (fi_same _ Hfi)|]. intros [Hx|Hx]%fi_closed.
  - revert Hx. by apply (plain_apart _ _ _ _ _ _ _ _ Ha Hi Hok).
  - revert Hx. eapply plain_not_pend; [eapply chain_jumps, (wf_jpc _ _ (we_wf _ _ _ _ _ _ Hwe))|done..].
Qed.

Lemma fi_exit t j R v : j ∈ (if (t : bool) then T else F) -> Exit H0 fs (own fs J (ek e) (T ++ F)) j R t v ->
  exists R', same base R R' /\ R' base = v /\ At P' fs' (pc fs') R'.
Proof.
  intros Hj [((o & a & b & c & Hi & Hok & Hit & Hts & Hrd & Hrun) & _ & Hval) HA]. pose proof (in_lists _ _ Hj) as HjL.
  pose proof (At_fr _ _ _ _ _ _ _ _ _ _ (fr_frame H0 _ _ _ _ (apart_disjoint _ _ _ Ha) fi_fr) HA) as HA'.
  specialize (Hval _ _ _ _ Hi Hok). pose proof (fi_jump _ Hfi t j Hj) as [Hij Hs]. pose proof (we_base _ _ _ _ _ _ Hwe) as Hba. change MAXSTACK with 250 in Hba.
  assert (forall o' a' b' offset, instr_at (code fs') (j - 1) = Some (ABC o' a' b' c) -> is_test o' = true -> abc_ok a' b' c ->
    instr_at (code fs') j = Some (JMP 0 offset) -> sbx_ok offset -> run_test rt (k fs) o' a' b' c R = Ok true -> reads_ok (k fs) o' b' c ->
    At P' fs' (j + 1 + offset) (test_effect o' a' b' R)) as Hstep.
  { intros o' a' b' offset Hi' Ho' Hok' Hj' Hs' Hrun' Hrd'. eapply At_step; [exact HA'|]. intros C K HC.
    rewrite (exec_test rt U other C K (j - 1) R o' a' b' c offset); [|done| |done| |done].
    - rewrite (run_test_prefix rt (k fs)); [|done|rewrite <- fi_k; apply HC|done]. rewrite Hrun'. cbn. do 2 f_equal. lia.
    - eapply agrees_at; [exact HC|exact Hi'|by apply fi_test_closed].
    - replace (j - 1 + 1) with j by lia. eapply agrees_at; [exact HC|exact Hj'|by apply fi_jump_closed]. }
  destruct (testset_at (code fs) (j - 1)) eqn:Et.
  - assert (o = OP_TESTSET) as -> by (unfold testset_at in Et; rewrite Hi in Et; by apply isop_TESTSET in Et). rewrite decide_True in Hval by done.
    destruct (fi_open (j - 1) _ ltac:(by replace (j - 1 + 1) with j by lia) Hi ltac:(by rewrite isop_ABC)) as (b2 & c2 & E & Hb2 & Hc2 & Hi').
    destruct (ABC_inj OP_TESTSET a b c OP_TESTSET NO_REG b2 c2 Hok ltac:(unfold abc_ok; change NO_REG with 255; lia) E) as (_ & -> & <- & <-).
    assert (j + 1 + (pc fs - (j + 1)) = pc fs') as Epc by (rewrite fi_pc; lia). destruct (decide (base = b)) as [->|Hne].
    + exists R. split_and!; [apply same_refl|done|]. apply (At_eq _ _ _ _ _ _ (j + 1 + (pc fs - (j + 1)))); [exact Epc|]. by apply (Hstep OP_TEST b 0).
    + exists (setreg R base v). split_and!; [by apply same_setreg|apply setreg_eq|]. rewrite Hval. apply (At_eq _ _ _ _ _ _ (j + 1 + (pc fs - (j + 1)))); [exact Epc|]. apply (Hstep OP_TESTSET base b); try done; unfold abc_ok; lia.
  - assert (o <> OP_TESTSET) as Hne by (intros ->; unfold testset_at in Et; by rewrite Hi, isop_ABC in Et). rewrite decide_False in Hval by done. subst v.
    exists (setreg R base (LBool t)). split_and!; [by apply same_setreg|apply setreg_eq|]. eapply fi_loadbool; [done|done|].
    apply (At_eq _ _ _ _ _ _ (j + 1 + (target t - (j + 1)))); [lia|].
    assert (instr_at (code fs') (j - 1) = Some (ABC o a b c)) as Hi'.
    { rewrite (fi_test _ Hfi j _ HjL Hi), isop_ABC by done. rewrite (proj2 (Z.eqb_neq _ _)); [done|]. by intros ?%opcode_Z_inj. }
    pose proof (Hstep o a b _ Hi' Hit Hok Hij Hs Hrun Hrd) as HS. by destruct o.
Qed.

(** With the jumps in place the descriptor is its register. *)
Lemma fi_out R rv : Out base H0 fs J (ek e) T F R rv -> Out base H0 fs' J (VNONRELOC base) [] [] R rv.
Proof.
  pose proof (fr_frame H0 _ _ _ _ (apart_disjoint _ _ _ Ha) fi_fr) as Hfr.
  assert (forall R', At P' fs' (pc fs') R' -> Here (fun x => H0 x \/ pend (code fs') [] x) fs' J R') as Hhere.
  { intros R' HA. left. split; [exact fi_mergeable|]. eapply At_mono; [|exact HA]. intros x [[Hx|Hx]|Hx]; [by left|by apply pend_nil in Hx|by right; left]. }
  intros [(er & -> & HD)|[(R1 & Hs & Hm)|(R1 & t & j & v & Hs & -> & Hj & Hx)]].
  - left. exists er. split; [done|]. by eapply Dead_fr.
  - rewrite Hek in Hm. destruct Hm as [HH ->]. right. left. exists R1. split; [done|]. split; [|done].
    destruct HH as [[_ HA]|[(? & ? & ? & Hm & _)|(j & Hj & Hp)]]; [|by rewrite unmergeable in Hm|].
    + apply Hhere. rewrite fi_pc. eapply At_fr; [exact Hfr|]. eapply At_mono; [|exact HA]. intros x. rewrite Hek. unfold own. cbn [own_kind]. tauto.
    + assert (forall p, At (fun x => (H0 x \/ pend (code fs) (T ++ F) x) \/ own0 fs J x) fs p R1 ->
        At (fun x => (H0 x \/ pend (code fs') [] x) \/ own0 fs' J x) fs' p R1) as Hmv.
      { intros p HA. eapply At_mono; [|eapply At_fr; [exact Hfr|]].
        - intros x [[Hx|Hx]|Hx]; [by left|by apply pend_nil in Hx|by right; left].
        - eapply At_mono; [|exact HA]. intros x. rewrite Hek. unfold own. cbn [own_kind]. tauto. }
      right. right. exists j. split; [done|]. destruct Hp as [[Hf HA]|[Hn HA]]; [left|right].
      * split; [|by apply Hmv]. assert (cond_at fs j) as Hc by (destruct Hf as (o & a & b & c & ? & ? & ? & ? & ? & _); by exists o, a, b, c).
        destruct Hf as (o & a & b & c & Hi & Hrest). exists o, a, b, c. by rewrite (fi_cond j Hj Hc), fi_k.
      * rewrite fi_testmode. split; [done|by apply Hmv].
  - destruct (fi_exit t j R1 v Hj Hx) as (R' & Hs' & Hv & HA). right. left. exists R'. split; [by eapply same_trans; [|exact Hs|exact Hs']|].
    split; [by apply Hhere|]. cbn. by rewrite Hv.
Qed.
End Exits.

Lemma fi_trans : trans base 0 fs J e T F fs' J (init_exp (VNONRELOC base)) [] [].
Proof.
  split.
  - split; try done; [exact fi_wf|by intros j ?%elem_of_nil|rewrite app_nil_l; exact (wf_nodup _ _ (we_wf _ _ _ _ _ _ Hwe))|by right|apply Hwe].
  - exact fi_fr.
  - by destruct (fi_fields _ Hfi) as (c & -> & _).
  - unfold cost, nk. rewrite fi_pc, fi_k. lia.
  - intros H0 R rv Ha. by apply fi_out.
Qed.
End Finished.
End Finish.

(** ** Appended code *)

Record appends (fs : FuncState) (l : list Z) (fs' : FuncState) : Prop := {
  ap_code : code fs' = code fs ++ l;
  ap_k : k fs' = k fs;
  ap_h : h fs' = h fs;
  ap_nact : nactvar fs' = nactvar fs;
  ap_free : freereg fs' = freereg fs;
}.

Lemma appends_trans fs l fs1 l' fs2 : appends fs l fs1 -> appends fs1 l' fs2 -> appends fs (l ++ l') fs2.
Proof. intros [] []. split; try congruence. rewrite app_assoc. congruence. Qed.

Lemma ap_pc fs l fs' : appends fs l fs' -> pc fs' = pc fs + Z.of_nat (length l).
Proof. intros Ha. unfold pc. rewrite (ap_code _ _ _ Ha), length_app. lia. Qed.

Lemma instr_at_app_l c l x : x < len c -> instr_at (c ++ l) x = instr_at c x.
Proof. unfold instr_at, len. intros Hx. destruct (Z.ltb_spec x 0); [done|]. apply lookup_app_l. lia. Qed.

Lemma instr_at_app_r c l n i : l !! n = Some i -> instr_at (c ++ l) (len c + Z.of_nat n) = Some i.
Proof.
  unfold instr_at, len. intros Hn. rewrite (proj2 (Z.ltb_ge _ _)) by lia. rewrite lookup_app_r by lia.
  by replace (Z.to_nat (Z.of_nat (length c) + Z.of_nat n) - length c)%nat with n by lia.
Qed.

Lemma ap_old fs l fs' x : appends fs l fs' -> x < pc fs -> instr_at (code fs') x = instr_at (code fs) x.
Proof. intros Ha Hx. rewrite (ap_code _ _ _ Ha). by apply instr_at_app_l. Qed.

Lemma ap_new fs l fs' n i : appends fs l fs' -> l !! n = Some i -> instr_at (code fs') (pc fs + Z.of_nat n) = Some i.
Proof. intros Ha Hn. rewrite (ap_code _ _ _ Ha). by apply instr_at_app_r. Qed.

Lemma list_instr_eq (c c' : list Z) : len c' = len c -> (forall x, instr_at c' x = instr_at c x) -> c' = c.
Proof.
  intros Hl Hx. apply list_eq. intros n. specialize (Hx (Z.of_nat n)). unfold instr_at in Hx. rewrite (proj2 (Z.ltb_ge _ _)) in Hx by lia. by rewrite Nat2Z.id in Hx.
Qed.

Lemma emitted_appends fs i fs' : emitted fs [] i fs' -> appends fs [i] fs'.
Proof.
  intros Hem. destruct (em_code _ _ _ _ Hem) as (c' & Hp & E). split; try apply Hem. rewrite E. f_equal. apply list_instr_eq; [apply Hp|].
  intros x. eapply patched_same; [exact Hp|]. apply pend_nil.
Qed.

Lemma set_target_appends fs n : appends fs [] (set_target n fs).
Proof. split; try done. cbn. by rewrite app_nil_r. Qed.

(** A label: nothing is left to be widened. *)
Lemma wf_set_target fs J : wf fs J -> wf (set_target (pc fs) fs) J.
Proof.
  intros []. split; try done.
  - change (0 <= pc fs <= pc fs). unfold pc. lia.
  - intros Hm. unfold mergeable in Hm. change (pc (set_target (pc fs) fs)) with (pc fs) in Hm. cbn [lasttarget set_target] in Hm. by rewrite Z.ltb_irrefl in Hm.
Qed.

Lemma wpc_code_label a b c fs (Q : Z -> FuncState -> Prop) :
  wf fs [] -> pc fs <= MAXARG_sBx -> abc_ok a b c ->
  (forall fs', appends fs [ABC OP_LOADBOOL a b c] fs' -> wf fs' [] -> Q (pc fs) fs') -> wpc (code_label a b c) fs Q.
Proof.
  intros Hwf Hpc Hok HQ. apply wpc_bind. unfold wpc at 1, luaK_getlabel. eapply (wpc_code _ _ []); [by apply wf_set_target|done|].
  intros fs' Hem. apply (HQ fs').
  - change [ABC OP_LOADBOOL a b c] with ([] ++ [ABC OP_LOADBOOL a b c]). eapply appends_trans; [apply set_target_appends|by apply emitted_appends].
  - eapply em_wf; [by apply wf_set_target|exact Hem|]. by rewrite isop_ABC.
Qed.

Lemma wpc_jump fs (Q : Z -> FuncState -> Prop) :
  wf fs [] -> pc fs <= MAXARG_sBx -> (forall fs', emitted fs [] (JMP 0 NO_JUMP) fs' -> wf fs' [] -> Q (pc fs) fs') -> wpc luaK_jump fs Q.
Proof.
  intros Hwf Hpc HQ. pose proof (wf_jpc _ _ Hwf) as Hj. unfold luaK_jump. apply wpc_bind, wpc_getfs, wpc_bind, wpc_putfs.
  assert (set_jpc NO_JUMP fs = fs) as -> by (destruct fs; cbn in *; by subst). apply wpc_bind. unfold luaK_codeAsBx, luaK_codeABx.
  eapply (wpc_code _ _ []); [done|done|]. intros fs' Hem. change (CREATE_ABx (opcode_Z OP_JMP) 0 (NO_JUMP + MAXARG_sBx)) with (JMP 0 NO_JUMP) in Hem.
  cbn in Hj. rewrite Hj. unfold luaK_concat. cbn. apply HQ; [done|]. eapply em_wf; [done|exact Hem|]. done.
Qed.

(** A descriptor after code was appended that ends with a label. *)
Lemma we_append base fs e T F l fs' J' :
  wfe base fs [] e T F -> appends fs l fs' -> wf fs' J' -> mergeable fs' = false -> (forall j, j ∈ J' -> pc fs <= j) -> testmode_at (code fs) (pc fs - 1) = false \/ J' = [] ->
  wfe base fs' J' (with_kind e (VNONRELOC base)) T F /\ fr (own fs [] (ek e) (T ++ F)) fs (own fs' J' (VNONRELOC base) (T ++ F)) fs' /\
  (forall x, x < pc fs -> pend (code fs') (T ++ F) x <-> pend (code fs) (T ++ F) x) /\
  (forall j, j ∈ T ++ F -> instr_at (code fs') (j - 1) = instr_at (code fs) (j - 1)).
Proof.
  intros Hwe Hap Hwf' Hm HJ Hq. pose proof (we_below _ _ _ _ _ _ Hwe) as Hb. pose proof (ap_pc _ _ _ Hap) as Epc.
  assert (forall j, j ∈ T ++ F -> instr_at (code fs') j = instr_at (code fs) j /\ instr_at (code fs') (j - 1) = instr_at (code fs) (j - 1)) as Hj.
  { intros j Hj. pose proof (Hb j Hj). split; eapply ap_old; try done; lia. }
  assert (forall x, x < pc fs -> pend (code fs') (T ++ F) x <-> pend (code fs) (T ++ F) x) as Hp.
  { intros x Hx. unfold pend, testset_at. by rewrite (ap_old _ _ _ _ Hap Hx). }
  pose proof Hwe as [Hwf HT HF Hc Hnd Hk Hba]. split_and!.
  - split; try done.
    + eapply chain_ext; [|exact HT]. intros j Hjj. apply Hj. set_solver.
    + eapply chain_ext; [|exact HF]. intros j Hjj. apply Hj. set_solver.
    + intros j Hjj. destruct (Hc j Hjj) as (o & a & b & c & Hrest). exists o, a, b, c. by rewrite (proj2 (Hj j Hjj)), (ap_k _ _ _ Hap).
    + rewrite app_nil_r in Hnd. apply NoDup_app. split_and!; [done| |apply Hwf']. intros j Hj1 Hj2. apply Hb in Hj1. apply HJ in Hj2. lia.
    + by right.
  - split_and!; [by rewrite (ap_k _ _ _ Hap)|lia|]. intros x Hx. pose proof (ap_old _ _ _ x Hap ltac:(lia)) as E. split.
    + intros Hn. split; [done|]. intros [[[Ho|[Ho Ht]]|[_ Ho]]|[Ho|Ho]].
      * apply HJ in Ho. lia.
      * destruct Hq as [Hq| ->]; [|by apply elem_of_nil in Ho]. apply HJ in Ho. assert (x = pc fs - 1) as -> by lia.
        unfold testset_at in Ht. rewrite E in Ht. fold (testset_at (code fs) (pc fs - 1)) in Ht. apply testset_test in Ht. congruence.
      * congruence.
      * apply Hn. right. left. apply Hp; [lia|done].
      * done.
    + intros i Hi Ho. exists i. split_and!; [by rewrite E|by apply becomes_refl|by left].
  - done.
  - intros j Hjj. by apply Hj.
Qed.

(** The run arrives at appended code. *)
Lemma ap_arrive H0 fs l fs' R :
  wf fs [] -> apart H0 fs (own0 fs []) -> appends fs l fs' -> Here H0 fs [] R -> At (fun x => H0 x \/ pc fs <= x) fs' (pc fs) R.
Proof.
  intros Hwf Ha Hap HH. assert (fr (fun x => H0 x \/ own0 fs [] x) fs (fun x => H0 x \/ pc fs <= x) fs') as Hfr.
  { split_and!; [by rewrite (ap_k _ _ _ Hap)|rewrite (ap_pc _ _ _ Hap); lia|]. intros x Hx. pose proof (ap_old _ _ _ x Hap ltac:(lia)) as E. split.
    - intros Hn. split; [done|]. intros [Hx0|Hx0]; [|lia]. apply Hn. by left.
    - intros i Hi Ho. exists i. split_and!; [by rewrite E|by apply becomes_refl|by left]. }
  destruct HH as [[_ HA]|[(a & b & R' & Hm & Hi & Hab & -> & HA)|(j & Hj & _)]]; [by eapply At_fr| |by apply elem_of_nil in Hj].
  pose proof (instr_at_range _ _ _ Hi) as Hr. change (len (code fs)) with (pc fs) in Hr.
  apply (At_eq _ _ _ _ _ _ (pc fs - 1 + 1)); [lia|]. eapply At_step; [by eapply At_fr|]. intros C K HC. apply exec_loadnil; [|unfold abc_ok; lia].
  eapply agrees_at; [exact HC|by rewrite (ap_old _ _ _ _ Hap) by lia|]. intros [Hx|Hx]; [|lia]. destruct (Ha _ Hx) as (_ & Hn & _). apply Hn. by right.
Qed.

(** ** A comparison joins a list *)

Lemma vjmp_shape base fs J e T F j : wfe base fs J e T F -> ek e = VJMP j ->
  j = pc fs - 1 /\ J = [] /\ j ∉ T ++ F /\ instr_at (code fs) j = Some (JMP 0 NO_JUMP).
Proof. intros Hwe Hek. pose proof (we_kind _ _ _ _ _ _ Hwe) as Hk. rewrite Hek in Hk. by destruct Hk as (-> & -> & Hi & Hn & _). Qed.

Section Join.
Context (base : Z) (fs : FuncState) (J : list Z) (e : expdesc) (T F : list Z) (j : Z) (t : bool) (l : Z) (c' : list Z).
Hypothesis Hwe : wfe base fs J e T F.
Hypothesis Hek : ek e = VJMP j.
Hypothesis Hlen : len c' = pc fs.
Hypothesis Hchain : chain c' l ((if t then T else F) ++ [j]).
Hypothesis Hsame : forall x, x ∉ (if t then T else F) -> x <> j - 1 -> instr_at c' x = instr_at (code fs) x.
Hypothesis Htest : forall o a b c, instr_at (code fs) (j - 1) = Some (ABC o a b c) -> abc_ok a b c ->
  instr_at c' (j - 1) = Some (ABC o (if t then a else 1 - a) b c).

Let T' : list Z := if t then T ++ [j] else T.
Let F' : list Z := if t then F else F ++ [j].
Let e' : expdesc := if t then MkExp VFALSE l (ef e) else MkExp VTRUE (et e) l.
Let fs' : FuncState := set_code c' fs.

Lemma join_elem x : x ∈ T' ++ F' <-> x ∈ T ++ F \/ x = j.
Proof. unfold T', F'. destruct t; set_solver. Qed.

Lemma join_j : j = pc fs - 1 /\ J = [] /\ j ∉ T ++ F /\ instr_at (code fs) j = Some (JMP 0 NO_JUMP).
Proof. by eapply vjmp_shape. Qed.

Lemma join_test : exists o a b c, instr_at (code fs) (j - 1) = Some (ABC o a b c) /\ abc_ok a b c /\ is_test o = true /\ o <> OP_TESTSET /\ reads_ok (k fs) o b c /\
  (a = 0 \/ a = 1) /\ instr_at c' (j - 1) = Some (ABC o (if t then a else 1 - a) b c) /\ abc_ok (if t then a else 1 - a) b c /\
  forall R, run_test rt (k fs) o (if t then a else 1 - a) b c R = (fun r => if t then r else negb r) <$> run_test rt (k fs) o a b c R.
Proof.
  pose proof (we_kind _ _ _ _ _ _ Hwe) as Hk. rewrite Hek in Hk. destruct Hk as (_ & _ & _ & _ & o & a & b & c & Hi & Hok & Ho & Ha & Hr).
  exists o, a, b, c. unfold abc_ok in *. split_and!; try done; try (destruct t; lia).
  - by destruct Ho as [->|[->| ->]].
  - by destruct Ho as [->|[->| ->]].
  - by apply Htest.
  - intros R. assert (forall x, b2z x =? (if t then a else 1 - a) = (if t then b2z x =? a else negb (b2z x =? a))) as E.
    { intros x. destruct t; [done|]. destruct x, Ha as [->| ->]; done. }
    destruct Ho as [->|[->| ->]]; cbn [run_test]; unfold mbind, res_bind, fmap, res_fmap; repeat case_match; try done; by rewrite E.
Qed.

Lemma join_instr x : x ∈ T ++ F -> instr_at c' (x - 1) = instr_at (code fs) (x - 1).
Proof.
  intros Hx. destruct join_j as (Ej & _ & Hn & _). apply Hsame.
  - intros Hy. assert (x - 1 ∈ T ++ F) as Hy' by (destruct t; set_solver). revert Hy'. apply (test_not_jump fs); [exact (we_jumps _ _ _ _ _ _ Hwe)|by apply Hwe].
  - intros E. assert (x = j) as -> by lia. done.
Qed.

Lemma join_not_test : j - 1 ∉ T ++ F.
Proof.
  destruct join_test as (o & a & b & c & Hi & Hok & Ho & _). intros Hx. destruct (we_jumps _ _ _ _ _ _ Hwe _ Hx) as (o' & Hi2 & Hs2).
  pose proof (testmode_ABC _ _ _ _ _ _ Hi Hok) as E. rewrite (testmode_JMP _ _ _ Hi2 Hs2), Ho in E. done.
Qed.

Lemma join_pend x : pend c' (T' ++ F') x <-> pend (code fs) (T ++ F) x \/ x = j.
Proof.
  destruct join_test as (o & a & b & c & Hi & Hok & Ho & Hne & _ & _ & Hi' & Hok' & _). unfold pend. rewrite !join_elem.
  assert (x + 1 ∈ T ++ F -> testset_at c' x = testset_at (code fs) x) as E1.
  { intros Hx. pose proof (join_instr _ Hx) as E. replace (x + 1 - 1) with x in E by lia. unfold testset_at. by rewrite E. }
  assert (x + 1 = j -> testset_at c' x = false) as E2.
  { intros Hx. unfold testset_at. replace x with (j - 1) by lia. rewrite Hi', isop_ABC by done. apply Z.eqb_neq. by intros ?%opcode_Z_inj. }
  split; [|naive_solver congruence]. intros [[?|?]|[[?|?] Ht]]; [by left; left|by right| |rewrite E2 in Ht; done]. left. right. split; [done|]. by rewrite <- E1.
Qed.

Lemma join_mergeable : mergeable fs' = false.
Proof.
  destruct join_j as (Ej & _ & Hn & Hi). unfold mergeable. replace (pc fs') with (pc fs) by (symmetry; exact Hlen). cbn [code set_code fs'].
  rewrite <- Ej, Hsame, Hi; [apply andb_false_r|destruct t; set_solver|lia].
Qed.

Lemma join_wfe : wfe base fs' [] e' T' F'.
Proof.
  destruct join_j as (Ej & HJ & Hn & Hi). pose proof Hwe as [Hwf HT HF Hc Hnd Hk Hb]. pose proof join_mergeable as Hm. rewrite HJ, app_nil_r in Hnd.
  assert (pc fs' = pc fs) as Epc by exact Hlen. pose proof join_not_test as Hnt. rewrite HJ in Hwf. destruct Hwf. split.
  - split; try done.
    + intros x Hx. by apply elem_of_nil in Hx.
    + by rewrite Epc.
    + congruence.
  - unfold e', T'. destruct t; cbn [et]; [exact Hchain|]. eapply chain_ext; [|exact HT]. intros x Hx. apply Hsame.
    + intros Hy. apply NoDup_app in Hnd as (_ & Hd & _). by eapply Hd.
    + intros ->. apply Hnt. set_solver.
  - unfold e', F'. destruct t; cbn [ef]; [|exact Hchain]. eapply chain_ext; [|exact HF]. intros x Hx. apply Hsame.
    + intros Hy. apply NoDup_app in Hnd as (_ & Hd & _). by eapply Hd.
    + intros ->. apply Hnt. set_solver.
  - intros x [Hx| ->]%join_elem.
    + destruct (Hc x Hx) as (o & a & b & c & Hi1 & Hrest). exists o, a, b, c. cbn [code set_code fs' k]. by rewrite join_instr.
    + destruct join_test as (o & a & b & c & Hi1 & Hok1 & Ho & Hne & Hr & _ & Hi2 & Hok2 & _). exists o, (if t then a else 1 - a), b, c. cbn [code set_code fs' k].
      split_and!; done.
  - rewrite app_nil_r. assert (T' ++ F' ≡ₚ j :: (T ++ F)) as ->; [|by apply NoDup_cons].
    unfold T', F'. destruct t; [|rewrite app_assoc]; rewrite <- ?app_assoc; cbn; [by rewrite Permutation_middle|]. rewrite app_assoc. by rewrite Permutation_app_comm.
  - unfold e'. by destruct t.
  - done.
Qed.

Lemma join_fr : fr (own fs J (ek e) (T ++ F)) fs (own fs' [] (ek e') (T' ++ F')) fs'.
Proof.
  destruct join_j as (Ej & HJ & Hn & Hi). pose proof join_mergeable as Hm. split_and!; [done|rewrite <- Hlen; done|]. intros x Hx.
  assert (own fs' [] (ek e') (T' ++ F') x -> pend (code fs) (T ++ F) x \/ x = j) as Ho'.
  { intros [[Ho|[_ Ho]]|[Ho|Ho]]; [by apply pend_nil in Ho|congruence|by apply join_pend in Ho|unfold e' in Ho; by destruct t]. }
  split.
  - intros Hno. split.
    + apply Hsame; [intros Hy; apply Hno; right; left; left; destruct t; set_solver|]. intros ->. apply Hno. right. right. rewrite Hek. by right.
    + intros [Ho| ->]%Ho'; apply Hno; [by right; left|]. right. right. rewrite Hek. by left.
  - intros i Hi0 Hopen. exists i. split_and!; [|by apply becomes_refl|by left]. cbn [code set_code fs']. rewrite Hsame; [done| |].
    + intros Hy. assert (x ∈ T ++ F) as Hy' by (destruct t; set_solver). destruct (we_jumps _ _ _ _ _ _ Hwe x Hy') as (o & Hi2 & Hs).
      destruct Hopen as (b & c & -> & Hb & Hc). assert (testset_at (code fs) x = true) as Ht by (unfold testset_at; rewrite Hi0, isop_ABC; [done|unfold abc_ok; change NO_REG with 255; lia]).
      by rewrite (testset_JMP _ _ _ Hi2 Hs) in Ht.
    + intros ->. destruct join_test as (o & a & b & c & Hi1 & Hok1 & Ho & Hne & _). destruct Hopen as (b2 & c2 & -> & Hb2 & Hc2).
      destruct (ABC_inj o a b c OP_TESTSET NO_REG b2 c2) as [? _]; [done|unfold abc_ok; change NO_REG with 255; lia|congruence|done].
Qed.

Lemma join_trans : trans base 0 fs J e T F fs' [] e' T' F'.
Proof.
  split; [exact join_wfe|exact join_fr|done|unfold cost, nk; replace (pc fs') with (pc fs) by (symmetry; exact Hlen); cbn; lia|].
  intros H0 R rv Ha HO. pose proof (fr_frame H0 _ _ _ _ (apart_disjoint _ _ _ Ha) join_fr) as Hfr. destruct join_j as (Ej & HJ & Hn & Hi).
  eapply Out_carry; [exact Ha|exact join_fr|unfold T'; destruct t; set_solver|unfold F'; destruct t; set_solver|exact join_instr| |exact HO].
  intros R1 Hs HM. rewrite Hek in HM. destruct HM as (HA & o2 & a2 & b2 & c2 & Hi2 & Hok2 & ->). rewrite <- Hek in HA.
  destruct join_test as (o & a & b & c & Hi1 & Hok1 & Ho & Hne & Hr & Hae & Hi' & Hok' & Hrun).
  destruct (ABC_inj o2 a2 b2 c2 o a b c) as (-> & -> & -> & ->); [done|done|congruence|].
  pose proof (At_fr _ _ _ _ _ _ _ _ _ _ Hfr HA) as HA'.
  assert (~ (H0 (j - 1) \/ own fs' [] (ek e') (T' ++ F') (j - 1))) as Hclosed.
  { intros [Hx|[[Hx|[_ Hx]]|[Hx|Hx]]].
    - destruct (Ha _ Hx) as (_ & Hnn & _). apply Hnn. right. right. rewrite Hek. by right.
    - by apply pend_nil in Hx.
    - by rewrite join_mergeable in Hx.
    - apply join_pend in Hx as [Hx|Hx]; [|lia]. revert Hx. eapply plain_not_pend; [exact (we_jumps _ _ _ _ _ _ Hwe)|exact Hi1|done|by intros ->|done].
    - unfold e' in Hx. by destruct t. }
  assert (forall C K, agrees C K fs' (fun x => H0 x \/ own fs' [] (ek e') (T' ++ F') x) ->
    instr_at C (j - 1) = Some (ABC o (if t then a else 1 - a) b c) /\
    run_test rt K o (if t then a else 1 - a) b c R1 = (fun r => if t then r else negb r) <$> run_test rt (k fs) o a b c R1) as HC0.
  { intros C K HC. split; [by eapply agrees_at|]. rewrite <- Hrun. apply run_test_prefix; [done|apply HC|done]. }
  destruct (run_test rt (k fs) o a b c R1) as [r|er] eqn:Er.
  2: { left. exists er. split; [done|]. eapply At_dead; [exact HA'|]. intros C K HC. destruct (HC0 C K HC) as [HCi HCr].
       rewrite (exec_test_skip rt U other C K (j - 1) R1 o (if t then a else 1 - a) b c); try done; by rewrite HCr. }
  destruct (decide (r = t)) as [->|Hrt].
  - right. right. exists R1, t, j, (LBool t). split_and!; [done|done|unfold T', F'; destruct t; set_solver|]. split; [|exact HA']. split_and!.
    + exists o, (if t then a else 1 - a), b, c. cbn [code set_code fs' k]. split_and!; try done. rewrite Hrun, Er. by destruct t.
    + by destruct t.
    + intros o3 a3 b3 c3 Hi3 Hok3. cbn [code set_code fs'] in Hi3. destruct (ABC_inj o3 a3 b3 c3 o (if t then a else 1 - a) b c) as (-> & _); [done|done|congruence|].
      by rewrite decide_False.
  - right. left. exists R1. split; [done|]. assert (r = negb t) as -> by (by destruct r, t).
    assert (At (fun x => H0 x \/ own fs' [] (ek e') (T' ++ F') x) fs' (pc fs') R1) as HA2.
    { eapply At_eq; [|eapply At_step; [exact HA'|]].
      2: { intros C K HC. destruct (HC0 C K HC) as [HCi HCr]. rewrite (exec_test_skip rt U other C K (j - 1) R1 o (if t then a else 1 - a) b c); try done.
           - rewrite HCr. done.
           - rewrite HCr. by destruct t. }
      replace (pc fs') with (pc fs) by (symmetry; exact Hlen). lia. }
    assert (simple (ek e')) as Hsi by (unfold e'; by destruct t). apply Main_simple; [done|]. split.
    + left. split; [exact join_mergeable|]. eapply At_mono; [|exact HA2]. intros x [[Hx|Hx]|Hx]; [by left|by right; right; left|by right; left].
    + unfold e'. by destruct t.
Qed.
End Join.

(** ** The loads before the targets *)

(** Code that the value in the register jumps over, or none. *)
Lemma trans_over base fs e T F l fs' J' :
  wfe base fs [] e T F -> ek e = VNONRELOC base -> appends fs l fs' -> wf fs' J' -> mergeable fs' = false -> (length l <= 3)%nat ->
  (l = [] /\ J' = [] \/ quiet fs /\ J' = [pc fs]) -> trans base 3 fs [] e T F fs' J' e T F.
Proof.
  intros Hwe Hek Hap Hwf' Hm Hl Hcase. pose proof (ap_pc _ _ _ Hap) as Epc.
  destruct (we_append base fs e T F l fs' J') as (W & Hfr & Hp & Hj); try done.
  { intros j Hj. destruct Hcase as [[_ ->]|[_ ->]]; [by apply elem_of_nil in Hj|]. apply list_elem_of_singleton in Hj as ->. lia. }
  { destruct Hcase as [[_ ->]|[Hq _]]; [by right|by left]. }
  replace (with_kind e (VNONRELOC base)) with e in W by (by rewrite <- Hek; destruct e). rewrite <- Hek in Hfr.
  split; [exact W|exact Hfr|apply Hap|unfold cost, nk; rewrite Epc, (ap_k _ _ _ Hap); lia|].
  intros H0 R rv Ha HO. eapply Out_carry; [exact Ha|exact Hfr|done|done|exact Hj| |exact HO]. intros R1 Hs HM. right. left. exists R1. split; [done|].
  rewrite Hek in HM |- *. apply Main_simple in HM as [HH ->]; [|done]. apply Main_simple; [done|]. split; [|done].
  pose proof (ap_arrive _ fs l fs' R1 (we_wf _ _ _ _ _ _ Hwe) (we_apart _ _ _ _ _ _ Hwe _ Ha) Hap HH) as HA.
  assert (forall x, x < pc fs -> own0 fs' J' x -> x ∈ J' \/ (x + 1 ∈ J' /\ testset_at (code fs') x = true)) as Ho0 by (intros x _ [Hx|[_ Hx]]; [done|congruence]).
  assert (At (fun x => (H0 x \/ pend (code fs') (T ++ F) x) \/ own0 fs' J' x) fs' (pc fs) R1) as HA'.
  { eapply At_mono; [|exact HA]. intros x [[Hx|Hx]|Hx]; [by left; left| |].
    - destruct (decide (x < pc fs)); [left; right; by apply Hp|by right; lia].
    - destruct (decide (x < pc fs)) as [Hlt|]; [|by right; lia]. destruct (Ho0 x Hlt Hx) as [Hx'|[Hx' Ht]]; destruct Hcase as [[_ ->]|[Hq ->]]; try by apply elem_of_nil in Hx'.
      + apply list_elem_of_singleton in Hx'. lia.
      + apply list_elem_of_singleton in Hx'. unfold testset_at in Ht. rewrite (ap_old _ _ _ _ Hap Hlt) in Ht. apply (testset_test (code fs)) in Ht.
        unfold quiet in Hq. replace (pc fs - 1) with x in Hq by lia. congruence. }
  destruct Hcase as [[-> ->]|[Hq ->]].
  - left. split; [done|]. cbn in Epc. by rewrite Epc, Z.add_0_r.
  - right. right. exists (pc fs). split; [set_solver|]. right. split; [|exact HA'].
    unfold testmode_at. rewrite (ap_old _ _ _ (pc fs - 1) Hap) by lia. exact Hq.
Qed.

(** A false that falls into the [LOADBOOL] of its list. *)
Lemma trans_false base fs e T F fs' :
  wfe base fs [] e T F -> ek e = VFALSE -> appends fs [ABC OP_LOADBOOL base 0 1; ABC OP_LOADBOOL base 1 0] fs' -> wf fs' [] -> mergeable fs' = false ->
  trans base 2 fs [] e T F fs' [] (with_kind e (VNONRELOC base)) T F.
Proof.
  intros Hwe Hek Hap Hwf' Hm. pose proof (ap_pc _ _ _ Hap) as Epc. cbn in Epc. pose proof (we_base _ _ _ _ _ _ Hwe) as Hba. change MAXSTACK with 250 in Hba.
  destruct (we_append base fs e T F _ fs' [] Hwe Hap) as (W & Hfr & Hp & Hj); [done|done|by intros j ?%elem_of_nil|by right|].
  split; [exact W|exact Hfr|apply Hap|unfold cost, nk; rewrite Epc, (ap_k _ _ _ Hap); lia|].
  intros H0 R rv Ha HO. eapply Out_carry; [exact Ha|exact Hfr|done|done|exact Hj| |exact HO]. intros R1 Hs HM. right. left. exists (setreg R1 base (LBool false)).
  split; [eapply same_trans; [|exact Hs|by apply same_setreg]; lia|]. rewrite Hek in HM. apply Main_simple in HM as [HH ->]; [|done].
  apply Main_simple; [done|]. cbn [kval ek with_kind]. rewrite setreg_eq. split; [|done]. left. split; [done|].
  pose proof (ap_arrive _ fs _ fs' R1 (we_wf _ _ _ _ _ _ Hwe) (we_apart _ _ _ _ _ _ Hwe _ Ha) Hap HH) as HA.
  pose proof (ap_new _ _ _ 0 _ Hap eq_refl) as Hi. rewrite Z.add_0_r in Hi.
  assert (forall x, (H0 x \/ pend (code fs') (T ++ F) x) \/ own0 fs' [] x -> H0 x \/ pend (code fs) (T ++ F) x) as Hopen.
  { intros x [[Hx|Hx]|[Hx|[_ Hx]]]; [by left| |by apply pend_nil in Hx|congruence]. right. destruct (decide (x < pc fs)); [by apply Hp|].
    destruct Hx as [Hx|[Hx _]]; apply (we_below _ _ _ _ _ _ Hwe) in Hx; lia. }
  eapply At_eq; [|eapply At_step; [eapply At_mono; [|exact HA]|]].
  3: { intros C K HC. rewrite (exec_loadbool rt U other C K (pc fs) R1 base 0 1); [done| |unfold abc_ok; lia]. eapply agrees_at; [exact HC|exact Hi|].
       intros Hx%Hopen. destruct (we_apart _ _ _ _ _ _ Hwe _ Ha _ Hx) as [? _]. lia. }
  - cbn. lia.
  - intros x Hx%Hopen. by left.
Qed.

(** ** [exp2reg] *)

(** What follows [discharge2reg]. *)
Definition exp2reg_tail (e : expdesc) (reg : Z) : coder expdesc :=
  _ ← (if hasjumps e then
         fuel ← jumps_fuel;
         nt ← need_value fuel (et e);
         nv ← (if (nt : bool) then mret true else need_value fuel (ef e));
         '(p_f, p_t) ← (if (nv : bool) then
                          fj ← (if is_jmp e then mret NO_JUMP else luaK_jump);
                          p_f ← code_label reg 0 1;
                          p_t ← code_label reg 1 0;
                          _ ← luaK_patchtohere fj;
                          mret (p_f, p_t)
                        else mret (NO_JUMP, NO_JUMP));
         final ← luaK_getlabel;
         fuel ← jumps_fuel;
         _ ← patchlistaux fuel (ef e) final reg p_f;
         patchlistaux fuel (et e) final reg p_t
       else mret ());
  mret (init_exp (VNONRELOC reg)).

Lemma exp2reg_eq e reg : exp2reg e reg =
  (e ← discharge2reg e reg;
   e ← (match ek e with VJMP j => t ← luaK_concat (et e) j; mret (with_t e t) | _ => mret e end);
   exp2reg_tail e reg).
Proof. done. Qed.

(** Whether a value has to be loaded. *)
Lemma wpc_need {A} base fs J e T F (f : bool -> coder A) (Q : A -> FuncState -> Prop) :
  wfe base fs J e T F ->
  wpc (f (existsb (fun j => negb (testset_at (code fs) (j - 1))) (T ++ F))) fs Q ->
  wpc (fuel ← jumps_fuel; nt ← need_value fuel (et e); nv ← (if (nt : bool) then mret true else need_value fuel (ef e)); f nv) fs Q.
Proof.
  intros [_ HT HF _ Hnd _ _] HQ. apply NoDup_app in Hnd as (Hnd & _ & _). apply NoDup_app in Hnd as (HnT & _ & HnF).
  rewrite existsb_app in HQ. apply wpc_bind, wpc_getfs, wpc_bind. eapply wpc_need_value; [exact HT| |].
  { pose proof (chain_length _ _ _ HT HnT). lia. }
  apply wpc_bind. destruct (existsb _ T); cbn [orb] in HQ; [by apply wpc_ret|]. eapply wpc_need_value; [exact HF| |exact HQ]. pose proof (chain_length _ _ _ HF HnF). lia.
Qed.

Lemma wpc_targets base fs J e T F pf pt (Q : () -> FuncState -> Prop) :
  wfe base fs J e T F -> ek e = VNONRELOC base -> lasttarget fs = pc fs -> pc fs < MAXARG_sBx -> -1 <= pf <= pc fs -> -1 <= pt <= pc fs ->
  (forall j, j ∈ F -> testset_at (code fs) (j - 1) = false -> instr_at (code fs) pf = Some (ABC OP_LOADBOOL base 0 1) /\ pf + 2 = pc fs) ->
  (forall j, j ∈ T -> testset_at (code fs) (j - 1) = false -> instr_at (code fs) pt = Some (ABC OP_LOADBOOL base 1 0) /\ pt + 1 = pc fs) ->
  (forall fs', trans base 0 fs J e T F fs' J (init_exp (VNONRELOC base)) [] [] -> freereg fs' = freereg fs -> Q () fs') ->
  wpc (fuel ← jumps_fuel; _ ← patchlistaux fuel (ef e) (pc fs) base pf; patchlistaux fuel (et e) (pc fs) base pt) fs Q.
Proof.
  intros Hwe Hek Hl Hpc Hpf Hpt Hlf Hlt HQ. apply wpc_bind, wpc_getfs. eapply wpc_finish; [exact Hwe|done|done|done|done|done|lia|].
  intros fs' Hfi. apply HQ; [exact (fi_trans base fs J e T F pf pt Hwe Hek Hl Hpc Hpf Hpt Hlf Hlt fs' Hfi)|]. by destruct (fi_fields _ _ _ _ _ _ _ Hfi) as (c & -> & _).
Qed.

Lemma need_false c js j : existsb (fun j => negb (testset_at c (j - 1))) js = false -> j ∈ js -> testset_at c (j - 1) = true.
Proof.
  intros He Hj. destruct (testset_at c (j - 1)) eqn:Et; [done|]. assert (existsb (fun j => negb (testset_at c (j - 1))) js = true) as E; [|congruence].
  apply existsb_exists. exists j. split; [by apply list_elem_of_In|]. by rewrite Et.
Qed.

Lemma wpc_patchtohere_nil fj fs (Q : () -> FuncState -> Prop) :
  jpc fs = NO_JUMP -> Q () (set_jpc fj (set_target (pc fs) fs)) -> wpc (luaK_patchtohere fj) fs Q.
Proof.
  intros Hj HQ. unfold luaK_patchtohere. apply wpc_bind. unfold wpc at 1, luaK_getlabel. apply wpc_bind, wpc_getfs. cbn [jpc set_target]. rewrite Hj.
  apply wpc_bind. unfold luaK_concat. destruct (Z.eqb_spec fj NO_JUMP) as [->|]; (apply wpc_ret, wpc_putfs; exact HQ).
Qed.

Lemma labelled n fs : mergeable (set_target (pc fs) (set_jpc n (set_target (pc fs) fs))) = false.
Proof. unfold mergeable. change (pc (set_target (pc fs) (set_jpc n (set_target (pc fs) fs)))) with (pc fs). cbn [lasttarget set_target]. by rewrite Z.ltb_irrefl. Qed.

Lemma wpc_tail base fs e T F (Q : expdesc -> FuncState -> Prop) :
  wfe base fs [] e T F -> ek e = VNONRELOC base -> quiet fs -> room 4 fs ->
  (forall fs' J', trans base 4 fs [] e T F fs' J' (init_exp (VNONRELOC base)) [] [] -> freereg fs' = freereg fs -> Q (init_exp (VNONRELOC base)) fs') ->
  wpc (exp2reg_tail e base) fs Q.
Proof.
  intros Hwe Hek Hq [Hroom _] HQ. pose proof (we_wf _ _ _ _ _ _ Hwe) as Hwf. pose proof (we_base _ _ _ _ _ _ Hwe) as Hba. change MAXSTACK with 250 in Hba.
  unfold exp2reg_tail. apply wpc_bind. destruct (hasjumps e) eqn:Eh.
  2: { destruct (hasjumps_false _ _ _ _ _ _ Hwe Eh) as (-> & -> & E1 & E2). apply wpc_ret. assert (e = init_exp (VNONRELOC base)) as E.
       { destruct e. cbn in *. by subst. }
       apply wpc_ret, (HQ fs []); [|done]. rewrite <- E. by apply trans_refl. }
  apply (wpc_need base fs [] e T F _ _ Hwe). destruct (existsb _ (T ++ F)) eqn:En; apply wpc_bind.
  - assert (is_jmp e = false) as -> by (unfold is_jmp; by rewrite Hek). apply wpc_bind. eapply wpc_jump; [done|lia|]. intros fs1 Hem Hwf1.
    pose proof (emitted_appends _ _ _ Hem) as Ha1. pose proof (ap_pc _ _ _ Ha1) as E1. cbn in E1.
    apply wpc_bind. eapply wpc_code_label; [done|lia|unfold abc_ok; lia|]. intros fs2 Ha2 Hwf2. pose proof (ap_pc _ _ _ Ha2) as E2. cbn in E2.
    apply wpc_bind. eapply wpc_code_label; [done|lia|unfold abc_ok; lia|]. intros fs3 Ha3 Hwf3. pose proof (ap_pc _ _ _ Ha3) as E3. cbn in E3.
    pose proof (appends_trans _ _ _ _ _ (appends_trans _ _ _ _ _ Ha1 Ha2) Ha3) as Ha. cbn [app] in Ha.
    apply wpc_bind. eapply wpc_patchtohere_nil; [exact (wf_jpc _ _ Hwf3)|]. apply wpc_ret, wpc_bind. unfold wpc at 1, luaK_getlabel.
    change (pc (set_jpc (pc fs) (set_target (pc fs3) fs3))) with (pc fs3). set (fs4 := set_target (pc fs3) _).
    assert (appends fs [JMP 0 NO_JUMP; ABC OP_LOADBOOL base 0 1; ABC OP_LOADBOOL base 1 0] fs4) as Ha4 by (destruct Ha; by split).
    pose proof (ap_pc _ _ _ Ha4) as E4. cbn in E4. pose proof (labelled (pc fs) fs3) as Hm. fold fs4 in Hm.
    assert (wf fs4 [pc fs]) as Hwf4.
    { destruct Hwf3. split; try done.
      - cbn [jpc set_target set_jpc fs4]. split; [done|]. exists NO_JUMP. pose proof (ap_new _ _ _ 0 _ Ha4 eq_refl) as Hi. rewrite Z.add_0_r in Hi.
        split_and!; try done. unfold NO_JUMP, pc. lia.
      - intros j Hj. apply list_elem_of_singleton in Hj as ->. right. unfold testmode_at. rewrite (ap_old _ _ _ _ Ha4) by lia. exact Hq.
      - apply NoDup_singleton.
      - change (0 <= pc fs3 <= pc fs3). unfold pc. lia.
      - congruence. }
    assert (trans base 3 fs [] e T F fs4 [pc fs] e T F) as Htr by (eapply trans_over; try done; by right).
    change (pc fs3) with (pc fs4) at 1 2. eapply (wpc_targets base fs4); [apply Htr|done|done|lia|unfold pc in *; lia|unfold pc in *; lia| | |].
    + intros j _ _. rewrite E1. split; [exact (ap_new _ _ _ 1 _ Ha4 eq_refl)|lia].
    + intros j _ _. rewrite E2, E1. split; [|lia]. replace (pc fs + Z.of_nat 1 + Z.of_nat 1) with (pc fs + Z.of_nat 2) by lia. by apply (ap_new _ _ _ 2 _ Ha4).
    + intros fs' Ht' Hf'. apply wpc_ret, (HQ fs' [pc fs]); [|rewrite Hf'; apply Ha4]. eapply trans_le; [eapply trans_trans; [exact Htr|exact Ht']|lia].
  - apply wpc_ret, wpc_bind. unfold wpc at 1, luaK_getlabel. set (fs4 := set_target (pc fs) fs). assert (appends fs [] fs4) as Ha4 by apply set_target_appends.
    assert (mergeable fs4 = false) as Hm by (unfold mergeable; change (pc fs4) with (pc fs); cbn [lasttarget set_target fs4]; by rewrite Z.ltb_irrefl).
    assert (trans base 3 fs [] e T F fs4 [] e T F) as Htr by (eapply trans_over; try done; [by apply wf_set_target|cbn; lia|by left]).
    change (pc fs) with (pc fs4) at 1 2. eapply (wpc_targets base fs4); [apply Htr|done|done|change (pc fs4) with (pc fs); lia|unfold NO_JUMP, pc; lia|unfold NO_JUMP, pc; lia| | |].
    + intros j Hj Ht. change (code fs4) with (code fs) in Ht. rewrite (need_false _ _ j En) in Ht; [done|set_solver].
    + intros j Hj Ht. change (code fs4) with (code fs) in Ht. rewrite (need_false _ _ j En) in Ht; [done|set_solver].
    + intros fs' Ht' Hf'. apply wpc_ret, (HQ fs' []); [|by rewrite Hf']. eapply trans_le; [eapply trans_trans; [exact Htr|exact Ht']|lia].
Qed.

(** After a comparison joined the true list, what falls through is false. *)
Lemma wpc_tail_jmp base fs e e0 T F j (Q : expdesc -> FuncState -> Prop) :
  wfe base fs [] e T F -> ek e = VFALSE -> et e0 = et e -> ef e0 = ef e -> is_jmp e0 = true -> room 4 fs ->
  j ∈ T -> testset_at (code fs) (j - 1) = false ->
  (forall fs' J', trans base 4 fs [] e T F fs' J' (init_exp (VNONRELOC base)) [] [] -> freereg fs' = freereg fs -> Q (init_exp (VNONRELOC base)) fs') ->
  wpc (exp2reg_tail e0 base) fs Q.
Proof.
  intros Hwe Hek Et Ef Ej [Hroom _] Hj Hnt HQ. pose proof (we_wf _ _ _ _ _ _ Hwe) as Hwf. pose proof (we_base _ _ _ _ _ _ Hwe) as Hba. change MAXSTACK with 250 in Hba.
  unfold exp2reg_tail. apply wpc_bind. unfold hasjumps. rewrite Et, Ef, Ej. fold (hasjumps e). destruct (hasjumps e) eqn:Eh.
  2: { destruct (hasjumps_false _ _ _ _ _ _ Hwe Eh) as (-> & _). by apply elem_of_nil in Hj. }
  apply (wpc_need base fs [] e T F _ _ Hwe).
  assert (existsb (fun j => negb (testset_at (code fs) (j - 1))) (T ++ F) = true) as ->.
  { apply existsb_exists. exists j. split; [apply list_elem_of_In; set_solver|by rewrite Hnt]. }
  apply wpc_bind, wpc_bind, wpc_ret, wpc_bind.
  eapply wpc_code_label; [done|lia|unfold abc_ok; lia|]. intros fs2 Ha2 Hwf2. pose proof (ap_pc _ _ _ Ha2) as E2. cbn in E2.
  apply wpc_bind. eapply wpc_code_label; [done|lia|unfold abc_ok; lia|]. intros fs3 Ha3 Hwf3. pose proof (ap_pc _ _ _ Ha3) as E3. cbn in E3.
  pose proof (appends_trans _ _ _ _ _ Ha2 Ha3) as Ha. cbn [app] in Ha.
  apply wpc_bind. eapply wpc_patchtohere_nil; [exact (wf_jpc _ _ Hwf3)|]. apply wpc_ret, wpc_bind. unfold wpc at 1, luaK_getlabel.
  change (pc (set_jpc NO_JUMP (set_target (pc fs3) fs3))) with (pc fs3). set (fs4 := set_target (pc fs3) _).
  assert (appends fs [ABC OP_LOADBOOL base 0 1; ABC OP_LOADBOOL base 1 0] fs4) as Ha4 by (destruct Ha; by split).
  pose proof (ap_pc _ _ _ Ha4) as E4. cbn in E4. pose proof (labelled NO_JUMP fs3) as Hm. fold fs4 in Hm.
  assert (wf fs4 []) as Hwf4.
  { destruct Hwf3. split; try done; [change (0 <= pc fs3 <= pc fs3); unfold pc; lia|congruence]. }
  pose proof (trans_false base fs e T F fs4 Hwe Hek Ha4 Hwf4 Hm) as Htr.
  change (pc fs3) with (pc fs4) at 1 2. change (et e) with (et (with_kind e (VNONRELOC base))). change (ef e) with (ef (with_kind e (VNONRELOC base))).
  eapply (wpc_targets base fs4); [apply Htr|done|done|lia|unfold pc in *; lia|unfold pc in *; lia| | |].
  - intros j' _ _. pose proof (ap_new _ _ _ 0 _ Ha4 eq_refl) as Hi. rewrite Z.add_0_r in Hi. split; [exact Hi|lia].
  - intros j' _ _. rewrite E2. split; [|lia]. by apply (ap_new _ _ _ 1 _ Ha4).
  - intros fs' Ht' Hf'. apply wpc_ret, (HQ fs' []); [|rewrite Hf'; apply Ha4]. eapply trans_le; [eapply trans_trans; [exact Htr|exact Ht']|lia].
Qed.

Lemma wpc_exp2reg base fs J e T F (Q : expdesc -> FuncState -> Prop) :
  wfe base fs J e T F -> nontemp fs (ek e) -> nactvar fs <= base -> room 8 fs ->
  (forall fs' J', trans base 8 fs J e T F fs' J' (init_exp (VNONRELOC base)) [] [] -> freereg fs' = freereg fs -> Q (init_exp (VNONRELOC base)) fs') ->
  wpc (exp2reg e base) fs Q.
Proof.
  intros Hwe Hnt Hna Hroom HQ. rewrite exp2reg_eq. apply wpc_bind. eapply (wpc_discharge2reg rt U other S0 base fs J e T F); [done|done|done|by eapply room_le| |].
  - intros e1 fs1 (Ht & Hf & Ek & _ & _ & Hq). rewrite Ek. apply wpc_bind, wpc_ret.
    eapply (wpc_tail base fs1 e1 T F); [apply Ht|done|done|eapply (room_cost 4 4); [exact Hroom|apply Ht]|]. intros fs' J' Ht' Hf'. apply (HQ fs' J'); [|congruence].
    by eapply (trans_trans _ _ _ _ base 4 4).
  - intros j Ek. rewrite Ek. apply wpc_bind, wpc_bind. destruct (vjmp_shape base fs J e T F j Hwe Ek) as (Ej & HJ & Hn & Hi).
    pose proof (we_nodup _ _ _ _ _ _ Hwe) as Hnd. rewrite HJ, app_nil_r in Hnd. apply NoDup_app in Hnd as (HnT & _ & _).
    eapply (wpc_concat _ _ T [j]); [apply Hwe| | |unfold room in Hroom; change (len (code fs)) with (pc fs); lia|].
    { split; [done|]. exists NO_JUMP. split_and!; try done. unfold NO_JUMP, pc in *. apply instr_at_range in Hi. lia. }
    { apply NoDup_app. split_and!; [done| |apply NoDup_singleton]. intros x Hx Hx'. apply list_elem_of_singleton in Hx' as ->. apply Hn. set_solver. }
    intros l c' Hc Hl Hs _. apply wpc_ret.
    pose proof (we_kind _ _ _ _ _ _ Hwe) as Hk. rewrite Ek in Hk. destruct Hk as (_ & _ & _ & _ & o & a & b & c & Hi1 & Hok & Ho & _).
    assert (j - 1 ∉ T) as HnT1.
    { intros Hx. destruct (chain_jump _ _ _ _ (we_T _ _ _ _ _ _ Hwe) Hx) as (o' & Hi2 & Hs2). pose proof (testmode_ABC _ _ _ _ _ _ Hi1 Hok) as E.
      rewrite (testmode_JMP _ _ _ Hi2 Hs2) in E. by destruct Ho as [->|[->| ->]]. }
    pose proof (join_trans base fs J e T F j true l c' Hwe Ek Hl Hc ltac:(intros; by apply Hs) ltac:(intros; by rewrite Hs)) as Htr. cbn beta iota in Htr.
    eapply (wpc_tail_jmp base _ _ _ (T ++ [j]) F j); [apply Htr|done|done|done|unfold is_jmp; cbn; by rewrite Ek|eapply (room_cost 0 4); [by eapply room_le|apply Htr]|set_solver| |].
    { cbn [code set_code]. unfold testset_at. rewrite Hs, Hi1, isop_ABC by done. apply Z.eqb_neq. intros E%opcode_Z_inj. subst o. by destruct Ho as [|[|]]. }
    intros fs' J' Ht' Hf'. apply (HQ fs' J'); [|exact Hf']. eapply trans_le; [eapply (trans_trans _ _ _ _ base 0 4); [exact Htr|exact Ht']|lia].
Qed.
End Registers.
