(* ===== verification/LuaOperand.v ===== *)
(** * Operands

    [luaK_exp2nextreg], [luaK_exp2anyreg], [luaK_exp2val] and [luaK_exp2RK]: the value of a
    descriptor as an operand of an instruction, in a register or among the constants. *)

From S2P Require Import Prelude LuaStr LuaRef LuaTab LuaOp LuaNumber LuaCode LuaVm LuaJump LuaRun LuaEmit LuaDesc LuaPlace LuaReg.

Section Operands.
Context `{LuaNumber} (rt : runtime) (U : list TValue) (other : Z -> Z -> regs -> res (Z * regs)) (S0 : Z * regs).

Abbreviation trans := (trans rt U other S0).

(** What holds before an expression is brought into a register. *)
Record ready (base : Z) (fs : FuncState) (J : list Z) (e : expdesc) (T F : list Z) : Prop := {
  rd_we : wfe base fs J e T F;
  rd_nontemp : nontemp fs (ek e);
  rd_free : freereg fs = base;
  rd_max : base + 1 < MAXSTACK;
}.

Lemma rd_nact base fs J e T F : ready base fs J e T F -> 0 <= nactvar fs <= base.
Proof. intros [Hwe _ Hf _]. pose proof (wf_regs _ _ (we_wf _ _ _ _ _ _ Hwe)). lia. Qed.

Lemma ready_trans base n fs J e T F fs' J' e' T' F' :
  ready base fs J e T F -> trans base n fs J e T F fs' J' e' T' F' -> freereg fs' = freereg fs -> nontemp fs' (ek e') -> ready base fs' J' e' T' F'.
Proof. intros [Hwe Hn Hf Hm] Ht Hfr Hnt. split; [apply Ht|done|congruence|done]. Qed.

Lemma wpc_freeexp_nontemp e fs (Q : () -> FuncState -> Prop) : nontemp fs (ek e) -> Q () fs -> wpc (freeexp e) fs Q.
Proof.
  intros Hn HQ. unfold freeexp, free_reg. destruct (ek e); try exact HQ. cbn in Hn. unfold wpc. rewrite Z.geb_leb, (proj2 (Z.leb_gt _ _)) by done.
  by rewrite andb_false_r.
Qed.

Lemma wpc_reserve base fs J e T F (Q : () -> FuncState -> Prop) :
  ready base fs J e T F ->
  (forall fs', trans base 0 fs J e T F fs' J e T F -> nactvar fs' = nactvar fs -> freereg fs' = base + 1 -> Q () fs') -> wpc (luaK_reserveregs 1) fs Q.
Proof.
  intros Hr HQ. pose proof (rd_nact _ _ _ _ _ _ Hr) as Hn. destruct Hr as [Hwe Hnt Hf Hm]. apply wpc_reserveregs; [lia|lia|by rewrite Hf|].
  intros fs' Hx Hh Hk Hfr. pose proof (we_wf _ _ _ _ _ _ Hwe) as Hwf. apply HQ; [|apply Hx|lia]. apply trans_ext; try done.
  - unfold h_ok. rewrite Hh, Hk. apply Hwf.
  - lia.
  - unfold nk. rewrite Hk. lia.
Qed.

(** ** A new register *)

Lemma wpc_exp2nextreg base fs J e T F (Q : expdesc -> FuncState -> Prop) :
  ready base fs J e T F -> room 9 fs ->
  (forall fs' J', trans base 9 fs J e T F fs' J' (init_exp (VNONRELOC base)) [] [] -> freereg fs' = base + 1 -> Q (init_exp (VNONRELOC base)) fs') ->
  wpc (luaK_exp2nextreg e) fs Q.
Proof.
  intros Hr Hroom HQ. unfold luaK_exp2nextreg. apply wpc_bind. eapply (wpc_dischargevars rt U other S0 base fs J e T F); [apply Hr|by eapply room_le|].
  intros e1 fs1 J1 Ht1 _ Hf1 Hn1 _ _ _. specialize (Hn1 (rd_nontemp _ _ _ _ _ _ Hr)). pose proof (ready_trans _ _ _ _ _ _ _ _ _ _ _ _ Hr Ht1 Hf1 Hn1) as Hr1.
  apply wpc_bind, wpc_freeexp_nontemp; [done|]. apply wpc_bind. eapply wpc_reserve; [exact Hr1|]. intros fs2 Ht2 Hna2 Hf2.
  apply wpc_bind, wpc_getfs. rewrite Hf2. replace (base + 1 - 1) with base by lia.
  pose proof (trans_trans _ _ _ _ _ _ _ _ _ _ _ _ _ _ _ _ _ _ _ _ _ _ Ht1 Ht2) as Ht12.
  eapply (wpc_exp2reg rt U other S0 base fs2 J1 e1 T F); [apply Ht2| | |eapply (room_cost 1 8); [exact Hroom|apply Ht12]|].
  - destruct (ek e1); try done. cbn in *. by rewrite Hna2.
  - rewrite Hna2. apply (rd_nact _ _ _ _ _ _ Hr1).
  - intros fs' J' Ht' Hf'. apply (HQ fs' J'); [|congruence]. by eapply (trans_trans _ _ _ _ base 1 8).
Qed.

(** ** Any register *)

(** The value is in register [r]: a variable, or the new temporary. *)
Definition in_reg (base : Z) (fs : FuncState) (r : Z) : Prop :=
  0 <= r < nactvar fs /\ freereg fs = base \/ r = base /\ freereg fs = base + 1.

Lemma wpc_exp2anyreg base fs J e T F (Q : expdesc -> FuncState -> Prop) :
  ready base fs J e T F -> room 10 fs ->
  (forall fs' J' r, trans base 10 fs J e T F fs' J' (init_exp (VNONRELOC r)) [] [] -> in_reg base fs' r -> Q (init_exp (VNONRELOC r)) fs') ->
  wpc (luaK_exp2anyreg e) fs Q.
Proof.
  intros Hr Hroom HQ. unfold luaK_exp2anyreg. apply wpc_bind. eapply (wpc_dischargevars rt U other S0 base fs J e T F); [apply Hr|by eapply room_le|].
  intros e1 fs1 J1 Ht1 _ Hf1 Hn1 _ _ _. specialize (Hn1 (rd_nontemp _ _ _ _ _ _ Hr)). pose proof (ready_trans _ _ _ _ _ _ _ _ _ _ _ _ Hr Ht1 Hf1 Hn1) as Hr1.
  apply wpc_bind, wpc_getfs.
  assert (Hnext : wpc (luaK_exp2nextreg e1) fs1 Q).
  { eapply (wpc_exp2nextreg base fs1 J1 e1 T F); [exact Hr1|eapply (room_cost 1 9); [exact Hroom|apply Ht1]|]. intros fs' J' Ht' Hf'.
    eapply (HQ fs' J' base); [|by right]. by eapply (trans_trans _ _ _ _ base 1 9). }
  pose proof (we_kind _ _ _ _ _ _ (rd_we _ _ _ _ _ _ Hr1)) as Hk. destruct (ek e1) as [| | | | | |r| | | | | | |] eqn:Ek; try exact Hnext. cbn in Hk, Hn1.
  destruct (hasjumps e1) eqn:Eh; cbn [negb].
  - rewrite Z.geb_leb, (proj2 (Z.leb_gt _ _)) by done. exact Hnext.
  - destruct (hasjumps_false _ _ _ _ _ _ (rd_we _ _ _ _ _ _ Hr1) Eh) as (-> & -> & E1 & E2).
    assert (e1 = init_exp (VNONRELOC r)) as -> by (destruct e1; cbn in *; by subst).
    apply wpc_ret. eapply (HQ fs1 J1 r); [eapply trans_le; [exact Ht1|lia]|]. left. pose proof (rd_nact _ _ _ _ _ _ Hr1). pose proof (rd_free _ _ _ _ _ _ Hr1). lia.
Qed.

(** ** The value, without jumps *)

Lemma wpc_exp2val base fs J e T F (Q : expdesc -> FuncState -> Prop) :
  ready base fs J e T F -> room 10 fs ->
  (forall fs' J' r, trans base 10 fs J e T F fs' J' (init_exp (VNONRELOC r)) [] [] -> in_reg base fs' r -> Q (init_exp (VNONRELOC r)) fs') ->
  (forall fs' J' kk, trans base 10 fs J e T F fs' J' (init_exp kk) [] [] -> ready base fs' J' (init_exp kk) [] [] -> discharged kk -> Q (init_exp kk) fs') ->
  wpc (luaK_exp2val e) fs Q.
Proof.
  intros Hr Hroom HQ HQ'. unfold luaK_exp2val. destruct (hasjumps e) eqn:Eh; [by eapply wpc_exp2anyreg|].
  destruct (hasjumps_false _ _ _ _ _ _ (rd_we _ _ _ _ _ _ Hr) Eh) as (-> & -> & E1 & E2).
  eapply (wpc_dischargevars rt U other S0 base fs J e [] []); [apply Hr|by eapply room_le|].
  intros e1 fs1 J1 Ht1 Hd Hf1 Hn1 E3 E4 _. specialize (Hn1 (rd_nontemp _ _ _ _ _ _ Hr)). pose proof (ready_trans _ _ _ _ _ _ _ _ _ _ _ _ Hr Ht1 Hf1 Hn1) as Hr1.
  assert (e1 = init_exp (ek e1)) as E by (destruct e1; cbn in *; unfold init_exp; congruence). rewrite E in *. eapply (HQ' fs1 J1); [|done|done].
  eapply trans_le; [exact Ht1|lia].
Qed.

(** ** Registers and constants *)

(** The operand [x] of descriptor [kk]. *)
Definition is_operand (base : Z) (fs : FuncState) (kk : expkind) (x : Z) : Prop :=
  match kk with
  | VK i => 0 <= i <= MAXINDEXRK /\ i < nk fs /\ x = RKASK i /\ freereg fs = base
  | VNONRELOC r => x = r /\ in_reg base fs r
  | _ => False
  end.

(** A constant takes the place of a value known to the compiler. *)
Lemma const_trans base fs J e T F v n fs' :
  wfe base fs J e T F -> simple (ek e) -> (forall R, kval U fs (ek e) R = Ok v) -> (forall R, kval U fs' (ek e) R = Ok v) -> has_k fs fs' v n ->
  trans base 1 fs J e T F fs' J (with_kind e (VK n)) T F.
Proof.
  intros Hwe Hs Hv Hv' (Hn & Hn' & Hk & Hx & Hh & Hf & Hnk). assert (trans base 1 fs J e T F fs' J e T F) as Ht.
  { apply trans_ext; try done. rewrite Hf. apply Hwe. }
  replace 1 with (1 + 0) by done. eapply trans_trans; [exact Ht|]. apply trans_kind; [apply Ht|done|done|done|].
  intros R. rewrite Hv'. cbn [kval]. by rewrite Hk.
Qed.

Lemma exp2anyreg_reg r fs (Q : expdesc -> FuncState -> Prop) : Q (init_exp (VNONRELOC r)) fs -> wpc (luaK_exp2anyreg (init_exp (VNONRELOC r))) fs Q.
Proof. intros HQ. exact HQ. Qed.

Lemma wpc_exp2RK base fs J e T F (Q : Z * expdesc -> FuncState -> Prop) :
  ready base fs J e T F -> room 21 fs ->
  (forall fs' J' kk x, trans base 21 fs J e T F fs' J' (init_exp kk) [] [] -> is_operand base fs' kk x -> Q (x, init_exp kk) fs') ->
  wpc (luaK_exp2RK e) fs Q.
Proof.
  intros Hr Hroom HQ. unfold luaK_exp2RK. apply wpc_bind. eapply (wpc_exp2val base fs J e T F); [exact Hr|by eapply room_le| |].
  { intros fs1 J1 r Ht Hin. apply wpc_bind, wpc_getfs. cbv zeta. cbn [ek init_exp]. apply wpc_bind, exp2anyreg_reg, wpc_ret. cbn [info ek init_exp].
    eapply (HQ fs1 J1 (VNONRELOC r) r); [eapply trans_le; [exact Ht|lia]|by split]. }
  intros fs1 J1 kk Ht1 Hr1 Hd. apply wpc_bind, wpc_getfs. cbv zeta. pose proof (rd_we _ _ _ _ _ _ Hr1) as Hwe1. pose proof (we_wf _ _ _ _ _ _ Hwe1) as Hwf1.
  assert (room 11 fs1) as Hroom1 by (eapply (room_cost 10 11); [exact Hroom|apply Ht1]).
  assert (Hin : forall fs2 J2 kk2 m, trans base m fs1 J1 (init_exp kk) [] [] fs2 J2 (init_exp kk2) [] [] -> ready base fs2 J2 (init_exp kk2) [] [] -> 0 <= m <= 1 ->
    wpc (e ← luaK_exp2anyreg (init_exp kk2); mret (info e, e)) fs2 Q).
  { intros fs2 J2 kk2 m Ht2 Hr2 Hm. apply wpc_bind. eapply (wpc_exp2anyreg base fs2 J2 (init_exp kk2) [] []); [done| |].
    { eapply (room_cost m 10); [eapply room_le; [exact Hroom1|lia]|apply Ht2]. }
    intros fs3 J3 r Ht3 Hreg. apply wpc_ret. cbn [info ek init_exp]. eapply (HQ fs3 J3 (VNONRELOC r) r); [|by split].
    eapply trans_le; [eapply (trans_trans _ _ _ _ base 10 (m + 10)); [exact Ht1|by eapply trans_trans]|lia]. }
  assert (Hk1 : forall n fs2, trans base 1 fs1 J1 (init_exp kk) [] [] fs2 J1 (init_exp (VK n)) [] [] -> freereg fs2 = freereg fs1 -> 0 <= n < nk fs2 -> n <= MAXINDEXRK ->
    Q (RKASK n, init_exp (VK n)) fs2).
  { intros n fs2 Ht2 Hf2 Hn Hle. eapply (HQ fs2 J1 (VK n)); [|split_and!; try done; try lia; rewrite Hf2; apply Hr1].
    eapply trans_le; [eapply trans_trans; [exact Ht1|exact Ht2]|lia]. }
  assert (Hcst : forall v key, simple kk -> (forall fs R, kval U fs kk R = Ok v) -> key_of key v -> nk fs1 <= MAXINDEXRK ->
    wpc (i ← addk key v; mret (RKASK i, with_kind (init_exp kk) (VK i))) fs1 Q).
  { intros v key Hs Hv Hkey Hle. apply wpc_bind. apply wpc_addk; [apply Hwf1|done|change MAXINDEXRK with 255 in Hle; change MAXARG_Ax with 67108863; lia|]. intros n fs2 Hhas. apply wpc_ret.
    pose proof Hhas as (Hn & Hn' & _ & _ & _ & Hf & _). change (with_kind (init_exp kk) (VK n)) with (init_exp (VK n)).
    apply Hk1; [by apply (const_trans base fs1 J1 (init_exp kk) [] [] v n fs2)|done|done|lia]. }
  destruct kk as [| | | |i|r|r| | | |j|p| |]; try done; cbn [ek init_exp]; try (eapply (Hin fs1 J1 _ 0); [apply trans_refl; done|done|lia]).
  - destruct (Z.leb_spec (nk fs1) MAXINDEXRK); [by apply Hcst|eapply (Hin fs1 J1 _ 0); [by apply trans_refl|done|lia]].
  - destruct (Z.leb_spec (nk fs1) MAXINDEXRK); [by apply Hcst|eapply (Hin fs1 J1 _ 0); [by apply trans_refl|done|lia]].
  - destruct (Z.leb_spec (nk fs1) MAXINDEXRK); [by apply Hcst|eapply (Hin fs1 J1 _ 0); [by apply trans_refl|done|lia]].
  - pose proof (we_kind _ _ _ _ _ _ Hwe1) as Hk. cbn in Hk. destruct (Z.leb_spec i MAXINDEXRK).
    + apply wpc_ret. apply Hk1; try done. by apply trans_refl.
    + eapply (Hin fs1 J1 _ 0); [by apply trans_refl|done|lia].
  - apply wpc_bind. eapply (wpc_numberK_trans rt U other S0 base fs1 J1 (init_exp (VKNUM r)) [] []); [exact Hwe1|done|by eapply room_le|].
    intros n fs2 Ht2 Hf2 Hn Hx Hv. change (with_kind (init_exp (VKNUM r)) (VK n)) with (init_exp (VK n)) in *. destruct (Z.leb_spec n MAXINDEXRK).
    + apply wpc_ret. by apply Hk1.
    + eapply (Hin fs2 J1 _ 1); [exact Ht2| |lia]. by eapply ready_trans.
Qed.
End Operands.
