(* ===== verification/LuaCond.v ===== *)
(** * Conditions

    [jumponcond], [luaK_goiftrue] and [luaK_goiffalse]: the code that goes on when a value
    is true (or false) and leaves through a list of jumps otherwise. *)

From S2P Require Import Prelude LuaStr LuaRef LuaTab LuaOp LuaNumber LuaCode LuaVm LuaJump LuaRun LuaEmit LuaDesc LuaPlace LuaReg LuaOperand.

(** Lists of jumps with their tests. *)
Record jlist (fs : FuncState) (l : Z) (js : list Z) : Prop := {
  jl_chain : chain (code fs) l js;
  jl_cond j : j ∈ js -> cond_at fs j;
  jl_nodup : NoDup js;
}.

Lemma jl_jumps fs l js : jlist fs l js -> jumps_in (code fs) js.
Proof. intros [Hc _ _]. by eapply chain_jumps. Qed.

Lemma jl_below fs l js j : jlist fs l js -> j ∈ js -> j < pc fs.
Proof. intros Hl Hj. destruct (jl_jumps _ _ _ Hl j Hj) as (o & Hi & _). apply instr_at_range in Hi. change (len (code fs)) with (pc fs) in Hi. lia. Qed.

Section Conditions.
Context `{LuaNumber} (rt : runtime) (U : list TValue) (other : Z -> Z -> regs -> res (Z * regs)) (S0 : Z * regs).

Abbreviation At := (At rt U other S0).
Abbreviation Dead := (Dead rt U other S0).
Abbreviation Here := (Here rt U other S0).
Abbreviation Main := (Main rt U other S0).
Abbreviation Out := (Out rt U other S0).
Abbreviation Exit := (Exit rt U other S0).
Abbreviation trans := (trans rt U other S0).
Abbreviation fires := (fires rt).

(** ** A test and its jump *)

Section Test.
Context (base : Z) (fs : FuncState) (e : expdesc) (T F : list Z) (cond : bool) (o : OpCode) (a b c : Z) (fs2 : FuncState) (l : Z) (c3 : list Z) (kk : expkind).
Hypothesis Hwe : wfe base fs [] e T F.
Hypothesis Hi : instr_at (code fs) (pc fs - 1) = Some (ABC o a b c).
Hypothesis Hok : abc_ok a b c.
Hypothesis Ho : (o = OP_TESTSET /\ a = NO_REG /\ b < 256) \/ o = OP_TEST.
Hypothesis Hap : appends fs [JMP 0 NO_JUMP] fs2.
Hypothesis Hwf2 : wf fs2 [].
Hypothesis Hlen : len c3 = pc fs2.
Hypothesis Hchain : chain c3 l ((if cond then T else F) ++ [pc fs]).
Hypothesis Hsame : forall x, x ∉ (if cond then T else F) -> instr_at c3 x = instr_at (code fs2) x.
Hypothesis Hkk : simple kk /\ kind_ok base fs [] (T ++ F) kk.

Let j : Z := pc fs.
Let T' : list Z := if cond then T ++ [j] else T.
Let F' : list Z := if cond then F else F ++ [j].
Let e' : expdesc := if cond then MkExp kk l (ef e) else MkExp kk (et e) l.
Let fs' : FuncState := set_code c3 fs2.
Let O : Z -> Prop := fun x => own fs [] (ek e) (T ++ F) x \/ x = j - 1.

Lemma ts_test : is_test o = true.
Proof. by destruct Ho as [[-> _]| ->]. Qed.

Lemma ts_not_jump : j - 1 ∉ T ++ F.
Proof.
  intros Hx. destruct (we_jumps _ _ _ _ _ _ Hwe _ Hx) as (o' & Hi2 & Hs2). pose proof (testmode_ABC _ _ _ _ _ _ Hi Hok) as E.
  unfold j in Hi2. by rewrite (testmode_JMP _ _ _ Hi2 Hs2), ts_test in E.
Qed.

Lemma ts_elem x : x ∈ T' ++ F' <-> x ∈ T ++ F \/ x = j.
Proof. unfold T', F'. destruct cond; set_solver. Qed.

Lemma ts_pc : pc fs' = pc fs + 1.
Proof. change (pc fs') with (len c3). rewrite Hlen. by apply ap_pc in Hap. Qed.

Lemma ts_old x : x < j -> x ∉ T ++ F -> instr_at c3 x = instr_at (code fs) x.
Proof. intros Hx Hn. rewrite Hsame by (destruct cond; set_solver). by apply (ap_old _ _ _ _ Hap). Qed.

Lemma ts_jump : instr_at c3 j = Some (JMP 0 NO_JUMP).
Proof.
  rewrite Hsame.
  - pose proof (ap_new _ _ _ 0 _ Hap eq_refl) as E. by rewrite Z.add_0_r in E.
  - intros Hx. assert (j ∈ T ++ F) as Hx' by (destruct cond; set_solver). apply (we_below _ _ _ _ _ _ Hwe) in Hx'. unfold j in Hx'. lia.
Qed.

Lemma ts_last : 0 <= j - 1.
Proof. apply instr_at_range in Hi. unfold j. lia. Qed.

Lemma ts_instr x : x ∈ T ++ F -> instr_at c3 (x - 1) = instr_at (code fs) (x - 1).
Proof.
  intros Hx. pose proof (we_below _ _ _ _ _ _ Hwe x Hx). apply ts_old; [unfold j; lia|]. apply (test_not_jump fs); [exact (we_jumps _ _ _ _ _ _ Hwe)|by apply Hwe].
Qed.

Lemma ts_pend x : pend c3 (T' ++ F') x <-> pend (code fs) (T ++ F) x \/ x = j \/ (x = j - 1 /\ o = OP_TESTSET).
Proof.
  assert (testset_at c3 (j - 1) = true <-> o = OP_TESTSET) as E2.
  { unfold testset_at. rewrite ts_old by (lia || exact ts_not_jump). unfold j. rewrite Hi, isop_ABC by done. rewrite Z.eqb_eq. split; [by intros ?%opcode_Z_inj|by intros ->]. }
  unfold pend. rewrite !ts_elem. assert (x + 1 ∈ T ++ F -> testset_at c3 x = testset_at (code fs) x) as E1.
  { intros Hx. pose proof (ts_instr _ Hx) as E. replace (x + 1 - 1) with x in E by lia. unfold testset_at. by rewrite E. }
  split.
  - intros [[?|?]|[[?|?] Ht]]; [by left; left|by right; left| |].
    + left. right. split; [done|]. by rewrite <- E1.
    + right. right. assert (x = j - 1) as -> by lia. split; [done|by apply E2].
  - intros [[?|[Hx Ht]]|[?|[-> Ht]]]; [by left; left| |by left; right|].
    + right. split; [by left|]. by rewrite E1.
    + right. split; [right; lia|by apply E2].
Qed.

Lemma ts_mergeable : mergeable fs' = false.
Proof.
  unfold mergeable. rewrite ts_pc. replace (pc fs + 1 - 1) with j by (unfold j; lia). cbn [code set_code fs']. rewrite ts_jump. apply andb_false_r.
Qed.

Lemma ts_wfe : wfe base fs' [] e' T' F'.
Proof.
  pose proof ts_mergeable as Hm. pose proof ts_pc as Epc. pose proof ts_not_jump as Hn1. pose proof ts_last as Hl1. pose proof ts_test as Hit.
  assert (j ∉ T ++ F) as HnL by (intros Hx%(we_below _ _ _ _ _ _ Hwe); unfold j in Hx; lia).
  assert (forall x, x ∈ T ++ F -> x < j) as Hb by (intros x Hx; by apply (we_below _ _ _ _ _ _ Hwe)).
  assert (forall x, x ∈ T ++ F -> x ∉ (if cond then T else F) -> instr_at c3 x = instr_at (code fs) x) as Hold.
  { intros x Hx Hnx. rewrite Hsame by done. apply (ap_old _ _ _ _ Hap). by apply Hb. }
  pose proof Hwe as [Hwf HT HF Hc Hnd Hk Hba]. rewrite app_nil_r in Hnd. pose proof Hnd as (_ & Hd & _)%NoDup_app. destruct Hwf2. split.
  - split; try done.
    + intros x Hx. by apply elem_of_nil in Hx.
    + change (pc fs') with (len c3). rewrite Hlen. done.
    + congruence.
  - unfold e', T'. destruct cond; cbn [et]; [exact Hchain|]. eapply chain_ext; [|exact HT]. intros x Hx. apply Hold; [set_solver|]. by apply Hd.
  - unfold e', F'. destruct cond; cbn [ef]; [|exact Hchain]. eapply chain_ext; [|exact HF]. intros x Hx. apply Hold; [set_solver|]. intros Hx'. by eapply Hd.
  - intros x [Hx| ->]%ts_elem.
    + destruct (Hc x Hx) as (o' & a' & b' & c' & Hi1 & Hrest). exists o', a', b', c'. cbn [code set_code fs' k]. rewrite ts_instr, (ap_k _ _ _ Hap) by done. done.
    + exists o, a, b, c. cbn [code set_code fs' k]. rewrite ts_old by (lia || done). split_and!; try done; by destruct Ho as [(-> & -> & Hb2)| ->].
  - rewrite app_nil_r. assert (T' ++ F' ≡ₚ j :: (T ++ F)) as ->; [|by apply NoDup_cons].
    unfold T', F'. destruct cond; [|rewrite app_assoc]; rewrite <- ?app_assoc; cbn; [by rewrite Permutation_middle|]. rewrite app_assoc. by rewrite Permutation_app_comm.
  - destruct Hkk as [Hs Hk2]. unfold e'. assert (kind_ok base fs' [] (T' ++ F') kk) as Hk3; [|by destruct cond].
    destruct kk; try done; cbn in *; unfold nk in *; cbn [k set_code fs' nactvar]; by rewrite ?(ap_k _ _ _ Hap), ?(ap_nact _ _ _ Hap).
  - done.
Qed.

Lemma ts_own x : own fs' [] kk (T' ++ F') x -> pend (code fs) (T ++ F) x \/ x = j \/ (x = j - 1 /\ o = OP_TESTSET).
Proof.
  intros [[Hx|[_ Hx]]|[Hx|Hx]]; [by apply pend_nil in Hx|by rewrite ts_mergeable in Hx|by apply ts_pend|]. destruct Hkk as [Hs _]. by destruct kk.
Qed.

Lemma ts_fr : fr O fs (own fs' [] kk (T' ++ F')) fs'.
Proof.
  pose proof ts_not_jump as Hn1. split_and!; [cbn; by rewrite (ap_k _ _ _ Hap)|rewrite ts_pc; lia|]. intros x Hx. split.
  - intros Hno. assert (x ∉ T ++ F) as HnL by (intros Hy; apply Hno; left; right; left; by left). split; [by apply ts_old; [unfold j; lia|]|].
    intros [Hy|[Hy|[Hy _]]]%ts_own; [apply Hno; left; by right; left|unfold j in Hy; lia|apply Hno; by right].
  - intros i Hix Hopen. exists i. split_and!; [|by apply becomes_refl|by left]. cbn [code set_code fs']. rewrite ts_old; [done|unfold j; lia|].
    intros Hy. destruct (we_jumps _ _ _ _ _ _ Hwe x Hy) as (o' & Hi2 & Hs). destruct Hopen as (b' & c' & -> & Hb & Hc).
    assert (testset_at (code fs) x = true) as Ht by (unfold testset_at; rewrite Hix, isop_ABC; [done|unfold abc_ok; change NO_REG with 255; lia]).
    by rewrite (testset_JMP _ _ _ Hi2 Hs) in Ht.
Qed.

(** A run at the test takes the jump, or goes on behind it. *)
Lemma ts_run H0 R :
  apart H0 fs O -> At (fun x => H0 x \/ O x) fs (j - 1) R ->
  (run_test rt (k fs) o a b c R = Ok true -> fires fs' j R /\ At (fun x => H0 x \/ own fs' [] kk (T' ++ F') x) fs' (j - 1) R) /\
  (run_test rt (k fs) o a b c R = Ok false -> Here (fun x => H0 x \/ pend (code fs') (T' ++ F') x) fs' [] R).
Proof.
  intros Ha HA. pose proof (At_fr _ _ _ _ _ _ _ _ _ _ (fr_frame H0 _ _ _ _ (apart_disjoint _ _ _ Ha) ts_fr) HA) as HA'. pose proof ts_last as Hl1.
  assert (instr_at (code fs') (j - 1) = Some (ABC o a b c)) as Hi' by (cbn [code set_code fs']; rewrite ts_old; [exact Hi|lia|exact ts_not_jump]).
  assert (reads_ok (k fs) o b c) as Hrd by (by destruct Ho as [[-> _]| ->]). split; intros Hrun.
  - split; [|exact HA']. exists o, a, b, c. cbn [k set_code fs']. rewrite (ap_k _ _ _ Hap). split_and!; try done; [exact ts_test|by destruct Ho as [(-> & -> & ?)| ->]].
  - left. split; [exact ts_mergeable|]. eapply At_mono; [|eapply At_eq; [|eapply At_step; [exact HA'|]]].
    + intros x [[Hx|Hx]|Hx]; [by left|by right; right; left|by right; left].
    + instantiate (1 := j - 1 + 2). rewrite ts_pc. unfold j. lia.
    + intros C K HC. destruct Ho as [(Eo & Ea & Hb)|Eo].
      * destruct HC as [HK HC]. destruct (HC (j - 1) _ Hi') as [_ Hop]. destruct Hop as (i' & Hci & b2 & c2 & E & Hb2 & Hc2 & Hcase).
        { exists b, c. unfold abc_ok in Hok. rewrite Eo, Ea. split_and!; try done; lia. }
        destruct (ABC_inj o a b c OP_TESTSET NO_REG b2 c2 Hok ltac:(unfold abc_ok; change NO_REG with 255; lia) E) as (_ & _ & <- & <-).
        rewrite Eo in Hrun. destruct Hcase as [->|(r & Hr & ->)].
        -- rewrite (exec_test_skip rt U other C K (j - 1) R OP_TEST b 0 c); [|done|done|unfold abc_ok; lia|]; cbn [run_test] in *; by rewrite Hrun.
        -- rewrite (exec_test_skip rt U other C K (j - 1) R OP_TESTSET r b c); [|done|done|unfold abc_ok; lia|]; cbn [run_test] in *; by rewrite Hrun.
      * assert (instr_at C (j - 1) = Some (ABC o a b c)) as Hci.
        { eapply agrees_at; [exact HC|exact Hi'|]. intros [Hx|Hx].
          - destruct (Ha _ Hx) as (_ & Hn & _). apply Hn. by right.
          - destruct (ts_own _ Hx) as [Hy|[Hy|[_ Hy]]]; [|lia|congruence]. revert Hy. subst o.
            eapply plain_not_pend; [exact (we_jumps _ _ _ _ _ _ Hwe)|exact Hi|done|done|done]. }
        rewrite (exec_test_skip rt U other C K (j - 1) R o a b c); [|by subst o|done|done|]; subst o; cbn [run_test] in *; by rewrite Hrun.
Qed.
End Test.

(** ** Going on with a truth value *)

(** The run failed, goes on with a value of truth [t], or left through a list. *)
Definition Falls (t : bool) (base : Z) (H0 : Z -> Prop) (fs : FuncState) (J T F : list Z) (R : regs) (rv : res TValue) : Prop :=
  (exists er, rv = Err er /\ Dead (fun x => H0 x \/ own fs J VTRUE (T ++ F) x) fs er) \/
  (exists v R1, rv = Ok v /\ l_isfalse v = negb t /\ same base R R1 /\ Here (fun x => H0 x \/ pend (code fs) (T ++ F) x) fs J R1) \/
  (exists R1 t' j v, same base R R1 /\ rv = Ok v /\ j ∈ (if (t' : bool) then T else F) /\ Exit H0 fs (own fs J VTRUE (T ++ F)) j R1 t' v).

Record falls (base n : Z) (t : bool) (fs : FuncState) (J : list Z) (e : expdesc) (T F : list Z)
  (fs' : FuncState) (J' : list Z) (lt lf : Z) (T' F' : list Z) : Prop := {
  fa_we : wfe base fs' J' (MkExp VTRUE lt lf) T' F';
  fa_fr : fr (own fs J (ek e) (T ++ F)) fs (own fs' J' VTRUE (T' ++ F')) fs';
  fa_nact : nactvar fs' = nactvar fs;
  fa_free : freereg fs' = freereg fs;
  fa_cost : cost n fs fs';
  fa_out H0 R rv : apart H0 fs (own fs J (ek e) (T ++ F)) -> Out base H0 fs J (ek e) T F R rv -> Falls t base H0 fs' J' T' F' R rv;
}.

Lemma own_simple fs J kk kk' L x : simple kk -> simple kk' -> own fs J kk L x -> own fs J kk' L x.
Proof. intros Hs Hs' [Hx|[Hx|Hx]]; [by left|by right; left|by destruct kk]. Qed.

(** A descriptor without code whose truth is known. *)
Lemma falls_const base n t fs J e T F fs1 J1 e1 T1 F1 :
  trans base n fs J e T F fs1 J1 e1 T1 F1 -> freereg fs1 = freereg fs -> simple (ek e1) ->
  (forall R, exists v, kval U fs1 (ek e1) R = Ok v /\ l_isfalse v = negb t) ->
  falls base n t fs J e T F fs1 J1 (et e1) (ef e1) T1 F1.
Proof.
  intros Ht Hf Hs Hv. assert (forall x, own fs1 J1 VTRUE (T1 ++ F1) x -> own fs1 J1 (ek e1) (T1 ++ F1) x) as Ho by (intros x; by apply own_simple).
  split; [|eapply fr_weaken; [apply Ht|done|]; intros x _ Hx; left; by apply Ho|apply Ht|done|apply Ht|].
  - destruct (tr_we _ _ _ _ _ _ _ _ _ _ _ _ _ _ _ _ Ht). by split.
  - intros H0 R rv Ha HO. destruct (tr_out _ _ _ _ _ _ _ _ _ _ _ _ _ _ _ _ Ht H0 R rv Ha HO) as [(er & -> & HD)|[(R1 & Hsm & HM)|(R1 & t' & j & v & Hsm & -> & Hj & Hl & HA)]].
    + left. exists er. split; [done|]. eapply Dead_mono; [|exact HD]. intros x [Hx|Hx]; [by left|right; by apply Ho].
    + apply Main_simple in HM as [HH ->]; [|done]. destruct (Hv R1) as (v & Ev & Et). right. left. exists v, R1. by rewrite Ev.
    + right. right. exists R1, t', j, v. split_and!; try done. split; [done|]. eapply At_mono; [|exact HA]. intros x [Hx|Hx]; [by left|right; by apply Ho].
Qed.

(** [luaK_code] when no jump waits. *)
Lemma wpc_code_app i fs (Q : Z -> FuncState -> Prop) :
  jpc fs = NO_JUMP -> pc fs <= MAXARG_sBx ->
  (forall fs', appends fs [i] fs' -> lasttarget fs' = lasttarget fs -> jpc fs' = NO_JUMP -> Q (pc fs) fs') -> wpc (luaK_code i) fs Q.
Proof.
  intros Hj Hpc HQ. unfold luaK_code. apply wpc_bind. unfold dischargejpc. apply wpc_bind, wpc_getfs, wpc_bind, wpc_getfs, wpc_bind, wpc_getfs, wpc_bind. rewrite Hj.
  cbn [patchlistaux]. apply wpc_ret, wpc_putfs, wpc_bind, wpc_getfs. change (pc (set_jpc NO_JUMP fs)) with (pc fs).
  rewrite Z.geb_leb, (proj2 (Z.leb_gt _ _)) by (change MAX_INT with 2147483645; change MAXARG_sBx with 131071 in Hpc; lia).
  apply wpc_bind, wpc_putfs, wpc_bind, wpc_putfs, wpc_ret, HQ; done.
Qed.

(** The jump of a test joins a list: [luaK_concat] after [condjump]. *)
Lemma wpc_concat_new fs2 e T F (cond : bool) j (Q : Z -> FuncState -> Prop) :
  pc fs2 <= MAXARG_sBx -> instr_at (code fs2) j = Some (JMP 0 NO_JUMP) -> j ∉ T ++ F ->
  chain (code fs2) (et e) T -> chain (code fs2) (ef e) F -> NoDup (T ++ F) ->
  (forall l c3, len c3 = pc fs2 -> chain c3 l ((if cond then T else F) ++ [j]) -> (forall x, x ∉ (if cond then T else F) -> instr_at c3 x = instr_at (code fs2) x) ->
    Q l (set_code c3 fs2)) ->
  wpc (luaK_concat (if cond then et e else ef e) j) fs2 Q.
Proof.
  intros Hpc Hi Hn HT HF Hnd HQ. apply NoDup_app in Hnd as (HnT & _ & HnF).
  eapply (wpc_concat _ _ (if cond then T else F) [j]); [by destruct cond| | |done|].
  - split; [done|]. exists NO_JUMP. split_and!; try done. apply instr_at_range in Hi. unfold NO_JUMP. lia.
  - apply NoDup_app. split_and!; [by destruct cond| |apply NoDup_singleton]. intros x Hx Hx'. apply list_elem_of_singleton in Hx' as ->. apply Hn. destruct cond; set_solver.
  - intros l c3 Hc Hl Hs _. by apply HQ.
Qed.

(** A test at the end of the code, its jump, and where the run goes. *)
Lemma test_falls base n fs J e T F (cond : bool) fs1 e1 o a b c fs2 l c3 :
  wfe base fs1 [] e1 T F -> simple (ek e1) -> et e1 = et e -> ef e1 = ef e ->
  instr_at (code fs1) (pc fs1 - 1) = Some (ABC o a b c) -> abc_ok a b c -> (o = OP_TESTSET /\ a = NO_REG /\ b < 256) \/ o = OP_TEST ->
  appends fs1 [JMP 0 NO_JUMP] fs2 -> wf fs2 [] -> len c3 = pc fs2 -> chain c3 l ((if cond then T else F) ++ [pc fs1]) ->
  (forall x, x ∉ (if cond then T else F) -> instr_at c3 x = instr_at (code fs2) x) ->
  fr (own fs J (ek e) (T ++ F)) fs (fun x => own fs1 [] (ek e1) (T ++ F) x \/ x = pc fs1 - 1) fs1 ->
  (forall j, j ∈ T ++ F -> instr_at (code fs1) (j - 1) = instr_at (code fs) (j - 1)) ->
  nactvar fs1 = nactvar fs -> freereg fs1 = freereg fs -> cost n fs fs1 ->
  (forall H0 R rv, apart H0 fs (own fs J (ek e) (T ++ F)) -> Main base H0 fs J (ek e) (T ++ F) R rv ->
    (exists er, rv = Err er /\ Dead (fun x => H0 x \/ (own fs1 [] (ek e1) (T ++ F) x \/ x = pc fs1 - 1)) fs1 er) \/
    exists v R1, rv = Ok v /\ same base R R1 /\ At (fun x => H0 x \/ (own fs1 [] (ek e1) (T ++ F) x \/ x = pc fs1 - 1)) fs1 (pc fs1 - 1) R1 /\
      run_test rt (k fs1) o a b c R1 = Ok (Bool.eqb (l_isfalse v) (negb cond)) /\ (l_isfalse v = negb cond -> v = if decide (o = OP_TESTSET) then R1 b else LBool cond)) ->
  falls base (n + 1) (negb cond) fs J e T F (set_code c3 fs2) [] (if cond then l else et e) (if cond then ef e else l)
    (if cond then T ++ [pc fs1] else T) (if cond then F else F ++ [pc fs1]).
Proof.
  intros Hwe Hs Et Ef Hi Hok Ho Hap Hwf2 Hlen Hchain Hsame Hfr Hj Hna Hfree Hcost Hmain.
  assert (simple VTRUE /\ kind_ok base fs1 [] (T ++ F) VTRUE) as Hkk by done.
  assert (wfe base (set_code c3 fs2) [] (if cond then MkExp VTRUE l (ef e1) else MkExp VTRUE (et e1) l) (if cond then T ++ [pc fs1] else T) (if cond then F else F ++ [pc fs1])) as W
    by (eapply ts_wfe; eassumption).
  assert (fr (fun x => own fs1 [] (ek e1) (T ++ F) x \/ x = pc fs1 - 1) fs1
    (own (set_code c3 fs2) [] VTRUE ((if cond then T ++ [pc fs1] else T) ++ (if cond then F else F ++ [pc fs1]))) (set_code c3 fs2)) as Hfr2 by (eapply ts_fr; eassumption).
  pose proof (ts_run base fs1 e1 T F cond o a b c fs2 l c3 VTRUE Hwe Hi Hok Ho Hap Hwf2 Hlen Hchain Hsame Hkk) as Hrun.
  assert (forall x, x ∈ T ++ F -> instr_at c3 (x - 1) = instr_at (code fs1) (x - 1)) as Hins by (intros; eapply ts_instr; eassumption).
  assert (pc (set_code c3 fs2) = pc fs1 + 1) as Hpc by (eapply ts_pc; eassumption).
  assert (pc fs1 - 1 ∉ T ++ F) as Hnj by (eapply ts_not_jump; eassumption).
  assert (instr_at c3 (pc fs1 - 1) = Some (ABC o a b c)) as Hold by (rewrite <- Hi; eapply ts_old; try eassumption; lia).
  pose proof (fr_trans Hfr Hfr2) as Hfr3. split.
  - rewrite <- Et, <- Ef. by destruct cond.
  - exact Hfr3.
  - cbn. by rewrite (ap_nact _ _ _ Hap).
  - cbn. by rewrite (ap_free _ _ _ Hap).
  - eapply cost_trans; [exact Hcost|]. unfold cost, nk in *. rewrite Hpc. cbn. rewrite (ap_k _ _ _ Hap). lia.
  - intros H0 R rv Ha [(er & -> & HD)|[(R1 & Hsm & HM)|(R1 & t' & j & v & Hsm & -> & Hjj & Hl & HA)]].
    + left. exists er. split; [done|]. eapply Dead_fr; [|exact HD]. exact (fr_frame H0 _ _ _ _ (apart_disjoint _ _ _ Ha) Hfr3).
    + pose proof (apart_fr _ _ _ _ _ Ha Hfr) as Ha1. destruct (Hmain H0 R1 rv Ha HM) as [(er & -> & HD)|(v & R2 & -> & Hsm2 & HA & Hrt & Hval)].
      * left. exists er. split; [done|]. eapply Dead_fr; [|exact HD]. exact (fr_frame H0 _ _ _ _ (apart_disjoint _ _ _ Ha1) Hfr2).
      * assert (same base R R2) as Hsm3 by (eapply same_trans; [|exact Hsm|exact Hsm2]; lia).
        destruct (Hrun H0 R2 Ha1 HA) as [Hyes Hno]. destruct (Bool.eqb (l_isfalse v) (negb cond)) eqn:Eb.
        -- apply Bool.eqb_prop in Eb. destruct (Hyes Hrt) as [Hf HA2]. right. right. exists R2, cond, (pc fs1), v. split_and!; [done|done|destruct cond; set_solver|].
           split; [|exact HA2]. split_and!; [exact Hf|done|]. intros o3 a3 b3 c3' Hi3 Hok3. cbn [code set_code] in Hi3. rewrite Hold in Hi3. injection Hi3 as E. destruct (ABC_inj o3 a3 b3 c3' o a b c Hok3 Hok (eq_sym E)) as (-> & _ & -> & _). by apply Hval.
        -- right. left. exists v, R2. split_and!; [done| |done|by apply Hno]. by destruct (l_isfalse v), cond.
    + right. right. exists R1, t', j, v. split_and!; [done|done|destruct t', cond; set_solver|]. split.
      * eapply leaves_ext; [|apply Hfr3|exact Hl]. assert (j ∈ T ++ F) as HjL by (destruct t'; set_solver). cbn [code set_code]. by rewrite Hins, Hj.
      * eapply At_fr; [|exact HA]. exact (fr_frame H0 _ _ _ _ (apart_disjoint _ _ _ Ha) Hfr3).
Qed.

(** ** [jumponcond] *)

(** The jump [j] of a new test, still to be joined to its list. *)
Definition jumps_on (base n : Z) (cond : bool) (fs : FuncState) (J : list Z) (e : expdesc) (T F : list Z) (j : Z) (fs1 : FuncState) : Prop :=
  forall Q : Z -> FuncState -> Prop,
    (forall l fs', falls base n (negb cond) fs J e T F fs' [] (if cond then l else et e) (if cond then ef e else l)
      (if cond then T ++ [j] else T) (if cond then F else F ++ [j]) -> Q l fs') ->
    wpc (luaK_concat (if cond then et e else ef e) j) fs1 Q.

Lemma trans_falls base n m t fs J e T F fs1 J1 e1 T1 F1 fs' J' lt lf T' F' :
  trans base n fs J e T F fs1 J1 e1 T1 F1 -> freereg fs1 = freereg fs -> falls base m t fs1 J1 e1 T1 F1 fs' J' lt lf T' F' ->
  falls base (n + m) t fs J e T F fs' J' lt lf T' F'.
Proof.
  intros [W1 Fr1 N1 C1 O1] Hf [W2 Fr2 N2 Hf2 C2 O2]. split; [done|by eapply fr_trans|congruence|congruence|by eapply cost_trans|].
  intros H0 R rv Ha HO. apply (O2 H0 R rv); [by eapply apart_fr|]. by apply (O1 H0 R rv).
Qed.

Lemma trans_jumps_on base n m cond fs J e T F fs1 J1 e1 j fs2 :
  trans base n fs J e T F fs1 J1 e1 T F -> freereg fs1 = freereg fs -> et e1 = et e -> ef e1 = ef e ->
  jumps_on base m cond fs1 J1 e1 T F j fs2 -> jumps_on base (n + m) cond fs J e T F j fs2.
Proof.
  intros Ht Hf Et Ef Hj Q HQ. rewrite <- Et, <- Ef in *. apply Hj. intros l fs' Hfa. apply HQ. by eapply trans_falls.
Qed.

Lemma wpc_testset base fs J e T F (cond : bool) r (Q : Z -> FuncState -> Prop) :
  wfe base fs J e T F -> ek e = VNONRELOC r -> 0 <= r < 256 -> room 2 fs ->
  (forall j fs', jumps_on base 2 cond fs J e T F j fs' -> Q j fs') ->
  wpc (condjump OP_TESTSET NO_REG r (if cond then 1 else 0)) fs Q.
Proof.
  intros Hwe1 Ek Hr [Hroom1 _] HQ. pose proof (we_wf _ _ _ _ _ _ Hwe1) as Hwf1.
  assert (pc fs <= MAXARG_sBx) as Hpc1 by lia.
  assert (abc_ok NO_REG r (if cond then 1 else 0)) as Hok by (unfold abc_ok; change NO_REG with 255; destruct cond; lia).
  apply wpc_bind. eapply wpc_code; [done|done|]. intros fs2 Hem. pose proof (em_pc _ _ _ _ Hem) as Epc2.
  destruct (we_em _ _ _ _ _ _ Hwe1 _ _ Hem Hpc1 VTRUE) as (W2 & Hfr2 & Hj2); [by rewrite Ek|done|by rewrite isop_ABC|done|].
  pose proof (we_wf _ _ _ _ _ _ W2) as Hwf2. eapply wpc_jump; [exact Hwf2|lia|]. intros fs3 Hem3 Hwf3.
  pose proof (emitted_appends _ _ _ Hem3) as Hap3. pose proof (ap_pc _ _ _ Hap3) as Epc3. cbn in Epc3. apply HQ. intros Q' HQ'.
  pose proof (we_below _ _ _ _ _ _ W2) as Hb2.
  eapply (wpc_concat_new fs3 e T F); [lia| | | | | |].
  { pose proof (ap_new _ _ _ 0 _ Hap3 eq_refl) as E. by rewrite Z.add_0_r in E. }
  { intros Hx%Hb2. lia. }
  { eapply chain_ext; [|apply (we_T _ _ _ _ _ _ W2)]. intros x Hx. apply (ap_old _ _ _ _ Hap3), Hb2. set_solver. }
  { eapply chain_ext; [|apply (we_F _ _ _ _ _ _ W2)]. intros x Hx. apply (ap_old _ _ _ _ Hap3), Hb2. set_solver. }
  { pose proof (we_nodup _ _ _ _ _ _ W2) as Hnd. by rewrite app_nil_r in Hnd. }
  intros l c3 Hlen Hchain Hsame. apply HQ'. replace 2 with (1 + 1) by lia.
  eapply (test_falls base 1 fs J e T F cond fs2 (with_kind e VTRUE) OP_TESTSET NO_REG r (if cond then 1 else 0) fs3 l c3); try done; try apply Hem.
  - rewrite Epc2. replace (pc fs + 1 - 1) with (pc fs) by lia. exact (em_new _ _ _ _ Hem).
  - left. split_and!; try done; lia.
  - eapply fr_weaken; [exact Hfr2|done|]. intros x Hx [Hy|Hy]; [by left|lia].
  - unfold cost, nk. rewrite Epc2, (em_k _ _ _ _ Hem). lia.
  - intros H0 R rv Ha HM. right. destruct (we_arrive rt U other S0 _ _ _ _ _ _ _ _ _ _ _ Hwe1 ltac:(by rewrite Ek) Hem Hpc1 Ha HM) as [HA ->].
    rewrite Ek. cbn [kval]. exists (R r), R. split_and!; [done|apply same_refl| |cbn; by destruct cond|done].
    eapply At_eq; [|eapply At_mono; [|exact HA]]; [lia|]. intros x [Hx|[[Hx|[Hx|Hx]]|Hx]]; [by left| |by right; left|done|right; right; lia].
    apply (em_own0 _ _ _ _ Hwf1 Hem) in Hx as [-> _]. by right; right.
Qed.

(** The register of a value, and the register released again. *)
Lemma wpc_released {A} base fs J e T F (f : expdesc -> coder A) (Q : A -> FuncState -> Prop) :
  ready base fs J e T F -> discharged (ek e) -> jump_of (ek e) = None -> room 4 fs ->
  (forall e1 fs1 J1 r, trans base 4 fs J e T F fs1 J1 e1 T F -> ek e1 = VNONRELOC r -> 0 <= r < 256 -> freereg fs1 = freereg fs -> et e1 = et e -> ef e1 = ef e -> wpc (f e1) fs1 Q) ->
  wpc (e ← discharge2anyreg e; _ ← freeexp e; f e) fs Q.
Proof.
  intros Hr Hd Hj Hroom HQ. pose proof (rd_nact _ _ _ _ _ _ Hr) as Hna. pose proof (rd_free _ _ _ _ _ _ Hr) as Hf. pose proof (rd_max _ _ _ _ _ _ Hr) as Hmax.
  change MAXSTACK with 250 in Hmax. pose proof (rd_we _ _ _ _ _ _ Hr) as Hwe. pose proof (rd_nontemp _ _ _ _ _ _ Hr) as Hnt. apply wpc_bind. unfold discharge2anyreg.
  assert (Hother : (forall r, ek e <> VNONRELOC r) -> wpc (luaK_reserveregs 1 ≫= (fun _ => getfs freereg ≫= (fun r => discharge2reg e (r - 1)))) fs
    (fun e1 fs1 => wpc (_ ← freeexp e1; f e1) fs1 Q)).
  { intros Hne. apply wpc_bind. eapply (wpc_reserve rt U other S0); [exact Hr|]. intros fs1 Ht1 Hna1 Hf1. apply wpc_bind, wpc_getfs. rewrite Hf1. replace (base + 1 - 1) with base by lia.
    eapply (wpc_discharge2reg rt U other S0 base fs1 J e T F); [apply Ht1| |lia|eapply (room_cost 0 4); [exact Hroom|apply Ht1]| |].
    - destruct (ek e); try done. by exfalso; eapply Hne.
    - intros e2 fs2 (Ht2 & Hf2 & Ek2 & Et2 & Ef2 & _). apply wpc_bind. pose proof (tr_nact _ _ _ _ _ _ _ _ _ _ _ _ _ _ _ _ Ht2) as Hna2.
      apply wpc_freeexp; [intros r Er; assert (r = base) as -> by congruence; lia|lia|left; lia|lia|]. intros fs3 Hx Hh Hk Hf3. rewrite Ek2, decide_True in Hf3 by lia.
      pose proof (tr_we _ _ _ _ _ _ _ _ _ _ _ _ _ _ _ _ Ht2) as Hwe2. pose proof (we_wf _ _ _ _ _ _ Hwe2) as Hwf2.
      assert (trans base 0 fs2 [] e2 T F fs3 [] e2 T F) as Ht3.
      { apply trans_ext; try done; [unfold h_ok; rewrite Hh, Hk; apply Hwf2|change MAXSTACK with 250; lia|unfold nk; rewrite Hk; lia]. }
      eapply (HQ e2 fs3 [] base); try done; [|lia|lia]. eapply trans_le; [eapply trans_trans; [exact Ht1|eapply trans_trans; [exact Ht2|exact Ht3]]|lia].
    - intros j Ej. by rewrite Ej in Hj. }
  destruct (ek e) as [| | | | | |r| | | | | | |] eqn:Ek; try (apply Hother; done). apply wpc_ret, wpc_bind, wpc_freeexp_nontemp; [by rewrite Ek|].
  pose proof (we_kind _ _ _ _ _ _ Hwe) as Hk. rewrite Ek in Hk. cbn in Hk. eapply (HQ e fs J r); try done; [|lia]. by apply trans_refl.
Qed.

(** [not x] as a condition: the [NOT] becomes a [TEST]. *)
Lemma removelast_upd (l : list Z) i : l <> [] -> removelast l ++ [i] = upd l (len l - 1) i.
Proof.
  intros Hl. destruct (exists_last Hl) as (l' & x & ->). rewrite removelast_last. unfold upd, len. rewrite length_app. cbn [length].
  replace (Z.to_nat (Z.of_nat (length l' + 1) - 1)) with (length l' + 0)%nat by lia. by rewrite insert_app_r.
Qed.

Lemma wpc_nottest base fs J e T F (cond : bool) p ie (Q : Z -> FuncState -> Prop) :
  wfe base fs J e T F -> ek e = VRELOCABLE p -> instr_at (code fs) p = Some ie -> isop ie OP_NOT = true -> room 2 fs ->
  (forall j fs', jumps_on base 2 cond fs J e T F j fs' -> Q j fs') ->
  wpc (_ ← drop_instr; condjump OP_TEST (GETARG_B ie) 0 (if cond then 0 else 1)) fs Q.
Proof.
  intros Hwe Ek Hie Hnot [Hroom _] HQ. pose proof (we_kind _ _ _ _ _ _ Hwe) as Hk. rewrite Ek in Hk. destruct Hk as (Ep & -> & o & b & c & Hi & Hok & Hv & Hrd & _ & Hb).
  assert (ie = ABC o 0 b c) as -> by congruence. rewrite isop_ABC in Hnot by done. apply Z.eqb_eq, opcode_Z_inj in Hnot as ->. specialize (Hb eq_refl).
  destruct (ABC_fields OP_NOT 0 b c Hok) as (_ & _ & -> & _). pose proof (instr_at_range _ _ _ Hi) as Hr. change (len (code fs)) with (pc fs) in Hr.
  set (cc := if cond then 0 else 1). assert (abc_ok b 0 cc) as Hok' by (unfold abc_ok in *; unfold cc; destruct cond; lia).
  assert (code fs <> []) as Hne by (intros E; unfold pc in Hr; rewrite E in Hr; cbn in Hr; lia).
  pose proof (we_wf _ _ _ _ _ _ Hwe) as Hwf. pose proof (wf_jpc _ _ Hwf) as Hjpc. cbn in Hjpc.
  apply wpc_bind, wpc_putfs, wpc_bind. set (fs0 := set_lineinfo _ _).
  assert (pc fs0 = p) as Epc0. { unfold pc, fs0. cbn. destruct (exists_last Hne) as (l' & x & E). rewrite E, removelast_last. unfold pc in Ep. rewrite E, length_app in Ep. cbn in Ep. lia. }
  apply wpc_code_app; [exact Hjpc|lia|]. intros fs1 Hap1 Htg1 Hj1. assert (code fs1 = upd (code fs) p (ABC OP_TEST b 0 cc)) as Ec1.
  { rewrite (ap_code _ _ _ Hap1). cbn [code fs0 set_lineinfo set_code]. rewrite removelast_upd by done. by rewrite Ep. }
  set (fsU := set_code (upd (code fs) p (ABC OP_TEST b 0 cc)) fs).
  assert (ext fsU fs1) as Hx. { split; [done|done|by rewrite Hj1|apply Hap1|by rewrite (ap_k _ _ _ Hap1)]. }
  assert (instr_at (code fsU) p = Some (ABC OP_TEST b 0 cc)) as HiU by (cbn [code set_code fsU]; by rewrite instr_at_upd, decide_True).
  assert (pc fsU = pc fs) as EpcU by apply len_upd. pose proof (ext_pc _ _ Hx) as Epc1. rewrite EpcU in Epc1.
  assert (p ∉ T ++ F) as Hp0.
  { intros Hy. destruct (we_jumps _ _ _ _ _ _ Hwe p Hy) as (o' & Hi2 & Hs2). assert (JMP 0 o' = ABC OP_NOT 0 b c) as E by congruence.
    destruct (JMP_fields 0 o') as (E2 & _); [lia|done|]. rewrite E, (proj1 (ABC_fields OP_NOT 0 b c Hok)) in E2. done. }
  destruct (we_upd base fs e T F p (ABC OP_TEST b 0 cc) VTRUE) as (WU & HfrU & HpU & HjU); try done.
  { intros Hy%(we_below _ _ _ _ _ _ Hwe). lia. }
  { unfold testset_at. by rewrite Hi, isop_ABC. }
  { right. right. by rewrite Ek. }
  { intros Hm. unfold mergeable in Hm. fold fsU in Hm. rewrite EpcU, <- Ep, HiU, isop_ABC in Hm by done. by rewrite andb_false_r in Hm. }
  fold fsU in WU, HfrU, HpU, HjU.
  assert (wfe base fs1 [] (with_kind e VTRUE) T F) as W1.
  { apply (wfe_ext base fsU); [done|done| |]. - unfold h_ok. rewrite (ap_k _ _ _ Hap1), (ap_h _ _ _ Hap1). apply Hwf. - rewrite (ap_free _ _ _ Hap1). apply Hwf. }
  assert (fr (own fs [] (ek e) (T ++ F)) fs (own fs1 [] VTRUE (T ++ F)) fs1) as Hfr1.
  { eapply fr_trans; [exact HfrU|]. apply ext_fr; [done|]. intros x. by rewrite (own_ext fsU fs1). }
  pose proof (we_wf _ _ _ _ _ _ W1) as Hwf1. eapply wpc_jump; [exact Hwf1|lia|]. intros fs3 Hem3 Hwf3.
  pose proof (emitted_appends _ _ _ Hem3) as Hap3. pose proof (ap_pc _ _ _ Hap3) as Epc3. cbn in Epc3. apply HQ. intros Q' HQ'. pose proof (we_below _ _ _ _ _ _ W1) as Hb2.
  eapply (wpc_concat_new fs3 e T F); [lia| | | | | |].
  { pose proof (ap_new _ _ _ 0 _ Hap3 eq_refl) as E. by rewrite Z.add_0_r in E. }
  { intros Hy%Hb2. lia. }
  { eapply chain_ext; [|apply (we_T _ _ _ _ _ _ W1)]. intros x Hy. apply (ap_old _ _ _ _ Hap3), Hb2. set_solver. }
  { eapply chain_ext; [|apply (we_F _ _ _ _ _ _ W1)]. intros x Hy. apply (ap_old _ _ _ _ Hap3), Hb2. set_solver. }
  { pose proof (we_nodup _ _ _ _ _ _ W1) as Hnd. by rewrite app_nil_r in Hnd. }
  intros l c3 Hlen Hchain Hsame. apply HQ'. replace 2 with (1 + 1) by lia.
  assert (fr (own fs [] (ek e) (T ++ F)) fs (fun x => own fs1 [] VTRUE (T ++ F) x \/ x = pc fs1 - 1) fs1) as Hfr2.
  { destruct Hfr1 as (HK & HL & HF). split_and!; [done|done|]. intros x Hxr. destruct (HF x Hxr) as [A1 B1]. split.
    - intros Hno. destruct (A1 Hno) as [E N]. split; [done|]. intros [Hy|Hy]; [done|]. apply Hno. right. right. rewrite Ek. cbn. lia.
    - intros i Hix Hopen. destruct (B1 i Hix Hopen) as (i' & Hi' & Hbe & Hn). exists i'. split_and!; try done. destruct Hn as [->|Hn]; [by left|]. right. intros [Hy|Hy]; [done|].
      assert (x = p) as -> by lia. destruct Hopen as (b2 & c2 & -> & Hb3 & Hc3).
      destruct (ABC_inj OP_TESTSET NO_REG b2 c2 OP_NOT 0 b c) as [E _]; [unfold abc_ok; change NO_REG with 255; lia|done|congruence|done]. }
  eapply (test_falls base 1 fs [] e T F cond fs1 (with_kind e VTRUE) OP_TEST b 0 cc fs3 l c3); try done; try apply Hap1.
  - rewrite Epc1, <- Ep, Ec1. exact HiU.
  - by right.
  - intros j Hj. rewrite Ec1. by apply HjU.
  - unfold cost, nk. rewrite Epc1, (ap_k _ _ _ Hap1). cbn. lia.
  - intros H0 R rv Ha HM. right. rewrite Ek in HM. destruct HM as (HA & o2 & b2 & c2 & Hi2 & Hok2 & -> & _).
    destruct (ABC_inj o2 0 b2 c2 OP_NOT 0 b c) as (-> & _ & -> & ->); [done|done|congruence|]. cbn [run_value fmap res_fmap fst].
    exists (LBool (l_isfalse (R b))), R. split_and!; [done|apply same_refl| | |].
    + rewrite <- Ek in HA. eapply At_eq; [|eapply At_fr; [exact (fr_frame H0 _ _ _ _ (apart_disjoint _ _ _ Ha) Hfr2)|exact HA]]. lia.
    + cbn [run_test]. unfold cc. by destruct (l_isfalse (R b)), cond.
    + by destruct (l_isfalse (R b)), cond.
Qed.

Lemma wpc_jumponcond base fs J e T F (cond : bool) (Q : Z * expdesc -> FuncState -> Prop) :
  ready base fs J e T F -> discharged (ek e) -> jump_of (ek e) = None -> room 6 fs ->
  (forall j e0 fs1, et e0 = et e -> ef e0 = ef e -> jumps_on base 6 cond fs J e T F j fs1 -> Q (j, e0) fs1) ->
  wpc (jumponcond e cond) fs Q.
Proof.
  intros Hr Hd Hj Hroom HQ. unfold jumponcond.
  assert (Hset : wpc (e ← discharge2anyreg e; _ ← freeexp e; j ← condjump OP_TESTSET NO_REG (info e) (if cond then 1 else 0); mret (j, e)) fs Q).
  { eapply wpc_released; [exact Hr|done|done|by eapply room_le|]. intros e1 fs1 J1 r Ht Ek Hrr Hf Et Ef. unfold info. rewrite Ek. apply wpc_bind.
    eapply (wpc_testset base fs1 J1 e1 T F); [apply Ht|done|done|eapply (room_cost 4 2); [exact Hroom|apply Ht]|]. intros j fs' Hon. apply wpc_ret, HQ; [done|done|].
    by eapply (trans_jumps_on base 4 2). }
  destruct (ek e) as [| | | | | | | | | | |p| |] eqn:Ek; try exact Hset. pose proof (we_kind _ _ _ _ _ _ (rd_we _ _ _ _ _ _ Hr)) as Hk. rewrite Ek in Hk.
  destruct Hk as (_ & _ & o & b & c & Hi & _). apply wpc_bind. eapply wpc_getinstr; [exact Hi|]. destruct (isop _ OP_NOT) eqn:En; [|exact Hset].
  pose proof (wpc_nottest base fs J e T F cond p _ (fun j fs' => wpc (mret (j, e)) fs' Q) (rd_we _ _ _ _ _ _ Hr) Ek Hi En ltac:(by eapply room_le)) as Hn.
  apply wpc_bind. eapply wpc_mono; [|intros a fs' H1; apply wpc_bind; exact H1]. unfold wpc, mbind, coder_bind in Hn. unfold wpc.
  cbn [drop_instr putfs]. apply Hn. intros j fs' Hon. apply (HQ j e fs'); [done|done|]. intros Q' HQ'. apply Hon. intros l fs2 [W Fr N Fe Co O]. apply HQ'.
  split; try done. by eapply cost_le.
Qed.

(** ** One list leads here *)

(** The run failed, is here with a value of truth [t], or left through [L] with the
    other truth. *)
Definition Branch (t : bool) (base : Z) (H0 : Z -> Prop) (fs : FuncState) (J L : list Z) (R : regs) (rv : res TValue) : Prop :=
  (exists er, rv = Err er /\ Dead (fun x => H0 x \/ own fs J VTRUE L x) fs er) \/
  (exists v R1, rv = Ok v /\ l_isfalse v = negb t /\ same base R R1 /\ Here (fun x => H0 x \/ pend (code fs) L x) fs J R1) \/
  (exists R1 j v, same base R R1 /\ rv = Ok v /\ j ∈ L /\ Exit H0 fs (own fs J VTRUE L) j R1 (negb t) v).

Record branch (base n : Z) (t : bool) (fs : FuncState) (J : list Z) (e : expdesc) (T F : list Z) (fs' : FuncState) (J' : list Z) (l : Z) (L : list Z) : Prop := {
  br_wf : wf fs' J';
  br_list : jlist fs' l L;
  br_disjoint j : j ∈ L -> j ∉ J';
  br_label : mergeable fs' = false;
  br_fr : fr (own fs J (ek e) (T ++ F)) fs (own fs' J' VTRUE L) fs';
  br_nact : nactvar fs' = nactvar fs;
  br_free : freereg fs' = freereg fs;
  br_cost : cost n fs fs';
  br_out H0 R rv : apart H0 fs (own fs J (ek e) (T ++ F)) -> Out base H0 fs J (ek e) T F R rv -> Branch t base H0 fs' J' L R rv;
}.

Section ToHere.
Context (base : Z) (fs : FuncState) (J : list Z) (lt lf : Z) (T F : list Z) (t : bool) (l : Z) (c' : list Z).
Hypothesis Hwe : wfe base fs J (MkExp VTRUE lt lf) T F.

Let L0 : list Z := if t then T else F.
Let L : list Z := if t then F else T.
Let J' : list Z := J ++ L0.
Let fs' : FuncState := set_jpc l (set_code c' (set_target (pc fs) fs)).

Hypothesis Hlen : len c' = pc fs.
Hypothesis Hchain : chain c' l J'.
Hypothesis Hsame : forall x, x ∉ J -> instr_at c' x = instr_at (code fs) x.

Lemma th_elem x : x ∈ T ++ F <-> x ∈ L0 \/ x ∈ L.
Proof. unfold L0, L. destruct t; set_solver. Qed.

Lemma th_instr j : j ∈ J ++ T ++ F -> cond_at fs j -> instr_at c' (j - 1) = instr_at (code fs) (j - 1).
Proof. intros Hj Hc. apply Hsame. apply (test_not_jump fs); [eapply chain_jumps, (wf_jpc _ _ (we_wf _ _ _ _ _ _ Hwe))|done]. Qed.

Lemma th_testmode x : testmode_at c' x = testmode_at (code fs) x.
Proof.
  destruct (decide (x ∈ J)) as [Hx|Hx]; [|unfold testmode_at; by rewrite Hsame]. destruct (chain_jump _ _ _ _ (wf_jpc _ _ (we_wf _ _ _ _ _ _ Hwe)) Hx) as (o & Hi & Hs).
  destruct (chain_jump c' l J' x Hchain) as (o' & Hi' & Hs'); [unfold J'; set_solver|]. by rewrite (testmode_JMP _ _ _ Hi Hs), (testmode_JMP _ _ _ Hi' Hs').
Qed.

Lemma th_testset x : testset_at c' x = testset_at (code fs) x.
Proof.
  destruct (decide (x ∈ J)) as [Hx|Hx]; [|unfold testset_at; by rewrite Hsame]. destruct (chain_jump _ _ _ _ (wf_jpc _ _ (we_wf _ _ _ _ _ _ Hwe)) Hx) as (o & Hi & Hs).
  destruct (chain_jump c' l J' x Hchain) as (o' & Hi' & Hs'); [unfold J'; set_solver|]. by rewrite (testset_JMP _ _ _ Hi Hs), (testset_JMP _ _ _ Hi' Hs').
Qed.

Lemma th_mergeable : mergeable fs' = false.
Proof. unfold mergeable. change (pc fs') with (len c'). cbn [lasttarget set_jpc set_code set_target fs']. by rewrite Hlen, Z.ltb_irrefl. Qed.

Lemma th_pend js x : pend c' js x <-> pend (code fs) js x.
Proof. unfold pend. by rewrite th_testset. Qed.

Lemma th_own x : own fs' J' VTRUE L x <-> pend (code fs) J x \/ pend (code fs) (T ++ F) x.
Proof.
  unfold own, own0. rewrite th_mergeable. cbn [own_kind code set_jpc set_code fs']. rewrite !th_pend. unfold J', L0, L. rewrite !pend_app.
  destruct t; naive_solver.
Qed.

Lemma th_cond j : cond_at fs j -> instr_at c' (j - 1) = instr_at (code fs) (j - 1) -> cond_at fs' j.
Proof. intros (o & a & b & c & Hrest) E. exists o, a, b, c. cbn [code set_jpc set_code fs' k]. by rewrite E. Qed.

Lemma th_nodup : NoDup (J ++ L0) /\ NoDup L /\ forall j, j ∈ L -> j ∉ J'.
Proof.
  pose proof (we_nodup _ _ _ _ _ _ Hwe) as Hnd. apply NoDup_app in Hnd as (H1 & H2 & H3). apply NoDup_app in H1 as (H4 & H5 & H6). unfold J', L0, L.
  rewrite NoDup_app. destruct t; split_and!; try done; set_solver.
Qed.

Lemma th_wf : wf fs' J'.
Proof.
  pose proof (we_wf _ _ _ _ _ _ Hwe) as []. pose proof th_mergeable as Hm. split.
  - exact Hchain.
  - intros j Hj. cbn [code set_jpc set_code fs']. rewrite th_testmode. unfold J' in Hj. apply elem_of_app in Hj as [Hj|Hj].
    + destruct (wf_cond j Hj) as [Hc|Hn]; [left|by right]. apply th_cond; [done|]. apply th_instr; [set_solver|done].
    + left. assert (j ∈ T ++ F) as HjL by (apply th_elem; by left). pose proof (we_cond _ _ _ _ _ _ Hwe j HjL) as Hc. apply th_cond; [done|]. apply th_instr; [set_solver|done].
  - apply th_nodup.
  - intros _. change (pc fs') with (len c'). by rewrite Hlen.
  - change (pc fs') with (len c'). rewrite Hlen. cbn. unfold pc. lia.
  - done.
  - congruence.
  - done.
Qed.

Lemma th_list : jlist fs' (if t then lf else lt) L.
Proof.
  assert (forall j, j ∈ L -> j ∉ J) as Hd by (intros j Hj; apply (we_disjoint _ _ _ _ _ _ Hwe), th_elem; by right). split.
  - cbn [code set_jpc set_code fs']. eapply (chain_ext (code fs)); [intros j Hj; apply Hsame; by apply Hd|]. unfold L.
    destruct t; [apply (we_F _ _ _ _ _ _ Hwe)|apply (we_T _ _ _ _ _ _ Hwe)].
  - intros j Hj. assert (j ∈ T ++ F) as HjL by (apply th_elem; by right). pose proof (we_cond _ _ _ _ _ _ Hwe j HjL) as Hc. apply th_cond; [done|]. apply th_instr; [set_solver|done].
  - apply th_nodup.
Qed.

Lemma th_fr : fr (own fs J VTRUE (T ++ F)) fs (own fs' J' VTRUE L) fs'.
Proof.
  split_and!; [done|change (pc fs') with (len c'); lia|]. intros x Hx. split.
  - intros Hno. split; [apply Hsame; intros Hy; apply Hno; left; left; by left|]. intros [Hy|Hy]%th_own; apply Hno; [by left; left|by right; left].
  - intros i Hi Hopen. exists i. split_and!; [|by apply becomes_refl|by left]. cbn [code set_jpc set_code fs']. rewrite Hsame; [done|].
    intros Hy. destruct (chain_jump _ _ _ _ (wf_jpc _ _ (we_wf _ _ _ _ _ _ Hwe)) Hy) as (o & Hi' & Hs). destruct Hopen as (b & c & -> & Hb & Hc).
    assert (testset_at (code fs) x = true) as Ht by (unfold testset_at; rewrite Hi, isop_ABC; [done|unfold abc_ok; change NO_REG with 255; lia]).
    by rewrite (testset_JMP _ _ _ Hi' Hs) in Ht.
Qed.

Lemma th_out H0 R rv : apart H0 fs (own fs J VTRUE (T ++ F)) -> Falls t base H0 fs J T F R rv -> Branch t base H0 fs' J' L R rv.
Proof.
  intros Ha. pose proof (fr_frame H0 _ _ _ _ (apart_disjoint _ _ _ Ha) th_fr) as Hfr.
  assert (forall p R', At (fun x => H0 x \/ own fs' J' VTRUE L x) fs' p R' -> At (fun x => (H0 x \/ pend (code fs') L x) \/ own0 fs' J' x) fs' p R') as Hm.
  { intros p R'. apply At_mono. intros x [[Hx|Hx]|Hx]; [by left|by right; right; left|by right; left]. }
  assert (forall p R', At (fun x => (H0 x \/ pend (code fs) (T ++ F) x) \/ own0 fs J x) fs p R' -> At (fun x => H0 x \/ own fs' J' VTRUE L x) fs' p R') as Hmv.
  { intros p R' HA. eapply At_fr; [exact Hfr|]. eapply At_mono; [|exact HA]. intros x [Hx|[Hx|[Hx|[]]]]; [by left; left|by right|by left; right]. }
  assert (forall j R', instr_at c' (j - 1) = instr_at (code fs) (j - 1) -> fires fs j R' -> fires fs' j R') as Hfi.
  { intros j R' E (o & a & b & c & Hrest). exists o, a, b, c. cbn [code set_jpc set_code fs' k]. by rewrite E. }
  assert (forall j R', j ∈ J' -> fires fs j R' -> cond_at fs j -> At (fun x => H0 x \/ own fs' J' VTRUE L x) fs' (j - 1) R' -> Here (fun x => H0 x \/ pend (code fs') L x) fs' J' R') as Hpark.
  { intros j R' Hj Hf Hc HA. right. right. exists j. split; [done|]. left. split; [|by apply Hm]. apply Hfi; [|done]. apply th_instr; [|done]. unfold J' in Hj.
    apply elem_of_app in Hj as [Hj|Hj]; [set_solver|]. apply elem_of_app. right. apply th_elem. by left. }
  intros [(er & -> & HD)|[(v & R1 & -> & Hv & Hs & HH)|(R1 & t' & j & v & Hs & -> & Hj & Hl & HA)]].
  - left. exists er. split; [done|]. by eapply Dead_fr.
  - right. left. exists v, R1. split_and!; try done. destruct HH as [[_ HA]|[(a & b & R' & Hmg & Hi & Hab & -> & HA)|(j & Hj & Hp)]].
    + left. split; [exact th_mergeable|]. apply Hm. eapply At_eq; [|by apply Hmv]. by rewrite <- Hlen.
    + left. split; [exact th_mergeable|]. apply Hm. pose proof (instr_at_range _ _ _ Hi) as Hr. change (len (code fs)) with (pc fs) in Hr.
      eapply At_eq; [|eapply At_step; [by apply Hmv|]]; [instantiate (1 := pc fs - 1 + 1); change (pc fs') with (len c'); lia|].
      intros C K HC. apply exec_loadnil; [|unfold abc_ok; lia]. eapply agrees_at; [exact HC| |].
      * cbn [code set_jpc set_code fs']. rewrite Hsame; [exact Hi|]. intros Hy. destruct (mergeable_apart fs J (we_wf _ _ _ _ _ _ Hwe) Hmg). by left.
      * intros [Hx|[Hx|Hx]%th_own].
        -- destruct (Ha _ Hx) as (_ & Hn & _). apply Hn. left. by right.
        -- by apply (mergeable_apart fs J (we_wf _ _ _ _ _ _ Hwe) Hmg).
        -- destruct (we_lists _ _ _ _ _ _ Hwe _ Hx) as [_ Hn]. apply Hn. by right.
    + destruct Hp as [[Hf HA]|[Hn HA]].
      * apply (Hpark j); [unfold J'; set_solver|done| |by apply Hmv]. destruct Hf as (o & a & b & c & ? & ? & ? & ? & ? & _). by exists o, a, b, c.
      * right. right. exists j. split; [unfold J'; set_solver|]. right. split; [cbn [code set_jpc set_code fs']; by rewrite th_testmode|by apply Hm, Hmv].
  - pose proof (At_fr _ _ _ _ _ _ _ _ _ _ Hfr HA) as HA'. assert (j ∈ T ++ F) as HjL by (destruct t'; set_solver). pose proof (we_cond _ _ _ _ _ _ Hwe j HjL) as Hc.
    destruct (decide (t' = t)) as [->|Hne].
    + right. left. exists v, R1. pose proof Hl as (Hf & Hv & _). split_and!; try done. apply (Hpark j); try done. unfold J', L0. destruct t; set_solver.
    + assert (t' = negb t) as -> by (by destruct t', t). right. right. exists R1, j, v. split_and!; [done|done|unfold L; destruct t; done|]. split; [|exact HA'].
      apply (leaves_ext rt fs); [|done|exact Hl]. cbn [code set_jpc set_code fs']. apply th_instr; [set_solver|done].
Qed.
End ToHere.

(** ** [luaK_goiftrue] and [luaK_goiffalse] *)

Lemma wpc_tohere base n t fs J e T F fs1 J1 lt lf T1 F1 (Q : () -> FuncState -> Prop) :
  falls base n t fs J e T F fs1 J1 lt lf T1 F1 -> pc fs1 <= MAXARG_sBx ->
  (forall fs' J', branch base n t fs J e T F fs' J' (if t then lf else lt) (if t then F1 else T1) -> Q () fs') ->
  wpc (luaK_patchtohere (if t then lt else lf)) fs1 Q.
Proof.
  intros [W Fr Na Fe Co Ou] Hpc HQ. unfold luaK_patchtohere. apply wpc_bind. unfold wpc at 1, luaK_getlabel. apply wpc_bind, wpc_getfs. apply wpc_bind.
  pose proof (we_wf _ _ _ _ _ _ W) as Hwf. pose proof (we_nodup _ _ _ _ _ _ W) as Hnd. apply NoDup_app in Hnd as (H1 & H2 & H3). apply NoDup_app in H1 as (H4 & H5 & H6).
  eapply (wpc_concat _ _ J1 (if t then T1 else F1)); [apply Hwf| | |done|].
  { destruct t; [apply (we_T _ _ _ _ _ _ W)|apply (we_F _ _ _ _ _ _ W)]. }
  { apply NoDup_app. destruct t; split_and!; try done; set_solver. }
  intros l c' Hchain Hlen Hsame _. apply wpc_putfs. apply (HQ _ (J1 ++ (if t then T1 else F1))). cbn [code set_target] in Hlen, Hsame. split.
  - by eapply (th_wf base fs1 J1 lt lf T1 F1 t l c').
  - by eapply (th_list base fs1 J1 lt lf T1 F1 t l c').
  - by eapply (th_nodup base fs1 J1 lt lf T1 F1 t).
  - by eapply (th_mergeable fs1 l c').
  - eapply fr_trans; [exact Fr|]. by eapply (th_fr base fs1 J1 lt lf T1 F1 t l c').
  - exact Na.
  - exact Fe.
  - destruct Co as [C1 C2]. split; [|exact C2]. change (len c' <= pc fs + n). rewrite Hlen. exact C1.
  - intros H0 R rv Ha HO. eapply (th_out base fs1 J1 lt lf T1 F1 t l c'); try done; [by eapply apart_fr|by apply Ou].
Qed.

(** Constants that are not nil or false. *)
Definition const_ok (fs : FuncState) (kk : expkind) : Prop :=
  match kk with VK i => exists v, k fs !! Z.to_nat i = Some v /\ l_isfalse v = false | _ => True end.

Lemma wpc_invertjump base fs J e T F j (Q : () -> FuncState -> Prop) :
  wfe base fs J e T F -> ek e = VJMP j ->
  (forall o a b c, instr_at (code fs) (j - 1) = Some (ABC o a b c) -> abc_ok a b c -> (a = 0 \/ a = 1) -> is_test o = true -> j - 1 ∉ T ++ F ->
    Q () (set_code (upd (code fs) (j - 1) (ABC o (1 - a) b c)) fs)) -> wpc (invertjump j) fs Q.
Proof.
  intros Hwe Ek HQ. pose proof (we_kind _ _ _ _ _ _ Hwe) as Hk. rewrite Ek in Hk. destruct Hk as (Ej & _ & Hij & _ & o & a & b & c & Hi & Hok & Ho & Ha & _).
  assert (is_test o = true) as Ht by (by destruct Ho as [->|[->| ->]]). pose proof (instr_at_range _ _ _ Hij) as Hr. apply wpc_bind, wpc_getjumpcontrol; [done|].
  assert (control (code fs) j = j - 1) as ->. { unfold control. rewrite Hi. by rewrite (proj1 (ABC_fields o a b c Hok)), testTMode_op, Ht. }
  apply wpc_bind. eapply wpc_getinstr; [exact Hi|]. rewrite (proj1 (proj2 (ABC_fields o a b c Hok))).
  rewrite SETARG_A_ABC by (done || (destruct Ha as [->| ->]; cbn; lia)). eapply wpc_setinstr; [exact Hi|].
  replace (if a =? 0 then 1 else 0) with (1 - a) by (by destruct Ha as [->| ->]). apply HQ; try done.
  intros Hx. destruct (we_jumps _ _ _ _ _ _ Hwe _ Hx) as (o' & Hi2 & Hs2). pose proof (testmode_ABC _ _ _ _ _ _ Hi Hok) as E. rewrite (testmode_JMP _ _ _ Hi2 Hs2), Ht in E. done.
Qed.

(** A comparison joins the list that is left through. *)
Lemma wpc_join base fs J e T F j (t : bool) (c0 : list Z) (Q : Z -> FuncState -> Prop) :
  wfe base fs J e T F -> ek e = VJMP j -> pc fs <= MAXARG_sBx -> len c0 = pc fs ->
  (forall x, x <> j - 1 -> instr_at c0 x = instr_at (code fs) x) ->
  (forall o a b c, instr_at (code fs) (j - 1) = Some (ABC o a b c) -> abc_ok a b c -> instr_at c0 (j - 1) = Some (ABC o (if t then a else 1 - a) b c)) ->
  j - 1 ∉ T ++ F ->
  (forall l fs', falls base 0 (negb t) fs J e T F fs' [] (if t then l else et e) (if t then ef e else l) (if t then T ++ [j] else T) (if t then F else F ++ [j]) -> Q l fs') ->
  wpc (luaK_concat (if t then et e else ef e) j) (set_code c0 fs) Q.
Proof.
  intros Hwe Ek Hpc Hl0 Hs0 Ht0 Hnt HQ. destruct (vjmp_shape _ _ _ _ _ _ _ Hwe Ek) as (Ej & HJ & Hn & Hi). pose proof (instr_at_range _ _ _ Hi) as Hr.
  pose proof (we_nodup _ _ _ _ _ _ Hwe) as Hnd. apply NoDup_app in Hnd as (Hnd & _ & _).
  assert (pc (set_code c0 fs) = pc fs) as Epc by exact Hl0.
  eapply (wpc_concat_new (set_code c0 fs) e T F t j); [by rewrite Epc|cbn [code set_code]; rewrite Hs0; [done|lia]|done| | |done|].
  - eapply chain_ext; [|apply (we_T _ _ _ _ _ _ Hwe)]. intros x Hx. apply Hs0. intros ->. apply Hnt. set_solver.
  - eapply chain_ext; [|apply (we_F _ _ _ _ _ _ Hwe)]. intros x Hx. apply Hs0. intros ->. apply Hnt. set_solver.
  - intros l c3 Hlen Hchain Hsame. change (set_code c3 (set_code c0 fs)) with (set_code c3 fs). rewrite Epc in Hlen.
    assert (trans base 0 fs J e T F (set_code c3 fs) [] (if t then MkExp VFALSE l (ef e) else MkExp VTRUE (et e) l) (if t then T ++ [j] else T) (if t then F else F ++ [j])) as Htr.
    { apply (join_trans rt U other S0 base fs J e T F j t l c3); try done.
      - intros x Hx Hx1. rewrite Hsame by done. by apply Hs0.
      - intros o a b c Hia Hok. rewrite Hsame by (destruct t; set_solver). by apply Ht0. }
    apply HQ. pose proof (falls_const base 0 (negb t) _ _ _ _ _ _ _ _ _ _ Htr eq_refl) as Hf.
    assert (falls base 0 (negb t) fs J e T F (set_code c3 fs) [] (et (if t then MkExp VFALSE l (ef e) else MkExp VTRUE (et e) l)) (ef (if t then MkExp VFALSE l (ef e) else MkExp VTRUE (et e) l))
      (if t then T ++ [j] else T) (if t then F else F ++ [j])) as Hf'; [|by destruct t].
    apply Hf; [by destruct t|]. intros R. destruct t; [by exists (LBool false)|by exists (LBool true)].
Qed.

Lemma falls_le base n m t fs J e T F fs' J' lt lf T' F' :
  falls base n t fs J e T F fs' J' lt lf T' F' -> n <= m -> falls base m t fs J e T F fs' J' lt lf T' F'.
Proof. intros [W Fr Na Fe Co Ou] Hle. split; try done. by eapply cost_le. Qed.

Lemma falls_pc base n t fs J e T F fs' J' lt lf T' F' :
  falls base n t fs J e T F fs' J' lt lf T' F' -> room n fs -> pc fs' <= MAXARG_sBx.
Proof. intros Hf Hr. pose proof (fa_cost _ _ _ _ _ _ _ _ _ _ _ _ _ _ Hf). unfold room, cost in *. lia. Qed.

Lemma wpc_goiftrue base fs J e T F (Q : expdesc -> FuncState -> Prop) :
  ready base fs J e T F -> const_ok fs (ek e) -> room 8 fs ->
  (forall e' fs' J' L, branch base 8 true fs J e T F fs' J' (ef e') L -> et e' = NO_JUMP -> Q e' fs') -> wpc (luaK_goiftrue e) fs Q.
Proof.
  intros Hr Hcst Hroom HQ. unfold luaK_goiftrue. apply wpc_bind. eapply (wpc_dischargevars rt U other S0 base fs J e T F); [apply Hr|by eapply room_le|].
  intros e1 fs1 J1 Ht1 Hd Hf1 Hn1 _ _ Hid. specialize (Hn1 (rd_nontemp _ _ _ _ _ _ Hr)). pose proof (ready_trans rt U other S0 _ _ _ _ _ _ _ _ _ _ _ _ Hr Ht1 Hf1 Hn1) as Hr1.
  assert (room 7 fs1) as Hroom1 by (eapply (room_cost 1 7); [exact Hroom|apply Ht1]). pose proof (rd_we _ _ _ _ _ _ Hr1) as Hwe1.
  assert (Hend : forall l fs2 J2 T2 F2 e2, falls base 7 true fs1 J1 e1 T F fs2 J2 (et e1) l T2 F2 -> et e2 = et e1 ->
    wpc (_ ← luaK_patchtohere (et e2); mret (MkExp (ek e2) NO_JUMP l)) fs2 Q).
  { intros l fs2 J2 T2 F2 e2 Hfa Ee. rewrite Ee. pose proof (trans_falls _ _ _ _ _ _ _ _ _ _ _ _ _ _ _ _ _ _ _ _ Ht1 Hf1 Hfa) as Hfa'. apply wpc_bind.
    eapply (wpc_tohere base 8 true fs J e T F fs2 J2 (et e1) l T2 F2); [exact Hfa'|by eapply falls_pc|]. intros fs' J' Hb. apply wpc_ret. by eapply HQ. }
  apply wpc_bind. assert (Hconst : simple (ek e1) -> (forall R, exists v, kval U fs1 (ek e1) R = Ok v /\ l_isfalse v = false) ->
    wpc (mret (NO_JUMP, e1)) fs1 (fun a fs2 => wpc (let '(j, e) := a in f ← luaK_concat (ef e) j; _ ← luaK_patchtohere (et e); mret (MkExp (ek e) NO_JUMP f)) fs2 Q)).
  { intros Hs Hv. apply wpc_ret, wpc_bind. unfold luaK_concat. rewrite Z.eqb_refl. apply wpc_ret. eapply Hend; [|done].
    eapply (falls_const base 7 true fs1 J1 e1 T F fs1 J1 e1 T F); [by apply trans_refl|done|done|done]. }
  assert (Hjump : jump_of (ek e1) = None ->
    wpc (jumponcond e1 false) fs1 (fun a fs2 => wpc (let '(j, e) := a in f ← luaK_concat (ef e) j; _ ← luaK_patchtohere (et e); mret (MkExp (ek e) NO_JUMP f)) fs2 Q)).
  { intros Hj. eapply (wpc_jumponcond base fs1 J1 e1 T F false); [done|done|done|by eapply room_le|]. intros j e0 fs2 Et Ef Hon. apply wpc_bind. rewrite Ef.
    apply Hon. intros l fs3 Hfa. eapply Hend; [|exact Et]. eapply falls_le; [exact Hfa|lia]. }
  pose proof (we_kind _ _ _ _ _ _ Hwe1) as Hk. destruct (ek e1) as [| | | |i|r|r| | | |j|p| |] eqn:Ek; try done; try (by apply Hjump); cbn [mbind] in *.
  - apply Hconst; [done|]. intros R. by exists (LBool true).
  - apply Hconst; [done|]. intros R. cbn in *. destruct Hid as [(_ & -> & ->)|[_ []]]. rewrite Ek in Hcst. destruct Hcst as (v & Hv & Hl). exists v. by rewrite Hv.
  - apply Hconst; [done|]. intros R. by exists (LNumber r).
  - apply wpc_bind. eapply (wpc_invertjump base fs1 J1 e1 T F j); [exact Hwe1|done|]. intros o a b c Hi Hok Ha _ Hnt. apply wpc_ret, wpc_bind.
    pose proof (instr_at_range _ _ _ Hi) as Hrg.
    eapply (wpc_join base fs1 J1 e1 T F j false); [exact Hwe1|done|unfold room in Hroom1; lia|apply len_upd| | |done|].
    + intros x Hx. by rewrite instr_at_upd, decide_False.
    + intros o2 a2 b2 c2 Hi2 Hok2. rewrite instr_at_upd, decide_True by done. by destruct (ABC_inj o2 a2 b2 c2 o a b c) as (-> & -> & -> & ->); [done|done|congruence|].
    + intros l fs2 Hfa. eapply Hend; [|done]. eapply falls_le; [exact Hfa|lia].
Qed.

Lemma wpc_goiffalse base fs J e T F (Q : expdesc -> FuncState -> Prop) :
  ready base fs J e T F -> room 8 fs ->
  (forall e' fs' J' L, branch base 8 false fs J e T F fs' J' (et e') L -> ef e' = NO_JUMP -> Q e' fs') -> wpc (luaK_goiffalse e) fs Q.
Proof.
  intros Hr Hroom HQ. unfold luaK_goiffalse. apply wpc_bind. eapply (wpc_dischargevars rt U other S0 base fs J e T F); [apply Hr|by eapply room_le|].
  intros e1 fs1 J1 Ht1 Hd Hf1 Hn1 _ _ Hid. specialize (Hn1 (rd_nontemp _ _ _ _ _ _ Hr)). pose proof (ready_trans rt U other S0 _ _ _ _ _ _ _ _ _ _ _ _ Hr Ht1 Hf1 Hn1) as Hr1.
  assert (room 7 fs1) as Hroom1 by (eapply (room_cost 1 7); [exact Hroom|apply Ht1]). pose proof (rd_we _ _ _ _ _ _ Hr1) as Hwe1.
  assert (Hend : forall l fs2 J2 T2 F2 e2, falls base 7 false fs1 J1 e1 T F fs2 J2 l (ef e1) T2 F2 -> ef e2 = ef e1 ->
    wpc (_ ← luaK_patchtohere (ef e2); mret (MkExp (ek e2) l NO_JUMP)) fs2 Q).
  { intros l fs2 J2 T2 F2 e2 Hfa Ee. rewrite Ee. pose proof (trans_falls _ _ _ _ _ _ _ _ _ _ _ _ _ _ _ _ _ _ _ _ Ht1 Hf1 Hfa) as Hfa'. apply wpc_bind.
    eapply (wpc_tohere base 8 false fs J e T F fs2 J2 l (ef e1) T2 F2); [exact Hfa'|by eapply falls_pc|]. intros fs' J' Hb. apply wpc_ret. by eapply HQ. }
  apply wpc_bind. assert (Hconst : simple (ek e1) -> (forall R, exists v, kval U fs1 (ek e1) R = Ok v /\ l_isfalse v = true) ->
    wpc (mret (NO_JUMP, e1)) fs1 (fun a fs2 => wpc (let '(j, e) := a in t ← luaK_concat (et e) j; _ ← luaK_patchtohere (ef e); mret (MkExp (ek e) t NO_JUMP)) fs2 Q)).
  { intros Hs Hv. apply wpc_ret, wpc_bind. unfold luaK_concat. rewrite Z.eqb_refl. apply wpc_ret. eapply Hend; [|done].
    eapply (falls_const base 7 false fs1 J1 e1 T F fs1 J1 e1 T F); [by apply trans_refl|done|done|done]. }
  assert (Hjump : jump_of (ek e1) = None ->
    wpc (jumponcond e1 true) fs1 (fun a fs2 => wpc (let '(j, e) := a in t ← luaK_concat (et e) j; _ ← luaK_patchtohere (ef e); mret (MkExp (ek e) t NO_JUMP)) fs2 Q)).
  { intros Hj. eapply (wpc_jumponcond base fs1 J1 e1 T F true); [done|done|done|by eapply room_le|]. intros j e0 fs2 Et Ef Hon. apply wpc_bind. rewrite Et.
    apply Hon. intros l fs3 Hfa. eapply Hend; [|exact Ef]. eapply falls_le; [exact Hfa|lia]. }
  pose proof (we_kind _ _ _ _ _ _ Hwe1) as Hk. destruct (ek e1) as [| | | |i|r|r| | | |j|p| |] eqn:Ek; try done; try (by apply Hjump).
  - apply Hconst; [done|]. intros R. by exists LNil.
  - apply Hconst; [done|]. intros R. by exists (LBool false).
  - apply wpc_ret, wpc_bind. assert (j - 1 ∉ T ++ F) as Hnt.
    { destruct Hk as (_ & _ & _ & _ & o & a & b & c & Hi & Hok & Ho & _). intros Hx. destruct (we_jumps _ _ _ _ _ _ Hwe1 _ Hx) as (o' & Hi2 & Hs2).
      pose proof (testmode_ABC _ _ _ _ _ _ Hi Hok) as E. rewrite (testmode_JMP _ _ _ Hi2 Hs2) in E. by destruct Ho as [->|[->| ->]]. }
    pose proof (wpc_join base fs1 J1 e1 T F j true (code fs1)) as Hjoin. replace (set_code (code fs1) fs1) with fs1 in Hjoin by (by destruct fs1).
    apply Hjoin; try done; [unfold room in Hroom1; lia|]. intros l fs2 Hfa. eapply Hend; [|done]. eapply falls_le; [exact Hfa|lia].
Qed.

End Conditions.
