(* ===== verification/LuaNot.v ===== *)
(** * Negation

    [codenot] turns the kind of a descriptor into its negation and swaps its two lists,
    whose tests no longer carry the value. *)

From S2P Require Import Prelude LuaStr LuaRef LuaTab LuaOp LuaNumber LuaCode LuaVm LuaJump LuaRun LuaEmit LuaDesc LuaPlace LuaReg LuaOperand LuaCond.

Section Negation.
Context `{LuaNumber} (rt : runtime) (U : list TValue) (other : Z -> Z -> regs -> res (Z * regs)) (S0 : Z * regs).
Abbreviation At := (At rt U other S0).
Abbreviation Dead := (Dead rt U other S0).
Abbreviation Here := (Here rt U other S0).
Abbreviation Main := (Main rt U other S0).
Abbreviation Out := (Out rt U other S0).
Abbreviation Exit := (Exit rt U other S0).
Abbreviation trans := (trans rt U other S0).
Abbreviation fires := (fires rt).

Definition notv (v : TValue) : TValue := LBool (l_isfalse v).

(** Code that changed at open tests only keeps the place of the value. *)
Lemma Main_carry base H0 fs J kk L fs' L' R rv :
  apart H0 fs (own fs J kk L) -> fr (own fs J kk L) fs (own fs' J kk L') fs' -> k fs' = k fs -> pc fs' = pc fs -> mergeable fs' = mergeable fs ->
  (forall x, testset_at (code fs) x = false -> x ∉ L -> instr_at (code fs') x = instr_at (code fs) x) ->
  (forall x, x ∈ J \/ x + 1 ∈ J -> instr_at (code fs') x = instr_at (code fs) x \/ (testmode_at (code fs) x = false /\ testmode_at (code fs') x = false)) ->
  kind_ok base fs J L kk -> (forall x, x ∈ L -> testmode_at (code fs) x = false /\ (forall i, instr_at (code fs) x = Some i -> isop i OP_JMP = true)) ->
  Main base H0 fs J kk L R rv -> Main base H0 fs' J kk L' R rv.
Proof.
  intros Ha Hfr Hk Hpc Hm Hs HJ Hkk HL HM. pose proof (fr_frame H0 _ _ _ _ (apart_disjoint _ _ _ Ha) Hfr) as Hfr'.
  destruct (kind_cases kk) as [Hsi|[[p ->]|[j ->]]].
  - apply Main_simple in HM as [HH ->]; [|done]. apply Main_simple; [done|]. split.
    2: { destruct kk; try done; cbn [kval]; by rewrite Hk. }
    assert (forall p R', At (fun x => (H0 x \/ pend (code fs) L x) \/ own0 fs J x) fs p R' -> At (fun x => (H0 x \/ pend (code fs') L' x) \/ own0 fs' J x) fs' p R') as Hmv.
    { intros p R' HA. eapply At_mono; [|eapply At_fr; [exact Hfr'|eapply At_mono; [|exact HA]]].
      - intros x [[Hx|Hx]|Hx]; [by left|by right; right; left|by right; left].
      - intros x [Hx|[Hx|[Hx|Hx]]]; [by left; left|by right|by left; right|by destruct kk]. }
    destruct HH as [[Hmm HA]|[(a & b & R' & Hmm & Hi & Hab & -> & HA)|(j & Hj & Hp)]].
    + left. rewrite Hm, Hpc. split; [done|by apply Hmv].
    + right. left. exists a, b, R'. rewrite Hm, Hpc. assert (abc_ok a b 0) as Hok by (unfold abc_ok; lia). rewrite Hs; [split_and!; try done; try lia; by apply Hmv| |].
      * unfold testset_at. by rewrite Hi, isop_ABC.
      * intros Hx. destruct (HL _ Hx) as [_ E]. specialize (E _ Hi). by rewrite isop_ABC in E.
    + right. right. exists j. split; [done|]. destruct Hp as [[Hf HA]|[Ht HA]]; [left|right].
      * split; [|by apply Hmv]. destruct Hf as (o & a & b & c & Hi & Hok & Ht & Hrest). exists o, a, b, c. rewrite Hk.
        destruct (HJ (j - 1)) as [->|[E _]]; [right; by replace (j - 1 + 1) with j by lia|done|]. rewrite (testmode_ABC _ _ _ _ _ _ Hi Hok) in E. congruence.
      * split; [|by apply Hmv]. destruct (HJ (j - 1)) as [E|[_ E]]; [right; by replace (j - 1 + 1) with j by lia| |done]. unfold testmode_at in *. by rewrite E.
  - destruct HM as (HA & o & b & c & Hi & Hok & -> & Hsame). split; [by eapply At_fr|]. exists o, b, c. rewrite Hk. split_and!; try done.
    destruct Hkk as (_ & _ & o2 & b2 & c2 & Hi2 & Hok2 & Hv & _). destruct (ABC_inj o 0 b c o2 0 b2 c2) as (<- & _); [done|done|congruence|]. rewrite Hs; [done| |].
    + unfold testset_at. rewrite Hi, isop_ABC by done. apply Z.eqb_neq. intros E%opcode_Z_inj. by subst o.
    + intros Hx. destruct (HL _ Hx) as [_ E]. specialize (E _ Hi). rewrite isop_ABC in E by done. apply Z.eqb_eq, opcode_Z_inj in E. by subst o.
  - destruct HM as (HA & o & a & b & c & Hi & Hok & ->). split; [by eapply At_fr|]. exists o, a, b, c. rewrite Hk. split_and!; try done.
    destruct Hkk as (_ & _ & _ & _ & o2 & a2 & b2 & c2 & Hi2 & Hok2 & Ho & _). destruct (ABC_inj o a b c o2 a2 b2 c2) as (<- & _); [done|done|congruence|]. rewrite Hs; [done| |].
    + unfold testset_at. rewrite Hi, isop_ABC by done. by destruct Ho as [->|[->| ->]].
    + intros Hx. destruct (HL _ Hx) as [_ E]. specialize (E _ Hi). rewrite isop_ABC in E by done. by destruct Ho as [->|[->| ->]].
Qed.

(** The tests of the lists carry no value any more. *)
Section Swap.
Context (base : Z) (fs : FuncState) (J : list Z) (e : expdesc) (T F : list Z) (c' : list Z).
Hypothesis Hwe : wfe base fs J e T F.
Hypothesis Hun : unvalued (code fs) c' (T ++ F).

Let fs' : FuncState := set_code c' fs.

Lemma sw_same x : testset_at (code fs) x = false -> instr_at c' x = instr_at (code fs) x.
Proof.
  intros Ht. destruct Hun as [_ Hu]. rewrite Hu. unfold testset_at in Ht. destruct (instr_at (code fs) x) as [i|]; [|done]. rewrite Ht. by rewrite andb_false_r.
Qed.

Lemma sw_same' x : x + 1 ∉ T ++ F -> instr_at c' x = instr_at (code fs) x.
Proof. intros Hx. destruct Hun as [_ Hu]. rewrite Hu. destruct (instr_at (code fs) x); [|done]. by rewrite bool_decide_eq_false_2. Qed.

Lemma sw_test x b c : x + 1 ∈ T ++ F -> instr_at (code fs) x = Some (ABC OP_TESTSET NO_REG b c) -> 0 <= b < 256 -> 0 <= c < 512 -> instr_at c' x = Some (ABC OP_TEST b 0 c).
Proof.
  intros Hx Hi Hb Hc. destruct Hun as [_ Hu]. assert (abc_ok NO_REG b c) as Hok by (unfold abc_ok; change NO_REG with 255; lia).
  rewrite Hu, Hi, bool_decide_eq_true_2, isop_ABC by done. cbn [opcode_Z andb]. rewrite Z.eqb_refl. rewrite patch_test_ABC by (done || lia). by rewrite decide_True by (by left).
Qed.

Lemma sw_cases j : j ∈ T ++ F -> exists o a b c, instr_at (code fs) (j - 1) = Some (ABC o a b c) /\ abc_ok a b c /\ is_test o = true /\ reads_ok (k fs) o b c /\
  (o = OP_TESTSET /\ a = NO_REG /\ b < 256 /\ instr_at c' (j - 1) = Some (ABC OP_TEST b 0 c) \/ o <> OP_TESTSET /\ instr_at c' (j - 1) = Some (ABC o a b c)).
Proof.
  intros Hj. destruct (we_cond _ _ _ _ _ _ Hwe j Hj) as (o & a & b & c & Hi & Hok & Ht & Hts & Hr). exists o, a, b, c. split_and!; try done.
  destruct (decide (o = OP_TESTSET)) as [->|Hne]; [left|right].
  - destruct (Hts eq_refl) as [-> Hb]. split_and!; try done. unfold abc_ok in Hok. apply sw_test; try done; try lia. by replace (j - 1 + 1) with j by lia.
  - split; [done|]. rewrite sw_same; [done|]. unfold testset_at. rewrite Hi, isop_ABC by done. apply Z.eqb_neq. by intros ?%opcode_Z_inj.
Qed.

Lemma sw_testset_not x : x + 1 ∈ T ++ F -> testset_at c' x = false.
Proof.
  intros Hx. destruct (sw_cases _ Hx) as (o & a & b & c & Hi & Hok & Ht & _ & Hc). replace (x + 1 - 1) with x in * by lia. unfold testset_at.
  destruct Hc as [(-> & -> & Hb & ->)|[Hne ->]]; rewrite isop_ABC; try done.
  - unfold abc_ok in *. lia.
  - apply Z.eqb_neq. by intros ?%opcode_Z_inj.
Qed.

Lemma sw_pend x : pend c' (F ++ T) x <-> x ∈ T ++ F.
Proof.
  unfold pend. split; [|intros Hx; left; set_solver]. intros [Hx|[Hx Ht]]; [set_solver|]. rewrite sw_testset_not in Ht; [done|set_solver].
Qed.

Lemma sw_jump x : x ∈ T ++ F -> instr_at c' x = instr_at (code fs) x.
Proof. intros Hx. apply sw_same. destruct (we_jumps _ _ _ _ _ _ Hwe x Hx) as (o & Hi & Hs). by apply (testset_JMP _ _ o). Qed.

Lemma sw_J x : x ∈ J \/ x + 1 ∈ J -> instr_at c' x = instr_at (code fs) x.
Proof.
  intros [Hx|Hx].
  - apply sw_same. destruct (chain_jump _ _ _ _ (wf_jpc _ _ (we_wf _ _ _ _ _ _ Hwe)) Hx) as (o & Hi & Hs). by apply (testset_JMP _ _ o).
  - apply sw_same'. intros Hy. by apply (we_disjoint _ _ _ _ _ _ Hwe (x + 1)).
Qed.

Lemma sw_pc : pc fs' = pc fs.
Proof. destruct Hun as [Hl _]. exact Hl. Qed.

Lemma sw_last : instr_at c' (pc fs - 1) = instr_at (code fs) (pc fs - 1).
Proof. apply sw_same'. intros Hx%(we_below _ _ _ _ _ _ Hwe). lia. Qed.

Lemma sw_mergeable : mergeable fs' = mergeable fs.
Proof. unfold mergeable. rewrite sw_pc. cbn [code set_code fs' lasttarget]. by rewrite sw_last. Qed.

Lemma sw_testset_J x : x + 1 ∈ J -> testset_at c' x = testset_at (code fs) x.
Proof. intros Hx. unfold testset_at. by rewrite sw_J by (by right). Qed.

Lemma sw_own x : own fs' J (ek e) (F ++ T) x -> own0 fs J x \/ x ∈ T ++ F \/ own_kind (ek e) x.
Proof.
  intros [[[Hx|[Hx Ht]]|[Hx Hm]]|[Hx|Hx]].
  - left. left. by left.
  - left. left. right. split; [done|]. cbn [code set_code fs'] in Ht. by rewrite sw_testset_J in Ht.
  - left. right. rewrite sw_pc in Hx. rewrite sw_mergeable in Hm. done.
  - right. left. by apply sw_pend.
  - by right; right.
Qed.

Lemma sw_kind : kind_ok base fs' J (F ++ T) (ek e).
Proof.
  pose proof (we_kind _ _ _ _ _ _ Hwe) as Hk. assert (forall x, x = pc fs - 1 -> instr_at c' x = instr_at (code fs) x) as Hl by (intros x ->; exact sw_last).
  destruct (ek e) as [| | | | | | | | | |j|p| |]; try done.
  - destruct Hk as (Ej & HJ & Hi & Hn & o & a & b & c & Hi1 & Hok & Ho & Hrest). split_and!; [by rewrite sw_pc|done|cbn [code set_code fs']; by rewrite Hl|set_solver|].
    exists o, a, b, c. split_and!; try done; try apply Hrest. cbn [code set_code fs']. rewrite sw_same; [done|]. unfold testset_at. rewrite Hi1, isop_ABC by done. by destruct Ho as [->|[->| ->]].
  - destruct Hk as (Ep & HJ & o & b & c & Hi & Hrest). split_and!; [by rewrite sw_pc|done|]. exists o, b, c. split; [cbn [code set_code fs']; by rewrite Hl|done].
Qed.

Lemma sw_wfe : wfe base fs' J (MkExp (ek e) (ef e) (et e)) F T.
Proof.
  pose proof sw_pc as Epc. pose proof sw_mergeable as Em. pose proof sw_last as El. pose proof sw_kind as Hk'. pose proof Hwe as [[] HT HF Hc Hnd Hk Hb]. split; try done.
  - split; try done.
    + eapply chain_ext; [|done]. intros j Hj. apply sw_J. by left.
    + intros j Hj. assert (instr_at c' (j - 1) = instr_at (code fs) (j - 1)) as E by (apply sw_J; right; by replace (j - 1 + 1) with j by lia).
      destruct (wf_cond j Hj) as [(o & a & b & c & Hrest)|Hn]; [left; exists o, a, b, c; cbn [code set_code fs' k]; by rewrite E|right].
      unfold testmode_at in *. cbn [code set_code fs']. by rewrite E.
    + by rewrite Epc.
    + by rewrite Epc.
    + rewrite Em, Epc. cbn [code set_code fs']. by rewrite El.
  - eapply chain_ext; [|exact HF]. intros x Hx. apply sw_jump. set_solver.
  - eapply chain_ext; [|exact HT]. intros x Hx. apply sw_jump. set_solver.
  - intros j Hj. assert (j ∈ T ++ F) as Hj' by set_solver. destruct (sw_cases j Hj') as (o & a & b & c & Hi & Hok & Ht & Hr & Hcase).
    destruct Hcase as [(-> & -> & Hb2 & Hi')|[Hne Hi']].
    + exists OP_TEST, b, 0, c. unfold abc_ok in *. split_and!; try done; try lia.
    + exists o, a, b, c. split_and!; try done.
  - by rewrite (Permutation_app_comm F T).
Qed.

Lemma sw_fr : fr (own fs J (ek e) (T ++ F)) fs (own fs' J (ek e) (F ++ T)) fs'.
Proof.
  split_and!; [done|rewrite sw_pc; lia|]. intros x Hx. split.
  - intros Hno. split.
    + cbn [code set_code fs']. destruct (testset_at (code fs) x) eqn:Et; [|by apply sw_same]. apply sw_same'. intros Hy. apply Hno. right. left. by right.
    + intros [Hy|[Hy|Hy]]%sw_own; apply Hno; [by left|right; left; by left|by right; right].
  - intros i Hi (b & c & -> & Hb & Hc). destruct (decide (x + 1 ∈ T ++ F)) as [Hx1|Hx1].
    + exists (ABC OP_TEST b 0 c). split_and!; [by apply sw_test| |].
      * exists b, c. split_and!; try done; try lia.
      * right. assert (abc_ok NO_REG b c) as Hok by (unfold abc_ok; change NO_REG with 255; lia). intros [Hy|[Hy|Hy]]%sw_own.
        -- destruct (we_lists _ _ _ _ _ _ Hwe x) as [_ Hn]; [|done]. right. split; [done|]. unfold testset_at. by rewrite Hi, isop_ABC.
        -- destruct (we_jumps _ _ _ _ _ _ Hwe x Hy) as (o & Hi' & Hs). assert (testset_at (code fs) x = true) as Ht by (unfold testset_at; by rewrite Hi, isop_ABC).
           by rewrite (testset_JMP _ _ _ Hi' Hs) in Ht.
        -- pose proof (we_kind _ _ _ _ _ _ Hwe) as Hk. pose proof (we_below _ _ _ _ _ _ Hwe _ Hx1) as Hlt. destruct (ek e) as [| | | | | | | | | |j|p| |]; try done; cbn in Hy.
           ++ destruct Hk as (Ej & _ & _ & Hn & _). destruct Hy as [->| ->]; [lia|]. by replace (j - 1 + 1) with j in Hx1 by lia.
           ++ destruct Hk as (Ep & _). lia.
    + exists (ABC OP_TESTSET NO_REG b c). split_and!; [cbn [code set_code fs']; by rewrite sw_same'|apply becomes_refl; by exists b, c|by left].
Qed.

(** What the lists promise is negated. *)
Lemma sw_out H0 R rv :
  apart H0 fs (own fs J (ek e) (T ++ F)) ->
  (exists er, rv = Err er /\ Dead (fun x => H0 x \/ own fs J (ek e) (T ++ F) x) fs er) \/
  (exists R1, same base R R1 /\ Main base H0 fs J (ek e) (T ++ F) R1 (notv <$> rv)) \/
  (exists R1 t j v, same base R R1 /\ rv = Ok v /\ j ∈ (if (t : bool) then T else F) /\ Exit H0 fs (own fs J (ek e) (T ++ F)) j R1 t v) ->
  Out base H0 fs' J (ek e) F T R (notv <$> rv).
Proof.
  intros Ha. pose proof (fr_frame H0 _ _ _ _ (apart_disjoint _ _ _ Ha) sw_fr) as Hfr.
  intros [(er & -> & HD)|[(R1 & Hs & Hm)|(R1 & t & j & v & Hs & -> & Hj & Hl & HA)]].
  - left. exists er. split; [done|]. by eapply Dead_fr.
  - right. left. exists R1. split; [done|]. eapply (Main_carry base H0 fs J (ek e) (T ++ F)); [exact Ha|exact sw_fr|done|exact sw_pc|exact sw_mergeable| | |apply Hwe| |exact Hm].
    + intros x Ht _. by apply sw_same.
    + intros x Hx. left. by apply sw_J.
    + intros x Hx. destruct (we_jumps _ _ _ _ _ _ Hwe x Hx) as (o & Hi & Hso). split; [by apply (testmode_JMP _ _ o)|]. intros i Hi'. assert (i = JMP 0 o) as -> by congruence.
      unfold isop. by destruct (JMP_fields 0 o) as (-> & _); [lia|done|].
  - right. right. exists R1, (negb t), j, (notv v). destruct Hl as ((o & a & b & c & Hi & Hok & Ht & Hts & Hr & Hrun) & Hf & _).
    split_and!; [done|done|by destruct t|]. split; [|by eapply At_fr].
    assert (j ∈ T ++ F) as HjL by (destruct t; set_solver). destruct (sw_cases j HjL) as (o2 & a2 & b2 & c2 & Hi2 & Hok2 & _ & _ & Hcase).
    destruct (ABC_inj o2 a2 b2 c2 o a b c) as (-> & -> & -> & ->); [done|done|congruence|]. split_and!.
    + destruct Hcase as [(-> & -> & Hb & Hi')|[Hne Hi']].
      * exists OP_TEST, b, 0, c. unfold abc_ok in *. cbn [code set_code fs' k]. split_and!; try done; try lia.
      * exists o, a, b, c. cbn [code set_code fs' k]. split_and!; try done.
    + unfold notv. rewrite Hf. by destruct t.
    + intros o3 a3 b3 c3 Hi3 Hok3. cbn [code set_code fs'] in Hi3. unfold notv. rewrite Hf. rewrite decide_False; [done|]. intros ->.
      assert (testset_at c' (j - 1) = false) as E by (apply sw_testset_not; by replace (j - 1 + 1) with j by lia). unfold testset_at in E. by rewrite Hi3, isop_ABC in E.
Qed.
End Swap.
(** ** The kind *)

(** The kind promises the negation, the lists what they did. *)
Record half (base n : Z) (fs : FuncState) (J : list Z) (e : expdesc) (T F : list Z) (fs' : FuncState) (J' : list Z) (e' : expdesc) : Prop := {
  hf_we : wfe base fs' J' e' T F;
  hf_fr : fr (own fs J (ek e) (T ++ F)) fs (own fs' J' (ek e') (T ++ F)) fs';
  hf_nact : nactvar fs' = nactvar fs;
  hf_free : freereg fs' = freereg fs;
  hf_cost : cost n fs fs';
  hf_out H0 R rv : apart H0 fs (own fs J (ek e) (T ++ F)) -> Out base H0 fs J (ek e) T F R rv ->
    (exists er, rv = Err er /\ Dead (fun x => H0 x \/ own fs' J' (ek e') (T ++ F) x) fs' er) \/
    (exists R1, same base R R1 /\ Main base H0 fs' J' (ek e') (T ++ F) R1 (notv <$> rv)) \/
    (exists R1 t j v, same base R R1 /\ rv = Ok v /\ j ∈ (if (t : bool) then T else F) /\ Exit H0 fs' (own fs' J' (ek e') (T ++ F)) j R1 t v);
}.

Lemma half_intro base n fs J e T F fs' J' e' :
  wfe base fs' J' e' T F -> fr (own fs J (ek e) (T ++ F)) fs (own fs' J' (ek e') (T ++ F)) fs' -> nactvar fs' = nactvar fs -> freereg fs' = freereg fs -> cost n fs fs' ->
  (forall j, j ∈ T ++ F -> instr_at (code fs') (j - 1) = instr_at (code fs) (j - 1)) ->
  (forall H0 R rv, apart H0 fs (own fs J (ek e) (T ++ F)) -> Main base H0 fs J (ek e) (T ++ F) R rv -> Main base H0 fs' J' (ek e') (T ++ F) R (notv <$> rv)) ->
  half base n fs J e T F fs' J' e'.
Proof.
  intros W Hfr Hn Hf Hc Hi HM. split; try done. intros H0 R rv Ha. pose proof (fr_frame H0 _ _ _ _ (apart_disjoint _ _ _ Ha) Hfr) as Hfr'.
  intros [(er & -> & HD)|[(R1 & Hs & Hm)|(R1 & t & j & v & Hs & -> & Hj & Hl & HA)]].
  - left. exists er. split; [done|]. by eapply Dead_fr.
  - right. left. exists R1. split; [done|]. by apply HM.
  - right. right. exists R1, t, j, v. split_and!; try done. split; [|by eapply At_fr]. eapply leaves_ext; [|apply Hfr|exact Hl]. apply Hi. destruct t; set_solver.
Qed.

Lemma trans_half base n m fs J e T F fs1 J1 e1 fs' J' e' :
  trans base n fs J e T F fs1 J1 e1 T F -> freereg fs1 = freereg fs -> half base m fs1 J1 e1 T F fs' J' e' -> half base (n + m) fs J e T F fs' J' e'.
Proof.
  intros [W1 Fr1 N1 C1 O1] Hf [W2 Fr2 N2 Hf2 C2 O2]. split; [done|by eapply fr_trans|congruence|congruence|by eapply cost_trans|].
  intros H0 R rv Ha HO. apply (O2 H0 R rv); [by eapply apart_fr|]. by apply (O1 H0 R rv).
Qed.

Lemma half_le base n m fs J e T F fs' J' e' : half base n fs J e T F fs' J' e' -> n <= m -> half base m fs J e T F fs' J' e'.
Proof. intros [W1 Fr1 N1 Hf C1 O1] Hle. split; try done. by eapply cost_le. Qed.

Lemma half_const base fs J e T F kk :
  wfe base fs J e T F -> simple (ek e) -> simple kk -> kind_ok base fs J (T ++ F) kk ->
  (forall R, notv <$> kval U fs (ek e) R = kval U fs kk R) -> half base 0 fs J e T F fs J (with_kind e kk).
Proof.
  intros Hwe Hs Hs' Hk Hv. assert (forall x, own fs J kk (T ++ F) x <-> own fs J (ek e) (T ++ F) x) as Ho.
  { intros x. unfold own. destruct kk; try done; destruct (ek e); done. }
  apply half_intro; try done.
  - by destruct Hwe.
  - eapply fr_weaken; [apply (fr_refl (own fs J (ek e) (T ++ F)))|done|]. intros x _ Hx%Ho. by left.
  - by apply cost_refl.
  - intros H0 R rv Ha HM. apply Main_simple in HM as [HH ->]; [|done]. by apply Main_simple.
Qed.

Lemma run_test_flip K o a b c R :
  o = OP_EQ \/ o = OP_LT \/ o = OP_LE -> a = 0 \/ a = 1 -> LBool <$> run_test rt K o (1 - a) b c R = notv <$> (LBool <$> run_test rt K o a b c R).
Proof.
  intros Ho Ha. assert (forall r, (b2z r =? 1 - a) = negb (b2z r =? a)) as Hb by (intros []; by destruct Ha as [->| ->]).
  assert (forall a, run_test rt K o a b c R = (x ← RK K R b; y ← RK K R c; r ← compare rt o x y; Ok (b2z r =? a))) as -> by (by destruct Ho as [->|[->| ->]]).
  assert (forall a, run_test rt K o a b c R = (x ← RK K R b; y ← RK K R c; r ← compare rt o x y; Ok (b2z r =? a))) as -> by (by destruct Ho as [->|[->| ->]]).
  destruct (RK K R b) as [x|]; [|done]. destruct (RK K R c) as [y|]; [|done]. cbn. destruct (compare rt o x y) as [r|]; [|done]. cbn. by rewrite Hb; destruct (b2z r =? a).
Qed.

Lemma half_jump base fs J e T F j o a b c :
  wfe base fs J e T F -> ek e = VJMP j -> instr_at (code fs) (j - 1) = Some (ABC o a b c) -> abc_ok a b c -> a = 0 \/ a = 1 -> j - 1 ∉ T ++ F ->
  half base 0 fs J e T F (set_code (upd (code fs) (j - 1) (ABC o (1 - a) b c)) fs) [] e.
Proof.
  intros Hwe Ek Hi Hok Ha Hnt. pose proof (we_kind _ _ _ _ _ _ Hwe) as Hk. rewrite Ek in Hk.
  destruct Hk as (Ej & -> & Hij & Hn & o2 & a2 & b2 & c2 & Hi2 & Hok2 & Ho & _ & Hrd). destruct (ABC_inj o2 a2 b2 c2 o a b c) as (-> & -> & -> & ->); [done|done|congruence|].
  pose proof (instr_at_range _ _ _ Hi) as Hr. change (len (code fs)) with (pc fs) in Hr. assert (abc_ok (1 - a) b c) as Hok' by (unfold abc_ok in *; lia).
  assert (e = with_kind e (VJMP j)) as Ee by (destruct e; cbn in *; by subst). set (i := ABC o (1 - a) b c).
  assert (instr_at (upd (code fs) (j - 1) i) (j - 1) = Some i) as Hnew by (by rewrite instr_at_upd, decide_True).
  assert (instr_at (upd (code fs) (j - 1) i) j = Some (JMP 0 NO_JUMP)) as Hnew' by (rewrite instr_at_upd, decide_False; [done|lia|done]).
  assert (pc (set_code (upd (code fs) (j - 1) i) fs) = pc fs) as Epc by apply (len_upd (code fs)).
  destruct (we_upd base fs e T F (j - 1) i (VJMP j)) as (W & Hfr & _ & Hj); try done.
  - by replace (j - 1 + 1) with j by lia.
  - unfold testset_at. rewrite Hi, isop_ABC by done. by destruct Ho as [->|[->| ->]].
  - rewrite Ek. right. right. by right.
  - cbv zeta. unfold mergeable. cbn [code set_code]. rewrite Epc. rewrite <- Ej, Hnew'.
    unfold isop. destruct (JMP_fields 0 NO_JUMP) as (-> & _); [lia|done|]. by rewrite andb_false_r.
  - intros y Hy. rewrite Ek. by right; right.
  - split_and!; [by rewrite Epc|done|exact Hnew'|done|]. exists o, (1 - a), b, c. split_and!; try done. lia.
  - rewrite <- Ee in W. apply half_intro; try done.
    + by rewrite Ek in *.
    + unfold cost, nk. cbn [k set_code]. rewrite Epc. lia.
    + intros H0 R rv Hap HM. rewrite Ek in *. destruct HM as (HA & o3 & a3 & b3 & c3 & Hi3 & Hok3 & ->).
      destruct (ABC_inj o3 a3 b3 c3 o a b c) as (-> & -> & -> & ->); [done|done|congruence|]. split; [eapply At_fr; [exact (fr_frame H0 _ _ _ _ (apart_disjoint _ _ _ Hap) Hfr)|exact HA]|].
      exists o, (1 - a), b, c. split_and!; [exact Hnew|done|]. by rewrite run_test_flip.
Qed.
(** [not] of a value in a register. *)
Lemma half_not base fs J e T F r fs' :
  wfe base fs J e T F -> ek e = VNONRELOC r -> 0 <= r < 256 -> emitted fs J (ABC OP_NOT 0 r 0) fs' -> room 1 fs ->
  half base 1 fs J e T F fs' [] (with_kind e (VRELOCABLE (pc fs))).
Proof.
  intros Hwe Ek Hr Hem Hroom. destruct (emit_value rt U other S0 base fs J e T F OP_NOT r 0 fs') as (W & Hfr & Hj & Hc & HM); try done.
  - by rewrite Ek.
  - unfold abc_ok. lia.
  - intros _. lia.
  - intros R v R' [= _ <-]. apply same_refl.
  - apply half_intro; try done; [apply Hem|apply Hem|]. intros H0 R rv Ha Hm. specialize (HM H0 R rv Ha Hm). rewrite Ek in Hm. destruct Hm as [_ ->]. exact HM.
Qed.

(** ** The lists *)

Record negates (base n : Z) (fs : FuncState) (J : list Z) (e : expdesc) (T F : list Z) (fs' : FuncState) (J' : list Z) (e' : expdesc) : Prop := {
  ng_we : wfe base fs' J' e' F T;
  ng_fr : fr (own fs J (ek e) (T ++ F)) fs (own fs' J' (ek e') (F ++ T)) fs';
  ng_nact : nactvar fs' = nactvar fs;
  ng_free : freereg fs' = freereg fs;
  ng_cost : cost n fs fs';
  ng_out H0 R rv : apart H0 fs (own fs J (ek e) (T ++ F)) -> Out base H0 fs J (ek e) T F R rv -> Out base H0 fs' J' (ek e') F T R (notv <$> rv);
}.

Lemma unvalued_app c c1 c2 js js' : (forall j, j ∈ js -> j ∉ js') -> unvalued c c1 js -> unvalued c1 c2 js' -> unvalued c c2 (js' ++ js).
Proof.
  intros Hd [L1 H1] [L2 H2]. split; [congruence|]. intros x. rewrite H2, H1. destruct (instr_at c x) as [i|]; [|done]. f_equal.
  destruct (isop i OP_TESTSET) eqn:Ei; [|by rewrite !andb_false_r, Ei, andb_false_r]. destruct (decide (x + 1 ∈ js)) as [Hx|Hx].
  - rewrite !(bool_decide_eq_true_2 (x + 1 ∈ js)), (bool_decide_eq_false_2 (x + 1 ∈ js')), (bool_decide_eq_true_2 (x + 1 ∈ js' ++ js)) by set_solver. done.
  - rewrite !(bool_decide_eq_false_2 (x + 1 ∈ js)) by done. cbn [andb]. rewrite Ei. replace (bool_decide (x + 1 ∈ js' ++ js)) with (bool_decide (x + 1 ∈ js')); [done|].
    apply bool_decide_ext. set_solver.
Qed.

Lemma unvalued_perm c c' js js' : (forall j, j ∈ js <-> j ∈ js') -> unvalued c c' js -> unvalued c c' js'.
Proof. intros Hp [Hl Hu]. split; [done|]. intros x. rewrite Hu. destruct (instr_at c x) as [i|]; [|done]. by rewrite (bool_decide_ext _ _ (Hp (x + 1))). Qed.

Lemma half_swap base n fs J e T F fs1 J1 e1 c' :
  half base n fs J e T F fs1 J1 e1 -> unvalued (code fs1) c' (T ++ F) -> negates base n fs J e T F (set_code c' fs1) J1 (MkExp (ek e1) (ef e1) (et e1)).
Proof.
  intros [W Hfr Hn Hf [C1 C2] HO] Hun. pose proof (sw_pc fs1 T F c' Hun) as Epc. pose proof (sw_fr base fs1 J1 e1 T F c' W Hun) as Hfr2. split; try done.
  - by eapply sw_wfe.
  - by eapply fr_trans.
  - split; [by rewrite Epc|exact C2].
  - intros H0 R rv Ha Ho. eapply (sw_out base fs1 J1 e1 T F c' W Hun); [by eapply apart_fr|]. by apply HO.
Qed.

Lemma wpc_swap base n fs J e T F fs1 J1 e1 (Q : expdesc -> FuncState -> Prop) :
  half base n fs J e T F fs1 J1 e1 -> (forall fs' J' e', negates base n fs J e T F fs' J' e' -> ek e' = ek e1 -> k fs' = k fs1 -> Q e' fs') ->
  wpc (let e := MkExp (ek e1) (ef e1) (et e1) in fuel ← jumps_fuel; _ ← removevalues fuel (ef e); _ ← removevalues fuel (et e); mret e) fs1 Q.
Proof.
  intros Hh HQ. pose proof (hf_we _ _ _ _ _ _ _ _ _ _ Hh) as W. pose proof (we_nodup _ _ _ _ _ _ W) as Hnd. apply NoDup_app in Hnd as (Hnd & _ & _).
  apply NoDup_app in Hnd as (HnT & Hd & HnF). apply wpc_bind, wpc_getfs. apply wpc_bind. cbn [ef et].
  pose proof (chain_length _ _ _ (we_T _ _ _ _ _ _ W) HnT) as HlT. pose proof (chain_length _ _ _ (we_F _ _ _ _ _ _ W) HnF) as HlF.
  eapply wpc_removevalues; [apply (we_T _ _ _ _ _ _ W)|done|lia|]. intros c1 H1. apply wpc_bind. eapply wpc_removevalues; [|exact HnF|lia|].
  { eapply chain_ext; [|apply (we_F _ _ _ _ _ _ W)]. intros x Hx. destruct (we_jumps _ _ _ _ _ _ W x) as (o & Hi & Hs); [set_solver|]. cbn [code set_code].
    destruct H1 as [_ ->]. rewrite Hi. f_equal. unfold isop. destruct (JMP_fields 0 o) as (-> & _); [lia|done|]. by rewrite andb_false_r. }
  intros c2 H2. apply wpc_ret. change (set_code c2 (set_code c1 fs1)) with (set_code c2 fs1). eapply HQ; [|done|done]. eapply half_swap; [exact Hh|].
  eapply unvalued_perm; [|eapply unvalued_app; [exact Hd|exact H1|exact H2]]. intros j. rewrite !elem_of_app. tauto.
Qed.
(** [codenot]: the value is negated. *)
Lemma wpc_codenot base fs J e T F (Q : expdesc -> FuncState -> Prop) :
  ready base fs J e T F -> const_ok fs (ek e) -> room 6 fs ->
  (forall fs' J' e', negates base 6 fs J e T F fs' J' e' -> nontemp fs' (ek e') -> const_ok fs' (ek e') -> Q e' fs') -> wpc (codenot e) fs Q.
Proof.
  intros Hr Hcst Hroom HQ. unfold codenot. apply wpc_bind. eapply (wpc_dischargevars rt U other S0 base fs J e T F); [apply Hr|by eapply room_le|].
  intros e1 fs1 J1 Ht1 Hd Hf1 Hn1 _ _ Hid. specialize (Hn1 (rd_nontemp _ _ _ _ _ _ Hr)). pose proof (ready_trans rt U other S0 _ _ _ _ _ _ _ _ _ _ _ _ Hr Ht1 Hf1 Hn1) as Hr1.
  assert (room 5 fs1) as Hroom1 by (eapply (room_cost 1 5); [exact Hroom|apply Ht1]). pose proof (rd_we _ _ _ _ _ _ Hr1) as Hwe1.
  set (tail := fun e : expdesc => let e := MkExp (ek e) (ef e) (et e) in fuel ← jumps_fuel; _ ← removevalues fuel (ef e); _ ← removevalues fuel (et e); mret e).
  assert (Hend : forall fs2 J2 e2, half base 5 fs1 J1 e1 T F fs2 J2 e2 -> simple (ek e2) /\ discharged (ek e2) /\ nontemp fs2 (ek e2) /\ const_ok fs2 (ek e2) \/ ~ simple (ek e2) -> wpc (tail e2) fs2 Q).
  { intros fs2 J2 e2 Hh Hk. eapply (wpc_swap base 6 fs J e T F fs2 J2 e2); [exact (trans_half base 1 5 _ _ _ _ _ _ _ _ _ _ _ Ht1 Hf1 Hh)|].
    intros fs' J' e' Hng Ek' Hkk. apply (HQ fs' J' e' Hng).
    - rewrite Ek'. destruct Hk as [(_ & _ & Hnt & _)|Hk]; [|by destruct (ek e2)]. destruct (ek e2); try done. cbn in *.
      rewrite (ng_nact _ _ _ _ _ _ _ _ _ _ Hng). rewrite (hf_nact _ _ _ _ _ _ _ _ _ _ Hh), (tr_nact _ _ _ _ _ _ _ _ _ _ _ _ _ _ _ _ Ht1) in Hnt. done.
    - rewrite Ek'. destruct Hk as [(_ & _ & _ & Hc)|Hk]; [|by destruct (ek e2)]. unfold const_ok. by rewrite Hkk. }
  assert (Hcon : forall kk, simple (ek e1) -> kk = VTRUE \/ kk = VFALSE -> (forall R, notv <$> kval U fs1 (ek e1) R = kval U fs1 kk R) ->
    wpc (mret (with_kind e1 kk)) fs1 (fun e2 fs2 => wpc (tail e2) fs2 Q)).
  { intros kk Hs Hkk Hv. apply wpc_ret. eapply (Hend fs1 J1); [eapply half_le; [apply (half_const base fs1 J1 e1 T F kk); try done; by destruct Hkk as [->| ->]|lia]|].
    left. by destruct Hkk as [->| ->]. }
  assert (Hnot : jump_of (ek e1) = None -> wpc (e ← discharge2anyreg e1; _ ← freeexp e; p ← luaK_codeABC OP_NOT 0 (info e) 0; mret (with_kind e (VRELOCABLE p))) fs1 (fun e2 fs2 => wpc (tail e2) fs2 Q)).
  { intros Hj. eapply (wpc_released rt U other S0 base fs1 J1 e1 T F); [done|done|done|by eapply room_le|]. intros e2 fs2 J2 r Ht Ek Hrr Hf _ _. unfold info. rewrite Ek.
    assert (room 1 fs2) as Hroom2 by (eapply (room_cost 4 1); [exact Hroom1|apply Ht]). apply wpc_bind. eapply wpc_code; [apply Ht|unfold room in Hroom2; lia|]. intros fs3 Hem. apply wpc_ret.
    eapply (Hend fs3 []); [|right; by intros []]. eapply (trans_half base 4 1); [exact Ht|done|]. eapply half_not; [apply Ht|done|done|exact Hem|done]. }
  apply wpc_bind. pose proof (we_kind _ _ _ _ _ _ Hwe1) as Hk. destruct (ek e1) as [| | | |i|r|r| | | |j|p| |] eqn:Ek; try done; try (by apply Hnot); try (by apply Hcon; [done|auto|]).
  - apply Hcon; [done|auto|]. intros R. destruct Hid as [(_ & -> & ->)|[_ []]]. rewrite Ek in Hcst. destruct Hcst as (v & Hv & Hl). cbn. rewrite Hv. cbn. unfold notv. by rewrite Hl.
  - apply wpc_bind. eapply (wpc_invertjump base fs1 J1 e1 T F j); [exact Hwe1|done|]. intros o a b c Hi Hok Ha _ Hnt. apply wpc_ret.
    eapply (Hend _ []); [eapply half_le; [by apply half_jump|lia]|]. right. rewrite Ek. by intros [].
Qed.
End Negation.
