(* ===== verification/LuaConcat.v ===== *)
(** * Concatenation of a run of registers

    [luaV_concat] joins as many strings at a time as it can; [concat_all] joins two values
    at a time, from the right.  They agree, with the errors. *)

From S2P Require Import Prelude LuaStr LuaRef LuaTab LuaOp LuaNumber LuaCode LuaVm LuaJump LuaRun LuaDesc.

Section Concat.
Context `{LuaNumber} (rt : runtime) (U : list TValue).

Definition empty_string (v : TValue) : bool := match v with LString s => slen s =? 0 | _ => false end.

(** [a .. b]. *)
Definition concat2 (a b : TValue) : res TValue :=
  match tostring rt a, tostring rt b with
  | Some sa, Some sb =>
      if negb ((slen sb =? 0) || empty_string a) && (slen sa + slen sb >=? MAX_SIZET) then Err LuaError else Ok (LString (sa ++ sb))
  | _, _ => match call_binTM rt TM_CONCAT a b with Some r => r | None => Err LuaError end
  end.

(** [ys] are the values below [acc], the nearest first. *)
Fixpoint concat_all (acc : TValue) (ys : list TValue) : res TValue :=
  match ys with
  | [] => Ok acc
  | y :: ys => v ← concat2 y acc; concat_all v ys
  end.

Lemma concat_all_last acc ys z : concat_all acc (ys ++ [z]) = (v ← concat_all acc ys; concat2 z v).
Proof.
  revert acc. induction ys as [|y ys IH]; intros acc; cbn [concat_all app]; [|destruct (concat2 y acc) as [v|e]; [apply IH|done]].
  cbn. by destruct (concat2 z acc).
Qed.

Fixpoint below (R : regs) (t : Z) (n : nat) : list TValue :=
  match n with O => [] | S n => R (t - 1) :: below R (t - 1) n end.

Lemma below_same R R' t n : (forall x, x < t -> R' x = R x) -> below R' t n = below R t n.
Proof. revert t. induction n as [|n IH]; intros t Hs; [done|]. cbn [below]. rewrite Hs by lia. f_equal. apply IH. intros x Hx. apply Hs. lia. Qed.

Lemma below_last R t n : below R t (S n) = below R t n ++ [R (t - 1 - Z.of_nat n)].
Proof.
  revert t. induction n as [|n IH]; intros t; [cbn; do 2 f_equal; lia|]. change (below R t (S (S n))) with (R (t - 1) :: below R (t - 1) (S n)).
  rewrite IH. cbn [below app]. do 3 f_equal. f_equal. lia.
Qed.

Lemma below_S R t n : 0 < n -> below R t (Z.to_nat n) = R (t - 1) :: below R (t - 1) (Z.to_nat (n - 1)).
Proof. intros Hn. by replace (Z.to_nat n) with (S (Z.to_nat (n - 1))) by lia. Qed.

Lemma string_len_app (s t : bytes) : slen (s ++ t) = slen s + slen t.
Proof. unfold slen. rewrite length_app. lia. Qed.

Lemma string_len_nonneg (s : bytes) : 0 <= slen s.
Proof. unfold slen. lia. Qed.

Lemma string_len_zero (s : bytes) : slen s = 0 -> s = [].
Proof. unfold slen. destruct s; [done|]. cbn [length]. lia. Qed.

(** ** One turn *)

Definition all (R : regs) (top total : Z) : res TValue := concat_all (R (top - 1)) (below R (top - 1) (Z.to_nat (total - 1))).

Lemma collect_all fuel R top total i acc :
  1 <= i <= total -> total - i < Z.of_nat fuel -> 0 < slen acc < MAX_SIZET ->
  match collect rt fuel R top total i acc with
  | Ok (n, s, R') => i <= n <= total /\ (forall x, x < top - n -> R' x = R x) /\
      concat_all (LString acc) (below R (top - i) (Z.to_nat (total - i))) = concat_all (LString s) (below R (top - n) (Z.to_nat (total - n)))
  | Err e => concat_all (LString acc) (below R (top - i) (Z.to_nat (total - i))) = Err e
  end.
Proof.
  revert R i acc. induction fuel as [|fuel IH]; intros R i acc Hi Hf Hacc; [lia|]. cbn [collect]. destruct (Z.ltb_spec i total); [|split_and!; try done; lia].
  destruct (tostring rt (R (top - i - 1))) as [s|] eqn:Es; [|split_and!; try done; lia]. rewrite (below_S R (top - i)) by lia. cbn [concat_all].
  pose proof (string_len_nonneg s) as Hs.
  assert (concat2 (R (top - i - 1)) (LString acc) = if slen s >=? MAX_SIZET - slen acc then Err LuaError else Ok (LString (s ++ acc))) as ->.
  { unfold concat2. rewrite Es. cbn [tostring]. rewrite (proj2 (Z.eqb_neq (slen acc) 0)) by lia. cbn [orb]. rewrite !Z.geb_leb. destruct (empty_string _) eqn:Ee; cbn [negb andb].
    - unfold empty_string in Ee. destruct (R (top - i - 1)); try done. injection Es as ->. apply Z.eqb_eq in Ee. destruct (Z.leb_spec (MAX_SIZET - slen acc) (slen s)); [lia|done].
    - destruct (Z.leb_spec MAX_SIZET (slen s + slen acc)), (Z.leb_spec (MAX_SIZET - slen acc) (slen s)); try lia; done. }
  rewrite Z.geb_leb. destruct (Z.leb_spec (MAX_SIZET - slen acc) (slen s)); [done|]. cbn. specialize (IH (setreg R (top - i - 1) (LString s)) (i + 1) (s ++ acc)).
  destruct (collect rt fuel _ top total (i + 1) (s ++ acc)) as [[[n s'] R']|e] eqn:Ec.
  - destruct IH as (Hn & Hx & E); [lia|lia|rewrite string_len_app; lia|]. split_and!; [lia|lia| |].
    + intros x Hxx. rewrite Hx by lia. apply setreg_ne. lia.
    + replace (top - (i + 1)) with (top - i - 1) in E by lia. replace (total - (i + 1)) with (total - i - 1) in E by lia.
      rewrite !(below_same R (setreg R (top - i - 1) (LString s))) in E; [exact E|intros x Hxx; apply setreg_ne; lia..].
  - replace (top - (i + 1)) with (top - i - 1) in IH by lia. replace (total - (i + 1)) with (total - i - 1) in IH by lia.
    rewrite (below_same R (setreg R (top - i - 1) (LString s))) in IH by (intros x Hxx; apply setreg_ne; lia). apply IH; [lia|lia|rewrite string_len_app; lia].
Qed.

Lemma turn_all R top total :
  2 <= total ->
  match concat_turn rt R top total with
  | Ok (n, R') => 2 <= n <= total /\ (forall x, x < top - n -> R' x = R x) /\ all R top total = all R' (top - (n - 1)) (total - (n - 1))
  | Err e => all R top total = Err e
  end.
Proof.
  intros Ht. unfold all. rewrite (below_S R (top - 1) (total - 1)) by lia. replace (top - 1 - 1) with (top - 2) by lia. cbn [concat_all].
  assert (Htwo : forall R1 w, (forall x, x < top - 2 -> R1 x = R x) -> 2 <= 2 <= total /\ (forall x, x < top - 2 -> setreg R1 (top - 2) w x = R x) /\
    concat_all w (below R (top - 2) (Z.to_nat (total - 1 - 1))) =
    concat_all (setreg R1 (top - 2) w (top - (2 - 1) - 1)) (below (setreg R1 (top - 2) w) (top - (2 - 1) - 1) (Z.to_nat (total - (2 - 1) - 1)))).
  { intros R1 w Hs. split_and!; [lia|lia| |].
    - intros x Hx. rewrite setreg_ne by lia. by apply Hs.
    - replace (top - (2 - 1) - 1) with (top - 2) by lia. rewrite setreg_eq. replace (total - (2 - 1) - 1) with (total - 1 - 1) by lia.
      rewrite (below_same R (setreg R1 (top - 2) w)); [done|]. intros x Hx. rewrite setreg_ne by lia. by apply Hs. }
  unfold concat_turn, concat2. destruct (tostring rt (R (top - 2))) as [sa|] eqn:Ea, (tostring rt (R (top - 1))) as [sb|] eqn:Eb.
  2-4: destruct (call_binTM rt TM_CONCAT (R (top - 2)) (R (top - 1))) as [[v|e]|]; cbn; [by apply Htwo|reflexivity|reflexivity].
  pose proof (string_len_nonneg sa). pose proof (string_len_nonneg sb). destruct (Z.eqb_spec (slen sb) 0) as [E0|E0]; cbn [orb negb andb].
  { cbn. assert (sb = []) as -> by (by apply string_len_zero). rewrite app_nil_r. apply Htwo. intros x Hx. apply setreg_ne. lia. }
  fold (empty_string (R (top - 2))). destruct (empty_string (R (top - 2))) eqn:Ee; cbn [negb andb].
  { cbn. unfold empty_string in Ee. destruct (R (top - 2)); try done. injection Ea as ->. assert (sa = []) as -> by (by apply string_len_zero, Z.eqb_eq).
    apply Htwo. intros x Hx. apply setreg_ne. lia. }
  cbn [collect]. rewrite (proj2 (Z.ltb_lt 1 total)) by lia. set (R1 := setreg R (top - 1) (LString sb)). replace (top - 1 - 1) with (top - 2) by lia.
  assert (R1 (top - 2) = R (top - 2)) as -> by (apply setreg_ne; lia). rewrite Ea, !Z.geb_leb.
  destruct (Z.leb_spec MAX_SIZET (slen sa + slen sb)), (Z.leb_spec (MAX_SIZET - slen sb) (slen sa)); try lia; [done|]. cbn.
  set (R2 := setreg R1 (top - 2) (LString sa)). assert (forall x, x < top - 2 -> R2 x = R x) as HR2 by (intros x Hx; unfold R2, R1; rewrite !setreg_ne by lia; done).
  pose proof (collect_all (Z.to_nat total) R2 top total 2 (sa ++ sb)) as Hc. change (1 + 1) with 2. rewrite string_len_app in Hc.
  replace (total - 1 - 1) with (total - 2) by lia. rewrite (below_same R R2) in Hc by done.
  destruct (collect rt (Z.to_nat total) R2 top total 2 (sa ++ sb)) as [[[n s] R']|e] eqn:Ec; [|apply Hc; lia].
  destruct Hc as (Hn & Hx & E); [lia|lia|lia|]. cbn. split_and!; [lia|lia| |].
  - intros x Hxx. rewrite setreg_ne, Hx, HR2 by lia. done.
  - rewrite E. replace (top - (n - 1) - 1) with (top - n) by lia. rewrite setreg_eq. replace (total - (n - 1) - 1) with (total - n) by lia.
    rewrite (below_same R2 (setreg R' (top - n) (LString s))); [done|]. intros x Hxx. rewrite setreg_ne by lia. apply Hx. lia.
Qed.

(** ** The loop *)

Lemma concat_loop_all fuel R top total :
  2 <= total <= Z.of_nat fuel ->
  match concat_loop rt fuel R top total with
  | Ok R' => all R top total = Ok (R' (top - total)) /\ forall x, x < top - total -> R' x = R x
  | Err e => all R top total = Err e
  end.
Proof.
  revert R top total. induction fuel as [|fuel IH]; intros R top total Ht; [lia|]. cbn [concat_loop]. pose proof (turn_all R top total ltac:(lia)) as Hturn.
  destruct (concat_turn rt R top total) as [[n R1]|e]; [|done]. destruct Hturn as (Hn & Hx & ->). cbn. rewrite Z.gtb_ltb. destruct (Z.ltb_spec 1 (total - (n - 1))).
  - specialize (IH R1 (top - (n - 1)) (total - (n - 1)) ltac:(lia)). destruct (concat_loop rt fuel R1 _ _) as [R'|e]; [|done].
    destruct IH as [-> Hs]. split; [by replace (top - (n - 1) - (total - (n - 1))) with (top - total) by lia|]. intros x Hxx. rewrite Hs, Hx by lia. done.
  - assert (n = total) as -> by lia. split; [|done]. unfold all. replace (total - (total - 1) - 1) with 0 by lia. by replace (top - (total - 1) - 1) with (top - total) by lia.
Qed.

(** C33. [luaV_concat], which converts and copies as many strings at a time as it finds, computes
    the concatenation of the values two at a time from the right: the same result in the
    lowest register, the same error (a value that is no string and has no metamethod, or a
    string too long), and the registers below are not changed. *)
Theorem luaV_concat_pairwise R top total :
  2 <= total ->
  match luaV_concat rt R top total with
  | Ok R' => concat_all (R (top - 1)) (below R (top - 1) (Z.to_nat (total - 1))) = Ok (R' (top - total)) /\ forall x, x < top - total -> R' x = R x
  | Err e => concat_all (R (top - 1)) (below R (top - 1) (Z.to_nat (total - 1))) = Err e
  end.
Proof. intros Ht. unfold luaV_concat. apply (concat_loop_all (Z.to_nat total) R top total). lia. Qed.

(** [CONCAT A B C]. *)
Lemma run_concat K b c R :
  b < c -> match run_value rt U K OP_CONCAT b c R with
           | Ok (v, R') => concat_all (R c) (below R c (Z.to_nat (c - b))) = Ok v /\ same b R R'
           | Err e => concat_all (R c) (below R c (Z.to_nat (c - b))) = Err e
           end.
Proof.
  intros Hbc. cbn [run_value]. unfold luaV_concat. pose proof (concat_loop_all (Z.to_nat (c - b + 1)) R (c + 1) (c - b + 1) ltac:(lia)) as Hl.
  unfold all in Hl. replace (c + 1 - 1) with c in Hl by lia. replace (c - b + 1 - 1) with (c - b) in Hl by lia.
  destruct (concat_loop rt _ R (c + 1) (c - b + 1)) as [R'|e]; [|exact Hl]. destruct Hl as [E Hs]. cbn. split.
  - rewrite E. by replace (c + 1 - (c - b + 1)) with b by lia.
  - intros r Hr. apply Hs. lia.
Qed.

Lemma run_concat_fst K b c R : b < c -> fst <$> run_value rt U K OP_CONCAT b c R = concat_all (R c) (below R c (Z.to_nat (c - b))).
Proof. intros Hbc. pose proof (run_concat K b c R Hbc) as Hc. destruct (run_value rt U K OP_CONCAT b c R) as [[v R']|e]; cbn; [by destruct Hc as [-> _]|done]. Qed.

(** One value more below. *)
Lemma run_concat_more K b c R :
  b < c -> fst <$> run_value rt U K OP_CONCAT (b - 1) c R = (v ← fst <$> run_value rt U K OP_CONCAT b c R; concat2 (R (b - 1)) v).
Proof.
  intros Hbc. rewrite !run_concat_fst by lia. replace (Z.to_nat (c - (b - 1))) with (S (Z.to_nat (c - b))) by lia. rewrite below_last, concat_all_last.
  replace (c - 1 - Z.of_nat (Z.to_nat (c - b))) with (b - 1) by lia. done.
Qed.

Lemma run_concat_two K b R : fst <$> run_value rt U K OP_CONCAT b (b + 1) R = concat2 (R b) (R (b + 1)).
Proof.
  rewrite run_concat_fst by lia. replace (Z.to_nat (b + 1 - b)) with 1%nat by lia. cbn [below concat_all]. replace (b + 1 - 1) with b by lia. by destruct (concat2 (R b) (R (b + 1))).
Qed.

Lemma run_concat_same K b c R v R' : b < c -> run_value rt U K OP_CONCAT b c R = Ok (v, R') -> same b R R'.
Proof. intros Hbc E. pose proof (run_concat K b c R Hbc) as Hc. rewrite E in Hc. apply Hc. Qed.
End Concat.

(** Witness of C33: three values. *)
Lemma luaV_concat_pairwise_witness :
  let rt := {| luaO_str2d := fun _ => None; number2str := fun r => [r]; call_binTM := fun _ _ _ => None; equalTM := fun _ _ => None; objlen := fun _ => Err LuaError |} in
  let R := fun r : Z => if r =? 1 then LNumber 55 else LString [r] in
  match luaV_concat rt R 3 3 with
  | Ok R' => concat_all rt (R 2) (below R 2 2) = Ok (R' 0) /\ forall x, x < 0 -> R' x = R x
  | Err e => concat_all rt (R 2) (below R 2 2) = Err e
  end /\ concat_all rt (R 2) (below R 2 2) = Ok (LString [0; 55; 2]).
Proof. intros rt R. split; [apply (luaV_concat_pairwise rt R 3 3); lia|reflexivity]. Defined.
