(* ===== verification/LuaStage.v ===== *)
(** * Evaluated operands

    [comp] says that the code added since a state computes an expression and that a
    descriptor stands for its value; [stage] says that the values computed so far are held
    by operands, and that the run goes on at the end of the code. *)

From S2P Require Import Prelude LuaStr LuaRef LuaTab LuaOp LuaNumber LuaCode LuaVm LuaJump LuaRun LuaEmit LuaDesc LuaPlace LuaReg LuaOperand LuaCond LuaConcat.

Lemma own_nil fs J kk x : simple kk -> own fs J kk [] x <-> own0 fs J x.
Proof.
  intros Hs. split; [|by left]. intros [Hx|[Hx|Hx]]; [done|by apply pend_nil in Hx|by destruct kk].
Qed.

(** Kinds of operands that stay where they are while other code is emitted. *)
Definition holdable (base : Z) (fs : FuncState) (kk : expkind) : Prop :=
  match kk with
  | VK i => 0 <= i < nk fs
  | VKNUM r => in_u 64 r
  | VNONRELOC r => r < base
  | _ => False
  end.

Section Stages.
Context `{LuaNumber} (rt : runtime) (U : list TValue) (other : Z -> Z -> regs -> res (Z * regs)) (S0 : Z * regs).

Abbreviation At := (At rt U other S0).
Abbreviation Dead := (Dead rt U other S0).
Abbreviation Here := (Here rt U other S0).
Abbreviation Main := (Main rt U other S0).
Abbreviation Out := (Out rt U other S0).
Abbreviation trans := (trans rt U other S0).

Lemma Here_mono (H0 H0' : Z -> Prop) fs J R : (forall x, H0' x -> H0 x) -> Here H0 fs J R -> Here H0' fs J R.
Proof.
  intros HH. assert (forall p R', At (fun x => H0 x \/ own0 fs J x) fs p R' -> At (fun x => H0' x \/ own0 fs J x) fs p R') as Hm.
  { intros p R'. apply At_mono. intros x [Hx|Hx]; [left; by apply HH|by right]. }
  intros [[Hmm HA]|[(a & b & R' & Hmm & Hi & Hab & -> & HA)|(j & Hj & Hp)]].
  - left. split; [done|by apply Hm].
  - right. left. exists a, b, R'. split_and!; try done; try lia. by apply Hm.
  - right. right. exists j. split; [done|]. destruct Hp as [[Hf HA]|[Ht HA]]; [left|right]; (split; [done|by apply Hm]).
Qed.

(** ** Stages *)

Definition Reach {A} (base : Z) (H0 : Z -> Prop) (fs : FuncState) (J : list Z) (R : regs) (rv : res A) (P : A -> regs -> Prop) : Prop :=
  (exists er, rv = Err er /\ Dead (fun x => H0 x \/ own0 fs J x) fs er) \/
  (exists a R1, rv = Ok a /\ same base R R1 /\ Here H0 fs J R1 /\ P a R1).

(** [ev] is what the added code computes from the registers; [P] is where it is held. *)
Record stage {A} (base n : Z) (ev : regs -> res A) (P : A -> regs -> Prop) (fs : FuncState) (J : list Z) (fs' : FuncState) (J' : list Z) : Prop := {
  sg_wf : wf fs' J';
  sg_fr : fr (own0 fs J) fs (own0 fs' J') fs';
  sg_nact : nactvar fs' = nactvar fs;
  sg_cost : cost n fs fs';
  sg_out H0 R : apart H0 fs (own0 fs J) -> Here H0 fs J R -> Reach base H0 fs' J' R (ev R) P;
}.

(** The expression reads variables below [n] only. *)
Definition local_ev {A} (n : Z) (ev : regs -> res A) : Prop := forall R R', same n R R' -> ev R' = ev R.

Lemma stage_bind {A B} base base' n m (ev1 : regs -> res A) (ev2 : regs -> res B) P1 P2 (P : A * B -> regs -> Prop) fs J fs1 J1 fs2 J2 :
  stage base n ev1 P1 fs J fs1 J1 -> stage base' m ev2 P2 fs1 J1 fs2 J2 -> base <= base' -> local_ev base ev2 ->
  (forall a b R1 R2, same base' R1 R2 -> ev2 R1 = Ok b -> P1 a R1 -> P2 b R2 -> P (a, b) R2) ->
  stage base (n + m) (fun R => a ← ev1 R; b ← ev2 R; Ok (a, b)) P fs J fs2 J2.
Proof.
  intros [W1 F1 N1 C1 O1] [W2 F2 N2 C2 O2] Hle Hl HP. split; [done|by eapply fr_trans|congruence|by eapply cost_trans|]. intros H0 R Ha HH.
  pose proof (apart_fr _ _ _ _ _ Ha F1) as Ha1. destruct (O1 H0 R Ha HH) as [(er & -> & HD)|(a & R1 & -> & Hs & HH1 & Hp1)].
  - left. exists er. split; [done|]. eapply Dead_fr; [|exact HD]. exact (fr_frame H0 _ _ _ _ (apart_disjoint _ _ _ Ha1) F2).
  - cbn. rewrite <- (Hl R R1 Hs). destruct (O2 H0 R1 Ha1 HH1) as [(er & -> & HD)|(b & R2 & Eb & Hs2 & HH2 & Hp2)]; [left; by exists er|]. rewrite Eb.
    right. exists (a, b), R2. split_and!; try done; [by eapply same_trans|by eapply HP].
Qed.

Lemma stage_ext {A} base n (ev : regs -> res A) P fs J fs1 J1 fs2 :
  stage base n ev P fs J fs1 J1 -> ext fs1 fs2 -> k fs2 = k fs1 -> h fs2 = h fs1 -> 0 <= nactvar fs1 <= freereg fs2 /\ freereg fs2 < MAXSTACK -> stage base n ev P fs J fs2 J1.
Proof.
  intros [W1 F1 N1 [C1 C1'] O1] Hx Hk Hh Hf. assert (fr (own0 fs1 J1) fs1 (own0 fs2 J1) fs2) as F2 by (apply ext_fr; [done|]; intros x; by rewrite ext_own0). split.
  - apply (ext_wf fs1); try done. unfold h_ok. rewrite Hh, Hk. apply W1.
  - by eapply fr_trans.
  - by rewrite (ext_nact _ _ Hx).
  - unfold cost, nk. rewrite Hk, (ext_pc _ _ Hx). done.
  - intros H0 R Ha HH. pose proof (apart_fr _ _ _ _ _ Ha F1) as Ha1. destruct (O1 H0 R Ha HH) as [(er & -> & HD)|(a & R1 & -> & Hs & HH1 & Hp1)]; [left|right].
    + exists er. split; [done|]. eapply Dead_fr; [|exact HD]. exact (fr_frame H0 _ _ _ _ (apart_disjoint _ _ _ Ha1) F2).
    + exists a, R1. split_and!; try done. by apply (ext_Here _ _ _ _ fs1).
Qed.

Lemma stage_mono {A B} base n m (ev : regs -> res A) (ev' : regs -> res B) (f : A -> B) P (P' : B -> regs -> Prop) fs J fs1 J1 :
  stage base n ev P fs J fs1 J1 -> n <= m -> (forall R, ev' R = f <$> ev R) -> (forall a R, P a R -> P' (f a) R) -> stage base m ev' P' fs J fs1 J1.
Proof.
  intros [W1 F1 N1 C1 O1] Hn He HP. split; try done; [by eapply cost_le|]. intros H0 R Ha HH. rewrite He.
  destruct (O1 H0 R Ha HH) as [(er & -> & HD)|(a & R1 & -> & Hs & HH1 & Hp1)]; [left|right].
  - by exists er.
  - exists (f a), R1. split_and!; try done. by apply HP.
Qed.

(** ** Computed expressions *)

Record comp (base n : Z) (ev : regs -> res TValue) (fs : FuncState) (J : list Z) (fs' : FuncState) (J' : list Z) (e : expdesc) (T F : list Z) : Prop := {
  cm_ready : ready base fs' J' e T F;
  cm_const : const_ok fs' (ek e);
  cm_fr : fr (own0 fs J) fs (own fs' J' (ek e) (T ++ F)) fs';
  cm_nact : nactvar fs' = nactvar fs;
  cm_cost : cost n fs fs';
  cm_out H0 R : apart H0 fs (own0 fs J) -> Here H0 fs J R -> Out base H0 fs' J' (ek e) T F R (ev R);
}.

Lemma comp_le base n m ev fs J fs' J' e T F : comp base n ev fs J fs' J' e T F -> n <= m -> comp base m ev fs J fs' J' e T F.
Proof. intros [C1 C2 C3 C4 C5 C6] Hn. split; try done. by eapply cost_le. Qed.

Lemma comp_ev base n ev ev' fs J fs' J' e T F : comp base n ev fs J fs' J' e T F -> (forall R, ev' R = ev R) -> comp base n ev' fs J fs' J' e T F.
Proof. intros [C1 C2 C3 C4 C5 C6] He. split; try done. intros H0 R Ha HH. rewrite He. by apply C6. Qed.

(** A value that needs no code. *)
Lemma comp_const base n fs J fs' kk :
  wf fs J -> ext fs fs' -> h_ok fs' -> freereg fs = base -> freereg fs' = base -> base + 1 < MAXSTACK -> nk fs' <= nk fs + n -> 0 <= n ->
  simple kk -> kind_ok base fs' J [] kk -> nontemp fs' kk -> const_ok fs' kk ->
  comp base n (kval U fs' kk) fs J fs' J (init_exp kk) [] [].
Proof.
  intros Hwf Hx Hh Hf Hf' Hm Hnk Hn Hs Hk Hnt Hc. pose proof (wf_regs _ _ Hwf) as Hrg. rewrite Hf in Hrg. change MAXSTACK with 250 in *.
  assert (wf fs' J) as Hwf' by (apply (ext_wf fs); try done; rewrite Hf'; done).
  split; try done.
  - split; try done. split; try done.
    + intros j Hj. cbn in Hj. set_solver.
    + cbn. apply Hwf'.
    + change MAXSTACK with 250. lia.
  - apply ext_fr; [done|]. intros x Hy. apply own_nil in Hy; [|done]. by rewrite (ext_own0 fs fs' Hx) in Hy.
  - apply Hx.
  - unfold cost. rewrite (ext_pc _ _ Hx). lia.
  - intros H0 R Ha HH. right. left. exists R. split; [apply same_refl|]. apply Main_simple; [done|]. split; [|done].
    apply (ext_Here _ _ _ _ fs); [done|]. eapply Here_mono; [|exact HH]. intros x [Hy|Hy]; [done|by apply pend_nil in Hy].
Qed.

Lemma comp_trans base n m ev fs J fs1 J1 e1 T1 F1 fs2 J2 e2 T2 F2 :
  comp base n ev fs J fs1 J1 e1 T1 F1 -> trans base m fs1 J1 e1 T1 F1 fs2 J2 e2 T2 F2 -> ready base fs2 J2 e2 T2 F2 -> const_ok fs2 (ek e2) ->
  comp base (n + m) ev fs J fs2 J2 e2 T2 F2.
Proof.
  intros [C1 C2 C3 C4 C5 C6] [T3 T4 T5 T6 T7] Hr Hc. split; try done; [by eapply fr_trans|congruence|by eapply cost_trans|].
  intros H0 R Ha HH. apply T7; [by eapply apart_fr|by apply C6].
Qed.

Lemma Out_nil base H0 fs J kk R rv :
  simple kk -> Out base H0 fs J kk [] [] R rv -> Reach base H0 fs J R rv (fun v R => kval U fs kk R = Ok v) \/ exists er R1, kval U fs kk R1 = Err er.
Proof.
  intros Hs [(er & -> & HD)|[(R1 & Hsm & HM)|(R1 & t & j & v & _ & _ & Hj & _)]]; [left; left| |by destruct t; apply elem_of_nil in Hj].
  - exists er. split; [done|]. eapply Dead_mono; [|exact HD]. intros x [Hx|Hx]; [by left|right; by left].
  - apply Main_simple in HM as [HH ->]; [|done]. destruct (kval U fs kk R1) as [v|er] eqn:Ev; [|right; by exists er, R1]. left. right. exists v, R1. split_and!; try done.
    eapply Here_mono; [|exact HH]. intros x Hx. by left.
Qed.

(** An operand. *)
Lemma comp_stage base n m ev fs J fs1 J1 e1 T1 F1 fs2 J2 kk :
  comp base n ev fs J fs1 J1 e1 T1 F1 -> trans base m fs1 J1 e1 T1 F1 fs2 J2 (init_exp kk) [] [] -> simple kk -> (forall R, exists v, kval U fs2 kk R = Ok v) ->
  stage base (n + m) ev (fun v R => kval U fs2 kk R = Ok v) fs J fs2 J2.
Proof.
  intros [C1 C2 C3 C4 C5 C6] [T3 T4 T5 T6 T7] Hs Hv. split; [apply T3| |congruence|by eapply cost_trans|].
  - eapply fr_weaken; [by eapply fr_trans|done|]. intros x _ Hx. left. by left.
  - intros H0 R Ha HH. destruct (Out_nil base H0 fs2 J2 kk R (ev R) Hs) as [HR|(er & R1 & E)]; [|done|].
    + apply T7; [by eapply apart_fr|by apply C6].
    + destruct (Hv R1) as [v Ev]. congruence.
Qed.
(** ** New instructions *)

Lemma wfe_start base fs J kk : wf fs J -> 0 <= base < MAXSTACK -> kind_ok base fs J [] kk -> wfe base fs J (init_exp kk) [] [].
Proof. intros Hwf Hb Hk. split; try done; [intros j Hj; cbn in Hj; set_solver|apply Hwf]. Qed.

(** The values are known: no code is needed. *)
Lemma stage_const {A} base n (ev : regs -> res A) P (op : A -> res TValue) fs J fs1 J1 kk :
  stage base n ev P fs J fs1 J1 -> freereg fs1 = base -> base + 1 < MAXSTACK -> simple kk -> kind_ok base fs1 J1 [] kk -> nontemp fs1 kk -> const_ok fs1 kk ->
  (forall a R, P a R -> kval U fs1 kk R = op a) -> comp base n (fun R => a ← ev R; op a) fs J fs1 J1 (init_exp kk) [] [].
Proof.
  intros [W F N C O] Hf Hm Hs Hk Hnt Hc Hop. pose proof (wf_regs _ _ W) as Hrg. rewrite Hf in Hrg. split; try done.
  - split; try done. apply wfe_start; [done|lia|done].
  - eapply fr_weaken; [exact F|done|]. intros x _ Hx. left. by apply own_nil in Hx.
  - intros H0 R Ha HH. destruct (O H0 R Ha HH) as [(er & -> & HD)|(a & R1 & -> & Hsm & HH1 & Hp)].
    + left. exists er. split; [done|]. eapply Dead_mono; [|exact HD]. intros x [Hx|Hx]; [by left|right; by apply own_nil in Hx].
    + right. left. exists R1. split; [done|]. apply Main_simple; [done|]. split; [|cbn; by rewrite (Hop a R1)]. eapply Here_mono; [|exact HH1]. intros x [Hx|Hx]; [done|by apply pend_nil in Hx].
Qed.

(** An instruction computes the value from the operands. *)
Lemma stage_value {A} base n (ev : regs -> res A) P (op : A -> res TValue) fs J fs1 J1 o b c fs2 :
  stage base n ev P fs J fs1 J1 -> freereg fs1 = base -> base + 1 < MAXSTACK -> emitted fs1 J1 (ABC o 0 b c) fs2 -> room 1 fs1 -> abc_ok 0 b c -> is_value o = true ->
  reads_ok (k fs1) o b c -> (o = OP_CONCAT -> b = base /\ b < c < 256) -> (o = OP_NOT -> b < 256) ->
  (forall R v R', run_value rt U (k fs1) o b c R = Ok (v, R') -> same base R R') ->
  (forall a R, P a R -> fst <$> run_value rt U (k fs1) o b c R = op a) ->
  comp base (n + 1) (fun R => a ← ev R; op a) fs J fs2 [] (init_exp (VRELOCABLE (pc fs1))) [] [].
Proof.
  intros Hst Hf Hm Hem Hroom Hok Hv Hr Hcc Hnot Hsame Hop.
  pose proof (stage_const base n ev P (fun _ => Ok (LBool true)) fs J fs1 J1 VTRUE Hst Hf Hm I I I I ltac:(done)) as Hc. destruct Hst as [W F N C O].
  pose proof (rd_we _ _ _ _ _ _ (cm_ready _ _ _ _ _ _ _ _ _ _ Hc)) as Hwe.
  destruct (emit_value rt U other S0 base fs1 J1 (init_exp VTRUE) [] [] o b c fs2) as (W2 & Hfr & _ & Hc2 & HM); try done.
  assert (fr (own0 fs J) fs (own fs2 [] (VRELOCABLE (pc fs1)) []) fs2) as Hfr2 by (eapply fr_trans; [apply Hc|exact Hfr]). split; try done.
  - split; try done. by rewrite (em_free _ _ _ _ Hem).
  - by rewrite (em_nact _ _ _ _ Hem).
  - by eapply cost_trans.
  - intros H0 R Ha HH. pose proof (apart_fr _ _ _ _ _ Ha F) as Ha1. assert (apart H0 fs1 (own fs1 J1 VTRUE [])) as Ha2.
    { intros x Hx. destruct (Ha1 x Hx) as (H1 & H2 & H3). split_and!; try done; try lia. intros Hy. apply H2. by apply own_nil in Hy. }
    destruct (O H0 R Ha HH) as [(er & -> & HD)|(a & R1 & -> & Hsm & HH1 & Hp)].
    + left. exists er. split; [done|]. eapply Dead_fr; [exact (fr_frame H0 _ _ _ _ (apart_disjoint _ _ _ Ha2) Hfr)|]. eapply Dead_mono; [|exact HD].
      intros x [Hx|Hx]; [by left|right; by apply own_nil in Hx].
    + right. left. exists R1. split; [done|]. cbn. rewrite <- (Hop a R1 Hp). eapply (HM H0 R1 (Ok (LBool true))); [done|]. split; [|done].
      eapply Here_mono; [|exact HH1]. intros x [Hx|Hx]; [done|by apply pend_nil in Hx].
Qed.

(** A comparison and its jump. *)
Lemma wpc_condjump o a b c fs J (Q : Z -> FuncState -> Prop) :
  wf fs J -> room 2 fs -> isop (ABC o a b c) OP_LOADNIL = false ->
  (forall fs1 fs2, emitted fs J (ABC o a b c) fs1 -> wf fs1 [] -> emitted fs1 [] (JMP 0 NO_JUMP) fs2 -> wf fs2 [] -> Q (pc fs + 1) fs2) -> wpc (condjump o a b c) fs Q.
Proof.
  intros Hwf [Hroom _] Hn HQ. apply wpc_bind. eapply wpc_code; [done|lia|]. intros fs1 Hem. pose proof (em_pc _ _ _ _ Hem) as Epc.
  assert (wf fs1 []) as Hwf1 by (eapply em_wf; [exact Hwf|exact Hem|]; by rewrite Hn). eapply wpc_jump; [done|lia|]. intros fs2 Hem2 Hwf2. rewrite Epc. by eapply HQ.
Qed.

Lemma stage_jump {A} base n (ev : regs -> res A) P (cmp : A -> res bool) fs J fs1 J1 o a b c fs2 fs3 :
  stage base n ev P fs J fs1 J1 -> freereg fs1 = base -> base + 1 < MAXSTACK -> emitted fs1 J1 (ABC o a b c) fs2 -> wf fs2 [] -> emitted fs2 [] (JMP 0 NO_JUMP) fs3 -> wf fs3 [] ->
  room 2 fs1 -> abc_ok a b c -> o = OP_EQ \/ o = OP_LT \/ o = OP_LE -> a = 0 \/ a = 1 -> reads_ok (k fs1) o b c ->
  (forall x R, P x R -> run_test rt (k fs1) o a b c R = cmp x) ->
  comp base (n + 2) (fun R => x ← ev R; LBool <$> cmp x) fs J fs3 [] (init_exp (VJMP (pc fs1 + 1))) [] [].
Proof.
  intros [W F N C O] Hf Hm Hem2 W2 Hem3 W3 [Hroom _] Hok Ho Ha01 Hr Hcmp. pose proof (wf_regs _ _ W) as Hrg. rewrite Hf in Hrg.
  pose proof (em_pc _ _ _ _ Hem2) as Epc2. pose proof (em_pc _ _ _ _ Hem3) as Epc3. rewrite Epc2 in Epc3.
  assert (k fs3 = k fs1) as Ek by (rewrite (em_k _ _ _ _ Hem3); apply (em_k _ _ _ _ Hem2)).
  assert (forall x, x < pc fs2 -> instr_at (code fs3) x = instr_at (code fs2) x) as Hold by (intros x Hx; eapply em_same; [exact Hem3|done|apply pend_nil]).
  assert (instr_at (code fs3) (pc fs1) = Some (ABC o a b c)) as Hi by (rewrite Hold by lia; exact (em_new _ _ _ _ Hem2)).
  assert (instr_at (code fs3) (pc fs1 + 1) = Some (JMP 0 NO_JUMP)) as Hj by (rewrite <- Epc2; exact (em_new _ _ _ _ Hem3)).
  assert (mergeable fs3 = false) as Hmg.
  { rewrite (em_mergeable _ _ _ _ W2 Hem3). unfold isop. by destruct (JMP_fields 0 NO_JUMP) as (-> & _); [lia|done|]. }
  assert (forall x, own fs3 [] (VJMP (pc fs1 + 1)) [] x -> x = pc fs1 + 1 \/ x = pc fs1) as Hown.
  { intros x [[Hx|[_ Hx]]|[Hx|[Hx|Hx]]]; [by apply pend_nil in Hx|congruence|by apply pend_nil in Hx|by left|right; lia]. }
  assert (fr (own0 fs1 J1) fs1 (own fs3 [] (VJMP (pc fs1 + 1)) []) fs3) as Hfr.
  { eapply fr_weaken; [eapply fr_trans; [eapply (em_fr' _ _ _ _ W Hem2)|eapply (em_fr' _ _ _ _ W2 Hem3)]|done|]. intros x Hx Hy%Hown. lia. }
  split; try done.
  - split; try done; [|cbn; rewrite (em_free _ _ _ _ Hem3), (em_free _ _ _ _ Hem2); done]. apply wfe_start; [done|lia|].
    split_and!; [lia|done|done|by intros ?%elem_of_nil|]. replace (pc fs1 + 1 - 1) with (pc fs1) by lia. exists o, a, b, c. by rewrite Ek.
  - by eapply fr_trans.
  - by rewrite (em_nact _ _ _ _ Hem3), (em_nact _ _ _ _ Hem2).
  - eapply cost_trans; [exact C|]. unfold cost, nk. rewrite Ek, Epc3. lia.
  - intros H0 R Ha HH. pose proof (apart_fr _ _ _ _ _ Ha F) as Ha1. pose proof (fr_frame H0 _ _ _ _ (apart_disjoint _ _ _ Ha1) Hfr) as Hfr'.
    destruct (O H0 R Ha HH) as [(er & -> & HD)|(x & R1 & -> & Hsm & HH1 & Hp)].
    + left. exists er. split; [done|]. by eapply Dead_fr.
    + right. left. exists R1. split; [done|]. replace (pc fs1 + 1 - 1) with (pc fs1) by lia. split.
      * replace (pc fs1 + 1 - 1) with (pc fs1) by lia. pose proof (em_arrive _ _ _ _ _ _ _ _ W ltac:(lia) Hem2 H0 R1 Ha1 HH1) as HA. eapply At_fr; [|exact HA].
        eapply fr_weaken; [eapply (em_fr' _ _ _ _ W2 Hem3)| |].
        -- intros y _ Hy. apply (em_own0 _ _ _ _ W Hem2) in Hy as [-> _]. by right.
        -- intros y Hy [Hy0|Hy0]; right; (split; [|apply Hold; lia]); [by left|]. apply Hown in Hy0 as [->| ->]; [lia|by right].
      * exists o, a, b, c. replace (pc fs1 + 1 - 1) with (pc fs1) by lia. rewrite Ek. split_and!; try done. cbn. by rewrite (Hcmp x R1 Hp).
Qed.
End Stages.
