(* ===== verification/LuaOper.v ===== *)
(** * Operators

    [codearith], [codecomp] and the concatenation of [luaK_posfix]: an operator applied to
    the values of its operands, with the folding of constants. *)

From S2P Require Import Prelude LuaStr LuaRef LuaTab LuaOp LuaNumber LuaCode LuaVm LuaJump LuaRun LuaEmit LuaDesc LuaPlace LuaReg LuaOperand LuaCond LuaConcat LuaStage.

(** ** Operands of instructions *)

Lemma kval_prefix U fs fs' kk R v : k fs `prefix_of` k fs' -> kval U fs kk R = Ok v -> kval U fs' kk R = Ok v.
Proof.
  intros HK. destruct kk; try done. cbn. destruct (k fs !! Z.to_nat _) as [w|] eqn:E; [|done]. by rewrite (prefix_lookup_Some _ _ _ _ E HK).
Qed.

(** A temporary is read again as it was. *)
Lemma kval_same U fs kk R R' n v : same n R R' -> simple kk -> (forall r, kk = VNONRELOC r \/ kk = VLOCAL r -> r < n) -> kval U fs kk R = Ok v -> kval U fs kk R' = Ok v.
Proof. intros Hs Hk Hr. destruct kk; try done; cbn; intros E; rewrite Hs; auto. Qed.

(** Operand [x] of kind [kk]: a constant, a variable or the temporary of level [base]. *)
Definition operand (base : Z) (fs : FuncState) (kk : expkind) (x : Z) : Prop :=
  match kk with
  | VK i => 0 <= i <= MAXINDEXRK /\ i < nk fs /\ x = RKASK i
  | VNONRELOC r => x = r /\ (0 <= r < nactvar fs \/ r = base)
  | _ => False
  end.

Definition temp (fs : FuncState) (kk : expkind) : bool := match kk with VNONRELOC r => nactvar fs <=? r | _ => false end.

(** The register after those of the operand. *)
Definition next (base : Z) (fs : FuncState) (kk : expkind) : Z := if temp fs kk then base + 1 else base.

Lemma is_operand_split base fs kk x : nactvar fs <= base -> is_operand base fs kk x -> operand base fs kk x /\ freereg fs = next base fs kk.
Proof.
  intros Hb. unfold next, temp. destruct kk as [| | | |i| |r| | | | | | |]; try done; cbn.
  - intros (H1 & H2 & H3 & H4). split_and!; try done; lia.
  - intros [-> [[Hr Hf]|[-> Hf]]]; [rewrite (proj2 (Z.leb_gt _ _)) by lia|rewrite (proj2 (Z.leb_le _ _)) by lia]; (split; [split; [done|]; auto|done]).
Qed.

Lemma operand_frame base fs fs' kk x : operand base fs kk x -> nactvar fs' = nactvar fs -> k fs `prefix_of` k fs' -> operand base fs' kk x.
Proof. intros Ho Hn HK. apply prefix_length in HK. destruct kk; try done; cbn in *; unfold nk in *; rewrite ?Hn; [lia|done]. Qed.

Lemma temp_frame fs fs' kk : nactvar fs' = nactvar fs -> temp fs' kk = temp fs kk.
Proof. intros Hn. destruct kk; try done. cbn. by rewrite Hn. Qed.

Lemma operand_simple base fs kk x : operand base fs kk x -> simple kk.
Proof. by destruct kk. Qed.

Lemma operand_below base fs kk x : operand base fs kk x -> nactvar fs <= base -> forall r, kk = VNONRELOC r \/ kk = VLOCAL r -> r < next base fs kk.
Proof.
  intros Ho Hb r [->| ->]; [|done]. unfold next. cbn in *. destruct Ho as [-> [Hr| ->]]; [rewrite (proj2 (Z.leb_gt _ _)) by lia; lia|].
  rewrite (proj2 (Z.leb_le _ _)) by lia. lia.
Qed.

Lemma operand_rk base fs kk x : operand base fs kk x -> 0 <= nactvar fs <= base -> base < MAXSTACK -> rk_ok (k fs) x.
Proof.
  change MAXSTACK with 250. intros Ho Hb Hm. unfold rk_ok. destruct kk as [| | | |i| |r| | | | | | |]; try done; cbn in Ho.
  - destruct Ho as (Hi & Hn & ->). destruct (rk_constant i Hi) as (H1 & H2 & H3). assert (RKASK i = i + 256) as E.
    { unfold RKASK. change BITRK with (1 ≪ 8). change MAXINDEXRK with 255 in Hi. rewrite lor_shift by (pow2; lia). done. }
    change MAXINDEXRK with 255 in Hi. split; [lia|]. intros _. rewrite H2. unfold nk in Hn. lia.
  - destruct Ho as [-> Hr]. split; [lia|]. rewrite ISK_small by lia. done.
Qed.

Lemma operand_val base fs kk x U R v : operand base fs kk x -> 0 <= nactvar fs <= base -> base < MAXSTACK -> kval U fs kk R = Ok v -> RK (k fs) R x = Ok v.
Proof.
  change MAXSTACK with 250. intros Ho Hb Hm. destruct kk as [| | | |i| |r| | | | | | |]; try done; cbn in Ho; unfold RK.
  - destruct Ho as (Hi & Hn & ->). destruct (rk_constant i Hi) as (-> & -> & _). cbn. unfold constant. by destruct (k fs !! Z.to_nat i).
  - destruct Ho as [-> Hr]. rewrite ISK_small by lia. done.
Qed.

(** ** Releasing registers *)

(** The operands that hold registers, the last one first. *)
Definition stacked (base : Z) (fs : FuncState) (ka kb : expkind) : Prop :=
  let ta := temp fs ka in let tb := temp fs kb in
  freereg fs = base + (if ta then 1 else 0) + (if tb then 1 else 0) /\
  (tb = true -> kb = VNONRELOC base) /\ (ta = true -> ka = VNONRELOC (if tb then base + 1 else base)).

Lemma temp_nontemp fs kk : temp fs kk = false -> nontemp fs kk.
Proof. destruct kk; try done. cbn. intros ?%Z.leb_gt. done. Qed.

Lemma wpc_free_top base e fs (Q : () -> FuncState -> Prop) :
  0 <= nactvar fs <= base -> base + 1 < MAXSTACK -> (temp fs (ek e) = true -> ek e = VNONRELOC base) -> freereg fs = (if temp fs (ek e) then base + 1 else base) ->
  (forall fs', ext fs fs' -> h fs' = h fs -> k fs' = k fs -> freereg fs' = base -> Q () fs') -> wpc (freeexp e) fs Q.
Proof.
  change MAXSTACK with 250. intros Hb Hm Ht Hf HQ. destruct (temp fs (ek e)) eqn:Et.
  - specialize (Ht eq_refl). apply wpc_freeexp; [rewrite Ht; intros r [= <-]; lia|lia|left; lia|lia|]. intros fs' Hx Hh Hk Hfr. apply HQ; try done.
    rewrite Ht, decide_True in Hfr by lia. lia.
  - apply wpc_freeexp_nontemp; [by apply temp_nontemp|]. apply HQ; try done.
Qed.

Lemma wpc_frees base ea eb fs (Q : () -> FuncState -> Prop) :
  0 <= nactvar fs <= base -> base + 2 < MAXSTACK -> stacked base fs (ek ea) (ek eb) ->
  (forall fs', ext fs fs' -> h fs' = h fs -> k fs' = k fs -> freereg fs' = base -> Q () fs') -> wpc (_ ← freeexp ea; freeexp eb) fs Q.
Proof.
  change MAXSTACK with 250. intros Hb Hm (Hf & Htb & Hta) HQ. apply wpc_bind. destruct (temp fs (ek eb)) eqn:Eb.
  - eapply (wpc_free_top (base + 1)); [lia|change MAXSTACK with 250; lia|exact Hta|destruct (temp fs (ek ea)); lia|]. intros fs1 X1 Hh1 Hk1 Hf1.
    eapply (wpc_free_top base); [rewrite (ext_nact _ _ X1); lia|change MAXSTACK with 250; lia|by intros _; apply Htb| |].
    { rewrite (temp_frame fs fs1), Eb by apply X1. lia. }
    intros fs2 X2 Hh2 Hk2 Hf2. apply HQ; try congruence. destruct X1, X2. split; congruence || by etrans.
  - eapply (wpc_free_top base); [lia|change MAXSTACK with 250; lia|exact Hta|destruct (temp fs (ek ea)); lia|]. intros fs1 X1 Hh1 Hk1 Hf1.
    apply wpc_freeexp_nontemp; [apply temp_nontemp; rewrite (temp_frame fs fs1) by apply X1; done|]. by apply HQ.
Qed.

Lemma stacked_two base fs ka kb : nactvar fs <= base -> freereg fs = next (next base fs kb) fs ka -> (forall x, ~ (kb = VNONRELOC x /\ nactvar fs <= x /\ x <> base)) ->
  (forall x, ~ (ka = VNONRELOC x /\ nactvar fs <= x /\ x <> next base fs kb)) -> stacked base fs ka kb.
Proof.
  intros Hb Hf Hkb Hka. unfold stacked. cbv zeta. unfold next in *. split_and!.
  - rewrite Hf. destruct (temp fs kb), (temp fs ka); lia.
  - destruct kb as [| | | | | |r| | | | | | |]; try done. cbn. intros ?%Z.leb_le. f_equal. destruct (decide (r = base)); [done|]. by exfalso; eapply Hkb.
  - destruct ka as [| | | | | |r| | | | | | |]; try done. cbn. intros ?%Z.leb_le. f_equal. destruct (decide (r = if temp fs kb then base + 1 else base)); [done|]. by exfalso; eapply Hka.
Qed.

Lemma operand_temp base fs kk x : operand base fs kk x -> forall y, ~ (kk = VNONRELOC y /\ nactvar fs <= y /\ y <> base).
Proof. intros Ho y (-> & H1 & H2). cbn in Ho. lia. Qed.

Lemma wpc_seq {A B C} (m1 : coder A) (m2 : coder B) (f : coder C) fs (Q : C -> FuncState -> Prop) :
  wpc (_ ← m1; m2) fs (fun _ fs' => wpc f fs' Q) -> wpc (_ ← m1; _ ← m2; f) fs Q.
Proof. unfold wpc, mbind, coder_bind. destruct (m1 fs) as [[a fs']|]; [|done]. by destruct (m2 fs') as [[b fs'']|]. Qed.

Section Operators.
Context `{LuaNumber} (rt : runtime) (U : list TValue) (other : Z -> Z -> regs -> res (Z * regs)) (S0 : Z * regs).

Abbreviation stage := (stage rt U other S0).
Abbreviation comp := (comp rt U other S0).
Abbreviation trans := (trans rt U other S0).

Lemma comp_ext base n ev fs J fs1 J1 e T F fs2 :
  comp base n ev fs J fs1 J1 e T F -> ext fs1 fs2 -> k fs2 = k fs1 -> h fs2 = h fs1 -> freereg fs2 = freereg fs1 -> comp base n ev fs J fs2 J1 e T F.
Proof.
  intros Hc Hx Hk Hh Hf. pose proof (cm_ready _ _ _ _ _ _ _ _ _ _ _ _ _ _ Hc) as Hr. pose proof (rd_we _ _ _ _ _ _ Hr) as Hwe. pose proof (we_wf _ _ _ _ _ _ Hwe) as Hwf.
  assert (trans base 0 fs1 J1 e T F fs2 J1 e T F) as Ht.
  { apply trans_ext; try done; [unfold h_ok; rewrite Hh, Hk; apply Hwf|rewrite Hf; apply Hwf|unfold nk; rewrite Hk; lia]. }
  replace n with (n + 0) by lia. eapply comp_trans; [exact Hc|exact Ht| |].
  - eapply ready_trans; [exact Hr|exact Ht|done|]. pose proof (rd_nontemp _ _ _ _ _ _ Hr) as Hn. destruct (ek e); try done. cbn in *. by rewrite (ext_nact _ _ Hx).
  - pose proof (cm_const _ _ _ _ _ _ _ _ _ _ _ _ _ _ Hc) as Hcc. unfold const_ok in *. by rewrite Hk.
Qed.

(** ** The instruction of an operator *)

Lemma wpc_emit_op {A} base n (ev : regs -> res A) P (op : A -> res TValue) fs J fs1 J1 o k1 k2 o1 o2 line (Q : expdesc -> FuncState -> Prop) :
  stage base n ev P fs J fs1 J1 -> nactvar fs1 <= base -> base + 2 < MAXSTACK ->
  (if o1 >? o2 then stacked base fs1 k1 k2 else stacked base fs1 k2 k1) -> room 1 fs1 -> abc_ok 0 o1 o2 -> is_value o = true -> reads_ok (k fs1) o o1 o2 ->
  (o = OP_CONCAT -> o1 = base /\ o1 < o2 < 256) -> o <> OP_NOT -> (forall R v R', run_value rt U (k fs1) o o1 o2 R = Ok (v, R') -> same base R R') ->
  (forall a R, P a R -> fst <$> run_value rt U (k fs1) o o1 o2 R = op a) ->
  (forall fs2 e', comp base (n + 1) (fun R => a ← ev R; op a) fs J fs2 [] e' [] [] -> Q e' fs2) ->
  wpc (_ ← (if o1 >? o2 then _ ← freeexp (init_exp k1); freeexp (init_exp k2) else _ ← freeexp (init_exp k2); freeexp (init_exp k1));
       p ← luaK_codeABC o 0 o1 o2; _ ← luaK_fixline line; mret (with_kind (init_exp k1) (VRELOCABLE p))) fs1 Q.
Proof.
  intros Hst Hb Hm Hs Hroom Hok Hv Hr Hcc Hnot Hsame Hop HQ. pose proof (sg_wf _ _ _ _ _ _ _ _ _ _ _ _ Hst) as Hwf. pose proof (wf_regs _ _ Hwf) as Hrg.
  assert (Htail : forall fs2, ext fs1 fs2 -> h fs2 = h fs1 -> k fs2 = k fs1 -> freereg fs2 = base ->
    wpc (p ← luaK_codeABC o 0 o1 o2; _ ← luaK_fixline line; mret (with_kind (init_exp k1) (VRELOCABLE p))) fs2 Q).
  { intros fs2 Hx Hh Hk Hf. assert (stage base n ev P fs J fs2 J1) as Hst2 by (eapply stage_ext; [exact Hst|done|done|done|lia]).
    apply wpc_bind. assert (room 1 fs2) as Hroom2 by (unfold room, nk in *; rewrite (ext_pc _ _ Hx), Hk; done).
    eapply wpc_code; [apply Hst2|unfold room in Hroom2; lia|]. intros fs3 Hem. apply wpc_bind. unfold wpc, luaK_fixline, putfs. cbn.
    eapply (HQ (set_lineinfo _ fs3)). eapply comp_ext; [|split; cbn; try done|done|done|done].
    eapply (stage_value rt U other S0 base n ev P op fs J fs2 J1 o o1 o2 fs3); try done; rewrite ?Hk; try done; lia. }
  apply wpc_bind. destruct (o1 >? o2).
  - eapply (wpc_frees base (init_exp k1) (init_exp k2)); [lia|done|done|exact Htail].
  - eapply (wpc_frees base (init_exp k2) (init_exp k1)); [lia|done|done|exact Htail].
Qed.

Lemma exp2RK_operand base fs kk x (Q : Z * expdesc -> FuncState -> Prop) : operand base fs kk x -> Q (x, init_exp kk) fs -> wpc (luaK_exp2RK (init_exp kk)) fs Q.
Proof.
  intros Ho HQ. unfold luaK_exp2RK. destruct kk as [| | | |i| |r| | | | | | |]; try done; cbn in Ho.
  - destruct Ho as (Hi & _ & ->). apply wpc_bind. change (wpc (n ← getfs nk; if i <=? MAXINDEXRK then mret (RKASK i, init_exp (VK i)) else e ← luaK_exp2anyreg (init_exp (VK i)); mret (info e, e)) fs Q).
    apply wpc_bind, wpc_getfs. rewrite (proj2 (Z.leb_le _ _)) by lia. by apply wpc_ret.
  - destruct Ho as [-> _]. exact HQ.
Qed.
(** ** Two operands *)

(** Where the left operand waits for the right one. *)
Definition lhs (base : Z) (fs : FuncState) (kk : expkind) : Prop := (exists r, kk = VKNUM r /\ in_u 64 r) \/ exists x, operand base fs kk x.

Definition pairs (fs : FuncState) (k1 k2 : expkind) (ab : TValue * TValue) (R : regs) : Prop := kval U fs k1 R = Ok (fst ab) /\ kval U fs k2 R = Ok (snd ab).

(** Operand [x1] is below operand [x2], or was loaded after it. *)
Record ops2 (base : Z) (fs : FuncState) (k1 k2 : expkind) (x1 x2 : Z) : Prop := {
  o2_rk1 : rk_ok (k fs) x1;
  o2_rk2 : rk_ok (k fs) x2;
  o2_val1 R v : kval U fs k1 R = Ok v -> RK (k fs) R x1 = Ok v;
  o2_val2 R v : kval U fs k2 R = Ok v -> RK (k fs) R x2 = Ok v;
  o2_free : if x1 >? x2 then stacked base fs k1 k2 else stacked base fs k2 k1;
}.

Lemma stacked_swap base fs ka kb : stacked base fs ka kb -> temp fs ka && temp fs kb = false -> stacked base fs kb ka.
Proof.
  intros (Hf & Hb & Ha) Ht. unfold stacked. cbv zeta in *. destruct (temp fs ka), (temp fs kb); try done; split_and!; try done; lia.
Qed.

Lemma operand_kval base fs kk x R : operand base fs kk x -> exists v, kval U fs kk R = Ok v.
Proof.
  destruct kk as [| | | |i| |r| | | | | | |]; try done; cbn; [|by eauto]. intros (H1 & H2 & _). unfold nk in H2.
  destruct (lookup_lt_is_Some_2 (k fs) (Z.to_nat i)) as [v ->]; [lia|by exists v].
Qed.

Lemma temp_operand base fs kk x : operand base fs kk x -> temp fs kk = true -> kk = VNONRELOC base /\ x = base.
Proof. destruct kk as [| | | |i| |r| | | | | | |]; try done; cbn. intros [-> Hr] Ht%Z.leb_le. assert (r = base) as -> by lia. done. Qed.

Lemma ops2_intro base fs k1 k2 x1 x2 :
  0 <= nactvar fs <= base -> base + 2 < MAXSTACK -> operand base fs k1 x1 -> operand (next base fs k1) fs k2 x2 -> freereg fs = next (next base fs k1) fs k2 -> ops2 base fs k1 k2 x1 x2.
Proof.
  change MAXSTACK with 250. intros Hb Hm H1 H2 Hf. assert (base <= next base fs k1 <= base + 1) as Hn by (unfold next; destruct (temp fs k1); lia).
  assert (stacked base fs k2 k1) as Hs by (apply stacked_two; [lia|done|by eapply operand_temp|by eapply operand_temp]).
  split; try (eapply operand_rk; [eassumption|lia|change MAXSTACK with 250; lia]); try (intros R v; eapply operand_val; [eassumption|lia|change MAXSTACK with 250; lia]).
  rewrite Z.gtb_ltb. destruct (Z.ltb_spec x2 x1); [|done]. apply stacked_swap; [done|]. apply andb_false_iff.
  destruct (temp fs k2) eqn:E2; [right|by left]. destruct (temp fs k1) eqn:E1; [|done]. destruct (temp_operand _ _ _ _ H1 E1) as [_ ->]. destruct (temp_operand _ _ _ _ H2 E2) as [_ ->]. lia.
Qed.

Lemma ops2_late base fs k1 k2 x1 x2 :
  0 <= nactvar fs <= base -> base + 2 < MAXSTACK -> operand base fs k2 x2 -> operand (next base fs k2) fs k1 x1 -> freereg fs = next (next base fs k2) fs k1 -> ops2 base fs k1 k2 x1 x2.
Proof.
  change MAXSTACK with 250. intros Hb Hm H2 H1 Hf. assert (base <= next base fs k2 <= base + 1) as Hn by (unfold next; destruct (temp fs k2); lia).
  assert (stacked base fs k1 k2) as Hs by (apply stacked_two; [lia|done|by eapply operand_temp|by eapply operand_temp]).
  split; try (eapply operand_rk; [eassumption|lia|change MAXSTACK with 250; lia]); try (intros R v; eapply operand_val; [eassumption|lia|change MAXSTACK with 250; lia]).
  rewrite Z.gtb_ltb. destruct (Z.ltb_spec x2 x1); [done|]. apply stacked_swap; [done|]. apply andb_false_iff.
  destruct (temp fs k2) eqn:E2; [|by right]. destruct (temp fs k1) eqn:E1; [|by left]. destruct (temp_operand _ _ _ _ H1 E1) as [_ ->]. destruct (temp_operand _ _ _ _ H2 E2) as [_ ->].
  unfold next in *. rewrite E2 in *. lia.
Qed.

Lemma local_ev_le {A} n m (ev : regs -> res A) : local_ev n ev -> n <= m -> local_ev m ev.
Proof. intros Hl Hle R R' Hs. apply Hl. intros r Hr. apply Hs. lia. Qed.

Definition pair_ev (ev1 ev2 : regs -> res TValue) (R : regs) : res (TValue * TValue) := a ← ev1 R; b ← ev2 R; Ok (a, b).

(** The right operand joins the left one. *)
Lemma stage_pair base n1 n2 m ev1 ev2 fs J fs2 J2 kk1 fs3 J3 e2 T F fs4 J4 kk2 x2 :
  stage base n1 ev1 (fun v R => kval U fs2 kk1 R = Ok v) fs J fs2 J2 -> lhs base fs2 kk1 -> freereg fs2 = next base fs2 kk1 -> nactvar fs2 <= base ->
  comp (next base fs2 kk1) n2 ev2 fs2 J2 fs3 J3 e2 T F -> local_ev base ev2 ->
  trans (next base fs2 kk1) m fs3 J3 e2 T F fs4 J4 (init_exp kk2) [] [] -> operand (next base fs2 kk1) fs4 kk2 x2 ->
  stage base (n1 + (n2 + m)) (pair_ev ev1 ev2) (pairs fs4 kk1 kk2) fs J fs4 J4.
Proof.
  intros Hst Hl Hf Hb Hc He Ht Ho.
  pose proof (comp_stage _ _ _ _ _ _ _ _ _ _ _ _ _ _ _ _ _ _ Hc Ht (operand_simple _ _ _ _ Ho) (fun R => operand_kval _ _ _ _ R Ho)) as Hst2.
  eapply stage_bind; [exact Hst|exact Hst2|unfold next; destruct (temp fs2 kk1); lia|done|]. intros a b R1 R2 Hs _ H1 H2. split; [|exact H2]. cbn [fst].
  eapply kval_prefix; [exact (proj1 (sg_fr _ _ _ _ _ _ _ _ _ _ _ _ Hst2))|]. eapply kval_same; [exact Hs| | |exact H1].
  - destruct Hl as [(r & -> & _)|[x Hx]]; [done|by eapply operand_simple].
  - destruct Hl as [(r & -> & _)|[x Hx]]; [by intros ? [?|?]|by eapply operand_below].
Qed.
(** Both operands are there. *)
Definition operands (base n : Z) (ev1 ev2 : regs -> res TValue) (fs : FuncState) (J : list Z) (fs' : FuncState) (J' : list Z) (k1 k2 : expkind) (x1 x2 : Z) : Prop :=
  stage base n (pair_ev ev1 ev2) (pairs fs' k1 k2) fs J fs' J' /\ ops2 base fs' k1 k2 x1 x2 /\ nactvar fs' <= base.

Section Binary.
Context (base n1 n2 : Z) (ev1 ev2 : regs -> res TValue) (fs : FuncState) (J : list Z) (fs2 : FuncState) (J2 : list Z) (kk1 : expkind).
Context (fs3 : FuncState) (J3 : list Z) (e2 : expdesc) (T F : list Z).
Hypothesis Hst : stage base n1 ev1 (fun v R => kval U fs2 kk1 R = Ok v) fs J fs2 J2.
Hypothesis Hlhs : lhs base fs2 kk1.
Hypothesis Hfree : freereg fs2 = next base fs2 kk1.
Hypothesis Hnact : 0 <= nactvar fs2 <= base.
Hypothesis Hmax : base + 2 < MAXSTACK.
Hypothesis Hcomp : comp (next base fs2 kk1) n2 ev2 fs2 J2 fs3 J3 e2 T F.
Hypothesis Hloc : local_ev base ev2.

Lemma bin_next : base <= next base fs2 kk1 <= base + 1.
Proof. unfold next. destruct (temp fs2 kk1); lia. Qed.

Lemma bin_nact3 : nactvar fs3 = nactvar fs2.
Proof. apply Hcomp. Qed.

Lemma wpc_operand2 (Q : Z * expdesc -> FuncState -> Prop) :
  room 21 fs3 ->
  (forall fs4 J4 kk2 x2, stage base (n1 + (n2 + 21)) (pair_ev ev1 ev2) (pairs fs4 kk1 kk2) fs J fs4 J4 -> operand (next base fs2 kk1) fs4 kk2 x2 ->
    nactvar fs4 = nactvar fs2 -> k fs2 `prefix_of` k fs4 -> freereg fs4 = next (next base fs2 kk1) fs4 kk2 -> cost 21 fs3 fs4 -> Q (x2, init_exp kk2) fs4) ->
  wpc (luaK_exp2RK e2) fs3 Q.
Proof.
  intros Hroom HQ. pose proof bin_next as Hn. eapply (wpc_exp2RK rt U other S0 (next base fs2 kk1) fs3 J3 e2 T F); [apply Hcomp|done|]. intros fs4 J4 kk2 x2 Ht Ho.
  assert (nactvar fs4 = nactvar fs2) as Hna by (rewrite (tr_nact _ _ _ _ _ _ _ _ _ _ _ _ _ _ _ _ Ht); exact bin_nact3).
  destruct (is_operand_split (next base fs2 kk1) fs4 kk2 x2) as [Ho' Hf]; [lia|done|]. apply (HQ fs4 J4); try done; [|  |apply Ht].
  - eapply (stage_pair base n1 n2 21 ev1 ev2 fs J fs2 J2 kk1 fs3 J3 e2 T F fs4 J4 kk2 x2); try done. lia.
  - etrans; [apply (cm_fr _ _ _ _ _ _ _ _ _ _ _ _ _ _ Hcomp)|apply (tr_fr _ _ _ _ _ _ _ _ _ _ _ _ _ _ _ _ Ht)].
Qed.

(** The left operand, when it is a numeral, is loaded after the right one. *)
Lemma wpc_operand1 fs4 J4 kk2 x2 (Q : Z * expdesc -> FuncState -> Prop) :
  stage base (n1 + (n2 + 21)) (pair_ev ev1 ev2) (pairs fs4 kk1 kk2) fs J fs4 J4 -> operand (next base fs2 kk1) fs4 kk2 x2 ->
  nactvar fs4 = nactvar fs2 -> k fs2 `prefix_of` k fs4 -> freereg fs4 = next (next base fs2 kk1) fs4 kk2 -> room 21 fs4 ->
  (forall fs5 J5 k1 x1, operands base (n1 + n2 + 42) ev1 ev2 fs J fs5 J5 k1 kk2 x1 x2 -> cost 21 fs4 fs5 -> Q (x1, init_exp k1) fs5) ->
  wpc (luaK_exp2RK (init_exp kk1)) fs4 Q.
Proof.
  intros Hst4 Ho2 Hna HK Hf Hroom HQ. pose proof bin_next as Hn. destruct Hlhs as [(r & -> & Hr)|[x1 Hx1]].
  - change (next base fs2 (VKNUM r)) with base in *. set (base3 := next base fs4 kk2) in *.
    assert (base <= base3 <= base + 1) as Hb3 by (unfold base3, next; destruct (temp fs4 kk2); lia). change MAXSTACK with 250 in *.
    pose proof (sg_wf _ _ _ _ _ _ _ _ _ _ _ _ Hst4) as Hwf4.
    assert (comp base3 0 (kval U fs4 (VKNUM r)) fs4 J4 fs4 J4 (init_exp (VKNUM r)) [] []) as Hc1.
    { apply comp_const; try done; [apply Hwf4|change MAXSTACK with 250; lia|lia]. }
    eapply (wpc_exp2RK rt U other S0 base3 fs4 J4 (init_exp (VKNUM r)) [] []); [apply Hc1|done|]. intros fs5 J5 k1 x1 Ht Ho.
    assert (nactvar fs5 = nactvar fs4) as Hna5 by apply Ht. destruct (is_operand_split base3 fs5 k1 x1) as [Ho1 Hf5]; [lia|done|].
    pose proof (comp_stage _ _ _ _ _ _ _ _ _ _ _ _ _ _ _ _ _ _ Hc1 Ht (operand_simple _ _ _ _ Ho1) (fun R => operand_kval _ _ _ _ R Ho1)) as Hst5.
    pose proof (proj1 (sg_fr _ _ _ _ _ _ _ _ _ _ _ _ Hst5)) as HK5. assert (operand base fs5 kk2 x2) as Ho2' by (by eapply operand_frame).
    assert (base3 = next base fs5 kk2) as E3 by (unfold base3, next; by rewrite (temp_frame fs4 fs5)).
    apply (HQ fs5 J5 k1 x1); [|apply Ht]. split_and!; [| |lia].
    + eapply (stage_mono rt U other S0 base (n1 + (n2 + 21) + (0 + 21)) _ (fun R => ab ← pair_ev ev1 ev2 R; c ← kval U fs4 (VKNUM r) R; Ok (ab, c)) _ fst
        (fun abc R => pairs fs5 k1 kk2 (fst abc) R)); [|lia| |done].
      * eapply stage_bind; [exact Hst4|exact Hst5|lia|by intros R R' _|]. intros [a b] c R1 R2 Hs Ec [H1 H2] H3. cbn in Ec, H1, H2. assert (c = a) as -> by congruence.
        split; [exact H3|]. cbn. eapply kval_prefix; [exact HK5|]. eapply kval_same; [exact Hs|by eapply operand_simple| |exact H2]. eapply operand_below; [exact Ho2|lia].
      * intros R. by destruct (pair_ev ev1 ev2 R).
    + apply ops2_late; try done; [lia|by rewrite <- E3|by rewrite <- E3].
  - assert (operand base fs4 kk1 x1) as Hx1' by (by eapply operand_frame). assert (next base fs2 kk1 = next base fs4 kk1) as E by (unfold next; by rewrite (temp_frame fs2 fs4)).
    eapply exp2RK_operand; [exact Hx1'|]. apply (HQ fs4 J4); [|by apply cost_refl]. split_and!; [|rewrite E in *; apply ops2_intro; try done; lia|lia].
    eapply (stage_mono _ _ _ _ _ _ _ _ _ id); [exact Hst4|lia|intros R; by destruct (pair_ev ev1 ev2 R)|done].
Qed.
End Binary.
(** ** Arithmetic *)

Lemma pair_ev_bind ev1 ev2 (op : TValue -> TValue -> res TValue) R :
  (ab ← pair_ev ev1 ev2 R; op (fst ab) (snd ab)) = (a ← ev1 R; b ← ev2 R; op a b).
Proof. unfold pair_ev. destruct (ev1 R) as [a|]; [|done]. cbn. by destruct (ev2 R). Qed.

Lemma arith_value o f tm : arith_of o = Some (f, tm) -> is_value o = true /\ o <> OP_CONCAT /\ o <> OP_NOT /\
  (forall K b c, rk_ok K b -> rk_ok K c -> reads_ok K o b c) /\
  (forall K b c R, run_value rt U K o b c R = (x ← RK K R b; y ← RK K R c; v ← vm_arith rt f tm x y; Ok (v, R))) /\
  (forall a b, luaO_arith (opcode_Z o - opcode_Z OP_ADD + LUA_OPADD) a b = f a b).
Proof. intros E. destruct o; try discriminate E; injection E as <- <-; split_and!; try done. Qed.

Lemma wpc_codearith_op o f tm base n1 n2 ev1 ev2 fs J fs2 J2 kk1 fs3 J3 e2 T F line (Q : expdesc -> FuncState -> Prop) `{!LuaNumberLaws} :
  arith_of o = Some (f, tm) ->
  stage base n1 ev1 (fun v R => kval U fs2 kk1 R = Ok v) fs J fs2 J2 -> lhs base fs2 kk1 -> freereg fs2 = next base fs2 kk1 -> 0 <= nactvar fs2 <= base -> base + 2 < MAXSTACK ->
  comp (next base fs2 kk1) n2 ev2 fs2 J2 fs3 J3 e2 T F -> local_ev base ev2 -> room 43 fs3 ->
  (forall fs' J' e' , comp base (n1 + n2 + 43) (fun R => a ← ev1 R; b ← ev2 R; vm_arith rt f tm a b) fs J fs' J' e' [] [] -> Q e' fs') ->
  wpc (codearith o (init_exp kk1) e2 line) fs3 Q.
Proof.
  intros Ho Hst Hlhs Hf Hna Hm Hc Hloc Hroom HQ. unfold codearith. destruct (constfolding o (init_exp kk1) e2) as [e|] eqn:Ec.
  - unfold constfolding in Ec. cbn [ek init_exp] in Ec. destruct kk1 as [| | | | |a| | | | | | | |]; try done. destruct (ek e2) as [| | | | |b| | | | | | | |] eqn:Ek; try done.
    destruct (negb (isnumeral (init_exp (VKNUM a))) || negb (isnumeral e2)) eqn:En; [done|]. destruct (match o with OP_DIV | OP_MOD => luai_numeq b 0 | _ => false end); [done|]. injection Ec as <-.
    apply orb_false_iff in En as [_ En]. apply negb_false_iff in En. unfold isnumeral in En. rewrite Ek in En. apply andb_true_iff in En as [Et Ef]. apply Z.eqb_eq in Et, Ef.
    assert (T = [] /\ F = []) as [-> ->].
    { pose proof (rd_we _ _ _ _ _ _ (cm_ready _ _ _ _ _ _ _ _ _ _ _ _ _ _ Hc)) as [_ HT HF _ _ _ _]. rewrite Et in HT. rewrite Ef in HF. split; by eapply chain_NO_JUMP. }
    assert (e2 = init_exp (VKNUM b)) as -> by (destruct e2; cbn in *; by subst). change (next base fs2 (VKNUM a)) with base in *.
    destruct (arith_value o f tm Ho) as (_ & _ & _ & _ & _ & Ea). cbn [with_kind init_exp et ef]. rewrite Ea. apply wpc_ret. apply (HQ fs3 J3). pose proof (cm_ready _ _ _ _ _ _ _ _ _ _ _ _ _ _ Hc) as Hr.
    assert (stage base (n1 + (n2 + 0)) (pair_ev ev1 ev2) (fun ab R => ab = (LNumber a, LNumber b)) fs J fs3 J3) as Hst2.
    { eapply stage_bind; [exact Hst|eapply comp_stage; [exact Hc|apply trans_refl; [done|apply Hr]|done|by eauto]|done|done|]. intros x y R1 R2 _ _ [= <-] [= <-]. done. }
    eapply comp_le; [eapply comp_ev; [eapply (stage_const _ _ _ _ base _ _ _ (fun ab => vm_arith rt f tm (fst ab) (snd ab)) fs J fs3 J3 (VKNUM (f a b))); [exact Hst2|apply Hr|apply Hr|done| |done|done|]|]|lia].
    + cbn. rewrite <- Ea. apply luaO_arith_range.
    + by intros ab R ->.
    + intros R. symmetry. exact (pair_ev_bind ev1 ev2 (vm_arith rt f tm) R).
  - destruct (arith_value o f tm Ho) as (Hv & Hn1 & Hn2 & Hrd & Hrun & _). apply wpc_bind.
    assert (match o with OP_UNM | OP_LEN => mret (0, e2) | _ => luaK_exp2RK e2 end = luaK_exp2RK e2) as -> by (by destruct o).
    eapply (wpc_operand2 base n1 n2 ev1 ev2 fs J fs2 J2 kk1 fs3 J3 e2 T F); try done; [by eapply room_le|]. intros fs4 J4 kk2 x2 Hst4 Ho2 Hna4 HK Hf4 Hc4. apply wpc_bind.
    eapply (wpc_operand1 base n1 n2 ev1 ev2 fs J fs2 J2 kk1 fs3 J3 e2 T F); try done.
    { eapply (room_cost 21 21); [by eapply room_le|done]. }
    intros fs5 J5 k1 x1 (Hst5 & [R1 R2 V1 V2 Hfr] & Hna5) Hc5. 
    eapply (wpc_emit_op base (n1 + n2 + 42) _ _ (fun ab => vm_arith rt f tm (fst ab) (snd ab)) fs J fs5 J5); [exact Hst5|done|done|done| |destruct R1, R2; unfold abc_ok; lia|done|by apply Hrd|done|done| | |].
    { eapply (room_cost 42 1); [exact Hroom|]. by eapply (cost_trans 21 21). }
    + intros R v R'. rewrite Hrun. destruct (RK (k fs5) R x1) as [a|]; [|done]. cbn. destruct (RK (k fs5) R x2) as [b|]; [|done]. cbn. destruct (vm_arith rt f tm a b); [|done]. cbn. intros [= _ <-]. apply same_refl.
    + intros [a b] R [Ha Hb]. rewrite Hrun. rewrite (V1 R a Ha), (V2 R b Hb). cbn. by destruct (vm_arith rt f tm a b).
    + intros fs6 e' Hc6. eapply HQ, comp_le; [eapply comp_ev; [exact Hc6|]|lia]. intros R. symmetry. exact (pair_ev_bind ev1 ev2 (vm_arith rt f tm) R).
Qed.
(** ** Comparison *)

Definition comparison (o : OpCode) (cond : bool) (a b : TValue) : res bool :=
  if cond then compare rt o a b
  else match o with OP_EQ => negb <$> compare rt o a b | _ => compare rt o b a end.

Lemma run_compare K o a b c R x y : o = OP_EQ \/ o = OP_LT \/ o = OP_LE -> RK K R b = Ok x -> RK K R c = Ok y -> run_test rt K o a b c R = (r ← compare rt o x y; Ok (b2z r =? a)).
Proof. intros Ho Hb Hc. destruct Ho as [->|[->| ->]]; cbn [run_test]; by rewrite Hb, Hc. Qed.

Lemma wpc_codecomp_op o cond base n1 n2 ev1 ev2 fs J fs2 J2 kk1 x1 fs3 J3 e2 T F (Q : expdesc -> FuncState -> Prop) :
  o = OP_EQ \/ o = OP_LT \/ o = OP_LE ->
  stage base n1 ev1 (fun v R => kval U fs2 kk1 R = Ok v) fs J fs2 J2 -> operand base fs2 kk1 x1 -> freereg fs2 = next base fs2 kk1 -> 0 <= nactvar fs2 <= base -> base + 2 < MAXSTACK ->
  comp (next base fs2 kk1) n2 ev2 fs2 J2 fs3 J3 e2 T F -> local_ev base ev2 -> room 23 fs3 ->
  (forall fs' J' e' , comp base (n1 + n2 + 23) (fun R => a ← ev1 R; b ← ev2 R; LBool <$> comparison o cond a b) fs J fs' J' e' [] [] -> Q e' fs') ->
  wpc (codecomp o cond (init_exp kk1) e2) fs3 Q.
Proof.
  intros Ho Hst Ho1 Hf Hna Hm Hc Hloc Hroom HQ. unfold codecomp. pose proof (cm_nact _ _ _ _ _ _ _ _ _ _ _ _ _ _ Hc) as Hna3.
  assert (k fs2 `prefix_of` k fs3) as HK3 by apply (cm_fr _ _ _ _ _ _ _ _ _ _ _ _ _ _ Hc). apply wpc_bind. eapply exp2RK_operand; [by eapply operand_frame|].
  apply wpc_bind. assert (lhs base fs2 kk1) as Hl by (right; by exists x1).
  eapply (wpc_operand2 base n1 n2 ev1 ev2 fs J fs2 J2 kk1 fs3 J3 e2 T F); try done; [by eapply room_le|]. intros fs4 J4 kk2 x2 Hst4 Ho2 Hna4 HK Hf4 Hc4.
  assert (operand base fs4 kk1 x1) as Ho1' by (by eapply operand_frame). assert (next base fs2 kk1 = next base fs4 kk1) as E by (unfold next; by rewrite (temp_frame fs2 fs4)). rewrite E in *.
  destruct (ops2_intro base fs4 kk1 kk2 x1 x2) as [R1 R2 V1 V2 _]; try done; [lia|].
  assert (Htail : forall fs5, ext fs4 fs5 -> h fs5 = h fs4 -> k fs5 = k fs4 -> freereg fs5 = base ->
    wpc (j ← (if negb cond && negb (opcode_Z o =? opcode_Z OP_EQ) then condjump o 1 x2 x1 else condjump o (if cond then 1 else 0) x1 x2); mret (with_kind (init_exp kk1) (VJMP j))) fs5 Q).
  { intros fs5 Hx Hh Hk Hf5. assert (stage base (n1 + (n2 + 21)) (pair_ev ev1 ev2) (pairs fs4 kk1 kk2) fs J fs5 J4) as Hst5.
    { eapply stage_ext; [exact Hst4|done|done|done|]. rewrite Hf5. change MAXSTACK with 250 in *. lia. }
    assert (room 2 fs5) as Hroom5.
    { unfold room, nk in *. unfold cost, nk in Hc4. rewrite (ext_pc _ _ Hx), Hk. lia. }
    assert (Hj : forall a b c, a = 0 \/ a = 1 -> rk_ok (k fs5) b -> rk_ok (k fs5) c ->
      (forall ab R, pairs fs4 kk1 kk2 ab R -> run_test rt (k fs5) o a b c R = comparison o cond (fst ab) (snd ab)) ->
      wpc (j ← condjump o a b c; mret (with_kind (init_exp kk1) (VJMP j))) fs5 Q).
    { intros a b c Ha Hb Hcc Hrun. assert (abc_ok a b c) as Hok by (destruct Hb, Hcc; unfold abc_ok; lia). apply wpc_bind. eapply wpc_condjump; [apply Hst5|done| |].
      { rewrite isop_ABC by done. by destruct Ho as [->|[->| ->]]. }
      intros fs6 fs7 Hem6 W6 Hem7 W7. apply wpc_ret. eapply HQ. eapply comp_le; [eapply comp_ev; [eapply (stage_jump _ _ _ _ base _ _ _ (fun ab => comparison o cond (fst ab) (snd ab)));
        [exact Hst5|done|change MAXSTACK with 250 in *; lia|exact Hem6|done|exact Hem7|done|done|done|done|done| |exact Hrun]|]|lia].
      - by destruct Ho as [->|[->| ->]].
      - intros R. symmetry. exact (pair_ev_bind ev1 ev2 (fun a b => LBool <$> comparison o cond a b) R). }
    rewrite Hk in Hj. destruct cond; [|destruct (decide (o = OP_EQ)) as [->|Hne]].
    - apply Hj; [by right|done|done|]. intros [a b] R [Ha Hb]. rewrite (run_compare _ _ _ _ _ _ a b) by auto. cbn [fst snd comparison]. by destruct (compare rt o a b) as [[]|].
    - apply Hj; [by left|done|done|]. intros [a b] R [Ha Hb]. rewrite (run_compare _ _ _ _ _ _ a b) by auto. cbn [fst snd comparison]. by destruct (compare rt OP_EQ a b) as [[]|].
    - rewrite (proj2 (Z.eqb_neq (opcode_Z o) _)) by (by intros ?%opcode_Z_inj). apply Hj; [by right|done|done|]. intros [a b] R [Ha Hb]. rewrite (run_compare _ _ _ _ _ _ b a) by auto.
      cbn [fst snd]. assert (comparison o false a b = compare rt o b a) as -> by (by destruct Ho as [->|[->| ->]]). by destruct (compare rt o b a) as [[]|]. }
  apply wpc_seq. eapply (wpc_frees base); [lia|done| |exact Htail]. apply stacked_two; [lia|done|by eapply operand_temp|by eapply operand_temp].
Qed.
(** ** Operators with one operand *)

Definition un_value (o : OpCode) (v : TValue) : res TValue := match o with OP_UNM => vm_unm rt v | _ => luaV_objlen rt v end.

Lemma in_reg_operand base fs r : nactvar fs <= base -> in_reg base fs r -> operand base fs (VNONRELOC r) r /\ freereg fs = next base fs (VNONRELOC r).
Proof. intros Hb Hin. by apply is_operand_split. Qed.

Lemma wpc_codearith_un o base n ev fs J fs1 J1 e T F line (Q : expdesc -> FuncState -> Prop) :
  o = OP_UNM \/ o = OP_LEN -> comp base n ev fs J fs1 J1 e T F -> base + 2 < MAXSTACK -> room 11 fs1 ->
  (forall fs' J' e', comp base (n + 11) (fun R => a ← ev R; un_value o a) fs J fs' J' e' [] [] -> Q e' fs') ->
  wpc (e ← luaK_exp2anyreg e; codearith o e (init_exp (VKNUM 0)) line) fs1 Q.
Proof.
  intros Ho Hc Hm Hroom HQ. pose proof (cm_ready _ _ _ _ _ _ _ _ _ _ _ _ _ _ Hc) as Hr. pose proof (rd_nact _ _ _ _ _ _ Hr) as Hna. apply wpc_bind.
  eapply (wpc_exp2anyreg rt U other S0 base fs1 J1 e T F); [done|by eapply room_le|]. intros fs2 J2 r Ht Hin. pose proof (tr_nact _ _ _ _ _ _ _ _ _ _ _ _ _ _ _ _ Ht) as Hna2.
  destruct (in_reg_operand base fs2 r ltac:(lia) Hin) as [Hop Hf].
  pose proof (comp_stage _ _ _ _ _ _ _ _ _ _ _ _ _ _ _ _ _ _ Hc Ht (operand_simple _ _ _ _ Hop) (fun R => operand_kval _ _ _ _ R Hop)) as Hst.
  unfold codearith. cbn [constfolding ek init_exp]. apply wpc_bind. assert (match o with OP_UNM | OP_LEN => mret (0, init_exp (VKNUM 0)) | _ => luaK_exp2RK (init_exp (VKNUM 0)) end = mret (0, init_exp (VKNUM 0))) as ->
    by (by destruct Ho as [->| ->]).
  apply wpc_ret, wpc_bind. eapply exp2RK_operand; [exact Hop|]. assert (0 <= r < 256) as Hrr by (destruct Hin as [[Hx _]|[-> _]]; change MAXSTACK with 250 in *; lia).
  assert (stacked base fs2 (VKNUM 0) (VNONRELOC r)) as Hs by (apply stacked_two; [lia|done|by eapply operand_temp|by intros x [? _]]).
  eapply (wpc_emit_op base (n + 10) ev _ (un_value o) fs J fs2 J2 o); [exact Hst|lia|done| | |unfold abc_ok; lia|by destruct Ho as [->| ->]|by destruct Ho as [->| ->]|by destruct Ho as [->| ->]|by destruct Ho as [->| ->]| | |].
  - destruct (r >? 0); [|done]. by apply stacked_swap.
  - eapply (room_cost 10 1); [exact Hroom|apply Ht].
  - intros R v R'. destruct Ho as [->| ->]; cbn [run_value].
    + destruct (vm_unm rt (R r)); [|done]. cbn. intros [= _ <-]. apply same_refl.
    + destruct (luaV_objlen rt (R r)); [|done]. cbn. intros [= _ <-]. apply same_refl.
  - intros a R [= <-]. destruct Ho as [->| ->]; cbn [run_value un_value]; [by destruct (vm_unm rt (R r))|by destruct (luaV_objlen rt (R r))].
  - intros fs' e' Hc'. eapply HQ, comp_le; [exact Hc'|lia].
Qed.

(** ** Concatenation *)

(** A temporary stays where it is. *)
Lemma exp2nextreg_temp r fs (Q : expdesc -> FuncState -> Prop) :
  0 <= nactvar fs <= r -> freereg fs = r + 1 -> r + 1 < MAXSTACK ->
  (forall fs', ext fs fs' -> h fs' = h fs -> k fs' = k fs -> freereg fs' = r + 1 -> Q (init_exp (VNONRELOC r)) fs') ->
  wpc (luaK_exp2nextreg (init_exp (VNONRELOC r))) fs Q.
Proof.
  intros Hna Hf Hm HQ. unfold luaK_exp2nextreg. apply wpc_bind, wpc_ret, wpc_bind. change MAXSTACK with 250 in *.
  apply (wpc_free_top r); [lia|change MAXSTACK with 250; lia|done|cbn; rewrite (proj2 (Z.leb_le _ _)) by lia; done|]. intros fs1 X1 Hh1 Hk1 Hf1. apply wpc_bind.
  apply wpc_reserveregs; [lia|lia|change MAXSTACK with 250; lia|]. intros fs2 X2 Hh2 Hk2 Hf2. apply wpc_bind, wpc_getfs. rewrite Hf2. replace (freereg fs1 + 1 - 1) with r by lia.
  unfold exp2reg. apply wpc_bind. unfold discharge2reg. apply wpc_bind, wpc_ret. cbn [ek init_exp]. rewrite Z.eqb_refl. apply wpc_ret, wpc_bind, wpc_ret, wpc_bind, wpc_ret, wpc_ret.
  apply HQ; try congruence; try lia. destruct X1, X2. split; congruence || by etrans.
Qed.

(** The instruction of the right operand takes the left one in. *)
Lemma concat_merge base n1 n2 m ev1 ev2 fs J fs2 J2 fs3 J3 e2 T F fs4 J4 p c fs5 :
  stage base n1 ev1 (fun v R => kval U fs2 (VNONRELOC base) R = Ok v) fs J fs2 J2 -> nactvar fs2 <= base -> comp (base + 1) n2 ev2 fs2 J2 fs3 J3 e2 T F -> local_ev base ev2 ->
  trans (base + 1) m fs3 J3 e2 T F fs4 J4 (init_exp (VRELOCABLE p)) [] [] -> instr_at (code fs4) p = Some (ABC OP_CONCAT 0 (base + 1) c) -> base + 1 < c < 256 -> 0 <= base -> base + 2 < MAXSTACK ->
  ext fs4 fs5 -> k fs5 = k fs4 -> h fs5 = h fs4 -> freereg fs5 = base ->
  comp base (n1 + (n2 + m)) (fun R => a ← ev1 R; b ← ev2 R; concat2 rt a b) fs J (set_code (upd (code fs5) p (ABC OP_CONCAT 0 base c)) fs5) [] (init_exp (VRELOCABLE p)) [] [].
Proof.
  intros [W1 F1 N1 C1 O1] Hna Hc Hloc Ht Hi Hc256 Hb Hm Hx Hk Hh Hf. change MAXSTACK with 250 in Hm. pose proof (tr_we _ _ _ _ _ _ _ _ _ _ _ _ _ _ _ _ Ht) as Hwe4.
  pose proof (we_kind _ _ _ _ _ _ Hwe4) as Hk4. destruct Hk4 as (Ep & -> & _). assert (abc_ok 0 (base + 1) c) as Hok by (unfold abc_ok; lia). assert (abc_ok 0 base c) as Hok' by (unfold abc_ok; lia).
  assert (nactvar fs4 = nactvar fs2) as Hna4 by (rewrite (tr_nact _ _ _ _ _ _ _ _ _ _ _ _ _ _ _ _ Ht); apply Hc).
  assert (wfe (base + 1) fs5 [] (init_exp (VRELOCABLE p)) [] []) as Hwe5.
  { eapply wfe_ext; [exact Hwe4|done|unfold h_ok; rewrite Hh, Hk; apply Hwe4|]. rewrite Hf, Hna4. pose proof (wf_regs _ _ W1). change MAXSTACK with 250. lia. }
  set (i := ABC OP_CONCAT 0 base c). set (fs6 := set_code (upd (code fs5) p i) fs5).
  assert (instr_at (code fs5) p = Some (ABC OP_CONCAT 0 (base + 1) c)) as Hi5 by (by rewrite (ext_code _ _ Hx)). pose proof (instr_at_range _ _ _ Hi5) as Hr5.
  assert (pc fs6 = pc fs5) as Epc by apply (len_upd (code fs5)). assert (pc fs5 = pc fs4) as Epc5 by apply (ext_pc _ _ Hx).
  assert (instr_at (code fs6) p = Some i) as Hi6 by (cbn [fs6 code set_code]; by rewrite instr_at_upd, decide_True).
  assert (mergeable fs6 = false) as Hmg.
  { unfold mergeable. rewrite Epc, Epc5, <- Ep, Hi6. unfold i. rewrite isop_ABC by done. apply andb_false_r. }
  assert (mergeable fs4 = false) as Hmg4 by (unfold mergeable; rewrite <- Ep, Hi, isop_ABC by done; apply andb_false_r).
  assert (forall f x, mergeable f = false -> own f [] (VRELOCABLE p) [] x -> x = p) as Hown by (intros f x Hmf [[Hy|[_ Hy]]|[Hy|Hy]]; [by apply pend_nil in Hy|congruence|by apply pend_nil in Hy|done]).
  destruct (we_upd (base + 1) fs5 (init_exp (VRELOCABLE p)) [] [] p i VTRUE) as (W6 & _ & _ & _); try done.
  { by intros ?%elem_of_nil. } { by intros ?%elem_of_nil. } { unfold testset_at. by rewrite Hi5, isop_ABC. } { by right; right. } { intros E. fold fs6 in E. congruence. }
  assert (fr (own fs4 [] (VRELOCABLE p) []) fs4 (own fs6 [] (VRELOCABLE p) []) fs6) as Hfr.
  { split_and!; [cbn; by rewrite Hk|rewrite Epc; lia|]. intros x Hxr. split.
    - intros Hn. assert (x <> p) as Hne by (intros ->; apply Hn; by right; right). split; [cbn [fs6 code set_code]; rewrite instr_at_upd, decide_False by done; by rewrite (ext_code _ _ Hx)|]. by intros ?%Hown.
    - intros i0 Hi0 (b & c0 & -> & Hb0 & Hc0). destruct (decide (x = p)) as [->|Hne]; [|exists (ABC OP_TESTSET NO_REG b c0); split_and!; [|apply becomes_refl; by exists b, c0|by left]].
      + destruct (ABC_inj OP_CONCAT 0 (base + 1) c OP_TESTSET NO_REG b c0) as (? & _); [done|unfold abc_ok; change NO_REG with 255; lia|congruence|done].
      + cbn [fs6 code set_code]. rewrite instr_at_upd, decide_False by done. by rewrite (ext_code _ _ Hx). }
  split; try done.
  - split; try done; [|change MAXSTACK with 250; lia]. apply wfe_start; [apply W6|change MAXSTACK with 250; lia|]. split_and!; [lia|done|]. exists OP_CONCAT, base, c. split_and!; try done; lia.
  - eapply fr_trans; [exact F1|eapply fr_trans; [apply (cm_fr _ _ _ _ _ _ _ _ _ _ _ _ _ _ Hc)|eapply fr_trans; [apply (tr_fr _ _ _ _ _ _ _ _ _ _ _ _ _ _ _ _ Ht)|exact Hfr]]].
  - cbn. rewrite (ext_nact _ _ Hx). congruence.
  - eapply cost_trans; [exact C1|]. eapply cost_trans; [apply Hc|]. destruct (tr_cost _ _ _ _ _ _ _ _ _ _ _ _ _ _ _ _ Ht) as [H1 H2]. split; [rewrite Epc, Epc5; exact H1|unfold nk in *; cbn; by rewrite Hk].
  - intros H0 R Ha HH. pose proof (apart_fr _ _ _ _ _ Ha F1) as Ha1. assert (fr (own0 fs2 J2) fs2 (own fs4 [] (VRELOCABLE p) []) fs4) as Hfr24.
    { eapply fr_trans; [apply (cm_fr _ _ _ _ _ _ _ _ _ _ _ _ _ _ Hc)|apply (tr_fr _ _ _ _ _ _ _ _ _ _ _ _ _ _ _ _ Ht)]. }
    pose proof (apart_fr _ _ _ _ _ Ha1 Hfr24) as Ha4. pose proof (fr_frame H0 _ _ _ _ (apart_disjoint _ _ _ Ha4) Hfr) as Hfr'.
    destruct (O1 H0 R Ha HH) as [(er & -> & HD)|(a & R1 & -> & Hs & HH1 & [= Ea])].
    + left. exists er. split; [done|]. eapply Dead_fr; [exact Hfr'|]. eapply Dead_fr; [|exact HD]. exact (fr_frame H0 _ _ _ _ (apart_disjoint _ _ _ Ha1) Hfr24).
    + cbn. rewrite <- (Hloc R R1 Hs). pose proof (tr_out _ _ _ _ _ _ _ _ _ _ _ _ _ _ _ _ Ht H0 R1 (ev2 R1) (apart_fr _ _ _ _ _ Ha1 (cm_fr _ _ _ _ _ _ _ _ _ _ _ _ _ _ Hc)) (cm_out _ _ _ _ _ _ _ _ _ _ _ _ _ _ Hc H0 R1 Ha1 HH1)) as HO.
      destruct HO as [(er & -> & HD)|[(R2 & Hs2 & HA & o & b & c0 & Hi0 & Hok0 & -> & _)|(R2 & t & j & v & _ & _ & Hj & _)]]; [left|right; left|by destruct t; apply elem_of_nil in Hj].
      * exists er. split; [done|]. by eapply Dead_fr.
      * exists R2. split; [eapply same_trans; [|exact Hs|exact Hs2]; lia|]. split; [by eapply At_fr|]. exists OP_CONCAT, base, c. split_and!; try done.
        -- destruct (ABC_inj OP_CONCAT 0 (base + 1) c o 0 b c0) as (<- & _ & <- & <-); [done|done|congruence|]. cbn [ek init_exp k set_code fs6]. rewrite Hk.
           pose proof (run_concat_more rt U (k fs4) (base + 1) c R2 ltac:(lia)) as E. replace (base + 1 - 1) with base in E by lia. rewrite E. rewrite (Hs2 base) by lia. by rewrite Ea.
        -- intros v R'. apply run_concat_same. lia.
Qed.
Lemma wpc_concat_two base n1 n2 m ev1 ev2 fs J fs2 J2 fs3 J3 e2 T F fs4 J4 line (Q : expdesc -> FuncState -> Prop) :
  stage base n1 ev1 (fun v R => kval U fs2 (VNONRELOC base) R = Ok v) fs J fs2 J2 -> 0 <= nactvar fs2 <= base -> freereg fs2 = base + 1 -> comp (base + 1) n2 ev2 fs2 J2 fs3 J3 e2 T F -> local_ev base ev2 ->
  trans (base + 1) m fs3 J3 e2 T F fs4 J4 (init_exp (VNONRELOC (base + 1))) [] [] -> freereg fs4 = base + 2 -> base + 2 < MAXSTACK -> room 1 fs4 ->
  (forall fs' J' e', comp base (n1 + (n2 + m) + 1) (fun R => a ← ev1 R; b ← ev2 R; concat2 rt a b) fs J fs' J' e' [] [] -> Q e' fs') ->
  wpc (codearith OP_CONCAT (init_exp (VNONRELOC base)) (init_exp (VNONRELOC (base + 1))) line) fs4 Q.
Proof.
  intros Hst Hna Hf2 Hc Hloc Ht Hf Hm Hroom HQ. pose proof (tr_nact _ _ _ _ _ _ _ _ _ _ _ _ _ _ _ _ Ht) as Hna4. pose proof (cm_nact _ _ _ _ _ _ _ _ _ _ _ _ _ _ Hc) as Hna3.
  assert (forall f, nactvar f <= base -> next base f (VNONRELOC base) = base + 1) as Hnx by (intros f Hle; unfold next; cbn; by rewrite (proj2 (Z.leb_le _ _))).
  assert (operand base fs2 (VNONRELOC base) base) as Ho1 by (split; [done|by right]).
  assert (operand (base + 1) fs4 (VNONRELOC (base + 1)) (base + 1)) as Ho2 by (split; [done|by right]). change MAXSTACK with 250 in Hm.
  assert (stage base (n1 + (n2 + m)) (pair_ev ev1 ev2) (pairs fs4 (VNONRELOC base) (VNONRELOC (base + 1))) fs J fs4 J4) as Hst4.
  { eapply (stage_pair base n1 n2 m ev1 ev2 fs J fs2 J2 (VNONRELOC base) fs3 J3 e2 T F fs4 J4 _ (base + 1)); rewrite ?Hnx by lia; try done; try lia. right. by exists base. }
  assert (stacked base fs4 (VNONRELOC (base + 1)) (VNONRELOC base)) as Hs.
  { unfold stacked. cbn [temp]. rewrite !(proj2 (Z.leb_le _ _)) by lia. split_and!; [lia|done|done]. }
  unfold codearith. cbn [constfolding ek init_exp]. apply wpc_bind. eapply exp2RK_operand; [exact Ho2|]. apply wpc_bind. eapply (exp2RK_operand base); [by eapply operand_frame; [exact Ho1|congruence|etrans; [apply (cm_fr _ _ _ _ _ _ _ _ _ _ _ _ _ _ Hc)|apply (tr_fr _ _ _ _ _ _ _ _ _ _ _ _ _ _ _ _ Ht)]]|].
  eapply (wpc_emit_op base _ _ _ (fun ab => concat2 rt (fst ab) (snd ab)) fs J fs4 J4 OP_CONCAT (VNONRELOC base) (VNONRELOC (base + 1)) base (base + 1)); [exact Hst4|lia|done| |done|unfold abc_ok; lia|done|done|intros _; lia|done| | |].
  - rewrite Z.gtb_ltb, (proj2 (Z.ltb_ge _ _)) by lia. done.
  - intros R v R'. apply run_concat_same. lia.
  - intros [a b] R [[= <-] [= <-]]. apply run_concat_two.
  - intros fs' e' Hc'. eapply HQ, comp_ev; [exact Hc'|]. intros R. symmetry. exact (pair_ev_bind ev1 ev2 (concat2 rt) R).
Qed.

Lemma wpc_posfix_concat base n1 n2 ev1 ev2 fs J fs2 J2 fs3 J3 e2 T F line (Q : expdesc -> FuncState -> Prop) :
  stage base n1 ev1 (fun v R => kval U fs2 (VNONRELOC base) R = Ok v) fs J fs2 J2 -> freereg fs2 = base + 1 -> 0 <= nactvar fs2 <= base -> base + 2 < MAXSTACK ->
  comp (base + 1) n2 ev2 fs2 J2 fs3 J3 e2 T F -> local_ev base ev2 -> room 20 fs3 ->
  (forall fs' J' e', comp base (n1 + n2 + 20) (fun R => a ← ev1 R; b ← ev2 R; concat2 rt a b) fs J fs' J' e' [] [] -> Q e' fs') ->
  wpc (luaK_posfix OPR_CONCAT (init_exp (VNONRELOC base)) e2 line) fs3 Q.
Proof.
  intros Hst Hf2 Hna Hm Hc Hloc Hroom HQ. pose proof (cm_nact _ _ _ _ _ _ _ _ _ _ _ _ _ _ Hc) as Hna3. change MAXSTACK with 250 in Hm. unfold luaK_posfix. apply wpc_bind.
  assert (Htwo : forall fs4 J4 kk, trans (base + 1) 10 fs3 J3 e2 T F fs4 J4 (init_exp kk) [] [] -> ready (base + 1) fs4 J4 (init_exp kk) [] [] ->
    wpc (e2 ← luaK_exp2nextreg (init_exp kk); codearith OP_CONCAT (init_exp (VNONRELOC base)) e2 line) fs4 Q).
  { intros fs4 J4 kk Ht Hr. apply wpc_bind. eapply (wpc_exp2nextreg rt U other S0 (base + 1) fs4 J4 (init_exp kk) [] []); [done|eapply (room_cost 10 9); [eapply room_le; [exact Hroom|lia]|apply Ht]|].
    intros fs5 J5 Ht5 Hf5. pose proof (trans_trans _ _ _ _ _ _ _ _ _ _ _ _ _ _ _ _ _ _ _ _ _ _ Ht Ht5) as Ht35.
    eapply (wpc_concat_two base n1 n2 (10 + 9) ev1 ev2 fs J fs2 J2 fs3 J3 e2 T F fs5 J5); try done; [lia|eapply (room_cost 19 1); [exact Hroom|apply Ht35]|].
    intros fs' J' e' Hc'. eapply HQ, comp_le; [exact Hc'|lia]. }
  eapply (wpc_exp2val rt U other S0 (base + 1) fs3 J3 e2 T F); [apply Hc|by eapply room_le| |].
  - intros fs4 J4 r Ht Hin. cbn [ek init_exp]. pose proof (tr_nact _ _ _ _ _ _ _ _ _ _ _ _ _ _ _ _ Ht) as Hna4. destruct Hin as [[Hr Hf]|[-> Hf]].
    + eapply Htwo; [exact Ht|]. split; [apply Ht|cbn; lia|done|change MAXSTACK with 250; lia].
    + apply wpc_bind. apply exp2nextreg_temp; [lia|lia|change MAXSTACK with 250; lia|]. intros fs5 Hx Hh Hk Hf5. pose proof (tr_we _ _ _ _ _ _ _ _ _ _ _ _ _ _ _ _ Ht) as Hwe4.
      assert (trans (base + 1) 0 fs4 J4 (init_exp (VNONRELOC (base + 1))) [] [] fs5 J4 (init_exp (VNONRELOC (base + 1))) [] []) as Ht5.
      { apply trans_ext; try done; [unfold h_ok; rewrite Hh, Hk; apply Hwe4|change MAXSTACK with 250; lia|unfold nk; rewrite Hk; lia]. }
      pose proof (trans_trans _ _ _ _ _ _ _ _ _ _ _ _ _ _ _ _ _ _ _ _ _ _ Ht Ht5) as Ht35.
      eapply (wpc_concat_two base n1 n2 (10 + 0) ev1 ev2 fs J fs2 J2 fs3 J3 e2 T F fs5 J4); try done; [lia|eapply (room_cost 10 1); [eapply room_le; [exact Hroom|lia]|apply Ht35]|].
      intros fs' J' e' Hc'. eapply HQ, comp_le; [exact Hc'|lia].
  - intros fs4 J4 kk Ht Hr Hd. pose proof (tr_nact _ _ _ _ _ _ _ _ _ _ _ _ _ _ _ _ Ht) as Hna4. cbn [ek init_exp]. destruct kk as [| | | | | | | | | | |p| |]; try (by eapply Htwo).
    pose proof (we_kind _ _ _ _ _ _ (rd_we _ _ _ _ _ _ Hr)) as Hk. destruct Hk as (_ & _ & o & b & c & Hi & Hok & _ & _ & Hcc & _). apply wpc_bind. eapply wpc_getinstr; [exact Hi|].
    rewrite isop_ABC by done. destruct (Z.eqb_spec (opcode_Z o) (opcode_Z OP_CONCAT)) as [->%opcode_Z_inj|]; [|by eapply Htwo]. destruct (Hcc eq_refl) as [-> Hbc]. apply wpc_bind.
    eapply (wpc_free_top base); [lia|change MAXSTACK with 250; lia|done| |].
    { cbn [temp ek init_exp]. rewrite (proj2 (Z.leb_le _ _)) by lia. apply Hr. }
    intros fs5 Hx Hh Hk5 Hf5. apply wpc_bind. eapply wpc_setinstr; [by rewrite (ext_code _ _ Hx)|]. cbn [info ek init_exp]. rewrite SETARG_B_ABC by (done || lia). apply wpc_ret.
    eapply HQ, comp_le; [eapply (concat_merge base n1 n2 10 ev1 ev2 fs J fs2 J2 fs3 J3 e2 T F fs4 J4 p c fs5); try done; change MAXSTACK with 250 in *; lia|lia].
Qed.
End Operators.
