(* ===== verification/LuaLogic.v ===== *)
(** * [and] and [or]

    The second half of [and] and [or]: the list of jumps that leave the first operand joins
    the list of the second one. *)

From S2P Require Import Prelude LuaStr LuaRef LuaTab LuaOp LuaNumber LuaCode LuaVm LuaJump LuaRun LuaEmit LuaDesc LuaPlace LuaReg LuaOperand LuaCond LuaNot LuaConcat LuaStage LuaOper.

Lemma ABC_not_JMP o a b c o' : abc_ok a b c -> sbx_ok o' -> o <> OP_JMP -> ABC o a b c <> JMP 0 o'.
Proof.
  intros Hok Hs Hne E. assert (isop (ABC o a b c) OP_JMP = true) as Hi.
  { rewrite E. unfold isop. by destruct (JMP_fields 0 o') as (-> & _); [lia|done|]. }
  rewrite isop_ABC in Hi by done. by apply Z.eqb_eq, opcode_Z_inj in Hi.
Qed.

Lemma isop_JMP o op : sbx_ok o -> isop (JMP 0 o) op = (opcode_Z OP_JMP =? opcode_Z op).
Proof. intros Hs. unfold isop. by destruct (JMP_fields 0 o) as (-> & _); [lia|done|]. Qed.

(** ** Jumps that are linked again *)

Section Relink.
Context (base : Z) (fs : FuncState) (J : list Z) (kk : expkind) (L X : list Z) (c' : list Z).
Hypothesis Hwf : wf fs J.
Hypothesis HL : jumps_in (code fs) L.
Hypothesis HLc : forall j, j ∈ L -> cond_at fs j.
Hypothesis Hnd : NoDup (L ++ J).
Hypothesis Hkind : kind_ok base fs J L kk.
Hypothesis HX : forall j, j ∈ X -> j ∈ L.
Hypothesis Hlen : len c' = len (code fs).
Hypothesis Hsame : forall x, x ∉ X -> instr_at c' x = instr_at (code fs) x.
Hypothesis Hjmp : forall x, x ∈ X -> exists o, instr_at c' x = Some (JMP 0 o) /\ sbx_ok o.

Let fs' : FuncState := set_code c' fs.

Lemma rl_pc : pc fs' = pc fs.
Proof. exact Hlen. Qed.

Lemma rl_plain x o a b c : instr_at (code fs) x = Some (ABC o a b c) -> abc_ok a b c -> o <> OP_JMP -> instr_at c' x = Some (ABC o a b c).
Proof.
  intros Hi Hok Hne. rewrite Hsame; [done|]. intros Hx%HX. destruct (HL x Hx) as (o' & Hi' & Hs). eapply (ABC_not_JMP o a b c o'); try done. congruence.
Qed.

Lemma rl_test j : j ∈ L -> instr_at c' (j - 1) = instr_at (code fs) (j - 1).
Proof. intros Hj. destruct (HLc j Hj) as (o & a & b & c & Hi & Hok & Ht & _). rewrite (rl_plain _ _ _ _ _ Hi Hok); [done|]. by intros ->. Qed.

Lemma rl_testset x : testset_at c' x = testset_at (code fs) x.
Proof.
  unfold testset_at. destruct (decide (x ∈ X)) as [Hx|Hx]; [|by rewrite Hsame]. destruct (Hjmp x Hx) as (o & -> & Hs). destruct (HL x (HX x Hx)) as (o' & -> & Hs').
  by rewrite !isop_JMP.
Qed.

Lemma rl_testmode x : testmode_at c' x = testmode_at (code fs) x.
Proof.
  destruct (decide (x ∈ X)) as [Hx|Hx]; [|unfold testmode_at; by rewrite Hsame]. destruct (Hjmp x Hx) as (o & Hi & Hs). destruct (HL x (HX x Hx)) as (o' & Hi' & Hs').
  by rewrite (testmode_JMP _ _ _ Hi Hs), (testmode_JMP _ _ _ Hi' Hs').
Qed.

Lemma rl_nil x : match instr_at c' x with Some i => isop i OP_LOADNIL | None => false end = match instr_at (code fs) x with Some i => isop i OP_LOADNIL | None => false end.
Proof.
  destruct (decide (x ∈ X)) as [Hx|Hx]; [|by rewrite Hsame]. destruct (Hjmp x Hx) as (o & -> & Hs). destruct (HL x (HX x Hx)) as (o' & -> & Hs').
  by rewrite !isop_JMP.
Qed.

Lemma rl_mergeable : mergeable fs' = mergeable fs.
Proof. unfold mergeable. rewrite rl_pc. cbn [code set_code fs' lasttarget]. by rewrite rl_nil. Qed.

Lemma rl_pend js x : pend c' js x <-> pend (code fs) js x.
Proof. unfold pend. by rewrite rl_testset. Qed.

Lemma rl_own x : own fs' J kk L x <-> own fs J kk L x.
Proof. unfold own, own0. rewrite rl_mergeable, rl_pc. cbn [code set_code fs']. by rewrite !rl_pend. Qed.

Lemma rl_J x : x ∈ J -> instr_at c' x = instr_at (code fs) x.
Proof. intros Hx. apply Hsame. intros Hy%HX. apply NoDup_app in Hnd as (_ & Hd & _). by apply (Hd x). Qed.

Lemma rl_fr : fr (own fs J kk L) fs (own fs' J kk L) fs'.
Proof.
  split_and!; [done|rewrite rl_pc; lia|]. intros x Hx. split.
  - intros Hn. split; [apply Hsame; intros Hy; apply Hn; right; left; left; by apply HX|by rewrite rl_own].
  - intros i Hi (b & c & -> & Hb & Hc). exists (ABC OP_TESTSET NO_REG b c). split_and!; [|apply becomes_refl; by exists b, c|by left].
    apply rl_plain; [done|unfold abc_ok; change NO_REG with 255; lia|done].
Qed.

Lemma rl_wf : wf fs' J.
Proof.
  pose proof Hwf as []. split; try done.
  - eapply chain_ext; [|exact wf_jpc]. intros j Hj. by apply rl_J.
  - intros j Hj. destruct (wf_cond j Hj) as [(o & a & b & c & Hi & Hok & Ht & Hrest)|Hn]; [left|right].
    + exists o, a, b, c. split; [|done]. apply rl_plain; [done|done|]. by intros ->.
    + cbn [code set_code fs']. by rewrite rl_testmode.
  - by rewrite rl_pc.
  - by rewrite rl_pc.
  - rewrite rl_mergeable, rl_pc. intros (a & b & Hi & Hab)%wf_nil. exists a, b. split; [|done]. apply rl_plain; [done|unfold abc_ok; lia|done].
Qed.

Lemma rl_kind : kind_ok base fs' J L kk.
Proof.
  revert Hkind. destruct kk as [| | | | | | | | | |j|p| |]; try done.
  - intros (Ej & HJ & Hi & Hn & o & a & b & c & Hi1 & Hok & Ho & Hrest). split_and!; [by rewrite rl_pc|done|cbn [code set_code fs']; rewrite Hsame; [done|by intros ?%HX]|done|].
    exists o, a, b, c. split; [|done]. apply rl_plain; [done|done|]. by destruct Ho as [->|[->| ->]].
  - intros (Ep & HJ & o & b & c & Hi & Hok & Hv & Hrest). split_and!; [by rewrite rl_pc|done|]. exists o, b, c. split; [|done]. apply rl_plain; [done|done|]. by intros ->.
Qed.

Lemma rl_wfe e' T' F' : chain c' (et e') T' -> chain c' (ef e') F' -> (forall j, j ∈ T' ++ F' <-> j ∈ L) -> NoDup (T' ++ F') -> ek e' = kk -> 0 <= base < MAXSTACK -> wfe base fs' J e' T' F'.
Proof.
  intros HT HF Hin Hnd' Ek Hb. split; try done.
  - exact rl_wf.
  - intros j Hj%Hin. destruct (HLc j Hj) as (o & a & b & c & Hi & Hrest). exists o, a, b, c. split; [|done]. cbn [code set_code fs']. by rewrite rl_test.
  - apply NoDup_app in Hnd as (_ & Hd & Hj). apply NoDup_app. split_and!; try done. intros x Hx%Hin. by apply Hd.
  - rewrite Ek. pose proof rl_kind as Hk. destruct kk as [| | | | | | | | | |j|p| |]; try done. destruct Hk as (H1 & H2 & H3 & H4 & H5). split_and!; try done. by rewrite Hin.
Qed.
End Relink.

(** ** The second operand *)

(** The list that waited. *)
Definition held (O : Z -> Prop) (L : list Z) : Prop := forall j, j ∈ L -> ~ O j /\ ~ O (j - 1).

Lemma held_pend c (O : Z -> Prop) L x : held O L -> pend c L x -> ~ O x.
Proof. intros Hh [Hx|[Hx _]]; [by apply Hh|]. destruct (Hh _ Hx) as [_ Hn]. by replace (x + 1 - 1) with x in Hn by lia. Qed.

Lemma held_start fs J l L : wf fs J -> jlist fs l L -> (forall j, j ∈ L -> j ∉ J) -> mergeable fs = false -> held (own0 fs J) L.
Proof.
  intros Hwf Hl Hd Hm j Hj. pose proof (chain_jumps _ _ _ (wf_jpc _ _ Hwf)) as HJ. split; intros [Hx|[_ Hx]]; try congruence.
  - destruct Hx as [Hx|[_ Ht]]; [by apply (Hd j)|]. destruct (jl_jumps _ _ _ Hl j Hj) as (o & Hi & Hs). by rewrite (testset_JMP _ _ _ Hi Hs) in Ht.
  - revert Hx. apply test_not_pend; [done|by apply Hl|by apply Hd].
Qed.

Section Held.
Context (fs : FuncState) (O : Z -> Prop) (l : Z) (L : list Z) (fs' : FuncState) (O' : Z -> Prop).
Hypothesis Hl : jlist fs l L.
Hypothesis Hh : held O L.
Hypothesis Hfr : fr O fs O' fs'.

Lemma hd_range j : j ∈ L -> 0 <= j - 1 /\ j < pc fs.
Proof.
  intros Hj. pose proof (jl_below _ _ _ _ Hl Hj). destruct (jl_cond _ _ _ Hl j Hj) as (o & a & b & c & Hi & _). apply instr_at_range in Hi. lia.
Qed.

Lemma hd_same j : j ∈ L -> instr_at (code fs') j = instr_at (code fs) j /\ instr_at (code fs') (j - 1) = instr_at (code fs) (j - 1).
Proof.
  intros Hj. destruct (hd_range j Hj) as [H1 H2]. destruct Hfr as (_ & _ & Hf). destruct (Hh j Hj) as [Hn1 Hn2].
  split; [apply (proj1 (Hf j ltac:(lia)) Hn1)|apply (proj1 (Hf (j - 1) ltac:(lia)) Hn2)].
Qed.

Lemma hd_held : held O' L.
Proof.
  intros j Hj. destruct (hd_range j Hj) as [H1 H2]. destruct Hfr as (_ & _ & Hf). destruct (Hh j Hj) as [Hn1 Hn2].
  split; [apply (proj1 (Hf j ltac:(lia)) Hn1)|apply (proj1 (Hf (j - 1) ltac:(lia)) Hn2)].
Qed.

Lemma hd_list : jlist fs' l L.
Proof.
  destruct Hl as [Hc Hcd Hnd]. split; [|intros j Hj|done].
  - eapply chain_ext; [|exact Hc]. intros j Hj. by apply hd_same.
  - destruct (Hcd j Hj) as (o & a & b & c & Hi & Hok & Ht & Hts & Hr). exists o, a, b, c. rewrite (proj2 (hd_same j Hj)). split_and!; try done.
    eapply reads_ok_prefix; [apply Hfr|done].
Qed.

Lemma hd_pend x : pend (code fs') L x <-> pend (code fs) L x.
Proof.
  unfold pend. assert (x + 1 ∈ L -> testset_at (code fs') x = testset_at (code fs) x) as E; [|naive_solver congruence].
  intros Hx. unfold testset_at. destruct (hd_same _ Hx) as [_ E]. replace (x + 1 - 1) with x in E by lia. by rewrite E.
Qed.
End Held.

Section Logic.
Context `{LuaNumber} (rt : runtime) (U : list TValue) (other : Z -> Z -> regs -> res (Z * regs)) (S0 : Z * regs).

Abbreviation comp := (comp rt U other S0).
Abbreviation trans := (trans rt U other S0).
Abbreviation Here := (Here rt U other S0).
Abbreviation Main := (Main rt U other S0).
Abbreviation Out := (Out rt U other S0).
Abbreviation Exit := (Exit rt U other S0).
Abbreviation Dead := (Dead rt U other S0).
Abbreviation branch := (branch rt U other S0).

Lemma Out_same base H0 fs J kk T F R R1 rv : same base R R1 -> Out base H0 fs J kk T F R1 rv -> Out base H0 fs J kk T F R rv.
Proof.
  intros Hs [HD|[(R2 & Hs2 & HM)|(R2 & t & j & v & Hs2 & Hrest)]]; [by left|right; left|right; right].
  - exists R2. split; [by eapply same_trans|done].
  - exists R2, t, j, v. split; [by eapply same_trans|done].
Qed.

(** The waiting list becomes a list of the descriptor. *)
Lemma Out_absorb base H0 fs J kk T F L T' F' R rv :
  (forall j, j ∈ T -> j ∈ T') -> (forall j, j ∈ F -> j ∈ F') -> (forall j, j ∈ T' ++ F' -> j ∈ T ++ F \/ j ∈ L) ->
  Out base (fun x => H0 x \/ pend (code fs) L x) fs J kk T F R rv -> Out base H0 fs J kk T' F' R rv.
Proof.
  intros HT HF Hin. assert (forall x, pend (code fs) (T' ++ F') x -> pend (code fs) (T ++ F) x \/ pend (code fs) L x) as Hp.
  { intros x [Hx|[Hx Ht]]; destruct (Hin _ Hx) as [Hy|Hy]; [by left; left|by right; left|left; by right|right; by right]. }
  assert (forall x, H0 x \/ own fs J kk (T' ++ F') x -> (H0 x \/ pend (code fs) L x) \/ own fs J kk (T ++ F) x) as Ho.
  { intros x [Hx|[Hx|[Hx|Hx]]]; [by left; left|by right; left| |by right; right; right]. destruct (Hp x Hx); [by right; right; left|by left; right]. }
  intros [(er & -> & HD)|[(R1 & Hs & HM)|(R1 & t & j & v & Hs & -> & Hj & Hl & HA)]]; [left|right; left|right; right].
  - exists er. split; [done|]. eapply Dead_mono; [exact Ho|exact HD].
  - exists R1. split; [done|]. destruct (kind_cases kk) as [Hk|[[p ->]|[j ->]]].
    + apply Main_simple in HM as [HH ->]; [|done]. apply Main_simple; [done|]. split; [|done]. eapply Here_mono; [|exact HH]. intros x [Hx|Hx]; [by left; left|].
      destruct (Hp x Hx); [by right|by left; right].
    + destruct HM as [HA HM]. split; [eapply At_mono; [exact Ho|exact HA]|exact HM].
    + destruct HM as [HA HM]. split; [eapply At_mono; [exact Ho|exact HA]|exact HM].
  - exists R1, t, j, v. split_and!; try done; [destruct t; auto|]. split; [done|]. eapply At_mono; [exact Ho|exact HA].
Qed.

(** The value of [a and b] ([t] is true) or [a or b]. *)
Definition choice (t : bool) (a : TValue) (b : res TValue) : res TValue := if Bool.eqb (l_isfalse a) (negb t) then b else Ok a.

Section Second.
Context (base n1 n2 m : Z) (t : bool) (ev1 ev2 : regs -> res TValue) (fs : FuncState) (J : list Z).
Context (fs1 : FuncState) (J1 : list Z) (e1 : expdesc) (T1 F1 : list Z) (fs2 : FuncState) (J2 : list Z) (l : Z) (L : list Z).
Context (fs3 : FuncState) (J3 : list Z) (e2 : expdesc) (T F : list Z) (fs4 : FuncState) (J4 : list Z) (e3 : expdesc).
Hypothesis Hc1 : comp base n1 ev1 fs J fs1 J1 e1 T1 F1.
Hypothesis Hbr : branch base 8 t fs1 J1 e1 T1 F1 fs2 J2 l L.
Hypothesis Hc2 : comp base n2 ev2 fs2 J2 fs3 J3 e2 T F.
Hypothesis Hloc : local_ev base ev2.
Hypothesis Htr : trans base m fs3 J3 e2 T F fs4 J4 e3 T F.
Hypothesis Hrd : ready base fs4 J4 e3 T F.
Hypothesis Hcst : const_ok fs4 (ek e3).

Let X : list Z := if t then F else T.
Let T' : list Z := if t then T else T ++ L.
Let F' : list Z := if t then F ++ L else F.

Lemma an_fr : fr (own0 fs2 J2) fs2 (own fs4 J4 (ek e3) (T ++ F)) fs4.
Proof. eapply fr_trans; [apply Hc2|apply Htr]. Qed.

Lemma an_held2 : held (own0 fs2 J2) L.
Proof. destruct Hbr. by eapply held_start. Qed.

Lemma an_held : held (own fs4 J4 (ek e3) (T ++ F)) L.
Proof. eapply hd_held; [apply Hbr|exact an_held2|exact an_fr]. Qed.

Lemma an_list : jlist fs4 l L.
Proof. eapply hd_list; [apply Hbr|exact an_held2|exact an_fr]. Qed.

Lemma an_elem j : j ∈ T' ++ F' <-> j ∈ T ++ F \/ j ∈ L.
Proof. unfold T', F'. destruct t; rewrite !elem_of_app; tauto. Qed.

Lemma an_perm : Permutation (T' ++ F') ((T ++ F) ++ L).
Proof. unfold T', F'. destruct t; [by rewrite app_assoc|]. rewrite <- !app_assoc. apply Permutation_app_head, Permutation_app_comm. Qed.

Lemma an_nodup : NoDup ((T' ++ F') ++ J4).
Proof.
  rewrite an_perm. pose proof (we_nodup _ _ _ _ _ _ (rd_we _ _ _ _ _ _ Hrd)) as (Hn & Hd & HJ)%NoDup_app. pose proof an_held as Hh. apply NoDup_app. split_and!; [|intros x Hx Hy|done].
  - apply NoDup_app. split_and!; [done| |apply Hbr]. intros x Hx Hy. destruct (Hh x Hy) as [Hno _]. apply Hno. right. left. by left.
  - apply elem_of_app in Hx as [Hx|Hx]; [by apply (Hd x)|]. destruct (Hh x Hx) as [Hno _]. apply Hno. left. left. by left.
Qed.

Lemma an_jumps : jumps_in (code fs4) (T' ++ F').
Proof.
  intros j [Hj|Hj]%an_elem; [exact (we_jumps _ _ _ _ _ _ (rd_we _ _ _ _ _ _ Hrd) j Hj)|exact (jl_jumps _ _ _ an_list j Hj)].
Qed.

Lemma an_cond j : j ∈ T' ++ F' -> cond_at fs4 j.
Proof. intros [Hj|Hj]%an_elem; [by apply Hrd|by apply an_list]. Qed.

Lemma an_kind : kind_ok base fs4 J4 (T' ++ F') (ek e3).
Proof.
  pose proof (we_kind _ _ _ _ _ _ (rd_we _ _ _ _ _ _ Hrd)) as Hk. pose proof an_held as Hh. destruct (ek e3) as [| | | | | | | | | |j|p| |]; try done.
  destruct Hk as (H1 & H2 & H3 & H4 & H5). split_and!; try done. intros [Hj|Hj]%an_elem; [done|]. destruct (Hh j Hj) as [Hno _]. apply Hno. right. right. by left.
Qed.

Lemma an_X j : j ∈ X -> j ∈ T' ++ F'.
Proof. intros Hj. apply an_elem. left. unfold X in Hj. destruct t; set_solver. Qed.

Context (l' : Z) (c' : list Z).
Hypothesis Hchain : chain c' l' (X ++ L).
Hypothesis Hlen : len c' = len (code fs4).
Hypothesis Hsame : forall x, x ∉ X -> instr_at c' x = instr_at (code fs4) x.
Hypothesis Hjmp : forall x, x ∈ X -> exists o, instr_at c' x = Some (JMP 0 o) /\ sbx_ok o.

Let fs5 : FuncState := set_code c' fs4.
Let e' : expdesc := if t then with_f e3 l' else with_t e3 l'.

Lemma an_wf4 : wf fs4 J4.
Proof. apply Hrd. Qed.

Lemma an_wfe : wfe base fs5 J4 e' T' F'.
Proof.
  pose proof (rd_we _ _ _ _ _ _ Hrd) as Hwe. pose proof an_nodup as Hnd.
  assert (forall l js, chain (code fs4) l js -> (forall j, j ∈ js -> j ∉ X) -> chain c' l js) as Hch by (intros l0 js Hc Hx; eapply chain_ext; [|exact Hc]; intros j Hj; by apply Hsame, Hx).
  assert (NoDup (T ++ F)) as (_ & Hd & _)%NoDup_app by (pose proof (we_nodup _ _ _ _ _ _ Hwe) as (? & _)%NoDup_app; done).
  eapply (rl_wfe base fs4 J4 (ek e3) (T' ++ F') X c' an_wf4 an_jumps an_cond Hnd an_kind an_X Hlen Hsame Hjmp).
  - unfold e', T', X in *. destruct t; [apply Hch; [apply Hwe|done]|exact Hchain].
  - unfold e', F', X in *. destruct t; [exact Hchain|apply Hch; [apply Hwe|]]. intros j Hj Hx. by apply (Hd j).
  - done.
  - by apply NoDup_app in Hnd as (? & _).
  - unfold e'. by destruct t.
  - apply Hwe.
Qed.

Lemma an_fr5 : fr (own fs4 J4 (ek e3) (T' ++ F')) fs4 (own fs5 J4 (ek e') (T' ++ F')) fs5.
Proof.
  assert (ek e' = ek e3) as -> by (unfold e'; by destruct t). exact (rl_fr fs4 J4 (ek e3) (T' ++ F') X c' an_jumps an_X Hlen Hsame Hjmp).
Qed.

(** From the end of the first operand. *)
Lemma an_fr24 : fr (own fs2 J2 VTRUE L) fs2 (own fs4 J4 (ek e3) (T' ++ F')) fs4.
Proof.
  pose proof an_held2 as Hh2. pose proof (hd_pend fs2 (own0 fs2 J2) l L fs4 _ (br_list _ _ _ _ _ _ _ _ _ _ _ _ _ _ _ _ Hbr) Hh2 an_fr) as Hp.
  eapply fr_weaken; [eapply (fr_frame (pend (code fs2) L) _ _ _ _ _ an_fr)| |].
  - intros x _ [Hx|Hx]; [right; by left|by left].
  - intros x _ [Hx|[Hx|Hx]]; left; [by right; left| |by right; right; right]. destruct Hx as [Hx|[Hx Ht]]; apply an_elem in Hx as [Hx|Hx].
    + right. right. left. by left.
    + left. apply Hp. by left.
    + right. right. left. by right.
    + left. apply Hp. by right.
  Unshelve. intros x Hx. by eapply held_pend.
Qed.

Lemma an_link H0 R rv : apart H0 fs4 (own fs4 J4 (ek e3) (T' ++ F')) -> Out base H0 fs4 J4 (ek e3) T' F' R rv -> Out base H0 fs5 J4 (ek e') T' F' R rv.
Proof.
  intros Ha. assert (ek e' = ek e3) as Ek by (unfold e'; by destruct t). pose proof an_fr5 as Hfr5. rewrite Ek in *. pose proof an_jumps as HJp. pose proof an_cond as Hcd. pose proof an_X as HX.
  eapply Out_carry; [exact Ha|exact Hfr5|done|done| |].
  - intros j Hj. exact (rl_test fs4 (T' ++ F') X c' HJp Hcd HX Hsame j Hj).
  - intros R1 Hs HM. right. left. exists R1. split; [done|]. eapply (Main_carry rt U other S0 base H0 fs4 J4 (ek e3) (T' ++ F')); [exact Ha|exact Hfr5|done|exact Hlen| | | |exact an_kind| |exact HM].
    + exact (rl_mergeable fs4 (T' ++ F') X c' HJp HX Hlen Hsame Hjmp).
    + intros x _ Hx. apply Hsame. by intros ?%HX.
    + intros x Hx. destruct (decide (x ∈ X)) as [Hy|Hy]; [right|left; by apply Hsame]. destruct (HJp x (HX x Hy)) as (o & Hi & Hso). destruct (Hjmp x Hy) as (o' & Hi' & Hso').
      split; [by eapply testmode_JMP|]. cbn [code set_code fs5]. by eapply testmode_JMP.
    + intros x Hx. destruct (HJp x Hx) as (o & Hi & Hso). split; [by eapply testmode_JMP|]. intros i Hi'. assert (i = JMP 0 o) as -> by congruence. by rewrite isop_JMP.
Qed.

Lemma an_comp : comp base (n1 + 8 + n2 + m) (fun R => a ← ev1 R; choice t a (ev2 R)) fs J fs5 J4 e' T' F'.
Proof.
  pose proof an_fr24 as Hfr24. pose proof an_fr5 as Hfr5. pose proof an_held2 as Hh2. pose proof (br_list _ _ _ _ _ _ _ _ _ _ _ _ _ _ _ _ Hbr) as Hl. assert (ek e' = ek e3) as Ek by (unfold e'; by destruct t).
  split.
  - split; [exact an_wfe| |apply Hrd|apply Hrd]. rewrite Ek. pose proof (rd_nontemp _ _ _ _ _ _ Hrd) as Hn. by destruct (ek e3).
  - by rewrite Ek.
  - eapply fr_trans; [apply Hc1|eapply fr_trans; [apply Hbr|eapply fr_trans; [exact Hfr24|exact Hfr5]]].
  - cbn. rewrite (tr_nact _ _ _ _ _ _ _ _ _ _ _ _ _ _ _ _ Htr), (cm_nact _ _ _ _ _ _ _ _ _ _ _ _ _ _ Hc2), (br_nact _ _ _ _ _ _ _ _ _ _ _ _ _ _ _ _ Hbr). apply Hc1.
  - assert (cost (n1 + 8 + n2 + m) fs fs4) as [H1 H2]; [|split; [change (len c' <= pc fs + (n1 + 8 + n2 + m)); rewrite Hlen; exact H1|exact H2]].
    eapply cost_trans; [eapply cost_trans; [eapply cost_trans; [apply Hc1|apply Hbr]|apply Hc2]|apply Htr].
  - intros H0 R Ha HH. pose proof (cm_out _ _ _ _ _ _ _ _ _ _ _ _ _ _ Hc1 H0 R Ha HH) as HO. pose proof (apart_fr _ _ _ _ _ Ha (cm_fr _ _ _ _ _ _ _ _ _ _ _ _ _ _ Hc1)) as Ha1.
    pose proof (br_out _ _ _ _ _ _ _ _ _ _ _ _ _ _ _ _ Hbr H0 R (ev1 R) Ha1 HO) as HB. pose proof (apart_fr _ _ _ _ _ Ha1 (br_fr _ _ _ _ _ _ _ _ _ _ _ _ _ _ _ _ Hbr)) as Ha2.
    pose proof (apart_fr _ _ _ _ _ Ha2 Hfr24) as Ha4. pose proof (fr_frame H0 _ _ _ _ (apart_disjoint _ _ _ Ha2) Hfr24) as Hf24. apply (an_link H0 R); [exact Ha4|].
    destruct HB as [(er & -> & HD)|[(v & R1 & -> & Hv & Hs & HH1)|(R1 & j & v & Hs & -> & Hj & Hlv & HA)]].
    + left. exists er. split; [done|]. by eapply Dead_fr.
    + cbn. unfold choice. rewrite Hv, eqb_reflx. eapply Out_same; [exact Hs|]. eapply (Out_absorb base H0 fs4 J4 (ek e3) T F L T' F'); [unfold T'; destruct t; set_solver|unfold F'; destruct t; set_solver|intros j; by rewrite an_elem|].
      rewrite <- (Hloc R R1 Hs). pose proof (hd_pend fs2 (own0 fs2 J2) l L fs4 _ Hl Hh2 an_fr) as Hp.
      assert (apart (fun x => H0 x \/ pend (code fs4) L x) fs2 (own0 fs2 J2)) as Hap.
      { intros x [Hx|Hx%Hp].
        - destruct (Ha2 x Hx) as (Hr & Hn & Hi). split_and!; [lia|lia| |done]. intros Ho. apply Hn. by left.
        - split; [exact (pend_range _ _ _ (jl_jumps _ _ _ Hl) Hx)|]. split; [by eapply held_pend|]. destruct Hx as [Hx|[_ Ht]].
          + destruct (jl_jumps _ _ _ Hl x Hx) as (o & Hi & Hso). exists (JMP 0 o). split; [done|]. left. by rewrite isop_JMP.
          + unfold testset_at in Ht. destruct (instr_at (code fs2) x) as [i|]; [|done]. eauto. }
      apply (tr_out _ _ _ _ _ _ _ _ _ _ _ _ _ _ _ _ Htr); [exact (apart_fr _ _ _ _ _ Hap (cm_fr _ _ _ _ _ _ _ _ _ _ _ _ _ _ Hc2))|]. apply (cm_out _ _ _ _ _ _ _ _ _ _ _ _ _ _ Hc2); [exact Hap|].
      eapply Here_mono; [|exact HH1]. intros x [Hx|Hx%Hp]; [by left|by right].
    + right. right. exists R1, (negb t), j, v. assert (l_isfalse v = t) as Hvt by (destruct Hlv as (_ & -> & _); apply negb_involutive). split_and!; try done.
      * cbn. unfold choice. rewrite Hvt. by destruct t.
      * unfold T', F'. destruct t; cbn; set_solver.
      * split; [|by eapply At_fr]. eapply leaves_ext; [|apply Hfr24|exact Hlv]. exact (proj2 (hd_same fs2 (own0 fs2 J2) l L fs4 _ Hl Hh2 an_fr j Hj)).
Qed.
End Second.
End Logic.
