(* ===== verification/LuaExpr.v ===== *)
(** * Expressions: meaning and compilation

    The expressions the operators of Lua build, their value, and the calls of the code
    generator for them in the order of [subexpr] and [simpleexp] (lparser.c). *)

From S2P Require Import Prelude LuaStr LuaRef LuaTab LuaOp LuaNumber LuaCode LuaVm LuaJump LuaRun LuaEmit LuaDesc LuaPlace LuaReg LuaOperand LuaCond LuaNot LuaConcat LuaStage LuaOper LuaLogic.

(** Numbers are raw doubles, variables are registers or upvalues, operators have lines. *)
Inductive expr : Type :=
  | ENil
  | ETrue
  | EFalse
  | ENumber (r : Z)
  | EString (s : bytes)
  | ELocal (r : Z)
  | EUpvalue (u : Z)
  | EParen (e : expr)
  | EUn (op : UnOpr) (e : expr) (line : Z)
  | EBin (op : BinOpr) (a b : expr) (line : Z).

(** The variables exist. *)
Fixpoint scoped (nact nup : Z) (e : expr) : Prop :=
  match e with
  | ENumber r => in_u 64 r
  | ELocal r => 0 <= r < nact
  | EUpvalue u => 0 <= u < nup
  | EParen e => scoped nact nup e
  | EUn _ e _ => scoped nact nup e
  | EBin _ a b _ => scoped nact nup a /\ scoped nact nup b
  | _ => True
  end.

(** Registers an expression needs at most. *)
Fixpoint height (e : expr) : Z :=
  match e with
  | EParen e => height e
  | EUn _ e _ => Z.max 2 (height e)
  | EBin _ a b _ => Z.max (height a) (1 + height b)
  | _ => 1
  end.

Fixpoint size (e : expr) : Z :=
  match e with
  | EParen e => 1 + size e
  | EUn _ e _ => 1 + size e
  | EBin _ a b _ => 1 + size a + size b
  | _ => 1
  end.

Lemma height_pos e : 1 <= height e.
Proof. induction e; cbn [height]; lia. Qed.

Lemma size_pos e : 1 <= size e.
Proof. induction e; cbn [size]; lia. Qed.

Section Expressions.
Context `{LuaNumber} (rt : runtime) (U : list TValue).

Definition nups : Z := Z.of_nat (length U).

(** ** Meaning *)

Definition binary (op : BinOpr) (a b : TValue) : res TValue :=
  match op with
  | OPR_ADD => vm_arith rt luai_numadd TM_ADD a b
  | OPR_SUB => vm_arith rt luai_numsub TM_SUB a b
  | OPR_MUL => vm_arith rt luai_nummul TM_MUL a b
  | OPR_DIV => vm_arith rt luai_numdiv TM_DIV a b
  | OPR_MOD => vm_arith rt luai_nummod TM_MOD a b
  | OPR_POW => vm_arith rt luai_numpow TM_POW a b
  | OPR_CONCAT => concat2 rt a b
  | OPR_EQ => LBool <$> equalobj rt a b
  | OPR_NE => (fun r => LBool (negb r)) <$> equalobj rt a b
  | OPR_LT => LBool <$> lessthan rt a b
  | OPR_LE => LBool <$> lessequal rt a b
  | OPR_GT => LBool <$> lessthan rt b a
  | OPR_GE => LBool <$> lessequal rt b a
  | _ => Ok b
  end.

Definition unary (op : UnOpr) (a : TValue) : res TValue :=
  match op with
  | OPR_MINUS => vm_unm rt a
  | OPR_NOT => Ok (LBool (l_isfalse a))
  | OPR_LEN => luaV_objlen rt a
  end.

Fixpoint eval (e : expr) (R : regs) : res TValue :=
  match e with
  | ENil => Ok LNil
  | ETrue => Ok (LBool true)
  | EFalse => Ok (LBool false)
  | ENumber r => Ok (LNumber r)
  | EString s => Ok (LString s)
  | ELocal r => Ok (R r)
  | EUpvalue u => of_option Undefined (U !! Z.to_nat u)
  | EParen e => eval e R
  | EUn op e _ => a ← eval e R; unary op a
  | EBin OPR_AND a b _ => a ← eval a R; if l_isfalse a then Ok a else eval b R
  | EBin OPR_OR a b _ => a ← eval a R; if l_isfalse a then eval b R else Ok a
  | EBin op a b _ => a ← eval a R; b ← eval b R; binary op a b
  end.

Lemma eval_local e n m : scoped n m e -> local_ev n (eval e).
Proof.
  intros Hs R R' HR. induction e as [| | | | | | |e IH|op e IH line|op a IHa b IHb line]; cbn [eval]; try done.
  - cbn in Hs. rewrite HR by lia. done.
  - by apply IH.
  - by rewrite (IH Hs).
  - destruct Hs as [Ha Hb]. by rewrite (IHa Ha), (IHb Hb).
Qed.

(** ** Compilation *)

Fixpoint compile (e : expr) : coder expdesc :=
  match e with
  | ENil => mret (init_exp VNIL)
  | ETrue => mret (init_exp VTRUE)
  | EFalse => mret (init_exp VFALSE)
  | ENumber r => mret (init_exp (VKNUM r))
  | EString s => i ← luaK_stringK s; mret (init_exp (VK i))
  | ELocal r => mret (init_exp (VLOCAL r))
  | EUpvalue u => mret (init_exp (VUPVAL u))
  | EParen e => v ← compile e; luaK_dischargevars v
  | EUn op e line => v ← compile e; luaK_prefix op v line
  | EBin op a b line => v ← compile a; v ← luaK_infix op v; v2 ← compile b; luaK_posfix op v v2 line
  end.

(** [return e]: the register of the value. *)
Definition compile_return (e : expr) : coder Z :=
  v ← compile e; v ← luaK_exp2anyreg v; _ ← luaK_ret (info v) 1; mret (info v).

Section Correctness.
Context (other : Z -> Z -> regs -> res (Z * regs)) (S0 : Z * regs) `{NL : !LuaNumberLaws}.
Hypothesis HU : nups <= 256.

Abbreviation comp := (comp rt U other S0).
Abbreviation stage := (stage rt U other S0).
Abbreviation trans := (trans rt U other S0).

(** What compilation promises of an expression. *)
Definition compiles (e : expr) : Prop :=
  forall base fs J (Q : expdesc -> FuncState -> Prop), wf fs J -> freereg fs = base -> scoped (nactvar fs) nups e -> base + height e < MAXSTACK -> room (64 * size e) fs ->
    (forall fs' J' d T F, comp base (64 * size e) (eval e) fs J fs' J' d T F -> Q d fs') -> wpc (compile e) fs Q.

Lemma compiles_const e kk :
  (forall fs, compile e fs = Ok (init_exp kk, fs)) -> simple kk -> (forall fs, const_ok fs kk) -> (forall fs, nontemp fs kk) -> size e = 1 -> height e = 1 ->
  (forall base fs J, wf fs J -> scoped (nactvar fs) nups e -> kind_ok base fs J [] kk) -> (forall n fs R, scoped n nups e -> eval e R = kval U fs kk R) -> compiles e.
Proof.
  intros Hc Hs Hcst Hnt Esz Eh Hk He base fs J Q Hwf Hf Hsc Hm Hroom HQ. rewrite Esz, Eh in *. unfold wpc. rewrite Hc. eapply (HQ fs J). eapply comp_ev; [apply (comp_const rt U other S0 base _ fs J fs kk)|]; try done; try lia.
  - apply Hwf.
  - by eapply Hk.
  - intros R. by eapply He.
Qed.

Lemma compiles_string s : compiles (EString s).
Proof.
  intros base fs J Q Hwf Hf Hsc Hm Hroom HQ. cbn [compile size height] in *. apply wpc_bind. apply wpc_addk; [apply Hwf|done|unfold room in Hroom; lia|].
  intros n fs' (Hn & Hn' & Hk & Hx & Hh & Hfr & Hnk). apply wpc_ret. eapply (HQ fs' J). eapply comp_ev; [apply (comp_const rt U other S0 base _ fs J fs' (VK n))|]; try done; try lia.
  - cbn. exists (LString s). done.
  - intros R. cbn. by rewrite Hk.
Qed.

Lemma compiles_paren e : compiles e -> compiles (EParen e).
Proof.
  intros IH base fs J Q Hwf Hf Hsc Hm Hroom HQ. cbn [compile size height eval scoped] in *. apply wpc_bind. eapply (IH base fs J); try done; [eapply room_le; [exact Hroom|lia]|]. intros fs1 J1 d T F Hc.
  pose proof (cm_ready _ _ _ _ _ _ _ _ _ _ _ _ _ _ Hc) as Hr.
  eapply (wpc_dischargevars rt U other S0 base fs1 J1 d T F); [apply Hr|eapply (room_cost (64 * size e) 1); [eapply room_le; [exact Hroom|lia]|apply Hc]|].
  intros d' fs2 J2 Ht Hd Hf2 Hn Et Ef Hid. eapply (HQ fs2 J2). eapply comp_le; [eapply comp_trans; [exact Hc|exact Ht| |]|lia].
  - eapply ready_trans; [exact Hr|exact Ht|done|]. apply Hn, Hr.
  - destruct Hid as [(_ & -> & ->)|[_ Hl]]; [apply Hc|]. by destruct (ek d').
Qed.
(** ** Operators with one operand *)

(** A numeral has no jumps. *)
Lemma comp_numeral base n ev fs J fs1 J1 d T F r :
  comp base n ev fs J fs1 J1 d T F -> ek d = VKNUM r -> isnumeral d = true -> d = init_exp (VKNUM r) /\ in_u 64 r /\ stage base n ev (fun v R => v = LNumber r) fs J fs1 J1.
Proof.
  intros Hc Ek En. unfold isnumeral in En. rewrite Ek in En. apply andb_true_iff in En as [Et Ef]. apply Z.eqb_eq in Et, Ef.
  pose proof (rd_we _ _ _ _ _ _ (cm_ready _ _ _ _ _ _ _ _ _ _ _ _ _ _ Hc)) as Hwe. pose proof Hwe as [_ HT HF _ _ Hk _]. rewrite Et in HT. rewrite Ef in HF. apply chain_NO_JUMP in HT as ->. apply chain_NO_JUMP in HF as ->.
  assert (d = init_exp (VKNUM r)) as -> by (destruct d; cbn in *; by subst). split_and!; [done|exact Hk|].
  eapply (stage_mono rt U other S0 base (n + 0) n ev ev id); [eapply comp_stage; [exact Hc|by apply trans_refl|done|by eauto]|lia|intros R; by destruct (ev R)|]. by intros a R [= <-].
Qed.

Lemma comp_negates base n m ev fs J fs1 J1 d T F fs2 J2 d2 :
  comp base n ev fs J fs1 J1 d T F -> negates rt U other S0 base m fs1 J1 d T F fs2 J2 d2 -> nontemp fs2 (ek d2) -> const_ok fs2 (ek d2) ->
  comp base (n + m) (fun R => notv <$> ev R) fs J fs2 J2 d2 F T.
Proof.
  intros [[Hwe Hn Hf Hm] C2 C3 C4 C5 C6] [W2 F2 N2 Hf2 Co2 O2] Hnt Hc. split; [split; [done|done|congruence|done]|done|by eapply fr_trans|congruence|by eapply cost_trans|].
  intros H0 R Ha HH. apply O2; [by eapply apart_fr|by apply C6].
Qed.

Lemma wpc_minus base n ev fs J fs1 J1 d T F line (Q : expdesc -> FuncState -> Prop) :
  comp base n ev fs J fs1 J1 d T F -> base + 2 < MAXSTACK -> room 11 fs1 ->
  (forall fs' J' d' T' F', comp base (n + 11) (fun R => a ← ev R; vm_unm rt a) fs J fs' J' d' T' F' -> Q d' fs') -> wpc (luaK_prefix OPR_MINUS d line) fs1 Q.
Proof.
  intros Hc Hm Hroom HQ. assert (Hgen : wpc (e ← luaK_exp2anyreg d; codearith OP_UNM e (init_exp (VKNUM 0)) line) fs1 Q).
  { eapply wpc_codearith_un; [by left|exact Hc|done|done|]. intros fs' J' d' Hc'. by eapply HQ. }
  cbn [luaK_prefix]. destruct (ek d) as [| | | | |r| | | | | | | |] eqn:Ek; try exact Hgen. destruct (isnumeral d) eqn:En; [|exact Hgen]. pose proof (cm_ready _ _ _ _ _ _ _ _ _ _ _ _ _ _ Hc) as Hr.
  destruct (comp_numeral _ _ _ _ _ _ _ _ _ _ _ Hc Ek En) as (-> & Hu & Hst). apply wpc_ret. eapply (HQ fs1 J1 _ [] []), comp_le; [eapply (stage_const rt U other S0 base n ev _ (vm_unm rt) fs J fs1 J1 (VKNUM (luai_numunm r)))|lia]; try done; try apply Hr.
  - cbn. apply luai_numunm_range.
  - by intros a R ->.
Qed.

Lemma compiles_un op e line : compiles e -> compiles (EUn op e line).
Proof.
  intros IH base fs J Q Hwf Hf Hsc Hm Hroom HQ. cbn [compile size height eval scoped] in *. apply wpc_bind. eapply (IH base fs J); try done; [lia|eapply room_le; [exact Hroom|lia]|]. intros fs1 J1 d T F Hc.
  assert (room 11 fs1) as Hroom1 by (eapply (room_cost (64 * size e) 11); [eapply room_le; [exact Hroom|lia]|apply Hc]). destruct op; cbn [unary].
  - eapply wpc_minus; [exact Hc|lia|done|]. intros fs' J' d' T' F' Hc'. eapply HQ, comp_le; [exact Hc'|lia].
  - cbn [luaK_prefix]. eapply (wpc_codenot rt U other S0 base fs1 J1 d T F); [apply Hc|apply Hc|by eapply room_le|]. intros fs2 J2 d2 Hng Hnt Hcst.
    pose proof (comp_negates _ _ _ _ _ _ _ _ _ _ _ _ _ _ Hc Hng Hnt Hcst) as Hc2. eapply (HQ fs2 J2), comp_le; [eapply comp_ev; [exact Hc2|]|lia]. intros R.
    assert (forall r, (a ← r; unary OPR_NOT a) = notv <$> r) as Hr by (by intros []). apply Hr.
  - cbn [luaK_prefix]. eapply wpc_codearith_un; [by right|exact Hc|lia|done|]. intros fs' J' d' Hc'. eapply HQ, comp_le; [exact Hc'|lia].
Qed.

(** ** Operators with two operands *)

Lemma wpc_infix_RK base n ev fs J fs1 J1 d T F (Q : expdesc -> FuncState -> Prop) :
  comp base n ev fs J fs1 J1 d T F -> room 21 fs1 ->
  (forall fs2 J2 kk x, stage base (n + 21) ev (fun v R => kval U fs2 kk R = Ok v) fs J fs2 J2 -> operand base fs2 kk x -> freereg fs2 = next base fs2 kk -> nactvar fs2 = nactvar fs ->
    cost (n + 21) fs fs2 -> Q (init_exp kk) fs2) -> wpc ('(_, v) ← luaK_exp2RK d; mret v) fs1 Q.
Proof.
  intros Hc Hroom HQ. pose proof (cm_ready _ _ _ _ _ _ _ _ _ _ _ _ _ _ Hc) as Hr. pose proof (rd_nact _ _ _ _ _ _ Hr) as Hna. apply wpc_bind. eapply (wpc_exp2RK rt U other S0 base fs1 J1 d T F); [done|done|].
  intros fs2 J2 kk x Ht Ho. apply wpc_ret. pose proof (tr_nact _ _ _ _ _ _ _ _ _ _ _ _ _ _ _ _ Ht) as Hna2. destruct (is_operand_split base fs2 kk x) as [Ho' Hf]; [lia|done|].
  apply (HQ fs2 J2 kk x); try done.
  - eapply comp_stage; [exact Hc|exact Ht|by eapply operand_simple|intros R; by eapply operand_kval].
  - rewrite Hna2. apply Hc.
  - eapply cost_trans; [apply Hc|apply Ht].
Qed.

Lemma wpc_infix_arith base n ev fs J fs1 J1 d T F (Q : expdesc -> FuncState -> Prop) :
  comp base n ev fs J fs1 J1 d T F -> room 21 fs1 ->
  (forall fs2 J2 kk, stage base (n + 21) ev (fun v R => kval U fs2 kk R = Ok v) fs J fs2 J2 -> lhs base fs2 kk -> freereg fs2 = next base fs2 kk -> nactvar fs2 = nactvar fs ->
    cost (n + 21) fs fs2 -> Q (init_exp kk) fs2) -> wpc (if isnumeral d then mret d else '(_, v) ← luaK_exp2RK d; mret v) fs1 Q.
Proof.
  intros Hc Hroom HQ. destruct (isnumeral d) eqn:En.
  - destruct (ek d) as [| | | | |r| | | | | | | |] eqn:Ek; try (unfold isnumeral in En; by rewrite Ek in En). destruct (comp_numeral _ _ _ _ _ _ _ _ _ _ _ Hc Ek En) as (-> & Hu & Hst). apply wpc_ret.
    apply (HQ fs1 J1 (VKNUM r)); [|left; by exists r|apply Hc|apply Hc|eapply cost_le; [apply Hc|lia]].
    eapply (stage_mono rt U other S0 base n (n + 21) ev ev id); [exact Hst|lia|intros R; by destruct (ev R)|]. by intros a R ->.
  - eapply wpc_infix_RK; [exact Hc|done|]. intros fs2 J2 kk x Hst Ho Hf Hna Hco. apply (HQ fs2 J2 kk); try done. right. by exists x.
Qed.
(** The opcode, function and event of an arithmetic operator. *)
Definition arith_args (op : BinOpr) : option (OpCode * (Z -> Z -> Z) * TMS) :=
  match op with
  | OPR_ADD | OPR_SUB | OPR_MUL | OPR_DIV | OPR_MOD | OPR_POW => '(f, tm) ← arith_of (arith_op op); Some (arith_op op, f, tm)
  | _ => None
  end.

Lemma arith_args_spec op o f tm : arith_args op = Some (o, f, tm) -> arith_of o = Some (f, tm) /\ (forall v, luaK_infix op v = if isnumeral v then mret v else '(_, v) ← luaK_exp2RK v; mret v) /\
  (forall e1 e2 line, luaK_posfix op e1 e2 line = codearith o e1 e2 line) /\ (forall a b line R, eval (EBin op a b line) R = (x ← eval a R; y ← eval b R; vm_arith rt f tm x y)).
Proof. intros E. destruct op; try discriminate E; injection E as <- <- <-; split_and!; done. Qed.

Lemma compiles_arith op o f tm a b line : arith_args op = Some (o, f, tm) -> compiles a -> compiles b -> compiles (EBin op a b line).
Proof.
  intros Ho IHa IHb base fs J Q Hwf Hf [Hsa Hsb] Hm Hroom HQ. destruct (arith_args_spec op o f tm Ho) as (Hof & Hin & Hpost & Hev). cbn [compile size height] in *. pose proof (height_pos b) as Hhb. pose proof (wf_regs _ _ Hwf) as Hrg.
  apply wpc_bind. eapply (IHa base fs J); try done; [lia|eapply room_le; [exact Hroom|pose proof (size_pos b); lia]|]. intros fs1 J1 d T F Hc1. apply wpc_bind. rewrite Hin.
  pose proof (cm_cost _ _ _ _ _ _ _ _ _ _ _ _ _ _ Hc1) as Hco1. eapply wpc_infix_arith; [exact Hc1|eapply (room_cost (64 * size a) 21); [eapply room_le; [exact Hroom|pose proof (size_pos b); lia]|done]|].
  intros fs2 J2 kk Hst Hlhs Hf2 Hna2 Hco2. apply wpc_bind. assert (next base fs2 kk <= base + 1) as Hnx by (unfold next; destruct (temp fs2 kk); lia).
  eapply (IHb (next base fs2 kk) fs2 J2); [apply Hst|done|by rewrite Hna2|lia|eapply (room_cost (64 * size a + 21) (64 * size b)); [eapply room_le; [exact Hroom|lia]|done]|].
  intros fs3 J3 d2 T2 F2 Hc2. rewrite Hpost. change MAXSTACK with 250 in *. eapply (wpc_codearith_op rt U other S0 o f tm base (64 * size a + 21) (64 * size b)); try done; try (change MAXSTACK with 250; lia).
  - eapply local_ev_le; [by eapply eval_local|lia].
  - eapply (room_cost (64 * size a + 21 + 64 * size b) 43); [eapply room_le; [exact Hroom|lia]|eapply cost_trans; [exact Hco2|apply Hc2]].
  - intros fs' J' e' Hc'. eapply HQ, comp_le; [eapply comp_ev; [exact Hc'|apply Hev]|lia].
Qed.

Definition compare_args (op : BinOpr) : option (OpCode * bool) :=
  match op with
  | OPR_EQ => Some (OP_EQ, true) | OPR_NE => Some (OP_EQ, false)
  | OPR_LT => Some (OP_LT, true) | OPR_GE => Some (OP_LE, false)
  | OPR_LE => Some (OP_LE, true) | OPR_GT => Some (OP_LT, false)
  | _ => None
  end.

Lemma compare_args_spec op o c : compare_args op = Some (o, c) -> (o = OP_EQ \/ o = OP_LT \/ o = OP_LE) /\ (forall v, luaK_infix op v = '(_, v) ← luaK_exp2RK v; mret v) /\
  (forall e1 e2 line, luaK_posfix op e1 e2 line = codecomp o c e1 e2) /\ (forall a b line R, eval (EBin op a b line) R = (x ← eval a R; y ← eval b R; LBool <$> comparison rt o c x y)).
Proof.
  assert (forall x y, (fun r => LBool (negb r)) <$> equalobj rt x y = LBool <$> comparison rt OP_EQ false x y) as Hne by (intros x y; unfold comparison, compare; by destruct (equalobj rt x y)).
  intros E. destruct op; try discriminate E; injection E as <- <-; split_and!; try done; auto.
  intros a b line R. cbn [eval binary]. destruct (eval a R) as [x|]; [|done]. cbn [mbind res_bind]. destruct (eval b R) as [y|]; [|done]. apply Hne.
Qed.

Lemma compiles_compare op o c a b line : compare_args op = Some (o, c) -> compiles a -> compiles b -> compiles (EBin op a b line).
Proof.
  intros Ho IHa IHb base fs J Q Hwf Hf [Hsa Hsb] Hm Hroom HQ. destruct (compare_args_spec op o c Ho) as (Hof & Hin & Hpost & Hev). cbn [compile size height] in *. pose proof (height_pos b) as Hhb. pose proof (wf_regs _ _ Hwf) as Hrg.
  apply wpc_bind. eapply (IHa base fs J); try done; [lia|eapply room_le; [exact Hroom|pose proof (size_pos b); lia]|]. intros fs1 J1 d T F Hc1. apply wpc_bind. rewrite Hin.
  pose proof (cm_cost _ _ _ _ _ _ _ _ _ _ _ _ _ _ Hc1) as Hco1. eapply wpc_infix_RK; [exact Hc1|eapply (room_cost (64 * size a) 21); [eapply room_le; [exact Hroom|pose proof (size_pos b); lia]|done]|].
  intros fs2 J2 kk x Hst Hop Hf2 Hna2 Hco2. apply wpc_bind. assert (next base fs2 kk <= base + 1) as Hnx by (unfold next; destruct (temp fs2 kk); lia).
  eapply (IHb (next base fs2 kk) fs2 J2); [apply Hst|done|by rewrite Hna2|lia|eapply (room_cost (64 * size a + 21) (64 * size b)); [eapply room_le; [exact Hroom|lia]|done]|].
  intros fs3 J3 d2 T2 F2 Hc2. rewrite Hpost. change MAXSTACK with 250 in *. eapply (wpc_codecomp_op rt U other S0 o c base (64 * size a + 21) (64 * size b)); try done; try (change MAXSTACK with 250; lia).
  - eapply local_ev_le; [by eapply eval_local|lia].
  - eapply (room_cost (64 * size a + 21 + 64 * size b) 23); [eapply room_le; [exact Hroom|lia]|eapply cost_trans; [exact Hco2|apply Hc2]].
  - intros fs' J' e' Hc'. eapply HQ, comp_le; [eapply comp_ev; [exact Hc'|apply Hev]|lia].
Qed.

Lemma compiles_concat a b line : compiles a -> compiles b -> compiles (EBin OPR_CONCAT a b line).
Proof.
  intros IHa IHb base fs J Q Hwf Hf [Hsa Hsb] Hm Hroom HQ. cbn [compile size height] in *. pose proof (height_pos b) as Hhb. pose proof (wf_regs _ _ Hwf) as Hrg.
  apply wpc_bind. eapply (IHa base fs J); try done; [lia|eapply room_le; [exact Hroom|pose proof (size_pos b); lia]|]. intros fs1 J1 d T F Hc1. apply wpc_bind. cbn [luaK_infix].
  pose proof (cm_cost _ _ _ _ _ _ _ _ _ _ _ _ _ _ Hc1) as Hco1. pose proof (cm_nact _ _ _ _ _ _ _ _ _ _ _ _ _ _ Hc1) as Hna1.
  eapply (wpc_exp2nextreg rt U other S0 base fs1 J1 d T F); [apply Hc1|eapply (room_cost (64 * size a) 9); [eapply room_le; [exact Hroom|pose proof (size_pos b); lia]|done]|].
  intros fs2 J2 Ht Hf2. apply wpc_bind. pose proof (tr_nact _ _ _ _ _ _ _ _ _ _ _ _ _ _ _ _ Ht) as Hna2. pose proof (cost_trans _ _ _ _ _ Hco1 (tr_cost _ _ _ _ _ _ _ _ _ _ _ _ _ _ _ _ Ht)) as Hco2.
  assert (stage base (64 * size a + 9) (eval a) (fun v R => kval U fs2 (VNONRELOC base) R = Ok v) fs J fs2 J2) as Hst by (eapply comp_stage; [exact Hc1|exact Ht|done|by eauto]).
  eapply (IHb (base + 1) fs2 J2); [apply Hst|done|by rewrite Hna2, Hna1|lia|eapply (room_cost (64 * size a + 9) (64 * size b)); [eapply room_le; [exact Hroom|lia]|done]|].
  intros fs3 J3 d2 T2 F2 Hc2. change MAXSTACK with 250 in *. eapply (wpc_posfix_concat rt U other S0 base (64 * size a + 9) (64 * size b)); try done; try (change MAXSTACK with 250; lia).
  - eapply local_ev_le; [by eapply eval_local|lia].
  - eapply (room_cost (64 * size a + 9 + 64 * size b) 20); [eapply room_le; [exact Hroom|lia]|eapply cost_trans; [exact Hco2|apply Hc2]].
  - intros fs' J' e' Hc'. eapply HQ, comp_le; [exact Hc'|lia].
Qed.
(** ** [and] and [or] *)

Lemma wpc_second base n1 n2 t ev1 ev2 fs J fs1 J1 e1 T1 F1 fs2 J2 l L fs3 J3 e2 T F (Q : expdesc -> FuncState -> Prop) :
  comp base n1 ev1 fs J fs1 J1 e1 T1 F1 -> branch rt U other S0 base 8 t fs1 J1 e1 T1 F1 fs2 J2 l L -> comp base n2 ev2 fs2 J2 fs3 J3 e2 T F -> local_ev base ev2 -> room 1 fs3 ->
  (forall fs' J' e' T' F', comp base (n1 + 8 + n2 + 1) (fun R => a ← ev1 R; choice t a (ev2 R)) fs J fs' J' e' T' F' -> Q e' fs') ->
  wpc (e2 ← luaK_dischargevars e2; f ← luaK_concat (if t then ef e2 else et e2) l; mret (if t then with_f e2 f else with_t e2 f)) fs3 Q.
Proof.
  intros Hc1 Hbr Hc2 Hloc Hroom HQ. pose proof (cm_ready _ _ _ _ _ _ _ _ _ _ _ _ _ _ Hc2) as Hr3. apply wpc_bind. eapply (wpc_dischargevars rt U other S0 base fs3 J3 e2 T F); [apply Hr3|done|].
  intros e3 fs4 J4 Ht Hd Hf4 Hn _ _ Hid. specialize (Hn (rd_nontemp _ _ _ _ _ _ Hr3)). pose proof (ready_trans rt U other S0 _ _ _ _ _ _ _ _ _ _ _ _ Hr3 Ht Hf4 Hn) as Hr4.
  assert (const_ok fs4 (ek e3)) as Hcst by (destruct Hid as [(_ & -> & ->)|[_ Hl]]; [apply Hc2|by destruct (ek e3)]).
  assert (jlist fs4 l L) as HL by (eapply (an_list rt U other S0 base n2 1 t); eassumption). pose proof (rd_we _ _ _ _ _ _ Hr4) as Hwe4.
  assert (NoDup (((if t then T else T ++ L) ++ (if t then F ++ L else F)) ++ J4)) as (Hnd & _ & _)%NoDup_app by (eapply (an_nodup rt U other S0 base n2 1 t); eassumption). apply wpc_bind.
  eapply (wpc_concat _ _ (if t then F else T) L); [| apply HL| | |].
  - destruct t; [apply (we_F _ _ _ _ _ _ Hwe4)|apply (we_T _ _ _ _ _ _ Hwe4)].
  - destruct t; [by apply NoDup_app in Hnd as (_ & _ & ?)|by apply NoDup_app in Hnd as (? & _ & _)].
  - pose proof (tr_cost _ _ _ _ _ _ _ _ _ _ _ _ _ _ _ _ Ht) as [Hpc _]. unfold room in Hroom. change (len (code fs4)) with (pc fs4). lia.
  - intros f c' Hch Hlen Hsame Hjmp. apply wpc_ret. eapply HQ. by eapply (an_comp rt U other S0 base n1 n2 1 t ev1 ev2 fs J fs1 J1 e1 T1 F1 fs2 J2 l L fs3 J3 e2 T F fs4 J4 e3).
Qed.

Lemma compiles_logic (t : bool) a b line : compiles a -> compiles b -> compiles (EBin (if t then OPR_AND else OPR_OR) a b line).
Proof.
  intros IHa IHb base fs J Q Hwf Hf Hsab Hm Hroom HQ. assert (scoped (nactvar fs) nups a /\ scoped (nactvar fs) nups b) as [Hsa Hsb] by exact Hsab. cbn [compile size height] in *. pose proof (wf_regs _ _ Hwf) as Hrg.
  apply wpc_bind. eapply (IHa base fs J); try done; [lia|eapply room_le; [exact Hroom|pose proof (size_pos b); lia]|]. intros fs1 J1 d T F Hc1. apply wpc_bind.
  pose proof (cm_cost _ _ _ _ _ _ _ _ _ _ _ _ _ _ Hc1) as Hco1. pose proof (cm_nact _ _ _ _ _ _ _ _ _ _ _ _ _ _ Hc1) as Hna1. pose proof (cm_ready _ _ _ _ _ _ _ _ _ _ _ _ _ _ Hc1) as Hr1.
  assert (room 8 fs1) as Hroom1 by (eapply (room_cost (64 * size a) 8); [eapply room_le; [exact Hroom|pose proof (size_pos b); lia]|done]).
  assert (Hsec : forall fs2 J2 l L (rest : expdesc -> coder expdesc), branch rt U other S0 base 8 t fs1 J1 d T F fs2 J2 l L ->
    (forall d2, rest d2 = e2 ← luaK_dischargevars d2; f ← luaK_concat (if t then ef e2 else et e2) l; mret (if t then with_f e2 f else with_t e2 f)) -> wpc (d2 ← compile b; rest d2) fs2 Q).
  { intros fs2 J2 l L rest Hbr Hrest. pose proof (cost_trans _ _ _ _ _ Hco1 (br_cost _ _ _ _ _ _ _ _ _ _ _ _ _ _ _ _ Hbr)) as Hco2. pose proof (br_nact _ _ _ _ _ _ _ _ _ _ _ _ _ _ _ _ Hbr) as Hna2. apply wpc_bind.
    eapply (IHb base fs2 J2); [apply Hbr|rewrite (br_free _ _ _ _ _ _ _ _ _ _ _ _ _ _ _ _ Hbr); apply Hr1|by rewrite Hna2, Hna1|lia|eapply (room_cost (64 * size a + 8) (64 * size b)); [eapply room_le; [exact Hroom|lia]|done]|].
    intros fs3 J3 d2 T2 F2 Hc2. rewrite Hrest. eapply (wpc_second base (64 * size a) (64 * size b)); [exact Hc1|exact Hbr|exact Hc2|eapply local_ev_le; [by eapply eval_local|lia]| |].
    - eapply (room_cost (64 * size a + 8 + 64 * size b) 1); [eapply room_le; [exact Hroom|lia]|eapply cost_trans; [exact Hco2|apply Hc2]].
    - intros fs' J' e' T' F' Hc'. eapply HQ, comp_le; [eapply comp_ev; [exact Hc'|]|lia]. intros R. destruct t; cbn [eval].
      + destruct (eval a R) as [v|]; [|done]. cbn. unfold choice. by destruct (l_isfalse v).
      + destruct (eval a R) as [v|]; [|done]. cbn. unfold choice. by destruct (l_isfalse v). }
  destruct t; cbn [luaK_infix].
  - eapply (wpc_goiftrue rt U other S0 base fs1 J1 d T F); [done|apply Hc1|done|]. intros d' fs2 J2 L Hbr _. by eapply Hsec.
  - eapply (wpc_goiffalse rt U other S0 base fs1 J1 d T F); [done|done|]. intros d' fs2 J2 L Hbr _. by eapply Hsec.
Qed.

(** Every expression. *)
Lemma compiles_all e : compiles e.
Proof.
  induction e as [| | |r|s|r|u|e IH|op e IH line|op a IHa b IHb line].
  - by apply (compiles_const ENil VNIL).
  - by apply (compiles_const ETrue VTRUE).
  - by apply (compiles_const EFalse VFALSE).
  - by apply (compiles_const (ENumber r) (VKNUM r)).
  - apply compiles_string.
  - by apply (compiles_const (ELocal r) (VLOCAL r)).
  - apply (compiles_const (EUpvalue u) (VUPVAL u)); try done. intros base fs J _ Hu. cbn in *. lia.
  - by apply compiles_paren.
  - by apply compiles_un.
  - destruct op; try (by eapply compiles_arith); try (by eapply compiles_compare); [by apply compiles_concat|by apply (compiles_logic true)|by apply (compiles_logic false)].
Qed.
End Correctness.
End Expressions.
