(* ===== verification/LuaExprSpec.v ===== *)
(** * Compiled expressions compute their values

    [return e] compiled by lcode.c and run by lvm.c: the machine reaches the [RETURN] with
    the value of [e] in its register, or fails with the error of [e]. *)

From S2P Require Import Prelude LuaStr LuaRef LuaTab LuaOp LuaNumber LuaCode LuaVm LuaJump LuaRun LuaEmit LuaDesc LuaPlace LuaReg LuaOperand LuaCond LuaNot LuaConcat LuaStage LuaOper LuaLogic LuaExpr.

Lemma agrees_self fs P : agrees (code fs) (k fs) fs P.
Proof. split; [done|]. intros x i Hi. split; [done|]. intros Ho. exists i. split; [done|by apply becomes_refl]. Qed.

Section Return.
Context `{LuaNumber} `{NL : !LuaNumberLaws} (rt : runtime) (U : list TValue).

(** ** The instructions of an expression *)

(** No other instruction is run: [stuck X] fails on all of them. *)
Definition stuck (X : fault) : Z -> Z -> regs -> res (Z * regs) := fun _ _ _ => Err X.

Lemma execute1_stuck C K X other p R s : execute1 rt C K U (stuck X) p R = Ok s -> execute1 rt C K U other p R = Ok s.
Proof.
  unfold execute1. destruct (fetch C p) as [i|]; [|done]. cbn. destruct (opcodes !! Z.to_nat (GET_OPCODE i)) as [o|]; [|done]. destruct o; try done.
Qed.

Lemma execute1_stuck_err C K X other p R er : execute1 rt C K U (stuck X) p R = Err er -> er <> X -> execute1 rt C K U other p R = Err er.
Proof.
  unfold execute1. destruct (fetch C p) as [i|]; [|done]. cbn. destruct (opcodes !! Z.to_nat (GET_OPCODE i)) as [o|]; [|done]. destruct o; try done.
  all: intros [= ->]; done.
Qed.

Section Runs.
Context (C : list Z) (K : list TValue) (X : fault) (other : Z -> Z -> regs -> res (Z * regs)) (stop : Z).
Hypothesis Hstop : forall R, execute1 rt C K U (stuck X) stop R = Err X.

Lemma run_not_stop p R s : vm_step rt U (stuck X) C K (p, R) s -> p <> stop.
Proof. intros Hv ->. unfold vm_step in Hv. cbn in Hv. by rewrite Hstop in Hv. Qed.

Lemma execute_S fuel p R : p <> stop -> execute rt C K U other (S fuel) stop p R = ('(p, R) ← execute1 rt C K U other p R; execute rt C K U other fuel stop p R).
Proof. intros Hp. cbn [execute]. by rewrite (proj2 (Z.eqb_neq _ _)). Qed.

Lemma execute_reaches s s' : rtc (vm_step rt U (stuck X) C K) s s' -> fst s' = stop ->
  exists n, forall fuel, (n <= fuel)%nat -> execute rt C K U other fuel stop (fst s) (snd s) = Ok (snd s').
Proof.
  induction 1 as [s|s s1 s' Hst _ IH]; intros Hs.
  - exists 1%nat. intros [|fuel] Hf; [lia|]. cbn [execute]. by rewrite Hs, Z.eqb_refl.
  - destruct (IH Hs) as [n Hn]. exists (S n). intros [|fuel] Hf; [lia|]. destruct s as [p R], s1 as [p1 R1]. cbn [fst snd] in *. rewrite execute_S by (by eapply run_not_stop).
    rewrite (execute1_stuck _ _ X other p R _ Hst). cbn. apply Hn. lia.
Qed.

Lemma execute_fails s p R er : rtc (vm_step rt U (stuck X) C K) s (p, R) -> execute1 rt C K U (stuck X) p R = Err er -> er <> X ->
  exists n, forall fuel, (n <= fuel)%nat -> execute rt C K U other fuel stop (fst s) (snd s) = Err er.
Proof.
  intros Hr. remember (p, R) as s' eqn:Es. induction Hr as [s|s s1 s' Hst _ IH]; intros He Hx.
  - subst s. exists 1%nat. intros [|fuel] Hf; [lia|]. cbn [fst snd]. rewrite execute_S; [by rewrite (execute1_stuck_err _ _ X other _ _ _ He Hx)|]. intros ->. rewrite Hstop in He. congruence.
  - destruct (IH Es He Hx) as [n Hn]. exists (S n). intros [|fuel] Hf; [lia|]. destruct s as [q Rq], s1 as [p1 R1]. cbn [fst snd] in *. rewrite execute_S by (by eapply run_not_stop).
    rewrite (execute1_stuck _ _ X other q Rq _ Hst). cbn. apply Hn. lia.
Qed.
End Runs.

(** ** Code that ends with a [RETURN] *)

Section Ends.
Context (other : Z -> Z -> regs -> res (Z * regs)) (S0 : Z * regs).
Hypothesis HU : nups U <= 256.

Abbreviation At := (At rt U other S0).
Abbreviation Dead := (Dead rt U other S0).
Abbreviation Here := (Here rt U other S0).
Abbreviation stage := (stage rt U other S0).
Abbreviation eval := (eval rt U).

Definition nobody (x : Z) : Prop := False.

Lemma nobody_apart fs O : apart nobody fs O.
Proof. by intros x []. Qed.

(** The machine is at the last instruction with the value in [r], or fails. *)
Definition finishes (base : Z) (rv : res TValue) (R : regs) (r : Z) (fs' : FuncState) : Prop :=
  match rv with
  | Ok v => exists R', At (own0 fs' []) fs' (pc fs' - 1) R' /\ R' r = v /\ same base R R'
  | Err er => Dead (own0 fs' []) fs' er
  end.

(** The code added since [fs] ends with a [RETURN] of register [r]. *)
Record returns (n : Z) (ev : regs -> res TValue) (fs : FuncState) (J : list Z) (r : Z) (fs' : FuncState) : Prop := {
  rt_wf : wf fs' [];
  rt_fr : fr (own0 fs J) fs (own0 fs' []) fs';
  rt_last : instr_at (code fs') (pc fs' - 1) = Some (ABC OP_RETURN r 2 0);
  rt_reg : 0 <= r < 256;
  rt_merge : mergeable fs' = false;
  rt_cost : cost n fs fs';
  rt_out R : Here nobody fs J R -> finishes (freereg fs) (ev R) R r fs';
}.

Lemma stage_dead {A} base n (ev : regs -> res A) P fs J fs1 J1 R er fs' :
  stage base n ev P fs J fs1 J1 -> Here nobody fs J R -> ev R = Err er -> fr (own0 fs1 J1) fs1 (own0 fs' []) fs' -> Dead (own0 fs' []) fs' er.
Proof.
  intros Hst HH He Hf. destruct (sg_out _ _ _ _ _ _ _ _ _ _ _ _ Hst nobody R (nobody_apart _ _) HH) as [(er' & E & HD)|(v & R1 & E & _)]; [|congruence].
  rewrite He in E. injection E as <-. eapply Dead_fr; [exact Hf|]. eapply Dead_mono; [|exact HD]. by right.
Qed.

Lemma wpc_return e fs J (Q : Z -> FuncState -> Prop) :
  wf fs J -> scoped (nactvar fs) (nups U) e -> freereg fs + height e < MAXSTACK -> room (64 * size e + 11) fs ->
  (forall r fs', returns (64 * size e + 11) (eval e) fs J r fs' -> nactvar fs' = nactvar fs -> Q r fs') -> wpc (compile_return e) fs Q.
Proof.
  intros Hwf Hsc Hm Hroom HQ. set (base := freereg fs). pose proof (wf_regs _ _ Hwf) as Hrg. apply wpc_bind.
  eapply (compiles_all rt U other S0 HU e base fs J); [done|done|done|done|eapply room_le; [exact Hroom|lia]|]. intros fs1 J1 d T F Hc.
  pose proof (cm_ready _ _ _ _ _ _ _ _ _ _ _ _ _ _ Hc) as Hr. pose proof (rd_nact _ _ _ _ _ _ Hr) as Hna. apply wpc_bind.
  eapply (wpc_exp2anyreg rt U other S0 base fs1 J1 d T F); [done|eapply (room_cost (64 * size e) 10); [eapply room_le; [exact Hroom|lia]|apply Hc]|]. intros fs2 J2 r Ht Hin.
  pose proof (cost_trans _ _ _ _ _ (cm_cost _ _ _ _ _ _ _ _ _ _ _ _ _ _ Hc) (tr_cost _ _ _ _ _ _ _ _ _ _ _ _ _ _ _ _ Ht)) as Hco. pose proof (tr_nact _ _ _ _ _ _ _ _ _ _ _ _ _ _ _ _ Ht) as Hna2.
  assert (0 <= r < 256) as Hrr by (pose proof (height_pos e); destruct Hin as [[Hx _]|[-> _]]; change MAXSTACK with 250 in *; lia).
  assert (stage base (64 * size e + 10) (eval e) (fun v R => kval U fs2 (VNONRELOC r) R = Ok v) fs J fs2 J2) as Hst by (eapply comp_stage; [exact Hc|exact Ht|done|by eauto]).
  pose proof (sg_wf _ _ _ _ _ _ _ _ _ _ _ _ Hst) as Hwf2. assert (pc fs2 <= MAXARG_sBx) as Hpc2 by (unfold room in Hroom; destruct Hco; lia).
  cbn [info ek init_exp]. apply wpc_bind. unfold luaK_ret. apply wpc_bind. eapply wpc_code; [exact Hwf2|exact Hpc2|]. intros fs3 Hem. apply wpc_ret, wpc_ret. change (1 + 1) with 2 in Hem.
  assert (isop (ABC OP_RETURN r 2 0) OP_LOADNIL = false) as Hnl by (rewrite isop_ABC by (unfold abc_ok; lia); done). pose proof (em_pc _ _ _ _ Hem) as Hpc3.
  apply HQ; [split|].
  - eapply em_wf; [exact Hwf2|exact Hem|]. by rewrite Hnl.
  - eapply fr_trans; [apply Hst|by eapply em_fr'].
  - rewrite Hpc3. replace (pc fs2 + 1 - 1) with (pc fs2) by lia. exact (em_new _ _ _ _ Hem).
  - lia.
  - rewrite (em_mergeable _ _ _ _ Hwf2 Hem). done.
  - destruct Hco. split; [lia|]. unfold nk. rewrite (em_k _ _ _ _ Hem). unfold nk in *. lia.
  - intros R HH. unfold finishes. destruct (eval e R) as [v|er] eqn:Ev; [|eapply stage_dead; [exact Hst|exact HH|exact Ev|by eapply em_fr']].
    destruct (sg_out _ _ _ _ _ _ _ _ _ _ _ _ Hst nobody R (nobody_apart _ _) HH) as [(er & E & _)|(v' & R1 & E & Hs & HH2 & [= Hv])]; [congruence|]. rewrite Ev in E. injection E as <-.
    exists R1. split_and!; [|done|done]. rewrite Hpc3. replace (pc fs2 + 1 - 1) with (pc fs2) by lia. eapply At_mono; [|exact (em_arrive _ _ _ _ _ _ _ _ Hwf2 Hpc2 Hem _ _ (nobody_apart _ _) HH2)].
    intros x [-> _]%(em_own0 _ _ _ _ Hwf2 Hem). by right.
  - by rewrite (em_nact _ _ _ _ Hem), Hna2, (cm_nact _ _ _ _ _ _ _ _ _ _ _ _ _ _ Hc).
Qed.
End Ends.

(** ** The code of [return e] *)

(** The machine gets to the end of the code with the value in [r], or fails as [e] does. *)
Definition computes (other : Z -> Z -> regs -> res (Z * regs)) (C : list Z) (K : list TValue) (p stop r base : Z) (rv : res TValue) (R : regs) : Prop :=
  match rv with
  | Ok v => exists R', rtc (vm_step rt U other C K) (p, R) (stop, R') /\ R' r = v /\ same base R R'
  | Err er => exists p' R', rtc (vm_step rt U other C K) (p, R) (p', R') /\ execute1 rt C K U other p' R' = Err er
  end.

Lemma return_computes e fs other R :
  nups U <= 256 -> wf fs [] -> mergeable fs = false -> scoped (nactvar fs) (nups U) e -> freereg fs + height e < MAXSTACK -> room (64 * size e + 11) fs ->
  wpc (compile_return e) fs (fun r fs' => instr_at (code fs') (pc fs' - 1) = Some (ABC OP_RETURN r 2 0) /\ 0 <= r < 256 /\
    computes other (code fs') (k fs') (pc fs) (pc fs' - 1) r (freereg fs) (eval rt U e R) R).
Proof.
  intros HU Hwf Hmg Hsc Hm Hroom. eapply (wpc_return other (pc fs, R) HU e fs []); [done..|]. intros r fs' [_ _ Hl Hr _ _ Ho] _. split_and!; [done|lia|lia|].
  assert (Here rt U other (pc fs, R) nobody fs [] R) as HH by (left; split; [done|]; intros C K _; apply rtc_refl). specialize (Ho R HH). unfold finishes in Ho. unfold computes.
  destruct (eval rt U e R) as [v|er]; [|exact (Ho _ _ (agrees_self fs' _))]. destruct Ho as (R' & HA & Hv & Hs). exists R'. split_and!; [exact (HA _ _ (agrees_self fs' _))|done|done].
Qed.

Lemma execute1_return C K X r p R : instr_at C p = Some (ABC OP_RETURN r 2 0) -> 0 <= r < 256 -> execute1 rt C K U (stuck X) p R = Err X.
Proof.
  intros Hi Hr. unfold execute1. rewrite (fetch_at _ _ _ Hi). cbn [mbind res_bind]. by rewrite (proj1 (ABC_fields OP_RETURN r 2 0 ltac:(unfold abc_ok; lia))).
Qed.

(** The statement about [execute]. *)
Lemma computes_execute C K p stop r base (rv : res TValue) R other :
  instr_at C stop = Some (ABC OP_RETURN r 2 0) -> 0 <= r < 256 -> (forall X, computes (stuck X) C K p stop r base rv R) ->
  exists n, forall fuel, (n <= fuel)%nat ->
    match rv with
    | Ok v => exists R', execute rt C K U other fuel stop p R = Ok R' /\ R' r = v /\ same base R R'
    | Err er => execute rt C K U other fuel stop p R = Err er
    end.
Proof.
  intros Hi Hr Hc. destruct rv as [v|er].
  - destruct (Hc Undefined) as (R' & Hrun & Hv & Hs). destruct (execute_reaches C K Undefined other stop (fun R => execute1_return C K Undefined r stop R Hi Hr) _ _ Hrun eq_refl) as [n Hn].
    exists n. intros fuel Hf. exists R'. split_and!; [by apply Hn|done|done].
  - assert (exists X : fault, er <> X) as [X Hx] by (destruct (decide (er = Undefined)) as [->|]; [by exists LuaError|by exists Undefined]).
    destruct (Hc X) as (p' & R' & Hrun & He). exact (execute_fails C K X other stop (fun R => execute1_return C K X r stop R Hi Hr) _ _ _ _ Hrun He Hx).
Qed.

(** C2. [return e], compiled by the functions of lcode.c in the order of the parser and run
    by the interpreter loop of lvm.c, computes the value of [e]: compilation succeeds when
    registers, code and constants have room, the run reaches the [RETURN] with the value in
    the register it names and the registers below the temporaries unchanged, and when the
    value of [e] is an error the run stops with that error.  This covers constants and
    constant folding, operands in registers and constants, comparisons and their jumps,
    short-circuit [and] and [or] with their jump lists, [not], and concatenation. *)
Theorem return_expression_correct (e : expr) (fs : FuncState) :
  wf fs [] -> mergeable fs = false -> scoped (nactvar fs) (nups U) e -> nups U <= 256 -> freereg fs + height e < MAXSTACK -> room (64 * size e + 11) fs ->
  exists r fs', compile_return e fs = Ok (r, fs') /\ instr_at (code fs') (pc fs' - 1) = Some (ABC OP_RETURN r 2 0) /\
    forall other R, exists n, forall fuel, (n <= fuel)%nat ->
      match eval rt U e R with
      | Ok v => exists R', execute rt (code fs') (k fs') U other fuel (pc fs' - 1) (pc fs) R = Ok R' /\ R' r = v /\ same (freereg fs) R R'
      | Err er => execute rt (code fs') (k fs') U other fuel (pc fs' - 1) (pc fs) R = Err er
      end.
Proof.
  intros Hwf Hmg Hsc HU Hm Hroom. pose proof (fun other R => return_computes e fs other R HU Hwf Hmg Hsc Hm Hroom) as Hret. unfold wpc in Hret.
  destruct (compile_return e fs) as [[r fs']|er]; [|destruct (Hret (stuck Undefined) (fun _ => LNil))]. exists r, fs'. destruct (Hret (stuck Undefined) (fun _ => LNil)) as (Hi & Hr & _). split_and!; [done|exact Hi|].
  intros other R. apply computes_execute; [exact Hi|done|]. intros X. apply Hret.
Qed.
End Return.

(** ** Example: [not (x == y) and x + 2 * 3 or "a" .. y] *)

Definition no_pow (_ _ : Z) : Z := 0.

Definition plain_runtime : runtime := {|
  luaO_str2d := fun _ => None;
  number2str := fun _ => [];
  call_binTM := fun _ _ _ => None;
  equalTM := fun _ _ => None;
  objlen := fun _ => Err LuaError;
|}.

(** A function with two parameters. *)
Definition two_params : FuncState := MkFunc [] [] [] [] 2 0 NO_JUMP 2 2 0.

Definition sample : expr :=
  EBin OPR_OR
    (EBin OPR_AND (EUn OPR_NOT (EParen (EBin OPR_EQ (ELocal 0) (ELocal 1) 1)) 1)
       (EBin OPR_ADD (ELocal 0) (EBin OPR_MUL (ENumber 0x4000000000000000) (ENumber 0x4008000000000000) 1) 1) 1)
    (EBin OPR_CONCAT (EString [97]) (ELocal 1) 1) 1.

(** Witness of C2: the code has nine instructions, [2 * 3] is the constant 6, and with [x = 1] and
    [y = 2] the run leaves 7 in register 2. *)
Lemma return_expression_correct_witness :
  (exists r fs', @compile_return (double_number no_pow) sample two_params = Ok (r, fs') /\ instr_at (code fs') (pc fs' - 1) = Some (ABC OP_RETURN r 2 0) /\
    forall other R, exists n, forall fuel, (n <= fuel)%nat ->
      match @eval (double_number no_pow) plain_runtime [] sample R with
      | Ok v => exists R', @execute (double_number no_pow) plain_runtime (code fs') (k fs') [] other fuel (pc fs' - 1) (pc two_params) R = Ok R' /\ R' r = v /\ same 2 R R'
      | Err er => @execute (double_number no_pow) plain_runtime (code fs') (k fs') [] other fuel (pc fs' - 1) (pc two_params) R = Err er
      end) /\
  @eval (double_number no_pow) plain_runtime [] sample (fun r => LNumber (if r =? 0 then 0x3ff0000000000000 else 0x4000000000000000)) = Ok (LNumber 0x401c000000000000).
Proof.
  split; [|vm_compute; reflexivity].
  apply (@return_expression_correct (double_number no_pow) (double_laws no_pow) plain_runtime [] sample two_params).
  - split; try done.
    + intros j Hj. by apply elem_of_nil in Hj.
    + apply NoDup_nil_2.
    + constructor.
  - reflexivity.
  - cbn [sample scoped nactvar two_params]. unfold in_u. split_and!; try done; lia.
  - vm_compute. discriminate.
  - vm_compute. reflexivity.
  - split; vm_compute; discriminate.
Defined.
