(* ===== verification/LuaExprParse.v ===== *)
(** * Parsed expressions

    The parser of lparser.c reads the tokens of an expression, with the priorities of the
    operators, and calls the code generator as [compile] does; the code differs in line
    numbers only. *)

From S2P Require Import Prelude LuaStr LuaZio LuaDump LuaLex LuaLexSpec LuaOp LuaNumber LuaCode LuaVm LuaLines LuaParse LuaExpr.

(** Tests of a known token. *)
Ltac tests := repeat match goal with |- context [?a =? ?b] => let v := eval vm_compute in (a =? b) in (match v with true => idtac | false => idtac end); change (a =? b) with v end; cbv iota.

(** ** Tokens ahead *)

Section Parsing.
Context `{LuaNumber} (luaO_str2d : bytes -> option Z) (lexfuel : nat).

(** The tokens behind the current one, up to the end. *)
Definition ahead (l : LexState) (ts : list Token) : Prop := exists calls, lex_tokens luaO_str2d calls lexfuel l = inr ts.

(** The current token and those behind it. *)
Definition reading (l : LexState) (ts : list Token) : Prop :=
  match ts with [] => False | t :: ts => lt l = t /\ (token t <> TK_EOS -> ahead l ts) end.

Lemma ahead_next l ts : ahead l ts -> exists l', luaX_next luaO_str2d lexfuel l = inr ((), l') /\ reading l' ts.
Proof.
  intros [[|calls] Hc]; [done|]. cbn [lex_tokens] in Hc. destruct (luaX_next luaO_str2d lexfuel l) as [|[[] l']]; [done|]. exists l'. split; [done|].
  destruct (Z.eqb_spec (token (lt l')) TK_EOS).
  - injection Hc as <-. by split.
  - destruct (lex_tokens luaO_str2d calls lexfuel l') as [|ts'] eqn:E; [done|]. injection Hc as <-. split; [done|]. intros _. by exists calls.
Qed.
(** ** Runs of the parser *)

Definition wpp {A} (m : parser A) (s : PState) (Q : A -> PState -> Prop) : Prop :=
  match m s with Ok (a, s') => Q a s' | Err _ => False end.

Lemma wpp_ret {A} (a : A) s (Q : A -> PState -> Prop) : Q a s -> wpp (mret a) s Q.
Proof. done. Qed.

Lemma wpp_bind {A B} (m : parser A) (f : A -> parser B) s (Q : B -> PState -> Prop) : wpp m s (fun a s' => wpp (f a) s' Q) -> wpp (m ≫= f) s Q.
Proof. unfold wpp, mbind, parser_bind. by destruct (m s) as [[a s']|]. Qed.

Lemma wpp_mono {A} (m : parser A) s (Q Q' : A -> PState -> Prop) : wpp m s Q -> (forall a s', Q a s' -> Q' a s') -> wpp m s Q'.
Proof. unfold wpp. destruct (m s) as [[a s']|]; auto. Qed.

(** The scope of the function being parsed: [f0] up to its code, [n] active variables, the
    gotos and labels. *)
Context (f0 : PFunc) (outer : list PFunc) (av : list Z) (n : Z) (gl ll : list Labeldesc).

(** The parser reads [ts]; the code so far is that of [fs], up to lines. *)
Record at_tokens (cc : Z) (fs : FuncState) (ts : list Token) (s : PState) : Prop := {
  at_funcs : exists c, funcs s = with_pf f0 c :: outer /\ eqv n c fs;
  at_reading : reading (ls s) ts;
  at_actvar : actvar s = av;
  at_ccalls : nCcalls s = cc;
  at_labels : gt s = gl /\ label s = ll;
}.

Lemma wpp_tok cc fs t ts s (Q : Z -> PState -> Prop) : at_tokens cc fs (t :: ts) s -> Q (token t) s -> wpp tok s Q.
Proof. intros [_ [<- _] _ _ _] HQ. exact HQ. Qed.

Lemma wpp_next cc fs t ts s (Q : () -> PState -> Prop) :
  at_tokens cc fs (t :: ts) s -> token t <> TK_EOS -> (forall s', at_tokens cc fs ts s' -> Q () s') -> wpp (nexttoken luaO_str2d lexfuel) s Q.
Proof.
  intros [Hf [_ Hr] Ha Hc Hl] Ht HQ. destruct (ahead_next _ _ (Hr Ht)) as (l' & E & Hr'). unfold wpp, nexttoken, lexer_call. rewrite E. apply HQ. by split.
Qed.

Lemma wpp_emit {A} (m m' : coder A) cc fs ts s a fs' (Q : A -> PState -> Prop) :
  at_tokens cc fs ts s -> lineless2 m m' -> m' fs = Ok (a, fs') -> (forall s', at_tokens cc fs' ts s' -> Q a s') -> wpp (emit m) s Q.
Proof.
  intros [(c & Hf & He) Hr Ha Hc Hl] Hm Em HQ. unfold wpp, emit. rewrite Hf. cbn [pf with_pf]. assert (eqv n (set_lastline (LuaLex.lastline (ls s)) c) fs) as He' by (destruct He; by split).
  specialize (Hm n _ _ He'). rewrite Em in Hm. unfold agree in Hm. destruct (m _) as [[b c']|]; [|done]. destruct Hm as [-> He2]. apply HQ. split; try done. by exists c'.
Qed.

(** ** Written expressions *)

(** The local variables, the first first, and the upvalues. *)
Context (names ups : list bytes).

(** The variable a name means: the last local with the name, or the first upvalue. *)
Definition resolves (x : bytes) (v : expkind) : Prop :=
  match v with
  | VLOCAL r => 0 <= r /\ names !! Z.to_nat r = Some x /\ forall j, (Z.to_nat r < j)%nat -> names !! j <> Some x
  | VUPVAL u => x ∉ names /\ 0 <= u /\ ups !! Z.to_nat u = Some x /\ forall j, (j < Z.to_nat u)%nat -> ups !! j <> Some x
  | _ => False
  end.

(** The tokens of an expression. *)
Inductive written : expr -> list Token -> Prop :=
  | W_nil t : token t = TK_NIL -> written ENil [t]
  | W_true t : token t = TK_TRUE -> written ETrue [t]
  | W_false t : token t = TK_FALSE -> written EFalse [t]
  | W_number r : written (ENumber r) [MkToken TK_NUMBER (SemNumber r)]
  | W_string s : written (EString s) [MkToken TK_STRING (SemString s)]
  | W_local name r : resolves name (VLOCAL r) -> written (ELocal r) [MkToken TK_NAME (SemString name)]
  | W_upvalue name u : resolves name (VUPVAL u) -> written (EUpvalue u) [MkToken TK_NAME (SemString name)]
  | W_paren t1 e ts t2 : token t1 = 40 -> written e ts -> token t2 = 41 -> written (EParen e) (t1 :: ts ++ [t2])
  | W_un op t e ts line : getunopr (token t) = Some op -> written e ts -> written (EUn op e line) (t :: ts)
  | W_bin op t a tsa b tsb line : getbinopr (token t) = Some op -> written a tsa -> written b tsb -> written (EBin op a b line) (tsa ++ t :: tsb).

(** The operators bind as the tree says when the expression is read with limit [lim] and
    the operator behind it has left priority [nxt] (0 when there is none). *)
Fixpoint grouped (lim : Z) (e : expr) (nxt : Z) : bool :=
  match e with
  | EParen e => grouped 0 e 0
  | EUn _ e _ => (nxt <=? UNARY_PRIORITY) && grouped UNARY_PRIORITY e nxt
  | EBin op a b _ =>
      (lim <? fst (priority op)) && grouped lim a (fst (priority op)) && (nxt <=? snd (priority op)) && grouped (snd (priority op)) b nxt
  | _ => true
  end.

(** Calls of [subexpr] inside each other. *)
Fixpoint levels (e : expr) : Z :=
  match e with
  | EParen e => 1 + levels e
  | EUn _ e _ => 1 + levels e
  | EBin _ a b _ => Z.max (levels a) (1 + levels b)
  | _ => 0
  end.

Lemma levels_pos e : 0 <= levels e.
Proof. induction e; cbn [levels]; lia. Qed.

(** Turns of the loop of [subexpr]. *)
Fixpoint spine (e : expr) : nat := match e with EBin _ a _ _ => S (spine a) | _ => 0 end.

Definition left_priority (t : Token) : Z := match getbinopr (token t) with Some op => fst (priority op) | None => 0 end.

(** Tokens that continue a variable or a call. *)
Definition suffix_start (t : Token) : bool :=
  let c := token t in (c =? 46) || (c =? 91) || (c =? 58) || (c =? 40) || (c =? TK_STRING) || (c =? 123).

Lemma binop_not_suffix t op : getbinopr (token t) = Some op -> suffix_start t = false /\ token t <> TK_EOS.
Proof.
  unfold getbinopr, suffix_start. repeat (match goal with |- context [token t =? ?c] => destruct (Z.eqb_spec (token t) c) as [->|?] end; [by vm_compute|]). done.
Qed.

(** The function has these variables. *)
Record in_scope : Prop := {
  sc_count : n = Z.of_nat (length names);
  sc_names : forall i x, names !! i = Some x -> locname av f0 (Z.of_nat i) = Some x;
  sc_ups : LuaDump.name <$> upvalues f0 = Some <$> ups;
}.
Context (Hscope : in_scope).

Lemma locname_pf c i : locname av (with_pf f0 c) i = locname av f0 i.
Proof. done. Qed.

Lemma searchvar_loop_last c m x r :
  (m <= length names)%nat -> (r < m)%nat -> names !! r = Some x -> (forall j, (r < j)%nat -> names !! j <> Some x) -> searchvar_loop av (with_pf f0 c) m x = Some (Z.of_nat r).
Proof.
  intros Hm Hr Hx Hl. induction m as [|m IH]; [lia|]. cbn [searchvar_loop]. rewrite locname_pf. destruct (lookup_lt_is_Some_2 names m) as [y Hy]; [lia|]. rewrite (sc_names Hscope _ _ Hy).
  destruct (decide (r = m)) as [->|]; [by rewrite decide_True by congruence|]. rewrite decide_False; [apply IH; lia|]. intros [= ->]. by apply (Hl m); [lia|].
Qed.

Lemma searchvar_loop_none c m x : (m <= length names)%nat -> x ∉ names -> searchvar_loop av (with_pf f0 c) m x = None.
Proof.
  intros Hm Hx. induction m as [|m IH]; [done|]. cbn [searchvar_loop]. rewrite locname_pf. destruct (lookup_lt_is_Some_2 names m) as [y Hy]; [lia|]. rewrite (sc_names Hscope _ _ Hy), decide_False; [apply IH; lia|].
  intros [= ->]. by apply Hx, (list_elem_of_lookup_2 _ m).
Qed.

Lemma searchupvalue_first c x u : ups !! u = Some x -> (forall j, (j < u)%nat -> ups !! j <> Some x) -> searchupvalue (with_pf f0 c) x = Some (Z.of_nat u).
Proof.
  intros Hu Hl. unfold searchupvalue. cbn [upvalues with_pf]. pose proof (sc_ups Hscope) as Hn. assert (forall j, LuaDump.name <$> (upvalues f0 !! j) = Some <$> (ups !! j)) as Hj by (intros j; by rewrite <- !list_lookup_fmap, Hn).
  pose proof (Hj u) as Hju. rewrite Hu in Hju. destruct (upvalues f0 !! u) as [d|] eqn:Ed; [|done]. injection Hju as Hju. assert (list_find (fun d => LuaDump.name d = Some x) (upvalues f0) = Some (u, d)) as ->; [|done].
  apply list_find_Some. split_and!; [done|done|]. intros j d' Hd' Hlt Hx. pose proof (Hj j) as Hjj. rewrite Hd' in Hjj. cbn in Hjj. rewrite Hx in Hjj. destruct (ups !! j) as [y|] eqn:Ey; [|done]. injection Hjj as ->. by apply (Hl j).
Qed.

Lemma wpp_find_variable cc fs ts s x v (Q : expkind -> PState -> Prop) : at_tokens cc fs ts s -> resolves x v -> Q v s -> wpp (find_variable x) s Q.
Proof.
  intros [(c & Hf & He) Hr Ha Hc _] Hv HQ. unfold wpp, find_variable. rewrite Hf, Ha. cbn [singlevaraux]. unfold searchvar. cbn [pf with_pf]. rewrite (eq_nact _ _ _ He), (sc_count Hscope), Nat2Z.id.
  assert (set_funcs (with_pf f0 c :: outer) s = s) as Es by (destruct s; cbn in *; by subst). destruct v as [| | | | | | |r|u| | | | |]; try done; cbn in Hv.
  - destruct Hv as (H0 & Hx & Hl). rewrite (searchvar_loop_last c _ x (Z.to_nat r)); [|done|by eapply lookup_lt_Some|done|done]. rewrite Z2Nat.id by done. cbn. by rewrite Es.
  - destruct Hv as (Hx & H0 & Hu & Hl). rewrite searchvar_loop_none by done. rewrite (searchupvalue_first c x (Z.to_nat u)) by done. rewrite Z2Nat.id by done. cbn. by rewrite Es.
Qed.

(** ** The grammar *)

Context (body : bool -> Z -> parser expdesc).

Abbreviation subexpr := (subexpr luaO_str2d lexfuel body).
Abbreviation operand := (fun fuel => operand luaO_str2d lexfuel (subexpr fuel) body fuel).
Abbreviation binop_loop := (fun fuel => binop_loop luaO_str2d lexfuel (subexpr fuel)).

(** Reading the tokens of [e] does what [compile e] does, and leaves the loop of [subexpr]
    at the token behind. *)
Definition parses (e : expr) : Prop :=
  forall ts, written e ts -> forall lim t0 rest cc fs d fs' fuel m s (Q : expdesc * option BinOpr -> PState -> Prop),
    at_tokens cc fs (ts ++ t0 :: rest) s -> grouped lim e (left_priority t0) = true -> suffix_start t0 = false -> compile e fs = Ok (d, fs') ->
    cc + levels e <= LUAI_MAXCCALLS -> size e <= Z.of_nat fuel -> (spine e <= m)%nat ->
    (forall s', at_tokens cc fs' (t0 :: rest) s' -> wpp (binop_loop fuel (m - spine e)%nat lim d (getbinopr (token t0))) s' Q) ->
    wpp (v ← operand fuel; t ← tok; binop_loop fuel m lim v (getbinopr t)) s Q.

Lemma wpp_operand_simple fuel s t (Q : expdesc -> PState -> Prop) :
  token (lt (ls s)) = t -> getunopr t = None -> wpp (simpleexp luaO_str2d lexfuel (subexpr fuel) body fuel) s Q -> wpp (operand fuel) s Q.
Proof. intros Ht Hu HQ. unfold LuaParse.operand. apply wpp_bind. unfold wpp at 1, tok, getp. by rewrite Ht, Hu. Qed.

Lemma at_token cc fs t ts s : at_tokens cc fs (t :: ts) s -> token (lt (ls s)) = token t.
Proof. by intros [_ [-> _] _ _ _]. Qed.

(** A simple expression and the loop behind it. *)
Lemma parses_simple e :
  spine e = 0%nat ->
  (forall ts, written e ts -> forall t0 rest cc fs d fs' fuel s (Q : expdesc -> PState -> Prop),
    at_tokens cc fs (ts ++ t0 :: rest) s -> suffix_start t0 = false -> compile e fs = Ok (d, fs') -> cc + levels e <= LUAI_MAXCCALLS -> size e <= Z.of_nat fuel ->
    (forall lim, grouped lim e (left_priority t0) = true) ->
    (forall s', at_tokens cc fs' (t0 :: rest) s' -> Q d s') -> wpp (operand fuel) s Q) ->
  (forall lim lim' nxt, grouped lim e nxt = grouped lim' e nxt) -> parses e.
Proof.
  intros Hsp Hop Hg ts Hw lim t0 rest cc fs d fs' fuel m s Q Ha Hgr Hsx Hc Hl Hsz Hm HQ. apply wpp_bind. eapply (Hop ts Hw t0 rest cc fs d fs' fuel); try done; [by intros lim'; rewrite (Hg lim' lim)|].
  intros s' Ha'. apply wpp_bind. eapply wpp_tok; [exact Ha'|]. specialize (HQ s' Ha'). rewrite Hsp, Nat.sub_0_r in HQ. exact HQ.
Qed.

(** Inside [subexpr] the limit stops the loop. *)
Lemma wpp_subexpr e ts lim t0 rest cc fs d fs' fuel s (Q : expdesc * option BinOpr -> PState -> Prop) :
  parses e -> written e ts -> at_tokens cc fs (ts ++ t0 :: rest) s -> grouped lim e (left_priority t0) = true -> left_priority t0 <= lim -> suffix_start t0 = false -> compile e fs = Ok (d, fs') ->
  cc + 1 + levels e <= LUAI_MAXCCALLS -> size e <= Z.of_nat fuel -> (spine e <= fuel)%nat ->
  (forall s', at_tokens cc fs' (t0 :: rest) s' -> Q (d, getbinopr (token t0)) s') -> wpp (subexpr (S fuel) lim) s Q.
Proof.
  intros Hp Hw Ha Hgr Hlim Hsx Hc Hl Hsz Hsp HQ. cbn [LuaParse.subexpr]. unfold subexpr_rule. apply wpp_bind. unfold wpp at 1, enterlevel. rewrite (at_ccalls _ _ _ _ Ha).
  pose proof (levels_pos e) as Hlv. rewrite Z.gtb_ltb, (proj2 (Z.ltb_ge _ _)) by lia.
  assert (at_tokens (cc + 1) fs (ts ++ t0 :: rest) (set_ccalls (cc + 1) s)) as Ha1 by (destruct Ha; by split).
  assert (Hrun : wpp (v ← operand fuel; t ← tok; binop_loop fuel fuel lim v (getbinopr t)) (set_ccalls (cc + 1) s) (fun r s' => wpp (_ ← leavelevel; mret r) s' Q)).
  { eapply (Hp ts Hw lim t0 rest (cc + 1) fs d fs' fuel fuel); try done. intros s' Ha'.
    assert (wpp (mret (d, getbinopr (token t0))) s' (fun r s' => wpp (_ ← leavelevel; mret r) s' Q)) as Hret.
    { apply wpp_ret, wpp_bind. unfold wpp at 1, leavelevel. apply wpp_ret, HQ. destruct Ha' as [H1 H2 H3 H4 H5]. split; try done. cbn. lia. }
    unfold left_priority in Hlim. destruct (getbinopr (token t0)) as [op|]; destruct (fuel - spine e)%nat; cbn [LuaParse.binop_loop]; try exact Hret; by rewrite Z.gtb_ltb, (proj2 (Z.ltb_ge _ _)). }
  unfold wpp, mbind, parser_bind in Hrun |- *. destruct (LuaParse.operand luaO_str2d lexfuel (subexpr fuel) body fuel (set_ccalls (cc + 1) s)) as [[v s1]|]; [|done].
  cbn in Hrun |- *. destruct (LuaParse.binop_loop luaO_str2d lexfuel (subexpr fuel) fuel lim v (getbinopr (token (lt (ls s1)))) s1) as [[r s2]|]; done.
Qed.

(** *** Leaves *)

(** The current token is read; it is passed. *)
Ltac read_tok Ha Ht := apply wpp_bind; eapply wpp_tok; [exact Ha|]; rewrite ?Ht; cbn [token]; tests.
Ltac pass_tok Ha Ht := apply wpp_bind; eapply wpp_next; [exact Ha|by rewrite ?Ht|]; clear Ha; intros ? Ha.

Lemma wpp_sem cc fs t ts s (Q : SemInfo -> PState -> Prop) : at_tokens cc fs (t :: ts) s -> Q (seminfo t) s -> wpp sem s Q.
Proof. intros [_ [<- _] _ _ _] HQ. exact HQ. Qed.

Lemma wpp_sem_string cc fs c x ts s (Q : bytes -> PState -> Prop) : at_tokens cc fs (MkToken c (SemString x) :: ts) s -> Q x s -> wpp sem_string s Q.
Proof. intros Ha HQ. apply wpp_bind. by eapply wpp_sem. Qed.

(** A single token of kind [c] that [simpleexp] turns into the description of [e]. *)
Lemma parses_leaf e c :
  (forall ts, written e ts -> exists t, ts = [t] /\ token t = c) -> getunopr c = None ->
  (forall t t0 rest cc fs d fs' fuel s (Q : expdesc -> PState -> Prop), written e [t] -> at_tokens cc fs (t :: t0 :: rest) s -> token t = c -> suffix_start t0 = false -> compile e fs = Ok (d, fs') ->
    (1 <= fuel)%nat -> (forall s', at_tokens cc fs' (t0 :: rest) s' -> Q d s') -> wpp (simpleexp luaO_str2d lexfuel (subexpr fuel) body fuel) s Q) ->
  spine e = 0%nat -> (forall lim nxt, grouped lim e nxt = true) -> parses e.
Proof.
  intros Hts Hu Hs Hsp Hg. apply parses_simple; [done| |by intros; rewrite !Hg]. intros ts Hw t0 rest cc fs d fs' fuel s Q Ha Hsx Hd _ Hsz _ HQ. destruct (Hts ts Hw) as (t & -> & Ht). cbn [app] in Ha.
  pose proof (size_pos e). eapply wpp_operand_simple; [exact (at_token _ _ _ _ _ Ha)|by rewrite Ht|]. eapply (Hs t t0 rest cc fs d fs'); eauto. lia.
Qed.

Ltac leaf := intros ts Hw; inversion Hw; subst; by eauto.

Lemma parses_nil : parses ENil.
Proof.
  apply (parses_leaf ENil TK_NIL); [leaf|done| |done|done]. intros t t0 rest cc fs d fs' fuel s Q _ Ha Ht _ Hd _ HQ. injection Hd as <- <-.
  unfold simpleexp. read_tok Ha Ht. pass_tok Ha Ht. apply wpp_ret, HQ, Ha.
Qed.

Lemma parses_true : parses ETrue.
Proof.
  apply (parses_leaf ETrue TK_TRUE); [leaf|done| |done|done]. intros t t0 rest cc fs d fs' fuel s Q _ Ha Ht _ Hd _ HQ. injection Hd as <- <-.
  unfold simpleexp. read_tok Ha Ht. pass_tok Ha Ht. apply wpp_ret, HQ, Ha.
Qed.

Lemma parses_false : parses EFalse.
Proof.
  apply (parses_leaf EFalse TK_FALSE); [leaf|done| |done|done]. intros t t0 rest cc fs d fs' fuel s Q _ Ha Ht _ Hd _ HQ. injection Hd as <- <-.
  unfold simpleexp. read_tok Ha Ht. pass_tok Ha Ht. apply wpp_ret, HQ, Ha.
Qed.

Lemma parses_number r : parses (ENumber r).
Proof.
  apply (parses_leaf (ENumber r) TK_NUMBER); [leaf|done| |done|done]. intros t t0 rest cc fs d fs' fuel s Q Hw Ha Ht _ Hd _ HQ. injection Hd as <- <-. inversion Hw; subst.
  unfold simpleexp. read_tok Ha Ht. apply wpp_bind. eapply wpp_sem; [exact Ha|]. cbn [seminfo]. pass_tok Ha Ht. apply wpp_ret, HQ, Ha.
Qed.

Lemma compile_string_inv x fs d fs' : compile (EString x) fs = Ok (d, fs') -> exists i, luaK_stringK x fs = Ok (i, fs') /\ d = init_exp (VK i).
Proof. cbn [compile]. unfold mbind, coder_bind. destruct (luaK_stringK x fs) as [[i f1]|]; [|done]. cbn. intros [= <- <-]. by exists i. Qed.

Lemma parses_string x : parses (EString x).
Proof.
  apply (parses_leaf (EString x) TK_STRING); [leaf|done| |done|done]. intros t t0 rest cc fs d fs' fuel s Q Hw Ha Ht _ Hd _ HQ. destruct (compile_string_inv _ _ _ _ Hd) as (i & Hi & ->). inversion Hw; subst.
  unfold simpleexp. read_tok Ha Ht. apply wpp_bind. eapply wpp_sem_string; [exact Ha|]. apply wpp_bind. unfold codestring. apply wpp_bind.
  eapply wpp_emit; [exact Ha|apply ll_stringK|exact Hi|]. clear Ha. intros s1 Ha. apply wpp_ret. pass_tok Ha Ht. apply wpp_ret, HQ, Ha.
Qed.

(** Nothing continues the expression. *)
Lemma wpp_suffix_end cc fs t ts s sub fuel m ln v (Q : expdesc -> PState -> Prop) :
  at_tokens cc fs (t :: ts) s -> suffix_start t = false -> (1 <= m)%nat -> Q v s -> wpp (suffix_loop luaO_str2d lexfuel sub fuel m ln v) s Q.
Proof.
  intros Ha Hsx Hm HQ. destruct m as [|m]; [lia|]. cbn [suffix_loop]. apply wpp_bind. eapply wpp_tok; [exact Ha|]. unfold suffix_start in Hsx. rewrite !orb_false_iff in Hsx.
  destruct Hsx as (((((-> & ->) & ->) & ->) & ->) & ->). exact HQ.
Qed.

Lemma wpp_getp {A} (f : PState -> A) s (Q : A -> PState -> Prop) : Q (f s) s -> wpp (getp f) s Q.
Proof. done. Qed.

(** *** Variables *)

Lemma parses_variable e name v :
  resolves name v -> compile e = mret (init_exp v) -> (forall ts, written e ts -> exists name, ts = [MkToken TK_NAME (SemString name)] /\ resolves name v) ->
  spine e = 0%nat -> (forall lim nxt, grouped lim e nxt = true) -> parses e.
Proof.
  intros Hv Hcomp Hts Hsp Hg. apply (parses_leaf e TK_NAME); [|done| |done|done].
  { intros ts Hw. destruct (Hts ts Hw) as (nm & -> & _). by eexists. }
  intros t t0 rest cc fs d fs' fuel s Q Hw Ha Ht Hsx Hd Hf HQ. rewrite Hcomp in Hd. injection Hd as <- <-. destruct (Hts _ Hw) as (nm & [= ->] & Hnm).
  unfold simpleexp. read_tok Ha Ht. unfold suffixedexp. apply wpp_bind, wpp_getp, wpp_bind. unfold primaryexp. read_tok Ha Ht. unfold singlevar, str_checkname. apply wpp_bind, wpp_bind.
  unfold check. read_tok Ha Ht. apply wpp_ret, wpp_bind. eapply wpp_sem_string; [exact Ha|]. apply wpp_bind. eapply wpp_next; [exact Ha|done|]. clear Ha. intros s1 Ha. apply wpp_ret, wpp_bind. eapply wpp_find_variable; [exact Ha|exact Hnm|].
  assert (wpp (suffix_loop luaO_str2d lexfuel (subexpr fuel) fuel fuel (linenumber (ls s)) (init_exp v)) s1 Q) as Hend by (eapply wpp_suffix_end; [exact Ha|done|done|by apply HQ]).
  destruct v; try done; by apply wpp_ret.
Qed.

Lemma parses_unwritten e : (forall ts, ~ written e ts) -> parses e.
Proof. intros Hn ts Hw. by destruct (Hn ts). Qed.

Lemma parses_local r : parses (ELocal r).
Proof.
  intros ts Hw. inversion Hw as [| | | | |name r' Hr| | | |]; subst. revert Hw. apply (parses_variable (ELocal r) name (VLOCAL r)); [done..| |done|done].
  intros ts Hw. inversion Hw; subst. by eauto.
Qed.

Lemma parses_upvalue u : parses (EUpvalue u).
Proof.
  intros ts Hw. inversion Hw as [| | | | | |name u' Hr| | |]; subst. revert Hw. apply (parses_variable (EUpvalue u) name (VUPVAL u)); [done..| |done|done].
  intros ts Hw. inversion Hw; subst. by eauto.
Qed.

(** *** Operators and parentheses *)

Lemma spine_size e : Z.of_nat (spine e) < size e.
Proof. induction e as [| | | | | | |e IH|op e IH line|op a IHa b IHb line]; cbn [spine size]; try (pose proof (size_pos e)); try (pose proof (size_pos b)); lia. Qed.

Lemma parses_paren e : parses e -> parses (EParen e).
Proof.
  intros IH. apply parses_simple; [done| |done]. intros ts Hw t0 rest cc fs d fs' fuel s Q Ha Hsx Hd Hl Hsz Hg HQ. specialize (Hg 0). cbn [grouped levels size] in *.
  inversion Hw as [| | | | | | |t1 e' tse t2 H1 He H2| |]; subst. apply bind_inv in Hd as (v & fs1 & Hv & Hd). destruct fuel as [|fuel]; [pose proof (size_pos e); lia|]. pose proof (spine_size e).
  rewrite <- !app_comm_cons, <- app_assoc in Ha. cbn [app] in Ha. eapply wpp_operand_simple; [exact (at_token _ _ _ _ _ Ha)|by rewrite H1|]. unfold simpleexp. read_tok Ha H1.
  unfold suffixedexp. apply wpp_bind, wpp_getp, wpp_bind. unfold primaryexp. read_tok Ha H1. pass_tok Ha H1. apply wpp_bind. unfold LuaParse.expr. apply wpp_bind.
  assert (left_priority t2 = 0) as Hp by (unfold left_priority; by rewrite H2). eapply (wpp_subexpr e tse 0 t2 (t0 :: rest) cc fs v fs1 fuel); try done; [by rewrite Hp|by rewrite Hp|unfold suffix_start; by rewrite H2|lia|lia|lia|].
  clear Ha. intros s1 Ha. apply wpp_ret, wpp_bind. unfold check_match, testnext. apply wpp_bind, wpp_bind. eapply wpp_tok; [exact Ha|]. rewrite H2. tests. pass_tok Ha H2. apply wpp_ret, wpp_ret.
  eapply wpp_emit; [exact Ha|apply ll_dischargevars|exact Hd|]. clear Ha. intros s3 Ha. eapply wpp_suffix_end; [exact Ha|done|lia|by apply HQ].
Qed.

Lemma unop_not_eos t op : getunopr (token t) = Some op -> token t <> TK_EOS.
Proof. intros Hu He. by rewrite He in Hu. Qed.

Lemma parses_un op e line : parses e -> parses (EUn op e line).
Proof.
  intros IH. apply parses_simple; [done| |done]. intros ts Hw t0 rest cc fs d fs' fuel s Q Ha Hsx Hd Hl Hsz Hg HQ. specialize (Hg 0). cbn [grouped levels size] in *. apply andb_true_iff in Hg as [Hn Hg].
  inversion Hw as [| | | | | | | |op' t e' tse ln Hu He|]; subst. apply bind_inv in Hd as (v & fs1 & Hv & Hd). destruct fuel as [|fuel]; [pose proof (size_pos e); lia|]. pose proof (spine_size e).
  cbn [app] in Ha. unfold LuaParse.operand. apply wpp_bind. eapply wpp_tok; [exact Ha|]. rewrite Hu. apply wpp_bind, wpp_getp, wpp_bind. eapply wpp_next; [exact Ha|by eapply unop_not_eos|]. clear Ha. intros s1 Ha.
  apply wpp_bind. eapply (wpp_subexpr e tse UNARY_PRIORITY t0 rest cc fs v fs1 fuel); try done; [lia|lia|lia|lia|]. clear Ha. intros s2 Ha. eapply wpp_emit; [exact Ha|apply ll_prefix|exact Hd|exact HQ].
Qed.

Lemma parses_bin op a b line : parses a -> parses b -> parses (EBin op a b line).
Proof.
  intros IHa IHb ts Hw lim t0 rest cc fs d fs' fuel m s Q Ha Hg Hsx Hd Hl Hsz Hm HQ. cbn [grouped levels size spine] in *. rewrite !andb_true_iff in Hg. destruct Hg as (((Hlim & Hga) & Hnx) & Hgb).
  inversion Hw as [| | | | | | | | |op' t a' tsa b' tsb ln Ho Hwa Hwb]; subst. apply bind_inv in Hd as (v & fs1 & Hv & Hd). apply bind_inv in Hd as (v1 & fs2 & Hi & Hd). apply bind_inv in Hd as (v2 & fs3 & Hb & Hd).
  destruct (binop_not_suffix _ _ Ho) as [Hts Hte]. assert (left_priority t = fst (priority op)) as Hlp by (unfold left_priority; by rewrite Ho). rewrite <- app_assoc, <- app_comm_cons in Ha. pose proof (size_pos a). pose proof (size_pos b).
  eapply (IHa tsa Hwa lim t (tsb ++ t0 :: rest) cc fs v fs1); try done; [by rewrite Hlp|lia|lia|lia|]. clear Ha. intros s1 Ha. rewrite Ho. destruct (m - spine a)%nat as [|m'] eqn:Em; [lia|]. cbn [LuaParse.binop_loop].
  rewrite Z.gtb_ltb, Hlim. apply wpp_bind, wpp_getp, wpp_bind. eapply wpp_next; [exact Ha|done|]. clear Ha. intros s2 Ha. apply wpp_bind. eapply wpp_emit; [exact Ha|apply ll_infix|exact Hi|]. clear Ha. intros s3 Ha.
  destruct fuel as [|fuel]; [lia|]. pose proof (spine_size b). apply wpp_bind. eapply (wpp_subexpr b tsb _ t0 rest cc fs2 v2 fs3 fuel); try done; [lia|lia|lia|lia|]. clear Ha. intros s4 Ha. apply wpp_bind.
  eapply wpp_emit; [exact Ha|apply ll_posfix|exact Hd|]. clear Ha. intros s5 Ha. specialize (HQ s5 Ha). replace (m - S (spine a))%nat with m' in HQ by lia. exact HQ.
Qed.

Lemma parses_all e : parses e.
Proof.
  induction e; auto using parses_nil, parses_true, parses_false, parses_number, parses_string, parses_local, parses_upvalue, parses_paren, parses_un, parses_bin.
Qed.
End Parsing.
