(* ===== verification/LuaProgram.v ===== *)
(** * Straight-line functions: local variables and a result

    [local x = e1  local y = e2 ... return e], compiled by the functions the parser calls:
    every initialiser is computed into the register of its variable, and the result is
    computed from these registers. *)

From S2P Require Import Prelude LuaStr LuaRef LuaTab LuaOp LuaNumber LuaCode LuaLines LuaParse LuaVm LuaJump LuaRun LuaEmit LuaDesc LuaPlace LuaReg LuaOperand LuaCond LuaNot LuaConcat LuaStage LuaOper LuaLogic LuaExpr LuaExprSpec.

(** ** Meaning and compilation *)

Section Blocks.
Context `{LuaNumber} (rt : runtime) (U : list TValue).

Abbreviation eval := (eval rt U).

(** The registers from [n] on get the values of the initialisers; the value is that of the
    result. *)
Fixpoint run_block (ds : list expr) (e : expr) (n : Z) (R : regs) : res TValue :=
  match ds with
  | [] => eval e R
  | d :: ds => v ← eval d R; run_block ds e (n + 1) (setreg R n v)
  end.

Definition compile_local (e : expr) : coder unit :=
  v ← compile e; _ ← luaK_exp2nextreg v; putfs (fun fs => set_nactvar (nactvar fs + 1) fs).

Fixpoint compile_block (ds : list expr) (e : expr) : coder Z :=
  match ds with
  | [] => compile_return e
  | d :: ds => _ ← compile_local d; compile_block ds e
  end.

(** Variables exist, and registers and code suffice. *)
Fixpoint scoped_block (ds : list expr) (e : expr) (n : Z) : Prop :=
  match ds with
  | [] => scoped n (nups U) e
  | d :: ds => scoped n (nups U) d /\ scoped_block ds e (n + 1)
  end.

Fixpoint height_block (ds : list expr) (e : expr) : Z :=
  match ds with [] => height e | d :: ds => Z.max (height d) (1 + height_block ds e) end.

Fixpoint size_block (ds : list expr) (e : expr) : Z :=
  match ds with [] => size e + 1 | d :: ds => size d + 1 + size_block ds e end.

Lemma run_block_local ds e n R R' : scoped_block ds e n -> same n R R' -> run_block ds e n R' = run_block ds e n R.
Proof.
  revert n R R'. induction ds as [|d ds IH]; intros n R R' Hs HR; cbn in *; [by eapply eval_local|]. destruct Hs as [Hd Hs]. rewrite (eval_local rt U d n (nups U) Hd R R' HR).
  destruct (eval d R) as [v|er]; [|done]. cbn. apply IH; [done|]. intros r Hr. unfold setreg. destruct (r =? n) eqn:E; [done|]. apply HR. apply Z.eqb_neq in E. lia.
Qed.

(** ** Correctness *)

Section Correctness.
Context (other : Z -> Z -> regs -> res (Z * regs)) (S0 : Z * regs) `{NL : !LuaNumberLaws}.
Hypothesis HU : nups U <= 256.

Abbreviation At := (At rt U other S0).
Abbreviation Dead := (Dead rt U other S0).
Abbreviation Here := (Here rt U other S0).
Abbreviation stage := (stage rt U other S0).
Abbreviation returns := (returns rt U other S0).

(** A declaration leaves the value in the next register, which becomes a variable. *)
Lemma wpc_local e fs J (Q : () -> FuncState -> Prop) :
  wf fs J -> freereg fs = nactvar fs -> scoped (nactvar fs) (nups U) e -> freereg fs + height e < MAXSTACK -> room (64 * size e + 9) fs ->
  (forall fs1 J1, stage (freereg fs) (64 * size e + 9) (eval e) (fun v R => R (freereg fs) = v) fs J fs1 J1 -> freereg fs1 = freereg fs + 1 ->
    Q () (set_nactvar (nactvar fs + 1) fs1)) -> wpc (compile_local e) fs Q.
Proof.
  intros Hwf Hfn Hsc Hm Hroom HQ. set (base := freereg fs). apply wpc_bind.
  eapply (compiles_all rt U other S0 HU e base fs J); [done|done|done|done|eapply room_le; [exact Hroom|lia]|]. intros fs1 J1 d T F Hc.
  pose proof (cm_ready _ _ _ _ _ _ _ _ _ _ _ _ _ _ Hc) as Hr. apply wpc_bind.
  eapply (wpc_exp2nextreg rt U other S0 base fs1 J1 d T F); [done|eapply (room_cost (64 * size e) 9); [exact Hroom|apply Hc]|]. intros fs2 J2 Ht Hf2. apply wpc_putfs.
  rewrite (tr_nact _ _ _ _ _ _ _ _ _ _ _ _ _ _ _ _ Ht), (cm_nact _ _ _ _ _ _ _ _ _ _ _ _ _ _ Hc). apply (HQ fs2 J2); [|done].
  eapply (stage_mono rt U other S0 base (64 * size e + 9) _ (eval e) (eval e) id); [eapply comp_stage; [exact Hc|exact Ht|done|by eauto]|lia|intros R; by destruct (eval e R)|]. by intros a R [= ?].
Qed.

Lemma wf_nactvar n fs J : wf fs J -> 0 <= n <= freereg fs -> wf (set_nactvar n fs) J.
Proof. intros [W1 W2 W3 W4 W5 W6 W7 W8] Hn. split; try done. cbn. lia. Qed.

Lemma size_block_pos ds e : 1 <= size_block ds e.
Proof. induction ds as [|d ds IH]; cbn [size_block]; [pose proof (size_pos e)|pose proof (size_pos d)]; lia. Qed.

Lemma wpc_block ds e fs J (Q : Z -> FuncState -> Prop) :
  wf fs J -> freereg fs = nactvar fs -> scoped_block ds e (nactvar fs) -> freereg fs + height_block ds e < MAXSTACK -> room (64 * size_block ds e) fs ->
  (forall r fs', returns (64 * size_block ds e) (run_block ds e (freereg fs)) fs J r fs' -> nactvar fs' = nactvar fs + Z.of_nat (length ds) -> Q r fs') -> wpc (compile_block ds e) fs Q.
Proof.
  revert fs J Q. induction ds as [|d ds IH]; intros fs J Q Hwf Hfn Hsc Hm Hroom HQ; cbn [compile_block scoped_block height_block size_block run_block] in *.
  { eapply (wpc_return rt U other S0 HU e fs J); try done; [eapply room_le; [exact Hroom|lia]|]. intros r fs' [R1 R2 R3 R4 R5 R6 R7] Hn. apply HQ; [|cbn; lia]. split; try done. eapply cost_le; [exact R6|lia]. }
  destruct Hsc as [Hd Hsc]. pose proof (size_block_pos ds e). pose proof (wf_regs _ _ Hwf). apply wpc_bind.
  eapply (wpc_local d fs J); [done|done|done|lia|eapply room_le; [exact Hroom|lia]|]. intros fs1 J1 Hst Hf1. set (fs2 := set_nactvar (nactvar fs + 1) fs1).
  assert (wf fs2 J1) as Hwf2 by (apply wf_nactvar; [apply Hst|lia]). assert (cost (64 * size d + 9) fs fs2) as Hco by exact (sg_cost _ _ _ _ _ _ _ _ _ _ _ _ Hst).
  eapply (IH fs2 J1); [done|cbn; lia|done|cbn; lia|eapply (room_cost (64 * size d + 9)); [eapply room_le; [exact Hroom|lia]|exact Hco]|]. intros r fs' Hret Hn. pose proof Hret as [R1 R2 R3 R4 R5 R6 R7].
  assert (fr (own0 fs1 J1) fs1 (own0 fs' []) fs') as Hfr by exact R2. apply HQ; [split; try done|cbn in Hn; cbn [length]; lia].
  - eapply fr_trans; [apply Hst|exact Hfr].
  - eapply cost_le; [eapply cost_trans; [exact Hco|exact R6]|lia].
  - intros R HH. unfold finishes. destruct (eval d R) as [v|er] eqn:Ev; [|exact (stage_dead rt U other S0 _ _ _ _ _ _ _ _ _ _ _ Hst HH Ev Hfr)]. cbn [mbind res_bind].
    destruct (sg_out _ _ _ _ _ _ _ _ _ _ _ _ Hst nobody R (nobody_apart _ _) HH) as [(er & E & _)|(v' & R' & E & Hs & HH2 & Hv)]; [congruence|]. rewrite Ev in E. injection E as <-.
    assert (Here nobody fs2 J1 R') as HH2' by exact HH2. specialize (R7 R' HH2'). cbn [freereg set_nactvar fs2] in R7. rewrite Hf1 in R7.
    assert (same (freereg fs + 1) (setreg R (freereg fs) v) R') as Hsame.
    { intros x Hx. destruct (decide (x = freereg fs)) as [->|Hne]; [by rewrite setreg_eq|]. rewrite setreg_ne by done. apply Hs. lia. }
    rewrite (run_block_local ds e (freereg fs + 1) (setreg R (freereg fs) v) R') in R7 by (try done; by rewrite Hfn). unfold finishes in R7.
    destruct (run_block ds e (freereg fs + 1) (setreg R (freereg fs) v)) as [w|er]; [|done]. destruct R7 as (R2' & HA & Hw & Hs2). exists R2'. split_and!; try done. eapply (same_trans _ (freereg fs + 1)); [lia|exact Hs|exact Hs2].
Qed.
End Correctness.

(** ** The calls of the parser *)

(** Not an open call, and not the empty expression. *)
Definition plain (d : expdesc) : Prop := hasmultret d = false /\ isvoid d = false.

(** The steps of [compile_block], with what the statements around them rely on. *)
Inductive block_code : list expr -> expr -> FuncState -> Z -> FuncState -> Prop :=
  | BC_return e fs v fs1 v2 fs2 fs3 :
      compile e fs = Ok (v, fs1) -> plain v -> luaK_exp2anyreg v fs1 = Ok (v2, fs2) -> luaK_ret (info v2) 1 fs2 = Ok ((), fs3) -> block_code [] e fs (info v2) fs3
  | BC_local d ds e fs v fs1 v2 fs2 r fs' :
      compile d fs = Ok (v, fs1) -> plain v -> luaK_exp2nextreg v fs1 = Ok (v2, fs2) -> nactvar fs2 = nactvar fs -> freereg fs2 = nactvar fs + 1 -> 0 <= nactvar fs < MAXSTACK ->
      block_code ds e (set_nactvar (nactvar fs + 1) fs2) r fs' -> block_code (d :: ds) e fs r fs'.

Lemma wpc_inv {A} (m : coder A) fs (Q : A -> FuncState -> Prop) a fs' : wpc m fs Q -> m fs = Ok (a, fs') -> Q a fs'.
Proof. unfold wpc. intros HQ Hm. by rewrite Hm in HQ. Qed.

Lemma comp_plain rt' U' other S0 base n ev fs J fs' J' d T F : comp rt' U' other S0 base n ev fs J fs' J' d T F -> plain d.
Proof.
  intros Hc. pose proof (we_kind _ _ _ _ _ _ (rd_we _ _ _ _ _ _ (cm_ready _ _ _ _ _ _ _ _ _ _ _ _ _ _ Hc))) as Hk. unfold plain, hasmultret, isvoid. by destruct (ek d).
Qed.

Lemma compile_block_code `{NL : !LuaNumberLaws} ds e fs J r fs' :
  nups U <= 256 -> wf fs J -> freereg fs = nactvar fs -> scoped_block ds e (nactvar fs) -> freereg fs + height_block ds e < MAXSTACK -> room (64 * size_block ds e) fs ->
  compile_block ds e fs = Ok (r, fs') -> block_code ds e fs r fs'.
Proof.
  intros HU. set (other := stuck Undefined). set (S0 := (0, (fun _ => LNil) : regs)). revert fs J. induction ds as [|d ds IH]; intros fs J Hwf Hfn Hsc Hm Hroom Hc; cbn [compile_block scoped_block height_block size_block] in *.
  { apply bind_inv in Hc as (v & fs1 & Hv & Hc). apply bind_inv in Hc as (v2 & fs2 & Hv2 & Hc). apply bind_inv in Hc as ([] & fs3 & Hr & Hc). injection Hc as <- <-. eapply BC_return; [exact Hv| |exact Hv2|exact Hr].
    eapply (wpc_inv (compile e) fs (fun d _ => plain d)); [|exact Hv]. eapply (compiles_all rt U other S0 HU e (freereg fs) fs J); try done; [eapply room_le; [exact Hroom|lia]|]. intros fs4 J' d T F. apply comp_plain. }
  destruct Hsc as [Hd Hsc]. pose proof (size_block_pos ds e). pose proof (wf_regs _ _ Hwf). apply bind_inv in Hc as ([] & fs3 & Hl & Hc).
  assert (exists J1 fs2, stage rt U other S0 (freereg fs) (64 * size d + 9) (eval d) (fun v R => R (freereg fs) = v) fs J fs2 J1 /\ freereg fs2 = freereg fs + 1 /\ fs3 = set_nactvar (nactvar fs + 1) fs2) as (J1 & fs2' & Hst & Hf2 & ->).
  { eapply (wpc_inv (compile_local d) fs (fun _ fs3 => exists J1 fs2, stage rt U other S0 _ _ _ _ fs J fs2 J1 /\ _ /\ fs3 = _)); [|exact Hl]. eapply (wpc_local other S0 HU d fs J); [done|done|done|lia|eapply room_le; [exact Hroom|lia]|].
    intros fs4 J4 Hs4 Hf4. exists J4, fs4. split_and!; [exact Hs4|exact Hf4|done]. }
  apply bind_inv in Hl as (v & fs1 & Hv & Hl). apply bind_inv in Hl as (v2 & fs2 & Hv2 & Hl). unfold putfs in Hl.
  apply (f_equal (fun r : res (() * FuncState) => match r with Ok (_, f) => f | Err _ => fs end)) in Hl. cbv beta iota in Hl.
  assert (nactvar fs2 = nactvar fs) as Hn2 by (apply (f_equal nactvar) in Hl; cbn in Hl; lia). pose proof (f_equal freereg Hl) as Hf. cbn in Hf. rewrite Hn2 in Hl.
  eapply BC_local; [exact Hv| |exact Hv2|done|lia|lia|rewrite Hl].
  - eapply (wpc_inv (compile d) fs (fun d _ => plain d)); [|exact Hv]. eapply (compiles_all rt U other S0 HU d (freereg fs) fs J); try done; [lia|eapply room_le; [exact Hroom|lia]|]. intros fs4 J' d' T F. apply comp_plain.
  - apply (IH _ J1); [apply wf_nactvar; [apply Hst|lia]|cbn; lia|done|cbn; lia| |done]. eapply (room_cost (64 * size d + 9)); [eapply room_le; [exact Hroom|lia]|apply Hst].
Qed.
End Blocks.
