(* ===== verification/LuaChunk.v ===== *)
(** * From source text to values

    The parser on a text of local declarations and a [return]: it accepts the text, calls
    the code generator as [compile_block] does, and the prototype it makes computes the
    value of the text. *)

From S2P Require Import Prelude Ctype LuaStr LuaZio LuaRef LuaTab LuaDump LuaLex LuaLexSpec LuaQuote LuaTokens LuaOp LuaNumber LuaCode LuaLines LuaParse LuaStat LuaVm LuaJump LuaRun LuaEmit LuaPlace LuaExpr LuaExprSpec LuaExprParse LuaProgram.

(** ** Steps of the parser inside a function *)

Section Steps.
Context `{LuaNumber} (luaO_str2d : bytes -> option Z) (lexfuel : nat) (outer : list PFunc) (gl ll : list Labeldesc).

Abbreviation at_tokens f0 av n := (at_tokens luaO_str2d lexfuel f0 outer av n gl ll).

Lemma wpp_getfunc {A} (g : PFunc -> A) f0 av n cc fs ts s (Q : A -> PState -> Prop) :
  at_tokens f0 av n cc fs ts s -> (forall c, g (with_pf f0 c) = g f0) -> Q (g f0) s -> wpp (getfunc g) s Q.
Proof. intros [(c & Hf & _) _ _ _ _] Hg HQ. unfold wpp, getfunc. by rewrite Hf, Hg. Qed.

Lemma wpp_putfunc (g : PFunc -> PFunc) f0 av n cc fs ts s (Q : () -> PState -> Prop) :
  at_tokens f0 av n cc fs ts s -> (forall c, g (with_pf f0 c) = with_pf (g f0) c) -> (forall s', at_tokens (g f0) av n cc fs ts s' -> Q () s') -> wpp (putfunc g) s Q.
Proof. intros [(c & Hf & He) Hr Ha Hc Hl] Hg HQ. unfold wpp, putfunc. rewrite Hf, Hg. apply HQ. split; try done. by exists c. Qed.

Lemma wpp_actvar f0 av n cc fs ts s (Q : list Z -> PState -> Prop) : at_tokens f0 av n cc fs ts s -> Q av s -> wpp (getp actvar) s Q.
Proof. intros [_ _ <- _ _] HQ. exact HQ. Qed.

Lemma wpp_set_actvar av' f0 av n cc fs ts s (Q : () -> PState -> Prop) :
  at_tokens f0 av n cc fs ts s -> (forall s', at_tokens f0 av' n cc fs ts s' -> Q () s') -> wpp (putp (set_actvar av')) s Q.
Proof. intros [Hf Hr Ha Hc Hl] HQ. apply HQ. by split. Qed.

(** A field of the function state. *)
Lemma wpp_field {A} (g : FuncState -> A) f0 av n cc fs ts s (Q : A -> PState -> Prop) :
  at_tokens f0 av n cc fs ts s -> (forall n s t, eqv n s t -> g s = g t) -> (forall s', at_tokens f0 av n cc fs ts s' -> Q (g fs) s') -> wpp (emit (getfs g)) s Q.
Proof. intros Ha Hg HQ. eapply wpp_emit; [exact Ha|by apply ll_getfs|done|done]. Qed.

(** More active variables. *)
Lemma wpp_nactvar m f0 av n cc fs ts s (Q : () -> PState -> Prop) :
  at_tokens f0 av n cc fs ts s -> u8 (n + m) = n + m -> (forall s', at_tokens f0 av (n + m) cc (set_nactvar (n + m) fs) ts s' -> Q () s') ->
  wpp (emit (putfs (fun fs => set_nactvar (u8 (nactvar fs + m)) fs))) s Q.
Proof.
  intros [(c & Hf & [E1 E2 E3 E4 E5 E6 E7 E8 E9 E10]) Hr Ha Hc Hl] Hu HQ. unfold wpp, emit. rewrite Hf. cbn [pf with_pf]. apply HQ. split; try done. eexists. split; [done|].
  cbn [nactvar set_lastline]. rewrite E8, Hu. by split.
Qed.

Lemma wpp_reset f0 av n cc fs ts s (Q : () -> PState -> Prop) :
  at_tokens f0 av n cc fs ts s -> (forall s', at_tokens f0 av n cc (set_freereg (nactvar fs) fs) ts s' -> Q () s') -> wpp (emit (putfs (fun fs => set_freereg (nactvar fs) fs))) s Q.
Proof. intros Ha HQ. eapply (wpp_emit _ _ _ _ _ _ _ _ _ (putfs (fun fs => set_freereg (nactvar fs) fs))); [exact Ha|lines|done|done]. Qed.

(** ** Local variables *)

Definition new_var (f : PFunc) (x : bytes) : PFunc := with_locvars f (locvars f ++ [MkLocVar (Some x) 0 0]).

Lemma wpp_new_localvar x f0 av n cc fs ts s (Q : () -> PState -> Prop) :
  at_tokens f0 av n cc fs ts s -> Z.of_nat (length (locvars f0)) < SHRT_MAX -> Z.of_nat (length av) + 1 - firstlocal f0 <= MAXVARS ->
  (forall s', at_tokens (new_var f0 x) (av ++ [Z.of_nat (length (locvars f0))]) n cc fs ts s' -> Q () s') -> wpp (new_localvar x) s Q.
Proof.
  intros Ha Hl Hv HQ. unfold new_localvar, registerlocalvar. apply wpp_bind, wpp_bind. eapply wpp_getfunc; [exact Ha|done|]. rewrite Z.geb_leb, (proj2 (Z.leb_gt _ _)) by lia. apply wpp_bind.
  eapply (wpp_putfunc (fun f => with_locvars f (locvars f0 ++ [MkLocVar (Some x) 0 0]))); [exact Ha|done|]. clear Ha. intros s1 Ha. apply wpp_ret, wpp_bind. eapply wpp_getfunc; [exact Ha|done|]. cbn [firstlocal with_locvars].
  apply wpp_bind. eapply wpp_actvar; [exact Ha|]. rewrite Z.gtb_ltb, (proj2 (Z.ltb_ge _ _)) by lia. eapply wpp_set_actvar; [exact Ha|exact HQ].
Qed.

(** The variables a function declares, with the names in scope. *)
Record declares (f : PFunc) (av : list Z) (n : Z) (names ups : list bytes) : Prop := {
  dc_scope : in_scope f av n names ups;
  dc_len : Z.of_nat (length av) = firstlocal f + n;
  dc_first : 0 <= firstlocal f;
}.

Definition started (f : PFunc) (here : Z) : PFunc :=
  with_locvars f (alter (set_startpc here) (pred (length (locvars f))) (locvars f)).

Lemma locname_started f av here i : locname av (started f here) i = locname av f i.
Proof.
  unfold locname, started. cbn [firstlocal locvars with_locvars]. destruct (av !! _) as [idx|]; [|done]. cbn. 
  destruct (decide (Z.to_nat idx = pred (length (locvars f)))) as [->|Hne]; [rewrite list_lookup_alter_eq|by rewrite list_lookup_alter_ne]. by destruct (locvars f !! _).
Qed.

Lemma declares_new f av n names ups x here :
  declares f av n names ups -> declares (started (new_var f x) here) (av ++ [Z.of_nat (length (locvars f))]) (n + 1) (names ++ [x]) ups.
Proof.
  intros [[Hn Hx Hu] Hl H0]. split; [split|..].
  - rewrite length_app. cbn. lia.
  - intros i y Hy. rewrite locname_started. unfold locname. cbn [new_var firstlocal with_locvars locvars]. apply lookup_app_Some in Hy as [Hy|[Hle Hy]].
    + specialize (Hx i y Hy). unfold locname in Hx. destruct (av !! Z.to_nat (firstlocal f + Z.of_nat i)) as [idx|] eqn:Ei; [|done]. rewrite (lookup_app_l_Some _ _ _ _ Ei). cbn in Hx |- *.
      destruct (locvars f !! Z.to_nat idx) as [v|] eqn:Ev; [|done]. by rewrite (lookup_app_l_Some _ _ _ _ Ev).
    + apply list_lookup_singleton_Some in Hy as [Hi <-]. rewrite lookup_app_r by lia. replace (Z.to_nat (firstlocal f + Z.of_nat i) - length av)%nat with 0%nat by lia. cbn. rewrite Nat2Z.id, lookup_app_r, Nat.sub_diag by lia. done.
  - done.
  - rewrite length_app. cbn. lia.
  - done.
Qed.

(** A variable that is not active yet is not in scope. *)
Lemma in_scope_new f av n names ups x y : in_scope f av n names ups -> in_scope (new_var f x) (av ++ [y]) n names ups.
Proof.
  intros [Hn Hx Hu]. split; [done| |done]. intros i z Hz. specialize (Hx i z Hz). unfold locname in *. cbn [new_var firstlocal with_locvars locvars].
  destruct (av !! Z.to_nat (firstlocal f + Z.of_nat i)) as [idx|] eqn:Ei; [|done]. rewrite (lookup_app_l_Some _ _ _ _ Ei). cbn in Hx |- *.
  destruct (locvars f !! Z.to_nat idx) as [v|] eqn:Ev; [|done]. by rewrite (lookup_app_l_Some _ _ _ _ Ev).
Qed.

(** The new variable becomes active. *)
Lemma wpp_adjust_one x f0 av n names ups cc fs ts s (Q : () -> PState -> Prop) :
  declares f0 av n names ups -> at_tokens (new_var f0 x) (av ++ [Z.of_nat (length (locvars f0))]) n cc fs ts s -> u8 (n + 1) = n + 1 ->
  (forall here s', at_tokens (started (new_var f0 x) here) (av ++ [Z.of_nat (length (locvars f0))]) (n + 1) cc (set_nactvar (n + 1) fs) ts s' -> Q () s') -> wpp (adjustlocalvars 1) s Q.
Proof.
  intros [_ Hl H0] Ha Hu HQ. unfold adjustlocalvars. apply wpp_bind. eapply wpp_nactvar; [exact Ha|done|]. clear Ha. intros s1 Ha. change (Z.to_nat 1) with 1%nat. cbn [adjust_loop].
  apply wpp_bind. eapply wpp_field; [exact Ha|same_fields|]. clear Ha. intros s2 Ha. apply wpp_bind. eapply wpp_field; [exact Ha|by same_fields|]. clear Ha. intros s3 Ha.
  set (here := pc _). apply wpp_bind. eapply wpp_actvar; [exact Ha|]. cbn [nactvar set_nactvar]. replace (n + 1 - Z.of_nat 1) with n by lia. apply wpp_bind. unfold change_locvar. apply wpp_bind.
  assert (exists c, getfunc id s3 = Ok (with_pf (new_var f0 x) c, s3)) as [c Hg] by (destruct Ha as [(c & Hf & _) _ _ _ _]; exists c; unfold getfunc; by rewrite Hf).
  unfold wpp at 1. rewrite Hg. cbn [firstlocal with_pf new_var with_locvars locvars]. rewrite lookup_app_r by lia. replace (Z.to_nat (firstlocal f0 + n) - length av)%nat with 0%nat by lia. cbn [lookup list_lookup].
  rewrite Nat2Z.id, lookup_app_r, Nat.sub_diag by lia. cbn [lookup list_lookup]. eapply wpp_putfunc; [exact Ha|done|]. clear Ha. intros s4 Ha. apply wpp_ret. apply (HQ here).
  unfold started. cbn [new_var locvars with_locvars] in Ha |- *. rewrite length_app. replace (pred (length (locvars f0) + length [MkLocVar (Some x) 0 0])) with (length (locvars f0) + 0)%nat by (cbn; lia).
  rewrite list_alter_insert || idtac. rewrite alter_app_r, insert_app_r_alt in *; [|lia]. rewrite Nat.sub_diag in Ha. exact Ha.
Qed.

(** ** Statements *)

Context (source : bytes).

Abbreviation statement := (statement luaO_str2d lexfuel source).
Abbreviation body fuel := (body luaO_str2d lexfuel source (statement fuel) fuel).

Lemma wpp_testnext_no c f0 av n cc fs t ts s (Q : bool -> PState -> Prop) :
  at_tokens f0 av n cc fs (t :: ts) s -> token t <> c -> Q false s -> wpp (testnext luaO_str2d lexfuel c) s Q.
Proof. intros Ha Ht HQ. unfold testnext. apply wpp_bind. eapply wpp_tok; [exact Ha|]. by rewrite (proj2 (Z.eqb_neq _ _)). Qed.

Lemma wpp_testnext_yes c f0 av n cc fs t ts s (Q : bool -> PState -> Prop) :
  at_tokens f0 av n cc fs (t :: ts) s -> token t = c -> c <> TK_EOS -> (forall s', at_tokens f0 av n cc fs ts s' -> Q true s') -> wpp (testnext luaO_str2d lexfuel c) s Q.
Proof.
  intros Ha Ht Hc HQ. unfold testnext. apply wpp_bind. eapply wpp_tok; [exact Ha|]. rewrite Ht, Z.eqb_refl. apply wpp_bind. eapply wpp_next; [exact Ha|congruence|]. intros s' Ha'. by apply wpp_ret, HQ.
Qed.

(** A token behind which an expression ends. *)
Record ends (t : Token) : Prop := {
  end_binop : getbinopr (token t) = None;
  end_suffix : suffix_start t = false;
  end_comma : token t <> 44;
}.

(** A list of one expression. *)
Lemma wpp_explist_one e ts t0 rest f0 av n names ups cc fs d fs' fuel bodyf s (Q : Z * expdesc -> PState -> Prop) :
  in_scope f0 av n names ups -> written names ups e ts -> grouped 0 e 0 = true -> ends t0 -> at_tokens f0 av n cc fs (ts ++ t0 :: rest) s -> compile e fs = Ok (d, fs') ->
  cc + 1 + levels e <= LUAI_MAXCCALLS -> size e < Z.of_nat fuel -> (forall s', at_tokens f0 av n cc fs' (t0 :: rest) s' -> Q (1, d) s') ->
  wpp (explist luaO_str2d lexfuel (subexpr luaO_str2d lexfuel bodyf fuel) fuel) s Q.
Proof.
  intros Hsc Hw Hg [Hb Hs Hcm] Ha Hc Hl Hf HQ. destruct fuel as [|fuel]; [pose proof (size_pos e); lia|]. assert (left_priority t0 = 0) as Hp by (unfold left_priority; by rewrite Hb). pose proof (spine_size e).
  unfold explist, LuaParse.expr. apply wpp_bind, wpp_bind. eapply (wpp_subexpr luaO_str2d lexfuel f0 outer av n gl ll names ups bodyf e ts 0 t0 rest cc fs d fs' fuel); try done; [by apply parses_all|by rewrite Hp|lia|lia|lia|].
  clear Ha. intros s1 Ha. apply wpp_ret. cbn [explist_loop]. apply wpp_bind. eapply wpp_testnext_no; [exact Ha|done|]. by apply wpp_ret, HQ.
Qed.

Lemma wpp_enterlevel f0 av n cc fs ts s (Q : () -> PState -> Prop) :
  at_tokens f0 av n cc fs ts s -> cc + 1 <= LUAI_MAXCCALLS -> (forall s', at_tokens f0 av n (cc + 1) fs ts s' -> Q () s') -> wpp enterlevel s Q.
Proof. intros [Hf Hr Ha Hc Hl] Hcc HQ. unfold wpp, enterlevel. rewrite Hc, Z.gtb_ltb, (proj2 (Z.ltb_ge _ _)) by lia. apply HQ. by split. Qed.

Lemma wpp_leavelevel f0 av n cc fs ts s (Q : () -> PState -> Prop) :
  at_tokens f0 av n (cc + 1) fs ts s -> (forall s', at_tokens f0 av n cc fs ts s' -> Q () s') -> wpp leavelevel s Q.
Proof. intros [Hf Hr Ha Hc Hl] HQ. apply HQ. split; try done. cbn. lia. Qed.

Lemma wpp_str_checkname x f0 av n cc fs ts s (Q : bytes -> PState -> Prop) :
  at_tokens f0 av n cc fs (MkToken TK_NAME (SemString x) :: ts) s -> (forall s', at_tokens f0 av n cc fs ts s' -> Q x s') -> wpp (str_checkname luaO_str2d lexfuel) s Q.
Proof.
  intros Ha HQ. unfold str_checkname, check. apply wpp_bind, wpp_bind. eapply wpp_tok; [exact Ha|]. cbn [token]. rewrite Z.eqb_refl. apply wpp_ret, wpp_bind. eapply wpp_sem_string; [exact Ha|].
  apply wpp_bind. eapply wpp_next; [exact Ha|done|]. intros s' Ha'. by apply wpp_ret, HQ.
Qed.

(** [local x = e]. *)
Lemma wpp_localstat x teq e ts t0 rest f0 av n names ups cc fs d fs1 d2 fs2 fuel s (Q : () -> PState -> Prop) :
  declares f0 av n names ups -> written names ups e ts -> grouped 0 e 0 = true -> ends t0 -> token teq = 61 ->
  at_tokens f0 av n cc fs (MkToken TK_NAME (SemString x) :: teq :: ts ++ t0 :: rest) s -> compile e fs = Ok (d, fs1) -> plain d -> luaK_exp2nextreg d fs1 = Ok (d2, fs2) ->
  cc + 1 + levels e <= LUAI_MAXCCALLS -> size e < Z.of_nat fuel -> Z.of_nat (length (locvars f0)) < SHRT_MAX -> 0 <= n < MAXVARS ->
  (forall here s', at_tokens (started (new_var f0 x) here) (av ++ [Z.of_nat (length (locvars f0))]) (n + 1) cc (set_nactvar (n + 1) fs2) (t0 :: rest) s' -> Q () s') ->
  wpp (localstat luaO_str2d lexfuel source (statement fuel) fuel) s Q.
Proof.
  intros Hd Hw Hg He Heq Ha Hc [Hm Hv] Hx Hl Hf Hlv Hn HQ. pose proof Hd as [Hsc Hlen Hfirst]. unfold localstat. apply wpp_bind. eapply wpp_str_checkname; [exact Ha|]. clear Ha. intros s1 Ha.
  apply wpp_bind. eapply wpp_new_localvar; [exact Ha|done|lia|]. clear Ha. intros s2 Ha. apply wpp_bind. destruct fuel as [|fuel']; [pose proof (size_pos e); lia|]. cbn [names_loop]. apply wpp_bind.
  eapply wpp_testnext_no; [exact Ha|by rewrite Heq|]. apply wpp_ret, wpp_bind. eapply wpp_testnext_yes; [exact Ha|done|done|]. clear Ha. intros s3 Ha. apply wpp_bind.
  assert (in_scope (new_var f0 x) (av ++ [Z.of_nat (length (locvars f0))]) n names ups) as Hsc' by (by eapply in_scope_new).
  eapply (wpp_explist_one e ts t0 rest); [exact Hsc'|done|done|done|exact Ha|exact Hc|done|done|]. clear Ha. intros s4 Ha. apply wpp_bind. unfold adjust_assign. cbv zeta. rewrite Hm. apply wpp_bind. rewrite Hv. apply wpp_bind.
  eapply wpp_emit; [exact Ha|apply ll_exp2nextreg|exact Hx|]. clear Ha. intros s5 Ha. apply wpp_ret. change (1 - 1 >? 0) with false. cbv iota. apply wpp_ret.
  eapply wpp_adjust_one; [exact Hd|exact Ha| |exact HQ]. unfold u8. rewrite Z.mod_small; [done|]. change MAXVARS with 200 in *. lia.
Qed.

(** ** The whole block *)

(** No statement ends here. *)
Definition starts (t : Token) : bool :=
  let c := token t in
  negb ((c =? TK_ELSE) || (c =? TK_ELSEIF) || (c =? TK_END) || (c =? TK_EOS) || (c =? TK_UNTIL) || (c =? 59)).

Lemma written_starts names ups e ts : written names ups e ts -> exists t ts', ts = t :: ts' /\ starts t = true.
Proof.
  induction 1 as [t Ht|t Ht|t Ht| | | | |t1 e ts t2 Ht _ _ _|op t e ts ln Ht _ _|op t a tsa b tsb ln _ _ [t' [ts' [-> Hs]]] _ _]; try (do 2 eexists; split; [done|]; unfold starts; cbn [token]; by rewrite ?Ht).
  do 2 eexists. split; [done|]. unfold starts. unfold getunopr in Ht. repeat (match type of Ht with context [token t =? ?c] => destruct (Z.eqb_spec (token t) c) as [->|?] end; [by vm_compute|]). done.
Qed.

Lemma wpp_block_follow f0 av n cc fs t ts s (Q : bool -> PState -> Prop) : at_tokens f0 av n cc fs (t :: ts) s -> starts t = true -> Q false s -> wpp (block_follow true) s Q.
Proof.
  intros Ha Hs HQ. unfold block_follow. apply wpp_bind. eapply wpp_tok; [exact Ha|]. apply wpp_ret. unfold starts in Hs. apply negb_true_iff in Hs. rewrite !orb_false_iff in Hs.
  destruct Hs as (((((-> & ->) & ->) & ->) & ->) & _). exact HQ.
Qed.

(** [return e], at the end of the text. *)
Lemma wpp_retstat e ts eos f0 av n names ups cc fs v fs1 v2 fs2 fs3 fuel s (Q : () -> PState -> Prop) :
  in_scope f0 av n names ups -> written names ups e ts -> grouped 0 e 0 = true -> token eos = TK_EOS -> at_tokens f0 av n cc fs (ts ++ [eos]) s ->
  compile e fs = Ok (v, fs1) -> plain v -> luaK_exp2anyreg v fs1 = Ok (v2, fs2) -> luaK_ret (info v2) 1 fs2 = Ok ((), fs3) ->
  cc + 1 + levels e <= LUAI_MAXCCALLS -> size e < Z.of_nat fuel -> (forall s', at_tokens f0 av n cc fs3 [eos] s' -> Q () s') ->
  wpp (retstat luaO_str2d lexfuel source (statement fuel) fuel) s Q.
Proof.
  intros Hsc Hw Hg He Ha Hc [Hm _] Hx Hr Hl Hf HQ. destruct (written_starts _ _ _ _ Hw) as (t & ts' & Ets & Hst). assert (at_tokens f0 av n cc fs (t :: ts' ++ [eos]) s) as Ha' by (by rewrite Ets in Ha).
  unfold retstat. apply wpp_bind. eapply wpp_block_follow; [exact Ha'|done|]. apply wpp_bind. eapply wpp_tok; [exact Ha'|]. apply wpp_bind.
  assert (token t =? 59 = false) as -> by (unfold starts in Hst; apply negb_true_iff in Hst; rewrite !orb_false_iff in Hst; tauto). cbn [orb]. unfold return_values. apply wpp_bind.
  assert (ends eos) as Hend by (split; unfold suffix_start; by rewrite He). eapply (wpp_explist_one e ts eos []); [exact Hsc|done|done|done|exact Ha|exact Hc|done|done|]. clear Ha Ha'. intros s1 Ha.
  rewrite Hm. change (1 =? 1) with true. cbv iota. apply wpp_bind. eapply wpp_emit; [exact Ha|apply ll_exp2anyreg|exact Hx|]. clear Ha. intros s2 Ha. apply wpp_ret, wpp_bind.
  eapply wpp_emit; [exact Ha|apply ll_ret_code|exact Hr|]. clear Ha. intros s3 Ha. apply wpp_bind. eapply wpp_testnext_no; [exact Ha|by rewrite He|]. by apply wpp_ret, HQ.
Qed.

(** The tokens of a block; [names] are the variables declared before it. *)
Inductive written_block (ups : list bytes) : list bytes -> list expr -> expr -> list Token -> Prop :=
  | WB_return names t e ts : token t = TK_RETURN -> written names ups e ts -> grouped 0 e 0 = true -> written_block ups names [] e (t :: ts)
  | WB_local names t x teq d ts ds e rest :
      token t = TK_LOCAL -> token teq = 61 -> written names ups d ts -> grouped 0 d 0 = true -> written_block ups (names ++ [x]) ds e rest ->
      written_block ups names (d :: ds) e (t :: MkToken TK_NAME (SemString x) :: teq :: ts ++ rest).

Fixpoint levels_block (ds : list expr) (e : expr) : Z :=
  match ds with [] => levels e | d :: ds => Z.max (levels d) (levels_block ds e) end.

Lemma levels_block_pos ds e : 0 <= levels_block ds e.
Proof. induction ds as [|d ds IH]; cbn [levels_block]; [apply levels_pos|lia]. Qed.

Lemma written_block_head ups names ds e ts : written_block ups names ds e ts -> exists t ts', ts = t :: ts' /\ starts t = true /\ ends t.
Proof. by intros [names' t e' ts' Ht _ _|names' t x teq d ts' ds' e' rest Ht _ _ _ _]; do 2 eexists; (split; [done|]); (split; [|split]); unfold starts, suffix_start; rewrite ?Ht. Qed.

(** What the parser knows when the block is read. *)
Definition same_function (f f' : PFunc) : Prop :=
  upvalues f' = upvalues f /\ bl f' = bl f /\ firstlocal f' = firstlocal f /\ protos f' = protos f.

Lemma wpp_statlist ups names ds e ts : written_block ups names ds e ts ->
  forall eos f0 av n cc fs r fs' fuel m s (Q : () -> PState -> Prop),
  declares f0 av n names ups -> token eos = TK_EOS -> at_tokens f0 av n cc fs (ts ++ [eos]) s -> block_code ds e fs r fs' -> nactvar fs = n -> 
  cc + 2 + levels_block ds e <= LUAI_MAXCCALLS -> size_block ds e <= Z.of_nat fuel -> (length ds < m)%nat ->
  Z.of_nat (length (locvars f0) + length ds) <= SHRT_MAX -> 0 <= n -> n + Z.of_nat (length ds) <= MAXVARS ->
  (forall f1 av1 names1 s', declares f1 av1 (n + Z.of_nat (length ds)) names1 ups -> same_function f0 f1 -> at_tokens f1 av1 (n + Z.of_nat (length ds)) cc (set_freereg (nactvar fs') fs') [eos] s' -> Q () s') ->
  wpp (statlist_loop (statement (S fuel)) m) s Q.
Proof.
  induction 1 as [names t e ts Ht Hw Hg|names t x teq d ts ds e rest Ht Heq Hw Hg Hwb IH]; intros eos f0 av n cc fs r fs' fuel m s Q Hd He Ha Hbc Hn Hl Hsz Hm Hlv H0 Hmax HQ; (destruct m as [|m]; [lia|]); cbn [statlist_loop size_block levels_block] in *.
  - pose proof (levels_pos e). assert (at_tokens f0 av n cc fs (t :: ts ++ [eos]) s) as Ha' by exact Ha. inversion Hbc as [e' fs0 v fs1 v2 fs2 fs3 Hc Hp Hx Hr|]; subst.
    apply wpp_bind. eapply wpp_block_follow; [exact Ha'|unfold starts; by rewrite Ht|]. apply wpp_bind. eapply wpp_tok; [exact Ha'|]. rewrite Ht, Z.eqb_refl. cbn [LuaStat.statement]. unfold statement_rule.
    apply wpp_bind, wpp_getp, wpp_bind. clear Ha. eapply wpp_enterlevel; [exact Ha'|lia|]. clear Ha'. intros s1 Ha. apply wpp_bind. eapply wpp_tok; [exact Ha|]. rewrite Ht. tests. apply wpp_bind, wpp_bind.
    eapply wpp_next; [exact Ha|by rewrite Ht|]. clear Ha. intros s2 Ha. destruct Hd as [Hsc Hlen Hfirst]. eapply (wpp_retstat e ts eos); [exact Hsc|done|done|done|exact Ha|exact Hc|done|exact Hx|exact Hr|lia|lia|].
    clear Ha. intros s3 Ha. apply wpp_bind. eapply wpp_reset; [exact Ha|]. clear Ha. intros s4 Ha. eapply wpp_leavelevel; [exact Ha|]. clear Ha. intros s5 Ha. cbn [length] in HQ. rewrite Z.add_0_r in HQ. by eapply HQ.
  - cbn [length] in Hlv, Hmax, Hm. pose proof (levels_pos d). pose proof (levels_block_pos ds e). pose proof (size_block_pos ds e). pose proof (size_pos d). destruct (written_block_head _ _ _ _ _ Hwb) as (t0 & rest' & -> & Hs0 & He0).
    assert (at_tokens f0 av n cc fs (t :: MkToken TK_NAME (SemString x) :: teq :: ts ++ t0 :: rest' ++ [eos]) s) as Ha' by (rewrite <- !app_comm_cons, <- app_assoc in Ha; exact Ha). clear Ha.
    inversion Hbc as [|d' ds' e' fs0 v fs1 v2 fs2 r' fs3 Hc Hp Hx Hna Hfr Hmx Hrest]; subst.
    apply wpp_bind. eapply wpp_block_follow; [exact Ha'|unfold starts; by rewrite Ht|]. apply wpp_bind. eapply wpp_tok; [exact Ha'|]. rewrite Ht. tests. apply wpp_bind. cbn [LuaStat.statement]. unfold statement_rule.
    apply wpp_bind, wpp_getp, wpp_bind. eapply wpp_enterlevel; [exact Ha'|lia|]. clear Ha'. intros s1 Ha. apply wpp_bind. eapply wpp_tok; [exact Ha|]. rewrite Ht. tests. apply wpp_bind, wpp_bind.
    eapply wpp_next; [exact Ha|by rewrite Ht|]. clear Ha. intros s2 Ha. apply wpp_bind. eapply wpp_testnext_no; [exact Ha|done|].
    eapply (wpp_localstat x teq d ts t0 (rest' ++ [eos])); [exact Hd|done|done|done|done|exact Ha|exact Hc|done|exact Hx|lia|lia|lia|lia|]. clear Ha. intros here s3 Ha.
    apply wpp_bind. eapply wpp_reset; [exact Ha|]. clear Ha. intros s4 Ha. eapply wpp_leavelevel; [exact Ha|]. clear Ha. intros s5 Ha.
    assert (set_freereg (nactvar (set_nactvar (nactvar fs + 1) fs2)) (set_nactvar (nactvar fs + 1) fs2) = set_nactvar (nactvar fs + 1) fs2) as Er by (destruct fs2; cbn in *; by rewrite Hfr). rewrite Er in Ha.
    eapply (IH eos _ _ _ cc); [by apply declares_new|done|exact Ha|exact Hrest|done|lia|lia|lia|unfold started, new_var; cbn [locvars with_locvars]; rewrite length_alter, length_app; cbn [length]; lia|lia|lia|].
    intros f1 av1 names1 s' Hd1 Hsf Ha1. replace (nactvar fs + 1 + Z.of_nat (length ds)) with (nactvar fs + Z.of_nat (length (d :: ds))) in * by (cbn; lia). by eapply HQ.
Qed.
End Steps.

(** ** The end of the function *)

(** One function is open; its code and constants are those of [fs]. *)
Record closing (f : PFunc) (fs : FuncState) (n : Z) (s : PState) : Prop := {
  cl_funcs : exists c, funcs s = [with_pf f c] /\ code c = code fs /\ k c = k fs /\ nactvar c = n;
  cl_labels : gt s = [] /\ label s = [];
}.

(** The variables below [m] have entries. *)
Definition entered (f : PFunc) (av : list Z) (m : nat) : Prop :=
  forall i, (i < m)%nat -> exists idx v, av !! Z.to_nat (firstlocal f + Z.of_nat i) = Some idx /\ locvars f !! Z.to_nat idx = Some v.

Lemma wpp_closing_emit f fs n n' s (g : FuncState -> FuncState) (Q : () -> PState -> Prop) :
  closing f fs n s -> (forall c, code (g c) = code c /\ k (g c) = k c /\ (nactvar c = n -> nactvar (g c) = n')) -> (forall s', closing f fs n' s' -> actvar s' = actvar s -> Q () s') -> wpp (emit (putfs g)) s Q.
Proof.
  intros [(c & Hf & Hc & Hk & Hn) Hl] Hg HQ. unfold wpp, emit. rewrite Hf. cbn [pf with_pf putfs]. destruct (Hg (set_lastline (LuaLex.lastline (ls s)) c)) as (H1 & H2 & H3). apply HQ; [|done]. split; [|done].
  eexists. split_and!; [done|by rewrite H1|by rewrite H2|by apply H3].
Qed.

Lemma wpp_closing_get {A} (g : FuncState -> A) f fs n s (Q : A -> PState -> Prop) :
  closing f fs n s -> (forall x s', closing f fs n s' -> actvar s' = actvar s -> Q x s') -> wpp (emit (getfs g)) s Q.
Proof. intros [(c & Hf & Hc & Hk & Hn) Hl] HQ. unfold wpp, emit. rewrite Hf. cbn [pf with_pf getfs]. apply HQ; [|done]. split; [|done]. by eexists. Qed.

Lemma wpp_closing_nactvar f fs n s (Q : Z -> PState -> Prop) :
  closing f fs n s -> (forall s', closing f fs n s' -> actvar s' = actvar s -> Q n s') -> wpp (emit (getfs nactvar)) s Q.
Proof. intros [(c & Hf & Hc & Hk & <-) Hl] HQ. unfold wpp, emit. rewrite Hf. cbn [pf with_pf getfs]. apply HQ; [|done]. split; [|done]. by eexists. Qed.

Lemma wpp_closing_putfunc (g : PFunc -> PFunc) f fs n s (Q : () -> PState -> Prop) :
  closing f fs n s -> (forall c, g (with_pf f c) = with_pf (g f) c) -> (forall s', closing (g f) fs n s' -> actvar s' = actvar s -> Q () s') -> wpp (putfunc g) s Q.
Proof. intros [(c & Hf & Hc) Hl] Hg HQ. unfold wpp, putfunc. rewrite Hf, Hg. apply HQ; [|done]. split; [|done]. by exists c. Qed.

Lemma wpp_change_locvar av i g f fs n s m (Q : () -> PState -> Prop) :
  closing f fs n s -> entered f av m -> (i < m)%nat -> (forall f' s', closing f' fs n s' -> entered f' av m -> same_function f f' -> Q () s') -> wpp (change_locvar av (Z.of_nat i) g) s Q.
Proof.
  intros Hcl He Hi HQ. destruct (He i Hi) as (idx & v & Ha & Hv). unfold change_locvar. apply wpp_bind. pose proof Hcl as [(c & Hf & _) _]. unfold wpp at 1, getfunc. rewrite Hf. cbn [id firstlocal with_pf locvars]. rewrite Ha, Hv.
  eapply wpp_closing_putfunc; [exact Hcl|done|]. intros s' Hcl' _. eapply HQ; [exact Hcl'| |done]. intros j Hj. destruct (He j Hj) as (idx' & v' & Ha' & Hv'). exists idx'. cbn [locvars with_locvars firstlocal].
  destruct (decide (Z.to_nat idx' = Z.to_nat idx)) as [E|E].
  - exists (g v). rewrite E. split; [done|]. apply list_lookup_insert_eq. by eapply lookup_lt_Some.
  - exists v'. split; [done|]. by rewrite list_lookup_insert_ne.
Qed.

Lemma wpp_remove_loop av m M f fs s (Q : () -> PState -> Prop) :
  closing f fs (Z.of_nat m) s -> entered f av M -> (m <= M)%nat -> (forall f' s', closing f' fs 0 s' -> same_function f f' -> Q () s') -> wpp (remove_loop m av) s Q.
Proof.
  revert f s. induction m as [|m IH]; intros f s Hcl He Hm HQ; cbn [remove_loop]; [apply wpp_ret; by eapply HQ|].
  apply wpp_bind. eapply (wpp_closing_emit f fs _ (Z.of_nat m)); [exact Hcl|intros c; cbn; split_and!; [done|done|lia]|]. clear Hcl. intros s1 Hcl _. apply wpp_bind. eapply wpp_closing_nactvar; [exact Hcl|]. clear Hcl. intros s2 Hcl _.
  apply wpp_bind. eapply wpp_closing_get; [exact Hcl|]. clear Hcl. intros here s3 Hcl _. apply wpp_bind. eapply wpp_change_locvar; [exact Hcl|exact He|lia|]. clear Hcl. intros f' s4 Hcl He' (E1 & E2 & E3 & E4).
  eapply IH; [exact Hcl|exact He'|lia|]. intros f2 s5 Hcl2 (F1 & F2 & F3 & F4). eapply HQ; [exact Hcl2|]. unfold same_function. by rewrite F1, F2, F3, F4.
Qed.

Lemma constants_mapM ks : Forall (fun v => is_constant v = true) ks -> exists cs, mapM proto_constant ks = Some cs.
Proof.
  induction 1 as [|v ks Hv _ [cs IH]]; [by exists []|]. cbn [mapM]. assert (exists c, proto_constant v = Some c) as [c ->] by (destruct v; try discriminate Hv; by eexists). cbn. rewrite IH. by eexists.
Qed.

Lemma declares_entered f av n names ups : declares f av n names ups -> entered f av (Z.to_nat n).
Proof.
  intros [[Hn Hx _] _ _] i Hi. destruct (lookup_lt_is_Some_2 names i) as [x Ex]; [lia|]. specialize (Hx i x Ex). unfold locname in Hx. destruct (av !! _) as [idx|]; [|done]. cbn in Hx. destruct (locvars f !! _) as [v|] eqn:Ev; [|done]. by exists idx, v.
Qed.

(** The outermost block of a function without pending gotos. *)
Record outermost (b : BlockCnt) : Prop := {
  om_loop : bl_isloop b = false;
  om_nactvar : bl_nactvar b = 0;
  om_goto : bl_firstgoto b = 0;
}.

Section Close.
Context `{LuaNumber} (luaO_str2d : bytes -> option Z) (lexfuel : nat) (source : bytes).

Abbreviation at_tokens f0 av n := (at_tokens luaO_str2d lexfuel f0 [] av n [] []).

Lemma wpp_leaveblock f fs n av s b (Q : () -> PState -> Prop) :
  closing f fs n s -> actvar s = av -> bl f = [b] -> outermost b -> 0 <= n -> entered f av (Z.to_nat n) ->
  (forall f' s', closing f' fs 0 s' -> same_function (with_blocks f []) f' -> Q () s') -> wpp leaveblock s Q.
Proof.
  intros Hcl Hav Hb [Hlo Hna Hgo] Hn He HQ. assert (forall A (g : PFunc -> A) (Q' : A -> PState -> Prop), (forall c, g (with_pf f c) = g f) -> Q' (g f) s -> wpp (getfunc g) s Q') as Hget.
  { intros A g Q' Hg HQ'. destruct Hcl as [(c & Hf & _) _]. unfold wpp, getfunc. by rewrite Hf, Hg. }
  unfold leaveblock, current_block. apply wpp_bind, wpp_bind, Hget; [done|]. rewrite Hb. apply wpp_ret, wpp_bind, Hget; [done|]. rewrite Hb. cbn [tail length Nat.eqb negb andb]. cbv zeta. apply wpp_bind, wpp_ret, wpp_bind. rewrite Hlo. apply wpp_ret, wpp_bind.
  clear Hget. eapply (wpp_closing_putfunc (fun f => with_blocks f [])); [exact Hcl|done|]. clear Hcl. intros s1 Hcl Hav1. apply wpp_bind. unfold removevars. apply wpp_bind. eapply wpp_closing_nactvar; [exact Hcl|]. clear Hcl. intros s2 Hcl Hav2.
  apply wpp_bind, wpp_getp, wpp_bind. unfold wpp at 1, putp. rewrite Hna, Z.sub_0_r. assert (actvar s2 = av) as -> by congruence. set (s3 := set_actvar _ s2). assert (closing (with_blocks f []) fs n s3) as Hcl3 by (destruct Hcl; by split).
  eapply (wpp_remove_loop av (Z.to_nat n) (Z.to_nat n)); [by rewrite Z2Nat.id|exact He|done|]. clear Hcl Hcl3. intros f' s4 Hcl Hsf. apply wpp_bind.
  eapply (wpp_closing_emit f' fs 0 0); [exact Hcl|done|]. clear Hcl. intros s5 Hcl _. apply wpp_bind. unfold wpp at 1, putp. destruct Hcl as [Hfun [Hg Hl]].
  set (s6 := set_label _ s5). assert (closing f' fs 0 s6) as Hcl by (split; [done|]; split; [done|]; cbn; rewrite Hl; by rewrite take_nil). apply wpp_bind, wpp_getp. destruct Hcl as [Hf6 [Hg6 Hl6]]. rewrite Hg6, Hgo. cbn [length Z.of_nat Z.ltb Z.compare]. apply wpp_ret. by eapply HQ.
Qed.

Lemma wpp_close_func f0 av n names ups b cc fs fs' ts s (Q : Proto -> PState -> Prop) :
  at_tokens f0 av n cc fs ts s -> declares f0 av n names ups -> bl f0 = [b] -> outermost b -> luaK_ret 0 0 fs = Ok ((), fs') ->
  (forall pr s', LuaDump.code pr = code fs' -> mapM proto_constant (k fs') = Some (LuaDump.k pr) -> LuaDump.upvalues pr = upvalues f0 -> LuaDump.p pr = protos f0 -> Q pr s') ->
  wpp (close_func source) s Q.
Proof.
  intros Ha Hd Hb Hom Hr HQ. pose proof (sc_count _ _ _ _ _ (dc_scope _ _ _ _ _ Hd)) as Hn. unfold close_func. apply wpp_bind. eapply wpp_emit; [exact Ha|apply ll_ret_code|exact Hr|]. clear Ha. intros s1 [(c & Hf & Hq) _ Hav _ Hl].
  apply wpp_bind. eapply (wpp_leaveblock f0 fs' n av); [|done|exact Hb|done|lia|by eapply declares_entered|].
  { split; [|done]. exists c. split_and!; [done|by apply Hq..]. }
  intros f' s' [(c' & Hf' & Hc' & Hk' & _) _] (E1 & _ & _ & E4). apply wpp_bind. unfold wpp at 1, getfunc. rewrite Hf'. cbn [id]. destruct (constants_mapM (k fs') (eq_const _ _ _ Hq)) as [cs Hcs].
  unfold close_proto. cbn [pf with_pf]. rewrite Hk', Hcs. cbn [mbind option_bind]. apply wpp_bind. unfold wpp at 1, putp. apply wpp_ret. apply HQ; cbn; try done; by rewrite Hc'.
Qed.
End Close.

(** ** The main function *)

Section Main.
Context `{LuaNumber} `{NL : !LuaNumberLaws} (rt : runtime) (env : TValue).

Abbreviation str2d := (luaO_str2d rt).

(** A function without code. *)
Definition no_code : FuncState := MkFunc [] [] [] [] 2 0 NO_JUMP 0 0 0.

Lemma no_code_wf : wf no_code [].
Proof. split; try done; [intros j Hj; by apply elem_of_nil in Hj|constructor|constructor]. Qed.

(** The main function before its first token. *)
Definition main_func : PFunc :=
  MkPFunc no_code [] [MkUpvaldesc (Some LUA_ENV) 1 0] 0 [MkBlock 0 0 0 false false] true 0 0 0 0 [].

Lemma main_declares : declares main_func [] 0 [] [LUA_ENV].
Proof. by split; [split|..]. Qed.

Lemma mainfunc_run lexfuel source fuel ccalls z c ts (Q : Proto -> PState -> Prop) :
  ahead str2d lexfuel (luaX_setinput z c) ts ->
  (forall s, at_tokens str2d lexfuel main_func [] [] 0 [] [] ccalls no_code ts s ->
    wpp (_ ← statlist (statement str2d lexfuel source fuel) fuel; _ ← check TK_EOS; close_func source) s Q) ->
  wpp (mainfunc str2d lexfuel source fuel) (MkP (luaX_setinput z c) [] [] [] [] LUA_ENV ccalls) Q.
Proof.
  generalize (luaX_setinput z c). intros l0 Hah HQ. destruct (ahead_next _ _ _ _ Hah) as (l' & El & Hr). set (c0 := set_lastline (LuaLex.lastline l0) no_code). set (s1 := MkP l' [with_pf main_func c0] [] [] [] LUA_ENV ccalls).
  assert (at_tokens str2d lexfuel main_func [] [] 0 [] [] ccalls no_code ts s1) as Ha.
  { split; try done. exists c0. split; [done|]. by split. }
  assert (mainfunc str2d lexfuel source fuel (MkP l0 [] [] [] [] LUA_ENV ccalls) =
    (_ ← LuaParse.nexttoken str2d lexfuel; _ ← statlist (statement str2d lexfuel source fuel) fuel; _ ← check TK_EOS; close_func source) (MkP l0 [with_pf main_func c0] [] [] [] LUA_ENV ccalls)) as Em by reflexivity.
  unfold wpp. rewrite Em. fold (wpp (_ ← LuaParse.nexttoken str2d lexfuel; _ ← statlist (statement str2d lexfuel source fuel) fuel; _ ← check TK_EOS; close_func source) (MkP l0 [with_pf main_func c0] [] [] [] LUA_ENV ccalls) Q).
  apply wpp_bind. unfold wpp at 1, LuaParse.nexttoken, lexer_call. cbn [ls]. rewrite El. exact (HQ s1 Ha).
Qed.

(** Written variables exist. *)
Lemma written_scoped names ups e ts : written names ups e ts -> (forall t r, t ∈ ts -> seminfo t = SemNumber r -> in_u 64 r) -> scoped (Z.of_nat (length names)) (Z.of_nat (length ups)) e.
Proof.
  induction 1 as [| | |r|x|x r (H0 & Hx & _)|x u (_ & H0 & Hx & _)|t1 e ts t2 _ _ IH _|op t e ts ln _ _ IH|op t a tsa b tsb ln _ _ IHa _ IHb]; intros Hnum; cbn [scoped]; try done.
  - apply (Hnum (MkToken TK_NUMBER (SemNumber r))); [by left|done].
  - apply lookup_lt_Some in Hx. lia.
  - apply lookup_lt_Some in Hx. lia.
  - apply IH. intros t r Ht. apply Hnum. right. apply elem_of_app. by left.
  - apply IH. intros t' r Ht. apply Hnum. by right.
  - split; [apply IHa|apply IHb]; intros t' r Ht; apply Hnum, elem_of_app; [by left|right; by right].
Qed.

Lemma written_block_scoped ups names ds e ts U :
  written_block ups names ds e ts -> (forall t r, t ∈ ts -> seminfo t = SemNumber r -> in_u 64 r) -> length U = length ups -> scoped_block U ds e (Z.of_nat (length names)).
Proof.
  intros Hw. induction Hw as [names t e ts _ Hw _|names t x teq d ts ds e rest _ _ Hw _ _ IH]; intros Hnum HU; cbn [scoped_block]; unfold nups; rewrite HU.
  - eapply written_scoped; [exact Hw|]. intros t' r Ht. apply Hnum. by right.
  - split.
    + eapply written_scoped; [exact Hw|]. intros t' r Ht. apply Hnum. do 3 right. apply elem_of_app. by left.
    + rewrite length_app, Nat2Z.inj_add in IH. apply IH; [|done]. intros t' r Ht. apply Hnum. do 3 right. apply elem_of_app. by right.
Qed.

Lemma spelled_numbers ts ws : (forall s r, str2d s = Some r -> in_u 64 r) -> Forall2 (spelled str2d) ts ws -> forall t r, t ∈ ts -> seminfo t = SemNumber r -> in_u 64 r.
Proof.
  intros Hs Hts t r Ht Hr. apply list_elem_of_lookup_1 in Ht as [i Hi]. destruct (Forall2_lookup_l _ _ _ _ _ Hts Hi) as (w & _ & Hw). destruct Hw as [| |d ds r' Hd Hs'|]; cbn in Hr; try done. injection Hr as <-. by eapply Hs.
Qed.

Lemma block_length ds e : Z.of_nat (length ds) < size_block ds e.
Proof. induction ds as [|d ds IH]; cbn [size_block length]; [pose proof (size_pos e)|pose proof (size_pos d)]; lia. Qed.

(** The code of a block, with the final [RETURN]. *)
Lemma block_compiled ds e :
  scoped_block [env] ds e 0 -> height_block ds e < MAXSTACK -> 64 * size_block ds e < MAXARG_sBx ->
  exists r fs fs', block_code ds e no_code r fs /\ luaK_ret 0 0 (set_freereg (nactvar fs) fs) = Ok ((), fs') /\ len (code fs') = pc fs + 1 /\ instr_at (code fs') (pc fs - 1) = Some (ABC OP_RETURN r 2 0) /\ 0 <= r < 256 /\
    forall other R, computes rt [env] other (code fs') (k fs') 0 (pc fs - 1) r 0 (run_block rt [env] ds e 0 R) R.
Proof.
  intros Hsc Hh Hsz. assert (room (64 * size_block ds e) no_code) as Hroom by (split; [change (pc no_code) with 0|change (nk no_code) with 0]; change MAXARG_Ax with 67108863; change MAXARG_sBx with 131071 in *; lia).
  pose proof (fun other S0 Q => wpc_block rt [env] other S0 ltac:(unfold nups; cbn; lia) ds e no_code [] Q no_code_wf eq_refl Hsc Hh Hroom) as Hblk.
  pose proof (fun r fs' => compile_block_code rt [env] ds e no_code [] r fs' ltac:(unfold nups; cbn; lia) no_code_wf eq_refl Hsc Hh Hroom) as Hbc. unfold wpc in Hblk.
  destruct (compile_block ds e no_code) as [[r fs]|]; [|by destruct (Hblk (stuck Undefined) (0, fun _ => LNil) (fun _ _ => True)); intros; apply I].
  assert (Hall : forall other S0, returns rt [env] other S0 (64 * size_block ds e) (run_block rt [env] ds e 0) no_code [] r fs) by (intros other S0; apply (Hblk other S0 (fun r fs => returns rt [env] other S0 _ _ _ _ r fs)); by intros).
  destruct (Hall (stuck Undefined) (0, fun _ => LNil)) as [Hwf Hfr Hlast Hreg Hmg [Hco _] _]. exists r, fs. set (fs1 := set_freereg (nactvar fs) fs).
  assert (wf fs1 []) as Hwf1 by (destruct Hwf as [W1 W2 W3 W4 W5 W6 W7 W8]; split; try done; unfold fs1; cbn [nactvar freereg set_freereg]; lia). assert (pc fs1 <= MAXARG_sBx) as Hpc1 by (change (pc fs1) with (pc fs); change (pc no_code) with 0 in Hco; lia).
  assert (wpc (luaK_ret 0 0) fs1 (fun _ fs' => emitted fs1 [] (ABC OP_RETURN 0 1 0) fs')) as Hret by (apply wpc_bind; eapply wpc_code; [exact Hwf1|exact Hpc1|]; intros fs' Hem; by apply wpc_ret).
  unfold wpc in Hret. destruct (luaK_ret 0 0 fs1) as [[[] fs']|] eqn:Er; [|done]. exists fs'. pose proof (em_fr' _ _ _ _ Hwf1 Hret) as Hf'.
  assert (forall C K, agrees C K fs' (own0 fs' []) -> agrees C K fs (own0 fs [])) as Hag by (intros C K HC; exact (agrees_fr _ _ _ _ _ _ Hf' HC)). specialize (Hag _ _ (agrees_self fs' _)).
  assert (len (code fs') = pc fs + 1) as Hlen by exact (em_pc _ _ _ _ Hret). split_and!; [by apply Hbc|done|exact Hlen| |lia|lia|].
  - eapply agrees_at; [exact Hag|exact Hlast|]. intros [Hp|[_ Hm]]; [by apply pend_nil in Hp|congruence].
  - intros other R. destruct (Hall other (0, R)) as [_ _ _ _ _ _ Ho]. assert (Here rt [env] other (0, R) nobody no_code [] R) as HH by (left; split; [done|]; intros C K _; apply rtc_refl). specialize (Ho R HH).
    unfold finishes in Ho. unfold computes. destruct (run_block rt [env] ds e 0 R) as [v|er]; [|exact (Ho _ _ Hag)]. destruct Ho as (R' & HA & Hv & Hs). exists R'. split_and!; [exact (HA _ _ Hag)|done|exact Hs].
Qed.

(** C1. From source text to value: on a text of declarations [local x = e] and a final
    [return e], spelled token by token, [luaY_parser] succeeds, and the code of the
    prototype it makes, run by the interpreter loop, reaches the [RETURN] with the value of
    the text in the register it names, or stops with the error of the text.  The value is
    that of the expressions as the priorities of the operators group them, with every name
    meaning the last variable declared with it, and every initialiser evaluated once, in
    order.  The text is limited by the nesting the parser accepts, 200 variables, the
    registers and the reach of a jump. *)
Theorem chunk_correct (ds : list expr) (e : expr) (ts : list Token) (ws : list bytes) (z : zio) (c : charint) (source : bytes) (ccalls : Z) (lexfuel fuel : nat) :
  (forall s r, str2d s = Some r -> in_u 64 r) ->
  Forall2 (spelled str2d) ts ws -> written_block [LUA_ENV] [] ds e ts ->
  input (luaX_setinput z c) = spell ws -> slen (spell ws) + 2 < MAX_LINES -> (length (spell ws) < lexfuel)%nat ->
  ccalls + 2 + levels_block ds e <= LUAI_MAXCCALLS -> size_block ds e < Z.of_nat fuel ->
  Z.of_nat (length ds) <= MAXVARS -> height_block ds e < MAXSTACK -> 64 * size_block ds e < MAXARG_sBx ->
  exists pr K r, luaY_parser str2d lexfuel fuel ccalls z source c = Ok (pr, 1) /\ mapM proto_constant K = Some (LuaDump.k pr) /\
    let stop := len (LuaDump.code pr) - 2 in
    instr_at (LuaDump.code pr) stop = Some (ABC OP_RETURN r 2 0) /\
    forall other R, exists n, forall steps, (n <= steps)%nat ->
      match run_block rt [env] ds e 0 R with
      | Ok v => exists R', execute rt (LuaDump.code pr) K [env] other steps stop 0 R = Ok R' /\ R' r = v
      | Err er => execute rt (LuaDump.code pr) K [env] other steps stop 0 R = Err er
      end.
Proof.
  intros Hs2d Hts Hwb Hin Hlen Hlf Hcc Hfuel Hvars Hh Hsz.
  assert (scoped_block [env] ds e 0) as Hsc by (eapply (written_block_scoped [LUA_ENV] []); [exact Hwb|by eapply spelled_numbers|done]).
  destruct (block_compiled ds e Hsc Hh Hsz) as (r & fs & fs' & Hbc & Hret & Hpc & Hlast & Hr & Hrun).
  assert (ahead str2d lexfuel (luaX_setinput z c) (ts ++ [MkToken TK_EOS NoSem])) as Hah.
  { exists (S (length ts)). eapply (lex_tokens_spelled str2d ts ws); [done|by split|done|done| | |done|lia].
    - change MAX_LINES with 2147483645 in Hlen. lia.
    - cbn [linenumber luaX_setinput]. lia. }
  pose proof (block_length ds e). destruct fuel as [|fuel]; [lia|].
  assert (wpp (mainfunc str2d lexfuel source (S fuel)) (MkP (luaX_setinput z c) [] [] [] [] LUA_ENV ccalls)
    (fun pr _ => LuaDump.code pr = code fs' /\ mapM proto_constant (k fs') = Some (LuaDump.k pr))) as Hmain.
  { eapply mainfunc_run; [exact Hah|]. intros s Ha. apply wpp_bind. unfold statlist.
    eapply (wpp_statlist str2d lexfuel [] [] [] source [LUA_ENV] [] ds e ts Hwb (MkToken TK_EOS NoSem) main_func [] 0 ccalls no_code r fs fuel); [exact main_declares|done|exact Ha|exact Hbc|done|lia|lia|lia| |lia|lia|].
    { cbn [main_func locvars length]. change SHRT_MAX with 32767. change MAXVARS with 200 in Hvars. lia. }
    clear Ha. intros f1 av1 names1 s1 Hd1 (E1 & E2 & _ & _) Ha. apply wpp_bind. unfold check. apply wpp_bind. eapply wpp_tok; [exact Ha|]. cbn [token]. rewrite Z.eqb_refl. apply wpp_ret.
    eapply (wpp_close_func str2d lexfuel source f1 av1 _ names1 [LUA_ENV]); [exact Ha|exact Hd1|by rewrite E2|done|exact Hret|]. by intros. }
  unfold luaY_parser. unfold wpp in Hmain. destruct (mainfunc str2d lexfuel source (S fuel) _) as [[pr s]|]; [|done]. destruct Hmain as [Hcode Hk]. exists pr, (k fs'), r. split; [done|]. split; [done|]. cbv zeta. rewrite Hcode, Hpc.
  replace (pc fs + 1 - 2) with (pc fs - 1) by lia. split; [exact Hlast|]. intros other R. destruct (computes_execute rt [env] (code fs') (k fs') 0 (pc fs - 1) r 0 (run_block rt [env] ds e 0 R) R other Hlast Hr) as [n Hn]; [by intros X|].
  exists n. intros steps Hst. specialize (Hn steps Hst). destruct (run_block rt [env] ds e 0 R) as [v|er]; [|done]. destruct Hn as (R' & HR & Hv & _). by exists R'.
Qed.
End Main.

(** ** Example: [local x = 7 local y = x * 3 return x < y and y - x or "no"] *)

(** Numerals 7 and 3 only. *)
Definition digits_runtime : runtime := {|
  luaO_str2d := fun s => if decide (s = [55]) then Some 0x401c000000000000 else if decide (s = [51]) then Some 0x4008000000000000 else None;
  number2str := fun _ => [];
  call_binTM := fun _ _ _ => None;
  equalTM := fun _ _ => None;
  objlen := fun _ => Err LuaError;
|}.

Definition word (w : bytes) : Token := MkToken (word_token w) (SemString w).
Definition sign (c : Z) : Token := MkToken c NoSem.

Definition w_local : bytes := [108; 111; 99; 97; 108].
Definition w_return : bytes := [114; 101; 116; 117; 114; 110].
Definition w_and : bytes := [97; 110; 100].
Definition w_or : bytes := [111; 114].

Definition text_words : list bytes :=
  [w_local; [120]; [61]; [55]; w_local; [121]; [61]; [120]; [42]; [51]; w_return; [120]; [60]; [121]; w_and; [121]; [45]; [120]; w_or; addquoted [] [110; 111]].

Definition text_tokens : list Token :=
  [word w_local; word [120]; sign 61; MkToken TK_NUMBER (SemNumber 0x401c000000000000); word w_local; word [121]; sign 61; word [120]; sign 42; MkToken TK_NUMBER (SemNumber 0x4008000000000000);
   word w_return; word [120]; sign 60; word [121]; word w_and; word [121]; sign 45; word [120]; word w_or; MkToken TK_STRING (SemString [110; 111])].

Definition text_locals : list expr := [ENumber 0x401c000000000000; EBin OPR_MUL (ELocal 0) (ENumber 0x4008000000000000) 1].
Definition text_result : expr :=
  EBin OPR_OR (EBin OPR_AND (EBin OPR_LT (ELocal 0) (ELocal 1) 1) (EBin OPR_SUB (ELocal 1) (ELocal 0) 1) 1) (EString [110; 111]) 1.

Lemma text_written : written_block [LUA_ENV] [] text_locals text_result text_tokens.
Proof.
  assert (Hx : resolves [[120]; [121]] [LUA_ENV] [120] (VLOCAL 0)) by (split; [done|split; [done|]]; intros [|[|j]] Hj; [lia|done|done]).
  assert (Hy : resolves [[120]; [121]] [LUA_ENV] [121] (VLOCAL 1)) by (split; [done|split; [done|]]; intros [|[|j]] Hj; [lia|lia|done]).
  assert (Hx1 : resolves [[120]] [LUA_ENV] [120] (VLOCAL 0)) by (split; [done|split; [done|]]; intros [|j] Hj; [lia|done]).
  apply (WB_local [LUA_ENV] [] (word w_local) [120] (sign 61) _ [MkToken TK_NUMBER (SemNumber 0x401c000000000000)]); [done|done|constructor|done|].
  apply (WB_local [LUA_ENV] [[120]] (word w_local) [121] (sign 61) _ ([word [120]] ++ sign 42 :: [MkToken TK_NUMBER (SemNumber 0x4008000000000000)])); [done|done| |done|].
  { apply W_bin; [done|exact (W_local _ _ [120] 0 Hx1)|constructor]. }
  apply WB_return; [done| |done].
  apply (W_bin _ _ OPR_OR (word w_or) _ ([word [120]; sign 60; word [121]] ++ word w_and :: [word [121]; sign 45; word [120]])); [done| |constructor].
  apply W_bin; [done|apply (W_bin _ _ OPR_LT (sign 60) _ [word [120]])|apply (W_bin _ _ OPR_SUB (sign 45) _ [word [121]])]; try done; [exact (W_local _ _ [120] 0 Hx)|exact (W_local _ _ [121] 1 Hy)|exact (W_local _ _ [121] 1 Hy)|exact (W_local _ _ [120] 0 Hx)].
Qed.

Lemma text_spelled : Forall2 (spelled (luaO_str2d digits_runtime)) text_tokens text_words.
Proof.
  assert (Hw : forall c w, forallb (fun d => (0 <=? d) && (d <? 256)) (c :: w) = true -> lislalpha (Some c) = true -> forallb (fun d => lislalnum (Some d)) w = true -> spelled (luaO_str2d digits_runtime) (word (c :: w)) (c :: w)).
  { intros c w Hb Hc Hl. apply spelled_word; [|done|].
    - apply List.Forall_forall. intros d Hd. rewrite forallb_forall in Hb. specialize (Hb d Hd). unfold is_byte. lia.
    - apply List.Forall_forall. by apply forallb_forall. }
  assert (Ho : forall c w, bool_decide ((c, w) ∈ operators) = true -> spelled (luaO_str2d digits_runtime) (sign c) w) by (intros c w Hd; apply spelled_operator; exact (bool_decide_eq_true_1 _ Hd)).
  assert (Hn : forall d r, in_range 48 57 d = true -> luaO_str2d digits_runtime [d] = Some r -> spelled (luaO_str2d digits_runtime) (MkToken TK_NUMBER (SemNumber r)) [d]) by (intros d r Hd Hr; apply spelled_numeral; [by repeat constructor|done]).
  repeat (apply Forall2_cons; split; [first [apply Hw; vm_compute; reflexivity|apply Ho; vm_compute; reflexivity|apply Hn; vm_compute; reflexivity|apply spelled_string; repeat constructor; lia]|]). constructor.
Qed.

(** Witness of C1: the text computes 14 whatever the registers and the environment. *)
Lemma chunk_correct_witness :
  (exists pr K r, @luaY_parser (double_number no_pow) (luaO_str2d digits_runtime) 200 40 0 (ZIO (tail (spell text_words)) []) [61; 120] (Some 32) = Ok (pr, 1) /\ mapM proto_constant K = Some (LuaDump.k pr) /\
    let stop := len (LuaDump.code pr) - 2 in
    instr_at (LuaDump.code pr) stop = Some (ABC OP_RETURN r 2 0) /\
    forall other R, exists n, forall steps, (n <= steps)%nat ->
      match @run_block (double_number no_pow) digits_runtime [LNil] text_locals text_result 0 R with
      | Ok v => exists R', @execute (double_number no_pow) digits_runtime (LuaDump.code pr) K [LNil] other steps stop 0 R = Ok R' /\ R' r = v
      | Err er => @execute (double_number no_pow) digits_runtime (LuaDump.code pr) K [LNil] other steps stop 0 R = Err er
      end) /\
  @run_block (double_number no_pow) digits_runtime [LNil] text_locals text_result 0 (fun _ => LNil) = Ok (LNumber 0x402c000000000000).
Proof.
  split; [|vm_compute; reflexivity].
  apply (@chunk_correct (double_number no_pow) (double_laws no_pow) digits_runtime LNil text_locals text_result text_tokens text_words).
  - intros s r. cbn. unfold in_u. repeat case_decide; intros [= <-]; lia.
  - exact text_spelled.
  - exact text_written.
  - vm_compute. reflexivity.
  - vm_compute. reflexivity.
  - vm_compute. lia.
  - vm_compute. discriminate.
  - vm_compute. reflexivity.
  - vm_compute. discriminate.
  - vm_compute. reflexivity.
  - vm_compute. reflexivity.
Defined.
