(* ===== verification/LuaBit.v ===== *)
(** * The bit32 library ([src/dep/lua-5.2.3/src/lbitlib.c])

    The kernel's Lua code tests the flags of [open] with [bit32.band].  A
    [b_uint] is a 32-bit unsigned integer and the shift counts are C [int]s;
    arguments are the integers that [luaL_checkunsigned] (reduction modulo 2^32)
    and [luaL_checkint] (conversion to [int]) receive. *)

From S2P Require Import Prelude.

Definition LUA_NBITS : Z := 32.
Definition ALLONES : Z := u32 (Z.lnot (u32 (u32 (u32 (Z.lnot 0) ≪ (LUA_NBITS - 1)) ≪ 1))).
Definition trim (x : Z) : Z := x &&& ALLONES.

(** A number with [n] ones (1 <= n <= 32). *)
Definition mask (n : Z) : Z := u32 (Z.lnot (u32 (u32 (ALLONES ≪ 1) ≪ (n - 1)))).

Definition checkunsigned (x : Z) : Z := u32 x.
Definition checkint (x : Z) : Z := s32 x.

Definition andaux (args : list Z) : Z :=
  trim (foldl (fun r a => r &&& checkunsigned a) (u32 (Z.lnot 0)) args).
Definition b_and (args : list Z) : Z := andaux args.
Definition b_test (args : list Z) : bool := negb (andaux args =? 0).
Definition b_or (args : list Z) : Z :=
  trim (foldl (fun r a => r ||| checkunsigned a) 0 args).
Definition b_xor (args : list Z) : Z :=
  trim (foldl (fun r a => Z.lxor r (checkunsigned a)) 0 args).
Definition b_not (x : Z) : Z := trim (u32 (Z.lnot (checkunsigned x))).

(** The negation [-i] of the smallest [int] is undefined. *)
Definition int_neg (i : Z) : res Z :=
  if i =? - 2 ^ 31 then Err Undefined else Ok (- i).

Definition b_shift (r i : Z) : res Z :=
  if i <? 0 then
    i ← int_neg i;
    let r := trim r in
    Ok (if i >=? LUA_NBITS then 0 else r ≫ i)
  else
    let r := if i >=? LUA_NBITS then 0 else u32 (r ≪ i) in
    Ok (trim r).

Definition b_lshift (x i : Z) : res Z := b_shift (checkunsigned x) (checkint i).
Definition b_rshift (x i : Z) : res Z :=
  i ← int_neg (checkint i); b_shift (checkunsigned x) i.

Definition b_arshift (x i : Z) : res Z :=
  let r := checkunsigned x in
  let i := checkint i in
  if (i <? 0) || (r &&& u32 (1 ≪ (LUA_NBITS - 1)) =? 0) then
    i ← int_neg i; b_shift r i
  else if i >=? LUA_NBITS then Ok ALLONES
  else Ok (trim ((r ≫ i) ||| u32 (Z.lnot (u32 (Z.lnot 0) ≫ i)))).

(** [i &= 31] on a two's complement [int]. *)
Definition b_rot (x i : Z) : Z :=
  let r := checkunsigned x in
  let i := i &&& (LUA_NBITS - 1) in
  let r := trim r in
  let r := if i =? 0 then r else u32 (r ≪ i) ||| (r ≫ (LUA_NBITS - i)) in
  trim r.

Definition b_lrot (x i : Z) : Z := b_rot x (checkint i).
Definition b_rrot (x i : Z) : res Z := i ← int_neg (checkint i); Ok (b_rot x i).

(** Field and width; the sum [f + w] can overflow an [int]. *)
Definition fieldargs (f w : Z) : res (Z * Z) :=
  let f := checkint f in
  let w := checkint w in
  if f <? 0 then Err LuaError
  else if w <=? 0 then Err LuaError
  else if f + w >=? 2 ^ 31 then Err Undefined
  else if f + w >? LUA_NBITS then Err LuaError
  else Ok (f, w).

Definition b_extract (x f w : Z) : res Z :=
  let r := checkunsigned x in
  '(f, w) ← fieldargs f w;
  Ok ((r ≫ f) &&& mask w).

(** [int m = mask(w)] keeps the bits of the mask; the operations below are on
    their 32-bit pattern. *)
Definition b_replace (x v f w : Z) : res Z :=
  let r := checkunsigned x in
  let v := checkunsigned v in
  '(f, w) ← fieldargs f w;
  let m := mask w in
  let v := v &&& m in
  Ok ((r &&& u32 (Z.lnot (u32 (m ≪ f)))) ||| u32 (v ≪ f)).

(** ** Facts *)

Lemma ALLONES_ones : ALLONES = Z.ones 32.
Proof. reflexivity. Qed.

Lemma trim_wrap x : trim x = u32 x.
Proof. unfold trim. rewrite ALLONES_ones. by apply Z.land_ones. Qed.

Lemma trim_small x : in_u 32 x -> trim x = x.
Proof. intros. rewrite trim_wrap. by apply wrap_small. Qed.

Lemma u32_testbit x i : Z.testbit (u32 x) i = (i <? 32) && Z.testbit x i.
Proof.
  unfold wrap. destruct (Z.ltb_spec i 32); cbn [andb].
  - by apply Z.mod_pow2_bits_low.
  - apply Z.mod_pow2_bits_high. lia.
Qed.

Lemma in_u_testbit x i : in_u 32 x -> 32 <= i -> Z.testbit x i = false.
Proof.
  intros Hx Hi. rewrite <- (wrap_small 32 x Hx), u32_testbit.
  by rewrite (proj2 (Z.ltb_ge _ _)) by lia.
Qed.

Lemma mask_ones w : 1 <= w <= 32 -> mask w = Z.ones w.
Proof.
  intros Hw. unfold mask. rewrite ALLONES_ones. apply Z.bits_inj'. intros i Hi.
  rewrite u32_testbit, Z.lnot_spec, u32_testbit, Z.testbit_ones_nonneg by lia.
  destruct (decide (i < w - 1)).
  - rewrite Z.shiftl_spec_low by lia. rewrite andb_false_r.
    rewrite !(proj2 (Z.ltb_lt _ _)) by lia. done.
  - rewrite Z.shiftl_spec_high by lia. rewrite u32_testbit.
    destruct (decide (i = w - 1)) as [->|].
    + replace (w - 1 - (w - 1)) with 0 by lia. rewrite Z.shiftl_spec_low by lia.
      rewrite !andb_false_r, !(proj2 (Z.ltb_lt _ _)) by lia. done.
    + rewrite Z.shiftl_spec_high, Z.testbit_ones_nonneg by lia.
      rewrite (proj2 (Z.ltb_ge i w)) by lia.
      destruct (Z.ltb_spec i 32); [|done]. cbn [andb].
      rewrite !(proj2 (Z.ltb_lt _ _)) by lia. done.
Qed.

Lemma fieldargs_ok f w :
  0 <= f -> 1 <= w -> f + w <= 32 -> fieldargs f w = Ok (f, w).
Proof.
  intros Hf Hw Hs. unfold fieldargs, checkint. rewrite !swrap_small by (lia || clia).
  rewrite (proj2 (Z.ltb_ge f 0)), (proj2 (Z.leb_gt w 0)) by lia.
  rewrite Z.geb_leb, (proj2 (Z.leb_gt _ _)) by clia. unfold LUA_NBITS.
  rewrite Z.gtb_ltb, (proj2 (Z.ltb_ge _ _)) by lia. done.
Qed.

(** [bit32.band] of two arguments is the bitwise and of their values
    modulo 2^32: bit [i] of the result is set exactly when [i] is below 32 and
    set in both. *)
Theorem b_and_bits (x y i : Z) :
  0 <= i ->
  Z.testbit (b_and [x; y]) i = (i <? 32) && Z.testbit x i && Z.testbit y i.
Proof.
  intros Hi. unfold b_and, andaux. cbn [foldl]. rewrite trim_wrap, u32_testbit.
  rewrite !Z.land_spec. unfold checkunsigned. rewrite !u32_testbit, Z.lnot_spec, Z.bits_0 by lia.
  destruct (i <? 32); done.
Qed.

(** Example: the flag test of [open]. *)
Lemma b_and_bits_witness : Z.testbit (b_and [65; 64]) 6 = true.
Proof. rewrite (b_and_bits 65 64 6); [reflexivity|lia]. Defined.

Lemma b_extract_value x f w :
  0 <= f -> 1 <= w -> f + w <= 32 ->
  b_extract x f w = Ok ((u32 x / 2 ^ f) mod 2 ^ w).
Proof.
  intros Hf Hw Hs. unfold b_extract. rewrite fieldargs_ok by done. cbn [mbind res_bind].
  rewrite mask_ones, Z.land_ones, Z.shiftr_div_pow2 by lia. done.
Qed.

Lemma b_replace_testbit x v f w r i :
  0 <= f -> 1 <= w -> f + w <= 32 -> b_replace x v f w = Ok r -> 0 <= i ->
  Z.testbit r i =
    (i <? 32) && (if (f <=? i) && (i <? f + w) then Z.testbit v (i - f) else Z.testbit x i).
Proof.
  intros Hf Hw Hs Hr Hi. unfold b_replace in Hr. rewrite fieldargs_ok in Hr by done.
  cbn in Hr. injection Hr as <-. rewrite mask_ones by lia. unfold checkunsigned.
  rewrite Z.lor_spec, Z.land_spec, !u32_testbit, Z.lnot_spec, u32_testbit by lia.
  destruct (Z.ltb_spec i 32); [|done].
  cbn [andb]. destruct (Z.leb_spec f i); cbn [andb].
  - rewrite !Z.shiftl_spec_high, Z.land_spec, Z.testbit_ones_nonneg, u32_testbit by lia.
    destruct (Z.ltb_spec (i - f) w), (Z.ltb_spec i (f + w)); try lia.
    + rewrite (proj2 (Z.ltb_lt (i - f) 32)) by lia. cbn. by rewrite andb_false_r, andb_true_r.
    + by rewrite andb_false_r, orb_false_r, andb_true_r.
  - rewrite !Z.shiftl_spec_low by lia. by rewrite orb_false_r, andb_true_r.
Qed.

(** [bit32.replace] writes a field and nothing else: extracting the field
    from the result gives the low [w] bits of the new value, and extracting any
    disjoint field gives what it was in the old word. *)
Theorem b_replace_extract (x v f w f' w' r : Z) :
  0 <= f -> 1 <= w -> f + w <= 32 -> b_replace x v f w = Ok r ->
  b_extract r f w = Ok (u32 v mod 2 ^ w) /\
  (0 <= f' -> 1 <= w' -> f' + w' <= 32 -> f' + w' <= f \/ f + w <= f' ->
   b_extract r f' w' = b_extract x f' w').
Proof.
  intros Hf Hw Hs Hr. split.
  - rewrite b_extract_value by done. f_equal. apply Z.bits_inj'. intros i Hi.
    rewrite <- !Z.land_ones, <- Z.shiftr_div_pow2, !Z.land_spec, Z.shiftr_spec by lia.
    rewrite Z.testbit_ones_nonneg by lia. destruct (Z.ltb_spec i w); [|by rewrite !andb_false_r].
    rewrite !andb_true_r, !u32_testbit, (b_replace_testbit _ _ _ _ _ _ Hf Hw Hs Hr) by lia.
    rewrite (proj2 (Z.leb_le _ _)), !(proj2 (Z.ltb_lt _ _)) by lia. cbn. f_equal. lia.
  - intros Hf' Hw' Hs' Hdis. rewrite !b_extract_value by done. f_equal.
    apply Z.bits_inj'. intros i Hi.
    rewrite <- !Z.land_ones, <- !Z.shiftr_div_pow2, !Z.land_spec, !Z.shiftr_spec by lia.
    rewrite Z.testbit_ones_nonneg by lia. destruct (Z.ltb_spec i w'); [|by rewrite !andb_false_r].
    rewrite !andb_true_r, !u32_testbit, (b_replace_testbit _ _ _ _ _ _ Hf Hw Hs Hr) by lia.
    assert ((f <=? i + f') && (i + f' <? f + w) = false) as ->; [|by destruct (i + f' <? 32)].
    apply andb_false_iff. rewrite Z.leb_gt, Z.ltb_ge. lia.
Qed.

(** Example. *)
Lemma b_replace_extract_witness :
  b_extract 0x12F45678 20 4 = Ok (u32 15 mod 2 ^ 4) /\
  (0 <= 4 -> 1 <= 8 -> 4 + 8 <= 32 -> 4 + 8 <= 20 \/ 20 + 4 <= 4 ->
   b_extract 0x12F45678 4 8 = b_extract 0x12345678 4 8).
Proof. apply (b_replace_extract 0x12345678 15 20 4 4 8); [lia|lia|lia|reflexivity]. Defined.

Lemma land31 i : i &&& (LUA_NBITS - 1) = i mod 32.
Proof. change (LUA_NBITS - 1) with (Z.ones 5). by rewrite Z.land_ones by lia. Qed.

Lemma b_rot_range x i : in_u 32 (b_rot x i).
Proof. unfold b_rot. rewrite trim_wrap. apply wrap_range. lia. Qed.

(** Bit [k] of a rotation is bit [k - i] modulo 32. *)
Lemma b_rot_testbit x i k :
  0 <= k < 32 -> Z.testbit (b_rot x i) k = Z.testbit x ((k - i) mod 32).
Proof.
  intros Hk. unfold b_rot, checkunsigned. rewrite land31, !trim_wrap, wrap_wrap.
  assert (0 <= i mod 32 < 32) as Hm by (apply Z.mod_pos_bound; lia).
  replace ((k - i) mod 32) with ((k - i mod 32) mod 32) by dlia.
  rewrite u32_testbit, (proj2 (Z.ltb_lt k 32)) by lia. cbn [andb].
  unfold LUA_NBITS.
  destruct (Z.eqb_spec (i mod 32) 0) as [->|Hne].
  { rewrite u32_testbit, (proj2 (Z.ltb_lt k 32)), Z.sub_0_r, Z.mod_small by lia. done. }
  rewrite Z.lor_spec, u32_testbit, (proj2 (Z.ltb_lt k 32)), Z.shiftr_spec by lia. cbn [andb].
  rewrite u32_testbit. destruct (decide (k < i mod 32)).
  - rewrite Z.shiftl_spec_low, (proj2 (Z.ltb_lt (k + _) 32)) by lia. cbn [orb andb].
    f_equal. dlia.
  - rewrite Z.shiftl_spec_high, u32_testbit by lia.
    rewrite (proj2 (Z.ltb_lt (k - _) 32)), (proj2 (Z.ltb_ge (k + _) 32)) by lia.
    cbn [andb]. rewrite orb_false_r. f_equal. dlia.
Qed.

(** Rotations are inverse: rotating left and then right by the same
    amount, positive or negative, gives the word back. *)
Theorem b_rot_roundtrip (x i : Z) :
  checkint i <> - 2 ^ 31 -> b_rrot (b_lrot x i) i = Ok (u32 x).
Proof.
  intros Hi. unfold b_rrot, int_neg, b_lrot.
  rewrite (proj2 (Z.eqb_neq _ _) Hi). cbn [mbind res_bind]. f_equal.
  apply Z.bits_inj'. intros k Hk. destruct (decide (k < 32)).
  - rewrite !b_rot_testbit, u32_testbit, (proj2 (Z.ltb_lt k 32)) by
      (lia || (apply Z.mod_pos_bound; lia)). cbn [andb]. f_equal. dlia.
  - rewrite !in_u_testbit by (apply b_rot_range || (apply wrap_range; lia) || lia). done.
Qed.

(** Example. *)
Lemma b_rot_roundtrip_witness : b_rrot (b_lrot 0x80000001 (-37)) (-37) = Ok (u32 0x80000001).
Proof. apply (b_rot_roundtrip 0x80000001 (-37)). vm_compute. done. Defined.

Lemma s32_testbit x j :
  0 <= j -> Z.testbit (s32 (u32 x)) j = Z.testbit (u32 x) (Z.min j 31).
Proof.
  intros Hj. assert (in_u 32 (u32 x)) as Hr by (apply wrap_range; lia). revert Hr.
  generalize (u32 x) as r. intros r Hr. unfold in_u in Hr.
  assert (Z.testbit r 31 = (2 ^ 31 <=? r)) as H31.
  { rewrite Z.testbit_odd, Z.shiftr_div_pow2 by lia.
    destruct (Z.leb_spec (2 ^ 31) r).
    - replace (r / 2 ^ 31) with 1 by dlia. done.
    - rewrite Z.div_small by lia. done. }
  destruct (Z.leb_spec (2 ^ 31) r).
  - assert (s32 r = Z.lnot (Z.ones 32 - r)) as ->.
    { unfold swrap. rewrite Z.ones_equiv. unfold Z.lnot. dlia. }
    rewrite Z.lnot_spec, Z.sub_nocarry_ldiff, Z.ldiff_spec, Z.testbit_ones_nonneg by
      (lia || (apply Z.bits_inj'; intros i Hi; rewrite Z.ldiff_spec, Z.bits_0,
        Z.testbit_ones_nonneg by lia; destruct (Z.ltb_spec i 32);
        [by rewrite andb_false_r|by rewrite in_u_testbit by (done || lia)])).
    destruct (Z.ltb_spec j 32).
    + cbn. rewrite negb_involutive. destruct (decide (j = 31)) as [->|]; [done|].
      by rewrite Z.min_l by lia.
    + rewrite Z.min_r by lia. rewrite H31. done.
  - rewrite swrap_small by (lia || (unfold in_s; change (2 ^ (32 - 1)) with (2 ^ 31); lia)).
    destruct (decide (j <= 31)); [by rewrite Z.min_l by lia|].
    rewrite Z.min_r, H31, in_u_testbit by (lia || done). done.
Qed.

Lemma b_shift_right r i :
  in_u 32 r -> 0 <= i < 2 ^ 31 -> b_shift r (- i) = Ok (r / 2 ^ i).
Proof.
  intros Hr Hi. unfold b_shift. destruct (Z.ltb_spec (- i) 0).
  - unfold int_neg. rewrite (proj2 (Z.eqb_neq _ _)) by lia. cbn [mbind res_bind].
    rewrite Z.opp_involutive, trim_small, Z.geb_leb by done. unfold LUA_NBITS.
    destruct (Z.leb_spec 32 i); f_equal; [|by rewrite Z.shiftr_div_pow2 by lia].
    symmetry. apply Z.div_small. unfold in_u in Hr.
    pose proof (Z.pow_le_mono_r 2 32 i ltac:(lia) ltac:(lia)). lia.
  - assert (i = 0) as -> by lia. change (- 0 >=? LUA_NBITS) with false.
    change (- 0) with 0. change (2 ^ 0) with 1.
    rewrite Z.div_1_r, Z.shiftl_0_r, (wrap_small 32 r), trim_small by done. done.
Qed.

(** [bit32.arshift] by a non-negative amount is the arithmetic shift of the
    word read as a signed 32-bit integer, whatever the amount. *)
Theorem b_arshift_signed (x i : Z) :
  0 <= i < 2 ^ 31 -> b_arshift x i = Ok (u32 (s32 (u32 x) ≫ i)).
Proof.
  intros Hi. unfold b_arshift, checkint, checkunsigned.
  rewrite (swrap_small 32 i) by (lia || clia).
  rewrite (proj2 (Z.ltb_ge i 0)) by lia. cbn [orb].
  assert (in_u 32 (u32 x)) as Hr by (apply wrap_range; lia).
  assert ((u32 x &&& u32 (1 ≪ (LUA_NBITS - 1)) =? 0) = negb (Z.testbit (u32 x) 31)) as ->.
  { change (u32 (1 ≪ (LUA_NBITS - 1))) with (2 ^ 31).
    destruct (Z.testbit (u32 x) 31) eqn:E; cbn [negb].
    - apply Z.eqb_neq. intros Hz. apply (f_equal (fun z => Z.testbit z 31)) in Hz.
      rewrite Z.land_spec, E, Z.bits_0 in Hz. done.
    - apply Z.eqb_eq, Z.bits_inj'. intros k Hk. rewrite Z.land_spec, Z.bits_0.
      destruct (decide (k = 31)) as [->|]; [by rewrite E|].
      rewrite Z.pow2_bits_false by lia. apply andb_false_r. }
  destruct (Z.testbit (u32 x) 31) eqn:E; cbn [negb].
  - rewrite Z.geb_leb. unfold LUA_NBITS. destruct (Z.leb_spec 32 i); f_equal.
    + rewrite ALLONES_ones. apply Z.bits_inj'. intros k Hk.
      rewrite u32_testbit, Z.testbit_ones_nonneg, Z.shiftr_spec, s32_testbit by lia.
      rewrite Z.min_r, E by lia. by rewrite andb_true_r.
    + rewrite trim_wrap. apply Z.bits_inj'. intros k Hk.
      rewrite !u32_testbit. destruct (Z.ltb_spec k 32); [|done]. cbn [andb].
      rewrite Z.lor_spec, !Z.shiftr_spec, s32_testbit by lia.
      rewrite (u32_testbit (Z.lnot _) k), Z.lnot_spec, Z.shiftr_spec by lia.
      rewrite (u32_testbit (Z.lnot 0)), Z.lnot_spec, Z.bits_0, (proj2 (Z.ltb_lt k 32)) by lia.
      cbn [andb negb]. rewrite andb_true_r. destruct (Z.ltb_spec (k + i) 32).
      * rewrite orb_false_r. destruct (decide (k + i = 31)) as [->|]; [done|].
        by rewrite Z.min_l by lia.
      * by rewrite Z.min_r, E, orb_true_r by lia.
  - unfold int_neg. rewrite (proj2 (Z.eqb_neq _ _)) by lia. cbn [mbind res_bind].
    rewrite b_shift_right by done. f_equal. rewrite <- Z.shiftr_div_pow2 by lia.
    apply Z.bits_inj'. intros k Hk.
    rewrite u32_testbit, !Z.shiftr_spec, s32_testbit by lia.
    destruct (Z.ltb_spec k 32).
    + destruct (decide (k + i <= 31)); [by rewrite Z.min_l by lia|].
      rewrite Z.min_r, E, in_u_testbit by (lia || done). done.
    + rewrite in_u_testbit by (lia || done). done.
Qed.

(** Example. *)
Lemma b_arshift_signed_witness : b_arshift 0xF0000000 4 = Ok (u32 (s32 (u32 0xF0000000) ≫ 4)).
Proof. apply (b_arshift_signed 0xF0000000 4). lia. Defined.
