(* ===== verification/FileSys.v ===== *)
(** * The in-memory file system ([src/src/luakernel.lua]: [open], [lseek],
      [sinsert], [read], [write])

    Lua tables are shared objects: a file descriptor table refers to its file
    ([fd.top]) and several descriptors can refer to one file.  Files are never
    removed, so a file is identified by its path; descriptor tables live in a
    store indexed by object number.  Lua numbers used as positions are integers
    here (they are exact up to 2^53). *)

From S2P Require Import Prelude LuaStr LuaBit LuaRef Terminal.

Record file := File {
  f_buf : bytes;
  f_device : bool;          (* the table has [read] and [write] functions *)
  f_fd : list nat;          (* the descriptors opened on it *)
}.

Record fdobj := Fd {
  fd_top : bytes;           (* the path of the file [fd.top] *)
  fd_pos : Z;
}.

Record luafs := Fs {
  files : gmap bytes file;  (* the table [fs] *)
  fds : list fdobj;         (* the descriptor tables created so far *)
  term : list bytes;        (* terminal_lines *)
}.

Definition O_CREAT : Z := 64.
Definition O_APPEND : Z := 1024.
Definition SEEK_SET : Z := 0.
Definition SEEK_CUR : Z := 1.
Definition SEEK_END : Z := 2.

(** Byte strings of the source. *)
Definition str_creat : bytes := [99; 114; 101; 97; 116].
Definition str_append : bytes := [97; 112; 112; 101; 110; 100].
Definition path_null : bytes := [47; 100; 101; 118; 47; 110; 117; 108; 108].
Definition path_urandom : bytes := [47; 100; 101; 118; 47; 117; 114; 97; 110; 100; 111; 109].

Definition fs_init : luafs :=
  Fs {[ path_null := File [] true []; path_urandom := File [] true [] ]} [] terminal_init.

Section FileSys.
(** The display size, for the terminal. *)
Context (W H : Z).

(** [print(s)]: the text and a newline reach the terminal. *)
Definition print (s : bytes) (st : luafs) : res luafs :=
  '(t, _) ← write_stdout W H (term st) (s ++ [newline]);
  Ok (Fs (files st) (fds st) t).

(** The second half of [open]: the new descriptor for an existing file.  The
    comparison of the [O_APPEND] bits is with [O_CREAT], as in the source. *)
Definition open_fd (pathname : bytes) (flags : Z) (st : luafs) : res (luafs * lval) :=
  match files st !! pathname with
  | None => Err LuaError
  | Some f =>
      '(st, pos) ←
        (if b_and [flags; O_APPEND] =? O_CREAT
         then st ← print str_append st; Ok (st, slen (f_buf f))
         else Ok (st, 1));
      let id := length (fds st) in
      Ok (Fs (<[pathname := File (f_buf f) (f_device f) (f_fd f ++ [id])]> (files st))
            (fds st ++ [Fd pathname pos]) (term st),
          VTable id)
  end.

Definition open (pathname : bytes) (flags mode : Z) (st : luafs) : res (luafs * lval) :=
  let creat := b_and [flags; O_CREAT] =? O_CREAT in
  match files st !! pathname with
  | Some _ => open_fd pathname flags st
  | None =>
      if negb creat then Ok (st, VNum (-1)) else
      st ← print str_creat st;
      open_fd pathname flags
        (Fs (<[pathname := File [] false []]> (files st)) (fds st) (term st))
  end.

(** Field access on a value that is not a descriptor table is a Lua error. *)
Definition get_fd (st : luafs) (v : lval) : res (nat * fdobj) :=
  match v with
  | VTable id => o ← of_option LuaError (fds st !! id); Ok (id, o)
  | _ => Err LuaError
  end.

Definition set_pos (id : nat) (o : fdobj) (pos : Z) (st : luafs) : luafs :=
  Fs (files st) (<[id := Fd (fd_top o) pos]> (fds st)) (term st).

Definition lseek (fd : lval) (offset whence : Z) (st : luafs) : res (luafs * Z) :=
  if whence =? SEEK_SET then
    '(id, o) ← get_fd st fd;
    Ok (set_pos id o (offset + 1) st, offset + 1)
  else if whence =? SEEK_CUR then
    '(id, o) ← get_fd st fd;
    Ok (set_pos id o (fd_pos o + offset) st, fd_pos o + offset)
  else if whence =? SEEK_END then Ok (st, -1)
  else Ok (st, -1).

Definition sinsert (str val : bytes) (pos : Z) : bytes :=
  let s1 := str_sub str 0 pos in
  let s2 := str_sub1 str (pos + 1) in
  s1 ++ val ++ s2.

Definition read (fd : lval) (count : Z) (st : luafs) : res (luafs * lval) :=
  '(id, o) ← get_fd st fd;
  f ← of_option LuaError (files st !! fd_top o);
  if f_device f then Ok (st, VNum count)
  else
    let buf := str_sub (f_buf f) (fd_pos o) (fd_pos o + count) in
    st ← print buf st;
    Ok (set_pos id o (fd_pos o + count) st, VStr buf).

(** [write]: number 1 is the terminal, anything else a descriptor. *)
Definition write (fd : lval) (buf : bytes) (st : luafs) : res (luafs * Z) :=
  if decide (fd = VNum 1) then
    '(t, n) ← write_stdout W H (term st) buf;
    Ok (Fs (files st) (fds st) t, n)
  else
    '(id, o) ← get_fd st fd;
    f ← of_option LuaError (files st !! fd_top o);
    let f' := File (sinsert (f_buf f) buf (fd_pos o)) (f_device f) (f_fd f) in
    let st := Fs (<[fd_top o := f']> (files st)) (fds st) (term st) in
    Ok (set_pos id o (fd_pos o + slen buf) st, slen buf).

(** ** Invariant: every descriptor refers to a file, the terminal is well
    formed *)
Definition fs_wf (st : luafs) : Prop :=
  Forall (fun o => is_Some (files st !! fd_top o)) (fds st) /\
  terminal_wf W H (term st).

Definition valid_fd (st : luafs) (v : lval) : Prop :=
  exists id, v = VTable id /\ (id < length (fds st))%nat.

Hypothesis width_pos : 0 < W.

Lemma print_spec s st :
  fs_wf st ->
  exists t, print s st = Ok (Fs (files st) (fds st) t) /\ terminal_wf W H t.
Proof.
  intros [_ Ht]. unfold print.
  destruct (write_stdout_spec W H width_pos (term st) (s ++ [newline]) Ht) as (t & -> & Ht' & _).
  by exists t.
Qed.

Lemma get_fd_valid st v :
  fs_wf st -> valid_fd st v ->
  exists id o f, v = VTable id /\ get_fd st v = Ok (id, o) /\ fds st !! id = Some o /\
    files st !! fd_top o = Some f.
Proof.
  intros [Hf _] (id & -> & Hid). destruct (lookup_lt_is_Some_2 (fds st) id Hid) as [o Ho].
  rewrite Forall_lookup in Hf. destruct (Hf _ _ Ho) as [f Hff].
  exists id, o, f. cbn. rewrite Ho. done.
Qed.

(** Growing the file table keeps descriptors valid. *)
Lemma Forall_fds_insert (m : gmap bytes file) (l : list fdobj) p f :
  Forall (fun o => is_Some (m !! fd_top o)) l ->
  Forall (fun o => is_Some (<[p := f]> m !! fd_top o)) l.
Proof.
  intros Hl. eapply Forall_impl; [exact Hl|]. intros o Ho. cbn in *.
  rewrite lookup_insert. by case_decide.
Qed.

Lemma set_pos_wf id o o' pos st :
  fds st !! id = Some o' -> fd_top o = fd_top o' -> fs_wf st -> fs_wf (set_pos id o pos st).
Proof.
  intros Ho Htop [Hf Ht]. split; [|done]. cbn. apply Forall_insert; [done|].
  rewrite Forall_lookup in Hf. cbn. rewrite Htop. by apply (Hf id).
Qed.

(** The bits of [O_APPEND] are never equal to [O_CREAT]. *)
Lemma append_never flags : (b_and [flags; O_APPEND] =? O_CREAT) = false.
Proof.
  apply Z.eqb_neq. intros Heq. apply (f_equal (fun z => Z.testbit z 6)) in Heq.
  unfold b_and, andaux in Heq. cbn [foldl] in Heq.
  rewrite trim_wrap, u32_testbit, !Z.land_spec in Heq.
  change (Z.testbit (checkunsigned O_APPEND) 6) with false in Heq.
  by rewrite andb_false_r in Heq.
Qed.

Lemma open_fd_spec pathname flags st f :
  fs_wf st -> files st !! pathname = Some f ->
  exists st', open_fd pathname flags st = Ok (st', VTable (length (fds st))) /\
    fs_wf st' /\ fds st' = fds st ++ [Fd pathname 1] /\ term st' = term st /\
    files st' = <[pathname := File (f_buf f) (f_device f) (f_fd f ++ [length (fds st)])]> (files st).
Proof.
  intros [Hf Ht] Hp. unfold open_fd. rewrite Hp, append_never. cbn.
  eexists. split; [done|]. cbn. split; [|done]. split; [|done]. cbn.
  apply Forall_app. split; [by apply Forall_fds_insert|].
  apply Forall_singleton. cbn. rewrite lookup_insert_eq. done.
Qed.

(** [open] of an existing file, of a file to create, and of a missing one. *)
Lemma open_spec pathname flags mode st :
  fs_wf st ->
  exists st' v, open pathname flags mode st = Ok (st', v) /\ fs_wf st' /\
    (forall id, valid_fd st id -> valid_fd st' id) /\
    (v = VNum (-1) /\ st' = st /\ files st !! pathname = None /\
       (b_and [flags; O_CREAT] =? O_CREAT) = false \/
     valid_fd st' v /\ fds st' = fds st ++ [Fd pathname 1] /\ v = VTable (length (fds st)) /\
     f_buf <$> files st' !! pathname =
       Some (default [] (f_buf <$> files st !! pathname)) /\
     f_device <$> files st' !! pathname =
       Some (default false (f_device <$> files st !! pathname)) /\
     forall p, p <> pathname -> files st' !! p = files st !! p).
Proof.
  intros Hwf. unfold open. destruct (files st !! pathname) as [f|] eqn:Hp.
  - destruct (open_fd_spec pathname flags st f Hwf Hp) as (st' & -> & Hwf' & Hfds & _ & Hfiles).
    exists st', (VTable (length (fds st))). split; [done|]. split; [done|]. split.
    { intros v (id & -> & Hid). exists id. split; [done|]. rewrite Hfds, length_app. lia. }
    right. split; [exists (length (fds st)); rewrite Hfds, length_app; cbn; split; [done|lia]|].
    rewrite Hfiles, lookup_insert_eq. split_and!; try done.
    intros p Hne. by rewrite lookup_insert_ne.
  - destruct (negb _) eqn:Hc.
    { exists st, (VNum (-1)). split; [done|]. split; [done|]. split; [done|].
      apply negb_true_iff in Hc. by left. }
    destruct (print_spec str_creat st Hwf) as (t & -> & Ht). cbn [mbind res_bind].
    set (st1 := Fs (<[pathname := File [] false []]> (files st)) (fds st) t).
    assert (fs_wf st1) as Hwf1.
    { split; [|done]. cbn. by apply Forall_fds_insert, Hwf. }
    destruct (open_fd_spec pathname flags st1 (File [] false [])) as (st' & Ho & Hwf' & Hfds & _ & Hfiles);
      [done|apply lookup_insert_eq|].
    exists st', (VTable (length (fds st))). split; [exact Ho|]. split; [done|]. split.
    { intros v (id & -> & Hid). exists id. split; [done|]. rewrite Hfds, length_app. cbn. lia. }
    right. split; [exists (length (fds st)); rewrite Hfds, length_app; cbn; split; [done|lia]|].
    rewrite Hfiles. cbn. rewrite lookup_insert_eq. split_and!; try done.
    intros p Hne. by rewrite !lookup_insert_ne.
Qed.

Lemma sinsert_spec str val pos :
  str_ok str -> 0 <= pos < 2 ^ 53 ->
  sinsert str val pos = take (Z.to_nat pos) str ++ val ++ drop (Z.to_nat pos) str.
Proof.
  intros Hs Hp. unfold sinsert.
  rewrite str_sub_prefix, str_sub_suffix by (done || lia || clia). done.
Qed.

(** [write] on a descriptor inserts after the first [pos] bytes. *)
Lemma write_fd_spec v id o f buf st :
  fs_wf st -> v = VTable id -> fds st !! id = Some o -> files st !! fd_top o = Some f ->
  str_ok (f_buf f) -> 0 <= fd_pos o < 2 ^ 53 ->
  let b := take (Z.to_nat (fd_pos o)) (f_buf f) ++ buf ++ drop (Z.to_nat (fd_pos o)) (f_buf f) in
  exists st', write v buf st = Ok (st', slen buf) /\ fs_wf st' /\
    files st' = <[fd_top o := File b (f_device f) (f_fd f)]> (files st) /\
    fds st' = <[id := Fd (fd_top o) (fd_pos o + slen buf)]> (fds st).
Proof.
  intros Hwf -> Ho Hf Hs Hp. cbn zeta. unfold write. rewrite decide_False by done.
  cbn [get_fd]. rewrite Ho. cbn. rewrite Hf. cbn. rewrite sinsert_spec by done.
  eexists. split; [done|]. split; [|done].
  eapply set_pos_wf; [exact Ho|done|]. destruct Hwf as [H1 H2]. split; [|done].
  cbn. by apply Forall_fds_insert.
Qed.

(** [read] on a regular file: the bytes from [pos] to [pos + count], both
    included. *)
Lemma read_fd_spec id o f count st :
  fs_wf st -> fds st !! id = Some o -> files st !! fd_top o = Some f ->
  f_device f = false ->
  exists st', read (VTable id) count st =
      Ok (st', VStr (str_sub (f_buf f) (fd_pos o) (fd_pos o + count))) /\
    fs_wf st' /\ files st' = files st /\
    fds st' = <[id := Fd (fd_top o) (fd_pos o + count)]> (fds st).
Proof.
  intros Hwf Ho Hf Hd. unfold read. cbn [get_fd]. rewrite Ho. cbn. rewrite Hf. cbn.
  rewrite Hd. destruct (print_spec (str_sub (f_buf f) (fd_pos o) (fd_pos o + count)) st Hwf)
    as (t & -> & Ht). cbn. eexists. split; [done|]. split; [|done].
  eapply set_pos_wf; [exact Ho|done|]. destruct Hwf as [H1 _]. by split.
Qed.

(** Every Lua file operation keeps the invariant and the number of
    descriptors. *)
Lemma write_wf v buf st st' n :
  fs_wf st -> write v buf st = Ok (st', n) ->
  fs_wf st' /\ length (fds st') = length (fds st).
Proof.
  intros Hwf. unfold write. case_decide.
  - destruct (write_stdout_spec W H width_pos (term st) buf) as (t & -> & Ht & _); [apply Hwf|].
    cbn. intros [= <- <-]. destruct Hwf. done.
  - destruct v as [|z|s|id|id]; try done. cbn [get_fd].
    destruct (fds st !! id) as [o|] eqn:Ho; [|done]. cbn.
    destruct (files st !! fd_top o) as [f|] eqn:Hf; [|done]. cbn. intros [= <- <-]. split.
    + eapply set_pos_wf; [exact Ho|done|]. destruct Hwf as [H1 H2]. split; [|done].
      cbn. by apply Forall_fds_insert.
    + cbn. apply length_insert.
Qed.

Lemma read_wf v count st st' r :
  fs_wf st -> read v count st = Ok (st', r) ->
  fs_wf st' /\ length (fds st') = length (fds st).
Proof.
  intros Hwf. unfold read. destruct v as [|z|s|id|id]; try done. cbn [get_fd].
  destruct (fds st !! id) as [o|] eqn:Ho; [|done]. cbn.
  destruct (files st !! fd_top o) as [f|] eqn:Hf; [|done]. cbn.
  destruct (f_device f) eqn:Hd; [by intros [= <- <-]|].
  edestruct print_spec as (t & -> & Ht); [done|]. cbn. intros [= <- <-]. split.
  - eapply set_pos_wf; [exact Ho|done|]. destruct Hwf. done.
  - cbn. apply length_insert.
Qed.

Lemma lseek_wf v off wh st st' r :
  fs_wf st -> lseek v off wh st = Ok (st', r) ->
  fs_wf st' /\ length (fds st') = length (fds st).
Proof.
  intros Hwf. unfold lseek, get_fd.
  destruct v as [|z|s|id|id]; cbn; try destruct (fds st !! id) as [o|] eqn:Ho; cbn;
    repeat case_match; intros [= <- <-]; try done;
    (split; [eapply set_pos_wf; [exact Ho|done|done]|cbn; apply length_insert]).
Qed.
End FileSys.

Lemma fs_init_wf W H : 0 < W -> fs_wf W H fs_init.
Proof. intros HW. split; [constructor|]. by apply terminal_init_wf. Qed.
