(* ===== verification/Syscall.v ===== *)
(** * System calls ([src/src/luakernel.c]: [handle_syscall])

    musl is built to call [__syscall], which dispatches on the call number to
    the kernel's Lua functions; an open file is a Lua value kept in the registry
    with [luaL_ref], and the reference is the file descriptor.  The registry is
    any implementation of [RawTable].  The caller's memory is a record of the
    accesses the code makes through its pointer arguments. *)

From S2P Require Import Prelude LuaStr LuaBit LuaRef Terminal FileSys.

(** Call numbers of x86-64 Linux. *)
Definition SYS_read : Z := 0.
Definition SYS_write : Z := 1.
Definition SYS_open : Z := 2.
Definition SYS_close : Z := 3.
Definition SYS_lseek : Z := 8.
Definition SYS_brk : Z := 12.
Definition SYS_ioctl : Z := 16.
Definition SYS_writev : Z := 20.
Definition SYS_getpid : Z := 39.
Definition SYS_fcntl : Z := 72.
Definition SYS_fsync : Z := 74.
Definition SYS_chown : Z := 92.
Definition SYS_gettimeofday : Z := 96.
Definition SYS_clock_gettime : Z := 228.

(** What the handler reads of the caller's memory: the C string at an address,
    [n] bytes at an address, the size of the object at an address, and the
    [i]-th [struct iovec] (base, length) of an array. *)
Record umem := Umem {
  um_cstr : Z -> bytes;
  um_bytes : Z -> Z -> bytes;
  um_size : Z -> Z;
  um_iov : Z -> Z -> Z * Z;
}.

Section Syscall.
Context {T : Type} {RT : RawTable T}.
(** The display size, and the conversion of a number to a string that
    [lua_tolstring] makes with the C library's [printf]. *)
Context (W H : Z) (number2str : Z -> bytes).

Record kstate := Kstate {
  k_fs : luafs;
  k_reg : T;              (* the Lua registry *)
  k_traps : nat;
}.

(** The new state, the return value and the stores to the caller's memory. *)
Definition sysret : Type := kstate * Z * list (Z * bytes).

(** The Lua value a descriptor stands for; [number] is the one descriptor
    that is passed as a number. *)
Definition fd_value (k : kstate) (number fd : Z) : lval :=
  if fd =? number then VNum fd else rawgeti (k_reg k) fd.

Definition sys_open (k : kstate) (pathname : bytes) (flags mode : Z) : res sysret :=
  '(fs, v) ← open W H pathname flags mode (k_fs k);
  let '(reg, ref) := luaL_ref (k_reg k) v in
  Ok (Kstate fs reg (k_traps k), ref, []).

(** The result of the Lua function converted to [int]. *)
Definition to_int (z : Z) : res Z := if decide (in_s 32 z) then Ok z else Err Undefined.

Definition sys_lseek (k : kstate) (fd offset whence : Z) : res sysret :=
  '(fs, pos) ← lseek (rawgeti (k_reg k) fd) offset whence (k_fs k);
  retn ← to_int pos;
  Ok (Kstate fs (k_reg k) (k_traps k), retn, []).

(** [lua_tolstring] on the result of the Lua [read]. *)
Definition tolstring (v : lval) : bytes :=
  match v with VStr s => s | VNum z => number2str z | _ => [] end.

(** [memcpy(buf, resbuf, len)] with the length the Lua code returned. *)
Definition sys_read (k : kstate) (m : umem) (fd buf count : Z) : res sysret :=
  '(fs, v) ← read W H (fd_value k 0 fd) count (k_fs k);
  let s := tolstring v in
  if slen s <=? um_size m buf
  then Ok (Kstate fs (k_reg k) (k_traps k), slen s, [(buf, s)])
  else Err Undefined.

Definition sys_write (k : kstate) (m : umem) (fd buf count : Z) : res sysret :=
  '(fs, n) ← write W H (fd_value k 1 fd) (um_bytes m buf count) (k_fs k);
  len ← to_int n;
  Ok (Kstate fs (k_reg k) (k_traps k), len, []).

(** The loop of [SYS_writev]; each [write] comes back as a [SYS_write]. *)
Fixpoint writev_loop (n : nat) (k : kstate) (m : umem) (fd iov i total : Z) : res sysret :=
  match n with
  | O => Ok (k, total, [])
  | S n' =>
      let '(base, len) := um_iov m iov i in
      '(k, r, _) ← sys_write k m fd base len;
      writev_loop n' k m fd iov (i + 1) (total + r)
  end.

(** A zeroed [struct timespec] or [struct timeval]. *)
Definition zero16 : bytes := replicate 16 0.

Definition handle_syscall (n a1 a2 a3 : Z) (m : umem) (k : kstate) : res sysret :=
  if n =? SYS_brk then Ok (k, 0, [])
  else if n =? SYS_open then sys_open k (um_cstr m a1) (s32 a2) (s32 a3)
  else if n =? SYS_close then Ok (k, 0, [])
  else if n =? SYS_lseek then sys_lseek k (s32 a1) a2 (s32 a3)
  else if n =? SYS_read then sys_read k m (s32 a1) a2 (u64 a3)
  else if n =? SYS_write then sys_write k m (s32 a1) a2 (u64 a3)
  else if n =? SYS_writev then writev_loop (Z.to_nat (s32 a3)) k m (s32 a1) a2 0 0
  else if n =? SYS_ioctl then Ok (k, 0, [])
  else if n =? SYS_getpid then Ok (k, 0, [])
  else if n =? SYS_fsync then Ok (k, 0, [])
  else if n =? SYS_chown then Ok (k, 0, [])
  else if n =? SYS_clock_gettime then Ok (k, 0, [(a2, zero16)])
  else if n =? SYS_gettimeofday then Ok (k, 0, [(a1, zero16)])
  else if n =? SYS_fcntl then Ok (k, 0, [])
  else Ok (Kstate (k_fs k) (k_reg k) (S (k_traps k)), -1, []).

(** ** Invariant

    The file system is well formed, and every registry slot above the two
    reserved ones holds a descriptor table that exists, a boxed [-1], a free
    list link or nothing. *)
Definition slot_ok (fs : luafs) (v : lval) : Prop :=
  match v with
  | VTable id => (id < length (fds fs))%nat
  | VOther _ | VStr _ => False
  | _ => True
  end.

Record k_inv (k : kstate) (n : Z) : Prop := {
  ki_fs : fs_wf W H (k_fs k);
  ki_reg : ref_inv (k_reg k) n [];
  ki_n : 2 <= n;
  ki_slots : forall ref, 3 <= ref -> slot_ok (k_fs k) (rawgeti (k_reg k) ref);
}.

Context {L : RawTableLaws T}.
Hypothesis width_pos : 0 < W.

Lemma slot_ok_grow fs fs' v :
  (length (fds fs) <= length (fds fs'))%nat -> slot_ok fs v -> slot_ok fs' v.
Proof. intros Hl. destruct v; cbn; (done || lia). Qed.

Lemma open_value_not_nil path flags mode fs fs' v :
  open W H path flags mode fs = Ok (fs', v) -> fs_wf W H fs -> v <> VNil /\ slot_ok fs' v /\
  (length (fds fs) <= length (fds fs'))%nat.
Proof.
  intros Ho Hwf. destruct (open_spec W H width_pos path flags mode fs Hwf)
    as (fs1 & v1 & Ho' & _ & Hmono & Hv). rewrite Ho in Ho'. injection Ho' as <- <-.
  destruct Hv as [(-> & -> & _)|((id & -> & Hid) & Hfds & _)].
  - done.
  - split; [done|]. split; [exact Hid|]. rewrite Hfds, length_app. lia.
Qed.

(** [SYS_open] always returns the next descriptor. *)
Lemma sys_open_spec k n path flags mode :
  k_inv k n -> n + 1 < 2 ^ 31 - 1 ->
  exists fs' v k', open W H path flags mode (k_fs k) = Ok (fs', v) /\
    sys_open k path flags mode = Ok (k', n + 1, []) /\
    k_inv k' (n + 1) /\ k_fs k' = fs' /\
    rawgeti (k_reg k') (n + 1) = v /\
    forall j, 1 <= j -> j <> n + 1 -> rawgeti (k_reg k') j = rawgeti (k_reg k) j.
Proof using L width_pos.
  intros [Hfs Hreg Hn Hsl] Hmax.
  destruct (open_spec W H width_pos path flags mode (k_fs k) Hfs)
    as (fs' & v & Ho & Hfs' & _ & _).
  destruct (open_value_not_nil _ _ _ _ _ _ Ho Hfs) as (Hv & Hvok & Hlen).
  pose proof (luaL_ref_spec (k_reg k) n [] v Hreg Hv Hmax) as Href.
  unfold sys_open. rewrite Ho. cbn [mbind res_bind].
  destruct (luaL_ref (k_reg k) v) as [reg ref].
  destruct Href as (n' & fr' & Hinv' & _ & _ & _ & Hval & Hoth & Hn' & Hnew & Hsub & _).
  rewrite (Hnew eq_refl) in *.
  assert (fr' = []) as ->.
  { destruct fr' as [|g fr']; [done|]. exfalso. specialize (Hsub g). clear -Hsub. set_solver. }
  assert (n' = n + 1) as ->.
  { destruct Hinv' as [_ _ _ _ _ Ha].
    destruct (decide (n' = n)) as [->|]; [|lia].
    exfalso. apply Hv. rewrite <- Hval. apply Ha. lia. }
  exists fs', v, (Kstate fs' reg (k_traps k)). split; [done|]. split; [done|].
  split; [|done]. split; cbn; [done|done|lia|].
  intros j Hj. destruct (decide (j = n + 1)) as [->|].
  - by rewrite Hval.
  - rewrite Hoth by lia. eapply slot_ok_grow; [exact Hlen|]. by apply Hsl.
Qed.

(** Opening a file that exists or is created gives a descriptor positioned at
    its first byte. *)
Lemma sys_open_fd k n path flags mode :
  k_inv k n -> n + 1 < 2 ^ 31 - 1 ->
  is_Some (files (k_fs k) !! path) \/ (b_and [flags; O_CREAT] =? O_CREAT) = true ->
  exists k' id l, sys_open k path flags mode = Ok (k', n + 1, []) /\ k_inv k' (n + 1) /\
    rawgeti (k_reg k') (n + 1) = VTable id /\
    fds (k_fs k') !! id = Some (Fd path 1) /\
    files (k_fs k') !! path =
      Some (File (default [] (f_buf <$> files (k_fs k) !! path))
                 (default false (f_device <$> files (k_fs k) !! path)) l).
Proof using L width_pos.
  intros Hk Hmax Hex.
  destruct (sys_open_spec k n path flags mode Hk Hmax)
    as (fs & v & k' & Ho & -> & Hk' & Hfs & Hv & _).
  destruct (open_spec W H width_pos path flags mode (k_fs k) (ki_fs _ _ Hk))
    as (fs' & v' & Ho' & _ & _ & Hcase). rewrite Ho in Ho'. injection Ho' as <- <-.
  destruct Hcase as [(_ & _ & Hno & Hc)|(_ & Hfds & Hvt & Hb & Hd & _)].
  { rewrite Hno, Hc in Hex. by destruct Hex as [[? ?]|?]. }
  destruct (files fs !! path) as [[b d l]|] eqn:Hf; [|done].
  cbn in Hb, Hd. injection Hb as ->. injection Hd as ->.
  exists k', (length (fds (k_fs k))), l. rewrite Hv, Hfs, Hfds, Hf.
  rewrite lookup_app_r, Nat.sub_diag by lia. done.
Qed.

(** A [read] of at least the whole file, from its start, into a buffer that
    can hold it. *)
Lemma sys_read_all k n m fd buf count id path data l :
  k_inv k n -> fd <> 0 -> rawgeti (k_reg k) fd = VTable id ->
  fds (k_fs k) !! id = Some (Fd path 1) ->
  files (k_fs k) !! path = Some (File data false l) ->
  slen data < 2 ^ 31 -> slen data <= count < 2 ^ 53 - 1 -> slen data <= um_size m buf ->
  exists k', sys_read k m fd buf count = Ok (k', slen data, [(buf, data)]).
Proof using width_pos.
  intros Hk Hfd Hreg Ho Hf Hsz Hc Hb. assert (0 <= slen data) by (unfold slen; lia).
  destruct (read_fd_spec W H width_pos id (Fd path 1) (File data false l) count (k_fs k)
    (ki_fs _ _ Hk) Ho Hf eq_refl) as (fs' & Hr & _).
  unfold sys_read, fd_value. rewrite (proj2 (Z.eqb_neq fd 0) Hfd), Hreg, Hr.
  cbn [mbind res_bind tolstring fd_pos f_buf].
  rewrite (str_sub_all data (1 + count)) by (clia || (unfold str_ok; clia)).
  rewrite (proj2 (Z.leb_le _ _) Hb). by eexists.
Qed.

(** A step that keeps the registry and the descriptors keeps the invariant. *)
Lemma k_inv_step k n fs' :
  k_inv k n -> fs_wf W H fs' -> length (fds fs') = length (fds (k_fs k)) ->
  k_inv (Kstate fs' (k_reg k) (k_traps k)) n.
Proof.
  intros [Hfs Hreg Hn Hsl] Hwf Hlen. split; cbn; [done|done|done|].
  intros ref Href. apply (slot_ok_grow (k_fs k)); [lia|by apply Hsl].
Qed.

Lemma sys_write_inv k n m fd buf count k' r ws :
  k_inv k n -> sys_write k m fd buf count = Ok (k', r, ws) -> k_inv k' n.
Proof.
  intros Hk. unfold sys_write.
  destruct (write W H (fd_value k 1 fd) (um_bytes m buf count) (k_fs k)) as [[fs c]|] eqn:E;
    [|done]. cbn. unfold to_int. case_decide; [|done]. cbn. intros [= <- <- <-].
  destruct (write_wf W H width_pos _ _ _ _ _ (ki_fs _ _ Hk) E) as [Hwf Hlen].
  by apply k_inv_step.
Qed.

Lemma writev_loop_inv c k n m fd iov i total k' r ws :
  k_inv k n -> writev_loop c k m fd iov i total = Ok (k', r, ws) -> k_inv k' n.
Proof.
  revert k i total. induction c as [|c IH]; intros k i total Hk; cbn.
  { by intros [= <- <- <-]. }
  destruct (um_iov m iov i) as [base len].
  destruct (sys_write k m fd base len) as [[[k1 r1] w1]|] eqn:E; [|done]. cbn.
  apply IH. by eapply sys_write_inv.
Qed.

(** One [SYS_write] on a descriptor positioned after everything written to a
    file so far appends to it. *)
Lemma sys_write_append k n m fd buf count id path c l :
  k_inv k n -> fd <> 1 -> rawgeti (k_reg k) fd = VTable id ->
  fds (k_fs k) !! id = Some (Fd path (1 + slen c)) ->
  files (k_fs k) !! path = Some (File c false l) ->
  slen (c ++ um_bytes m buf count) < 2 ^ 31 ->
  let data := um_bytes m buf count in
  exists k', sys_write k m fd buf count = Ok (k', slen data, []) /\ k_inv k' n /\
    k_reg k' = k_reg k /\
    fds (k_fs k') !! id = Some (Fd path (1 + slen (c ++ data))) /\
    files (k_fs k') !! path = Some (File (c ++ data) false l).
Proof.
  intros Hk Hfd Hreg Ho Hf Hsz data.
  assert (slen (c ++ data) = slen c + slen data) as Hsl
    by (unfold slen; rewrite length_app; lia).
  fold data in Hsz. rewrite Hsl in Hsz.
  assert (0 <= slen c /\ 0 <= slen data) by (unfold slen; lia).
  destruct (write_fd_spec W H (VTable id) id (Fd path (1 + slen c)) (File c false l) data
    (k_fs k) (ki_fs _ _ Hk) eq_refl Ho Hf) as (fs' & Hw & Hwf & Hfiles & Hfds).
  { unfold str_ok. cbn. lia. }
  { cbn. lia. }
  cbn [fd_top fd_pos f_buf f_device f_fd] in *.
  assert (Z.to_nat (1 + slen c) = S (length c)) as Hpos by (unfold slen; lia).
  rewrite Hpos, take_ge, drop_ge, app_nil_r in Hfiles by lia.
  unfold sys_write, fd_value. rewrite (proj2 (Z.eqb_neq fd 1) Hfd), Hreg.
  fold data. rewrite Hw. cbn [mbind res_bind]. unfold to_int.
  rewrite decide_True by clia. cbn [mbind res_bind].
  eexists. split; [done|]. split; [|split; [done|]].
  - apply k_inv_step; [done|done|]. rewrite Hfds. apply length_insert.
  - cbn. rewrite Hfds, Hfiles, lookup_insert_eq, list_lookup_insert_eq
      by (by eapply lookup_lt_Some). rewrite Hsl. split; [|done]. do 2 f_equal. lia.
Qed.

(** The data of the [iovec] array from index [i]. *)
Definition iov_data (m : umem) (iov i : Z) (n : nat) : bytes :=
  seqZ i (Z.of_nat n) ≫= fun j => um_bytes m (um_iov m iov j).1 (um_iov m iov j).2.

Lemma iov_data_S m iov i n :
  iov_data m iov i (S n) =
  um_bytes m (um_iov m iov i).1 (um_iov m iov i).2 ++ iov_data m iov (i + 1) n.
Proof.
  unfold iov_data. rewrite Nat2Z.inj_succ, seqZ_cons by lia.
  cbn [mbind list_bind]. do 3 f_equal; lia.
Qed.

Lemma writev_append cnt : forall k n m fd iov i total id path c l,
  k_inv k n -> fd <> 1 -> rawgeti (k_reg k) fd = VTable id ->
  fds (k_fs k) !! id = Some (Fd path (1 + slen c)) ->
  files (k_fs k) !! path = Some (File c false l) ->
  slen (c ++ iov_data m iov i cnt) < 2 ^ 31 ->
  let data := iov_data m iov i cnt in
  exists k', writev_loop cnt k m fd iov i total = Ok (k', total + slen data, []) /\
    k_inv k' n /\ k_reg k' = k_reg k /\
    files (k_fs k') !! path = Some (File (c ++ data) false l).
Proof.
  induction cnt as [|cnt IH]; intros k n m fd iov i total id path c l Hk Hfd Hreg Ho Hf Hsz; cbn zeta.
  - exists k. cbn. rewrite app_nil_r, Z.add_0_r. done.
  - rewrite iov_data_S in *. set (d1 := um_bytes m _ _) in *. set (d2 := iov_data _ _ _ _) in *.
    cbn [writev_loop]. destruct (um_iov m iov i) as [base len] eqn:Ei. cbn [fst snd] in *.
    destruct (sys_write_append k n m fd base len id path c l Hk Hfd Hreg Ho Hf) as
      (k1 & -> & Hk1 & Hr1 & Ho1 & Hf1).
    { unfold slen in *. rewrite !length_app in *. fold d1. lia. }
    cbn [mbind res_bind]. fold d1 in Ho1, Hf1 |- *.
    destruct (IH k1 n m fd iov (i + 1) (total + slen d1) id path (c ++ d1) l Hk1 Hfd)
      as (k2 & Hw & Hk2 & Hr2 & Hf2); [by rewrite Hr1|done|done|by rewrite <- app_assoc|].
    fold d2 in Hw, Hf2. rewrite Hw. exists k2. split.
    { do 3 f_equal. unfold slen. rewrite length_app. lia. }
    split; [done|]. split; [congruence|]. by rewrite app_assoc.
Qed.
End Syscall.

Arguments kstate T : clear implicits.

(** ** Theorems *)

Section Theorems.
Context {T : Type} {RT : RawTable T} {L : RawTableLaws T}.
Context (W H : Z) (number2str : Z -> bytes).
Hypothesis width_pos : 0 < W.

Abbreviation syscall := (handle_syscall W H number2str).

Lemma syscall_open a1 a2 a3 m (k : kstate T) :
  syscall SYS_open a1 a2 a3 m k = sys_open W H k (um_cstr m a1) (s32 a2) (s32 a3).
Proof. done. Qed.

Lemma syscall_writev a1 a2 a3 m (k : kstate T) :
  syscall SYS_writev a1 a2 a3 m k =
  writev_loop W H (Z.to_nat (s32 a3)) k m (s32 a1) a2 0 0.
Proof. done. Qed.

Lemma syscall_read a1 a2 a3 m (k : kstate T) :
  syscall SYS_read a1 a2 a3 m k = sys_read W H number2str k m (s32 a1) a2 (u64 a3).
Proof. done. Qed.

(** The invariant is kept whatever the call. *)
Lemma syscall_inv n a1 a2 a3 m (k k' : kstate T) r ws top :
  k_inv W H k top -> top + 1 < 2 ^ 31 - 1 ->
  syscall n a1 a2 a3 m k = Ok (k', r, ws) ->
  exists top', k_inv W H k' top' /\ top <= top' <= top + 1.
Proof.
  intros Hk Hmax. unfold handle_syscall.
  repeat match goal with
  | |- (if ?b then _ else _) = _ -> _ => destruct b
  end; try (intros [= <- <- <-]; exists top; split; [done|lia]).
  - destruct (sys_open_spec W H width_pos k top (um_cstr m a1) (s32 a2) (s32 a3) Hk Hmax)
      as (fs' & v & k1 & _ & -> & Hk1 & _). intros [= <- <- <-].
    exists (top + 1). split; [done|lia].
  - unfold sys_lseek. destruct (lseek _ _ _ _) as [[fs p]|] eqn:E; [|done]. cbn.
    unfold to_int. case_decide; [|done]. cbn. intros [= <- <- <-].
    destruct (lseek_wf W H _ _ _ _ _ _ (ki_fs _ _ _ _ Hk) E) as [Hwf Hlen].
    exists top. split; [by apply k_inv_step|lia].
  - unfold sys_read. destruct (read _ _ _ _ _) as [[fs v]|] eqn:E; [|done]. cbn.
    case_match; [|done]. intros [= <- <- <-].
    destruct (read_wf W H width_pos _ _ _ _ _ (ki_fs _ _ _ _ Hk) E) as [Hwf Hlen].
    exists top. split; [by apply k_inv_step|lia].
  - intros Hw. exists top. split; [|lia]. by eapply sys_write_inv.
  - intros Hw. exists top. split; [|lia]. by eapply writev_loop_inv.
  - intros [= <- <- <-]. exists top. split; [|lia]. destruct Hk as [H1 H2 H3 H4].
    by split.
Qed.
End Theorems.

(** A caller's memory for the examples: the path "a" at 1, the bytes "hi" and
    "!" at 2 and 3, and an array of two [iovec]s at 4. *)
Definition ex_mem : umem :=
  Umem (fun a => if a =? 1 then [97] else [])
       (fun a n => if a =? 2 then [104; 105] else if a =? 3 then [33] else [])
       (fun a => 64)
       (fun a i => if i =? 0 then (2, 2) else (3, 1)).

Definition ex_state : kstate (gmap Z lval) := Kstate fs_init registry_init 0.

Lemma ex_state_inv W H : 0 < W -> k_inv W H ex_state 2.
Proof.
  intros HW. split; [by apply fs_init_wf|exact registry_init_inv|lia|].
  intros ref Href. change (k_reg ex_state) with registry_init.
  rewrite (ri_above _ _ _ registry_init_inv ref) by lia. done.
Qed.

(** C12. Every system call keeps the kernel invariant: descriptors refer to
    existing files, the registry's free list is intact, the terminal is well
    formed, and no slot is lost. *)
Theorem syscall_preserves_invariant (T : Type) (RT : RawTable T) (L : RawTableLaws T)
    (W H : Z) (number2str : Z -> bytes) (n a1 a2 a3 : Z) (m : umem)
    (k k' : kstate T) (r : Z) (ws : list (Z * bytes)) (top : Z) :
  0 < W -> k_inv W H k top -> top + 1 < 2 ^ 31 - 1 ->
  handle_syscall W H number2str n a1 a2 a3 m k = Ok (k', r, ws) ->
  exists top', k_inv W H k' top' /\ top <= top' <= top + 1.
Proof. intros HW. by apply syscall_inv. Qed.

(** Witness of C12: writing "hi" to the terminal. *)
Lemma syscall_preserves_invariant_witness :
  exists k', handle_syscall 800 600 (fun _ => []) SYS_write 1 2 2 ex_mem ex_state = Ok (k', 2, []) /\
  exists top', k_inv 800 600 k' top' /\ 2 <= top' <= 2 + 1.
Proof.
  eexists. split; [vm_compute; reflexivity|].
  apply (syscall_preserves_invariant (gmap Z lval) map_table map_table_laws 800 600 (fun _ => [])
    SYS_write 1 2 2 ex_mem ex_state _ 2 [] 2);
    [lia|apply ex_state_inv; lia|lia|vm_compute; reflexivity].
Defined.

(** C8. What is written can be read back: after creating a file, writing any
    array of buffers to it with [writev], and opening it again, a [read] of at
    least the total length into a large enough buffer returns exactly the
    concatenated data. *)
Theorem create_writev_read (T : Type) (RT : RawTable T) (L : RawTableLaws T)
    (W H : Z) (number2str : Z -> bytes) (m : umem) (k : kstate T) (top : Z)
    (path iov cnt buf count mode : Z) :
  0 < W -> k_inv W H k top -> top + 2 < 2 ^ 31 - 1 ->
  files (k_fs k) !! um_cstr m path = None ->
  0 <= cnt < 2 ^ 31 ->
  let data := iov_data m iov 0 (Z.to_nat cnt) in
  slen data < 2 ^ 31 -> slen data <= count < 2 ^ 53 - 1 -> slen data <= um_size m buf ->
  exists k1 k2 k3 k4,
    handle_syscall W H number2str SYS_open path O_CREAT mode m k = Ok (k1, top + 1, []) /\
    handle_syscall W H number2str SYS_writev (top + 1) iov cnt m k1 = Ok (k2, slen data, []) /\
    handle_syscall W H number2str SYS_open path 0 mode m k2 = Ok (k3, top + 2, []) /\
    handle_syscall W H number2str SYS_read (top + 2) buf count m k3 =
      Ok (k4, slen data, [(buf, data)]).
Proof.
  intros HW Hk Hmax Hnew Hcnt data Hsz Hcount Hbuf.
  pose proof (ki_n _ _ _ _ Hk) as Htop. assert (0 <= slen data) by (unfold slen; lia).
  set (p := um_cstr m path) in *. rewrite !syscall_open. fold p.
  destruct (sys_open_fd W H HW k top p (s32 O_CREAT) (s32 mode) Hk ltac:(lia))
    as (k1 & id1 & l1 & -> & Hk1 & Hv1 & Ho1 & Hf1); [by right|].
  rewrite Hnew in Hf1. cbn in Hf1.
  destruct (writev_append W H (Z.to_nat cnt) k1 (top + 1) m (top + 1) iov 0 0 id1 p [] l1
    Hk1 ltac:(lia) Hv1 Ho1 Hf1 Hsz) as (k2 & Hw & Hk2 & Hr2 & Hf2).
  fold data in Hw, Hf2. cbn [app] in Hf2. rewrite Z.add_0_l in Hw.
  exists k1, k2.
  destruct (sys_open_fd W H HW k2 (top + 1) p (s32 0) (s32 mode) Hk2 ltac:(lia))
    as (k3 & id3 & l3 & Hs3 & Hk3 & Hv3 & Ho3 & Hf3); [rewrite Hf2; left; by eexists|].
  replace (top + 1 + 1) with (top + 2) in * by lia. rewrite Hf2 in Hf3. cbn in Hf3.
  destruct (sys_read_all W H number2str HW k3 _ m (top + 2) buf count id3 p data l3 Hk3
    ltac:(lia) Hv3 Ho3 Hf3 Hsz Hcount Hbuf) as (k4 & Hr4).
  exists k3, k4. split; [done|]. rewrite syscall_writev, syscall_read.
  rewrite !swrap_small, wrap_small by (lia || clia). done.
Qed.

(** Witness of C8: two buffers, "hi" and "!". *)
Lemma create_writev_read_witness :
  exists k1 k2 k3 k4,
    handle_syscall 800 600 (fun _ => []) SYS_open 1 O_CREAT 0 ex_mem ex_state = Ok (k1, 2 + 1, []) /\
    handle_syscall 800 600 (fun _ => []) SYS_writev (2 + 1) 4 2 ex_mem k1 = Ok (k2, 3, []) /\
    handle_syscall 800 600 (fun _ => []) SYS_open 1 0 0 ex_mem k2 = Ok (k3, 2 + 2, []) /\
    handle_syscall 800 600 (fun _ => []) SYS_read (2 + 2) 9 10 ex_mem k3 =
      Ok (k4, 3, [(9, [104; 105; 33])]).
Proof.
  apply (create_writev_read (gmap Z lval) map_table map_table_laws 800 600 (fun _ => [])
    ex_mem ex_state 2 1 4 2 9 10 0);
    first [lia | apply ex_state_inv; lia | reflexivity | vm_compute; split; congruence
          | vm_compute; congruence].
Defined.

(** Opening a file that does not exist without [O_CREAT] does not fail: the
    Lua code's [-1] is stored in the registry and its reference, a positive
    number, is returned as the descriptor; the first [read] or [write] on it is a
    Lua error in the kernel. *)
Theorem open_missing_returns_descriptor (T : Type) (RT : RawTable T) (L : RawTableLaws T)
    (W H : Z) (number2str : Z -> bytes) (m : umem) (k : kstate T) (top path mode buf count : Z) :
  0 < W -> k_inv W H k top -> top + 1 < 2 ^ 31 - 1 ->
  files (k_fs k) !! um_cstr m path = None ->
  exists k', handle_syscall W H number2str SYS_open path 0 mode m k = Ok (k', top + 1, []) /\
    handle_syscall W H number2str SYS_read (top + 1) buf count m k' = Err LuaError /\
    handle_syscall W H number2str SYS_write (top + 1) buf count m k' = Err LuaError.
Proof.
  intros HW Hk Hmax Hno. pose proof (ki_n _ _ _ _ Hk) as Htop. rewrite syscall_open.
  destruct (sys_open_spec W H HW k top (um_cstr m path) (s32 0) (s32 mode) Hk Hmax)
    as (fs' & v & k' & Ho & -> & _ & _ & Hv & _).
  exists k'. split; [done|]. assert (v = VNum (-1)) as ->.
  { unfold open in Ho. rewrite Hno in Ho. by injection Ho as <- <-. }
  unfold handle_syscall. cbn [Z.eqb Pos.eqb SYS_read SYS_write SYS_brk SYS_open SYS_close SYS_lseek].
  rewrite swrap_small by (lia || clia). unfold sys_read, sys_write, fd_value.
  rewrite (proj2 (Z.eqb_neq (top + 1) 0)), (proj2 (Z.eqb_neq (top + 1) 1)), Hv by lia. done.
Qed.

(** Example: the empty file system. *)
Lemma open_missing_returns_descriptor_witness :
  exists k', handle_syscall 800 600 (fun _ => []) SYS_open 1 0 0 ex_mem ex_state = Ok (k', 2 + 1, []) /\
    handle_syscall 800 600 (fun _ => []) SYS_read (2 + 1) 9 10 ex_mem k' = Err LuaError /\
    handle_syscall 800 600 (fun _ => []) SYS_write (2 + 1) 9 10 ex_mem k' = Err LuaError.
Proof.
  apply (open_missing_returns_descriptor (gmap Z lval) map_table map_table_laws 800 600
    (fun _ => []) ex_mem ex_state 2 1 0 9 10); [lia|apply ex_state_inv; lia|lia|reflexivity].
Defined.

(** [read] overruns its buffer by one byte: with [count] bytes of room, and
    more than [count] bytes left in the file after the position, the handler
    copies [count + 1] bytes, which is undefined behaviour. *)
Theorem read_overruns_buffer (T : Type) (RT : RawTable T)
    (W H : Z) (number2str : Z -> bytes) (m : umem) (k : kstate T) (top fd buf count : Z)
    (id : nat) (path data : bytes) (pos : Z) (l : list nat) :
  0 < W -> k_inv W H k top -> in_s 32 fd -> fd <> 0 ->
  rawgeti (k_reg k) fd = VTable id ->
  fds (k_fs k) !! id = Some (Fd path pos) ->
  files (k_fs k) !! path = Some (File data false l) ->
  slen data < 2 ^ 31 -> 1 <= pos -> 0 <= count -> pos + count <= slen data ->
  um_size m buf = count ->
  handle_syscall W H number2str SYS_read fd buf count m k = Err Undefined.
Proof.
  intros HW Hk Hfd H0 Hreg Ho Hf Hsz Hp Hc Hle Hb. rewrite syscall_read.
  rewrite swrap_small, wrap_small by (done || lia || clia).
  destruct (read_fd_spec W H HW id (Fd path pos) (File data false l) count (k_fs k)
    (ki_fs _ _ _ _ Hk) Ho Hf eq_refl) as (fs' & Hr & _).
  unfold sys_read, fd_value. rewrite (proj2 (Z.eqb_neq fd 0) H0), Hreg, Hr.
  cbn [mbind res_bind tolstring fd_pos f_buf].
  rewrite str_sub_manual by (clia || (unfold str_ok; clia)).
  unfold manual_sub. rewrite (proj2 (Z.ltb_ge pos 0)), (proj2 (Z.ltb_ge (pos + count) 0)) by lia.
  cbn zeta.
  replace (Z.min (pos + count) (slen data)) with (pos + count) by lia.
  replace (Z.max pos 1) with pos by lia. unfold slice, slen in *.
  rewrite length_take, length_drop. rewrite (proj2 (Z.leb_gt _ _)); [done|]. lia.
Qed.

Definition ex_state2 : kstate (gmap Z lval) :=
  Kstate (Fs (<[ [97] := File [1; 2; 3] false [0%nat] ]> (files fs_init)) [Fd [97] 1] terminal_init)
    (rawseti registry_init 3 (VTable 0)) 0.

Lemma ex_state2_inv : k_inv 800 600 ex_state2 3.
Proof.
  pose proof registry_init_inv as [_ _ _ _ Hu Ha]. split.
  - split; [apply Forall_singleton; eexists; vm_compute; reflexivity|apply terminal_init_wf; lia].
  - split; [lia|by vm_compute|constructor|constructor| |]; cbn [k_reg ex_state2].
    + intros j Hj _. rewrite geti_seti. case_decide; [done|]. apply Hu; [lia|set_solver].
    + intros j Hj. rewrite geti_seti, decide_False by lia. apply Ha. lia.
  - lia.
  - intros ref Hr. cbn [k_reg ex_state2]. rewrite geti_seti. case_decide; [cbn; lia|].
    rewrite Ha by lia. done.
Qed.

(** Example: reading two bytes of a three-byte file. *)
Lemma read_overruns_buffer_witness :
  handle_syscall 800 600 (fun _ => []) SYS_read 3 9 2
    (Umem (fun _ => []) (fun _ _ => []) (fun _ => 2) (fun _ _ => (0, 0))) ex_state2 = Err Undefined.
Proof.
  apply (read_overruns_buffer (gmap Z lval) map_table 800 600 (fun _ => [])
    (Umem (fun _ => []) (fun _ _ => []) (fun _ => 2) (fun _ _ => (0, 0))) ex_state2 3 3 9 2
    0 [97] [1; 2; 3] 1 [0%nat]);
    first [lia|exact ex_state2_inv|clia|reflexivity|vm_compute; congruence].
Defined.

(** A call number that the handler does not know stops in the debugger trap
    and returns -1 without changing the file system or the descriptors. *)
Theorem unknown_syscall_traps (T : Type) (RT : RawTable T)
    (W H : Z) (number2str : Z -> bytes) (n a1 a2 a3 : Z) (m : umem) (k : kstate T) :
  n ∉ [SYS_read; SYS_write; SYS_open; SYS_close; SYS_lseek; SYS_brk; SYS_ioctl; SYS_writev;
       SYS_getpid; SYS_fcntl; SYS_fsync; SYS_chown; SYS_gettimeofday; SYS_clock_gettime] ->
  handle_syscall W H number2str n a1 a2 a3 m k =
    Ok (Kstate (k_fs k) (k_reg k) (S (k_traps k)), -1, []).
Proof.
  rewrite !not_elem_of_cons. intros Hn. unfold handle_syscall.
  repeat rewrite (proj2 (Z.eqb_neq n _)) by tauto. done.
Qed.

(** Example: [mmap], call 9. *)
Lemma unknown_syscall_traps_witness :
  handle_syscall 800 600 (fun _ => []) 9 0 4096 3 ex_mem ex_state =
    Ok (Kstate fs_init registry_init 1, -1, []).
Proof.
  apply (unknown_syscall_traps (gmap Z lval) map_table 800 600 (fun _ => []) 9 0 4096 3 ex_mem
    ex_state). rewrite !not_elem_of_cons. repeat split; (done || by apply not_elem_of_nil).
Defined.
