(* ===== verification/Draw.v ===== *)
(** * Drawing ([src/src/luakernel.lua]: [hline], [vline], [rectangle], [drawchar],
      [drawtext], [draw_terminal])

    The drawing functions only compute arguments and call [putpixel], so each is
    modelled by the sequence of its calls in the order it makes them; running the
    sequence is [putpixels].  The count hook can suspend a task between any two
    calls, which is why the sequence is kept.  The font is the table [font], any
    partial function from characters to glyphs; [char] strings are bytes. *)

From S2P Require Import Prelude Vbe Display LuaStr Terminal.

(** ** The calls of [putpixel] *)

Record pix := Pix { p_x : Z; p_y : Z; p_r : Z; p_g : Z; p_b : Z }.

Definition putpixel1 (p : pix) (d : display) : res display :=
  putpixel (p_x p) (p_y p) (p_r p) (p_g p) (p_b p) d.

Fixpoint putpixels (ps : list pix) (d : display) : res display :=
  match ps with
  | [] => Ok d
  | p :: ps' => d ← putpixel1 p d; putpixels ps' d
  end.

(** The values of [i] in [for i = 0, n, 1]. *)
Definition for_to (n : Z) : list Z := seqZ 0 (n + 1).

Definition hline (x1 y x2 r g b : Z) : list pix :=
  if x2 >? x1 then (fun i => Pix (x1 + i) y r g b) <$> for_to (x2 - x1) else [].

Definition vline (x y1 y2 r g b : Z) : list pix :=
  if y2 >? y1 then (fun i => Pix x (y1 + i) r g b) <$> for_to (y2 - y1) else [].

Definition rectangle (x y width height r g b : Z) : list pix :=
  hline x y (x + width) r g b ++
  hline x (y + height) (x + width) r g b ++
  vline x y (y + height) r g b ++
  vline (x + width) y (y + height) r g b.

(** ** Text *)

Definition char_dot : Z := 46.
Definition char_space : Z := 32.

(** The loop over the characters of a glyph. *)
Fixpoint glyph_loop (f : bytes) (x y xl yl r g b : Z) : list pix :=
  match f with
  | [] => []
  | c :: f' =>
      if c =? newline then glyph_loop f' x y 0 (yl + 1) r g b
      else if c =? char_dot then Pix (x + xl) (y + yl) r g b :: glyph_loop f' x y (xl + 1) yl r g b
      else if c =? char_space then Pix (x + xl) (y + yl) 0 0 0 :: glyph_loop f' x y (xl + 1) yl r g b
      else glyph_loop f' x y xl yl r g b
  end.

Section Font.
Context (font : Z -> option bytes).

Definition drawchar (x y character r g b : Z) : list pix :=
  match font character with
  | Some f => glyph_loop f x y 0 0 r g b
  | None => []
  end.

(** The loop of [drawtext] with its variables [space] and [y]. *)
Fixpoint text_loop (text : bytes) (x y space : Z) : list pix :=
  match text with
  | [] => []
  | c :: text' =>
      let '(space, y) := if c =? newline then (0, y + 15) else (space, y) in
      drawchar (x + space) y c 255 255 255 ++ text_loop text' x y (space + 8)
  end.

Definition drawtext (x y : Z) (text : bytes) : list pix := text_loop text x y 0.

(** ** The terminal *)

Definition pad_x : Z := 10.
Definition pad_y : Z := 15.

(** The loop over the lines with the cursor it leaves. *)
Fixpoint lines_loop (lines : list bytes) (y cursor_x cursor_y : Z) : list pix * (Z * Z) :=
  match lines with
  | [] => ([], (cursor_x, cursor_y))
  | str :: lines' =>
      let '(ps, cursor) := lines_loop lines' (y + 1) (slen str) y in
      (drawtext pad_x (y * pad_y) str ++ ps, cursor)
  end.

Definition draw_terminal (terminal_lines : list bytes) : list pix :=
  let '(ps, (cursor_x, cursor_y)) := lines_loop terminal_lines 1 0 1 in
  ps ++ rectangle (cursor_x * 8 + pad_x) (cursor_y * pad_y - 2) 1 14 255 255 255.
End Font.

(** [draw_tilda]: the purple border. *)
Definition draw_tilda (W H : Z) : list pix := rectangle 4 4 (W - 8) (H - 8) 255 0 255.

(** ** A frame of [display_task] *)

(** Decimal digits. *)
Fixpoint dec_loop (fuel : nat) (n : Z) (acc : bytes) : bytes :=
  match fuel with
  | O => acc
  | S fuel' =>
      let acc := 48 + n mod 10 :: acc in
      if n / 10 =? 0 then acc else dec_loop fuel' (n / 10) acc
  end.

Definition dec (n : Z) : bytes := dec_loop 20 n [].

Definition str_memory : bytes :=
  [109; 101; 109; 111; 114; 121; 32; 117; 115; 97; 103; 101; 58; 32].
Definition str_kilobytes : bytes :=
  [32; 107; 105; 108; 111; 98; 121; 116; 101; 115; 32; 32; 32; 32; 32].

(** [("memory usage: %u kilobytes     "):format(bytes_used)]. *)
Definition memory_message (bytes_used : Z) : bytes := str_memory ++ dec bytes_used ++ str_kilobytes.

(** The drawing of one iteration of the loop, before [swap_buffers]. *)
Definition frame_pixels (font : Z -> option bytes) (W H : Z) (tilda : bool) (bytes_used : Z) (terminal_lines : list bytes) : list pix :=
  let message := memory_message bytes_used in
  rectangle 0 0 (W - 1) (H - 1) 255 255 255 ++
  (if tilda then draw_tilda W H else []) ++
  drawtext font (W - slen message * 8) 150 message ++
  draw_terminal font terminal_lines.

(** One iteration up to [wait]. *)
Definition display_frame (font : Z -> option bytes) (W H : Z) (tilda : bool) (bytes_used : Z) (terminal_lines : list bytes) (d : display) : res display :=
  d ← putpixels (frame_pixels font W H tilda bytes_used terminal_lines) d;
  swap_buffers d.

(** ** What a sequence of calls paints *)

Definition color_ok (p : pix) : Prop := in_u 32 (p_r p) /\ in_u 32 (p_g p) /\ in_u 32 (p_b p).

Definition at_xy (x y : Z) (p : pix) : bool := (p_x p =? x) && (p_y p =? y).

(** The colour in memory order. *)
Definition shown (p : pix) : list Z := [u8 (p_b p); u8 (p_g p); u8 (p_r p)].

(** The last call for the pixel wins. *)
Fixpoint paint (ps : list pix) (x y : Z) (old : list Z) : list Z :=
  match ps with
  | [] => old
  | p :: ps' => paint ps' x y (if at_xy x y p then shown p else old)
  end.

Definition on_screen (mode : VBEModeInfoBlock) (p : pix) : Prop := visible mode (p_x p) (p_y p).

Lemma putpixels_app ps qs d : putpixels (ps ++ qs) d = (d' ← putpixels ps d; putpixels qs d').
Proof.
  revert d. induction ps as [|p ps IH]; intros d; [done|]. cbn [app putpixels].
  destruct (putpixel1 p d) as [d'|]; cbn [mbind res_bind]; [apply IH|done].
Qed.

Lemma paint_app ps qs x y old : paint (ps ++ qs) x y old = paint qs x y (paint ps x y old).
Proof. revert old. induction ps as [|p ps IH]; intros old; [done|]. apply IH. Qed.

(** Calls on the screen have no trap and paint what they say. *)
Lemma putpixels_visible ps : forall d,
  display_wf d -> Forall (on_screen (d_mode d)) ps -> Forall color_ok ps ->
  exists d', putpixels ps d = Ok d' /\ display_wf d' /\
    d_mode d' = d_mode d /\ d_fb d' = d_fb d /\ d_traps d' = d_traps d /\
    forall x y, visible (d_mode d) x y ->
      pixel_at (d_buffer d') (d_mode d) x y = paint ps x y (pixel_at (d_buffer d) (d_mode d) x y).
Proof.
  induction ps as [|p ps IH]; intros d Hwf Hs Hc; [by exists d|].
  apply Forall_cons_1 in Hs as [Hp Hs]. apply Forall_cons_1 in Hc as [(Hr & Hg & Hb) Hc].
  destruct (putpixel_visible d _ _ _ _ _ Hwf Hp Hr Hg Hb) as (d1 & E1 & Hwf1 & Hm1 & Hf1 & Ht1 & Hp1).
  destruct (IH d1 Hwf1) as (d2 & E2 & Hwf2 & Hm2 & Hf2 & Ht2 & Hp2); [by rewrite Hm1|done|].
  exists d2. cbn [putpixels]. unfold putpixel1 at 1. rewrite E1. cbn [mbind res_bind].
  split; [done|]. split; [done|]. split; [congruence|]. split; [congruence|]. split; [congruence|].
  intros x y Hv. rewrite <- Hm1, Hp2 by (by rewrite Hm1). cbn [paint]. f_equal.
  rewrite Hp1 by done. unfold at_xy, shown. case_decide as E.
  - injection E as -> ->. by rewrite !Z.eqb_refl.
  - destruct (Z.eqb_spec (p_x p) x), (Z.eqb_spec (p_y p) y); cbn [andb]; congruence.
Qed.

(** Sequences of one colour: the set of their pixels is painted. *)
Lemma paint_const ps x y old r g b :
  Forall (fun p => p_r p = r /\ p_g p = g /\ p_b p = b) ps ->
  paint ps x y old = if existsb (at_xy x y) ps then [u8 b; u8 g; u8 r] else old.
Proof.
  revert old. induction ps as [|p ps IH]; intros old H; [done|].
  apply Forall_cons_1 in H as [(Hr & Hg & Hb) H]. cbn [paint existsb]. rewrite IH by done.
  unfold shown. rewrite Hr, Hg, Hb. by destruct (at_xy x y p), (existsb (at_xy x y) ps).
Qed.

(** ** Lines and rectangles *)

Lemma elem_of_for_to n i : i ∈ for_to n <-> 0 <= i <= n.
Proof. unfold for_to. rewrite elem_of_seqZ. lia. Qed.

Lemma hline_pixels x1 y x2 r g b p :
  p ∈ hline x1 y x2 r g b <->
  x1 < x2 /\ x1 <= p_x p <= x2 /\ p_y p = y /\ p_r p = r /\ p_g p = g /\ p_b p = b.
Proof.
  unfold hline. destruct (Z.gtb_spec x2 x1); [|split; [by intros ?%elem_of_nil|lia]].
  rewrite list_elem_of_fmap. setoid_rewrite elem_of_for_to. split.
  - intros (i & -> & Hi). cbn. lia.
  - intros (_ & Hx & <- & <- & <- & <-). exists (p_x p - x1). split; [|lia].
    destruct p as [px py pr pg pb]. cbn. f_equal. lia.
Qed.

Lemma vline_pixels x y1 y2 r g b p :
  p ∈ vline x y1 y2 r g b <->
  y1 < y2 /\ y1 <= p_y p <= y2 /\ p_x p = x /\ p_r p = r /\ p_g p = g /\ p_b p = b.
Proof.
  unfold vline. destruct (Z.gtb_spec y2 y1); [|split; [by intros ?%elem_of_nil|lia]].
  rewrite list_elem_of_fmap. setoid_rewrite elem_of_for_to. split.
  - intros (i & -> & Hi). cbn. lia.
  - intros (_ & Hx & <- & <- & <- & <-). exists (p_y p - y1). split; [|lia].
    destruct p as [px py pr pg pb]. cbn. f_equal. lia.
Qed.

(** The outline of the rectangle with corners [(x, y)] and [(x + w, y + h)]. *)
Definition outline (x y w h px py : Z) : Prop :=
  x <= px <= x + w /\ y <= py <= y + h /\ (px = x \/ px = x + w \/ py = y \/ py = y + h).

#[export] Instance outline_dec x y w h px py : Decision (outline x y w h px py).
Proof. unfold outline. apply _. Defined.

Lemma rectangle_pixels x y w h r g b p :
  0 < w -> 0 < h ->
  p ∈ rectangle x y w h r g b <->
  outline x y w h (p_x p) (p_y p) /\ p_r p = r /\ p_g p = g /\ p_b p = b.
Proof.
  intros Hw Hh. unfold rectangle, outline. rewrite !elem_of_app, !hline_pixels, !vline_pixels. split; [lia|].
  intros ((Hx & Hy & Hc) & Hr & Hg & Hb). destruct Hc as [Hc|[Hc|[Hc|Hc]]]; [right; right; left|do 3 right|left|right; left]; lia.
Qed.

Lemma existsb_outline x y w h r g b px py :
  0 < w -> 0 < h ->
  existsb (at_xy px py) (rectangle x y w h r g b) = bool_decide (outline x y w h px py).
Proof.
  intros Hw Hh. apply eq_true_iff_eq. rewrite bool_decide_eq_true, existsb_exists. unfold at_xy. split.
  - intros (p & Hin%list_elem_of_In & [<-%Z.eqb_eq <-%Z.eqb_eq]%andb_true_iff).
    by apply rectangle_pixels in Hin as [? _].
  - intros Ho. exists (Pix px py r g b). cbn. rewrite !Z.eqb_refl. split; [|done].
    apply list_elem_of_In, rectangle_pixels; done.
Qed.

Lemma rectangle_on_screen mode x y w h r g b :
  0 < w -> 0 < h -> visible mode x y -> visible mode (x + w) (y + h) ->
  Forall (on_screen mode) (rectangle x y w h r g b).
Proof.
  intros Hw Hh [Hx Hy] [Hx' Hy']. apply Forall_forall. intros p [(? & ? & _) _]%rectangle_pixels; [|done..].
  unfold on_screen, visible. lia.
Qed.

Lemma rectangle_color x y w h r g b :
  0 < w -> 0 < h -> Forall (fun p => p_r p = r /\ p_g p = g /\ p_b p = b) (rectangle x y w h r g b).
Proof. intros Hw Hh. apply Forall_forall. by intros p [_ ?]%rectangle_pixels. Qed.

Lemma color_const ps r g b :
  in_u 32 r -> in_u 32 g -> in_u 32 b ->
  Forall (fun p => p_r p = r /\ p_g p = g /\ p_b p = b) ps -> Forall color_ok ps.
Proof. intros Hr Hg Hb H. eapply Forall_impl; [exact H|]. intros p (E1 & E2 & E3). unfold color_ok. rewrite E1, E2, E3. done. Qed.

(** ** Glyphs *)

(** The rows of a glyph, the text between newlines. *)
Fixpoint rows (f : bytes) : list bytes :=
  match f with
  | [] => [[]]
  | c :: f' =>
      if c =? newline then [] :: rows f'
      else match rows f' with r :: rs => (c :: r) :: rs | [] => [[c]] end
  end.

Lemma rows_cons f : exists r rs, rows f = r :: rs.
Proof. destruct f as [|c f]; cbn; [by eauto|]. destruct (c =? newline); [by eauto|]. destruct (rows f); by eauto. Qed.

(** What a cell of the glyph does to the colour under it. *)
Definition cell_color (cell : option Z) (r g b : Z) (old : list Z) : list Z :=
  match cell with
  | Some c => if c =? char_dot then [u8 b; u8 g; u8 r] else if c =? char_space then [0; 0; 0] else old
  | None => old
  end.

(** The cell in column [i] of row [j] when the rest of the glyph starts in column
    [k] of row [l]. *)
Definition cell_from (k l : nat) (rs : list bytes) (i j : nat) : option Z :=
  match rs with
  | [] => None
  | r0 :: rest =>
      if decide (j = l) then (if decide (k <= i)%nat then r0 !! (i - k)%nat else None)
      else if decide (l < j)%nat then rest !! (j - l - 1)%nat ≫= fun r => r !! i
      else None
  end.

Definition glyph_char (c : Z) : Prop := c = newline \/ c = char_dot \/ c = char_space.

Lemma cell_from_newline rs k l i j :
  cell_from k l ([] :: rs) i j = cell_from 0 (S l) rs i j.
Proof.
  unfold cell_from. destruct rs as [|r rs].
  - destruct (decide (j = l)); [by destruct (decide _)|]. destruct (decide _); [|done].
    by rewrite lookup_nil.
  - destruct (decide (j = l)) as [->|].
    + rewrite (decide_False (P := l = S l)), (decide_False (P := (S l < l)%nat)) by lia. by destruct (decide _).
    + destruct (decide (l < j)%nat); [|rewrite !decide_False by lia; done].
      destruct (decide (j = S l)) as [->|].
      * rewrite decide_True by lia. replace (S l - l - 1)%nat with 0%nat by lia. cbn. by rewrite Nat.sub_0_r.
      * rewrite decide_True by lia. replace (j - l - 1)%nat with (S (j - S l - 1)) by lia. done.
Qed.

Lemma cell_from_char rs k l i j c :
  cell_from k l (match rs with r :: rs' => (c :: r) :: rs' | [] => [[c]] end) i j =
  if decide (i = k /\ j = l) then Some c else
  cell_from (S k) l rs i j.
Proof.
  unfold cell_from. destruct rs as [|r rs]; destruct (decide (j = l)) as [->|].
  - destruct (decide (i = k)) as [->|].
    + rewrite !decide_True by lia. by rewrite Nat.sub_diag.
    + rewrite (decide_False (P := i = k /\ _)) by lia. destruct (decide _); [|done].
      apply lookup_ge_None_2. cbn. lia.
  - rewrite (decide_False (P := i = k /\ _)) by lia. destruct (decide _); [|done]. by rewrite lookup_nil.
  - destruct (decide (i = k)) as [->|].
    + rewrite !decide_True by lia. by rewrite Nat.sub_diag.
    + rewrite (decide_False (P := i = k /\ _)) by lia. destruct (decide (k <= i)%nat).
      * rewrite decide_True by lia. by replace (i - k)%nat with (S (i - S k)) by lia.
      * by rewrite decide_False by lia.
  - by rewrite (decide_False (P := i = k /\ _)) by lia.
Qed.

Lemma cell_from_past k l rs : cell_from (S k) l rs k l = None.
Proof. unfold cell_from. destruct rs as [|r rs]; [done|]. by rewrite decide_True, decide_False by lia. Qed.

Lemma at_cell x y i j k l r g b :
  at_xy (x + Z.of_nat i) (y + Z.of_nat j) (Pix (x + Z.of_nat k) (y + Z.of_nat l) r g b) =
  bool_decide (i = k /\ j = l).
Proof.
  unfold at_xy. cbn [p_x p_y]. destruct (bool_decide_reflect (i = k /\ j = l)) as [[-> ->]|Hne].
  - by rewrite !Z.eqb_refl.
  - apply andb_false_iff. rewrite !Z.eqb_neq. lia.
Qed.

Lemma glyph_paint f x y r g b i j : forall k l old,
  Forall glyph_char f ->
  paint (glyph_loop f x y (Z.of_nat k) (Z.of_nat l) r g b) (x + Z.of_nat i) (y + Z.of_nat j) old =
  cell_color (cell_from k l (rows f) i j) r g b old.
Proof.
  induction f as [|c f IH]; intros k l old H.
  { cbn. repeat destruct (decide _); rewrite ?lookup_nil; done. }
  apply Forall_cons_1 in H as [Hc H]. cbn [glyph_loop rows].
  destruct (Z.eqb_spec c newline) as [->|Hn].
  { rewrite cell_from_newline, <- (IH 0%nat (S l)) by done. do 2 f_equal. lia. }
  rewrite cell_from_char. specialize (IH (S k) l).
  replace (Z.of_nat (S k)) with (Z.of_nat k + 1) in IH by lia.
  destruct Hc as [|[->| ->]]; [done| |]; cbn [Z.eqb char_dot char_space Pos.eqb paint];
    rewrite IH, at_cell by done; case_bool_decide as E;
    rewrite ?decide_True, ?(decide_False (P := _ /\ _)) by done; try done;
    destruct E as [-> ->]; by rewrite cell_from_past.
Qed.

(** ** Where text goes *)

(** The cells of a glyph are inside [gw] columns and [gh] rows. *)
Definition fits (gw gh : Z) (f : bytes) : Prop :=
  Forall (fun r => slen r <= gw) (rows f) /\ Z.of_nat (length (rows f)) <= gh.

Definition in_box (x y w h : Z) (p : pix) : Prop := x <= p_x p < x + w /\ y <= p_y p < y + h.

Lemma glyph_box gw gh f x y r g b : forall xl yl,
  0 <= xl -> 0 <= yl ->
  (forall r0 rest, rows f = r0 :: rest -> xl + slen r0 <= gw /\ Forall (fun q => slen q <= gw) rest) ->
  yl + Z.of_nat (length (rows f)) <= gh ->
  Forall (in_box x y gw gh) (glyph_loop f x y xl yl r g b).
Proof.
  unfold slen. induction f as [|c f IH]; intros xl yl Hx Hy Hr Hh; [constructor|].
  cbn [glyph_loop rows] in *. destruct (c =? newline).
  - specialize (Hr [] (rows f) eq_refl) as [Hw Hf]. cbn [length] in *. apply IH; [lia|lia| |lia].
    intros r0 rest E. rewrite E in Hf. apply Forall_cons_1 in Hf as [??]. done.
  - destruct (rows_cons f) as (q & qs & E). rewrite E in *. specialize (Hr (c :: q) qs eq_refl) as [Hw Hf].
    cbn [length] in *.
    assert (forall xl', 0 <= xl' <= xl + 1 -> Forall (in_box x y gw gh) (glyph_loop f x y xl' yl r g b)) as Hrest.
    { intros xl' Hxl. apply IH; [lia|lia| |cbn [length]; lia]. intros r0 rest [= <- <-]. split; [lia|done]. }
    destruct (c =? char_dot); [|destruct (c =? char_space); [|apply Hrest; lia]];
      (constructor; [unfold in_box; cbn [p_x p_y]; lia|apply Hrest; lia]).
Qed.

Lemma glyph_color f x y r g b : forall xl yl,
  in_u 32 r -> in_u 32 g -> in_u 32 b -> Forall color_ok (glyph_loop f x y xl yl r g b).
Proof.
  intros xl yl Hr Hg Hb. revert xl yl. induction f as [|c f IH]; intros xl yl; [constructor|]. cbn [glyph_loop].
  destruct (c =? newline); [apply IH|]. destruct (c =? char_dot); [constructor; [done|apply IH]|].
  destruct (c =? char_space); [|apply IH]. constructor; [|apply IH]. unfold color_ok. cbn. clia.
Qed.

(** A font whose glyphs fit, without a glyph for the newline. *)
Record font_ok (gw gh : Z) (font : Z -> option bytes) : Prop := {
  font_fits : forall c f, font c = Some f -> fits gw gh f;
  font_newline : font newline = None;
}.

Lemma drawchar_box gw gh font x y c r g b :
  font_ok gw gh font -> Forall (in_box x y gw gh) (drawchar font x y c r g b).
Proof.
  intros [Hf _]. unfold drawchar. destruct (font c) as [f|] eqn:E; [|constructor].
  destruct (Hf c f E) as [Hr Hl]. apply glyph_box; [lia|lia| |lia].
  intros r0 rest E0. rewrite E0 in Hr. apply Forall_cons_1 in Hr as [H0 Hr]. split; [lia|done].
Qed.

(** A line of the terminal: a newline only at its end. *)
Definition line_text (line : bytes) : Prop := newline ∉ line \/ exists l, line = l ++ [newline] /\ newline ∉ l.

Lemma text_box gw gh font : forall text x y space,
  font_ok gw gh font -> newline ∉ text ->
  Forall (in_box (x + space) y (8 * (slen text - 1) + gw) gh) (text_loop font text x y space).
Proof.
  intros text x y space Hf. revert space. unfold slen. induction text as [|c text IH]; intros space Hn; [constructor|].
  apply not_elem_of_cons in Hn as [Hc Hn]. cbn [text_loop length].
  rewrite (proj2 (Z.eqb_neq c newline)) by congruence. apply Forall_app. split.
  - eapply Forall_impl; [by apply drawchar_box|]. unfold in_box. intros p Hp. cbn. lia.
  - eapply Forall_impl; [by apply IH|]. unfold in_box. intros p Hp. destruct text; cbn [length] in *; lia.
Qed.

Lemma text_loop_newline font gw gh x y : forall l space,
  font_ok gw gh font -> newline ∉ l -> text_loop font (l ++ [newline]) x y space = text_loop font l x y space.
Proof.
  intros l space Hf. revert space. induction l as [|c l IH]; intros space Hn.
  - cbn [app text_loop]. rewrite Z.eqb_refl. unfold drawchar. by rewrite (font_newline _ _ _ Hf).
  - apply not_elem_of_cons in Hn as [Hc Hn]. cbn [app text_loop].
    rewrite (proj2 (Z.eqb_neq c newline)) by congruence. by rewrite IH.
Qed.

Lemma drawtext_box gw gh font x y text :
  font_ok gw gh font -> line_text text ->
  Forall (in_box x y (8 * (slen text - 1) + gw) gh) (drawtext font x y text).
Proof.
  intros Hf [Hn|(l & -> & Hn)]; unfold drawtext.
  - pose proof (text_box gw gh font text x y 0 Hf Hn) as H. by rewrite Z.add_0_r in H.
  - rewrite (text_loop_newline font gw gh) by done.
    eapply Forall_impl; [by apply text_box|]. unfold in_box, slen. rewrite length_app. cbn. lia.
Qed.

Lemma text_color font : forall text x y space, Forall color_ok (text_loop font text x y space).
Proof.
  induction text as [|c text IH]; intros x y space; [constructor|]. cbn [text_loop].
  destruct (c =? newline); (apply Forall_app; split; [|apply IH]); unfold drawchar;
    (destruct (font c); [apply glyph_color; clia|constructor]).
Qed.

(** ** The terminal on the screen *)

(** The last line has no newline yet, the others at most one at their end. *)
Definition term_text (lines : list bytes) : Prop :=
  exists init l, lines = init ++ [l] /\ newline ∉ l /\ Forall line_text init.

Lemma term_text_init : term_text terminal_init.
Proof. exists [], []. split; [done|]. split; [apply not_elem_of_nil|constructor]. Qed.

Lemma term_text_write W H lines c lines' :
  term_text lines -> write_char W H lines c = Ok lines' -> term_text lines'.
Proof.
  intros (init & l & -> & Hl & Hi). unfold write_char. rewrite last_snoc, last_snoc_put. cbn zeta.
  destruct (clears _ _); intros [= <-]; [apply term_text_init|].
  destruct (Z.eqb_spec c newline) as [->|Hc]; cbn [orb].
  - exists (init ++ [l ++ [newline]]), []. split; [done|]. split; [apply not_elem_of_nil|].
    apply Forall_app. split; [done|]. apply Forall_singleton. right. by exists l.
  - assert (newline ∉ l ++ [c]) as Hlc by (rewrite not_elem_of_app, list_elem_of_singleton; split; congruence).
    destruct (wraps W (l ++ [c])).
    + exists (init ++ [l ++ [c]]), []. split; [done|]. split; [apply not_elem_of_nil|].
      apply Forall_app. split; [done|]. apply Forall_singleton. by left.
    + by exists init, (l ++ [c]).
Qed.

Lemma term_text_stdout W H lines buf lines' n :
  term_text lines -> write_stdout W H lines buf = Ok (lines', n) -> term_text lines'.
Proof.
  intros Ht E. unfold write_stdout in E. apply bind_Ok in E as (l & E & [= -> _]).
  revert lines' E. induction buf as [|c buf IH] using rev_ind; intros lines' E.
  - by injection E as <-.
  - rewrite foldl_app in E. cbn in E. apply bind_Ok in E as (l1 & E1 & E2).
    eapply term_text_write; [by apply IH|exact E2].
Qed.

Lemma lines_loop_spec gw gh font X Y : forall lines y cx cy,
  font_ok gw gh font -> 1 <= y -> Forall line_text lines ->
  Forall (fun l => pad_x + 8 * (slen l - 1) + gw <= X) lines ->
  pad_y * (y + Z.of_nat (length lines) - 1) + gh <= Y ->
  Forall (in_box 0 0 X Y) (fst (lines_loop font lines y cx cy)) /\
  Forall color_ok (fst (lines_loop font lines y cx cy)) /\
  snd (lines_loop font lines y cx cy) =
    match last lines with Some l => (slen l, y + Z.of_nat (length lines) - 1) | None => (cx, cy) end.
Proof.
  intros lines y cx cy Hf. revert y cx cy. unfold pad_x, pad_y.
  induction lines as [|l lines IH]; intros y cx cy Hy Ht Hx HY; [split; [constructor|split; [constructor|done]]|].
  apply Forall_cons_1 in Ht as [Hl Ht]. apply Forall_cons_1 in Hx as [Hxl Hx]. cbn [lines_loop length] in *.
  destruct (IH (y + 1) (slen l) y) as (H1 & H2 & H3); [lia|done|done|lia|].
  destruct (lines_loop font lines (y + 1) (slen l) y) as [ps cur] eqn:E. cbn [fst snd] in *.
  split; [|split].
  - apply Forall_app. split; [|done]. eapply Forall_impl; [by apply drawtext_box|].
    unfold in_box, pad_x, pad_y. intros p Hp. lia.
  - apply Forall_app. split; [|done]. apply text_color.
  - rewrite H3. destruct lines as [|l' lines]; [cbn; f_equal; lia|].
    change (last (l :: l' :: lines)) with (last (l' :: lines)). destruct (last (l' :: lines)) as [q|] eqn:Eq.
    + f_equal. cbn [length]. lia.
    + by apply last_None in Eq.
Qed.

(** The sizes for which the terminal fits: the screen of [W] x [H] has room for the
    glyphs right of the wrapping column and below the last line. *)
Record screen_ok (W H gw gh : Z) : Prop := {
  so_glyph : 1 <= gw /\ 0 <= gh <= 15;
  so_width : 9 * (pad_x + gw) <= W;
  so_height : 2 * pad_y <= H;
}.

Lemma draw_terminal_box W H gw gh font lines :
  font_ok gw gh font -> screen_ok W H gw gh -> terminal_wf W H lines -> term_text lines ->
  Forall (in_box 0 0 W H) (draw_terminal font lines) /\ Forall color_ok (draw_terminal font lines).
Proof.
  intros Hf [Hg HW HH] (_ & Hok & (init & line & -> & Hw) & Hc) (init' & l' & E & Hl & Hi).
  apply app_inj_tail in E as [<- <-]. unfold pad_x, pad_y in *.
  assert (15 * Z.of_nat (length (init ++ [line])) + 15 <= H) as Hn.
  { destruct Hc as [Hc|Hc]; [unfold clears in Hc; apply Z.leb_gt in Hc; lia|rewrite Hc; cbn; lia]. }
  destruct (lines_loop_spec gw gh font W H (init ++ [line]) 1 0 1) as (H1 & H2 & H3); [done|lia| | |unfold pad_y; lia|].
  { apply Forall_app. split; [done|]. apply Forall_singleton. by left. }
  { eapply Forall_impl; [exact Hok|]. unfold line_ok, pad_x, slen. cbn. lia. }
  unfold draw_terminal. destruct (lines_loop font (init ++ [line]) 1 0 1) as [ps [cx cy]]. cbn [fst snd] in *.
  rewrite last_snoc in H3. injection H3 as -> ->. unfold wraps in Hw. apply Z.leb_gt in Hw.
  pose proof (rectangle_color (slen line * 8 + pad_x) ((1 + Z.of_nat (length (init ++ [line])) - 1) * pad_y - 2) 1 14 255 255 255 ltac:(lia) ltac:(lia)) as Hrc.
  split; apply Forall_app; (split; [done|]).
  - apply Forall_forall. intros p [(Hx & Hy & _) _]%rectangle_pixels; [|lia..].
    rewrite length_app in *. cbn [length] in *. unfold in_box, slen, pad_x, pad_y in *. lia.
  - eapply color_const; [..|exact Hrc]; clia.
Qed.

(** ** A frame on the screen *)

Lemma text_loop_app font x y : forall a b space,
  newline ∉ a -> text_loop font (a ++ b) x y space = text_loop font a x y space ++ text_loop font b x y (space + 8 * slen a).
Proof.
  unfold slen. induction a as [|c a IH]; intros b space Hn; [cbn; f_equal; lia|].
  apply not_elem_of_cons in Hn as [Hc Hn]. cbn [app text_loop length].
  rewrite (proj2 (Z.eqb_neq c newline)) by congruence. rewrite IH by done. rewrite <- app_assoc. do 3 f_equal. lia.
Qed.

Lemma dec_loop_digits fuel : forall n acc, 0 <= n -> newline ∉ acc -> newline ∉ dec_loop fuel n acc.
Proof.
  induction fuel as [|fuel IH]; intros n acc Hn Ha; [done|]. cbn [dec_loop].
  assert (newline ∉ 48 + n mod 10 :: acc) by (apply not_elem_of_cons; split; [unfold newline; dlia|done]).
  destruct (n / 10 =? 0); [done|]. apply IH; [dlia|done].
Qed.

(** The message ends in a space and has no newline. *)
Lemma memory_message_shape n :
  0 <= n -> exists m, memory_message n = m ++ [char_space] /\ newline ∉ m.
Proof.
  intros Hn. exists (str_memory ++ dec n ++ take 14 str_kilobytes). unfold memory_message. split.
  - rewrite <- !app_assoc. do 2 f_equal.
  - rewrite !not_elem_of_app. split; [by apply (bool_decide_unpack _)|].
    split; [apply dec_loop_digits; [done|apply not_elem_of_nil]|by apply (bool_decide_unpack _)].
Qed.

Lemma message_box gw gh font W y m space_glyph :
  font_ok gw gh font -> font char_space = Some space_glyph -> fits 8 gh space_glyph ->
  gw <= 16 -> newline ∉ m -> 8 * (slen m + 1) <= W ->
  Forall (in_box 0 y W gh) (drawtext font (W - slen (m ++ [char_space]) * 8) y (m ++ [char_space])).
Proof.
  intros Hf Hs Hfit Hgw Hn HW. unfold drawtext. rewrite text_loop_app by done.
  assert (slen (m ++ [char_space]) = slen m + 1) as -> by (unfold slen; rewrite length_app; cbn; lia).
  apply Forall_app. split.
  - eapply Forall_impl; [by apply text_box|]. unfold in_box, slen in *. intros p Hp. lia.
  - cbn [text_loop]. change (char_space =? newline) with false. cbv iota. rewrite app_nil_r.
    unfold drawchar. rewrite Hs. destruct Hfit as [Hr Hl].
    eapply Forall_impl; [apply (glyph_box 8 gh); [lia|lia| |lia]|unfold in_box, slen in *; intros p Hp; lia].
    intros r0 rest E. rewrite E in Hr. apply Forall_cons_1 in Hr as [??]. split; [lia|done].
Qed.

Lemma in_box_screen mode y h p :
  0 <= y -> y + h <= YResolution mode -> in_box 0 y (XResolution mode) h p -> on_screen mode p.
Proof. unfold in_box, on_screen, visible. lia. Qed.

(** The frame buffer after a swap shows what was drawn. *)
Lemma pixel_at_app mode buf rest x y :
  mode32 mode -> Z.of_nat (length buf) = YResolution mode * BytesPerScanLine mode -> visible mode x y ->
  pixel_at (buf ++ rest) mode x y = pixel_at buf mode x y.
Proof.
  intros Hm Hl Hv. destruct (pixel_index_visible mode x y Hm Hv) as (_ & H1 & H2). unfold pixel_at.
  rewrite drop_app_le by lia. rewrite take_app_le by (rewrite length_drop; lia). done.
Qed.

Lemma frame_on_screen font gw gh space_glyph mode tilda bytes_used lines :
  let W := XResolution mode in let H := YResolution mode in
  font_ok gw gh font -> font char_space = Some space_glyph -> fits 8 gh space_glyph ->
  screen_ok W H gw gh -> gw <= 16 -> 150 + gh <= H -> 0 <= bytes_used ->
  8 * slen (memory_message bytes_used) <= W -> terminal_wf W H lines -> term_text lines ->
  Forall (on_screen mode) (frame_pixels font W H tilda bytes_used lines) /\
  Forall color_ok (frame_pixels font W H tilda bytes_used lines).
Proof.
  intros W H Hf Hs Hfit Hso Hgw Hgh Hn Hm Hwf Ht. pose proof Hso as [Hg HW HH]. unfold pad_x, pad_y in *.
  destruct (draw_terminal_box W H gw gh font lines) as [T1 T2]; [done..|].
  destruct (memory_message_shape bytes_used Hn) as (m & Em & Hnl).
  assert (forall x y w h, 0 < w -> 0 < h -> 0 <= x -> 0 <= y -> x + w < W -> y + h < H ->
    forall r g b, Forall (on_screen mode) (rectangle x y w h r g b)) as Hrect.
  { intros. apply rectangle_on_screen; [done|done|unfold visible; lia|unfold visible; lia]. }
  unfold frame_pixels, draw_tilda. rewrite !Forall_app. split; split_and!.
  - apply Hrect; lia.
  - destruct tilda; [apply Hrect; lia|constructor].
  - rewrite Em in *. unfold slen in Hm. rewrite length_app in Hm. cbn [length] in Hm.
    eapply Forall_impl; [eapply (message_box gw gh); [done..|unfold slen; lia]|].
    intros p. apply in_box_screen; lia.
  - eapply Forall_impl; [exact T1|]. intros p. apply in_box_screen; lia.
  - eapply color_const; [..|apply rectangle_color; lia]; clia.
  - destruct tilda; [eapply color_const; [..|apply rectangle_color; lia]; clia|constructor].
  - apply text_color.
  - done.
Qed.

(** ** The picture of a frame

    What the screen is meant to show, layer over layer, by the place of a pixel. *)

Definition white : list Z := [255; 255; 255].
Definition purple : list Z := [255; 0; 255].

(** The character [c] with its upper left corner at [(gx, gy)], in white. *)
Definition glyph_at (font : Z -> option bytes) (c gx gy x y : Z) (old : list Z) : list Z :=
  match font c with
  | Some f =>
      if decide (gx <= x /\ gy <= y) then
        cell_color (rows f !! Z.to_nat (y - gy) ≫= fun row => row !! Z.to_nat (x - gx)) 255 255 255 old
      else old
  | None => old
  end.

(** A line of text: a character every eight pixels. *)
Fixpoint text_at (font : Z -> option bytes) (text : bytes) (tx ty x y : Z) (old : list Z) : list Z :=
  match text with
  | [] => old
  | c :: text' => text_at font text' (tx + 8) ty x y (glyph_at font c tx ty x y old)
  end.

(** The lines of the terminal, 15 pixels apart. *)
Fixpoint lines_at (font : Z -> option bytes) (lines : list bytes) (ty x y : Z) (old : list Z) : list Z :=
  match lines with
  | [] => old
  | line :: lines' => lines_at font lines' (ty + 15) x y (text_at font line 10 ty x y old)
  end.

(** A white border, inside it a purple one when [tilda] is on, the message at the right
    edge, the terminal, and the cursor after its last line. *)
Definition frame_picture (font : Z -> option bytes) (W H : Z) (tilda : bool) (message : bytes) (lines : list bytes) (x y : Z) (old : list Z) : list Z :=
  let border := if decide (outline 0 0 (W - 1) (H - 1) x y) then white else old in
  let inner := if decide (tilda = true /\ outline 4 4 (W - 8) (H - 8) x y) then purple else border in
  let text := text_at font message (W - 8 * slen message) 150 x y inner in
  let terminal := lines_at font lines 15 x y text in
  let cursor_x := 8 * slen (default [] (last lines)) + 10 in
  let cursor_y := 15 * Z.of_nat (length lines) - 2 in
  if decide (outline cursor_x cursor_y 1 14 x y) then white else terminal.

(** Calls elsewhere do not change a pixel. *)
Lemma paint_elsewhere ps x y old : Forall (fun p => at_xy x y p = false) ps -> paint ps x y old = old.
Proof. induction 1 as [|p ps Hp _ IH]; [done|]. cbn [paint]. by rewrite Hp. Qed.

Lemma drawchar_paint gw gh font c gx gy x y old :
  font_ok gw gh font -> (forall c f, font c = Some f -> Forall glyph_char f) ->
  paint (drawchar font gx gy c 255 255 255) x y old = glyph_at font c gx gy x y old.
Proof.
  intros Hf Hg. unfold glyph_at. destruct (font c) as [f|] eqn:E; [|unfold drawchar; by rewrite E]. case_decide as Hd.
  - replace x with (gx + Z.of_nat (Z.to_nat (x - gx))) at 1 by lia. replace y with (gy + Z.of_nat (Z.to_nat (y - gy))) at 1 by lia.
    unfold drawchar. rewrite E, (glyph_paint f gx gy 255 255 255 _ _ 0 0) by (by eapply Hg). f_equal.
    generalize (Z.to_nat (x - gx)) (Z.to_nat (y - gy)). intros i j. destruct (rows_cons f) as (r0 & rest & ->). unfold cell_from. destruct (decide (j = 0%nat)) as [->|].
    + rewrite decide_True by lia. by rewrite Nat.sub_0_r.
    + rewrite decide_True by lia. by destruct j; [|rewrite Nat.sub_0_r; cbn; rewrite Nat.sub_0_r].
  - apply paint_elsewhere. eapply Forall_impl; [exact (drawchar_box gw gh font gx gy c 255 255 255 Hf)|]. intros p [Hx Hy]. unfold at_xy. apply andb_false_iff. rewrite !Z.eqb_neq. lia.
Qed.

Lemma text_paint gw gh font ty x y : forall text tx space old,
  font_ok gw gh font -> (forall c f, font c = Some f -> Forall glyph_char f) -> newline ∉ text ->
  paint (text_loop font text tx ty space) x y old = text_at font text (tx + space) ty x y old.
Proof.
  intros text tx space old Hf Hg. revert space old. induction text as [|c text IH]; intros space old Hn; [done|]. apply not_elem_of_cons in Hn as [Hc Hn]. cbn [text_loop text_at].
  rewrite (proj2 (Z.eqb_neq c newline)) by congruence. rewrite paint_app, (drawchar_paint gw gh), IH by done. f_equal. lia.
Qed.

Lemma text_at_app font a b tx ty x y old : text_at font (a ++ b) tx ty x y old = text_at font b (tx + 8 * slen a) ty x y (text_at font a tx ty x y old).
Proof.
  revert tx old. unfold slen. induction a as [|c a IH]; intros tx old; cbn [app text_at length]; [f_equal; lia|]. rewrite IH. f_equal. lia.
Qed.

Lemma drawtext_paint gw gh font text tx ty x y old :
  font_ok gw gh font -> (forall c f, font c = Some f -> Forall glyph_char f) -> line_text text ->
  paint (drawtext font tx ty text) x y old = text_at font text tx ty x y old.
Proof.
  intros Hf Hg [Hn|(l & -> & Hn)]; unfold drawtext.
  - rewrite (text_paint gw gh) by done. f_equal. lia.
  - rewrite (text_loop_newline font gw gh), (text_paint gw gh), text_at_app by done. cbn [text_at]. unfold glyph_at. rewrite (font_newline _ _ _ Hf). f_equal. lia.
Qed.

Lemma lines_paint gw gh font x y : forall lines ln cx cy old,
  font_ok gw gh font -> (forall c f, font c = Some f -> Forall glyph_char f) -> Forall line_text lines ->
  paint (fst (lines_loop font lines ln cx cy)) x y old = lines_at font lines (ln * 15) x y old /\
  snd (lines_loop font lines ln cx cy) = match last lines with Some l => (slen l, ln + Z.of_nat (length lines) - 1) | None => (cx, cy) end.
Proof.
  intros lines ln cx cy old Hf Hg Hl. revert ln cx cy old. induction Hl as [|l lines Hl _ IH]; intros ln cx cy old; [done|]. cbn [lines_loop lines_at].
  destruct (IH (ln + 1) (slen l) ln (text_at font l 10 (ln * 15) x y old)) as [E1 E2]. destruct (lines_loop font lines (ln + 1) (slen l) ln) as [ps cur]. cbn [fst snd] in *. split.
  - rewrite paint_app. unfold pad_x, pad_y. rewrite (drawtext_paint gw gh), E1 by done. f_equal. lia.
  - rewrite E2. destruct lines as [|l' lines]; [cbn; f_equal; lia|]. change (last (l :: l' :: lines)) with (last (l' :: lines)).
    destruct (last (l' :: lines)) as [q|] eqn:Eq; [f_equal; cbn [length]; lia|by apply last_None in Eq].
Qed.

Lemma rectangle_paint a b w h rr gg bb x y old :
  0 < w -> 0 < h -> paint (rectangle a b w h rr gg bb) x y old = if decide (outline a b w h x y) then [u8 bb; u8 gg; u8 rr] else old.
Proof. intros Hw Hh. rewrite (paint_const _ _ _ _ _ _ _ (rectangle_color a b w h rr gg bb Hw Hh)), existsb_outline by done. by case_bool_decide; case_decide. Qed.

(** The calls of a frame paint its picture. *)
Lemma frame_paint gw gh font W H tilda bytes_used lines x y old :
  font_ok gw gh font -> (forall c f, font c = Some f -> Forall glyph_char f) -> 9 <= W -> 9 <= H -> 0 <= bytes_used -> term_text lines ->
  paint (frame_pixels font W H tilda bytes_used lines) x y old = frame_picture font W H tilda (memory_message bytes_used) lines x y old.
Proof.
  intros Hf Hg HW HH Hb (init & l & -> & Hl & Hi). assert (Forall line_text (init ++ [l])) as Hlt by (apply Forall_app; split; [done|]; apply Forall_singleton; by left).
  assert (line_text (memory_message bytes_used)) as Hm.
  { left. destruct (memory_message_shape bytes_used Hb) as (m & -> & Hn). rewrite not_elem_of_app, list_elem_of_singleton. done. }
  unfold frame_pixels, frame_picture. cbv zeta. rewrite !paint_app, rectangle_paint by lia. rewrite (drawtext_paint gw gh) by done.
  unfold draw_terminal. destruct (lines_paint gw gh font x y (init ++ [l]) 1 0 1 (text_at font (memory_message bytes_used) (W - slen (memory_message bytes_used) * 8) 150 x y
    (paint (if tilda then draw_tilda W H else []) x y (if decide (outline 0 0 (W - 1) (H - 1) x y) then [u8 255; u8 255; u8 255] else old))) Hf Hg Hlt) as [E1 E2].
  destruct (lines_loop font (init ++ [l]) 1 0 1) as [ps [cx cy]]. cbn [fst snd] in *. rewrite last_snoc in E2 |- *. injection E2 as -> ->. cbn [default].
  rewrite paint_app, E1, rectangle_paint by lia. unfold pad_x, pad_y. replace (slen l * 8 + 10) with (8 * slen l + 10) by lia.
  replace ((1 + Z.of_nat (length (init ++ [l])) - 1) * 15 - 2) with (15 * Z.of_nat (length (init ++ [l])) - 2) by lia. replace (slen (memory_message bytes_used) * 8) with (8 * slen (memory_message bytes_used)) by lia.
  destruct tilda; [|destruct (decide (false = true /\ _)) as [[? _]|_]; [done|reflexivity]]. unfold draw_tilda. rewrite rectangle_paint by lia.
  destruct (decide (outline 4 4 (W - 8) (H - 8) x y)), (decide (true = true /\ outline 4 4 (W - 8) (H - 8) x y)) as [?|Hno]; try done; try tauto; destruct Hno; done.
Qed.

(** ** Theorems *)

(** [rectangle] inside the screen draws exactly the outline: the pixels of the
    four sides get the colour, every other visible pixel keeps its own, no
    debugger trap is raised and the frame buffer is not touched. *)
Theorem rectangle_picture (d : display) (x y w h r g b px py : Z) :
  display_wf d -> 0 < w -> 0 < h ->
  visible (d_mode d) x y -> visible (d_mode d) (x + w) (y + h) ->
  in_u 32 r -> in_u 32 g -> in_u 32 b -> visible (d_mode d) px py ->
  exists d', putpixels (rectangle x y w h r g b) d = Ok d' /\ display_wf d' /\
    d_fb d' = d_fb d /\ d_traps d' = d_traps d /\
    pixel_at (d_buffer d') (d_mode d) px py =
      if decide (outline x y w h px py) then [u8 b; u8 g; u8 r]
      else pixel_at (d_buffer d) (d_mode d) px py.
Proof.
  intros Hwf Hw Hh Hv Hv' Hr Hg Hb Hp. pose proof (rectangle_color x y w h r g b Hw Hh) as Hc.
  destruct (putpixels_visible (rectangle x y w h r g b) d Hwf) as (d' & E & Hwf' & Hm & Hf & Ht & Hpix).
  { by apply rectangle_on_screen. }
  { exact (color_const _ r g b Hr Hg Hb Hc). }
  exists d'. do 4 (split; [done|]). rewrite Hpix by done. rewrite (paint_const _ _ _ _ r g b Hc).
  rewrite existsb_outline by done. by case_bool_decide; case_decide.
Qed.

(** A display of 4 x 3 pixels. *)
Definition small_display : display :=
  Display (tiny_mode 4 3 32 16) (replicate 48 7) 48 (replicate 48 1) 0.

Lemma small_display_wf : display_wf small_display.
Proof. split; [split|..]; vm_compute; done. Qed.

(** Example: the middle pixel of a 3 x 3 outline is left alone. *)
Lemma rectangle_picture_witness :
  exists d', putpixels (rectangle 1 0 2 2 9 8 7) small_display = Ok d' /\ display_wf d' /\
    d_fb d' = d_fb small_display /\ d_traps d' = d_traps small_display /\
    pixel_at (d_buffer d') (d_mode small_display) 2 1 =
      if decide (outline 1 0 2 2 2 1) then [u8 7; u8 8; u8 9]
      else pixel_at (d_buffer small_display) (d_mode small_display) 2 1.
Proof.
  apply (rectangle_picture small_display 1 0 2 2 9 8 7 2 1);
    [exact small_display_wf|lia|lia|split; vm_compute; done|split; vm_compute; done|clia|clia|clia|split; vm_compute; done].
Defined.

(** [drawchar] shows the glyph: the pixel in column [i] of row [j] becomes the
    colour where the glyph has a dot there, black where it has a space, and stays
    as it was elsewhere. *)
Theorem drawchar_picture (font : Z -> option bytes) (d : display) (gw gh x y c r g b : Z) (f : bytes) (i j : nat) :
  display_wf d -> font_ok gw gh font -> font c = Some f -> Forall glyph_char f ->
  0 <= x -> 0 <= y -> x + gw <= XResolution (d_mode d) -> y + gh <= YResolution (d_mode d) ->
  in_u 32 r -> in_u 32 g -> in_u 32 b ->
  visible (d_mode d) (x + Z.of_nat i) (y + Z.of_nat j) ->
  exists d', putpixels (drawchar font x y c r g b) d = Ok d' /\ display_wf d' /\ d_traps d' = d_traps d /\
    pixel_at (d_buffer d') (d_mode d) (x + Z.of_nat i) (y + Z.of_nat j) =
      cell_color (rows f !! j ≫= fun row => row !! i) r g b
        (pixel_at (d_buffer d) (d_mode d) (x + Z.of_nat i) (y + Z.of_nat j)).
Proof.
  intros Hwf Hf Hc Hg0 Hx Hy HX HY Hr Hg Hb Hv.
  destruct (putpixels_visible (drawchar font x y c r g b) d Hwf) as (d' & E & Hwf' & Hm & Hfb & Ht & Hpix).
  { eapply Forall_impl; [by apply (drawchar_box gw gh)|]. unfold in_box, on_screen, visible. lia. }
  { unfold drawchar. rewrite Hc. by apply glyph_color. }
  exists d'. do 3 (split; [done|]). rewrite Hpix by done. unfold drawchar. rewrite Hc.
  rewrite (glyph_paint f x y r g b i j 0 0) by done. f_equal.
  destruct (rows_cons f) as (r0 & rest & ->). unfold cell_from. destruct (decide (j = 0%nat)) as [->|].
  - rewrite decide_True by lia. by rewrite Nat.sub_0_r.
  - rewrite decide_True by lia. by destruct j; [|rewrite Nat.sub_0_r; cbn; rewrite Nat.sub_0_r].
Qed.

(** A font with one glyph of two rows, and a space. *)
Definition tiny_font (c : Z) : option bytes :=
  if c =? 97 then Some [46; 32; 10; 46] else if c =? 32 then Some [32] else None.

Lemma tiny_font_ok : font_ok 2 2 tiny_font.
Proof.
  split; [|done]. intros c f. unfold tiny_font. destruct (c =? 97); [|destruct (c =? 32); [|done]];
    intros [= <-]; (split; [repeat constructor; vm_compute; done|vm_compute; done]).
Qed.

(** Example: the dot in the second row. *)
Lemma drawchar_picture_witness :
  exists d', putpixels (drawchar tiny_font 1 1 97 3 4 5) small_display = Ok d' /\ display_wf d' /\
    d_traps d' = d_traps small_display /\
    pixel_at (d_buffer d') (d_mode small_display) 1 2 = [5; 4; 3].
Proof.
  apply (drawchar_picture tiny_font small_display 2 2 1 1 97 3 4 5 [46; 32; 10; 46] 0 1);
    [exact small_display_wf|exact tiny_font_ok|done|unfold glyph_char, newline, char_dot, char_space; repeat (constructor; [lia|]); constructor|lia|lia|vm_compute; done|vm_compute; done|clia|clia|clia|split; vm_compute; done].
Defined.

(** C22. One frame of the display task: on a screen with room for the font, whatever
    the text on the terminal, every call of [putpixel] is on the screen, so no
    trap is raised; the frame buffer then shows, over what the other tasks had drawn,
    a white border, the purple one inside it when it is on, the memory message at the
    right edge, the lines of the terminal and the cursor after the last one, each glyph
    with its dots white and its spaces black; and the back buffer is black again. *)
Theorem display_frame_shown (font : Z -> option bytes) (gw gh : Z) (space_glyph : bytes)
    (d : display) (tilda : bool) (bytes_used : Z) (lines : list bytes) :
  let W := XResolution (d_mode d) in let H := YResolution (d_mode d) in
  font_ok gw gh font -> (forall c f, font c = Some f -> Forall glyph_char f) ->
  font char_space = Some space_glyph -> fits 8 gh space_glyph ->
  screen_ok W H gw gh -> gw <= 16 -> 150 + gh <= H -> 0 <= bytes_used ->
  8 * slen (memory_message bytes_used) <= W ->
  display_wf d -> terminal_wf W H lines -> term_text lines ->
  exists d', display_frame font W H tilda bytes_used lines d = Ok d' /\ display_wf d' /\
    d_traps d' = d_traps d /\ d_buffer d' = replicate (length (d_buffer d)) 0 /\
    forall x y, visible (d_mode d) x y ->
      pixel_at (d_fb d') (d_mode d) x y =
        frame_picture font W H tilda (memory_message bytes_used) lines x y (pixel_at (d_buffer d) (d_mode d) x y).
Proof.
  intros W H Hf Hgc Hs Hfit Hso Hgw Hgh Hn Hm Hwf Hterm Ht.
  destruct (frame_on_screen font gw gh space_glyph (d_mode d) tilda bytes_used lines) as [H1 H2]; [done..|].
  destruct (putpixels_visible _ d Hwf H1 H2) as (d1 & E & Hwf1 & Hm1 & Hf1 & Ht1 & Hpix).
  unfold display_frame. fold W H in E, Hpix. rewrite E. cbn [mbind res_bind].
  destruct (swap_buffers_ok d1 Hwf1) as (d2 & E2 & Hwf2 & Ht2 & Hfb2 & Hb2). exists d2.
  assert (length (d_buffer d1) = length (d_buffer d)) as Hl.
  { pose proof (wf_buffer _ Hwf). pose proof (wf_buffer _ Hwf1). pose proof (wf_len _ Hwf). pose proof (wf_len _ Hwf1).
    rewrite Hm1 in *. lia. }
  split; [done|]. split; [done|]. split; [congruence|]. split; [by rewrite Hb2, Hl|].
  intros x y Hv. rewrite Hfb2, pixel_at_app; [|apply Hwf| |done].
  { rewrite Hpix by done. apply (frame_paint gw gh); try done; destruct Hso as [? HW HH]; unfold pad_x, pad_y in *; lia. }
  pose proof (wf_buffer _ Hwf). pose proof (wf_len _ Hwf). lia.
Qed.

(** A display of 256 x 160 pixels. *)
Definition big_display : display :=
  Display (tiny_mode 256 160 32 1024) (replicate (Z.to_nat 163840) 0) 163840 (replicate (Z.to_nat 163840) 0) 0.

Lemma big_display_wf : display_wf big_display.
Proof.
  split; cbn [big_display d_mode d_len d_buffer d_fb]; [split; vm_compute; done|vm_compute; done|..];
    rewrite length_replicate; lia.
Qed.

Lemma tiny_font_glyphs c f : tiny_font c = Some f -> Forall glyph_char f.
Proof.
  unfold tiny_font. unfold glyph_char, newline, char_dot, char_space. destruct (c =? 97); [|destruct (c =? 32); [|done]]; intros [= <-]; repeat (constructor; [lia|]); constructor.
Qed.

(** Witness of C22: the boot terminal on that screen. *)
Lemma display_frame_shown_witness :
  exists d', display_frame tiny_font 256 160 true 7 terminal_init big_display = Ok d' /\ display_wf d' /\
    d_traps d' = 0%nat /\ d_buffer d' = replicate (length (d_buffer big_display)) 0 /\
    forall x y, visible (d_mode big_display) x y ->
      pixel_at (d_fb d') (d_mode big_display) x y =
        frame_picture tiny_font 256 160 true (memory_message 7) terminal_init x y (pixel_at (d_buffer big_display) (d_mode big_display) x y).
Proof.
  apply (display_frame_shown tiny_font 2 2 [32] big_display true 7 terminal_init).
  - exact tiny_font_ok.
  - exact tiny_font_glyphs.
  - done.
  - split; [repeat constructor; vm_compute; done|vm_compute; done].
  - split; vm_compute; repeat split; discriminate.
  - lia.
  - vm_compute. discriminate.
  - lia.
  - vm_compute. discriminate.
  - exact big_display_wf.
  - apply terminal_init_wf. vm_compute. done.
  - apply term_text_init.
Defined.
