(* ===== verification/Stdio.v ===== *)
(** * Buffered output ([src/dep/musl/src/stdio]) and the Lua functions on it

    [print], [io.write] and [io.flush] of the kernel's Lua write to the C stream
    [stdout], whose bytes reach the terminal through the [writev] system call.
    A stream's pointers are offsets into its buffer, [None] for a null pointer;
    streams are for writing only here ([rpos] and [rend] stay null).  The system
    calls are parameters: the theorems hold for every [writev] that takes some
    bytes at each call, and the last section uses the kernel's own. *)

From S2P Require Import Prelude LuaStr LuaRef Terminal FileSys Syscall.

Definition F_PERM : Z := 1.
Definition F_NORD : Z := 4.
Definition F_NOWR : Z := 8.
Definition F_ERR : Z := 32.
Definition F_SVB : Z := 64.
Definition EOF : Z := -1.
Definition BUFSIZ : Z := 1024.

Record FILE := MkFile {
  flags : Z;
  wend : option Z;
  wpos : option Z;
  wbase : option Z;
  buf : bytes;
  fd : Z;
  mode : Z;
  lbf : Z;
  is_stdout : bool;       (* [write] is [__stdout_write], not [__stdio_write] *)
}.

Definition buf_size (f : FILE) : Z := slen (buf f).

(** [stdout] before its first use. *)
Definition stdout_init : FILE :=
  MkFile (F_PERM ||| F_NORD) None None None (replicate (Z.to_nat BUFSIZ) 0) 1 0 newline true.

Definition set_ptrs (f : FILE) (e p b : option Z) : FILE :=
  MkFile (flags f) e p b (buf f) (fd f) (mode f) (lbf f) (is_stdout f).

Definition set_flags (f : FILE) (x : Z) : FILE :=
  MkFile x (wend f) (wpos f) (wbase f) (buf f) (fd f) (mode f) (lbf f) (is_stdout f).

(** [wpos = wbase = buf], [wend = buf + buf_size]. *)
Definition reset (f : FILE) : FILE := set_ptrs f (Some (buf_size f)) (Some 0) (Some 0).

(** [wpos - wbase], with null pointers. *)
Definition ptr_diff (p b : option Z) : res Z :=
  match p, b with
  | Some p, Some b => Ok (p - b)
  | None, None => Ok 0
  | _, _ => Err Undefined
  end.

(** The [n] bytes of the buffer at [b]. *)
Definition buf_at (f : FILE) (b : option Z) (n : Z) : bytes :=
  take (Z.to_nat n) (drop (Z.to_nat (default 0 b)) (buf f)).

Section Stdio.
(** The system calls: [writev] with the contents of the array, and the result
    of the [TCGETS] query. *)
Context {K : Type} (writev : K -> Z -> list bytes -> res (K * Z)) (tcgets : K -> Z -> Z).

Definition __towrite (f : FILE) : FILE * Z :=
  let m := swrap 8 (mode f ||| (mode f - 1)) in
  let f := MkFile (flags f) (wend f) (wpos f) (wbase f) (buf f) (fd f) m (lbf f) (is_stdout f) in
  if negb (flags f &&& F_NOWR =? 0) then (set_flags f (flags f ||| F_ERR), EOF)
  else (reset f, 0).

(** The loop of [__stdio_write]: [iov] is what the array still holds. *)
Fixpoint write_loop (fuel : nat) (k : K) (f : FILE) (iov : list bytes) (len rem : Z) : res (K * FILE * Z) :=
  match fuel with
  | O => Err NoFuel
  | S fuel' =>
      '(k, cnt) ← writev k (fd f) iov;
      if cnt =? rem then Ok (k, reset f, len)
      else if cnt <? 0 then
        let f := set_flags (set_ptrs f None None None) (flags f ||| F_ERR) in
        match iov with
        | [_; _] => Ok (k, f, 0)
        | [v] => Ok (k, f, len - slen v)
        | _ => Err Undefined
        end
      else
        let rem := rem - cnt in
        match iov with
        | v0 :: iov' =>
            if cnt >? slen v0 then
              let f := set_ptrs f (wend f) (Some 0) (Some 0) in
              let cnt := cnt - slen v0 in
              match iov' with
              | v1 :: iov'' =>
                  if cnt <=? slen v1
                  then write_loop fuel' k f (drop (Z.to_nat cnt) v1 :: iov'') len rem
                  else Err Undefined
              | [] => Err Undefined
              end
            else
              let f := match iov' with
                | [_] => set_ptrs f (wend f) (wpos f) ((fun b => b + cnt) <$> wbase f)
                | _ => f
                end in
              write_loop fuel' k f (drop (Z.to_nat cnt) v0 :: iov') len rem
        | [] => Err Undefined
        end
  end.

Definition __stdio_write (k : K) (f : FILE) (s : bytes) : res (K * FILE * Z) :=
  n ← ptr_diff (wpos f) (wbase f);
  let rem := n + slen s in
  write_loop (S (Z.to_nat rem)) k f [buf_at f (wbase f) n; s] (slen s) rem.

Definition __stdout_write (k : K) (f : FILE) (s : bytes) : res (K * FILE * Z) :=
  let l := if (flags f &&& F_SVB =? 0) && negb (tcgets k (fd f) =? 0) then -1 else lbf f in
  let f := MkFile (flags f) (wend f) (wpos f) (wbase f) (buf f) (fd f) (mode f) l false in
  __stdio_write k f s.

(** [f->write(f, s, l)]. *)
Definition f_write (k : K) (f : FILE) (s : bytes) : res (K * FILE * Z) :=
  if is_stdout f then __stdout_write k f s else __stdio_write k f s.

(** [for (i=l; i && s[i-1] != '\n'; i--);] *)
Fixpoint newline_loop (s : bytes) (i : nat) : nat :=
  match i with
  | O => O
  | S i' => if decide (s !! i' = Some newline) then i else newline_loop s i'
  end.

(** [memcpy(f->wpos, s, l); f->wpos += l;] *)
Definition buffer_bytes_in (f : FILE) (s : bytes) : res FILE :=
  match wpos f with
  | Some p =>
      if decide (0 <= p /\ p + slen s <= buf_size f) then
        Ok (MkFile (flags f) (wend f) (Some (p + slen s)) (wbase f)
              (take (Z.to_nat p) (buf f) ++ s ++ drop (Z.to_nat (p + slen s)) (buf f))
              (fd f) (mode f) (lbf f) (is_stdout f))
      else Err Undefined
  | None => Err Undefined
  end.

Definition __fwritex (k : K) (f : FILE) (s : bytes) : res (K * FILE * Z) :=
  let '(f, r) := match wend f with None => __towrite f | Some _ => (f, 0) end in
  if negb (r =? 0) then Ok (k, f, 0) else
  room ← ptr_diff (wend f) (wpos f);
  if slen s >? room then f_write k f s else
  let i := if 0 <=? lbf f then newline_loop s (length s) else O in
  if (0 <? i)%nat then
    '(k, f, r) ← f_write k f (take i s);
    if r <? Z.of_nat i then Ok (k, f, Z.of_nat i) else
    f ← buffer_bytes_in f (drop i s);
    Ok (k, f, slen (drop i s) + Z.of_nat i)
  else
    f ← buffer_bytes_in f s;
    Ok (k, f, slen s + Z.of_nat i).

(** [fwrite(s, size, nmemb, f)] with [s] of [size * nmemb] bytes. *)
Definition fwrite (k : K) (f : FILE) (s : bytes) (size nmemb : Z) : res (K * FILE * Z) :=
  let l := u64 (size * nmemb) in
  '(k, f, n) ← __fwritex k f s;
  if n =? l then Ok (k, f, nmemb)
  else if size =? 0 then Err Undefined else Ok (k, f, n / size).

Definition fflush (k : K) (f : FILE) : res (K * FILE * Z) :=
  n ← ptr_diff (wpos f) (wbase f);
  if 0 <? n then
    '(k, f, _) ← f_write k f [];
    match wpos f with
    | None => Ok (k, f, EOF)
    | Some _ => Ok (k, set_ptrs f None None None, 0)
    end
  else Ok (k, set_ptrs f None None None, 0).

(** ** The Lua functions *)

(** [io.write(s)]: whether every byte was accepted. *)
Definition io_write (k : K) (f : FILE) (s : bytes) : res (K * FILE * bool) :=
  '(k, f, n) ← fwrite k f s 1 (slen s);
  Ok (k, f, n =? slen s).

Definition io_flush (k : K) (f : FILE) : res (K * FILE * bool) :=
  '(k, f, r) ← fflush k f;
  Ok (k, f, r =? 0).

(** [luai_writestring]. *)
Definition writestring (k : K) (f : FILE) (s : bytes) : res (K * FILE) :=
  '(k, f, _) ← fwrite k f s 1 (slen s);
  Ok (k, f).

(** The arguments of [print], already converted with [tostring]; [first] is
    false after the first one. *)
Fixpoint print_loop (k : K) (f : FILE) (first : bool) (args : list bytes) : res (K * FILE) :=
  match args with
  | [] => Ok (k, f)
  | s :: args' =>
      '(k, f) ← (if first then Ok (k, f) else writestring k f [9]);
      '(k, f) ← writestring k f s;
      print_loop k f false args'
  end.

Definition luaB_print (k : K) (f : FILE) (args : list bytes) : res (K * FILE) :=
  '(k, f) ← print_loop k f true args;
  '(k, f) ← writestring k f [newline];
  '(k, f, _) ← fflush k f;
  Ok (k, f).

(** ** What a stream holds *)

(** The bytes between [wbase] and [wpos]. *)
Definition pending (f : FILE) : bytes :=
  match wbase f, wpos f with
  | Some b, Some p => buf_at f (Some b) (p - b)
  | _, _ => []
  end.

(** The descriptor of the stream. *)
Context (d : Z).

(** All pointers null, or inside the buffer with [wend] at its end. *)
Record file_wf (f : FILE) : Prop := {
  fw_ptrs : (wend f = None /\ wpos f = None /\ wbase f = None) \/
    exists b p, wend f = Some (buf_size f) /\ wpos f = Some p /\ wbase f = Some b /\ 0 <= b <= p /\ p <= buf_size f;
  fw_flags : flags f &&& F_NOWR = 0;
  fw_fd : fd f = d;
  fw_size : buf_size f = BUFSIZ;
}.

Lemma pending_reset f : pending (reset f) = [].
Proof. done. Qed.

Lemma file_wf_reset f : file_wf f -> file_wf (reset f).
Proof.
  intros [_ Hf Hd Hz]. split; [|done|done|done]. right. exists 0, 0. split_and!; try done. cbn. unfold buf_size, slen. lia.
Qed.

Lemma ptr_diff_wf f : file_wf f -> ptr_diff (wpos f) (wbase f) = Ok (slen (pending f)) /\
  pending f = buf_at f (wbase f) (slen (pending f)).
Proof.
  intros [[(_ & Hp & Hb)|(b & p & _ & Hp & Hb & H1 & H2)] _ _ _]; unfold pending; rewrite Hp, Hb.
  - done.
  - assert (slen (buf_at f (Some b) (p - b)) = p - b) as ->; [|done].
    unfold slen, buf_at, buf_size, slen in *. cbn. rewrite length_take, length_drop. lia.
Qed.

Lemma pending_bound f : file_wf f -> slen (pending f) <= BUFSIZ.
Proof.
  intros Hf. rewrite <- (fw_size f Hf). unfold pending.
  destruct (wbase f), (wpos f); try (unfold buf_size, slen; cbn; lia).
  unfold buf_at, buf_size, slen. rewrite length_take, length_drop. lia.
Qed.

(** ** Delivery

    A relation for what the device has received; [writev] takes some of the bytes
    it is offered, in order, as long as they are at most [limit]. *)
Context (K_ok : K -> Prop) (sent : K -> bytes -> K -> Prop) (limit : Z).
Hypothesis sent_nil : forall k, K_ok k -> sent k [] k.
Hypothesis sent_app : forall k1 k2 k3 a b, sent k1 a k2 -> sent k2 b k3 -> sent k1 (a ++ b) k3.
Hypothesis writev_takes : forall k iov, K_ok k -> (length iov <= 2)%nat -> slen (concat iov) <= limit ->
  exists k' cnt, writev k d iov = Ok (k', cnt) /\ K_ok k' /\
    (cnt = slen (concat iov) \/ 0 < cnt < slen (concat iov)) /\
    sent k (take (Z.to_nat cnt) (concat iov)) k'.

(** What the loop leaves alone. *)
Definition same_file (f g : FILE) : Prop := reset f = reset g.

Lemma write_loop_sends fuel : forall k f iov len,
  K_ok k -> fd f = d -> slen (concat iov) <= limit -> (length (concat iov) < fuel)%nat ->
  ((exists v, iov = [v]) \/ (exists v w, iov = [v; w])) ->
  exists k', write_loop fuel k f iov len (slen (concat iov)) = Ok (k', reset f, len) /\ K_ok k' /\
    sent k (concat iov) k'.
Proof.
  induction fuel as [|fuel IH]; intros k f iov len Hk Hd Hl Hf Hiov; [lia|]. cbn [write_loop].
  rewrite Hd. destruct (writev_takes k iov Hk) as (k1 & cnt & -> & Hk1 & Hcnt & Hs);
    [destruct Hiov as [(v & ->)|(v & w & ->)]; cbn; lia|done|]. cbn [mbind res_bind].
  destruct Hcnt as [->|Hcnt].
  { rewrite Z.eqb_refl. exists k1. split; [done|]. split; [done|].
    unfold slen in Hs. rewrite Nat2Z.id, take_ge in Hs by lia. done. }
  rewrite (proj2 (Z.eqb_neq _ _)), (proj2 (Z.ltb_ge _ _)) by lia. cbv zeta.
  assert (forall f' iov', concat iov' = drop (Z.to_nat cnt) (concat iov) -> reset f' = reset f -> fd f' = d ->
    ((exists v, iov' = [v]) \/ (exists v w, iov' = [v; w])) ->
    exists k', write_loop fuel k1 f' iov' len (slen (concat iov) - cnt) = Ok (k', reset f, len) /\ K_ok k' /\
      sent k (concat iov) k') as Hgo.
  { intros f' iov' E Ef Hd' Hiov'. assert (slen (concat iov') = slen (concat iov) - cnt) as El.
    { rewrite E. unfold slen in *. rewrite length_drop. lia. }
    destruct (IH k1 f' iov' len Hk1 Hd') as (k2 & E2 & Hk2 & Hs2); [lia|unfold slen in *; lia|done|].
    rewrite <- El, <- Ef. exists k2. split; [done|]. split; [done|].
    rewrite <- (take_drop (Z.to_nat cnt) (concat iov)), <- E. by eapply sent_app. }
  destruct Hiov as [(v & ->)|(v & w & ->)]; cbn [concat] in *.
  - rewrite app_nil_r in *. rewrite Z.gtb_ltb, (proj2 (Z.ltb_ge _ _)) by lia. apply Hgo; [|done|done|by eauto].
    cbn. by rewrite app_nil_r.
  - rewrite app_nil_r in *. assert (slen (v ++ w) = slen v + slen w) as Evw by (unfold slen; rewrite length_app; lia).
    rewrite Z.gtb_ltb. destruct (Z.ltb_spec (slen v) cnt).
    + rewrite (proj2 (Z.leb_le _ _)) by lia. apply Hgo; [|done|done|by eauto]. cbn. rewrite app_nil_r.
      unfold slen in *. rewrite drop_app_ge by lia. f_equal. lia.
    + apply Hgo; [|done|done|by eauto]. cbn. rewrite app_nil_r. unfold slen in *. by rewrite drop_app_le by lia.
Qed.

Lemma f_write_sends k f s :
  K_ok k -> file_wf f -> slen (pending f ++ s) <= limit ->
  exists k' f', f_write k f s = Ok (k', f', slen s) /\ K_ok k' /\ sent k (pending f ++ s) k' /\
    file_wf f' /\ pending f' = [] /\ wpos f' = Some 0 /\ buf_size f' = buf_size f /\
    wend f' = Some (buf_size f) /\ (lbf f' = lbf f \/ lbf f' = -1) /\
    ((forall k, tcgets k d = 0) -> lbf f' = lbf f).
Proof.
  intros Hk Hf Hl.
  assert (forall g, file_wf g -> is_stdout g = false -> pending g = pending f -> buf_size g = buf_size f ->
    exists k', __stdio_write k g s = Ok (k', reset g, slen s) /\ K_ok k' /\ sent k (pending f ++ s) k') as H.
  { intros g Hg _ Ep _. unfold __stdio_write. destruct (ptr_diff_wf g Hg) as [-> Eb]. cbn [mbind res_bind].
    rewrite <- Eb, Ep.
    destruct (write_loop_sends (S (Z.to_nat (slen (pending f) + slen s))) k g [pending f; s] (slen s)) as (k' & E & Hk' & Hs).
    - done.
    - apply Hg.
    - cbn. by rewrite app_nil_r.
    - cbn. unfold slen. rewrite app_nil_r, length_app. lia.
    - right. by eauto.
    - change (concat [pending f; s]) with (pending f ++ s ++ []) in *. rewrite app_nil_r in *. exists k'.
      split; [|done]. rewrite <- E. f_equal. unfold slen. rewrite length_app. lia. }
  unfold f_write. destruct (is_stdout f) eqn:Eo.
  - unfold __stdout_write. set (l := if _ && _ then -1 else lbf f). set (g := MkFile _ _ _ _ _ _ _ _ _).
    assert (file_wf g) as Hg by (destruct Hf as [H1 H2 H3 H4]; split; [exact H1|exact H2|exact H3|exact H4]).
    destruct (H g Hg) as (k' & E & Hk' & Hs); [done..|]. exists k', (reset g). split; [done|]. split; [done|].
    split; [done|]. split; [by apply file_wf_reset|]. do 4 (split; [done|]). split.
    + cbn. unfold l. destruct (_ && _); [by right|by left].
    + intros Htc. cbn. unfold l. rewrite (fw_fd f Hf), Htc. by rewrite andb_false_r.
  - destruct (H f Hf) as (k' & E & Hk' & Hs); [done..|]. exists k', (reset f). split; [done|]. split; [done|].
    split; [done|]. split; [by apply file_wf_reset|]. do 4 (split; [done|]). split; [by left|done].
Qed.

(** The bytes up to the last newline. *)
Lemma newline_loop_spec s : forall i, (i <= length s)%nat ->
  (newline_loop s i <= i)%nat /\ newline ∉ drop (newline_loop s i) (take i s).
Proof.
  induction i as [|i IH]; intros Hi; cbn [newline_loop].
  { split; [lia|]. rewrite drop_0. cbn. apply not_elem_of_nil. }
  destruct (decide (s !! i = Some newline)) as [E|E].
  - split; [lia|]. rewrite drop_ge by (rewrite length_take; lia). apply not_elem_of_nil.
  - destruct (IH ltac:(lia)) as [H1 H2]. split; [lia|].
    destruct (lookup_lt_is_Some_2 s i ltac:(lia)) as [c Ec]. rewrite (take_S_r s i c Ec).
    rewrite drop_app_le by (rewrite length_take; lia). rewrite not_elem_of_app, list_elem_of_singleton.
    split; [done|]. congruence.
Qed.

Lemma newline_suffix s : newline ∉ drop (newline_loop s (length s)) s.
Proof. destruct (newline_loop_spec s (length s) ltac:(done)) as [_ H]. by rewrite firstn_all in H. Qed.

(** An active stream: write pointers inside the buffer. *)
Definition active (f : FILE) (p : Z) : Prop :=
  file_wf f /\ wpos f = Some p /\ wend f = Some (buf_size f).

Lemma buffer_bytes_in_spec f p s :
  active f p -> p + slen s <= buf_size f ->
  exists f', buffer_bytes_in f s = Ok f' /\ active f' (p + slen s) /\ pending f' = pending f ++ s /\
    lbf f' = lbf f /\ buf_size f' = buf_size f.
Proof.
  intros (Hf & Hp & He) Hr. destruct Hf as [[(_ & Hp' & _)|(b & p' & _ & Hp' & Hb & H1 & H2)] Hfl Hfd Hfz]; [congruence|].
  rewrite Hp in Hp'. injection Hp' as <-. unfold buffer_bytes_in. rewrite Hp.
  rewrite decide_True by (unfold slen in *; lia).
  assert (forall x, length (take (Z.to_nat p) (buf f) ++ s ++ drop x (buf f)) = (Z.to_nat p + length s + (length (buf f) - x))%nat) as Hlen.
  { intros x. rewrite !length_app, length_take, length_drop. unfold buf_size, slen in *. lia. }
  eexists. split; [done|]. unfold buf_size, slen in *. split; [|split; [|split; [done|]]].
  - split; [|split; [done|unfold buf_size, slen; cbn [wend buf]; rewrite Hlen, He; f_equal; unfold buf_size, slen; lia]].
    split; [|done|done|unfold buf_size, slen in *; cbn [buf]; rewrite Hlen; lia]. right. exists b, (p + Z.of_nat (length s)).
    unfold buf_size, slen. cbn [wend wpos wbase buf]. rewrite Hlen, He. unfold buf_size, slen. split_and!; try done; f_equal; lia.
  - unfold pending. cbn [wbase wpos]. rewrite Hp, Hb. unfold buf_at. cbn [buf]. change (default 0 (Some b)) with b.
    rewrite drop_app_le by (rewrite length_take; lia).
    rewrite (take_app_ge _ _ (Z.to_nat (p + Z.of_nat (length s) - b))) by (rewrite length_drop, length_take; lia).
    rewrite length_drop, length_take. f_equal.
    + replace (Z.to_nat p) with (Z.to_nat b + Z.to_nat (p - b))%nat by lia. by rewrite <- take_drop_commute.
    + rewrite take_app_le by lia. apply take_ge. lia.
  - cbn [buf]. rewrite Hlen. lia.
Qed.

(** The state of line buffering: no newline waits in the buffer. *)
Definition line_buffered (f : FILE) : Prop := 0 <= lbf f -> newline ∉ pending f.

(** Output keeps it, and the mode when the device is a terminal. *)
Definition buffering_kept (f f' : FILE) : Prop :=
  (line_buffered f -> line_buffered f') /\ ((forall k, tcgets k d = 0) -> lbf f' = lbf f).

(** [fwrite] passes on the bytes before it, in order, and keeps the rest. *)
Lemma fwritex_sends k f s :
  K_ok k -> file_wf f -> slen (pending f ++ s) <= limit ->
  exists k' f' a, __fwritex k f s = Ok (k', f', slen s) /\ K_ok k' /\ file_wf f' /\
    sent k a k' /\ pending f ++ s = a ++ pending f' /\ buffering_kept f f'.
Proof.
  intros Hk Hf Hl. unfold __fwritex.
  assert (exists g p, (match wend f with None => __towrite f | Some _ => (f, 0) end) = (g, 0) /\
    active g p /\ pending g = pending f /\ lbf g = lbf f /\ 0 <= p <= buf_size g) as (g & p & -> & Hg & Ep & El & Hp).
  { destruct Hf as [[(He & Hp & Hb)|(b & p & He & Hp & Hb & H1 & H2)] Hfl Hfd Hfz]; rewrite He.
    - unfold __towrite. cbn [flags]. rewrite Hfl. cbn [negb Z.eqb]. eexists _, 0. split; [done|].
      split; [split; [apply file_wf_reset; split; [by left|done|done|done]|done]|].
      unfold pending. rewrite Hb. split; [done|]. split; [done|]. cbn. unfold buf_size, slen. lia.
    - exists f, p. split; [done|]. split; [split; [split; [right; by exists b, p|done|done|done]|done]|]. split; [done|]. split; [done|lia]. }
  change (negb (0 =? 0)) with false. cbv iota. pose proof Hg as (Hgw & Hgp & Hge). rewrite Hge, Hgp. cbn [ptr_diff mbind res_bind].
  rewrite <- Ep in *. destruct (Z.gtb_spec (slen s) (buf_size g - p)) as [Hbig|Hfit].
  { destruct (f_write_sends k g s Hk Hgw Hl) as (k' & f' & E & Hk' & Hs & Hf' & Hpn & _ & _ & _ & _ & Hlk).
    exists k', f', (pending g ++ s). split; [done|]. split; [done|]. split; [done|]. split; [done|].
    rewrite Hpn, app_nil_r. split; [done|]. split; [|intros Htc; by rewrite Hlk].
    intros _ _. rewrite Hpn. apply not_elem_of_nil. }
  set (i := if 0 <=? lbf g then newline_loop s (length s) else 0%nat).
  assert (i <= length s)%nat as Hi.
  { unfold i. destruct (0 <=? _); [|lia]. by apply newline_loop_spec. }
  assert (0 <= lbf g -> newline ∉ drop i s) as Hnl.
  { intros Hlb. unfold i. rewrite (proj2 (Z.leb_le _ _) Hlb). apply newline_suffix. }
  destruct (Nat.ltb_spec 0 i) as [Hi0|Hi0].
  - destruct (f_write_sends k g (take i s) Hk Hgw) as (k1 & f1 & -> & Hk1 & Hs & Hf1 & Hpn & Hp1 & Hb1 & He1 & Hl1 & Hlk).
    { unfold slen in *. rewrite length_app, length_take in *. lia. }
    cbn [mbind res_bind]. assert (slen (take i s) = Z.of_nat i) as -> by (unfold slen; rewrite length_take; lia).
    rewrite Z.ltb_irrefl.
    destruct (buffer_bytes_in_spec f1 0 (drop i s)) as (f2 & -> & Hf2 & Hpn2 & Hl2 & Hb2).
    { split; [done|]. split; [done|congruence]. }
    { rewrite Hb1. unfold slen in *. rewrite length_drop. lia. }
    cbn [mbind res_bind]. exists k1, f2, (pending g ++ take i s).
    split; [do 2 f_equal; unfold slen; rewrite length_drop; lia|]. split; [done|]. split; [apply Hf2|]. split; [done|].
    rewrite Hpn2, Hpn. split; [by rewrite app_nil_l, <- app_assoc, take_drop|].
    split; [|intros Htc; rewrite Hl2, Hlk; done].
    intros _. unfold line_buffered. rewrite Hl2, Hpn2, Hpn. intros Hlb. apply Hnl.
    destruct Hl1 as [Hl1|Hl1]; lia.
  - assert (i = 0%nat) as Ei by lia. destruct (buffer_bytes_in_spec g p s Hg) as (f2 & -> & Hf2 & Hpn2 & Hl2 & Hb2); [lia|].
    cbn [mbind res_bind]. exists k, f2, []. split; [do 2 f_equal; lia|]. split; [done|]. split; [apply Hf2|].
    split; [by apply sent_nil|]. split; [by rewrite Hpn2|].
    split; [|intros _; congruence]. unfold line_buffered. rewrite Hl2, Hpn2, <- El, <- Ep. intros Hlf Hlb. rewrite not_elem_of_app. split; [by apply Hlf|].
    specialize (Hnl Hlb). by rewrite Ei, drop_0 in Hnl.
Qed.

Lemma fwrite_sends k f s :
  K_ok k -> file_wf f -> slen (pending f ++ s) <= limit -> limit < 2 ^ 64 ->
  exists k' f' a, fwrite k f s 1 (slen s) = Ok (k', f', slen s) /\ K_ok k' /\ file_wf f' /\
    sent k a k' /\ pending f ++ s = a ++ pending f' /\ buffering_kept f f'.
Proof.
  intros Hk Hf Hl Hlim. destruct (fwritex_sends k f s Hk Hf Hl) as (k' & f' & a & E & H).
  exists k', f', a. split; [|done]. unfold fwrite. rewrite E. cbn [mbind res_bind].
  rewrite Z.mul_1_l, wrap_small, Z.eqb_refl; [done|]. unfold slen in *. rewrite length_app in Hl. clia.
Qed.

Lemma fflush_sends k f :
  K_ok k -> file_wf f -> slen (pending f) <= limit ->
  exists k' f', fflush k f = Ok (k', f', 0) /\ K_ok k' /\ file_wf f' /\
    sent k (pending f) k' /\ pending f' = [] /\ ((forall k, tcgets k d = 0) -> lbf f' = lbf f).
Proof.
  intros Hk Hf Hl. unfold fflush. destruct (ptr_diff_wf f Hf) as [-> _]. cbn [mbind res_bind].
  destruct (Z.ltb_spec 0 (slen (pending f))) as [Hp|Hp].
  - destruct (f_write_sends k f [] Hk Hf) as (k' & f' & -> & Hk' & Hs & Hf' & _ & Hp' & _ & _ & _ & Hlk); [by rewrite app_nil_r|].
    cbn [mbind res_bind]. rewrite Hp'. rewrite app_nil_r in Hs. eexists k', _. split; [done|]. split; [done|].
    split; [split; [by left|apply Hf'|apply Hf'|apply Hf']|]. split; [done|]. split; [done|exact Hlk].
  - assert (pending f = []) as E by (destruct (pending f); [done|unfold slen in Hp; cbn in Hp; lia]).
    eexists k, _. split; [done|]. split; [done|]. split; [split; [by left|apply Hf|apply Hf|apply Hf]|]. split; [|done].
    rewrite E. by apply sent_nil.
Qed.

(** A sequence of [io.write] calls. *)
Fixpoint io_writes (k : K) (f : FILE) (ss : list bytes) : res (K * FILE) :=
  match ss with
  | [] => Ok (k, f)
  | s :: ss' => '(k, f, _) ← io_write k f s; io_writes k f ss'
  end.

Hypothesis limit_size : limit < 2 ^ 64.

Lemma slen_app (a b : bytes) : slen (a ++ b) = slen a + slen b.
Proof. unfold slen. rewrite length_app. lia. Qed.

Lemma slen_nonneg (a : bytes) : 0 <= slen a.
Proof. unfold slen. lia. Qed.

Lemma writestring_sends k f s rest :
  K_ok k -> file_wf f -> slen (pending f ++ s ++ rest) <= limit ->
  exists k' f' a, writestring k f s = Ok (k', f') /\ K_ok k' /\ file_wf f' /\
    sent k a k' /\ pending f ++ s = a ++ pending f' /\ slen (pending f' ++ rest) <= limit.
Proof.
  intros Hk Hf Hl. rewrite !slen_app in Hl. pose proof (slen_nonneg rest).
  destruct (fwrite_sends k f s Hk Hf) as (k' & f' & a & E & Hk' & Hf' & Hs & Ha & _); [rewrite slen_app; lia|done|].
  exists k', f', a. unfold writestring. rewrite E. split; [done|]. do 4 (split; [done|]).
  apply (f_equal slen) in Ha. rewrite !slen_app in *. pose proof (slen_nonneg a). lia.
Qed.

(** The text of [print]: the arguments separated by tabs. *)
Fixpoint print_text (first : bool) (args : list bytes) : bytes :=
  match args with
  | [] => []
  | s :: args' => (if first then [] else [9]) ++ s ++ print_text false args'
  end.

Lemma print_loop_sends args : forall first k f rest,
  K_ok k -> file_wf f -> slen (pending f ++ print_text first args ++ rest) <= limit ->
  exists k' f' a, print_loop k f first args = Ok (k', f') /\ K_ok k' /\ file_wf f' /\
    sent k a k' /\ pending f ++ print_text first args = a ++ pending f' /\ slen (pending f' ++ rest) <= limit.
Proof.
  induction args as [|s args IH]; intros first k f rest Hk Hf Hl; cbn [print_text print_loop] in *.
  { exists k, f, []. split; [done|]. do 2 (split; [done|]). split; [by apply sent_nil|]. by rewrite app_nil_r. }
  set (tab := if first then [] else [9]) in *. rewrite <- !app_assoc in Hl.
  assert (exists k1 f1 a1, (if first then Ok (k, f) else writestring k f [9]) = Ok (k1, f1) /\ K_ok k1 /\ file_wf f1 /\
    sent k a1 k1 /\ pending f ++ tab = a1 ++ pending f1 /\ slen (pending f1 ++ s ++ print_text false args ++ rest) <= limit)
    as (k1 & f1 & a1 & -> & Hk1 & Hf1 & Hs1 & Ha1 & Hl1).
  { unfold tab in *. destruct first; [|by apply writestring_sends]. exists k, f, [].
    split; [done|]. do 2 (split; [done|]). split; [by apply sent_nil|]. by rewrite app_nil_r. }
  cbn [mbind res_bind].
  destruct (writestring_sends k1 f1 s _ Hk1 Hf1 Hl1) as (k2 & f2 & a2 & -> & Hk2 & Hf2 & Hs2 & Ha2 & Hl2).
  cbn [mbind res_bind].
  destruct (IH false k2 f2 rest Hk2 Hf2 Hl2) as (k3 & f3 & a3 & E & Hk3 & Hf3 & Hs3 & Ha3 & Hl3).
  exists k3, f3, (a1 ++ a2 ++ a3). split; [done|]. do 2 (split; [done|]).
  split; [eapply sent_app; [exact Hs1|]; by eapply sent_app|]. split; [|done].
  rewrite !app_assoc, Ha1, <- !app_assoc. f_equal. rewrite app_assoc, Ha2, <- app_assoc. by rewrite Ha3.
Qed.

Lemma print_sends k f args :
  K_ok k -> file_wf f -> slen (pending f ++ print_text true args ++ [newline]) <= limit ->
  exists k' f', luaB_print k f args = Ok (k', f') /\ K_ok k' /\ file_wf f' /\
    sent k (pending f ++ print_text true args ++ [newline]) k' /\ pending f' = [].
Proof.
  intros Hk Hf Hl. unfold luaB_print.
  destruct (print_loop_sends args true k f [newline] Hk Hf Hl) as (k1 & f1 & a1 & -> & Hk1 & Hf1 & Hs1 & Ha1 & Hl1).
  cbn [mbind res_bind].
  destruct (writestring_sends k1 f1 [newline] [] Hk1 Hf1) as (k2 & f2 & a2 & -> & Hk2 & Hf2 & Hs2 & Ha2 & Hl2); [by rewrite app_nil_r|].
  cbn [mbind res_bind]. rewrite app_nil_r in Hl2.
  destruct (fflush_sends k2 f2 Hk2 Hf2 Hl2) as (k3 & f3 & -> & Hk3 & Hf3 & Hs3 & Hp3 & _).
  exists k3, f3. split; [done|]. do 2 (split; [done|]). split; [|done].
  rewrite app_assoc, Ha1, <- app_assoc, Ha2. eapply sent_app; [exact Hs1|]. by eapply sent_app.
Qed.

Lemma io_writes_sends ss : forall k f,
  K_ok k -> file_wf f -> slen (pending f ++ concat ss) <= limit ->
  exists k' f' a, io_writes k f ss = Ok (k', f') /\ K_ok k' /\ file_wf f' /\
    sent k a k' /\ pending f ++ concat ss = a ++ pending f' /\ buffering_kept f f'.
Proof.
  induction ss as [|s ss IH]; intros k f Hk Hf Hl; cbn [io_writes concat] in *.
  { exists k, f, []. split; [done|]. do 2 (split; [done|]). split; [by apply sent_nil|]. rewrite app_nil_r. by repeat split. }
  rewrite !slen_app in Hl. pose proof (slen_nonneg (concat ss)).
  destruct (fwrite_sends k f s Hk Hf) as (k1 & f1 & a1 & E1 & Hk1 & Hf1 & Hs1 & Ha1 & Hb1); [rewrite slen_app; lia|done|].
  unfold io_write. rewrite E1. cbn [mbind res_bind].
  destruct (IH k1 f1 Hk1 Hf1) as (k2 & f2 & a2 & E2 & Hk2 & Hf2 & Hs2 & Ha2 & Hb2).
  { apply (f_equal slen) in Ha1. rewrite !slen_app in *. pose proof (slen_nonneg a1). lia. }
  exists k2, f2, (a1 ++ a2). split; [done|]. do 2 (split; [done|]). split; [by eapply sent_app|]. split.
  - rewrite app_assoc, Ha1, <- !app_assoc. by rewrite Ha2.
  - destruct Hb1 as [B1 C1], Hb2 as [B2 C2]. split; [by auto|]. intros Htc. by rewrite C2, C1.
Qed.
End Stdio.

(** ** Devices

    What a stream asks of the [writev] below it. *)
Record device {K : Type} (writev : K -> Z -> list bytes -> res (K * Z))
    (d : Z) (K_ok : K -> Prop) (sent : K -> bytes -> K -> Prop) (limit : Z) : Prop := {
  dev_nil : forall k, K_ok k -> sent k [] k;
  dev_app : forall k1 k2 k3 a b, sent k1 a k2 -> sent k2 b k3 -> sent k1 (a ++ b) k3;
  dev_takes : forall k iov, K_ok k -> (length iov <= 2)%nat -> slen (concat iov) <= limit ->
    exists k' cnt, writev k d iov = Ok (k', cnt) /\ K_ok k' /\
      (cnt = slen (concat iov) \/ 0 < cnt < slen (concat iov)) /\
      sent k (take (Z.to_nat cnt) (concat iov)) k';
  dev_limit : limit < 2 ^ 64;
}.

(** ** The kernel's terminal as a device *)

Section Kernel.
Context {T : Type} {RT : RawTable T} (W H : Z) (number2str : Z -> bytes).

(** The caller's memory of a [writev]: the [i]-th buffer is at address [i]. *)
Definition iov_mem (iov : list bytes) : umem :=
  Umem (fun _ => [])
       (fun a n => take (Z.to_nat n) (default [] (iov !! Z.to_nat a)))
       (fun _ => 0)
       (fun _ i => (i, slen (default [] (iov !! Z.to_nat i)))).

Definition kernel_writev (k : kstate T) (d : Z) (iov : list bytes) : res (kstate T * Z) :=
  '(k, r, _) ← handle_syscall W H number2str SYS_writev d 0 (Z.of_nat (length iov)) (iov_mem iov) k;
  Ok (k, r).

(** [SYS_ioctl]. *)
Definition kernel_tcgets (k : kstate T) (d : Z) : Z :=
  match handle_syscall W H number2str SYS_ioctl d 0 0 (iov_mem []) k with Ok (_, r, _) => r | Err _ => -1 end.

(** The terminal shows the bytes and nothing else changes. *)
Definition shows (k : kstate T) (s : bytes) (k' : kstate T) : Prop :=
  exists t, write_stdout W H (term (k_fs k)) s = Ok (t, slen s) /\
    k' = Kstate (Fs (files (k_fs k)) (fds (k_fs k)) t) (k_reg k) (k_traps k).

Hypothesis width_pos : 0 < W.

Lemma shows_nil k : shows k [] k.
Proof. exists (term (k_fs k)). split; [done|]. by destruct k as [[? ? ?] ? ?]. Qed.

Lemma write_stdout_app lines a b t1 t2 :
  write_stdout W H lines a = Ok (t1, slen a) -> write_stdout W H t1 b = Ok (t2, slen b) ->
  write_stdout W H lines (a ++ b) = Ok (t2, slen (a ++ b)).
Proof.
  unfold write_stdout. rewrite foldl_app. intros Ea Eb.
  apply bind_Ok in Ea as (l1 & -> & [= ->]). apply bind_Ok in Eb as (l2 & -> & [= ->]). done.
Qed.

Lemma shows_app k1 k2 k3 a b : shows k1 a k2 -> shows k2 b k3 -> shows k1 (a ++ b) k3.
Proof.
  intros (t1 & E1 & ->) (t2 & E2 & ->). exists t2. split; [by eapply write_stdout_app|done].
Qed.

Definition terminal_ok (k : kstate T) : Prop := terminal_wf W H (term (k_fs k)).

(** One [SYS_write] to descriptor 1. *)
Lemma sys_write_shows k m buf count :
  terminal_ok k -> slen (um_bytes m buf count) < 2 ^ 31 ->
  exists k', sys_write W H k m 1 buf count = Ok (k', slen (um_bytes m buf count), []) /\
    terminal_ok k' /\ shows k (um_bytes m buf count) k'.
Proof.
  intros Hk Hl. destruct (write_stdout_spec W H width_pos _ (um_bytes m buf count) Hk) as (t & E & Ht & _).
  eexists. split; [|split; [|exists t; split; [exact E|reflexivity]]]; [|done].
  unfold sys_write, fd_value. cbn [Z.eqb Pos.eqb]. unfold write. rewrite decide_True by done. rewrite E.
  cbn [mbind res_bind]. unfold to_int. unfold slen in *. by rewrite decide_True by clia.
Qed.

Lemma writev_loop_shows n : forall k m i total,
  terminal_ok k -> slen (iov_data m 0 i n) < 2 ^ 31 ->
  exists k', writev_loop W H n k m 1 0 i total = Ok (k', total + slen (iov_data m 0 i n), []) /\
    terminal_ok k' /\ shows k (iov_data m 0 i n) k'.
Proof.
  induction n as [|n IH]; intros k m i total Hk Hl.
  { exists k. cbn. rewrite Z.add_0_r. split; [done|]. split; [done|apply shows_nil]. }
  rewrite iov_data_S in *. cbn [writev_loop]. destruct (um_iov m 0 i) as [base len]. cbn [fst snd] in *.
  assert (forall x y : bytes, slen (x ++ y) = slen x + slen y) as Hap by (intros; unfold slen; rewrite length_app; lia).
  rewrite Hap in Hl.
  destruct (sys_write_shows k m base len Hk) as (k1 & -> & Hk1 & Hs1); [unfold slen in *; lia|]. cbn [mbind res_bind].
  destruct (IH k1 m (i + 1) (total + slen (um_bytes m base len)) Hk1) as (k2 & -> & Hk2 & Hs2); [unfold slen in *; lia|].
  exists k2. split; [do 3 f_equal; rewrite Hap; lia|]. split; [done|]. by eapply shows_app.
Qed.

(** The memory of the call holds the array. *)
Lemma iov_data_mem iov : forall i n, (i + n = length iov)%nat ->
  iov_data (iov_mem iov) 0 (Z.of_nat i) n = concat (drop i iov).
Proof.
  intros i n. revert i. induction n as [|n IH]; intros i Hn; [by rewrite drop_ge by lia|].
  rewrite iov_data_S. replace (Z.of_nat i + 1) with (Z.of_nat (S i)) by lia. rewrite IH by lia.
  destruct (lookup_lt_is_Some_2 iov i ltac:(lia)) as [v Ev].
  rewrite (drop_S iov v i) by done. cbn. rewrite Nat2Z.id, Ev. cbn. unfold slen. by rewrite Nat2Z.id, take_ge by lia.
Qed.

Lemma kernel_device : device kernel_writev 1 terminal_ok shows (2 ^ 31 - 1).
Proof using width_pos.
  split; [intros k _; apply shows_nil|exact shows_app| |lia].
  intros k iov Hk Hn Hl. unfold kernel_writev. change (handle_syscall W H number2str SYS_writev 1 0) with
    (fun c m (k : kstate T) => writev_loop W H (Z.to_nat (s32 c)) k m (s32 1) 0 0 0). cbn beta.
  rewrite !swrap_small by (lia || clia). rewrite Nat2Z.id.
  pose proof (iov_data_mem iov 0 (length iov) eq_refl) as Ed. rewrite drop_0 in Ed. change (Z.of_nat 0) with 0 in Ed.
  destruct (writev_loop_shows (length iov) k (iov_mem iov) 0 0 Hk) as (k' & -> & Hk' & Hs); [rewrite Ed; lia|].
  cbn [mbind res_bind]. rewrite Ed in *. exists k', (slen (concat iov)). split; [done|]. split; [done|]. split; [by left|].
  unfold slen. by rewrite Nat2Z.id, take_ge by lia.
Qed.
End Kernel.

(** ** Theorems *)

(** C20. Nothing written is lost, repeated or reordered: after any sequence of
    [io.write] calls and an [io.flush], the device has received exactly what was
    buffered before followed by the strings, whatever parts of the data each
    [writev] accepts, and the buffer is empty. *)
Theorem stdout_delivers {K : Type} (writev : K -> Z -> list bytes -> res (K * Z)) (tcgets : K -> Z -> Z)
    (d : Z) (K_ok : K -> Prop) (sent : K -> bytes -> K -> Prop) (limit : Z)
    (k : K) (f : FILE) (ss : list bytes) :
  device writev d K_ok sent limit -> K_ok k -> file_wf d f -> slen (pending f ++ concat ss) <= limit ->
  exists k1 f1 k2 f2, io_writes writev tcgets k f ss = Ok (k1, f1) /\
    io_flush writev tcgets k1 f1 = Ok (k2, f2, true) /\
    sent k (pending f ++ concat ss) k2 /\ pending f2 = [] /\ K_ok k2 /\ file_wf d f2.
Proof.
  intros [Hnil Happ Htk Hlim] Hk Hf Hl.
  destruct (io_writes_sends writev tcgets d K_ok sent limit Hnil Happ Htk Hlim ss k f Hk Hf Hl)
    as (k1 & f1 & a & E1 & Hk1 & Hf1 & Hs1 & Ha & _).
  destruct (fflush_sends writev tcgets d K_ok sent limit Hnil Happ Htk k1 f1 Hk1 Hf1) as (k2 & f2 & E2 & Hk2 & Hf2 & Hs2 & Hp2 & _).
  { apply (f_equal slen) in Ha. unfold slen in *. rewrite !length_app in *. lia. }
  exists k1, f1, k2, f2. split; [done|]. unfold io_flush. rewrite E2. split; [done|].
  split; [rewrite Ha; by eapply Happ|]. done.
Qed.

(** A device that takes one byte at a time, and keeps what it took. *)
Definition slow_writev (k : bytes) (d : Z) (iov : list bytes) : res (bytes * Z) :=
  Ok (k ++ take 1 (concat iov), slen (take 1 (concat iov))).

Lemma slow_device : device slow_writev 1 (fun _ => True) (fun k s k' => k' = k ++ s) 1000.
Proof.
  split; [intros; by rewrite app_nil_r|intros ??? ?? -> ->; by rewrite app_assoc| |lia].
  intros k iov _ _ _. eexists _, _. split; [done|]. split; [done|]. unfold slen.
  destruct (concat iov) as [|c l]; cbn.
  - split; [by left|done].
  - split; [|done]. destruct l; cbn; lia.
Qed.

Lemma stdout_init_wf : file_wf 1 stdout_init.
Proof. split; [by left|done|done|by vm_compute]. Qed.

(** Witness of C20: a line and a half through that device. *)
Lemma stdout_delivers_witness :
  exists k1 f1 k2 f2, io_writes slow_writev (fun _ _ => 0) [] stdout_init [[104; 105; 10]; [33]] = Ok (k1, f1) /\
    io_flush slow_writev (fun _ _ => 0) k1 f1 = Ok (k2, f2, true) /\
    k2 = [] ++ pending stdout_init ++ [104; 105; 10; 33] /\ pending f2 = [] /\ True /\ file_wf 1 f2.
Proof.
  apply (stdout_delivers slow_writev (fun _ _ => 0) 1 (fun _ => True) (fun k s k' => k' = k ++ s) 1000 []
    stdout_init [[104; 105; 10]; [33]]); [exact slow_device|done|exact stdout_init_wf|vm_compute; discriminate].
Defined.

(** The arguments with a tab before each but the first. *)
Definition tabbed (args : list bytes) : bytes :=
  match args with [] => [] | s :: args' => s ++ (args' ≫= fun a => 9 :: a) end.

Lemma print_text_tabbed args : print_text true args = tabbed args.
Proof.
  assert (forall l, print_text false l = l ≫= fun a => 9 :: a) as Hf by (induction l as [|a l IH]; [done|]; cbn; by rewrite IH).
  destruct args as [|s args]; [done|]. cbn [print_text tabbed app]. by rewrite Hf.
Qed.

(** C21. In the kernel, [print] with any number of arguments is the terminal write the
    file system functions make of the arguments with tabs between them: what the stream
    held, the text and a newline appear on the terminal before it returns, the stream is
    empty, and nothing else of the kernel changes. *)
Theorem print_reaches_terminal {T : Type} {RT : RawTable T} (W H : Z) (number2str : Z -> bytes)
    (k : kstate T) (f : FILE) (args : list bytes) :
  0 < W -> terminal_wf W H (term (k_fs k)) -> file_wf 1 f -> slen (pending f ++ tabbed args) + 1 < 2 ^ 31 ->
  exists k' f', luaB_print (kernel_writev W H number2str) (kernel_tcgets W H number2str) k f args = Ok (k', f') /\
    FileSys.print W H (pending f ++ tabbed args) (k_fs k) = Ok (k_fs k') /\ k_reg k' = k_reg k /\ k_traps k' = k_traps k /\
    pending f' = [] /\ file_wf 1 f'.
Proof.
  intros HW Hk Hf Hl. destruct (kernel_device W H number2str HW) as [Hnil Happ Htk Hlim].
  destruct (print_sends (kernel_writev W H number2str) (kernel_tcgets W H number2str) 1 _ _ _ Hnil Happ Htk Hlim k f args)
    as (k' & f' & E & Hk' & Hf' & Hs & Hp'); [done|done| |].
  { rewrite print_text_tabbed. unfold slen in *. rewrite !length_app in *. cbn [length]. lia. }
  exists k', f'. split; [done|]. rewrite print_text_tabbed in Hs. destruct Hs as (t & Et & ->).
  split; [|done]. unfold FileSys.print. rewrite <- app_assoc. by rewrite Et.
Qed.

(** Witness of C21: a greeting in two parts on an 800 x 600 screen. *)
Lemma print_reaches_terminal_witness :
  exists k' f', luaB_print (kernel_writev 800 600 (fun _ => [])) (kernel_tcgets 800 600 (fun _ => [])) ex_state stdout_init [[104; 105]; [33]] = Ok (k', f') /\
    FileSys.print 800 600 [104; 105; 9; 33] (k_fs ex_state) = Ok (k_fs k') /\ k_reg k' = k_reg ex_state /\ k_traps k' = k_traps ex_state /\
    pending f' = [] /\ file_wf 1 f'.
Proof.
  apply (print_reaches_terminal 800 600 (fun _ => []) ex_state stdout_init [[104; 105]; [33]]);
    [lia|apply terminal_init_wf; lia|exact stdout_init_wf|vm_compute; done].
Defined.

Lemma f_write_fails {K : Type} (writev : K -> Z -> list bytes -> res (K * Z)) (tcgets : K -> Z -> Z) d k f s :
  (forall iov, writev k d iov = Ok (k, -1)) -> file_wf d f ->
  exists f', f_write writev tcgets k f s = Ok (k, f', 0) /\ pending f' = [] /\ flags f' = flags f ||| F_ERR.
Proof.
  intros Hw Hf. assert (forall g, fd g = d -> wpos g = wpos f -> wbase g = wbase f -> flags g = flags f ->
    exists f', __stdio_write writev k g s = Ok (k, f', 0) /\ pending f' = [] /\ flags f' = flags f ||| F_ERR) as Hs.
  { intros g Hd Hp Hb Hfl. unfold __stdio_write. rewrite Hp, Hb. destruct (ptr_diff_wf d f Hf) as [-> _]. cbn [mbind res_bind write_loop]. rewrite Hd, Hw. cbn [mbind res_bind].
    rewrite (proj2 (Z.eqb_neq _ _)) by (unfold slen; lia). eexists. split; [done|]. split; [done|]. by rewrite <- Hfl. }
  unfold f_write. destruct (is_stdout f); apply Hs; try done; apply Hf.
Qed.

(** The last newline of a string. *)
Lemma newline_loop_last s t : newline ∉ t -> newline_loop (s ++ newline :: t) (length (s ++ newline :: t)) = S (length s).
Proof.
  intros Ht. destruct (newline_loop_spec (s ++ newline :: t) (length (s ++ newline :: t)) ltac:(done)) as [H1 H2]. rewrite firstn_all in H2.
  assert (forall i, (S (length s) <= i)%nat -> (S (length s) <= newline_loop (s ++ newline :: t) i)%nat) as Hge.
  { induction i as [|i IH]; intros Hi; [lia|]. cbn [newline_loop]. case_decide as E; [lia|]. apply IH. destruct (decide (i = length s)) as [->|]; [|lia].
    destruct E. by rewrite lookup_app_r, Nat.sub_diag by lia. }
  specialize (Hge (length (s ++ newline :: t))). rewrite length_app in *. cbn [length] in *. specialize (Hge ltac:(lia)).
  set (i := newline_loop (s ++ newline :: t) (length s + S (length t))) in *. destruct (decide (i = S (length s))) as [|Hne]; [done|]. exfalso.
  assert (forall n, (n <= length s + S (length t))%nat -> newline_loop (s ++ newline :: t) n = 0%nat \/ (s ++ newline :: t) !! (newline_loop (s ++ newline :: t) n - 1)%nat = Some newline) as Hlast.
  { induction n as [|n IH]; intros Hn; [by left|]. cbn [newline_loop]. case_decide as E; [|apply IH; lia]. right. cbn. by rewrite Nat.sub_0_r. }
  destruct (Hlast (length s + S (length t))%nat ltac:(done)) as [E|E]; fold i in E; [lia|].
  rewrite lookup_app_r in E by lia. destruct (i - 1 - length s)%nat as [|j] eqn:Ej; [lia|]. apply Ht. by eapply list_elem_of_lookup_2.
Qed.

(** C29. A failing write of a line-buffered stream is hidden: when [writev] fails while
    [fwrite] passes on the bytes of a string up to its last newline, [fwrite] returns the
    number of these bytes, although nothing was written, and forgets what the stream held;
    for a string that ends in a newline that is the full count, a success.  Only the error
    flag of the stream shows the failure. *)
Theorem fwrite_hides_error {K : Type} (writev : K -> Z -> list bytes -> res (K * Z)) (tcgets : K -> Z -> Z)
    (d : Z) (k : K) (f : FILE) (s t : bytes) :
  (forall iov, writev k d iov = Ok (k, -1)) ->
  file_wf d f -> 0 <= lbf f -> newline ∉ t ->
  slen (s ++ newline :: t) <= BUFSIZ - default 0 (wpos f) ->
  exists f', fwrite writev tcgets k f (s ++ newline :: t) 1 (slen (s ++ newline :: t)) = Ok (k, f', slen (s ++ [newline])) /\
    pending f' = [] /\ flags f' = flags f ||| F_ERR.
Proof.
  intros Hw Hf Hlb Ht Hl. unfold fwrite, __fwritex.
  assert (exists g p, (match wend f with None => __towrite f | Some _ => (f, 0) end) = (g, 0) /\
    file_wf d g /\ wend g = Some BUFSIZ /\ wpos g = Some p /\ lbf g = lbf f /\ flags g = flags f /\ p = default 0 (wpos f)) as (g & p & -> & Hg & He & Hp & Elb & Efl & Hpp).
  { destruct Hf as [[(He & Hp & Hb)|(b & p & He & Hp & Hb & H1 & H2)] Hfl Hfd Hfz]; rewrite He.
    - unfold __towrite. cbn [flags]. rewrite Hfl, Hp. cbn [negb Z.eqb]. eexists _, 0. split; [done|].
      split; [apply file_wf_reset; split; [by left|done|done|done]|]. split; [cbn; by rewrite <- Hfz|done].
    - exists f, p. split; [done|]. split; [split; [right; by exists b, p|done|done|done]|]. rewrite Hp, <- Hfz. done. }
  change (negb (0 =? 0)) with false. cbv iota. rewrite He, Hp. cbn [ptr_diff mbind res_bind].
  rewrite Z.gtb_ltb, (proj2 (Z.ltb_ge _ _)) by (rewrite Hpp; exact Hl). rewrite Elb, (proj2 (Z.leb_le _ _) Hlb).
  rewrite newline_loop_last by done. cbn [Nat.ltb Nat.leb].
  destruct (f_write_fails writev tcgets d k g (take (S (length s)) (s ++ newline :: t)) Hw Hg) as (f' & -> & Hpn & Hff). cbn [mbind res_bind].
  rewrite (proj2 (Z.ltb_lt _ _)) by lia. cbn [mbind res_bind]. exists f'. split; [|by rewrite <- Efl].
  assert (slen (s ++ [newline]) = Z.of_nat (S (length s))) as -> by (unfold slen; rewrite length_app; cbn [length]; lia).
  assert (0 <= default 0 (wpos f)). { destruct Hf as [[(_ & -> & _)|(b & q & _ & -> & _ & ? & _)] _ _ _]; cbn; lia. }
  rewrite Z.mul_1_l, wrap_small by (unfold slen, BUFSIZ in *; clia). destruct (Z.eqb_spec (Z.of_nat (S (length s))) (slen (s ++ newline :: t))) as [E|E].
  - by rewrite <- E.
  - cbn [Z.eqb]. by rewrite Z.div_1_r.
Qed.

(** Witness of C29: a device that always fails, and a string with half a line after its
    newline. *)
Lemma fwrite_hides_error_witness :
  let f := set_flags (MkFile 4 None None None (replicate (Z.to_nat BUFSIZ) 0) 3 0 newline false) 4 in
  exists f', fwrite (fun k _ _ => Ok (k, -1)) (fun _ _ => 0) tt f ([104] ++ newline :: [105; 106]) 1 (slen ([104] ++ newline :: [105; 106])) =
      Ok (tt, f', slen ([104] ++ [newline])) /\ pending f' = [] /\ flags f' = flags f ||| F_ERR.
Proof.
  intros f. apply (fwrite_hides_error (fun k _ _ => Ok (k, -1)) (fun _ _ => 0) 3 tt f [104] [105; 106]);
    [done|split; [by left|done|done|by vm_compute]|done| |vm_compute; discriminate].
  rewrite !not_elem_of_cons. split_and!; [done|done|apply not_elem_of_nil].
Defined.
