(* ===== verification/Keys.v ===== *)
(** * The keyboard ([src/src/luakernel.lua]: [scancode2char], [key_pressed] and a
      round of [keyboard_task])

    [key_pressed] is a state machine on the scancodes of the keyboard interrupt:
    it keeps the shift and control keys, echoes characters through [stdout], edits
    the last line of the terminal, and on Enter loads and runs that line as Lua.
    [load] and the call of the chunk are the Lua interpreter's and are parameters. *)

From S2P Require Import Prelude LuaStr LuaRef Terminal FileSys Syscall Stdio Draw.

(** An entry of [scancode2char]: a number, a string, or the pair without and with
    shift. *)
Inductive keychar :=
| KNum (n : Z)
| KStr (c : Z)
| KPair (c1 c2 : Z).

#[export] Instance keychar_eq_dec : EqDecision keychar.
Proof. solve_decision. Defined.

Definition K0 : keychar := KNum 0.

Definition scancode2char : list keychar :=
  [KNum 27; KStr 49; KStr 50; KStr 51; KStr 52; KStr 53; KStr 54; KStr 55; KPair 56 42;
   KPair 57 40; KPair 48 41; KPair 45 95; KPair 61 43; KStr 8;
   KStr 9;
   KStr 113; KStr 119; KStr 101; KStr 114;
   KStr 116; KStr 121; KStr 117; KStr 105; KStr 111; KStr 112; KPair 91 123; KPair 93 125; KStr 10;
   K0;
   KStr 97; KStr 115; KStr 100; KStr 102; KStr 103; KStr 104; KStr 106; KStr 107; KStr 108; KPair 59 58;
   KPair 39 34; KStr 96; K0;
   KStr 92; KStr 122; KStr 120; KStr 99; KStr 118; KStr 98; KStr 110;
   KStr 109; KPair 44 60; KPair 46 62; KStr 47; K0;
   KStr 42;
   K0;
   KStr 32;
   K0;
   K0;
   K0; K0; K0; K0; K0; K0; K0; K0;
   K0;
   K0;
   K0;
   K0;
   K0;
   K0;
   KStr 45;
   K0;
   K0;
   K0;
   KStr 43;
   K0;
   K0;
   K0;
   K0;
   K0;
   K0; K0; K0;
   K0;
   K0;
   K0].

(** [scancode2char[scancode_]]; indices start at 1. *)
Definition char_entry (scancode : Z) : option keychar :=
  if 1 <=? scancode then scancode2char !! Z.to_nat (scancode - 1) else None.

(** The string [c] becomes, if it does: [c[shift_on + 1]] for a pair. *)
Definition key_char (scancode shift_on : Z) : option Z :=
  match char_entry scancode with
  | Some (KPair c1 c2) => if shift_on + 1 =? 1 then Some c1 else if shift_on + 1 =? 2 then Some c2 else None
  | Some (KStr c) => Some c
  | _ => None
  end.

Section Keys.
Context {T : Type} {RT : RawTable T} (W H : Z) (number2str : Z -> bytes).

(** The kernel, the stream [stdout] and the variables of the keyboard. *)
Record console := Console {
  c_k : kstate T;
  c_out : FILE;
  c_tilda : bool;
  c_shift : Z;
  c_ctrl : Z;
}.

(** The interpreter: [load] gives a chunk or a message, and [run] is
    [pcall(function() chunk() end)], the message of an error if there is one. *)
Context {chunk : Type} (load : bytes -> chunk + bytes).
Context (run : chunk -> console -> res (console * option bytes)).

Definition terminal_lines (st : console) : list bytes := term (k_fs (c_k st)).

Definition set_out (st : console) (k : kstate T) (f : FILE) : console :=
  Console k f (c_tilda st) (c_shift st) (c_ctrl st).

Definition set_shift (st : console) (n : Z) : console :=
  Console (c_k st) (c_out st) (c_tilda st) n (c_ctrl st).

Definition set_ctrl (st : console) (n : Z) : console :=
  Console (c_k st) (c_out st) (c_tilda st) (c_shift st) n.

Definition toggle_tilda (st : console) : console :=
  Console (c_k st) (c_out st) (negb (c_tilda st)) (c_shift st) (c_ctrl st).

(** Assignment to [terminal_lines] or to one of its lines. *)
Definition set_lines (st : console) (lines : list bytes) : console :=
  let k := c_k st in
  Console (Kstate (Fs (files (k_fs k)) (fds (k_fs k)) lines) (k_reg k) (k_traps k))
    (c_out st) (c_tilda st) (c_shift st) (c_ctrl st).

Definition con_write (st : console) (s : bytes) : res console :=
  '(k, f, _) ← io_write (kernel_writev W H number2str) (kernel_tcgets W H number2str) (c_k st) (c_out st) s;
  Ok (set_out st k f).

Definition con_flush (st : console) : res console :=
  '(k, f, _) ← io_flush (kernel_writev W H number2str) (kernel_tcgets W H number2str) (c_k st) (c_out st);
  Ok (set_out st k f).

Definition con_print (st : console) (s : bytes) : res console :=
  '(k, f) ← luaB_print (kernel_writev W H number2str) (kernel_tcgets W H number2str) (c_k st) (c_out st) [s];
  Ok (set_out st k f).

(** What the table of the last of [lines] holds after [bs] is written to the
    terminal: it grows until a new line is started or the screen is cleared. *)
Fixpoint line_after (lines : list bytes) (bs : bytes) : bytes :=
  match bs with
  | [] => default [] (last lines)
  | c :: bs' =>
      let line := default [] (last lines) ++ [c] in
      let wrap := (c =? newline) || wraps W line in
      if wrap || clears H (put_last lines c) then line else line_after (put_last lines c) bs'
  end.

(** [table.remove(line, #line)] on the last line. *)
Definition erase_last (lines : list bytes) : res (list bytes) :=
  match last lines with
  | Some line => Ok (take (length lines - 1) lines ++ [take (length line - 1) line])
  | None => Err LuaError
  end.

(** Loading and running a line. *)
Definition run_line (st : console) (linestr : bytes) : res console :=
  match load linestr with
  | inr errmsg => con_print st errmsg
  | inl chunk =>
      '(st, err) ← run chunk st;
      match err with None => Ok st | Some err => con_print st err end
  end.

(** The Enter key.  The local [line] is the table that the write of the newline
    goes on filling: the bytes that reached the terminal are those that are no
    longer in the stream. *)
Definition enter_pressed (st : console) : res console :=
  let lines := terminal_lines st in
  let before := pending (c_out st) ++ [newline] in
  st ← con_write st [newline];
  match last lines with
  | None => Err LuaError
  | Some _ =>
      let written := take (length before - length (pending (c_out st))) before in
      run_line st (line_after lines written)
  end.

(** The last case: an ordinary character. *)
Definition char_typed (st : console) (c : Z) : res console :=
  let lines := terminal_lines st in
  let st := match last lines with None => set_lines st (lines ++ [[]]) | Some _ => st end in
  st ← con_write st [c];
  con_flush st.

Definition key_pressed (scancode : Z) (st : console) : res console :=
  if (scancode =? 0x2a) || (scancode =? 0x36) then Ok (set_shift st 1)
  else if (scancode =? 0xaa) || (scancode =? 0xb6) then Ok (set_shift st 0)
  else if scancode =? 0x1d then Ok (set_ctrl st 1)
  else if scancode =? 0x9d then Ok (set_ctrl st 0)
  else
    match key_char scancode (c_shift st) with
    | None => Ok st
    | Some c =>
        if c =? 8 then lines ← erase_last (terminal_lines st); Ok (set_lines st lines)
        else if c =? newline then enter_pressed st
        else if (c_ctrl st =? 1) && (c =? 108) then Ok (set_lines st terminal_init)
        else if c =? 96 then Ok (toggle_tilda st)
        else char_typed st c
    end.

(** [for _, scancode in ipairs(scancodes) do key_pressed(scancode) end]. *)
Fixpoint keys_pressed (scancodes : list Z) (st : console) : res console :=
  match scancodes with
  | [] => Ok st
  | sc :: scancodes' => st ← key_pressed sc st; keys_pressed scancodes' st
  end.

(** ** Output *)

Hypothesis width_pos : 0 < W.

(** Console invariant: the file system and the terminal are well formed, the
    stream is, and the modifier keys are up or down. *)
Record con_inv (st : console) : Prop := {
  ci_fs : fs_wf W H (k_fs (c_k st));
  ci_text : term_text (terminal_lines st);
  ci_out : file_wf 1 (c_out st);
  ci_shift : c_shift st = 0 \/ c_shift st = 1;
  ci_ctrl : c_ctrl st = 0 \/ c_ctrl st = 1;
}.

Lemma shows_inv (k : kstate T) a k' :
  fs_wf W H (k_fs k) -> term_text (term (k_fs k)) -> shows W H k a k' ->
  fs_wf W H (k_fs k') /\ term_text (term (k_fs k')).
Proof using width_pos.
  intros [Hf Ht] Htx (t & E & ->). destruct (write_stdout_spec W H width_pos _ a Ht) as (t' & E' & Ht' & _).
  rewrite E in E'. injection E' as <-. split; [by split|]. by eapply term_text_stdout.
Qed.

(** Output keeps the invariant; what it shows is in the statement. *)
Lemma set_out_inv st k f a :
  con_inv st -> shows W H (c_k st) a k -> file_wf 1 f -> con_inv (set_out st k f).
Proof using width_pos.
  intros [H1 H2 H3 H4 H5] Hs Hf. destruct (shows_inv _ a k H1 H2 Hs). by split.
Qed.

Lemma con_write_spec st s :
  con_inv st -> slen s < 2 ^ 30 ->
  exists k f a, con_write st s = Ok (set_out st k f) /\ con_inv (set_out st k f) /\
    shows W H (c_k st) a k /\ pending (c_out st) ++ s = a ++ pending f /\
    (line_buffered (c_out st) -> line_buffered f) /\ lbf f = lbf (c_out st).
Proof using width_pos.
  intros Hi Hl. pose proof Hi as [[_ Hterm] _ Hf _ _]. destruct (kernel_device W H number2str width_pos) as [Hnil Happ Htk Hlim].
  destruct (fwrite_sends _ (kernel_tcgets W H number2str) 1 _ _ _ Hnil Happ Htk (c_k st) (c_out st) s Hterm Hf)
    as (k & f & a & E & _ & Hf' & Hs & Ha & Hb & Hlb).
  { pose proof (pending_bound _ _ Hf). unfold slen, BUFSIZ in *. rewrite length_app. clia. }
  { lia. }
  exists k, f, a. unfold con_write, io_write. rewrite E. cbn [mbind res_bind]. split; [done|]. split; [by eapply set_out_inv|].
  split; [done|]. split; [done|]. split; [done|]. by apply Hlb.
Qed.

Lemma con_flush_spec st :
  con_inv st ->
  exists k f, con_flush st = Ok (set_out st k f) /\ con_inv (set_out st k f) /\
    shows W H (c_k st) (pending (c_out st)) k /\ pending f = [] /\ lbf f = lbf (c_out st).
Proof using width_pos.
  intros Hi. pose proof Hi as [[_ Hterm] _ Hf _ _]. destruct (kernel_device W H number2str width_pos) as [Hnil Happ Htk Hlim].
  destruct (fflush_sends _ (kernel_tcgets W H number2str) 1 _ _ _ Hnil Happ Htk (c_k st) (c_out st) Hterm Hf)
    as (k & f & E & _ & Hf' & Hs & Hp & Hlb).
  { pose proof (pending_bound _ _ Hf). unfold BUFSIZ in *. clia. }
  exists k, f. unfold con_flush, io_flush. rewrite E. cbn [mbind res_bind]. split; [done|]. split; [by eapply set_out_inv|].
  split; [done|]. split; [done|]. by apply Hlb.
Qed.

Lemma con_print_spec st s :
  con_inv st -> slen s < 2 ^ 30 ->
  exists k f, con_print st s = Ok (set_out st k f) /\ con_inv (set_out st k f) /\ pending f = [].
Proof using width_pos.
  intros Hi Hl. pose proof Hi as [[_ Hterm] _ Hf _ _]. destruct (kernel_device W H number2str width_pos) as [Hnil Happ Htk Hlim].
  destruct (print_sends _ (kernel_tcgets W H number2str) 1 _ _ _ Hnil Happ Htk Hlim (c_k st) (c_out st) [s] Hterm Hf)
    as (k & f & E & _ & Hf' & Hs & Hp).
  { pose proof (pending_bound _ _ Hf). unfold slen, BUFSIZ in *. cbn [print_text]. rewrite !length_app. cbn [length app]. clia. }
  exists k, f. unfold con_print. rewrite E. cbn [mbind res_bind]. split; [done|]. split; [by eapply set_out_inv|done].
Qed.

(** ** The keys *)

Lemma last_line st : con_inv st -> exists init l, terminal_lines st = init ++ [l] /\ newline ∉ l.
Proof. intros [_ (init & l & E & Hl & _) _ _ _]. by exists init, l. Qed.

Lemma erase_last_snoc init l : erase_last (init ++ [l]) = Ok (init ++ [take (length l - 1) l]).
Proof.
  unfold erase_last. rewrite last_snoc, length_app. cbn [length]. by rewrite take_app_length' by lia.
Qed.

Lemma take_line n l : line_ok W l -> newline ∉ l -> wraps W l = false ->
  line_ok W (take n l) /\ newline ∉ take n l /\ wraps W (take n l) = false.
Proof.
  intros H1 H2 H3. unfold line_ok, wraps, slen in *. apply Z.leb_gt in H3. rewrite length_take.
  split; [lia|]. split; [|apply Z.leb_gt; lia]. intros Hin. apply H2. by eapply elem_of_take in Hin as (i & ? & _); eapply list_elem_of_lookup_2.
Qed.

Lemma set_lines_inv st lines :
  con_inv st -> terminal_wf W H lines -> term_text lines -> con_inv (set_lines st lines).
Proof. intros [[H1 _] _ H3 H4 H5] Hw Ht. split; [by split|done..]. Qed.

(** Erasing keeps the terminal well formed. *)
Lemma erase_inv st init l :
  con_inv st -> terminal_lines st = init ++ [l] ->
  con_inv (set_lines st (init ++ [take (length l - 1) l])).
Proof.
  intros Hi E. pose proof Hi as [[_ Hw] Ht _ _ _]. unfold terminal_lines in *. rewrite E in *.
  destruct Hw as (_ & Hok & (i1 & l1 & E1 & Hwr) & Hc). apply app_inj_tail in E1 as [<- <-].
  destruct Ht as (i2 & l2 & E2 & Hn & Hli). apply app_inj_tail in E2 as [<- <-].
  apply Forall_app in Hok as [Ho1 Ho2]. apply Forall_cons_1 in Ho2 as [Ho2 _].
  destruct (take_line (length l - 1) l Ho2 Hn Hwr) as (T1 & T2 & T3).
  apply set_lines_inv; [done| |by exists init, (take (length l - 1) l)].
  split; [by intros [_ [=]]%app_eq_nil|]. split; [apply Forall_app; split; [done|by apply Forall_singleton]|].
  split; [by exists init, (take (length l - 1) l)|].
  destruct Hc as [Hc|Hc].
  - left. unfold clears in *. rewrite length_app in *. exact Hc.
  - right. destruct init as [|? []]; [|done|done]. injection Hc as ->. done.
Qed.

Lemma char_typed_spec st c :
  con_inv st ->
  exists k f, char_typed st c = Ok (set_out st k f) /\ con_inv (set_out st k f) /\
    shows W H (c_k st) (pending (c_out st) ++ [c]) k /\ pending f = [] /\ lbf f = lbf (c_out st).
Proof using width_pos.
  intros Hi. destruct (last_line st Hi) as (init & l & E & _). unfold char_typed. rewrite E, last_snoc.
  destruct (con_write_spec st [c] Hi) as (k1 & f1 & a & -> & Hi1 & Hs1 & Ha & _ & Hl1); [unfold slen; cbn; lia|]. cbn [mbind res_bind].
  destruct (con_flush_spec _ Hi1) as (k2 & f2 & -> & Hi2 & Hs2 & Hp2 & Hl2). exists k2, f2. split; [done|]. split; [done|].
  split; [rewrite Ha; by eapply shows_app|]. split; [done|]. cbn in Hl2. congruence.
Qed.

(** What [pcall] is expected to do: return, with a message of moderate size if
    the chunk failed, and leave the console well formed. *)
Definition pcall_returns : Prop :=
  forall ch st, con_inv st -> exists st' err, run ch st = Ok (st', err) /\ con_inv st' /\
    (forall e, err = Some e -> slen e < 2 ^ 30).

Definition messages_small : Prop := forall s e, load s = inr e -> slen e < 2 ^ 30.

Hypothesis Hrun : pcall_returns.
Hypothesis Hload : messages_small.

Lemma enter_pressed_inv st : con_inv st -> exists st', enter_pressed st = Ok st' /\ con_inv st'.
Proof using width_pos Hrun Hload.
  intros Hi. destruct (last_line st Hi) as (init & l & E & _). unfold enter_pressed. rewrite E, last_snoc.
  destruct (con_write_spec st [newline] Hi) as (k1 & f1 & a & -> & Hi1 & _); [unfold slen; cbn; lia|]. cbn [mbind res_bind]. unfold run_line.
  destruct (load _) as [ch|msg] eqn:El.
  - destruct (Hrun ch _ Hi1) as (st2 & err & -> & Hi2 & He). cbn [mbind res_bind].
    destruct err as [e|]; [|by exists st2]. destruct (con_print_spec st2 e Hi2 (He e eq_refl)) as (k3 & f3 & E3 & Hi3 & _).
    eexists. by split.
  - destruct (con_print_spec _ msg Hi1 (Hload _ _ El)) as (k3 & f3 & E3 & Hi3 & _). eexists. by split.
Qed.

Lemma key_pressed_inv sc st : con_inv st -> exists st', key_pressed sc st = Ok st' /\ con_inv st'.
Proof using width_pos Hrun Hload.
  intros Hi. pose proof Hi as [H1 H2 H3 H4 H5]. unfold key_pressed.
  repeat (destruct (_ || _) || destruct (sc =? _); [eexists; split; [done|]; by split; auto|]).
  destruct (key_char sc (c_shift st)) as [c|]; [|by exists st].
  destruct (c =? 8).
  { destruct (last_line st Hi) as (init & l & E & _). rewrite E, erase_last_snoc. cbn [mbind res_bind].
    eexists. split; [done|]. by apply erase_inv. }
  destruct (c =? newline); [by apply enter_pressed_inv|].
  destruct (_ && _).
  { eexists. split; [done|]. apply set_lines_inv; [done|by apply terminal_init_wf|apply term_text_init]. }
  destruct (c =? 96); [eexists; split; [done|]; by split|].
  destruct (char_typed_spec st c Hi) as (k & f & E & Hi' & _). eexists. by split.
Qed.

Lemma keys_pressed_inv scs : forall st, con_inv st -> exists st', keys_pressed scs st = Ok st' /\ con_inv st'.
Proof using width_pos Hrun Hload.
  induction scs as [|sc scs IH]; intros st Hi; [by exists st|]. cbn [keys_pressed].
  destruct (key_pressed_inv sc st Hi) as (st1 & -> & Hi1). cbn [mbind res_bind]. by apply IH.
Qed.

(** ** Typing *)















End Keys.

Arguments console T : clear implicits.

(** ** Theorems *)

(** No sequence of scancodes, pressed or released, valid or not, in any order,
    makes the keyboard task fail: every key is handled and the console stays well
    formed (the terminal lines, the output stream, the modifier keys), as long as
    running a line returns a well-formed console. *)
Theorem keyboard_never_fails (T : Type) (RT : RawTable T) (W H : Z) (number2str : Z -> bytes)
    (chunk : Type) (load : bytes -> chunk + bytes) (run : chunk -> console T -> res (console T * option bytes))
    (scancodes : list Z) (st : console T) :
  0 < W -> pcall_returns W H run -> messages_small load -> con_inv W H st ->
  exists st', keys_pressed W H number2str load run scancodes st = Ok st' /\ con_inv W H st'.
Proof. intros HW Hrun Hload. by apply keys_pressed_inv. Qed.


(** A console at boot on an 800 x 600 screen, with an interpreter that accepts
    every line and does nothing. *)
Definition boot_console : console (gmap Z lval) := Console ex_state stdout_init false 0 0.

Definition idle_load (s : bytes) : bytes + bytes := inl s.

Definition idle_run {C : Type} (_ : bytes) (st : C) : res (C * option bytes) := Ok (st, None).

Lemma boot_console_inv : con_inv 800 600 boot_console.
Proof.
  split; [apply fs_init_wf; lia|apply term_text_init|apply stdout_init_wf|by left|by left].
Qed.


(** Example: shift, a letter, Enter, backspace, a key release and a code that is
    no key. *)
Lemma keyboard_never_fails_witness :
  exists st', keys_pressed 800 600 (fun _ => []) idle_load idle_run [0x2a; 30; 28; 14; 0xaa; 250; 0] boot_console = Ok st' /\
    con_inv 800 600 st'.
Proof.
  apply (keyboard_never_fails (gmap Z lval) map_table 800 600 (fun _ => []) bytes idle_load idle_run).
  - lia.
  - intros ch st Hi. exists st, None. split; [done|]. split; [done|]. by intros.
  - by intros ??.
  - exact boot_console_inv.
Defined.



