(* ===== verification/Sched.v ===== *)
(** * The scheduler ([src/src/luakernel.lua]: [taskadd], [wait] and the main loop)

    Tasks are Lua coroutines that the main loop resumes in turn.  A coroutine runs
    until it calls [wait], until the count hook set by [setmaskhook] makes it
    yield, or until it ends.  What it does in between is the interpreter's: the
    parameter [interp] gives, for the suspended state of a coroutine, the tasks it
    adds, how its turn ends and what it leaves behind.  The theorems hold for every
    such [interp]; the last section is the three rectangle tasks. *)

From S2P Require Import Prelude Vbe Display LuaStr Draw.

(** ** Replacing elements by smaller ones *)

Section Replaces.
Context {A : Type} (R : A -> A -> Prop).

(** One element is replaced by any number of smaller ones; the order does not matter. *)
Definition replaces (l' l : list A) : Prop :=
  exists u x v ys, l = u ++ x :: v /\ l' ≡ₚ u ++ v ++ ys /\ Forall (fun y => R y x) ys.

Lemma replaces_perm l1 l2 : l1 ≡ₚ l2 -> Acc replaces l1 -> Acc replaces l2.
Proof.
  intros Hp [Ha]. constructor. intros l' (u & x & v & ys & -> & Hl' & Hys). apply Ha.
  symmetry in Hp. assert (x ∈ l1) as (u1 & v1 & ->)%list_elem_of_split by (rewrite <- Hp; set_solver).
  exists u1, x, v1, ys. split; [done|]. split; [|done]. rewrite Hl', !app_assoc. f_equiv. rewrite <- !Permutation_middle in Hp. by apply Permutation_cons_inv in Hp.
Qed.

Lemma replaces_cons x : Acc R x -> forall l, Acc replaces l -> Acc replaces (x :: l).
Proof.
  induction 1 as [x _ IHx]. induction 1 as [l Hl IHl]. constructor. intros l' (u & z & v & ys & El & Hl' & Hys). destruct u as [|w u].
  - injection El as <- <-. apply (replaces_perm (ys ++ l)); [rewrite Hl'; cbn; by rewrite Permutation_app_comm|]. clear Hl'.
    induction Hys as [|y ys Hy _ IHy]; [by constructor|]. cbn. by apply IHx.
  - injection El as <- ->. apply (replaces_perm (x :: (u ++ v ++ ys))); [by rewrite Hl'|]. apply IHl. by exists u, z, v, ys.
Qed.

Lemma replaces_acc l : Forall (Acc R) l -> Acc replaces l.
Proof.
  induction 1 as [|x l Hx _ IH]; [|by apply replaces_cons]. constructor. intros l' (u & x & v & ys & E & _). by destruct u.
Qed.
End Replaces.

Section Sched.
(** Lua functions, suspended coroutine bodies and the rest of the kernel. *)
Context {F C World : Type}.

(** How a turn of a coroutine ends. *)
Inductive outcome :=
| Waits (ticks : Z)        (* [wait(ticks)] *)
| Preempted                (* the count hook yields *)
| Returned                 (* the function returns *)
| Failed (errmsg : bytes). (* a Lua error *)

(** A turn: the calls of [taskadd] (function, name, count) and its end. *)
Record segment := Segment {
  g_adds : list (F * option bytes * option Z);
  g_co : C;
  g_world : World;
  g_end : outcome;
}.

Inductive costatus := Suspended | Running | Normal | Dead.

Record coroutine := Co {
  co_body : C;
  co_status : costatus;
  co_mask : Z;              (* the count of its hook *)
}.

Record task := Task {
  t_name : bytes;
  t_func : F;
  t_wait_until : Z;
  t_co : nat;               (* the coroutine, by its number *)
}.

Record sched := MkSched {
  tasks : list task;
  cos : list coroutine;     (* the coroutines created so far *)
  timer_ticks : Z;
  world : World;
}.

(** The interpreter: [coroutine.create], a turn, and [print]. *)
Context (create : F -> C) (interp : Z -> C -> World -> segment) (print : bytes -> World -> World).

(** "task_". *)
Definition str_task : bytes := [116; 97; 115; 107; 95].

Definition taskadd (func : F) (name : option bytes) (maskcount : option Z) (s : sched) : sched :=
  let co := length (cos s) in
  let task := Task (default (str_task ++ dec (Z.of_nat (length (tasks s)))) name) func 0 co in
  MkSched (tasks s ++ [task]) (cos s ++ [Co (create func) Suspended (default 1000 maskcount)])
    (timer_ticks s) (world s).

(** The loop of [wait]: the first task of the running coroutine. *)
Fixpoint set_wait (me : nat) (until : Z) (ts : list task) : list task :=
  match ts with
  | [] => []
  | t :: ts' =>
      if decide (t_co t = me) then Task (t_name t) (t_func t) until (t_co t) :: ts'
      else t :: set_wait me until ts'
  end.

(** [wait] up to its [coroutine.yield]. *)
Definition wait (me : nat) (ticks : Z) (s : sched) : sched :=
  MkSched (set_wait me (timer_ticks s + ticks) (tasks s)) (cos s) (timer_ticks s) (world s).

Definition set_co (i : nat) (c : coroutine) (s : sched) : sched :=
  MkSched (tasks s) (<[i := c]> (cos s)) (timer_ticks s) (world s).

Definition set_world (w : World) (s : sched) : sched :=
  MkSched (tasks s) (cos s) (timer_ticks s) w.

Definition str_resume : bytes :=
  [99; 97; 110; 110; 111; 116; 32; 114; 101; 115; 117; 109; 101; 32; 110; 111; 110; 45; 115; 117; 115; 112; 101; 110; 100; 101; 100; 32; 99; 111; 114; 111; 117; 116; 105; 110; 101].

(** [coroutine.resume(co)]: [None] for success, or the message. *)
Definition resume (i : nat) (s : sched) : sched * option bytes :=
  match cos s !! i with
  | Some (Co c Suspended mask) =>
      let g := interp (timer_ticks s) c (world s) in
      let s := set_world (g_world g) (set_co i (Co (g_co g) Running mask) s) in
      let s := foldl (fun s '(f, name, mc) => taskadd f name mc s) s (g_adds g) in
      match g_end g with
      | Waits t => (set_co i (Co (g_co g) Suspended mask) (wait i t s), None)
      | Preempted => (set_co i (Co (g_co g) Suspended mask) s, None)
      | Returned => (set_co i (Co (g_co g) Dead mask) s, None)
      | Failed e => (set_co i (Co (g_co g) Dead mask) s, Some e)
      end
  | _ => (s, Some str_resume)
  end.

(** The body of the inner loop: the state, and whether the task was resumed. *)
Definition visit (t : task) (s : sched) : sched * bool :=
  match co_status <$> cos s !! t_co t with
  | Some Suspended | Some Normal =>
      if t_wait_until t <=? timer_ticks s then
        let '(s, err) := resume (t_co t) s in
        (match err with Some e => set_world (print e (world s)) s | None => s end, true)
      else (s, false)
  | _ => (s, false)
  end.

(** [for _, task in ipairs(tasks)] from index [i]; tasks added meanwhile are
    visited too.  The result has the coroutines resumed, in order. *)
Fixpoint visit_loop (fuel : nat) (i : nat) (s : sched) : res (sched * list nat) :=
  match fuel with
  | O => Err NoFuel
  | S fuel' =>
      match tasks s !! i with
      | None => Ok (s, [])
      | Some t =>
          let '(s, ran) := visit t s in
          '(s, rest) ← visit_loop fuel' (S i) s;
          Ok (s, if ran then t_co t :: rest else rest)
      end
  end.

(** One iteration of the main loop, with the value of [get_timer_ticks()]; the
    last component tells whether it ends in [hlt()]. *)
Definition round (fuel : nat) (ticks : Z) (s : sched) : res (sched * list nat * bool) :=
  let s := MkSched (tasks s) (cos s) ticks (world s) in
  '(s, resumed) ← visit_loop fuel 0 s;
  Ok (s, resumed, bool_decide (resumed = [])).

(** [n] iterations of the main loop; [ticks j] is what the [j]-th one reads. *)
Fixpoint run (fuel n : nat) (ticks : nat -> Z) (s : sched) : res (sched * list (list nat)) :=
  match n with
  | O => Ok (s, [])
  | S n' =>
      '(s, ls) ← run fuel n' ticks s;
      '(s, l, _) ← round fuel (ticks n') s;
      Ok (s, ls ++ [l])
  end.

(** ** Invariant *)

(** A turn of [c] can add a task that starts as [d]. *)
Definition spawns (d c : C) : Prop := exists t w a, a ∈ g_adds (interp t c w) /\ d = create a.1.1.

(** The tasks that a task adds in its first turn may add tasks in their first turns
    and so on, to any depth; there is no endless chain of them.  (The tasks added in
    a round run in the same round: with an endless chain it would not end.) *)
Definition spawning_ends (c : C) : Prop := Acc spawns c.

(** [P] holds of the bodies of all tasks and [I] of the rest of the kernel: a turn
    keeps both, and adds only tasks that have [P] and whose chains of added tasks
    end. *)
Definition well_behaved (P : C -> Prop) (I : World -> Prop) : Prop :=
  (forall t c w, P c -> I w ->
     P (g_co (interp t c w)) /\ I (g_world (interp t c w)) /\
     Forall (fun a => P (create a.1.1) /\ spawning_ends (create a.1.1)) (g_adds (interp t c w))) /\
  (forall e w, I w -> I (print e w)).

Context (P : C -> Prop) (I : World -> Prop).

(** The [i]-th task runs the [i]-th coroutine, and between turns every coroutine
    is suspended or dead. *)
Record sched_wf (s : sched) : Prop := {
  sw_len : length (cos s) = length (tasks s);
  sw_co : forall i t, tasks s !! i = Some t -> t_co t = i;
  sw_status : forall i c, cos s !! i = Some c -> (co_status c = Suspended \/ co_status c = Dead) /\ P (co_body c);
  sw_world : I (world s);
}.

(** The task is due. *)
Definition readyb (s : sched) (i : nat) : bool :=
  match tasks s !! i, cos s !! i with
  | Some t, Some (Co _ Suspended _) => t_wait_until t <=? timer_ticks s
  | _, _ => false
  end.

(** ** One visit *)

(** What [s'] may have that [s] has not: new tasks, due at once, whose bodies have [Q]. *)
Record grown (Q : C -> Prop) (s s' : sched) (except : nat) : Prop := {
  gr_len : (length (tasks s) <= length (tasks s'))%nat;
  gr_old : forall j, (j < length (tasks s))%nat -> j <> except ->
    tasks s' !! j = tasks s !! j /\ cos s' !! j = cos s !! j;
  gr_new : forall j, (length (tasks s) <= j < length (tasks s'))%nat ->
    exists t c m, tasks s' !! j = Some t /\ t_wait_until t = 0 /\ cos s' !! j = Some (Co c Suspended m) /\ Q c;
  gr_ticks : timer_ticks s' = timer_ticks s;
}.

Lemma taskadd_wf f name mc s : sched_wf s -> P (create f) -> sched_wf (taskadd f name mc s).
Proof.
  intros [Hl Hc Hs Hw] Hp. split; cbn; [| | |done].
  - rewrite !length_app. cbn. lia.
  - intros i t. rewrite lookup_app_Some. intros [Ht|[Hi Ht]]; [by apply Hc|].
    apply list_lookup_singleton_Some in Ht as [Hi' <-]. cbn. lia.
  - intros i c. rewrite lookup_app_Some. intros [Ht|[Hi Ht]]; [by eapply Hs|].
    apply list_lookup_singleton_Some in Ht as [Hi' <-]. cbn. by auto.
Qed.

Lemma taskadd_grown (Q : C -> Prop) f name mc s :
  sched_wf s -> Q (create f) -> grown Q s (taskadd f name mc s) (length (tasks s)).
Proof.
  intros [Hl Hc Hs Hw] Hf. split; cbn; [rewrite length_app; lia| | |done].
  - intros j Hj _. rewrite !lookup_app_l by lia. done.
  - intros j. rewrite length_app. cbn. intros Hj. rewrite !lookup_app_r by lia.
    replace (j - length (tasks s))%nat with 0%nat by lia. replace (j - length (cos s))%nat with 0%nat by lia.
    by eexists _, _, _.
Qed.

Lemma grown_trans Q s1 s2 s3 e :
  grown Q s1 s2 (length (tasks s1)) -> grown Q s2 s3 e -> (length (tasks s2) <= e)%nat ->
  grown Q s1 s3 (length (tasks s1)).
Proof.
  intros [L1 O1 N1 T1] [L2 O2 N2 T2] He. split; [lia| | |congruence].
  - intros j Hj Hn. rewrite <- (proj1 (O1 j Hj Hn)), <- (proj2 (O1 j Hj Hn)). apply O2; lia.
  - intros j Hj. destruct (decide (j < length (tasks s2))%nat) as [Hlt|Hge].
    + destruct (O2 j Hlt ltac:(lia)) as [-> ->]. apply N1. lia.
    + apply N2. lia.
Qed.

Lemma adds_spec (Q : C -> Prop) adds : forall s,
  sched_wf s -> Forall (fun a => P (create a.1.1) /\ Q (create a.1.1)) adds ->
  let s' := foldl (fun s '(f, name, mc) => taskadd f name mc s) s adds in
  sched_wf s' /\ grown Q s s' (length (tasks s)) /\ length (tasks s') = (length (tasks s) + length adds)%nat.
Proof.
  induction adds as [|[[f name] mc] adds IH]; intros s Hs Ha; cbn [foldl].
  { split; [done|]. split; [|cbn; lia]. split; [done|done| |done]. intros j Hj. cbn in Hj. lia. }
  apply Forall_cons_1 in Ha as [[Hp Hf] Ha]. cbn in Hp, Hf.
  pose proof (taskadd_wf f name mc s Hs Hp) as Hs1. destruct (IH _ Hs1 Ha) as (H1 & H2 & H3).
  split; [done|]. split.
  - eapply grown_trans; [by apply taskadd_grown|exact H2|done].
  - rewrite H3. cbn. rewrite length_app. cbn. lia.
Qed.

(** [wait] finds the task of the running coroutine. *)
Lemma set_wait_lookup me u ts :
  (forall i t, ts !! i = Some t -> t_co t = i) ->
  forall j, set_wait me u ts !! j =
    if decide (j = me) then (fun t => Task (t_name t) (t_func t) u (t_co t)) <$> ts !! j else ts !! j.
Proof.
  intros Hco. assert (forall k l, (forall i t, l !! i = Some t -> t_co t = (k + i)%nat) -> forall j,
    set_wait me u l !! j = if decide ((k + j)%nat = me) then (fun t => Task (t_name t) (t_func t) u (t_co t)) <$> l !! j else l !! j) as H.
  { intros k l. revert k. induction l as [|t l IH]; intros k Hl j; cbn [set_wait].
    - rewrite lookup_nil. by destruct (decide _).
    - pose proof (Hl 0%nat t eq_refl) as Ht. rewrite Nat.add_0_r in Ht.
      assert (forall i t', l !! i = Some t' -> t_co t' = (S k + i)%nat) as Hl'.
      { intros i t' Hi. rewrite (Hl (S i) t' Hi). lia. }
      destruct (decide (t_co t = me)) as [Em|Em].
      + destruct j as [|j]; [rewrite decide_True by lia; done|]. rewrite decide_False by lia. done.
      + destruct j as [|j]; [rewrite decide_False by lia; done|]. cbn [lookup list_lookup].
        specialize (IH (S k) Hl' j). replace (k + S j)%nat with (S k + j)%nat by lia. exact IH. }
  intros j. by rewrite (H 0%nat ts Hco j).
Qed.

(** ** One turn *)

Definition add_all (adds : list (F * option bytes * option Z)) (s : sched) : sched :=
  foldl (fun s '(f, name, mc) => taskadd f name mc s) s adds.

Lemma add_all_set_co adds i x : forall s,
  (i < length (cos s))%nat -> add_all adds (set_co i x s) = set_co i x (add_all adds s).
Proof.
  unfold add_all. induction adds as [|[[f name] mc] adds IH]; intros s Hi; [done|]. cbn [foldl].
  rewrite <- IH by (cbn; rewrite length_app; lia). f_equal. unfold taskadd, set_co. cbn.
  by rewrite length_insert, insert_app_l.
Qed.

Lemma add_all_world adds w : forall s, add_all adds (set_world w s) = set_world w (add_all adds s).
Proof. unfold add_all. induction adds as [|[[f name] mc] adds IH]; intros s; [done|]. cbn [foldl]. by rewrite <- IH. Qed.

(** The status a coroutine has after a turn. *)
Definition status_after (e : outcome) : costatus :=
  match e with Waits _ | Preempted => Suspended | Returned | Failed _ => Dead end.

Definition wait_after (ticks old : Z) (e : outcome) : Z :=
  match e with Waits n => ticks + n | _ => old end.

Lemma resume_eq i s c m :
  cos s !! i = Some (Co c Suspended m) ->
  let g := interp (timer_ticks s) c (world s) in
  let s1 := add_all (g_adds g) s in
  resume i s =
    (set_world (g_world g) (set_co i (Co (g_co g) (status_after (g_end g)) m)
       (match g_end g with Waits n => wait i n s1 | _ => s1 end)),
     match g_end g with Failed e => Some e | _ => None end).
Proof.
  intros Hc g s1. unfold resume. rewrite Hc. fold g. change (foldl _ ?a (g_adds g)) with (add_all (g_adds g) a).
  cbv zeta. rewrite add_all_world, add_all_set_co by by eapply lookup_lt_Some. fold s1.
  destruct (g_end g); unfold set_world, set_co, wait; cbn; by rewrite list_insert_insert_eq.
Qed.

Hypothesis Hwb : well_behaved P I.

(** The task after its turn. *)
Lemma turn_spec i s t c m :
  sched_wf s -> tasks s !! i = Some t -> cos s !! i = Some (Co c Suspended m) ->
  let g := interp (timer_ticks s) c (world s) in
  let s' := fst (resume i s) in
  sched_wf s' /\ grown (fun d => spawning_ends d /\ spawns d c) s s' i /\
  cos s' !! i = Some (Co (g_co g) (status_after (g_end g)) m) /\
  tasks s' !! i = Some (Task (t_name t) (t_func t) (wait_after (timer_ticks s) (t_wait_until t) (g_end g)) i).
Proof.
  intros Hs Ht Hc g s'. destruct (proj1 Hwb (timer_ticks s) c (world s)) as (Hp & HI & Ha);
    [by apply (sw_status _ Hs i _ Hc)|by apply sw_world|].
  assert (Forall (fun a => P (create a.1.1) /\ spawning_ends (create a.1.1) /\ spawns (create a.1.1) c) (g_adds g)) as Ha'.
  { apply Forall_forall. intros a Hin. rewrite Forall_forall in Ha. destruct (Ha a Hin) as [Hpa Hea]. split; [done|]. split; [done|]. by exists (timer_ticks s), (world s), a. }
  destruct (adds_spec (fun d => spawning_ends d /\ spawns d c) (g_adds g) s Hs Ha') as (H1 & [L O N T] & H3). pose proof (resume_eq i s c m Hc) as E.
  cbv zeta in E. fold g in E. unfold s'. rewrite E. clear E s'. change (foldl _ s (g_adds g)) with (add_all (g_adds g) s) in *.
  set (s1 := add_all (g_adds g) s) in *. pose proof (lookup_lt_Some _ _ _ Ht) as Hi.
  destruct (O i Hi ltac:(lia)) as [Ot Oc].
  assert (exists ts, tasks (match g_end g with Waits n => wait i n s1 | _ => s1 end) = ts /\ length ts = length (tasks s1) /\
    (forall j, j <> i -> ts !! j = tasks s1 !! j) /\
    ts !! i = Some (Task (t_name t) (t_func t) (wait_after (timer_ticks s) (t_wait_until t) (g_end g)) i)) as (ts & Ets & Lts & Ots & Its).
  { rewrite Ht in Ot. pose proof (sw_co _ Hs i t Ht) as Hti. destruct t as [nm fn wu tco]. cbn in Hti. subst tco.
    destruct (g_end g) as [n| | |]; [|by exists (tasks s1)..].
    exists (set_wait i (timer_ticks s1 + n) (tasks s1)). split; [done|].
    pose proof (set_wait_lookup i (timer_ticks s1 + n) (tasks s1) (sw_co _ H1)) as Hlk.
    split; [|split].
    - generalize (tasks s1). intros l. induction l as [|x l IH]; [done|]. cbn. destruct (decide _); cbn; by rewrite ?IH.
    - intros j Hj. by rewrite Hlk, decide_False.
    - rewrite Hlk, decide_True, Ot by done. cbn. by rewrite T. }
  assert (cos (match g_end g with Waits n => wait i n s1 | _ => s1 end) = cos s1) as Ecos by by destruct (g_end g).
  assert (timer_ticks (match g_end g with Waits n => wait i n s1 | _ => s1 end) = timer_ticks s) as Etk.
  { rewrite <- T. by destruct (g_end g). }
  set (s2 := match g_end g with Waits n => wait i n s1 | _ => s1 end) in *.
  assert (i < length (cos s1))%nat as Hic by (rewrite (sw_len _ H1); lia).
  split; [split|split; [split|]]; cbn; rewrite ?Ets, ?Ecos.
  - rewrite length_insert, Lts. apply H1.
  - intros j tj Hj. destruct (decide (j = i)) as [->|Hn]; [rewrite Its in Hj; by injection Hj as <-|].
    rewrite Ots in Hj by done. by apply (sw_co _ H1).
  - intros j cj. rewrite list_lookup_insert. destruct (decide _) as [[-> _]|].
    + intros [= <-]. cbn. split; [|done]. destruct (g_end g); auto.
    + apply (sw_status _ H1).
  - exact HI.
  - lia.
  - intros j Hj Hn. rewrite Ots, list_lookup_insert_ne by done. apply O; lia.
  - intros j Hj. rewrite Lts in Hj. rewrite Ots, list_lookup_insert_ne by lia. apply N. lia.
  - done.
  - split; [|done]. by rewrite list_lookup_insert_eq.
Qed.

(** ** The inner loop *)

Lemma grown_refl Q s e : grown Q s s e.
Proof. split; [done|done|lia|done]. Qed.

Lemma grown_impl (Q Q' : C -> Prop) s s' e : (forall d, Q d -> Q' d) -> grown Q s s' e -> grown Q' s s' e.
Proof. intros HQ [L O N T]. split; [done|done| |done]. intros j Hj. destruct (N j Hj) as (t & c & m & H1 & H2 & H3 & H4). exists t, c, m. auto. Qed.

Lemma world_wf s w : sched_wf s -> I w -> sched_wf (set_world w s).
Proof. intros [H1 H2 H3 H4] Hw. by split. Qed.

Lemma world_grown Q s s' w e : grown Q s s' e -> grown Q s (set_world w s') e.
Proof. intros [H1 H2 H3 H4]. by split. Qed.

(** The bodies a visit of the [i]-th task can bring. *)
Definition brought (s : sched) (i : nat) (d : C) : Prop :=
  spawning_ends d /\ exists c st m, cos s !! i = Some (Co c st m) /\ spawns d c.

Lemma visit_spec i s t :
  sched_wf s -> tasks s !! i = Some t ->
  exists s', visit t s = (s', readyb s i) /\ sched_wf s' /\ grown (brought s i) s s' i /\
    (readyb s i = false -> s' = s).
Proof.
  intros Hs Ht. pose proof (lookup_lt_Some _ _ _ Ht) as Hi.
  destruct (lookup_lt_is_Some_2 (cos s) i ltac:(rewrite (sw_len _ Hs); done)) as [[c st m] Hc].
  unfold visit, readyb. rewrite (sw_co _ Hs i t Ht), Ht, Hc. cbn [fmap option_fmap option_map co_status].
  destruct (sw_status _ Hs i _ Hc) as [[Hst|Hst] _]; cbn in Hst; subst st.
  - destruct (t_wait_until t <=? timer_ticks s).
    + destruct (turn_spec i s t c m Hs Ht Hc) as (H1 & H2 & _). destruct (resume i s) as [s1 err]. cbn [fst] in *.
      apply (grown_impl _ (brought s i)) in H2; [|intros d [Hd Hsp]; split; [done|]; by exists c, Suspended, m].
      eexists. split; [done|]. split; [by destruct err; [apply world_wf; [|apply Hwb, sw_world]|]|].
      split; [by destruct err; [apply world_grown|]|done].
    + exists s. split; [done|]. split; [done|]. split; [apply grown_refl|]. done.
  - exists s. split; [done|]. split; [done|]. split; [apply grown_refl|]. done.
Qed.

Lemma readyb_ext s s' j :
  tasks s' !! j = tasks s !! j -> cos s' !! j = cos s !! j -> timer_ticks s' = timer_ticks s -> readyb s' j = readyb s j.
Proof. intros H1 H2 H3. unfold readyb. by rewrite H1, H2, H3. Qed.

(** The indices of a range that are due after one visit. *)
Lemma ready_range Q s s' k :
  grown Q s s' k -> 0 <= timer_ticks s -> (k < length (tasks s))%nat ->
  List.filter (readyb s') (seq (S k) (length (tasks s') - S k)) =
  List.filter (readyb s) (seq (S k) (length (tasks s) - S k)) ++
    seq (length (tasks s)) (length (tasks s') - length (tasks s)).
Proof.
  intros [L O N T] H0 Hk.
  replace (length (tasks s') - S k)%nat with ((length (tasks s) - S k) + (length (tasks s') - length (tasks s)))%nat by lia.
  rewrite seq_app, List.filter_app. replace (S k + (length (tasks s) - S k))%nat with (length (tasks s)) by lia. f_equal.
  - apply List.filter_ext_in. intros j Hj%in_seq. destruct (O j ltac:(lia) ltac:(lia)) as [E1 E2]. by apply readyb_ext.
  - rewrite (List.filter_ext_in (readyb s') (fun _ => true)); [apply List.filter_true|].
    intros j Hj%in_seq. destruct (N j ltac:(lia)) as (t & c & m & E1 & E2 & E3 & _). unfold readyb.
    rewrite E1, E3, E2, T. by apply Z.leb_le.
Qed.

Lemma visit_loop_spec fuel : forall k s s' l,
  sched_wf s -> 0 <= timer_ticks s -> (k <= length (tasks s))%nat -> visit_loop fuel k s = Ok (s', l) ->
  sched_wf s' /\ timer_ticks s' = timer_ticks s /\ (length (tasks s) <= length (tasks s'))%nat /\
  l = List.filter (readyb s) (seq k (length (tasks s) - k)) ++ seq (length (tasks s)) (length (tasks s') - length (tasks s)) /\
  (forall j, (j < length (tasks s))%nat -> (j < k)%nat \/ readyb s j = false ->
     tasks s' !! j = tasks s !! j /\ cos s' !! j = cos s !! j).
Proof.
  induction fuel as [|fuel IH]; intros k s s' l Hs H0 Hk E; [done|]. cbn [visit_loop] in E.
  destruct (tasks s !! k) as [t|] eqn:Ht.
  - pose proof (lookup_lt_Some _ _ _ Ht) as Hlt.
    destruct (visit_spec k s t Hs Ht) as (s1 & Ev & Hs1 & Hg & Hsame). rewrite Ev in E.
    destruct (visit_loop fuel (S k) s1) as [[s2 rest]|] eqn:E1; [|done]. cbn in E. injection E as <- <-.
    pose proof Hg as [L O N T].
    destruct (IH (S k) s1 s2 rest Hs1 ltac:(lia) ltac:(lia) E1) as (Hs2 & T2 & L2 & El & Hold).
    split; [done|]. split; [congruence|]. split; [lia|]. split.
    + rewrite El, (ready_range _ s s1 k Hg H0 Hlt), <- app_assoc.
      assert (seq (length (tasks s)) (length (tasks s1) - length (tasks s)) ++ seq (length (tasks s1)) (length (tasks s2) - length (tasks s1)) =
        seq (length (tasks s)) (length (tasks s2) - length (tasks s))) as ->.
      { replace (length (tasks s2) - length (tasks s))%nat with ((length (tasks s1) - length (tasks s)) + (length (tasks s2) - length (tasks s1)))%nat by lia.
        rewrite seq_app. do 2 f_equal. lia. }
      replace (length (tasks s) - k)%nat with (S (length (tasks s) - S k)) by lia. cbn [seq List.filter].
      rewrite (sw_co _ Hs k t Ht). by destruct (readyb s k).
    + intros j Hj Hn. destruct (decide (j = k)) as [->|Hne].
      * destruct Hn as [Hn|Hn]; [lia|]. rewrite (Hsame Hn) in *. apply Hold; [done|left; lia].
      * destruct (O j Hj Hne) as [E1' E2']. rewrite <- E1', <- E2'. apply Hold; [lia|].
        destruct Hn as [Hn|Hn]; [left; lia|]. right. rewrite <- Hn. by apply readyb_ext.
  - injection E as <- <-. apply lookup_ge_None_1 in Ht. split; [done|]. split; [done|]. split; [lia|]. split; [|done].
    replace (length (tasks s) - k)%nat with 0%nat by lia. by rewrite Nat.sub_diag.
Qed.

(** ** Termination *)

Lemma visit_loop_mono fuel fuel' : forall k s r,
  (fuel <= fuel')%nat -> visit_loop fuel k s = Ok r -> visit_loop fuel' k s = Ok r.
Proof.
  revert fuel'. induction fuel as [|fuel IH]; intros [|fuel'] k s r Hle E; [done|done|lia|]. cbn [visit_loop] in *.
  destruct (tasks s !! k) as [t|]; [|done]. destruct (visit t s) as [s1 ran].
  destruct (visit_loop fuel (S k) s1) as [r1|] eqn:E1; [|done]. by rewrite (IH fuel' (S k) s1 r1 ltac:(lia) E1).
Qed.

(** The bodies from index [k] on. *)
Definition queue (k : nat) (s : sched) : list C := drop k (co_body <$> cos s).

(** A visit takes the first of them away and puts what it added at the end. *)
Lemma visit_queue k s t :
  sched_wf s -> tasks s !! k = Some t ->
  exists c s1 ran ys, visit t s = (s1, ran) /\ sched_wf s1 /\ (length (tasks s) <= length (tasks s1))%nat /\
    queue k s = c :: drop (S k) (co_body <$> cos s) /\ queue (S k) s1 = drop (S k) (co_body <$> cos s) ++ ys /\
    Forall (fun y => spawning_ends y /\ spawns y c) ys.
Proof.
  intros Hs Ht. destruct (visit_spec k s t Hs Ht) as (s1 & Ev & Hs1 & [L O N T] & _). pose proof (lookup_lt_Some _ _ _ Ht) as Hk.
  destruct (lookup_lt_is_Some_2 (cos s) k ltac:(rewrite (sw_len _ Hs); lia)) as [[c st m] Hc]. pose proof (sw_len _ Hs) as E1. pose proof (sw_len _ Hs1) as E2.
  exists c, s1, (readyb s k), (drop (length (cos s)) (co_body <$> cos s1)). split; [done|]. split; [done|]. split; [done|]. split; [|split].
  - unfold queue. apply (drop_S _ c). by rewrite list_lookup_fmap, Hc.
  - unfold queue. apply list_eq. intros j. rewrite lookup_drop. destruct (decide (S k + j < length (cos s))%nat) as [Hj|Hj].
    + rewrite lookup_app_l by (rewrite length_drop, length_fmap; lia). rewrite lookup_drop, !list_lookup_fmap. destruct (O (S k + j)%nat ltac:(lia) ltac:(lia)) as [_ ->]. done.
    + rewrite lookup_app_r by (rewrite length_drop, length_fmap; lia). rewrite lookup_drop, length_drop, length_fmap. f_equal. lia.
  - apply Forall_forall. intros y Hy. apply list_elem_of_lookup in Hy as [j Hj]. rewrite lookup_drop, list_lookup_fmap in Hj.
    destruct (cos s1 !! (length (cos s) + j)%nat) as [x|] eqn:Ex; [|done]. pose proof (lookup_lt_Some _ _ _ Ex).
    destruct (N (length (cos s) + j)%nat ltac:(lia)) as (t' & c' & m' & _ & _ & Ex' & Hb). rewrite Ex' in Ex. injection Ex as <-. injection Hj as <-. destruct Hb as (Hend & c2 & st2 & m2 & Hc2 & Hsp). rewrite Hc in Hc2. by injection Hc2 as <- <- <-.
Qed.

(** Only tasks whose chains end are left. *)
Lemma visit_loop_queue l : Acc (replaces spawns) l -> forall k s, sched_wf s -> queue k s = l -> exists fuel r, visit_loop fuel k s = Ok r.
Proof.
  induction 1 as [l _ IH]. intros k s Hs Hq. destruct (tasks s !! k) as [t|] eqn:Ht; [|exists 1%nat; eexists; cbn; by rewrite Ht].
  destruct (visit_queue k s t Hs Ht) as (c & s1 & ran & ys & Ev & Hs1 & _ & Eq & Eq1 & Hys). destruct (IH (queue (S k) s1)) with (k := S k) (s := s1) as (fuel & r & E); [|done|done|].
  - rewrite <- Hq, Eq, Eq1. exists [], c, (drop (S k) (co_body <$> cos s)), ys. split; [done|]. split; [done|]. eapply Forall_impl; [exact Hys|]. by intros y [_ ?].
  - exists (S fuel). cbn [visit_loop]. rewrite Ht, Ev, E. destruct r. eexists. done.
Qed.

(** From index [k] on: [a] tasks that may add any tasks, then those whose chains end. *)
Lemma visit_loop_ends a : forall k s,
  sched_wf s -> Forall spawning_ends (drop a (queue k s)) -> exists fuel r, visit_loop fuel k s = Ok r.
Proof.
  induction a as [|a IH]; intros k s Hs Hq; [by eapply visit_loop_queue; [apply replaces_acc|..]|].
  destruct (tasks s !! k) as [t|] eqn:Ht; [|exists 1%nat; eexists; cbn; by rewrite Ht].
  destruct (visit_queue k s t Hs Ht) as (c & s1 & ran & ys & Ev & Hs1 & _ & Eq & Eq1 & Hys). rewrite Eq in Hq. cbn [drop] in Hq.
  destruct (IH (S k) s1 Hs1) as (fuel & r & E).
  - rewrite Eq1, drop_app. apply Forall_app. split; [done|]. apply Forall_drop. eapply Forall_impl; [exact Hys|]. by intros y [? _].
  - exists (S fuel). cbn [visit_loop]. rewrite Ht, Ev, E. destruct r. eexists. done.
Qed.

(** ** Rounds *)

(** The state with the ticks read at the start of a round. *)
Definition at_ticks (ticks : Z) (s : sched) : sched := MkSched (tasks s) (cos s) ticks (world s).

Lemma at_ticks_wf ticks s : sched_wf s -> sched_wf (at_ticks ticks s).
Proof. intros [H1 H2 H3 H4]. by split. Qed.

(** The coroutines a round resumes: the tasks due, in the order of the list, then
    the tasks added during the round. *)
Definition due (ticks : Z) (s s' : sched) : list nat :=
  List.filter (readyb (at_ticks ticks s)) (seq 0 (length (tasks s))) ++
  seq (length (tasks s)) (length (tasks s') - length (tasks s)).

Lemma round_spec ticks s :
  sched_wf s -> 0 <= ticks ->
  exists fuel0 s', (forall fuel, (fuel0 <= fuel)%nat ->
      round fuel ticks s = Ok (s', due ticks s s', bool_decide (due ticks s s' = []))) /\
    sched_wf s' /\ (length (tasks s) <= length (tasks s'))%nat /\
    (forall j, (j < length (tasks s))%nat -> readyb (at_ticks ticks s) j = false ->
       tasks s' !! j = tasks s !! j /\ cos s' !! j = cos s !! j).
Proof.
  intros Hs H0. pose proof (at_ticks_wf ticks s Hs) as Hs'.
  destruct (visit_loop_ends (length (tasks s)) 0 (at_ticks ticks s) Hs') as (fuel0 & [s' l] & E).
  { rewrite drop_ge; [constructor|]. unfold queue. rewrite length_drop, length_fmap, (sw_len _ Hs'). cbn. lia. }
  destruct (visit_loop_spec fuel0 0 (at_ticks ticks s) s' l Hs' H0 ltac:(lia) E) as (Hw & _ & Hl & El & Hold).
  rewrite Nat.sub_0_r in El. exists fuel0, s'. split; [|split; [done|]; split; [exact Hl|]].
  - intros fuel Hf. unfold round. fold (at_ticks ticks s). rewrite (visit_loop_mono fuel0 fuel 0 _ _ Hf E).
    cbn [mbind res_bind]. by rewrite El.
  - intros j Hj Hr. apply Hold; [done|by right].
Qed.

(** A task that sleeps stays as it is until the first round at its time. *)
Lemma sleeps ticks s i u t c m : forall n,
  sched_wf s -> (forall j, 0 <= ticks j) -> (forall j, (j < n)%nat -> ticks j < u) ->
  tasks s !! i = Some t -> t_wait_until t = u -> cos s !! i = Some (Co c Suspended m) ->
  exists fuel0 s' ls, (forall fuel, (fuel0 <= fuel)%nat -> run fuel n ticks s = Ok (s', ls)) /\
    sched_wf s' /\ tasks s' !! i = Some t /\ cos s' !! i = Some (Co c Suspended m) /\
    length ls = n /\ Forall (fun l => i ∉ l) ls.
Proof.
  intros n Hs H0. induction n as [|n IH]; intros Hlt Ht Hu Hc.
  { exists 0%nat, s, []. split; [done|]. split; [done|]. split; [done|]. split; [done|]. split; [done|constructor]. }
  destruct IH as (f1 & s1 & ls & E1 & Hs1 & Ht1 & Hc1 & Hl & Hls); [intros; apply Hlt; lia|done..|].
  destruct (round_spec (ticks n) s1 Hs1 (H0 n)) as (f2 & s2 & E2 & Hs2 & Hl2 & Hold).
  pose proof (lookup_lt_Some _ _ _ Ht1) as Hi.
  assert (readyb (at_ticks (ticks n) s1) i = false) as Hr.
  { unfold readyb. cbn. rewrite Ht1, Hc1, Hu. apply Z.leb_gt. apply Hlt. lia. }
  destruct (Hold i Hi Hr) as [O1 O2].
  exists (Nat.max f1 f2), s2, (ls ++ [due (ticks n) s1 s2]). split; [|split; [done|]].
  - intros fuel Hf. cbn [run]. rewrite E1 by lia. cbn [mbind res_bind]. rewrite E2 by lia. done.
  - rewrite O1, O2. split; [done|]. split; [done|]. split; [rewrite length_app; cbn; lia|].
    apply Forall_app. split; [done|]. apply Forall_cons; split; [|constructor]. unfold due. rewrite elem_of_app. intros [Hin|Hin].
    + apply list_elem_of_In, filter_In in Hin as [_ Hin]. congruence.
    + apply elem_of_seq in Hin. lia.
Qed.

(** The first index at which a decidable property holds. *)
Lemma first_index (Q : nat -> Prop) {HQ : forall n, Decision (Q n)} n :
  Q n -> exists m, (m <= n)%nat /\ Q m /\ forall j, (j < m)%nat -> ~ Q j.
Proof.
  intros Hn. assert (forall k, (exists m, (m < k)%nat /\ Q m /\ forall j, (j < m)%nat -> ~ Q j) \/ forall j, (j < k)%nat -> ~ Q j) as H.
  { induction k as [|k [(m & Hm & Hq)|IH]]; [right; lia|left; exists m; split; [lia|done]|].
    destruct (decide (Q k)) as [Hk|Hk]; [left; exists k; split; [lia|done]|]. right. intros j Hj.
    destruct (decide (j = k)) as [->|]; [done|]. apply IH. lia. }
  destruct (H (S n)) as [(m & Hm & Hq)|Hno]; [exists m; split; [lia|done]|]. by destruct (Hno n ltac:(lia)).
Qed.
End Sched.

Arguments sched F C World : clear implicits.
Arguments segment F C World : clear implicits.

(** ** Theorems *)

(** C18. A round of the main loop ends, unless the tasks added in it add tasks in an
    endless chain (tasks that add tasks that add tasks, to any depth, are allowed), and
    resumes exactly the tasks whose time has come, each once and in the order of
    the list, followed by the tasks added in the round; it halts the processor
    exactly when there was none, and tasks that are not due, or dead, are not
    touched. *)
Theorem round_resumes_due {F C World : Type} (create : F -> C) (interp : Z -> C -> World -> segment F C World)
    (print : bytes -> World -> World) (P : C -> Prop) (I : World -> Prop) (s : sched F C World) (ticks : Z) :
  well_behaved create interp print P I -> sched_wf P I s -> 0 <= ticks ->
  exists fuel s', round create interp print fuel ticks s =
      Ok (s', due ticks s s', bool_decide (due ticks s s' = [])) /\
    sched_wf P I s' /\
    forall j, (j < length (tasks s))%nat -> readyb (at_ticks ticks s) j = false ->
      tasks s' !! j = tasks s !! j /\ cos s' !! j = cos s !! j.
Proof.
  intros Hwb Hs H0. destruct (round_spec create interp print P I Hwb ticks s Hs H0) as (fuel & s' & E & Hs' & _ & Hold).
  exists fuel, s'. split; [by apply E|done].
Qed.

(** C17. No task starves: if the timer goes on, a suspended task is resumed, in the
    first round that reads a time at or after its wake-up time and in no round
    before, whatever the other tasks do, including failing, returning, running until
    they are preempted, and adding tasks that add tasks in turn, as long as no chain
    of tasks, each added in the first turn of the one before, is endless. *)
Theorem no_starvation {F C World : Type} (create : F -> C) (interp : Z -> C -> World -> segment F C World)
    (print : bytes -> World -> World) (P : C -> Prop) (I : World -> Prop) (s : sched F C World) (ticks : nat -> Z)
    (i : nat) (t : task) (c : coroutine) :
  well_behaved create interp print P I -> sched_wf P I s ->
  (forall n, 0 <= ticks n) -> (forall bound, exists n, bound <= ticks n) ->
  tasks s !! i = Some t -> cos s !! i = Some c -> co_status c = Suspended ->
  exists m fuel s' ls l, run create interp print fuel (S m) ticks s = Ok (s', ls ++ [l]) /\
    length ls = m /\ i ∈ l /\ t_wait_until t <= ticks m /\
    (forall j, (j < m)%nat -> ticks j < t_wait_until t) /\ Forall (fun l => i ∉ l) ls.
Proof.
  intros Hwb Hs H0 Hub Ht Hc Hst. destruct c as [c st k]. cbn in Hst. subst st.
  destruct (Hub (t_wait_until t)) as [n Hn].
  destruct (first_index (fun n => t_wait_until t <= ticks n) n Hn) as (m & _ & Hm & Hmin).
  assert (forall j, (j < m)%nat -> ticks j < t_wait_until t) as Hlt by (intros j Hj; specialize (Hmin j Hj); cbn in Hmin; lia).
  destruct (sleeps create interp print P I Hwb ticks s i (t_wait_until t) t c k m Hs H0 Hlt Ht eq_refl Hc)
    as (f1 & s1 & ls & E1 & Hs1 & Ht1 & Hc1 & Hlen & Hls).
  destruct (round_spec create interp print P I Hwb (ticks m) s1 Hs1 (H0 m)) as (f2 & s2 & E2 & _).
  exists m, (Nat.max f1 f2), s2, ls, (due (ticks m) s1 s2). split; [|split; [done|split; [|done]]].
  - cbn [run]. rewrite E1 by lia. cbn [mbind res_bind]. by rewrite E2 by lia.
  - unfold due. rewrite elem_of_app. left. apply list_elem_of_In, filter_In. split.
    + apply in_seq. apply lookup_lt_Some in Ht1. lia.
    + unfold readyb. cbn. rewrite Ht1, Hc1. by apply Z.leb_le.
Qed.

(** Any number of rounds. *)
Lemma run_wf {F C World : Type} (create : F -> C) (interp : Z -> C -> World -> segment F C World)
    (print : bytes -> World -> World) (P : C -> Prop) (I : World -> Prop) (s : sched F C World) (ticks : nat -> Z) n :
  well_behaved create interp print P I -> sched_wf P I s -> (forall j, 0 <= ticks j) ->
  exists fuel0 s' ls, (forall fuel, (fuel0 <= fuel)%nat -> run create interp print fuel n ticks s = Ok (s', ls)) /\ sched_wf P I s'.
Proof.
  intros Hwb Hs H0. induction n as [|n (f1 & s1 & ls & E1 & Hs1)]; [by exists 0%nat, s, []|].
  destruct (round_spec create interp print P I Hwb (ticks n) s1 Hs1 (H0 n)) as (f2 & s2 & E2 & Hs2 & _).
  exists (Nat.max f1 f2), s2, (ls ++ [due (ticks n) s1 s2]). split; [|done].
  intros fuel Hf. cbn [run]. rewrite E1 by lia. cbn [mbind res_bind]. by rewrite E2 by lia.
Qed.

(** ** The rectangle tasks

    [red_rect_task], [green_rect_task] and [blue_rect_task]: each draws its
    rectangle and waits, a fixed number of times, then changes its colour.  The
    count hook can strike between any two calls of [putpixel]: the list of quotas
    says after how many calls each turn is preempted. *)

Inductive rect_task := RedRect | GreenRect | BlueRect.

(** The limit of the inner loop and the change of the colour. *)
Definition rect_times (t : rect_task) : Z := match t with RedRect => 4 | GreenRect => 6 | BlueRect => 8 end.
Definition rect_step (t : rect_task) : Z := match t with RedRect => 1 | GreenRect => 3 | BlueRect => 5 end.

Section RectTasks.
(** [DISPLAY_WIDTH]. *)
Context (W : Z).

Definition rect_pixels (t : rect_task) (v : Z) : list pix :=
  match t with
  | RedRect => rectangle (W - 420) 100 100 100 v 0 0
  | GreenRect => rectangle (W - 410) 110 100 100 0 v 0
  | BlueRect => rectangle (W - 400) 120 100 100 0 0 v
  end.

(** The suspended state: the colour, the loop counter [i], and the calls of the
    current rectangle that are still to be made. *)
Record rect_co := RectCo { rc_task : rect_task; rc_value : Z; rc_i : Z; rc_todo : list pix }.

Definition rect_create (t : rect_task) : rect_co := RectCo t 20 1 (rect_pixels t 20).

(** After [wait(5)]: the next value of [i] and, at the end of the inner loop, of
    the colour. *)
Definition rect_next (c : rect_co) : rect_co :=
  let t := rc_task c in
  if rc_i c <? rect_times t then RectCo t (rc_value c) (rc_i c + 1) (rect_pixels t (rc_value c))
  else
    let v := rc_value c + rect_step t in
    let v := if v >=? 255 then 20 else v in
    RectCo t v 1 (rect_pixels t v).

(** The display and the quotas of the turns to come. *)
Record rect_world := RectWorld { rw_display : res display; rw_quotas : list nat }.

Definition rect_interp (ticks : Z) (c : rect_co) (w : rect_world) : segment rect_task rect_co rect_world :=
  match rw_quotas w with
  | q :: qs =>
      let d := rw_display w ≫= putpixels (take q (rc_todo c)) in
      if (q <=? length (rc_todo c))%nat
      then Segment [] (RectCo (rc_task c) (rc_value c) (rc_i c) (drop q (rc_todo c))) (RectWorld d qs) Preempted
      else Segment [] (rect_next c) (RectWorld d qs) (Waits 5)
  | [] => Segment [] (rect_next c) (RectWorld (rw_display w ≫= putpixels (rc_todo c)) []) (Waits 5)
  end.

(** The three calls of [taskadd] at boot. *)
Definition rect_boot (d : display) (quotas : list nat) : sched rect_task rect_co rect_world :=
  let s := MkSched [] [] 0 (RectWorld (Ok d) quotas) in
  let s := taskadd rect_create RedRect (Some [114]) None s in
  let s := taskadd rect_create GreenRect (Some [103]) None s in
  taskadd rect_create BlueRect (Some [98]) None s.

(** [print] writes to the terminal, not to the display buffer. *)
Definition rect_print (e : bytes) (w : rect_world) : rect_world := w.

(** ** Invariant: the colour is in its range, and what is left to draw is on the
    screen *)
Definition rect_ok (mode : VBEModeInfoBlock) (c : rect_co) : Prop :=
  20 <= rc_value c < 255 /\ Forall (on_screen mode) (rc_todo c) /\ Forall color_ok (rc_todo c).

Definition rect_world_ok (mode : VBEModeInfoBlock) (traps : nat) (w : rect_world) : Prop :=
  exists d, rw_display w = Ok d /\ display_wf d /\ d_mode d = mode /\ d_traps d = traps.

Lemma rect_pixels_ok mode t v :
  W = XResolution mode -> 420 <= W -> 220 < YResolution mode -> 20 <= v < 255 ->
  Forall (on_screen mode) (rect_pixels t v) /\ Forall color_ok (rect_pixels t v).
Proof.
  intros HW H1 H2 Hv. destruct t; cbn [rect_pixels]; (split;
    [apply rectangle_on_screen; [lia|lia|unfold visible; lia|unfold visible; lia]
    |eapply color_const; [..|apply rectangle_color; lia]; clia]).
Qed.

Lemma rect_next_ok mode c :
  W = XResolution mode -> 420 <= W -> 220 < YResolution mode -> rect_ok mode c -> rect_ok mode (rect_next c).
Proof.
  intros HW H1 H2 (Hv & _ & _). unfold rect_next. destruct (_ <? _).
  - split; [done|]. by apply rect_pixels_ok.
  - assert (20 <= (if rc_value c + rect_step (rc_task c) >=? 255 then 20 else rc_value c + rect_step (rc_task c)) < 255) as Hv'.
    { destruct (Z.geb_spec (rc_value c + rect_step (rc_task c)) 255); [lia|]. destruct (rc_task c); cbn in *; lia. }
    split; [done|]. by apply rect_pixels_ok.
Qed.

Lemma rect_draw_ok mode traps w ps qs :
  rect_world_ok mode traps w -> Forall (on_screen mode) ps -> Forall color_ok ps ->
  rect_world_ok mode traps (RectWorld (rw_display w ≫= putpixels ps) qs).
Proof.
  intros (d & E & Hd & <- & Ht) Hs Hc. destruct (putpixels_visible ps d Hd Hs Hc) as (d' & E' & Hd' & Hm & _ & Ht' & _).
  exists d'. cbn. rewrite E. cbn. split; [done|]. split; [done|]. split; congruence.
Qed.

Lemma rect_well_behaved mode traps :
  W = XResolution mode -> 420 <= W -> 220 < YResolution mode ->
  well_behaved rect_create rect_interp rect_print (rect_ok mode) (rect_world_ok mode traps).
Proof.
  intros HW H1 H2. split; [|done]. intros t c w Hc Hw. pose proof Hc as (Hv & Hs & Hcol). unfold rect_interp.
  destruct (rw_quotas w) as [|q qs]; [|destruct (q <=? _)%nat]; cbn [g_co g_world g_adds].
  - split; [by apply rect_next_ok|]. split; [by apply rect_draw_ok|constructor].
  - split; [split; [done|]; split; by apply Forall_drop|]. split; [|constructor].
    apply rect_draw_ok; [done|by apply Forall_take..].
  - split; [by apply rect_next_ok|]. split; [|constructor]. apply rect_draw_ok; [done|by apply Forall_take..].
Qed.

Lemma rect_boot_wf d quotas :
  W = XResolution (d_mode d) -> 420 <= W -> 220 < YResolution (d_mode d) -> display_wf d ->
  sched_wf (rect_ok (d_mode d)) (rect_world_ok (d_mode d) (d_traps d)) (rect_boot d quotas).
Proof.
  intros HW H1 H2 Hd.
  assert (forall t, rect_ok (d_mode d) (rect_create t)) as Hc by (intros t; split; [cbn; lia|]; by apply rect_pixels_ok; [..|lia]).
  apply taskadd_wf, Hc. apply taskadd_wf, Hc. apply taskadd_wf, Hc. split; [done|done|done|]. by exists d.
Qed.
End RectTasks.

(** The rectangle tasks never leave the screen: however the hook cuts their turns
    and whatever the timer reads, after any number of rounds of the scheduler the
    display is well formed, no pixel was outside the screen, and the colours are
    within their ranges. *)
Theorem rect_tasks_safe (d : display) (quotas : list nat) (ticks : nat -> Z) (n : nat) :
  let W := XResolution (d_mode d) in
  420 <= W -> 220 < YResolution (d_mode d) -> display_wf d -> (forall j, 0 <= ticks j) ->
  exists fuel s' ls d', run (rect_create W) (rect_interp W) rect_print fuel n ticks (rect_boot W d quotas) = Ok (s', ls) /\
    rw_display (world s') = Ok d' /\ display_wf d' /\ d_traps d' = d_traps d /\
    forall i c, cos s' !! i = Some c -> 20 <= rc_value (co_body c) < 255.
Proof.
  intros W H1 H2 Hd H0.
  destruct (run_wf (rect_create W) (rect_interp W) rect_print _ _ (rect_boot W d quotas) ticks n
    (rect_well_behaved W (d_mode d) (d_traps d) eq_refl H1 H2) (rect_boot_wf W d quotas eq_refl H1 H2 Hd) H0)
    as (fuel & s' & ls & E & Hs').
  destruct (sw_world _ _ _ Hs') as (d' & Ed & Hd' & _ & Ht). exists fuel, s', ls, d'. split; [by apply E|].
  split; [done|]. split; [done|]. split; [done|]. intros i c Hc. by apply (sw_status _ _ _ Hs' i c Hc).
Qed.

(** A display of 420 x 221 pixels, the smallest with room for the rectangles. *)
Definition rect_display : display :=
  Display (tiny_mode 420 221 32 1680) (replicate (Z.to_nat 371280) 0) 371280 (replicate (Z.to_nat 371280) 0) 0.

Lemma rect_display_wf : display_wf rect_display.
Proof.
  split; cbn [rect_display d_mode d_len d_buffer d_fb]; [split; vm_compute; done|vm_compute; done|..];
    rewrite length_replicate; lia.
Qed.

Lemma rect_display_behaved :
  well_behaved (rect_create 420) (rect_interp 420) rect_print (rect_ok (d_mode rect_display)) (rect_world_ok (d_mode rect_display) 0).
Proof. apply rect_well_behaved; vm_compute; (done || discriminate). Qed.

Lemma rect_display_boot quotas :
  sched_wf (rect_ok (d_mode rect_display)) (rect_world_ok (d_mode rect_display) 0) (rect_boot 420 rect_display quotas).
Proof. apply rect_boot_wf; [vm_compute; done|vm_compute; discriminate|vm_compute; done|exact rect_display_wf]. Qed.

(** A task of generation [n + 1] adds two of generation [n] and waits. *)
Definition family_interp (ticks : Z) (c : nat) (w : ()) : segment nat nat () :=
  Segment (match c with O => [] | S n => [(n, None, None); (n, None, Some 500)] end) 0%nat () (Waits 5).

Lemma family_behaved : well_behaved (fun n => n) family_interp (fun _ w => w) (fun _ => True) (fun _ => True).
Proof.
  assert (forall n, spawning_ends (fun n => n) family_interp n) as Hend.
  { intros n. induction (lt_wf n) as [n _ IH]. constructor. intros d (t & w & a & Ha & ->). apply IH. destruct n as [|n]; cbn in Ha; [by apply not_elem_of_nil in Ha|].
    apply elem_of_cons in Ha as [->|Ha%list_elem_of_singleton]; [cbn; lia|subst a; cbn; lia]. }
  split; [|done]. intros t c w _ _. split; [done|]. split; [done|]. apply Forall_forall. intros a _. split; [done|apply Hend].
Qed.

(** Witness of C18: a task whose children and grandchildren all run in its first round. *)
Lemma round_resumes_due_witness :
  let s := taskadd (fun n => n) 2%nat None None (MkSched [] [] 0 ()) in
  (exists fuel s', round (fun n => n) family_interp (fun _ w => w) fuel 3 s = Ok (s', due 3 s s', bool_decide (due 3 s s' = [])) /\
    sched_wf (fun _ => True) (fun _ => True) s' /\
    forall j, (j < length (tasks s))%nat -> readyb (at_ticks 3 s) j = false ->
      tasks s' !! j = tasks s !! j /\ cos s' !! j = cos s !! j) /\
  (fun r => r.1.2) <$> round (fun n => n) family_interp (fun _ w => w) 20 3 s = Ok [0; 1; 2; 3; 4; 5; 6]%nat.
Proof.
  intros s. split; [|vm_compute; reflexivity]. apply (round_resumes_due (fun n => n) family_interp (fun _ w => w) (fun _ => True) (fun _ => True) s 3).
  - exact family_behaved.
  - apply taskadd_wf; [|done]. by split.
  - lia.
Defined.

(** Witness of C17: the blue task with a timer that counts rounds. *)
Lemma no_starvation_witness :
  exists m fuel s' ls l, run (rect_create 420) (rect_interp 420) rect_print fuel (S m) Z.of_nat (rect_boot 420 rect_display [3; 0; 2]%nat) = Ok (s', ls ++ [l]) /\
    length ls = m /\ 2%nat ∈ l /\ 0 <= Z.of_nat m /\
    (forall j, (j < m)%nat -> Z.of_nat j < 0) /\ Forall (fun l => 2%nat ∉ l) ls.
Proof.
  apply (no_starvation (rect_create 420) (rect_interp 420) rect_print (rect_ok (d_mode rect_display)) (rect_world_ok (d_mode rect_display) 0) (rect_boot 420 rect_display [3; 0; 2]%nat) Z.of_nat 2
    (Task [98] BlueRect 0 2) (Co (rect_create 420 BlueRect) Suspended 1000)).
  - exact rect_display_behaved.
  - apply rect_display_boot.
  - lia.
  - intros b. exists (Z.to_nat b). lia.
  - done.
  - done.
  - done.
Defined.

(** Example: ten rounds with a few preemptions. *)
Lemma rect_tasks_safe_witness :
  exists fuel s' ls d', run (rect_create 420) (rect_interp 420) rect_print fuel 10 Z.of_nat (rect_boot 420 rect_display [3; 0; 2]%nat) = Ok (s', ls) /\
    rw_display (world s') = Ok d' /\ display_wf d' /\ d_traps d' = 0%nat /\
    forall i c, cos s' !! i = Some c -> 20 <= rc_value (co_body c) < 255.
Proof.
  apply (rect_tasks_safe rect_display [3; 0; 2]%nat Z.of_nat 10);
    [vm_compute; discriminate|vm_compute; done|exact rect_display_wf|lia].
Defined.
