(* ===== verification/Buddy.v ===== *)
(** * Buddy partitions

    The theory behind the memsys5 allocator, with no reference to its state: a
    partition of the atoms [0 .. n-1] into aligned blocks of powers of two, as a
    map from the first atom of a block to the logarithm of its size, with the
    splitting and merging of blocks, and full coalescing. *)

From S2P Require Import Prelude.

Definition LOG_MAX : Z := 30.

Record part (n : Z) (B : gmap Z Z) : Prop := {
  pt_wf : forall i k, B !! i = Some k ->
    0 <= k <= LOG_MAX /\ 0 <= i /\ i + 2 ^ k <= n /\ (2 ^ k | i);
  pt_disj : forall i k j l, B !! i = Some k -> B !! j = Some l -> i <> j ->
    i + 2 ^ k <= j \/ j + 2 ^ l <= i;
  pt_cover : forall a, 0 <= a < n -> exists i k, B !! i = Some k /\ i <= a < i + 2 ^ k;
}.

(** The buddy of an aligned block: the other half of its parent. *)
Definition buddy (i k : Z) : Z := if Z.testbit i k then i - 2 ^ k else i + 2 ^ k.

(** ** Aligned intervals *)

Lemma pow2_pos k : 0 <= k -> 0 < 2 ^ k.
Proof. lia. Qed.

Lemma pow2_succ k : 0 <= k -> 2 ^ (k + 1) = 2 * 2 ^ k.
Proof. intros. rewrite Z.pow_add_r by lia. lia. Qed.

Lemma pow2_divide k l : 0 <= k <= l -> (2 ^ k | 2 ^ l).
Proof. intros. exists (2 ^ (l - k)). rewrite <- Z.pow_add_r by lia. f_equal. lia. Qed.

(** Multiples of a common size are equal or at least that size apart. *)
Lemma divide_lt P a b : 0 < P -> (P | a) -> (P | b) -> a < b -> a + P <= b.
Proof.
  intros HP [q ->] [r ->] H. apply Z.mul_lt_mono_pos_r in H; [|done].
  replace (q * P + P) with ((q + 1) * P) by lia. apply Z.mul_le_mono_nonneg_r; lia.
Qed.

(** Two aligned intervals that meet are nested. *)
Lemma aligned_nested i k j l :
  0 <= k <= l -> (2 ^ k | i) -> (2 ^ l | j) -> i < j + 2 ^ l -> j < i + 2 ^ k ->
  j <= i /\ i + 2 ^ k <= j + 2 ^ l.
Proof.
  intros Hkl Hi Hj H1 H2. pose proof (pow2_divide k l Hkl) as Hd.
  pose proof (pow2_pos k ltac:(lia)) as HP.
  assert ((2 ^ k | j)) as Hj' by (etransitivity; eassumption).
  assert ((2 ^ k | j + 2 ^ l)) as Hj2 by (by apply Z.divide_add_r).
  split.
  - destruct (decide (j <= i)); [done|].
    pose proof (divide_lt _ i j HP Hi Hj' ltac:(lia)). lia.
  - pose proof (divide_lt _ i (j + 2 ^ l) HP Hi Hj2 H1). lia.
Qed.

Lemma testbit_aligned i k :
  0 <= k -> (2 ^ k | i) -> Z.testbit i k = false <-> (2 ^ (k + 1) | i).
Proof.
  intros Hk [q ->]. rewrite Z.mul_pow2_bits by lia. rewrite Z.sub_diag, Z.bit0_odd, pow2_succ by lia.
  pose proof (pow2_pos k Hk). split.
  - intros Ho. rewrite <- Z.negb_even, negb_false_iff, Z.even_spec in Ho.
    destruct Ho as [r ->]. exists r. lia.
  - intros [r Hr]. assert (q = 2 * r) as -> by nia. by rewrite Z.odd_mul.
Qed.

(** A block and its buddy make up an aligned block of twice the size. *)
Lemma buddy_parent i k :
  0 <= k -> (2 ^ k | i) ->
  (2 ^ (k + 1) | Z.min i (buddy i k)) /\ Z.max i (buddy i k) = Z.min i (buddy i k) + 2 ^ k /\
  (2 ^ k | buddy i k) /\ buddy i k <> i.
Proof.
  intros Hk Hi. pose proof (testbit_aligned i k Hk Hi) as Ht. unfold buddy.
  pose proof (pow2_pos k Hk). destruct (Z.testbit i k) eqn:E.
  - assert ((2 ^ k | i - 2 ^ k)) by (apply Z.divide_sub_r; [done|reflexivity]).
    replace (Z.min i (i - 2 ^ k)) with (i - 2 ^ k) by lia. split_and!; [|lia|done|lia].
    destruct Hi as [q ->]. rewrite Z.mul_pow2_bits, Z.sub_diag, Z.bit0_odd in E by lia.
    apply Z.odd_spec in E as [r ->]. rewrite pow2_succ by done. exists r. lia.
  - replace (Z.min i (i + 2 ^ k)) with i by lia. split_and!; [by apply Ht|lia| |lia].
    apply Z.divide_add_r; [done|reflexivity].
Qed.

Lemma buddy_buddy i k : 0 <= k -> (2 ^ k | i) -> buddy (buddy i k) k = i.
Proof.
  intros Hk Hi. destruct (buddy_parent i k Hk Hi) as (Hp & Hm & Hb & _).
  pose proof (pow2_pos k Hk). pose proof (testbit_aligned i k Hk Hi) as Hti.
  pose proof (testbit_aligned _ k Hk Hb) as Htb.
  unfold buddy at 1. unfold buddy in Hp, Hm, Htb |- *. destruct (Z.testbit i k) eqn:E.
  - replace (Z.min i (i - 2 ^ k)) with (i - 2 ^ k) in Hp by lia.
    rewrite (proj2 Htb Hp). lia.
  - destruct (Z.testbit (i + 2 ^ k) k) eqn:E'; [lia|]. exfalso.
    destruct (proj1 Hti eq_refl) as [q Hq], (proj1 Htb eq_refl) as [r Hr].
    rewrite pow2_succ in * by done. assert (1 = 2 * (r - q)) by nia. lia.
Qed.

(** ** Splitting, merging, buddies *)

Lemma part_block_unique n B i k j l a :
  part n B -> B !! i = Some k -> B !! j = Some l ->
  i <= a < i + 2 ^ k -> j <= a < j + 2 ^ l -> i = j.
Proof.
  intros HB Hi Hj Ha Hb. destruct (decide (i = j)) as [|Hne]; [done|].
  destruct (pt_disj _ _ HB i k j l Hi Hj Hne); lia.
Qed.

(** The first atom of the upper half of a block is not the head of a block. *)
Lemma part_inside n B i k a :
  part n B -> B !! i = Some k -> i < a < i + 2 ^ k -> B !! a = None.
Proof.
  intros HB Hi Ha. destruct (B !! a) as [l|] eqn:E; [|done].
  destruct (pt_wf _ _ HB _ _ E) as (Hl & _ & _ & _). pose proof (pow2_pos l ltac:(lia)).
  pose proof (part_block_unique n B i k a l a HB Hi E ltac:(lia) ltac:(lia)). lia.
Qed.

Lemma part_split n B i k :
  part n B -> B !! i = Some (k + 1) -> 0 <= k ->
  part n (<[i + 2 ^ k := k]> (<[i := k]> B)).
Proof.
  intros HB Hi Hk. destruct (pt_wf _ _ HB _ _ Hi) as (Hk1 & Hi0 & Hin & Hdi).
  rewrite pow2_succ in Hin, Hdi by done. pose proof (pow2_pos k Hk).
  assert ((2 ^ k | i)) as Hd.
  { destruct Hdi as [q ->]. exists (2 * q). lia. }
  assert (forall j l, <[i + 2 ^ k := k]> (<[i := k]> B) !! j = Some l ->
    (j = i + 2 ^ k \/ j = i) /\ l = k \/ j <> i /\ B !! j = Some l) as Hlk.
  { intros j l. rewrite !lookup_insert. repeat case_decide; intros Hl; simplify_eq; auto. }
  split.
  - intros j l [[Hj ->]|[_ Hj]]%Hlk; [|by apply (pt_wf _ _ HB)].
    assert ((2 ^ k | i + 2 ^ k)) by (apply Z.divide_add_r; [done|reflexivity]).
    destruct Hj as [->| ->]; split_and!; done || lia.
  - intros j l j' l' [[Hj ->]|[Hne Hj]]%Hlk [[Hj' ->]|[Hne' Hj']]%Hlk Hjj; [lia| | |].
    + pose proof (pt_disj _ _ HB i _ j' l' Hi Hj' ltac:(done)). rewrite pow2_succ in * by done. lia.
    + pose proof (pt_disj _ _ HB j l i _ Hj Hi ltac:(done)). rewrite pow2_succ in * by done. lia.
    + by apply (pt_disj _ _ HB).
  - intros a Ha. destruct (pt_cover _ _ HB a Ha) as (j & l & Hj & Hja).
    destruct (decide (j = i)) as [->|Hne].
    + rewrite Hi in Hj. simplify_eq. rewrite pow2_succ in Hja by done.
      destruct (decide (a < i + 2 ^ k)).
      * exists i, k. rewrite lookup_insert_ne, lookup_insert_eq by lia. split; [done|lia].
      * exists (i + 2 ^ k), k. rewrite lookup_insert_eq. split; [done|lia].
    + exists j, l. rewrite !lookup_insert_ne; [done|done|].
      intros <-. rewrite (part_inside n B i (k + 1) _ HB Hi) in Hj; [done|].
      rewrite pow2_succ by done. lia.
Qed.

Lemma part_merge n B i k :
  part n B -> B !! i = Some k -> B !! (i + 2 ^ k) = Some k -> (2 ^ (k + 1) | i) -> k < LOG_MAX ->
  part n (<[i := k + 1]> (delete (i + 2 ^ k) B)).
Proof.
  intros HB Hi Hj Hd Hmax. destruct (pt_wf _ _ HB _ _ Hi) as (Hk & Hi0 & _ & _).
  destruct (pt_wf _ _ HB _ _ Hj) as (_ & _ & Hjn & _). pose proof (pow2_pos k ltac:(lia)).
  assert (forall a l, <[i := k + 1]> (delete (i + 2 ^ k) B) !! a = Some l ->
    a = i /\ l = k + 1 \/ a <> i /\ a <> i + 2 ^ k /\ B !! a = Some l) as Hlk.
  { intros a l. rewrite lookup_insert, lookup_delete.
    repeat case_decide; intros Hl; simplify_eq; auto. }
  split.
  - intros a l [[-> ->]|(_ & _ & Ha)]%Hlk; [|by apply (pt_wf _ _ HB)].
    rewrite pow2_succ by lia. split_and!; [lia|lia|lia|lia|]. by rewrite <- pow2_succ by lia.
  - intros a l a' l' [[-> ->]|(Hn1 & Hn2 & Ha)]%Hlk [[-> ->]|(Hn1' & Hn2' & Ha')]%Hlk Hne;
      [done| | |by apply (pt_disj _ _ HB)].
    + pose proof (pt_disj _ _ HB i k a' l' Hi Ha' ltac:(done)).
      pose proof (pt_disj _ _ HB _ k a' l' Hj Ha' ltac:(done)).
      destruct (pt_wf _ _ HB _ _ Ha') as (Hl & _). pose proof (pow2_pos l' ltac:(lia)).
      rewrite pow2_succ by lia. lia.
    + pose proof (pt_disj _ _ HB a l i k Ha Hi ltac:(done)).
      pose proof (pt_disj _ _ HB a l _ k Ha Hj ltac:(done)).
      destruct (pt_wf _ _ HB _ _ Ha) as (Hl & _). pose proof (pow2_pos l ltac:(lia)).
      rewrite pow2_succ by lia. lia.
  - intros a Ha. destruct (pt_cover _ _ HB a Ha) as (j & l & Hjl & Hja).
    destruct (decide (j = i)) as [->|]; [|destruct (decide (j = i + 2 ^ k)) as [->|]].
    + exists i, (k + 1). rewrite lookup_insert_eq, pow2_succ by lia. simplify_eq. split; [done|lia].
    + exists i, (k + 1). rewrite lookup_insert_eq, pow2_succ by lia.
      simplify_eq. split; [done|lia].
    + exists j, l. rewrite lookup_insert_ne, lookup_delete_ne by done. done.
Qed.

(** The buddy of a block, when it lies in the pool, starts a block that is not
    larger. *)
Lemma part_buddy n B i k :
  part n B -> B !! i = Some k -> buddy i k + 2 ^ k <= n ->
  0 <= buddy i k /\ exists l, l <= k /\ B !! buddy i k = Some l.
Proof.
  intros HB Hi Hn. destruct (pt_wf _ _ HB _ _ Hi) as (Hk & Hi0 & Hin & Hd).
  destruct (buddy_parent i k ltac:(lia) Hd) as (Hp & Hm & Hb & Hne).
  pose proof (pow2_pos k ltac:(lia)). set (b := buddy i k) in *.
  assert (0 <= b) as Hb0.
  { destruct Hp as [q Hq]. rewrite pow2_succ in Hq by lia.
    destruct (decide (0 <= q)); nia. }
  split; [done|]. destruct (pt_cover _ _ HB b ltac:(lia)) as (j & l & Hj & Hja).
  destruct (pt_wf _ _ HB _ _ Hj) as (Hl & Hj0 & _ & Hdj).
  destruct (decide (l <= k)) as [Hle|Hgt].
  - exists l. split; [done|]. destruct (aligned_nested j l b k) as [? ?]; try done; try lia.
    assert (b = j) as -> by lia. done.
  - exfalso. destruct (aligned_nested (Z.min i b) (k + 1) j l) as [? ?]; try done; try lia.
    { rewrite pow2_succ by lia. lia. }
    rewrite pow2_succ in * by lia.
    pose proof (part_block_unique n B i k j l i HB Hi Hj ltac:(lia) ltac:(lia)) as ->.
    simplify_eq.
Qed.

(** ** Coalescing

    No two free blocks are buddies of each other. *)
Definition coalesced (F : gmap Z Z) : Prop :=
  forall i k, F !! i = Some k -> k < LOG_MAX -> F !! buddy i k <> Some k.

(** When every block is free and coalesced, every aligned region of the pool is
    inside one block: there is no fragmentation. *)
Lemma coalesced_region n B (k : nat) : forall a,
  part n B -> coalesced B -> Z.of_nat k <= LOG_MAX ->
  0 <= a -> a + 2 ^ Z.of_nat k <= n -> (2 ^ Z.of_nat k | a) ->
  exists i l, B !! i = Some l /\ i <= a /\ a + 2 ^ Z.of_nat k <= i + 2 ^ l.
Proof.
  induction k as [|k IH]; intros a HB Hc Hk Ha Han Hd.
  { destruct (pt_cover _ _ HB a) as (i & l & Hi & Hia); [cbn in *; lia|].
    exists i, l. split; [done|]. cbn. lia. }
  replace (Z.of_nat (S k)) with (Z.of_nat k + 1) in * by lia. set (kz := Z.of_nat k) in *.
  pose proof (pow2_pos kz ltac:(lia)). rewrite pow2_succ in Han |- * by lia.
  assert ((2 ^ kz | a)) as Hda by (etransitivity; [apply (pow2_divide kz (kz + 1)); lia|done]).
  destruct (IH a HB Hc) as (i & l & Hi & Hia & Hie); try done; try lia.
  destruct (IH (a + 2 ^ kz) HB Hc) as (j & m & Hj & Hja & Hje); try lia.
  { apply Z.divide_add_r; [done|reflexivity]. }
  destruct (pt_wf _ _ HB _ _ Hi) as (Hl & _ & _ & Hdi).
  destruct (pt_wf _ _ HB _ _ Hj) as (Hm & _ & _ & Hdj).
  (* A block larger than the half holds the whole region. *)
  assert (forall h q, B !! h = Some q -> (2 ^ q | h) -> kz < q <= LOG_MAX ->
    h < a + 2 * 2 ^ kz -> a < h + 2 ^ q -> h <= a /\ a + 2 * 2 ^ kz <= h + 2 ^ q) as Hbig.
  { intros h q _ Hdq Hq H1 H2. rewrite <- pow2_succ by lia.
    apply (aligned_nested a (kz + 1) h q); try done; try lia. rewrite pow2_succ by lia. lia. }
  destruct (decide (kz < l)) as [Hbl|]; [exists i, l; split; [done|]; apply Hbig; done || lia|].
  destruct (decide (kz < m)) as [Hbm|]; [exists j, m; split; [done|]; apply Hbig; done || lia|].
  exfalso. pose proof (Z.pow_le_mono_r 2 l kz). pose proof (Z.pow_le_mono_r 2 m kz).
  assert (i = a /\ 2 ^ l = 2 ^ kz) as [-> El] by lia.
  assert (j = a + 2 ^ kz /\ 2 ^ m = 2 ^ kz) as [-> Em] by lia.
  apply Z.pow_inj_r in El, Em; [|lia..]. subst l m.
  apply (Hc a kz Hi); [lia|]. unfold buddy. rewrite (proj2 (testbit_aligned a kz ltac:(lia) Hda)); done.
Qed.
