(* ===== verification/Mem5.v ===== *)
(** * The memsys5 buddy allocator ([src/dep/sqlite3/sqlite3.c], mem5.c)

    [main] gives the kernel's heap to SQLite with [SQLITE_CONFIG_HEAP], and all
    memory of the kernel comes from this allocator: the heap is an array of
    [nBlock] atoms of [szAtom] bytes, every block is a power of two of atoms, one
    control byte per atom, and the free blocks of each size form a doubly linked
    list whose links are stored in the free blocks themselves.

    A pointer into the pool is its offset from [zPool].  The assertions of the
    source are disabled in the kernel's build. *)

From S2P Require Import Prelude.

Definition LOGMAX : Z := 30.
Definition CTRL_LOGSIZE : Z := 0x1f.
Definition CTRL_FREE : Z := 0x20.
(** [sizeof(Mem5Link)]: two [int]s. *)
Definition sizeof_Mem5Link : Z := 8.

(** The performance statistics. *)
Record mem5_stats := Stats {
  nAlloc : Z; totalAlloc : Z; totalExcess : Z;
  currentOut : Z; currentCount : Z; maxOut : Z; maxCount : Z; maxRequest : Z;
}.

Record mem5 := Mem5 {
  szAtom : Z;
  nBlock : Z;
  zPool : gmap Z Z;          (* bytes of the pool by offset *)
  aiFreelist : gmap Z Z;     (* [aiFreelist[LOGMAX+1]] *)
  aCtrl : gmap Z Z;          (* one byte per atom *)
  stats : mem5_stats;
}.

Definition set_pool (st : mem5) p :=
  Mem5 (szAtom st) (nBlock st) p (aiFreelist st) (aCtrl st) (stats st).
Definition set_freelist (st : mem5) f :=
  Mem5 (szAtom st) (nBlock st) (zPool st) f (aCtrl st) (stats st).
Definition set_aCtrl (st : mem5) c :=
  Mem5 (szAtom st) (nBlock st) (zPool st) (aiFreelist st) c (stats st).
Definition set_stats (st : mem5) s :=
  Mem5 (szAtom st) (nBlock st) (zPool st) (aiFreelist st) (aCtrl st) s.

(** Array accesses; outside the array they are undefined. *)
Definition ctrl_get (st : mem5) (i : Z) : res Z :=
  if decide (0 <= i < nBlock st) then Ok (default 0 (aCtrl st !! i)) else Err Undefined.
Definition ctrl_set (i v : Z) (st : mem5) : res mem5 :=
  if decide (0 <= i < nBlock st) then Ok (set_aCtrl st (<[i := u8 v]> (aCtrl st)))
  else Err Undefined.
Definition head_get (st : mem5) (l : Z) : res Z :=
  if decide (0 <= l <= LOGMAX) then Ok (default 0 (aiFreelist st !! l)) else Err Undefined.
Definition head_set (l v : Z) (st : mem5) : res mem5 :=
  if decide (0 <= l <= LOGMAX) then Ok (set_freelist st (<[l := v]> (aiFreelist st)))
  else Err Undefined.

(** [MEM5LINK(idx)] and its members. *)
Definition MEM5LINK (st : mem5) (idx : Z) : res Z :=
  off ← c_int (idx * szAtom st);
  if decide (0 <= off /\ off + sizeof_Mem5Link <= nBlock st * szAtom st)
  then Ok off else Err Undefined.

Definition load_int (p : gmap Z Z) (off : Z) : Z := s32 (le_value (read_bytes p off 4)).
Definition store_int (p : gmap Z Z) (off v : Z) : gmap Z Z := write_bytes p off (le_bytes 4 (u32 v)).

Definition link_next (st : mem5) (i : Z) : res Z :=
  off ← MEM5LINK st i; Ok (load_int (zPool st) off).
Definition link_prev (st : mem5) (i : Z) : res Z :=
  off ← MEM5LINK st i; Ok (load_int (zPool st) (off + 4)).
Definition set_next (i v : Z) (st : mem5) : res mem5 :=
  off ← MEM5LINK st i; Ok (set_pool st (store_int (zPool st) off v)).
Definition set_prev (i v : Z) (st : mem5) : res mem5 :=
  off ← MEM5LINK st i; Ok (set_pool st (store_int (zPool st) (off + 4) v)).

Definition memsys5Unlink (i iLogsize : Z) (st : mem5) : res mem5 :=
  next ← link_next st i;
  prev ← link_prev st i;
  st ← (if prev <? 0 then head_set iLogsize next st else set_next prev next st);
  if 0 <=? next then set_prev next prev st else Ok st.

Definition memsys5Link (i iLogsize : Z) (st : mem5) : res mem5 :=
  x ← head_get st iLogsize;
  st ← set_next i x st;
  st ← set_prev i (-1) st;
  st ← (if 0 <=? x then set_prev x i st else Ok st);
  head_set iLogsize i st.

(** [1<<n] on [int]. *)
Definition shl1 (n : Z) : res Z := c_int (1 ≪ n).

(** [memsys5Size] of a pointer that is not null. *)
Definition memsys5Size (st : mem5) (p : Z) : res Z :=
  c ← ctrl_get st (Z.quot p (szAtom st));
  n ← shl1 (c &&& CTRL_LOGSIZE);
  c_int (szAtom st * n).

(** Rounding up: [for(iFullSz=szAtom, iLogsize=0; iFullSz<nByte; ...)]. *)
Fixpoint round_loop (fuel : nat) (iFullSz iLogsize nByte : Z) : res (Z * Z) :=
  match fuel with
  | O => Err NoFuel
  | S fuel' =>
      if iFullSz <? nByte then
        sz ← c_int (iFullSz * 2);
        round_loop fuel' sz (iLogsize + 1) nByte
      else Ok (iFullSz, iLogsize)
  end.

(** [for(iBin=iLogsize; iBin<=LOGMAX && aiFreelist[iBin]<0; iBin++)]. *)
Fixpoint find_bin (fuel : nat) (st : mem5) (iBin : Z) : res Z :=
  match fuel with
  | O => Err NoFuel
  | S fuel' =>
      if iBin <=? LOGMAX then
        h ← head_get st iBin;
        if h <? 0 then find_bin fuel' st (iBin + 1) else Ok iBin
      else Ok iBin
  end.

(** [while( iBin>iLogsize )]. *)
Fixpoint split_loop (fuel : nat) (i iBin iLogsize : Z) (st : mem5) : res mem5 :=
  match fuel with
  | O => Err NoFuel
  | S fuel' =>
      if iLogsize <? iBin then
        let iBin := iBin - 1 in
        newSize ← shl1 iBin;
        st ← ctrl_set (i + newSize) (CTRL_FREE ||| iBin) st;
        st ← memsys5Link (i + newSize) iBin st;
        split_loop fuel' i iBin iLogsize st
      else Ok st
  end.

(** Iterations of each loop: at most 31 doublings, sizes or splits. *)
Definition FUEL : nat := 33.

Definition count_request (nByte : Z) (s : mem5_stats) : mem5_stats :=
  if maxRequest s <? u32 nByte
  then Stats (nAlloc s) (totalAlloc s) (totalExcess s) (currentOut s) (currentCount s)
         (maxOut s) (maxCount s) (u32 nByte)
  else s.

Definition count_alloc (iFullSz nByte : Z) (s : mem5_stats) : mem5_stats :=
  let count := u32 (currentCount s + 1) in
  let out := u32 (currentOut s + iFullSz) in
  Stats (u64 (nAlloc s + 1)) (u64 (totalAlloc s + iFullSz))
    (u64 (totalExcess s + (iFullSz - nByte))) out count
    (if maxOut s <? out then out else maxOut s)
    (if maxCount s <? count then count else maxCount s) (maxRequest s).

Definition count_free (n : Z) (s : mem5_stats) : mem5_stats :=
  Stats (nAlloc s) (totalAlloc s) (totalExcess s) (u32 (currentOut s - n))
    (u32 (currentCount s - 1)) (maxOut s) (maxCount s) (maxRequest s).

Definition memsys5MallocUnsafe (nByte : Z) (st : mem5) : res (mem5 * option Z) :=
  let st := set_stats st (count_request nByte (stats st)) in
  if 0x40000000 <? nByte then Ok (st, None) else
  '(iFullSz, iLogsize) ← round_loop FUEL (szAtom st) 0 nByte;
  iBin ← find_bin FUEL st iLogsize;
  if LOGMAX <? iBin then Ok (st, None) else
  i ← head_get st iBin;
  st ← memsys5Unlink i iBin st;
  st ← split_loop FUEL i iBin iLogsize st;
  st ← ctrl_set i iLogsize st;
  let st := set_stats st (count_alloc iFullSz nByte (stats st)) in
  off ← c_int (i * szAtom st);
  Ok (st, Some off).

(** [while( ALWAYS(iLogsize<LOGMAX) )]: merging with the buddies. *)
Fixpoint merge_loop (fuel : nat) (iBlock iLogsize size : Z) (st : mem5) : res (mem5 * Z * Z) :=
  match fuel with
  | O => Err NoFuel
  | S fuel' =>
      if iLogsize <? LOGMAX then
        let iBuddy :=
          if Z.testbit (iBlock ≫ iLogsize) 0
          then s32 (u32 iBlock - size) else s32 (u32 iBlock + size) in
        n ← shl1 iLogsize;
        e ← c_int (iBuddy + n);
        if nBlock st <? e then Ok (st, iBlock, iLogsize) else
        c ← ctrl_get st iBuddy;
        if negb (c =? (CTRL_FREE ||| iLogsize)) then Ok (st, iBlock, iLogsize) else
        st ← memsys5Unlink iBuddy iLogsize st;
        let iLogsize := iLogsize + 1 in
        if iBuddy <? iBlock then
          st ← ctrl_set iBuddy (CTRL_FREE ||| iLogsize) st;
          st ← ctrl_set iBlock 0 st;
          merge_loop fuel' iBuddy iLogsize (u32 (size * 2)) st
        else
          st ← ctrl_set iBlock (CTRL_FREE ||| iLogsize) st;
          st ← ctrl_set iBuddy 0 st;
          merge_loop fuel' iBlock iLogsize (u32 (size * 2)) st
      else Ok (st, iBlock, iLogsize)
  end.

(** The part of [memsys5FreeUnsafe] before the loop: the control bytes and the
    statistics; the results are [iLogsize] and [size]. *)
Definition mark_free (iBlock : Z) (st : mem5) : res (mem5 * Z * Z) :=
  c ← ctrl_get st iBlock;
  let iLogsize := c &&& CTRL_LOGSIZE in
  n ← shl1 iLogsize;
  let size := u32 n in
  st ← ctrl_set iBlock (c ||| CTRL_FREE) st;
  e ← ctrl_get st (u32 (u32 iBlock + size - 1));
  st ← ctrl_set (u32 (u32 iBlock + size - 1)) (e ||| CTRL_FREE) st;
  let st := set_stats st (count_free (u32 (size * szAtom st)) (stats st)) in
  st ← ctrl_set iBlock (CTRL_FREE ||| iLogsize) st;
  Ok (st, iLogsize, size).

Definition memsys5FreeUnsafe (pOld : Z) (st : mem5) : res mem5 :=
  let iBlock := Z.quot pOld (szAtom st) in
  '(st, iLogsize, size) ← mark_free iBlock st;
  '(st, iBlock, iLogsize) ← merge_loop FUEL iBlock iLogsize size st;
  memsys5Link iBlock iLogsize st.

Definition memsys5Malloc (nBytes : Z) (st : mem5) : res (mem5 * option Z) :=
  if 0 <? nBytes then memsys5MallocUnsafe nBytes st else Ok (st, None).

Definition memsys5Free (pPrior : Z) (st : mem5) : res mem5 := memsys5FreeUnsafe pPrior st.

(** [memcpy(p, pPrior, nOld)] inside the pool. *)
Definition pool_copy (dst src n : Z) (st : mem5) : mem5 :=
  set_pool st (write_bytes (zPool st) dst (read_bytes (zPool st) src (Z.to_nat n))).

Definition memsys5Realloc (pPrior nBytes : Z) (st : mem5) : res (mem5 * option Z) :=
  if nBytes =? 0 then Ok (st, None) else
  nOld ← memsys5Size st pPrior;
  if nBytes <=? nOld then Ok (st, Some pPrior) else
  '(st, p) ← memsys5MallocUnsafe nBytes st;
  match p with
  | None => Ok (st, None)
  | Some p => st ← memsys5FreeUnsafe pPrior (pool_copy p pPrior nOld st); Ok (st, Some p)
  end.

Definition memsys5Roundup (st : mem5) (n : Z) : res Z :=
  if 0x40000000 <? n then Ok 0 else
  '(iFullSz, _) ← round_loop FUEL (szAtom st) 0 n; Ok iFullSz.

(** [for(iLog=0; iLog<31 && (1<<iLog)<iValue; iLog++)]. *)
Fixpoint log_loop (fuel : nat) (iLog iValue : Z) : res Z :=
  match fuel with
  | O => Err NoFuel
  | S fuel' =>
      if iLog <? 31 then
        n ← shl1 iLog;
        if n <? iValue then log_loop fuel' (iLog + 1) iValue else Ok iLog
      else Ok iLog
  end.

Definition memsys5Log (iValue : Z) : res Z := log_loop FUEL 0 iValue.

(** [while( (int)sizeof(Mem5Link)>mem5.szAtom )]. *)
Fixpoint atom_loop (fuel : nat) (sz : Z) : res Z :=
  match fuel with
  | O => Err NoFuel
  | S fuel' => if sz <? sizeof_Mem5Link then sz ← c_int (sz ≪ 1); atom_loop fuel' sz else Ok sz
  end.

(** [for(ii=LOGMAX; ii>=0; ii--)]: [n] is [ii + 1]. *)
Fixpoint init_loop (n : nat) (iOffset : Z) (st : mem5) : res mem5 :=
  match n with
  | O => Ok st
  | S ii =>
      nAlloc ← shl1 (Z.of_nat ii);
      e ← c_int (iOffset + nAlloc);
      if e <=? nBlock st then
        st ← ctrl_set iOffset (Z.of_nat ii ||| CTRL_FREE) st;
        st ← memsys5Link iOffset (Z.of_nat ii) st;
        init_loop ii e st
      else init_loop ii iOffset st
  end.

Definition freelist_empty : gmap Z Z :=
  list_to_map ((fun ii => (ii, -1)) <$> seqZ 0 (LOGMAX + 1)).

Definition stats_zero : mem5_stats := Stats 0 0 0 0 0 0 0 0.

(** [nHeap] and [mnReq] come from [sqlite3_config]; [pool] and [ctrl] are the
    contents of the heap memory.  [nByte / (szAtom+sizeof(u8))] is computed in
    [size_t] and converted to [int]. *)
Definition memsys5Init (nHeap mnReq : Z) (pool ctrl : gmap Z Z) : res mem5 :=
  nMinLog ← memsys5Log mnReq;
  sz ← shl1 nMinLog;
  sz ← atom_loop FUEL sz;
  let nBlock := s32 (u64 nHeap / (sz + 1)) in
  init_loop (Z.to_nat (LOGMAX + 1)) 0 (Mem5 sz nBlock pool freelist_empty ctrl stats_zero).

(** The [SQLITE_CONFIG_HEAP] case of [sqlite3_config]: the size is read as an
    [int] argument, the minimum request is cut to [1..4096]. *)
Definition config_heap (nHeap mnReq : Z) : Z * Z :=
  (s32 nHeap, if s32 mnReq <? 1 then 1 else if 4096 <? s32 mnReq then 4096 else s32 mnReq).
