(* ===== verification/Mem5Lists.v ===== *)
(** * The free lists of the memsys5 allocator

    The doubly linked lists that [memsys5Link] and [memsys5Unlink] maintain
    inside the free blocks of the pool, against a map [F] from the first atom of
    a free block to the logarithm of its size. *)

From S2P Require Import Prelude Mem5.

(** What [memsys5Init] establishes about the sizes. *)
Record geom (st : mem5) : Prop := {
  g_atom : exists m, 3 <= m <= 12 /\ szAtom st = 2 ^ m;
  g_block : 0 <= nBlock st;
  g_fits : nBlock st * szAtom st < 2 ^ 31;
}.

Lemma geom_atom st : geom st -> 8 <= szAtom st.
Proof.
  intros [(m & Hm & ->) _ _]. apply (Z.pow_le_mono_r 2 3 m); lia.
Qed.

(** The links of the [i]-th atom. *)
Definition nxt (st : mem5) (i : Z) : Z := load_int (zPool st) (i * szAtom st).
Definition prv (st : mem5) (i : Z) : Z := load_int (zPool st) (i * szAtom st + 4).
Definition head (st : mem5) (k : Z) : Z := default 0 (aiFreelist st !! k).

Definition put_next (i v : Z) (st : mem5) : mem5 :=
  set_pool st (store_int (zPool st) (i * szAtom st) v).
Definition put_prev (i v : Z) (st : mem5) : mem5 :=
  set_pool st (store_int (zPool st) (i * szAtom st + 4) v).
Definition put_head (k v : Z) (st : mem5) : mem5 :=
  set_freelist st (<[k := v]> (aiFreelist st)).

(** Two states that differ in the pool and the list heads only. *)
Definition same_ctrl (st st' : mem5) : Prop :=
  szAtom st' = szAtom st /\ nBlock st' = nBlock st /\ aCtrl st' = aCtrl st /\
  stats st' = stats st.

#[export] Instance same_ctrl_po : PreOrder same_ctrl.
Proof.
  split.
  - by intros st.
  - intros a b c (? & ? & ? & ?) (? & ? & ? & ?). unfold same_ctrl. split_and!; congruence.
Qed.

Lemma same_ctrl_geom st st' : same_ctrl st st' -> geom st -> geom st'.
Proof. intros (H1 & H2 & _) [A B C]. split; rewrite ?H1, ?H2; done. Qed.

(** The atom a byte of the pool belongs to. *)
Definition atom_of (st : mem5) (a : Z) : Z := a / szAtom st.

Lemma load_store_same p off v : in_s 32 v -> load_int (store_int p off v) off = v.
Proof.
  intros Hv. unfold load_int, store_int.
  pose proof (read_write_same p off (le_bytes 4 (u32 v))) as Hrw.
  rewrite length_le_bytes in Hrw. rewrite Hrw, le_value_bytes. change (256 ^ Z.of_nat 4) with (2 ^ 32). fold (wrap 32 (u32 v)).
  rewrite wrap_wrap. unfold swrap, wrap.
  rewrite Zplus_mod_idemp_l. apply (swrap_small 32); done || lia.
Qed.

Lemma load_store_other p off v off' :
  off + 4 <= off' \/ off' + 4 <= off -> load_int (store_int p off v) off' = load_int p off'.
Proof.
  intros H. unfold load_int, store_int. rewrite read_write_disjoint; [done|].
  rewrite length_le_bytes. lia.
Qed.

Lemma read_byte_store p off v a :
  a < off \/ off + 4 <= a -> read_byte (store_int p off v) a = read_byte p a.
Proof.
  intros H. unfold store_int. rewrite read_byte_write, length_le_bytes, decide_False by lia. done.
Qed.

Section Geom.
Context (st : mem5) (G : geom st).

Lemma MEM5LINK_ok i : 0 <= i < nBlock st -> MEM5LINK st i = Ok (i * szAtom st).
Proof using G.
  intros Hi. pose proof (geom_atom st G). pose proof (g_fits st G).
  assert (0 <= i * szAtom st /\ i * szAtom st + 8 <= nBlock st * szAtom st) as [? ?] by nia.
  unfold MEM5LINK. rewrite c_int_ok by clia. cbn.
  rewrite decide_True; [done|]. unfold sizeof_Mem5Link. lia.
Qed.

Lemma link_next_ok i : 0 <= i < nBlock st -> link_next st i = Ok (nxt st i).
Proof using G. intros. unfold link_next. by rewrite MEM5LINK_ok. Qed.
Lemma link_prev_ok i : 0 <= i < nBlock st -> link_prev st i = Ok (prv st i).
Proof using G. intros. unfold link_prev. by rewrite MEM5LINK_ok. Qed.
Lemma set_next_ok i v : 0 <= i < nBlock st -> set_next i v st = Ok (put_next i v st).
Proof using G. intros. unfold set_next. by rewrite MEM5LINK_ok. Qed.
Lemma set_prev_ok i v : 0 <= i < nBlock st -> set_prev i v st = Ok (put_prev i v st).
Proof using G. intros. unfold set_prev. by rewrite MEM5LINK_ok. Qed.

Lemma atoms_apart i j : i <> j -> i * szAtom st + 8 <= j * szAtom st \/ j * szAtom st + 8 <= i * szAtom st.
Proof using G. intros. pose proof (geom_atom st G). nia. Qed.

Lemma nxt_put_next i v j :
  in_s 32 v -> nxt (put_next i v st) j = if decide (j = i) then v else nxt st j.
Proof using G.
  intros Hv. unfold nxt, put_next. cbn. case_decide as Hj.
  - subst j. by apply load_store_same.
  - apply load_store_other. pose proof (atoms_apart i j). lia.
Qed.

Lemma prv_put_prev i v j :
  in_s 32 v -> prv (put_prev i v st) j = if decide (j = i) then v else prv st j.
Proof using G.
  intros Hv. unfold prv, put_prev. cbn. case_decide as Hj.
  - subst j. by apply load_store_same.
  - apply load_store_other. pose proof (atoms_apart i j). lia.
Qed.

Lemma prv_put_next i v j : prv (put_next i v st) j = prv st j.
Proof using G.
  unfold prv, put_next. cbn. apply load_store_other.
  destruct (decide (i = j)) as [->|Hne]; [lia|]. pose proof (atoms_apart i j Hne). lia.
Qed.

Lemma nxt_put_prev i v j : nxt (put_prev i v st) j = nxt st j.
Proof using G.
  unfold nxt, put_prev. cbn. apply load_store_other.
  destruct (decide (i = j)) as [->|Hne]; [lia|]. pose proof (atoms_apart i j Hne). lia.
Qed.

(** Bytes of other atoms are not touched. *)
Lemma byte_put_next i v a :
  atom_of st a <> i -> read_byte (zPool (put_next i v st)) a = read_byte (zPool st) a.
Proof using G.
  intros Ha. apply read_byte_store. pose proof (geom_atom st G). unfold atom_of in Ha.
  destruct (decide (a < i * szAtom st)); [by left|right].
  destruct (decide (i * szAtom st + 4 <= a)); [done|]. exfalso. apply Ha.
  symmetry. apply (Z.div_unique _ _ i (a - i * szAtom st)); lia.
Qed.

Lemma byte_put_prev i v a :
  atom_of st a <> i -> read_byte (zPool (put_prev i v st)) a = read_byte (zPool st) a.
Proof using G.
  intros Ha. apply read_byte_store. pose proof (geom_atom st G). unfold atom_of in Ha.
  destruct (decide (a < i * szAtom st + 4)); [by left|right].
  destruct (decide (i * szAtom st + 8 <= a)); [lia|]. exfalso. apply Ha.
  symmetry. apply (Z.div_unique _ _ i (a - i * szAtom st)); lia.
Qed.
End Geom.

Lemma head_get_ok st k : 0 <= k <= LOGMAX -> head_get st k = Ok (head st k).
Proof. intros. unfold head_get. by rewrite decide_True. Qed.
Lemma head_set_ok st k v : 0 <= k <= LOGMAX -> head_set k v st = Ok (put_head k v st).
Proof. intros. unfold head_set. by rewrite decide_True. Qed.

Lemma head_put_head st k v j : head (put_head k v st) j = if decide (j = k) then v else head st j.
Proof.
  unfold head, put_head. cbn. rewrite lookup_insert. repeat case_decide; subst; done.
Qed.

(** ** Doubly linked segments

    [dseg nx pv p c l p' c']: starting with previous node [p] at node [c], the
    list runs through [l] and ends with previous node [p'] at node [c']. *)
Fixpoint dseg (nx pv : Z -> Z) (p c : Z) (l : list Z) (p' c' : Z) : Prop :=
  match l with
  | [] => p = p' /\ c = c'
  | i :: l => c = i /\ pv i = p /\ dseg nx pv i (nx i) l p' c'
  end.

Lemma last_cons_default (p i : Z) l : default p (last (i :: l)) = default i (last l).
Proof. rewrite last_cons. by destruct (last l). Qed.

Section Dseg.
Context (nx pv nx' pv' : Z -> Z).

Lemma dseg_app p c l1 l2 p' c' :
  dseg nx pv p c (l1 ++ l2) p' c' <->
  exists q d, dseg nx pv p c l1 q d /\ dseg nx pv q d l2 p' c'.
Proof using.
  revert p c. induction l1 as [|i l1 IH]; intros p c; cbn.
  - split; [intros; exists p, c; done|]. intros (q & d & [-> ->] & ?). done.
  - rewrite IH. clear IH nx' pv'. naive_solver.
Qed.

Lemma dseg_ext p c l p' c' :
  (forall i, i ∈ l -> nx' i = nx i /\ pv' i = pv i) ->
  dseg nx pv p c l p' c' -> dseg nx' pv' p c l p' c'.
Proof using.
  revert p c. induction l as [|i l IH]; intros p c He; cbn; [done|].
  destruct (He i) as [-> ->]; [by left|]. intros (-> & -> & H). split_and!; [done|done|].
  apply IH; [|done]. intros. apply He. by right.
Qed.

(** The end of a segment is its last node. *)
Lemma dseg_last p c l p' c' : dseg nx pv p c l p' c' -> p' = default p (last l).
Proof using.
  revert p c. induction l as [|i l IH]; intros p c; cbn [dseg]; [cbn; by intros [-> _]|].
  intros (_ & _ & H). by rewrite (IH _ _ H), last_cons_default.
Qed.

(** Changing the previous pointer of the first node. *)
Lemma dseg_new_prev p q c l p' c' :
  dseg nx pv p c l p' c' -> NoDup l ->
  (forall i, i ∈ l -> nx' i = nx i /\ (i <> c -> pv' i = pv i)) ->
  (l <> [] -> pv' c = q) ->
  dseg nx' pv' q c l (default q (last l)) c'.
Proof using.
  destruct l as [|i l]; cbn [dseg]; [by intros [_ ->]|].
  intros (-> & Hp & H) Hnd He Hq. split_and!; [done|by apply Hq|].
  apply NoDup_cons in Hnd as [Hni Hnd].
  destruct (He i) as [-> _]; [by left|].
  assert (default q (last (i :: l)) = p') as ->.
  { by rewrite (dseg_last _ _ _ _ _ H), last_cons_default. }
  apply dseg_ext with (l := l) in H; [done|].
  intros j Hj. destruct (He j) as [? Hpv]; [by right|]. split; [done|].
  apply Hpv. intros ->. done.
Qed.

(** Changing the next pointer of the last node. *)
Lemma dseg_new_next p c l q c' d' :
  dseg nx pv p c l q c' -> NoDup l -> l <> [] ->
  (forall i, i ∈ l -> (i <> q -> nx' i = nx i) /\ pv' i = pv i) ->
  nx' q = d' ->
  dseg nx' pv' p c l q d'.
Proof using.
  revert p c. induction l as [|i l IH]; intros p c H Hnd Hne He Hd; [done|].
  cbn [dseg] in *. destruct H as (-> & Hp & H). apply NoDup_cons in Hnd as [Hni Hnd].
  destruct (He i) as [Hn ->]; [by left|]. split_and!; [done|done|].
  destruct l as [|j l].
  - cbn in *. destruct H as [-> _]. done.
  - rewrite Hn.
    + apply IH; [done|done|done| |done]. intros x Hx. apply He. by right.
    + intros <-. pose proof (dseg_last _ _ _ _ _ H) as Hl. apply Hni.
      destruct (proj2 (last_is_Some (j :: l)) ltac:(done)) as [x Hx].
      rewrite Hx in Hl. cbn in Hl. subst x. by apply last_Some_elem_of.
Qed.
End Dseg.

(** Taking a node out of a list, as a change of the two pointer functions. *)
Lemma dseg_remove nx pv nx' pv' h i l1 l2 e :
  NoDup (l1 ++ i :: l2) -> (forall x, x ∈ l1 ++ i :: l2 -> 0 <= x) ->
  dseg nx pv (-1) h (l1 ++ i :: l2) e (-1) ->
  (forall x, nx' x = if decide (0 <= pv i /\ x = pv i) then nx i else nx x) ->
  (forall x, pv' x = if decide (0 <= nx i /\ x = nx i) then pv i else pv x) ->
  (pv i = -1 \/ pv i ∈ l1 ++ l2) /\ (nx i = -1 \/ nx i ∈ l1 ++ l2) /\
  exists e', dseg nx' pv' (-1) (if decide (pv i < 0) then nx i else h) (l1 ++ l2) e' (-1).
Proof.
  intros Hnd Hmem Hds Hnx Hpv.
  apply dseg_app in Hds as (q & d & H1 & H2). cbn in H2. destruct H2 as (-> & <- & H2).
  apply NoDup_app in Hnd as (Hnd1 & Hdis & Hnd2). apply NoDup_cons in Hnd2 as [Hni2 Hnd2].
  set (q := pv i) in *. set (d := nx i) in *.
  assert (q = -1 /\ l1 = [] \/ 0 <= q /\ q ∈ l1) as Hqc.
  { rewrite (dseg_last _ _ _ _ _ _ _ H1). destruct (last l1) as [x|] eqn:E.
    - right. apply last_Some_elem_of in E. split; [apply Hmem; set_solver|done].
    - left. apply last_None in E. done. }
  assert (d = -1 /\ l2 = [] \/ 0 <= d /\ d ∈ l2) as Hdc.
  { destruct l2 as [|x l2]; [left; by destruct H2|]. right. destruct H2 as (-> & _).
    split; [apply Hmem; set_solver|set_solver]. }
  split; [set_solver|]. split; [set_solver|].
  exists (default q (last l2)). apply dseg_app. exists q, d. split.
  - destruct Hqc as [[Hq ->]|[Hq0 Hql]].
    { rewrite decide_True by lia. cbn. done. }
    rewrite decide_False by lia. eapply (dseg_new_next nx pv); [exact H1|done|by intros ->; apply not_elem_of_nil in Hql| |].
    + intros x Hx. rewrite Hnx, Hpv. split; [intros; by rewrite decide_False by tauto|].
      rewrite decide_False; [done|]. set_solver by lia.
    + by rewrite Hnx, decide_True by lia.
  - eapply (dseg_new_prev nx pv); [exact H2|done| |].
    + intros x Hx. rewrite Hnx, Hpv. split; [|intros; by rewrite decide_False by tauto].
      rewrite decide_False; [done|]. set_solver by lia.
    + intros Hl2. rewrite Hpv, decide_True; [done|]. destruct Hdc as [[_ ?]|[? _]]; done.
Qed.

(** ** The free lists *)

Record flists (st : mem5) (F : gmap Z Z) : Prop := {
  fl_range : forall i k, F !! i = Some k -> 0 <= k <= LOGMAX /\ 0 <= i < nBlock st;
  fl_lists : forall k, 0 <= k <= LOGMAX -> exists l e, NoDup l /\
    dseg (nxt st) (prv st) (-1) (head st k) l e (-1) /\
    forall i, i ∈ l <-> F !! i = Some k;
}.

(** Only bytes of atoms in [T] change. *)
Definition pool_frame (T : Z -> Prop) (st st' : mem5) : Prop :=
  forall a, ~ T (atom_of st a) -> read_byte (zPool st') a = read_byte (zPool st) a.

Lemma pool_frame_refl T st : pool_frame T st st.
Proof. by intros a _. Qed.

Lemma pool_frame_trans T st1 st2 st3 :
  szAtom st2 = szAtom st1 -> pool_frame T st1 st2 -> pool_frame T st2 st3 -> pool_frame T st1 st3.
Proof.
  intros Hs H1 H2 a Ha. rewrite H2, H1; [done|done|]. unfold atom_of in *. by rewrite Hs.
Qed.

Lemma pool_frame_weaken (T T' : Z -> Prop) st st' :
  (forall q, T q -> T' q) -> pool_frame T st st' -> pool_frame T' st st'.
Proof. intros H1 H2 a Ha. apply H2. eauto. Qed.

Lemma load_int_range p off : in_s 32 (load_int p off).
Proof. apply swrap_range. lia. Qed.
Lemma nxt_range st i : in_s 32 (nxt st i).
Proof. apply load_int_range. Qed.
Lemma prv_range st i : in_s 32 (prv st i).
Proof. apply load_int_range. Qed.

Lemma index_range st i : geom st -> 0 <= i < nBlock st -> in_s 32 i.
Proof.
  intros G Hi. pose proof (geom_atom st G). pose proof (g_fits st G).
  assert (nBlock st * 1 <= nBlock st * szAtom st) by (apply Z.mul_le_mono_nonneg_l; lia). clia.
Qed.

Lemma same_ctrl_put_next st i v : same_ctrl st (put_next i v st).
Proof. done. Qed.
Lemma same_ctrl_put_prev st i v : same_ctrl st (put_prev i v st).
Proof. done. Qed.
Lemma same_ctrl_put_head st i v : same_ctrl st (put_head i v st).
Proof. done. Qed.

(** Side conditions of the update lemmas. *)
Ltac geo := first [assumption | eapply same_ctrl_geom; [|eassumption]; done].

(** The state after the two pointer updates of [memsys5Unlink]. *)
Definition unlinked (k : Z) (q d : Z) (st : mem5) : mem5 :=
  let st1 := if q <? 0 then put_head k d st else put_next q d st in
  if 0 <=? d then put_prev d q st1 else st1.

Section Unlinked.
Context (st : mem5) (G : geom st) (k q d : Z).
Context (Hq : in_s 32 q) (Hd : in_s 32 d).

Lemma unlinked_same : same_ctrl st (unlinked k q d st).
Proof using. unfold unlinked. destruct (q <? 0), (0 <=? d); done. Qed.

Lemma unlinked_nxt x : nxt (unlinked k q d st) x = if decide (0 <= q /\ x = q) then d else nxt st x.
Proof using G Hd.
  unfold unlinked. destruct (Z.ltb_spec q 0), (Z.leb_spec 0 d);
    rewrite ?nxt_put_prev by geo; try change (nxt (put_head k d st) x) with (nxt st x);
    rewrite ?nxt_put_next by geo; repeat case_decide; done || lia.
Qed.

Lemma unlinked_prv x : prv (unlinked k q d st) x = if decide (0 <= d /\ x = d) then q else prv st x.
Proof using G Hq.
  unfold unlinked. destruct (Z.ltb_spec q 0), (Z.leb_spec 0 d);
    rewrite ?prv_put_prev by geo; try change (prv (put_head k d st) x) with (prv st x);
    rewrite ?prv_put_next by geo; repeat case_decide; done || lia.
Qed.

Lemma unlinked_head x : head (unlinked k q d st) x = if decide (q < 0 /\ x = k) then d else head st x.
Proof using.
  unfold unlinked, head. destruct (Z.ltb_spec q 0), (Z.leb_spec 0 d); cbn;
    rewrite ?lookup_insert; repeat case_decide; cbn; done || lia.
Qed.

Lemma unlinked_frame T :
  (0 <= q -> T q) -> (0 <= d -> T d) -> pool_frame T st (unlinked k q d st).
Proof using G Hq Hd.
  intros Tq Td a Ha. unfold unlinked.
  assert (0 <= q -> atom_of st a <> q) by (intros ? <-; auto).
  assert (0 <= d -> atom_of st a <> d) by (intros ? <-; auto).
  destruct (Z.ltb_spec q 0), (Z.leb_spec 0 d);
    rewrite ?byte_put_prev by (geo || auto); rewrite ?byte_put_next by (geo || auto); done.
Qed.
End Unlinked.

(** [memsys5Unlink] takes exactly the block [i] off its list; it touches links
    of free blocks only. *)
Lemma memsys5Unlink_spec st F i k :
  geom st -> flists st F -> F !! i = Some k ->
  exists st', memsys5Unlink i k st = Ok st' /\ same_ctrl st st' /\ flists st' (delete i F) /\
    pool_frame (fun q => is_Some (F !! q)) st st'.
Proof.
  intros G [Hr Hl] Hi. destruct (Hr i k Hi) as [Hk Hi0].
  destruct (Hl k Hk) as (l & e & Hnd & Hds & Hin).
  pose proof (proj2 (Hin i) Hi) as Hil. apply list_elem_of_split in Hil as (l1 & l2 & ->).
  pose proof (nxt_range st i) as Hd32. pose proof (prv_range st i) as Hq32.
  destruct (dseg_remove (nxt st) (prv st) (nxt (unlinked k (prv st i) (nxt st i) st))
    (prv (unlinked k (prv st i) (nxt st i) st)) (head st k) i l1 l2 e Hnd) as (Hq & Hd & e' & Hds');
    [by intros x Hx%Hin%Hr; lia|done|by apply unlinked_nxt|by apply unlinked_prv|].
  set (q := prv st i) in *. set (d := nxt st i) in *.
  assert (forall x, x ∈ l1 ++ l2 -> F !! x = Some k) as Hmem by (intros; apply Hin; set_solver).
  assert (q < 0 \/ 0 <= q < nBlock st /\ F !! q = Some k) as Hqc.
  { destruct Hq as [->|Hq%Hmem]; [left; lia|right]. by pose proof (Hr _ _ Hq) as [_ ?]. }
  assert (d < 0 \/ 0 <= d < nBlock st /\ F !! d = Some k) as Hdc.
  { destruct Hd as [->|Hd%Hmem]; [left; lia|right]. by pose proof (Hr _ _ Hd) as [_ ?]. }
  exists (unlinked k q d st). split; [|split; [apply unlinked_same|split]].
  - unfold memsys5Unlink. rewrite link_next_ok, link_prev_ok by done. cbn. fold q d.
    unfold unlinked. destruct (Z.ltb_spec q 0);
      rewrite ?head_set_ok, ?set_next_ok by (done || lia); cbn; (destruct (Z.leb_spec 0 d); [|done]);
      (apply set_prev_ok; [geo|cbn; lia]).
  - destruct (unlinked_same st k q d) as (_ & Hnb & _). split.
    { intros x kx Hx. rewrite Hnb. apply Hr. by apply lookup_delete_Some in Hx as [_ ?]. }
    intros k' Hk'. rewrite unlinked_head. destruct (decide (k' = k)) as [->|Hne].
    + exists (l1 ++ l2), e'. split_and!.
      * apply NoDup_app in Hnd as (Hn1 & Hn2 & [Hn3 Hn4]%NoDup_cons). apply NoDup_app.
        split_and!; [done| |done]. intros x Hx Hx2. apply (Hn2 x Hx). by right.
      * destruct (decide (q < 0)); [rewrite decide_True by done|rewrite decide_False by tauto]; done.
      * apply NoDup_app in Hnd as (Hn1 & Hn2 & [Hn3 Hn4]%NoDup_cons).
        intros x. rewrite lookup_delete, elem_of_app. destruct (decide (i = x)) as [Hx|Hx].
        -- subst x. split; [|done]. intros [?|?]; [|done]. exfalso. by eapply Hn2; [|left].
        -- rewrite <- Hin, elem_of_app, elem_of_cons. intuition congruence.
    + rewrite decide_False by tauto. destruct (Hl k' Hk') as (l & e2 & Hnd2 & Hds2 & Hin2).
      exists l, e2. split_and!; [done| |].
      * eapply dseg_ext; [|exact Hds2]. intros x Hx%Hin2.
        rewrite unlinked_nxt, unlinked_prv by done.
        split; (rewrite decide_False; [done|]); intros [? ->]; naive_solver lia.
      * intros x. rewrite Hin2, lookup_delete.
        destruct (decide (i = x)); [subst x; split; [congruence|done]|done].
  - apply unlinked_frame; try done; intros Hge; exists k; naive_solver lia.
Qed.

(** The state after [memsys5Link] with old head [x]. *)
Definition linked (k i x : Z) (st : mem5) : mem5 :=
  let st2 := put_prev i (-1) (put_next i x st) in
  put_head k i (if 0 <=? x then put_prev x i st2 else st2).

Section Linked.
Context (st : mem5) (G : geom st) (k i x : Z).
Context (Hi : in_s 32 i) (Hx : in_s 32 x).

Lemma linked_same : same_ctrl st (linked k i x st).
Proof using. unfold linked. destruct (0 <=? x); done. Qed.

Lemma linked_head y : head (linked k i x st) y = if decide (y = k) then i else head st y.
Proof using.
  unfold linked. rewrite head_put_head. destruct (0 <=? x); done.
Qed.

Lemma linked_nxt y : nxt (linked k i x st) y = if decide (y = i) then x else nxt st y.
Proof using G Hx.
  unfold linked, nxt at 1. cbn [put_head set_freelist zPool szAtom].
  change (nxt (if 0 <=? x then put_prev x i (put_prev i (-1) (put_next i x st))
               else put_prev i (-1) (put_next i x st)) y =
    if decide (y = i) then x else nxt st y).
  destruct (0 <=? x); rewrite ?nxt_put_prev by geo; by rewrite nxt_put_next.
Qed.

Lemma linked_prv y :
  prv (linked k i x st) y =
  if decide (0 <= x /\ y = x) then i else if decide (y = i) then -1 else prv st y.
Proof using G Hi.
  unfold linked, prv at 1. cbn [put_head set_freelist zPool szAtom].
  change (prv (if 0 <=? x then put_prev x i (put_prev i (-1) (put_next i x st))
               else put_prev i (-1) (put_next i x st)) y =
    if decide (0 <= x /\ y = x) then i else if decide (y = i) then -1 else prv st y).
  assert (in_s 32 (-1)) by clia.
  destruct (Z.leb_spec 0 x); rewrite ?prv_put_prev by geo; rewrite ?prv_put_next by geo;
    repeat case_decide; done || lia.
Qed.

Lemma linked_frame (T : Z -> Prop) : T i -> (0 <= x -> T x) -> pool_frame T st (linked k i x st).
Proof using G Hi Hx.
  intros Ti Tx a Ha. unfold linked. cbn [put_head set_freelist zPool].
  assert (atom_of st a <> i) by (intros <-; auto).
  assert (0 <= x -> atom_of st a <> x) by (intros ? <-; auto).
  destruct (Z.leb_spec 0 x); rewrite ?byte_put_prev by (geo || auto);
    by rewrite ?byte_put_next by (geo || auto).
Qed.
End Linked.

(** [memsys5Link] puts the block [i] on its list; it touches the links of that
    block and of free blocks only. *)
Lemma memsys5Link_spec st F i k :
  geom st -> flists st F -> F !! i = None -> 0 <= k <= LOGMAX -> 0 <= i < nBlock st ->
  exists st', memsys5Link i k st = Ok st' /\ same_ctrl st st' /\ flists st' (<[i := k]> F) /\
    pool_frame (fun q => q = i \/ is_Some (F !! q)) st st'.
Proof.
  intros G [Hr Hl] Hi Hk Hi0. destruct (Hl k Hk) as (l & e & Hnd & Hds & Hin).
  set (x := head st k) in *.
  assert (x = -1 /\ l = [] \/ 0 <= x < nBlock st /\ x ∈ l /\ F !! x = Some k) as Hxc.
  { destruct l as [|y l]; [left; by destruct Hds|]. right. destruct Hds as (Hy & _).
    assert (x ∈ y :: l) as Hxl by (rewrite Hy; by left). pose proof (proj1 (Hin x) Hxl) as HF.
    by pose proof (Hr _ _ HF) as [_ ?]. }
  assert (i ∉ l) as Hil by (rewrite Hin; congruence).
  assert (in_s 32 i) as Hi32 by (by eapply index_range).
  assert (in_s 32 x) as Hx32
    by (destruct Hxc as [[-> _]|[? _]]; [clia|by eapply index_range]).
  assert (x <> i) as Hxi by (intros ->; destruct Hxc as [[? _]|(_ & _ & ?)]; [lia|congruence]).
  assert (forall y k', F !! y = Some k' -> k' <> k -> y <> x) as Hxo
    by (intros y k' Hy Hk'' ->; destruct Hxc as [[? _]|(_ & _ & ?)];
        [apply Hr in Hy; lia|congruence]).
  exists (linked k i x st). split; [|split; [apply linked_same|split]].
  - unfold memsys5Link. rewrite head_get_ok by done. cbn. fold x.
    rewrite set_next_ok by done. cbn. rewrite set_prev_ok by (geo || done). cbn. unfold linked.
    destruct (Z.leb_spec 0 x); [|cbn; by rewrite head_set_ok].
    rewrite set_prev_ok by (geo || (cbn; lia)). cbn. by rewrite head_set_ok.
  - destruct (linked_same st k i x) as (_ & Hnb & _). split.
    { intros y ky [[<- <-]|[_ Hy]]%lookup_insert_Some; rewrite Hnb; [done|by apply Hr]. }
    intros k' Hk'. rewrite linked_head. destruct (decide (k' = k)) as [->|Hne].
    + exists (i :: l), (default i (last l)). split_and!.
      * by apply NoDup_cons.
      * cbn. split_and!; [done| |].
        -- rewrite linked_prv, decide_False, decide_True by (done || intros [_ ?]; congruence). done.
        -- rewrite linked_nxt, decide_True by done.
           eapply (dseg_new_prev (nxt st) (prv st)); [exact Hds|done| |].
           ++ intros y Hy. rewrite linked_nxt, linked_prv by done.
              assert (y <> i) by congruence.
              split; [by rewrite decide_False|intros]. by rewrite !decide_False by tauto.
           ++ intros Hne. destruct Hxc as [[_ ?]|[? _]]; [done|].
              rewrite linked_prv, decide_True by (done || lia). done.
      * intros y. rewrite elem_of_cons, Hin, lookup_insert.
        destruct (decide (i = y)) as [->|]; [by split; auto|]. split; [intros [?|?]; congruence|auto].
    + destruct (Hl k' Hk') as (l2 & e2 & Hnd2 & Hds2 & Hin2). exists l2, e2. split_and!; [done| |].
      * eapply dseg_ext; [|exact Hds2]. intros y Hy%Hin2. rewrite linked_nxt, linked_prv by done.
        assert (y <> i) by congruence. assert (y <> x) by eauto.
        by rewrite !decide_False by tauto.
      * intros y. rewrite Hin2, lookup_insert. destruct (decide (i = y)); [|done].
        subst y. split; congruence.
  - apply linked_frame; [done|done|done|by left|]. intros. right. exists k.
    destruct Hxc as [[? _]|(_ & _ & ?)]; [lia|done].
Qed.
