(* ===== verification/Mem5Spec.v ===== *)
(** * Correctness of the memsys5 allocator

    The invariant that ties the control bytes and the free lists to a buddy
    partition of the pool, and the specification of allocation, release and
    reallocation over it. *)

From S2P Require Import Prelude Buddy Mem5 Mem5Lists.

Definition ctrl (st : mem5) (i : Z) : Z := default 0 (aCtrl st !! i).

(** The blocks are [B], the free ones among them [F]; the block [h], if any, is
    in the hands of the running operation, neither free nor allocated. *)
Record hinv (st : mem5) (B F : gmap Z Z) (h : option Z) : Prop := {
  hi_geom : geom st;
  hi_part : part (nBlock st) B;
  hi_sub : forall i k, F !! i = Some k -> B !! i = Some k;
  hi_lists : flists st F;
  hi_ctrl : forall i k, B !! i = Some k -> h <> Some i ->
    ctrl st i = if F !! i then 32 + k else k;
  hi_hand : forall i, h = Some i -> F !! i = None;
  hi_coal : coalesced F;
}.

Definition inv (st : mem5) (B F : gmap Z Z) : Prop := hinv st B F None.

(** The blocks that are checked out. *)
Definition allocated (B F : gmap Z Z) (h : option Z) (j l : Z) : Prop :=
  B !! j = Some l /\ F !! j = None /\ h <> Some j.

(** ** Control bytes *)

Lemma small_cases (P : Z -> bool) k :
  forallb P (seqZ 0 31) = true -> 0 <= k <= 30 -> P k = true.
Proof.
  intros HP Hk. rewrite forallb_forall in HP.
  apply HP, list_elem_of_In, elem_of_seqZ. lia.
Qed.

Lemma lor_free k : 0 <= k <= 30 -> CTRL_FREE ||| k = 32 + k.
Proof. intros. apply Z.eqb_eq, (small_cases (fun k => (CTRL_FREE ||| k) =? 32 + k)); done. Qed.

Lemma land_logsize k : 0 <= k <= 30 -> k &&& CTRL_LOGSIZE = k.
Proof. intros. apply Z.eqb_eq, (small_cases (fun k => (k &&& CTRL_LOGSIZE) =? k)); done. Qed.

Lemma shl1_ok k : 0 <= k <= 30 -> shl1 k = Ok (2 ^ k).
Proof.
  intros Hk. unfold shl1. rewrite Z.shiftl_1_l.
  pose proof (Z.pow_le_mono_r 2 k 30 ltac:(lia) ltac:(lia)). pose proof (pow2_pos k ltac:(lia)).
  apply c_int_ok. change (2 ^ 30) with 1073741824 in *. clia.
Qed.

Lemma ctrl_get_ok st i : 0 <= i < nBlock st -> ctrl_get st i = Ok (ctrl st i).
Proof. intros. unfold ctrl_get. by rewrite decide_True. Qed.

Lemma ctrl_set_ok st i v :
  0 <= i < nBlock st -> ctrl_set i v st = Ok (set_aCtrl st (<[i := u8 v]> (aCtrl st))).
Proof. intros. unfold ctrl_set. by rewrite decide_True. Qed.

Lemma ctrl_insert st i v j :
  ctrl (set_aCtrl st (<[i := v]> (aCtrl st))) j = if decide (i = j) then v else ctrl st j.
Proof. unfold ctrl. cbn. rewrite lookup_insert. by case_decide. Qed.

(** The invariant does not look at the statistics, nor at control bytes that do
    not head a block. *)
Lemma hinv_ctrl st B F h i v :
  hinv st B F h -> (B !! i = None \/ h = Some i) ->
  hinv (set_aCtrl st (<[i := v]> (aCtrl st))) B F h.
Proof.
  intros [G P S [Lr Ll] C H K] Hi. split; [by destruct G; split|done|done| | |done|done].
  - by split.
  - intros j k Hj Hh. rewrite ctrl_insert. case_decide as Hij; [|by apply C].
    subst j. destruct Hi as [Hi|Hi]; congruence.
Qed.

Lemma hinv_stats st B F h s : hinv st B F h -> hinv (set_stats st s) B F h.
Proof.
  intros [G P S [Lr Ll] C H K]. split; [by destruct G; split|done|done| |done|done|done].
  by split.
Qed.

(** ** The pool as seen by the holder of a block *)

(** Free blocks are not inside allocated ones. *)
Lemma allocated_not_free st B F h j l q :
  hinv st B F h -> allocated B F h j l -> j <= q < j + 2 ^ l -> F !! q = None.
Proof.
  intros HI (Hj & HF & _) Hq. destruct (F !! q) as [m|] eqn:E; [|done].
  pose proof (hi_sub _ _ _ _ HI _ _ E) as Hm.
  destruct (pt_wf _ _ (hi_part _ _ _ _ HI) _ _ Hm) as (Hm0 & _).
  pose proof (pow2_pos m ltac:(lia)).
  pose proof (part_block_unique _ B j l q m q (hi_part _ _ _ _ HI) Hj Hm Hq ltac:(lia)).
  congruence.
Qed.

(** The bytes of the block [(j, l)]. *)
Definition in_block (st : mem5) (j l a : Z) : Prop :=
  j * szAtom st <= a < (j + 2 ^ l) * szAtom st.

Lemma in_block_atom st j l a : geom st -> in_block st j l a -> j <= atom_of st a < j + 2 ^ l.
Proof.
  intros G [H1 H2]. pose proof (geom_atom st G). unfold atom_of. split.
  - apply Z.div_le_lower_bound; lia.
  - apply Z.div_lt_upper_bound; lia.
Qed.

(** Every allocated block keeps its contents. *)
Definition contents_kept (B F : gmap Z Z) (h : option Z) (st st' : mem5) : Prop :=
  forall j l a, allocated B F h j l -> in_block st j l a ->
    read_byte (zPool st') a = read_byte (zPool st) a.

Lemma contents_kept_frame st st' B F h T :
  hinv st B F h -> pool_frame T st st' ->
  (forall j l q, allocated B F h j l -> j <= q < j + 2 ^ l -> T q -> False) ->
  contents_kept B F h st st'.
Proof.
  intros HI Hf HT j l a Hal Hin. apply Hf. intros HTa.
  eapply HT; [exact Hal| |exact HTa]. apply in_block_atom; [apply (hi_geom _ _ _ _ HI)|done].
Qed.

(** ** The loops of [memsys5MallocUnsafe] *)

(** Rounding up stops at the first power of two that is large enough. *)
Lemma round_loop_spec fuel : forall c lg nByte,
  0 <= c <= 30 -> 30 - c < Z.of_nat fuel -> nByte <= 2 ^ 30 ->
  exists d, 0 <= d /\ c + d <= 30 /\ round_loop fuel (2 ^ c) lg nByte = Ok (2 ^ (c + d), lg + d) /\
    nByte <= 2 ^ (c + d) /\ (d = 0 \/ 2 ^ (c + d - 1) < nByte).
Proof.
  induction fuel as [|fuel IH]; intros c lg nByte Hc Hf Hn; [lia|]. cbn [round_loop].
  destruct (Z.ltb_spec (2 ^ c) nByte) as [Hlt|Hge].
  - assert (c < 30). { destruct (decide (c = 30)) as [->|]; lia. }
    pose proof (Z.pow_le_mono_r 2 (c + 1) 30 ltac:(lia) ltac:(lia)).
    pose proof (pow2_pos (c + 1) ltac:(lia)).
    replace (2 ^ c * 2) with (2 ^ (c + 1)) by (rewrite pow2_succ by lia; lia).
    rewrite c_int_ok by (change (2 ^ 30) with 1073741824 in *; clia). cbn [mbind res_bind].
    destruct (IH (c + 1) (lg + 1) nByte) as (d & Hd & Hcd & -> & Hle & Hmin); [lia|lia|done|].
    exists (d + 1). split; [lia|]. split; [lia|]. split; [do 2 f_equal; [f_equal|]; lia|].
    split; [by replace (c + (d + 1)) with (c + 1 + d) by lia|]. right.
    destruct Hmin as [->|Hmin]; [by replace (c + (0 + 1) - 1) with c by lia|].
    by replace (c + (d + 1) - 1) with (c + 1 + d - 1) by lia.
  - exists 0. rewrite !Z.add_0_r. split_and!; try done; lia || auto.
Qed.

(** The head of an empty list is negative, that of another one a free block. *)
Lemma head_cases st F k :
  flists st F -> 0 <= k <= LOGMAX ->
  head st k < 0 /\ (forall i, F !! i <> Some k) \/ 0 <= head st k /\ F !! head st k = Some k.
Proof.
  intros [Hr Hl] Hk. destruct (Hl k Hk) as (l & e & _ & Hds & Hin).
  destruct l as [|i l]; cbn in Hds.
  - left. destruct Hds as [_ ->]. split; [lia|]. intros i Hi%Hin. by apply not_elem_of_nil in Hi.
  - right. destruct Hds as (-> & _). assert (F !! i = Some k) as Hi by (apply Hin; by left).
    split; [|done]. apply Hr in Hi. lia.
Qed.

(** The search stops at the smallest size with a free block, or past the end. *)
Lemma find_bin_spec fuel : forall st F b,
  flists st F -> 0 <= b <= LOGMAX + 1 -> LOGMAX + 1 - b < Z.of_nat fuel ->
  exists b', find_bin fuel st b = Ok b' /\ b <= b' <= LOGMAX + 1 /\
    (forall i k, F !! i = Some k -> b <= k -> b' <= k) /\
    (b' <= LOGMAX -> 0 <= head st b' /\ F !! head st b' = Some b').
Proof.
  induction fuel as [|fuel IH]; intros st F b HF Hb Hf; [lia|]. cbn [find_bin].
  destruct (Z.leb_spec b LOGMAX) as [Hle|Hgt].
  - rewrite head_get_ok by lia. cbn [mbind res_bind].
    destruct (head_cases st F b HF ltac:(lia)) as [[Hneg Hno]|[Hpos Hhd]].
    + rewrite (proj2 (Z.ltb_lt _ _) Hneg).
      destruct (IH st F (b + 1) HF) as (b' & -> & Hb' & Hmin & Hhd); [lia|lia|].
      exists b'. split_and!; [done|lia|lia| |done]. intros i k Hi Hk.
      destruct (decide (k = b)) as [->|]; [by apply Hno in Hi|]. apply (Hmin i); [done|lia].
    + rewrite (proj2 (Z.ltb_ge _ _)) by lia. exists b. split_and!; try done; lia.
  - exists b. split_and!; try done; lia.
Qed.

(** The facts about a state that an operation on the pool keeps. *)
Definition same_frame (st st' : mem5) : Prop :=
  szAtom st' = szAtom st /\ nBlock st' = nBlock st /\ stats st' = stats st.

Lemma same_ctrl_ctrl st st' i : same_ctrl st st' -> ctrl st' i = ctrl st i.
Proof. intros (_ & _ & H & _). unfold ctrl. by rewrite H. Qed.

(** One split: the upper half of the block in hand goes to its free list. *)
Lemma split_step st B F i b :
  hinv st B F (Some i) -> B !! i = Some (b + 1) -> 0 <= b ->
  let u := i + 2 ^ b in
  exists st', (st ← ctrl_set u (CTRL_FREE ||| b) st; memsys5Link u b st) = Ok st' /\
    hinv st' (<[u := b]> (<[i := b]> B)) (<[u := b]> F) (Some i) /\ same_frame st st' /\
    pool_frame (fun q => q = u \/ is_Some (F !! q)) st st'.
Proof.
  intros HI Hi Hb u. pose proof HI as [G P S L C H K].
  destruct (pt_wf _ _ P _ _ Hi) as (Hb1 & Hi0 & Hin & Hd). rewrite pow2_succ in Hin by done.
  pose proof (pow2_pos b Hb). unfold LOG_MAX in *.
  assert (B !! u = None) as Hu
    by (apply (part_inside _ B i (b + 1) u P Hi); rewrite pow2_succ by done; unfold u; lia).
  assert (F !! u = None) as HFu.
  { destruct (F !! u) as [m|] eqn:E; [|done]. apply S in E. congruence. }
  assert (F !! i = None) as HFi by (by apply H).
  assert (0 <= u < nBlock st) as Hur by (unfold u; lia).
  rewrite ctrl_set_ok by done. cbn [mbind res_bind]. rewrite lor_free, wrap_small by (lia || clia).
  set (st1 := set_aCtrl st _).
  destruct (memsys5Link_spec st1 F u b) as (st' & -> & Hsc & Hfl & Hpf); [|by destruct L|done|unfold LOGMAX; lia|done|].
  { by destruct G. }
  exists st'. split; [done|]. split; [|split; [|exact Hpf]].
  2: { destruct Hsc as (? & ? & _ & ?). done. }
  split.
  - eapply same_ctrl_geom; [exact Hsc|]. by destruct G.
  - destruct Hsc as (_ & -> & _). by apply part_split.
  - intros j k. rewrite !lookup_insert. repeat case_decide; subst; try done; [congruence|apply S].
  - done.
  - intros j k Hj Hne. rewrite (same_ctrl_ctrl _ _ _ Hsc). unfold st1. rewrite ctrl_insert.
    rewrite lookup_insert. rewrite !lookup_insert in Hj.
    repeat case_decide; simplify_eq; try done. by apply C.
  - intros j [= <-]. rewrite lookup_insert_ne by (unfold u; lia). done.
  - assert (buddy u b = i) as Hbu.
    { assert ((2 ^ b | i)) by (etransitivity; [apply (pow2_divide b (b + 1)); lia|done]).
      rewrite <- (buddy_buddy i b) by done. f_equal. unfold buddy, u.
      by rewrite (proj2 (testbit_aligned i b Hb ltac:(done)) Hd). }
    intros j k. rewrite !lookup_insert. destruct (decide (u = j)) as [<-|Hne].
    + intros [= <-] _. rewrite Hbu. rewrite decide_False by (unfold u; lia). by rewrite HFi.
    + intros Hj Hk. destruct (decide (u = buddy j k)) as [Hj2|]; [|by apply K].
      intros [= <-]. destruct (pt_wf _ _ P _ _ (S _ _ Hj)) as (? & _ & _ & Hdj).
      pose proof (buddy_buddy j b ltac:(lia) Hdj) as Hbb. rewrite <- Hj2, Hbu in Hbb. congruence.
Qed.

Lemma allocated_split B F i b j l :
  B !! i = Some (b + 1) -> B !! (i + 2 ^ b) = None ->
  allocated (<[i + 2 ^ b := b]> (<[i := b]> B)) (<[i + 2 ^ b := b]> F) (Some i) j l <->
  allocated B F (Some i) j l.
Proof.
  intros Hi Hu. unfold allocated. rewrite !lookup_insert.
  repeat case_decide; subst; naive_solver.
Qed.

Lemma split_loop_spec fuel : forall st B F i b L,
  hinv st B F (Some i) -> B !! i = Some b -> 0 <= L <= b -> b - L < Z.of_nat fuel ->
  exists st' B' F', split_loop fuel i b L st = Ok st' /\ hinv st' B' F' (Some i) /\
    B' !! i = Some L /\ same_frame st st' /\
    (forall j l, allocated B' F' (Some i) j l <-> allocated B F (Some i) j l) /\
    pool_frame (fun q => i <= q < i + 2 ^ b \/ is_Some (F !! q)) st st'.
Proof.
  induction fuel as [|fuel IH]; intros st B F i b L HI Hi HL Hf; [lia|]. cbn [split_loop].
  destruct (Z.ltb_spec L b) as [Hlt|Hge].
  - pose proof (hi_part _ _ _ _ HI) as P. destruct (pt_wf _ _ P _ _ Hi) as (Hb & _).
    unfold LOG_MAX in *. rewrite shl1_ok by lia. cbn [mbind res_bind].
    replace b with (b - 1 + 1) in Hi by lia. pose proof (pow2_pos (b - 1) ltac:(lia)).
    assert (2 ^ b = 2 * 2 ^ (b - 1)) as Hpow by (rewrite <- pow2_succ by lia; f_equal; lia).
    destruct (split_step st B F i (b - 1) HI Hi ltac:(lia)) as (st1 & Hst & HI1 & (Hs1 & Hs2 & Hs3) & Hf1).
    apply bind_Ok in Hst as (st0 & -> & Hst). cbn [mbind res_bind]. rewrite Hst. cbn [mbind res_bind].
    destruct (IH st1 _ _ i (b - 1) L HI1) as (st' & B' & F' & Hl & HI' & Hi' & (Ht1 & Ht2 & Ht3) & Hal & Hf2).
    { rewrite lookup_insert_ne, lookup_insert_eq by lia. done. }
    { lia. } { lia. }
    exists st', B', F'. rewrite Hl. do 3 (split; [done|]). split; [|split].
    + unfold same_frame. split_and!; congruence.
    + intros j l. rewrite Hal. apply allocated_split; [done|].
      apply (part_inside _ B i (b - 1 + 1) _ P Hi). replace (b - 1 + 1) with b by lia. lia.
    + eapply pool_frame_trans; [exact Hs1| |].
      * eapply pool_frame_weaken; [|exact Hf1]. intros q [->|?]; [left; lia|by right].
      * eapply pool_frame_weaken; [|exact Hf2]. intros q [?|Hq]; [left; lia|].
        rewrite lookup_insert in Hq. destruct (decide (i + 2 ^ (b - 1) = q)); [left; lia|by right].
  - assert (b = L) as -> by lia. exists st, B, F. split_and!; try done.
Qed.

(** Taking a block off its free list puts it in hand. *)
Lemma unlink_step st B F i k :
  inv st B F -> F !! i = Some k ->
  exists st', memsys5Unlink i k st = Ok st' /\ hinv st' B (delete i F) (Some i) /\
    same_frame st st' /\ pool_frame (fun q => is_Some (F !! q)) st st' /\
    forall j l, allocated B (delete i F) (Some i) j l <-> allocated B F None j l.
Proof.
  intros HI Hi. pose proof HI as [G P S L C H K].
  destruct (memsys5Unlink_spec st F i k G L Hi) as (st' & -> & Hsc & Hfl & Hpf).
  exists st'. split; [done|]. split; [|split; [|split; [done|]]].
  - split.
    + by eapply same_ctrl_geom.
    + destruct Hsc as (_ & -> & _). done.
    + intros j l [_ Hj]%lookup_delete_Some. by apply S.
    + done.
    + intros j l Hj Hne. rewrite (same_ctrl_ctrl _ _ _ Hsc), lookup_delete_ne by congruence. by apply C.
    + intros j [= <-]. apply lookup_delete_eq.
    + intros j l [_ Hj]%lookup_delete_Some Hl [_ Hb]%lookup_delete_Some. exact (K j l Hj Hl Hb).
  - destruct Hsc as (? & ? & _ & ?). done.
  - intros j l. unfold allocated. rewrite lookup_delete. case_decide; [subst j; naive_solver|naive_solver].
Qed.

(** Handing the block out: its control byte becomes its size. *)
Lemma hand_out st B F i k :
  hinv st B F (Some i) -> B !! i = Some k ->
  inv (set_aCtrl st (<[i := k]> (aCtrl st))) B F /\
  forall j l, allocated B F None j l <-> (j = i /\ l = k) \/ allocated B F (Some i) j l.
Proof.
  intros [G P S [Lr Ll] C H K] Hi. split.
  - split; [by destruct G|done|done|by split| |done|done].
    intros j l Hj _. rewrite ctrl_insert. case_decide as Hij.
    + subst j. rewrite (H i eq_refl). congruence.
    + apply C; [done|congruence].
  - intros j l. unfold allocated. pose proof (H i eq_refl).
    destruct (decide (j = i)) as [->|]; naive_solver.
Qed.

(** Taking the free block [i] of size [b] and cutting it down to size [L]. *)
Lemma take_block st B F i b L :
  inv st B F -> F !! i = Some b -> 0 <= L <= b ->
  exists st' B' F',
    (st ← memsys5Unlink i b st; st ← split_loop FUEL i b L st; ctrl_set i L st) = Ok st' /\
    inv st' B' F' /\ B' !! i = Some L /\ same_frame st st' /\
    (forall j l, allocated B' F' None j l <-> (j = i /\ l = L) \/ allocated B F None j l) /\
    contents_kept B F None st st'.
Proof.
  intros HI Hi HL. pose proof (hi_sub _ _ _ _ HI _ _ Hi) as HBi.
  destruct (fl_range _ _ (hi_lists _ _ _ _ HI) i b Hi) as [Hb Hir]. unfold LOGMAX in Hb.
  destruct (unlink_step st B F i b HI Hi) as (st1 & -> & HI1 & (Hs1 & Hs2 & Hs3) & Hf1 & Hal1).
  cbn [mbind res_bind].
  destruct (split_loop_spec FUEL st1 B (delete i F) i b L HI1 HBi) as
    (st2 & B' & F' & -> & HI2 & HBi' & (Ht1 & Ht2 & Ht3) & Hal2 & Hf2);
    [lia|unfold FUEL; lia|]. cbn [mbind res_bind].
  rewrite ctrl_set_ok, (wrap_small 8 L) by (clia || congruence).
  destruct (hand_out st2 B' F' i L HI2 HBi') as [HI3 Hal3].
  eexists _, B', F'. split; [done|]. split; [done|]. split; [done|].
  split; [unfold same_frame; cbn; split_and!; congruence|]. split.
  - intros j l. by rewrite Hal3, Hal2, Hal1.
  - eapply (contents_kept_frame st _ B F None (fun q => i <= q < i + 2 ^ b \/ is_Some (F !! q))); [done| |].
    + eapply (pool_frame_trans _ _ st1); [done| |].
      * eapply pool_frame_weaken; [|exact Hf1]. by right.
      * eapply pool_frame_weaken; [|exact Hf2]. intros q [?|Hq]; [by left|right].
        rewrite lookup_delete in Hq. case_decide; [by destruct Hq|done].
    + intros j l q Hj Hq [Hq2|[x Hx]].
      * pose proof (part_block_unique _ B i b j l q (hi_part _ _ _ _ HI) HBi (proj1 Hj) Hq2 Hq) as ->.
        destruct Hj as (_ & Hno & _). congruence.
      * rewrite (allocated_not_free st B F None j l q HI Hj Hq) in Hx. done.
Qed.

Lemma index_c_int st i : geom st -> 0 <= i < nBlock st -> c_int (i * szAtom st) = Ok (i * szAtom st).
Proof.
  intros G Hi. pose proof (MEM5LINK_ok st G i Hi) as Hl. unfold MEM5LINK in Hl.
  apply bind_Ok in Hl as (off & -> & Hl). case_decide; [|done]. congruence.
Qed.

(** [memsys5MallocUnsafe]: either a block that was free is handed out, at least
    as large as requested and otherwise as small as possible, or the request is
    too large for every free block. *)
Definition malloc_ok (nByte : Z) (B F : gmap Z Z) (st st' : mem5) (p : Z) : Prop :=
  exists i k B' F', p = i * szAtom st /\ inv st' B' F' /\
    nByte <= szAtom st * 2 ^ k /\ (k = 0 \/ szAtom st * 2 ^ k < 2 * nByte) /\
    0 <= i /\ i + 2 ^ k <= nBlock st /\
    (forall j l, allocated B' F' None j l <-> (j = i /\ l = k) \/ allocated B F None j l) /\
    (forall j l, allocated B F None j l -> i + 2 ^ k <= j \/ j + 2 ^ l <= i) /\
    contents_kept B F None st st'.

Lemma memsys5MallocUnsafe_spec st B F nByte :
  inv st B F -> 0 < nByte ->
  exists st' r, memsys5MallocUnsafe nByte st = Ok (st', r) /\
    szAtom st' = szAtom st /\ nBlock st' = nBlock st /\
    match r with
    | Some p => malloc_ok nByte B F st st' p
    | None => inv st' B F /\ zPool st' = zPool st /\
        (2 ^ 30 < nByte \/ forall i k, F !! i = Some k -> szAtom st * 2 ^ k < nByte)
    end.
Proof.
  intros HI Hn. unfold memsys5MallocUnsafe.
  set (st0 := set_stats st _). assert (inv st0 B F) as HI0 by (by apply hinv_stats).
  destruct (Z.ltb_spec 0x40000000 nByte) as [Hbig|Hsm].
  { exists st0, None. split_and!; try done. left. change (2 ^ 30) with 0x40000000. lia. }
  pose proof (hi_geom _ _ _ _ HI0) as G0. destruct (g_atom _ G0) as (m & Hm & Hsz).
  rewrite Hsz. destruct (round_loop_spec FUEL m 0 nByte) as (L & HL & HmL & -> & Hfit & Hmin);
    [lia|unfold FUEL; lia|done|]. cbn [mbind res_bind]. rewrite Z.add_0_l.
  assert (2 ^ (m + L) = szAtom st * 2 ^ L) as Hfull
    by (rewrite Z.pow_add_r by lia; change (szAtom st) with (szAtom st0); lia).
  destruct (find_bin_spec FUEL st0 F L (hi_lists _ _ _ _ HI0)) as (b & -> & Hb & Hlow & Hhd);
    [unfold LOGMAX; lia|unfold LOGMAX, FUEL; lia|]. cbn [mbind res_bind].
  destruct (Z.ltb_spec LOGMAX b) as [Hnone|Hle].
  { exists st0, None. split_and!; try done. right. intros i k Hi.
    destruct (fl_range _ _ (hi_lists _ _ _ _ HI) i k Hi) as [Hk _].
    destruct (decide (L <= k)) as [Hk2|Hk2]; [specialize (Hlow i k Hi Hk2); unfold LOGMAX in *; lia|].
    destruct Hmin as [->|Hmin]; [lia|]. replace (m + L - 1) with (m + (L - 1)) in Hmin by lia.
    rewrite Z.pow_add_r in Hmin by lia. pose proof (Z.pow_le_mono_r 2 k (L - 1) ltac:(lia) ltac:(lia)).
    change (szAtom st) with (szAtom st0). rewrite Hsz. nia. }
  rewrite head_get_ok by (unfold LOGMAX in *; lia). cbn [mbind res_bind].
  destruct (Hhd Hle) as [Hi0 Hi]. set (i := head st0 b) in *.
  destruct (take_block st0 B F i b L HI0 Hi) as (st3 & B' & F' & Htake & HI3 & HBi & (Hs1 & Hs2 & _) & Hal & Hck);
    [lia|].
  apply bind_Ok in Htake as (st1 & -> & Htake). cbn [mbind res_bind].
  apply bind_Ok in Htake as (st2 & -> & Htake). cbn [mbind res_bind]. rewrite Htake. cbn [mbind res_bind].
  destruct (pt_wf _ _ (hi_part _ _ _ _ HI3) _ _ HBi) as (_ & _ & Hin & _).
  pose proof (pow2_pos L HL). cbn [set_stats szAtom].
  rewrite index_c_int by (lia || apply (hi_geom _ _ _ _ HI3)). cbn [mbind res_bind].
  eexists _, (Some _). split; [done|]. split; [exact Hs1|]. split; [exact Hs2|].
  exists i, L, B', F'. rewrite Hs1. split; [done|]. split; [by apply hinv_stats|]. split; [lia|].
  split; [|split; [done|split; [|split; [done|split; [|done]]]]].
  - destruct Hmin as [->|Hmin]; [by left|]. right. rewrite <- Hfull.
    replace (m + L) with (m + L - 1 + 1) by lia. rewrite pow2_succ by lia. lia.
  - change (nBlock st) with (nBlock st0). by rewrite <- Hs2.
  - intros j l Hj. pose proof (proj2 (Hal j l) (or_intror Hj)) as (HBj & HFj & _).
    apply (pt_disj _ _ (hi_part _ _ _ _ HI3) i L j l HBi HBj). intros <-.
    destruct Hj as (_ & Hno & _). congruence.
Qed.

(** ** Merging in [memsys5FreeUnsafe] *)

(** One merge: the free buddy of the block in hand is taken off its list, and
    the two become one block in hand. *)
Lemma merge_step st B F i k :
  hinv st B F (Some i) -> B !! i = Some k -> k < LOGMAX -> F !! buddy i k = Some k ->
  let lo := Z.min i (buddy i k) in let hi := Z.max i (buddy i k) in
  let B' := <[lo := k + 1]> (delete hi B) in let F' := delete (buddy i k) F in
  exists st', (st ← memsys5Unlink (buddy i k) k st; st ← ctrl_set lo (CTRL_FREE ||| (k + 1)) st;
               ctrl_set hi 0 st) = Ok st' /\
    hinv st' B' F' (Some lo) /\ ctrl st' lo = 32 + (k + 1) /\ same_frame st st' /\
    pool_frame (fun q => is_Some (F !! q)) st st' /\
    forall j l, allocated B' F' (Some lo) j l <-> allocated B F (Some i) j l.
Proof.
  intros HI Hi Hk Hb lo hi B' F'. pose proof HI as [G P S L C H K].
  destruct (pt_wf _ _ P _ _ Hi) as (Hk0 & Hi0 & Hin & Hd). unfold LOGMAX, LOG_MAX in *.
  pose proof (S _ _ Hb) as HBb. destruct (pt_wf _ _ P _ _ HBb) as (_ & Hb0 & Hbn & _).
  destruct (buddy_parent i k ltac:(lia) Hd) as (Hp & Hm & _ & Hne).
  pose proof (pow2_pos k ltac:(lia)). set (b := buddy i k) in *.
  destruct (memsys5Unlink_spec st F b k G L Hb) as (st1 & -> & Hsc & Hfl & Hpf).
  assert (G1 := same_ctrl_geom _ _ Hsc G). destruct Hsc as (E1 & E2 & E3 & E4).
  cbn [mbind res_bind]. rewrite ctrl_set_ok by (rewrite E2; lia). cbn [mbind res_bind].
  rewrite ctrl_set_ok by (cbn; rewrite E2; lia). rewrite lor_free, (wrap_small 8) by (lia || clia).
  assert (B !! lo = Some k /\ B !! (lo + 2 ^ k) = Some k) as [HBlo HBhi].
  { unfold lo. rewrite <- Hm. destruct (Z.min_spec i b) as [[? ->]|[? ->]],
      (Z.max_spec i b) as [[? ->]|[? ->]]; done || lia. }
  assert (F !! i = None) as HFi by (by apply H).
  assert (forall j, j <> lo -> j <> hi -> B' !! j = B !! j) as HB'.
  { intros j H1 H2. unfold B'. by rewrite lookup_insert_ne, lookup_delete_ne by congruence. }
  eexists. split; [done|]. split; [|split; [|split; [|split]]].
  - split.
    + by destruct G1.
    + cbn. rewrite E2. unfold B', hi. rewrite Hm. apply part_merge; done.
    + intros j l [Hj1 Hj]%lookup_delete_Some. rewrite HB'; [by apply S| |];
        intros ->; unfold lo, hi in *; destruct (Z.min_spec i b) as [[? E]|[? E]],
        (Z.max_spec i b) as [[? E']|[? E']]; congruence || lia.
    + destruct Hfl. split; done.
    + intros j l Hj Hnl. rewrite !ctrl_insert. assert (j <> lo) as Hjl by congruence.
      assert (j <> hi) as Hjh.
      { intros ->. unfold B' in Hj. rewrite lookup_insert_ne, lookup_delete_eq in Hj by done. done. }
      rewrite !decide_False by done. rewrite HB' in Hj by done.
      assert (j <> i /\ j <> b) as [? ?] by (unfold lo, hi in *; lia).
      unfold F'. rewrite lookup_delete_ne by done.
      unfold ctrl. rewrite E3. apply C; [done|congruence].
    + intros j [= <-]. unfold F'. rewrite lookup_delete. case_decide; [done|].
      replace lo with i by (unfold lo in *; lia). done.
    + intros j l [_ Hj]%lookup_delete_Some Hl [_ Hb2]%lookup_delete_Some. exact (K j l Hj Hl Hb2).
  - rewrite !ctrl_insert. rewrite decide_False by (unfold lo, hi; lia). by rewrite decide_True.
  - done.
  - exact Hpf.
  - intros j l. unfold allocated, B', F'. rewrite lookup_insert, !lookup_delete.
    destruct (decide (j = i)) as [->|Hji]; [|destruct (decide (j = b)) as [->|Hjb]].
    + split; [|naive_solver]. unfold lo, hi. intros (Hx & _ & Hy). exfalso.
      repeat case_decide; try done; try congruence; lia.
    + split; [|naive_solver]. unfold lo, hi. intros (Hx & _ & Hy). exfalso.
      repeat case_decide; try done; try congruence; lia.
    + rewrite !decide_False by (unfold lo, hi; lia).
      split; intros (? & ? & _); (split; [done|split; [done|]]); intros [= ?]; unfold lo in *; lia.
Qed.

(** What [merge_loop] leaves: the block in hand has grown around the one it
    started from, and its buddy cannot be merged. *)
Definition merged (st : mem5) (B F : gmap Z Z) (i k : Z) (st' : mem5) (i' k' : Z) : Prop :=
  exists B' F', hinv st' B' F' (Some i') /\ B' !! i' = Some k' /\ ctrl st' i' = 32 + k' /\
    (k' < LOGMAX -> F' !! buddy i' k' <> Some k') /\ same_frame st st' /\
    pool_frame (fun q => is_Some (F !! q)) st st' /\
    forall j l, allocated B' F' (Some i') j l <-> allocated B F (Some i) j l.

Lemma block_small st B i k :
  geom st -> part (nBlock st) B -> B !! i = Some k ->
  0 <= k <= 30 /\ 0 <= i /\ 0 < 2 ^ k < 2 ^ 28 /\ i + 2 ^ k < 2 ^ 28.
Proof.
  intros G P Hi. destruct (pt_wf _ _ P _ _ Hi) as (Hk & Hi0 & Hin & _).
  pose proof (geom_atom _ G). pose proof (g_fits _ G). pose proof (pow2_pos k ltac:(lia)).
  assert (nBlock st * 8 <= nBlock st * szAtom st) by (apply Z.mul_le_mono_nonneg_l; lia).
  unfold LOG_MAX in *. change (2 ^ 31) with (8 * 2 ^ 28) in *. lia.
Qed.

(** The buddy computed with C integers. *)
Lemma buddy_c st B i k :
  geom st -> part (nBlock st) B -> B !! i = Some k ->
  (if Z.testbit (i ≫ k) 0 then s32 (u32 i - 2 ^ k) else s32 (u32 i + 2 ^ k)) = buddy i k.
Proof.
  intros G P Hi. destruct (block_small st B i k G P Hi) as (Hk & Hi0 & Hp & Hs).
  rewrite Z.shiftr_spec, Z.add_0_l by lia. rewrite wrap_small by clia.
  unfold buddy. destruct (Z.testbit i k); apply swrap_small; lia || clia.
Qed.

Lemma merge_loop_spec fuel : forall st B F i k,
  hinv st B F (Some i) -> B !! i = Some k -> ctrl st i = 32 + k -> 30 - k < Z.of_nat fuel ->
  exists st' i' k', merge_loop fuel i k (2 ^ k) st = Ok (st', i', k') /\ merged st B F i k st' i' k'.
Proof.
  induction fuel as [|fuel IH]; intros st B F i k HI Hi Hc Hf.
  { destruct (pt_wf _ _ (hi_part _ _ _ _ HI) _ _ Hi) as (? & _). unfold LOG_MAX in *. lia. }
  pose proof HI as [G P S L C H K]. cbn [merge_loop].
  assert ((k < LOGMAX -> F !! buddy i k <> Some k) -> merged st B F i k st i k) as Hstop.
  { intros Hb. exists B, F. split_and!; try done. }
  destruct (Z.ltb_spec k LOGMAX) as [Hlt|]; [|exists st, i, k; split; [done|apply Hstop; lia]].
  rewrite (buddy_c st B i k G P Hi).
  destruct (block_small st B i k G P Hi) as (Hk & Hi0 & Hp & Hs).
  destruct (pt_wf _ _ P _ _ Hi) as (_ & _ & Hin & Hd).
  rewrite shl1_ok by done. cbn [mbind res_bind].
  rewrite c_int_ok by (unfold buddy; destruct (Z.testbit i k); clia). cbn [mbind res_bind].
  destruct (Z.ltb_spec (nBlock st) (buddy i k + 2 ^ k)) as [Hout|Hbin].
  { exists st, i, k. split; [done|]. apply Hstop. intros _ HF. apply S in HF.
    destruct (pt_wf _ _ P _ _ HF) as (_ & _ & ? & _). lia. }
  destruct (part_buddy _ B i k P Hi Hbin) as (Hb0 & l & Hl & HBb).
  rewrite ctrl_get_ok by lia. cbn [mbind res_bind]. rewrite lor_free by lia.
  destruct (buddy_parent i k ltac:(lia) Hd) as (_ & Hm & _ & Hne).
  rewrite (C _ _ HBb) by congruence. destruct (pt_wf _ _ P _ _ HBb) as (Hl0 & _).
  destruct (F !! buddy i k) as [l'|] eqn:HF.
  2: { rewrite (proj2 (Z.eqb_neq l (32 + k))) by (unfold LOG_MAX in *; lia). cbn [negb].
       exists st, i, k. split; [done|by apply Hstop]. }
  assert (l' = l) as -> by (apply S in HF; congruence).
  destruct (Z.eqb_spec (32 + l) (32 + k)) as [Heq|Hneq]; cbn [negb].
  2: { exists st, i, k. split; [done|apply Hstop]. intros _. congruence. }
  assert (l = k) as -> by lia.
  destruct (merge_step st B F i k HI Hi Hlt HF) as (st1 & Hst & HI1 & Hc1 & (E1 & E2 & E3) & Hf1 & Hal1).
  apply bind_Ok in Hst as (sta & -> & Hst). apply bind_Ok in Hst as (stb & Hst1 & Hst2).
  cbn [mbind res_bind]. set (lo := Z.min i (buddy i k)) in *.
  rewrite (wrap_small 32 (2 ^ k * 2)) by clia.
  replace (2 ^ k * 2) with (2 ^ (k + 1)) by (rewrite pow2_succ by lia; lia).
  destruct (IH st1 _ _ lo (k + 1) HI1) as (st' & i' & k' & Hrun & Hmd);
    [apply lookup_insert_eq|done|lia|].
  exists st', i', k'. split.
  - rewrite <- Hrun. destruct (Z.ltb_spec (buddy i k) i).
    + replace lo with (buddy i k) in * by lia. replace (Z.max i (buddy i k)) with i in * by lia.
      rewrite Hst1. cbn [mbind res_bind]. by rewrite Hst2.
    + replace lo with i in * by lia. replace (Z.max i (buddy i k)) with (buddy i k) in * by lia.
      rewrite Hst1. cbn [mbind res_bind]. by rewrite Hst2.
  - destruct Hmd as (B' & F' & H1 & H2 & H3 & H4 & (D1 & D2 & D3) & H6 & H7).
    exists B', F'. do 4 (split; [done|]). split; [|split].
    + unfold same_frame. split_and!; congruence.
    + eapply pool_frame_trans; [exact E1|exact Hf1|]. eapply pool_frame_weaken; [|exact H6].
      intros q. cbv beta. rewrite lookup_delete. case_decide; [by intros [? ?]|done].
    + intros j l. by rewrite H7, Hal1.
Qed.

(** Releasing the block in hand onto its free list. *)
Lemma link_step st B F i k :
  hinv st B F (Some i) -> B !! i = Some k -> ctrl st i = 32 + k ->
  (k < LOGMAX -> F !! buddy i k <> Some k) ->
  exists st', memsys5Link i k st = Ok st' /\ inv st' B (<[i := k]> F) /\ same_frame st st' /\
    pool_frame (fun q => q = i \/ is_Some (F !! q)) st st' /\
    forall j l, allocated B (<[i := k]> F) None j l <-> allocated B F (Some i) j l.
Proof.
  intros [G P S L C H K] Hi Hc Hb. destruct (pt_wf _ _ P _ _ Hi) as (Hk & Hi0 & Hin & Hd).
  pose proof (pow2_pos k ltac:(lia)). pose proof (H i eq_refl) as HFi. unfold LOG_MAX in Hk.
  destruct (memsys5Link_spec st F i k G L HFi) as (st' & -> & Hsc & Hfl & Hpf); [unfold LOGMAX; lia|lia|].
  exists st'. split; [done|]. split; [|split; [|split; [done|]]].
  - split; [by eapply same_ctrl_geom| | |done| |done|].
    + destruct Hsc as (_ & -> & _). done.
    + intros j l [[<- <-]|[_ Hj]]%lookup_insert_Some; [done|by apply S].
    + intros j l Hj _. rewrite (same_ctrl_ctrl _ _ _ Hsc), lookup_insert. case_decide.
      * subst j. congruence.
      * apply C; [done|congruence].
    + intros j l. rewrite !lookup_insert. case_decide as Hj; [subst j; intros [= <-] Hl|].
      * case_decide as Hb2; [destruct (buddy_parent i k) as (_ & _ & _ & ?); done || lia|by apply Hb].
      * intros HFj Hl. case_decide as Hb2; [|by apply K]. intros [= <-].
        destruct (pt_wf _ _ P _ _ (S _ _ HFj)) as (_ & _ & _ & Hdj). apply Hb; [done|].
        rewrite Hb2. by rewrite buddy_buddy by (done || lia).
  - destruct Hsc as (? & ? & _ & ?). done.
  - intros j l. unfold allocated. rewrite lookup_insert.
    destruct (decide (i = j)) as [<-|]; naive_solver.
Qed.

(** Taking an allocated block in hand: its first control byte and, when the
    block is longer, its last one are marked free. *)
Lemma take_back st B F i k :
  inv st B F -> allocated B F None i k ->
  hinv st B F (Some i) /\ forall j l, allocated B F (Some i) j l <-> j <> i /\ allocated B F None j l.
Proof.
  intros [G P S L C H K] (Hi & HFi & _). split.
  - split; try done; [intros j l Hj _; by apply C|by intros j [= <-]].
  - intros j l. unfold allocated. naive_solver.
Qed.

Lemma mark_free_spec st B F i k :
  inv st B F -> allocated B F None i k ->
  exists st', mark_free i st = Ok (st', k, 2 ^ k) /\ hinv st' B F (Some i) /\
    ctrl st' i = 32 + k /\ szAtom st' = szAtom st /\ nBlock st' = nBlock st /\ zPool st' = zPool st.
Proof.
  intros HI Hal. pose proof HI as [G P S L C H K]. pose proof Hal as (Hi & HFi & _).
  destruct (block_small st B i k G P Hi) as (Hk & Hi0 & Hp & Hs).
  destruct (pt_wf _ _ P _ _ Hi) as (_ & _ & Hin & _).
  destruct (take_back st B F i k HI Hal) as [HI1 _].
  unfold mark_free. rewrite ctrl_get_ok by lia. cbn [mbind res_bind]. rewrite (C i k Hi), HFi by done.
  rewrite land_logsize, shl1_ok by done. cbn [mbind res_bind].
  rewrite (wrap_small 32 (2 ^ k)) by clia.
  rewrite (wrap_small 32 i), (wrap_small 32 (i + 2 ^ k - 1)) by clia.
  rewrite ctrl_set_ok by lia. cbn [mbind res_bind]. rewrite ctrl_get_ok by (cbn; lia).
  cbn [mbind res_bind]. rewrite ctrl_set_ok by (cbn; lia). cbn [mbind res_bind].
  rewrite ctrl_set_ok by (cbn; lia). cbn [mbind res_bind].
  rewrite lor_free, (wrap_small 8 (32 + k)) by clia.
  eexists. split; [done|]. split; [|split; [by rewrite ctrl_insert, decide_True|done]].
  apply hinv_ctrl; [|by right]. apply hinv_stats. apply hinv_ctrl; [apply hinv_ctrl; [done|by right]|].
  destruct (decide (2 ^ k = 1)); [right; f_equal; lia|left].
  apply (part_inside _ B i k _ P Hi). lia.
Qed.

Definition free_ok (B F : gmap Z Z) (i : Z) (st st' : mem5) : Prop :=
  exists B' F', inv st' B' F' /\ szAtom st' = szAtom st /\ nBlock st' = nBlock st /\
    (forall j l, allocated B' F' None j l <-> j <> i /\ allocated B F None j l) /\
    contents_kept B F (Some i) st st'.

Lemma free_run fuel st B F i k :
  inv st B F -> allocated B F None i k -> 30 < Z.of_nat fuel ->
  exists st', ('(st, iLogsize, size) ← mark_free i st;
               '(st, iBlock, iLogsize) ← merge_loop fuel i iLogsize size st;
               memsys5Link iBlock iLogsize st) = Ok st' /\ free_ok B F i st st'.
Proof.
  intros HI Hal Hfuel. pose proof (hi_geom _ _ _ _ HI) as G.
  destruct (take_back st B F i k HI Hal) as [HI1 Hal1].
  destruct (mark_free_spec st B F i k HI Hal) as (s4 & -> & HI4 & Hc4 & A1 & A2 & A3).
  cbn [mbind res_bind]. pose proof (proj1 Hal) as Hi.
  destruct (block_small s4 B i k (hi_geom _ _ _ _ HI4) (hi_part _ _ _ _ HI4) Hi) as (Hk & _).
  destruct (merge_loop_spec fuel s4 B F i k HI4 Hi Hc4) as (st5 & i' & k' & Hrun & Hmd); [lia|].
  rewrite Hrun. cbn [mbind res_bind].
  destruct Hmd as (B' & F' & HI6 & Hi' & Hc' & Hb' & (E1 & E2 & _) & Hf & Hal2).
  destruct (link_step st5 B' F' i' k' HI6 Hi' Hc' Hb') as (st' & -> & HI' & (D1 & D2 & _) & Hf' & Hal3).
  exists st'. split; [done|]. exists B', (<[i' := k']> F').
  split; [done|]. split; [congruence|]. split; [congruence|]. split.
  - intros j l. by rewrite Hal3, Hal2, Hal1.
  - intros j l a Hj Hin_j. pose proof (in_block_atom st j l a G Hin_j) as Hat.
    assert (allocated B' F' (Some i') j l) as Hj' by (by apply Hal2).
    assert (atom_of s4 a = atom_of st a) as At4 by (unfold atom_of; by rewrite A1).
    assert (atom_of st5 a = atom_of st a) as At5 by (unfold atom_of; by rewrite E1, A1).
    rewrite (Hf' a), (Hf a), A3; [done|rewrite At4|rewrite At5].
    + rewrite (allocated_not_free st B F (Some i) j l _ HI1 Hj Hat). by intros [? ?].
    + intros [Hq|Hq].
      * destruct Hj' as (HBj & _ & Hne). rewrite Hq in Hat.
        destruct (pt_wf _ _ (hi_part _ _ _ _ HI6) _ _ Hi') as (Hk' & _).
        pose proof (pow2_pos k' ltac:(lia)).
        pose proof (part_block_unique _ B' j l i' k' i' (hi_part _ _ _ _ HI6) HBj Hi' Hat ltac:(lia)).
        congruence.
      * rewrite (allocated_not_free st5 B' F' (Some i') j l _ HI6 Hj' Hat) in Hq. by destruct Hq.
Qed.

(** [memsys5FreeUnsafe] of an allocated block gives back exactly that block. *)
Lemma memsys5FreeUnsafe_spec st B F i k :
  inv st B F -> allocated B F None i k ->
  exists st', memsys5FreeUnsafe (i * szAtom st) st = Ok st' /\ free_ok B F i st st'.
Proof.
  intros HI Hal. pose proof (geom_atom _ (hi_geom _ _ _ _ HI)) as Hsz.
  unfold memsys5FreeUnsafe. rewrite Z.quot_mul by lia.
  apply (free_run FUEL st B F i k HI Hal). unfold FUEL. lia.
Qed.
