(* ===== verification/Mem5Heap.v ===== *)
(** * The allocator as an abstract heap

    What the rest of the kernel may rely on: a map from the outstanding pointers
    to their sizes in bytes.  [memsys5Malloc], [memsys5Free] and
    [memsys5Realloc] implement insertion and deletion on that map, and never
    touch the contents of blocks other than the one they are called on. *)

From S2P Require Import Prelude Buddy Mem5 Mem5Lists Mem5Spec.

(** The outstanding allocations of a state. *)
Definition outstanding (st : mem5) (B F A : gmap Z Z) : Prop :=
  forall p n, A !! p = Some n <->
    exists j l, allocated B F None j l /\ p = j * szAtom st /\ n = szAtom st * 2 ^ l.

Definition heap (st : mem5) (A : gmap Z Z) : Prop :=
  exists B F, inv st B F /\ outstanding st B F A.

(** The bytes of every allocation in [A] are the same in both states. *)
Definition kept (A : gmap Z Z) (st st' : mem5) : Prop :=
  forall q m a, A !! q = Some m -> q <= a < q + m ->
    read_byte (zPool st') a = read_byte (zPool st) a.

Section Heap.
Context (st : mem5) (B F A : gmap Z Z) (HI : inv st B F) (HA : outstanding st B F A).

Lemma outstanding_atom p j : p = j * szAtom st -> A !! p = None <-> forall l, ~ allocated B F None j l.
Proof using HI HA.
  pose proof (geom_atom _ (hi_geom _ _ _ _ HI)) as Hsz. intros ->. split.
  - intros Hn l Hl. assert (A !! (j * szAtom st) = Some (szAtom st * 2 ^ l)) as HA'.
    { apply HA. by exists j, l. }
    congruence.
  - intros Hno. destruct (A !! (j * szAtom st)) as [n|] eqn:E; [|done].
    apply HA in E as (j' & l & Hal & Hj & _).
    assert (j = j') as -> by (apply (Z.mul_reg_r _ _ (szAtom st)); lia). by apply Hno in Hal.
Qed.

Lemma outstanding_lookup p n :
  A !! p = Some n ->
  exists j l, allocated B F None j l /\ p = j * szAtom st /\ n = szAtom st * 2 ^ l /\
    0 <= p /\ p + n <= nBlock st * szAtom st /\ 0 < n.
Proof using HI HA.
  intros (j & l & Hal & -> & ->)%HA. exists j, l. split_and!; try done.
  all: destruct (pt_wf _ _ (hi_part _ _ _ _ HI) _ _ (proj1 Hal)) as (Hl & Hj & Hin & _);
    pose proof (pow2_pos l ltac:(lia)); pose proof (geom_atom _ (hi_geom _ _ _ _ HI)); nia.
Qed.

Lemma kept_contents h st' A' :
  contents_kept B F h st st' ->
  (forall q m j l, A' !! q = Some m -> q = j * szAtom st -> allocated B F None j l ->
     A !! q = Some m /\ h <> Some j) ->
  (forall q m, A' !! q = Some m -> A !! q = Some m) ->
  kept A' st st'.
Proof using HI HA.
  intros Hck HA' Hsub q m a Hq Ha.
  destruct (outstanding_lookup q m (Hsub q m Hq)) as (j & l & Hal & Hqj & Hml & _).
  destruct (HA' q m j l Hq Hqj Hal) as [_ Hh]. subst q m. apply (Hck j l).
  - destruct Hal as (? & ? & _). done.
  - unfold in_block. rewrite Z.mul_add_distr_r. lia.
Qed.

(** Two allocations do not overlap. *)
Lemma outstanding_disjoint p n q m :
  A !! p = Some n -> A !! q = Some m -> p <> q -> p + n <= q \/ q + m <= p.
Proof using HI HA.
  intros (j & l & Hal & Hp & Hn & _)%outstanding_lookup (j' & l' & Hal' & Hq & Hm & _)%outstanding_lookup Hne.
  assert (j <> j') as Hj by congruence. pose proof (geom_atom _ (hi_geom _ _ _ _ HI)).
  destruct (pt_disj _ _ (hi_part _ _ _ _ HI) _ _ _ _ (proj1 Hal) (proj1 Hal') Hj); [left|right]; nia.
Qed.
End Heap.

(** ** Allocation *)

Lemma malloc_heap st A nByte :
  heap st A -> 0 < nByte ->
  exists st' r, memsys5MallocUnsafe nByte st = Ok (st', r) /\
    szAtom st' = szAtom st /\ nBlock st' = nBlock st /\ kept A st st' /\
    match r with
    | None => heap st' A
    | Some p => exists n, nByte <= n /\ heap st' (<[p := n]> A) /\ A !! p = None /\
        (n = szAtom st \/ n < 2 * nByte)
    end.
Proof.
  intros (B & F & HI & HA) Hn.
  destruct (memsys5MallocUnsafe_spec st B F nByte HI Hn) as (st' & r & -> & Hsz & Hnb & Hr).
  exists st', r. do 3 (split; [done|]). destruct r as [p|].
  - destruct Hr as (i & k & B' & F' & -> & HI' & Hfit & Htight & Hi0 & Hin & Hal & Hdis & Hck).
    split.
    { eapply kept_contents; [exact HI|exact HA|exact Hck| |done]. intros. split; [done|done]. }
    exists (szAtom st * 2 ^ k). split; [done|].
    assert (A !! (i * szAtom st) = None) as Hnew.
    { apply (outstanding_atom st B F A HI HA _ i eq_refl). intros l Hl.
      pose proof (Hdis _ _ Hl) as Hd. destruct (pt_wf _ _ (hi_part _ _ _ _ HI) _ _ (proj1 Hl)) as (Hl0 & _).
      destruct (proj2 (Hal i k) (or_introl (conj eq_refl eq_refl))) as (HBi & _).
      destruct (pt_wf _ _ (hi_part _ _ _ _ HI') _ _ HBi) as (Hk0 & _).
      pose proof (pow2_pos l ltac:(lia)). pose proof (pow2_pos k ltac:(lia)). lia. }
    split; [|split; [done|]].
    + exists B', F'. split; [done|]. intros p n. rewrite Hsz. rewrite lookup_insert_Some. split.
      * intros [[<- <-]|[_ (j & l & Hj & -> & ->)%HA]].
        -- exists i, k. split; [apply Hal; by left|done].
        -- exists j, l. split; [apply Hal; by right|done].
      * intros (j & l & [[-> ->]|Hj]%Hal & -> & ->); [by left|right].
        assert (A !! (j * szAtom st) = Some (szAtom st * 2 ^ l)) by (apply HA; by exists j, l).
        split; [congruence|done].
    + destruct Htight as [->|?]; [left; lia|by right].
  - destruct Hr as (HI' & Hpool & _). split.
    + intros q m a _ _. by rewrite Hpool.
    + exists B, F. split; [done|]. intros p n. rewrite Hsz. apply HA.
Qed.

(** ** Release *)

Lemma free_heap st A p n :
  heap st A -> A !! p = Some n ->
  exists st', memsys5FreeUnsafe p st = Ok st' /\ szAtom st' = szAtom st /\ nBlock st' = nBlock st /\
    heap st' (delete p A) /\ kept (delete p A) st st'.
Proof.
  intros (B & F & HI & HA) Hp.
  destruct (outstanding_lookup st B F A HI HA p n Hp) as (i & k & Hal & -> & -> & _).
  destruct (memsys5FreeUnsafe_spec st B F i k HI Hal) as (st' & -> & B' & F' & HI' & Hsz & Hnb & Hal' & Hck).
  pose proof (geom_atom _ (hi_geom _ _ _ _ HI)) as Hs8.
  assert (forall j, j * szAtom st <> i * szAtom st <-> j <> i) as Hji.
  { intros j. split; [congruence|]. intros Hne Heq. apply Hne.
    apply (Z.mul_reg_r _ _ (szAtom st)); lia. }
  exists st'. do 3 (split; [done|]). split.
  - exists B', F'. split; [done|]. intros q m. rewrite Hsz, lookup_delete_Some. split.
    + intros [Hne (j & l & Hj & -> & ->)%HA]. exists j, l. split; [|done].
      apply Hal'. split; [|done]. apply Hji. congruence.
    + intros (j & l & [Hne Hj]%Hal' & -> & ->). split; [apply not_eq_sym; by apply Hji|].
      apply HA. by exists j, l.
  - eapply kept_contents; [exact HI|exact HA|exact Hck| |].
    + intros q m j l [Hne Hq]%lookup_delete_Some -> Hj. split; [done|].
      intros [= <-]. done.
    + by intros q m [_ ?]%lookup_delete_Some.
Qed.

(** ** Use of an allocation by its owner *)

Lemma hinv_pool st B F h pool :
  hinv st B F h ->
  (forall i k a, F !! i = Some k -> i * szAtom st <= a < i * szAtom st + 8 ->
     read_byte pool a = read_byte (zPool st) a) ->
  hinv (set_pool st pool) B F h.
Proof.
  intros [G P S [Lr Ll] C H K] Hp. split; [by destruct G|done|done| |done|done|done].
  split; [done|]. intros k Hk. destruct (Ll k Hk) as (l & e & Hnd & Hds & Hin).
  exists l, e. split_and!; [done| |done]. eapply dseg_ext; [|exact Hds].
  intros i Hi%Hin. unfold nxt, prv, load_int. cbn [set_pool zPool szAtom].
  split; do 2 f_equal; apply read_bytes_ext; intros a Ha; eapply Hp; done || lia.
Qed.

(** Writing inside an allocation does not disturb the allocator. *)
Lemma heap_write st A p n off bs :
  heap st A -> A !! p = Some n -> p <= off -> off + Z.of_nat (length bs) <= p + n ->
  heap (set_pool st (write_bytes (zPool st) off bs)) A.
Proof.
  intros (B & F & HI & HA) Hp Hlo Hhi.
  destruct (outstanding_lookup st B F A HI HA p n Hp) as (j & l & Hal & -> & -> & _).
  exists B, F. split; [|done]. apply hinv_pool; [done|]. intros i k a Hi Ha.
  rewrite read_byte_write, decide_False; [done|]. intros Ha2.
  pose proof (geom_atom _ (hi_geom _ _ _ _ HI)) as Hs8.
  assert (atom_of st a = i) as Hai
    by (unfold atom_of; symmetry; apply (Z.div_unique _ _ i (a - i * szAtom st)); lia).
  pose proof (in_block_atom st j l a (hi_geom _ _ _ _ HI)) as Hin.
  rewrite Hai in Hin. rewrite (allocated_not_free st B F None j l i HI Hal) in Hi; [done|].
  apply Hin. unfold in_block. rewrite Z.mul_add_distr_r. lia.
Qed.

(** ** Size and reallocation *)

Lemma size_heap st A p n : heap st A -> A !! p = Some n -> memsys5Size st p = Ok n.
Proof.
  intros (B & F & HI & HA) Hp.
  destruct (outstanding_lookup st B F A HI HA p n Hp) as (j & l & Hal & -> & -> & Hp0 & Hpn & _).
  pose proof HI as [G P S L C H K]. destruct Hal as (Hj & HFj & _).
  destruct (block_small st B j l G P Hj) as (Hl & Hj0 & Hpow & _).
  destruct (pt_wf _ _ P _ _ Hj) as (_ & _ & Hjn & _). pose proof (geom_atom _ G).
  unfold memsys5Size. rewrite Z.quot_mul, ctrl_get_ok by lia. cbn [mbind res_bind].
  rewrite (C j l Hj), HFj, land_logsize, shl1_ok by done. cbn [mbind res_bind].
  apply c_int_ok. pose proof (g_fits _ G). clia.
Qed.

Lemma realloc_heap st A p n nByte :
  heap st A -> A !! p = Some n -> 0 < nByte ->
  exists st' r, memsys5Realloc p nByte st = Ok (st', r) /\
    szAtom st' = szAtom st /\ nBlock st' = nBlock st /\
    match r with
    | None => heap st' A /\ kept A st st'
    | Some p' => exists n', nByte <= n' /\ heap st' (<[p' := n']> (delete p A)) /\
        delete p A !! p' = None /\ kept (delete p A) st st' /\
        forall a, 0 <= a < Z.min n nByte ->
          read_byte (zPool st') (p' + a) = read_byte (zPool st) (p + a)
    end.
Proof.
  intros Hh Hp Hn. unfold memsys5Realloc. rewrite (proj2 (Z.eqb_neq nByte 0)) by lia.
  rewrite (size_heap st A p n Hh Hp). cbn [mbind res_bind].
  destruct (Z.leb_spec nByte n) as [Hle|Hgt].
  { exists st, (Some p). do 3 (split; [done|]). exists n. split; [done|].
    rewrite insert_delete_id, lookup_delete_eq by done. split; [done|]. split; [done|].
    split; [by intros q m a|done]. }
  destruct (malloc_heap st A nByte Hh Hn) as (st1 & [p'|] & -> & Hs1 & Hb1 & Hk1 & Hr); cbn [mbind res_bind].
  2: { by exists st1, None. }
  destruct Hr as (n' & Hfit & Hh1 & Hnew & _).
  assert (exists B F, inv st B F /\ outstanding st B F A) as (B & F & HI & HA) by exact Hh.
  destruct (outstanding_lookup st B F A HI HA p n Hp) as (_ & _ & _ & _ & _ & _ & _ & Hn0).
  assert (p <> p') as Hne by congruence.
  assert (<[p' := n']> A !! p = Some n) as Hp1 by (by rewrite lookup_insert_ne).
  assert (<[p' := n']> A !! p' = Some n') as Hp1' by apply lookup_insert_eq.
  assert (p + n <= p' \/ p' + n' <= p) as Hdis.
  { destruct Hh1 as (B1 & F1 & HI1 & HA1). exact (outstanding_disjoint _ _ _ _ HI1 HA1 _ _ _ _ Hp1 Hp1' Hne). }
  set (data := read_bytes (zPool st1) p (Z.to_nat n)).
  assert (length data = Z.to_nat n) as Hlen by apply length_read_bytes.
  assert (heap (pool_copy p' p n st1) (<[p' := n']> A)) as Hh2
    by (eapply heap_write; [exact Hh1|exact Hp1'|lia|fold data; lia]).
  destruct (free_heap _ _ p n Hh2 Hp1) as (st' & -> & Hs2 & Hb2 & Hh' & Hk2). cbn [mbind res_bind].
  rewrite delete_insert_ne in Hh', Hk2 by done.
  exists st', (Some p'). split; [done|]. split; [by rewrite Hs2|]. split; [by rewrite Hb2|].
  exists n'. split; [done|]. split; [done|]. split; [rewrite lookup_delete_ne by done; done|]. split.
  - intros q m a Hq Ha. pose proof Hq as [Hqp Hq']%lookup_delete_Some.
    assert (q <> p') by congruence.
    rewrite (Hk2 q m a) by (rewrite ?lookup_insert_ne by done; done).
    cbn [pool_copy set_pool zPool]. rewrite read_byte_write, decide_False; [by eapply Hk1|].
    destruct Hh1 as (B1 & F1 & HI1 & HA1).
    pose proof (outstanding_disjoint _ _ _ _ HI1 HA1 p' n' q m Hp1') as Hd.
    rewrite lookup_insert_ne in Hd by done. specialize (Hd Hq' ltac:(done)). fold data. lia.
  - intros a Ha. rewrite (Hk2 p' n' (p' + a)) by (rewrite ?lookup_insert_eq; done || lia).
    cbn [pool_copy set_pool zPool]. fold data. rewrite read_byte_write, decide_True by lia.
    replace (p' + a - p') with a by lia. unfold data. rewrite lookup_read_bytes by lia. cbn.
    rewrite Z2Nat.id by lia. apply (Hk1 p n); [done|lia].
Qed.

(** ** No fragmentation *)

Lemma malloc_coalesced st nByte L :
  heap st ∅ -> 0 < nByte <= 2 ^ 30 -> 0 <= L <= 30 ->
  nByte <= szAtom st * 2 ^ L -> 2 ^ L <= nBlock st ->
  exists st' p, memsys5MallocUnsafe nByte st = Ok (st', Some p).
Proof.
  intros (B & F & HI & HA) Hn HL Hfit Hin.
  destruct (memsys5MallocUnsafe_spec st B F nByte HI ltac:(lia)) as (st' & [p|] & -> & _ & _ & Hr);
    [by eauto|]. exfalso. destruct Hr as (_ & _ & [Hbig|Hno]); [lia|].
  pose proof HI as [G P S Lf C H K].
  (* everything is free *)
  assert (forall i k, B !! i = Some k -> F !! i = Some k) as Hall.
  { intros i k Hi. destruct (F !! i) as [k'|] eqn:E; [apply S in E; congruence|]. exfalso.
    assert ((∅ : gmap Z Z) !! (i * szAtom st) = Some (szAtom st * 2 ^ k)) as Hbad.
    { apply HA. exists i, k. done. }
    by rewrite lookup_empty in Hbad. }
  destruct (coalesced_region (nBlock st) B (Z.to_nat L) 0 P) as (i & l & Hi & Hi0 & Hil).
  - intros i k Hi Hk Hb. apply (K i k); auto.
  - unfold LOG_MAX. lia.
  - lia.
  - rewrite Z2Nat.id by lia. lia.
  - apply Z.divide_0_r.
  - rewrite Z2Nat.id in Hil by lia. destruct (pt_wf _ _ P _ _ Hi) as (_ & ? & _).
    pose proof (Hno i l (Hall i l Hi)) as Hlt. pose proof (geom_atom _ G).
    assert (szAtom st * 2 ^ L <= szAtom st * 2 ^ l) by (apply Z.mul_le_mono_nonneg_l; lia). lia.
Qed.
