(* ===== verification/Mem5Init.v ===== *)
(** * Initialisation of the memsys5 allocator

    [memsys5Init] cuts the pool into the blocks of the binary representation of
    the number of atoms; the result is an empty heap.  The size of the heap is
    passed as an [int]. *)

From S2P Require Import Prelude Buddy Mem5 Mem5Lists Mem5Spec Mem5Heap.

Lemma part_empty : part 0 ∅.
Proof. split; intros; rewrite ?lookup_empty in *; done || lia. Qed.

Lemma part_snoc n B k :
  part n B -> 0 <= n -> 0 <= k <= LOG_MAX -> (2 ^ k | n) -> part (n + 2 ^ k) (<[n := k]> B).
Proof.
  intros P Hn Hk Hd. pose proof (pow2_pos k ltac:(lia)). split.
  - intros i l [[<- <-]|[_ Hi]]%lookup_insert_Some; [split_and!; done || lia|].
    destruct (pt_wf _ _ P _ _ Hi) as (? & ? & ? & ?). split_and!; done || lia.
  - intros i l j m [[<- <-]|[_ Hi]]%lookup_insert_Some [[<- <-]|[_ Hj]]%lookup_insert_Some Hne; [done| | |].
    + destruct (pt_wf _ _ P _ _ Hj) as (? & ? & ? & ?). lia.
    + destruct (pt_wf _ _ P _ _ Hi) as (? & ? & ? & ?). lia.
    + by apply (pt_disj _ _ P).
  - intros a Ha. destruct (decide (a < n)) as [Hlt|Hge].
    + destruct (pt_cover _ _ P a ltac:(lia)) as (i & l & Hi & Hia). exists i, l.
      destruct (pt_wf _ _ P _ _ Hi) as (Hl & _ & Hin & _). pose proof (pow2_pos l ltac:(lia)).
      rewrite lookup_insert_ne by lia. done.
    + exists n, k. rewrite lookup_insert_eq. split; [done|lia].
Qed.

(** The state of the loop: the atoms below [off] are cut into free blocks of at
    least [2^n] atoms. *)
Record init_inv (st : mem5) (B : gmap Z Z) (off : Z) (n : nat) : Prop := {
  ii_geom : geom st;
  ii_part : part off B;
  ii_off : 0 <= off <= nBlock st;
  ii_rest : nBlock st - off < 2 ^ Z.of_nat n;
  ii_align : (2 ^ Z.of_nat n | off);
  ii_large : forall i k, B !! i = Some k -> Z.of_nat n <= k;
  ii_lists : flists st B;
  ii_ctrl : forall i k, B !! i = Some k -> ctrl st i = 32 + k;
  ii_coal : coalesced B;
}.

Lemma init_step st B off n :
  init_inv st B off (S n) -> (n <= 30)%nat -> off + 2 ^ Z.of_nat n <= nBlock st ->
  exists st', (st ← ctrl_set off (Z.of_nat n ||| CTRL_FREE) st; memsys5Link off (Z.of_nat n) st) = Ok st' /\
    init_inv st' (<[off := Z.of_nat n]> B) (off + 2 ^ Z.of_nat n) n /\ same_frame st st'.
Proof.
  intros [G P [Ho Ho'] Hr Ha Hl [Lr Ll] C K] Hn Hfit. set (k := Z.of_nat n) in *.
  replace (Z.of_nat (S n)) with (k + 1) in * by lia. rewrite pow2_succ in Hr by lia.
  pose proof (pow2_pos k ltac:(lia)).
  assert (B !! off = None) as Hnew.
  { destruct (B !! off) as [l|] eqn:E; [|done]. destruct (pt_wf _ _ P _ _ E) as (? & _ & ? & _).
    pose proof (pow2_pos l ltac:(lia)). lia. }
  rewrite ctrl_set_ok by lia. cbn [mbind res_bind].
  rewrite Z.lor_comm, lor_free, (wrap_small 8) by (lia || clia). set (st1 := set_aCtrl st _).
  destruct (memsys5Link_spec st1 B off k) as (st' & -> & Hsc & Hfl & _); [by destruct G|by split|done|unfold LOGMAX; lia|cbn; lia|].
  exists st'. split; [done|]. assert (same_frame st st') as Hsf by (destruct Hsc as (? & ? & _ & ?); done).
  split; [|done]. destruct Hsf as (E1 & E2 & _). split.
  - eapply same_ctrl_geom; [exact Hsc|]. by destruct G.
  - apply part_snoc; [done|done|unfold LOG_MAX; lia|].
    etransitivity; [apply (pow2_divide k (k + 1)); lia|done].
  - rewrite E2. lia.
  - rewrite E2. fold k. lia.
  - apply Z.divide_add_r; [|reflexivity]. etransitivity; [apply (pow2_divide k (k + 1)); lia|done].
  - intros i l [[<- <-]|[_ Hi]]%lookup_insert_Some; [lia|]. specialize (Hl i l Hi). lia.
  - done.
  - intros i l Hi. rewrite (same_ctrl_ctrl _ _ _ Hsc). unfold st1. rewrite ctrl_insert.
    apply lookup_insert_Some in Hi as [[<- <-]|[Hne Hi]]; [by rewrite decide_True|].
    rewrite decide_False by done. by apply C.
  - intros i l. rewrite !lookup_insert. case_decide as Hi.
    + subst i. intros [= <-] _. unfold buddy.
      assert (Z.testbit off k = false) as ->.
      { apply testbit_aligned; [lia| |done]. etransitivity; [apply (pow2_divide k (k + 1)); lia|done]. }
      rewrite decide_False by lia. intros Hb. destruct (pt_wf _ _ P _ _ Hb) as (? & _ & ? & _). lia.
    + intros Hi2 Hlm. case_decide; [|by apply K]. specialize (Hl i l Hi2). intros [= <-]. lia.
Qed.

Lemma init_loop_spec n : forall off st B,
  (n <= 31)%nat -> init_inv st B off n ->
  exists st' B', init_loop n off st = Ok st' /\ init_inv st' B' (nBlock st') 0 /\ same_frame st st'.
Proof.
  induction n as [|n IH]; intros off st B Hn HI.
  { exists st, B. split; [done|]. pose proof (ii_rest _ _ _ _ HI). pose proof (ii_off _ _ _ _ HI).
    cbn in *. replace (nBlock st) with off by lia. done. }
  cbn [init_loop]. rewrite shl1_ok by lia. cbn [mbind res_bind].
  pose proof (ii_geom _ _ _ _ HI) as G. pose proof (ii_off _ _ _ _ HI) as Ho.
  pose proof (geom_atom _ G). pose proof (g_fits _ G).
  assert (nBlock st * 8 <= nBlock st * szAtom st) by (apply Z.mul_le_mono_nonneg_l; lia).
  pose proof (Z.pow_le_mono_r 2 (Z.of_nat n) 30 ltac:(lia) ltac:(lia)).
  pose proof (pow2_pos (Z.of_nat n) ltac:(lia)).
  rewrite c_int_ok by (change (2 ^ 30) with 1073741824 in *; clia). cbn [mbind res_bind].
  destruct (Z.leb_spec (off + 2 ^ Z.of_nat n) (nBlock st)) as [Hfit|Hno].
  - destruct (init_step st B off n HI) as (st1 & Hst & HI1 & (E1 & E2 & E3)); [lia|done|].
    apply bind_Ok in Hst as (sta & -> & Hst). cbn [mbind res_bind]. rewrite Hst. cbn [mbind res_bind].
    destruct (IH _ st1 _ ltac:(lia) HI1) as (st' & B' & -> & HI' & (D1 & D2 & D3)).
    exists st', B'. split; [done|]. split; [done|]. unfold same_frame. split_and!; congruence.
  - apply (IH off st B ltac:(lia)). destruct HI as [_ P _ Hr Ha Hl Lf C K].
    replace (Z.of_nat (S n)) with (Z.of_nat n + 1) in * by lia. split; try done.
    + lia.
    + etransitivity; [apply (pow2_divide (Z.of_nat n) (Z.of_nat n + 1)); lia|done].
    + intros i k Hi. specialize (Hl i k Hi). lia.
Qed.

(** ** The sizes *)

Lemma log_loop_spec fuel : forall lg v,
  0 <= lg <= 12 -> v <= 4096 -> 12 - lg < Z.of_nat fuel ->
  exists r, log_loop fuel lg v = Ok r /\ lg <= r <= 12 /\ v <= 2 ^ r /\ (r = lg \/ 2 ^ (r - 1) < v).
Proof.
  induction fuel as [|fuel IH]; intros lg v Hlg Hv Hf; [lia|]. cbn [log_loop].
  rewrite (proj2 (Z.ltb_lt lg 31)) by lia. rewrite shl1_ok by lia. cbn [mbind res_bind].
  destruct (Z.ltb_spec (2 ^ lg) v) as [Hlt|Hge].
  - assert (lg <> 12) by (intros ->; lia).
    destruct (IH (lg + 1) v) as (r & -> & Hr & Hvr & Hmin); [lia|lia|lia|].
    exists r. split_and!; [done|lia|lia|done|]. right. destruct Hmin as [->|?]; [|done].
    by replace (lg + 1 - 1) with lg by lia.
  - exists lg. split_and!; try done; lia || auto.
Qed.

Lemma atom_loop_spec r :
  0 <= r <= 12 -> exists m, atom_loop FUEL (2 ^ r) = Ok (2 ^ m) /\ 3 <= m <= 12 /\ r <= m /\ (m = r \/ m = 3).
Proof.
  intros Hr. assert (r = 0 \/ r = 1 \/ r = 2 \/ 3 <= r) as [->|[->|[->|Hr3]]] by lia;
    [exists 3; split_and!; auto; lia..|].
  exists r. pose proof (Z.pow_le_mono_r 2 3 r ltac:(lia) Hr3).
  cbn [atom_loop FUEL]. unfold sizeof_Mem5Link. rewrite (proj2 (Z.ltb_ge _ _)) by (cbn in *; lia).
  split_and!; auto; lia.
Qed.

Lemma freelist_empty_lookup k : 0 <= k <= LOGMAX -> default 0 (freelist_empty !! k) = -1.
Proof.
  intros Hk. apply Z.eqb_eq, (small_cases (fun k => default 0 (freelist_empty !! k) =? -1)); [|done].
  vm_compute. reflexivity.
Qed.

(** [memsys5Init] on a heap of [nHeap] bytes gives an allocator with nothing
    outstanding, whose pool and control bytes fit in the heap. *)
Lemma memsys5Init_spec nHeap mnReq pool ctl :
  0 <= nHeap < 2 ^ 31 -> 1 <= mnReq <= 4096 ->
  exists st, memsys5Init nHeap mnReq pool ctl = Ok st /\ heap st ∅ /\
    mnReq <= szAtom st /\ nBlock st = nHeap / (szAtom st + 1) /\
    nBlock st * szAtom st + nBlock st <= nHeap.
Proof.
  intros Hh Hm. unfold memsys5Init, memsys5Log.
  destruct (log_loop_spec FUEL 0 mnReq) as (r & -> & Hr & Hv & _); [lia|lia|unfold FUEL; lia|].
  cbn [mbind res_bind]. rewrite shl1_ok by lia. cbn [mbind res_bind].
  destruct (atom_loop_spec r Hr) as (m & -> & Hm3 & Hrm & _). cbn [mbind res_bind].
  pose proof (Z.pow_le_mono_r 2 3 m ltac:(lia) ltac:(lia)) as H8. change (2 ^ 3) with 8 in H8.
  pose proof (Z.pow_le_mono_r 2 r m ltac:(lia) Hrm).
  rewrite (wrap_small 64 nHeap) by clia. set (nb := nHeap / (2 ^ m + 1)).
  assert (0 <= nb /\ nb * (2 ^ m + 1) <= nHeap) as [Hnb0 Hnb].
  { unfold nb. split; [apply Z.div_pos; lia|]. rewrite Z.mul_comm. apply Z.mul_div_le. lia. }
  assert (nb * 9 <= nb * (2 ^ m + 1)) by (apply Z.mul_le_mono_nonneg_l; lia).
  rewrite (swrap_small 32 nb) by (lia || clia).
  set (st0 := Mem5 _ _ _ _ _ _).
  destruct (init_loop_spec (Z.to_nat (LOGMAX + 1)) 0 st0 ∅) as (st & B & -> & HI & (E1 & E2 & _)).
  { unfold LOGMAX. lia. }
  { split; cbn.
    - split; cbn; [by exists m|lia|lia].
    - apply part_empty.
    - lia.
    - change (Z.of_nat (Pos.to_nat 31)) with 31. clia.
    - apply Z.divide_0_r.
    - by intros i k ?%lookup_empty_Some.
    - split; [by intros i k ?%lookup_empty_Some|]. intros k Hk. exists [], (-1).
      split; [constructor|]. split; [|intros i; rewrite lookup_empty; split; [by intros ?%not_elem_of_nil|done]].
      cbn. split; [done|]. by apply freelist_empty_lookup.
    - by intros i k ?%lookup_empty_Some.
    - by intros i k ?%lookup_empty_Some. }
  exists st. split; [done|]. cbn [st0 szAtom nBlock] in E1, E2. rewrite E1, E2. split_and!; [|lia|done|lia].
  exists B, B. destruct HI as [G P _ _ _ _ Lf C K]. split.
  - split; try done. intros i k Hi _. by rewrite (C i k Hi), Hi.
  - intros p n. rewrite lookup_empty. split; [done|]. intros (j & l & (H1 & H2 & _) & _). congruence.
Qed.
