(* ===== verification/Malloc.v ===== *)
(** * The kernel's allocator ([l_alloc]) over SQLite's malloc layer
      ([src/dep/sqlite3/sqlite3.c], malloc.c and status.c)

    Lua allocates through [l_alloc], which calls [sqlite3_realloc] and
    [sqlite3_free]; these keep the memory statistics and call the memsys5
    methods.  Memory statistics are on ([bMemstat]) and the kernel installs no
    memory alarm, so [alarmCallback] is null and the alarm does nothing.  The
    library is initialised: [sqlite3_initialize] only returns. *)

From S2P Require Import Prelude Buddy Mem5 Mem5Lists Mem5Spec Mem5Heap Mem5Init.

Definition SQLITE_STATUS_MEMORY_USED : Z := 0.
Definition SQLITE_STATUS_MALLOC_SIZE : Z := 5.
Definition SQLITE_STATUS_MALLOC_COUNT : Z := 9.

(** [sqlite3Stat] and the memsys5 state. *)
Record sqmem := Sqmem {
  m5 : mem5;
  nowValue : gmap Z Z;
  mxValue : gmap Z Z;
}.

Definition sqlite3StatusValue (st : sqmem) (op : Z) : Z := default 0 (nowValue st !! op).

Definition status_store (op v : Z) (st : sqmem) : sqmem :=
  Sqmem (m5 st) (<[op := v]> (nowValue st))
    (if default 0 (mxValue st !! op) <? v then <[op := v]> (mxValue st) else mxValue st).

Definition sqlite3StatusAdd (op N : Z) (st : sqmem) : res sqmem :=
  v ← c_int (sqlite3StatusValue st op + N); Ok (status_store op v st).

Definition sqlite3StatusSet (op X : Z) (st : sqmem) : sqmem := status_store op X st.

Definition set_m5 (st : sqmem) (m : mem5) : sqmem := Sqmem m (nowValue st) (mxValue st).

(** [sqlite3GlobalConfig.m] holds the memsys5 methods. *)
Definition sqlite3MallocSize (st : sqmem) (p : Z) : res Z := memsys5Size (m5 st) p.

Definition mallocWithAlarm (n : Z) (st : sqmem) : res (sqmem * option Z) :=
  nFull ← memsys5Roundup (m5 st) n;
  let st := sqlite3StatusSet SQLITE_STATUS_MALLOC_SIZE n st in
  '(m, p) ← memsys5Malloc nFull (m5 st);
  let st := set_m5 st m in
  match p with
  | None => Ok (st, None)
  | Some p =>
      nFull ← sqlite3MallocSize st p;
      st ← sqlite3StatusAdd SQLITE_STATUS_MEMORY_USED nFull st;
      st ← sqlite3StatusAdd SQLITE_STATUS_MALLOC_COUNT 1 st;
      Ok (st, Some p)
  end.

Definition sqlite3Malloc (n : Z) (st : sqmem) : res (sqmem * option Z) :=
  if (n =? 0) || (0x7fffff00 <=? n) then Ok (st, None)
  else mallocWithAlarm (s32 n) st.

Definition sqlite3_free (p : option Z) (st : sqmem) : res sqmem :=
  match p with
  | None => Ok st
  | Some p =>
      n ← sqlite3MallocSize st p;
      st ← sqlite3StatusAdd SQLITE_STATUS_MEMORY_USED (- n) st;
      st ← sqlite3StatusAdd SQLITE_STATUS_MALLOC_COUNT (-1) st;
      m ← memsys5Free p (m5 st);
      Ok (set_m5 st m)
  end.

Definition sqlite3Realloc (pOld : option Z) (nBytes : Z) (st : sqmem) : res (sqmem * option Z) :=
  match pOld with
  | None => sqlite3Malloc nBytes st
  | Some p =>
      if nBytes =? 0 then st ← sqlite3_free (Some p) st; Ok (st, None)
      else if 0x7fffff00 <=? nBytes then Ok (st, None)
      else
        nOld ← sqlite3MallocSize st p;
        nNew ← memsys5Roundup (m5 st) (s32 nBytes);
        if nOld =? nNew then Ok (st, Some p)
        else
          let st := sqlite3StatusSet SQLITE_STATUS_MALLOC_SIZE (s32 nBytes) st in
          '(m, pNew) ← memsys5Realloc p nNew (m5 st);
          let st := set_m5 st m in
          match pNew with
          | None => Ok (st, None)
          | Some q =>
              nNew ← sqlite3MallocSize st q;
              st ← sqlite3StatusAdd SQLITE_STATUS_MEMORY_USED (nNew - nOld) st;
              Ok (st, Some q)
          end
  end.

(** The argument of [sqlite3_realloc] is an [int]. *)
Definition sqlite3_realloc (pOld : option Z) (n : Z) (st : sqmem) : res (sqmem * option Z) :=
  sqlite3Realloc pOld (if n <? 0 then 0 else n) st.

(** [l_alloc(ud, ptr, osize, nsize)] of [luakernel.c]; [nsize] is a [size_t]. *)
Definition l_alloc (ptr : option Z) (nsize : Z) (st : sqmem) : res (sqmem * option Z) :=
  if nsize =? 0 then st ← sqlite3_free ptr st; Ok (st, None)
  else sqlite3_realloc ptr (s32 nsize) st.

(** ** Totals *)

(** The number of bytes checked out. *)
Definition total (A : gmap Z Z) : Z := map_fold (fun _ n s => n + s) 0 A.

Lemma total_insert A p n : A !! p = None -> total (<[p := n]> A) = n + total A.
Proof. intros. unfold total. rewrite map_fold_insert_L; [done| |done]. intros. lia. Qed.

Lemma total_delete A p n : A !! p = Some n -> total A = n + total (delete p A).
Proof. intros. unfold total. rewrite (map_fold_delete_L _ _ p n); [done| |done]. intros. lia. Qed.

(** The bytes covered by the allocations, one by one. *)
Definition points (l : list (Z * Z)) : list Z := l ≫= fun pn => seqZ pn.1 pn.2.

Lemma elem_of_points l a : a ∈ points l <-> exists p n, (p, n) ∈ l /\ p <= a < p + n.
Proof.
  unfold points. rewrite list_elem_of_bind. split.
  - intros ([p n] & Ha%elem_of_seqZ & Hl). by exists p, n.
  - intros (p & n & Hl & Ha). exists (p, n). split; [|done]. apply elem_of_seqZ. done.
Qed.

Lemma length_points l : Forall (fun pn => 0 <= pn.2) l ->
  Z.of_nat (length (points l)) = foldr (fun pn s => pn.2 + s) 0 l.
Proof.
  induction 1 as [|[p n] l Hn _ IH]; [done|]. cbn in *. rewrite length_app, length_seqZ.
  fold (points l). lia.
Qed.

Lemma NoDup_points l :
  (forall p n q m i j, l !! i = Some (p, n) -> l !! j = Some (q, m) -> i <> j -> p + n <= q \/ q + m <= p) ->
  NoDup (points l).
Proof.
  induction l as [|[p n] l IH]; intros Hd; cbn; [constructor|]. fold (points l).
  apply NoDup_app. split_and!; [apply NoDup_seqZ| |].
  - intros a Ha%elem_of_seqZ (q & m & Hqm & Ha2)%elem_of_points.
    apply list_elem_of_lookup in Hqm as [j Hj].
    destruct (Hd p n q m O (S j) eq_refl Hj ltac:(lia)); lia.
  - apply IH. intros p' n' q m i j Hi Hj Hij. apply (Hd p' n' q m (S i) (S j) Hi Hj). lia.
Qed.

Lemma total_list A : total A = foldr (fun pn s => pn.2 + s) 0 (map_to_list A).
Proof.
  unfold total. rewrite map_fold_foldr.
  induction (map_to_list A) as [|[p n] l IH]; cbn; [done|]. by rewrite IH.
Qed.

(** Disjoint allocations inside the pool do not add up to more than it. *)
Lemma total_bound A N :
  (forall p n, A !! p = Some n -> 0 <= p /\ p + n <= N /\ 0 < n) ->
  (forall p n q m, A !! p = Some n -> A !! q = Some m -> p <> q -> p + n <= q \/ q + m <= p) ->
  0 <= N -> total A <= N /\ Z.of_nat (size A) <= total A.
Proof.
  intros Hin Hdis HN. rewrite total_list. set (l := map_to_list A).
  assert (forall i p n, l !! i = Some (p, n) -> A !! p = Some n) as Hl.
  { intros i p n Hi. apply elem_of_map_to_list. by eapply list_elem_of_lookup_2. }
  rewrite <- length_points.
  2: { apply Forall_forall. intros [p n] Hpn%elem_of_map_to_list. apply Hin in Hpn. cbn. lia. }
  split.
  - assert (points l ⊆+ seqZ 0 N) as Hsub%submseteq_length.
    { apply NoDup_submseteq.
      - apply NoDup_points. intros p n q m i j Hi Hj Hij. apply Hdis; [by eapply Hl|by eapply Hl|].
        intros ->. pose proof (NoDup_fst_map_to_list A) as Hnd. fold l in Hnd.
        apply Hij. eapply NoDup_lookup; [exact Hnd| |]; rewrite list_lookup_fmap.
        + by rewrite Hi.
        + by rewrite Hj.
      - intros a (p & n & Hpn%elem_of_map_to_list & Ha)%elem_of_points. apply elem_of_seqZ.
        apply Hin in Hpn. lia. }
    rewrite length_seqZ in Hsub. lia.
  - rewrite length_points.
    2: { apply Forall_forall. intros [p n] Hpn%elem_of_map_to_list. apply Hin in Hpn. cbn. lia. }
    rewrite <- length_map_to_list. fold l.
    assert (Forall (fun pn => 1 <= pn.2) l) as Hpos.
    { apply Forall_forall. intros [p n] Hpn%elem_of_map_to_list. apply Hin in Hpn. cbn. lia. }
    clear -Hpos. induction Hpos as [|[p n] l Hn _ IH]; cbn in *; lia.
Qed.

(** ** Invariant: the statistics describe the heap *)

Record sq_ok (st : sqmem) (A : gmap Z Z) : Prop := {
  sq_heap : heap (m5 st) A;
  sq_used : sqlite3StatusValue st SQLITE_STATUS_MEMORY_USED = total A;
  sq_count : sqlite3StatusValue st SQLITE_STATUS_MALLOC_COUNT = Z.of_nat (size A);
}.

Lemma heap_total m A : heap m A -> 0 <= Z.of_nat (size A) <= total A /\ total A < 2 ^ 31.
Proof.
  intros (B & F & HI & HA). pose proof (hi_geom _ _ _ _ HI) as G.
  pose proof (g_fits _ G). pose proof (g_block _ G). pose proof (geom_atom _ G).
  destruct (total_bound A (nBlock m * szAtom m)) as [Hb1 Hb2]; [| |lia|lia].
  - intros p n Hp. destruct (outstanding_lookup m B F A HI HA p n Hp) as (_ & _ & _ & _ & _ & ? & ? & ?). done.
  - intros p n q k. by apply (outstanding_disjoint m B F A HI HA).
Qed.

Lemma status_add_ok st op N :
  in_s 32 (sqlite3StatusValue st op + N) ->
  sqlite3StatusAdd op N st = Ok (status_store op (sqlite3StatusValue st op + N) st).
Proof. intros H. unfold sqlite3StatusAdd. by rewrite c_int_ok. Qed.

Lemma status_store_value st op v op' :
  sqlite3StatusValue (status_store op v st) op' =
  if decide (op = op') then v else sqlite3StatusValue st op'.
Proof. unfold sqlite3StatusValue, status_store. cbn. rewrite lookup_insert. by case_decide. Qed.

(** Changing the size counters with the allocation map. *)
Lemma sq_update st m' A A' dn dc :
  sq_ok st A -> heap m' A' -> total A' = total A + dn -> Z.of_nat (size A') = Z.of_nat (size A) + dc ->
  exists st1 st', sqlite3StatusAdd SQLITE_STATUS_MEMORY_USED dn (set_m5 st m') = Ok st1 /\
    sqlite3StatusAdd SQLITE_STATUS_MALLOC_COUNT dc st1 = Ok st' /\ m5 st' = m' /\ m5 st1 = m' /\
    sq_ok st' A' /\ (dc = 0 -> sq_ok st1 A').
Proof.
  intros [Hh Hu Hc] Hh' Ht Hs. pose proof (heap_total _ _ Hh'). pose proof (heap_total _ _ Hh).
  assert (sqlite3StatusValue (set_m5 st m') SQLITE_STATUS_MEMORY_USED = total A) as Hu' by done.
  assert (sqlite3StatusValue (set_m5 st m') SQLITE_STATUS_MALLOC_COUNT = Z.of_nat (size A)) as Hc' by done.
  eexists _, _. split; [apply status_add_ok; rewrite Hu'; clia|].
  split; [apply status_add_ok; rewrite status_store_value, decide_False, Hc' by done; clia|].
  split; [done|]. split; [done|]. split; [|intros ->]; (split; [done| |]);
    rewrite !status_store_value; repeat first [rewrite decide_True by done | rewrite decide_False by done];
    rewrite ?Hu', ?Hc'; lia.
Qed.

Lemma sq_status_set st A X : sq_ok st A -> sq_ok (sqlite3StatusSet SQLITE_STATUS_MALLOC_SIZE X st) A.
Proof.
  intros [H1 H2 H3]. unfold sqlite3StatusSet.
  split; [exact H1|by rewrite status_store_value, decide_False|by rewrite status_store_value, decide_False].
Qed.

Lemma roundup_spec m A n :
  heap m A -> 0 < n ->
  exists f, memsys5Roundup m n = Ok f /\
    (2 ^ 30 < n /\ f = 0 \/
     n <= f /\ 0 < f /\ forall l, 0 <= l -> n <= szAtom m * 2 ^ l -> f <= szAtom m * 2 ^ l).
Proof.
  intros (B & F & HI & _) Hn. unfold memsys5Roundup.
  destruct (Z.ltb_spec 0x40000000 n) as [Hb|Hs].
  { exists 0. split; [done|]. left. split; [|done]. change (2 ^ 30) with 0x40000000. lia. }
  destruct (g_atom _ (hi_geom _ _ _ _ HI)) as (c & Hc & Hsz). rewrite Hsz.
  destruct (round_loop_spec FUEL c 0 n) as (d & Hd & Hcd & -> & Hfit & Hmin);
    [lia|unfold FUEL; lia|done|]. cbn [mbind res_bind].
  exists (2 ^ (c + d)). split; [done|]. right. split; [done|]. split; [lia|].
  intros l Hl Hle. rewrite <- Z.pow_add_r in * by lia.
  destruct (decide (c + d <= c + l)) as [H|H]; [apply Z.pow_le_mono_r; lia|].
  destruct Hmin as [->|Hmin]; [lia|].
  pose proof (Z.pow_le_mono_r 2 (c + l) (c + d - 1) ltac:(lia) ltac:(lia)). lia.
Qed.

(** ** The malloc layer *)

(** The size and the number of the atoms never change. *)
Definition same_pool (st st' : sqmem) : Prop :=
  szAtom (m5 st') = szAtom (m5 st) /\ nBlock (m5 st') = nBlock (m5 st).

Lemma mallocWithAlarm_spec st A n :
  sq_ok st A -> 0 < n ->
  exists st' r, mallocWithAlarm n st = Ok (st', r) /\ same_pool st st' /\ kept A (m5 st) (m5 st') /\
    match r with
    | None => sq_ok st' A
    | Some p => exists n', n <= n' /\ A !! p = None /\ sq_ok st' (<[p := n']> A)
    end.
Proof.
  intros Hst Hn. unfold mallocWithAlarm.
  destruct (roundup_spec (m5 st) A n (sq_heap _ _ Hst) Hn) as (f & -> & Hf). cbn [mbind res_bind].
  set (st1 := sqlite3StatusSet _ n st).
  pose proof (sq_status_set st A n Hst) as Hst1. fold st1 in Hst1. unfold memsys5Malloc.
  destruct Hf as [[_ ->]|(Hfit & Hf0 & _)].
  { exists (set_m5 st1 (m5 st1)), None. split; [done|]. split; [done|]. split; [by intros q m a|]. by destruct Hst1. }
  rewrite (proj2 (Z.ltb_lt 0 f) Hf0).
  destruct (malloc_heap (m5 st1) A f (sq_heap _ _ Hst1) Hf0) as (m & [p|] & -> & Hsa & Hnb & Hk & Hr);
    cbn [mbind res_bind].
  - destruct Hr as (n' & Hn' & Hh & Hnew & _). unfold sqlite3MallocSize. cbn [set_m5 m5].
    rewrite (size_heap m _ p n' Hh) by apply lookup_insert_eq. cbn [mbind res_bind].
    destruct (sq_update st1 m A (<[p := n']> A) n' 1 Hst1 Hh) as (s1 & s2 & H1 & H2 & H3 & _ & H5 & _).
    { rewrite total_insert by done. lia. }
    { rewrite map_size_insert_None by done. lia. }
    rewrite H1. cbn [mbind res_bind]. rewrite H2. cbn [mbind res_bind].
    exists s2, (Some p). split; [done|]. unfold same_pool. rewrite H3. split; [done|]. split; [done|]. exists n'.
    split; [lia|done].
  - exists (set_m5 st1 m), None. split; [done|]. split; [done|]. split; [done|]. destruct Hst1. by split.
Qed.

Lemma sqlite3_free_spec st A p n :
  sq_ok st A -> A !! p = Some n ->
  exists st', sqlite3_free (Some p) st = Ok st' /\ same_pool st st' /\ sq_ok st' (delete p A) /\
    kept (delete p A) (m5 st) (m5 st').
Proof.
  intros Hst Hp. pose proof Hst as [Hh Hu Hc]. unfold sqlite3_free, sqlite3MallocSize.
  rewrite (size_heap _ _ p n Hh Hp). cbn [mbind res_bind].
  destruct (free_heap _ _ p n Hh Hp) as (m & Hfree & Hsa & Hnb & Hh' & Hk).
  pose proof (total_delete A p n Hp) as Ht. pose proof (map_size_delete_Some p A (mk_is_Some _ _ Hp)) as Hs.
  pose proof (heap_total _ _ Hh). pose proof (heap_total _ _ Hh').
  assert (size A <> 0)%nat as Hs0 by (intros Hz%map_size_empty_inv; subst A; done).
  rewrite status_add_ok by (rewrite Hu; clia). cbn [mbind res_bind].
  rewrite status_add_ok by (rewrite status_store_value, decide_False, Hc by done; clia).
  cbn [mbind res_bind]. unfold memsys5Free. cbn [status_store m5]. rewrite Hfree. cbn [mbind res_bind].
  eexists. split; [done|]. split; [done|]. split; [|done]. split; [done| |].
  - change (sqlite3StatusValue (set_m5 ?s m) ?o) with (sqlite3StatusValue s o).
    rewrite !status_store_value, decide_False, decide_True by done. lia.
  - change (sqlite3StatusValue (set_m5 ?s m) ?o) with (sqlite3StatusValue s o).
    rewrite !status_store_value, decide_True, decide_False by done. lia.
Qed.

(** What a caller of a [realloc]-like function on block [ptr] gets. *)
Definition realloc_result (A : gmap Z Z) (ptr : option Z) (nsize : Z) (st st' : sqmem) (r : option Z) : Prop :=
  let rest := match ptr with Some p => delete p A | None => A end in
  match r with
  | None => sq_ok st' A /\ kept A (m5 st) (m5 st')
  | Some p' => exists n', nsize <= n' /\ rest !! p' = None /\ sq_ok st' (<[p' := n']> rest) /\
      kept rest (m5 st) (m5 st') /\
      forall p n a, ptr = Some p -> A !! p = Some n -> 0 <= a < Z.min n nsize ->
        read_byte (zPool (m5 st')) (p' + a) = read_byte (zPool (m5 st)) (p + a)
  end.

Lemma sqlite3Malloc_spec st A n :
  sq_ok st A -> 0 < n < 2 ^ 31 ->
  exists st' r, sqlite3Malloc n st = Ok (st', r) /\ same_pool st st' /\ realloc_result A None n st st' r.
Proof.
  intros Hst Hn. unfold sqlite3Malloc. rewrite (proj2 (Z.eqb_neq n 0)) by lia. cbn [orb].
  destruct (Z.leb_spec 0x7fffff00 n).
  { exists st, None. split; [done|]. split; [done|]. split; [done|by intros q m a]. }
  rewrite swrap_small by (lia || clia).
  destruct (mallocWithAlarm_spec st A n Hst ltac:(lia)) as (st' & r & -> & Hg & Hk & Hr).
  exists st', r. split; [done|]. split; [done|]. destruct r as [p|]; [|done].
  destruct Hr as (n' & H1 & H2 & H3). exists n'. split_and!; done.
Qed.

(** The size of an allocation is a power of two of atoms, at most 1 GiB. *)
Lemma outstanding_pow m A p n :
  heap m A -> A !! p = Some n ->
  exists l, 0 <= l /\ n = szAtom m * 2 ^ l /\ 0 < n <= 2 ^ 30.
Proof.
  intros (B & F & HI & HA) Hp. pose proof (hi_geom _ _ _ _ HI) as G.
  destruct (outstanding_lookup _ B F A HI HA p n Hp) as (j & l & Hal & _ & Hnl & Hp0 & Hpn & Hn0).
  destruct (block_small _ B j l G (hi_part _ _ _ _ HI) (proj1 Hal)) as (Hl & _).
  exists l. split; [lia|]. split; [done|]. split; [done|]. pose proof (g_fits _ G).
  destruct (g_atom _ G) as (c & Hc & Hsz). rewrite Hsz, <- Z.pow_add_r in Hnl by lia.
  assert (c + l < 31) by (apply (Z.pow_lt_mono_r_iff 2); lia). rewrite Hnl. apply Z.pow_le_mono_r; lia.
Qed.

(** Shrinking leaves the block where it is. *)
Lemma realloc_in_place m A p n f :
  heap m A -> A !! p = Some n -> 0 < f <= n -> memsys5Realloc p f m = Ok (m, Some p).
Proof.
  intros Hh Hp Hf. unfold memsys5Realloc. rewrite (proj2 (Z.eqb_neq f 0)) by lia.
  rewrite (size_heap _ _ p n Hh Hp). cbn [mbind res_bind]. by rewrite (proj2 (Z.leb_le f n)) by lia.
Qed.

Lemma realloc_result_same st st' A p n nBytes :
  sq_ok st' A -> m5 st' = m5 st -> A !! p = Some n -> nBytes <= n ->
  realloc_result A (Some p) nBytes st st' (Some p).
Proof.
  intros Hst Hm Hp Hle. exists n. rewrite insert_delete_id, Hm by done.
  split; [lia|]. split; [apply lookup_delete_eq|]. split; [done|].
  split; [by intros q m a|]. by intros p1 n1 a [= <-] _ _.
Qed.

(** The part of [sqlite3Realloc] after the sizes are known. *)
Lemma realloc_tail st A p n f nBytes :
  sq_ok st A -> A !! p = Some n -> nBytes <= f -> 0 < f ->
  exists st' r,
    ('(m, pNew) ← memsys5Realloc p f (m5 st);
     let st := set_m5 st m in
     match pNew with
     | None => Ok (st, None)
     | Some q =>
         nNew ← sqlite3MallocSize st q;
         st ← sqlite3StatusAdd SQLITE_STATUS_MEMORY_USED (nNew - n) st;
         Ok (st, Some q)
     end) = Ok (st', r) /\ same_pool st st' /\ realloc_result A (Some p) nBytes st st' r /\ (f <= n -> r = Some p).
Proof.
  intros Hst Hp Hfit Hf0. pose proof (sq_heap _ _ Hst) as Hh.
  destruct (realloc_heap (m5 st) A p n f Hh Hp Hf0) as (m & [q|] & Hrun & Hsa & Hnb & Hr);
    rewrite Hrun; cbn [mbind res_bind].
  - destruct Hr as (n' & Hn' & Hh' & Hnew & Hk & Hdata). unfold sqlite3MallocSize. cbn [set_m5 m5].
    rewrite (size_heap m _ q n' Hh') by apply lookup_insert_eq. cbn [mbind res_bind].
    destruct (sq_update st m A (<[q := n']> (delete p A)) (n' - n) 0 Hst Hh') as (s1 & s2 & H1 & _ & _ & H4 & _ & H6).
    { rewrite total_insert by done. pose proof (total_delete A p n Hp). lia. }
    { rewrite map_size_insert_None by done. rewrite (map_size_delete_Some p A (mk_is_Some _ _ Hp)).
      assert (size A <> 0)%nat by (intros Hz%map_size_empty_inv; subst A; done). lia. }
    rewrite H1. cbn [mbind res_bind]. exists s1, (Some q). split; [done|]. split; [by unfold same_pool; rewrite H4|]. split.
    + exists n'. split; [lia|]. split; [done|]. split; [by apply H6|]. rewrite H4. split; [done|].
      intros p1 n1 a [= <-] Hp1 Ha. apply Hdata. assert (n1 = n) as -> by congruence. lia.
    + intros Hle. rewrite (realloc_in_place _ A p n f Hh Hp) in Hrun by lia. congruence.
  - destruct Hr as [Hh' Hk]. exists (set_m5 st m), None. split; [done|]. split; [done|]. split.
    + split; [|done]. destruct Hst. by split.
    + intros Hle. rewrite (realloc_in_place _ A p n f Hh Hp) in Hrun by lia. congruence.
Qed.

Lemma sqlite3Realloc_spec st A p n nBytes :
  sq_ok st A -> A !! p = Some n -> 0 < nBytes < 2 ^ 31 ->
  exists st' r, sqlite3Realloc (Some p) nBytes st = Ok (st', r) /\ same_pool st st' /\
    realloc_result A (Some p) nBytes st st' r /\ (nBytes <= n -> r = Some p).
Proof.
  intros Hst Hp Hn. unfold sqlite3Realloc. rewrite (proj2 (Z.eqb_neq nBytes 0)) by lia.
  pose proof (sq_heap _ _ Hst) as Hh.
  destruct (outstanding_pow _ A p n Hh Hp) as (l & Hl & Hnl & Hn0 & Hn30).
  change (2 ^ 30) with 0x40000000 in *.
  destruct (Z.leb_spec 0x7fffff00 nBytes) as [Hbig|Hsm].
  { exists st, None. split; [done|]. split; [done|]. split; [split; [done|by intros q m a]|lia]. }
  unfold sqlite3MallocSize. rewrite (size_heap _ _ p n Hh Hp). cbn [mbind res_bind].
  rewrite swrap_small by (lia || clia).
  destruct (roundup_spec (m5 st) A nBytes Hh ltac:(lia)) as (f & -> & Hf). cbn [mbind res_bind].
  change (2 ^ 30) with 0x40000000 in *.
  destruct (Z.eqb_spec n f) as [Heq|Hne].
  { exists st, (Some p). split; [done|]. split; [done|]. split; [|done]. apply (realloc_result_same st st A p n); [done|done|done|].
    destruct Hf as [[_ ->]|(? & _)]; lia. }
  set (st1 := sqlite3StatusSet _ _ st).
  pose proof (sq_status_set st A nBytes Hst) as Hst1. fold st1 in Hst1.
  destruct Hf as [[Hover ->]|(Hfit & Hf0 & Hmin)].
  { exists (set_m5 st1 (m5 st1)), None. split; [done|]. split; [done|]. split; [|lia].
    split; [by destruct Hst1|by intros q m a]. }
  destruct (realloc_tail st1 A p n f nBytes Hst1 Hp Hfit Hf0) as (st' & r & Hrun & Hg & Hres & Hin).
  exists st', r. split; [exact Hrun|]. split; [exact Hg|]. split; [exact Hres|]. intros Hle. apply Hin. subst n. by apply Hmin.
Qed.

(** ** [l_alloc] *)

(** Every call for less than 2 GiB. *)
Lemma l_alloc_spec st A ptr nsize :
  sq_ok st A -> (forall p, ptr = Some p -> is_Some (A !! p)) -> 0 < nsize < 2 ^ 31 ->
  exists st' r, l_alloc ptr nsize st = Ok (st', r) /\ same_pool st st' /\ realloc_result A ptr nsize st st' r /\
    forall p n, ptr = Some p -> A !! p = Some n -> nsize <= n -> r = Some p.
Proof.
  intros Hst Hptr Hn. unfold l_alloc, sqlite3_realloc. rewrite (proj2 (Z.eqb_neq nsize 0)) by lia.
  rewrite swrap_small by (lia || clia). rewrite (proj2 (Z.ltb_ge nsize 0)) by lia.
  destruct ptr as [p|]; cbn [sqlite3Realloc].
  - destruct (Hptr p eq_refl) as [n Hp].
    destruct (sqlite3Realloc_spec st A p n nsize Hst Hp Hn) as (st' & r & Hrun & Hg & Hres & Hin).
    exists st', r. split; [exact Hrun|]. split; [done|]. split; [done|]. intros p1 n1 [= <-] Hp1 Hle.
    apply Hin. congruence.
  - destruct (sqlite3Malloc_spec st A nsize Hst Hn) as (st' & r & -> & Hg & Hres).
    exists st', r. done.
Qed.

(** C4. [l_alloc] is the reallocation function the Lua manual asks for, for
    every request below 2 GiB: it returns null and changes nothing, or a block of
    at least the requested size, disjoint from all others, with the old contents
    up to the smaller size; other blocks keep their contents, and the statistics
    stay exact.  Shrinking never fails and never moves the block. *)
Theorem l_alloc_correct (st : sqmem) (A : gmap Z Z) (ptr : option Z) (nsize : Z) :
  sq_ok st A -> (forall p, ptr = Some p -> is_Some (A !! p)) -> 0 < nsize < 2 ^ 31 ->
  exists st' r, l_alloc ptr nsize st = Ok (st', r) /\ realloc_result A ptr nsize st st' r /\
    forall p n, ptr = Some p -> A !! p = Some n -> nsize <= n -> r = Some p.
Proof.
  intros Hst Hptr Hn. destruct (l_alloc_spec st A ptr nsize Hst Hptr Hn) as (st' & r & H & _ & H').
  by exists st', r.
Qed.

(** Every allocator starts empty. *)
Definition sq_init (m : mem5) : sqmem := Sqmem m ∅ ∅.

Lemma sq_init_ok m : heap m ∅ -> sq_ok (sq_init m) ∅.
Proof. intros Hh. by split. Qed.

(** A small heap for the examples. *)
Definition small_heap : mem5 :=
  match memsys5Init 1040 64 ∅ ∅ with Ok m => m | Err _ => Mem5 0 0 ∅ ∅ ∅ stats_zero end.

Lemma small_heap_ok : heap small_heap ∅.
Proof.
  destruct (memsys5Init_spec 1040 64 ∅ ∅) as (m & Hm & Hh & _); [lia|lia|].
  unfold small_heap. by rewrite Hm.
Qed.

(** Witness of C4: a first allocation of 100 bytes. *)
Lemma l_alloc_correct_witness :
  exists st' r, l_alloc None 100 (sq_init small_heap) = Ok (st', r) /\
    realloc_result ∅ None 100 (sq_init small_heap) st' r /\
    forall p n, None = Some p -> (∅ : gmap Z Z) !! p = Some n -> 100 <= n -> r = Some p.
Proof.
  apply (l_alloc_correct (sq_init small_heap) ∅ None 100);
    [apply sq_init_ok, small_heap_ok|by intros p|lia].
Defined.

(** [l_alloc] with size zero frees the block and only that block. *)
Theorem l_alloc_frees (st : sqmem) (A : gmap Z Z) (p n : Z) :
  sq_ok st A -> A !! p = Some n ->
  exists st', l_alloc (Some p) 0 st = Ok (st', None) /\ sq_ok st' (delete p A) /\
    kept (delete p A) (m5 st) (m5 st').
Proof.
  intros Hst Hp. unfold l_alloc. cbn [Z.eqb].
  destruct (sqlite3_free_spec st A p n Hst Hp) as (st' & -> & _ & H1 & H2). by exists st'.
Qed.

(** C32. A request between 2 and 4 GiB is converted to a negative [int]: the
    block is freed although null is returned, and Lua, which takes null for a
    failure that leaves the block alone, goes on using it. *)
Theorem l_alloc_huge_frees (st : sqmem) (A : gmap Z Z) (p n nsize : Z) :
  sq_ok st A -> A !! p = Some n -> 2 ^ 31 <= nsize < 2 ^ 32 ->
  exists st', l_alloc (Some p) nsize st = Ok (st', None) /\ sq_ok st' (delete p A).
Proof.
  intros Hst Hp Hn. unfold l_alloc, sqlite3_realloc. rewrite (proj2 (Z.eqb_neq nsize 0)) by lia.
  assert (s32 nsize = nsize - 2 ^ 32) as -> by (unfold swrap; dlia).
  rewrite (proj2 (Z.ltb_lt _ 0)) by lia. unfold sqlite3Realloc. cbn [Z.eqb].
  destruct (sqlite3_free_spec st A p n Hst Hp) as (st' & -> & _ & H1 & _). by exists st'.
Qed.

(** A heap with one block of 128 bytes at offset 0. *)
Definition one_block : sqmem :=
  match sqlite3Malloc 100 (sq_init small_heap) with Ok (st, _) => st | Err _ => sq_init small_heap end.

Lemma one_block_ok : sq_ok one_block {[0 := 128]}.
Proof.
  destruct (sqlite3Malloc_spec (sq_init small_heap) ∅ 100 (sq_init_ok _ small_heap_ok))
    as (st' & r & Hrun & _ & Hr); [lia|].
  assert (r = Some 0) as ->.
  { assert (match sqlite3Malloc 100 (sq_init small_heap) with Ok (_, r) => r | Err _ => None end = Some 0)
      as H by (vm_compute; reflexivity). by rewrite Hrun in H. }
  destruct Hr as (n' & _ & _ & Hok & _).
  assert (one_block = st') as -> by (unfold one_block; by rewrite Hrun).
  assert (memsys5Size (m5 st') 0 = Ok n') as Hsz
    by (apply (size_heap _ _ _ _ (sq_heap _ _ Hok)); apply lookup_insert_eq).
  assert (match sqlite3Malloc 100 (sq_init small_heap) with
          | Ok (st, _) => memsys5Size (m5 st) 0 | Err _ => Err Hang end = Ok 128)
    as H by (vm_compute; reflexivity). rewrite Hrun, Hsz in H. injection H as ->. exact Hok.
Qed.

(** Example. *)
Lemma l_alloc_frees_witness :
  exists st', l_alloc (Some 0) 0 one_block = Ok (st', None) /\ sq_ok st' (delete 0 {[0 := 128]}) /\
    kept (delete 0 {[0 := 128]}) (m5 one_block) (m5 st').
Proof. apply (l_alloc_frees one_block {[0 := 128]} 0 128 one_block_ok). reflexivity. Defined.

(** Witness of C32: growing the block to 2 GiB. *)
Lemma l_alloc_huge_frees_witness :
  exists st', l_alloc (Some 0) (2 ^ 31) one_block = Ok (st', None) /\ sq_ok st' (delete 0 {[0 := 128]}).
Proof. apply (l_alloc_huge_frees one_block {[0 := 128]} 0 128 (2 ^ 31) one_block_ok); [reflexivity|lia]. Defined.

(** ** memsys5 as the kernel sees it *)

(** C5. From any state of the allocator, [memsys5Malloc] either fails without
    touching the heap or returns a pointer inside the pool to a fresh block of at
    least the requested size that overlaps no outstanding allocation; in both
    cases every outstanding allocation keeps its contents. *)
Theorem memsys5Malloc_refines (m : mem5) (A : gmap Z Z) (nByte : Z) :
  heap m A -> 0 < nByte ->
  exists m' r, memsys5Malloc nByte m = Ok (m', r) /\ kept A m m' /\
    match r with
    | None => heap m' A
    | Some p => exists n, nByte <= n /\ A !! p = None /\ heap m' (<[p := n]> A) /\
        0 <= p /\ p + n <= nBlock m * szAtom m /\ p mod szAtom m = 0 /\
        forall q k, A !! q = Some k -> p + n <= q \/ q + k <= p
    end.
Proof.
  intros Hh Hn. unfold memsys5Malloc. rewrite (proj2 (Z.ltb_lt 0 nByte) Hn).
  destruct (malloc_heap m A nByte Hh Hn) as (m' & r & -> & Hsz & Hnb & Hk & Hr).
  exists m', r. split; [done|]. split; [done|]. destruct r as [p|]; [|done].
  destruct Hr as (n & Hle & Hh' & Hnew & _). exists n. do 3 (split; [done|]).
  destruct Hh' as (B & F & HI & HA). assert (<[p := n]> A !! p = Some n) as Hp by apply lookup_insert_eq.
  destruct (outstanding_lookup m' B F _ HI HA p n Hp) as (j & l & _ & Hpj & _ & Hp0 & Hpn & _).
  rewrite Hsz, Hnb in *. split_and!; [done|done|rewrite Hpj; apply Z.mod_mul|].
  - pose proof (geom_atom _ (hi_geom _ _ _ _ HI)). lia.
  - intros q k Hq. apply (outstanding_disjoint m' B F _ HI HA p n q k Hp); [|congruence].
    rewrite lookup_insert_ne by congruence. done.
Qed.

(** Witness of C5. *)
Lemma memsys5Malloc_refines_witness :
  exists m' r, memsys5Malloc 200 small_heap = Ok (m', r) /\ kept ∅ small_heap m' /\
    match r with
    | None => heap m' ∅
    | Some p => exists n, 200 <= n /\ (∅ : gmap Z Z) !! p = None /\ heap m' (<[p := n]> ∅) /\
        0 <= p /\ p + n <= nBlock small_heap * szAtom small_heap /\ p mod szAtom small_heap = 0 /\
        forall q k, (∅ : gmap Z Z) !! q = Some k -> p + n <= q \/ q + k <= p
    end.
Proof. apply (memsys5Malloc_refines small_heap ∅ 200 small_heap_ok). lia. Defined.

(** [memsys5Init] on less than 2 GiB gives an allocator with nothing
    outstanding; the pool and the control bytes fit in the given memory and the
    smallest block is at least the minimum request. *)
Theorem memsys5Init_correct (nHeap mnReq : Z) (pool ctl : gmap Z Z) :
  0 <= nHeap < 2 ^ 31 ->
  exists m, (let '(n, r) := config_heap nHeap mnReq in memsys5Init n r pool ctl) = Ok m /\ heap m ∅ /\
    nBlock m * szAtom m + nBlock m <= nHeap /\ nBlock m = nHeap / (szAtom m + 1).
Proof.
  intros Hn. unfold config_heap. rewrite (swrap_small 32 nHeap) by (lia || clia).
  set (r := if s32 mnReq <? 1 then 1 else if 4096 <? s32 mnReq then 4096 else s32 mnReq).
  assert (1 <= r <= 4096) as Hr
    by (unfold r; destruct (Z.ltb_spec (s32 mnReq) 1), (Z.ltb_spec 4096 (s32 mnReq)); lia).
  destruct (memsys5Init_spec nHeap r pool ctl Hn Hr) as (m & -> & Hh & _ & Hnb & Hfit).
  by exists m.
Qed.

(** Example: the kernel asks for 64-byte blocks. *)
Lemma memsys5Init_correct_witness :
  exists m, (let '(n, r) := config_heap 1040 64 in memsys5Init n r ∅ ∅) = Ok m /\ heap m ∅ /\
    nBlock m * szAtom m + nBlock m <= 1040 /\ nBlock m = 1040 / (szAtom m + 1).
Proof. apply (memsys5Init_correct 1040 64 ∅ ∅). lia. Defined.

Lemma init_loop_negative n st :
  (n <= 31)%nat -> nBlock st < 0 -> init_loop n 0 st = Ok st.
Proof.
  induction n as [|n IH]; intros Hn Hb; [done|]. cbn [init_loop].
  pose proof (Z.pow_le_mono_r 2 (Z.of_nat n) 30 ltac:(lia) ltac:(lia)).
  pose proof (pow2_pos (Z.of_nat n) ltac:(lia)).
  rewrite shl1_ok by lia. cbn [mbind res_bind].
  rewrite c_int_ok by (change (2 ^ 30) with 1073741824 in *; clia). cbn [mbind res_bind].
  rewrite (proj2 (Z.leb_gt _ _)) by lia. apply IH; [lia|done].
Qed.

(** The heap size is passed to SQLite as an [int]: with between 2 and 4 GiB
    from the kernel to the end of memory the number of blocks becomes negative,
    no block is ever put on a free list, and every allocation fails, so
    [lua_newstate] cannot succeed. *)
Theorem memsys5Init_2GiB (nHeap : Z) (pool ctl : gmap Z Z) :
  2 ^ 31 <= nHeap < 2 ^ 32 ->
  exists m, (let '(n, r) := config_heap nHeap 64 in memsys5Init n r pool ctl) = Ok m /\
    forall nByte, exists m', memsys5Malloc nByte m = Ok (m', None).
Proof.
  intros Hn. unfold config_heap.
  assert (s32 nHeap = nHeap - 2 ^ 32) as -> by (unfold swrap; dlia).
  change (if s32 64 <? 1 then 1 else if 4096 <? s32 64 then 4096 else s32 64) with 64.
  unfold memsys5Init. change (memsys5Log 64) with (Ok 6). cbn [mbind res_bind].
  change (shl1 6) with (Ok 64). cbn [mbind res_bind]. change (atom_loop FUEL 64) with (Ok 64).
  cbn [mbind res_bind].
  assert (u64 (nHeap - 2 ^ 32) = nHeap - 2 ^ 32 + 2 ^ 64) as -> by (unfold wrap; dlia).
  set (nb := s32 _). assert (nb < 0) as Hnb by (unfold nb, swrap; dlia).
  set (st0 := Mem5 _ _ _ _ _ _). rewrite init_loop_negative by (done || unfold LOGMAX; lia).
  exists st0. split; [done|]. intros nByte. unfold memsys5Malloc, memsys5MallocUnsafe.
  destruct (Z.ltb_spec 0 nByte) as [H0|]; [|by eexists].
  destruct (Z.ltb_spec 0x40000000 nByte) as [|Hle]; [by eexists|]. cbn [set_stats szAtom st0].
  destruct (round_loop_spec FUEL 6 0 nByte) as (d & Hd & Hcd & Hrun & _); [lia|unfold FUEL; lia|done|].
  change (2 ^ 6) with 64 in Hrun. rewrite Hrun. cbn [mbind res_bind]. set (st1 := set_stats st0 _).
  destruct (find_bin_spec FUEL st1 ∅ (0 + d)) as (b & Hb & Hbr & _ & Hhd).
  { split; [by intros i k ?%lookup_empty_Some|]. intros k Hk. exists [], (-1). split; [constructor|].
    split; [split; [done|by apply freelist_empty_lookup]|].
    intros i. rewrite lookup_empty. split; [by intros ?%not_elem_of_nil|done]. }
  { unfold LOGMAX. lia. }
  { unfold LOGMAX, FUEL. lia. }
  change (find_bin FUEL _ (0 + d)) with (find_bin FUEL st1 (0 + d)). rewrite Hb. cbn [mbind res_bind].
  destruct (Z.ltb_spec LOGMAX b) as [|Hlow]; [by eexists|].
  destruct (Hhd Hlow) as [_ Hbad]. by rewrite lookup_empty in Hbad.
Qed.

(** Example: 3 GiB. *)
Lemma memsys5Init_2GiB_witness :
  exists m, (let '(n, r) := config_heap (3 * 2 ^ 30) 64 in memsys5Init n r ∅ ∅) = Ok m /\
    forall nByte, exists m', memsys5Malloc nByte m = Ok (m', None).
Proof. apply (memsys5Init_2GiB (3 * 2 ^ 30) ∅ ∅). lia. Defined.
