(* ===== verification/MallocClient.v ===== *)
(** * Programs that allocate through [l_alloc]

    Lua reaches the heap through its allocation function alone ([luaM_realloc_] of
    [src/dep/lua-5.2.3/src/lmem.c] calls [l_alloc] of [src/src/luakernel.c]).  Which
    blocks it asks for depends on the collector and on the answers it gets, so a
    program is a tree: a call of [l_alloc], a write into memory or a read of a byte,
    and a way to go on for every answer.  [behaves] is what [lua_Alloc] asks of the
    caller: it passes only pointers it owns, asks for less than 2 GiB and stays inside
    its blocks.  Every program that does so runs without undefined behaviour on the
    allocator as the kernel configures it, and when it has freed everything the pool is
    as good as new. *)

From S2P Require Import Prelude Buddy Mem5 Mem5Lists Mem5Spec Mem5Heap Mem5Init Malloc.

Inductive client (A : Type) : Type :=
| Return (a : A)
| Realloc (ptr : option Z) (nsize : Z) (k : option Z -> client A)   (** a call of [l_alloc] *)
| Store (p off : Z) (bs : list Z) (k : client A)                    (** a write at [p + off] *)
| Fetch (p off : Z) (k : Z -> client A).                            (** a read at [p + off] *)
Arguments Return {A} a.
Arguments Realloc {A} ptr nsize k.
Arguments Store {A} p off bs k.
Arguments Fetch {A} p off k.

Fixpoint run_client {A} (c : client A) (st : sqmem) : res (sqmem * A) :=
  match c with
  | Return a => Ok (st, a)
  | Realloc ptr nsize k => '(st, r) ← l_alloc ptr nsize st; run_client (k r) st
  | Store p off bs k => run_client k (set_m5 st (set_pool (m5 st) (write_bytes (zPool (m5 st)) (p + off) bs)))
  | Fetch p off k => run_client (k (read_byte (zPool (m5 st)) (p + off))) st
  end.

(** The blocks a program owns, with the sizes it asked for. *)
Definition without (own : gmap Z Z) (ptr : option Z) : gmap Z Z :=
  match ptr with Some p => delete p own | None => own end.

(** A call that does not grow a block; [lua_Alloc] says it never fails. *)
Definition shrinks (own : gmap Z Z) (ptr : option Z) (nsize : Z) : Prop :=
  exists p n, ptr = Some p /\ own !! p = Some n /\ nsize <= n.

(** The program keeps the rules whatever the answers are, and ends with [Q] of the
    blocks it owns then and of its result. *)
Fixpoint behaves {A} (own : gmap Z Z) (c : client A) (Q : gmap Z Z -> A -> Prop) : Prop :=
  match c with
  | Return a => Q own a
  | Realloc ptr nsize k =>
      0 <= nsize < 2 ^ 31 /\ (forall p, ptr = Some p -> is_Some (own !! p)) /\
      if decide (nsize = 0) then behaves (without own ptr) (k None) Q else
        (~ shrinks own ptr nsize -> behaves own (k None) Q) /\
        forall p, without own ptr !! p = None -> (shrinks own ptr nsize -> ptr = Some p) ->
          behaves (<[p := nsize]> (without own ptr)) (k (Some p)) Q
  | Store p off bs k =>
      (exists n, own !! p = Some n /\ 0 <= off /\ off + Z.of_nat (length bs) <= n) /\ behaves own k Q
  | Fetch p off k => (exists n, own !! p = Some n /\ 0 <= off < n) /\ forall b, behaves own (k b) Q
  end.

(** The blocks of the allocator are those of the program, each at least as large as
    it was asked for. *)
Definition owned (own A : gmap Z Z) : Prop :=
  (forall p, own !! p = None -> A !! p = None) /\
  forall p n, own !! p = Some n -> exists n', A !! p = Some n' /\ n <= n'.

Lemma owned_none own A p : owned own A -> own !! p = None <-> A !! p = None.
Proof.
  intros [H1 H2]. split; [apply H1|]. intros Ha. destruct (own !! p) as [n|] eqn:E; [|done].
  destruct (H2 p n E) as (n' & E' & _). congruence.
Qed.

Lemma owned_insert own A p n n' : owned own A -> n <= n' -> owned (<[p := n]> own) (<[p := n']> A).
Proof.
  intros [H1 H2] Hn. split.
  - intros q Hq. apply lookup_insert_None in Hq as [Hq Hne]. apply lookup_insert_None. auto.
  - intros q k [[<- <-]|[Hne Hq]]%lookup_insert_Some.
    + exists n'. by rewrite lookup_insert_eq.
    + destruct (H2 q k Hq) as (k' & ? & ?). exists k'. by rewrite lookup_insert_ne.
Qed.

Lemma owned_without own A ptr : owned own A -> owned (without own ptr) (without A ptr).
Proof.
  intros [H1 H2]. destruct ptr as [p|]; cbn [without]; [|done]. split.
  - intros q [->|Hq]%lookup_delete_None; apply lookup_delete_None; auto.
  - intros q k [Hne Hq]%lookup_delete_Some. destruct (H2 q k Hq) as (k' & ? & ?).
    exists k'. by rewrite lookup_delete_ne.
Qed.

(** What holds between the states of a run. *)
Lemma same_pool_trans st1 st2 st3 : same_pool st1 st2 -> same_pool st2 st3 -> same_pool st1 st3.
Proof. unfold same_pool. intros [-> ->] [-> ->]. done. Qed.

Lemma l_alloc_zero st A ptr :
  sq_ok st A -> (forall p, ptr = Some p -> is_Some (A !! p)) ->
  exists st', l_alloc ptr 0 st = Ok (st', None) /\ same_pool st st' /\ sq_ok st' (without A ptr).
Proof.
  intros Hst Hptr. unfold l_alloc. cbn [Z.eqb]. destruct ptr as [p|]; [|by exists st].
  destruct (Hptr p eq_refl) as [n Hp].
  destruct (sqlite3_free_spec st A p n Hst Hp) as (st' & -> & Hg & Hok & _). by exists st'.
Qed.

(** Writing inside a block. *)
Lemma store_ok st own A p n off bs :
  sq_ok st A -> owned own A -> own !! p = Some n -> 0 <= off -> off + Z.of_nat (length bs) <= n ->
  sq_ok (set_m5 st (set_pool (m5 st) (write_bytes (zPool (m5 st)) (p + off) bs))) A.
Proof.
  intros [Hh Hu Hc] [_ Ho] Hp H0 Hn. destruct (Ho p n Hp) as (n' & Hp' & Hle).
  split; [|exact Hu|exact Hc]. apply (heap_write (m5 st) A p n'); [done|done|lia|lia].
Qed.

(** A program that keeps the rules runs to its end, and the allocator holds exactly
    the blocks it owns. *)
Lemma run_behaves {A} (c : client A) : forall own B st Q,
  behaves own c Q -> sq_ok st B -> owned own B ->
  exists st' own' B' a, run_client c st = Ok (st', a) /\ same_pool st st' /\ sq_ok st' B' /\ owned own' B' /\ Q own' a.
Proof.
  induction c as [a|ptr nsize k IH|p off bs k IH|p off k IH]; intros own B st Q Hc Hst Ho; cbn [behaves run_client] in *.
  - by exists st, own, B, a.
  - destruct Hc as (Hn & Hptr & Hc).
    assert (forall p, ptr = Some p -> is_Some (B !! p)) as HptrB.
    { intros p Hp. destruct (Hptr p Hp) as [n Hpn]. destruct (proj2 Ho p n Hpn) as (n' & -> & _). done. }
    case_decide as Hz.
    { subst nsize. destruct (l_alloc_zero st B ptr Hst HptrB) as (st1 & -> & Hg & Hst1). cbn [mbind res_bind].
      destruct (IH None _ _ st1 Q Hc Hst1 (owned_without _ _ ptr Ho)) as (st' & own' & B' & a & ? & ? & ?).
      exists st', own', B', a. split; [done|]. split; [by eapply same_pool_trans|done]. }
    destruct (l_alloc_spec st B ptr nsize Hst HptrB ltac:(lia)) as (st1 & r & -> & Hg & Hr & Hshrink). cbn [mbind res_bind].
    assert (shrinks own ptr nsize -> r = ptr) as Hsh.
    { intros (p & n & -> & Hp & Hle). destruct (proj2 Ho p n Hp) as (n' & Hp' & Hn'). apply (Hshrink p n'); [done|done|lia]. }
    destruct Hc as [Hfail Hgot].
    assert (exists own1 B1, behaves own1 (k r) Q /\ sq_ok st1 B1 /\ owned own1 B1) as (own1 & B1 & H1 & H2 & H3).
    { destruct r as [p|]; cbn [realloc_result] in Hr.
      - destruct Hr as (n' & Hle & Hnew & Hst1 & _ & _).
        exists (<[p := nsize]> (without own ptr)), (<[p := n']> (without B ptr)).
        pose proof (owned_without _ _ ptr Ho) as Hw. split; [|split; [done|by apply owned_insert]].
        apply Hgot; [by apply (owned_none _ _ _ Hw)|]. intros Hs. by rewrite Hsh.
      - destruct Hr as [Hst1 _]. exists own, B. split; [|done]. apply Hfail. intros Hs.
        pose proof (Hsh Hs) as E. destruct Hs as (p & n & -> & _). done. }
    destruct (IH r own1 B1 st1 Q H1 H2 H3) as (st' & own' & B' & a & ? & ? & ?).
    exists st', own', B', a. split; [done|]. split; [by eapply same_pool_trans|done].
  - destruct Hc as ((n & Hp & H0 & Hn) & Hk).
    destruct (IH own B _ Q Hk (store_ok st own B p n off bs Hst Ho Hp H0 Hn) Ho) as (st' & own' & B' & a & ? & ? & ?).
    by exists st', own', B', a.
  - destruct Hc as (_ & Hk). by apply IH with (own := own) (B := B).
Qed.

(** ** No fragmentation *)

(** A request that an empty pool can hold in one block. *)
Lemma l_alloc_idle st nByte L :
  sq_ok st ∅ -> 0 < nByte <= 2 ^ 30 -> 0 <= L <= 30 ->
  nByte <= szAtom (m5 st) * 2 ^ L -> 2 ^ L <= nBlock (m5 st) ->
  exists st' p, l_alloc None nByte st = Ok (st', Some p).
Proof.
  intros Hst Hn HL Hfit Hin. change (2 ^ 30) with 0x40000000 in *.
  unfold l_alloc, sqlite3_realloc. rewrite (proj2 (Z.eqb_neq nByte 0)) by lia.
  rewrite swrap_small by (lia || clia). rewrite (proj2 (Z.ltb_ge nByte 0)) by lia. cbn [sqlite3Realloc].
  destruct (sqlite3Malloc_spec st ∅ nByte Hst ltac:(lia)) as (st' & r & Hrun & _ & _).
  exists st'. rewrite Hrun. destruct r as [p|]; [by exists p|]. exfalso. revert Hrun.
  unfold sqlite3Malloc. rewrite (proj2 (Z.eqb_neq nByte 0)), (proj2 (Z.leb_gt _ _)) by lia. cbn [orb].
  rewrite swrap_small by (lia || clia). unfold mallocWithAlarm.
  destruct (roundup_spec (m5 st) ∅ nByte (sq_heap _ _ Hst) ltac:(lia)) as (f & -> & Hf). cbn [mbind res_bind].
  change (2 ^ 30) with 0x40000000 in *.
  destruct Hf as [[Hbig _]|(Hf & Hf0 & Hmin)]; [lia|]. unfold memsys5Malloc.
  rewrite (proj2 (Z.ltb_lt 0 f)) by lia. specialize (Hmin L ltac:(lia) Hfit).
  pose proof (sq_heap _ _ Hst) as Hh.
  assert (szAtom (m5 st) * 2 ^ L <= 0x40000000) as Hmax.
  { destruct Hh as (B & F & HI & _). pose proof (hi_geom _ _ _ _ HI) as G. pose proof (g_fits _ G).
    destruct (g_atom _ G) as (c & Hc & Hsz). rewrite Hsz in *. rewrite <- Z.pow_add_r in * by lia.
    assert (2 ^ c * 2 ^ L < 2 ^ 31) as Hlt by nia. rewrite <- Z.pow_add_r in Hlt by lia.
    apply Z.pow_lt_mono_r_iff in Hlt; [|lia|lia]. change 0x40000000 with (2 ^ 30). apply Z.pow_le_mono_r; lia. }
  destruct (malloc_coalesced (m5 st) f L Hh) as (m & p & Hm); [change (2 ^ 30) with 0x40000000; lia|lia|lia|done|].
  change (m5 (sqlite3StatusSet _ _ st)) with (m5 st). rewrite Hm. cbn [mbind res_bind]. intros E.
  apply bind_Ok in E as (? & _ & E). apply bind_Ok in E as (? & _ & E). by apply bind_Ok in E as (? & _ & [=]).
Qed.

(** C31. The allocator does not fragment: start it as the kernel does on less than 2
    GiB and let any program that keeps the rules of [lua_Alloc] allocate, resize, write
    and free blocks in any order, and free everything in the end.  Then no step was
    undefined, and every request of at most 1 GiB that some power-of-two number of atoms
    of the pool can hold succeeds. *)
Theorem memsys5_no_fragmentation {A} (nHeap : Z) (pool ctl : gmap Z Z) (c : client A) :
  0 <= nHeap < 2 ^ 31 -> behaves ∅ c (fun own _ => own = ∅) ->
  exists m st a, memsys5Init nHeap 64 pool ctl = Ok m /\ nBlock m = nHeap / (szAtom m + 1) /\
    run_client c (sq_init m) = Ok (st, a) /\
    forall nByte L, 0 < nByte <= 2 ^ 30 -> 0 <= L <= 30 -> nByte <= szAtom m * 2 ^ L -> 2 ^ L <= nBlock m ->
      exists st' p, l_alloc None nByte st = Ok (st', Some p).
Proof.
  intros Hn Hc. destruct (memsys5Init_spec nHeap 64 pool ctl Hn ltac:(lia)) as (m & Hm & Hh & _ & Hnb & _).
  destruct (run_behaves c ∅ ∅ (sq_init m) _ Hc (sq_init_ok m Hh)) as (st & own & B & a & Hrun & [Hsz Hnum] & Hst & Ho & Hown).
  { split; [done|]. by intros p n ?%lookup_empty_Some. }
  exists m, st, a. split; [done|]. split; [done|]. split; [done|]. intros nByte L H1 H2 H3 H4.
  assert (B = ∅) as ->. { subst own. apply map_empty. intros p. by apply Ho. }
  apply (l_alloc_idle st nByte L); [done|done|done|by rewrite Hsz|by rewrite Hnum].
Qed.

(** Three blocks, one of which grows, are freed in another order; when a request
    fails, what is there is freed. *)
Definition free_all (ps : list Z) : client unit :=
  foldr (fun p c => Realloc (Some p) 0 (fun _ => c)) (Return tt) ps.

Definition three_blocks : client unit :=
  Realloc None 100 (fun a => match a with None => Return tt | Some a =>
  Realloc None 60 (fun b => match b with None => free_all [a] | Some b =>
  Store b 10 [1; 2; 3] (
  Realloc (Some a) 300 (fun a' => match a' with None => free_all [b; a] | Some a =>
  Realloc None 64 (fun d => match d with None => free_all [a; b] | Some d => free_all [b; d; a] end) end)) end) end).

Lemma free_all_behaves ps : forall own,
  NoDup ps -> (forall p, p ∈ ps <-> is_Some (own !! p)) -> behaves own (free_all ps) (fun own _ => own = ∅).
Proof.
  induction ps as [|p ps IH]; intros own Hnd Hps; cbn [free_all foldr behaves].
  - apply map_empty. intros p. apply eq_None_not_Some. intros Hp%Hps. by apply elem_of_nil in Hp.
  - apply NoDup_cons in Hnd as [Hp Hnd]. split; [lia|].
    split; [intros q [= <-]; apply Hps; by left|]. rewrite decide_True by done. apply IH; [done|].
    intros q. cbn [without]. rewrite lookup_delete_is_Some, <- Hps. set_solver.
Qed.

Lemma three_blocks_behave : behaves ∅ three_blocks (fun own _ => own = ∅).
Proof.
  assert (forall ps own, NoDup ps -> dom own = list_to_set ps -> behaves own (free_all ps) (fun own _ => own = ∅)) as Hend.
  { intros ps own Hnd Hd. apply free_all_behaves; [done|]. intros p. rewrite <- elem_of_dom, Hd. set_solver. }
  split; [lia|]. split; [done|]. rewrite decide_False by done. split; [done|]. cbn [without]. intros a _ _.
  split; [lia|]. split; [done|]. rewrite decide_False by done. cbn [without].
  split; [intros _; apply Hend; [apply NoDup_singleton|set_solver]|]. intros b [_ Hb]%lookup_insert_None _.
  split; [exists 60; rewrite lookup_insert_eq; split; [done|cbn; lia]|].
  split; [lia|]. split; [intros p [= <-]; by rewrite lookup_insert_ne, lookup_insert_eq by done|].
  rewrite decide_False by done. cbn [without].
  assert (delete a (<[b := 60]> (<[a := 100]> (∅ : gmap Z Z))) = <[b := 60]> ∅) as ->.
  { rewrite delete_insert_ne by done. by rewrite delete_insert_id. }
  split; [intros _; apply Hend; [repeat constructor; set_solver|set_solver]|]. intros a' [_ Ha']%lookup_insert_None _.
  split; [lia|]. split; [done|]. rewrite decide_False by done. cbn [without].
  split; [intros _; apply Hend; [repeat constructor; set_solver|set_solver]|].
  intros d [[_ Hd2]%lookup_insert_None Hd1]%lookup_insert_None _.
  apply Hend; [repeat constructor; set_solver|set_solver].
Qed.

(** Witness of C31: a heap of 1040 bytes holds 16 atoms of 64 bytes; after the three
    blocks one of 1024 bytes is there. *)
Lemma memsys5_no_fragmentation_witness :
  (exists m st a, memsys5Init 1040 64 ∅ ∅ = Ok m /\ nBlock m = 1040 / (szAtom m + 1) /\
    run_client three_blocks (sq_init m) = Ok (st, a) /\
    forall nByte L, 0 < nByte <= 2 ^ 30 -> 0 <= L <= 30 -> nByte <= szAtom m * 2 ^ L -> 2 ^ L <= nBlock m ->
      exists st' p, l_alloc None nByte st = Ok (st', Some p)) /\
  match memsys5Init 1040 64 ∅ ∅ with
  | Ok m => match run_client three_blocks (sq_init m) with
            | Ok (st, _) => match l_alloc None 1024 st with Ok (_, p) => p = Some 0 | Err _ => False end
            | Err _ => False
            end
  | Err _ => False
  end.
Proof.
  split; [|vm_compute; reflexivity].
  apply (memsys5_no_fragmentation 1040 ∅ ∅ three_blocks); [lia|exact three_blocks_behave].
Defined.
