(* ===== verification/SqlVarint.v ===== *)
(** * SQLite's variable-length integers ([src/dep/sqlite3/sqlite3.c], util.c part)

    Every record, key and page of a database file holds 64-bit integers in 1 to 9
    bytes: seven bits per byte with the high bit as a continuation mark, most
    significant first, and all eight bits of a ninth byte.  [sqlite3GetVarint] is
    unrolled and decodes into two interleaved 32-bit halves; the theorems show
    that it agrees with the byte-by-byte reading, that reading inverts writing,
    and that it reads no byte after the last one. *)

From S2P Require Import Prelude LuaStr.

(** [p[i]]. *)
Definition byte_of (p : bytes) (i : nat) : res Z := of_option Undefined (p !! i).

(** ** Writing *)

(** [for (i = 7; i >= 0; i--) { p[i] = (v & 0x7f) | 0x80; v >>= 7; }] for [n]
    bytes, the last one first. *)
Fixpoint put_down (n : nat) (v : Z) (after : bytes) : bytes :=
  match n with
  | O => after
  | S n' => put_down n' (v ≫ 7) (u8 ((v &&& 0x7f) ||| 0x80) :: after)
  end.

(** The [do] loop: [buf], which is in the opposite order. *)
Fixpoint buf_loop (fuel : nat) (v : Z) : bytes :=
  match fuel with
  | O => []
  | S fuel' =>
      let c := u8 ((v &&& 0x7f) ||| 0x80) in
      let v := v ≫ 7 in
      c :: (if negb (v =? 0) then buf_loop fuel' v else [])
  end.

(** [buf[0] &= 0x7f]. *)
Definition clear_mark (buf : bytes) : bytes :=
  match buf with c :: buf' => c &&& 0x7f :: buf' | [] => [] end.

(** The bytes written at [p]; [buf] has room for ten. *)
Definition putVarint64 (v : Z) : bytes :=
  if negb (v &&& u64 (0xff000000 ≪ 32) =? 0) then put_down 8 (v ≫ 8) [u8 v]
  else reverse (clear_mark (buf_loop 10 v)).

Definition sqlite3PutVarint (v : Z) : bytes :=
  if v <=? 0x7f then [v &&& 0x7f]
  else if v <=? 0x3fff then [((v ≫ 7) &&& 0x7f) ||| 0x80; v &&& 0x7f]
  else putVarint64 v.

Fixpoint len_loop (fuel : nat) (v : Z) (i : Z) : Z :=
  match fuel with
  | O => i
  | S fuel' =>
      let i := i + 1 in
      let v := v ≫ 7 in
      if negb (v =? 0) && (i <? 9) then len_loop fuel' v i else i
  end.

Definition sqlite3VarintLen (v : Z) : Z := len_loop 10 v 0.

(** ** Reading *)

Definition SLOT_2_0 : Z := 0x001fc07f.
Definition SLOT_4_2_0 : Z := 0xf01fc07f.

(** [(u64)s << 32 | a]. *)
Definition join (s a : Z) : Z := u64 (s ≪ 32) ||| a.

(** [sqlite3GetVarint] from the fifth byte on, with the registers after four
    bytes: [a] masked, [b] not. *)
Definition getVarint_long (p : bytes) (a b : Z) : res (Z * Z) :=
  let b := b &&& SLOT_2_0 in
  let s := a in
  p4 ← byte_of p 4;
  let a := u32 (a ≪ 14) in
  let a := a ||| p4 in
  if a &&& 0x80 =? 0 then
    let b := u32 (b ≪ 7) in
    let a := a ||| b in
    let s := s ≫ 18 in
    Ok (5, join s a)
  else
  let s := u32 (s ≪ 7) in
  let s := s ||| b in
  p5 ← byte_of p 5;
  let b := u32 (b ≪ 14) in
  let b := b ||| p5 in
  if b &&& 0x80 =? 0 then
    let a := a &&& SLOT_2_0 in
    let a := u32 (a ≪ 7) in
    let a := a ||| b in
    let s := s ≫ 18 in
    Ok (6, join s a)
  else
  p6 ← byte_of p 6;
  let a := u32 (a ≪ 14) in
  let a := a ||| p6 in
  if a &&& 0x80 =? 0 then
    let a := a &&& SLOT_4_2_0 in
    let b := b &&& SLOT_2_0 in
    let b := u32 (b ≪ 7) in
    let a := a ||| b in
    let s := s ≫ 11 in
    Ok (7, join s a)
  else
  let a := a &&& SLOT_2_0 in
  p7 ← byte_of p 7;
  let b := u32 (b ≪ 14) in
  let b := b ||| p7 in
  if b &&& 0x80 =? 0 then
    let b := b &&& SLOT_4_2_0 in
    let a := u32 (a ≪ 7) in
    let a := a ||| b in
    let s := s ≫ 4 in
    Ok (8, join s a)
  else
  p8 ← byte_of p 8;
  let a := u32 (a ≪ 15) in
  let a := a ||| p8 in
  let b := b &&& SLOT_2_0 in
  let b := u32 (b ≪ 8) in
  let a := a ||| b in
  let s := u32 (s ≪ 4) in
  let b := p4 in
  let b := b &&& 0x7f in
  let b := b ≫ 3 in
  let s := s ||| b in
  Ok (9, join s a).

(** The number of bytes read and the value. *)
Definition sqlite3GetVarint (p : bytes) : res (Z * Z) :=
  a ← byte_of p 0;
  if a &&& 0x80 =? 0 then Ok (1, a) else
  b ← byte_of p 1;
  if b &&& 0x80 =? 0 then
    let a := a &&& 0x7f in
    let a := u32 (a ≪ 7) in
    Ok (2, a ||| b)
  else
  p2 ← byte_of p 2;
  let a := u32 (a ≪ 14) in
  let a := a ||| p2 in
  if a &&& 0x80 =? 0 then
    let a := a &&& SLOT_2_0 in
    let b := b &&& 0x7f in
    let b := u32 (b ≪ 7) in
    Ok (3, a ||| b)
  else
  let a := a &&& SLOT_2_0 in
  p3 ← byte_of p 3;
  let b := u32 (b ≪ 14) in
  let b := b ||| p3 in
  if b &&& 0x80 =? 0 then
    let b := b &&& SLOT_2_0 in
    let a := u32 (a ≪ 7) in
    Ok (4, a ||| b)
  else
  getVarint_long p a b.

Definition SQLITE_MAX_U32 : Z := 2 ^ 32 - 1.

(** The macro [getVarint32] with the function behind it. *)
Definition sqlite3GetVarint32 (p : bytes) : res (Z * Z) :=
  a ← byte_of p 0;
  b ← byte_of p 1;
  if b &&& 0x80 =? 0 then
    let a := a &&& 0x7f in
    let a := u32 (a ≪ 7) in
    Ok (2, a ||| b)
  else
  p2 ← byte_of p 2;
  let a := u32 (a ≪ 14) in
  let a := a ||| p2 in
  if a &&& 0x80 =? 0 then
    let a := a &&& ((0x7f ≪ 14) ||| 0x7f) in
    let b := b &&& 0x7f in
    let b := u32 (b ≪ 7) in
    Ok (3, a ||| b)
  else
  '(n, v64) ← sqlite3GetVarint p;
  if negb (v64 &&& SQLITE_MAX_U32 =? v64) then Ok (n, 0xffffffff) else Ok (n, u32 v64).

Definition getVarint32 (p : bytes) : res (Z * Z) :=
  a ← byte_of p 0;
  if a <? 0x80 then Ok (1, a) else sqlite3GetVarint32 p.

(** Four-byte big-endian integers. *)
Definition sqlite3Get4byte (p : bytes) : res Z :=
  p0 ← byte_of p 0; p1 ← byte_of p 1; p2 ← byte_of p 2; p3 ← byte_of p 3;
  Ok (u32 (p0 ≪ 24) ||| (p1 ≪ 16) ||| (p2 ≪ 8) ||| p3).

Definition sqlite3Put4byte (v : Z) : bytes := [u8 (v ≫ 24); u8 (v ≫ 16); u8 (v ≫ 8); u8 v].

(** ** The reference reader *)

(** At byte [i] with the bits read so far. *)
Fixpoint varint_ref (i : nat) (acc : Z) (p : bytes) : res (Z * Z) :=
  match p with
  | [] => Err Undefined
  | b :: p' =>
      if decide (i = 8%nat) then Ok (9, acc * 256 + b)
      else if b <? 128 then Ok (Z.of_nat i + 1, acc * 128 + b)
      else varint_ref (S i) (acc * 128 + (b - 128)) p'
  end.

(** ** Arithmetic in base 128 *)

Lemma digit_bit a A i :
  0 <= a < 128 -> 0 <= i -> Z.testbit (a + 128 * A) i = if decide (i < 7) then Z.testbit a i else Z.testbit A (i - 7).
Proof.
  intros Ha Hi. change 128 with (2 ^ 7) in *. destruct (decide (i < 7)).
  - rewrite <- (Z.mod_pow2_bits_low (a + 2 ^ 7 * A) 7) by lia.
    rewrite Z.mul_comm, Z.mod_add, Z.mod_small by lia. done.
  - replace i with (i - 7 + 7) at 1 by lia. rewrite <- Z.div_pow2_bits by lia.
    rewrite Z.mul_comm, Z.div_add, Z.div_small by lia. f_equal.
Qed.

Lemma digit_land_range a b : 0 <= a < 128 -> 0 <= b < 128 -> 0 <= a &&& b < 128.
Proof.
  intros Ha Hb. split; [apply Z.land_nonneg; lia|]. change 128 with (2 ^ 7) in *.
  destruct (decide (a &&& b = 0)) as [->|Hne]; [lia|].
  assert (0 < a &&& b) by (pose proof (Z.land_nonneg a b); lia).
  apply Z.log2_lt_pow2; [done|]. pose proof (Z.log2_land a b ltac:(lia) ltac:(lia)).
  assert (0 < a) by (destruct (decide (a = 0)) as [->|]; [by rewrite Z.land_0_l in Hne|lia]).
  pose proof (proj1 (Z.log2_lt_pow2 a 7 ltac:(lia)) ltac:(lia)). lia.
Qed.

Lemma digit_lor_range a b : 0 <= a < 128 -> 0 <= b < 128 -> 0 <= a ||| b < 128.
Proof.
  intros Ha Hb. split; [apply Z.lor_nonneg; lia|]. change 128 with (2 ^ 7) in *.
  destruct (decide (a ||| b = 0)) as [->|Hne]; [lia|].
  apply Z.log2_lt_pow2; [pose proof (proj2 (Z.lor_nonneg a b)); lia|].
  rewrite Z.log2_lor by lia. apply Z.max_lub_lt.
  - destruct (decide (a = 0)) as [->|]; [done|]. apply Z.log2_lt_pow2; lia.
  - destruct (decide (b = 0)) as [->|]; [done|]. apply Z.log2_lt_pow2; lia.
Qed.

(** Digit by digit. *)
Lemma land_h a b A B :
  0 <= a < 128 -> 0 <= b < 128 -> (a + 128 * A) &&& (b + 128 * B) = (a &&& b) + 128 * (A &&& B).
Proof.
  intros Ha Hb. apply Z.bits_inj'. intros i Hi.
  rewrite Z.land_spec, !digit_bit by (try apply digit_land_range; done).
  destruct (decide (i < 7)); by rewrite Z.land_spec.
Qed.

Lemma lor_h a b A B :
  0 <= a < 128 -> 0 <= b < 128 -> (a + 128 * A) ||| (b + 128 * B) = (a ||| b) + 128 * (A ||| B).
Proof.
  intros Ha Hb. apply Z.bits_inj'. intros i Hi.
  rewrite Z.lor_spec, !digit_bit by (try apply digit_lor_range; done).
  destruct (decide (i < 7)); by rewrite Z.lor_spec.
Qed.

Lemma land_127 a : 0 <= a -> a &&& 127 = a mod 128.
Proof. intros. change 127 with (Z.ones 7). by rewrite Z.land_ones by lia. Qed.

(** The continuation mark of the low byte. *)
Lemma flag_test h b : 0 <= b < 256 -> ((h * 256 + b) &&& 0x80 =? 0) = (b <? 128).
Proof.
  intros Hb. replace (h * 256 + b) with (b mod 128 + 128 * (b / 128 + 2 * h)) by dlia.
  pose proof (land_h (b mod 128) 0 (b / 128 + 2 * h) 1 ltac:(dlia) ltac:(lia)) as E.
  change (0 + 128 * 1) with 128 in E. rewrite E, Z.land_0_r. change 1 with (Z.ones 1) at 1. rewrite Z.land_ones by lia.
  change (2 ^ 1) with 2. destruct (Z.ltb_spec b 128).
  - apply Z.eqb_eq. dlia.
  - apply Z.eqb_neq. dlia.
Qed.

Lemma mask_2_0 h l : 0 <= h -> 0 <= l < 2 ^ 14 -> (h * 2 ^ 14 + l) &&& SLOT_2_0 = (h mod 128) * 2 ^ 14 + l mod 128.
Proof.
  intros Hh Hl. replace (h * 2 ^ 14 + l) with (l mod 128 + 128 * (l / 128 + 128 * h)) by dlia.
  change SLOT_2_0 with (127 + 128 * (0 + 128 * 127)). rewrite !land_h by dlia.
  rewrite Z.land_0_r, !land_127 by dlia. rewrite Z.mod_mod by lia. lia.
Qed.

Lemma mask_4_2_0 g h l :
  0 <= g < 16 -> 0 <= h < 2 ^ 14 -> 0 <= l < 2 ^ 14 ->
  (g * 2 ^ 28 + h * 2 ^ 14 + l) &&& SLOT_4_2_0 = g * 2 ^ 28 + (h mod 128) * 2 ^ 14 + l mod 128.
Proof.
  intros Hg Hh Hl.
  replace (g * 2 ^ 28 + h * 2 ^ 14 + l) with (l mod 128 + 128 * (l / 128 + 128 * (h mod 128 + 128 * (h / 128 + 128 * g)))) by dlia.
  change SLOT_4_2_0 with (127 + 128 * (0 + 128 * (127 + 128 * (0 + 128 * 15)))). rewrite !land_h by dlia.
  rewrite !Z.land_0_r, !land_127 by dlia. rewrite !Z.mod_mod by lia.
  change 15 with (Z.ones 4). rewrite Z.land_ones, (Z.mod_small g) by (pow2; lia). lia.
Qed.

(** Two interleaved numbers. *)
Lemma interleave a0 a1 a2 b0 b1 :
  0 <= a0 < 128 -> 0 <= a1 < 128 -> 0 <= b0 < 128 -> 0 <= b1 < 128 -> 0 <= a2 ->
  (a2 * 2 ^ 28 + a1 * 2 ^ 14 + a0) ||| (b1 * 2 ^ 21 + b0 * 2 ^ 7) =
  a2 * 2 ^ 28 + b1 * 2 ^ 21 + a1 * 2 ^ 14 + b0 * 2 ^ 7 + a0.
Proof.
  intros. replace (a2 * 2 ^ 28 + a1 * 2 ^ 14 + a0) with (a0 + 128 * (0 + 128 * (a1 + 128 * (0 + 128 * a2)))) by lia.
  replace (b1 * 2 ^ 21 + b0 * 2 ^ 7) with (0 + 128 * (b0 + 128 * (0 + 128 * (b1 + 128 * 0)))) by lia.
  rewrite !lor_h by lia. rewrite !Z.lor_0_l, !Z.lor_0_r. lia.
Qed.

Lemma shl_or a p n : 0 <= a -> 8 <= n <= 32 -> 0 <= p < 256 -> u32 (a ≪ n) ||| p = u32 (a * 2 ^ n) + p.
Proof.
  intros Ha Hn Hp. rewrite Z.shiftl_mul_pow2 by lia. apply (lor_add_low n); [lia| |].
  - unfold wrap. replace (2 ^ 32) with (2 ^ (32 - n) * 2 ^ n) by (rewrite <- Z.pow_add_r by lia; f_equal; lia).
    rewrite Z.mul_mod_distr_r by lia. apply Z.mod_mul. lia.
  - assert (2 ^ 8 <= 2 ^ n) by (apply Z.pow_le_mono_r; lia). lia.
Qed.

Lemma join_sum s a : 0 <= s < 2 ^ 32 -> 0 <= a < 2 ^ 32 -> join s a = s * 2 ^ 32 + a.
Proof.
  intros Hs Ha. unfold join. rewrite Z.shiftl_mul_pow2, wrap_small by (lia || clia).
  apply (lor_add_low 32); [lia|by apply Z.mod_mul|done].
Qed.

(** ** The registers of [sqlite3GetVarint]

    Digits are below 128, bytes below 256. *)

Definition digit (x : Z) : Prop := 0 <= x < 128.

Lemma reg_shift2 p q : is_byte p -> is_byte q -> u32 (p ≪ 14) ||| q = p * 2 ^ 14 + q.
Proof. intros Hp Hq. rewrite shl_or by clia. rewrite wrap_small by clia. done. Qed.

Lemma reg_mask2 h p : 0 <= h -> is_byte p -> (h * 2 ^ 14 + p) &&& SLOT_2_0 = (h mod 128) * 2 ^ 14 + p mod 128.
Proof. intros Hh Hp. apply mask_2_0; [done|clia]. Qed.

Lemma reg_mask3 g y p :
  0 <= g -> 0 <= y -> is_byte p -> (g * 2 ^ 28 + y * 2 ^ 14 + p) &&& SLOT_2_0 = (y mod 128) * 2 ^ 14 + p mod 128.
Proof.
  intros Hg Hy Hp. replace (g * 2 ^ 28 + y * 2 ^ 14 + p) with ((g * 2 ^ 14 + y) * 2 ^ 14 + p) by lia.
  rewrite reg_mask2 by (done || lia). f_equal. dlia.
Qed.

Lemma reg_shift3 g y p q :
  0 <= g -> digit y -> is_byte p -> is_byte q ->
  u32 ((g * 2 ^ 28 + y * 2 ^ 14 + p) ≪ 14) ||| q = (y mod 16) * 2 ^ 28 + p * 2 ^ 14 + q.
Proof.
  intros Hg Hy Hp Hq. unfold digit in *. rewrite shl_or by clia. unfold wrap, is_byte in *. f_equal.
  replace ((g * 2 ^ 28 + y * 2 ^ 14 + p) * 2 ^ 14) with ((y mod 16) * 2 ^ 28 + p * 2 ^ 14 + (g * 2 ^ 10 + y / 16) * 2 ^ 32) by dlia.
  rewrite Z.mod_add by lia. apply Z.mod_small. dlia.
Qed.

Lemma reg_shl7 x y : digit x -> digit y -> u32 ((x * 2 ^ 14 + y) ≪ 7) = x * 2 ^ 21 + y * 2 ^ 7.
Proof.
  intros Hx Hy. unfold digit in *. rewrite Z.shiftl_mul_pow2 by lia. rewrite wrap_small by clia. lia.
Qed.

Lemma interleave' a0 a1 a2 b0 b1 :
  digit a0 -> digit a1 -> digit b0 -> digit b1 -> 0 <= a2 ->
  (b1 * 2 ^ 21 + b0 * 2 ^ 7) ||| (a2 * 2 ^ 28 + a1 * 2 ^ 14 + a0) =
  a2 * 2 ^ 28 + b1 * 2 ^ 21 + a1 * 2 ^ 14 + b0 * 2 ^ 7 + a0.
Proof. intros. rewrite Z.lor_comm. by apply interleave. Qed.

Lemma flag2 p q : is_byte q -> ((p * 2 ^ 14 + q) &&& 0x80 =? 0) = (q <? 128).
Proof. intros Hq. replace (p * 2 ^ 14 + q) with (p * 64 * 256 + q) by lia. by apply flag_test. Qed.

Lemma flag3 g p q : is_byte q -> ((g * 2 ^ 28 + p * 2 ^ 14 + q) &&& 0x80 =? 0) = (q <? 128).
Proof. intros Hq. replace (g * 2 ^ 28 + p * 2 ^ 14 + q) with ((g * 2 ^ 14 + p) * 64 * 256 + q) by lia. by apply flag_test. Qed.

Lemma flag1 q : is_byte q -> (q &&& 0x80 =? 0) = (q <? 128).
Proof. intros Hq. exact (flag_test 0 q Hq). Qed.

(** The last word of the nine-byte case. *)
Lemma last_word x4 x5 x6 x7 p8 :
  digit x4 -> digit x5 -> digit x6 -> digit x7 -> is_byte p8 ->
  u32 ((x4 * 2 ^ 14 + x6) ≪ 15) ||| p8 ||| u32 ((x5 * 2 ^ 14 + x7) ≪ 8) =
  (x4 mod 8) * 2 ^ 29 + x5 * 2 ^ 22 + x6 * 2 ^ 15 + x7 * 2 ^ 8 + p8.
Proof.
  unfold digit, is_byte. intros H4 H5 H6 H7 H8.
  assert (u32 ((x4 * 2 ^ 14 + x6) ≪ 15) = ((x4 mod 8) * 2 ^ 21 + x6 * 2 ^ 7) ≪ 8) as ->.
  { rewrite !Z.shiftl_mul_pow2 by lia. unfold wrap.
    replace ((x4 * 2 ^ 14 + x6) * 2 ^ 15) with (((x4 mod 8) * 2 ^ 21 + x6 * 2 ^ 7) * 2 ^ 8 + (x4 / 8) * 2 ^ 32) by dlia.
    rewrite Z.mod_add by lia. apply Z.mod_small. dlia. }
  assert (u32 ((x5 * 2 ^ 14 + x7) ≪ 8) = (0 * 2 ^ 28 + x5 * 2 ^ 14 + x7) ≪ 8) as ->.
  { rewrite !Z.shiftl_mul_pow2 by lia. rewrite wrap_small by clia. lia. }
  rewrite <- Z.lor_assoc, (Z.lor_comm p8), Z.lor_assoc, <- Z.shiftl_lor.
  rewrite interleave' by (unfold digit; dlia). rewrite Z.shiftl_mul_pow2 by lia.
  rewrite (lor_add_low 8) by (lia || apply Z.mod_mul; lia). lia.
Qed.

Lemma byte_digit p : is_byte p -> 128 <= p -> digit (p - 128) /\ p mod 128 = p - 128.
Proof. unfold is_byte, digit. intros. split; [lia|dlia]. Qed.

Lemma low_digit p : is_byte p -> p < 128 -> digit p /\ p mod 128 = p.
Proof. unfold is_byte, digit. intros. split; [lia|dlia]. Qed.

(** Take the next byte of the input and read it. *)
Ltac next_byte q B :=
  match goal with
  | H : Forall is_byte ?l |- _ =>
      destruct l as [|q l]; [done|]; apply Forall_cons_1 in H as [B H];
      match goal with |- context [byte_of ?p ?i] => change (byte_of p i) with (Ok q) end;
      cbn [mbind res_bind varint_ref]; cbv zeta; rewrite decide_False by done
  end.

(** A value below 128 ends the integer. *)
Ltac done_with := do 2 f_equal; lia.

(** The high word [s] and the low word [a] of the value, by the bytes that are left. *)
Lemma word5 x0 x1 x2 x3 p4 :
  digit x0 -> digit x1 -> digit x2 -> digit x3 -> digit p4 ->
  join ((x0 * 2 ^ 14 + x2) ≫ 18) (((x0 mod 16) * 2 ^ 28 + x2 * 2 ^ 14 + p4) ||| u32 ((x1 * 2 ^ 14 + x3) ≪ 7)) =
  (x0 * 2 ^ 21 + x1 * 2 ^ 14 + x2 * 2 ^ 7 + x3) * 128 + p4.
Proof.
  intros D0 D1 D2 D3 D4. rewrite reg_shl7, interleave by (done || (unfold digit in *; dlia)).
  unfold digit in *. rewrite Z.shiftr_div_pow2, join_sum by dlia. dlia.
Qed.

Definition high4 (x0 x1 x2 x3 : Z) : Z := x0 * 2 ^ 21 + x1 * 2 ^ 14 + x2 * 2 ^ 7 + x3.

Lemma word6 x0 x1 x2 x3 x4 p5 :
  digit x0 -> digit x1 -> digit x2 -> digit x3 -> digit x4 -> digit p5 ->
  join (high4 x0 x1 x2 x3 ≫ 18) (u32 ((x2 * 2 ^ 14 + x4) ≪ 7) ||| ((x1 mod 16) * 2 ^ 28 + x3 * 2 ^ 14 + p5)) =
  high4 x0 x1 x2 x3 * 2 ^ 14 + x4 * 128 + p5.
Proof.
  intros. unfold high4. rewrite reg_shl7, interleave' by (done || (unfold digit in *; dlia)).
  unfold digit in *. rewrite Z.shiftr_div_pow2, join_sum by dlia. dlia.
Qed.

Lemma word7 x0 x1 x2 x3 x4 x5 p6 :
  digit x0 -> digit x1 -> digit x2 -> digit x3 -> digit x4 -> digit x5 -> digit p6 ->
  join (high4 x0 x1 x2 x3 ≫ 11) (((x2 mod 16) * 2 ^ 28 + x4 * 2 ^ 14 + p6) ||| u32 ((x3 * 2 ^ 14 + x5) ≪ 7)) =
  high4 x0 x1 x2 x3 * 2 ^ 21 + x4 * 2 ^ 14 + x5 * 128 + p6.
Proof.
  intros. unfold high4. rewrite reg_shl7, interleave by (done || (unfold digit in *; dlia)).
  unfold digit in *. rewrite Z.shiftr_div_pow2, join_sum by dlia. dlia.
Qed.

Lemma word8 x0 x1 x2 x3 x4 x5 x6 p7 :
  digit x0 -> digit x1 -> digit x2 -> digit x3 -> digit x4 -> digit x5 -> digit x6 -> digit p7 ->
  join (high4 x0 x1 x2 x3 ≫ 4) (u32 ((x4 * 2 ^ 14 + x6) ≪ 7) ||| ((x3 mod 16) * 2 ^ 28 + x5 * 2 ^ 14 + p7)) =
  high4 x0 x1 x2 x3 * 2 ^ 28 + x4 * 2 ^ 21 + x5 * 2 ^ 14 + x6 * 128 + p7.
Proof.
  intros. unfold high4. rewrite reg_shl7, interleave' by (done || (unfold digit in *; dlia)).
  unfold digit in *. rewrite Z.shiftr_div_pow2, join_sum by dlia. dlia.
Qed.

Lemma word9 x0 x1 x2 x3 x4 x5 x6 x7 p8 :
  digit x0 -> digit x1 -> digit x2 -> digit x3 -> digit x4 -> digit x5 -> digit x6 -> digit x7 -> is_byte p8 ->
  join (u32 (high4 x0 x1 x2 x3 ≪ 4) ||| (x4 ≫ 3))
    (u32 ((x4 * 2 ^ 14 + x6) ≪ 15) ||| p8 ||| u32 ((x5 * 2 ^ 14 + x7) ≪ 8)) =
  (high4 x0 x1 x2 x3 * 2 ^ 28 + x4 * 2 ^ 21 + x5 * 2 ^ 14 + x6 * 128 + x7) * 256 + p8.
Proof.
  intros D0 D1 D2 D3 D4 D5 D6 D7 B8. rewrite last_word by done. unfold high4, digit, is_byte in *.
  rewrite Z.shiftl_mul_pow2, Z.shiftr_div_pow2, wrap_small by (lia || clia).
  rewrite (lor_add_low 4) by (lia || (apply Z.mod_mul; lia) || dlia). rewrite join_sum by dlia. dlia.
Qed.

Lemma getVarint_long_ref x0 x1 x2 x3 p0 p1 p2 p3 p :
  digit x0 -> digit x1 -> digit x2 -> digit x3 -> Forall is_byte p ->
  getVarint_long (p0 :: p1 :: p2 :: p3 :: p) (x0 * 2 ^ 14 + x2) ((x1 + 128) * 2 ^ 14 + (x3 + 128)) =
  varint_ref 4 (high4 x0 x1 x2 x3) p.
Proof.
  intros D0 D1 D2 D3 H. unfold getVarint_long.
  rewrite (reg_mask2 (x1 + 128) (x3 + 128)) by (unfold digit in *; clia).
  replace ((x1 + 128) mod 128) with x1 by (unfold digit in *; dlia).
  replace ((x3 + 128) mod 128) with x3 by (unfold digit in *; dlia).
  assert (forall x y q, digit x -> digit y -> is_byte q ->
    u32 ((x * 2 ^ 14 + y) ≪ 14) ||| q = (x mod 16) * 2 ^ 28 + y * 2 ^ 14 + q) as Hshift.
  { intros x y q Hx Hy Hq. rewrite <- (reg_shift3 0 x y q) by (done || (unfold digit in *; clia)). do 3 f_equal. }
  next_byte p4 B4. rewrite Hshift, flag3 by done.
  destruct (Z.ltb_spec p4 128) as [L4|G4].
  { rewrite word5 by (done || by apply low_digit). done. }
  destruct (byte_digit p4 B4 G4) as [D4 M4].
  assert (u32 ((x0 * 2 ^ 14 + x2) ≪ 7) ||| (x1 * 2 ^ 14 + x3) = high4 x0 x1 x2 x3) as ->.
  { rewrite reg_shl7 by done. pose proof (interleave' x3 x1 0 x2 x0 D3 D1 D2 D0 ltac:(lia)) as E.
    rewrite Z.mul_0_l, Z.add_0_l in E. rewrite E. unfold high4. lia. }
  next_byte p5 B5. rewrite Hshift, flag3 by done.
  rewrite (reg_mask3 (x0 mod 16) x2 p4), (Z.mod_small x2 128), M4 by (unfold digit in *; dlia).
  destruct (Z.ltb_spec p5 128) as [L5|G5].
  { rewrite word6 by (done || by apply low_digit). do 2 f_equal. lia. }
  destruct (byte_digit p5 B5 G5) as [D5 M5].
  rewrite (reg_mask3 (x1 mod 16) x3 p5), (Z.mod_small x3 128), M5 by (unfold digit in *; dlia).
  next_byte p6 B6. rewrite reg_shift3, flag3 by (done || (unfold digit in *; dlia)).
  destruct (Z.ltb_spec p6 128) as [L6|G6].
  { destruct (low_digit p6 B6 L6) as [D6 M6]. rewrite mask_4_2_0, M4, M6 by (unfold digit in *; dlia).
    rewrite word7 by done. do 2 f_equal. lia. }
  destruct (byte_digit p6 B6 G6) as [D6 M6].
  rewrite (reg_mask3 (x2 mod 16) p4 p6), M4, M6 by (unfold digit in *; dlia).
  next_byte p7 B7. rewrite reg_shift3, flag3 by (done || (unfold digit in *; dlia)).
  destruct (Z.ltb_spec p7 128) as [L7|G7].
  { destruct (low_digit p7 B7 L7) as [D7 M7]. rewrite mask_4_2_0, M5, M7 by (unfold digit in *; dlia).
    rewrite word8 by done. do 2 f_equal. lia. }
  destruct (byte_digit p7 B7 G7) as [D7 M7].
  destruct p as [|p8 p]; [done|]. apply Forall_cons_1 in H as [B8 H].
  change (byte_of (p0 :: p1 :: p2 :: p3 :: p4 :: p5 :: p6 :: p7 :: p8 :: p) 8) with (Ok p8). cbn [mbind res_bind varint_ref].
  rewrite decide_True by done. cbv zeta. rewrite (land_127 p4), M4 by clia.
  rewrite (reg_mask3 (x3 mod 16) p5 p7), M5, M7 by (unfold digit in *; dlia).
  rewrite word9 by done. do 2 f_equal. lia.
Qed.

Lemma sqlite3GetVarint_ref p : Forall is_byte p -> sqlite3GetVarint p = varint_ref 0 0 p.
Proof.
  intros H. unfold sqlite3GetVarint.
  next_byte p0 B0. rewrite flag1 by done.
  destruct (Z.ltb_spec p0 128) as [L0|G0]; [done|].
  next_byte p1 B1. rewrite flag1 by done.
  destruct (byte_digit p0 B0 G0) as [D0 M0].
  destruct (Z.ltb_spec p1 128) as [L1|G1].
  { rewrite land_127, M0 by clia. unfold digit in *. rewrite Z.shiftl_mul_pow2, wrap_small by (lia || clia).
    rewrite (lor_add_low 7) by (lia || clia || (apply Z.mod_mul; lia)). done_with. }
  next_byte p2 B2. rewrite reg_shift2, flag2, reg_mask2, M0 by (done || clia).
  destruct (byte_digit p1 B1 G1) as [D1 M1].
  destruct (Z.ltb_spec p2 128) as [L2|G2].
  { destruct (low_digit p2 B2 L2) as [D2 M2]. rewrite land_127, M1, M2 by clia.
    unfold digit in *. rewrite Z.shiftl_mul_pow2, wrap_small by (lia || clia).
    pose proof (interleave p2 (p0 - 128) 0 (p1 - 128) 0 D2 D0 D1 ltac:(lia) ltac:(lia)) as E.
    rewrite !Z.mul_0_l, !Z.add_0_l in E. rewrite E. done_with. }
  destruct (byte_digit p2 B2 G2) as [D2 M2]. rewrite M2.
  next_byte p3 B3. rewrite reg_shift2, flag2 by done.
  destruct (Z.ltb_spec p3 128) as [L3|G3].
  { destruct (low_digit p3 B3 L3) as [D3 M3]. rewrite reg_mask2, M1, M3, reg_shl7 by (done || clia).
    pose proof (interleave' p3 (p1 - 128) 0 (p2 - 128) (p0 - 128) D3 D1 D2 D0 ltac:(lia)) as E.
    rewrite Z.mul_0_l, Z.add_0_l in E. rewrite E. done_with. }
  destruct (byte_digit p3 B3 G3) as [D3 M3].
  replace (p1 * 2 ^ 14 + p3) with ((p1 - 128 + 128) * 2 ^ 14 + (p3 - 128 + 128)) by lia.
  rewrite getVarint_long_ref by done. unfold high4. f_equal. lia.
Qed.

(** ** Writing and reading back *)

Definition push_digit (acc d : Z) : Z := acc * 128 + d.
Definition mark (d : Z) : Z := d + 128.

(** Marked digits are read one after the other. *)
Lemma varint_ref_marked ds : forall i acc rest,
  Forall digit ds -> (i + length ds <= 8)%nat ->
  varint_ref i acc ((mark <$> ds) ++ rest) = varint_ref (i + length ds) (foldl push_digit acc ds) rest.
Proof.
  induction ds as [|d ds IH]; intros i acc rest Hd Hi; cbn [length] in *.
  { by rewrite Nat.add_0_r. }
  apply Forall_cons_1 in Hd as [Hd Hds]. unfold digit in Hd. cbn [fmap list_fmap app varint_ref foldl].
  rewrite decide_False by lia. unfold mark at 1. rewrite (proj2 (Z.ltb_ge _ _)) by lia.
  change (list_fmap Z Z mark ds) with (mark <$> ds). rewrite IH by (done || lia).
  f_equal; [lia|]. f_equal. unfold push_digit, mark. lia.
Qed.

Lemma varint_ref_last i acc d rest :
  (i < 8)%nat -> digit d -> varint_ref i acc (d :: rest) = Ok (Z.of_nat i + 1, push_digit acc d).
Proof.
  intros Hi [_ Hd]. cbn. rewrite decide_False by lia. by rewrite (proj2 (Z.ltb_lt _ _)) by done.
Qed.

Lemma mark_byte v : u8 ((v &&& 0x7f) ||| 0x80) = mark (v mod 128).
Proof.
  change 0x7f with (Z.ones 7). rewrite Z.land_ones by lia. change (2 ^ 7) with 128.
  rewrite Z.lor_comm, (lor_add_low 7 128) by (done || dlia). unfold mark. rewrite wrap_small by dlia. lia.
Qed.

(** The digits of a value, the lowest first. *)
Fixpoint digits_of (fuel : nat) (v : Z) : list Z :=
  match fuel with
  | O => []
  | S fuel' => v mod 128 :: (if v / 128 =? 0 then [] else digits_of fuel' (v / 128))
  end.

Lemma buf_loop_digits fuel : forall v, buf_loop fuel v = mark <$> digits_of fuel v.
Proof.
  induction fuel as [|fuel IH]; intros v; [done|]. cbn [buf_loop digits_of fmap list_fmap].
  rewrite mark_byte, Z.shiftr_div_pow2 by lia. change (2 ^ 7) with 128.
  destruct (v / 128 =? 0); cbn [negb]; [done|]. by rewrite IH.
Qed.

Lemma digits_of_digits fuel : forall v, Forall digit (digits_of fuel v).
Proof.
  induction fuel as [|fuel IH]; intros v; [constructor|]. cbn. constructor; [unfold digit; dlia|].
  destruct (_ =? 0); [constructor|apply IH].
Qed.

Lemma digits_of_value fuel : forall v,
  0 <= v < 128 ^ Z.of_nat fuel -> foldl push_digit 0 (reverse (digits_of fuel v)) = v.
Proof.
  induction fuel as [|fuel IH]; intros v Hv; [cbn in *; lia|].
  rewrite Nat2Z.inj_succ, Z.pow_succ_r in Hv by lia. cbn [digits_of]. rewrite reverse_cons, foldl_app. cbn [foldl].
  destruct (Z.eqb_spec (v / 128) 0) as [E|E].
  - cbn. unfold push_digit. dlia.
  - rewrite IH by (split; [dlia|apply Z.div_lt_upper_bound; lia]). unfold push_digit. dlia.
Qed.

Lemma digits_of_length fuel : forall v n,
  0 <= v < 128 ^ Z.of_nat n -> (0 < n)%nat -> (length (digits_of fuel v) <= n)%nat.
Proof.
  induction fuel as [|fuel IH]; intros v n Hv Hn; [cbn; lia|]. cbn [digits_of length].
  destruct (Z.eqb_spec (v / 128) 0) as [E|E]; [cbn; lia|].
  destruct n as [|[|n]]; [lia|exfalso; cbn in Hv; dlia|].
  rewrite Nat2Z.inj_succ, Z.pow_succ_r in Hv by lia.
  specialize (IH (v / 128) (S n)). apply le_n_S, IH; [|lia]. split; [dlia|apply Z.div_lt_upper_bound; lia].
Qed.

Lemma reverse_clear ds d : reverse (clear_mark (mark <$> (d :: ds))) = (mark <$> reverse ds) ++ [mark d &&& 0x7f].
Proof. change (clear_mark (mark <$> d :: ds)) with (mark d &&& 0x7f :: (mark <$> ds)). by rewrite reverse_cons, fmap_reverse. Qed.

Lemma unmark d : digit d -> mark d &&& 0x7f = d.
Proof. intros Hd. unfold digit, mark in *. rewrite land_127 by lia. dlia. Qed.

(** Reading what the loop of [putVarint64] writes. *)
Lemma read_digits v rest :
  0 <= v < 2 ^ 56 ->
  let ds := digits_of 10 v in
  varint_ref 0 0 (reverse (clear_mark (buf_loop 10 v)) ++ rest) = Ok (Z.of_nat (length ds), v).
Proof.
  intros Hv ds. rewrite buf_loop_digits. fold ds.
  assert (length ds <= 8)%nat as Hlen by (apply digits_of_length; [done|lia]).
  pose proof (digits_of_digits 10 v) as Hd. pose proof (digits_of_value 10 v ltac:(clia)) as Hval. fold ds in Hd, Hval.
  assert (0 < length ds)%nat as Hpos by (cbn; lia). clearbody ds.
  destruct ds as [|d ds]; [cbn in Hpos; lia|]. apply Forall_cons_1 in Hd as [Hd Hds].
  rewrite reverse_clear, unmark by done. rewrite <- app_assoc.
  rewrite varint_ref_marked by (try apply Forall_reverse; try rewrite length_reverse; done || (cbn in *; lia)).
  rewrite length_reverse. cbn [app length] in *. rewrite varint_ref_last by (done || lia).
  rewrite reverse_cons, foldl_app in Hval. cbn [foldl] in Hval. rewrite Hval. do 2 f_equal. lia.
Qed.

(** The eight marked digits of the nine-byte form, the highest first. *)
Fixpoint digits_down (n : nat) (v : Z) (after : list Z) : list Z :=
  match n with O => after | S n' => digits_down n' (v / 128) (v mod 128 :: after) end.

Lemma put_down_digits n : forall v ds tail,
  put_down n v ((mark <$> ds) ++ tail) = (mark <$> digits_down n v ds) ++ tail.
Proof.
  induction n as [|n IH]; intros v ds tail; [done|]. cbn [put_down digits_down].
  rewrite mark_byte, Z.shiftr_div_pow2 by lia. exact (IH (v / 128) (v mod 128 :: ds) tail).
Qed.

Lemma digits_down_spec n : forall v ds,
  Forall digit ds -> Forall digit (digits_down n v ds) /\ length (digits_down n v ds) = (n + length ds)%nat.
Proof.
  induction n as [|n IH]; intros v ds Hd; [done|]. cbn [digits_down].
  destruct (IH (v / 128) (v mod 128 :: ds)) as [H1 H2].
  - constructor; [unfold digit; dlia|done].
  - split; [done|]. rewrite H2. cbn. lia.
Qed.

Lemma digits_down_value n : forall v ds,
  0 <= v < 128 ^ Z.of_nat n -> foldl push_digit 0 (digits_down n v ds) = foldl push_digit v ds.
Proof.
  induction n as [|n IH]; intros v ds Hv; [cbn in Hv; by replace v with 0 by lia|].
  rewrite Nat2Z.inj_succ, Z.pow_succ_r in Hv by lia. cbn [digits_down].
  rewrite IH by (split; [dlia|apply Z.div_lt_upper_bound; lia]). cbn [foldl]. f_equal. unfold push_digit. dlia.
Qed.

Lemma read_nine v rest :
  in_u 64 v -> varint_ref 0 0 (put_down 8 (v ≫ 8) [u8 v] ++ rest) = Ok (9, v).
Proof.
  intros Hv. rewrite Z.shiftr_div_pow2 by lia. change (2 ^ 8) with 256.
  change (put_down 8 (v / 256) [u8 v]) with (put_down 8 (v / 256) ((mark <$> []) ++ [u8 v])).
  rewrite put_down_digits, <- app_assoc.
  destruct (digits_down_spec 8 (v / 256) [] ltac:(constructor)) as [Hd Hl].
  rewrite varint_ref_marked by (done || (rewrite Hl; cbn; lia)).
  rewrite Hl, digits_down_value by (change (128 ^ Z.of_nat 8) with (2 ^ 56); dlia). cbn. do 2 f_equal.
  unfold wrap. change (2 ^ 8) with 256. dlia.
Qed.

(** The test for a ninth byte. *)
Lemma big_test v : in_u 64 v -> (v &&& u64 (0xff000000 ≪ 32) =? 0) = (v <? 2 ^ 56).
Proof.
  intros Hv. change (u64 (0xff000000 ≪ 32)) with (Z.ones 8 ≪ 56).
  assert (v &&& (Z.ones 8 ≪ 56) = (v / 2 ^ 56) * 2 ^ 56) as ->.
  { rewrite <- Z.shiftl_mul_pow2 by lia. apply Z.bits_inj'. intros i Hi. rewrite Z.land_spec, !Z.shiftl_spec by lia.
    destruct (decide (i < 56)); [rewrite !(Z.testbit_neg_r _ (i - 56)) by lia; apply andb_false_r|].
    rewrite Z.div_pow2_bits by lia. rewrite Z.sub_add. destruct (decide (i < 64)).
    - rewrite Z.ones_spec_low by lia. apply andb_true_r.
    - rewrite Z.ones_spec_high by lia. rewrite andb_false_r. symmetry.
      rewrite <- (wrap_small 64 v Hv). apply Z.mod_pow2_bits_high. lia. }
  destruct (Z.ltb_spec v (2 ^ 56)); [apply Z.eqb_eq; dlia|apply Z.eqb_neq; dlia].
Qed.

(** The short forms are those of the loop. *)
Lemma put_loop v :
  in_u 64 v -> v < 2 ^ 56 -> sqlite3PutVarint v = reverse (clear_mark (buf_loop 10 v)).
Proof.
  intros Hv H56. unfold sqlite3PutVarint, putVarint64. rewrite big_test by done.
  rewrite (proj2 (Z.ltb_lt _ _) H56). cbn [negb]. rewrite buf_loop_digits. unfold in_u in Hv.
  destruct (Z.leb_spec v 0x7f) as [H1|H1].
  { cbn [digits_of]. replace (v / 128) with 0 by dlia. cbn. rewrite !land_127 by (unfold mark; dlia). f_equal. unfold mark. dlia. }
  destruct (Z.leb_spec v 0x3fff) as [H2|H2]; [|done].
  cbn [digits_of]. destruct (Z.eqb_spec (v / 128) 0) as [|_]; [dlia|]. replace (v / 128 / 128) with 0 by dlia.
  change (0 =? 0) with true. cbv iota. rewrite reverse_clear. cbn.
  rewrite Z.shiftr_div_pow2, !land_127, Z.lor_comm, (lor_add_low 7 128) by (done || unfold mark; dlia).
  change (2 ^ 7) with 128. unfold mark. f_equal; [dlia|]. f_equal. dlia.
Qed.

Lemma len_loop_digits fuel : forall v i,
  0 <= i < 9 -> 9 - i < Z.of_nat fuel -> len_loop fuel v i = Z.min 9 (i + Z.of_nat (length (digits_of fuel v))).
Proof.
  induction fuel as [|fuel IH]; intros v i Hi Hf; [cbn in *; lia|]. cbn [len_loop digits_of].
  rewrite Z.shiftr_div_pow2 by lia. change (2 ^ 7) with 128.
  destruct (Z.eqb_spec (v / 128) 0); cbn [negb andb]; [cbn; lia|].
  destruct (Z.ltb_spec (i + 1) 9).
  - rewrite IH by lia. cbn [length]. lia.
  - cbn [length]. lia.
Qed.

Lemma digits_of_long fuel : forall v n,
  128 ^ Z.of_nat n <= v -> (n < fuel)%nat -> (n < length (digits_of fuel v))%nat.
Proof.
  induction fuel as [|fuel IH]; intros v n Hv Hn; [lia|]. cbn [digits_of length].
  destruct n as [|n]; [lia|]. rewrite Nat2Z.inj_succ, Z.pow_succ_r in Hv by lia.
  assert (1 <= 128 ^ Z.of_nat n) by lia.
  assert (128 ^ Z.of_nat n <= v / 128) as Hq by (apply Z.div_le_lower_bound; lia).
  rewrite (proj2 (Z.eqb_neq _ _)) by lia. specialize (IH (v / 128) n Hq). lia.
Qed.

Lemma marks_bytes ds : Forall digit ds -> Forall is_byte (mark <$> ds).
Proof. intros H. apply Forall_fmap. eapply Forall_impl; [exact H|]. unfold digit, mark, is_byte. cbn. lia. Qed.

Lemma put_nine v : in_u 64 v -> 2 ^ 56 <= v ->
  sqlite3PutVarint v = (mark <$> digits_down 8 (v / 256) []) ++ [u8 v].
Proof.
  intros Hv H56. unfold sqlite3PutVarint, putVarint64. rewrite big_test, !(proj2 (Z.leb_gt _ _)), (proj2 (Z.ltb_ge _ _)) by (done || clia).
  cbn [negb]. rewrite Z.shiftr_div_pow2 by lia. apply (put_down_digits 8 (v / 256) [] [u8 v]).
Qed.

Lemma put_bytes v : in_u 64 v -> Forall is_byte (sqlite3PutVarint v).
Proof.
  intros Hv. destruct (decide (v < 2 ^ 56)) as [H56|H56].
  - rewrite put_loop, buf_loop_digits by done. apply Forall_reverse.
    pose proof (marks_bytes _ (digits_of_digits 10 v)) as H. destruct (mark <$> digits_of 10 v) as [|c l]; [done|].
    apply Forall_cons_1 in H as [Hc Hl]. constructor; [|done]. unfold is_byte in *. rewrite land_127 by lia. dlia.
  - rewrite put_nine by (done || lia). apply Forall_app. split.
    + apply marks_bytes, digits_down_spec. constructor.
    + repeat constructor; apply (wrap_range 8 v); lia.
Qed.

(** ** Theorems *)

(** C40. The unrolled reader agrees with reading byte by byte on every input,
    well-formed or not: the value, the number of bytes, and that it needs no byte
    after the last one. *)
Theorem sqlite3GetVarint_correct (p : bytes) :
  Forall is_byte p -> sqlite3GetVarint p = varint_ref 0 0 p.
Proof. apply sqlite3GetVarint_ref. Qed.

(** Witness of C40: nine bytes. *)
Lemma sqlite3GetVarint_correct_witness :
  sqlite3GetVarint [0xff; 0x80; 0xff; 0x81; 0x82; 0x83; 0xff; 0x84; 0x7f; 0] =
  varint_ref 0 0 [0xff; 0x80; 0xff; 0x81; 0x82; 0x83; 0xff; 0x84; 0x7f; 0].
Proof. apply sqlite3GetVarint_correct. repeat constructor; clia. Defined.

(** Every 64-bit integer written as a varint is read back, whatever follows
    it, and takes as many bytes as [sqlite3VarintLen] says. *)
Theorem varint_roundtrip (v : Z) (rest : bytes) :
  in_u 64 v -> Forall is_byte rest ->
  sqlite3GetVarint (sqlite3PutVarint v ++ rest) = Ok (sqlite3VarintLen v, v) /\
  slen (sqlite3PutVarint v) = sqlite3VarintLen v.
Proof.
  intros Hv Hrest. unfold sqlite3VarintLen. rewrite len_loop_digits by lia. rewrite Z.add_0_l.
  pose proof (put_bytes v Hv) as Hb.
  rewrite sqlite3GetVarint_ref by by apply Forall_app.
  destruct (decide (v < 2 ^ 56)) as [H56|H56].
  - rewrite put_loop by done. rewrite read_digits by clia.
    assert (length (digits_of 10 v) <= 8)%nat as Hlen by (apply digits_of_length; [clia|lia]).
    split; [do 2 f_equal; lia|]. unfold slen. rewrite length_reverse, buf_loop_digits.
    cbn [digits_of fmap list_fmap clear_mark length] in *. rewrite length_fmap. lia.
  - assert (8 < length (digits_of 10 v))%nat as Hlen by (apply digits_of_long; [clia|lia]).
    rewrite Z.min_l by lia. split.
    + rewrite put_nine by (done || lia). rewrite <- (read_nine v rest Hv). f_equal. f_equal.
      rewrite Z.shiftr_div_pow2 by lia. symmetry. apply (put_down_digits 8 (v / 256) [] [u8 v]).
    + rewrite put_nine by (done || lia). unfold slen. rewrite length_app, length_fmap.
      destruct (digits_down_spec 8 (v / 256) [] ltac:(constructor)) as [_ ->]. done.
Qed.

(** Example: the largest value and a small one. *)
Lemma varint_roundtrip_witness :
  sqlite3GetVarint (sqlite3PutVarint (2 ^ 64 - 1) ++ [1]) = Ok (9, 2 ^ 64 - 1) /\
  sqlite3PutVarint 300 = [0x82; 0x2c].
Proof. split; [|reflexivity]. apply (varint_roundtrip (2 ^ 64 - 1) [1]); [clia|repeat constructor; clia]. Defined.

Lemma varint_ref_nonneg p : forall i acc n v,
  Forall is_byte p -> 0 <= acc -> varint_ref i acc p = Ok (n, v) -> 0 <= v.
Proof.
  induction p as [|b p IH]; intros i acc n v H Ha E; [done|]. cbn in E. apply Forall_cons_1 in H as [Hb H]. unfold is_byte in Hb.
  destruct (decide (i = 8%nat)); [injection E as _ <-; lia|].
  destruct (Z.ltb_spec b 128); [injection E as _ <-; lia|]. eapply IH; [done| |exact E]. lia.
Qed.

(** Cutting to 32 bits. *)
Lemma cut_u32 n v :
  0 <= v ->
  (if negb (v &&& SQLITE_MAX_U32 =? v) then Ok (n, 0xffffffff) else Ok (n, u32 v)) =
  (Ok (n, Z.min v (2 ^ 32 - 1)) : res (Z * Z)).
Proof.
  intros Hv. change SQLITE_MAX_U32 with (Z.ones 32). rewrite Z.land_ones by lia. unfold wrap.
  destruct (Z.eqb_spec (v mod 2 ^ 32) v) as [E|E]; cbn [negb].
  - rewrite E. do 2 f_equal. pose proof (Z.mod_pos_bound v (2 ^ 32)). lia.
  - destruct (decide (v < 2 ^ 32)); [by rewrite Z.mod_small in E by lia|]. do 2 f_equal. lia.
Qed.

(** [getVarint32] reads the same integer, cut to the largest 32-bit value,
    and the same number of bytes. *)
Theorem getVarint32_correct (p : bytes) :
  Forall is_byte p ->
  getVarint32 p = ('(n, v) ← sqlite3GetVarint p; Ok (n, Z.min v (2 ^ 32 - 1))).
Proof.
  intros H. pose proof (sqlite3GetVarint_ref p H) as E. rewrite E.
  unfold getVarint32, sqlite3GetVarint32. change ((0x7f ≪ 14) ||| 0x7f) with SLOT_2_0.
  assert (forall e n v : Z, (Ok (n, e) : res (Z * Z)) = Ok (n, v) -> v < 2 ^ 32 ->
    (Ok (n, e) : res (Z * Z)) = Ok (n, Z.min v (2 ^ 32 - 1))) as Hsmall.
  { intros e n v [= ->] Hv. do 2 f_equal. lia. }
  assert ((('(n, v64) ← sqlite3GetVarint p;
      if negb (v64 &&& SQLITE_MAX_U32 =? v64) then Ok (n, 0xffffffff) else Ok (n, u32 v64)) : res (Z * Z)) =
    ('(n, v) ← varint_ref 0 0 p; Ok (n, Z.min v (2 ^ 32 - 1)))) as Hlong.
  { rewrite E. destruct (varint_ref 0 0 p) as [[n v]|] eqn:R; [|done]. cbn [mbind res_bind].
    apply cut_u32. by apply (varint_ref_nonneg p 0 0 n v). }
  rewrite Hlong. clear Hlong. unfold sqlite3GetVarint in E. revert E.
  next_byte p0 B0. rewrite flag1 by done.
  change 0x80 with 128. destruct (Z.ltb_spec p0 128) as [L0|G0]; [intros E; apply Hsmall; [done|clia]|].
  next_byte p1 B1. rewrite flag1 by done.
  destruct (Z.ltb_spec p1 128) as [L1|G1]; [intros E; apply Hsmall; [done|clia]|].
  next_byte p2 B2.
  rewrite reg_shift2, flag2 by done.
  destruct (Z.ltb_spec p2 128) as [L2|G2]; [intros E; apply Hsmall; [done|clia]|done].
Qed.

(** Example: a value that does not fit. *)
Lemma getVarint32_correct_witness :
  getVarint32 [0xff; 0x80; 0xff; 0x81; 0x82; 0x03] =
  ('(n, v) ← sqlite3GetVarint [0xff; 0x80; 0xff; 0x81; 0x82; 0x03]; Ok (n, Z.min v (2 ^ 32 - 1))).
Proof. apply getVarint32_correct. repeat constructor; clia. Defined.

(** Four bytes put together. *)
Lemma or_bytes p0 p1 p2 p3 :
  is_byte p0 -> is_byte p1 -> is_byte p2 -> is_byte p3 ->
  u32 (p0 ≪ 24) ||| (p1 ≪ 16) ||| (p2 ≪ 8) ||| p3 = p0 * 2 ^ 24 + p1 * 2 ^ 16 + p2 * 2 ^ 8 + p3.
Proof.
  intros. rewrite !Z.shiftl_mul_pow2 by lia. rewrite wrap_small by clia.
  rewrite (lor_add_low 24 (p0 * 2 ^ 24)) by (lia || by apply Z.mod_mul || clia).
  rewrite (lor_add_low 16 (p0 * 2 ^ 24 + p1 * 2 ^ 16)) by (lia || dlia).
  rewrite (lor_add_low 8) by (lia || dlia). done.
Qed.

(** A four-byte integer of the file header or of a page is read back. *)
Theorem get4byte_put4byte (v : Z) (rest : bytes) :
  in_u 32 v -> sqlite3Get4byte (sqlite3Put4byte v ++ rest) = Ok v.
Proof.
  intros Hv. unfold sqlite3Get4byte, sqlite3Put4byte, byte_of. cbn [lookup list_lookup app of_option mbind res_bind].
  f_equal. rewrite or_bytes by (apply wrap_range; lia).
  rewrite !Z.shiftr_div_pow2 by lia. unfold wrap. dlia.
Qed.

(** Example: the largest value. *)
Lemma get4byte_put4byte_witness : sqlite3Get4byte (sqlite3Put4byte 0xfffffffe ++ [7]) = Ok 0xfffffffe.
Proof. apply get4byte_put4byte. clia. Defined.
