(* ===== verification/MuslStr.v ===== *)
(** * musl string functions ([src/dep/musl/src/string])

    Lua, SQLite and the kernel work on C strings and byte ranges through these
    functions.  Several of them read a word at a time once the pointer is
    aligned, with the HASZERO test for a zero byte; the theorems show that they
    agree with the byte-by-byte definitions for every address and alignment.

    Memory is a total function from addresses to bytes: the word loops read the
    whole aligned word that holds the last byte. *)

From S2P Require Import Prelude LuaStr.

Definition memory := Z -> Z.

Definition mem_ok (m : memory) : Prop := forall a, is_byte (m a).

Definition SS : Z := 8.                       (* sizeof(size_t) *)
Definition ONES : Z := (2 ^ 64 - 1) / 255.
Definition HIGHS : Z := ONES * 128.
Definition HASZERO (x : Z) : Z := u64 (x - ONES) &&& u64 (Z.lnot x) &&& HIGHS.

(** The word at an aligned address. *)
Definition load64 (m : memory) (a : Z) : Z := le_value ((fun i => m (a + i)) <$> seqZ 0 8).

(** A loop that moves a pointer while a test holds. *)
Fixpoint advance (fuel : nat) (go : Z -> bool) (step s : Z) : res Z :=
  match fuel with
  | O => Err NoFuel
  | S fuel' => if go s then advance fuel' go step (s + step) else Ok s
  end.

(** A loop that counts a length down while it moves the pointer. *)
Fixpoint advance_n (fuel : nat) (go : Z -> Z -> bool) (step s n : Z) : res (Z * Z) :=
  match fuel with
  | O => Err NoFuel
  | S fuel' => if go s n then advance_n fuel' go step (s + step) (n - step) else Ok (s, n)
  end.

(** [for (; s % ALIGN; s++) if (stop *s) return s;] *)
Fixpoint align_loop (fuel : nat) (stop : Z -> bool) (s : Z) : res (Z * bool) :=
  match fuel with
  | O => Err NoFuel
  | S fuel' =>
      if s mod SS =? 0 then Ok (s, false)
      else if stop s then Ok (s, true) else align_loop fuel' stop (s + 1)
  end.

Definition strlen (fuel : nat) (m : memory) (a : Z) : res Z :=
  '(s, found) ← align_loop fuel (fun s => m s =? 0) a;
  if (found : bool) then Ok (s - a) else
  w ← advance fuel (fun w => HASZERO (load64 m w) =? 0) SS s;
  s ← advance fuel (fun s => negb (m s =? 0)) 1 w;
  Ok (s - a).

Definition memchr (fuel : nat) (m : memory) (src c n : Z) : res (option Z) :=
  let c := u8 c in
  '(s, n) ← advance_n fuel (fun s n => negb (s &&& (SS - 1) =? 0) && negb (n =? 0) && negb (m s =? c)) 1 src n;
  '(s, n) ←
    (if negb (n =? 0) && negb (m s =? c) then
       let k := u64 (ONES * c) in
       '(w, n) ← advance_n fuel (fun w n => (SS <=? n) && (HASZERO (Z.lxor (load64 m w) k) =? 0)) SS s n;
       advance_n fuel (fun s n => negb (n =? 0) && negb (m s =? c)) 1 w n
     else Ok (s, n));
  Ok (if n =? 0 then None else Some s).

Definition strchrnul (fuel : nat) (m : memory) (s c : Z) : res Z :=
  let c := u8 c in
  if c =? 0 then l ← strlen fuel m s; Ok (s + l) else
  '(s, found) ← align_loop fuel (fun s => (m s =? 0) || (m s =? c)) s;
  if (found : bool) then Ok s else
  let k := u64 (ONES * c) in
  w ← advance fuel (fun w => (HASZERO (load64 m w) =? 0) && (HASZERO (Z.lxor (load64 m w) k) =? 0)) SS s;
  advance fuel (fun s => negb (m s =? 0) && negb (m s =? c)) 1 w.

Definition strchr (fuel : nat) (m : memory) (s c : Z) : res (option Z) :=
  r ← strchrnul fuel m s c; Ok (if m r =? u8 c then Some r else None).

(** [memcmp], on the two byte ranges it reads. *)
Fixpoint memcmp_loop (m : memory) (l r : Z) (n : nat) : Z :=
  match n with
  | O => 0
  | S n' => if m l =? m r then memcmp_loop m (l + 1) (r + 1) n' else m l - m r
  end.

Definition memcmp (m : memory) (l r n : Z) : Z := memcmp_loop m l r (Z.to_nat n).

(** [while (n--) if (s[n]==c) return s+n;] *)
Fixpoint memrchr_loop (m : memory) (s c : Z) (n : nat) : option Z :=
  match n with
  | O => None
  | S n' => if m (s + Z.of_nat n') =? c then Some (s + Z.of_nat n') else memrchr_loop m s c n'
  end.

Definition memrchr (m : memory) (s c n : Z) : option Z := memrchr_loop m s (u8 c) (Z.to_nat n).

Definition strrchr (fuel : nat) (m : memory) (s c : Z) : res (option Z) :=
  l ← strlen fuel m s; Ok (memrchr m s c (l + 1)).

Definition strnlen (fuel : nat) (m : memory) (s n : Z) : res Z :=
  p ← memchr fuel m s 0 n; Ok (match p with Some p => p - s | None => n end).

Fixpoint strcmp (fuel : nat) (m : memory) (l r : Z) : res Z :=
  match fuel with
  | O => Err NoFuel
  | S fuel' =>
      if (m l =? m r) && negb (m l =? 0) then strcmp fuel' m (l + 1) (r + 1)
      else Ok (m l - m r)
  end.

Fixpoint strncmp_loop (m : memory) (l r : Z) (n : nat) : Z :=
  match n with
  | O => m l - m r
  | S n' =>
      if negb (m l =? 0) && negb (m r =? 0) && (m l =? m r)
      then strncmp_loop m (l + 1) (r + 1) n' else m l - m r
  end.

Definition strncmp (m : memory) (l r n : Z) : Z :=
  if n =? 0 then 0 else strncmp_loop m l r (Z.to_nat (n - 1)).

(** ** The zero-byte test *)

Lemma byte_testbit x i : is_byte x -> 8 <= i -> Z.testbit x i = false.
Proof.
  intros Hx Hi. apply Z.bits_above_log2; [unfold is_byte in Hx; lia|].
  destruct (decide (x = 0)) as [->|]; [cbn; lia|].
  assert (Z.log2 x < 8) by (apply Z.log2_lt_pow2; unfold is_byte in Hx; clia). lia.
Qed.

Lemma land_is_byte a b : is_byte a -> is_byte (a &&& b).
Proof.
  intros Ha. assert (a &&& b = (a &&& b) mod 2 ^ 8) as ->; [|apply (wrap_range 8); lia].
  rewrite <- Z.land_ones by lia. apply Z.bits_inj'. intros i Hi. rewrite !Z.land_spec.
  rewrite Z.testbit_ones by lia. destruct (decide (i < 8)).
  - rewrite (proj2 (Z.leb_le 0 i)), (proj2 (Z.ltb_lt i 8)) by lia. by rewrite andb_true_r.
  - by rewrite byte_testbit by (done || lia).
Qed.

Lemma byte_shift x y : is_byte x -> x + 256 * y = (y ≪ 8) ||| x.
Proof.
  intros Hx. rewrite Z.shiftl_mul_pow2 by lia. rewrite (lor_add_low 8); [lia|lia| |clia].
  apply Z.mod_mul. lia.
Qed.

Lemma land_bytes a b a' b' :
  is_byte a -> is_byte b ->
  (a + 256 * a') &&& (b + 256 * b') = (a &&& b) + 256 * (a' &&& b').
Proof.
  intros Ha Hb. pose proof (land_is_byte a b Ha). rewrite !byte_shift by done.
  apply Z.bits_inj'. intros i Hi. rewrite !Z.land_spec, !Z.lor_spec, !Z.land_spec.
  destruct (decide (i < 8)) as [Hlt|Hge].
  - rewrite !Z.shiftl_spec_low by lia. done.
  - rewrite !Z.shiftl_spec by lia. rewrite Z.land_spec.
    rewrite (byte_testbit a), (byte_testbit b) by (done || lia). by rewrite !orb_false_r.
Qed.

Lemma low_byte r k P : 0 <= r < 256 -> 0 < P -> (r + 256 * k) mod (256 * P) = r + 256 * (k mod P).
Proof.
  intros Hr HP. rewrite Z.rem_mul_r by lia.
  assert ((r + 256 * k) mod 256 = r /\ (r + 256 * k) / 256 = k) as [-> ->] by dlia. done.
Qed.

(** The test on words of [n] bytes. *)
Definition ones (n : nat) : Z := le_value (replicate n 1).
Definition hz (n : nat) (x : Z) : Z :=
  (x - ones n) mod 256 ^ Z.of_nat n &&& (256 ^ Z.of_nat n - 1 - x) &&& (128 * ones n).

Lemma byte_test b : 1 <= b < 256 -> (b - 1) &&& (255 - b) &&& 128 = 0.
Proof.
  intros Hb. assert (forallb (fun b => ((b - 1) &&& (255 - b) &&& 128) =? 0) (seqZ 1 255) = true) as H
    by (vm_compute; reflexivity).
  rewrite forallb_forall in H. apply Z.eqb_eq, H, list_elem_of_In, elem_of_seqZ. lia.
Qed.

Lemma hz_bytes bs :
  Forall is_byte bs -> hz (length bs) (le_value bs) = 0 <-> Forall (fun b => b <> 0) bs.
Proof.
  induction 1 as [|b bs Hb Hbs IH]; [by split|]. cbn [length le_value].
  pose proof (le_value_range bs Hbs) as Hx. set (x := le_value bs) in *. set (n := length bs) in *.
  assert (256 ^ Z.of_nat (S n) = 256 * 256 ^ Z.of_nat n) as Hpow
    by (rewrite Nat2Z.inj_succ, Z.pow_succ_r; lia).
  set (P := 256 ^ Z.of_nat n) in *. assert (0 < P) as HP by lia. unfold is_byte in Hb.
  unfold hz in *. change (ones (S n)) with (1 + 256 * ones n). rewrite Hpow. fold P in IH.
  replace (256 * P - 1 - (b + 256 * x)) with (255 - b + 256 * (P - 1 - x)) by lia.
  replace (128 * (1 + 256 * ones n)) with (128 + 256 * (128 * ones n)) by lia.
  assert (is_byte (255 - b)) as Hb1 by (unfold is_byte; lia).
  assert (is_byte 128) as Hb2 by (unfold is_byte; lia).
  rewrite Forall_cons. destruct (decide (b = 0)) as [->|Hnz].
  - split; [|tauto]. intros Hz. exfalso. revert Hz.
    replace (0 + 256 * x - (1 + 256 * ones n)) with (255 + 256 * (x - ones n - 1)) by lia.
    rewrite low_byte, !land_bytes by (lia || done || apply land_is_byte; done).
    change (255 &&& (255 - 0) &&& 128) with 128. lia.
  - replace (b + 256 * x - (1 + 256 * ones n)) with (b - 1 + 256 * (x - ones n)) by lia.
    assert (is_byte (b - 1)) by (unfold is_byte; lia).
    rewrite low_byte, !land_bytes by (lia || done || apply land_is_byte; done).
    rewrite byte_test by lia. rewrite <- IH. lia.
Qed.

Lemma HASZERO_spec bs :
  length bs = 8%nat -> Forall is_byte bs ->
  HASZERO (le_value bs) = 0 <-> Forall (fun b => b <> 0) bs.
Proof.
  intros Hl Hb. rewrite <- hz_bytes by done. rewrite Hl.
  pose proof (le_value_range bs Hb) as Hr. rewrite Hl in Hr.
  change (256 ^ Z.of_nat 8) with (2 ^ 64) in Hr.
  unfold HASZERO, hz. change (ones 8) with ONES. change (256 ^ Z.of_nat 8) with (2 ^ 64).
  change (128 * ONES) with HIGHS. fold (wrap 64 (le_value bs - ONES)).
  assert (u64 (Z.lnot (le_value bs)) = 2 ^ 64 - 1 - le_value bs) as ->; [|done].
  unfold Z.lnot, wrap. dlia.
Qed.

(** Exclusive or of a word with a repeated byte. *)
Lemma lxor_bytes a b a' b' :
  is_byte a -> is_byte b ->
  Z.lxor (a + 256 * a') (b + 256 * b') = Z.lxor a b + 256 * Z.lxor a' b' /\ is_byte (Z.lxor a b).
Proof.
  intros Ha Hb. assert (is_byte (Z.lxor a b)) as Hx.
  { assert (Z.lxor a b = Z.lxor a b &&& Z.ones 8) as ->.
    - apply Z.bits_inj'. intros i Hi. rewrite Z.land_spec, Z.lxor_spec, Z.testbit_ones by lia.
      destruct (decide (i < 8)).
      + rewrite (proj2 (Z.leb_le 0 i)), (proj2 (Z.ltb_lt i 8)) by lia. by rewrite andb_true_r.
      + by rewrite !byte_testbit by (done || lia).
    - rewrite Z.land_comm. apply land_is_byte. vm_compute. split; congruence. }
  split; [|done]. rewrite !byte_shift by done.
  apply Z.bits_inj'. intros i Hi. rewrite !Z.lxor_spec, !Z.lor_spec, !Z.lxor_spec.
  destruct (decide (i < 8)).
  - by rewrite !Z.shiftl_spec_low by lia.
  - rewrite !Z.shiftl_spec by lia. rewrite Z.lxor_spec.
    rewrite (byte_testbit a), (byte_testbit b) by (done || lia). by rewrite !orb_false_r.
Qed.

Lemma lxor_word c bs :
  is_byte c -> Forall is_byte bs ->
  Z.lxor (le_value bs) (c * ones (length bs)) = le_value (Z.lxor c <$> bs) /\
  Forall is_byte (Z.lxor c <$> bs).
Proof.
  intros Hc. induction 1 as [|b bs Hb _ [IH1 IH2]]; [by rewrite Z.mul_0_r|].
  cbn [length le_value fmap list_fmap]. change (ones (S ?n)) with (1 + 256 * ones n).
  replace (c * (1 + 256 * ones (length bs))) with (c + 256 * (c * ones (length bs))) by lia.
  destruct (lxor_bytes b c (le_value bs) (c * ones (length bs)) Hb Hc) as [-> Hx].
  rewrite IH1, (Z.lxor_comm b c). split; [done|]. constructor; [by rewrite Z.lxor_comm|done].
Qed.

Lemma load64_bytes m w :
  mem_ok m -> length ((fun i => m (w + i)) <$> seqZ 0 8) = 8%nat /\
    Forall is_byte ((fun i => m (w + i)) <$> seqZ 0 8).
Proof. intros Hm. split; [done|]. apply Forall_fmap, Forall_forall. intros x _. apply Hm. Qed.

(** What the word tests of the loops decide. *)
Lemma word_zero m w :
  mem_ok m -> (HASZERO (load64 m w) =? 0) = true <-> forall j, 0 <= j < 8 -> m (w + j) <> 0.
Proof.
  intros Hm. destruct (load64_bytes m w Hm) as [Hl Hb].
  rewrite Z.eqb_eq. unfold load64. rewrite (HASZERO_spec _ Hl Hb), Forall_fmap, Forall_forall.
  split; intros H j Hj; [apply (H j), elem_of_seqZ; lia|apply H; apply elem_of_seqZ in Hj; lia].
Qed.

Lemma word_char m w c :
  mem_ok m -> is_byte c ->
  (HASZERO (Z.lxor (load64 m w) (u64 (ONES * c))) =? 0) = true <-> forall j, 0 <= j < 8 -> m (w + j) <> c.
Proof.
  intros Hm Hc. destruct (load64_bytes m w Hm) as [Hl Hb].
  assert (u64 (ONES * c) = c * ones 8) as ->.
  { rewrite wrap_small; [change (ones 8) with ONES; lia|]. unfold is_byte in Hc.
    change ONES with 72340172838076673. clia. }
  destruct (lxor_word c _ Hc Hb) as [E Hb']. rewrite Hl in E. unfold load64. rewrite E.
  rewrite Z.eqb_eq, HASZERO_spec by (done || by rewrite length_fmap).
  rewrite !Forall_fmap, Forall_forall.
  split; intros H j Hj.
  - intros Heq. apply (H j); [apply elem_of_seqZ; lia|]. cbn. rewrite Heq. apply Z.lxor_nilpotent.
  - cbn. intros Heq%Z.lxor_eq. apply (H j); [apply elem_of_seqZ in Hj; lia|done].
Qed.

(** The word trick: [HASZERO(x)] is non-zero exactly when one of the eight
    bytes of [x] is zero. *)
Theorem HASZERO_correct (bs : list Z) :
  length bs = 8%nat -> Forall is_byte bs ->
  HASZERO (le_value bs) = 0 <-> Forall (fun b => b <> 0) bs.
Proof. apply HASZERO_spec. Qed.

(** Example: "abc" and its terminator. *)
Lemma HASZERO_correct_witness : HASZERO (le_value [97; 98; 99; 0; 1; 2; 3; 4]) <> 0.
Proof.
  intros H. apply (HASZERO_correct [97; 98; 99; 0; 1; 2; 3; 4]) in H.
  - rewrite !Forall_cons in H. tauto.
  - reflexivity.
  - repeat constructor; vm_compute; congruence.
Defined.

(** ** Scanning loops *)

Lemma advance_spec go step k : forall fuel s,
  (forall j, 0 <= j < Z.of_nat k -> go (s + step * j) = true) ->
  go (s + step * Z.of_nat k) = false -> (k < fuel)%nat ->
  advance fuel go step s = Ok (s + step * Z.of_nat k).
Proof.
  induction k as [|k IH]; intros [|fuel] s Hgo Hstop Hf; try lia; cbn [advance].
  - rewrite Z.mul_0_r, Z.add_0_r in *. by rewrite Hstop.
  - pose proof (Hgo 0 ltac:(lia)) as H0. rewrite Z.mul_0_r, Z.add_0_r in H0. rewrite H0.
    rewrite (IH fuel (s + step)); [f_equal; lia| | |lia].
    + intros j Hj. rewrite <- (Hgo (j + 1)) by lia. f_equal. lia.
    + rewrite <- Hstop. f_equal. lia.
Qed.

Lemma advance_n_spec go step k : forall fuel s n,
  (forall j, 0 <= j < Z.of_nat k -> go (s + step * j) (n - step * j) = true) ->
  go (s + step * Z.of_nat k) (n - step * Z.of_nat k) = false -> (k < fuel)%nat ->
  advance_n fuel go step s n = Ok (s + step * Z.of_nat k, n - step * Z.of_nat k).
Proof.
  induction k as [|k IH]; intros [|fuel] s n Hgo Hstop Hf; try lia; cbn [advance_n].
  - rewrite Z.mul_0_r, Z.add_0_r, Z.sub_0_r in *. by rewrite Hstop.
  - pose proof (Hgo 0 ltac:(lia)) as H0. rewrite Z.mul_0_r, Z.add_0_r, Z.sub_0_r in H0. rewrite H0.
    rewrite (IH fuel (s + step) (n - step)); [do 2 f_equal; lia| | |lia].
    + intros j Hj. rewrite <- (Hgo (j + 1)) by lia. f_equal; lia.
    + rewrite <- Hstop. f_equal; lia.
Qed.

Section Scan.
Context (stop wgo : Z -> bool).
Context (wgo_spec : forall w, wgo w = true <-> forall j, 0 <= j < 8 -> stop (w + j) = false).

(** The three loops: bytes up to alignment, words, bytes. *)
Definition scan (fuel : nat) (a : Z) : res (Z * bool) :=
  '(s, found) ← align_loop fuel stop a;
  if (found : bool) then Ok (s, true) else
  w ← advance fuel wgo SS s;
  s ← advance fuel (fun s => negb (stop s)) 1 w;
  Ok (s, false).

Lemma align_loop_spec fuel : forall a n,
  0 <= n -> (forall j, 0 <= j < n -> stop (a + j) = false) -> stop (a + n) = true ->
  8 - a mod 8 < Z.of_nat fuel \/ a mod 8 = 0 /\ (0 < fuel)%nat ->
  align_loop fuel stop a = Ok (a + n, true) \/
  exists d, align_loop fuel stop a = Ok (a + d, false) /\ 0 <= d <= n /\ (a + d) mod 8 = 0.
Proof.
  induction fuel as [|fuel IH]; intros a n Hn Hno Hst Hf; [exfalso; dlia|]. cbn [align_loop].
  change SS with 8. destruct (Z.eqb_spec (a mod 8) 0) as [Ha|Ha].
  { right. exists 0. rewrite Z.add_0_r. done. }
  destruct (decide (n = 0)) as [->|Hn0].
  { rewrite Z.add_0_r in Hst. rewrite Hst. left. by rewrite Z.add_0_r. }
  pose proof (Hno 0 ltac:(lia)) as H0. rewrite Z.add_0_r in H0. rewrite H0.
  destruct (IH (a + 1) (n - 1)) as [->|(d & -> & Hd & Hm)].
  - lia.
  - intros j Hj. replace (a + 1 + j) with (a + (j + 1)) by lia. apply Hno. lia.
  - by replace (a + 1 + (n - 1)) with (a + n) by lia.
  - destruct (decide ((a + 1) mod 8 = 0)); [right; dlia|left; dlia].
  - left. do 2 f_equal. lia.
  - right. exists (d + 1). split; [do 2 f_equal; lia|]. split; [lia|]. by replace (a + (d + 1)) with (a + 1 + d) by lia.
Qed.

Lemma scan_spec fuel a n :
  0 <= n -> (forall j, 0 <= j < n -> stop (a + j) = false) -> stop (a + n) = true ->
  n + 9 < Z.of_nat fuel ->
  exists b, scan fuel a = Ok (a + n, b).
Proof using wgo_spec.
  intros Hn Hno Hst Hf. unfold scan.
  destruct (align_loop_spec fuel a n Hn Hno Hst) as [->|(d & -> & Hd & Hm)]; [left; dlia|by exists true|].
  cbn [mbind res_bind]. exists false. set (k := (n - d) / 8).
  assert (0 <= k /\ 8 * k <= n - d < 8 * k + 8) as [Hk0 Hk] by (unfold k; dlia).
  rewrite (advance_spec wgo SS (Z.to_nat k)); unfold SS; rewrite ?Z2Nat.id by lia; [| | |lia].
  - cbn [mbind res_bind]. rewrite (advance_spec _ 1 (Z.to_nat (n - d - 8 * k))); rewrite ?Z2Nat.id by lia.
    + cbn [mbind res_bind]. do 2 f_equal. lia.
    + intros j Hj. replace (a + d + 8 * k + 1 * j) with (a + (d + 8 * k + j)) by lia.
      by rewrite Hno by lia.
    + replace (a + d + 8 * k + 1 * (n - d - 8 * k)) with (a + n) by lia. by rewrite Hst.
    + lia.
  - intros j Hj. apply wgo_spec. intros i Hi.
    replace (a + d + 8 * j + i) with (a + (d + 8 * j + i)) by lia. apply Hno. lia.
  - destruct (wgo (a + d + 8 * k)) eqn:E; [|done]. exfalso.
    pose proof (proj1 (wgo_spec _) E (n - d - 8 * k) ltac:(lia)) as Hbad.
    replace (a + d + 8 * k + (n - d - 8 * k)) with (a + n) in Hbad by lia. congruence.
Qed.
End Scan.

(** ** Strings *)

(** The C string at [a] has [n] bytes before its terminator. *)
Definition cstring (m : memory) (a n : Z) : Prop :=
  0 <= n /\ m (a + n) = 0 /\ forall j, 0 <= j < n -> m (a + j) <> 0.

Lemma strlen_spec fuel m a n :
  mem_ok m -> cstring m a n -> n + 9 < Z.of_nat fuel -> strlen fuel m a = Ok n.
Proof.
  intros Hm (Hn & Hz & Hnz) Hf.
  destruct (scan_spec (fun s => m s =? 0) (fun w => HASZERO (load64 m w) =? 0)) with (fuel := fuel) (a := a) (n := n)
    as [b Hs]; [|done| |by apply Z.eqb_eq|done|].
  - intros w. rewrite word_zero by done. split; intros H j Hj; apply Z.eqb_neq; auto.
  - intros j Hj. apply Z.eqb_neq. auto.
  - unfold scan in Hs. unfold strlen.
    apply bind_Ok in Hs as ([s fd] & -> & Hs). cbn [mbind res_bind] in *.
    destruct fd; [injection Hs as -> _; f_equal; lia|].
    apply bind_Ok in Hs as (w & -> & Hs). cbn [mbind res_bind] in *.
    apply bind_Ok in Hs as (s2 & -> & Hs). cbn [mbind res_bind] in *.
    injection Hs as -> _. f_equal. lia.
Qed.

Lemma strchrnul_spec fuel m a c n :
  mem_ok m -> 0 <= n -> (forall j, 0 <= j < n -> m (a + j) <> 0 /\ m (a + j) <> u8 c) ->
  m (a + n) = 0 \/ m (a + n) = u8 c -> n + 9 < Z.of_nat fuel ->
  (u8 c = 0 \/ u8 c <> 0) -> strchrnul fuel m a c = Ok (a + n).
Proof.
  intros Hm Hn Hno Hst Hf _. unfold strchrnul. destruct (Z.eqb_spec (u8 c) 0) as [Hc|Hc].
  { rewrite (strlen_spec fuel m a n Hm); [done| |done]. split; [done|]. split; [|by apply Hno].
    destruct Hst; congruence. }
  assert (is_byte (u8 c)) as Hcb by (apply (wrap_range 8); lia).
  set (stop := fun s => (m s =? 0) || (m s =? u8 c)).
  destruct (scan_spec stop
    (fun w => (HASZERO (load64 m w) =? 0) && (HASZERO (Z.lxor (load64 m w) (u64 (ONES * u8 c))) =? 0)))
    with (fuel := fuel) (a := a) (n := n) as [b Hs]; [|done| | |done|].
  - intros w. rewrite andb_true_iff, word_zero, word_char by done. unfold stop.
    setoid_rewrite orb_false_iff. setoid_rewrite Z.eqb_neq. split; [|split]; naive_solver.
  - intros j Hj. unfold stop. destruct (Hno j Hj) as [H1%Z.eqb_neq H2%Z.eqb_neq]. by rewrite H1, H2.
  - unfold stop. destruct Hst as [->| ->]; rewrite Z.eqb_refl; [done|apply orb_true_r].
  - unfold scan in Hs. fold stop. apply bind_Ok in Hs as ([s fd] & -> & Hs). cbn [mbind res_bind] in *.
    destruct fd; [injection Hs as -> _; done|].
    apply bind_Ok in Hs as (w & -> & Hs). cbn [mbind res_bind] in *.
    apply bind_Ok in Hs as (s2 & Hs2 & Hs). injection Hs as -> _. rewrite <- Hs2.
    assert (forall f s, advance f (fun s => negb (m s =? 0) && negb (m s =? u8 c)) 1 s =
      advance f (fun s => negb (stop s)) 1 s) as ->; [|done].
    induction f as [|f IH]; intros s0; cbn [advance]; [done|]. unfold stop at 1.
    rewrite negb_orb, IH. done.
Qed.

(** The outcome of a bounded search: the first position holding [c], if any. *)
Definition first_at (m : memory) (a c n d : Z) : Prop :=
  0 <= d <= n /\ (forall j, 0 <= j < d -> m (a + j) <> c) /\ (d = n \/ m (a + d) = c).

Lemma land7 s : s &&& 7 = s mod 8.
Proof. apply (Z.land_ones s 3). lia. Qed.

Lemma memchr_state fuel m a c n d :
  mem_ok m -> is_byte c -> first_at m a c n d -> n + 9 < Z.of_nat fuel ->
  ('(s, n) ← advance_n fuel (fun s n => negb (s &&& (SS - 1) =? 0) && negb (n =? 0) && negb (m s =? c)) 1 a n;
   if negb (n =? 0) && negb (m s =? c) then
     '(w, n) ← advance_n fuel (fun w n => (SS <=? n) && (HASZERO (Z.lxor (load64 m w) (u64 (ONES * c))) =? 0)) SS s n;
     advance_n fuel (fun s n => negb (n =? 0) && negb (m s =? c)) 1 w n
   else Ok (s, n)) = Ok (a + d, n - d).
Proof.
  intros Hm Hc (Hd & Hno & Hst) Hf. set (e := Z.min d ((- a) mod 8)).
  assert (0 <= e <= d /\ (e = d \/ (a + e) mod 8 = 0) /\ forall j, 0 <= j < e -> (a + j) mod 8 <> 0)
    as (He & Hend & Hal) by (unfold e; split; [dlia|split; [dlia|intros j Hj; dlia]]).
  assert (forall j, 0 <= j < d -> (n - j =? 0) = false /\ (m (a + j) =? c) = false) as Hgo.
  { intros j Hj. split; apply Z.eqb_neq; [lia|by apply Hno]. }
  rewrite (advance_n_spec _ 1 (Z.to_nat e)); rewrite ?Z2Nat.id by lia; [| | |lia].
  - cbn [mbind res_bind]. rewrite !Z.mul_1_l.
    destruct (decide (e = d)) as [Hed|Hed].
    { assert ((negb (n - e =? 0) && negb (m (a + e) =? c)) = false) as ->; [|by rewrite Hed].
      rewrite Hed. destruct Hst as [->|Hc1]; [rewrite Z.sub_diag; done|].
      rewrite Hc1, Z.eqb_refl. apply andb_false_r. }
    destruct (Hgo e ltac:(lia)) as [-> ->]. cbn [negb andb].
    set (k := (d - e) / 8). assert (0 <= k /\ 8 * k <= d - e < 8 * k + 8) as [Hk0 Hk] by (unfold k; dlia).
    rewrite (advance_n_spec _ SS (Z.to_nat k)); unfold SS; rewrite ?Z2Nat.id by lia; [| | |lia].
    + cbn [mbind res_bind]. rewrite (advance_n_spec _ 1 (Z.to_nat (d - e - 8 * k)));
        rewrite ?Z2Nat.id by lia; [do 2 f_equal; lia| | |lia].
      * intros j Hj. replace (n - e - 8 * k - 1 * j) with (n - (e + 8 * k + j)) by lia.
        replace (a + e + 8 * k + 1 * j) with (a + (e + 8 * k + j)) by lia.
        destruct (Hgo (e + 8 * k + j) ltac:(lia)) as [-> ->]. done.
      * replace (n - e - 8 * k - 1 * (d - e - 8 * k)) with (n - d) by lia.
        replace (a + e + 8 * k + 1 * (d - e - 8 * k)) with (a + d) by lia.
        destruct Hst as [->|Hc1]; [rewrite Z.sub_diag; done|].
        rewrite Hc1, Z.eqb_refl. apply andb_false_r.
    + intros j Hj. apply andb_true_iff. split; [apply Z.leb_le; lia|]. apply word_char; [done|done|].
      intros i Hi. replace (a + e + 8 * j + i) with (a + (e + 8 * j + i)) by lia. apply Hno. lia.
    + destruct (Z.leb_spec 8 (n - e - 8 * k)) as [Hge|]; [cbn [andb]|done].
      destruct Hst as [->|Hc1]; [lia|].
      destruct (HASZERO _ =? 0) eqn:E; [|done]. exfalso.
      pose proof (proj1 (word_char m _ c Hm Hc) E (d - e - 8 * k) ltac:(lia)) as Hbad.
      replace (a + e + 8 * k + (d - e - 8 * k)) with (a + d) in Hbad by lia. done.
  - intros j Hj. rewrite Z.mul_1_l. destruct (Hgo j ltac:(lia)) as [-> ->].
    change (SS - 1) with 7. rewrite land7. rewrite (proj2 (Z.eqb_neq _ _)) by (apply Hal; lia). done.
  - rewrite !Z.mul_1_l. change (SS - 1) with 7. rewrite land7. destruct Hend as [->| ->]; [|done].
    destruct Hst as [->|Hc1]; [rewrite Z.sub_diag; cbn; by rewrite andb_false_r|].
    rewrite Hc1, Z.eqb_refl. apply andb_false_r.
Qed.

Lemma memchr_spec fuel m a c n d :
  mem_ok m -> first_at m a (u8 c) n d -> n + 9 < Z.of_nat fuel ->
  memchr fuel m a c n = Ok (if d =? n then None else Some (a + d)).
Proof.
  intros Hm Hd Hf. unfold memchr.
  pose proof (memchr_state fuel m a (u8 c) n d Hm ltac:(apply (wrap_range 8); lia) Hd Hf) as Hs.
  apply bind_Ok in Hs as ([s1 n1] & -> & Hs). cbn [mbind res_bind]. rewrite Hs. cbn [mbind res_bind].
  f_equal. destruct (Z.eqb_spec d n), (Z.eqb_spec (n - d) 0); done || lia.
Qed.

(** C34. [strlen] returns the number of bytes before the terminator, whatever the
    alignment of the string. *)
Theorem strlen_correct (fuel : nat) (m : memory) (a n : Z) :
  mem_ok m -> cstring m a n -> n + 9 < Z.of_nat fuel -> strlen fuel m a = Ok n.
Proof. apply strlen_spec. Qed.

(** A memory holding "hello world" at address 3. *)
Definition hello_mem : memory := fun a =>
  default 0 ([104; 101; 108; 108; 111; 32; 119; 111; 114; 108; 100] !! Z.to_nat (a - 3)).

Lemma hello_mem_ok : mem_ok hello_mem.
Proof.
  intros a. unfold hello_mem. destruct (_ !! Z.to_nat (a - 3)) as [b|] eqn:E; cbn [default];
    [|unfold is_byte; cbn; lia]. eapply (Forall_lookup_1 is_byte); [|exact E].
  repeat constructor; vm_compute; congruence.
Qed.

(** Witness of C34. *)
Lemma strlen_correct_witness : strlen 30 hello_mem 3 = Ok 11.
Proof.
  apply (strlen_correct 30 hello_mem 3 11 hello_mem_ok); [|lia].
  split; [lia|]. split; [reflexivity|]. intros j Hj.
  assert (j = 0 \/ j = 1 \/ j = 2 \/ j = 3 \/ j = 4 \/ j = 5 \/ j = 6 \/ j = 7 \/ j = 8 \/ j = 9 \/ j = 10)
    as Hc by lia. repeat (destruct Hc as [->|Hc]; [vm_compute; congruence|]). subst j.
  vm_compute. congruence.
Defined.

(** [memchr] returns the first position of the byte in the range, or null
    when it does not occur, whatever the alignment. *)
Theorem memchr_correct (fuel : nat) (m : memory) (a c n d : Z) :
  mem_ok m -> first_at m a (u8 c) n d -> n + 9 < Z.of_nat fuel ->
  memchr fuel m a c n = Ok (if d =? n then None else Some (a + d)).
Proof. apply memchr_spec. Qed.

(** Example: the space in "hello world". *)
Lemma memchr_correct_witness : memchr 30 hello_mem 3 32 11 = Ok (Some 8).
Proof.
  apply (memchr_correct 30 hello_mem 3 32 11 5 hello_mem_ok); [|lia].
  split; [lia|]. split; [|by right]. intros j Hj.
  assert (j = 0 \/ j = 1 \/ j = 2 \/ j = 3 \/ j = 4) as Hc by lia.
  repeat (destruct Hc as [->|Hc]; [vm_compute; congruence|]). subst j. vm_compute. congruence.
Defined.

(** [strchr] of a string. *)
Lemma strchr_spec fuel m a c n d :
  mem_ok m -> cstring m a n -> first_at m a (u8 c) n d -> n + 9 < Z.of_nat fuel ->
  strchr fuel m a c = Ok (if decide (m (a + d) = u8 c) then Some (a + d) else None).
Proof.
  intros Hm (Hn & Hz & Hnz) (Hd & Hno & Hst) Hf. unfold strchr.
  rewrite (strchrnul_spec fuel m a c d Hm); [| | | |lia|].
  - cbn. destruct (Z.eqb_spec (m (a + d)) (u8 c)); case_decide; done.
  - lia.
  - intros j Hj. split; [apply Hnz; lia|by apply Hno].
  - destruct Hst as [->|?]; [by left|by right].
  - destruct (decide (u8 c = 0)); [by left|by right].
Qed.

(** [memcmp] compares at the first difference. *)
Lemma memcmp_spec m l r n :
  0 <= n ->
  (memcmp m l r n = 0 /\ forall j, 0 <= j < n -> m (l + j) = m (r + j)) \/
  exists d, 0 <= d < n /\ (forall j, 0 <= j < d -> m (l + j) = m (r + j)) /\
    m (l + d) <> m (r + d) /\ memcmp m l r n = m (l + d) - m (r + d).
Proof.
  intros Hn. unfold memcmp. remember (Z.to_nat n) as k eqn:Ek.
  assert (n = Z.of_nat k) as -> by lia. clear Ek Hn. revert l r. induction k as [|k IH]; intros l r; cbn [memcmp_loop]; [left; split; [done|lia]|].
  destruct (Z.eqb_spec (m l) (m r)) as [He|Hne].
  - destruct (IH (l + 1) (r + 1)) as [[-> Hall]|(d & Hd & Hall & Hne & ->)].
    + left. split; [done|]. intros j Hj. destruct (decide (j = 0)) as [->|]; [by rewrite !Z.add_0_r|].
      replace (l + j) with (l + 1 + (j - 1)) by lia. replace (r + j) with (r + 1 + (j - 1)) by lia.
      apply Hall. lia.
    + right. exists (d + 1). split; [lia|].
      replace (l + (d + 1)) with (l + 1 + d) by lia. replace (r + (d + 1)) with (r + 1 + d) by lia.
      split; [|done]. intros j Hj. destruct (decide (j = 0)) as [->|]; [by rewrite !Z.add_0_r|].
      replace (l + j) with (l + 1 + (j - 1)) by lia. replace (r + j) with (r + 1 + (j - 1)) by lia.
      apply Hall. lia.
  - right. exists 0. rewrite !Z.add_0_r. split_and!; [lia|lia|lia|done|done].
Qed.

(** Equality of strings by [strcmp]. *)
Lemma strcmp_spec m l r n : forall fuel,
  cstring m l n -> (Z.to_nat n < fuel)%nat ->
  exists z, strcmp fuel m l r = Ok z /\ (z = 0 <-> forall j, 0 <= j <= n -> m (l + j) = m (r + j)).
Proof.
  revert l r. induction (Z.to_nat n) as [|k IH] eqn:E in n |- *; intros l r [|fuel] (Hn & Hz & Hnz) Hf; try lia;
    cbn [strcmp].
  - assert (n = 0) as -> by lia. rewrite Z.add_0_r in Hz. rewrite Hz, andb_false_r.
    eexists. split; [done|]. split.
    + intros Hm j Hj. assert (j = 0) as -> by lia. rewrite !Z.add_0_r. lia.
    + intros H. specialize (H 0 ltac:(lia)). rewrite !Z.add_0_r in H. lia.
  - pose proof (Hnz 0 ltac:(lia)) as H0. rewrite Z.add_0_r in H0. rewrite (proj2 (Z.eqb_neq (m l) 0) H0).
    destruct (Z.eqb_spec (m l) (m r)) as [He|Hne]; cbn [negb andb].
    + destruct (IH (n - 1) ltac:(lia) (l + 1) (r + 1) fuel) as (z & -> & Hz'); [|lia|].
      { split; [lia|]. split; [by replace (l + 1 + (n - 1)) with (l + n) by lia|].
        intros j Hj. replace (l + 1 + j) with (l + (j + 1)) by lia. apply Hnz. lia. }
      exists z. split; [done|]. rewrite Hz'. split; intros H j Hj.
      * destruct (decide (j = 0)) as [->|]; [by rewrite !Z.add_0_r|].
        replace (l + j) with (l + 1 + (j - 1)) by lia. replace (r + j) with (r + 1 + (j - 1)) by lia.
        apply H. lia.
      * replace (l + 1 + j) with (l + (j + 1)) by lia. replace (r + 1 + j) with (r + (j + 1)) by lia.
        apply H. lia.
    + eexists. split; [done|]. split; [lia|]. intros H. specialize (H 0 ltac:(lia)).
      rewrite !Z.add_0_r in H. lia.
Qed.
