(* ===== verification/Kernel.v ===== *)
(** * Start of the kernel and its Lua bindings ([src/src/luakernel.c])

    The port functions, the preemption hook, the module loader behind [require]
    (with [require] of [src/dep/lua-5.2.3/src/loadlib.c] and the searcher that
    [luakernel.lua] installs), and [main].  The Lua virtual machine and the generated
    [lua-bundle.h] are parameters; what creates a Lua state, opens the libraries and
    makes a user data runs on the heap that [main] configures, as a program that
    allocates through [l_alloc] ([client] of the file [MallocClient]). *)

From S2P Require Import Prelude LuaStr MuslStr Vbe Multiboot Display Interrupts IntrEntry.
From S2P Require Import Mem5 Mem5Lists Mem5Spec Mem5Heap Mem5Init Malloc MallocClient.
From stdpp Require Import strings.
Open Scope Z_scope.

(** ** Ports *)

(** A Lua number converted to [u8]. *)
Definition tonumber_u8 (n : Z) : res Z := if decide (in_u 8 n) then Ok n else Err Undefined.

Definition lua_outb (addr value : Z) (s : irq_state) : res irq_state :=
  addr ← tonumber_u32 addr;
  value ← tonumber_u8 value;
  let '(port, byte) := outb_asm addr value in
  Ok (outb port byte s).

(** [dev] is the byte the device returns, [rax] what the register held. *)
Definition lua_inb (addr rax dev : Z) (s : irq_state) : res (irq_state * Z) :=
  addr ← tonumber_u32 addr;
  Ok (inb (u16 addr) dev s, u8 (inb_asm rax dev)).

(** The [u8] conversion hides that [inb] leaves the upper bits of the register. *)
Lemma lua_inb_byte addr rax dev s :
  in_u 32 addr -> is_byte dev -> lua_inb addr rax dev s = Ok (inb (u16 addr) dev s, dev).
Proof.
  intros Ha Hd. unfold lua_inb, tonumber_u32. rewrite decide_True by done. cbn. do 2 f_equal.
  unfold inb_asm. rewrite (wrap_small 8 dev) by done.
  unfold wrap, is_byte in *. change (2 ^ 8) with 256.
  replace (rax - rax mod 256 + dev) with (dev + rax / 256 * 256) by dlia.
  rewrite Z.mod_add by lia. apply Z.mod_small. lia.
Qed.

(** ** Preemption: [lua_setmaskhook] and [lua_hook] *)

(** What the virtual machine keeps per coroutine: the count of the count hook
    (0 when there is none). *)
Definition threads := gmap nat Z.

(** [lua_setmaskhook(co, maskcount)]; a value that is not a thread is ignored. *)
Definition lua_setmaskhook (t : option nat) (maskcount : Z) (ts : threads) : threads :=
  match t with Some t => <[t := s32 maskcount]> ts | None => ts end.

(** A coroutine that has a positive count yields after that many instructions
    ([lua_hook] calls [lua_yield]); one without a hook never does. *)
Definition hook_yields (ts : threads) (t : nat) (executed : Z) : bool :=
  match ts !! t with Some n => (0 <? n) && (executed mod n =? 0) | None => false end.

(** ** [lua_loader] and [require] *)

Definition LUA_OK : Z := 0.

Inductive lua_value :=
| LNil
| LBool (b : bool)
| LString (s : bytes)
| LTable (id : nat)
| LFunction (id : nat)
| LUserdata.

#[export] Instance lua_value_eq_dec : EqDecision lua_value.
Proof. solve_decision. Defined.

Definition toboolean (v : lua_value) : bool := match v with LNil | LBool false => false | _ => true end.
Definition istable (v : lua_value) : bool := match v with LTable _ => true | _ => false end.
Definition tostring (v : option lua_value) : option bytes := match v with Some (LString s) => Some s | _ => None end.

(** An element of the generated array [lua_bundle]. *)
Record module := Module_ { mod_name : Z; mod_buf : bytes }.

(** [package.loaded]; a key that is absent holds nil. *)
Abbreviation loaded_table := (gmap bytes lua_value).
Definition getfield (tbl : loaded_table) (name : bytes) : lua_value := default LNil (tbl !! name).

(** [l_errstr] is what was stored in [errstr] (the outer option: whether it was
    stored), [l_traps] counts the calls of [trap], [l_puts] tells whether
    "not a table" was printed. *)
Record loader_result := LoaderResult {
  l_value : lua_value;
  l_errstr : option (option bytes);
  l_traps : nat;
  l_puts : bool;
}.

Section Loader.
Context (m : memory) (lua_bundle : list module).
(** The virtual machine: the status and the value pushed by [luaL_loadbuffer]
    (a function or a message), the status and the results of [lua_pcall] (which
    can load other modules), and calling a loader of [package.preload]. *)
Context (loadbuffer : module -> Z * lua_value).
Context (pcall : lua_value -> loaded_table -> Z * list lua_value * loaded_table).
Context (preload : gmap bytes nat) (call : nat -> bytes -> loaded_table -> lua_value * loaded_table).

(** The [for] loop: the last module that compares equal. *)
Definition loader_find (modname len : Z) : option module :=
  foldl (fun acc md => if memcmp m modname (mod_name md) len =? 0 then Some md else acc) None lua_bundle.

(** [st] is the Lua stack on entry, bottom first; [modname] and [len] are the
    address and the length of the string on its top.  [trap] returns. *)
Definition lua_loader (st : list lua_value) (modname len : Z) (tbl : loaded_table)
    : loader_result * loaded_table :=
  match loader_find modname len with
  | None => (LoaderResult LNil None 0 false, tbl)
  | Some md =>
      let '(status, chunk) := loadbuffer md in
      let '(err0, t0) := if negb (status =? LUA_OK) then (Some (tostring ((st ++ [chunk]) !! 0%nat)), 1%nat)
                         else (None, O) in
      let '(err, vs, tbl) := pcall chunk tbl in
      let st := st ++ vs in
      let '(err1, t1) := if negb (err =? LUA_OK) then (Some (tostring (st !! 0%nat)), S t0) else (err0, t0) in
      let v := default LNil (last st) in
      (LoaderResult v err1 t1 (negb (istable v)), tbl)
  end.

(** What [findloader] leaves for [ll_require] to call: the searcher of the
    preloaded modules comes first, and the one [luakernel.lua] puts at index 2
    returns the function [loader] for every name. *)
Inductive found := Preloaded (f : nat) | KernelLoader.

Definition findloader (name : bytes) : found :=
  match preload !! name with Some f => Preloaded f | None => KernelLoader end.

Definition ll_require (name : bytes) (modname : Z) (tbl : loaded_table) : lua_value * loaded_table :=
  let v := getfield tbl name in
  if toboolean v then (v, tbl) else
  let '(v, tbl) :=
    match findloader name with
    | Preloaded f => call f name tbl
    | KernelLoader =>
        let '(r, tbl) := lua_loader [LString name; LString name] modname (slen name) tbl in (l_value r, tbl)
    end in
  let tbl := if decide (v = LNil) then tbl else <[name := v]> tbl in
  let v := getfield tbl name in
  if decide (v = LNil) then (LBool true, <[name := LBool true]> tbl) else (v, tbl).

(** The name of a module starts with the [len] bytes at [modname]. *)
Definition name_starts (modname len : Z) (md : module) : Prop :=
  forall j, 0 <= j < len -> m (modname + j) = m (mod_name md + j).

Lemma memcmp_starts modname len md :
  0 <= len -> (memcmp m modname (mod_name md) len =? 0) = true <-> name_starts modname len md.
Proof.
  intros Hl. rewrite Z.eqb_eq. destruct (memcmp_spec m modname (mod_name md) len Hl) as [[-> Hall]|(d & Hd & _ & Hne & ->)].
  - done.
  - split; [lia|]. intros Hs. by apply Hs in Hd.
Qed.

Lemma loader_find_acc modname len bundle acc :
  0 <= len ->
  let r := foldl (fun acc md => if memcmp m modname (mod_name md) len =? 0 then Some md else acc) acc bundle in
  (r = acc /\ Forall (fun md => ~ name_starts modname len md) bundle) \/
  exists pre md post, bundle = pre ++ md :: post /\ r = Some md /\ name_starts modname len md /\
    Forall (fun md => ~ name_starts modname len md) post.
Proof.
  intros Hl. revert acc. induction bundle as [|md bundle IH]; intros acc; cbn [foldl]; [by left|].
  pose proof (memcmp_starts modname len md Hl) as Hmd.
  destruct (IH (if memcmp m modname (mod_name md) len =? 0 then Some md else acc))
    as [[-> Hno]|(pre & x & post & -> & -> & Hx & Hpost)].
  - destruct (memcmp m modname (mod_name md) len =? 0).
    + right. exists [], md, bundle. split_and!; [done|done|by apply Hmd|done].
    + left. split; [done|]. constructor; [|done]. rewrite <- Hmd. done.
  - right. exists (md :: pre), x, post. done.
Qed.

Lemma loader_find_spec modname len :
  0 <= len ->
  match loader_find modname len with
  | None => Forall (fun md => ~ name_starts modname len md) lua_bundle
  | Some md => exists pre post, lua_bundle = pre ++ md :: post /\ name_starts modname len md /\
      Forall (fun md => ~ name_starts modname len md) post
  end.
Proof.
  intros Hl. unfold loader_find.
  destruct (loader_find_acc modname len lua_bundle None Hl) as [[-> Hno]|(pre & md & post & E & -> & Hx & Hp)];
    [done|]. by exists pre, post.
Qed.

(** Two modules that both start with the name and after which none does are one. *)
Lemma loader_find_last modname len pre md post :
  0 <= len -> lua_bundle = pre ++ md :: post -> name_starts modname len md ->
  Forall (fun md => ~ name_starts modname len md) post -> loader_find modname len = Some md.
Proof.
  intros Hl E Hs Hpost. unfold loader_find. rewrite E, foldl_app. cbn [foldl].
  rewrite (proj2 (memcmp_starts modname len md Hl) Hs).
  destruct (loader_find_acc modname len post (Some md) Hl) as [[-> _]|(p & x & q & -> & _ & Hx & _)]; [done|].
  apply Forall_app in Hpost as [_ Hpost]. apply Forall_cons_1 in Hpost as [Hno _]. done.
Qed.
End Loader.

(** ** [main] *)

Inductive main_exit :=
| NoState            (* "lua_newstate: error" *)
| LoadError (errstr : option bytes)   (* the kernel script does not load: trap *)
| ScriptError        (* the kernel script raised an error: trap *)
| ScriptReturned.    (* the scheduler loop ended: trap *)

Record started := Started {
  s_globals : boot_globals;
  s_heap : sqmem;
  s_buffer : Z;              (* where the display buffer is in the heap *)
  s_display : display;
  s_width : Z;               (* the Lua global DISPLAY_WIDTH *)
  s_height : Z;              (* DISPLAY_HEIGHT *)
  s_functions : list string; (* the registered functions *)
  s_stack : list lua_value;
}.

Section Main.
(** The linker symbol, the contents of the heap memory and of the frame buffer. *)
Context (heap_start : Z) (pool ctl : gmap Z Z) (fb : list Z).
(** [lua_newstate], [luaL_openlibs] and [lua_newuserdata] allocate through
    [l_alloc]; [LS] is what the Lua state is made of.  The second and the third raise
    an error outside any protected call when memory is short ([None]); the third gives
    the address of the user data.  The status of loading and running [luakernel.lua]. *)
Context {LS : Type} (newstate : client (option LS)) (openlibs : LS -> client (option LS))
  (newuserdata : LS -> Z -> client (option Z)).
Context (load_kernel : started -> Z * lua_value) (run_kernel : started -> Z).

Definition registered : list string :=
  ["clear_screen"; "putpixel"; "swap_buffers"; "outb"; "inb"; "setmaskhook"; "loader";
   "get_timer_ticks"; "get_keyboard_interrupt"; "hlt"]%string.

Definition main (fuel : nat) (ptr : Z) (bs : list Z) : res (main_exit * option started) :=
  g ← get_multiboot_info fuel ptr bs globals_init;
  let '(n, r) := config_heap (heap_end g - heap_start) 64 in
  h ← memsys5Init n r pool ctl;
  '(h, L) ← run_client newstate (sq_init h);
  match L with
  | None => Ok (NoState, None)
  | Some L =>
      '(h, L) ← run_client (openlibs L) h;
      L ← of_option LuaError L;
      p ← buffer_bytes (modeinfo g);
      '(h, buf) ← run_client (newuserdata L (u32 p)) h;
      buf ← of_option LuaError buf;
      d ← display_init (modeinfo g) (read_bytes (zPool (m5 h)) buf (Z.to_nat (u32 p))) fb;
      (* the buffer stays on the stack; luaL_requiref's module is popped *)
      let s := Started g h buf d (XResolution (modeinfo g)) (YResolution (modeinfo g)) registered [LUserdata] in
      let '(status, chunk) := load_kernel s in
      if negb (status =? LUA_OK) then
        Ok (LoadError (tostring ((s_stack s ++ [chunk]) !! 0%nat)), Some s)
      else if negb (run_kernel s =? LUA_OK) then Ok (ScriptError, Some s)
      else Ok (ScriptReturned, Some s)
  end.
End Main.

(** ** Theorems *)

Section Require.
Context (m : memory) (lua_bundle : list module).
Context (loadbuffer : module -> Z * lua_value).
Context (pcall : lua_value -> loaded_table -> Z * list lua_value * loaded_table).
Context (preload : gmap bytes nat) (call : nat -> bytes -> loaded_table -> lua_value * loaded_table).

(** [require] of a name that is neither loaded nor preloaded runs the last
    module of the bundle whose name starts with that name (so a prefix of a
    module's name loads it too), stores the table it returns under the name and
    returns it; the next [require] of the name returns it without running
    anything. *)
Theorem require_loads_last (name : bytes) (modname : Z) (tbl tbl' : loaded_table) (pre post : list module)
    (md : module) (chunk : lua_value) (vs : list lua_value) (id : nat) :
  toboolean (getfield tbl name) = false -> preload !! name = None ->
  lua_bundle = pre ++ md :: post -> name_starts m modname (slen name) md ->
  Forall (fun md => ~ name_starts m modname (slen name) md) post ->
  loadbuffer md = (LUA_OK, chunk) -> pcall chunk tbl = (LUA_OK, vs ++ [LTable id], tbl') ->
  let tbl'' := <[name := LTable id]> tbl' in
  ll_require m lua_bundle loadbuffer pcall preload call name modname tbl = (LTable id, tbl'') /\
  ll_require m lua_bundle loadbuffer pcall preload call name modname tbl'' = (LTable id, tbl'').
Proof.
  intros Hn Hp E Hs Hpost Hl Hc tbl''. split.
  - unfold ll_require. rewrite Hn. unfold findloader. rewrite Hp. unfold lua_loader.
    rewrite (loader_find_last m lua_bundle modname (slen name) pre md post) by (done || apply Nat2Z.is_nonneg).
    rewrite Hl. cbn [negb Z.eqb LUA_OK]. rewrite Hc, app_assoc, last_snoc. cbn [default l_value].
    rewrite Z.eqb_refl. cbn [negb l_value Datatypes.id]. unfold getfield.
    rewrite (decide_False (P := LTable id = LNil)) by done. rewrite lookup_insert_eq. done.
  - unfold ll_require, tbl'', getfield. rewrite lookup_insert_eq. done.
Qed.

(** [require] of a name with which no module of the bundle starts does not
    fail: [true] is stored and returned, because the searcher of the kernel finds
    the function [loader] for every name. *)
Theorem require_missing_true (name : bytes) (modname : Z) (tbl : loaded_table) :
  getfield tbl name = LNil -> preload !! name = None ->
  Forall (fun md => ~ name_starts m modname (slen name) md) lua_bundle ->
  ll_require m lua_bundle loadbuffer pcall preload call name modname tbl =
    (LBool true, <[name := LBool true]> tbl).
Proof.
  intros Hn Hp Hno. unfold ll_require. rewrite Hn. unfold findloader. rewrite Hp. cbn [toboolean].
  unfold lua_loader. destruct (loader_find m lua_bundle modname (slen name)) eqn:E.
  - pose proof (loader_find_spec m lua_bundle modname (slen name) (Nat2Z.is_nonneg _)) as H.
    rewrite E in H. destruct H as (pre & post & -> & Hs & _).
    apply Forall_app in Hno as [_ Hno]. apply Forall_cons_1 in Hno as [Hno _]. done.
  - cbn [l_value]. rewrite (decide_True (P := LNil = LNil)), Hn by done. done.
Qed.
End Require.

(** A bundle with the modules "font" and "luakernel"; the strings "f" and "x"
    are at 40 and 50. *)
Definition bundle_mem : memory := fun a =>
  if a <? 10 then 0
  else if a <? 20 then default 0 ([102; 111; 110; 116] !! Z.to_nat (a - 10))
  else if a <? 40 then default 0 ([108; 117; 97; 107; 101; 114; 110; 101; 108] !! Z.to_nat (a - 20))
  else if a <? 50 then default 0 ([102] !! Z.to_nat (a - 40))
  else default 0 ([120] !! Z.to_nat (a - 50)).

Definition example_bundle : list module := [Module_ 10 [1]; Module_ 20 [2]].

(** Example: [require "f"] loads the module "font". *)
Lemma require_loads_last_witness :
  let require := ll_require bundle_mem example_bundle (fun md => (0, LFunction 1))
    (fun _ tbl => (0, [] ++ [LTable 7], tbl)) ∅ (fun _ _ tbl => (LNil, tbl)) in
  require [102] 40 ∅ = (LTable 7, <[ [102] := LTable 7 ]> ∅) /\
  require [102] 40 (<[ [102] := LTable 7 ]> ∅) = (LTable 7, <[ [102] := LTable 7 ]> ∅).
Proof.
  apply (require_loads_last bundle_mem example_bundle (fun md => (0, LFunction 1))
    (fun _ tbl => (0, [] ++ [LTable 7], tbl)) ∅ (fun _ _ tbl => (LNil, tbl)) [102] 40 ∅ ∅ []
    [Module_ 20 [2]] (Module_ 10 [1]) (LFunction 1) [] 7); [done|done|done| |  |done|done].
  - intros j Hj. assert (j = 0) as -> by (change (slen [102]) with 1 in Hj; lia). done.
  - constructor; [|constructor]. intros H. specialize (H 0 ltac:(by vm_compute)). done.
Defined.

(** Example: [require "x"]. *)
Lemma require_missing_true_witness :
  ll_require bundle_mem example_bundle (fun md => (0, LFunction 1))
    (fun _ tbl => (0, [LTable 7], tbl)) ∅ (fun _ _ tbl => (LNil, tbl)) [120] 50 ∅ =
  (LBool true, <[ [120] := LBool true ]> ∅).
Proof.
  apply (require_missing_true bundle_mem example_bundle); [done|done|].
  repeat constructor; intros H; specialize (H 0 ltac:(by vm_compute)); done.
Defined.






(** A Lua that asks for the state in one block, grows a table while it opens the
    libraries and frees another, and puts a header of 40 bytes before a user data. *)
Definition tiny_newstate : client (option Z) :=
  Realloc None 1040 (fun r => match r with Some p => Store p 8 [1; 2] (Return (Some p)) | None => Return None end).

Definition tiny_openlibs (p : Z) : client (option Z) :=
  Realloc None 64 (fun r => match r with
    | Some q => Realloc (Some q) 128 (fun r =>
        match r with Some q => Realloc (Some q) 0 (fun _ => Return (Some p)) | None => Return None end)
    | None => Return None
    end).

Definition tiny_newuserdata (p n : Z) : client (option Z) :=
  Fetch p 8 (fun _ => Realloc None (n + 40) (fun r => Return ((fun q => q + 40) <$> r))).



(** The whole start computed on a region of 1 MiB, of which 64 KiB are the heap: the
    script is entered. *)
Example tiny_main_runs :
  match main 0x1f0000 ∅ ∅ (replicate 16 0) tiny_newstate tiny_openlibs tiny_newuserdata
    (fun _ => (0, LFunction 1)) (fun _ => 2) 20 0x8000
    (info_bytes 0 [BVbe (replicate 520 0) (tiny_mode 2 2 32 8); BFramebuffer 0xfd000000 (replicate 14 0);
         BMmap 0 [MmapEntry 0x100000 0x100000 1 0]] []) with
  | Ok (exit, Some s) => exit = ScriptError /\ d_buffer (s_display s) = replicate 16 0
  | _ => False
  end.
Proof. vm_compute. split; reflexivity. Qed.
